(* ===== verification/_CoqProject ===== *)
-Q . S2P
Prelude.v
Text.v
Digits.v
Order.v
Ber.v
BerEncode.v
BerWriter.v
BerValue.v
BerDecode.v
BerScan.v
BerRead.v
BerRoundtrip.v
BerSafety.v
BerOid.v
BerOidTheorems.v
Sockbuf.v
BerNet.v
BerNetFacts.v
BerNetTheorems.v
Idl.v
IdlProofs.v
IdlSets.v
IdlUnion.v
IdlTheorems.v
Quorum.v
QuorumConfig.v
QuorumVerdict.v
QuorumInvariant.v
QuorumDirective.v
QuorumTheorems.v
Csn.v
CsnFacts.v
Cookie.v
CookieFacts.v
CookieParse.v
CsnShift.v
Pending.v
CookieTheorems.v
Avl.v
AvlFacts.v
AvlTheorems.v
Rurw.v
RurwSpec.v
RurwRefine.v
RurwTheorems.v
SlMalloc.v
SlHeap.v
SlTheorems.v
Attr.v
AttrTheorems.v
SortVals.v
SortTheorems.v
Id2Entry.v
Id2EntryTheorems.v
Ordered.v
OrderedTheorems.v
Mods.v
ModsTheorems.v
FilterEntry.v
FilterTheorems.v
Base64.v
Ldif.v
LdifWrite.v
LdifRead.v
LdifRecords.v
StrBin.v
StrBinFacts.v
Integers.v
IntegersFacts.v
IntegersTheorems.v
GenTime.v
GenTimeFacts.v
GenTimeForm.v
GenTimeTheorems.v
GenTimeOrder.v
TimeIndex.v
Utf8.v
Utf8Facts.v
Utf8Strings.v
Utf8Theorems.v
