(* ===== verification/Prelude.v ===== *)
(** * ReOpenLDAP: verification of the BER codec, of attributes and filters, of
      the ID lists, and of the replication core and the lock of slapd

    ** The program

    ReOpenLDAP is an LDAP server (slapd) and its client library (libreldap).
    Requests and responses are BER elements, which [libraries/libreldap/io.c],
    [encode.c] and [decode.c] write and read; they pass connections through the
    layers of a socket buffer ([sockbuf.c]). The database backend back-mdb
    keeps sets of entry IDs as the ID lists of [back-mdb/idl.c]. An entry is a
    list of attributes with values ([attr.c], [value.c]); a search tests its
    filter against each candidate ([filterentry.c]), asking access control for
    every attribute it looks at, and a modification adds, deletes or increments
    values ([mods.c]). The memory of an operation comes from a slab
    ([sl_malloc.c]). Tables are kept in the AVL trees of
    [liblutil/avl.c], and the configuration is guarded by the recursive
    readers-writer lock of [rurwl.c]. Entries come from and go to files as LDIF
    ([libreldap/ldif.c]). In a
    multi-master cluster each change gets a CSN, a text with a time stamp and
    the ID of the server; [ctxcsn.c] keeps the CSNs of the operations in
    progress, [ldapsync.c] the cookies (one CSN per server) that consumers and
    providers exchange, and [quorum.c] decides from the states of the
    replication links whether the cluster can be written to. Cookies tell the
    quorum about servers they see for the first time
    ([slap_cookie_merge] calls [quorum_notify_csn]), and the pending queue
    uses the order of CSNs.

    ** The files

    - [Prelude]: machine integers, arrays with checked access, loops with fuel,
      the tactics of the development, lemmas on lists and numbers. [Text]: C
      strings, [strtol], [memcmp], number formatting. [Digits]: the value of
      printed numbers. [Order]: the class
      [Comparison] of what callers promise of a comparison function, and sorted
      lists; trees and sorted attributes are proved against it.
    - BER. [Ber]: [BerElement] and the buffer operations of [io.c].
      [BerEncode]: [encode.c]. [BerDecode] and [BerScan]: [decode.c]. A buffer
      is the list of the allocated octets and the pointers are indices; reading
      or writing outside the list gives [None], so a theorem that a function
      returns [Some] shows that it stays in its buffer. [BerWriter] relates the
      writer to an append-only log, [BerValue] gives the abstract syntax of
      values with its encoding, [BerRead] and [BerRoundtrip] relate the reader
      to a parser on lists of octets, [BerSafety] treats untrusted input.
      [BerOid], [BerOidTheorems]: object identifiers.
    - Connections. [Sockbuf]: the buffers and the layer that reads ahead of
      [sockbuf.c], over the class [Sockbuf_IO] of layers; the class [Stream] of
      what a layer promises, which the layer that reads ahead keeps when the next
      one does, and a wire that cuts octets into pieces.
      [BerNet]: [ber_flush2] and [ber_get_next] of [io.c], with the octets that
      [ber_get_next] keeps in the fields of the element. [BerNetFacts]: where the
      octets of an element are after so many of them; [BerNetTheorems].
    - ID lists. [Idl]: the operations on arrays of 64-bit words whose cell 0 is
      the count or [NOID] for a range. [IdlSets]: the set an array represents.
      [IdlProofs], [IdlUnion]: loop invariants. [IdlTheorems].
    - Entries in the database. [Id2Entry]: [id2entry.c] and the table of attributes of
      [attr.c] in back-mdb; what libmdbx is given and gives is an argument.
      [Id2EntryTheorems]: agreement of the table and the numbers the server knows,
      the words and octets of an entry, the items of values.
    - Quorum. [Quorum]: [quorum.c] up to the gate; [QuorumConfig]: the
      [quorum] directive. [QuorumVerdict]: the abstract voting rule.
      [QuorumInvariant]: the invariant of the object and of its cache.
      [QuorumDirective], [QuorumTheorems].
    - CSNs and cookies. [Csn] and [Cookie]: [ldapsync.c]; [Pending]: the queue
      of [ctxcsn.c]. The class [Env] stands for the run-time modes and the
      clock. The syntax of CSNs in [schema_init.c] is in [Csn]. [CsnFacts] (with sorting),
      [CsnShift], [CookieFacts], [CookieParse], [CookieTheorems].
    - AVL trees. [Avl]: nodes, insertion, deletion, searches and traversals of
      [avl.c]; [AvlFacts]: the invariant (balance factors tell the heights, the
      nodes are in ascending order); [AvlTheorems].
    - Lock. [Rurw]: [rurwl.c] as steps of threads on the shared lock, with the
      mutex and the condition variables of the C library as part of the state;
      [RurwSpec]: the abstract lock, who holds what and how often;
      [RurwRefine]: the simulation; [RurwTheorems].
    - Slab. [SlMalloc]: the stack allocator of [sl_malloc.c] over a memory of
      octets; [SlHeap]: the row of blocks that the words in memory describe;
      [SlTheorems]: the abstract allocator, a finite map from pointers to
      contents, and the simulation.
    - Attributes and filters. [Attr]: [attr.c], [value.c]; matching rules are
      records of functions, as in the schema. [AttrTheorems]: the binary search
      and the insertion into sorted values. [SortVals]: [slap_sort_vals] of
      [modify.c], a quicksort of positions with a stack of its own, which
      establishes the order that [Attr] searches in; [SortTheorems]: its invariant,
      pieces outside which all is in order. [Ordered]: values with
      an index in front (X-ORDERED); [OrderedTheorems]. [Mods]: [mods.c] on the
      list of attributes; [ModsTheorems]. [FilterEntry]: [filterentry.c] over
      the class [Server] (access control, type hierarchy, backend).
      [FilterTheorems].
    - Base64. [Base64]: [liblutil/base64.c].
    - LDIF. [Ldif]: [ldif.c] and [lbase64.c] of libreldap. A buffer is the list of
      its characters, a file the characters that are left of it. [LdifWrite]: the
      line that the writer leaves in its buffer, as a function of name, value and
      width. [LdifRead]: decoding in place, and taking lines apart. [LdifRecords]:
      records in files.
    - Integers. [StrBin]: [lutil_str2bin] of [liblutil/utils.c], numbers of any
      length in two's complement. [Integers]: the integer syntax of
      [schema_init.c], its matching rules and the keys of its index.
      [StrBinFacts], [IntegersFacts]: digits, octets and the numbers that they and
      the keys mean; [IntegersTheorems].
    - Times. [GenTime]: validation, normalisation and ordering of generalized times
      in [schema_init.c]. [GenTimeFacts]: the Gregorian calendar as a count of
      minutes, and the carries between the parts of a time; [GenTimeForm]: the forms
      of the syntax; [GenTimeTheorems]. [GenTimeOrder]: the order of instants and
      fractions. [TimeIndex]: time stamps and their seconds in [liblutil/utils.c] and
      the index of times in [schema_init.c].
    - UTF-8. [Utf8]: [utf-8.c] and [utf-8-conv.c] of libreldap; a C string is
      the list of its octets. [Utf8Facts]: the octets of a character are its
      digits to the base 64 behind a first one that counts them. [Utf8Strings]:
      strings as sequences of characters. [Utf8Theorems].

    An operation that the code can leave by a failed assertion, by [LDAP_BUG]
    or by undefined behaviour returns [None] there; error codes are values.

    ** The theorems

    The properties are numbered C1, C2, ... in their doc comments.
    - BER: what [ber_printf] writes is the encoding of the value, and
      [ber_scanf] reads it back, for values nested to any depth, in BER and
      DER mode; [ber_scanf] with any format and any input stays in the buffer
      and returns, if the buffer ends below 4 GiB; [ber_skip_element] is the parser of definite-length
      elements; integers use the shortest two's complement form; object
      identifiers are read back, and the buffers that the two functions ask for
      are large enough for any input.
    - Connections: a message formatted and flushed at one end is taken in and read at
      the other as the same values, whatever pieces it passes in, and not an octet
      behind it is touched, if it has eight octets or nothing follows it; the octets
      of unfinished calls are kept.
    - ID lists: search, insertion, union and intersection against sets, with
      the conversion of full lists to ranges at the limit of the size.
    - Entries: what is added to the database is read back, also by a server that knows
      other rows of the table of attributes than the one that wrote it; the values
      that are put apart are kept under conditions, which are stated.
    - Quorum: the verdict is the rule of slapd.conf(5) for configurations that do not
      mix the lists, and a rule of its own for all; the cache answers what a new
      computation would after any history of the operations that invalidate it; no
      history of calls trips an assertion.
    - Cookies: sorting, comparing and merging against maps from server IDs to
      CSNs; parsing what is composed; the pending queue only reports a CSN
      below which nothing is pending.
    - AVL trees: insertion and deletion keep the invariant and have the effect
      on the ascending sequence of the nodes; traversals visit in order and
      stop where they are told.
    - Lock: every step of any number of threads is a step of the abstract lock,
      so a writer excludes all others; a thread that could go on is not left
      waiting.
    - Slab: requests for buffers that the clients have, within the sizes that the code
      does not refuse by aborting, are answered as by the abstract allocator, and a heap whose buffers have been freed is as new.
    - Attributes: sorting finds two equal values or puts all in order, and the
      insertions keep the order; a modification adds or removes exactly the
      values it names and keeps the attribute well formed, or fails and leaves
      the entry as it was; ordered values keep their positions in front.
    - Filters: three-valued logic; values that may not be searched have no
      influence; sorted attributes give what a scan gives.
    - Integers: conversion to octets is exact and minimal; comparison is that of
      the numbers; index keys are in the order of the numbers, for every length
      of keys that can be configured, and the indexer stores what a search
      looks up.
    - Base64: exactly the base64 texts are decoded, and into the octets they mean;
      nothing is stored outside the target.
    - LDIF: the buffers for lines are large enough at every width but 1; records
      written in lines of any width, with any octets as values, are read back from
      a file.
    - Times: a time is accepted exactly if it denotes an existing minute of the years
      0 to 9999, and is normalised to it; the ordering rule compares instants and
      fractions without zeros at their ends; from 1970 to 2105 the keys of the index
      are in the order of the times, and until 2099 as far apart as their seconds.
    - UTF-8: the shortest encodings are decoded, and what is no UTF-8 is refused;
      searching and splitting work on characters; the conversions read back.
    - The theorems whose doc comment shows a deviation from a comment or from
      the evident intent of the code are closed examples.

    ** Bounds and fuel

    Loops that are not structural use [loop] of [Prelude] with a fuel that
    the theorems show to be enough: the 32 or 64 halvings of a binary search,
    the length of the remaining input for scanners, 2^31 lines for a record of LDIF,
    twice the number of values
    for the quicksort, whose stack of 64 integers is shown to be enough. Lengths are 64-bit, tags
    32-bit and [int] results 32-bit, with wrap-around written out.
    The index of integers is treated for values of less than 2^27 characters,
    for which its 32-bit arithmetic is exact. [char] is signed, as on x86-64, also
    where the code compares one with an [unsigned char].

    ** Not modelled

    Sockets, TLS, SASL, threads and the daemon; libmdbx (a vendored engine) and
    the parts of back-mdb that work through its cursors; the configuration
    engine, the schema, access control and overlays; the other backends; the
    Unicode tables; the tools. Memory is unlimited except for the sizes the
    code itself refuses, and the locks around the quorum and the pending queue
    are taken as in a sequential run.

    ** Plan

    Left: the validators of the other simple syntaxes
    ([schema_init.c]), the encoding of entries for other backends ([entry.c]),
    [mdb_idl_sort]. *)

From stdpp Require Export base tactics list numbers option.
From stdpp Require Import gmap.

Local Open Scope Z_scope.

(** ** Machine integers

    A [w]-bit unsigned integer is a [Z] in [[0, 2^w)]; the conversions and the
    arithmetic of C reduce modulo [2^w]. *)

Definition uwrap (w z : Z) : Z := z mod 2 ^ w.

(** Conversion to a [w]-bit two's complement signed integer. *)
Definition swrap (w z : Z) : Z := (z + 2 ^ (w - 1)) mod 2 ^ w - 2 ^ (w - 1).

Abbreviation u8 := (uwrap 8).
Abbreviation u32 := (uwrap 32).
Abbreviation u64 := (uwrap 64).
Abbreviation i32 := (swrap 32).

Definition u_ok (w z : Z) : Prop := 0 <= z < 2 ^ w.
Definition byte_ok (b : Z) : Prop := 0 <= b < 256.
Definition bytes_ok (l : list Z) : Prop := Forall byte_ok l.

Global Instance u_ok_dec w z : Decision (u_ok w z).
Proof. unfold u_ok. apply _. Defined.
Global Instance byte_ok_dec b : Decision (byte_ok b).
Proof. unfold byte_ok. apply _. Defined.
Global Instance bytes_ok_dec l : Decision (bytes_ok l).
Proof. unfold bytes_ok. apply _. Defined.

(** ** The development's tactics *)

(** Turn the boolean comparisons of the context into propositions, then [lia]. *)
Ltac bool_hyps :=
  repeat match goal with
  | H : (_ && _)%bool = true |- _ => apply andb_prop in H; destruct H
  | H : (_ || _)%bool = false |- _ => apply orb_false_elim in H; destruct H
  | H : negb _ = true |- _ => apply negb_true_iff in H
  | H : negb _ = false |- _ => apply negb_false_iff in H
  end.

Ltac zb := bool_hyps; repeat match goal with
  | H : (_ =? _) = true |- _ => apply Z.eqb_eq in H
  | H : (_ =? _) = false |- _ => apply Z.eqb_neq in H
  | H : (_ <? _) = true |- _ => apply Z.ltb_lt in H
  | H : (_ <? _) = false |- _ => apply Z.ltb_ge in H
  | H : (_ <=? _) = true |- _ => apply Z.leb_le in H
  | H : (_ <=? _) = false |- _ => apply Z.leb_gt in H
  | H : (_ >? _) = true |- _ => rewrite Z.gtb_ltb in H
  | H : (_ >? _) = false |- _ => rewrite Z.gtb_ltb in H
  | H : (_ >=? _) = true |- _ => rewrite Z.geb_leb in H
  | H : (_ >=? _) = false |- _ => rewrite Z.geb_leb in H
  end.

(** Case analysis on the comparison a branch of the code tests. *)
Ltac case_if :=
  match goal with
  | |- context [if ?b then _ else _] => let E := fresh "E" in destruct b eqn:E
  end.
Ltac case_if_in H :=
  match type of H with
  | context [if ?b then _ else _] => let E := fresh "E" in destruct b eqn:E
  end.

(** Split a hypothesis [x ← e; k = Some v] into its parts. *)
Ltac inv_bind H :=
  let x := fresh "x" in let H1 := fresh "Hb" in
  apply bind_Some in H as (x & H1 & H).

(** Equate results componentwise. *)
Ltac res_eq :=
  repeat match goal with
  | |- Some _ = Some _ => f_equal
  | |- (_, _) = (_, _) => f_equal
  end; try done; try lia.

(** ** Lemmas shared by the components *)

Lemma bind_ret {A B} (x : A) (f : A -> option B) : Some x ≫= f = f x.
Proof. done. Qed.

Lemma uwrap_small w z : 0 <= z < 2 ^ w -> uwrap w z = z.
Proof. intros. unfold uwrap. apply Z.mod_small. lia. Qed.

Lemma uwrap_range w z : 0 <= w -> 0 <= uwrap w z < 2 ^ w.
Proof. intros. unfold uwrap. apply Z.mod_pos_bound. lia. Qed.

Lemma swrap_small w z : 0 < w -> - 2 ^ (w - 1) <= z < 2 ^ (w - 1) -> swrap w z = z.
Proof.
  intros Hw Hz. unfold swrap.
  assert (2 ^ w = 2 * 2 ^ (w - 1)).
  { rewrite <- Z.pow_succ_r by lia. f_equal. lia. }
  rewrite Z.mod_small; lia.
Qed.

Lemma land_255 z : Z.land z 255 = z mod 256.
Proof. change 255 with (Z.ones 8). rewrite Z.land_ones by lia. reflexivity. Qed.

Lemma land_ones_mod z n : 0 <= n -> Z.land z (2 ^ n - 1) = z mod 2 ^ n.
Proof. intros. rewrite Z.sub_1_r, <- Z.ones_equiv. apply Z.land_ones; lia. Qed.

(** Appending low bits to a shifted value is an addition. *)
Lemma lor_shiftl_low a b n :
  0 <= n -> 0 <= b < 2 ^ n -> Z.lor (Z.shiftl a n) b = a * 2 ^ n + b.
Proof.
  intros Hn Hb. rewrite <- Z.shiftl_mul_pow2 by lia.
  symmetry. apply Z.add_nocarry_lor.
  apply Z.bits_inj'. intros i Hi.
  rewrite Z.land_spec, Z.bits_0.
  destruct (Z.lt_ge_cases i n).
  - rewrite Z.shiftl_spec_low by lia. reflexivity.
  - rewrite <- (Z.mod_small b (2 ^ n)) by lia.
    rewrite Z.mod_pow2_bits_high by lia. apply andb_false_r.
Qed.

Lemma byte_ok_mod z : byte_ok (z mod 256).
Proof. unfold byte_ok. apply Z.mod_pos_bound. lia. Qed.

Lemma bytes_ok_app l1 l2 : bytes_ok (l1 ++ l2) <-> bytes_ok l1 /\ bytes_ok l2.
Proof. apply Forall_app. Qed.

Lemma bytes_ok_cons b l : bytes_ok (b :: l) <-> byte_ok b /\ bytes_ok l.
Proof. apply Forall_cons. Qed.

Lemma bytes_ok_nil : bytes_ok [].
Proof. constructor. Qed.

Lemma bytes_ok_lookup l i b : bytes_ok l -> l !! i = Some b -> byte_ok b.
Proof. intros H ?. unfold bytes_ok in H. rewrite Forall_lookup in H. eauto. Qed.

Lemma bytes_ok_take n l : bytes_ok l -> bytes_ok (take n l).
Proof. apply Forall_take. Qed.
Lemma bytes_ok_drop n l : bytes_ok l -> bytes_ok (drop n l).
Proof. apply Forall_drop. Qed.

Create HintDb mach.
#[export] Hint Resolve byte_ok_mod bytes_ok_nil bytes_ok_take bytes_ok_drop : mach.

(** Octet lists built by consing and appending octets. *)
Ltac solve_bytes :=
  repeat first [ assumption | apply bytes_ok_nil | solve [auto with mach]
               | apply bytes_ok_app; split | apply bytes_ok_cons; split
               | unfold byte_ok; lia ].

(** ** Facts about all octets, checked one by one *)

Definition all_bytes : list Z := Z.of_nat <$> seq 0 256.

Lemma byte_check (P : Z -> bool) :
  forallb P all_bytes = true -> forall b, byte_ok b -> P b = true.
Proof.
  intros HP b [? ?]. rewrite forallb_forall in HP. apply HP.
  apply list_elem_of_In, list_elem_of_fmap. exists (Z.to_nat b).
  split; [lia|]. apply elem_of_seq. lia.
Qed.

(** Bit tests only see the low octet. *)
Lemma land_low z m : 0 <= m < 256 -> Z.land z m = Z.land (z mod 256) m.
Proof.
  intros Hm. rewrite <- land_255, <- Z.land_assoc. f_equal.
  rewrite Z.land_comm, land_255, Z.mod_small; lia.
Qed.

Lemma land_high_bit z : (Z.land z 0x80 =? 0) = (z mod 256 <? 128).
Proof.
  rewrite land_low by lia.
  apply Bool.eqb_prop.
  apply (byte_check (fun b => Bool.eqb (Z.land b 128 =? 0) (b <? 128))); [done|].
  apply byte_ok_mod.
Qed.

(** ** The number that octets denote, the highest first *)

Definition be_val (l : list Z) : Z := foldl (fun a b => a * 256 + b) 0 l.

Lemma be_val_snoc l x : be_val (l ++ [x]) = be_val l * 256 + x.
Proof. unfold be_val. by rewrite foldl_app. Qed.

Lemma be_val_app l1 l2 : be_val (l1 ++ l2) = be_val l1 * 256 ^ Z.of_nat (length l2) + be_val l2.
Proof.
  induction l2 as [|x l2 IH] using rev_ind; simpl.
  - rewrite app_nil_r. unfold be_val at 3. simpl. lia.
  - rewrite app_assoc, !be_val_snoc, IH, length_app.
    rewrite Nat2Z.inj_add, Z.pow_add_r by lia.
    change (256 ^ Z.of_nat (length [x])) with 256. ring.
Qed.

Lemma be_val_bound l : bytes_ok l -> 0 <= be_val l < 256 ^ Z.of_nat (length l).
Proof.
  induction l as [|x l IH] using rev_ind; [unfold be_val; simpl; lia|].
  intros [Hl Hx]%bytes_ok_app. specialize (IH Hl).
  apply bytes_ok_cons in Hx as [Hx _]. unfold byte_ok in Hx.
  rewrite be_val_snoc, length_app, Nat2Z.inj_add, Z.pow_add_r by lia.
  change (256 ^ Z.of_nat (length [x])) with 256. lia.
Qed.

Lemma be_val_one b : be_val [b] = b.
Proof. unfold be_val. cbn. lia. Qed.

Lemma be_val_cons b l : be_val (b :: l) = b * 256 ^ Z.of_nat (length l) + be_val l.
Proof. change (b :: l) with ([b] ++ l). by rewrite be_val_app, be_val_one. Qed.

(** The order of octets, as of memcmp. *)
Fixpoint cmp_octets (a b : list Z) : Z :=
  match a, b with
  | x :: a, y :: b => if x <? y then -1 else if y <? x then 1 else cmp_octets a b
  | _, _ => 0
  end.

Lemma cmp_octets_val a : forall b, length a = length b -> bytes_ok a -> bytes_ok b -> cmp_octets a b = Z.sgn (be_val a - be_val b).
Proof.
  induction a as [|x a IH]; intros [|y b] Hl Ha Hb; try done. injection Hl as Hl.
  apply bytes_ok_cons in Ha as [Hx Ha]. apply bytes_ok_cons in Hb as [Hy Hb]. cbn [cmp_octets]. rewrite IH, !be_val_cons, Hl by done.
  pose proof (be_val_bound a Ha) as Ba. pose proof (be_val_bound b Hb) as Bb. rewrite Hl in Ba.
  destruct (x <? y) eqn:E1; zb; [symmetry; apply Z.sgn_neg; nia|].
  destruct (y <? x) eqn:E2; zb; [symmetry; apply Z.sgn_pos; nia|]. f_equal. assert (x = y) as -> by lia. lia.
Qed.

Lemma be_val_inj a : forall b, bytes_ok a -> bytes_ok b -> length a = length b -> be_val a = be_val b -> a = b.
Proof.
  induction a as [|x a IH]; intros [|y b] Ha Hb Hl Hv; try done. injection Hl as Hl. rewrite !be_val_cons, Hl in Hv.
  apply bytes_ok_cons in Ha as [Hx Ha]. apply bytes_ok_cons in Hb as [Hy Hb].
  pose proof (be_val_bound a Ha) as Ba. pose proof (be_val_bound b Hb) as Bb. rewrite Hl in Ba.
  assert (x = y) as -> by nia. f_equal. apply IH; (done || lia).
Qed.

Lemma pow256_S n : 256 ^ Z.of_nat (S n) = 256 * 256 ^ Z.of_nat n.
Proof. rewrite Nat2Z.inj_succ, Z.pow_succ_r; lia. Qed.

Lemma pow256_pos n : 0 < 256 ^ n \/ n < 0.
Proof. destruct (decide (n < 0)); [by right|left]. apply Z.pow_pos_nonneg; lia. Qed.

(** ** Memory: an allocation is the list of its octets

    A pointer into an allocation is an offset.  [mem_write] is [memcpy] into
    the allocation: writing past its end is undefined behaviour, modelled by
    [None]. *)

Definition mem_write {A} (mem : list A) (off : nat) (data : list A) : option (list A) :=
  if decide (off + length data <= length mem)%nat
  then Some (take off mem ++ data ++ drop (off + length data) mem)
  else None.

Definition mem_read {A} (mem : list A) (off len : nat) : option (list A) :=
  if decide (off + len <= length mem)%nat then Some (take len (drop off mem)) else None.

Section memory.
Context {A : Type}.
Implicit Types mem data : list A.

Lemma mem_write_Some mem off data mem' :
  mem_write mem off data = Some mem' ->
  (off + length data <= length mem)%nat /\ length mem' = length mem /\
  mem' = take off mem ++ data ++ drop (off + length data) mem.
Proof.
  unfold mem_write. case_decide as Hd; [|done]. intros [= <-].
  split; [done|]. split; [|done].
  rewrite !length_app, length_take, length_drop. lia.
Qed.

Lemma mem_write_is_Some mem off data :
  (off + length data <= length mem)%nat -> is_Some (mem_write mem off data).
Proof. intros. unfold mem_write. rewrite decide_True by done. eauto. Qed.

Lemma mem_write_take mem off data mem' :
  mem_write mem off data = Some mem' ->
  take (off + length data) mem' = take off mem ++ data.
Proof.
  intros (? & ? & ->)%mem_write_Some.
  assert (length (take off mem) = off) by (rewrite length_take; lia).
  rewrite app_assoc, take_app_le by (rewrite length_app; lia).
  rewrite take_ge; [done|]. rewrite length_app. lia.
Qed.

Lemma mem_write_drop mem off data mem' :
  mem_write mem off data = Some mem' ->
  drop (off + length data) mem' = drop (off + length data) mem.
Proof.
  intros (? & ? & ->)%mem_write_Some.
  assert (length (take off mem) = off) by (rewrite length_take; lia).
  rewrite app_assoc, drop_app_ge by (rewrite length_app; lia).
  rewrite length_app. replace (_ - _)%nat with 0%nat by lia. done.
Qed.

Lemma mem_write_lookup_out mem off data mem' i :
  mem_write mem off data = Some mem' ->
  (i < off \/ off + length data <= i)%nat -> mem' !! i = mem !! i.
Proof.
  intros (? & ? & ->)%mem_write_Some Hi.
  assert (length (take off mem) = off) by (rewrite length_take; lia).
  destruct Hi as [Hi|Hi].
  - rewrite lookup_app_l by lia. rewrite lookup_take. rewrite decide_True by lia. done.
  - rewrite app_assoc, lookup_app_r by (rewrite length_app; lia).
    rewrite lookup_drop, length_app. f_equal. lia.
Qed.

(** Reads and writes of an allocation split into its parts. *)
Lemma mem_write_app (u x v data : list A) off :
  off = length u -> length x = length data ->
  mem_write (u ++ x ++ v) off data = Some (u ++ data ++ v).
Proof.
  intros -> Hx. unfold mem_write. rewrite decide_True by (rewrite !length_app; lia).
  f_equal. rewrite take_app_le, take_ge by lia. f_equal. f_equal.
  rewrite <- Hx, drop_app_ge by lia. rewrite drop_app_ge by lia.
  replace (_ - _ - _)%nat with 0%nat by lia. done.
Qed.

Lemma mem_read_app (u x v : list A) off len :
  off = length u -> len = length x -> mem_read (u ++ x ++ v) off len = Some x.
Proof.
  intros -> ->. unfold mem_read. rewrite decide_True by (rewrite !length_app; lia).
  f_equal. rewrite drop_app_ge by lia. rewrite Nat.sub_diag, drop_0.
  rewrite take_app_le, take_ge by lia. done.
Qed.
End memory.

(** ** Arrays indexed by integers

    Reading or writing outside the array is undefined behaviour ([None]). *)

Definition arr_get {A} (a : list A) (i : Z) : option A :=
  if i <? 0 then None else a !! Z.to_nat i.

Definition arr_set {A} (a : list A) (i : Z) (x : A) : option (list A) :=
  if (0 <=? i) && (i <? Z.of_nat (length a)) then Some (<[Z.to_nat i := x]> a) else None.

(** ** Loops

    [loop k step s] runs [step] until it returns [inr], at most [2^k] times;
    [None] is undefined behaviour inside the body.  [run] is the loop with its
    result: [None] also when the [2^k] steps were not enough. *)

Section loops.
Context {S R : Type} (step : S -> option (S + R)).

Fixpoint loop (k : nat) (s : S) : option (S + R) :=
  match k with
  | O => step s
  | Datatypes.S k =>
      r ← loop k s;
      match r with inl s => loop k s | inr r => Some (inr r) end
  end.

Definition run (k : nat) (s : S) : option R :=
  r ← loop k s; match r with inl _ => None | inr r => Some r end.

(** Total correctness: an invariant, and a measure below [2^k] that every turn
    decreases. *)
Variables (Inv : S -> Prop) (m : S -> Z) (Post : R -> Prop).
Hypothesis step_ok : forall s, Inv s -> 0 <= m s /\ exists r, step s = Some r /\
  match r with inl s' => Inv s' /\ m s' < m s | inr r => Post r end.

Lemma loop_ok k s : Inv s -> exists r, loop k s = Some r /\
  match r with inl s' => Inv s' /\ m s' <= m s - 2 ^ Z.of_nat k | inr r => Post r end.
Proof.
  revert s. induction k as [|k IH]; intros s Hs.
  { destruct (step_ok s Hs) as (_ & r & Hr & H). exists r. split; [done|].
    destruct r; [|done]. destruct H. split; [done|]. simpl. lia. }
  destruct (IH s Hs) as (r & Hr & H). cbn [loop]. rewrite Hr. cbn [mbind option_bind].
  destruct r as [s1|r]; [|by exists (inr r)]. destruct H as [Hs1 Hm1].
  destruct (IH s1 Hs1) as (r2 & Hr2 & H2). exists r2. split; [done|].
  destruct r2; [|done]. destruct H2. split; [done|].
  rewrite Nat2Z.inj_succ, Z.pow_succ_r by lia. lia.
Qed.

Lemma run_ok k s : Inv s -> m s < 2 ^ Z.of_nat k -> exists r, run k s = Some r /\ Post r.
Proof.
  intros Hs Hm. destruct (loop_ok k s Hs) as (r & Hr & H). unfold run. rewrite Hr.
  cbn [mbind option_bind]. destruct r as [s'|r]; [|by exists r].
  destruct H as [Hs' Hle]. destruct (step_ok s' Hs') as [? _]. lia.
Qed.
End loops.

Lemma arr_get_nat {A} (a : list A) (i : nat) : arr_get a (Z.of_nat i) = a !! i.
Proof. unfold arr_get. case_if; zb; [lia|]. by rewrite Nat2Z.id. Qed.

Lemma arr_get_Some {A} (a : list A) i x :
  arr_get a i = Some x <-> 0 <= i /\ a !! Z.to_nat i = Some x.
Proof.
  unfold arr_get. case_if; zb; [split; [done|intros [? _]; lia]|].
  split; [by split|by intros [_ ?]].
Qed.

Lemma arr_get_is_Some {A} (a : list A) i : 0 <= i < Z.of_nat (length a) -> is_Some (arr_get a i).
Proof.
  intros. unfold arr_get. case_if; zb; [lia|]. apply lookup_lt_is_Some_2. lia.
Qed.

Lemma arr_set_Some {A} (a : list A) i x :
  0 <= i < Z.of_nat (length a) -> arr_set a i x = Some (<[Z.to_nat i := x]> a).
Proof. intros. unfold arr_set. case_if; [done|]. apply andb_false_iff in E as [E|E]; zb; lia. Qed.

Lemma arr_get_0 {A} (x : A) a : arr_get (x :: a) 0 = Some x.
Proof. done. Qed.

Lemma arr_set_0 {A} (x y : A) a : arr_set (x :: a) 0 y = Some (y :: a).
Proof. rewrite arr_set_Some by (simpl; lia). done. Qed.
Lemma arr_set_1 {A} (x y z : A) a : arr_set (x :: y :: a) 1 z = Some (x :: z :: a).
Proof. rewrite arr_set_Some by (simpl; lia). done. Qed.
Lemma arr_set_2 {A} (w x y z : A) a : arr_set (w :: x :: y :: a) 2 z = Some (w :: x :: z :: a).
Proof. rewrite arr_set_Some by (simpl; lia). done. Qed.

Lemma arr_get_mid {A} (u : list A) z v i : i = Z.of_nat (length u) -> arr_get (u ++ z :: v) i = Some z.
Proof. intros ->. rewrite arr_get_nat. by rewrite list_lookup_middle. Qed.

Lemma arr_set_mid {A} (u : list A) z v i y :
  i = Z.of_nat (length u) -> arr_set (u ++ z :: v) i y = Some (u ++ y :: v).
Proof.
  intros ->. rewrite arr_set_Some by (rewrite length_app; simpl; lia). rewrite Nat2Z.id.
  rewrite <- (Nat.add_0_r (length u)), insert_app_r. done.
Qed.

(** Down to a multiple of eight. *)
Lemma land_align8 x : 0 <= x < 2 ^ 64 -> Z.land x (u64 (- 8)) = 8 * (x / 8).
Proof.
  intros Hx. change (u64 (- 8)) with (Z.shiftl (Z.ones 61) 3).
  replace (8 * (x / 8)) with (Z.shiftl (x / 8) 3) by (rewrite Z.shiftl_mul_pow2 by lia; change (2 ^ 3) with 8; lia).
  apply Z.bits_inj'. intros i Hi. rewrite Z.land_spec. destruct (Z.lt_ge_cases i 3).
  - rewrite !Z.shiftl_spec_low by done. apply andb_false_r.
  - rewrite !Z.shiftl_spec by done. change 8 with (2 ^ 3). rewrite Z.div_pow2_bits by lia. replace (i - 3 + 3) with i by lia.
    destruct (Z.lt_ge_cases i 64).
    + rewrite Z.ones_spec_low by lia. apply andb_true_r.
    + rewrite <- (Z.mod_small x (2 ^ 64)) by lia. by rewrite Z.mod_pow2_bits_high by lia.
Qed.
