(* ===== verification/Text.v ===== *)
(** * C strings and numbers

    A C string is the list of its characters before the terminating NUL.  What
    the modelled code uses of the C library: [strtol], [strcasecmp], [memcmp],
    the conversions of [printf]. *)

From stdpp Require Import base list numbers option.
From Stdlib Require Import Ascii String.
From S2P Require Import Prelude.

Local Open Scope Z_scope.

Abbreviation text := (list ascii).

(** ** Numbers *)

Definition ascii_code (c : ascii) : Z := Z.of_N (N_of_ascii c).

Definition isspace (c : ascii) : bool :=
  let n := ascii_code c in (n =? 32) || ((9 <=? n) && (n <=? 13)).

(** The value of a digit in bases up to 36. *)
Definition digit_val (c : ascii) : option Z :=
  let n := ascii_code c in
  if (48 <=? n) && (n <=? 57) then Some (n - 48)
  else if (97 <=? n) && (n <=? 122) then Some (n - 87)
  else if (65 <=? n) && (n <=? 90) then Some (n - 55)
  else None.

Definition digit_in (base : Z) (c : ascii) : option Z :=
  d ← digit_val c; if d <? base then Some d else None.

Fixpoint skip_space (s : text) : text :=
  match s with c :: s' => if isspace c then skip_space s' else s | [] => [] end.

Fixpoint read_digits (base acc : Z) (s : text) : Z * text :=
  match s with
  | c :: s' => match digit_in base c with
               | Some d => read_digits base (acc * base + d) s'
               | None => (acc, s)
               end
  | [] => (acc, [])
  end.

(** The number that a text begins with and what follows; [None] when there is no
    number. Bases 8, 10 and 16. *)
Definition strtol_exact (s : text) (base : Z) : option (Z * text) :=
  let s := skip_space s in
  let '(neg, s) := match s with
    | c :: s' => if Ascii.eqb c "-" then (true, s') else if Ascii.eqb c "+" then (false, s') else (false, s)
    | [] => (false, [])
    end in
  let s := match s with
    | z :: x :: d :: s' =>
        if (base =? 16) && Ascii.eqb z "0" && ((ascii_code x =? 120) || (ascii_code x =? 88)) &&
           bool_decide (is_Some (digit_in 16 d)) then d :: s' else s
    | _ => s
    end in
  match s with
  | c :: _ =>
      match digit_in base c with
      | None => None
      | Some _ => let '(v, rest) := read_digits base 0 s in Some (if neg : bool then - v else v, rest)
      end
  | [] => None
  end.

(** [strtol]: the number is clamped to the range of [long]. *)
Definition strtol (s : text) (base : Z) : option (Z * text) :=
  '(v, rest) ← strtol_exact s base; Some (Z.max (- 2 ^ 63) (Z.min (2 ^ 63 - 1) v), rest).

(** ** Words *)

Definition tolower (c : ascii) : ascii :=
  let n := ascii_code c in
  if (65 <=? n) && (n <=? 90) then ascii_of_N (Z.to_N (n + 32)) else c.

Definition strcasecmp_eq (a b : text) : bool := bool_decide (tolower <$> a = tolower <$> b).

(** "%d" and "%x" *)
Definition digit_char (d : Z) : ascii := ascii_of_N (Z.to_N (if d <? 10 then 48 + d else 87 + d)).

Fixpoint digits_of (fuel : nat) (base n : Z) (acc : text) : text :=
  match fuel with
  | O => acc
  | S fuel =>
      let acc := digit_char (n mod base) :: acc in
      if n <? base then acc else digits_of fuel base (n / base) acc
  end.

Definition fmt_d (n : Z) : text :=
  if n <? 0 then "-"%char :: digits_of 20 10 (- n) [] else digits_of 20 10 n [].

(** "%0<w>d" (base 10) and "%0<w>x" (base 16) of a number that is not negative *)
Definition fmt_pad (base : Z) (w : nat) (n : Z) : text :=
  let s := digits_of 20 base n [] in replicate (w - List.length s) "0"%char ++ s.

(** ** Memory *)

(** A character as a [char], which is signed. *)
Definition schar (c : ascii) : Z := swrap 8 (ascii_code c).

(** The character at an index; the terminating NUL behind the last one. *)
Definition char_at (s : text) (i : nat) : ascii := default "000"%char (s !! i).

(** The sign of [memcmp] over two pieces of the same length. *)
Fixpoint memcmp (a b : text) : Z :=
  match a, b with
  | x :: a, y :: b =>
      if ascii_code x <? ascii_code y then -1
      else if ascii_code y <? ascii_code x then 1
      else memcmp a b
  | _, _ => 0
  end.

Definition sub (s : text) (off n : nat) : text := take n (drop off s).

Definition no_nul (s : text) : bool := forallb (fun c => negb (ascii_code c =? 0)) s.

Definition kw (s : string) : text := list_ascii_of_string s.

(** ** The order of [memcmp]

    It is total on texts of one length. *)

Lemma ascii_code_inj x y : ascii_code x = ascii_code y -> x = y.
Proof. unfold ascii_code. intros H%N2Z.inj. rewrite <- (ascii_N_embedding x), <- (ascii_N_embedding y). by rewrite H. Qed.

Lemma ascii_code_range c : 0 <= ascii_code c < 256.
Proof. unfold ascii_code. pose proof (N_ascii_bounded c). lia. Qed.

Lemma memcmp_refl a : memcmp a a = 0.
Proof. induction a as [|x a IH]; cbn; [done|]. by rewrite Z.ltb_irrefl. Qed.

Lemma memcmp_antisym a b : memcmp b a = - memcmp a b.
Proof.
  revert b. induction a as [|x a IH]; intros [|y b]; cbn; try done.
  destruct (Z.ltb_spec (ascii_code x) (ascii_code y)), (Z.ltb_spec (ascii_code y) (ascii_code x)); (lia || done || apply IH).
Qed.

Lemma memcmp_range a b : memcmp a b = -1 \/ memcmp a b = 0 \/ memcmp a b = 1.
Proof.
  revert b. induction a as [|x a IH]; intros [|y b]; cbn; auto. do 2 (case_if; [auto|]). apply IH.
Qed.

Lemma memcmp_eq a b : List.length a = List.length b -> memcmp a b = 0 -> a = b.
Proof.
  revert b. induction a as [|x a IH]; intros [|y b] Hl H; cbn in *; try done.
  do 2 (case_if_in H; [done|]). zb. f_equal; [apply ascii_code_inj; lia|]. apply IH; [lia|done].
Qed.

Lemma memcmp_trans a b c :
  List.length a = List.length b -> List.length b = List.length c ->
  memcmp a b <= 0 -> memcmp b c <= 0 -> memcmp a c <= 0.
Proof.
  revert b c. induction a as [|x a IH]; intros [|y b] [|z c] H1 H2 Hab Hbc; cbn in *; try done.
  destruct (Z.ltb_spec (ascii_code x) (ascii_code y)), (Z.ltb_spec (ascii_code y) (ascii_code x)),
    (Z.ltb_spec (ascii_code y) (ascii_code z)), (Z.ltb_spec (ascii_code z) (ascii_code y)),
    (Z.ltb_spec (ascii_code x) (ascii_code z)), (Z.ltb_spec (ascii_code z) (ascii_code x)); try lia.
  apply (IH b c); lia.
Qed.

Lemma memcmp_app a1 a2 b1 b2 :
  List.length a1 = List.length b1 ->
  memcmp (a1 ++ a2) (b1 ++ b2) = if memcmp a1 b1 =? 0 then memcmp a2 b2 else memcmp a1 b1.
Proof.
  revert b1. induction a1 as [|x a1 IH]; intros [|y b1] H; cbn in *; try done.
  do 2 (case_if; [done|]). apply IH. lia.
Qed.

(** What holds of each of the 256 characters. *)
Lemma ascii_table (P : ascii -> bool) :
  forallb (fun n => P (ascii_of_nat n)) (seq 0 256) = true -> forall c, P c = true.
Proof.
  intros Ht c. rewrite forallb_forall in Ht. rewrite <- (ascii_nat_embedding c). apply Ht, in_seq.
  pose proof (nat_ascii_bounded c). lia.
Qed.
