(* ===== verification/Digits.v ===== *)
(** * Numbers as digits

    The value of a text of digits, and that printing a number gives the digits
    of its value. *)

From stdpp Require Import base list numbers option.
From Stdlib Require Import Ascii String.
From S2P Require Import Prelude Text.

Local Open Scope Z_scope.

(** ** Reading *)

Definition digits_value (base acc : Z) (ds : text) : Z :=
  fold_left (fun a c => a * base + default 0 (digit_in base c)) ds acc.

Definition all_digits (base : Z) (ds : text) : bool := forallb (fun c => bool_decide (is_Some (digit_in base c))) ds.

Definition no_digit_first (base : Z) (s : text) : Prop :=
  match s with [] => True | c :: _ => digit_in base c = None end.

Lemma digit_in_range base c d : digit_in base c = Some d -> 0 <= d < base.
Proof.
  unfold digit_in. intros Hd. inv_bind Hd. case_if_in Hd; [|done]. injection Hd as <-. zb. split; [|done].
  unfold digit_val in Hb. pose proof (ascii_code_range c). repeat case_if_in Hb; zb; simplify_eq; lia.
Qed.

Lemma digits_value_ge base ds acc : 1 < base -> 0 <= acc -> acc <= digits_value base acc ds.
Proof.
  intros Hb. revert acc. induction ds as [|c ds IH]; intros acc Ha; [done|].
  unfold digits_value. cbn [fold_left]. fold (digits_value base (acc * base + default 0 (digit_in base c)) ds).
  assert (0 <= default 0 (digit_in base c)).
  { destruct (digit_in base c) eqn:E; cbn; [|done]. apply digit_in_range in E. lia. }
  assert (acc <= acc * base) by nia. etrans; [|apply IH]; lia.
Qed.

Lemma read_digits_app base acc ds rest :
  all_digits base ds = true -> no_digit_first base rest ->
  read_digits base acc (ds ++ rest) = (digits_value base acc ds, rest).
Proof.
  intros Hd Hr. revert acc. induction ds as [|c ds IH]; intros acc.
  { destruct rest as [|c rest]; cbn in *; [done|]. by rewrite Hr. }
  cbn [all_digits forallb] in Hd. apply andb_true_iff in Hd as [[d Hc]%bool_decide_eq_true Hd].
  cbn [app read_digits]. rewrite Hc, IH by done. unfold digits_value. cbn [fold_left]. by rewrite Hc.
Qed.

(** ** Printing *)

Lemma digits_value_app base a ds es : digits_value base a (ds ++ es) = digits_value base (digits_value base a ds) es.
Proof. unfold digits_value. apply fold_left_app. Qed.

Lemma digits_value_shift base a ds : digits_value base a ds = a * base ^ Z.of_nat (List.length ds) + digits_value base 0 ds.
Proof.
  revert a. induction ds as [|c ds IH] using rev_ind; intros a; [cbn; lia|].
  rewrite !digits_value_app, length_app, IH. cbn [List.length]. rewrite Nat2Z.inj_add, Z.pow_add_r by lia.
  unfold digits_value at 1 3. cbn [fold_left]. change (base ^ Z.of_nat 1) with (base ^ 1). rewrite Z.pow_1_r. lia.
Qed.

Lemma digits_value_bound base ds : 1 < base -> 0 <= digits_value base 0 ds < base ^ Z.of_nat (List.length ds).
Proof.
  intros Hb. induction ds as [|c ds IH] using rev_ind; [cbn; lia|].
  rewrite digits_value_app, length_app. cbn [List.length]. rewrite Nat2Z.inj_add, Z.pow_add_r by lia.
  unfold digits_value at 1 3. cbn [fold_left]. change (base ^ Z.of_nat 1) with (base ^ 1). rewrite Z.pow_1_r.
  assert (0 <= default 0 (digit_in base c) < base).
  { destruct (digit_in base c) eqn:E; cbn; [|lia]. by apply digit_in_range in E. }
  nia.
Qed.

Lemma digit_char_in base d : 1 < base <= 16 -> 0 <= d < base -> digit_in base (digit_char d) = Some d.
Proof.
  intros Hb Hd. assert (digit_val (digit_char d) = Some d) as E.
  { assert (forallb (fun n => bool_decide (digit_val (digit_char (Z.of_nat n)) = Some (Z.of_nat n))) (seq 0 16) = true) as Ht
      by (vm_compute; reflexivity).
    rewrite forallb_forall in Ht. specialize (Ht (Z.to_nat d)). rewrite Z2Nat.id in Ht by lia.
    eapply bool_decide_eq_true, Ht, in_seq. lia. }
  unfold digit_in. rewrite E. cbn. by rewrite (proj2 (Z.ltb_lt _ _)) by lia.
Qed.

Lemma digits_of_spec fuel base n acc k :
  1 < base <= 16 -> 0 <= n < base ^ Z.of_nat k -> (1 <= k <= fuel)%nat ->
  exists ds, digits_of fuel base n acc = ds ++ acc /\ all_digits base ds = true /\
    digits_value base 0 ds = n /\ (List.length ds <= k)%nat.
Proof.
  intros Hb. revert n acc k. induction fuel as [|fuel IH]; intros n acc k Hn Hk; [lia|]. cbn [digits_of].
  pose proof (Z.mod_pos_bound n base ltac:(lia)). pose proof (Z.div_mod n base ltac:(lia)).
  pose proof (digit_char_in base (n mod base) Hb ltac:(lia)) as Hd. case_if; zb.
  - exists [digit_char (n mod base)]. rewrite Z.mod_small in * by lia. split_and!; [done| | |cbn; lia].
    + cbn. by rewrite Hd.
    + unfold digits_value. cbn [fold_left]. rewrite Hd. cbn. lia.
  - destruct k as [|k]; [lia|]. rewrite Nat2Z.inj_succ, Z.pow_succ_r in Hn by lia.
    assert (0 <= n / base < base ^ Z.of_nat k) as Hq by nia.
    destruct (IH (n / base) (digit_char (n mod base) :: acc) k Hq) as (ds & E1 & H1 & H2 & H3).
    { destruct k; [|lia]. cbn in Hq. assert (n / base = 0) by lia. lia. }
    exists (ds ++ [digit_char (n mod base)]). rewrite <- app_assoc. split_and!; [done| | |].
    + unfold all_digits in *. rewrite forallb_app, H1. cbn. by rewrite Hd.
    + rewrite digits_value_app, H2. unfold digits_value. cbn [fold_left]. rewrite Hd. cbn. lia.
    + rewrite length_app. cbn. lia.
Qed.

Lemma zero_digit base : 1 < base -> digit_in base "0" = Some 0.
Proof.
  intros Hb. unfold digit_in. change (digit_val "0") with (Some 0). cbn [mbind option_bind].
  by rewrite (proj2 (Z.ltb_lt 0 base)) by lia.
Qed.

Lemma zeros_value base k ds : 1 < base -> digits_value base 0 (replicate k "0"%char ++ ds) = digits_value base 0 ds.
Proof.
  intros Hb. induction k as [|k IH]; [done|]. cbn [replicate app]. unfold digits_value. cbn [fold_left].
  rewrite zero_digit by done. exact IH.
Qed.

(** A number printed with leading zeros has that many digits and its value. *)
Lemma fmt_pad_spec base w n :
  1 < base <= 16 -> (1 <= w <= 20)%nat -> 0 <= n < base ^ Z.of_nat w ->
  List.length (fmt_pad base w n) = w /\ all_digits base (fmt_pad base w n) = true /\ digits_value base 0 (fmt_pad base w n) = n.
Proof.
  intros Hb Hw Hn. unfold fmt_pad. destruct (digits_of_spec 20 base n [] w Hb Hn ltac:(lia)) as (ds & -> & H1 & H2 & H3).
  rewrite app_nil_r. split_and!.
  - rewrite length_app, length_replicate. lia.
  - unfold all_digits in *. rewrite forallb_app, H1, andb_true_r. apply forallb_forall. intros c Hc.
    apply list_elem_of_In, elem_of_replicate in Hc as [-> _]. apply bool_decide_eq_true. exists 0. apply zero_digit. lia.
  - by rewrite zeros_value by lia.
Qed.

Lemma size_of_number n : 0 < n < 10 ^ 10 -> exists k, (1 <= k <= 10)%nat /\ 10 ^ (Z.of_nat k - 1) <= n < 10 ^ Z.of_nat k.
Proof.
  intros Hn. assert (forall k : nat, (k <= 10)%nat -> n < 10 ^ Z.of_nat k ->
    exists j, (1 <= j <= k)%nat /\ 10 ^ (Z.of_nat j - 1) <= n < 10 ^ Z.of_nat j) as H.
  { induction k as [|k IH]; intros Hk Hlt; [cbn in Hlt; lia|]. destruct (decide (n < 10 ^ Z.of_nat k)) as [E|E].
    - destruct (IH ltac:(lia) E) as (j & Hj & ?). exists j. split; [lia|done].
    - exists (S k). split; [lia|]. replace (Z.of_nat (S k) - 1) with (Z.of_nat k) by lia. lia. }
  destruct (H 10%nat ltac:(lia) ltac:(lia)) as (j & Hj & ?). by exists j.
Qed.

Lemma digit_not c (P : ascii -> bool) :
  forallb P (list_ascii_of_string "0123456789") = true -> is_Some (digit_in 10 c) -> P c = true.
Proof.
  intros HP Hc. assert (implb (bool_decide (is_Some (digit_in 10 c))) (bool_decide (c ∈ list_ascii_of_string "0123456789")) = true) as H.
  { revert c Hc. intros c _. revert c. apply ascii_table. by vm_compute. }
  rewrite (bool_decide_eq_true_2 _ Hc) in H. cbn [implb] in H. apply bool_decide_eq_true in H.
  rewrite forallb_forall in HP. by apply HP, list_elem_of_In.
Qed.

Lemma all_digits_app base a b : all_digits base (a ++ b) = all_digits base a && all_digits base b.
Proof. apply forallb_app. Qed.

Lemma digits_value_cons base c ds :
  digits_value base 0 (c :: ds) = default 0 (digit_in base c) * base ^ Z.of_nat (List.length ds) + digits_value base 0 ds.
Proof. change (c :: ds) with ([c] ++ ds). rewrite digits_value_app, digits_value_shift. done. Qed.

Lemma digit_code c : all_digits 10 [c] = true -> exists d, digit_in 10 c = Some d /\ ascii_code c = 48 + d.
Proof.
  intros H. cbn [all_digits forallb] in H. apply andb_true_iff in H as [H%bool_decide_eq_true _].
  pose proof (digit_not c (fun c => match digit_in 10 c with Some d => ascii_code c =? 48 + d | None => false end) eq_refl H) as Hc.
  cbv beta in Hc. destruct (digit_in 10 c) as [d|]; [|done]. apply Z.eqb_eq in Hc. eauto.
Qed.

Lemma memcmp_digits a : forall b, List.length a = List.length b -> all_digits 10 a = true -> all_digits 10 b = true ->
  memcmp a b = Z.sgn (digits_value 10 0 a - digits_value 10 0 b).
Proof.
  induction a as [|x a IH]; intros [|y b] Hl Ha Hb; try done. injection Hl as Hl.
  change (x :: a) with ([x] ++ a) in Ha. change (y :: b) with ([y] ++ b) in Hb. rewrite all_digits_app in Ha, Hb.
  apply andb_true_iff in Ha as [Hx Ha]. apply andb_true_iff in Hb as [Hy Hb].
  destruct (digit_code x Hx) as (d & Ed & Cd). destruct (digit_code y Hy) as (e & Ee & Ce). cbn [memcmp]. rewrite Cd, Ce, IH by done.
  rewrite !digits_value_cons, Ed, Ee, Hl. cbn [default from_option id].
  pose proof (digits_value_bound 10 a ltac:(lia)) as Ba. pose proof (digits_value_bound 10 b ltac:(lia)) as Bb. rewrite Hl in Ba.
  destruct (48 + d <? 48 + e) eqn:E1; zb; [symmetry; apply Z.sgn_neg; nia|].
  destruct (48 + e <? 48 + d) eqn:E2; zb; [symmetry; apply Z.sgn_pos; nia|]. f_equal. assert (d = e) as -> by lia. lia.
Qed.

(** Reading what begins with digits. *)
Lemma strtol_exact_digits base c ds rest :
  (base = 8 \/ base = 10) -> all_digits base (c :: ds) = true -> no_digit_first base rest ->
  strtol_exact (c :: ds ++ rest) base = Some (digits_value base 0 (c :: ds), rest).
Proof.
  intros Hbase Hd Hr. pose proof Hd as Hc. cbn [all_digits forallb] in Hc. apply andb_true_iff in Hc as [Hc _].
  apply bool_decide_eq_true in Hc.
  assert (is_Some (digit_in 10 c)) as Hten.
  { destruct Hc as [d Hc]. unfold digit_in in *. destruct (digit_val c) as [v|]; [|done]. cbn in *.
    destruct (v <? base) eqn:E; [|done]. zb. rewrite (proj2 (Z.ltb_lt v 10)) by lia. by eexists. }
  pose proof (digit_not c (fun c => negb (isspace c || Ascii.eqb c "-" || Ascii.eqb c "+")) eq_refl Hten) as Hn.
  apply negb_true_iff, orb_false_iff in Hn as [[Hs Hm]%orb_false_iff Hp].
  unfold strtol_exact. cbn [skip_space]. rewrite Hs, Hm, Hp. rewrite (proj2 (Z.eqb_neq base 16)) by lia.
  assert (match c :: ds ++ rest with z :: x :: d :: s' =>
      if false && Ascii.eqb z "0" && ((ascii_code x =? 120) || (ascii_code x =? 88)) && bool_decide (is_Some (digit_in 16 d))
      then d :: s' else c :: ds ++ rest | _ => c :: ds ++ rest end = c :: ds ++ rest) as ->
    by (cbn; by destruct (ds ++ rest) as [|? [|? ?]]).
  destruct Hc as [d Hc]. rewrite Hc. rewrite app_comm_cons, read_digits_app by done.
  done.
Qed.

Lemma strtol_digits base c ds rest :
  (base = 8 \/ base = 10) -> all_digits base (c :: ds) = true -> no_digit_first base rest ->
  digits_value base 0 (c :: ds) < 2 ^ 63 -> strtol (c :: ds ++ rest) base = Some (digits_value base 0 (c :: ds), rest).
Proof.
  intros Hbase Hd Hr Hv. unfold strtol. rewrite strtol_exact_digits by done. cbn [mbind option_bind].
  pose proof (digits_value_ge base (c :: ds) 0 ltac:(lia) ltac:(lia)). do 2 f_equal. lia.
Qed.
