(* ===== verification/Order.v ===== *)
(** * Comparison functions and sequences in ascending order

    The interface between the parts that keep sorted data (AVL trees, sorted
    attribute values) and the comparison functions their callers supply. *)

From S2P Require Import Prelude.
From Stdlib Require Export Sorted.

Local Open Scope Z_scope.

(** What a comparison function has to be ("like strcmp", says avl.h). *)
Class Comparison {A} (fcmp : A -> A -> Z) : Prop := {
  cmp_opp x y : Z.sgn (fcmp y x) = - Z.sgn (fcmp x y);
  cmp_le_trans x y z : fcmp x y <= 0 -> fcmp y z <= 0 -> fcmp x z <= 0;
}.

Section Cmp.
Context {A} {fcmp : A -> A -> Z} `{!Comparison fcmp}.

Lemma cmp_swap x y : (fcmp x y < 0 <-> 0 < fcmp y x) /\ (fcmp x y = 0 <-> fcmp y x = 0).
Proof. pose proof (cmp_opp x y). lia. Qed.

Lemma cmp_lt_le x y z : fcmp x y < 0 -> fcmp y z <= 0 -> fcmp x z < 0.
Proof.
  intros Hxy Hyz. pose proof (cmp_le_trans (fcmp:=fcmp) x y z ltac:(lia) Hyz).
  destruct (decide (fcmp x z = 0)) as [E|]; [|lia].
  pose proof (cmp_swap x z). pose proof (cmp_swap x y).
  pose proof (cmp_le_trans (fcmp:=fcmp) y z x Hyz ltac:(lia)). lia.
Qed.

Lemma cmp_le_lt x y z : fcmp x y <= 0 -> fcmp y z < 0 -> fcmp x z < 0.
Proof.
  intros Hxy Hyz. pose proof (cmp_le_trans (fcmp:=fcmp) x y z Hxy ltac:(lia)).
  destruct (decide (fcmp x z = 0)) as [E|]; [|lia].
  pose proof (cmp_swap x z). pose proof (cmp_swap y z).
  pose proof (cmp_le_trans (fcmp:=fcmp) z x y ltac:(lia) Hxy). lia.
Qed.
Lemma cmp_eq_trans x y z : fcmp x y = 0 -> fcmp x z = 0 -> fcmp y z = 0.
Proof.
  intros. pose proof (cmp_swap x y). pose proof (cmp_swap x z).
  pose proof (cmp_swap y z).
  pose proof (cmp_le_trans (fcmp:=fcmp) y x z ltac:(lia) ltac:(lia)).
  pose proof (cmp_le_trans (fcmp:=fcmp) z x y ltac:(lia) ltac:(lia)). lia.
Qed.

Definition cmp_lt (x y : A) : Prop := fcmp x y < 0.

Lemma sorted_app (u v : list A) :
  StronglySorted cmp_lt (u ++ v) <->
  StronglySorted cmp_lt u /\ StronglySorted cmp_lt v /\ (forall x y, x ∈ u -> y ∈ v -> cmp_lt x y).
Proof.
  induction u as [|a u IH]; simpl.
  - split; [|by intros (? & ? & _)]. intros. split_and!; [constructor|done|]. intros x y Hx. by apply not_elem_of_nil in Hx.
  - split.
    + intros Hs. apply StronglySorted_inv in Hs as [Hs Ha]. apply IH in Hs as (Hu & Hv & Huv).
      rewrite list.Forall_app in Ha. destruct Ha as [Hau Hav]. rewrite list.Forall_forall in Hav.
      split_and!; [by constructor|done|]. intros x y [->|Hx]%elem_of_cons Hy; auto.
    + intros (Hu & Hv & Huv). apply StronglySorted_inv in Hu as [Hu Ha]. constructor.
      * apply IH. split_and!; [done|done|]. intros x y Hx Hy. apply Huv; [|done]. by right.
      * rewrite list.Forall_app. split; [done|]. apply list.Forall_forall. intros y Hy. apply Huv; [left|done].
Qed.

Lemma sorted_cons a (v : list A) :
  StronglySorted cmp_lt (a :: v) <-> StronglySorted cmp_lt v /\ (forall y, y ∈ v -> cmp_lt a y).
Proof.
  split.
  - intros [Hv Ha]%StronglySorted_inv. rewrite list.Forall_forall in Ha. done.
  - intros [Hv Ha]. constructor; [done|]. by apply list.Forall_forall.
Qed.
End Cmp.
#[global] Arguments cmp_lt {A} fcmp x y.

(** The order of the integers. *)
Definition zcmp (x y : Z) : Z := if x <? y then -1 else if y <? x then 1 else 0.

#[global] Instance zcmp_comparison : Comparison zcmp.
Proof.
  split; intros; unfold zcmp in *; repeat (case_match; zb; simpl in *); lia.
Qed.

