(* ===== verification/Ber.v ===== *)
(** * BerElement: the buffer of the BER codec (libraries/libreldap/io.c)

    The state of a [BerElement] (lber-int.h) and the buffer operations of io.c:
    writing with reallocation, flattening, resetting, reading and skipping raw
    octets.  The allocation [ber_buf] points to is the list [ber_mem] of its
    octets, the other pointers are offsets into it ([None] for a null
    [ber_sos_ptr] or [ber_rwptr]; a null [ber_buf] is the empty allocation).
    An access outside the allocation is undefined behaviour: the operation then
    returns [None].  The allocator is the interface [Heap]. *)

From stdpp Require Import base list numbers option.
From S2P Require Import Prelude.

Local Open Scope Z_scope.

(** What the codec is told by the memory allocator ([ber_memrealloc_x],
    [ber_memalloc_x]): whether a request of so many octets is granted, and the
    indeterminate contents of fresh octets. *)
Class Heap := {
  heap_grants : Z -> bool;
  heap_junk : nat -> list Z;
  heap_junk_length n : length (heap_junk n) = n;
  heap_junk_bytes n : bytes_ok (heap_junk n);
}.

(** [ber_memalloc_x] (memory.c): a request of no octets gets a null pointer. *)
Definition ber_memalloc_x `{Heap} (s : Z) : bool := if s =? 0 then false else heap_grants s.

Lemma ber_memalloc_grants `{Heap} s :
  (forall k, heap_grants k = true) -> s <> 0 -> ber_memalloc_x s = true.
Proof. intros Hg Hs. unfold ber_memalloc_x. by rewrite (proj2 (Z.eqb_neq _ _) Hs). Qed.

(** An allocator that always grants and zero-fills. *)
#[refine] Definition zero_heap : Heap :=
  {| heap_grants _ := true; heap_junk n := replicate n 0 |}.
Proof.
  - intros. apply length_replicate.
  - intros. apply Forall_replicate. unfold byte_ok. lia.
Defined.

(** [ber_tag_t] and [ber_len_t] are 64-bit unsigned, [ber_int_t] is 32-bit. *)
Definition LBER_DEFAULT : Z := 2 ^ 64 - 1.
Definition LBER_USE_DER : Z := 1.
Definition LBER_EXBUFSIZ : Z := 4060.

Record BerElement := mkBer {
  ber_options : Z;
  ber_tag : Z;
  ber_len : Z;                 (* also ber_sos_inner *)
  ber_usertag : Z;
  ber_mem : list Z;            (* the octets at ber_buf *)
  ber_ptr : nat;
  ber_end : nat;
  ber_sos_ptr : option nat;
  ber_rwptr : option nat;
}.

Abbreviation ber_sos_inner := ber_len (only parsing).

Definition with_tag (b : BerElement) t :=
  mkBer b.(ber_options) t b.(ber_len) b.(ber_usertag) b.(ber_mem) b.(ber_ptr)
        b.(ber_end) b.(ber_sos_ptr) b.(ber_rwptr).
Definition with_len (b : BerElement) l :=
  mkBer b.(ber_options) b.(ber_tag) l b.(ber_usertag) b.(ber_mem) b.(ber_ptr)
        b.(ber_end) b.(ber_sos_ptr) b.(ber_rwptr).
Definition with_usertag (b : BerElement) u :=
  mkBer b.(ber_options) b.(ber_tag) b.(ber_len) u b.(ber_mem) b.(ber_ptr)
        b.(ber_end) b.(ber_sos_ptr) b.(ber_rwptr).
Definition with_mem (b : BerElement) m :=
  mkBer b.(ber_options) b.(ber_tag) b.(ber_len) b.(ber_usertag) m b.(ber_ptr)
        b.(ber_end) b.(ber_sos_ptr) b.(ber_rwptr).
Definition with_ptr (b : BerElement) p :=
  mkBer b.(ber_options) b.(ber_tag) b.(ber_len) b.(ber_usertag) b.(ber_mem) p
        b.(ber_end) b.(ber_sos_ptr) b.(ber_rwptr).
Definition with_end (b : BerElement) e :=
  mkBer b.(ber_options) b.(ber_tag) b.(ber_len) b.(ber_usertag) b.(ber_mem) b.(ber_ptr)
        e b.(ber_sos_ptr) b.(ber_rwptr).
Definition with_sos (b : BerElement) s :=
  mkBer b.(ber_options) b.(ber_tag) b.(ber_len) b.(ber_usertag) b.(ber_mem) b.(ber_ptr)
        b.(ber_end) s b.(ber_rwptr).
Definition with_rwptr (b : BerElement) r :=
  mkBer b.(ber_options) b.(ber_tag) b.(ber_len) b.(ber_usertag) b.(ber_mem) b.(ber_ptr)
        b.(ber_end) b.(ber_sos_ptr) r.

(** The write cursor: [ber_sos_ptr] inside an open sequence, else [ber_ptr]. *)
Definition ber_cursor (b : BerElement) : nat :=
  match b.(ber_sos_ptr) with None => b.(ber_ptr) | Some p => p end.

Definition set_cursor (b : BerElement) (p : nat) : BerElement :=
  match b.(ber_sos_ptr) with None => with_ptr b p | Some _ => with_sos b (Some p) end.

(** [ber_alloc_t]: a fresh, empty element. *)
Definition ber_alloc_t (options : Z) : BerElement :=
  mkBer options LBER_DEFAULT 0 0 [] 0 0 None None.

(** [ber_init2] over the allocation [mem] holding the value's [len] octets
    first.  The options are narrowed to a [char]. *)
Definition ber_init2 (mem : list Z) (len : nat) (options : Z) : BerElement :=
  mkBer (uwrap 16 (swrap 8 options)) LBER_DEFAULT 0 0 mem 0 len None None.

Section io.
Context `{Heap}.

(** The allocation resized by [realloc]: the old octets up to the new size,
    then octets with indeterminate contents. *)
Definition mem_realloc (mem : list Z) (n : nat) : list Z :=
  take n mem ++ heap_junk (n - length mem).

Definition ber_realloc (b : BerElement) (len : Z) : Z * BerElement :=
  let len := u64 (len + 1) in
  if len =? 0 then (-1, b) else
  let total := Z.of_nat b.(ber_end) in
  let total := u64 (total + (if len <? LBER_EXBUFSIZ then LBER_EXBUFSIZ else len)) in
  if (total <? len) || (total >? (2 ^ 64 - 1) / 2) then (-1, b)
  else if heap_grants total
  then (0, with_end (with_mem b (mem_realloc b.(ber_mem) (Z.to_nat total))) (Z.to_nat total))
  else (-1, b).

Definition ber_write (b : BerElement) (buf : list Z) (zero : Z) : option (Z * BerElement) :=
  if negb (zero =? 0) then Some (-1, b) else
  let len := Z.of_nat (length buf) in
  let '(rc, b) :=
    if len >? u64 (Z.of_nat b.(ber_end) - Z.of_nat (ber_cursor b))
    then ber_realloc b len else (0, b) in
  if negb (rc =? 0) then Some (-1, b) else
  mem ← mem_write b.(ber_mem) (ber_cursor b) buf;
  Some (len, set_cursor (with_mem b mem) (ber_cursor b + length buf)).

(** [ber_reset] after writing ([was_writing <> 0]) or to skip to the end. *)
Definition ber_reset (b : BerElement) (was_writing : Z) : BerElement :=
  let b := if negb (was_writing =? 0)
           then with_ptr (with_end b b.(ber_ptr)) 0
           else with_ptr b b.(ber_end) in
  with_rwptr b None.

Definition ber_rewind (b : BerElement) : BerElement :=
  with_ptr (with_end (with_sos (with_rwptr b None) None) b.(ber_ptr)) 0.

(** [ber_flatten2] of a non-null element: the return code, the octets of the
    value it fills in, and the element (whose buffer gets the terminator when
    the value uses it directly). *)
Definition ber_flatten2 (b : BerElement) (alloc : bool)
  : option (Z * list Z * BerElement) :=
  match b.(ber_sos_ptr) with
  | Some _ => Some (-1, [], b)
  | None =>
      let len := b.(ber_ptr) in
      if alloc then
        if ber_memalloc_x (Z.of_nat len + 1) then
          data ← mem_read b.(ber_mem) 0 len; Some (0, data, b)
        else Some (-1, [], b)
      else match b.(ber_mem) with
      | [] => Some (0, [], b)
      | _ =>
          mem ← mem_write b.(ber_mem) len [0];
          data ← mem_read mem 0 len;
          Some (0, data, with_mem b mem)
      end
  end.

(** [ber_init]: an element holding a copy of the value. *)
Definition ber_init (bv : list Z) : option (option BerElement) :=
  let b := ber_alloc_t 0 in
  '(n, b) ← ber_write b bv 0;
  if n =? Z.of_nat (length bv) then Some (Some (ber_reset b 1)) else Some None.

(** [ber_skip_data]: returns the octets skipped; reads the octet it stops at. *)
Definition ber_skip_data (b : BerElement) (len : Z) : option (Z * BerElement) :=
  let nleft := u64 (Z.of_nat b.(ber_end) - Z.of_nat b.(ber_ptr)) in
  let actuallen := if nleft <? len then nleft else len in
  let b := with_ptr b (b.(ber_ptr) + Z.to_nat actuallen) in
  t ← b.(ber_mem) !! b.(ber_ptr);
  Some (actuallen, with_tag b t).

(** [ber_read]: returns the octets copied out. *)
Definition ber_read (b : BerElement) (len : Z) : option (list Z * BerElement) :=
  let nleft := u64 (Z.of_nat b.(ber_end) - Z.of_nat b.(ber_ptr)) in
  let actuallen := if nleft <? len then nleft else len in
  data ← mem_read b.(ber_mem) b.(ber_ptr) (Z.to_nat actuallen);
  Some (data, with_ptr b (b.(ber_ptr) + Z.to_nat actuallen)).

(** ** The invariant of an element that is being written *)

(** Every pointer lies within the allocation, whose end is [ber_end]; an
    allocation never exceeds the largest [ber_slen_t]. *)
Record ber_wok (b : BerElement) : Prop := {
  wok_bytes : bytes_ok b.(ber_mem);
  wok_end : b.(ber_end) = length b.(ber_mem);
  wok_ptr : (b.(ber_ptr) <= b.(ber_end))%nat;
  wok_cursor : (ber_cursor b <= b.(ber_end))%nat;
  wok_max : Z.of_nat b.(ber_end) <= 2 ^ 63 - 1;
}.

(** The octets written so far, the open sequences included. *)
Definition ber_output (b : BerElement) : list Z := take (ber_cursor b) b.(ber_mem).

Lemma ber_alloc_t_wok o : ber_wok (ber_alloc_t o).
Proof. split; simpl; try done; try constructor. Qed.

Lemma mem_realloc_length mem n : length (mem_realloc mem n) = n.
Proof.
  unfold mem_realloc. rewrite length_app, length_take, heap_junk_length. lia.
Qed.

Lemma mem_realloc_bytes mem n : bytes_ok mem -> bytes_ok (mem_realloc mem n).
Proof.
  intros. apply bytes_ok_app. split; [by apply Forall_take|apply heap_junk_bytes].
Qed.

Lemma mem_realloc_take mem n k :
  (k <= length mem)%nat -> (length mem <= n)%nat -> take k (mem_realloc mem n) = take k mem.
Proof.
  intros. unfold mem_realloc. rewrite take_app_le by (rewrite length_take; lia).
  by rewrite take_take, Nat.min_l by lia.
Qed.

Lemma set_cursor_cursor b p : ber_cursor (set_cursor b p) = p.
Proof. unfold set_cursor, ber_cursor. by destruct (ber_sos_ptr b) eqn:E; simpl; rewrite ?E. Qed.

Lemma set_cursor_mem b p : ber_mem (set_cursor b p) = ber_mem b.
Proof. unfold set_cursor. by destruct (ber_sos_ptr b). Qed.
Lemma set_cursor_end b p : ber_end (set_cursor b p) = ber_end b.
Proof. unfold set_cursor. by destruct (ber_sos_ptr b). Qed.

(** The buffer can still take [n] octets: the allocator grants every request
    and the allocation stays below the largest [ber_slen_t]. *)
Definition ber_room (b : BerElement) (n : Z) : Prop :=
  (forall k, heap_grants k = true) /\ Z.of_nat b.(ber_end) + n + 4061 <= 2 ^ 63 - 1.

(** Reallocation keeps what was written and makes room for [len] more octets
    and one terminator; it fails only for lack of room and then changes
    nothing. *)
Lemma ber_realloc_spec b len rc b' :
  ber_wok b -> 0 <= len < 2 ^ 63 -> ber_realloc b len = (rc, b') ->
  (rc = -1 /\ b' = b /\ ~ ber_room b len) \/
  (rc = 0 /\ ber_wok b' /\ ber_output b' = ber_output b /\
   ber_cursor b' = ber_cursor b /\
   Z.of_nat (ber_end b) + len < Z.of_nat (ber_end b') <= Z.of_nat (ber_end b) + len + 4061 /\
   b' = with_end (with_mem b (ber_mem b')) (ber_end b')).
Proof.
  intros Hw Hl. unfold ber_realloc, ber_room.
  rewrite (uwrap_small 64 (len + 1)) by lia.
  case_if; [zb; lia|]. zb.
  pose proof (wok_max _ Hw) as Hmax. change ((2 ^ 64 - 1) / 2) with (2 ^ 63 - 1).
  set (inc := if len + 1 <? LBER_EXBUFSIZ then LBER_EXBUFSIZ else len + 1).
  assert (len + 1 <= inc /\ inc <= len + 4061 /\ inc <= 2 ^ 63) as (Hi1 & Hi2 & Hi3).
  { unfold inc, LBER_EXBUFSIZ. case_if; zb; lia. }
  rewrite uwrap_small by lia.
  case_if.
  { intros [= <- <-]. left. split_and!; try done. intros [_ ?].
    apply orb_prop in E0. destruct E0; zb; lia. }
  zb. case_if.
  2: { intros [= <- <-]. left. split_and!; try done. intros [Hg _]. by rewrite Hg in E0. }
  intros [= <- <-]. right.
  set (n := Z.to_nat (Z.of_nat (ber_end b) + inc)).
  assert (ber_end b <= n)%nat by lia.
  destruct Hw as [Hb He Hp Hc Hm].
  assert (ber_cursor (with_end (with_mem b (mem_realloc (ber_mem b) n)) n) = ber_cursor b)
    as Hcur by (unfold ber_cursor; simpl; done).
  split; [done|]. split; [|split; [|split; [|split]]]; simpl; try done; try lia.
  - split; simpl; rewrite ?Hcur, ?mem_realloc_length; try lia.
    by apply mem_realloc_bytes.
  - unfold ber_output. rewrite Hcur. simpl. apply mem_realloc_take; lia.
Qed.

(** The test-and-reallocate step of [ber_write] and [ber_start_seqorset]. *)
Lemma ber_grow_spec b len :
  ber_wok b -> 0 <= len < 2 ^ 63 ->
  exists rc b1,
    (if len >? u64 (Z.of_nat (ber_end b) - Z.of_nat (ber_cursor b))
     then ber_realloc b len else (0, b)) = (rc, b1) /\
    ((rc = -1 /\ b1 = b /\ ~ ber_room b len) \/
     (rc = 0 /\ ber_wok b1 /\ ber_output b1 = ber_output b /\
      ber_cursor b1 = ber_cursor b /\
      Z.of_nat (ber_cursor b) + len <= Z.of_nat (ber_end b1) /\
      Z.of_nat (ber_end b1) <= Z.of_nat (ber_end b) + len + 4061 /\
      b1 = with_end (with_mem b (ber_mem b1)) (ber_end b1))).
Proof.
  intros Hw Hlen. pose proof (wok_cursor _ Hw). pose proof (wok_max _ Hw) as Hm.
  rewrite uwrap_small by lia. case_if; zb.
  - destruct (ber_realloc b len) as [rc b1] eqn:E1.
    exists rc, b1. split; [done|].
    destruct (ber_realloc_spec b len rc b1 Hw ltac:(lia) E1)
      as [?|(? & ? & ? & ? & ? & ?)]; [by left|].
    right. split_and!; try done; lia.
  - exists 0, b. split; [done|]. right.
    split_and!; try done; try lia. by destruct b.
Qed.

(** [ber_write] never leaves the allocation: it appends the octets to the
    output, or reports [-1] for lack of room with the element unchanged. *)
Lemma ber_write_spec b buf :
  ber_wok b -> bytes_ok buf -> Z.of_nat (length buf) < 2 ^ 63 ->
  exists rc b', ber_write b buf 0 = Some (rc, b') /\
    ((rc = -1 /\ b' = b /\ ~ ber_room b (Z.of_nat (length buf))) \/
     (rc = Z.of_nat (length buf) /\ ber_wok b' /\
      ber_output b' = ber_output b ++ buf /\
      Z.of_nat (ber_end b') <= Z.of_nat (ber_end b) + Z.of_nat (length buf) + 4061 /\
      b' = set_cursor (with_end (with_mem b (ber_mem b')) (ber_end b'))
                      (ber_cursor b + length buf))).
Proof.
  intros Hw Hbuf Hlen. unfold ber_write. simpl.
  set (len := Z.of_nat (length buf)).
  destruct (ber_grow_spec b len Hw ltac:(lia)) as (rc & b1 & -> & Hcase).
  destruct Hcase as [(-> & -> & ?)|(-> & Hw1 & Ho & Hc & Hroom & Hend & Hb1)].
  { simpl. eauto 10. }
  simpl. pose proof (wok_end _ Hw1) as He.
  destruct (mem_write_is_Some (ber_mem b1) (ber_cursor b1) buf) as [mem Hmem]; [lia|].
  rewrite Hmem. simpl. eexists _, _. split; [done|]. right.
  pose proof (mem_write_Some _ _ _ _ Hmem) as (Hle & Hlm & Hm).
  split; [done|].
  split; [|split; [|split]].
  - destruct Hw1 as [Hb ? ? ? ?].
    split; rewrite ?set_cursor_cursor, ?set_cursor_mem, ?set_cursor_end; simpl; try lia.
    + rewrite Hm. solve_bytes.
    + unfold set_cursor. simpl. destruct (ber_sos_ptr b1) eqn:Es; simpl; lia.
  - unfold ber_output. rewrite set_cursor_cursor, set_cursor_mem. simpl.
    rewrite (mem_write_take _ _ _ _ Hmem). f_equal. exact Ho.
  - rewrite set_cursor_end. simpl. lia.
  - rewrite set_cursor_mem, set_cursor_end. simpl. rewrite Hc.
    rewrite Hb1. unfold set_cursor. simpl. by destruct (ber_sos_ptr b).
Qed.
End io.
