(* ===== verification/BerWriter.v ===== *)
(** * What the encoder promises: the abstract writer

    [AWriter] is the contract of encode.c: the finished octets and the stack of
    open sequences with their contents.  [ber_repr] relates a [BerElement] to an
    abstract writer: inside the buffer an open sequence is its tag, five
    reserved octets (the tag's length and the offset of the enclosing sequence)
    and its contents so far.  The lemmas are the simulation: every routine of
    encode.c takes related states to related states. *)

From stdpp Require Import base list numbers option.
From Stdlib Require Import Ascii.
From S2P Require Import Prelude Ber BerEncode.

Local Open Scope Z_scope.

(** ** Octets of tags and lengths *)

Definition tag_octets (t : Z) : list Z := ber_prepend_tag [] t.
Definition len_octets (n : Z) : list Z := ber_prepend_len [] n.

Lemma prepend_tag_loop_app fuel t buf :
  prepend_tag_loop fuel t buf = prepend_tag_loop fuel t [] ++ buf.
Proof.
  revert t buf. induction fuel as [|fuel IH]; intros t buf; [done|].
  cbn [prepend_tag_loop]. case_if; [done|]. rewrite IH, (IH _ [_]), <- app_assoc. done.
Qed.

Lemma ber_prepend_tag_app t buf : ber_prepend_tag buf t = tag_octets t ++ buf.
Proof. apply prepend_tag_loop_app. Qed.

Lemma prepend_tag_loop_bytes fuel t buf :
  bytes_ok buf -> bytes_ok (prepend_tag_loop fuel t buf).
Proof.
  revert t buf. induction fuel as [|fuel IH]; intros t buf Hb; [done|].
  cbn [prepend_tag_loop].
  assert (bytes_ok (Z.land t 255 :: buf)).
  { constructor; [|done]. rewrite land_255. apply byte_ok_mod. }
  case_if; auto.
Qed.

Lemma prepend_tag_loop_length fuel t buf :
  (min fuel 1 + length buf <= length (prepend_tag_loop fuel t buf) <= fuel + length buf)%nat.
Proof.
  revert t buf. induction fuel as [|fuel IH]; intros t buf; [simpl; lia|].
  cbn [prepend_tag_loop]. case_if; [simpl; lia|].
  specialize (IH (Z.shiftr t 8) (Z.land t 255 :: buf)). cbn [length] in IH. lia.
Qed.

Lemma tag_octets_bytes t : bytes_ok (tag_octets t).
Proof. apply prepend_tag_loop_bytes. constructor. Qed.

Lemma tag_octets_length t : (1 <= length (tag_octets t) <= 8)%nat.
Proof. apply (prepend_tag_loop_length 8 t []). Qed.

(** The tag octets denote the tag, and start with a zero only for tag 0. *)
Lemma prepend_tag_loop_val fuel t buf :
  0 <= t < 256 ^ Z.of_nat fuel ->
  be_val (prepend_tag_loop fuel t buf) = t * 256 ^ Z.of_nat (length buf) + be_val buf.
Proof.
  revert t buf. induction fuel as [|fuel IH]; intros t buf Ht.
  { simpl in *. assert (t = 0) as -> by lia. lia. }
  cbn [prepend_tag_loop]. rewrite Nat2Z.inj_succ, Z.pow_succ_r in Ht by lia.
  rewrite land_255, Z.shiftr_div_pow2 by lia. change (2 ^ 8) with 256.
  assert (Hc : forall x l, be_val (x :: l) = x * 256 ^ Z.of_nat (length l) + be_val l).
  { intros x l. change (x :: l) with ([x] ++ l). rewrite be_val_app.
    unfold be_val at 1. simpl. done. }
  pose proof (Z.div_mod t 256 ltac:(lia)).
  case_if; zb.
  - rewrite Hc. rewrite (Z.mod_small t 256) by (pose proof (Z.mod_pos_bound t 256); lia). done.
  - rewrite IH by (pose proof (Z.mod_pos_bound t 256); split; [apply Z.div_pos; lia|apply Z.div_lt_upper_bound; lia]).
    rewrite Hc. cbn [length]. rewrite Nat2Z.inj_succ, Z.pow_succ_r by lia.
    rewrite H at 3. ring.
Qed.

Lemma tag_octets_val t : 0 <= t < 2 ^ 64 -> be_val (tag_octets t) = t.
Proof.
  intros. unfold tag_octets, ber_prepend_tag. rewrite prepend_tag_loop_val by done.
  unfold be_val. simpl. lia.
Qed.

(** Every length octet string: short form below 128, else [0x80 + k] and the
    [k] octets of the length. *)
Lemma prepend_len_loop_spec fuel len n buf :
  0 <= len < 256 ^ Z.of_nat (S fuel) ->
  exists hd, prepend_len_loop fuel len n buf = (n + Z.of_nat (length hd), hd ++ buf) /\
    bytes_ok hd /\ be_val hd = len / 256 /\
    (hd <> [] -> 256 ^ Z.of_nat (length hd) <= len).
Proof.
  revert len n buf. induction fuel as [|fuel IH]; intros len n buf Hl.
  { exists []. simpl in *. split_and!; try done; [f_equal; lia|constructor|].
    rewrite Z.div_small by lia. done. }
  cbn [prepend_len_loop]. rewrite Z.shiftr_div_pow2 by lia. change (2 ^ 8) with 256.
  rewrite Nat2Z.inj_succ, Z.pow_succ_r in Hl by lia.
  assert (0 <= len / 256 < 256 ^ Z.of_nat (S fuel)) as Hd.
  { split; [apply Z.div_pos; lia|apply Z.div_lt_upper_bound; lia]. }
  pose proof (Z.div_mod len 256 ltac:(lia)). pose proof (Z.mod_pos_bound len 256 ltac:(lia)).
  case_if; zb.
  - exists []. simpl. split_and!; [f_equal; lia|constructor|rewrite E; done|done].
  - destruct (IH (len / 256) (n + 1) (Z.land (len / 256) 255 :: buf) Hd)
      as (hd & -> & Hb & Hv & Hlen).
    exists (hd ++ [Z.land (len / 256) 255]).
    rewrite length_app, <- app_assoc. simpl length. split_and!.
    + f_equal. lia.
    + apply bytes_ok_app. split; [done|]. apply Forall_singleton.
      rewrite land_255. apply byte_ok_mod.
    + rewrite be_val_snoc, Hv, land_255.
      pose proof (Z.div_mod (len / 256) 256 ltac:(lia)). lia.
    + intros _. rewrite Nat2Z.inj_add, Z.pow_add_r by lia. change (256 ^ Z.of_nat 1) with 256.
      destruct hd as [|x hd]; [simpl; lia|]. specialize (Hlen ltac:(done)). nia.
Qed.

Lemma len_octets_spec n :
  0 <= n < 2 ^ 64 ->
  (n < 128 /\ len_octets n = [n]) \/
  (128 <= n /\ exists ds, len_octets n = (0x80 + Z.of_nat (length ds)) :: ds /\
    bytes_ok ds /\ be_val ds = n /\ (1 <= length ds <= 8)%nat /\
    (n < 2 ^ 32 -> (length ds <= 4)%nat)).
Proof.
  intros Hn. unfold len_octets, ber_prepend_len. rewrite land_255.
  case_if; zb; [right|left].
  2: { split; [done|]. rewrite Z.mod_small by lia. done. }
  split; [done|].
  destruct (prepend_len_loop_spec 8 n 1 [n mod 256]) as (hd & Heq & Hb & Hv & Hl).
  { change (256 ^ Z.of_nat 9) with (2 ^ 72). lia. }
  assert (Hsize : forall k, n < 256 ^ Z.of_nat k -> (length hd < k)%nat \/ hd = []).
  { intros k Hk. destruct hd as [|x hd']; [by right|left].
    specialize (Hl ltac:(done)).
    apply Nat2Z.inj_lt, (Z.pow_lt_mono_r_iff 256); lia. }
  assert (length hd < 8)%nat.
  { destruct (Hsize 8%nat) as [?|Hh]; [exact (proj2 Hn)|done|rewrite Hh; simpl; lia]. }
  rewrite Heq. exists (hd ++ [n mod 256]).
  rewrite length_app. simpl length. split_and!; try lia.
  - f_equal. rewrite uwrap_small; lia.
  - apply bytes_ok_app. split; [done|]. apply Forall_singleton, byte_ok_mod.
  - rewrite be_val_snoc, Hv. pose proof (Z.div_mod n 256 ltac:(lia)). lia.
  - intros Hn32. destruct (Hsize 4%nat) as [?|Hh]; [exact Hn32|lia|rewrite Hh; simpl; lia].
Qed.

Lemma le32_bytes_val z : 0 <= z < 2 ^ 32 -> le32_val (le32_bytes z) = z.
Proof.
  intros Hz. unfold le32_bytes, le32_val.
  rewrite !land_255, !Z.shiftr_div_pow2, !Z.shiftl_mul_pow2 by lia.
  change (2 ^ 8) with 256. change (2 ^ 16) with (256 * 256). change (2 ^ 24) with (256 * 256 * 256).
  change (2 ^ 32) with (256 * 256 * 256 * 256) in Hz.
  rewrite <- !Z.div_div by lia.
  assert (0 <= z / 256 / 256 / 256 < 256).
  { rewrite !Z.div_div by lia. split; [apply Z.div_pos; lia|apply Z.div_lt_upper_bound; lia]. }
  rewrite (Z.mod_small (z / 256 / 256 / 256)) by lia.
  pose proof (Z.div_mod z 256 ltac:(lia)).
  pose proof (Z.div_mod (z / 256) 256 ltac:(lia)).
  pose proof (Z.div_mod (z / 256 / 256) 256 ltac:(lia)). lia.
Qed.

Lemma be32_bytes_val z : 0 <= z < 2 ^ 32 -> be_val (be32_bytes z) = z.
Proof.
  intros Hz. rewrite <- (le32_bytes_val z Hz) at 2.
  unfold be32_bytes, be_val, le32_bytes, le32_val. simpl foldl.
  rewrite !Z.shiftl_mul_pow2 by lia. ring.
Qed.

Lemma be32_bytes_ok z : bytes_ok (be32_bytes z).
Proof. unfold be32_bytes. rewrite !land_255. solve_bytes. Qed.
Lemma le32_bytes_ok z : bytes_ok (le32_bytes z).
Proof. unfold le32_bytes. rewrite !land_255. solve_bytes. Qed.

(** ** The abstract writer *)

(** The length octets of a constructed element: minimal with DER, four octets
    otherwise. *)
Definition sos_len_octets (der : bool) (n : Z) : list Z :=
  if der then len_octets n else 0x84 :: be32_bytes n.

(** The complete encoding of a constructed element. *)
Definition sos_element (der : bool) (t : Z) (c : list Z) : list Z :=
  tag_octets t ++ sos_len_octets der (Z.of_nat (length c)) ++ c.

Record AWriter := mkAW {
  aw_done : list Z;                  (* the complete elements *)
  aw_open : list (Z * list Z);       (* the open sequences, innermost first *)
}.

Definition aw_append (w : AWriter) (s : list Z) : AWriter :=
  match w.(aw_open) with
  | [] => mkAW (w.(aw_done) ++ s) []
  | (t, c) :: fs => mkAW w.(aw_done) ((t, c ++ s) :: fs)
  end.

Definition aw_start (w : AWriter) (t : Z) : AWriter := mkAW w.(aw_done) ((t, []) :: w.(aw_open)).

Definition aw_put (der : bool) (w : AWriter) : AWriter :=
  match w.(aw_open) with
  | [] => w
  | (t, c) :: fs => aw_append (mkAW w.(aw_done) fs) (sos_element der t c)
  end.

(** How the open sequences lie in the buffer.  [lay_inner] is the offset of the
    reserved octets of the innermost one, 0 when none is open. *)
Fixpoint lay_out (dn : list Z) (fs : list (Z * list Z)) : list Z :=
  match fs with
  | [] => dn
  | (t, c) :: fs =>
      lay_out dn fs ++ tag_octets t ++
      (Z.of_nat (length (tag_octets t)) ::
        le32_bytes (match fs with
                    | [] => 0
                    | (t', c') :: fs' =>
                        Z.of_nat (length (lay_out dn fs')) + Z.of_nat (length (tag_octets t'))
                    end)) ++ c
  end.

Definition lay_inner (dn : list Z) (fs : list (Z * list Z)) : Z :=
  match fs with
  | [] => 0
  | (t, c) :: fs => Z.of_nat (length (lay_out dn fs)) + Z.of_nat (length (tag_octets t))
  end.

Lemma lay_out_cons dn t c fs :
  lay_out dn ((t, c) :: fs) = lay_out dn fs ++ tag_octets t ++
    (Z.of_nat (length (tag_octets t)) :: le32_bytes (lay_inner dn fs)) ++ c.
Proof. by destruct fs as [|[]]. Qed.

(** The offsets kept in the buffer fit their 32 bits. *)
Fixpoint lay_ok (dn : list Z) (fs : list (Z * list Z)) : Prop :=
  match fs with
  | [] => True
  | _ :: fs => lay_inner dn fs < 2 ^ 32 /\ lay_ok dn fs
  end.

Lemma lay_inner_nonneg dn fs : 0 <= lay_inner dn fs.
Proof. destruct fs as [|[]]; simpl; lia. Qed.

Lemma lay_inner_zero dn fs : lay_inner dn fs = 0 <-> fs = [].
Proof.
  destruct fs as [|[t c] fs]; simpl; [done|].
  pose proof (tag_octets_length t). split; [lia|done].
Qed.

(** ** The refinement relation *)

Section writer.
Context `{Heap}.

Record ber_repr (b : BerElement) (w : AWriter) : Prop := {
  repr_wok : ber_wok b;
  repr_ptr : b.(ber_ptr) = length w.(aw_done);
  repr_out : ber_output b = lay_out w.(aw_done) w.(aw_open);
  repr_sos : b.(ber_sos_ptr) = match w.(aw_open) with
                               | [] => None
                               | _ => Some (ber_cursor b)
                               end;
  repr_inner : w.(aw_open) <> [] -> b.(ber_sos_inner) = lay_inner w.(aw_done) w.(aw_open);
  repr_ok : lay_ok w.(aw_done) w.(aw_open);
}.

Definition ber_der (b : BerElement) : bool := negb (Z.land b.(ber_options) LBER_USE_DER =? 0).

Lemma ber_output_length b : ber_wok b -> length (ber_output b) = ber_cursor b.
Proof. intros []. unfold ber_output. rewrite length_take. lia. Qed.

Lemma ber_mem_split b : ber_mem b = ber_output b ++ drop (ber_cursor b) (ber_mem b).
Proof. unfold ber_output. by rewrite take_drop. Qed.

Lemma lay_out_append dn t c fs s :
  lay_out dn ((t, c ++ s) :: fs) = lay_out dn ((t, c) :: fs) ++ s.
Proof. rewrite !lay_out_cons. by rewrite <- !app_assoc. Qed.

Lemma aw_append_done_out w s :
  lay_out (aw_done (aw_append w s)) (aw_open (aw_append w s)) =
  lay_out (aw_done w) (aw_open w) ++ s.
Proof.
  destruct w as [dn [|[t c] fs]]; [done|].
  unfold aw_append. cbn [aw_open aw_done]. apply lay_out_append.
Qed.

Lemma aw_append_inner w s :
  lay_inner (aw_done (aw_append w s)) (aw_open (aw_append w s)) =
  lay_inner (aw_done w) (aw_open w).
Proof. by destruct w as [dn [|[t c] fs]]. Qed.

Lemma aw_append_ok w s :
  lay_ok (aw_done w) (aw_open w) -> lay_ok (aw_done (aw_append w s)) (aw_open (aw_append w s)).
Proof. by destruct w as [dn [|[t c] fs]]. Qed.

(** Writing octets appends them to the innermost open sequence. *)
Lemma write_refines b w s :
  ber_repr b w -> bytes_ok s -> Z.of_nat (length s) < 2 ^ 63 ->
  exists rc b', ber_write b s 0 = Some (rc, b') /\
    ((rc = -1 /\ b' = b /\ ~ ber_room b (Z.of_nat (length s))) \/
     (rc = Z.of_nat (length s) /\ ber_repr b' (aw_append w s) /\
      ber_options b' = ber_options b /\ ber_tag b' = ber_tag b /\
      ber_usertag b' = ber_usertag b /\
      Z.of_nat (ber_end b') <= Z.of_nat (ber_end b) + Z.of_nat (length s) + 4061)).
Proof.
  intros [Hw Hptr Hout Hsos Hin Hok] Hs Hl.
  destruct (ber_write_spec b s Hw Hs Hl) as (rc & b' & -> & [?|(-> & Hw' & Ho' & He & Hb')]);
    [by eauto 10|].
  eexists _, _. split; [done|]. right. split; [done|].
  assert (ber_cursor b' = ber_cursor b + length s)%nat as Hc'.
  { rewrite <- !ber_output_length, Ho', length_app; done. }
  split; [split|]; [done|..].
  - rewrite Hb'. unfold set_cursor. simpl. rewrite Hsos.
    destruct w as [dn [|[t c] fs]]; simpl in *.
    + rewrite length_app, <- Hptr. unfold ber_cursor. by rewrite Hsos.
    + done.
  - rewrite aw_append_done_out, <- Hout. done.
  - rewrite Hb' at 1. unfold set_cursor. simpl. rewrite Hsos.
    destruct w as [dn [|[t c] fs]]; simpl in *; rewrite ?Hsos, ?Hc'; done.
  - rewrite aw_append_inner. rewrite Hb'. unfold set_cursor. simpl. rewrite Hsos.
    destruct w as [dn [|[t c] fs]]; simpl in *; [done|]. intros _. by apply Hin.
  - by apply aw_append_ok.
  - rewrite Hb'. unfold set_cursor. simpl. destruct (ber_sos_ptr b); done.
Qed.

(** Opening a sequence pushes it on the stack. *)
Lemma start_refines b w t :
  ber_repr b w ->
  exists rc b', ber_start_seqorset b t = Some (rc, b') /\
    ((rc = -1 /\ b' = b /\ (ber_room b 13 -> 2 ^ 32 <= Z.of_nat (ber_cursor b))) \/
     (rc = 0 /\ ber_repr b' (aw_start w t) /\
      ber_options b' = ber_options b /\ ber_tag b' = ber_tag b /\
      Z.of_nat (ber_end b') <= Z.of_nat (ber_end b) + 13 + 4061)).
Proof.
  intros Hr. pose proof Hr as [Hw Hptr Hout Hsos Hin Hok].
  unfold ber_start_seqorset. fold (tag_octets t).
  set (om := match ber_sos_ptr b with None => true | Some _ => false end).
  set (nx := if om then 0 else ber_sos_inner b).
  assert (nx = lay_inner (aw_done w) (aw_open w)) as Hnx.
  { unfold nx, om. rewrite Hsos. destruct (aw_open w) eqn:Eo; [done|]. by apply Hin. }
  pose proof (tag_octets_length t) as Htl.
  assert (lay_inner (aw_done w) (aw_open w) <= Z.of_nat (ber_cursor b)) as Hinc.
  { rewrite <- (ber_output_length b), Hout by done.
    destruct (aw_open w) as [|[t' c'] fs]; [simpl; lia|].
    rewrite lay_out_cons, !length_app. simpl. lia. }
  case_if.
  { apply andb_prop in E as [E1 E2]. zb. eexists _, _. split; [done|]. left.
    split_and!; try done. intros _.
    assert (nx = ber_sos_inner b) by (unfold nx; rewrite E1; done). lia. }
  assert (nx < 2 ^ 32) as Hnx32.
  { apply andb_false_iff in E as [E|E].
    - apply negb_false_iff in E. unfold nx. rewrite E. lia.
    - zb. unfold nx. destruct om; lia. }
  assert (0 <= nx) by (rewrite Hnx; apply lay_inner_nonneg).
  set (tl := Z.of_nat (length (tag_octets t))) in *.
  destruct (ber_grow_spec b (tl + SOS_LENLEN) Hw) as (rc & b1 & -> & Hcase);
    [unfold SOS_LENLEN; lia|].
  destruct Hcase as [(-> & -> & Hno)|(-> & Hw1 & Ho1 & Hc1 & Hfit & Hend & Hb1)].
  { simpl. eexists _, _. split; [done|]. left. split_and!; try done.
    intros [? ?]. exfalso. apply Hno. split; [done|]. unfold SOS_LENLEN. lia. }
  simpl negb. cbv iota.
  set (head := tag_octets t ++ u8 tl :: le32_bytes nx).
  assert (u8 tl = tl) as Hu8 by (apply uwrap_small; lia).
  assert (length head = length (tag_octets t) + 5)%nat as Hhl
    by (unfold head; rewrite length_app; done).
  unfold SOS_LENLEN in *.
  destruct (mem_write_is_Some (ber_mem b1) (ber_cursor b1) head) as [mem Hmem].
  { rewrite <- (wok_end _ Hw1). lia. }
  rewrite Hmem. simpl. eexists _, _. split; [done|]. right.
  pose proof (mem_write_Some _ _ _ _ Hmem) as (Hle & Hlm & Hm).
  assert (take (ber_cursor b + length head) mem = ber_output b ++ head) as Htk.
  { rewrite <- Hc1, (mem_write_take _ _ _ _ Hmem). f_equal. exact Ho1. }
  split; [done|].
  split; [|rewrite Hb1; simpl; split_and!; try done; lia].
  split; simpl.
  - pose proof Hw1 as [Hb ? ? ? ?]. rewrite Hb1 in *. simpl in *.
    split; unfold ber_cursor in *; simpl in *; try lia.
    rewrite Hm. unfold head. rewrite Hu8. pose proof (tag_octets_bytes t).
    pose proof (le32_bytes_ok nx). solve_bytes.
  - rewrite Hb1. done.
  - change (take (ber_cursor b1 + length head) mem = lay_out (aw_done w) ((t, []) :: aw_open w)).
    rewrite Hc1, Htk, Hout. unfold head.
    rewrite Hu8, Hnx. destruct (aw_open w) as [|[]]; simpl; by rewrite ?app_nil_r.
  - done.
  - intros _. rewrite Hc1, <- (ber_output_length b) by done. by rewrite Hout.
  - rewrite <- Hnx. done.
Qed.

(** Whatever the length format, the reserved octets [hdr] between the tag and
    the contents are replaced by the length octets. *)
Lemma put_sos_length_spec b (pre hdr c rest : list Z) sos :
  ber_mem b = pre ++ hdr ++ c ++ rest -> length hdr = 5%nat ->
  Z.of_nat (length c) <= MAXINT_BERSIZE -> sos = (length pre + 5 + length c)%nat ->
  let lo := sos_len_octets (ber_der b) (Z.of_nat (length c)) in
  exists rest',
  put_sos_length (ber_options b) (ber_mem b) (length pre) sos (5 + Z.of_nat (length c))
  = Some (pre ++ lo ++ c ++ rest', Z.of_nat (length lo) + Z.of_nat (length c),
          (length pre + length lo + length c)%nat) /\
  length (lo ++ c ++ rest') = length (hdr ++ c ++ rest) /\
  (bytes_ok lo /\ length lo <= 5)%nat /\
  (bytes_ok (hdr ++ c ++ rest) -> bytes_ok rest').
Proof.
  intros Hmem Hh Hc ->. unfold put_sos_length, ber_der, sos_len_octets. rewrite Hmem.
  unfold MAXINT_BERSIZE, HEADER_SIZE, TAGBUF_SIZE, LENBUF_SIZE in Hc.
  replace (u64 (5 + Z.of_nat (length c) - SOS_LENLEN)) with (Z.of_nat (length c))
    by (unfold SOS_LENLEN; rewrite uwrap_small; lia).
  destruct (Z.land (ber_options b) LBER_USE_DER =? 0) eqn:Ed; simpl negb; cbv iota zeta.
  { rewrite mem_write_app by (simpl; lia). simpl mbind.
    exists rest. split; [by res_eq; simpl; lia|].
    split; [rewrite !length_app; simpl; lia|].
    split; [pose proof (be32_bytes_ok (Z.of_nat (length c))); split; [solve_bytes|done]|].
    intros Hb. rewrite !bytes_ok_app in Hb. tauto. }
  fold (len_octets (Z.of_nat (length c))).
  set (lo := len_octets (Z.of_nat (length c))).
  assert (1 <= length lo <= 5 /\ bytes_ok lo)%nat as [Hlo Hlob].
  { destruct (len_octets_spec (Z.of_nat (length c))) as [[? Hl]|[? (ds & Hl & Hds & _ & ? & ?)]];
      [lia|unfold lo; rewrite Hl..]; simpl; split; try lia; solve_bytes. }
  set (u := (5 - length lo)%nat).
  assert (exists h1 h2, hdr = h1 ++ h2 /\ length h1 = u /\ length h2 = length lo)
    as (h1 & h2 & -> & Hh1 & Hh2).
  { exists (take u hdr), (drop u hdr). rewrite take_drop, length_take, length_drop.
    split_and!; [done|lia|lia]. }
  rewrite <- !app_assoc, (app_assoc pre).
  rewrite mem_write_app by (rewrite ?length_app; lia). simpl mbind.
  case_decide as Hu.
  { assert (h1 = []) as -> by (apply length_zero_iff_nil; lia).
    exists rest. rewrite app_nil_r. split; [by res_eq|].
    split; [rewrite !length_app; simpl; lia|]. split; [split; [done|lia]|].
    intros Hb. rewrite !bytes_ok_app in Hb. tauto. }
  rewrite (app_assoc lo).
  rewrite mem_read_app by (rewrite ?length_app; lia). simpl mbind.
  rewrite <- (app_assoc pre), (app_assoc h1).
  set (k := (length lo + length c)%nat).
  rewrite <- (take_drop k (h1 ++ lo ++ c)), <- !app_assoc.
  rewrite mem_write_app.
  2: done.
  2: { rewrite length_take, !length_app. unfold k. lia. }
  simpl mbind. exists (drop k (h1 ++ lo ++ c) ++ rest).
  rewrite <- !app_assoc. split; [by res_eq|].
  split; [rewrite !length_app, length_drop, !length_app; lia|]. split; [split; [done|lia]|].
  intros Hb. rewrite !bytes_ok_app in Hb.
  apply bytes_ok_app. split; [apply bytes_ok_drop|tauto].
  rewrite !bytes_ok_app. tauto.
Qed.

(** Closing a sequence pops it and appends its complete encoding to the
    enclosing one; the value returned is the size of the encoding.  It fails
    only for contents above [MAXINT_BERSIZE]. *)
Lemma put_refines b w t c fs :
  ber_repr b w -> aw_open w = (t, c) :: fs ->
  exists rc b', ber_put_seqorset b = Some (rc, b') /\
    ((rc = -1 /\ b' = b /\ MAXINT_BERSIZE < Z.of_nat (length c)) \/
     (rc = Z.of_nat (length (sos_element (ber_der b) t c)) /\
      ber_repr b' (aw_put (ber_der b) w) /\ Z.of_nat (length c) <= MAXINT_BERSIZE /\
      ber_options b' = ber_options b /\ ber_tag b' = ber_tag b /\
      ber_end b' = ber_end b)).
Proof.
  intros [Hw Hptr Hout Hsos Hin Hok] Hopen.
  rewrite Hopen in *. specialize (Hin ltac:(done)). rewrite lay_out_cons in Hout.
  destruct Hok as [Hok1 Hok].
  pose proof (lay_inner_nonneg (aw_done w) fs) as Hin0.
  pose proof (lay_inner_zero (aw_done w) fs) as Hz.
  set (L := lay_out (aw_done w) fs) in *. set (T := tag_octets t) in *.
  set (tl := Z.of_nat (length T)) in *.
  set (hdr := tl :: le32_bytes (lay_inner (aw_done w) fs)) in *.
  pose proof (tag_octets_length t) as Htl. fold T in Htl.
  pose proof (ber_output_length b Hw) as Hcl. rewrite Hout, !length_app in Hcl.
  assert (Hh : length hdr = 5%nat) by done.
  pose proof (wok_max _ Hw). pose proof (wok_cursor _ Hw).
  unfold ber_put_seqorset. rewrite Hsos.
  replace (ber_sos_inner b) with (Z.of_nat (length (L ++ T)))
    by (rewrite Hin, length_app; simpl; unfold tl, T, L; lia).
  rewrite Nat2Z.id, uwrap_small by (rewrite length_app; lia).
  replace (Z.of_nat (ber_cursor b) - Z.of_nat (length (L ++ T)))
    with (5 + Z.of_nat (length c)) by (rewrite length_app; lia).
  case_if; zb.
  { eexists _, _. split; [done|]. left. unfold SOS_LENLEN in *. split_and!; try done. lia. }
  unfold SOS_LENLEN in E.
  assert (Hmem : ber_mem b = (L ++ T) ++ hdr ++ c ++ drop (ber_cursor b) (ber_mem b)).
  { rewrite (ber_mem_split b) at 1. rewrite Hout, <- !app_assoc. done. }
  assert (Hread : mem_read (ber_mem b) (length (L ++ T)) 5 = Some hdr)
    by (rewrite Hmem; apply mem_read_app; done).
  rewrite Hread. cbn [mbind option_bind].
  destruct (put_sos_length_spec b (L ++ T) hdr c _ (ber_cursor b) Hmem Hh)
    as (rest & Heq & Hlen & (Hlob & Hlo5) & Hrest); [lia|rewrite length_app; lia|].
  rewrite Heq. cbn [mbind option_bind].
  set (lo := sos_len_octets (ber_der b) (Z.of_nat (length c))) in *.
  replace (le32_val (drop 1 hdr)) with (lay_inner (aw_done w) fs)
    by (symmetry; apply le32_bytes_val; lia).
  change (default 0 (hdr !! 0%nat)) with tl.
  assert (Hel : length (sos_element (ber_der b) t c)
                = (length T + length lo + length c)%nat)
    by (unfold sos_element; rewrite !length_app; fold T lo; lia).
  rewrite !length_app in Hlen. pose proof (wok_end _ Hw) as He.
  rewrite Hmem, !length_app in He. pose proof (wok_ptr _ Hw). pose proof (wok_bytes _ Hw) as Hbm.
  rewrite Hmem, !bytes_ok_app in Hbm. rewrite !bytes_ok_app in Hrest.
  unfold MAXINT_BERSIZE, HEADER_SIZE, TAGBUF_SIZE, LENBUF_SIZE in *.
  eexists _, _. split; [done|]. right.
  split; [rewrite Hel; unfold tl; rewrite swrap_small; lia|].
  split; [|split; [lia|by case_if]].
  set (sos := (length (L ++ T) + length lo + length c)%nat).
  assert (Htake : take sos ((L ++ T) ++ lo ++ c ++ rest) = L ++ sos_element (ber_der b) t c).
  { unfold sos. rewrite !(app_assoc _ lo), !(app_assoc _ c), take_app_le, take_ge
      by (rewrite !length_app; lia).
    unfold sos_element. fold T lo. by rewrite <- !app_assoc. }
  unfold aw_put. rewrite Hopen.
  destruct (lay_inner (aw_done w) fs =? 0) eqn:Ez; zb.
  - apply Hz in Ez as ->. unfold aw_append. simpl aw_open. cbv iota.
    subst L. simpl lay_out in *.
    split; simpl; try done.
    + split; simpl; rewrite ?length_app in *; unfold sos; rewrite ?length_app;
        rewrite ?bytes_ok_app; unfold ber_cursor; simpl; try lia. tauto.
    + rewrite length_app, Hel. unfold sos. rewrite length_app. lia.
  - destruct fs as [|[t' c'] fs']; [by destruct (Ez (proj2 Hz eq_refl))|].
    unfold aw_append. cbn [aw_open aw_done].
    split; cbn [aw_open aw_done ber_ptr ber_sos_ptr ber_sos_inner]; try done.
    + split; simpl; rewrite ?length_app in *; unfold sos; rewrite ?length_app;
        rewrite ?bytes_ok_app; unfold ber_cursor; simpl; try lia. tauto.
    + rewrite lay_out_append. exact Htake.
Qed.
End writer.
