(* ===== verification/BerValue.v ===== *)
(** * Encoding whole values with [ber_printf]

    [bval] is the abstract syntax of the values a caller encodes; [bval_fmt] and
    [bval_args] are the format and the arguments it passes to [ber_printf], and
    [encode] is the encoding of X.690 the output is compared with.  The theorem
    [ber_printf_encodes] says that formatting a value appends exactly its
    encoding, whatever sequences are open; [ber_printf_flatten] is the
    end-to-end statement from a fresh element to the flattened octets. *)

From stdpp Require Import base list numbers option.
From Stdlib Require Import Ascii.
From S2P Require Import Prelude Ber BerEncode BerWriter.

Local Open Scope Z_scope.

(** A tag [LBER_DEFAULT] stands for the universal tag of the type. *)
#[local] Unset Elimination Schemes.
Inductive bval :=
  | BInt (tag n : Z)
  | BEnum (tag n : Z)
  | BBool (tag : Z) (v : bool)
  | BNull (tag : Z)
  | BStr (tag : Z) (s : list Z)
  | BSeq (tag : Z) (vs : list bval)
  | BSet (tag : Z) (vs : list bval).
#[local] Set Elimination Schemes.

Section bval_ind.
Variable P : bval -> Prop.
Hypothesis HInt : forall t n, P (BInt t n).
Hypothesis HEnum : forall t n, P (BEnum t n).
Hypothesis HBool : forall t v, P (BBool t v).
Hypothesis HNull : forall t, P (BNull t).
Hypothesis HStr : forall t s, P (BStr t s).
Hypothesis HSeq : forall t vs, Forall P vs -> P (BSeq t vs).
Hypothesis HSet : forall t vs, Forall P vs -> P (BSet t vs).

Fixpoint bval_rect' (v : bval) : P v :=
  let fix go vs : Forall P vs :=
    match vs with
    | [] => @Forall_nil _ P
    | v :: vs => @Forall_cons_2 _ P v vs (bval_rect' v) (go vs)
    end in
  match v with
  | BInt t n => HInt t n
  | BEnum t n => HEnum t n
  | BBool t v => HBool t v
  | BNull t => HNull t
  | BStr t s => HStr t s
  | BSeq t vs => HSeq t vs (go vs)
  | BSet t vs => HSet t vs (go vs)
  end.
End bval_ind.

Definition pick_tag (tag dflt : Z) : Z := if tag =? LBER_DEFAULT then dflt else tag.

Definition prim_element (t : Z) (c : list Z) : list Z :=
  tag_octets t ++ len_octets (Z.of_nat (length c)) ++ c.

Fixpoint encode (der : bool) (v : bval) : list Z :=
  match v with
  | BInt t n => prim_element (pick_tag t LBER_INTEGER) (int_octets n)
  | BEnum t n => prim_element (pick_tag t LBER_ENUMERATED) (int_octets n)
  | BBool t v => prim_element (pick_tag t LBER_BOOLEAN) [if v then 0xff else 0]
  | BNull t => prim_element (pick_tag t LBER_NULL) []
  | BStr t s => prim_element (pick_tag t LBER_OCTETSTRING) s
  | BSeq t vs => sos_element der (pick_tag t LBER_SEQUENCE) (concat (encode der <$> vs))
  | BSet t vs => sos_element der (pick_tag t LBER_SET) (concat (encode der <$> vs))
  end.

Fixpoint bval_fmt (v : bval) : list ascii :=
  match v with
  | BInt _ _ => ["t"; "i"]
  | BEnum _ _ => ["t"; "e"]
  | BBool _ _ => ["t"; "b"]
  | BNull _ => ["t"; "n"]
  | BStr _ _ => ["t"; "o"]
  | BSeq _ vs => ["t"; "{"] ++ concat (bval_fmt <$> vs) ++ ["}"]
  | BSet _ vs => ["t"; "["] ++ concat (bval_fmt <$> vs) ++ ["]"]
  end%char.

Fixpoint bval_args (v : bval) : list parg :=
  match v with
  | BInt t n | BEnum t n => [PTag t; PInt n]
  | BBool t v => [PTag t; PInt (if v then 1 else 0)]
  | BNull t => [PTag t]
  | BStr t s => [PTag t; PStr s]
  | BSeq t vs | BSet t vs => PTag t :: concat (bval_args <$> vs)
  end.

(** The room a value may take in the buffer, reallocation slack included. *)
Fixpoint bval_cost (v : bval) : Z :=
  match v with
  | BInt _ _ | BEnum _ _ | BBool _ _ | BNull _ => 4081
  | BStr _ s => 17 + 4061 + (Z.of_nat (length s) + 4061)
  | BSeq _ vs | BSet _ vs => 4074 + foldr (fun v n => bval_cost v + n) 0 vs
  end.

Fixpoint bval_ok (v : bval) : Prop :=
  match v with
  | BInt _ n | BEnum _ n => - 2 ^ 31 <= n < 2 ^ 31
  | BStr _ s => bytes_ok s
  | BSeq _ vs | BSet _ vs => foldr (fun v P => bval_ok v /\ P) True vs
  | _ => True
  end.

(** ** The octets of an integer *)

Lemma put_int_loop_spec fuel sign unum buf :
  0 <= unum < 2 ^ (8 * Z.of_nat fuel - 1) -> (0 < fuel)%nat -> sign = 0 \/ sign = 255 ->
  bytes_ok buf ->
  exists hd, put_int_loop fuel sign unum buf = hd ++ buf /\ bytes_ok hd /\
    (1 <= length hd <= fuel)%nat.
Proof.
  revert unum buf. induction fuel as [|fuel IH]; intros unum buf Hu Hf Hs Hb; [lia|].
  cbn [put_int_loop]. rewrite land_255.
  assert (Hb' : bytes_ok (Z.lxor sign (u8 unum) mod 256 :: buf)) by solve_bytes.
  case_if; zb.
  - exists [Z.lxor sign (u8 unum) mod 256]. simpl. split_and!; [done|solve_bytes|lia|lia].
  - assert (0 < fuel)%nat.
    { destruct fuel; [|lia]. simpl in Hu. lia. }
    destruct (IH (Z.shiftr unum 8) (Z.lxor sign (u8 unum) mod 256 :: buf))
      as (hd & -> & Hhd & Hl); try done.
    { rewrite Z.shiftr_div_pow2 by lia. split; [apply Z.div_pos; lia|].
      apply Z.div_lt_upper_bound; [lia|]. rewrite <- Z.pow_add_r by lia.
      eapply Z.lt_le_trans; [apply Hu|]. apply Z.pow_le_mono_r; lia. }
    exists (hd ++ [Z.lxor sign (u8 unum) mod 256]). rewrite <- app_assoc, length_app. simpl.
    split_and!; [done|solve_bytes|lia|lia].
Qed.

Lemma int_octets_spec n :
  - 2 ^ 31 <= n < 2 ^ 31 -> bytes_ok (int_octets n) /\ (1 <= length (int_octets n) <= 4)%nat.
Proof.
  intros Hn. unfold int_octets.
  assert (forall s u, 0 <= u < 2 ^ 31 -> s = 0 \/ s = 255 ->
    bytes_ok (put_int_loop 5 s u []) /\ (1 <= length (put_int_loop 5 s u []) <= 4)%nat) as Hgen.
  { intros s u Hu Hs.
    destruct (put_int_loop_spec 4 s u []) as (hd & Heq & Hb & Hl); [simpl; lia|lia|done|constructor|].
    assert (put_int_loop 5 s u [] = put_int_loop 4 s u []) as ->.
    { cbn [put_int_loop]. repeat (case_if; [done|]).
      zb. rewrite !Z.shiftr_shiftr in * by lia. cbn [Z.add Pos.add] in *.
      rewrite Z.shiftr_div_pow2 in E2 by lia. apply Z.le_ngt in E2. destruct E2.
      apply Z.div_lt_upper_bound; lia. }
    rewrite Heq, app_nil_r. done. }
  assert (0 <= u32 n < 2 ^ 32) by (apply uwrap_range; lia).
  case_if; zb; apply Hgen; auto.
  - unfold uwrap in *. assert (n mod 2 ^ 32 = n + 2 ^ 32) as ->; [|lia].
    rewrite <- (Z.mod_add n 1), Z.mod_small; lia.
  - rewrite uwrap_small; lia.
Qed.

Lemma len_octets_short n : 0 <= n < 128 -> len_octets n = [n].
Proof. intros. destruct (len_octets_spec n) as [[_ ?]|[? _]]; [lia|done|lia]. Qed.

Lemma sos_len_octets_bytes der n : 0 <= n < 2 ^ 64 -> bytes_ok (sos_len_octets der n).
Proof.
  intros Hn. destruct der; simpl.
  - destruct (len_octets_spec n Hn) as [[? ->]|[? (ds & -> & ? & _ & ? & _)]]; solve_bytes.
  - apply bytes_ok_cons. split; [unfold byte_ok; lia|apply be32_bytes_ok].
Qed.

Lemma encode_bytes der v :
  bval_ok v -> Z.of_nat (length (encode der v)) < 2 ^ 64 -> bytes_ok (encode der v).
Proof.
  assert (Hprim : forall t c, bytes_ok c -> Z.of_nat (length (prim_element t c)) < 2 ^ 64 ->
            bytes_ok (prim_element t c)).
  { intros t c Hc Hl. unfold prim_element in *. rewrite !length_app in Hl.
    pose proof (sos_len_octets_bytes true (Z.of_nat (length c)) ltac:(lia)).
    pose proof (tag_octets_bytes t). solve_bytes. }
  assert (Hsos : forall t vs, Forall (fun v => bval_ok v -> Z.of_nat (length (encode der v)) < 2 ^ 64 ->
              bytes_ok (encode der v)) vs -> foldr (fun v P => bval_ok v /\ P) True vs ->
            Z.of_nat (length (sos_element der t (concat (encode der <$> vs)))) < 2 ^ 64 ->
            bytes_ok (sos_element der t (concat (encode der <$> vs)))).
  { intros t vs Hvs Hok Hl. unfold sos_element in *. rewrite !length_app in Hl.
    pose proof (sos_len_octets_bytes der (Z.of_nat (length (concat (encode der <$> vs))))) as Hso.
    specialize (Hso ltac:(lia)). pose proof (tag_octets_bytes t).
    assert (bytes_ok (concat (encode der <$> vs))); [|solve_bytes].
    assert (Z.of_nat (length (concat (encode der <$> vs))) < 2 ^ 64) as Hl' by lia. clear -Hvs Hok Hl'.
    induction Hvs as [|v vs Hv _ IH]; [solve_bytes|]. cbn [fmap list_fmap concat] in *.
    rewrite length_app in Hl'. simpl in Hok. destruct Hok as [? ?]. apply bytes_ok_app.
    split; [apply Hv|apply IH]; first [done | lia]. }
  induction v using bval_rect'; intros Hok Hl; cbn [encode bval_ok] in *; auto;
    apply Hprim; auto; try solve_bytes.
  1, 2: by apply int_octets_spec.
  destruct v; solve_bytes.
Qed.

(** ** Formatting a value *)

Lemma bval_costs_nonneg vs : 0 <= foldr (fun v n => bval_cost v + n) 0 vs.
Proof.
  assert (forall v, 0 <= bval_cost v) as Hc.
  { apply bval_rect'; simpl; intros; try lia.
    all: match goal with F : Forall _ _ |- _ => induction F; simpl; lia end. }
  induction vs as [|v vs IH]; simpl; [lia|]. specialize (Hc v). lia.
Qed.

Section printf.
Context `{Heap}.
Hypothesis grants : forall k, heap_grants k = true.

(** [op] appends [s] to the writer, within [cost] octets of buffer. *)
Definition appends (op : BerElement -> option (Z * BerElement)) (s : list Z) (cost : Z) : Prop :=
  forall b w, ber_repr b w -> Z.of_nat (ber_end b) + cost <= MAXINT_BERSIZE ->
  exists rc b', op b = Some (rc, b') /\ 0 <= rc <= cost /\ ber_repr b' (aw_append w s) /\
    ber_options b' = ber_options b /\ Z.of_nat (ber_end b') <= Z.of_nat (ber_end b) + cost.

Ltac maxint := unfold MAXINT_BERSIZE, HEADER_SIZE, TAGBUF_SIZE, LENBUF_SIZE in *.

Lemma write_appends s :
  bytes_ok s -> appends (fun b => ber_write b s 0) s (Z.of_nat (length s) + 4061).
Proof.
  intros Hs b w Hr Hroom. maxint.
  destruct (write_refines b w s Hr Hs ltac:(lia))
    as (rc & b' & Heq & [(_ & _ & Hno)|(-> & ? & ? & _ & _ & ?)]).
  { destruct Hno. split; [done|lia]. }
  eexists _, b'. split_and!; try done; lia.
Qed.

Lemma aw_append_app w s1 s2 : aw_append (aw_append w s1) s2 = aw_append w (s1 ++ s2).
Proof. destruct w as [dn [|[t c] fs]]; unfold aw_append; simpl; by rewrite <- app_assoc. Qed.

Lemma appends_mono op s c1 c2 : appends op s c1 -> c1 <= c2 -> appends op s c2.
Proof.
  intros Ha ? b w Hr ?. destruct (Ha b w Hr ltac:(lia)) as (rc & b' & ? & ? & ? & ? & ?).
  exists rc, b'. split_and!; try done; lia.
Qed.

Lemma short_element t c :
  (length c < 128)%nat -> ber_prepend_tag (Z.of_nat (length c) :: c) t = prim_element t c.
Proof.
  intros. unfold prim_element. rewrite ber_prepend_tag_app, len_octets_short by lia. done.
Qed.

Lemma short_appends t c :
  bytes_ok c -> (length c <= 4)%nat ->
  appends (fun b => ber_write b (ber_prepend_tag (Z.of_nat (length c) :: c) t) 0)
    (prim_element t c) 4081.
Proof.
  intros Hc Hl. rewrite <- short_element by lia.
  eapply appends_mono; [apply write_appends|].
  - rewrite ber_prepend_tag_app. pose proof (tag_octets_bytes t). solve_bytes.
  - rewrite ber_prepend_tag_app, length_app. simpl. pose proof (tag_octets_length t). lia.
Qed.

Lemma ber_prepend_len_app c n : 0 <= n < 2 ^ 64 -> ber_prepend_len c n = len_octets n ++ c.
Proof.
  intros Hn. unfold len_octets, ber_prepend_len. case_if; [|done].
  assert (forall fuel l k buf, prepend_len_loop fuel l k buf =
    ((prepend_len_loop fuel l k []).1, (prepend_len_loop fuel l k []).2 ++ buf)) as Hg.
  { clear. induction fuel as [|fuel IH]; intros l k buf; [done|].
    cbn [prepend_len_loop]. case_if; [done|]. rewrite IH, (IH _ _ [_]). simpl.
    by rewrite <- app_assoc. }
  rewrite Hg, (Hg _ _ _ [_]). cbn [fst snd app]. by rewrite <- app_assoc.
Qed.

Lemma len_octets_bytes n : 0 <= n < 2 ^ 64 -> bytes_ok (len_octets n) /\ (length (len_octets n) <= 9)%nat.
Proof.
  intros Hn. destruct (len_octets_spec n Hn) as [[? ->]|[? (ds & -> & ? & _ & ? & _)]];
    simpl; split; try lia; solve_bytes.
Qed.

Lemma ostring_appends t s :
  bytes_ok s ->
  appends (fun b => ber_put_ostring b s t) (prim_element (pick_tag t LBER_OCTETSTRING) s)
    (17 + 4061 + (Z.of_nat (length s) + 4061)).
Proof.
  intros Hs b w Hr Hroom. unfold ber_put_ostring. fold (pick_tag t LBER_OCTETSTRING).
  set (t' := pick_tag t LBER_OCTETSTRING).
  case_if; zb; [lia|]. maxint.
  rewrite ber_prepend_tag_app. fold (len_octets (Z.of_nat (length s))).
  destruct (len_octets_bytes (Z.of_nat (length s)) ltac:(lia)) as [? ?].
  pose proof (tag_octets_bytes t'). pose proof (tag_octets_length t').
  set (h := tag_octets t' ++ len_octets (Z.of_nat (length s))).
  assert (length h <= 17)%nat by (unfold h; rewrite length_app; lia).
  destruct (write_appends h ltac:(unfold h; solve_bytes) b w Hr)
    as (rc & b1 & -> & ? & Hr1 & Ho1 & He1); [maxint; lia|].
  simpl. destruct (rc >=? 0) eqn:Erc; [|zb; lia].
  destruct (write_appends s Hs b1 _ Hr1) as (rc2 & b2 & -> & ? & Hr2 & Ho2 & He2); [maxint; lia|].
  simpl. destruct (rc2 >=? 0) eqn:Erc2; [|zb; lia].
  eexists _, b2. split; [done|].
  rewrite !swrap_small by (rewrite ?swrap_small; lia).
  split; [lia|]. split; [|split; [congruence|lia]].
  rewrite aw_append_app in Hr2. unfold prim_element. unfold h in Hr2.
  by rewrite <- app_assoc in Hr2.
Qed.

Lemma repr_with_tag b w t : ber_repr b w -> ber_repr (with_tag b t) w.
Proof. intros [[] ? ? ? ? ?]. by repeat split. Qed.

(** One directive that writes a complete element, preceded by its tag. *)
Definition directive (c : ascii) (args : list parg) (op : BerElement -> Z -> option (Z * BerElement))
  : Prop :=
  forall rc b rest, printf_step c rc b (args ++ rest) =
    '(rc, b) ← op b b.(ber_tag); Some (rc, with_tag b LBER_DEFAULT, rest).

Definition fmt_appends (der : bool) (v : bval) : Prop :=
  forall b w rc fmt args, ber_repr b w -> ber_der b = der -> bval_ok v -> rc <> -1 ->
  Z.of_nat (ber_end b) + bval_cost v <= MAXINT_BERSIZE ->
  exists rc' b', rc' <> -1 /\
    ber_printf_loop (bval_fmt v ++ fmt) rc b (bval_args v ++ args)
      = ber_printf_loop fmt rc' b' args /\
    ber_repr b' (aw_append w (encode der v)) /\ ber_options b' = ber_options b /\
    Z.of_nat (ber_end b') <= Z.of_nat (ber_end b) + bval_cost v.

Lemma directive_appends c pargs op t s cost b w rc fmt rest :
  directive c pargs op -> appends (fun b => op b t) s cost ->
  ber_repr b w -> rc <> -1 -> Z.of_nat (ber_end b) + cost <= MAXINT_BERSIZE ->
  exists rc' b', rc' <> -1 /\
    ber_printf_loop (["t"%char; c] ++ fmt) rc b ((PTag t :: pargs) ++ rest)
      = ber_printf_loop fmt rc' b' rest /\
    ber_repr b' (aw_append w s) /\ ber_options b' = ber_options b /\
    Z.of_nat (ber_end b') <= Z.of_nat (ber_end b) + cost.
Proof.
  intros Hd Ha Hr Hrc He.
  destruct (Ha (with_tag b t) w (repr_with_tag _ _ _ Hr) He) as (rc' & b' & Hop & ? & Hr' & Ho & He').
  exists rc', (with_tag b' LBER_DEFAULT).
  split; [lia|]. split; [|split; [by apply repr_with_tag|done]].
  cbn [app ber_printf_loop]. rewrite (proj2 (Z.eqb_neq _ _) Hrc).
  cbn [printf_step mbind option_bind]. rewrite (proj2 (Z.eqb_neq _ _) Hrc), Hd.
  cbn [ber_tag with_tag]. change (mkBer _ t _ _ _ _ _ _ _) with (with_tag b t).
  rewrite Hop. done.
Qed.

(** The members of a sequence, one after the other. *)
Lemma members_append der vs :
  Forall (fmt_appends der) vs ->
  forall b w rc fmt args, ber_repr b w -> ber_der b = der ->
  foldr (fun v P => bval_ok v /\ P) True vs -> rc <> -1 ->
  Z.of_nat (ber_end b) + foldr (fun v n => bval_cost v + n) 0 vs <= MAXINT_BERSIZE ->
  exists rc' b', rc' <> -1 /\
    ber_printf_loop (concat (bval_fmt <$> vs) ++ fmt) rc b (concat (bval_args <$> vs) ++ args)
      = ber_printf_loop fmt rc' b' args /\
    ber_repr b' (aw_append w (concat (encode der <$> vs))) /\ ber_options b' = ber_options b /\
    Z.of_nat (ber_end b') <= Z.of_nat (ber_end b) + foldr (fun v n => bval_cost v + n) 0 vs.
Proof.
  induction 1 as [|v vs Hv Hvs IH]; intros b w rc fmt args Hr Hd Hok Hrc He.
  { exists rc, b. split; [done|]. simpl. split; [done|]. split; [|split; [done|lia]].
    by destruct w as [dn [|[t c] fs]]; unfold aw_append; simpl; rewrite app_nil_r. }
  simpl in Hok, He. destruct Hok as [Hok1 Hok].
  pose proof (bval_costs_nonneg vs).
  destruct (Hv b w rc (concat (bval_fmt <$> vs) ++ fmt) (concat (bval_args <$> vs) ++ args) Hr Hd Hok1 Hrc)
    as (rc1 & b1 & Hrc1 & Heq1 & Hr1 & Ho1 & He1); [lia|].
  destruct (IH b1 _ rc1 fmt args Hr1) as (rc2 & b2 & Hrc2 & Heq2 & Hr2 & Ho2 & He2);
    try done; [unfold ber_der in *; congruence|lia|].
  exists rc2, b2. split; [done|]. cbn [fmap list_fmap concat]. rewrite <- !app_assoc.
  split; [by rewrite Heq1|]. rewrite aw_append_app in Hr2.
  split; [done|]. split; [congruence|]. simpl. lia.
Qed.

(** A sequence or set: open, members, close. *)
Lemma constructed_appends der t dflt copen cclose vs b w rc fmt args :
  (forall rc b rest, printf_step copen rc b rest =
     '(rc, b) ← ber_start_seqorset b (pick_tag b.(ber_tag) dflt);
     Some (rc, with_tag b LBER_DEFAULT, rest)) ->
  (forall rc b rest, printf_step cclose rc b rest =
     '(rc, b) ← ber_put_seqorset b; Some (rc, with_tag b LBER_DEFAULT, rest)) ->
  Forall (fmt_appends der) vs -> foldr (fun v P => bval_ok v /\ P) True vs ->
  ber_repr b w -> ber_der b = der -> rc <> -1 ->
  let cost := 4074 + foldr (fun v n => bval_cost v + n) 0 vs in
  Z.of_nat (ber_end b) + cost <= MAXINT_BERSIZE ->
  exists rc' b', rc' <> -1 /\
    ber_printf_loop ((["t"%char; copen] ++ concat (bval_fmt <$> vs) ++ [cclose]) ++ fmt) rc b
      ((PTag t :: concat (bval_args <$> vs)) ++ args) = ber_printf_loop fmt rc' b' args /\
    ber_repr b' (aw_append w (sos_element der (pick_tag t dflt) (concat (encode der <$> vs)))) /\
    ber_options b' = ber_options b /\
    Z.of_nat (ber_end b') <= Z.of_nat (ber_end b) + cost.
Proof.
  intros Hopen Hclose Hvs Hok Hr Hd Hrc cost He. subst cost.
  pose proof (bval_costs_nonneg vs).
  destruct (start_refines (with_tag b t) w (pick_tag t dflt) (repr_with_tag _ _ _ Hr))
    as (rc1 & b1 & Hop1 & [(_ & _ & Hno)|(-> & Hr1 & Ho1 & _ & He1)]).
  { exfalso. pose proof (wok_cursor _ (repr_wok _ _ Hr)). maxint.
    assert (2 ^ 32 <= Z.of_nat (ber_cursor b)); [apply Hno; split; [done|simpl; lia]|lia]. }
  simpl in He1.
  destruct (members_append der vs Hvs (with_tag b1 LBER_DEFAULT) _ 0 ([cclose] ++ fmt) args
              (repr_with_tag _ _ _ Hr1)) as (rc2 & b2 & Hrc2 & Heq2 & Hr2 & Ho2 & He2); try done.
  { unfold ber_der in *. simpl. by rewrite Ho1. }
  { simpl. lia. }
  simpl in Ho2, He2.
  set (c := concat (encode der <$> vs)) in *.
  destruct (put_refines b2 _ (pick_tag t dflt) c (aw_open w) Hr2 ltac:(done))
    as (rc3 & b3 & Hop3 & [(_ & _ & Hbig)|(-> & Hr3 & _ & Ho3 & _ & He3)]).
  { pose proof (ber_output_length b2 (repr_wok _ _ Hr2)) as Hlen.
    pose proof (wok_cursor _ (repr_wok _ _ Hr2)).
    rewrite (repr_out _ _ Hr2) in Hlen.
    change (aw_open _) with ((pick_tag t dflt, c) :: aw_open w) in Hlen.
    rewrite lay_out_cons, !length_app in Hlen. lia. }
  exists (Z.of_nat (length (sos_element (ber_der b2) (pick_tag t dflt) c))), (with_tag b3 LBER_DEFAULT).
  split; [lia|]. split; [|split_and!].
  - rewrite <- !app_assoc. cbn [app ber_printf_loop]. rewrite (proj2 (Z.eqb_neq _ _) Hrc).
    cbn [printf_step mbind option_bind]. rewrite (proj2 (Z.eqb_neq _ _) Hrc), Hopen.
    cbn [ber_tag with_tag]. change (mkBer _ t _ _ _ _ _ _ _) with (with_tag b t).
    rewrite Hop1. cbn [mbind option_bind]. etrans; [exact Heq2|].
    cbn [app ber_printf_loop]. rewrite (proj2 (Z.eqb_neq _ _) Hrc2), Hclose, Hop3. done.
  - apply repr_with_tag. assert (ber_der b2 = der) as Hd2.
    { unfold ber_der in *. rewrite Ho2. simpl. by rewrite Ho1. }
    rewrite Hd2 in Hr3. destruct w as [dn fs]. exact Hr3.
  - simpl. rewrite Ho3, Ho2, Ho1. done.
  - simpl. lia.
Qed.

Lemma int_appends t dflt n :
  - 2 ^ 31 <= n < 2 ^ 31 ->
  appends (fun b => ber_put_int_or_enum b n (pick_tag t dflt))
    (prim_element (pick_tag t dflt) (int_octets n)) 4081.
Proof. intros [? ?]%int_octets_spec. apply short_appends; [done|lia]. Qed.

Lemma fmt_appends_all der v : fmt_appends der v.
Proof.
  induction v as [t n|t n|t v|t|t s|t vs IH|t vs IH] using bval_rect';
    intros b w rc fmt args Hr Hd Hok Hrc He; simpl in Hok, He.
  - eapply (directive_appends "i" [PInt n] (fun b t => ber_put_int b n t)); eauto; [done|].
    by apply int_appends.
  - eapply (directive_appends "e" [PInt n] (fun b t => ber_put_enum b n t)); eauto; [done|].
    by apply int_appends.
  - eapply (directive_appends "b" [PInt _] (fun b t => ber_put_boolean b _ t)); eauto; [done|].
    intros b0 w0 Hr0 He0.
    pose proof (short_appends (pick_tag t LBER_BOOLEAN) [if v then 0xff else 0]
      ltac:(destruct v; solve_bytes) ltac:(simpl; lia) b0 w0 Hr0 He0) as Hx.
    unfold ber_put_boolean. fold (pick_tag t LBER_BOOLEAN). destruct v; exact Hx.
  - eapply (directive_appends "n" [] ber_put_null); eauto; [done|].
    apply (short_appends (pick_tag t LBER_NULL) []); [solve_bytes|simpl; lia].
  - eapply (directive_appends "o" [PStr s] (fun b t => ber_put_ostring b s t)); eauto; [done|].
    by apply ostring_appends.
  - eapply constructed_appends; eauto.
  - eapply constructed_appends; eauto.
Qed.
End printf.

(** ** The theorems *)

(** C27: formatting any value with [ber_printf] appends exactly its encoding to
    the innermost open sequence of the element, as the abstract writer does,
    provided the allocator grants memory and the buffer stays below the
    supported size; the call does not fail. *)
Theorem ber_printf_encodes `{Heap} (b : BerElement) (w : AWriter) (v : bval) :
  (forall k, heap_grants k = true) -> ber_repr b w -> bval_ok v ->
  Z.of_nat (ber_end b) + bval_cost v <= MAXINT_BERSIZE ->
  exists rc b', ber_printf b (bval_fmt v) (bval_args v) = Some (rc, b') /\ rc <> -1 /\
    ber_repr b' (aw_append w (encode (ber_der b) v)).
Proof.
  intros Hg Hr Hok He.
  destruct (fmt_appends_all Hg (ber_der b) v b w 0 [] [] Hr eq_refl Hok ltac:(lia) He)
    as (rc & b' & ? & Heq & ? & _). rewrite !app_nil_r in Heq.
  exists rc, b'. unfold ber_printf. rewrite Heq. done.
Qed.

(** From a fresh element to the flattened octets. *)
Lemma printf_flatten `{Heap} (options : Z) (v : bval) :
  (forall k, heap_grants k = true) -> bval_ok v -> bval_cost v <= MAXINT_BERSIZE ->
  exists rc b', ber_printf (ber_alloc_t options) (bval_fmt v) (bval_args v) = Some (rc, b') /\
    rc <> -1 /\
    ber_flatten2 b' true =
      Some (0, encode (negb (Z.land options LBER_USE_DER =? 0)) v, b').
Proof.
  intros Hg Hok He.
  assert (ber_repr (ber_alloc_t options) (mkAW [] [])) as Hr.
  { split; try done. apply ber_alloc_t_wok. }
  destruct (fmt_appends_all Hg (ber_der (ber_alloc_t options)) v _ _ 0 [] [] Hr eq_refl Hok ltac:(lia))
    as (rc & b' & ? & Heq & Hr' & _); [simpl; lia|]. rewrite !app_nil_r in Heq.
  exists rc, b'. unfold ber_printf. rewrite Heq. split; [done|]. split; [done|].
  destruct Hr' as [Hw Hptr Hout Hsos _ _]. unfold ber_flatten2. simpl in Hsos, Hptr, Hout.
  rewrite Hsos, ber_memalloc_grants by (done || lia). unfold mem_read. rewrite decide_True.
  2: { rewrite <- (wok_end _ Hw). pose proof (wok_ptr _ Hw). lia. }
  simpl. f_equal. f_equal. f_equal. rewrite drop_0.
  unfold ber_output, ber_cursor in Hout. rewrite Hsos in Hout. exact Hout.
Qed.

(** End to end, from a fresh element: [ber_printf] of a value followed by
    [ber_flatten2] yields the octets of its encoding and nothing else, in DER
    when [LBER_USE_DER] is set and with four-octet lengths otherwise. *)
Theorem ber_printf_flatten `{Heap} (options : Z) (v : bval) :
  (forall k, heap_grants k = true) -> bval_ok v -> bval_cost v <= MAXINT_BERSIZE ->
  exists rc b', ber_printf (ber_alloc_t options) (bval_fmt v) (bval_args v) = Some (rc, b') /\
    rc <> -1 /\
    ber_flatten2 b' true =
      Some (0, encode (negb (Z.land options LBER_USE_DER =? 0)) v, b').
Proof. apply printf_flatten. Qed.

(** A search-request-like message: the value the witnesses use. *)
Definition sample_bval : bval :=
  BSeq LBER_DEFAULT [BInt LBER_DEFAULT 2; BStr 0x80 [100; 99]; BSet 0x63 [BBool LBER_DEFAULT true; BEnum LBER_DEFAULT (-3)]].

Lemma ber_printf_encodes_witness :
  exists rc b', @ber_printf zero_heap (ber_alloc_t 0) (bval_fmt sample_bval) (bval_args sample_bval) = Some (rc, b') /\
    rc <> -1 /\
    @ber_repr b' (aw_append (mkAW [] []) (encode (ber_der (ber_alloc_t 0)) sample_bval)).
Proof.
  apply (@ber_printf_encodes zero_heap).
  - intros. reflexivity.
  - split; try done. apply ber_alloc_t_wok.
  - simpl. repeat split; try lia. repeat constructor; unfold byte_ok; lia.
  - vm_compute. discriminate.
Defined.

Lemma ber_printf_flatten_witness :
  exists rc b', @ber_printf zero_heap (ber_alloc_t 1) (bval_fmt sample_bval) (bval_args sample_bval) = Some (rc, b') /\
    rc <> -1 /\ @ber_flatten2 zero_heap b' true = Some (0, encode true sample_bval, b').
Proof.
  apply (@ber_printf_flatten zero_heap 1 sample_bval).
  - intros. reflexivity.
  - simpl. repeat split; try lia. repeat constructor; unfold byte_ok; lia.
  - vm_compute. discriminate.
Defined.
