(* ===== verification/BerDecode.v ===== *)
(** * The BER decoder (libraries/libreldap/decode.c)

    The decoding routines over the buffer of [Ber.v].  A [berval] that points
    into the buffer is an offset and a length; one that was allocated is the
    list of its octets.  Every read is checked against the allocation ([None] is
    undefined behaviour).  The decoder reads the first octet of a tag from
    [ber_tag], because the octet in the buffer may have been overwritten by the
    terminator of the preceding in-place string: [ber_view] is the octet string
    the decoder really sees, and the lemmas of this file relate the routines to
    the parser [parse_element] over that view. *)

From stdpp Require Import base list numbers option.
From Stdlib Require Import Ascii.
From S2P Require Import Prelude Ber BerEncode BerWriter.

Local Open Scope Z_scope.

Definition LBER_BIG_TAG_MASK : Z := 0x1f.
Definition LBER_MORE_TAG_MASK : Z := 0x80.
Definition LBER_BV_ALLOC : Z := 1.
Definition LBER_BV_NOTERM : Z := 2.
Definition LBER_BV_STRING : Z := 4.

(** A [struct berval] pointing into the element's buffer. *)
Record berval := mkBv { bv_val : nat; bv_len : Z }.

(** The do-while loop of [ber_tag_and_rest] over the octets after the first. *)
Fixpoint big_tag_loop (mem : list Z) (tag : Z) (ptr rest : nat) : option (Z * berval) :=
  match rest with
  | O => Some (LBER_DEFAULT, mkBv ptr 0)
  | S rest =>
      o ← mem !! ptr;
      let tag := Z.lor (u64 (Z.shiftl tag 8)) (Z.land o 0xff) in
      if Z.land tag LBER_MORE_TAG_MASK =? 0
      then Some (tag, mkBv (S ptr) (Z.of_nat rest))
      else if tag <=? (2 ^ 64 - 1) / 256 then big_tag_loop mem tag (S ptr) rest
      else Some (LBER_DEFAULT, mkBv (S ptr) (Z.of_nat rest))
  end.

Definition ber_tag_and_rest (b : BerElement) : option (Z * berval) :=
  let rest := Z.of_nat b.(ber_end) - Z.of_nat b.(ber_ptr) in
  if rest <=? 0 then Some (LBER_DEFAULT, mkBv b.(ber_ptr) (u64 rest)) else
  tag ← (if decide (b.(ber_ptr) = 0%nat) then b.(ber_mem) !! 0%nat else Some b.(ber_tag));
  let rest := Z.to_nat (rest - 1) in
  if negb (Z.land tag LBER_BIG_TAG_MASK =? LBER_BIG_TAG_MASK)
  then Some (tag, mkBv (S b.(ber_ptr)) (Z.of_nat rest))
  else big_tag_loop b.(ber_mem) tag (S b.(ber_ptr)) rest.

Definition ber_get_tag (b : BerElement) : option (Z * BerElement) :=
  '(tag, bv) ← ber_tag_and_rest b; Some (tag, with_ptr b bv.(bv_val)).

(** [for (len = *ptr++ & 0xffU; --i; len |= *ptr++ & 0xffU) len <<= 8;] *)
Fixpoint read_len_loop (mem : list Z) (i : nat) (len : Z) (ptr : nat) : option (Z * nat) :=
  match i with
  | O => Some (len, ptr)
  | S i =>
      o ← mem !! ptr;
      read_len_loop mem i (Z.lor (u64 (Z.shiftl len 8)) (Z.land o 0xff)) (S ptr)
  end.

Definition ber_peek_element (b : BerElement) : option (Z * berval) :=
  '(tag, bv) ← ber_tag_and_rest b;
  let rest := bv.(bv_len) in
  let ptr := bv.(bv_val) in
  if (tag =? LBER_DEFAULT) || (rest =? 0) then Some (LBER_DEFAULT, mkBv ptr 0) else
  len ← b.(ber_mem) !! ptr;
  let ptr := S ptr in
  let rest := rest - 1 in
  if negb (Z.land len 0x80 =? 0) then
    let len := Z.land len 0x7f in
    if (u64 (len - 1) >? 8 - 1) || (rest <? len)
    then Some (LBER_DEFAULT, mkBv ptr len) else
    let rest := rest - len in
    o ← b.(ber_mem) !! ptr;
    '(len, ptr) ← read_len_loop b.(ber_mem) (Z.to_nat len - 1) (Z.land o 0xff) (S ptr);
    if len >? rest then Some (LBER_DEFAULT, mkBv ptr len) else Some (tag, mkBv ptr len)
  else
    if len >? rest then Some (LBER_DEFAULT, mkBv ptr len) else Some (tag, mkBv ptr len).

Definition ber_skip_element (b : BerElement) : option (Z * berval * BerElement) :=
  '(tag, bv) ← ber_peek_element b;
  if tag =? LBER_DEFAULT then Some (tag, bv, b) else
  let b := with_ptr b (bv.(bv_val) + Z.to_nat bv.(bv_len)) in
  t ← b.(ber_mem) !! b.(ber_ptr);
  Some (tag, bv, with_tag b t).

Definition ber_skip_raw (b : BerElement) : option (Z * berval * BerElement) :=
  let val := b.(ber_ptr) in
  '(tag, bv, b) ← ber_skip_element b;
  if tag =? LBER_DEFAULT then Some (tag, bv, b)
  else Some (tag, mkBv val (bv.(bv_len) + Z.of_nat (bv.(bv_val) - val)), b).

Definition ber_peek_tag (b : BerElement) : option (Z * Z) :=
  '(tag, bv) ← ber_peek_element b; Some (tag, bv.(bv_len)).

Definition ber_skip_tag (b : BerElement) : option (Z * Z * BerElement) :=
  '(tag, bv) ← ber_peek_element b;
  let b := with_ptr b bv.(bv_val) in
  t ← b.(ber_mem) !! b.(ber_ptr);
  Some (tag, bv.(bv_len), with_tag b t).

(** [for (i = 1; i < len; i++) netnum = (netnum << 8) | buf[i];] on 32 bits *)
Fixpoint decode_int_loop (netnum : Z) (buf : list Z) : Z :=
  match buf with
  | [] => netnum
  | o :: buf => decode_int_loop (i32 (Z.lor (Z.shiftl netnum 8) o)) buf
  end.

(** [ber_decode_int]: [None] is the return value -1. *)
Definition ber_decode_int (bv : list Z) : option Z :=
  if Z.of_nat (length bv) >? 4 then None else
  match bv with
  | [] => Some 0
  | o :: buf => Some (decode_int_loop (Z.lxor (Z.land o 0xff) 0x80 - 0x80) buf)
  end.

Definition bv_octets (b : BerElement) (bv : berval) : option (list Z) :=
  mem_read b.(ber_mem) bv.(bv_val) (Z.to_nat bv.(bv_len)).

Definition ber_get_int (b : BerElement) : option (Z * option Z * BerElement) :=
  '(tag, bv, b) ← ber_skip_element b;
  if tag =? LBER_DEFAULT then Some (tag, None, b) else
  s ← bv_octets b bv;
  match ber_decode_int s with
  | None => Some (LBER_DEFAULT, None, b)
  | Some n => Some (tag, Some n, b)
  end.

Definition ber_get_enum := ber_get_int.
Definition ber_get_boolean := ber_get_int.

(** [ber_get_stringb] into a buffer of [len] octets: the octets copied. *)
Definition ber_get_stringb (b : BerElement) (len : Z)
  : option (Z * option (list Z) * BerElement) :=
  '(tag, bv, b) ← ber_skip_element b;
  if tag =? LBER_DEFAULT then Some (LBER_DEFAULT, None, b) else
  if bv.(bv_len) >=? len then Some (LBER_DEFAULT, None, b) else
  s ← bv_octets b bv;
  Some (tag, Some s, b).

(** [memchr(s, 0, n)] *)
Definition has_nul (s : list Z) : bool := existsb (Z.eqb 0) s.

(** What a string getter hands out: in place (its octets still in the buffer)
    or an allocated copy. *)
Inductive strval := InPlace (bv : berval) | Alloc (s : list Z).

Section decode.
Context `{Heap}.

(** The tail shared by [ber_get_stringbv] and [ber_get_stringbv_null]: copy if
    asked to, and write the terminator unless [LBER_BV_NOTERM]. *)
Definition finish_string (b : BerElement) (tag : Z) (bv : berval) (s : list Z) (opt : Z)
  : option (Z * option strval * BerElement) :=
  if negb (Z.land opt LBER_BV_ALLOC =? 0) then
    if ber_memalloc_x (u64 (bv.(bv_len) + 1)) then Some (tag, Some (Alloc s), b)
    else Some (LBER_DEFAULT, None, b)
  else if Z.land opt LBER_BV_NOTERM =? 0 then
    mem ← mem_write b.(ber_mem) (bv.(bv_val) + Z.to_nat bv.(bv_len)) [0];
    Some (tag, Some (InPlace bv), with_mem b mem)
  else Some (tag, Some (InPlace bv), b).

Definition ber_get_stringbv (b : BerElement) (opt : Z)
  : option (Z * option strval * BerElement) :=
  '(tag, bv, b) ← ber_skip_element b;
  if tag =? LBER_DEFAULT then Some (LBER_DEFAULT, None, b) else
  s ← bv_octets b bv;
  if negb (Z.land opt LBER_BV_STRING =? 0) && negb (bv.(bv_len) =? 0) &&
     has_nul (take (Z.to_nat (bv.(bv_len) - 1)) s)
  then Some (LBER_DEFAULT, None, b)
  else finish_string b tag bv s opt.

Definition ber_get_stringbv_null (b : BerElement) (opt : Z)
  : option (Z * option strval * BerElement) :=
  '(tag, bv, b) ← ber_skip_element b;
  if (tag =? LBER_DEFAULT) || (bv.(bv_len) =? 0) then Some (tag, None, b) else
  s ← bv_octets b bv;
  if negb (Z.land opt LBER_BV_STRING =? 0) && has_nul (take (Z.to_nat (bv.(bv_len) - 1)) s)
  then Some (LBER_DEFAULT, None, b)
  else finish_string b tag bv s opt.

Definition ber_get_stringa (b : BerElement) :=
  ber_get_stringbv b (Z.lor LBER_BV_ALLOC LBER_BV_STRING).
Definition ber_get_stringa_null (b : BerElement) :=
  ber_get_stringbv_null b (Z.lor LBER_BV_ALLOC LBER_BV_STRING).

Definition sizeof_berval : Z := 16.

Definition ber_get_stringal (b : BerElement) : option (Z * option strval * BerElement) :=
  if ber_memalloc_x sizeof_berval then
    '(tag, sv, b) ← ber_get_stringbv b LBER_BV_ALLOC;
    if tag =? LBER_DEFAULT then Some (tag, None, b) else Some (tag, sv, b)
  else Some (LBER_DEFAULT, None, b).

(** [ber_get_bitstringa]: the octets and the length in bits. *)
Definition ber_get_bitstringa (b : BerElement)
  : option (Z * option (list Z * Z) * BerElement) :=
  '(tag, data, b) ← ber_skip_element b;
  if tag =? LBER_DEFAULT then Some (LBER_DEFAULT, None, b) else
  let len := u64 (data.(bv_len) - 1) in
  if len >? (2 ^ 64 - 1) / 8 then Some (LBER_DEFAULT, None, b) else
  unusedbits ← b.(ber_mem) !! data.(bv_val);
  if unusedbits >? 7 then Some (LBER_DEFAULT, None, b) else
  s ← mem_read b.(ber_mem) (S data.(bv_val)) (Z.to_nat len);
  if has_nul s then Some (LBER_DEFAULT, None, b) else
  if ber_memalloc_x len then Some (tag, Some (s, u64 (len * 8 - unusedbits)), b)
  else Some (LBER_DEFAULT, None, b).

Definition ber_get_null (b : BerElement) : option (Z * BerElement) :=
  '(tag, len, b) ← ber_skip_tag b;
  Some (if len =? 0 then tag else LBER_DEFAULT, b).

(** [ber_first_element]: tag, length, and the end of the sequence ([None] is
    the null pointer). *)
Definition ber_first_element (b : BerElement)
  : option (Z * Z * option nat * BerElement) :=
  '(tag, len, b) ← ber_skip_tag b;
  if tag =? LBER_DEFAULT then Some (LBER_DEFAULT, len, None, b) else
  let last := (b.(ber_ptr) + Z.to_nat len)%nat in
  if len =? 0 then Some (LBER_DEFAULT, len, Some last, b) else
  '(tag, len) ← ber_peek_tag b;
  Some (tag, len, Some last, b).

Definition ber_next_element (b : BerElement) (len : Z) (last : nat) : option (Z * Z) :=
  if decide (last <= b.(ber_ptr))%nat then Some (LBER_DEFAULT, len) else ber_peek_tag b.
End decode.

(** ** The reference parser

    What X.690 says of an element with a definite length, over an octet string:
    its tag, its contents and what follows. *)

Fixpoint parse_big_tag (tag : Z) (s : list Z) : option (Z * list Z) :=
  match s with
  | [] => None
  | o :: s =>
      let tag := tag * 256 + o in
      if o <? 128 then Some (tag, s)
      else if tag <? 2 ^ 56 then parse_big_tag tag s else None
  end.

Definition parse_tag (s : list Z) : option (Z * list Z) :=
  match s with
  | [] => None
  | o :: s => if o mod 32 =? 31 then parse_big_tag o s else Some (o, s)
  end.

Definition parse_len (s : list Z) : option (Z * list Z) :=
  match s with
  | [] => None
  | o :: s =>
      if o <? 128 then Some (o, s) else
      let k := o - 128 in
      if (k =? 0) || (8 <? k) || (Z.of_nat (length s) <? k) then None
      else Some (be_val (take (Z.to_nat k) s), drop (Z.to_nat k) s)
  end.

Definition parse_element (s : list Z) : option (Z * list Z * list Z) :=
  '(t, s) ← parse_tag s;
  '(n, s) ← parse_len s;
  if n <=? Z.of_nat (length s) then Some (t, take (Z.to_nat n) s, drop (Z.to_nat n) s)
  else None.

(** ** What the decoder sees *)

(** The buffer with the saved octet put back. *)
Definition ber_emem (b : BerElement) : list Z :=
  if decide (b.(ber_ptr) = 0%nat) then b.(ber_mem) else <[b.(ber_ptr) := b.(ber_tag)]> b.(ber_mem).

Definition ber_view (b : BerElement) : list Z :=
  take (b.(ber_end) - b.(ber_ptr)) (drop b.(ber_ptr) (ber_emem b)).

(** The invariant of an element that is being read: the data ends before the
    allocation does (there is room for a terminator). *)
Record ber_rok (b : BerElement) : Prop := {
  rok_bytes : bytes_ok b.(ber_mem);
  rok_ptr : (b.(ber_ptr) <= b.(ber_end))%nat;
  rok_end : (b.(ber_end) < length b.(ber_mem))%nat;
  rok_size : Z.of_nat (length b.(ber_mem)) < 2 ^ 63;
  rok_tag : b.(ber_ptr) <> 0%nat -> byte_ok b.(ber_tag);
}.

(** [n] octets of [mem] from [p]. *)
Definition slice (mem : list Z) (p n : nat) : list Z := take n (drop p mem).

Lemma slice_length mem p n : (p + n <= length mem)%nat -> length (slice mem p n) = n.
Proof. intros. unfold slice. rewrite length_take, length_drop. lia. Qed.

Lemma slice_S mem p n :
  (p + S n <= length mem)%nat ->
  exists o, mem !! p = Some o /\ slice mem p (S n) = o :: slice mem (S p) n.
Proof.
  intros Hp. destruct (lookup_lt_is_Some_2 mem p) as [o Ho]; [lia|].
  exists o. split; [done|]. unfold slice. rewrite (drop_S _ o) by done. done.
Qed.

Lemma slice_take mem p n k : (k <= n)%nat -> take k (slice mem p n) = slice mem p k.
Proof. intros. unfold slice. rewrite take_take. f_equal. lia. Qed.

Lemma slice_drop mem p n k : drop k (slice mem p n) = slice mem (p + k) (n - k).
Proof. unfold slice. rewrite skipn_firstn_comm, drop_drop. done. Qed.

Lemma slice_bytes mem p n : bytes_ok mem -> bytes_ok (slice mem p n).
Proof. intros. unfold slice. auto with mach. Qed.

Lemma mem_read_slice mem p n : (p + n <= length mem)%nat -> mem_read mem p n = Some (slice mem p n).
Proof. intros. unfold mem_read. by rewrite decide_True. Qed.

(** The multi-octet tag loop is the reference parser. *)
Lemma big_tag_loop_spec mem rest : forall tag p,
  bytes_ok mem -> (p + rest <= length mem)%nat -> 0 <= tag < 2 ^ 56 ->
  match parse_big_tag tag (slice mem p rest) with
  | Some (t, s) => exists q, big_tag_loop mem tag p rest = Some (t, mkBv (p + q) (Z.of_nat (rest - q))) /\
      (q <= rest)%nat /\ s = slice mem (p + q) (rest - q) /\ 0 <= t < 2 ^ 64 - 1
  | None => exists bv, big_tag_loop mem tag p rest = Some (LBER_DEFAULT, bv) /\
      (bv_val bv <= p + rest)%nat
  end.
Proof.
  induction rest as [|rest IH]; intros tag p Hm Hp Ht.
  { simpl. eexists. split; [done|]. simpl. lia. }
  destruct (slice_S mem p rest Hp) as (o & Ho & ->).
  cbn [parse_big_tag big_tag_loop]. rewrite Ho. cbn [mbind option_bind].
  pose proof (bytes_ok_lookup _ _ _ Hm Ho) as Hob. unfold byte_ok in Hob.
  rewrite land_255, (Z.mod_small o) by lia.
  rewrite (uwrap_small 64) by (rewrite Z.shiftl_mul_pow2; lia).
  rewrite lor_shiftl_low by lia. change (2 ^ 8) with 256.
  unfold LBER_MORE_TAG_MASK. rewrite land_high_bit.
  rewrite Z.add_comm, Z.mod_add, (Z.mod_small o), Z.add_comm by lia.
  case_if; zb.
  { exists 1%nat. replace (p + 1)%nat with (S p) by lia.
    replace (S rest - 1)%nat with rest by lia. split_and!; try done; lia. }
  replace (tag * 256 + o <=? (2 ^ 64 - 1) / 256) with (tag * 256 + o <? 2 ^ 56).
  2: { change ((2 ^ 64 - 1) / 256) with (2 ^ 56 - 1). destruct (Z.ltb_spec (tag * 256 + o) (2 ^ 56));
       symmetry; [apply Z.leb_le|apply Z.leb_gt]; lia. }
  case_if; zb.
  - specialize (IH (tag * 256 + o) (S p) Hm ltac:(lia) ltac:(lia)).
    destruct (parse_big_tag (tag * 256 + o) (slice mem (S p) rest)) as [[t s]|].
    + destruct IH as (q & -> & ? & -> & ?). exists (S q).
      replace (p + S q)%nat with (S p + q)%nat by lia.
      replace (S rest - S q)%nat with (rest - q)%nat by lia. split_and!; try done; lia.
    + destruct IH as (bv & -> & ?). eexists. split; [done|]. lia.
  - eexists. split; [done|]. simpl. lia.
Qed.

(** The octets in front of the cursor. *)
Lemma ber_view_nil b : ber_rok b -> b.(ber_ptr) = b.(ber_end) -> ber_view b = [].
Proof. intros _ E. unfold ber_view. by rewrite E, Nat.sub_diag. Qed.

Lemma ber_view_cons b :
  ber_rok b -> (b.(ber_ptr) < b.(ber_end))%nat ->
  exists o, byte_ok o /\
    (if decide (b.(ber_ptr) = 0%nat) then b.(ber_mem) !! 0%nat else Some b.(ber_tag)) = Some o /\
    ber_view b = o :: slice b.(ber_mem) (S b.(ber_ptr)) (b.(ber_end) - S b.(ber_ptr)).
Proof.
  intros [Hb _ He _ Ht] Hlt. unfold ber_view, ber_emem.
  replace (ber_end b - ber_ptr b)%nat with (S (ber_end b - S (ber_ptr b))) by lia.
  case_decide as E.
  - destruct (slice_S (ber_mem b) (ber_ptr b) (ber_end b - S (ber_ptr b))) as (o & Ho & Hs); [lia|].
    exists o. rewrite E in Ho. split; [by eapply bytes_ok_lookup|]. by split.
  - exists (ber_tag b). split; [auto|]. split; [done|].
    rewrite (drop_S _ (ber_tag b)) by (apply list_lookup_insert_eq; lia).
    cbn [take]. unfold slice. rewrite drop_insert_lt by lia. done.
Qed.

(** Reading the tag is the reference parser on the view. *)
Lemma tag_and_rest_spec b :
  ber_rok b ->
  match parse_tag (ber_view b) with
  | Some (t, s) => exists q, (b.(ber_ptr) < q <= b.(ber_end))%nat /\
      ber_tag_and_rest b = Some (t, mkBv q (Z.of_nat (b.(ber_end) - q))) /\
      s = slice b.(ber_mem) q (b.(ber_end) - q) /\ 0 <= t < 2 ^ 64 - 1
  | None => exists bv, ber_tag_and_rest b = Some (LBER_DEFAULT, bv) /\
      (bv_val bv <= b.(ber_end))%nat
  end.
Proof.
  intros Hr. pose proof (rok_ptr _ Hr). pose proof (rok_end _ Hr).
  unfold ber_tag_and_rest. case_if; zb.
  { rewrite ber_view_nil by (done || lia). eexists. split; [done|]. simpl. lia. }
  destruct (ber_view_cons b Hr ltac:(lia)) as (o & Ho & -> & ->). unfold byte_ok in Ho.
  cbn [parse_tag mbind option_bind].
  unfold LBER_BIG_TAG_MASK. change 31 with (2 ^ 5 - 1). rewrite land_ones_mod by lia.
  change (2 ^ 5 - 1) with 31. change (2 ^ 5) with 32.
  destruct (o mod 32 =? 31); simpl negb; cbn iota.
  - pose proof (big_tag_loop_spec (ber_mem b) (ber_end b - S (ber_ptr b)) o (S (ber_ptr b))
      (rok_bytes _ Hr) ltac:(lia) ltac:(lia)) as Hl.
    replace (Z.to_nat (Z.of_nat (ber_end b) - Z.of_nat (ber_ptr b) - 1))
      with (ber_end b - S (ber_ptr b))%nat by lia.
    destruct (parse_big_tag o _) as [[t s]|].
    + destruct Hl as (q & -> & ? & -> & ?). exists (S (ber_ptr b) + q)%nat.
      replace (ber_end b - (S (ber_ptr b) + q))%nat with (ber_end b - S (ber_ptr b) - q)%nat by lia.
      split_and!; try done; lia.
    + destruct Hl as (bv & -> & ?). eexists. split; [done|]. lia.
  - exists (S (ber_ptr b)).
    replace (Z.to_nat (Z.of_nat (ber_end b) - Z.of_nat (ber_ptr b) - 1))
      with (ber_end b - S (ber_ptr b))%nat by lia.
    split_and!; try done; lia.
Qed.

Lemma read_len_loop_spec mem i : forall len p,
  bytes_ok mem -> (p + i <= length mem)%nat -> (i <= 8)%nat ->
  0 <= len < 256 ^ (8 - Z.of_nat i) ->
  read_len_loop mem i len p =
    Some (foldl (fun a b => a * 256 + b) len (slice mem p i), (p + i)%nat).
Proof.
  induction i as [|i IH]; intros len p Hm Hp Hi Hl.
  { simpl. by rewrite Nat.add_0_r. }
  destruct (slice_S mem p i Hp) as (o & Ho & ->).
  cbn [read_len_loop]. rewrite Ho. cbn [mbind option_bind foldl].
  pose proof (bytes_ok_lookup _ _ _ Hm Ho) as Hob. unfold byte_ok in Hob.
  assert (256 ^ (8 - Z.of_nat i) = 256 * 256 ^ (8 - Z.of_nat (S i))) as Hpow.
  { rewrite <- Z.pow_succ_r by lia. f_equal. lia. }
  assert (256 ^ (8 - Z.of_nat i) <= 256 ^ 8) by (apply Z.pow_le_mono_r; lia).
  rewrite land_255, (Z.mod_small o) by lia.
  rewrite (uwrap_small 64) by (rewrite Z.shiftl_mul_pow2; lia).
  rewrite lor_shiftl_low by lia. change (2 ^ 8) with 256.
  rewrite IH; try done; try lia. by replace (S p + i)%nat with (p + S i)%nat by lia.
Qed.

(** The length octets, as [ber_peek_element] reads them. *)
Lemma parse_len_form mem p n o :
  bytes_ok mem -> (p + n <= length mem)%nat -> mem !! p = Some o -> (1 <= n)%nat ->
  parse_len (slice mem p n) =
    if o <? 128 then Some (o, slice mem (S p) (n - 1)) else
    let k := Z.to_nat (o - 128) in
    if (o =? 128) || (136 <? o) || (Z.of_nat (n - 1) <? o - 128) then None
    else Some (be_val (slice mem (S p) k), slice mem (S p + k) (n - 1 - k)).
Proof.
  intros Hm Hp Ho Hn. destruct n as [|n]; [lia|].
  destruct (slice_S mem p n Hp) as (o' & Ho' & ->). simplify_eq.
  cbn [parse_len]. replace (S n - 1)%nat with n by lia. case_if; [done|]. zb.
  rewrite slice_length by lia.
  replace (o - 128 =? 0) with (o =? 128) by (destruct (Z.eqb_spec o 128), (Z.eqb_spec (o - 128) 0); lia).
  replace (8 <? o - 128) with (136 <? o) by (destruct (Z.ltb_spec 136 o), (Z.ltb_spec 8 (o - 128)); lia).
  cbn zeta. case_if; [done|]. zb. rewrite slice_take, slice_drop by lia. done.
Qed.

Lemma be_val_head x l : be_val (x :: l) = foldl (fun a b => a * 256 + b) x l.
Proof. done. Qed.

(** [ber_peek_element] is the reference parser on the view: on success the
    value points at the contents inside the data, on failure the tag is
    [LBER_DEFAULT]; no read leaves the allocation. *)
Lemma peek_element_spec b :
  ber_rok b ->
  match parse_element (ber_view b) with
  | Some (t, c, s) => exists q n, (b.(ber_ptr) < q)%nat /\ (q + n <= b.(ber_end))%nat /\
      ber_peek_element b = Some (t, mkBv q (Z.of_nat n)) /\
      c = slice b.(ber_mem) q n /\ s = slice b.(ber_mem) (q + n) (b.(ber_end) - (q + n)) /\
      0 <= t < 2 ^ 64 - 1
  | None => exists bv, ber_peek_element b = Some (LBER_DEFAULT, bv) /\
      (bv_val bv <= b.(ber_end))%nat
  end.
Proof.
  intros Hr. pose proof (rok_end _ Hr) as He. pose proof (rok_size _ Hr) as Hsz.
  pose proof (tag_and_rest_spec b Hr) as Ht. unfold parse_element, ber_peek_element.
  destruct (parse_tag (ber_view b)) as [[t s]|].
  2: { destruct Ht as (bv & -> & ?). simpl. eauto. }
  destruct Ht as (q & Hq & -> & -> & Ht). cbn [mbind option_bind bv_len bv_val].
  rewrite (proj2 (Z.eqb_neq t LBER_DEFAULT)) by (unfold LBER_DEFAULT; lia). cbn [orb].
  destruct (decide (q = ber_end b)) as [Eq|Nq].
  { rewrite Eq, Nat.sub_diag. simpl. eexists. split; [done|]. simpl. lia. }
  rewrite (proj2 (Z.eqb_neq _ 0)) by lia.
  destruct (lookup_lt_is_Some_2 (ber_mem b) q) as [o Ho]; [lia|].
  rewrite (parse_len_form (ber_mem b) q (ber_end b - q) o (rok_bytes _ Hr) ltac:(lia) Ho) by lia.
  rewrite Ho. cbn [mbind option_bind].
  pose proof (bytes_ok_lookup _ _ _ (rok_bytes _ Hr) Ho) as Hob. unfold byte_ok in Hob.
  rewrite land_high_bit, (Z.mod_small o) by lia.
  destruct (o <? 128) eqn:E0; cbn [negb]; zb.
  - cbn [mbind option_bind]. rewrite slice_length by lia.
    replace (o >? Z.of_nat (ber_end b - q) - 1) with (negb (o <=? Z.of_nat (ber_end b - q - 1)))
      by (destruct (Z.leb_spec o (Z.of_nat (ber_end b - q - 1))), (Z.gtb_spec o (Z.of_nat (ber_end b - q) - 1)); simpl; lia).
    case_if; zb; simpl.
    + exists (S q), (Z.to_nat o). rewrite slice_take, slice_drop by lia.
      rewrite Z2Nat.id by lia. split_and!; try done; try lia. f_equal; lia.
    + eexists. split; [done|]. simpl. lia.
  - cbn zeta. assert (Z.land o 127 = o - 128) as Hk.
    { change 127 with (2 ^ 7 - 1). rewrite land_ones_mod by lia. change (2 ^ 7) with 128.
      rewrite <- (Z.mod_add o (-1) 128), Z.mod_small; lia. }
    rewrite Hk. replace (u64 (o - 128 - 1) >? 8 - 1) with ((o =? 128) || (136 <? o)).
    2: { destruct (Z.eqb_spec o 128) as [->|]; [done|]. rewrite uwrap_small by lia.
         destruct (Z.ltb_spec 136 o), (Z.gtb_spec (o - 128 - 1) (8 - 1)); simpl; lia. }
    replace (Z.of_nat (ber_end b - q) - 1 <? o - 128) with (Z.of_nat (ber_end b - q - 1) <? o - 128)
      by (f_equal; lia).
    case_if; cbn [mbind option_bind].
    { eexists. split; [done|]. simpl. lia. }
    zb. set (k := Z.to_nat (o - 128)).
    destruct (slice_S (ber_mem b) (S q) (k - 1)) as (o1 & Ho1 & Hs1); [lia|].
    replace (S (k - 1)) with k in Hs1 by lia.
    rewrite Ho1. cbn [mbind option_bind].
    pose proof (bytes_ok_lookup _ _ _ (rok_bytes _ Hr) Ho1) as Ho1b. unfold byte_ok in Ho1b.
    rewrite land_255, (Z.mod_small o1) by lia.
    rewrite read_len_loop_spec; [|apply Hr|lia|lia|].
    2: { split; [lia|]. apply Z.lt_le_trans with (256 ^ 1); [lia|]. apply Z.pow_le_mono_r; lia. }
    rewrite <- be_val_head, <- Hs1. cbn [mbind option_bind].
    pose proof (be_val_bound (slice (ber_mem b) (S q) k) (slice_bytes _ _ _ (rok_bytes _ Hr))) as Hv.
    set (n := be_val (slice (ber_mem b) (S q) k)) in *.
    rewrite slice_length by lia.
    replace (S (S q) + (k - 1))%nat with (S q + k)%nat by lia.
    replace (n >? Z.of_nat (ber_end b - q) - 1 - (o - 128))
      with (negb (n <=? Z.of_nat (ber_end b - q - 1 - k)))
      by (destruct (Z.leb_spec n (Z.of_nat (ber_end b - q - 1 - k))),
            (Z.gtb_spec n (Z.of_nat (ber_end b - q) - 1 - (o - 128))); simpl; lia).
    case_if; zb; simpl negb; cbn iota.
    + exists (S q + k)%nat, (Z.to_nat n). rewrite slice_take, slice_drop by lia.
      rewrite Z2Nat.id by lia. split_and!; try done; try lia. f_equal; lia.
    + eexists. split; [done|]. simpl. lia.
Qed.
