(* ===== verification/BerScan.v ===== *)
(** * ber_get_stringbvl and ber_scanf (libraries/libreldap/decode.c)

    The vector getter and the format-driven decoder over the routines of
    [BerDecode.v].  [ber_scanf] writes its results through the pointers it is
    given; here it returns them, one [sout] per directive.  On an error the
    results of the directives executed so far are reset as the cleanup loop
    does. *)

From stdpp Require Import base list numbers option.
From Stdlib Require Import Ascii.
From S2P Require Import Prelude Ber BerEncode BerWriter BerDecode.

Local Open Scope Z_scope.

(** [enum bgbvc] *)
Inductive bgbvc := ChArray | BvArray | BvVec | BvOff.

(** [bgbvr]: the cookie of [ber_get_stringbvl]. *)
Record bgbvr := mkBgbvr { bg_choice : bgbvc; bg_option : Z; bg_siz : Z; bg_off : Z }.

(** What a directive of [ber_scanf] takes besides the pointers it writes to. *)
Inductive sarg :=
  | SPtr
  | SBuf (cap : Z)
  | SOff (siz off : Z)
  | SHook (f : BerElement -> Z -> option (Z * BerElement)).

(** What a directive wrote: [None] for a null pointer or nothing written. *)
Inductive sout :=
  | OStr (v : option strval)
  | OInt (v : option Z)
  | OBits (v : option (list Z * Z))
  | OLen (l : Z)
  | OTag (t : Z)
  | OBuf (v : option (list Z)) (len : Z)
  | OVec (v : option (list strval)) (siz : Z)
  | ONothing.

Section scan.
Context `{Heap}.

(** The counting loop [for (; ber->ber_ptr < last; i++)] with its [int i], whose
    overflow is undefined; the fuel is used up only when the octets up to [last] are
    (every element takes some). *)
Fixpoint count_elements (fuel : nat) (b : BerElement) (last i : nat) : option (nat * BerElement) :=
  match fuel with
  | O => None
  | S fuel =>
      if decide (b.(ber_ptr) < last)%nat then
        '(tag, _, b) ← ber_skip_element b;
        if tag =? LBER_DEFAULT then Some (i, b) else
        if Z.of_nat i =? 2 ^ 31 - 1 then None else count_elements fuel b last (S i)
      else Some (i, b)
  end.

(** The fetching loop: the tag of the last element and the values, or [None]
    for the jump to [failed]. *)
Fixpoint fetch_strings (ck : bgbvr) (tag : Z) (b : BerElement) (i : nat)
  : option (Z * option (list strval) * BerElement) :=
  match i with
  | O => Some (tag, Some [], b)
  | S i =>
      '(tag, sv, b) ← ber_get_stringbv b ck.(bg_option);
      match sv with
      | None => Some (LBER_DEFAULT, None, b)
      | Some sv =>
          if tag =? LBER_DEFAULT then Some (LBER_DEFAULT, None, b) else
          if match ck.(bg_choice) with BvVec => negb (ber_memalloc_x sizeof_berval) | _ => false end
          then Some (LBER_DEFAULT, None, b) else
          '(tag, svs, b) ← fetch_strings ck tag b i;
          Some (tag, option_map (cons sv) svs, b)
      end
  end.

(** The tag, the count stored in the cookie, the vector, and the element. *)
Definition ber_get_stringbvl (b : BerElement) (ck : bgbvr)
  : option (Z * Z * option (list strval) * BerElement) :=
  '(tag, len, b) ← ber_skip_tag b;
  if tag =? LBER_DEFAULT then Some (LBER_DEFAULT, 0, None, b) else
  let orig := b.(ber_ptr) in
  let last := (orig + Z.to_nat len)%nat in
  '(i, b1) ← count_elements (S (last - orig)) b last 0;
  let i' := if decide (b1.(ber_ptr) = last) then i else 0%nat in
  let tag := if decide (b1.(ber_ptr) = last) then 0 else LBER_DEFAULT in
  t ← b1.(ber_mem) !! orig;
  let b := with_tag (with_ptr b1 orig) t in
  if decide (i' = 0%nat) then Some (tag, 0, None, b) else
  if ber_memalloc_x (u64 (u64 (Z.of_nat i' * ck.(bg_siz)) + ck.(bg_siz))) then
    '(tag, svs, b) ← fetch_strings ck tag b i';
    Some (tag, Z.of_nat i', svs, b)
  else Some (LBER_DEFAULT, Z.of_nat i', None, b).

Local Open Scope char_scope.

(** One directive; [next] is the following format character.  [None] is
    undefined behaviour: arguments of the wrong type, or an access outside the
    buffer. *)
Definition scanf_step (c : ascii) (next : option ascii) (rc : Z) (b : BerElement)
    (args : list sarg) : option (Z * sout * BerElement * list sarg) :=
  let vec ck args := '(t, n, v, b) ← ber_get_stringbvl b ck; Some (t, OVec v n, b, args) in
  match c, args with
  | "!", SHook f :: args => '(t, b) ← f b 0%Z; Some (t, ONothing, b, args)
  | "a", SPtr :: args => '(t, v, b) ← ber_get_stringa b; Some (t, OStr v, b, args)
  | "A", SPtr :: args => '(t, v, b) ← ber_get_stringa_null b; Some (t, OStr v, b, args)
  | "b", SPtr :: args => '(t, v, b) ← ber_get_boolean b; Some (t, OInt v, b, args)
  | "B", SPtr :: args => '(t, v, b) ← ber_get_bitstringa b; Some (t, OBits v, b, args)
  | ("e" | "i"), SPtr :: args => '(t, v, b) ← ber_get_int b; Some (t, OInt v, b, args)
  | "l", SPtr :: args => '(t, l) ← ber_peek_tag b; Some (t, OLen l, b, args)
  | "m", SPtr :: args => '(t, v, b) ← ber_get_stringbv b 0%Z; Some (t, OStr v, b, args)
  | "M", SOff siz off :: args => vec (mkBgbvr BvOff 0%Z siz off) args
  | "n", args => '(t, b) ← ber_get_null b; Some (t, ONothing, b, args)
  | "o", SPtr :: args => '(t, v, b) ← ber_get_stringbv b LBER_BV_ALLOC; Some (t, OStr v, b, args)
  | "O", SPtr :: args => '(t, v, b) ← ber_get_stringal b; Some (t, OStr v, b, args)
  | "s", SBuf cap :: args =>
      '(t, v, b) ← ber_get_stringb b cap;
      Some (t, OBuf v (match v with Some s => Z.of_nat (length s) | None => cap end), b, args)
  | "t", SPtr :: args => '(t, _) ← ber_peek_tag b; Some (t, OTag t, b, args)
  | "T", SPtr :: args => '(t, _, b) ← ber_skip_tag b; Some (t, OTag t, b, args)
  | "v", SPtr :: args => vec (mkBgbvr ChArray (Z.lor LBER_BV_ALLOC LBER_BV_STRING) 8 0) args
  | "V", SPtr :: args => vec (mkBgbvr BvVec LBER_BV_ALLOC 8 0) args
  | "W", SPtr :: args => vec (mkBgbvr BvArray LBER_BV_ALLOC sizeof_berval 0) args
  | "x", args => '(t, _, b) ← ber_skip_element b; Some (t, ONothing, b, args)
  | ("{" | "["), args =>
      match next with
      | Some ("v" | "V" | "W" | "M") => Some (rc, ONothing, b, args)
      | _ => '(t, _, b) ← ber_skip_tag b; Some (t, ONothing, b, args)
      end
  | ("}" | "]"), args => Some (rc, ONothing, b, args)
  | ("!" | "a" | "A" | "b" | "B" | "e" | "i" | "l" | "m" | "M" | "o" | "O" | "s" | "t" | "T"
     | "v" | "V" | "W"), _ => None
  | _, args => Some (LBER_DEFAULT, ONothing, b, args)
  end.

(** The main loop: the last tag, the outputs of the executed directives. *)
Fixpoint scanf_loop (fmt : list ascii) (rc : Z) (b : BerElement) (args : list sarg)
  : option (Z * list sout * BerElement) :=
  match fmt with
  | [] => Some (rc, [], b)
  | c :: fmt =>
      if (rc =? LBER_DEFAULT)%Z then Some (rc, [], b) else
      '(rc, o, b, args) ← scanf_step c (head fmt) rc b args;
      '(rc, os, b) ← scanf_loop fmt rc b args;
      Some (rc, o :: os, b)
  end.

(** The cleanup of one executed directive: allocated values are freed and
    their pointers reset; an unknown directive is [LDAP_BUG], modelled by
    [None]. *)
Definition scanf_reset (c : ascii) (o : sout) : option sout :=
  match c with
  | "!" => Some ONothing
  | "a" | "A" | "m" | "o" | "O" => Some (OStr None)
  | "b" | "e" | "i" | "t" | "T" => Some o
  | "l" => Some (OLen 0)
  | "M" | "v" | "V" | "W" => Some (OVec None 0)
  | "s" => match o with OBuf v _ => Some (OBuf v 0) | _ => Some o end
  | "B" => Some (OBits None)
  | "n" | "x" | "{" | "[" | "}" | "]" => Some ONothing
  | _ => None
  end.

Fixpoint scanf_cleanup (fmt : list ascii) (os : list sout) (b : BerElement) (args : list sarg)
  : option (list sout * BerElement) :=
  match fmt, os with
  | c :: fmt, o :: os =>
      o ← scanf_reset c o;
      '(b, args) ← match c, args with
                   | "!", SHook f :: args => '(_, b) ← f b 1%Z; Some (b, args)
                   | ("n" | "x" | "{" | "[" | "}" | "]"), args => Some (b, args)
                   | _, _ :: args => Some (b, args)
                   | _, [] => None
                   end;
      '(os, b) ← scanf_cleanup fmt os b args;
      Some (o :: os, b)
  | _, _ => Some ([], b)
  end.

Definition ber_scanf (b : BerElement) (fmt : list ascii) (args : list sarg)
  : option (Z * list sout * BerElement) :=
  '(rc, os, b) ← scanf_loop fmt 0%Z b args;
  if (rc =? LBER_DEFAULT)%Z then
    '(os, b) ← scanf_cleanup fmt os b args; Some (rc, os, b)
  else Some (rc, os, b).
End scan.
