(* ===== verification/BerRead.v ===== *)
(** * Decoding what was encoded

    The decoder against the reference parser, element by element, and the round
    trip of whole values: [ber_scanf] over the encoding of a value returns the
    value and leaves what follows it, also when its strings are returned in
    place and terminated inside the buffer. *)

From stdpp Require Import base list numbers option.
From Stdlib Require Import Ascii.
From S2P Require Import Prelude Ber BerEncode BerWriter BerValue BerDecode BerScan.

Local Open Scope Z_scope.

(** ** Integers *)

Lemma foldl_be x l : foldl (fun a b => a * 256 + b) x l = x * 256 ^ Z.of_nat (length l) + be_val l.
Proof.
  induction l as [|y l IH] using rev_ind; [unfold be_val; simpl; lia|].
  rewrite foldl_app, be_val_snoc, length_app, Nat2Z.inj_add, Z.pow_add_r by lia. simpl foldl.
  rewrite IH. change (256 ^ Z.of_nat (length [y])) with 256. ring.
Qed.

(** The number a two's complement octet string denotes. *)
Definition int_val (l : list Z) : Z :=
  match l with
  | [] => 0
  | o :: l => foldl (fun a b => a * 256 + b) (if o <? 128 then o else o - 256) l
  end.

Lemma lxor_byte b : byte_ok b -> Z.lxor 255 b = 255 - b.
Proof.
  intros. apply Z.eqb_eq.
  apply (byte_check (fun b => Z.lxor 255 b =? 255 - b)); done.
Qed.

Lemma sign_extend_byte b : byte_ok b -> Z.lxor b 0x80 - 0x80 = if b <? 128 then b else b - 256.
Proof.
  intros. apply Z.eqb_eq.
  apply (byte_check (fun b => Z.lxor b 128 - 128 =? if b <? 128 then b else b - 256)); done.
Qed.

Lemma put_int_loop_val fuel sign unum buf :
  0 <= unum < 2 ^ (8 * Z.of_nat fuel - 1) -> (0 < fuel)%nat -> sign = 0 \/ sign = 255 ->
  int_val (put_int_loop fuel sign unum buf) =
    (if sign =? 0 then unum else -1 - unum) * 256 ^ Z.of_nat (length buf) + be_val buf.
Proof.
  revert unum buf. induction fuel as [|fuel IH]; intros unum buf Hu Hf Hs; [lia|].
  cbn [put_int_loop]. pose proof (byte_ok_mod unum) as Hm.
  set (o := Z.land (Z.lxor sign (u8 unum)) 255).
  assert (o = if sign =? 0 then unum mod 256 else 255 - unum mod 256) as Ho.
  { unfold o, uwrap. change (2 ^ 8) with 256. rewrite land_255. unfold byte_ok in Hm.
    destruct Hs as [-> | ->].
    - rewrite Z.lxor_0_l, Z.mod_mod by lia. done.
    - rewrite lxor_byte by done. rewrite Z.mod_small by lia. done. }
  clearbody o. subst o. unfold byte_ok in Hm. case_if; zb.
  - cbn [int_val]. rewrite foldl_be. f_equal. f_equal.
    rewrite (Z.mod_small unum) by lia.
    destruct Hs as [-> | ->]; simpl; case_if; zb; lia.
  - assert (0 < fuel)%nat by (destruct fuel; [simpl in Hu|]; lia).
    rewrite Z.shiftr_div_pow2 by lia. change (2 ^ 8) with 256.
    rewrite IH; [|split; [apply Z.div_pos; lia|]|done|done].
    2: { apply Z.div_lt_upper_bound; [lia|]. change 256 with (2 ^ 8). rewrite <- Z.pow_add_r by lia.
         eapply Z.lt_le_trans; [apply Hu|]. apply Z.pow_le_mono_r; lia. }
    rewrite be_val_head, foldl_be. cbn [length]. rewrite Nat2Z.inj_succ, Z.pow_succ_r by lia.
    pose proof (Z.div_mod unum 256 ltac:(lia)) as Hd.
    set (q := unum / 256) in *. set (r := unum mod 256) in *.
    destruct Hs as [-> | ->]; simpl Z.eqb; cbn iota; rewrite Hd; ring.
Qed.

Lemma int_octets_val n : - 2 ^ 31 <= n < 2 ^ 31 -> int_val (int_octets n) = n.
Proof.
  intros Hn. unfold int_octets.
  assert (be_val [] = 0) as H0 by done.
  case_if; zb.
  - assert (u32 n = n + 2 ^ 32) as ->.
    { unfold uwrap. rewrite <- (Z.mod_add n 1), Z.mod_small; lia. }
    rewrite put_int_loop_val; [|simpl; lia|lia|auto]. rewrite H0. simpl. lia.
  - rewrite uwrap_small by lia. rewrite put_int_loop_val; [|simpl; lia|lia|auto].
    rewrite H0. simpl. lia.
Qed.

Lemma decode_int_loop_spec l : forall n,
  bytes_ok l -> - 2 ^ 31 <= foldl (fun a b => a * 256 + b) n l < 2 ^ 31 ->
  decode_int_loop n l = foldl (fun a b => a * 256 + b) n l.
Proof.
  induction l as [|o l IH]; intros n Hl Hv; [done|].
  apply bytes_ok_cons in Hl as [Ho Hl]. unfold byte_ok in Ho.
  cbn [decode_int_loop foldl] in *. rewrite lor_shiftl_low by lia. change (2 ^ 8) with 256.
  rewrite swrap_small; [by apply IH|lia|].
  rewrite foldl_be in Hv. pose proof (be_val_bound l Hl).
  change (2 ^ (32 - 1)) with (2 ^ 31). set (m := n * 256 + o) in *. nia.
Qed.

Lemma ber_decode_int_val s :
  bytes_ok s -> (length s <= 4)%nat -> - 2 ^ 31 <= int_val s < 2 ^ 31 ->
  ber_decode_int s = Some (int_val s).
Proof.
  intros Hs Hl Hv. unfold ber_decode_int. case_if; zb; [lia|].
  destruct s as [|o s]; [done|]. cbn [int_val] in *.
  apply bytes_ok_cons in Hs as [Ho Hs]. pose proof Ho as [? ?].
  rewrite land_255, Z.mod_small, sign_extend_byte by done.
  by rewrite decode_int_loop_spec.
Qed.

(** ** Elements *)

Lemma parse_big_tag_app s : forall tag t r k,
  parse_big_tag tag s = Some (t, r) -> parse_big_tag tag (s ++ k) = Some (t, r ++ k).
Proof.
  induction s as [|o s IH]; intros tag t r k; [done|]. cbn [app parse_big_tag].
  case_if; [by intros [= <- <-]|]. case_if; [|done]. apply IH.
Qed.

Lemma parse_tag_app s t r k :
  parse_tag s = Some (t, r) -> parse_tag (s ++ k) = Some (t, r ++ k).
Proof.
  destruct s as [|o s]; [done|]. cbn [app parse_tag].
  case_if; [apply parse_big_tag_app|by intros [= <- <-]].
Qed.

(** A tag the decoder can read back: one octet whose low five bits are not all
    set, or several whose last is the first with its high bit clear. *)
Definition tag_ok (t : Z) : Prop := parse_tag (tag_octets t) = Some (t, []).

Lemma tag_ok_small t : 0 <= t < 256 -> t mod 32 <> 31 -> tag_ok t.
Proof.
  intros Ht Hm. unfold tag_ok.
  assert (tag_octets t = [t]) as ->.
  { unfold tag_octets, ber_prepend_tag. cbn [prepend_tag_loop].
    rewrite land_255, Z.mod_small, Z.shiftr_div_pow2, Z.div_small by (simpl; lia). done. }
  cbn [parse_tag]. by rewrite (proj2 (Z.eqb_neq _ _) Hm).
Qed.

Lemma parse_len_octets n r :
  0 <= n < 2 ^ 64 -> parse_len (len_octets n ++ r) = Some (n, r).
Proof.
  intros Hn. destruct (len_octets_spec n Hn) as [[? ->]|[? (ds & -> & Hb & Hv & Hl & _)]].
  - cbn [app parse_len]. case_if; zb; [done|lia].
  - cbn [app parse_len]. case_if; zb; [lia|].
    replace (128 + Z.of_nat (length ds) - 128) with (Z.of_nat (length ds)) by lia.
    rewrite length_app, Nat2Z.id, take_app_length, drop_app_length, Hv.
    case_if; [|done]. apply orb_prop in E0 as [E0|E0]; [apply orb_prop in E0 as [E0|E0]|]; zb; lia.
Qed.

Lemma parse_sos_len der n r :
  0 <= n < 2 ^ 32 -> parse_len (sos_len_octets der n ++ r) = Some (n, r).
Proof.
  intros Hn. destruct der; [apply parse_len_octets; lia|].
  unfold sos_len_octets. cbn [app parse_len].
  rewrite (proj2 (Z.ltb_ge 132 128)) by lia. change (132 - 128) with (Z.of_nat (length (be32_bytes n))).
  rewrite length_app, Nat2Z.id, take_app_length, drop_app_length, be32_bytes_val by done.
  case_if; [|done]. apply orb_prop in E as [E|E]; [done|]. zb. lia.
Qed.

Lemma parse_element_gen t lo c r :
  tag_ok t -> (forall r, parse_len (lo ++ r) = Some (Z.of_nat (length c), r)) ->
  parse_element ((tag_octets t ++ lo ++ c) ++ r) = Some (t, c, r).
Proof.
  intros Ht Hlo. unfold parse_element. rewrite <- !app_assoc.
  rewrite (parse_tag_app _ _ _ _ Ht). cbn [mbind option_bind app]. rewrite Hlo.
  cbn [mbind option_bind]. rewrite length_app. case_if; zb; [|lia].
  by rewrite Nat2Z.id, take_app_length, drop_app_length.
Qed.

Lemma parse_prim t c r :
  tag_ok t -> Z.of_nat (length c) < 2 ^ 64 ->
  parse_element (prim_element t c ++ r) = Some (t, c, r).
Proof. intros. apply parse_element_gen; [done|]. intros. apply parse_len_octets. lia. Qed.

Lemma parse_sos der t c r :
  tag_ok t -> Z.of_nat (length c) < 2 ^ 32 ->
  parse_element (sos_element der t c ++ r) = Some (t, c, r).
Proof. intros. apply parse_element_gen; [done|]. intros. apply parse_sos_len. lia. Qed.

(** An element has a tag and a length, of an octet at least. *)
Lemma parse_element_length s t c r : parse_element s = Some (t, c, r) -> (2 + length c + length r <= length s)%nat.
Proof.
  intros H. unfold parse_element in H. destruct (parse_tag s) as [[t' s1]|] eqn:E1; [|done]. cbn [mbind option_bind] in H.
  destruct (parse_len s1) as [[n s2]|] eqn:E2; [|done]. cbn [mbind option_bind] in H. destruct (n <=? _); [|done]. injection H as -> <- <-.
  assert (S (length s1) <= length s)%nat.
  { assert (forall l tag t r, parse_big_tag tag l = Some (t, r) -> (length r <= length l)%nat) as Hbig.
    { induction l as [|o l IH]; intros tag t' r; [done|]. cbn [parse_big_tag length]. case_if; [intros [= _ <-]; lia|]. case_if; [|done]. intros ?%IH. lia. }
    destruct s as [|o s]; [done|]. cbn [parse_tag length] in *. destruct (_ =? 31); [apply Hbig in E1; lia|]. injection E1 as _ <-. lia. }
  assert (S (length s2) <= length s1)%nat.
  { destruct s1 as [|o s1]; [done|]. cbn [parse_len length] in *. destruct (o <? 128); [injection E2 as _ <-; lia|]. destruct (_ || _); [done|]. injection E2 as _ <-. rewrite length_drop. lia. }
  rewrite length_take, length_drop. lia.
Qed.

(** ** Skipping elements *)

(** Moving the cursor to [p] and saving the octet there. *)
Definition ber_at (b : BerElement) (p : nat) (o : Z) : BerElement := with_tag (with_ptr b p) o.

Lemma ber_at_spec b p :
  ber_rok b -> (p <= b.(ber_end))%nat ->
  exists o, b.(ber_mem) !! p = Some o /\ ber_rok (ber_at b p o) /\
    ber_view (ber_at b p o) = slice b.(ber_mem) p (b.(ber_end) - p).
Proof.
  intros [Hb Hp He Hs Ht] Hle.
  destruct (lookup_lt_is_Some_2 (ber_mem b) p) as [o Ho]; [lia|].
  exists o. split; [done|]. split.
  - split; try done. intros _. by eapply bytes_ok_lookup.
  - unfold ber_view, ber_emem. simpl. case_decide; [done|]. by rewrite list_insert_id.
Qed.

(** [ber_skip_element] does what the reference parser does on the view. *)
Lemma ber_view_length b : ber_rok b -> length (ber_view b) = (b.(ber_end) - b.(ber_ptr))%nat.
Proof.
  intros [_ ? ? _ _]. unfold ber_view. rewrite length_take, length_drop.
  unfold ber_emem. case_decide; rewrite ?length_insert; lia.
Qed.

Lemma skip_element_spec b :
  ber_rok b ->
  match parse_element (ber_view b) with
  | Some (t, c, s) => exists q n o, (b.(ber_ptr) < q)%nat /\ (q + n <= b.(ber_end))%nat /\
      ber_skip_element b = Some (t, mkBv q (Z.of_nat n), ber_at b (q + n) o) /\
      ber_rok (ber_at b (q + n) o) /\ ber_view (ber_at b (q + n) o) = s /\
      c = slice b.(ber_mem) q n /\ length c = n /\ 0 <= t < LBER_DEFAULT
  | None => exists bv, ber_skip_element b = Some (LBER_DEFAULT, bv, b)
  end.
Proof.
  intros Hr. pose proof (peek_element_spec b Hr) as Hp. pose proof (rok_end _ Hr).
  unfold ber_skip_element. destruct (parse_element (ber_view b)) as [[[t c] s]|].
  - destruct Hp as (q & n & Hq & Hn & -> & -> & -> & Ht).
    cbn [mbind option_bind bv_val bv_len]. rewrite Nat2Z.id.
    rewrite (proj2 (Z.eqb_neq t LBER_DEFAULT)) by (unfold LBER_DEFAULT; lia).
    destruct (ber_at_spec b (q + n) Hr Hn) as (o & Ho & Hr' & Hv').
    exists q, n, o. cbn [ber_mem ber_ptr with_ptr]. rewrite Ho.
    split_and!; try done; try apply Ht. apply slice_length. lia.
  - destruct Hp as (bv & -> & _). simpl. eauto.
Qed.

(** [ber_skip_tag] stops at the contents of the element. *)
Lemma skip_tag_spec b :
  ber_rok b ->
  match parse_element (ber_view b) with
  | Some (t, c, s) => exists q o, (b.(ber_ptr) < q <= b.(ber_end))%nat /\
      ber_skip_tag b = Some (t, Z.of_nat (length c), ber_at b q o) /\
      ber_rok (ber_at b q o) /\ ber_view (ber_at b q o) = c ++ s /\ 0 <= t < LBER_DEFAULT
  | None => exists l b', ber_skip_tag b = Some (LBER_DEFAULT, l, b') /\ ber_rok b' /\ b'.(ber_end) = b.(ber_end)
  end.
Proof.
  intros Hr. pose proof (peek_element_spec b Hr) as Hp. pose proof (rok_end _ Hr).
  unfold ber_skip_tag. destruct (parse_element (ber_view b)) as [[[t c] s]|].
  - destruct Hp as (q & n & Hq & Hn & -> & -> & -> & Ht).
    cbn [mbind option_bind bv_val bv_len].
    destruct (ber_at_spec b q Hr ltac:(lia)) as (o & Ho & Hr' & Hv').
    exists q, o. cbn [ber_mem ber_ptr with_ptr]. rewrite Ho, slice_length by lia.
    split_and!; try done; try lia; [rewrite Hv'|apply Ht].
    rewrite <- (slice_take _ q (ber_end b - q) n) by lia.
    replace (ber_end b - (q + n))%nat with (ber_end b - q - n)%nat by lia.
    rewrite <- slice_drop, take_drop. done.
  - destruct Hp as (bv & -> & Hle). cbn [mbind option_bind].
    destruct (ber_at_spec b (bv_val bv) Hr ltac:(lia)) as (o & Ho & Hr' & Hv').
    cbn [ber_mem ber_ptr with_ptr]. rewrite Ho. eexists _, _. split; [done|]. by split.
Qed.

(** ** Frames: what later operations leave alone

    A decoding step never writes at or before the cursor it starts from, so the
    strings returned in place, with their terminators, stay as they are. *)
Record frame (b b' : BerElement) : Prop := {
  frame_ptr : (b.(ber_ptr) <= b'.(ber_ptr))%nat;
  frame_end : b'.(ber_end) = b.(ber_end);
  frame_mem : forall i, (i <= b.(ber_ptr))%nat -> b'.(ber_mem) !! i = b.(ber_mem) !! i;
}.

Global Instance frame_preorder : PreOrder frame.
Proof.
  split; [done|]. intros b1 b2 b3 [? ? H1] [? ? H2].
  split; [lia|congruence|]. intros i Hi. rewrite H2 by lia. auto.
Qed.

Lemma frame_at b p o : (b.(ber_ptr) <= p)%nat -> frame b (ber_at b p o).
Proof. done. Qed.

(** Writing the terminator of an in-place string hides nothing from the
    decoder: the overwritten octet was saved. *)
Lemma terminate_spec b p o mem :
  ber_rok (ber_at b p o) -> (0 < p)%nat -> mem_write b.(ber_mem) p [0] = Some mem ->
  ber_rok (with_mem (ber_at b p o) mem) /\
  ber_view (with_mem (ber_at b p o) mem) = ber_view (ber_at b p o).
Proof.
  intros [Hb Hp He Hs Ht] Hp0 Hw. simpl in *.
  pose proof (mem_write_Some _ _ _ _ Hw) as (Hle & Hlen & Hm). simpl in Hle.
  split.
  - split; simpl; try done; try lia. rewrite Hm. solve_bytes.
  - unfold ber_view, ber_emem. simpl. rewrite !decide_False by lia. f_equal. f_equal.
    apply list_eq. intros i. destruct (decide (i = p)) as [->|].
    + rewrite !list_lookup_insert_eq by lia. done.
    + rewrite !list_lookup_insert_ne by done.
      apply (mem_write_lookup_out _ _ _ _ _ Hw). simpl. lia.
Qed.

(** ** The getters *)

(** From [b] the decoder moved on to [b'], with [s] still to be read. *)
Definition moved (b b' : BerElement) (s : list Z) : Prop :=
  ber_rok b' /\ ber_view b' = s /\ frame b b'.

Lemma get_int_spec b t c s n :
  ber_rok b -> parse_element (ber_view b) = Some (t, c, s) -> ber_decode_int c = Some n ->
  exists b', ber_get_int b = Some (t, Some n, b') /\ moved b b' s /\ 0 <= t < LBER_DEFAULT.
Proof.
  intros Hr Hp Hc. pose proof (skip_element_spec b Hr) as Hs. rewrite Hp in Hs.
  destruct Hs as (q & k & o & Hq & Hk & Hs & Hr' & Hv' & -> & Hlen & Ht).
  unfold ber_get_int. rewrite Hs. cbn [mbind option_bind].
  rewrite (proj2 (Z.eqb_neq t LBER_DEFAULT)) by lia.
  unfold bv_octets. cbn [bv_val bv_len]. rewrite Nat2Z.id. cbn [ber_mem ber_at with_tag with_ptr].
  pose proof (rok_end _ Hr). rewrite mem_read_slice by lia. cbn [mbind option_bind]. rewrite Hc.
  eexists. split; [done|]. split; [|done]. split_and!; try done. apply frame_at. lia.
Qed.

Lemma get_null_spec b t s :
  ber_rok b -> parse_element (ber_view b) = Some (t, [], s) ->
  exists b', ber_get_null b = Some (t, b') /\ moved b b' s /\ 0 <= t < LBER_DEFAULT.
Proof.
  intros Hr Hp. pose proof (skip_tag_spec b Hr) as Hs. rewrite Hp in Hs.
  destruct Hs as (q & o & Hq & Hs & Hr' & Hv' & Ht).
  unfold ber_get_null. rewrite Hs. simpl. eexists. split; [done|]. split; [|done].
  split_and!; try done. apply frame_at. lia.
Qed.

Section strings.
Context `{Heap}.

(** What a returned string holds, as long as only later octets are written. *)
Definition sv_holds (b : BerElement) (sv : strval) (s : list Z) : Prop :=
  match sv with
  | InPlace bv => bv_octets b bv = Some s /\ bv.(bv_len) = Z.of_nat (length s) /\
      (bv.(bv_val) + length s <= b.(ber_ptr))%nat /\
      b.(ber_mem) !! (bv.(bv_val) + length s)%nat = Some 0
  | Alloc s' => s' = s
  end.

Lemma mem_read_ext (m1 m2 : list Z) p n s :
  mem_read m1 p n = Some s -> (forall i, (i <= p + n)%nat -> m2 !! i = m1 !! i) ->
  is_Some (m1 !! (p + n)%nat) -> mem_read m2 p n = Some s.
Proof.
  unfold mem_read. case_decide; [|done]. intros [= <-] Hi Hs.
  rewrite <- Hi in Hs by done. apply lookup_lt_is_Some_1 in Hs.
  rewrite decide_True by lia. f_equal. apply list_eq. intros i.
  rewrite !lookup_take. case_decide; [|done]. rewrite !lookup_drop. apply Hi. lia.
Qed.

Lemma sv_holds_frame b b' sv s : sv_holds b sv s -> frame b b' -> sv_holds b' sv s.
Proof.
  destruct sv as [bv|]; [|done]. intros (Ho & Hl & Hp & H0) [? ? Hm]. simpl.
  assert (forall i, (i <= bv_val bv + length s)%nat -> ber_mem b' !! i = ber_mem b !! i) as Hm'.
  { intros. apply Hm. lia. }
  split_and!; [|done|lia|by rewrite Hm'].
  unfold bv_octets in *. rewrite Hl, Nat2Z.id in *.
  eapply mem_read_ext; [done|done|]. by rewrite H0.
Qed.

Lemma get_stringbv_spec b t c s opt :
  ber_rok b -> parse_element (ber_view b) = Some (t, c, s) ->
  opt = 0 \/ (opt = LBER_BV_ALLOC /\ forall k, heap_grants k = true) ->
  exists sv b', ber_get_stringbv b opt = Some (t, Some sv, b') /\ moved b b' s /\
    sv_holds b' sv c /\ 0 <= t < LBER_DEFAULT.
Proof.
  intros Hr Hp Hopt. pose proof (skip_element_spec b Hr) as Hs. rewrite Hp in Hs.
  destruct Hs as (q & k & o & Hq & Hk & Hs & Hr' & Hv' & Hc & Hlen & Ht).
  pose proof (rok_end _ Hr).
  unfold ber_get_stringbv. rewrite Hs. cbn [mbind option_bind].
  rewrite (proj2 (Z.eqb_neq t LBER_DEFAULT)) by lia.
  unfold bv_octets. cbn [bv_val bv_len]. rewrite Nat2Z.id. cbn [ber_mem ber_at with_tag with_ptr].
  rewrite mem_read_slice, <- Hc by lia. cbn [mbind option_bind].
  unfold finish_string. destruct Hopt as [->|[-> Hg]]; cbn [bv_val bv_len].
  - rewrite Nat2Z.id.
    destruct (mem_write_is_Some (ber_mem b) (q + k) [0]) as [mem Hw]; [simpl; lia|].
    change (Z.land 0 _ =? 0) with true. cbn [negb andb ber_at ber_mem with_tag with_ptr].
    rewrite Hw. cbn [mbind option_bind].
    destruct (terminate_spec b (q + k) o mem Hr' ltac:(lia) Hw) as [Hr2 Hv2].
    eexists _, _. split; [done|].
    assert (forall i, (i < q + k)%nat -> mem !! i = ber_mem b !! i) as Hmem.
    { intros. apply (mem_write_lookup_out _ _ _ _ _ Hw). lia. }
    split; [split; [exact Hr2|split; [by rewrite <- Hv'|]]|].
    { split; simpl; [lia|done|]. intros. apply Hmem. lia. }
    split; [|done]. pose proof (mem_write_Some _ _ _ _ Hw) as (? & Hl & Hm).
    split_and!; simpl; try lia.
    + unfold bv_octets. simpl. rewrite Nat2Z.id, mem_read_slice by lia. f_equal.
      rewrite Hc. apply list_eq. intros i. unfold slice.
      rewrite !lookup_take. case_decide; [|done]. rewrite !lookup_drop. apply Hmem. lia.
    + rewrite Hlen, Hm. rewrite lookup_app_r by (rewrite length_take; lia).
      rewrite length_take. by replace (_ - _)%nat with 0%nat by lia.
  - pose proof (rok_size _ Hr). simpl. rewrite ber_memalloc_grants by (done || rewrite uwrap_small; lia).
    eexists _, _. split; [done|]. split; [|done].
    split_and!; try done. apply frame_at. lia.
Qed.
End strings.
