(* ===== verification/BerRoundtrip.v ===== *)
(** * The round trip of the BER codec

    [scan_fmt] is the format a caller passes to [ber_scanf] to read a value
    back.  The theorems: [ber_scanf] on the encoding of a value returns the
    value and stops right behind it; what [ber_printf] wrote and [ber_flatten2]
    handed out is read back by [ber_scanf]; a failing [ber_scanf] returns no
    storage; the decoder refines the reference parser.  The last part records
    the cases where the code does not keep what its comments promise. *)

From stdpp Require Import base list numbers option.
From Stdlib Require Import Ascii.
From S2P Require Import Prelude Ber BerEncode BerWriter BerValue BerDecode BerScan BerRead.

Local Open Scope Z_scope.

(** The directives that read a value; strings in place or allocated. *)
Fixpoint scan_fmt (inplace : bool) (v : bval) : list ascii :=
  match v with
  | BInt _ _ => ["i"]
  | BEnum _ _ => ["e"]
  | BBool _ _ => ["b"]
  | BNull _ => ["n"]
  | BStr _ _ => [if inplace then "m" else "o"]
  | BSeq _ vs => "{" :: concat (scan_fmt inplace <$> vs) ++ ["}"]
  | BSet _ vs => "[" :: concat (scan_fmt inplace <$> vs) ++ ["]"]
  end%char.

Fixpoint scan_args (v : bval) : list sarg :=
  match v with
  | BInt _ _ | BEnum _ _ | BBool _ _ | BStr _ _ => [SPtr]
  | BNull _ => []
  | BSeq _ vs | BSet _ vs => concat (scan_args <$> vs)
  end.

(** What each directive has to return. *)
Inductive expected := EInt (n : Z) | EStr (s : list Z) | ENothing.

Fixpoint expect (v : bval) : list expected :=
  match v with
  | BInt _ n | BEnum _ n => [EInt n]
  | BBool _ v => [EInt (if v then -1 else 0)]
  | BNull _ => [ENothing]
  | BStr _ s => [EStr s]
  | BSeq _ vs | BSet _ vs => ENothing :: concat (expect <$> vs) ++ [ENothing]
  end.

Definition meets (b : BerElement) (e : expected) (o : sout) : Prop :=
  match e, o with
  | EInt n, OInt (Some m) => m = n
  | EStr s, OStr (Some sv) => sv_holds b sv s
  | ENothing, ONothing => True
  | _, _ => False
  end.

(** Every tag of the value can be read back. *)
Fixpoint tags_ok (v : bval) : Prop :=
  match v with
  | BInt t _ => tag_ok (pick_tag t LBER_INTEGER)
  | BEnum t _ => tag_ok (pick_tag t LBER_ENUMERATED)
  | BBool t _ => tag_ok (pick_tag t LBER_BOOLEAN)
  | BNull t => tag_ok (pick_tag t LBER_NULL)
  | BStr t _ => tag_ok (pick_tag t LBER_OCTETSTRING)
  | BSeq t vs => tag_ok (pick_tag t LBER_SEQUENCE) /\ foldr (fun v P => tags_ok v /\ P) True vs
  | BSet t vs => tag_ok (pick_tag t LBER_SET) /\ foldr (fun v P => tags_ok v /\ P) True vs
  end.

Lemma meets_frame b b' es os :
  Forall2 (meets b) es os -> frame b b' -> Forall2 (meets b') es os.
Proof.
  intros Hf Hb. induction Hf as [|e o es os He Hf IH]; constructor; [|done].
  destruct e, o as [[]| | | | | | |]; simpl in *; try done. by eapply sv_holds_frame.
Qed.

(** The directive after an opening brace never asks for a vector. *)
Lemma scan_fmt_head inplace vs close fmt :
  close = "}"%char \/ close = "]"%char ->
  exists c, head (concat (scan_fmt inplace <$> vs) ++ close :: fmt) = Some c /\
    In c ["i"; "e"; "b"; "n"; "m"; "o"; "{"; "["; "}"; "]"]%char.
Proof.
  intros Hc. destruct vs as [|v vs]; simpl.
  - exists close. split; [done|]. destruct Hc as [-> | ->]; simpl; tauto.
  - destruct v; simpl; eexists; (split; [done|]); simpl; try tauto.
    destruct inplace; tauto.
Qed.

Section scanf.
Context `{Heap}.
Hypothesis grants : forall k, heap_grants k = true.

(** [fmt0] reads [s] and returns what [es] says, whatever follows. *)
Definition scans (fmt0 : list ascii) (args0 : list sarg) (s : list Z) (es : list expected) : Prop :=
  forall b rest rc fmt args, ber_rok b -> ber_view b = s ++ rest -> rc <> LBER_DEFAULT ->
  exists rc' b' os, rc' <> LBER_DEFAULT /\ moved b b' rest /\ Forall2 (meets b') es os /\
    scanf_loop (fmt0 ++ fmt) rc b (args0 ++ args) =
      ('(r, os2, b2) ← scanf_loop fmt rc' b' args; Some (r, os ++ os2, b2)).

Lemma scans_nil : scans [] [] [] [].
Proof.
  intros b rest rc fmt args Hr Hv Hrc. exists rc, b, []. split; [done|].
  split; [done|]. split; [constructor|]. simpl.
  by destruct (scanf_loop fmt rc b args) as [[[? ?] ?]|].
Qed.

Lemma scans_app f1 a1 s1 e1 f2 a2 s2 e2 :
  scans f1 a1 s1 e1 -> scans f2 a2 s2 e2 -> scans (f1 ++ f2) (a1 ++ a2) (s1 ++ s2) (e1 ++ e2).
Proof.
  intros Hs1 Hs2 b rest rc fmt args Hr Hv Hrc. rewrite <- !app_assoc in *.
  destruct (Hs1 b (s2 ++ rest) rc (f2 ++ fmt) (a2 ++ args) Hr Hv Hrc)
    as (rc1 & b1 & os1 & Hrc1 & (Hr1 & Hv1 & Hf1) & Ho1 & ->).
  destruct (Hs2 b1 rest rc1 fmt args Hr1 Hv1 Hrc1)
    as (rc2 & b2 & os2 & Hrc2 & (Hr2 & Hv2 & Hf2) & Ho2 & ->).
  exists rc2, b2, (os1 ++ os2). split; [done|]. split; [split_and!; [done|done|by etrans]|].
  split; [apply Forall2_app; [by eapply meets_frame|done]|].
  destruct (scanf_loop fmt rc2 b2 args) as [[[? ?] ?]|]; simpl; by rewrite <- ?app_assoc.
Qed.

Lemma scans_members inplace der vs :
  Forall (fun v => scans (scan_fmt inplace v) (scan_args v) (encode der v) (expect v)) vs ->
  scans (concat (scan_fmt inplace <$> vs)) (concat (scan_args <$> vs))
    (concat (encode der <$> vs)) (concat (expect <$> vs)).
Proof.
  induction 1 as [|v vs Hv _ IH]; [apply scans_nil|]. cbn [fmap list_fmap concat].
  by apply scans_app.
Qed.

(** One directive: the result of its step. *)
Lemma scans_step c args0 s e :
  (forall next rc b rest args, ber_rok b -> ber_view b = s ++ rest -> 
    exists t o b', scanf_step c next rc b (args0 ++ args) = Some (t, o, b', args) /\
      moved b b' rest /\ meets b' e o /\ 0 <= t < LBER_DEFAULT) ->
  scans [c] args0 s [e].
Proof.
  intros Hstep b rest rc fmt args Hr Hv Hrc.
  destruct (Hstep (head fmt) rc b rest args Hr Hv) as (t & o & b' & Heq & Hm & Ho & Ht).
  exists t, b', [o]. split; [lia|]. split; [done|]. split; [by constructor|].
  cbn [app scanf_loop]. rewrite (proj2 (Z.eqb_neq _ _) Hrc), Heq. done.
Qed.

Lemma int_scans c t n octs :
  c = "i"%char \/ c = "e"%char \/ c = "b"%char ->
  tag_ok t -> (length octs <= 4)%nat -> ber_decode_int octs = Some n ->
  scans [c] [SPtr] (prim_element t octs) [EInt n].
Proof.
  intros Hc Ht Hl Hd. apply scans_step. intros next rc b rest args Hr Hv.
  pose proof (parse_prim t octs rest Ht ltac:(lia)) as Hp. rewrite <- Hv in Hp.
  destruct (get_int_spec b _ _ _ _ Hr Hp Hd) as (b' & Hg & Hm & ?).
  exists t, (OInt (Some n)), b'. split; [|done].
  destruct Hc as [-> | [-> | ->]]; simpl; unfold ber_get_boolean; by rewrite Hg.
Qed.

(** An opening or closing brace around the members. *)
Lemma sos_scans der t copen cclose inplace vs args0 es :
  (copen = "{"%char /\ cclose = "}"%char) \/ (copen = "["%char /\ cclose = "]"%char) ->
  tag_ok t -> Z.of_nat (length (concat (encode der <$> vs))) < 2 ^ 32 ->
  scans (concat (scan_fmt inplace <$> vs)) args0 (concat (encode der <$> vs)) es ->
  scans (copen :: concat (scan_fmt inplace <$> vs) ++ [cclose]) args0
    (sos_element der t (concat (encode der <$> vs))) (ENothing :: es ++ [ENothing]).
Proof.
  intros Hc Ht Hl Hms b rest rc fmt args Hr Hv Hrc.
  set (c := concat (encode der <$> vs)) in *.
  pose proof (parse_sos der t c rest Ht Hl) as Hp. rewrite <- Hv in Hp.
  pose proof (skip_tag_spec b Hr) as Hs. rewrite Hp in Hs.
  destruct Hs as (q & o & Hq & Hs & Hr1 & Hv1 & Ht1).
  destruct (Hms (ber_at b q o) rest t (cclose :: fmt) args Hr1 Hv1 ltac:(lia))
    as (rc2 & b2 & os & Hrc2 & (Hr2 & Hv2 & Hf2) & Ho2 & Heq).
  exists rc2, b2, (ONothing :: os ++ [ONothing]). split; [done|].
  split. { split_and!; try done. etrans; [|done]. apply frame_at. lia. }
  split. { constructor; [done|]. apply Forall2_app; [done|]. by constructor. }
  rewrite <- app_comm_cons, <- app_assoc. cbn [app scanf_loop].
  rewrite (proj2 (Z.eqb_neq _ _) Hrc).
  destruct (scan_fmt_head inplace vs cclose fmt) as (nx & Hnx & Hin); [tauto|].
  assert (scanf_step copen (head (concat (scan_fmt inplace <$> vs) ++ cclose :: fmt)) rc b (args0 ++ args)
          = Some (t, ONothing, ber_at b q o, args0 ++ args)) as ->.
  { rewrite Hnx. simpl in Hin. destruct Hc as [[-> _] | [-> _]];
      (repeat destruct Hin as [<- | Hin]; [by simpl; rewrite Hs..|done]). }
  cbn [mbind option_bind]. rewrite Heq. cbn [scanf_loop].
  rewrite (proj2 (Z.eqb_neq _ _) Hrc2).
  destruct Hc as [[_ ->] | [_ ->]]; cbn [scanf_step mbind option_bind];
    destruct (scanf_loop fmt rc2 b2 args) as [[[? ?] ?]|]; simpl; by rewrite <- ?app_assoc.
Qed.

Lemma encode_members_length der vs :
  Forall (fun v => Z.of_nat (length (encode der v)) <= Z.of_nat (length (concat (encode der <$> vs)))) vs.
Proof.
  induction vs as [|v vs IH]; constructor; cbn [fmap list_fmap concat]; rewrite length_app; [lia|].
  rewrite Forall_forall in *. intros w Hw. specialize (IH w Hw). lia.
Qed.

Lemma value_scans inplace der v :
  bval_ok v -> tags_ok v -> Z.of_nat (length (encode der v)) < 2 ^ 32 ->
  scans (scan_fmt inplace v) (scan_args v) (encode der v) (expect v).
Proof.
  assert (forall vs, Forall (fun v => bval_ok v -> tags_ok v -> Z.of_nat (length (encode der v)) < 2 ^ 32 ->
             scans (scan_fmt inplace v) (scan_args v) (encode der v) (expect v)) vs ->
           foldr (fun v P => bval_ok v /\ P) True vs -> foldr (fun v P => tags_ok v /\ P) True vs ->
           Z.of_nat (length (concat (encode der <$> vs))) < 2 ^ 32 ->
           scans (concat (scan_fmt inplace <$> vs)) (concat (scan_args <$> vs))
             (concat (encode der <$> vs)) (concat (expect <$> vs))) as Hmem.
  { intros vs IH Hok Hts Hl. apply scans_members.
    pose proof (encode_members_length der vs) as Hls.
    assert (Forall bval_ok vs) by (clear -Hok; induction vs; simpl in *; constructor; tauto).
    assert (Forall tags_ok vs) by (clear -Hts; induction vs; simpl in *; constructor; tauto).
    rewrite !Forall_forall in *. intros w Hw. apply IH; auto.
    eapply Z.le_lt_trans; [by apply Hls|done]. }
  induction v as [t n|t n|t x|t|t s|t vs IH|t vs IH] using bval_rect'; intros Hok Ht Hl; simpl in Hok, Ht.
  1, 2: destruct (int_octets_spec n Hok); apply int_scans; auto; [lia|];
    rewrite ber_decode_int_val; rewrite ?int_octets_val; auto; lia.
  - apply int_scans; [auto|done|simpl; lia|by destruct x].
  - apply (scans_step "n" [] _ ENothing). intros next rc b rest args Hr Hv.
    pose proof (parse_prim _ [] rest Ht ltac:(simpl; lia)) as Hp.
    cbn [encode] in Hv. rewrite <- Hv in Hp.
    destruct (get_null_spec b _ _ Hr Hp) as (b' & Hg & Hm & ?).
    eexists _, ONothing, b'. split; [by simpl; rewrite Hg|done].
  - cbn [encode] in Hl.
    assert (Z.of_nat (length s) < 2 ^ 32) by (unfold prim_element in Hl; rewrite !length_app in Hl; lia).
    apply scans_step. intros next rc b rest args Hr Hv. cbn [encode] in Hv.
    pose proof (parse_prim _ s rest Ht ltac:(lia)) as Hp. rewrite <- Hv in Hp.
    destruct (get_stringbv_spec b _ _ _ (if inplace then 0 else LBER_BV_ALLOC) Hr Hp)
      as (sv & b' & Hg & Hm & Hsv & ?); [destruct inplace; auto|].
    eexists _, (OStr (Some sv)), b'. split; [|done].
    destruct inplace; simpl in *; by rewrite Hg.
  - cbn [encode] in *. apply sos_scans; [by left|tauto| |].
    + unfold sos_element in Hl. rewrite !length_app in Hl. lia.
    + apply Hmem; [done|done|tauto|]. unfold sos_element in Hl. rewrite !length_app in Hl. lia.
  - cbn [encode] in *. apply sos_scans; [by right|tauto| |].
    + unfold sos_element in Hl. rewrite !length_app in Hl. lia.
    + apply Hmem; [done|done|tauto|]. unfold sos_element in Hl. rewrite !length_app in Hl. lia.
Qed.

(** Running a whole format. *)
Lemma scans_run b fmt args s es rest : scans fmt args s es -> ber_rok b -> ber_view b = s ++ rest ->
  exists rc b' os, ber_scanf b fmt args = Some (rc, os, b') /\
    rc <> LBER_DEFAULT /\ Forall2 (meets b') es os /\ ber_view b' = rest /\ ber_rok b'.
Proof.
  intros Hs Hr Hv. destruct (Hs b rest 0 [] [] Hr Hv ltac:(done)) as (rc & b' & os & Hrc & (Hr' & Hv' & _) & Ho & Heq). rewrite !app_nil_r in Heq.
  exists rc, b', os. unfold ber_scanf. rewrite Heq. cbn [scanf_loop mbind option_bind].
  rewrite (proj2 (Z.eqb_neq _ _) Hrc), app_nil_r. done.
Qed.

Lemma scanf_value b inplace der v rest :
  ber_rok b -> ber_view b = encode der v ++ rest ->
  bval_ok v -> tags_ok v -> Z.of_nat (length (encode der v)) < 2 ^ 32 ->
  exists rc b' os, ber_scanf b (scan_fmt inplace v) (scan_args v) = Some (rc, os, b') /\
    rc <> LBER_DEFAULT /\ Forall2 (meets b') (expect v) os /\ ber_view b' = rest /\ ber_rok b'.
Proof. intros Hr Hv Hok Ht Hl. by apply (scans_run b _ _ _ _ _ (value_scans inplace der v Hok Ht Hl)). Qed.
End scanf.

(** ** Vectors of strings *)

(** A string as a member of a vector. *)
Abbreviation str_element := (prim_element LBER_OCTETSTRING).
Abbreviation str_elements ss := (concat (str_element <$> ss)).

Lemma octetstring_tag_ok : tag_ok LBER_OCTETSTRING.
Proof. reflexivity. Qed.

Lemma str_element_length s : Z.of_nat (length (str_element s)) < 2 ^ 64 -> (2 + length s <= length (str_element s))%nat.
Proof.
  intros Hl. assert (length s <= length (str_element s))%nat by (unfold prim_element; rewrite !length_app; lia).
  pose proof (parse_prim LBER_OCTETSTRING s [] octetstring_tag_ok ltac:(lia)) as Hp. rewrite app_nil_r in Hp. apply parse_element_length in Hp. cbn [length] in Hp. lia.
Qed.

Lemma count_strings ss : forall fuel b rest i,
  ber_rok b -> ber_view b = str_elements ss ++ rest -> (length (str_elements ss) < fuel)%nat -> 2 * Z.of_nat i + Z.of_nat (length (str_elements ss)) < 2 ^ 32 ->
  exists o, let last := (b.(ber_ptr) + length (str_elements ss))%nat in
    count_elements fuel b last i = Some ((i + length ss)%nat, with_tag (with_ptr b last) o).
Proof.
  induction ss as [|s ss IH]; intros fuel b rest i Hr Hv Hf Hi.
  { exists (ber_tag b). destruct fuel as [|fuel]; [simpl in Hf; lia|]. simpl.
    rewrite !Nat.add_0_r, decide_False by lia. by destruct b. }
  destruct fuel as [|fuel]; [lia|]. cbn [fmap list_fmap concat] in *.
  rewrite <- app_assoc in Hv. rewrite length_app in *.
  pose proof (ber_view_length b Hr) as Hvl. rewrite Hv, !length_app in Hvl.
  pose proof (rok_end _ Hr). pose proof (rok_size _ Hr).
  pose proof (str_element_length s ltac:(lia)) as Hse.
  pose proof (skip_element_spec b Hr) as Hs. rewrite Hv in Hs.
  rewrite parse_prim in Hs by (done || lia).
  destruct Hs as (q & n & o & Hq & Hn & Hs & Hr' & Hv' & _ & _ & Ht).
  pose proof (ber_view_length _ Hr') as Hvl'. rewrite Hv', !length_app in Hvl'. simpl in Hvl'.
  assert (q + n = b.(ber_ptr) + length (str_element s))%nat as Hp by lia.
  destruct (IH fuel (ber_at b (q + n) o) rest (S i) Hr' Hv' ltac:(lia) ltac:(lia)) as (o' & IH').
  exists o'. cbn [count_elements]. rewrite decide_True by lia. rewrite Hs.
  cbn [mbind option_bind]. rewrite (proj2 (Z.eqb_neq LBER_OCTETSTRING LBER_DEFAULT)) by done.
  rewrite (proj2 (Z.eqb_neq (Z.of_nat i) (2 ^ 31 - 1))) by lia.
  cbn in IH'. rewrite Hp in IH'. rewrite Hp. cbn [length].
  replace (i + S (length ss))%nat with (S i + length ss)%nat by lia.
  rewrite Nat.add_assoc. exact IH'.
Qed.

Lemma str_elements_length ss : (length ss <= length (str_elements ss))%nat.
Proof.
  induction ss as [|s ss IH]; [done|]. cbn [fmap list_fmap concat length].
  rewrite length_app. assert (1 <= length (str_element s))%nat; [|lia].
  unfold prim_element. rewrite !length_app. pose proof (tag_octets_length LBER_OCTETSTRING). lia.
Qed.

Section vectors.
Context `{Heap}.
Hypothesis grants : forall k, heap_grants k = true.

Lemma fetch_spec ck ss : forall tag b rest,
  ck.(bg_option) = 0 \/ ck.(bg_option) = LBER_BV_ALLOC ->
  ber_rok b -> ber_view b = str_elements ss ++ rest ->
  exists svs b', fetch_strings ck tag b (length ss) =
      Some (match ss with [] => tag | _ => LBER_OCTETSTRING end, Some svs, b') /\
    moved b b' rest /\ Forall2 (sv_holds b') svs ss.
Proof.
  induction ss as [|s ss IH]; intros tag b rest Hck Hr Hv.
  { exists [], b. simpl. split_and!; try done. }
  cbn [fmap list_fmap concat] in Hv. rewrite <- app_assoc in Hv.
  pose proof (ber_view_length b Hr) as Hvl. rewrite Hv, !length_app in Hvl.
  pose proof (rok_end _ Hr). pose proof (rok_size _ Hr).
  assert (length s <= length (str_element s))%nat by (unfold prim_element; rewrite !length_app; lia).
  pose proof (parse_prim LBER_OCTETSTRING s (str_elements ss ++ rest) octetstring_tag_ok ltac:(lia)) as Hp.
  rewrite <- Hv in Hp.
  destruct (get_stringbv_spec b _ _ _ (bg_option ck) Hr Hp) as (sv & b1 & Hg & (Hr1 & Hv1 & Hf1) & Hsv & _).
  { destruct Hck; auto. }
  destruct (IH LBER_OCTETSTRING b1 rest Hck Hr1 Hv1) as (svs & b2 & Heq & (Hr2 & Hv2 & Hf2) & Hsvs).
  exists (sv :: svs), b2. cbn [length fetch_strings]. rewrite Hg. cbn [mbind option_bind].
  rewrite (proj2 (Z.eqb_neq LBER_OCTETSTRING LBER_DEFAULT)) by done.
  rewrite ber_memalloc_grants by done. replace (match bg_choice ck with BvVec => negb true | _ => false end) with false
    by (by destruct (bg_choice ck)).
  rewrite Heq. cbn [mbind option_bind option_map]. split; [by destruct ss|].
  split; [split_and!; try done; by etrans|]. constructor; [by eapply sv_holds_frame|done].
Qed.

Lemma stringbvl_spec ck der t ss b rest :
  ck.(bg_option) = 0 \/ ck.(bg_option) = LBER_BV_ALLOC -> 0 < ck.(bg_siz) < 2 ^ 16 -> tag_ok t ->
  Z.of_nat (length (str_elements ss)) < 2 ^ 32 ->
  ber_rok b -> ber_view b = sos_element der t (str_elements ss) ++ rest ->
  exists v b', ber_get_stringbvl b ck =
      Some (match ss with [] => 0 | _ => LBER_OCTETSTRING end, Z.of_nat (length ss), v, b') /\
    ber_rok b' /\ ber_view b' = rest /\
    match v with None => ss = [] | Some svs => Forall2 (sv_holds b') svs ss end.
Proof.
  intros Hck Hsiz Ht Hl Hr Hv. pose proof (parse_sos der t _ rest Ht Hl) as Hp. rewrite <- Hv in Hp.
  pose proof (skip_tag_spec b Hr) as Hs. rewrite Hp in Hs.
  destruct Hs as (q & o & Hq & Hs & Hr1 & Hv1 & Ht1).
  unfold ber_get_stringbvl. rewrite Hs. cbn [mbind option_bind].
  rewrite (proj2 (Z.eqb_neq t LBER_DEFAULT)) by lia.
  set (b1 := ber_at b q o) in *. rewrite Nat2Z.id.
  destruct (count_strings ss (S (ber_ptr b1 + length (str_elements ss) - ber_ptr b1)) b1 rest 0 Hr1 Hv1
              ltac:(lia) ltac:(lia)) as (o' & Hcnt).
  cbn zeta in Hcnt. rewrite Hcnt. cbn [mbind option_bind ber_ptr ber_mem with_tag with_ptr].
  rewrite !decide_True by done.
  destruct (ber_at_spec b1 (ber_ptr b1) Hr1 (rok_ptr _ Hr1)) as (o2 & Ho2 & Hr2 & Hv2).
  rewrite Ho2. cbn [mbind option_bind].
  change (with_tag (with_ptr (with_tag _ o') _) o2) with (ber_at b1 (ber_ptr b1) o2).
  assert (ber_view (ber_at b1 (ber_ptr b1) o2) = str_elements ss ++ rest) as Hv3.
  { rewrite <- Hv1, Hv2. destruct (ber_at_spec b q Hr ltac:(lia)) as (o3 & Ho3 & _ & Hv3).
    unfold ber_view, ber_emem, slice. simpl.
    case_decide as Hq0; [done|]. rewrite list_insert_id; [done|].
    cbn in Hs. unfold ber_skip_tag in Hs. inv_bind Hs. destruct x as [t0 bv0]. inv_bind Hs.
    injection Hs. simpl in Hb0. congruence. }
  case_decide as Hi.
  - destruct ss; [|done]. eexists None, _. split; [done|]. by split_and!.
  - rewrite ber_memalloc_grants; [|done|].
    2: { pose proof (str_elements_length ss) as Hsl. rewrite Nat.add_0_l.
         assert (0 <= Z.of_nat (length ss) * bg_siz ck < 2 ^ 48).
         { change (2 ^ 48) with (2 ^ 32 * 2 ^ 16). split; [lia|].
           apply Z.mul_lt_mono_nonneg; lia. }
         rewrite !uwrap_small; rewrite ?uwrap_small; lia. }
    destruct (fetch_spec ck ss 0 _ rest Hck Hr2 Hv3) as (svs & b2 & Heq & (? & ? & _) & ?).
    rewrite Nat.add_0_l, Heq. cbn [mbind option_bind]. eexists (Some svs), b2. by split_and!.
Qed.
End vectors.

(** ** The shortest integer *)

Lemma put_int_loop_length fuel sign unum buf :
  0 <= unum ->
  exists k, length (put_int_loop fuel sign unum buf) = (k + length buf)%nat /\
    ((2 <= k)%nat -> 128 * 256 ^ (Z.of_nat k - 2) <= unum).
Proof.
  revert unum buf. induction fuel as [|fuel IH]; intros unum buf Hu; [by exists 0%nat; split; [|lia]|].
  cbn [put_int_loop]. set (o := Z.land _ _). case_if; zb; [by exists 1%nat; split; [|lia]|].
  rewrite Z.shiftr_div_pow2 by lia. change (2 ^ 8) with 256.
  destruct (IH (unum / 256) (o :: buf)) as (k & -> & Hk); [apply Z.div_pos; lia|].
  exists (S k). simpl. split; [lia|]. intros Hk2. destruct (decide (k = 1%nat)) as [->|]; [simpl; lia|].
  specialize (Hk ltac:(lia)). replace (Z.of_nat (S k) - 2) with (Z.succ (Z.of_nat k - 2)) by lia.
  rewrite Z.pow_succ_r by lia. pose proof (Z.div_mod unum 256 ltac:(lia)).
  pose proof (Z.mod_pos_bound unum 256 ltac:(lia)). lia.
Qed.

Lemma int_val_range s :
  bytes_ok s -> s <> [] ->
  - (128 * 256 ^ (Z.of_nat (length s) - 1)) <= int_val s < 128 * 256 ^ (Z.of_nat (length s) - 1).
Proof.
  destruct s as [|o s]; [done|]. intros [Ho Hs]%bytes_ok_cons _. unfold byte_ok in Ho.
  cbn [int_val length]. rewrite foldl_be.
  replace (Z.of_nat (S (length s)) - 1) with (Z.of_nat (length s)) by lia.
  pose proof (be_val_bound s Hs). case_if; zb; nia.
Qed.

Lemma int_octets_shortest n s :
  - 2 ^ 31 <= n < 2 ^ 31 -> bytes_ok s -> s <> [] -> int_val s = n ->
  (length (int_octets n) <= length s)%nat.
Proof.
  intros Hn Hs Hne Hv. pose proof (int_val_range s Hs Hne) as Hr.
  destruct s as [|x s]; [done|]. clear Hne. set (l := length (x :: s)) in *.
  assert (1 <= l)%nat by (simpl in l; lia). rewrite Hv in Hr.
  assert (forall sign u, 0 <= u -> u < 128 * 256 ^ (Z.of_nat l - 1) ->
            (length (put_int_loop 5 sign u []) <= l)%nat) as Hgen.
  { intros sign u Hu Hb. destruct (put_int_loop_length 5 sign u [] Hu) as (k & -> & Hk).
    simpl. destruct (decide (k <= l)%nat); [lia|]. specialize (Hk ltac:(lia)).
    assert (256 ^ (Z.of_nat l - 1) <= 256 ^ (Z.of_nat k - 2)) by (apply Z.pow_le_mono_r; lia). lia. }
  unfold int_octets. case_if; zb; apply Hgen.
  1, 2: assert (u32 n = n + 2 ^ 32) as -> by (unfold uwrap; rewrite <- (Z.mod_add n 1), Z.mod_small; lia); lia.
  1, 2: rewrite uwrap_small; lia.
Qed.

(** ** The theorems *)

(** Reading back a value: when the octets in front of the cursor start with
    the encoding of [v], [ber_scanf] with the matching format succeeds, returns
    every number and string of [v] (a string in place is NUL-terminated inside
    the buffer and stays intact while the rest is decoded), and leaves exactly
    the octets behind the encoding. *)
Theorem ber_scanf_decodes `{Heap} (b : BerElement) (inplace der : bool) (v : bval) (rest : list Z) :
  (forall k, heap_grants k = true) ->
  ber_rok b -> ber_view b = encode der v ++ rest ->
  bval_ok v -> tags_ok v -> Z.of_nat (length (encode der v)) < 2 ^ 32 ->
  exists rc b' os, ber_scanf b (scan_fmt inplace v) (scan_args v) = Some (rc, os, b') /\
    rc <> LBER_DEFAULT /\ Forall2 (meets b') (expect v) os /\ ber_view b' = rest /\ ber_rok b'.
Proof. intros. by eapply scanf_value. Qed.

(** A buffer that holds the sample value, one more octet and a terminator. *)
Definition sample_ber : BerElement :=
  ber_init2 (encode false sample_bval ++ [7; 0]) (length (encode false sample_bval) + 1) 0.

Lemma sample_ber_rok : ber_rok sample_ber.
Proof.
  split; [apply (bool_decide_unpack _); vm_compute; exact I| | |vm_compute; done|];
    try (apply Nat.leb_le; vm_compute; reflexivity). done.
Qed.

Lemma ber_scanf_decodes_witness :
  exists rc b' os,
    @ber_scanf zero_heap sample_ber (scan_fmt true sample_bval) (scan_args sample_bval) = Some (rc, os, b') /\
    rc <> LBER_DEFAULT /\ Forall2 (meets b') (expect sample_bval) os /\ ber_view b' = [7] /\ ber_rok b'.
Proof.
  apply (@ber_scanf_decodes zero_heap sample_ber true false sample_bval [7]).
  - intros. reflexivity.
  - exact sample_ber_rok.
  - vm_compute. reflexivity.
  - simpl. repeat split; try lia. repeat constructor; unfold byte_ok; lia.
  - simpl. repeat split; vm_compute; reflexivity.
  - vm_compute. reflexivity.
Defined.

(** C1: the codec round trip: what [ber_printf] writes to a fresh element and
    [ber_flatten2] hands out, read by [ber_scanf] from an element initialised
    with it ([ber_init2]), yields the value again and nothing is left over. *)
Theorem ber_codec_roundtrip `{Heap} (options : Z) (inplace : bool) (v : bval) :
  (forall k, heap_grants k = true) -> bval_ok v -> tags_ok v -> bval_cost v <= MAXINT_BERSIZE ->
  Z.of_nat (length (encode (negb (Z.land options LBER_USE_DER =? 0)) v)) < 2 ^ 31 ->
  exists rc b data, ber_printf (ber_alloc_t options) (bval_fmt v) (bval_args v) = Some (rc, b) /\
    rc <> -1 /\ ber_flatten2 b true = Some (0, data, b) /\
    exists rc' b' os,
      ber_scanf (ber_init2 (data ++ [0]) (length data) options) (scan_fmt inplace v) (scan_args v)
        = Some (rc', os, b') /\
      rc' <> LBER_DEFAULT /\ Forall2 (meets b') (expect v) os /\ ber_view b' = [].
Proof.
  intros Hg Hok Ht Hc Hl. destruct (printf_flatten options v Hg Hok Hc) as (rc & b & Hp & Hrc & Hf).
  set (data := encode _ v) in *. exists rc, b, data. split_and!; try done.
  assert (bytes_ok data) as Hd by (apply encode_bytes; [done|fold data; lia]).
  set (b0 := ber_init2 _ _ _).
  assert (ber_rok b0) as Hr0.
  { split; simpl; rewrite ?length_app; simpl; try lia. solve_bytes. }
  destruct (scanf_value Hg b0 inplace (negb (Z.land options LBER_USE_DER =? 0)) v [] Hr0) as (rc' & b' & os & ? & ? & ? & ? & _); try done.
  - unfold b0, ber_view, ber_emem. simpl. rewrite app_nil_r, Nat.sub_0_r, drop_0.
    by rewrite take_app_length.
  - fold data. lia.
  - by exists rc', b', os.
Qed.

Lemma ber_codec_roundtrip_witness :
  exists rc b data,
    @ber_printf zero_heap (ber_alloc_t 1) (bval_fmt sample_bval) (bval_args sample_bval) = Some (rc, b) /\
    rc <> -1 /\ @ber_flatten2 zero_heap b true = Some (0, data, b) /\
    exists rc' b' os,
      @ber_scanf zero_heap (ber_init2 (data ++ [0]) (length data) 1) (scan_fmt false sample_bval)
        (scan_args sample_bval) = Some (rc', os, b') /\
      rc' <> LBER_DEFAULT /\ Forall2 (meets b') (expect sample_bval) os /\ ber_view b' = [].
Proof.
  apply (@ber_codec_roundtrip zero_heap 1 false sample_bval).
  - intros. reflexivity.
  - simpl. repeat split; try lia. repeat constructor; unfold byte_ok; lia.
  - simpl. repeat split; vm_compute; reflexivity.
  - vm_compute. discriminate.
  - vm_compute. reflexivity.
Defined.

(** C38: [ber_skip_element] refines the parser of definite-length BER elements:
    on a well-formed element it returns the tag and the contents, moves behind
    the element and keeps the buffer; on anything else it returns
    [LBER_DEFAULT] and changes nothing.  Either way no octet outside the buffer
    is read. *)
Theorem ber_skip_element_refines (b : BerElement) :
  ber_rok b ->
  match parse_element (ber_view b) with
  | Some (t, c, s) => exists bv b',
      ber_skip_element b = Some (t, bv, b') /\ bv_octets b' bv = Some c /\
      t <> LBER_DEFAULT /\ ber_view b' = s /\ ber_rok b' /\ b'.(ber_mem) = b.(ber_mem)
  | None => exists bv, ber_skip_element b = Some (LBER_DEFAULT, bv, b)
  end.
Proof.
  intros Hr. pose proof (skip_element_spec b Hr) as Hs. pose proof (rok_end _ Hr).
  destruct (parse_element (ber_view b)) as [[[t c] s]|]; [|done].
  destruct Hs as (q & n & o & Hq & Hn & Hs & Hr' & Hv' & -> & _ & Ht).
  eexists _, _. split; [done|]. split_and!; try done; [|lia].
  unfold bv_octets. simpl. rewrite Nat2Z.id. apply mem_read_slice. lia.
Qed.

Lemma ber_skip_element_refines_witness :
  ber_rok sample_ber /\
  match parse_element (ber_view sample_ber) with
  | Some (t, c, s) => exists bv b',
      ber_skip_element sample_ber = Some (t, bv, b') /\ bv_octets b' bv = Some c /\
      t <> LBER_DEFAULT /\ ber_view b' = s /\ ber_rok b' /\ b'.(ber_mem) = sample_ber.(ber_mem)
  | None => exists bv, ber_skip_element sample_ber = Some (LBER_DEFAULT, bv, sample_ber)
  end.
Proof.
  split; [exact sample_ber_rok|]. apply ber_skip_element_refines. exact sample_ber_rok.
Defined.

(** A vector of strings: on a sequence of octet strings [ber_get_stringbvl]
    (the directives 'v', 'V', 'W' and 'M') counts them all, returns them in order
    and leaves what follows the sequence; for an empty sequence it returns the
    tag 0 and no vector. *)
Theorem ber_get_stringbvl_reads `{Heap} (ck : bgbvr) (der : bool) (t : Z) (ss : list (list Z))
    (b : BerElement) (rest : list Z) :
  (forall k, heap_grants k = true) ->
  ck.(bg_option) = 0 \/ ck.(bg_option) = LBER_BV_ALLOC -> 0 < ck.(bg_siz) < 2 ^ 16 -> tag_ok t ->
  Z.of_nat (length (str_elements ss)) < 2 ^ 32 ->
  ber_rok b -> ber_view b = sos_element der t (str_elements ss) ++ rest ->
  exists v b', ber_get_stringbvl b ck =
      Some (match ss with [] => 0 | _ => LBER_OCTETSTRING end, Z.of_nat (length ss), v, b') /\
    ber_rok b' /\ ber_view b' = rest /\
    match v with None => ss = [] | Some svs => Forall2 (sv_holds b') svs ss end.
Proof. intros. by eapply stringbvl_spec. Qed.

Lemma ber_get_stringbvl_reads_witness :
  exists v b',
    @ber_get_stringbvl zero_heap (ber_init2 [0x30; 5; 4; 1; 97; 4; 0; 9; 0] 8 0) (mkBgbvr BvOff 0 16 0)
      = Some (LBER_OCTETSTRING, 2, v, b') /\
    ber_rok b' /\ ber_view b' = [9] /\
    match v with None => [[97]; []] = [] | Some svs => Forall2 (sv_holds b') svs [[97]; []] end.
Proof.
  apply (@ber_get_stringbvl_reads zero_heap (mkBgbvr BvOff 0 16 0) true 0x30 [[97]; []] _ [9]).
  - intros. reflexivity.
  - left. reflexivity.
  - simpl. lia.
  - vm_compute. reflexivity.
  - vm_compute. reflexivity.
  - split; simpl; try lia. repeat constructor; unfold byte_ok; lia.
  - vm_compute. reflexivity.
Defined.

(** Integers: the octets [ber_put_int] writes are the shortest two's
    complement representation of the number, at most four, and [ber_decode_int]
    reads them back. *)
Theorem ber_int_roundtrip (n : Z) :
  - 2 ^ 31 <= n < 2 ^ 31 ->
  (length (int_octets n) <= 4)%nat /\ ber_decode_int (int_octets n) = Some n /\
  (forall s, bytes_ok s -> s <> [] -> int_val s = n -> (length (int_octets n) <= length s)%nat).
Proof.
  intros Hn. destruct (int_octets_spec n Hn). split; [lia|]. split.
  - rewrite ber_decode_int_val; rewrite ?int_octets_val; auto; lia.
  - intros s ? ? ?. by apply int_octets_shortest.
Qed.

Lemma ber_int_roundtrip_witness :
  (length (int_octets (-129)) <= 4)%nat /\ ber_decode_int (int_octets (-129)) = Some (-129) /\
  (forall s, bytes_ok s -> s <> [] -> int_val s = -129 -> (length (int_octets (-129)) <= length s)%nat).
Proof. apply (ber_int_roundtrip (-129)). lia. Defined.

(** @: [ber_write] keeps the buffer invariant and never writes outside the
    allocation: it appends exactly the given octets to the output, or returns -1
    with the element unchanged, and the latter only when the allocator refuses
    or the size limit is reached. *)
Theorem ber_write_safe `{Heap} (b : BerElement) (buf : list Z) :
  ber_wok b -> bytes_ok buf -> Z.of_nat (length buf) < 2 ^ 63 ->
  exists rc b', ber_write b buf 0 = Some (rc, b') /\ ber_wok b' /\
    ((rc = -1 /\ b' = b /\ ~ ber_room b (Z.of_nat (length buf))) \/
     (rc = Z.of_nat (length buf) /\ ber_output b' = ber_output b ++ buf)).
Proof.
  intros Hw Hb Hl. destruct (ber_write_spec b buf Hw Hb Hl) as (rc & b' & -> & [(? & -> & ?)|(? & ? & ? & _)]).
  - exists rc, b. split_and!; auto.
  - exists rc, b'. split_and!; auto.
Qed.

Lemma ber_write_safe_witness :
  exists rc b', @ber_write zero_heap (ber_alloc_t 0) [1; 2; 3] 0 = Some (rc, b') /\ ber_wok b' /\
    ((rc = -1 /\ b' = ber_alloc_t 0 /\ ~ @ber_room zero_heap (ber_alloc_t 0) 3) \/
     (rc = 3 /\ ber_output b' = ber_output (ber_alloc_t 0) ++ [1; 2; 3])).
Proof.
  apply (@ber_write_safe zero_heap (ber_alloc_t 0) [1; 2; 3]).
  - apply ber_alloc_t_wok.
  - solve_bytes.
  - simpl. lia.
Defined.

(** ** Where the code and its comments differ *)

(** The terminator has no room: lber-int.h says that [ber_end] is "End of
    allocated buffer - 1 (allowing a final \0)", but [ber_realloc] sets it to
    the end of the allocation, so that filling the buffer to [ber_end] is
    possible and [ber_flatten2] without allocation then writes the NUL one octet
    past the allocation. *)
Theorem ber_flatten2_overflow :
  exists b1 b2, @ber_write zero_heap (ber_alloc_t 0) [5] 0 = Some (1, b1) /\
    @ber_write zero_heap b1 (replicate 4059 5) 0 = Some (4059, b2) /\
    b2.(ber_ptr) = length b2.(ber_mem) /\ @ber_flatten2 zero_heap b2 false = None.
Proof.
  set (b1 := match @ber_write zero_heap (ber_alloc_t 0) [5] 0 with Some r => r.2 | None => ber_alloc_t 0 end).
  set (b2 := match @ber_write zero_heap b1 (replicate 4059 5) 0 with Some r => r.2 | None => b1 end).
  exists b1, b2. vm_compute. split_and!; reflexivity.
Qed.

(** A non-empty bit string without a zero octet is read back with its
    length in bits; one that contains a zero octet, which [ber_put_bitstring]
    writes without objection, is rejected because of the [memchr] in
    [ber_get_bitstringa], and so is the empty one, because the allocator returns
    a null pointer for it. *)
Theorem ber_get_bitstringa_reads `{Heap} (b : BerElement) (t u : Z) (s rest : list Z) :
  (forall k, heap_grants k = true) -> ber_rok b ->
  parse_element (ber_view b) = Some (t, u :: s, rest) -> u <= 7 ->
  Z.of_nat (length s) < 2 ^ 60 ->
  exists b', ber_get_bitstringa b =
      Some (if has_nul s || bool_decide (s = []) then (LBER_DEFAULT, None, b')
            else (t, Some (s, 8 * Z.of_nat (length s) - u), b')) /\
    ber_view b' = rest /\ ber_rok b'.
Proof.
  intros Hg Hr Hp Hu Hsz. pose proof (skip_element_spec b Hr) as Hs. rewrite Hp in Hs.
  destruct Hs as (q & n & o & Hq & Hn & Hs & Hr' & Hv' & Hc & Hlen & Ht).
  pose proof (rok_end _ Hr). simpl in Hlen. subst n.
  destruct (slice_S (ber_mem b) q (length s)) as (u' & Hu' & Hsl); [lia|].
  rewrite Hsl in Hc. injection Hc as <- Hc.
  pose proof (bytes_ok_lookup _ _ _ (rok_bytes _ Hr) Hu') as Hub. unfold byte_ok in Hub.
  exists (ber_at b (q + S (length s)) o). split; [|done].
  unfold ber_get_bitstringa. rewrite Hs. cbn [mbind option_bind bv_val bv_len].
  rewrite (proj2 (Z.eqb_neq t LBER_DEFAULT)) by lia. rewrite uwrap_small by lia.
  change ((2 ^ 64 - 1) / 8) with (2 ^ 61 - 1). case_if; zb; [lia|]. cbn [ber_mem ber_at with_tag with_ptr]. rewrite Hu'. cbn [mbind option_bind].
  case_if; zb; [lia|]. replace (Z.to_nat (Z.of_nat (S (length s)) - 1)) with (length s) by lia.
  rewrite mem_read_slice, <- Hc by lia. cbn [mbind option_bind].
  destruct (has_nul s); [done|]. destruct s as [|x s]; [done|]. cbn [length orb bool_decide] in *.
  rewrite ber_memalloc_grants, uwrap_small by (done || lia).
  replace ((Z.of_nat (S (S (length s))) - 1) * 8 - u) with (8 * Z.of_nat (S (length s)) - u) by lia.
  rewrite bool_decide_eq_false_2 by done. done.
Qed.

Lemma ber_get_bitstringa_reads_witness :
  exists b', @ber_get_bitstringa zero_heap (ber_init2 [3; 3; 2; 7; 8; 9; 0] 6 0) =
      Some (3, Some ([7; 8], 14), b') /\ ber_view b' = [9] /\ ber_rok b'.
Proof.
  apply (@ber_get_bitstringa_reads zero_heap (ber_init2 [3; 3; 2; 7; 8; 9; 0] 6 0) 3 2 [7; 8] [9]).
  - intros. reflexivity.
  - split; simpl; try lia. repeat constructor; unfold byte_ok; lia.
  - vm_compute. reflexivity.
  - lia.
  - simpl. lia.
Defined.
