(* ===== verification/BerSafety.v ===== *)
(** * Memory safety of the decoder on arbitrary input

    Whatever octets arrive, the routines of decode.c stay inside the buffer and
    leave a well-formed element: [ber_scanf_safe].  Also the vector getter:
    what it counts and what it returns. *)

From stdpp Require Import base list numbers option.
From Stdlib Require Import Ascii.
From S2P Require Import Prelude Ber BerEncode BerWriter BerValue BerDecode BerScan BerRead.

Local Open Scope Z_scope.

(** A well-formed element of less than 4 GiB, so that the elements in it are counted by an
    [int]. *)
Definition ber_sok (b : BerElement) : Prop := ber_rok b /\ Z.of_nat b.(ber_end) < 2 ^ 32.

(** The result of an operation is defined and its element well formed; [None]
    is an access outside the allocation. *)
Definition safe {A} (get : A -> BerElement) (r : option A) : Prop :=
  exists x, r = Some x /\ ber_sok (get x).

(** What [ber_skip_element] hands out points into the data. *)
Lemma skip_element_cases b :
  ber_sok b ->
  (exists bv, ber_skip_element b = Some (LBER_DEFAULT, bv, b)) \/
  (exists t q n o, ber_skip_element b = Some (t, mkBv q (Z.of_nat n), ber_at b (q + n) o) /\
    (b.(ber_ptr) + 2 <= q)%nat /\ (q + n <= b.(ber_end))%nat /\ t <> LBER_DEFAULT /\
    ber_sok (ber_at b (q + n) o)).
Proof.
  intros [Hr Hsize]. pose proof (skip_element_spec b Hr) as Hs.
  destruct (parse_element (ber_view b)) as [[[t c] s]|] eqn:Hp; [right|left; done].
  destruct Hs as (q & n & o & ? & ? & ? & Hr' & Hv & _ & Hc & ?).
  apply parse_element_length in Hp. pose proof (ber_view_length b Hr) as L1. pose proof (ber_view_length _ Hr') as L2. rewrite Hv in L2. cbn in L2.
  exists t, q, n, o. split_and!; try done; lia.
Qed.

Lemma skip_tag_safe b : ber_sok b -> safe snd (ber_skip_tag b).
Proof.
  intros [Hr Hsize]. pose proof (skip_tag_spec b Hr) as Hs.
  destruct (parse_element (ber_view b)) as [[[t c] s]|].
  - destruct Hs as (q & o & ? & -> & ? & _). eexists. split; [done|]. by split.
  - destruct Hs as (l & b' & -> & ? & He). eexists. split; [done|]. split; [done|]. cbn. by rewrite He.
Qed.

Lemma peek_tag_safe b : ber_sok b -> is_Some (ber_peek_tag b).
Proof.
  intros [Hr _]. pose proof (peek_element_spec b Hr) as Hs. unfold ber_peek_tag.
  destruct (parse_element (ber_view b)) as [[[t c] s]|].
  - destruct Hs as (q & n & ? & ? & -> & _). by eexists.
  - destruct Hs as (bv & -> & _). by eexists.
Qed.

(** Every getter starts with [ber_skip_element]; the octets it found can be
    read. *)
Ltac skip_cases Hr :=
  destruct (skip_element_cases _ Hr)
    as [(bv & Hsk)|(t & q & n & o & Hsk & Hq & Hn & Ht & Hr')]; rewrite Hsk;
  cbn [mbind option_bind bv_val bv_len]; [eexists; split; [done|exact Hr]|];
  pose proof (rok_end _ (proj1 Hr)) as Hend;
  rewrite ?(proj2 (Z.eqb_neq _ LBER_DEFAULT) Ht);
  unfold bv_octets; cbn [bv_val bv_len ber_mem ber_at with_tag with_ptr];
  rewrite ?Nat2Z.id; rewrite ?mem_read_slice by lia; cbn [mbind option_bind].

Lemma get_int_safe b : ber_sok b -> safe snd (ber_get_int b).
Proof.
  intros Hr. unfold ber_get_int. skip_cases Hr.
  destruct (ber_decode_int _); eexists; split; done.
Qed.

Lemma get_stringb_safe b len : ber_sok b -> safe snd (ber_get_stringb b len).
Proof.
  intros Hr. unfold ber_get_stringb. skip_cases Hr. case_if; eexists; split; done.
Qed.

Section getters.
Context `{Heap}.

Lemma finish_string_safe b q n o t s opt :
  ber_sok (ber_at b (q + n) o) -> (0 < q)%nat -> (q + n <= b.(ber_end))%nat ->
  safe snd (finish_string (ber_at b (q + n) o) t (mkBv q (Z.of_nat n)) s opt).
Proof.
  intros Hr Hq Hn. pose proof (rok_end _ (proj1 Hr)) as He. cbn in He.
  unfold finish_string. cbn [bv_val bv_len]. case_if; [case_if; eexists; by split|].
  case_if; [|eexists; by split]. rewrite Nat2Z.id.
  destruct (mem_write_is_Some (ber_mem b) (q + n) [0]) as [mem Hw]; [simpl; lia|].
  destruct (terminate_spec b (q + n) o mem (proj1 Hr) ltac:(lia) Hw) as [Hr2' _].
  assert (ber_sok (with_mem (ber_at b (q + n) o) mem)) as Hr2 by (split; [done|apply Hr]).
  cbn [ber_mem ber_at with_tag with_ptr]. rewrite Hw. eexists. split; [done|exact Hr2].
Qed.

Lemma get_stringbv_safe b opt : ber_sok b -> safe snd (ber_get_stringbv b opt).
Proof.
  intros Hr. unfold ber_get_stringbv. skip_cases Hr.
  case_if; [by eexists|]. apply finish_string_safe; (done || lia).
Qed.

Lemma get_stringbv_null_safe b opt : ber_sok b -> safe snd (ber_get_stringbv_null b opt).
Proof.
  intros Hr. unfold ber_get_stringbv_null. skip_cases Hr. cbn [orb].
  case_if; [by eexists|]. case_if; [by eexists|]. apply finish_string_safe; (done || lia).
Qed.

Lemma get_stringal_safe b : ber_sok b -> safe snd (ber_get_stringal b).
Proof.
  intros Hr. unfold ber_get_stringal. case_if; [|by eexists].
  destruct (get_stringbv_safe b LBER_BV_ALLOC Hr) as ([[t sv] b'] & -> & Hr'). simpl.
  case_if; by eexists.
Qed.

Lemma get_bitstringa_safe b : ber_sok b -> safe snd (ber_get_bitstringa b).
Proof.
  intros Hr. unfold ber_get_bitstringa. skip_cases Hr.
  case_if; [by eexists|]. zb. pose proof (rok_size _ (proj1 Hr)).
  destruct n as [|n]; [done|]. rewrite uwrap_small in * by lia.
  destruct (lookup_lt_is_Some_2 (ber_mem b) q) as [u Hu]; [lia|].
  rewrite Hu. cbn [mbind option_bind]. case_if; [by eexists|].
  replace (Z.to_nat (Z.of_nat (S n) - 1)) with n by lia.
  rewrite mem_read_slice by lia. cbn [mbind option_bind]. repeat case_if; by eexists.
Qed.

Lemma get_null_safe b : ber_sok b -> safe snd (ber_get_null b).
Proof.
  intros Hr. unfold ber_get_null.
  destruct (skip_tag_safe b Hr) as ([[t l] b'] & -> & Hr'). by eexists.
Qed.

(** ** The vector getter *)

(** The counting loop ends: the fuel is never used up.  It moves the cursor and
    nothing else. *)
Lemma count_elements_total fuel : forall b last i,
  ber_sok b -> (last - b.(ber_ptr) < fuel)%nat -> 2 * Z.of_nat i + Z.of_nat (b.(ber_end) - b.(ber_ptr)) < 2 ^ 32 ->
  exists j p o, count_elements fuel b last i = Some (j, with_tag (with_ptr b p) o) /\
    ber_sok (with_tag (with_ptr b p) o) /\ (b.(ber_ptr) <= p)%nat.
Proof.
  induction fuel as [|fuel IH]; intros b last i Hr Hf Hi; [lia|].
  cbn [count_elements].
  assert (forall j : nat, exists j' p o, Some (j, b) = Some (j', with_tag (with_ptr b p) o) /\
    ber_sok (with_tag (with_ptr b p) o) /\ (b.(ber_ptr) <= p)%nat) as Hstay.
  { intros j. exists j, (ber_ptr b), (ber_tag b). by destruct b. }
  case_decide as Hlt; [|apply Hstay].
  destruct (skip_element_cases b Hr) as [(bv & ->)|(t & q & n & o & -> & Hq & Hn & Ht & Hr')].
  { simpl. apply Hstay. }
  cbn [mbind option_bind]. rewrite (proj2 (Z.eqb_neq _ _) Ht). rewrite (proj2 (Z.eqb_neq (Z.of_nat i) (2 ^ 31 - 1))) by lia.
  destruct (IH (ber_at b (q + n) o) last (S i) Hr') as (j & p & o' & -> & Hr2 & Hp); [simpl; lia..|].
  exists j, p, o'. split; [done|]. split; [done|]. simpl in Hp. lia.
Qed.

Lemma fetch_strings_safe ck i : forall tag b, ber_sok b -> safe snd (fetch_strings ck tag b i).
Proof.
  induction i as [|i IH]; intros tag b Hr; [by eexists|]. cbn [fetch_strings].
  destruct (get_stringbv_safe b (bg_option ck) Hr) as ([[t [sv|]] b'] & -> & Hr');
    cbn [mbind option_bind]; [|by eexists].
  case_if; [by eexists|]. case_if; [by eexists|].
  destruct (IH t b' Hr') as ([[t2 svs] b2] & -> & Hr2). by eexists.
Qed.

Lemma get_stringbvl_safe b ck : ber_sok b -> safe snd (ber_get_stringbvl b ck).
Proof.
  intros Hr. unfold ber_get_stringbvl.
  destruct (skip_tag_safe b Hr) as ([[t l] b1] & -> & Hr1). cbn [mbind option_bind].
  case_if; [by eexists|].
  destruct (count_elements_total (S (ber_ptr b1 + Z.to_nat l - ber_ptr b1)) b1
             (ber_ptr b1 + Z.to_nat l) 0 Hr1 ltac:(lia) ltac:(destruct Hr1 as [_ Hsz]; cbn in Hsz; lia)) as (j & p & o & -> & Hr2 & Hp).
  cbn [mbind option_bind ber_ptr ber_mem with_tag with_ptr].
  destruct (ber_at_spec b1 (ber_ptr b1) (proj1 Hr1) (rok_ptr _ (proj1 Hr1))) as (o2 & Ho2 & Hr3' & _).
  assert (ber_sok (ber_at b1 (ber_ptr b1) o2)) as Hr3 by (split; [done|apply Hr1]).
  rewrite Ho2. cbn [mbind option_bind].
  change (with_tag (with_ptr (with_tag (with_ptr b1 p) o) (ber_ptr b1)) o2)
    with (ber_at b1 (ber_ptr b1) o2).
  set (i' := if decide (p = _) then j else 0%nat). set (tag' := if decide (p = _) then 0 else _).
  case_decide; [by eexists|]. case_if; [|by eexists].
  destruct (fetch_strings_safe ck i' tag' _ Hr3) as ([[t2 svs] b2] & -> & Hr5). by eexists.
Qed.
End getters.

(** ** ber_scanf *)

Section scanf_safety.
Context `{Heap}.
Local Open Scope char_scope.

(** The arguments have the types the format's directives take; every directive
    is known and none is a hook. *)
Fixpoint args_for (fmt : list ascii) (args : list sarg) : bool :=
  match fmt with
  | [] => true
  | c :: fmt =>
      match c, args with
      | ("n" | "x" | "{" | "[" | "}" | "]"), args => args_for fmt args
      | ("a" | "A" | "b" | "B" | "e" | "i" | "l" | "m" | "o" | "O" | "t" | "T" | "v" | "V" | "W"),
        SPtr :: args => args_for fmt args
      | "M", SOff _ _ :: args => args_for fmt args
      | "s", SBuf _ :: args => args_for fmt args
      | _, _ => false
      end
  end.

(** The outputs the cleanup does not reset are plain numbers and the caller's
    own buffer. *)
Definition plain_out (c : ascii) (o : sout) : Prop :=
  match c with
  | "b" | "e" | "i" => match o with OInt _ => True | _ => False end
  | "t" | "T" => match o with OTag _ => True | _ => False end
  | "s" => match o with OBuf _ _ => True | _ => False end
  | _ => True
  end.

(** An output that holds no storage of the library and no pointer into the
    buffer. *)
Definition released (o : sout) : Prop :=
  match o with
  | OStr (Some _) | OBits (Some _) | OVec (Some _) _ => False
  | _ => True
  end.

Ltac step_done :=
  cbn [mbind option_bind snd] in *; do 4 eexists; split; [reflexivity|];
  split; [assumption|]; split; [assumption|exact I].

Lemma scanf_step_safe c fmt next rc b args :
  ber_sok b -> args_for (c :: fmt) args = true ->
  exists t o b' args', scanf_step c next rc b args = Some (t, o, b', args') /\
    ber_sok b' /\ args_for fmt args' = true /\ plain_out c o.
Proof.
  intros Hr Ha.
  destruct (get_int_safe b Hr) as ([[ti vi] bi] & Hi & Hri).
  destruct (skip_tag_safe b Hr) as ([[tt lt] bt] & Ht & Hrt).
  destruct (peek_tag_safe b Hr) as [[tp lp] Hp].
  destruct (get_null_safe b Hr) as ([tn bn] & Hn & Hrn).
  destruct (get_bitstringa_safe b Hr) as ([[tb vb] bb] & Hb & Hrb).
  destruct (get_stringal_safe b Hr) as ([[tl vl] bl] & Hl & Hrl).
  assert (exists t bv b', ber_skip_element b = Some (t, bv, b') /\ ber_sok b') as (tx & vx & bx & Hx & Hrx).
  { destruct (skip_element_cases b Hr) as [(bv & ?)|(t & q & n & o & ? & _ & _ & _ & ?)]; eauto. }
  cbn [snd] in *.
  destruct c as [[] [] [] [] [] [] [] []]; cbn [args_for] in Ha; try done;
    try (destruct args as [|[] args]; try done; [idtac]);
    cbn [scanf_step plain_out]; unfold ber_get_boolean, ber_get_stringa, ber_get_stringa_null;
    rewrite ?Hi, ?Ht, ?Hp, ?Hn, ?Hb, ?Hl, ?Hx; cbn [mbind option_bind];
    first
    [ step_done
    | lazymatch goal with
      | |- context [ber_get_stringbvl b ?ck] =>
          destruct (get_stringbvl_safe b ck Hr) as ([[[? ?] ?] ?] & -> & ?)
      | |- context [ber_get_stringbv b ?opt] =>
          destruct (get_stringbv_safe b opt Hr) as ([[? ?] ?] & -> & ?)
      | |- context [ber_get_stringbv_null b ?opt] =>
          destruct (get_stringbv_null_safe b opt Hr) as ([[? ?] ?] & -> & ?)
      | |- context [ber_get_stringb b ?cap] =>
          destruct (get_stringb_safe b cap Hr) as ([[? ?] ?] & -> & ?)
      end; step_done
    | destruct next as [[[] [] [] [] [] [] [] []]|]; rewrite ?Ht; step_done ].
Qed.

Lemma scanf_loop_safe fmt : forall rc b args,
  ber_sok b -> args_for fmt args = true ->
  exists rc' os b', scanf_loop fmt rc b args = Some (rc', os, b') /\ ber_sok b' /\
    Forall2 plain_out (take (length os) fmt) os.
Proof.
  induction fmt as [|c fmt IH]; intros rc b args Hr Ha; cbn [scanf_loop].
  { eexists _, _, _. split; [done|]. by split. }
  case_if. { eexists _, _, _. split; [done|]. by split. }
  destruct (scanf_step_safe c fmt (head fmt) rc b args Hr Ha)
    as (t & o & b1 & args1 & -> & Hr1 & Ha1 & Hp1). cbn [mbind option_bind].
  destruct (IH t b1 args1 Hr1 Ha1) as (t2 & os & b2 & -> & Hr2 & Hp2). cbn [mbind option_bind].
  eexists _, _, _. split; [done|]. split; [done|]. simpl. by constructor.
Qed.

Lemma scanf_cleanup_releases fmt : forall os b args,
  args_for fmt args = true -> Forall2 plain_out (take (length os) fmt) os ->
  exists os', scanf_cleanup fmt os b args = Some (os', b) /\ Forall released os' /\
    length os' = length os.
Proof.
  induction fmt as [|c fmt IH]; intros [|o os] b args Ha Hp; cbn [scanf_cleanup].
  1, 3: exists []; by split_and!.
  { inversion Hp. }
  simpl in Hp. apply Forall2_cons_1 in Hp as [Hpo Hp].
  assert (exists o' args', scanf_reset c o = Some o' /\ released o' /\ args_for fmt args' = true /\
    (match c, args with
     | "!", SHook f :: args => '(_, b) ← f b 1%Z; Some (b, args)
     | ("n" | "x" | "{" | "[" | "}" | "]"), args => Some (b, args)
     | _, _ :: args => Some (b, args)
     | _, [] => None
     end) = Some (b, args')) as (o' & args' & -> & Ho' & Ha' & Heq).
  { destruct c as [[] [] [] [] [] [] [] []]; cbn [args_for] in Ha; try done;
      try (destruct args as [|[] args]; try done; [idtac]); simpl in Hpo;
      try (destruct o; try done; [idtac]);
      do 2 eexists; (split; [reflexivity|]); (split; [exact I|]); (split; [exact Ha|reflexivity]). }
  cbn [mbind option_bind]. rewrite Heq. cbn [mbind option_bind].
  destruct (IH os b args' Ha' Hp) as (os' & -> & Hr & Hl). cbn [mbind option_bind].
  exists (o' :: os'). split; [done|]. split; [by constructor|]. simpl. by rewrite Hl.
Qed.
End scanf_safety.

(** C2: memory safety of the decoder on untrusted input: whatever octets a buffer of
    less than 4 GiB holds, [ber_scanf] with arguments of the types its format takes,
    a format of known directives without the hook ['!'], returns without accessing
    memory outside the buffer and leaves a well-formed element; when it fails, none
    of its outputs holds allocated storage or a pointer into the buffer any more. *)
Theorem ber_scanf_safe `{Heap} (b : BerElement) (fmt : list ascii) (args : list sarg) :
  ber_rok b -> Z.of_nat b.(ber_end) < 2 ^ 32 -> args_for fmt args = true ->
  exists rc os b', ber_scanf b fmt args = Some (rc, os, b') /\ ber_rok b' /\
    (rc = LBER_DEFAULT -> Forall released os).
Proof.
  intros Hr Hs Ha. unfold ber_scanf.
  destruct (scanf_loop_safe fmt 0 b args (conj Hr Hs) Ha) as (rc & os & b' & -> & [Hr' _] & Hp).
  cbn [mbind option_bind]. case_if; zb; [|eexists _, _, _; split_and!; done].
  destruct (scanf_cleanup_releases fmt os b' args Ha Hp) as (os' & -> & Hos & _).
  cbn [mbind option_bind]. eexists _, _, _. split_and!; done.
Qed.

Lemma ber_scanf_safe_witness :
  exists rc os b',
    @ber_scanf zero_heap (ber_init2 [0x30; 3; 4; 0x84; 1; 0] 5 0) ["{"; "m"; "i"; "}"]%char [SPtr; SPtr]
      = Some (rc, os, b') /\ ber_rok b' /\ (rc = LBER_DEFAULT -> Forall released os).
Proof.
  apply (@ber_scanf_safe zero_heap).
  - split; simpl; try lia. repeat constructor; unfold byte_ok; lia.
  - cbn; lia.
  - reflexivity.
Defined.
