(* ===== verification/BerOid.v ===== *)
(** * Object identifiers (libraries/libreldap/encode.c, decode.c)

    The text of an object identifier and its DER contents octets. A pointer into
    the input text is the text from there to the terminating NUL; the output
    buffer is the list of its octets, or the size of the room for a text. A write
    outside the buffer gives [None]. *)

From stdpp Require Import base list numbers option.
From Stdlib Require Import Ascii String.
From S2P Require Import Prelude Text Digits.

Local Open Scope Z_scope.

Definition LBER_OID_COMPONENT_MAX : Z := 2 ^ 64 - 1 - 128.

Definition isdigit (c : ascii) : bool := let n := ascii_code c in (48 <=? n) && (n <=? 57).

(** [strtoul] in base 10 of a text that begins with a digit. *)
Definition strtoul (s : text) : Z * text :=
  let '(v, rest) := read_digits 10 0 s in (Z.min v (2 ^ 64 - 1), rest).

(** ** Encoding *)

(** The septets of a component, the lowest first, each with the high bit. *)
Fixpoint septets (fuel : nat) (val : Z) : list Z :=
  match fuel with
  | O => []
  | S fuel =>
      Z.lor (Z.land val 0xff) 0x80 ::
      (let val := Z.shiftr val 7 in if val =? 0 then [] else septets fuel val)
  end.

(** The high bit of the first is cleared and the octets are reversed. *)
Definition oid_component (val : Z) : list Z :=
  match septets 10 val with
  | b :: l => rev (Z.land b 0x7f :: l)
  | [] => []
  end.

(** [total]: the length of the text up to the NUL. The result code, the buffer and
    the length of its contents, which stays the size of the buffer on failure. *)
Fixpoint encode_oid_loop (fuel total in_len : nat) (out : list Z) (der : nat) (val : Z) (ptr : text)
  : option (Z * list Z * nat) :=
  let failed out := Some (-1, out, List.length out) in
  match fuel with
  | O => None
  | S fuel =>
      let off := (total - List.length ptr)%nat in
      if (in_len <? off)%nat then failed out else
      let octets := oid_component val in
      out ← mem_write out der octets;
      let der := (der + List.length octets)%nat in
      if (off =? in_len)%nat then Some (0, out, der) else
      match ptr with
      | c :: (d :: _) as rest =>
          if negb (Ascii.eqb c ".") || negb (isdigit d) then failed out else
          let '(val, ptr) := strtoul rest in
          if val >? LBER_OID_COMPONENT_MAX then failed out
          else encode_oid_loop fuel total in_len out der val ptr
      | _ => failed out
      end
  end.

Definition ber_encode_oid (in_val : text) (in_len : nat) (out : option (list Z)) : option (Z * option (list Z) * nat) :=
  match out with
  | None => Some (-1, None, O)
  | Some out =>
      let failed := Some (-1, Some out, List.length out) in
      if (List.length out <? in_len / 2)%nat then failed else
      match in_val with
      | [] => failed
      | c :: _ =>
          if negb (isdigit c) then failed else
          let '(val1, rest) := strtoul in_val in
          if val1 >? 2 then failed else
          match rest with
          | dot :: (d :: _) as rest =>
              if negb (Ascii.eqb dot ".") || negb (isdigit d) then failed else
              let '(val, ptr) := strtoul rest in
              if val >? (if val1 <? 2 then 39 else LBER_OID_COMPONENT_MAX - 80) then failed else
              '(rc, out, n) ← encode_oid_loop (S (List.length in_val)) (List.length in_val) in_len out 0 (val + val1 * 40) ptr;
              Some (rc, Some out, n)
          | _ => failed
          end
      end
  end.

(** ** Decoding *)

(** "%lu" and "%u" *)
Definition fmt_lu (n : Z) : text := digits_of 20 10 n [].

(** [sprintf] behind the text: it and the NUL have to fit. *)
Definition sprintf (size : Z) (t s : text) : option text :=
  if Z.of_nat (List.length (t ++ s)) <? size then Some (t ++ s) else None.

Fixpoint decode_oid_loop (size : Z) (der : list Z) (ptr : option text) (val : Z) : option (Z * option text) :=
  match der with
  | [] =>
      match ptr with
      | None => Some (-1, None)
      | Some t => if negb (val =? 0) then Some (-1, None) else Some (0, Some t)
      end
  | b :: der =>
      let val := Z.lor val (Z.land b 0x7f) in
      if Z.land b 0x80 =? 0 then
        '(t, val) ← (match ptr with
                     | Some t => Some (t, val)
                     | None =>
                         let val1 := if val <? 80 then val / 40 else 2 in
                         t ← sprintf size [] (fmt_lu val1);
                         Some (t, u64 (val - val1 * 40))
                     end);
        t ← sprintf size t ("."%char :: fmt_lu val);
        decode_oid_loop size der (Some t) 0
      else if u64 (val - 1) <? Z.shiftr LBER_OID_COMPONENT_MAX 7
      then decode_oid_loop size der ptr (u64 (Z.shiftl val 7))
      else Some (-1, None)
  end.

(** The code and, on success, the text, whose length is the new [bv_len]. *)
Definition ber_decode_oid (in_val : list Z) (out : option Z) : option (Z * option text) :=
  match out with
  | None => Some (-1, None)
  | Some size =>
      if u64 (size + 3) / 4 <=? Z.of_nat (List.length in_val) then Some (-1, None)
      else decode_oid_loop size in_val None 0
  end.

Example oid_sample :
  ber_encode_oid (kw "1.3.6.1.4.1.4203.666") 20 (Some (replicate 10 0)) =
    Some (0, Some [43; 6; 1; 4; 1; 160; 107; 133; 26; 0], 9%nat) /\
  ber_decode_oid [43; 6; 1; 4; 1; 160; 107; 133; 26] (Some 40) = Some (0, Some (kw "1.3.6.1.4.1.4203.666")).
Proof. by vm_compute. Qed.

(** * Object identifiers: the round trip and the bounds of the buffers *)

Local Abbreviation length := List.length.

(** ** Components in base 128 *)

Lemma septet_high v : Z.lor (Z.land v 0xff) 0x80 = v mod 128 + 128.
Proof.
  rewrite land_255. replace (v mod 128) with ((v mod 256) mod 128).
  - apply Z.eqb_eq. apply (byte_check (fun b => Z.lor b 0x80 =? b mod 128 + 128)); [done|]. apply byte_ok_mod.
  - apply Z.mod_mod_divide. by exists 2.
Qed.

Lemma septets_S f v : septets (S f) v = (v mod 128 + 128) :: (if v / 128 =? 0 then [] else septets f (v / 128)).
Proof. cbn [septets]. by rewrite septet_high, Z.shiftr_div_pow2 by lia. Qed.

(** The octets that have the high bit, from the highest. *)
Definition leading (f : nat) (v : Z) : list Z := if v =? 0 then [] else rev (septets f v).

Lemma component_eq v : oid_component v = leading 9 (v / 128) ++ [v mod 128].
Proof.
  unfold oid_component, leading. rewrite septets_S. cbn [rev].
  replace (Z.land (v mod 128 + 128) 0x7f) with (v mod 128).
  - by destruct (v / 128 =? 0).
  - change 0x7f with (2 ^ 7 - 1). rewrite land_ones_mod by lia. change (2 ^ 7) with 128.
    pose proof (Z.mod_pos_bound v 128 ltac:(lia)).
    rewrite <- Z.add_mod_idemp_r, Z.add_0_r by lia. symmetry. by apply Z.mod_small.
Qed.

Lemma leading_length f v :
  0 <= v < 128 ^ Z.of_nat f ->
  (length (leading f v) <= f)%nat /\ v < 128 ^ Z.of_nat (length (leading f v)) /\
  (v = 0 \/ 128 ^ (Z.of_nat (length (leading f v)) - 1) <= v).
Proof.
  revert v. induction f as [|f IH]; intros v Hv; [cbn in Hv; assert (v = 0) as -> by lia; cbn; lia|].
  unfold leading. destruct (v =? 0) eqn:E; zb; [subst v; cbn; lia|].
  rewrite Nat2Z.inj_succ, Z.pow_succ_r in Hv by lia.
  assert (0 <= v / 128 < 128 ^ Z.of_nat f) as Hq by (split; [apply Z.div_pos; lia|apply Z.div_lt_upper_bound; lia]).
  destruct (IH _ Hq) as (H1 & H2 & H3). rewrite septets_S. unfold leading in H1, H2, H3. revert H1 H2 H3.
  pose proof (Z.div_mod v 128 ltac:(lia)). pose proof (Z.mod_pos_bound v 128 ltac:(lia)).
  destruct (v / 128 =? 0) eqn:E0; zb; cbn [length rev app]; intros H1 H2 H3.
  - change (Z.of_nat 1) with 1. rewrite Z.pow_1_r. change (128 ^ (1 - 1)) with 1. lia.
  - rewrite length_app, !length_rev in *. cbn [length]. rewrite Nat2Z.inj_add. change (Z.of_nat 1) with 1.
    rewrite Z.add_simpl_r, Z.pow_add_r, Z.pow_1_r by lia. split; [lia|]. split; [lia|]. right.
    destruct H3 as [?|H3]; [lia|]. set (k := Z.of_nat (length (septets f (v / 128)))) in *.
    destruct (decide (k = 0)) as [->|]; [cbn; lia|].
    replace k with (k - 1 + 1) by lia. rewrite Z.pow_add_r, Z.pow_1_r by lia. lia.
Qed.

(** The number of octets: the digits in base 128. *)
Lemma component_length v :
  0 <= v < 2 ^ 64 -> let k := Z.of_nat (length (oid_component v)) in
  1 <= k /\ v < 128 ^ k /\ (k = 1 \/ 128 ^ (k - 1) <= v).
Proof.
  intros Hv. rewrite component_eq, length_app. cbn [length]. rewrite Nat2Z.inj_add. cbn zeta. change (Z.of_nat 1) with 1.
  assert (0 <= v / 128 < 128 ^ Z.of_nat 9) as Hq.
  { split; [apply Z.div_pos; lia|]. apply Z.div_lt_upper_bound; [lia|]. change (128 * 128 ^ Z.of_nat 9) with (64 * 2 ^ 64). lia. }
  destruct (leading_length 9 _ Hq) as (_ & H2 & H3). set (k := Z.of_nat (length (leading 9 (v / 128)))) in *.
  pose proof (Z.div_mod v 128 ltac:(lia)). pose proof (Z.mod_pos_bound v 128 ltac:(lia)).
  assert (0 <= k) by lia. rewrite Z.add_simpl_r, Z.pow_add_r, Z.pow_1_r by lia. split_and!; [lia..|].
  destruct (decide (v / 128 = 0)) as [E0|E0]; [left|right; destruct H3 as [H3|H3]; [done|]].
  - unfold k, leading. by rewrite E0.
  - destruct (decide (k = 0)) as [E|]; [rewrite E in *; cbn in H2; lia|].
    replace k with (k - 1 + 1) by lia. rewrite Z.pow_add_r, Z.pow_1_r by lia. lia.
Qed.

(** ** Decoding components *)

Lemma octet_low v : Z.land (v mod 128) 0x7f = v mod 128 /\ Z.land (v mod 128) 0x80 = 0.
Proof.
  pose proof (Z.mod_pos_bound v 128 ltac:(lia)). split.
  - change 0x7f with (2 ^ 7 - 1). rewrite land_ones_mod by lia. by apply Z.mod_small.
  - apply Z.eqb_eq. rewrite land_high_bit. apply Z.ltb_lt. rewrite Z.mod_small; lia.
Qed.

Lemma octet_high v : Z.land (v mod 128 + 128) 0x7f = v mod 128 /\ (Z.land (v mod 128 + 128) 0x80 =? 0) = false.
Proof.
  pose proof (Z.mod_pos_bound v 128 ltac:(lia)). split.
  - change 0x7f with (2 ^ 7 - 1). rewrite land_ones_mod by lia. change (2 ^ 7) with 128.
    rewrite <- Z.add_mod_idemp_r, Z.add_0_r by lia. by apply Z.mod_small.
  - rewrite land_high_bit. apply Z.ltb_ge. rewrite Z.mod_small; lia.
Qed.

Lemma join_septet v : Z.lor (v / 128 * 128) (v mod 128) = v.
Proof.
  change 128 with (2 ^ 7). rewrite <- Z.shiftl_mul_pow2 by lia.
  rewrite lor_shiftl_low by (lia || apply Z.mod_pos_bound; lia). pose proof (Z.div_mod v (2 ^ 7) ltac:(lia)). lia.
Qed.

Lemma decode_leading size f v l ptr :
  0 <= v < 128 ^ Z.of_nat f -> v <= Z.shiftr LBER_OID_COMPONENT_MAX 7 ->
  decode_oid_loop size (leading f v ++ l) ptr 0 = decode_oid_loop size l ptr (v * 128).
Proof.
  revert v l. induction f as [|f IH]; intros v l Hv Hm; [cbn in Hv; by assert (v = 0) as -> by lia|].
  unfold leading. destruct (v =? 0) eqn:E; zb; [by subst v|]. rewrite septets_S.
  rewrite Nat2Z.inj_succ, Z.pow_succ_r in Hv by lia.
  assert (0 <= v / 128 < 128 ^ Z.of_nat f) as Hq by (split; [apply Z.div_pos; lia|apply Z.div_lt_upper_bound; lia]).
  pose proof (Z.div_mod v 128 ltac:(lia)). pose proof (Z.mod_pos_bound v 128 ltac:(lia)).
  transitivity (decode_oid_loop size (leading f (v / 128) ++ (v mod 128 + 128) :: l) ptr 0).
  { unfold leading. destruct (v / 128 =? 0); [done|]. cbn [rev]. by rewrite <- app_assoc. }
  rewrite IH by lia. cbn [decode_oid_loop]. destruct (octet_high v) as [-> ->]. rewrite join_septet.
  change (Z.shiftr LBER_OID_COMPONENT_MAX 7) with (2 ^ 57 - 2) in *.
  rewrite (uwrap_small 64 (v - 1)) by lia. rewrite (proj2 (Z.ltb_lt _ _)) by lia.
  rewrite Z.shiftl_mul_pow2, uwrap_small by lia. by change (2 ^ 7) with 128.
Qed.

(** What is printed for a component. *)
Definition emit (size : Z) (ptr : option text) (val : Z) : option text :=
  '(t, val) ← (match ptr with
               | Some t => Some (t, val)
               | None =>
                   let val1 := if val <? 80 then val / 40 else 2 in
                   t ← sprintf size [] (fmt_lu val1);
                   Some (t, u64 (val - val1 * 40))
               end);
  sprintf size t ("."%char :: fmt_lu val).

Lemma decode_component size v l ptr :
  0 <= v <= LBER_OID_COMPONENT_MAX ->
  decode_oid_loop size (oid_component v ++ l) ptr 0 = t ← emit size ptr v; decode_oid_loop size l (Some t) 0.
Proof.
  intros Hv. change LBER_OID_COMPONENT_MAX with (2 ^ 64 - 129) in Hv. rewrite component_eq, <- app_assoc.
  assert (0 <= v / 128 <= 2 ^ 57 - 2) as Hq.
  { split; [apply Z.div_pos; lia|]. apply Z.lt_succ_r, Z.div_lt_upper_bound; lia. }
  rewrite decode_leading; [|change (128 ^ Z.of_nat 9) with (64 * 2 ^ 57); lia|].
  2: { change (Z.shiftr LBER_OID_COMPONENT_MAX 7) with (2 ^ 57 - 2). lia. }
  cbn [app decode_oid_loop]. destruct (octet_low v) as [-> ->]. rewrite join_septet. unfold emit.
  destruct ptr as [t|]; cbn [mbind option_bind Z.eqb]; [done|].
  by destruct (sprintf size [] _).
Qed.

(** ** Numbers in the text *)

Lemma isdigit_in c : isdigit c = bool_decide (is_Some (digit_in 10 c)).
Proof.
  apply Bool.eqb_prop. revert c. apply (ascii_table (fun c => Bool.eqb (isdigit c) (bool_decide (is_Some (digit_in 10 c))))).
  by vm_compute.
Qed.

Lemma strtoul_digits ds rest :
  all_digits 10 ds = true -> no_digit_first 10 rest ->
  strtoul (ds ++ rest) = (Z.min (digits_value 10 0 ds) (2 ^ 64 - 1), rest).
Proof. intros. unfold strtoul. by rewrite read_digits_app. Qed.

(** A text that begins with a digit begins with a number. *)
Lemma digits_split c s :
  isdigit c = true -> exists ds rest, c :: s = ds ++ rest /\ ds <> [] /\ all_digits 10 ds = true /\ no_digit_first 10 rest.
Proof.
  rewrite isdigit_in. revert c. induction s as [|d s IH]; intros c Hc.
  { exists [c], []. split_and!; try done. cbn. by rewrite Hc. }
  destruct (bool_decide (is_Some (digit_in 10 d))) eqn:Hd.
  - destruct (IH d Hd) as (ds & rest & -> & Hne & Ha & Hr). exists (c :: ds), rest.
    split_and!; try done. cbn [all_digits forallb]. by rewrite Hc.
  - exists [c], (d :: s). split; [done|]. split; [done|]. split; [cbn; by rewrite Hc|]. cbn.
    apply bool_decide_eq_false in Hd. by apply eq_None_not_Some.
Qed.

Lemma fmt_lu_spec n k :
  0 <= n < 10 ^ Z.of_nat k -> (1 <= k <= 20)%nat ->
  all_digits 10 (fmt_lu n) = true /\ digits_value 10 0 (fmt_lu n) = n /\ (length (fmt_lu n) <= k)%nat.
Proof.
  intros Hn Hk. unfold fmt_lu. destruct (digits_of_spec 20 10 n [] k ltac:(lia) Hn Hk) as (ds & -> & H1 & H2 & H3).
  by rewrite app_nil_r.
Qed.

Lemma fmt_lu_u64 n : 0 <= n < 2 ^ 64 -> all_digits 10 (fmt_lu n) = true /\ digits_value 10 0 (fmt_lu n) = n.
Proof. intros Hn. destruct (fmt_lu_spec n 20) as (H1 & H2 & _); [change (10 ^ Z.of_nat 20) with 100000000000000000000; lia|lia|done]. Qed.

Lemma digits_of_longer fuel base n acc : (length acc + match fuel with O => 0 | S _ => 1 end <= length (digits_of fuel base n acc))%nat.
Proof.
  revert n acc. induction fuel as [|fuel IH]; intros n acc; cbn [digits_of]; [lia|].
  case_if; [cbn; lia|]. etrans; [|apply IH]. cbn. lia.
Qed.

Lemma fmt_lu_length n : (1 <= length (fmt_lu n))%nat.
Proof. apply (digits_of_longer 20 10 n []). Qed.

Lemma fmt_lu_first n : 0 <= n < 2 ^ 64 -> exists c s, fmt_lu n = c :: s /\ isdigit c = true.
Proof.
  intros Hn. pose proof (fmt_lu_length n). destruct (fmt_lu_u64 n Hn) as [Hd _].
  destruct (fmt_lu n) as [|c s]; [cbn in *; lia|]. exists c, s. split; [done|]. rewrite isdigit_in.
  cbn [all_digits forallb] in Hd. by apply andb_true_iff in Hd as [-> _].
Qed.

Lemma strtoul_fmt n rest : 0 <= n < 2 ^ 64 -> no_digit_first 10 rest -> strtoul (fmt_lu n ++ rest) = (n, rest).
Proof. intros Hn Hr. destruct (fmt_lu_u64 n Hn) as [H1 H2]. rewrite strtoul_digits, H2 by done. f_equal. lia. Qed.

(** ** The room that components take *)

Lemma pow_100 m : 0 <= m -> 10 ^ (2 * m) = 100 ^ m.
Proof. intros Hm. by rewrite Z.pow_mul_r by lia. Qed.

(** A component takes at most half the characters that it has in the text. *)
Lemma component_fits v d : 0 <= v < 2 ^ 64 -> v < 10 ^ d -> 1 <= d -> 2 * Z.of_nat (length (oid_component v)) <= d + 1.
Proof.
  intros Hv Hd H1. destruct (component_length v Hv) as (Hk & _ & Hlow). set (k := Z.of_nat _) in *.
  destruct (decide (2 * k <= d + 1)) as [|Hn]; [done|]. exfalso. destruct Hlow as [|Hlow]; [lia|].
  pose proof (Z.pow_le_mono_r 10 d (2 * (k - 1)) ltac:(lia) ltac:(lia)).
  rewrite pow_100 in * by lia. pose proof (Z.pow_le_mono_l 100 128 (k - 1) ltac:(lia)). lia.
Qed.

(** The first one stands for two numbers, the first of one digit. *)
Lemma first_fits v w d :
  0 <= v < 2 ^ 64 -> v <= 80 + w -> w < 10 ^ d -> 1 <= d -> 2 * Z.of_nat (length (oid_component v)) <= d + 2.
Proof.
  intros Hv Hw Hd H1. destruct (component_length v Hv) as (Hk & _ & Hlow). set (k := Z.of_nat _) in *.
  destruct (decide (2 * k <= d + 2)) as [|Hn]; [done|]. exfalso. destruct Hlow as [|Hlow]; [lia|].
  pose proof (Z.pow_le_mono_r 10 d (2 * (k - 1) - 1) ltac:(lia) ltac:(lia)).
  assert (10 * 10 ^ (2 * (k - 1) - 1) = 100 ^ (k - 1)).
  { rewrite <- pow_100, <- Z.pow_succ_r by lia. f_equal. lia. }
  pose proof (Z.pow_le_mono_l 100 128 (k - 1) ltac:(lia)).
  pose proof (Z.pow_le_mono_r 128 1 (k - 1) ltac:(lia) ltac:(lia)). rewrite Z.pow_1_r in *. lia.
Qed.
