(* ===== verification/BerOidTheorems.v ===== *)
(** * Object identifiers: the theorems *)

From stdpp Require Import base list numbers option.
From Stdlib Require Import Ascii String.
From S2P Require Import Prelude Text Digits BerOid.

Local Open Scope Z_scope.
Local Abbreviation length := List.length.

(** ** The abstract object identifier: a list of numbers *)

Definition valid_oid (arcs : list Z) : Prop :=
  match arcs with
  | a :: b :: rest =>
      0 <= a <= 2 /\ 0 <= b <= (if a <? 2 then 39 else LBER_OID_COMPONENT_MAX - 80) /\
      Forall (fun x => 0 <= x <= LBER_OID_COMPONENT_MAX) rest
  | _ => False
  end.

Definition dotted (arcs : list Z) : text := flat_map (fun x => "."%char :: fmt_lu x) arcs.
Definition oid_text (arcs : list Z) : text := match arcs with a :: rest => fmt_lu a ++ dotted rest | [] => [] end.

(** X.690, 8.19: the first two numbers share a component. *)
Definition oid_octets (arcs : list Z) : list Z :=
  match arcs with
  | a :: b :: rest => oid_component (a * 40 + b) ++ flat_map oid_component rest
  | _ => []
  end.

Lemma dotted_no_digit arcs tail : no_digit_first 10 tail -> no_digit_first 10 (dotted arcs ++ tail).
Proof. by destruct arcs. Qed.

(** ** Encoding *)

Lemma encode_loop_oid arcs : forall fuel total in_len out der val tail,
  0 <= val <= LBER_OID_COMPONENT_MAX -> Forall (fun x => 0 <= x <= LBER_OID_COMPONENT_MAX) arcs ->
  no_digit_first 10 tail -> let ptr := dotted arcs ++ tail in let octets := oid_component val ++ flat_map oid_component arcs in
  (length ptr < fuel)%nat -> (in_len + length tail = total)%nat -> (length ptr <= total)%nat ->
  (der + length octets <= length out)%nat ->
  exists out', encode_oid_loop fuel total in_len out der val ptr = Some (0, out', (der + length octets)%nat) /\
    length out' = length out /\ take (der + length octets) out' = take der out ++ octets.
Proof.
  induction arcs as [|x arcs IH]; intros [|fuel] total in_len out der val tail Hval Harcs Htail ptr octets Hfuel Hlen Htot Hroom;
    try lia; unfold ptr, octets in *; cbn [encode_oid_loop].
  - cbn [dotted flat_map app] in *. rewrite app_nil_r in *. replace (total - length tail)%nat with in_len by lia.
    rewrite Nat.ltb_irrefl, Nat.eqb_refl. destruct (mem_write_is_Some out der (oid_component val)) as [out' Hw]; [lia|].
    rewrite Hw. cbn [mbind option_bind]. exists out'. split; [done|]. split; [by destruct (mem_write_Some _ _ _ _ Hw) as (_ & ? & _)|].
    by apply mem_write_take.
  - cbn [dotted flat_map] in *. fold (dotted arcs) in *. rewrite <- ?app_comm_cons, <- ?app_assoc in *. cbn [length] in *.
    rewrite !length_app in *. inversion Harcs as [|?? Hx Hrest]; subst.
    rewrite (proj2 (Nat.ltb_ge _ _)), (proj2 (Nat.eqb_neq _ _)) by lia.
    destruct (mem_write_is_Some out der (oid_component val)) as [out1 Hw]; [lia|].
    rewrite Hw. cbn [mbind option_bind]. change LBER_OID_COMPONENT_MAX with (2 ^ 64 - 129) in Hx.
    destruct (fmt_lu_first x) as (c & s & Hf & Hc); [lia|]. rewrite Hf. cbn [app]. rewrite Hc, app_comm_cons, <- Hf. cbn [Ascii.eqb Bool.eqb negb orb].
    rewrite strtoul_fmt by (lia || by apply dotted_no_digit).
    rewrite Z.gtb_ltb, (proj2 (Z.ltb_ge _ _)) by (change LBER_OID_COMPONENT_MAX with (2 ^ 64 - 129); lia).
    pose proof (mem_write_Some _ _ _ _ Hw) as (_ & Hl1 & _).
    destruct (IH fuel (in_len + length tail)%nat in_len out1 (der + length (oid_component val))%nat x tail) as (out' & -> & Hl & Ht);
      rewrite ?length_app; try done; try lia.
    exists out'. rewrite !length_app, !Nat.add_assoc in *. split; [done|]. split; [lia|]. rewrite Ht.
    by rewrite (mem_write_take _ _ _ _ Hw), <- app_assoc.
Qed.

Lemma component_max v : 0 <= v <= LBER_OID_COMPONENT_MAX -> 0 <= v < 2 ^ 64.
Proof. change LBER_OID_COMPONENT_MAX with (2 ^ 64 - 129). lia. Qed.

Lemma fmt_lu_below v : 0 <= v < 2 ^ 64 -> v < 10 ^ Z.of_nat (length (fmt_lu v)).
Proof.
  intros Hv. destruct (fmt_lu_u64 v Hv) as [_ Hd]. pose proof (digits_value_bound 10 (fmt_lu v) ltac:(lia)). lia.
Qed.

Lemma rest_half arcs :
  Forall (fun x => 0 <= x <= LBER_OID_COMPONENT_MAX) arcs ->
  2 * Z.of_nat (length (flat_map oid_component arcs)) <= Z.of_nat (length (dotted arcs)).
Proof.
  induction 1 as [|x arcs Hx%component_max _ IH]; [done|]. cbn [flat_map dotted]. fold (dotted arcs).
  rewrite !length_app. cbn [length].
  pose proof (fmt_lu_length x). pose proof (component_fits x (Z.of_nat (length (fmt_lu x))) Hx (fmt_lu_below x Hx) ltac:(lia)). lia.
Qed.

(** The first component of a valid identifier. *)
Lemma first_range a b rest :
  valid_oid (a :: b :: rest) -> 0 <= a < 2 ^ 64 /\ 0 <= b < 2 ^ 64 /\ 0 <= a * 40 + b <= LBER_OID_COMPONENT_MAX /\ a <= 2.
Proof.
  intros (Ha & Hb & _). change LBER_OID_COMPONENT_MAX with (2 ^ 64 - 129) in *. destruct (a <? 2) eqn:E; zb; lia.
Qed.

Lemma octets_half arcs : valid_oid arcs -> 2 * Z.of_nat (length (oid_octets arcs)) <= Z.of_nat (length (oid_text arcs)).
Proof.
  destruct arcs as [|a [|b rest]]; [done..|]. intros Hv. pose proof (first_range a b rest Hv) as (Ha & Hb & Hf%component_max & Ha2).
  destruct Hv as (_ & _ & Hr). cbn [oid_octets oid_text dotted flat_map]. fold (dotted rest). rewrite !length_app. cbn [length].
  pose proof (rest_half rest Hr). pose proof (fmt_lu_length a). pose proof (fmt_lu_length b).
  pose proof (first_fits (a * 40 + b) b (Z.of_nat (length (fmt_lu b))) Hf ltac:(lia) (fmt_lu_below b Hb) ltac:(lia)). 
  lia.
Qed.

Lemma encode_oid_text arcs tail out :
  valid_oid arcs -> no_digit_first 10 tail -> (length (oid_text arcs) / 2 <= length out)%nat ->
  exists out', ber_encode_oid (oid_text arcs ++ tail) (length (oid_text arcs)) (Some out) =
    Some (0, Some out', length (oid_octets arcs)) /\ take (length (oid_octets arcs)) out' = oid_octets arcs.
Proof.
  intros Hv Htail Hout. pose proof (octets_half arcs Hv) as Hhalf.
  assert (length (oid_octets arcs) <= length (oid_text arcs) / 2)%nat as Hfit by (apply Nat.div_le_lower_bound; lia).
  destruct arcs as [|a [|b rest]]; [done..|]. pose proof (first_range a b rest Hv) as (Ha & Hb & Hf & Ha2).
  destruct Hv as (_ & Hbv & Hr). unfold ber_encode_oid. rewrite (proj2 (Nat.ltb_ge _ _)) by done.
  destruct (fmt_lu_first a Ha) as (c & s & Hfa & Hc). destruct (fmt_lu_first b Hb) as (d & s' & Hfb & Hd).
  set (tx := oid_text (a :: b :: rest)) in *.
  assert (tx ++ tail = fmt_lu a ++ "."%char :: fmt_lu b ++ dotted rest ++ tail) as Etx.
  { unfold tx. cbn [oid_text dotted flat_map]. fold (dotted rest). by rewrite <- ?app_assoc, <- ?app_comm_cons, <- ?app_assoc. }
  assert (length tx = length (fmt_lu a) + S (length (fmt_lu b) + length (dotted rest)))%nat as Ltx.
  { apply (f_equal length) in Etx. rewrite !length_app in Etx. cbn [length] in Etx. rewrite !length_app in Etx. lia. }
  pose proof (encode_loop_oid rest (S (length (tx ++ tail))) (length (tx ++ tail)) (length tx) out 0 (b + a * 40) tail) as Hloop.
  cbv zeta in Hloop. rewrite !length_app in Hloop. replace (b + a * 40) with (a * 40 + b) in * by lia.
  destruct Hloop as (out' & Hloop & _ & Htake); [done..|lia|lia|lia|cbn [oid_octets] in Hfit; rewrite !length_app in Hfit; lia|].
  exists out'. split.
  - rewrite Etx. rewrite Hfa at 1. cbn [app]. rewrite Hc. cbn [negb].
    rewrite strtoul_fmt by done. rewrite Z.gtb_ltb, (proj2 (Z.ltb_ge _ _)) by lia.
    rewrite Hfb at 1. cbn [app Ascii.eqb Bool.eqb negb orb]. rewrite Hd. cbn [negb].
    rewrite strtoul_fmt by (done || by apply dotted_no_digit).
    rewrite Z.gtb_ltb, (proj2 (Z.ltb_ge _ _)) by lia. rewrite <- Etx, length_app.
    replace (b + a * 40) with (a * 40 + b) by lia. rewrite Hloop. cbn [mbind option_bind]. cbn [oid_octets]. by rewrite !length_app.
  - cbn [oid_octets] in *. by rewrite length_app in *.
Qed.

(** ** Decoding *)

(** A component takes at most four characters for each octet, with its dot; the
    second number of the first one leaves room for the first number. *)
Lemma printed_fits v w :
  0 <= w <= v -> v < 2 ^ 64 ->
  Z.of_nat (length (fmt_lu w)) + 1 <= 4 * Z.of_nat (length (oid_component v)) /\
  (w < 100 \/ 128 <= v -> Z.of_nat (length (fmt_lu w)) + 2 <= 4 * Z.of_nat (length (oid_component v))).
Proof.
  intros Hw Hv. destruct (component_length v ltac:(lia)) as (Hk & Hup & _). set (k := Z.of_nat (length (oid_component v))) in *.
  assert (length (fmt_lu w) <= 20)%nat as H20.
  { destruct (fmt_lu_spec w 20) as (_ & _ & H); [change (10 ^ Z.of_nat 20) with 100000000000000000000; lia|lia|done]. }
  assert (forall n, (1 <= n <= 20)%nat -> w < 10 ^ Z.of_nat n -> Z.of_nat (length (fmt_lu w)) <= Z.of_nat n) as Hlen.
  { intros n Hn Hlt. destruct (fmt_lu_spec w n ltac:(lia) Hn) as (_ & _ & H). lia. }
  destruct (decide (6 <= k)); [lia|].
  destruct (decide (k = 1)) as [E|]; [rewrite E in *; change (128 ^ 1) with 128 in Hup; pose proof (Hlen 3%nat ltac:(lia) ltac:(lia)); split; [lia|]|].
  { intros [?|?]; [|lia]. pose proof (Hlen 2%nat ltac:(lia) ltac:(lia)). lia. }
  assert (k = 2 \/ k = 3 \/ k = 4 \/ k = 5) as [E|[E|[E|E]]] by lia; rewrite E in *; clear E.
  - change (128 ^ 2) with 16384 in Hup. pose proof (Hlen 6%nat ltac:(lia) ltac:(lia)). lia.
  - change (128 ^ 3) with 2097152 in Hup. pose proof (Hlen 10%nat ltac:(lia) ltac:(lia)). lia.
  - change (128 ^ 4) with 268435456 in Hup. pose proof (Hlen 14%nat ltac:(lia) ltac:(lia)). lia.
  - change (128 ^ 5) with 34359738368 in Hup. pose proof (Hlen 18%nat ltac:(lia) ltac:(lia)). lia.
Qed.

Lemma sprintf_fits size t s : Z.of_nat (length t) + Z.of_nat (length s) < size -> sprintf size t s = Some (t ++ s).
Proof. intros Hs. unfold sprintf. rewrite length_app. by rewrite (proj2 (Z.ltb_lt _ _)) by lia. Qed.

Lemma decode_rest size arcs t :
  Forall (fun x => 0 <= x <= LBER_OID_COMPONENT_MAX) arcs ->
  Z.of_nat (length t) + 4 * Z.of_nat (length (flat_map oid_component arcs)) < size ->
  decode_oid_loop size (flat_map oid_component arcs) (Some t) 0 = Some (0, Some (t ++ dotted arcs)).
Proof.
  intros Ha. revert t. induction Ha as [|x arcs Hx _ IH]; intros t Hs; [by rewrite app_nil_r|].
  cbn [flat_map dotted] in *. fold (dotted arcs). rewrite decode_component by done. rewrite length_app in Hs.
  apply component_max in Hx. destruct (printed_fits x x ltac:(lia) ltac:(lia)) as [Hp _]. unfold emit. cbn [mbind option_bind].
  rewrite sprintf_fits by (cbn [length]; lia). cbn [mbind option_bind]. rewrite IH; [by rewrite <- app_assoc|].
  rewrite length_app. cbn [length]. lia.
Qed.

Lemma first_split a b rest : valid_oid (a :: b :: rest) ->
  let val := a * 40 + b in (if val <? 80 then val / 40 else 2) = a /\ u64 (val - a * 40) = b /\ (b < 100 \/ 128 <= val).
Proof.
  intros Hv. pose proof (first_range a b rest Hv) as (Ha & Hb & _ & Ha2). destruct Hv as (_ & Hbv & _). cbn zeta.
  replace (a * 40 + b - a * 40) with b by lia. rewrite uwrap_small by lia. split_and!; [|done|destruct (a <? 2) eqn:E; zb; lia].
  destruct (a <? 2) eqn:E; zb.
  - rewrite (proj2 (Z.ltb_lt _ _)) by lia. rewrite Z.div_add_l by lia. rewrite Z.div_small; lia.
  - rewrite (proj2 (Z.ltb_ge _ _)) by lia. lia.
Qed.

Lemma decode_oid_octets arcs size :
  valid_oid arcs -> 4 * Z.of_nat (length (oid_octets arcs)) < size < 2 ^ 64 - 3 ->
  ber_decode_oid (oid_octets arcs) (Some size) = Some (0, Some (oid_text arcs)).
Proof.
  intros Hv Hs. unfold ber_decode_oid. rewrite uwrap_small by lia.
  assert (Z.of_nat (length (oid_octets arcs)) + 1 <= (size + 3) / 4) as Hdiv by (apply Z.div_le_lower_bound; lia).
  rewrite (proj2 (Z.leb_gt _ _)) by lia.
  destruct arcs as [|a [|b rest]]; [done..|]. pose proof (first_range a b rest Hv) as (Ha & Hb & Hf & Ha2).
  destruct (first_split a b rest Hv) as (Ea & Eb & H100). destruct Hv as (_ & _ & Hr).
  cbn [oid_octets oid_text dotted flat_map] in *. fold (dotted rest). rewrite decode_component by done. rewrite length_app in Hs.
  apply component_max in Hf. destruct (printed_fits (a * 40 + b) b ltac:(lia) ltac:(lia)) as [_ Hp]. specialize (Hp H100).
  destruct (fmt_lu_spec a 1) as (_ & _ & Hla); [change (10 ^ Z.of_nat 1) with 10; lia|lia|].
  unfold emit. rewrite Ea. rewrite sprintf_fits by (cbn [length]; lia). cbn [mbind option_bind app]. rewrite Eb.
  rewrite sprintf_fits by (cbn [length]; lia). cbn [mbind option_bind]. rewrite decode_rest; [|done|].
  - by rewrite <- app_assoc.
  - rewrite length_app. cbn [length]. lia.
Qed.

(** C28: an object identifier of two or more components up to the largest that the
    functions admit is encoded into its DER octets and decoded into its text again,
    if what follows the text in memory does not begin with a digit (a NUL does not)
    and the buffers have the sizes that the functions ask for: half the length of
    the text for the octets, and for the text less than 2^64 - 3 characters but more
    than four for each octet. *)
Theorem ber_oid_roundtrip arcs tail out size :
  valid_oid arcs -> no_digit_first 10 tail ->
  (length (oid_text arcs) / 2 <= length out)%nat -> 4 * Z.of_nat (length (oid_octets arcs)) < size < 2 ^ 64 - 3 ->
  exists out' n, ber_encode_oid (oid_text arcs ++ tail) (length (oid_text arcs)) (Some out) = Some (0, Some out', n) /\
    take n out' = oid_octets arcs /\ ber_decode_oid (take n out') (Some size) = Some (0, Some (oid_text arcs)).
Proof.
  intros Hv Ht Ho Hs. destruct (encode_oid_text arcs tail out Hv Ht Ho) as (out' & He & Htake).
  exists out', (length (oid_octets arcs)). split; [done|]. rewrite Htake. split; [done|]. by apply decode_oid_octets.
Qed.

Lemma ber_oid_roundtrip_witness :
  let arcs := [2; 18446744073709551407; 18446744073709551487; 0; 127; 128] in
  exists out' n, ber_encode_oid (oid_text arcs ++ kw " x") (length (oid_text arcs)) (Some (replicate 30 7)) = Some (0, Some out', n) /\
    take n out' = oid_octets arcs /\ ber_decode_oid (take n out') (Some 100) = Some (0, Some (oid_text arcs)).
Proof.
  intros arcs. apply ber_oid_roundtrip; [|done|vm_compute; lia|vm_compute; done].
  split; [lia|]. split; [done|]. repeat constructor; done.
Defined.

(** ** Any input *)

Lemma component_short v m : 0 <= v < 2 ^ 64 -> v < 128 ^ m -> 1 <= m -> Z.of_nat (length (oid_component v)) <= m.
Proof.
  intros Hv Hm H1. destruct (component_length v Hv) as (Hk & _ & Hlow). set (k := Z.of_nat _) in *.
  destruct Hlow as [|Hlow]; [lia|]. apply Z.lt_succ_r. apply Z.nle_gt. intros Hn.
  pose proof (Z.pow_le_mono_r 128 m (k - 1) ltac:(lia) ltac:(lia)). lia.
Qed.

(** A number at the front of a text: its value, and how far it goes. *)
Lemma strtoul_spec c s :
  isdigit c = true -> exists v rest d, strtoul (c :: s) = (v, rest) /\ 0 <= v < 2 ^ 64 /\ v < 10 ^ Z.of_nat d /\
    (1 <= d)%nat /\ (length (c :: s) = d + length rest)%nat.
Proof.
  intros (ds & rest & E & Hne & Ha & Hr)%(digits_split c s). rewrite E, strtoul_digits by done.
  pose proof (digits_value_bound 10 ds ltac:(lia)). do 2 eexists. exists (length ds). split_and!; try done; try lia.
  - destruct ds; [done|]. cbn. lia.
  - by rewrite length_app.
Qed.

Lemma encode_loop_total fuel total in_len out der val ptr :
  (length ptr < fuel)%nat -> (length ptr <= total)%nat -> 0 <= val < 2 ^ 64 ->
  (2 * (der + length (oid_component val)) <= total - length ptr)%nat -> (in_len / 2 <= length out)%nat ->
  exists rc out' n, encode_oid_loop fuel total in_len out der val ptr = Some (rc, out', n) /\
    length out' = length out /\ (n <= length out)%nat.
Proof.
  revert out der val ptr. induction fuel as [|fuel IH]; intros out der val ptr Hfuel Htot Hval Hroom Hout; [lia|].
  cbn [encode_oid_loop]. destruct (in_len <? total - length ptr)%nat eqn:Eoff; [by do 3 eexists|]. apply Nat.ltb_ge in Eoff.
  assert (der + length (oid_component val) <= length out)%nat as Hfit.
  { etrans; [|exact Hout]. apply Nat.div_le_lower_bound; lia. }
  destruct (mem_write_is_Some out der (oid_component val) Hfit) as [out1 Hw]. rewrite Hw. cbn [mbind option_bind].
  pose proof (mem_write_Some _ _ _ _ Hw) as (_ & Hl1 & _).
  destruct (_ =? in_len)%nat; [by do 3 eexists; split_and!; [done|lia|lia]|].
  destruct ptr as [|c [|d ptr]]; [do 3 eexists; split_and!; [done|lia|lia]..|].
  destruct (isdigit d) eqn:Hd; cbn [negb]; [rewrite orb_false_r|rewrite orb_true_r; do 3 eexists; split_and!; [done|lia|lia]].
  destruct (negb _); [do 3 eexists; split_and!; [done|lia|lia]|].
  destruct (strtoul_spec d ptr Hd) as (v & rest & k & -> & Hv & Hvk & Hk & Hlen).
  destruct (v >? _); [do 3 eexists; split_and!; [done|lia|lia]|].
  pose proof (component_fits v (Z.of_nat k) Hv Hvk ltac:(lia)). cbn [length] in *.
  destruct (IH out1 (der + length (oid_component val))%nat v rest) as (rc & out' & n & -> & ? & ?); [lia..|].
  do 3 eexists. split_and!; [done|lia|lia].
Qed.

Lemma encode_total s in_len out :
  exists rc out' n, ber_encode_oid s in_len (Some out) = Some (rc, Some out', n) /\
    length out' = length out /\ (n <= length out)%nat.
Proof.
  assert (exists rc out' n, Some (-1, Some out, length out) = Some (rc, Some out', n) /\
    length out' = length out /\ (n <= length out)%nat) as Hfail by (by do 3 eexists).
  unfold ber_encode_oid. destruct (_ <? _)%nat eqn:Ho; [done|]. apply Nat.ltb_ge in Ho.
  destruct s as [|c s]; [done|]. destruct (isdigit c) eqn:Hc; cbn [negb]; [|done].
  destruct (strtoul_spec c s Hc) as (v1 & rest & k1 & -> & Hv1 & _ & Hk1 & Hl1). destruct (v1 >? 2) eqn:E2; [done|].
  destruct rest as [|dot [|d rest]]; [done..|].
  destruct (isdigit d) eqn:Hd; cbn [negb]; [rewrite orb_false_r|by rewrite orb_true_r]. destruct (negb _); [done|].
  destruct (strtoul_spec d rest Hd) as (v & rest' & k & -> & Hv & Hvk & Hk & Hl).
  destruct (v >? _) eqn:Em; [done|]. rewrite Z.gtb_ltb in *. change LBER_OID_COMPONENT_MAX with (2 ^ 64 - 129) in Em.
  assert (0 <= v + v1 * 40 < 2 ^ 64) as Hr by (destruct (v1 <? 2) eqn:E1; zb; lia).
  pose proof (first_fits (v + v1 * 40) v (Z.of_nat k) Hr ltac:(zb; lia) Hvk ltac:(lia)). cbn [length] in *.
  destruct (encode_loop_total (S (S (length s))) (S (length s)) in_len out 0 (v + v1 * 40) rest')
    as (rc & out' & n & -> & ? & ?); [lia..|done|]. by do 3 eexists.
Qed.

(** An octet that ends a component, after [j] others, prints at most its share. *)
Lemma emit_total size ptr v j room :
  0 <= v < 2 ^ 64 -> v < 128 ^ (j + 1) -> 0 <= j -> Z.of_nat (length (default [] ptr)) + 4 * (j + 1) + room < size -> 0 <= room ->
  exists t, emit size ptr v = Some t /\ Z.of_nat (length t) + room < size.
Proof.
  intros Hv Hj H0 Hs Hroom. pose proof (component_short v (j + 1) Hv Hj ltac:(lia)). unfold emit. destruct ptr as [t|].
  - cbn [mbind option_bind default from_option id] in *. destruct (printed_fits v v ltac:(lia) ltac:(lia)) as [Hp _].
    rewrite sprintf_fits by (cbn [length]; lia). eexists. split; [done|]. rewrite length_app. cbn [length]. lia.
  - cbn [default from_option id length] in Hs. set (a := if v <? 80 then v / 40 else 2).
    assert (0 <= a <= 2 /\ 0 <= v - a * 40 /\ (v - a * 40 < 100 \/ 128 <= v)) as (Ha & Hb & Hb').
    { unfold a. destruct (v <? 80) eqn:E; zb; [|lia]. pose proof (Z.div_mod v 40 ltac:(lia)). pose proof (Z.mod_pos_bound v 40 ltac:(lia)). lia. }
    destruct (printed_fits v (v - a * 40) ltac:(lia) ltac:(lia)) as [_ Hp]. specialize (Hp Hb').
    destruct (fmt_lu_spec a 1) as (_ & _ & Hla); [change (10 ^ Z.of_nat 1) with 10; lia|lia|].
    rewrite sprintf_fits by (cbn [length]; lia). cbn [mbind option_bind app]. rewrite uwrap_small by lia.
    rewrite sprintf_fits by (cbn [length]; lia). eexists. split; [done|]. rewrite length_app. cbn [length]. lia.
Qed.

Lemma decode_loop_total size der : forall ptr w j,
  bytes_ok der -> 0 <= w <= 2 ^ 57 - 2 -> w < 128 ^ j -> 0 <= j ->
  Z.of_nat (length (default [] ptr)) + 4 * (j + Z.of_nat (length der)) < size ->
  exists rc t, decode_oid_loop size der ptr (w * 128) = Some (rc, t) /\ Z.of_nat (length (default [] t)) < size.
Proof.
  induction der as [|b der IH]; intros ptr w j Hb Hw Hwj Hj Hs; cbn [decode_oid_loop length] in *.
  { destruct ptr as [t|]; [destruct (negb _)|]; do 2 eexists; (split; [done|]); cbn in *; lia. }
  apply bytes_ok_cons in Hb as [Hb Hder]. pose proof (Z.mod_pos_bound b 128 ltac:(lia)) as Hlow.
  assert (Z.lor (w * 128) (Z.land b 0x7f) = w * 128 + b mod 128) as ->.
  { change 0x7f with (2 ^ 7 - 1). rewrite land_ones_mod by lia.
    pose proof (lor_shiftl_low w (b mod 2 ^ 7) 7 ltac:(lia) ltac:(change (2 ^ 7) with 128; lia)) as Hlor.
    by rewrite Z.shiftl_mul_pow2 in Hlor by lia. }
  set (v := w * 128 + b mod 128) in *.
  assert (v < 128 ^ (j + 1)) as Hvj by (rewrite Z.pow_add_r, Z.pow_1_r by lia; lia).
  destruct (Z.land b 0x80 =? 0).
  - destruct (emit_total size ptr v j (4 * Z.of_nat (length der))) as (t & He & Ht); [lia..|].
    unfold emit in He. revert He.
    destruct (match ptr with Some t => _ | None => _ end) as [[t0 v0]|]; [|done]. cbn [mbind option_bind]. intros ->.
    cbn [mbind option_bind]. apply (IH (Some t) 0 0); (done || cbn; lia).
  - destruct (u64 (v - 1) <? Z.shiftr LBER_OID_COMPONENT_MAX 7) eqn:E; zb.
    + change (Z.shiftr LBER_OID_COMPONENT_MAX 7) with (2 ^ 57 - 2) in E.
      destruct (decide (v = 0)) as [E0|]; [by rewrite E0 in E|]. rewrite uwrap_small in E by lia.
      rewrite Z.shiftl_mul_pow2, uwrap_small by lia. apply (IH ptr v (j + 1)); (done || lia).
    + do 2 eexists. split; [done|]. cbn. lia.
Qed.

(** C29: on any input, however long its numbers, and with any buffer the two
    functions return and stay in the buffers; a text that is returned leaves
    room for its terminating NUL. *)
Theorem ber_oid_safe :
  (forall s in_len out, exists rc out' n, ber_encode_oid s in_len (Some out) = Some (rc, Some out', n) /\
    length out' = length out /\ (n <= length out)%nat) /\
  (forall der size, bytes_ok der -> 0 <= size < 2 ^ 64 -> exists rc t, ber_decode_oid der (Some size) = Some (rc, t) /\
    (rc = 0 -> Z.of_nat (length (default [] t)) < size)).
Proof.
  split; [apply encode_total|]. intros der size Hb Hs. unfold ber_decode_oid.
  destruct (_ <=? _) eqn:E; zb; [by do 2 eexists|].
  assert (4 * Z.of_nat (length der) < size) as Hroom.
  { destruct (decide (size < 2 ^ 64 - 3)) as [Hlt|Hge].
    - rewrite uwrap_small in E by lia. pose proof (Z.mul_div_le (size + 3) 4 ltac:(lia)). lia.
    - exfalso. assert (u64 (size + 3) = size + 3 - 2 ^ 64) as Ew.
      { unfold uwrap. symmetry. apply (Z.mod_unique _ _ 1); lia. }
      rewrite Ew, Z.div_small in E by lia. lia. }
  destruct (decode_loop_total size der None 0 0) as (rc & t & Hd & Hl); [done|lia|lia|lia|cbn; lia|].
  exists rc, t. by split.
Qed.
