(* ===== verification/Sockbuf.v ===== *)
(** * Socket buffers (libraries/libreldap/sockbuf.c)

    The layers through which an element is read and written, as an interface, and
    the layer that reads ahead, which implements the interface over the next one.
    A read or a write that a signal interrupted (EINTR) is repeated at once, so the
    interface has its last outcome only. *)

From stdpp Require Import base list numbers option.
From S2P Require Import Prelude Ber.

Local Open Scope Z_scope.

(** What a layer answers: the octets read or the number of octets written, or a
    result that is not positive with the error number. *)
Definition answer (A : Type) : Type := Z * Z + A.

Class Sockbuf_IO (T : Type) := {
  sbi_read : T -> nat -> option (answer (list Z) * T);
  sbi_write : T -> list Z -> option (answer nat * T);
}.

(** ** Buffers *)

Record Sockbuf_Buf := mkSbb {
  buf_base : list Z;     (* of [buf_size] octets *)
  buf_ptr : nat;
  buf_end : nat }.

Definition buf_size (b : Sockbuf_Buf) : nat := length b.(buf_base).

Definition LBER_MIN_BUFF_SIZE : Z := 4096.
Definition LBER_MAX_BUFF_SIZE : Z := 65536 * 256.
Definition LBER_DEFAULT_READAHEAD : Z := 16384.

Definition ber_pvt_sb_buf_init : Sockbuf_Buf := mkSbb [] 0 0.
Definition ber_pvt_sb_buf_destroy (b : Sockbuf_Buf) : Sockbuf_Buf := ber_pvt_sb_buf_init.

(** The power of two to grow to; [None] if it is too large. Each turn doubles it. *)
Fixpoint grow_size (fuel : nat) (pw minsize : Z) : option Z :=
  match fuel with
  | O => None
  | S fuel => if pw <? minsize then if pw >? LBER_MAX_BUFF_SIZE then None else grow_size fuel (u64 (Z.shiftl pw 1)) minsize else Some pw
  end.

Definition ber_pvt_sb_grow_buffer `{Heap} (b : Sockbuf_Buf) (minsize : Z) : Z * Sockbuf_Buf :=
  match grow_size 64 LBER_MIN_BUFF_SIZE minsize with
  | None => (-1, b)
  | Some pw =>
      if Z.of_nat (buf_size b) <? pw then
        if heap_grants pw then (0, mkSbb (mem_realloc b.(buf_base) (Z.to_nat pw)) b.(buf_ptr) b.(buf_end)) else (-1, b)
      else (0, b)
  end.

(** The octets copied out. *)
Definition ber_pvt_sb_copy_out (sbb : Sockbuf_Buf) (len : nat) : option (list Z * Sockbuf_Buf) :=
  let max := (sbb.(buf_end) - sbb.(buf_ptr))%nat in
  let max := if (max <? len)%nat then max else len in
  if (max =? 0)%nat then Some ([], sbb) else
  data ← mem_read sbb.(buf_base) sbb.(buf_ptr) max;
  let ptr := (sbb.(buf_ptr) + max)%nat in
  Some (data, if (sbb.(buf_end) <=? ptr)%nat then mkSbb sbb.(buf_base) 0 0 else mkSbb sbb.(buf_base) ptr sbb.(buf_end)).

Section next.
Context `{Sockbuf_IO T}.

(** Writing what is in a buffer to the next layer, once. *)
Definition ber_pvt_sb_do_write (next : T) (buf_out : Sockbuf_Buf) : option (answer nat * Sockbuf_Buf * T) :=
  let to_go := (buf_out.(buf_end) - buf_out.(buf_ptr))%nat in
  if (to_go =? 0)%nat then None else
  data ← mem_read buf_out.(buf_base) buf_out.(buf_ptr) to_go;
  '(ret, next) ← sbi_write next data;
  match ret with
  | inl e => Some (inl e, buf_out, next)
  | inr n =>
      let ptr := (buf_out.(buf_ptr) + n)%nat in
      Some (inr n, if (ptr =? buf_out.(buf_end))%nat then mkSbb buf_out.(buf_base) 0 0 else mkSbb buf_out.(buf_base) ptr buf_out.(buf_end), next)
  end.

(** ** Reading ahead *)

Definition sb_rdahead_read (sbiod : Sockbuf_Buf * T) (len : nat) : option (answer (list Z) * (Sockbuf_Buf * T)) :=
  let '(p, next) := sbiod in
  if (buf_size p =? 0)%nat then None else
  '(got, p) ← ber_pvt_sb_copy_out p len;
  let len := (len - length got)%nat in
  if (len =? 0)%nat then Some (inr got, (p, next)) else
  let max := (buf_size p - p.(buf_end))%nat in
  '(ret, next) ← (if (max =? 0)%nat then Some (inr [], next) else sbi_read next max);
  let '(ret, errno, data) := match ret with inl (ret, errno) => (ret, errno, []) | inr data => (Z.of_nat (length data), 0, data) end in
  if ret <? 0 then Some (match got with [] => inl (ret, errno) | _ => inr got end, (p, next)) else
  base ← mem_write p.(buf_base) p.(buf_end) data;
  '(more, p) ← ber_pvt_sb_copy_out (mkSbb base p.(buf_ptr) (p.(buf_end) + length data)) len;
  Some (match got ++ more with [] => inl (0, errno) | all => inr all end, (p, next)).

Definition sb_rdahead_write (sbiod : Sockbuf_Buf * T) (data : list Z) : option (answer nat * (Sockbuf_Buf * T)) :=
  '(ret, next) ← sbi_write sbiod.2 data; Some (ret, (sbiod.1, next)).

#[export] Instance ber_sockbuf_io_readahead : Sockbuf_IO (Sockbuf_Buf * T) := {
  sbi_read := sb_rdahead_read;
  sbi_write := sb_rdahead_write;
}.

End next.

(** The layer is set up with its buffer. *)
Definition sb_rdahead_setup `{Heap} {T : Type} (arg : option Z) (next : T) : Sockbuf_Buf * T :=
  ((ber_pvt_sb_grow_buffer ber_pvt_sb_buf_init (default LBER_DEFAULT_READAHEAD arg)).2, next).

Definition sb_rdahead_remove {T : Type} (sbiod : Sockbuf_Buf * T) : option T :=
  if (sbiod.1.(buf_ptr) =? sbiod.1.(buf_end))%nat then Some sbiod.2 else None.

Definition sb_rdahead_close {T : Type} (sbiod : Sockbuf_Buf * T) : Sockbuf_Buf * T := (ber_pvt_sb_buf_destroy sbiod.1, sbiod.2).

(** * What the layers of a socket buffer promise

    [Stream] is what the clients of a layer rely on: octets come in order and none is
    lost, however few come at a time, and what is written goes out in order. The
    layer that reads ahead keeps the promise when the next one does. *)

(** A layer in the state [s] has [incoming s] still to deliver and has delivered
    [outgoing s] to the other side. *)
Class Stream (T : Type) `{Sockbuf_IO T} := {
  stream_ok : T -> Prop;
  incoming : T -> list Z;
  outgoing : T -> list Z;
  read_law s n : stream_ok s -> (0 < n)%nat -> exists r s', sbi_read s n = Some (r, s') /\ stream_ok s' /\ outgoing s' = outgoing s /\
    match r with
    | inl (ret, _) => ret <= 0 /\ incoming s' = incoming s
    | inr data => data <> [] /\ (length data <= n)%nat /\ incoming s = data ++ incoming s'
    end;
  write_law s data : stream_ok s -> data <> [] -> exists r s', sbi_write s data = Some (r, s') /\ stream_ok s' /\ incoming s' = incoming s /\
    match r with
    | inl (ret, _) => ret <= 0 /\ outgoing s' = outgoing s
    | inr k => (0 < k <= length data)%nat /\ outgoing s' = outgoing s ++ take k data
    end;
}.

(** A layer that does not keep its client waiting while there are octets. *)
Class Responsive (T : Type) `{Stream T} :=
  responds s n r s' : stream_ok s -> (0 < n)%nat -> incoming s <> [] -> sbi_read s n = Some (r, s') -> exists data, r = inr data.

(** ** A wire

    Octets on their way, and how many the reads and writes to come pass; each read
    passes some, and a write that passes none would block. *)
Record wire := mkWire {
  w_in : list Z;
  w_out : list Z;
  w_reads : list nat;
  w_writes : list nat }.

Definition would_block : Z * Z := (-1, 11).

Definition wire_read (w : wire) (n : nat) : option (answer (list Z) * wire) :=
  let '(k, ks) := match w.(w_reads) with [] => (n, []) | k :: ks => (k, ks) end in
  let m := Nat.min k n in
  Some (match take m w.(w_in) with [] => inl would_block | data => inr data end, mkWire (drop m w.(w_in)) w.(w_out) ks w.(w_writes)).

Definition wire_write (w : wire) (data : list Z) : option (answer nat * wire) :=
  let '(k, ks) := match w.(w_writes) with [] => (length data, []) | k :: ks => (k, ks) end in
  let m := Nat.min k (length data) in
  Some (match m with O => inl would_block | _ => inr m end, mkWire w.(w_in) (w.(w_out) ++ take m data) w.(w_reads) ks).

#[export] Instance wire_io : Sockbuf_IO wire := { sbi_read := wire_read; sbi_write := wire_write }.

#[export, refine] Instance wire_stream : Stream wire := { stream_ok w := Forall (lt 0) w.(w_reads); incoming := w_in; outgoing := w_out }.
Proof.
  - intros w n Hw Hn. cbn [sbi_read wire_io]. unfold wire_read.
    assert (exists k ks, match w_reads w with [] => (n, []) | k :: ks => (k, ks) end = (k, ks) /\ (0 < k)%nat /\ Forall (lt 0) ks) as (k & ks & -> & Hk & Hks).
    { destruct (w_reads w) as [|k ks]; [by exists n, []|]. apply list.Forall_cons in Hw as [? ?]. by exists k, ks. }
    do 2 eexists. split; [done|]. cbn [w_in w_out w_reads]. split; [done|]. split; [done|].
    destruct (take (Nat.min k n) (w_in w)) as [|o l] eqn:E.
    + split; [cbn; lia|]. by rewrite <- (take_drop (Nat.min k n) (w_in w)) at 2; rewrite E.
    + split; [done|]. apply (f_equal length) in E as El. rewrite length_take in El. split; [lia|]. by rewrite <- E, take_drop.
  - intros w data Hw Hd. cbn [sbi_write wire_io]. unfold wire_write. destruct (match w_writes w with [] => _ | _ => _ end) as [k ks].
    do 2 eexists. split; [done|]. cbn [w_in w_out w_reads]. split; [done|]. split; [done|].
    destruct (Nat.min k (length data)) as [|m] eqn:E; [split; [cbn; lia|by rewrite take_0, app_nil_r]|]. split; [lia|done].
Defined.

#[export] Instance wire_responsive : Responsive wire.
Proof.
  intros w n r w' Hw Hn Hin. cbn [sbi_read wire_io incoming wire_stream stream_ok] in *. unfold wire_read.
  assert (exists k ks, match w_reads w with [] => (n, []) | k :: ks => (k, ks) end = (k, ks) /\ (0 < k)%nat) as (k & ks & -> & Hk).
  { destruct (w_reads w) as [|k ks]; [by exists n, []|]. apply list.Forall_cons in Hw as [? ?]. by exists k, ks. }
  destruct (w_in w) as [|o l]; [done|]. destruct (Nat.min k n) eqn:E; [lia|]. cbn [take]. intros [= <- _]. by eexists.
Qed.

(** ** Reading ahead *)

(** The octets waiting in a buffer. *)
Definition buffered (b : Sockbuf_Buf) : list Z := take (b.(buf_end) - b.(buf_ptr)) (drop b.(buf_ptr) b.(buf_base)).

Record sbb_ok (b : Sockbuf_Buf) : Prop := {
  sbb_ptr : (b.(buf_ptr) <= b.(buf_end))%nat;
  sbb_end : (b.(buf_end) <= buf_size b)%nat;
  sbb_empty : b.(buf_ptr) = b.(buf_end) -> b.(buf_end) = 0%nat }.

Lemma length_buffered b : sbb_ok b -> length (buffered b) = (b.(buf_end) - b.(buf_ptr))%nat.
Proof. intros [? ? ?]. unfold buffered, buf_size in *. rewrite length_take, length_drop. lia. Qed.

Lemma copy_out_spec b len : sbb_ok b -> exists data b', ber_pvt_sb_copy_out b len = Some (data, b') /\ sbb_ok b' /\ buf_size b' = buf_size b /\
  data = take len (buffered b) /\ buffered b' = drop len (buffered b).
Proof.
  intros Hb. pose proof (length_buffered b Hb) as L. destruct Hb as [Hp He Hz]. unfold ber_pvt_sb_copy_out.
  set (max := if (buf_end b - buf_ptr b <? len)%nat then (buf_end b - buf_ptr b)%nat else len).
  assert (max = Nat.min (buf_end b - buf_ptr b) len) as Hmax by (unfold max; destruct (Nat.ltb_spec (buf_end b - buf_ptr b) len); lia). clearbody max.
  assert (forall k, (k <= max)%nat -> take k (buffered b) = take k (drop (buf_ptr b) (buf_base b))) as Ht by (intros; unfold buffered; by rewrite take_take, Nat.min_l by lia).
  destruct (Nat.eqb_spec max 0) as [E|E].
  - exists [], b. do 2 (split; [done|]). split; [done|]. assert (len = 0%nat \/ length (buffered b) = 0%nat) as [->|Hn] by lia; [by rewrite take_0, drop_0|].
    apply nil_length_inv in Hn. by rewrite Hn, take_nil, drop_nil.
  - unfold mem_read. rewrite decide_True by (unfold buf_size in *; lia). cbn [mbind option_bind]. do 2 eexists. split; [done|].
    assert (take max (drop (buf_ptr b) (buf_base b)) = take len (buffered b)) as ->.
    { rewrite <- Ht by lia. destruct (Nat.le_ge_cases len (length (buffered b))); [by replace max with len by lia|]. by rewrite !take_ge by lia. }
    destruct (Nat.leb_spec (buf_end b) (buf_ptr b + max)) as [H|H].
    + split; [split; cbn; lia|]. split; [done|]. split; [done|]. rewrite (drop_ge (buffered b)) by lia. done.
    + split; [split; cbn [buf_base buf_ptr buf_end]; unfold buf_size in *; cbn [buf_base]; lia|]. split; [done|]. split; [done|].
      unfold buffered. cbn [buf_base buf_ptr buf_end]. replace max with len by lia. rewrite skipn_firstn_comm, drop_drop. f_equal; lia.
Qed.

Lemma buffered_nil b : sbb_ok b -> buffered b = [] -> b.(buf_ptr) = 0%nat /\ b.(buf_end) = 0%nat.
Proof. intros Hb E. pose proof (length_buffered b Hb) as L. rewrite E in L. destruct Hb as [Hp _ Hz]. cbn in L. lia. Qed.

(** An empty buffer is filled, and copied out again. *)
Lemma refill_spec b data len : sbb_ok b -> buffered b = [] -> (length data <= buf_size b)%nat ->
  exists base more b', mem_write b.(buf_base) b.(buf_end) data = Some base /\
    ber_pvt_sb_copy_out (mkSbb base b.(buf_ptr) (b.(buf_end) + length data)) len = Some (more, b') /\
    sbb_ok b' /\ buf_size b' = buf_size b /\ more = take len data /\ buffered b' = drop len data.
Proof.
  intros Hb Hnil Hd. destruct (buffered_nil b Hb Hnil) as [-> ->]. destruct (mem_write_is_Some (buf_base b) 0 data ltac:(unfold buf_size in Hd; lia)) as [base Hbase].
  pose proof (mem_write_Some _ _ _ _ Hbase) as (_ & Hl & Hm). cbn [Nat.add].
  assert (sbb_ok (mkSbb base 0 (length data))) as Hok by (split; cbn; unfold buf_size in *; cbn; lia).
  assert (buffered (mkSbb base 0 (length data)) = data) as Hbd by (unfold buffered; cbn [buf_base buf_ptr buf_end]; rewrite Nat.sub_0_r, drop_0, Hm, take_0; cbn [app]; by rewrite take_app_length).
  destruct (copy_out_spec _ len Hok) as (more & b' & E & Hb' & Hs & Hmore & Hrest). rewrite Hbd in Hmore, Hrest.
  exists base, more, b'. do 3 (split; [done|]). split; [|done]. unfold buf_size in *. cbn [buf_base] in Hs. congruence.
Qed.

Section readahead.
Context `{Stream T}.

Definition rdahead_ok (s : Sockbuf_Buf * T) : Prop := sbb_ok s.1 /\ (0 < buf_size s.1)%nat /\ stream_ok s.2.
Definition rdahead_incoming (s : Sockbuf_Buf * T) : list Z := buffered s.1 ++ incoming s.2.

(** A read takes what is buffered, and goes to the next layer once if that is not
    enough. *)
Lemma rdahead_read_spec s n : rdahead_ok s -> (0 < n)%nat -> exists r s', sb_rdahead_read s n = Some (r, s') /\ rdahead_ok s' /\ outgoing s'.2 = outgoing s.2 /\
  match r with
  | inl (ret, _) => ret <= 0 /\ rdahead_incoming s' = rdahead_incoming s /\ buffered s.1 = [] /\ exists k r next, (0 < k)%nat /\ sbi_read s.2 k = Some (inl r, next)
  | inr data => data <> [] /\ (length data <= n)%nat /\ rdahead_incoming s = data ++ rdahead_incoming s'
  end.
Proof.
  destruct s as [p next]. intros (Hp & Hz & Hn) Hlen. unfold sb_rdahead_read, rdahead_incoming. cbn [fst snd] in *.
  rewrite (proj2 (Nat.eqb_neq _ _)) by lia. destruct (copy_out_spec p n Hp) as (got & p1 & -> & Hp1 & Hs1 & Hgot & Hb1). cbn [mbind option_bind].
  assert (buffered p = got ++ buffered p1) as Hsplit by (by rewrite Hgot, Hb1, take_drop). pose proof (length_take (buffered p) n) as Lg. rewrite <- Hgot in Lg.
  destruct (Nat.eqb_spec (n - length got) 0) as [E|E].
  { do 2 eexists. split; [done|]. unfold rdahead_ok. cbn [fst snd]. rewrite Hs1. do 2 (split; [done|]). split; [intros ->; cbn in E; lia|]. split; [lia|]. by rewrite Hsplit, <- app_assoc. }
  assert (buffered p1 = []) as Hnil by (rewrite Hb1; apply drop_ge; lia). destruct (buffered_nil p1 Hp1 Hnil) as [_ Z2]. rewrite Hnil, app_nil_r in Hsplit.
  rewrite Hs1, Z2, Nat.sub_0_r, (proj2 (Nat.eqb_neq (buf_size p) 0)) by lia. rewrite <- Z2.
  destruct (read_law next (buf_size p) Hn Hz) as (r & next1 & Hr & Hok' & Hout & Hres). rewrite Hr. cbn [mbind option_bind].
  destruct r as [[ret errno]|data].
  - destruct Hres as [Hret Hin]. destruct (refill_spec p1 [] (n - length got) Hp1 Hnil ltac:(cbn; lia)) as (base & more & q & -> & E2 & Hq & Hsq & Hmore & Hbq).
    rewrite take_nil in Hmore. subst more. rewrite drop_nil in Hbq. cbn [mbind option_bind]. rewrite E2. cbn [mbind option_bind]. rewrite app_nil_r.
    exists (match got with [] => inl (if ret <? 0 then ret else 0, errno) | _ => inr got end), (if ret <? 0 then p1 else q, next1).
    unfold rdahead_ok. cbn [fst snd]. split; [by destruct (ret <? 0), got|]. split; [destruct (ret <? 0); rewrite ?Hsq, Hs1; done|]. split; [done|].
    assert (buffered (if ret <? 0 then p1 else q) = []) as -> by (by destruct (ret <? 0)). rewrite Hsplit, Hin.
    destruct got as [|o got]; [|split; [done|split; [lia|done]]]. split; [destruct (Z.ltb_spec ret 0); lia|]. split; [done|]. split; [done|]. exists (buf_size p), (ret, errno), next1. split; [lia|done].
  - destruct Hres as (Hd & Hdl & Hin). rewrite (proj2 (Z.ltb_ge _ _)) by lia. destruct (refill_spec p1 data (n - length got) Hp1 Hnil ltac:(lia)) as (base & more & q & -> & E2 & Hq & Hsq & Hmore & Hbq).
    cbn [mbind option_bind]. rewrite E2. cbn [mbind option_bind].
    assert (got ++ more <> []) as Hne.
    { destruct data as [|o data]; [done|]. intros [_ Hm]%app_nil. rewrite Hm in Hmore. destruct (n - length got)%nat; [lia|done]. }
    exists (inr (got ++ more)), (q, next1). unfold rdahead_ok. cbn [fst snd]. split; [by destruct (got ++ more)|]. rewrite Hsq, Hs1. do 2 (split; [done|]). split; [done|].
    split; [rewrite length_app, Hmore, length_take; lia|]. rewrite Hsplit, Hin, Hmore, Hbq, <- app_assoc. f_equal. by rewrite app_assoc, take_drop.
Qed.

#[export, refine] Instance rdahead_stream : Stream (Sockbuf_Buf * T) :=
  { stream_ok := rdahead_ok; incoming := rdahead_incoming; outgoing s := outgoing s.2 }.
Proof.
  - intros s n Hs Hn. destruct (rdahead_read_spec s n Hs Hn) as (r & s' & E & Hok & Ho & Hr). exists r, s'. split; [done|]. split; [done|]. split; [done|].
    destruct r as [[ret e]|data]; [|done]. destruct Hr as (? & ? & _). done.
  - intros [p next] data (Hp & Hz & Hn) Hd. cbn [fst snd] in *. destruct (write_law next data Hn Hd) as (r & next' & E & Hok & Hin & Hr). exists r, (p, next').
    cbn [sbi_write ber_sockbuf_io_readahead]. unfold sb_rdahead_write. cbn [fst snd]. rewrite E. cbn [mbind option_bind]. split; [done|]. split; [done|]. unfold rdahead_incoming. cbn [fst snd]. by rewrite Hin.
Defined.

#[export] Instance rdahead_responsive : Responsive T -> Responsive (Sockbuf_Buf * T).
Proof.
  intros Hresp s n r s' Hok Hn Hin E. destruct (rdahead_read_spec s n Hok Hn) as (r' & s'' & E' & _ & _ & Hr). change (sbi_read s n) with (sb_rdahead_read s n) in E. rewrite E' in E. injection E as -> ->.
  destruct r as [[ret e]|data]; [|by eexists]. destruct Hr as (_ & _ & Hb & k & r & next & Hk & Er). destruct Hok as (_ & _ & Hn2).
  cbn [incoming rdahead_stream] in Hin. unfold rdahead_incoming in Hin. rewrite Hb in Hin. destruct (Hresp _ _ _ _ Hn2 Hk Hin Er) as [? ?]. done.
Qed.

End readahead.

(** ** The size of the buffer *)

Lemma grow_size_spec fuel : forall pw minsize, 0 < pw <= 2 ^ 25 -> 2 ^ 26 < pw * 2 ^ Z.of_nat fuel ->
  match grow_size fuel pw minsize with Some r => minsize <= r /\ pw <= r <= 2 ^ 25 | None => LBER_MAX_BUFF_SIZE < minsize end.
Proof.
  induction fuel as [|fuel IH]; intros pw minsize Hp Hf; [change (2 ^ Z.of_nat 0) with 1 in Hf; lia|]. cbn [grow_size].
  destruct (Z.ltb_spec pw minsize); [|lia]. rewrite Z.gtb_ltb. destruct (Z.ltb_spec LBER_MAX_BUFF_SIZE pw); [lia|]. unfold LBER_MAX_BUFF_SIZE in *.
  rewrite Z.shiftl_mul_pow2 by lia. change (2 ^ 1) with 2. rewrite (uwrap_small 64) by lia. rewrite Nat2Z.inj_succ, Z.pow_succ_r in Hf by lia.
  specialize (IH (pw * 2) minsize ltac:(lia) ltac:(lia)). destruct (grow_size fuel (pw * 2) minsize); lia.
Qed.

(** Growing keeps what is buffered; a buffer that is asked for is at least as large as
    asked, and the layer can be used. *)
Lemma grow_buffer_spec `{Heap} b minsize : sbb_ok b -> (forall k, heap_grants k = true) -> minsize <= LBER_MAX_BUFF_SIZE -> exists b', ber_pvt_sb_grow_buffer b minsize = (0, b') /\
  sbb_ok b' /\ buffered b' = buffered b /\ minsize <= Z.of_nat (buf_size b') /\ (0 < buf_size b')%nat.
Proof.
  intros Hb Hg Hm. unfold ber_pvt_sb_grow_buffer. pose proof (grow_size_spec 64 LBER_MIN_BUFF_SIZE minsize ltac:(vm_compute; done) ltac:(by vm_compute)) as Hs.
  destruct (grow_size 64 LBER_MIN_BUFF_SIZE minsize) as [pw|]; [|lia]. destruct Hs as [H1 H2]. unfold LBER_MIN_BUFF_SIZE in H2.
  destruct (Z.ltb_spec (Z.of_nat (buf_size b)) pw) as [Hlt|Hge].
  - rewrite Hg. eexists. split; [done|]. destruct Hb as [B1 B2 B3]. unfold buf_size, buffered in *. cbn [buf_base buf_ptr buf_end]. rewrite mem_realloc_length.
    split; [split; cbn [buf_base buf_ptr buf_end]; unfold buf_size; cbn [buf_base]; rewrite ?mem_realloc_length; lia|]. split; [|lia].
    unfold mem_realloc. rewrite (take_ge (buf_base b)) by lia. rewrite drop_app_le by lia. rewrite take_app_le by (rewrite length_drop; lia). done.
  - exists b. split; [done|]. split; [done|]. split; [done|]. lia.
Qed.

Lemma sb_rdahead_setup_ok `{Heap} `{Stream T} arg (next : T) : (forall k, heap_grants k = true) -> default 0 arg <= LBER_MAX_BUFF_SIZE -> stream_ok next ->
  stream_ok (sb_rdahead_setup arg next) /\ incoming (sb_rdahead_setup arg next) = incoming next.
Proof.
  intros Hg Ha Hn. unfold sb_rdahead_setup. destruct (grow_buffer_spec ber_pvt_sb_buf_init (default LBER_DEFAULT_READAHEAD arg)) as (b & -> & Hb & Hbuf & _ & Hsz); [split; cbn; lia|done|destruct arg; [done|vm_compute; done]|].
  cbn [snd]. split; [done|]. cbn [incoming rdahead_stream]. unfold rdahead_incoming. cbn [fst snd]. by rewrite Hbuf.
Qed.
