(* ===== verification/BerNet.v ===== *)
(** * Elements on the network (libraries/libreldap/io.c)

    [ber_flush2] writes an encoded element to a socket buffer, and [ber_get_next]
    reads one, over as many calls as it takes for the octets to pass. *)

From stdpp Require Import base list numbers option.
From S2P Require Import Prelude Ber BerEncode BerDecode Sockbuf.

Local Open Scope Z_scope.

(** ** Writing *)

Definition LBER_FLUSH_FREE_ON_SUCCESS : Z := 1.
Definition LBER_FLUSH_FREE_ON_ERROR : Z := 2.

Section flush.
Context `{Sockbuf_IO T}.

(** The loop of [ber_flush2]; each turn writes at least an octet. *)
Fixpoint flush_loop (fuel : nat) (b : BerElement) (rwptr towrite : nat) (sb : T) : option (Z * nat * T) :=
  if (towrite =? 0)%nat then Some (0, rwptr, sb) else
  match fuel with
  | O => None
  | S fuel =>
      data ← mem_read b.(ber_mem) rwptr towrite;
      '(rc, sb) ← sbi_write sb data;
      match rc with
      | inl _ => Some (-1, rwptr, sb)
      | inr n => flush_loop fuel b (rwptr + n) (towrite - n) sb
      end
  end.

(** [None] for an element that has been freed. *)
Definition ber_flush2 (sb : T) (b : BerElement) (freeit : Z) : option (Z * option BerElement * T) :=
  let rwptr := default 0%nat b.(ber_rwptr) in
  let towrite := (b.(ber_ptr) - rwptr)%nat in
  '(rc, rwptr, sb) ← flush_loop towrite b rwptr towrite sb;
  let flag := if rc =? 0 then LBER_FLUSH_FREE_ON_SUCCESS else LBER_FLUSH_FREE_ON_ERROR in
  Some (rc, if negb (Z.land freeit flag =? 0) then None else Some (with_rwptr b (Some rwptr)), sb).

End flush.

(** ** Reading

    Until its length is known, the octets of an element are kept in the element
    itself, in the 24 octets of [ber_tag], [ber_len] and [ber_usertag], from the
    last octet of [ber_tag] on. *)

Definition EWOULDBLOCK : Z := 11.
Definition ENOMEM : Z := 12.
Definition ERANGE : Z := 34.
Definition LENSIZE : nat := 4.
Definition sizeof_ber_tag_t : nat := 8.

(** A word in memory, least octet first. *)
Definition le64 (z : Z) : list Z := (fun i => Z.land (Z.shiftr z (8 * Z.of_nat i)) 0xff) <$> seq 0 8.
Definition le_val (l : list Z) : Z := foldr (fun o n => o + 256 * n) 0 l.

Definition at_ber_tag : nat := 0.
Definition at_ber_len : nat := 8.
Definition at_ber_usertag : nat := 16.

(** A pointer into these octets, or into the buffer. *)
Inductive place := Head (i : nat) | Buf (i : nat).

Global Instance place_eq_dec : EqDecision place.
Proof. solve_decision. Defined.

Record BerInput := mkIn {
  in_options : Z;
  in_head : list Z;
  in_buf : option (list Z);     (* [None] before it is allocated *)
  in_ptr : place;
  in_end : nat;
  in_rwptr : option place }.

Definition in_store (b : BerInput) (off : nat) (z : Z) : option BerInput :=
  head ← mem_write b.(in_head) off (le64 z); Some (mkIn b.(in_options) head b.(in_buf) b.(in_ptr) b.(in_end) b.(in_rwptr)).
Definition in_load (b : BerInput) (off : nat) : option Z := s ← mem_read b.(in_head) off 8; Some (le_val s).
Definition at_ptr (b : BerInput) (p : place) : BerInput := mkIn b.(in_options) b.(in_head) b.(in_buf) p b.(in_end) b.(in_rwptr).
Definition at_rwptr (b : BerInput) (p : option place) : BerInput := mkIn b.(in_options) b.(in_head) b.(in_buf) b.(in_ptr) b.(in_end) p.

(** What [ber_alloc_t] gives. *)
Definition ber_input (options : Z) : BerInput := mkIn options (le64 LBER_DEFAULT ++ le64 0 ++ le64 0) None (Buf 0) 0 None.

(** The element as the decoder takes it. *)
Definition input_element (b : BerInput) : option BerElement :=
  tag ← in_load b at_ber_tag; len ← in_load b at_ber_len; usertag ← in_load b at_ber_usertag;
  match b.(in_buf), b.(in_ptr), b.(in_rwptr) with
  | Some mem, Buf p, None => Some (mkBer b.(in_options) tag len usertag mem p b.(in_end) None None)
  | _, _, _ => None
  end.

(** What a part of the function comes to: [LBER_DEFAULT] with an error number, the
    jump to [done], or the code that follows. *)
Inductive outcome := Failed (errno : Z) | Complete | Next.

(** *** The tag *)

(** The octets behind the first, up to what has been read: the tag and their number;
    [None] if it is too big. *)
Fixpoint tag_rest (s : list Z) (i : nat) (tag : Z) : option (Z * nat) :=
  match s with
  | [] => Some (tag, (i - 1)%nat)
  | o :: s =>
      let tag := Z.lor (u64 (Z.shiftl tag 8)) o in
      if Z.land tag LBER_MORE_TAG_MASK =? 0 then Some (tag, i)
      else if (i =? sizeof_ber_tag_t - 1)%nat then None
      else tag_rest s (S i) tag
  end.

Definition header_tag (b : BerInput) (rw : nat) : option (outcome * BerInput) :=
  if negb (bool_decide (b.(in_ptr) = Head (at_ber_len - 1))) then Some (Next, b) else
  tag ← b.(in_head) !! (at_ber_len - 1)%nat;
  let p := at_ber_len in
  if Z.land tag LBER_BIG_TAG_MASK =? LBER_BIG_TAG_MASK then
    s ← mem_read b.(in_head) p (rw - p);
    match tag_rest s 1 tag with
    | None => Some (Failed ERANGE, b)
    | Some (tag, n) =>
        if (p + n =? rw)%nat then Some (Failed EWOULDBLOCK, b)
        else b ← in_store b at_ber_tag tag; Some (Next, at_ptr b (Head (p + n)))
    end
  else b ← in_store b at_ber_tag tag; Some (Next, at_ptr b (Head p)).

(** *** The length *)

Definition be_octets (tlen : Z) (s : list Z) : Z := foldl (fun n o => Z.lor (u64 (Z.shiftl n 8)) o) tlen s.

(** Its place, and the place that [ber_ptr] gets and the length. *)
Definition header_length (b : BerInput) (p rw : nat) : option (outcome * (nat * Z)) :=
  o ← b.(in_head) !! p;
  if negb (Z.land o 0x80 =? 0) then
    let llen := Z.to_nat (Z.land o 0x7f) in
    if (LENSIZE <? llen)%nat then Some (Failed ERANGE, (p, 0)) else
    if Z.of_nat rw - Z.of_nat (S p) <? Z.of_nat llen then Some (Failed EWOULDBLOCK, (p, 0)) else
    s ← mem_read b.(in_head) (S p) llen;
    Some (Next, ((S p + llen)%nat, be_octets 0 s))
  else Some (Next, (S p, o)).

(** *** Filling the buffer *)

Section input.
Context `{Heap} `{Sockbuf_IO T}.

(** [sb_max_incoming] *)
Context (max_incoming : Z).

Definition header_buffer (b : BerInput) (tlen : Z) (p rw : nat) (data : list Z) : option (outcome * BerInput) :=
  match b.(in_buf) with
  | Some _ => Some (Next, b)
  | None =>
      let l := (rw - p)%nat in
      let sblen := length data in
      if tlen <? Z.of_nat (sblen + l) then Some (Failed ERANGE, b) else
      if negb (ber_memalloc_x (u64 (tlen + 1))) then Some (Failed ENOMEM, b) else
      let mem := heap_junk (Z.to_nat tlen + 1) in
      mem ← mem_write mem 0 data;
      more ← mem_read b.(in_head) p l;
      mem ← mem_write mem sblen more;
      mem ← mem_write mem (Z.to_nat tlen) [0];
      let sblen := (sblen + l)%nat in
      let b := mkIn b.(in_options) b.(in_head) (Some mem) (Buf 0) (Z.to_nat tlen) b.(in_rwptr) in
      b ← in_store b at_ber_usertag 0;
      if Z.of_nat sblen =? tlen then Some (Complete, b) else Some (Next, at_rwptr b (Some (Buf sblen)))
  end.

Definition header_contents (b : BerInput) (tlen : Z) (p rw : nat) : option (outcome * BerInput) :=
  let sblen := if (p <? at_ber_usertag)%nat then (if (rw <? at_ber_usertag)%nat then rw - p else at_ber_usertag - p)%nat else 0%nat in
  if (sizeof_ber_tag_t - 1 <? sblen)%nat then None else
  data ← mem_read b.(in_head) p sblen;
  let b := at_ptr b (Head (p + sblen)) in
  b ← in_store b at_ber_len tlen;
  if tlen =? 0 then Some (Failed ERANGE, b) else
  if negb (max_incoming =? 0) && (tlen >? max_incoming) then Some (Failed ERANGE, b) else
  header_buffer b tlen (p + sblen) rw data.

(** What has been read is parsed. *)
Definition header_parse (b : BerInput) (rw : nat) : option (outcome * BerInput) :=
  '(r, b) ← header_tag b rw;
  match r, b.(in_ptr) with
  | Next, Head p =>
      if (p =? rw)%nat then Some (Failed EWOULDBLOCK, b) else
      '(r, (q, tlen)) ← header_length b p rw;
      match r with
      | Next => header_contents b tlen q rw
      | _ => Some (r, b)
      end
  | Next, Buf _ => None
  | _, _ => Some (r, b)
  end.

(** One turn of the loop. *)
Definition header_turn (b : BerInput) (rw : nat) (sb : T) : option (outcome * BerInput * T) :=
  let sblen := Z.of_nat (at_ber_len + LENSIZE * 2 - 1) - Z.of_nat rw in
  let sblen := if sblen <? 1 then 1 else sblen in
  '(ret, sb) ← sbi_read sb (Z.to_nat sblen);
  match ret with
  | inl (_, errno) => Some (Failed errno, b, sb)
  | inr data =>
      head ← mem_write b.(in_head) rw data;
      let rw := (rw + length data)%nat in
      let b := mkIn b.(in_options) head b.(in_buf) b.(in_ptr) b.(in_end) (Some (Head rw)) in
      '(r, b) ← header_parse b rw; Some (r, b, sb)
  end.

(** Each turn reads an octet, and there are at most 16. *)
Fixpoint header_loop (fuel : nat) (b : BerInput) (sb : T) : option (outcome * BerInput * T) :=
  match b.(in_rwptr) with
  | Some (Head rw) =>
      if (at_ber_tag <? rw)%nat && (rw <? at_ber_len + LENSIZE * 2)%nat then
        match fuel with
        | O => None
        | S fuel =>
            '(r, b, sb) ← header_turn b rw sb;
            match r with
            | Next => header_loop fuel b sb
            | _ => Some (r, b, sb)
            end
        end
      else Some (Next, b, sb)
  | _ => Some (Next, b, sb)
  end.

(** *** The contents *)

Definition get_contents (errno : Z) (b : BerInput) (sb : T) : option (outcome * BerInput * T) :=
  match b.(in_rwptr), b.(in_buf) with
  | Some (Buf rw), Some mem =>
      if (rw <? b.(in_end))%nat then
        let to_go := (b.(in_end) - rw)%nat in
        '(res, sb) ← sbi_read sb to_go;
        match res with
        | inl (_, errno) => Some (Failed errno, b, sb)
        | inr data =>
            mem ← mem_write mem rw data;
            let b := mkIn b.(in_options) b.(in_head) (Some mem) b.(in_ptr) b.(in_end) (Some (Buf (rw + length data))) in
            if (length data <? to_go)%nat then Some (Failed EWOULDBLOCK, b, sb) else Some (Complete, b, sb)
        end
      else Some (Failed errno, b, sb)
  | _, _ => Some (Failed errno, b, sb)
  end.

(** The result, the error number, the length, which is set for a result other than
    [LBER_DEFAULT], the element and the socket. *)
Definition ber_get_next (errno : Z) (sb : T) (b : BerInput) : option (Z * Z * option Z * BerInput * T) :=
  b ← match b.(in_rwptr) with
      | Some _ => Some b
      | None =>
          match b.(in_buf) with
          | Some _ => None
          | None => in_store (mkIn b.(in_options) b.(in_head) None (Head (at_ber_len - 1)) b.(in_end) (Some (Head (at_ber_len - 1)))) at_ber_tag 0
          end
      end;
  '(r, b, sb) ← header_loop 16 b sb;
  '(r, b, sb) ← match r with Next => get_contents errno b sb | _ => Some (r, b, sb) end;
  match r with
  | Failed errno => Some (LBER_DEFAULT, errno, None, b, sb)
  | _ =>
      let b := at_rwptr b None in
      len ← in_load b at_ber_len;
      tag ← in_load b at_ber_tag;
      Some (tag, 0, Some len, b, sb)
  end.

End input.
