(* ===== verification/BerNetFacts.v ===== *)
(** * Elements on the network: how an element is taken in

    The octets of an element that have been read, at each moment, are in the head of
    the element or in its buffer. *)

From stdpp Require Import base list numbers option.
From S2P Require Import Prelude Ber BerEncode BerDecode Sockbuf BerNet.

Local Open Scope Z_scope.

(** ** Pieces of memory *)

Lemma slice_ext (m m' : list Z) p n : length m = length m' -> (forall i, (p <= i < p + n)%nat -> m' !! i = m !! i) -> slice m' p n = slice m p n.
Proof.
  intros Hl H. apply list_eq. intros i. unfold slice. destruct (decide (i < n)%nat) as [Hi|Hi].
  - rewrite !lookup_take_lt, !lookup_drop by done. apply H. lia.
  - rewrite !lookup_take_ge by lia. done.
Qed.

Lemma slice_write_out m off data m' p n : mem_write m off data = Some m' -> (p + n <= off \/ off + length data <= p)%nat -> slice m' p n = slice m p n.
Proof.
  intros E H. pose proof (mem_write_Some _ _ _ _ E) as (_ & Hl & _). apply slice_ext; [done|]. intros i Hi. apply (mem_write_lookup_out _ _ _ _ _ E). lia.
Qed.

Lemma slice_write_end m off data m' p : mem_write m off data = Some m' -> (p <= off)%nat ->
  slice m' p (off - p + length data) = slice m p (off - p) ++ data.
Proof.
  intros E H. pose proof (mem_write_take _ _ _ _ E) as Ht. pose proof (mem_write_Some _ _ _ _ E) as (Hl & _ & _). unfold slice.
  replace (off - p + length data)%nat with (off + length data - p)%nat by lia. rewrite <- skipn_firstn_comm, Ht, drop_app_le by (rewrite length_take; lia). by rewrite skipn_firstn_comm.
Qed.

Lemma slice_write_same m off data m' : mem_write m off data = Some m' -> slice m' off (length data) = data.
Proof. intros E. pose proof (slice_write_end _ _ _ _ off E ltac:(lia)) as H. rewrite Nat.sub_diag in H. exact H. Qed.

Lemma slice_head (m : list Z) p n o s : slice m p n = o :: s -> m !! p = Some o /\ slice m (S p) (n - 1) = s.
Proof.
  unfold slice. intros E. destruct n as [|n]; [done|]. destruct (drop p m) as [|x l] eqn:Ed; [done|]. cbn [take] in E. injection E as -> <-.
  split; [by rewrite <- (Nat.add_0_r p), <- lookup_drop, Ed|]. replace (S n - 1)%nat with n by lia.
  replace (S p) with (p + 1)%nat by lia. by rewrite <- drop_drop, Ed.
Qed.

Lemma le64_length z : length (le64 z) = 8%nat.
Proof. done. Qed.

Lemma le64_val z : 0 <= z < 2 ^ 64 -> le_val (le64 z) = z.
Proof.
  intros Hz. unfold le64, le_val. cbn [seq fmap list_fmap foldr].
  repeat match goal with |- context [8 * Z.of_nat ?i] => let v := eval vm_compute in (8 * Z.of_nat i) in change (8 * Z.of_nat i) with v end.
  rewrite !land_255, !Z.shiftr_div_pow2 by lia.
  change (2 ^ 0) with 1. change (2 ^ 8) with 256. change (2 ^ 16) with (256 * 256). change (2 ^ 24) with (256 * 256 * 256). change (2 ^ 32) with (256 * 256 * 256 * 256).
  change (2 ^ 40) with (256 * 256 * 256 * 256 * 256). change (2 ^ 48) with (256 * 256 * 256 * 256 * 256 * 256). change (2 ^ 56) with (256 * 256 * 256 * 256 * 256 * 256 * 256).
  change (2 ^ 64) with (256 * 256 * 256 * 256 * 256 * 256 * 256 * 256) in Hz. rewrite <- !Z.div_div, Z.div_1_r by lia. Z.div_mod_to_equations; lia.
Qed.

(** ** The head *)

Definition head_ok (b : BerInput) : Prop := length b.(in_head) = 24%nat.

Lemma in_store_spec b off z : head_ok b -> (off + 8 <= 24)%nat -> 0 <= z < 2 ^ 64 -> exists head,
  in_store b off z = Some (mkIn b.(in_options) head b.(in_buf) b.(in_ptr) b.(in_end) b.(in_rwptr)) /\ length head = 24%nat /\
  slice head off 8 = le64 z /\ forall p n, (p + n <= off \/ off + 8 <= p)%nat -> slice head p n = slice b.(in_head) p n.
Proof.
  intros Hb Ho Hz. unfold in_store, head_ok in *. destruct (mem_write_is_Some (in_head b) off (le64 z) ltac:(rewrite le64_length; lia)) as [h E].
  exists h. rewrite E. split; [done|]. pose proof (mem_write_Some _ _ _ _ E) as (_ & L & _). split; [lia|]. split; [exact (slice_write_same _ _ _ _ E)|].
  intros p n Hp. apply (slice_write_out _ _ _ _ _ _ E). by rewrite le64_length.
Qed.

Lemma in_load_spec b off z : head_ok b -> (off + 8 <= 24)%nat -> 0 <= z < 2 ^ 64 -> slice b.(in_head) off 8 = le64 z -> in_load b off = Some z.
Proof. intros Hb Ho Hz E. unfold in_load, head_ok in *. rewrite mem_read_slice by lia. cbn [mbind option_bind]. by rewrite E, le64_val. Qed.

(** ** The tag *)

Lemma tag_step tag o : 0 <= tag < 2 ^ 56 -> byte_ok o -> Z.lor (u64 (Z.shiftl tag 8)) o = tag * 256 + o /\ (Z.land (tag * 256 + o) LBER_MORE_TAG_MASK =? 0) = (o <? 128).
Proof.
  intros Ht Ho. unfold byte_ok in Ho. rewrite (uwrap_small 64) by (rewrite Z.shiftl_mul_pow2; lia). rewrite lor_shiftl_low by lia. change (2 ^ 8) with 256. split; [done|].
  unfold LBER_MORE_TAG_MASK. rewrite land_high_bit, Z.add_comm, Z.mod_add, (Z.mod_small o) by lia. done.
Qed.

Lemma pow256_le i : (i <= 7)%nat -> 256 ^ Z.of_nat i <= 2 ^ 56.
Proof. intros. change (2 ^ 56) with (256 ^ 7). apply Z.pow_le_mono_r; lia. Qed.

(** All octets of a tag are there, or the first few. *)
Lemma tag_rest_spec s : forall i tag t extra n, parse_big_tag tag s = Some (t, []) -> bytes_ok s -> (1 <= i)%nat -> (length s + i <= 8)%nat -> 0 <= tag < 256 ^ Z.of_nat i ->
  tag_rest (s ++ extra) i tag = Some (t, (i + length s - 1)%nat) /\ ((n < length s)%nat -> exists x, tag_rest (take n s) i tag = Some (x, (i + n - 1)%nat)).
Proof.
  induction s as [|o s IH]; intros i tag t extra n Hp Hs Hi Hl Ht; [done|]. cbn [length] in Hl. apply bytes_ok_cons in Hs as [Ho Hs].
  pose proof (pow256_le i ltac:(lia)) as Hpow. destruct (tag_step tag o ltac:(lia) Ho) as [E1 E2]. cbn [app tag_rest parse_big_tag length] in *.
  rewrite E1, E2. destruct (o <? 128).
  { injection Hp as -> ->. split; [do 2 f_equal; cbn; lia|]. cbn [length]. intros Hn. destruct n as [|n]; [|lia]. exists tag. cbn [take tag_rest]. do 2 f_equal. lia. }
  destruct (tag * 256 + o <? 2 ^ 56); [|done]. unfold sizeof_ber_tag_t.
  destruct s as [|o' s]; [done|]. cbn [length] in *. rewrite (proj2 (Nat.eqb_neq i (8 - 1))) by lia.
  assert (0 <= tag * 256 + o < 256 ^ Z.of_nat (S i)) as Hr by (rewrite pow256_S; unfold byte_ok in Ho; lia).
  split.
  - destruct (IH (S i) _ t extra 0%nat Hp Hs ltac:(lia) ltac:(lia) Hr) as [-> _]. do 2 f_equal. lia.
  - intros Hn. destruct n as [|n]; [exists tag; cbn [take tag_rest]; do 2 f_equal; lia|]. cbn [take tag_rest]. rewrite E1, E2.
    unfold sizeof_ber_tag_t. rewrite (proj2 (Nat.eqb_neq i (8 - 1))) by lia. destruct (IH (S i) _ t extra n Hp Hs ltac:(lia) ltac:(lia) Hr) as [_ [x Hx]]; [lia|]. exists x. cbn [take] in Hx. rewrite Hx. do 2 f_equal. lia.
Qed.

Lemma big_tag_range s : forall tag t r, parse_big_tag tag s = Some (t, r) -> bytes_ok s -> 0 <= tag < 2 ^ 56 -> 0 <= t < 2 ^ 64 - 1.
Proof.
  induction s as [|o s IH]; intros tag t r Hp Hs Ht; [done|]. apply bytes_ok_cons in Hs as [Ho Hs]. unfold byte_ok in Ho. cbn [parse_big_tag] in Hp.
  destruct (Z.ltb_spec o 128); [injection Hp as <- <-; lia|]. destruct (Z.ltb_spec (tag * 256 + o) (2 ^ 56)); [|done]. eapply IH; [done..|lia].
Qed.

(** ** One element *)

Section element.
Context `{Heap} `{Stream T}.
Context (max_incoming t : Z) (tg lo c rest : list Z).

(** The octets of an element that the function can take in: an identifier and a
    length of at most nine octets, four of them for the number, and contents. If the
    element is shorter than eight octets nothing may follow it, for so many are read
    at first. *)
Record element_ok : Prop := {
  el_bytes : bytes_ok (tg ++ lo ++ c);
  el_tag : parse_tag tg = Some (t, []);
  el_len : parse_len lo = Some (Z.of_nat (length c), []);
  el_header : (length tg + length lo <= 9)%nat;
  el_lenlen : (length lo <= 5)%nat;
  el_contents : c <> [];
  el_max : max_incoming = 0 \/ Z.of_nat (length c) <= max_incoming;
  el_short : (8 <= length (tg ++ lo ++ c))%nat \/ rest = [];
}.

Hypothesis grants : forall k, heap_grants k = true.
Hypothesis Hel : element_ok.

Let m := tg ++ lo ++ c.

Lemma tg_parts : 0 <= t < 2 ^ 64 - 1 /\ exists o s, tg = o :: s /\ byte_ok o /\ bytes_ok s /\
  if o mod 32 =? 31 then parse_big_tag o s = Some (t, []) else s = [] /\ t = o.
Proof.
  destruct Hel as [Hb Ht _ _ _ _ _ _]. apply bytes_ok_app in Hb as [Hb _]. destruct tg as [|o s]; [done|]. apply bytes_ok_cons in Hb as [Ho Hs]. cbn [parse_tag] in Ht.
  split; [|exists o, s; split; [done|]; split; [done|]; split; [done|]; destruct (o mod 32 =? 31); [done|by injection Ht as -> ->]].
  unfold byte_ok in Ho. destruct (o mod 32 =? 31); [eapply big_tag_range; [done..|lia]|injection Ht as <- _; lia].
Qed.

Lemma lo_parts : exists o s, lo = o :: s /\ byte_ok o /\ bytes_ok s /\
  if o <? 128 then s = [] /\ o = Z.of_nat (length c) else Z.of_nat (length s) = o - 128 /\ be_val s = Z.of_nat (length c).
Proof.
  destruct Hel as [Hb _ Hl _ _ _ _ _]. apply bytes_ok_app in Hb as [_ Hb]. apply bytes_ok_app in Hb as [Hb _].
  destruct lo as [|o s]; [done|]. exists o, s. split; [done|]. apply bytes_ok_cons in Hb as [Ho Hs]. split; [done|]. split; [done|]. cbn [parse_len] in Hl.
  destruct (Z.ltb_spec o 128); [by injection Hl as -> ->|].
  destruct ((o - 128 =? 0) || (8 <? o - 128) || (Z.of_nat (length s) <? o - 128)) eqn:E; [done|]. apply orb_false_iff in E as [E E3]. apply orb_false_iff in E as [E1 E2]. zb. injection Hl as Hv Hd.
  assert (length s <= Z.to_nat (o - 128))%nat by (apply (f_equal length) in Hd; rewrite length_drop in Hd; cbn in Hd; lia).
  split; [lia|]. by rewrite take_ge in Hv by lia.
Qed.

(** ** The states *)

Definition header_size : nat := length tg + length lo.

(** The tag has been read and stored. *)
Definition tag_read (b : BerInput) (k : nat) : Prop :=
  (length tg <= k)%nat /\ b.(in_ptr) = Head (7 + length tg) /\ slice b.(in_head) 0 8 = le64 t /\
  slice b.(in_head) (7 + length tg) (k - length tg) = drop (length tg) (take k m).

(** [k] octets of the header have been read. *)
Definition in_header (b : BerInput) (k : nat) : Prop :=
  head_ok b /\ b.(in_buf) = None /\ b.(in_rwptr) = Some (Head (7 + k)) /\ (k < header_size)%nat /\ (k <= 8)%nat /\
  ((b.(in_ptr) = Head 7 /\ slice b.(in_head) 7 k = take k m) \/ tag_read b k).

(** The words that describe the element. *)
Definition described (b : BerInput) : Prop :=
  head_ok b /\ in_load b at_ber_tag = Some t /\ in_load b at_ber_len = Some (Z.of_nat (length c)) /\ in_load b at_ber_usertag = Some 0 /\
  b.(in_ptr) = Buf 0 /\ b.(in_end) = length c.

(** The first [j] octets of the contents are in the buffer. *)
Definition in_contents (b : BerInput) (j : nat) : Prop :=
  described b /\ b.(in_rwptr) = Some (Buf j) /\ (j < length c)%nat /\
  exists v, b.(in_buf) = Some (take j c ++ v ++ [0]) /\ (j + length v = length c)%nat.

Definition taken_in (b : BerInput) : Prop := described b /\ b.(in_buf) = Some (c ++ [0]).

(** Where things are after [k] octets of the element. *)
Definition fresh (b : BerInput) : Prop := head_ok b /\ b.(in_buf) = None /\ b.(in_rwptr) = None.
Definition reading (b : BerInput) (k : nat) : Prop :=
  (k = 0%nat /\ fresh b) \/ in_header b k \/ ((header_size <= k)%nat /\ in_contents b (k - header_size)).

(** ** Parsing the header *)

(** The tag is read, or is yet to be read. *)
Definition tag_state (b : BerInput) (k : nat) : Prop :=
  (b.(in_ptr) = Head 7 /\ slice b.(in_head) 7 k = take k m) \/ tag_read b k.

(** All but the head and the pointer are left alone. *)
Definition same_rest (b b' : BerInput) : Prop :=
  b'.(in_options) = b.(in_options) /\ b'.(in_buf) = b.(in_buf) /\ b'.(in_end) = b.(in_end) /\ b'.(in_rwptr) = b.(in_rwptr) /\ head_ok b'.

Lemma store_tag b k : head_ok b -> slice b.(in_head) 7 k = take k m -> (length tg <= k)%nat -> exists b',
  (b ← in_store b at_ber_tag t; Some (Next, at_ptr b (Head (7 + length tg)))) = Some (Next, b') /\ tag_read b' k /\ same_rest b b'.
Proof.
  intros Hb Hs Hk. destruct tg_parts as (Ht & o & s & Etg & _). destruct (in_store_spec b at_ber_tag t Hb ltac:(unfold at_ber_tag; lia) ltac:(lia)) as (head & -> & Hh & Ht' & Hout). cbn [mbind option_bind].
  eexists. split; [done|]. split; [|by unfold same_rest, head_ok]. unfold tag_read, at_ptr. cbn [in_ptr in_head]. do 2 (split; [done|]). split; [done|].
  rewrite Hout by (right; rewrite Etg; unfold at_ber_tag; cbn [length]; lia). rewrite <- Hs, slice_drop. done.
Qed.

Lemma header_tag_spec b k : head_ok b -> tag_state b k -> (1 <= k <= 9)%nat ->
  (header_tag b (7 + k) = Some (Failed EWOULDBLOCK, b) /\ (k <= length tg)%nat) \/
  exists b', header_tag b (7 + k) = Some (Next, b') /\ tag_read b' k /\ same_rest b b'.
Proof.
  intros Hb Hst Hk. unfold header_tag. change (at_ber_len - 1)%nat with 7%nat.
  destruct Hst as [[Hp Hs]|Ht].
  2: { right. exists b. destruct Ht as (Hk1 & Hp & Ht). rewrite bool_decide_eq_false_2; [done|]. rewrite Hp. intros [= E]. destruct tg_parts as (_ & o & s & Etg & _). rewrite Etg in E. cbn in E. lia. }
  rewrite bool_decide_eq_true_2 by done. cbn [negb]. destruct tg_parts as (Ht & o & s & Etg & Ho & Hs' & Hcase). change at_ber_len with 8%nat.
  assert (take k m = o :: take (k - 1) (s ++ lo ++ c)) as Em by (unfold m; rewrite Etg; destruct k; [lia|]; cbn; by rewrite Nat.sub_0_r).
  rewrite Em in Hs. pose proof (slice_head _ _ _ _ _ Hs) as [-> Hs2]. cbn [mbind option_bind].
  assert (Z.land o LBER_BIG_TAG_MASK = o mod 32) as -> by (exact (land_ones_mod o 5 ltac:(lia))). change LBER_BIG_TAG_MASK with 31.
  rewrite <- Em in Hs. destruct (Z.eqb_spec (o mod 32) 31) as [Eo|Eo].
  - replace (7 + k - 8)%nat with (k - 1)%nat by lia. rewrite mem_read_slice by (rewrite Hb; lia). cbn [mbind option_bind]. rewrite Hs2.
    unfold byte_ok in Ho. assert (length s + 1 <= 8)%nat as Hl. { destruct Hel as [_ _ _ Hh _ _ _ _]. rewrite Etg in Hh. destruct lo_parts as (o' & s' & -> & _). cbn [length] in Hh. lia. }
    destruct (tag_rest_spec s 1 o t (take (k - 1 - length s) (lo ++ c)) (k - 1) Hcase Hs' ltac:(lia) ltac:(lia) ltac:(change (256 ^ Z.of_nat 1) with 256; lia)) as [F1 F2].
    destruct (Nat.lt_ge_cases (k - 1) (length s)) as [Hlt|Hge].
    + rewrite take_app_le by lia. destruct (F2 Hlt) as [x ->]. rewrite (proj2 (Nat.eqb_eq _ _)) by lia. left. split; [done|]. rewrite Etg. cbn [length]. lia.
    + rewrite take_app, (take_ge s) by lia. rewrite F1. destruct (Nat.eqb_spec (8 + (1 + length s - 1)) (7 + k)) as [E|E].
      * left. split; [done|]. rewrite Etg. cbn [length]. lia.
      * right. replace (8 + (1 + length s - 1))%nat with (7 + length tg)%nat by (rewrite Etg; cbn [length]; lia). apply store_tag; [done|done|rewrite Etg; cbn [length]; lia].
  - right. destruct Hcase as [-> Eto]. rewrite <- Eto. change (8)%nat with (7 + length [o])%nat. rewrite <- Etg. apply store_tag; [done|done|rewrite Etg; cbn; lia].
Qed.

(** From the end of the tag on, the octets that have been read. *)
Definition tail_read (b : BerInput) (k : nat) : Prop :=
  slice b.(in_head) (7 + length tg) (k - length tg) = take (k - length tg) (lo ++ c).

Lemma tag_read_tail b k : tag_read b k -> tail_read b k.
Proof.
  intros (Hk & _ & _ & Hs). unfold tail_read. rewrite Hs, skipn_firstn_comm. unfold m. by rewrite drop_app_length.
Qed.

Lemma be_octets_spec s : forall i n, bytes_ok s -> 0 <= n < 256 ^ Z.of_nat i -> (i + length s <= 7)%nat -> be_octets n s = foldl (fun a b => a * 256 + b) n s.
Proof.
  unfold be_octets. induction s as [|o s IH]; intros i n Hs Hn Hl; [done|]. apply bytes_ok_cons in Hs as [Ho Hs]. cbn [foldl length] in *.
  pose proof (pow256_le i ltac:(lia)). destruct (tag_step n o ltac:(lia) Ho) as [-> _]. unfold byte_ok in Ho. apply (IH (S i)); [done|rewrite pow256_S; lia|lia].
Qed.

Lemma header_length_spec b k : head_ok b -> tag_read b k -> (length tg < k <= 9)%nat ->
  (header_length b (7 + length tg) (7 + k) = Some (Failed EWOULDBLOCK, ((7 + length tg)%nat, 0)) /\ (k < header_size)%nat) \/
  (header_length b (7 + length tg) (7 + k) = Some (Next, ((7 + header_size)%nat, Z.of_nat (length c))) /\ (header_size <= k)%nat).
Proof.
  intros Hb Ht Hk. pose proof (tag_read_tail b k Ht) as Hs. unfold tail_read in Hs. destruct lo_parts as (o & s & Elo & Ho & Hsb & Hcase).
  assert (take (k - length tg) (lo ++ c) = o :: take (k - length tg - 1) (s ++ c)) as Em.
  { rewrite Elo. destruct (k - length tg)%nat eqn:E; [lia|]. cbn. by rewrite Nat.sub_0_r. }
  rewrite Em in Hs. pose proof (slice_head _ _ _ _ _ Hs) as [Hl Hs2]. unfold header_length, header_size. rewrite Hl. cbn [mbind option_bind].
  rewrite land_high_bit. unfold byte_ok in Ho. rewrite (Z.mod_small o) by lia. destruct (Z.ltb_spec o 128) as [Hlt|Hge]; cbn [negb].
  - destruct Hcase as [-> Eo]. right. rewrite Elo, Eo. cbn [length]. split; [do 4 f_equal; lia|lia].
  - destruct Hcase as [Els Hv]. assert (Z.land o 127 = o - 128) as ->.
    { change 127 with (2 ^ 7 - 1). rewrite land_ones_mod by lia. change (2 ^ 7) with 128. Z.div_mod_to_equations; lia. }
    destruct Hel as [_ _ _ _ Hll _ _ _]. rewrite Elo in *. cbn [length] in *. unfold LENSIZE.
    destruct (Nat.ltb_spec 4 (Z.to_nat (o - 128))); [lia|].
    destruct (Z.ltb_spec (Z.of_nat (7 + k) - Z.of_nat (S (7 + length tg))) (Z.of_nat (Z.to_nat (o - 128)))); [left; split; [done|lia]|].
    right. split; [|lia]. replace (Z.to_nat (o - 128)) with (length s) by lia.
    rewrite mem_read_slice by (rewrite Hb; lia). cbn [mbind option_bind].
    rewrite <- (slice_take _ _ (k - length tg - 1)) by lia.
    rewrite Hs2, take_take, Nat.min_l, take_app_length by lia. rewrite (be_octets_spec s 0 0) by (done || lia). fold (be_val s). rewrite Hv. do 3 f_equal. lia.
Qed.

(** ** Making the buffer *)

Lemma contents_size : 0 < Z.of_nat (length c) < 2 ^ 32.
Proof.
  destruct lo_parts as (o & s & Elo & Ho & Hs & Hcase). destruct Hel as [_ _ _ _ Hl Hc _ _]. rewrite Elo in Hl. cbn [length] in Hl. unfold byte_ok in Ho.
  split; [destruct c; [done|cbn [length]; lia]|]. destruct (o <? 128); [destruct Hcase as [_ Eo]; lia|]. destruct Hcase as [_ Hv]. pose proof (be_val_bound s Hs) as Hb. rewrite Hv in Hb.
  assert (256 ^ Z.of_nat (length s) <= 256 ^ 4) by (apply Z.pow_le_mono_r; lia). change (256 ^ 4) with (2 ^ 32) in *. lia.
Qed.

Lemma header_range : (2 <= header_size <= 9)%nat.
Proof.
  unfold header_size. destruct tg_parts as (_ & o & s & Etg & _), lo_parts as (o' & s' & Elo & _). destruct Hel as [_ _ _ Hh _ _ _ _]. rewrite Elo, Etg in *. cbn [length] in *. lia.
Qed.

Lemma split_junk (l : list Z) j n : length l = (n + 1)%nat -> (j <= n)%nat -> exists x v z, l = x ++ v ++ [z] /\ length x = j /\ (j + length v = n)%nat.
Proof.
  intros Hl Hj. destruct (exists_last (l := l)) as (l0 & z & ->); [destruct l; [cbn in Hl; lia|done]|]. rewrite length_app in Hl. cbn in Hl.
  exists (take j l0), (drop j l0), z. rewrite app_assoc, take_drop, length_take, length_drop. split; [done|]. lia.
Qed.

Lemma header_buffer_spec b k p : head_ok b -> b.(in_buf) = None -> p = (7 + k)%nat -> (header_size <= k <= 9)%nat -> (k - header_size <= length c)%nat ->
  slice b.(in_head) 0 8 = le64 t -> slice b.(in_head) 8 8 = le64 (Z.of_nat (length c)) ->
  exists b', (header_buffer b (Z.of_nat (length c)) p (7 + k) (take (k - header_size) c) = Some (Complete, b') /\ (k - header_size = length c)%nat /\ taken_in b') \/
    (header_buffer b (Z.of_nat (length c)) p (7 + k) (take (k - header_size) c) = Some (Next, b') /\ in_contents b' (k - header_size)).
Proof.
  intros Hb Hbuf -> Hk Hj Ht Hlen. set (j := (k - header_size)%nat) in *. pose proof contents_size as Hc. unfold header_buffer. rewrite Hbuf, Nat.sub_diag, Nat.add_0_r.
  assert (length (take j c) = j) as Lj by (rewrite length_take; lia). rewrite Lj. rewrite (proj2 (Z.ltb_ge _ _)) by lia. rewrite (uwrap_small 64) by lia.
  rewrite ber_memalloc_grants by (done || lia). cbn [negb]. rewrite Nat2Z.id.
  destruct (split_junk (heap_junk (length c + 1)) j (length c) ltac:(by rewrite heap_junk_length) Hj) as (x & v & z & -> & Lx & Lv).
  change (x ++ v ++ [z]) with ([] ++ x ++ v ++ [z]). rewrite mem_write_app by (cbn; lia). cbn [mbind option_bind app].
  rewrite mem_read_slice by (rewrite Hb; lia). cbn [mbind option_bind]. change (slice (in_head b) (7 + k) 0) with (@nil Z).
  assert (mem_write (take j c ++ v ++ [z]) j [] = Some (take j c ++ v ++ [z])) as ->.
  { pose proof (mem_write_app (take j c) [] (v ++ [z]) [] j ltac:(by rewrite Lj) eq_refl) as E. exact E. }
  cbn [mbind option_bind]. rewrite (app_assoc (take j c) v [z]). rewrite <- (app_nil_r [z]). rewrite mem_write_app by (rewrite ?length_app, ?Lj; cbn; lia). cbn [mbind option_bind]. rewrite app_nil_r.
  set (b1 := mkIn (in_options b) (in_head b) (Some ((take j c ++ v) ++ [0])) (Buf 0) (length c) (in_rwptr b)).
  destruct (in_store_spec b1 at_ber_usertag 0) as (head & E & Hh & Hu & Hout); [exact Hb|unfold at_ber_usertag; lia|lia|]. rewrite E. cbn [mbind option_bind in_head in_options in_buf in_ptr in_end in_rwptr b1].
  assert (forall r, described (mkIn (in_options b) head (Some ((take j c ++ v) ++ [0])) (Buf 0) (length c) r)) as Hd.
  { destruct tg_parts as (Htr & _). intros r. unfold described. do 3 (split; [first [exact Hh|apply in_load_spec; [exact Hh|vm_compute; lia|lia|cbn [in_head]; rewrite Hout by (left; vm_compute; lia); done]]|]).
    split; [apply in_load_spec; [exact Hh|vm_compute; lia|lia|exact Hu]|done]. }
  destruct (Z.eqb_spec (Z.of_nat j) (Z.of_nat (length c))) as [Ej|Ej].
  - eexists. left. split; [done|]. split; [lia|]. split; [apply Hd|]. cbn [in_buf]. destruct v; [|cbn in Lv; lia]. by rewrite app_nil_r, take_ge by lia.
  - eexists. right. split; [done|]. split; [apply Hd|]. split; [done|]. split; [lia|]. exists v. cbn [in_buf at_rwptr]. rewrite <- app_assoc. split; [done|lia].
Qed.

Lemma header_contents_spec b k : head_ok b -> b.(in_buf) = None -> tag_read b k -> (header_size <= k <= 9)%nat -> (k - header_size <= length c)%nat ->
  exists b', (header_contents max_incoming b (Z.of_nat (length c)) (7 + header_size) (7 + k) = Some (Complete, b') /\ (k - header_size = length c)%nat /\ taken_in b') \/
    (header_contents max_incoming b (Z.of_nat (length c)) (7 + header_size) (7 + k) = Some (Next, b') /\ in_contents b' (k - header_size)).
Proof.
  intros Hb Hbuf Ht Hk Hj. pose proof header_range as Hr. pose proof contents_size as Hc. pose proof (tag_read_tail b k Ht) as Hs. destruct Ht as (_ & _ & Ht & _). unfold tail_read in Hs. unfold header_contents.
  set (p := (7 + header_size)%nat). set (sblen := if (p <? at_ber_usertag)%nat then _ else _).
  assert (sblen = (k - header_size)%nat) as E.
  { unfold sblen, p, at_ber_usertag. destruct (Nat.ltb_spec (7 + header_size) 16), (Nat.ltb_spec (7 + k) 16); lia. }
  rewrite E. rewrite (proj2 (Nat.ltb_ge _ _)) by (unfold sizeof_ber_tag_t; lia). rewrite mem_read_slice by (rewrite Hb; unfold p; lia). cbn [mbind option_bind].
  assert (slice (in_head b) p (k - header_size) = take (k - header_size) c) as ->.
  { apply (f_equal (drop (length lo))) in Hs. rewrite slice_drop in Hs. unfold header_size in *. replace p with (7 + length tg + length lo)%nat by (unfold p; lia).
    replace (k - (length tg + length lo))%nat with (k - length tg - length lo)%nat by lia. rewrite Hs, skipn_firstn_comm. by rewrite drop_app_length. }
  destruct (in_store_spec (at_ptr b (Head (p + (k - header_size)))) at_ber_len (Z.of_nat (length c)) Hb) as (head & -> & Hh & Hl & Hout); [vm_compute; lia|lia|].
  cbn [mbind option_bind in_options in_head in_buf in_ptr in_end in_rwptr at_ptr]. rewrite (proj2 (Z.eqb_neq _ _)) by lia.
  destruct Hel as [_ _ _ _ _ _ Hm _]. destruct (negb (max_incoming =? 0) && (Z.of_nat (length c) >? max_incoming)) eqn:Em.
  { exfalso. apply andb_true_iff in Em as [E1 E2]. apply negb_true_iff in E1. rewrite Z.gtb_ltb in E2. zb. lia. }
  apply header_buffer_spec; cbn [in_head in_buf]; [exact Hh|done|unfold p; lia|lia|lia|rewrite Hout by (left; vm_compute; lia); done|exact Hl].
Qed.

(** After a read. *)
Lemma header_parse_spec b k : head_ok b -> b.(in_buf) = None -> b.(in_rwptr) = Some (Head (7 + k)) -> tag_state b k -> (1 <= k <= 9)%nat -> (k <= length m)%nat ->
  exists b', (header_parse max_incoming b (7 + k) = Some (Failed EWOULDBLOCK, b') /\ in_header b' k) \/
    (header_parse max_incoming b (7 + k) = Some (Complete, b') /\ k = length m /\ taken_in b') \/
    (header_parse max_incoming b (7 + k) = Some (Next, b') /\ (header_size <= k)%nat /\ in_contents b' (k - header_size)).
Proof.
  intros Hb Hbuf Hrw Hst Hk Hm. pose proof header_range as Hr. unfold header_parse. assert (length m = header_size + length c)%nat as Lm by (unfold m, header_size; rewrite !length_app; lia).
  destruct (header_tag_spec b k Hb Hst Hk) as [[-> Hkt]|(b1 & -> & Ht1 & (S1 & S2 & S3 & S4 & S5))]; cbn [mbind option_bind].
  - exists b. left. split; [done|]. assert (k < header_size)%nat by (destruct lo_parts as (? & ? & Elo & _); unfold header_size; rewrite Elo; cbn [length]; lia).
    do 3 (split; [done|]). split; [done|]. split; [lia|]. exact Hst.
  - pose proof Ht1 as (Hkt & Hp & _). rewrite Hp.
    assert ((k < header_size)%nat -> in_header b1 k) as Hin.
    { intros. split; [done|]. split; [congruence|]. split; [congruence|]. split; [done|]. split; [lia|]. by right. }
    destruct (Nat.eqb_spec (7 + length tg) (7 + k)) as [E|E].
    { exists b1. left. split; [done|]. apply Hin. destruct lo_parts as (? & ? & Elo & _). unfold header_size. rewrite Elo. cbn [length]. lia. }
    destruct (header_length_spec b1 k S5 Ht1 ltac:(lia)) as [[-> Hlt]|[-> Hge]]; cbn [mbind option_bind]; [exists b1; left; by split; [|apply Hin]|].
    destruct (header_contents_spec b1 k S5 ltac:(congruence) Ht1 ltac:(lia) ltac:(lia)) as (b2 & [(-> & Ek & Htk)|(-> & Hic)]); exists b2; right; [left; split; [done|]; split; [lia|done]|right; done].
Qed.

(** A turn of the loop reads some octets of the element, or nothing. *)
Lemma header_turn_spec b k (sb : T) : in_header b k -> stream_ok sb -> incoming sb = drop k m ++ rest ->
  exists r b' sb' k', header_turn max_incoming b (7 + k) sb = Some (r, b', sb') /\ stream_ok sb' /\ outgoing sb' = outgoing sb /\
    incoming sb' = drop k' m ++ rest /\ (k <= k' <= length m)%nat /\ (Responsive T -> (k < k')%nat) /\
    match r with
    | Failed _ => in_header b' k'
    | Complete => k' = length m /\ taken_in b'
    | Next => (header_size <= k')%nat /\ in_contents b' (k' - header_size)
    end.
Proof.
  intros (Hb & Hbuf & Hrw & Hk & Hk8 & Hst) Hok Hin. pose proof header_range as Hr. assert (length m = header_size + length c)%nat as Lm by (unfold m, header_size; rewrite !length_app; lia).
  pose proof contents_size as Hc. unfold header_turn. set (sblen := if _ <? 1 then _ else _).
  assert (Z.to_nat sblen = Nat.max 1 (8 - k)) as Esb by (unfold sblen, at_ber_len, LENSIZE; destruct (Z.ltb_spec (Z.of_nat (8 + 4 * 2 - 1) - Z.of_nat (7 + k)) 1); lia).
  rewrite Esb. destruct (read_law sb (Nat.max 1 (8 - k)) Hok ltac:(lia)) as (r & sb' & Er & Hok' & Hout & Hres). rewrite Er. cbn [mbind option_bind].
  destruct r as [[ret errno]|data].
  - destruct Hres as [_ Hin']. exists (Failed errno), b, sb', k. split; [done|]. split; [done|]. split; [done|]. split; [by rewrite Hin'|]. split; [lia|].
    split; [|repeat split; done]. intros Hresp. destruct (Hresp sb (Nat.max 1 (8 - k)) _ _ Hok ltac:(lia) ltac:(rewrite Hin; intros [Hn _]%app_nil; apply (f_equal length) in Hn; rewrite length_drop in Hn; cbn in Hn; lia) Er) as [? ?]. done.
  - destruct Hres as (Hd & Hdl & Hin'). rewrite Hin in Hin'.
    assert (length data <= length m - k)%nat as Hfit.
    { destruct Hel as [_ _ _ _ _ _ _ [H8|Hnil]]; [fold m in H8; destruct (Nat.le_gt_cases k 7); lia|]. apply (f_equal length) in Hin'. rewrite Hnil, !length_app, length_drop in Hin'. cbn in Hin'. lia. }
    assert (data = take (length data) (drop k m)) as Edata.
    { apply (f_equal (take (length data))) in Hin'. rewrite take_app_length, take_app_le in Hin' by (rewrite length_drop; lia). done. }
    assert (incoming sb' = drop (k + length data) m ++ rest) as Hrest.
    { apply (f_equal (drop (length data))) in Hin'. rewrite drop_app_length, drop_app_le, drop_drop in Hin' by (rewrite length_drop; lia). done. }
    destruct (mem_write_is_Some (in_head b) (7 + k) data ltac:(rewrite Hb; lia)) as [head Ew]. rewrite Ew. cbn [mbind option_bind].
    pose proof (mem_write_Some _ _ _ _ Ew) as (_ & Lh & _). rewrite <- Nat.add_assoc. set (k' := (k + length data)%nat) in *.
    set (b1 := mkIn _ _ _ _ _ _). assert (0 < length data)%nat by (destruct data; [done|cbn; lia]).
    assert (tag_state b1 k') as Hst1.
    { destruct Hst as [[Hp Hs]|(Ht1 & Hp & Ht2 & Hs)].
      - left. split; [done|]. cbn [in_head b1]. pose proof (slice_write_end _ _ _ _ 7 Ew ltac:(lia)) as Hsl. replace (7 + k - 7 + length data)%nat with k' in Hsl by lia. rewrite Hsl.
        replace (7 + k - 7)%nat with k by lia. rewrite Hs, Edata at 1. unfold k'. by rewrite take_take_drop.
      - right. split; [lia|]. split; [done|]. cbn [in_head b1]. split; [rewrite (slice_write_out _ _ _ _ 0 8 Ew) by (destruct tg_parts as (_ & ? & ? & Etg & _); rewrite Etg in Ht1; cbn [length] in Ht1; left; lia); done|].
        pose proof (slice_write_end _ _ _ _ (7 + length tg) Ew ltac:(lia)) as Hsl. replace (7 + k - (7 + length tg) + length data)%nat with (k' - length tg)%nat in Hsl by lia. rewrite Hsl.
        replace (7 + k - (7 + length tg))%nat with (k - length tg)%nat by lia. rewrite Hs, Edata at 1. unfold k'. rewrite <- take_take_drop, drop_app_le by (rewrite length_take; lia). done. }
    destruct (header_parse_spec b1 k' ltac:(unfold head_ok in *; cbn [in_head b1]; lia) Hbuf eq_refl Hst1 ltac:(lia) ltac:(lia)) as (b2 & [[-> Hx]|[(-> & Hx)|(-> & Hx)]]); cbn [mbind option_bind];
      (do 2 eexists; exists sb', k'; split; [done|]; split; [done|]; split; [done|]; split; [done|]; split; [lia|]; split; [lia|exact Hx]).
Qed.

Lemma length_element : length m = (header_size + length c)%nat.
Proof. unfold m, header_size. rewrite !length_app. lia. Qed.

Lemma drop_element j : drop (header_size + j) m = drop j c.
Proof. unfold m, header_size. rewrite app_assoc, drop_app_ge by (rewrite length_app; lia). f_equal. rewrite length_app. lia. Qed.

Lemma get_contents_spec errno b j (sb : T) : in_contents b j -> stream_ok sb -> incoming sb = drop (header_size + j) m ++ rest ->
  exists r b' sb' j', get_contents errno b sb = Some (r, b', sb') /\ stream_ok sb' /\ outgoing sb' = outgoing sb /\
    incoming sb' = drop (header_size + j') m ++ rest /\ (j <= j' <= length c)%nat /\ (Responsive T -> (j < j')%nat) /\
    match r with
    | Failed _ => in_contents b' j'
    | Complete => j' = length c /\ taken_in b'
    | Next => False
    end.
Proof.
  intros (Hd & Hrw & Hj & v & Hbuf & Lv) Hok Hin. pose proof length_element as Lm. destruct Hd as (Hh & Hd1 & Hd2 & Hd3 & Hptr & Hend).
  rewrite drop_element in Hin. unfold get_contents. rewrite Hrw, Hbuf, Hend. rewrite (proj2 (Nat.ltb_lt _ _)) by done.
  destruct (read_law sb (length c - j) Hok ltac:(lia)) as (r & sb' & Er & Hok' & Hout & Hres). rewrite Er. cbn [mbind option_bind].
  destruct r as [[ret e]|data].
  - destruct Hres as [_ Hin']. exists (Failed e), b, sb', j. split; [done|]. split; [done|]. split; [done|]. split; [by rewrite Hin', Hin, drop_element|]. split; [lia|]. split.
    + intros Hresp. destruct (Hresp sb (length c - j)%nat _ _ Hok ltac:(lia) ltac:(rewrite Hin; intros [Hn _]%app_nil; apply (f_equal length) in Hn; rewrite length_drop in Hn; cbn in Hn; lia) Er) as [? ?]. done.
    + unfold in_contents, described. split_and!; try done. by exists v.
  - destruct Hres as (Hne & Hdl & Hin'). rewrite Hin in Hin'. assert (0 < length data)%nat by (destruct data; [done|cbn; lia]).
    assert (data = take (length data) (drop j c)) as Edata.
    { apply (f_equal (take (length data))) in Hin'. rewrite take_app_length, take_app_le in Hin' by (rewrite length_drop; lia). done. }
    set (j' := (j + length data)%nat).
    assert (incoming sb' = drop (header_size + j') m ++ rest) as Hrest.
    { apply (f_equal (drop (length data))) in Hin'. rewrite drop_app_length, drop_app_le, drop_drop in Hin' by (rewrite length_drop; lia). by rewrite <- Hin', drop_element. }
    assert (take j c ++ v ++ [0] = take j c ++ take (length data) v ++ (drop (length data) v ++ [0])) as -> by (by rewrite (app_assoc (take _ v)), take_drop).
    rewrite mem_write_app by (rewrite ?length_take; lia). cbn [mbind option_bind].
    assert (take j c ++ data ++ drop (length data) v ++ [0] = take j' c ++ drop (length data) v ++ [0]) as ->.
    { rewrite app_assoc. f_equal. rewrite Edata at 1. unfold j'. by rewrite take_take_drop. }
    assert (forall p, described (mkIn (in_options b) (in_head b) p (in_ptr b) (length c) (Some (Buf (j + length data)))) ) as Hdesc by (intros; unfold described; split_and!; done).
    destruct (Nat.ltb_spec (length data) (length c - j)) as [Hlt|Hge].
    + do 2 eexists. exists sb', j'. split; [done|]. split; [done|]. split; [done|]. split; [done|]. split; [lia|]. split; [lia|]. cbn.
      split; [apply Hdesc|]. split; [done|]. split; [lia|]. exists (drop (length data) v). split; [done|]. rewrite length_drop. lia.
    + do 2 eexists. exists sb', j'. split; [done|]. split; [done|]. split; [done|]. split; [done|]. split; [lia|]. split; [lia|]. cbn. split; [lia|].
      split; [apply Hdesc|]. cbn [in_buf]. rewrite (take_ge c), (drop_ge v) by lia. done.
Qed.

Lemma header_loop_contents fuel b j (sb : T) : in_contents b j -> header_loop max_incoming fuel b sb = Some (Next, b, sb).
Proof. intros (_ & Hrw & _). by destruct fuel; cbn [header_loop]; rewrite Hrw. Qed.

Lemma header_loop_turn fuel b k (sb : T) : in_header b k -> header_loop max_incoming (S fuel) b sb =
  ('(r, b, sb) ← header_turn max_incoming b (7 + k) sb; match r with Next => header_loop max_incoming fuel b sb | _ => Some (r, b, sb) end).
Proof.
  intros (_ & _ & Hrw & Hk & Hk8 & _). cbn [header_loop]. rewrite Hrw. assert ((at_ber_tag <? 7 + k)%nat && (7 + k <? at_ber_len + LENSIZE * 2)%nat = true) as ->; [|done].
  apply andb_true_iff. unfold at_ber_tag, at_ber_len, LENSIZE. split; apply Nat.ltb_lt; lia.
Qed.

(** What a call comes to. *)
Definition call_result (k : nat) (sb : T) (res : option (Z * Z * option Z * BerInput * T)) : Prop :=
  exists b' sb' k', stream_ok sb' /\ outgoing sb' = outgoing sb /\ incoming sb' = drop k' m ++ rest /\ (k <= k' <= length m)%nat /\ (Responsive T -> (k < k')%nat) /\
    ((exists e, res = Some (LBER_DEFAULT, e, None, b', sb') /\ reading b' k' /\ (k' < length m)%nat) \/
     (res = Some (t, 0, Some (Z.of_nat (length c)), b', sb') /\ k' = length m /\ taken_in b' /\ b'.(in_rwptr) = None)).

Lemma finish_call (r : outcome) b (sb sb0 : T) k k' : stream_ok sb -> outgoing sb = outgoing sb0 -> incoming sb = drop k' m ++ rest -> (k <= k' <= length m)%nat -> (Responsive T -> (k < k')%nat) ->
  match r with Failed _ => reading b k' /\ (k' < length m)%nat | _ => k' = length m /\ taken_in b end ->
  call_result k sb0 (match r with
    | Failed errno => Some (LBER_DEFAULT, errno, None, b, sb)
    | _ => let b := at_rwptr b None in len ← in_load b at_ber_len; tag ← in_load b at_ber_tag; Some (tag, 0, Some len, b, sb)
    end).
Proof.
  intros Hok Hout Hin Hk Hresp Hr.
  assert (k' = length m /\ taken_in b -> call_result k sb0 (let b := at_rwptr b None in len ← in_load b at_ber_len; tag ← in_load b at_ber_tag; Some (tag, 0, Some len, b, sb))) as Hdone.
  { intros (Ek & Hd & Hb). cbv zeta. pose proof Hd as (_ & Ht & Hl & _). unfold in_load in Ht, Hl |- *. cbn [in_head at_rwptr]. rewrite Hl. cbn [mbind option_bind]. rewrite Ht. cbn [mbind option_bind].
    do 2 eexists. exists k'. do 3 (split; [done|]). split; [done|]. split; [done|]. right. split; [done|]. split; [done|]. done. }
  destruct r as [e| |]; [|by apply Hdone..]. exists b, sb, k'. do 5 (split; [done|]). left. by exists e.
Qed.

(** A call takes in a piece of the element, and gives it when it is complete. *)
Lemma get_next_call errno b k (sb : T) : reading b k -> stream_ok sb -> incoming sb = drop k m ++ rest ->
  call_result k sb (ber_get_next max_incoming errno sb b).
Proof.
  intros Hrd Hok Hin. pose proof header_range as Hr. pose proof length_element as Lm. pose proof contents_size as Hc. unfold ber_get_next.
  assert (exists b1, (match in_rwptr b with Some _ => Some b | None => match in_buf b with Some _ => None | None =>
     in_store (mkIn b.(in_options) b.(in_head) None (Head (at_ber_len - 1)) b.(in_end) (Some (Head (at_ber_len - 1)))) at_ber_tag 0 end end) = Some b1 /\
     (in_header b1 k \/ ((header_size <= k)%nat /\ in_contents b1 (k - header_size)))) as (b1 & -> & Hst).
  { destruct Hrd as [[-> (Hh & Hbuf & Hrw)]|[Hhd|[Hk Hic]]].
    - rewrite Hrw, Hbuf. destruct (in_store_spec (mkIn b.(in_options) b.(in_head) None (Head (at_ber_len - 1)) b.(in_end) (Some (Head (at_ber_len - 1)))) at_ber_tag 0 Hh ltac:(vm_compute; lia) ltac:(lia)) as (head & -> & Lh & _).
      eexists. split; [done|]. left. split; [done|]. do 2 (split; [done|]). split; [lia|]. split; [lia|]. by left.
    - pose proof Hhd as (_ & _ & Hrw & _). rewrite Hrw. by exists b; split; [|left].
    - pose proof Hic as (_ & Hrw & _). rewrite Hrw. by exists b; split; [|right]. }
  cbn [mbind option_bind]. destruct Hst as [Hhd|[Hk Hic]].
  - rewrite (header_loop_turn 15 b1 k sb Hhd).
    destruct (header_turn_spec b1 k sb Hhd Hok Hin) as (r & b2 & sb2 & k2 & -> & Hok2 & Hout2 & Hin2 & Hk2 & Hresp2 & Hr2). cbn [mbind option_bind].
    destruct r as [e| |]; cbn [mbind option_bind].
    + apply (finish_call (Failed e) b2 sb2 sb k k2); try done. split; [by right; left|]. destruct Hr2 as (_ & _ & _ & ? & _). lia.
    + by apply (finish_call Complete b2 sb2 sb k k2).
    + destruct Hr2 as [Hk3 Hic]. rewrite (header_loop_contents 15 b2 _ sb2 Hic). cbn [mbind option_bind].
      destruct (get_contents_spec errno b2 _ sb2 Hic Hok2) as (r & b3 & sb3 & j3 & -> & Hok3 & Hout3 & Hin3 & Hj3 & Hresp3 & Hr3); [rewrite Hin2; do 2 f_equal; lia|]. cbn [mbind option_bind].
      apply (finish_call r b3 sb3 sb k (header_size + j3)); [done|congruence|done|lia|intros Hrs; specialize (Hresp2 Hrs); lia|].
      destruct r as [e| |]; [|destruct Hr3; split; [lia|done]|done]. split; [right; right; split; [lia|by replace (header_size + j3 - header_size)%nat with j3 by lia]|]. destruct Hr3 as (_ & _ & ? & _). lia.
  - rewrite (header_loop_contents 16 b1 _ sb Hic). cbn [mbind option_bind].
    destruct (get_contents_spec errno b1 _ sb Hic Hok) as (r & b3 & sb3 & j3 & -> & Hok3 & Hout3 & Hin3 & Hj3 & Hresp3 & Hr3); [rewrite Hin; do 2 f_equal; lia|]. cbn [mbind option_bind].
    apply (finish_call r b3 sb3 sb k (header_size + j3)); [done|congruence|done|lia|intros Hrs; specialize (Hresp3 Hrs); lia|].
    destruct r as [e| |]; [|destruct Hr3; split; [lia|done]|done]. split; [right; right; split; [lia|by replace (header_size + j3 - header_size)%nat with j3 by lia]|]. destruct Hr3 as (_ & _ & ? & _). lia.
Qed.

(** The element that is taken in, as the decoder sees it. *)
Lemma taken_in_element b : bytes_ok c -> taken_in b -> b.(in_rwptr) = None -> exists e, input_element b = Some e /\ ber_options e = b.(in_options) /\ ber_view e = c /\ ber_rok e.
Proof.
  intros Hc [(Hh & Ht & Hl & Hu & Hp & He) Hb] Hrw. pose proof contents_size. unfold input_element. rewrite Ht. cbn [mbind option_bind]. rewrite Hl. cbn [mbind option_bind]. rewrite Hu. cbn [mbind option_bind]. rewrite Hb, Hp, Hrw, He.
  eexists. split; [done|]. split; [done|]. split.
  - unfold ber_view, ber_emem. cbn [ber_ptr ber_mem ber_end ber_tag]. rewrite decide_True by done. by rewrite Nat.sub_0_r, drop_0, take_app_length.
  - split; cbn [ber_mem ber_ptr ber_end ber_tag]; rewrite ?length_app; cbn [length]; try lia; try done. apply bytes_ok_app. split; [done|]. repeat constructor; unfold byte_ok; lia.
Qed.

End element.
