(* ===== verification/BerNetTheorems.v ===== *)
(** * Elements on the network: the theorems

    An element passes a connection whole, however the octets are cut on the way. *)

From stdpp Require Import base list numbers option.
From Stdlib Require Import Ascii.
From S2P Require Import Prelude Ber BerEncode BerWriter BerValue BerDecode BerScan BerRead BerRoundtrip Sockbuf BerNet BerNetFacts.

Local Open Scope Z_scope.

(** ** Formatting does not touch the cursor of the network *)

Definition keeps {A} (p : option nat) (get : A -> BerElement) (r : option A) : Prop :=
  match r with Some x => (get x).(ber_rwptr) = p | None => True end.

Lemma keeps_bind {A B} p (get : A -> BerElement) (get' : B -> BerElement) (r : option A) f :
  keeps p get r -> (forall x, (get x).(ber_rwptr) = p -> keeps p get' (f x)) -> keeps p get' (r ≫= f).
Proof. destruct r; cbn; auto. Qed.

Lemma keeps_any {A B} p (get' : B -> BerElement) (r : option A) f : (forall x, keeps p get' (f x)) -> keeps p get' (r ≫= f).
Proof. destruct r; cbn; auto. Qed.

Ltac keep_step := repeat first [ done | case_match | progress intros | progress simplify_eq/= ]; try done; try congruence.

Section keeps.
Context `{Heap}.

Lemma realloc_keeps b len : (ber_realloc b len).2.(ber_rwptr) = b.(ber_rwptr).
Proof. unfold ber_realloc. keep_step. Qed.

Lemma grow_keeps (c : bool) b len : ((if c then ber_realloc b len else (0, b)).2).(ber_rwptr) = b.(ber_rwptr).
Proof. destruct c; [apply realloc_keeps|done]. Qed.

Lemma write_keeps b buf z : keeps b.(ber_rwptr) snd (ber_write b buf z).
Proof.
  unfold ber_write. destruct (negb (z =? 0)); [done|]. pose proof (grow_keeps (Z.of_nat (length buf) >? u64 (Z.of_nat (ber_end b) - Z.of_nat (ber_cursor b))) b (Z.of_nat (length buf))) as Hg.
  destruct (if _ >? _ then _ else _) as [rc b1]. cbn [snd] in Hg. destruct (negb (rc =? 0)); [done|]. apply keeps_any. intros mem. cbn. unfold set_cursor. by destruct (ber_sos_ptr _).
Qed.

Lemma ostring_keeps b str tag : keeps b.(ber_rwptr) snd (ber_put_ostring b str tag).
Proof.
  unfold ber_put_ostring. destruct (_ >? _); [done|]. eapply keeps_bind; [apply write_keeps|]. intros [rc b1] E. cbn [snd] in E. destruct (rc >=? 0); [|done].
  rewrite <- E. eapply keeps_bind; [apply write_keeps|]. intros [rc2 b2] E2. by destruct (rc2 >=? 0).
Qed.

Lemma start_keeps b tag : keeps b.(ber_rwptr) snd (ber_start_seqorset b tag).
Proof.
  unfold ber_start_seqorset. destruct (_ && _); [done|]. cbv zeta.
  set (hl := Z.of_nat (length (ber_prepend_tag [] tag)) + SOS_LENLEN). pose proof (grow_keeps (hl >? u64 (Z.of_nat (ber_end b) - Z.of_nat (ber_cursor b))) b hl) as Hg.
  destruct (if _ >? _ then _ else _) as [rc b1]. cbn [snd] in Hg. destruct (negb (rc =? 0)); [done|]. by apply keeps_any.
Qed.

Lemma put_sos_keeps b : keeps b.(ber_rwptr) snd (ber_put_seqorset b).
Proof.
  unfold ber_put_seqorset. destruct (ber_sos_ptr b); [|done]. cbv zeta. destruct (_ >? _); [done|]. apply keeps_any. intros hdr. apply keeps_any. intros [[mem xlen] sos]. cbn. by destruct (_ =? 0).
Qed.

Definition no_hook (a : parg) : Prop := match a with PHook _ => False | _ => True end.

(** The directives that [bval_fmt] uses. *)
Lemma printf_step_keeps c rc b args : In c ["t"; "i"; "e"; "b"; "n"; "o"; "{"; "}"; "["; "]"]%char -> Forall no_hook args ->
  match printf_step c rc b args with Some (_, b', args') => b'.(ber_rwptr) = b.(ber_rwptr) /\ Forall no_hook args' | None => True end.
Proof.
  intros Hc Ha.
  assert (forall (r : option (Z * BerElement)) args', keeps b.(ber_rwptr) snd r -> Forall no_hook args' ->
    match '(rc, b) ← r; Some (rc, with_tag b LBER_DEFAULT, args') with Some (_, b', args') => b'.(ber_rwptr) = b.(ber_rwptr) /\ Forall no_hook args' | None => True end) as Hput.
  { intros [[rc' b']|] args' Hk Hr; [|done]. cbn. split; [exact Hk|done]. }
  assert (forall a args', args = a :: args' -> Forall no_hook args') as Htl by (intros a args' ->; by apply list.Forall_cons in Ha as [_ ?]).
  cbn [In] in Hc. decompose [or] Hc; try contradiction; subst c; cbn [printf_step];
    try (destruct args as [|[] args']; try exact I; specialize (Htl _ _ eq_refl)); try (split; [done|done]); apply Hput; try done;
    first [apply write_keeps | apply ostring_keeps | apply start_keeps | apply put_sos_keeps].
Qed.

Lemma printf_loop_keeps fmt : forall rc b args, Forall (fun c => In c ["t"; "i"; "e"; "b"; "n"; "o"; "{"; "}"; "["; "]"]%char) fmt -> Forall no_hook args ->
  keeps b.(ber_rwptr) snd (ber_printf_loop fmt rc b args).
Proof.
  induction fmt as [|c fmt IH]; intros rc b args Hf Ha; [done|]. apply list.Forall_cons in Hf as [Hc Hf]. cbn [ber_printf_loop]. destruct (rc =? -1); [done|].
  pose proof (printf_step_keeps c rc b args Hc Ha) as Hs. destruct (printf_step c rc b args) as [[[rc' b'] args']|]; [|done]. destruct Hs as [<- Ha']. by apply IH.
Qed.

Lemma bval_plain v : Forall (fun c => In c ["t"; "i"; "e"; "b"; "n"; "o"; "{"; "}"; "["; "]"]%char) (bval_fmt v) /\ Forall no_hook (bval_args v).
Proof.
  assert (forall vs, Forall (fun v => Forall (fun c => In c ["t"; "i"; "e"; "b"; "n"; "o"; "{"; "}"; "["; "]"]%char) (bval_fmt v) /\ Forall no_hook (bval_args v)) vs ->
    Forall (fun c => In c ["t"; "i"; "e"; "b"; "n"; "o"; "{"; "}"; "["; "]"]%char) (concat (bval_fmt <$> vs)) /\ Forall no_hook (concat (bval_args <$> vs))) as Hvs.
  { induction 1 as [|w ws [H1 H2] _ [IH1 IH2]]; [split; constructor|]. cbn. split; by apply list.Forall_app. }
  induction v using bval_rect'; cbn [bval_fmt bval_args]; [split; repeat constructor; cbn; tauto..| |];
    (destruct (Hvs vs ltac:(done)) as [H1 H2]; split; [cbn [app]; do 2 (constructor; [cbn; tauto|]); apply list.Forall_app; split; [done|repeat constructor; cbn; tauto]|constructor; done]).
Qed.

Lemma printf_keeps b v rc b' : ber_printf b (bval_fmt v) (bval_args v) = Some (rc, b') -> b'.(ber_rwptr) = b.(ber_rwptr).
Proof. intros E. destruct (bval_plain v) as [H1 H2]. pose proof (printf_loop_keeps (bval_fmt v) 0 b (bval_args v) H1 H2) as Hk. unfold ber_printf in E. by rewrite E in Hk. Qed.

End keeps.

(** ** Sending *)

Section sending.
Context `{Stream T}.

(** The calls of [ber_flush2] until it has written all, at most [n]. *)
Fixpoint flush_calls (n : nat) (sb : T) (b : BerElement) : option (bool * BerElement * T) :=
  match n with
  | O => Some (false, b, sb)
  | S n =>
      '(rc, b, sb) ← ber_flush2 sb b 0;
      b ← b;
      if rc =? 0 then Some (true, b, sb) else flush_calls n sb b
  end.

Lemma flush_loop_spec b : forall fuel rw towrite (sb : T), (towrite <= fuel)%nat -> (rw + towrite <= length b.(ber_mem))%nat -> stream_ok sb ->
  exists rc rw' sb', flush_loop fuel b rw towrite sb = Some (rc, rw', sb') /\ stream_ok sb' /\ incoming sb' = incoming sb /\ (rw <= rw' <= rw + towrite)%nat /\
    outgoing sb' = outgoing sb ++ slice b.(ber_mem) rw (rw' - rw) /\ (if rc =? 0 then rw' = (rw + towrite)%nat else (rw' < rw + towrite)%nat).
Proof.
  induction fuel as [|fuel IH]; intros rw towrite sb Hf Hm Hok.
  { replace towrite with 0%nat in * by lia. exists 0, rw, sb. cbn. rewrite Nat.sub_diag. split_and!; try done; try lia. unfold slice. by rewrite take_0, app_nil_r. }
  cbn [flush_loop]. destruct (Nat.eqb_spec towrite 0) as [->|Hn].
  { exists 0, rw, sb. rewrite Nat.sub_diag. unfold slice. rewrite take_0, app_nil_r. split_and!; try done; cbn; lia. }
  rewrite mem_read_slice by lia. cbn [mbind option_bind].
  assert (slice (ber_mem b) rw towrite <> []) as Hne by (intros E; apply (f_equal length) in E; rewrite slice_length in E by lia; done).
  destruct (write_law sb _ Hok Hne) as (r & sb' & -> & Hok' & Hin & Hr). cbn [mbind option_bind]. destruct r as [[ret e]|n].
  - destruct Hr as [_ Hout]. exists (-1), rw, sb'. rewrite Nat.sub_diag. unfold slice. rewrite take_0, app_nil_r. split_and!; try done; cbn; lia.
  - destruct Hr as [Hn' Hout]. rewrite slice_length in Hn' by lia.
    destruct (IH (rw + n)%nat (towrite - n)%nat sb') as (rc & rw' & sb2 & -> & Hok2 & Hin2 & Hrw & Hout2 & Hrc); [lia|lia|done|].
    exists rc, rw', sb2. split; [done|]. split; [done|]. split; [congruence|]. split; [lia|]. split; [|destruct (rc =? 0); lia].
    rewrite Hout2, Hout, <- app_assoc, slice_take by lia. f_equal. replace (rw' - rw)%nat with (n + (rw' - (rw + n)))%nat by lia.
    unfold slice. rewrite <- (take_take_drop (drop rw _)), drop_drop. done.
Qed.

(** What has been written of an element, over all calls. *)
Lemma flush_calls_spec n : forall (sb : T) b, (default 0%nat b.(ber_rwptr) <= b.(ber_ptr) <= length b.(ber_mem))%nat -> stream_ok sb ->
  exists all b' sb' k, flush_calls n sb b = Some (all, b', sb') /\ stream_ok sb' /\ incoming sb' = incoming sb /\ (default 0%nat b.(ber_rwptr) <= k <= b.(ber_ptr))%nat /\
    outgoing sb' = outgoing sb ++ slice b.(ber_mem) (default 0%nat b.(ber_rwptr)) (k - default 0%nat b.(ber_rwptr)) /\ default 0%nat b'.(ber_rwptr) = k /\ (all = true -> k = b.(ber_ptr)).
Proof.
  induction n as [|n IH]; intros sb b Hb Hok; cbn [flush_calls].
  { exists false, b, sb, (default 0%nat (ber_rwptr b)). rewrite Nat.sub_diag. unfold slice. rewrite take_0, app_nil_r. split_and!; try done; lia. }
  unfold ber_flush2. set (rw := default 0%nat (ber_rwptr b)) in *.
  destruct (flush_loop_spec b (ber_ptr b - rw) rw (ber_ptr b - rw) sb) as (rc & rw' & sb' & -> & Hok' & Hin & Hrw & Hout & Hrc); [lia|lia|done|]. cbn [mbind option_bind].
  rewrite Z.land_0_l. cbn [negb Z.eqb mbind option_bind]. destruct (rc =? 0).
  - eexists true, _, sb', rw'. split; [done|]. do 2 (split; [done|]). split; [lia|]. split; [done|]. split; [done|]. lia.
  - destruct (IH sb' (with_rwptr b (Some rw'))) as (all & b2 & sb2 & k & -> & Hok2 & Hin2 & Hk & Hout2 & Hb2 & Hall); [cbn; lia|done|]. cbn [ber_rwptr with_rwptr default from_option id ber_ptr ber_mem] in *.
    exists all, b2, sb2, k. split; [done|]. split; [done|]. split; [congruence|]. split; [lia|]. split; [|split; [done|exact Hall]].
    rewrite Hout2, Hout, <- app_assoc. f_equal. replace (k - rw)%nat with ((rw' - rw) + (k - rw'))%nat by lia. unfold slice. rewrite <- (take_take_drop (drop rw _)), drop_drop. do 3 f_equal. lia.
Qed.

End sending.

(** ** Receiving *)

Section receiving.
Context `{Heap} `{Stream T}.
Context (max_incoming : Z).

(** The calls of [ber_get_next] until it has an element, at most [n]: the tag and the
    length, if there is one, the element and the socket. *)
Fixpoint get_next_calls (n : nat) (errno : Z) (sb : T) (b : BerInput) : option (option (Z * Z) * BerInput * T) :=
  match n with
  | O => Some (None, b, sb)
  | S n =>
      '(tag, errno, len, b, sb) ← ber_get_next max_incoming errno sb b;
      match len with
      | Some len => Some (Some (tag, len), b, sb)
      | None => get_next_calls n errno sb b
      end
  end.

Lemma get_next_calls_spec t tg lo c rest n : (forall k, heap_grants k = true) -> element_ok max_incoming t tg lo c rest ->
  forall errno b k (sb : T), reading t tg lo c b k -> stream_ok sb -> incoming sb = drop k (tg ++ lo ++ c) ++ rest -> (k < length (tg ++ lo ++ c))%nat ->
  exists r b' sb' k', get_next_calls n errno sb b = Some (r, b', sb') /\ stream_ok sb' /\ outgoing sb' = outgoing sb /\
    incoming sb' = drop k' (tg ++ lo ++ c) ++ rest /\ (k <= k' <= length (tg ++ lo ++ c))%nat /\
    match r with
    | None => (k' < length (tg ++ lo ++ c))%nat /\ (Responsive T -> (k + n <= k')%nat)
    | Some (tag, len) => tag = t /\ len = Z.of_nat (length c) /\ k' = length (tg ++ lo ++ c) /\ taken_in t c b' /\ b'.(in_rwptr) = None
    end.
Proof.
  intros Hg Hel. induction n as [|n IH]; intros errno b k sb Hrd Hok Hin Hk; cbn [get_next_calls].
  { exists None, b, sb, k. split_and!; try done; lia. }
  destruct (get_next_call max_incoming t tg lo c rest Hg Hel errno b k sb Hrd Hok Hin) as (b1 & sb1 & k1 & Hok1 & Hout1 & Hin1 & Hk1 & Hr1 & [(e & -> & Hrd1 & Hlt)|(-> & -> & Htk & Hrw)]); cbn [mbind option_bind].
  - destruct (IH e b1 k1 sb1 Hrd1 Hok1 Hin1 Hlt) as (r & b2 & sb2 & k2 & -> & Hok2 & Hout2 & Hin2 & Hk2 & Hr2). exists r, b2, sb2, k2.
    split; [done|]. split; [done|]. split; [congruence|]. split; [done|]. split; [lia|]. destruct r as [[tag len]|]; [done|]. destruct Hr2 as [? Hr2]. split; [done|]. intros Hrs. specialize (Hr1 Hrs). specialize (Hr2 Hrs). lia.
  - eexists (Some _), b1, sb1, (length (tg ++ lo ++ c)). do 5 (split; [done|]). done.
Qed.

End receiving.

Lemma fresh_input options : fresh (ber_input options).
Proof. done. Qed.

(** C4: [ber_get_next] takes an element from the stream and not an octet more, whatever
    pieces the octets come in, if the element has at least eight octets or nothing
    follows it in the stream (see [short_message_refused] for the others), has a tag and
    a length that the decoder admits, of at most nine octets together and five for the
    length, and has contents, of no more octets than [sb_max_incoming] where that is set: each call that
    does not have the element yet leaves the octets that have been read in the element
    structure, and where the socket does not keep it waiting the element is there after
    as many calls as it has octets at the latest. What is taken is the element: its tag,
    its length and, for the decoder, its contents. Memory is granted. *)
Theorem ber_get_next_receives `{Heap} `{Stream T} (max_incoming options : Z) (n : nat) (sb : T) (t : Z) (tg lo c rest : list Z) :
  (forall k, heap_grants k = true) -> element_ok max_incoming t tg lo c rest -> stream_ok sb -> incoming sb = (tg ++ lo ++ c) ++ rest ->
  exists r b sb', get_next_calls max_incoming n 0 sb (ber_input options) = Some (r, b, sb') /\ outgoing sb' = outgoing sb /\
    match r with
    | None => (exists k, (k < length (tg ++ lo ++ c))%nat /\ incoming sb' = drop k (tg ++ lo ++ c) ++ rest) /\ (Responsive T -> (n < length (tg ++ lo ++ c))%nat)
    | Some (tag, len) => tag = t /\ len = Z.of_nat (length c) /\ incoming sb' = rest /\ exists e, input_element b = Some e /\ ber_view e = c /\ ber_rok e
    end.
Proof.
  intros Hg Hel Hok Hin. pose proof (el_bytes _ _ _ _ _ _ Hel) as Hb. apply bytes_ok_app in Hb as [_ Hb]. apply bytes_ok_app in Hb as [_ Hb].
  assert (0 < length (tg ++ lo ++ c))%nat as Hpos by (pose proof (el_contents _ _ _ _ _ _ Hel); rewrite !length_app; destruct c; [done|cbn; lia]).
  destruct (get_next_calls_spec max_incoming t tg lo c rest n Hg Hel 0 (ber_input options) 0 sb (or_introl (conj eq_refl (fresh_input options))) Hok Hin Hpos)
    as (r & b & sb' & k & E & _ & Hout & Hin' & Hk & Hr).
  exists r, b, sb'. split; [done|]. split; [done|]. destruct r as [[tag len]|].
  - destruct Hr as (-> & -> & -> & Htk & Hrw). split; [done|]. split; [done|]. split; [by rewrite Hin', drop_all|].
    destruct (taken_in_element max_incoming t tg lo c rest Hel b Hb Htk Hrw) as (e & ? & _ & ? & ?). by exists e.
  - destruct Hr as [Hlt Hr]. split; [by exists k|]. intros Hrs. specialize (Hr Hrs). lia.
Qed.

(** ** From one end to the other *)

Lemma values_scan `{Heap} inplace der vs : (forall k, heap_grants k = true) -> foldr (fun v P => bval_ok v /\ P) True vs -> foldr (fun v P => tags_ok v /\ P) True vs ->
  Z.of_nat (length (concat (encode der <$> vs))) < 2 ^ 32 ->
  scans (concat (scan_fmt inplace <$> vs)) (concat (scan_args <$> vs)) (concat (encode der <$> vs)) (concat (expect <$> vs)).
Proof.
  intros Hg. induction vs as [|v vs IH]; intros Hok Ht Hl; [apply scans_nil|]. cbn [fmap list_fmap concat foldr] in *. destruct Hok as [Hv Hok], Ht as [Htv Ht]. rewrite length_app in Hl.
  apply scans_app; [apply value_scans; try done; lia|apply IH; try done; lia].
Qed.

Lemma sos_len_octets_length der n : 0 <= n < 2 ^ 32 -> (length (sos_len_octets der n) <= 5)%nat.
Proof.
  intros Hn. destruct der; [|done]. cbn [sos_len_octets]. destruct (len_octets_spec n ltac:(lia)) as [[_ ->]|(_ & ds & -> & _ & _ & _ & Hl)]; cbn [length]; [lia|]. specialize (Hl ltac:(lia)). lia.
Qed.

(** A message is an element that can be taken in. *)
Lemma message_ok max_incoming der t c rest : tag_ok t -> (length (tag_octets t) <= 4)%nat -> bytes_ok c -> c <> [] -> Z.of_nat (length c) < 2 ^ 32 ->
  max_incoming = 0 \/ Z.of_nat (length c) <= max_incoming -> (8 <= length (sos_element der t c))%nat \/ rest = [] ->
  element_ok max_incoming t (tag_octets t) (sos_len_octets der (Z.of_nat (length c))) c rest.
Proof.
  intros Ht Htl Hc Hne Hl Hm Hs. pose proof (sos_len_octets_length der (Z.of_nat (length c)) ltac:(lia)). split; try done; try lia.
  - apply bytes_ok_app. split; [apply tag_octets_bytes|]. apply bytes_ok_app. split; [apply sos_len_octets_bytes; lia|done].
  - rewrite <- (app_nil_r (sos_len_octets _ _)). apply parse_sos_len. lia.
Qed.

(** C3: A message, which is a sequence of at least one value, formatted by [ber_printf],
    written by [ber_flush2] and taken in by [ber_get_next] at the other end is read by
    [ber_scanf] as the same values, whatever pieces the two sockets cut it into, and
    what follows it on the connection is left there. The message is within the limits
    of writer and reader (its values and tags can be encoded and read, less than 2^31
    octets, no more than [sb_max_incoming] where that is set, a tag of at most four
    octets), memory is granted, and the message has at least eight octets or nothing
    follows it: a shorter one that is followed at once is refused
    ([short_message_refused]). *)
Theorem ber_message_passed `{Heap} `{Stream T} `{Stream U} (options options' max_incoming : Z) (inplace : bool) (tag : Z) (vs : list bval) (rest : list Z)
    (n n' : nat) (sb : T) (sb' : U) (der := negb (Z.land options LBER_USE_DER =? 0)) (v := BSeq tag vs) :
  (forall k, heap_grants k = true) -> bval_ok v -> tags_ok v -> vs <> [] -> bval_cost v <= MAXINT_BERSIZE ->
  (length (tag_octets (pick_tag tag LBER_SEQUENCE)) <= 4)%nat -> Z.of_nat (length (encode der v)) < 2 ^ 31 ->
  max_incoming = 0 \/ Z.of_nat (length (encode der v)) <= max_incoming -> (8 <= length (encode der v))%nat \/ rest = [] ->
  stream_ok sb -> stream_ok sb' -> Responsive U -> (length (encode der v) <= n')%nat ->
  exists rc b all b1 sb1 sent, ber_printf (ber_alloc_t options) (bval_fmt v) (bval_args v) = Some (rc, b) /\ rc <> -1 /\
    flush_calls n sb b = Some (all, b1, sb1) /\ outgoing sb1 = outgoing sb ++ sent /\
    (all = true -> incoming sb' = sent ++ rest ->
     exists len b2 sb2, get_next_calls max_incoming n' 0 sb' (ber_input options') = Some (Some (pick_tag tag LBER_SEQUENCE, len), b2, sb2) /\ incoming sb2 = rest /\
       exists e rc' e' os, input_element b2 = Some e /\
         ber_scanf e (concat (scan_fmt inplace <$> vs)) (concat (scan_args <$> vs)) = Some (rc', os, e') /\
         rc' <> LBER_DEFAULT /\ Forall2 (meets e') (concat (expect <$> vs)) os /\ ber_view e' = []).
Proof.
  intros Hg Hok Ht Hne Hc Htag Hl Hm Hshort Hsb Hsb' Hresp Hn'.
  destruct (printf_flatten options v Hg Hok Hc) as (rc & b & Hp & Hrc & Hf). fold der in Hf.
  pose proof (printf_keeps _ _ _ _ Hp) as Hrw. cbn [ber_rwptr ber_alloc_t] in Hrw.
  assert ((ber_ptr b <= length (ber_mem b))%nat /\ take (ber_ptr b) (ber_mem b) = encode der v) as [Hptr Henc].
  { unfold ber_flatten2 in Hf. destruct (ber_sos_ptr b); [done|]. destruct (ber_memalloc_x _); [|done]. unfold mem_read in Hf. destruct (decide _) as [Hd|]; [|done]. cbn in Hf. injection Hf as Hf. by rewrite drop_0 in Hf. }
  destruct (flush_calls_spec n sb b) as (all & b1 & sb1 & k & Hfl & _ & _ & Hk & Hout & _ & Hall); [rewrite Hrw; cbn; lia|done|]. rewrite Hrw in *. cbn [default from_option id] in *. rewrite Nat.sub_0_r in Hout.
  exists rc, b, all, b1, sb1, (slice (ber_mem b) 0 k). split; [done|]. split; [done|]. split; [done|]. split; [done|]. intros Ha Hin. rewrite (Hall Ha) in Hin.
  unfold slice in Hin. rewrite drop_0, Henc in Hin. set (t := pick_tag tag LBER_SEQUENCE) in *. set (c := concat (encode der <$> vs)).
  assert (encode der v = tag_octets t ++ sos_len_octets der (Z.of_nat (length c)) ++ c) as Ev by done.
  assert (length c < length (encode der v))%nat as Lc by (rewrite Ev, !length_app; pose proof (tag_octets_length t); lia).
  assert (c <> []) as Hcne.
  { unfold c. destruct vs as [|w ws]; [done|]. cbn. intros [E _]%app_nil. apply (f_equal length) in E. destruct w; cbn [encode] in E; unfold prim_element, sos_element in E; rewrite !length_app in E;
      match type of E with context [length (tag_octets ?x)] => pose proof (tag_octets_length x) end; cbn in E; lia. }
  assert (bytes_ok c) as Hcb by (pose proof (encode_bytes der v Hok ltac:(lia)) as He; rewrite Ev in He; apply bytes_ok_app in He as [_ He]; by apply bytes_ok_app in He as [_ He]).
  assert (tag_ok t) as Htk by (cbn [tags_ok v] in Ht; tauto).
  pose proof (message_ok max_incoming der t c rest Htk Htag Hcb Hcne ltac:(lia) ltac:(lia) Hshort) as Hel. rewrite Ev in Hin.
  assert (0 < length (encode der v))%nat as Hpos by lia. rewrite Ev in Hpos.
  destruct (get_next_calls_spec max_incoming t _ _ c rest n' Hg Hel 0 (ber_input options') 0 sb' (or_introl (conj eq_refl (fresh_input options'))) Hsb' Hin Hpos)
    as (r & b2 & sb2 & k2 & E & _ & _ & Hin2 & Hk2 & Hr). rewrite E. destruct r as [[tag' len]|]; [|destruct Hr as [Hlt Hr]; specialize (Hr Hresp); rewrite <- Ev in Hlt; lia].
  destruct Hr as (-> & -> & -> & Htin & Hrw2). do 3 eexists. split; [done|]. split; [by rewrite Hin2, drop_all|].
  destruct (taken_in_element max_incoming t _ _ c rest Hel b2 Hcb Htin Hrw2) as (e & Ee & _ & Hview & Hrok).
  cbn [bval_ok tags_ok v] in Hok, Ht. rewrite <- (app_nil_r c) in Hview.
  destruct (scans_run e _ _ _ _ [] (values_scan inplace der vs Hg Hok ltac:(tauto) ltac:(fold c; lia)) Hrok Hview) as (rc' & e' & os & Hs & Hrc' & Hmeets & Hv' & _).
  by exists e, rc', e', os.
Qed.

(** ** Examples *)

(** An abandon request (message 5), three octets at a time, and the start of the next
    message. *)
Definition sample_tail : list Z := [2; 1; 5; 80; 1; 3].
Definition sample_wire : wire := mkWire ([48; 6] ++ sample_tail ++ [48; 9]) [] [3; 3; 1; 1; 1; 1; 1; 1]%nat [].

Lemma sample_element_ok : element_ok 0 48 [48] [6] sample_tail [48; 9].
Proof. split; try (by vm_compute); [repeat constructor; unfold byte_ok; lia|cbn; lia..|by left|left; cbn; lia]. Qed.

Lemma ber_get_next_receives_witness :
  element_ok 0 48 [48] [6] sample_tail [48; 9] /\
  (exists b sb', @get_next_calls zero_heap wire _ 0 8 0 sample_wire (ber_input 0) = Some (Some (48, 6), b, sb')) /\
  exists r b sb', @get_next_calls zero_heap wire _ 0 8 0 sample_wire (ber_input 0) = Some (r, b, sb') /\ outgoing sb' = outgoing sample_wire /\
    match r with
    | None => (exists k, (k < length (([48] ++ [6] ++ sample_tail)%Z))%nat /\ incoming sb' = drop k ([48] ++ [6] ++ sample_tail) ++ [48; 9]) /\ (Responsive wire -> (8 < length (([48] ++ [6] ++ sample_tail)%Z))%nat)
    | Some (tag, len) => tag = 48 /\ len = Z.of_nat (length sample_tail) /\ incoming sb' = [48; 9] /\ exists e, input_element b = Some e /\ ber_view e = sample_tail /\ ber_rok e
    end.
Proof.
  split; [exact sample_element_ok|]. split; [by do 2 eexists; vm_compute|].
  apply (@ber_get_next_receives zero_heap wire _ _ 0 0 8 sample_wire 48 [48] [6] sample_tail [48; 9]); [done|exact sample_element_ok|repeat constructor|reflexivity].
Defined.

Definition sample_values : list bval := [BInt LBER_DEFAULT 2; BStr 128 [100; 99]; BSet 99 [BBool LBER_DEFAULT true; BEnum LBER_DEFAULT (-3)]].

Definition sample_near : wire := mkWire [] [] [] [3; 0; 5]%nat.

(** The other end reads ahead, and gets the octets of the sample in pieces. *)
Definition sample_far : Sockbuf_Buf * wire :=
  (mkSbb (replicate 16 0) 0 0, mkWire (encode false (BSeq LBER_DEFAULT sample_values) ++ [48; 9]) [] [1; 2; 30; 4]%nat []).

Lemma ber_message_passed_witness :
  (exists rc b b1 sb1, @ber_printf zero_heap (ber_alloc_t 0) (bval_fmt (BSeq LBER_DEFAULT sample_values)) (bval_args (BSeq LBER_DEFAULT sample_values)) = Some (rc, b) /\
    @flush_calls wire _ 9 sample_near b = Some (true, b1, sb1)) /\
  exists rc b all b1 sb1 sent, @ber_printf zero_heap (ber_alloc_t 0) (bval_fmt (BSeq LBER_DEFAULT sample_values)) (bval_args (BSeq LBER_DEFAULT sample_values)) = Some (rc, b) /\ rc <> -1 /\
    @flush_calls wire _ 9 sample_near b = Some (all, b1, sb1) /\ outgoing sb1 = outgoing sample_near ++ sent /\
    (all = true -> incoming sample_far = sent ++ [48; 9] ->
     exists len b2 sb2, @get_next_calls zero_heap (Sockbuf_Buf * wire) _ 1000 40 0 sample_far (ber_input 0) = Some (Some (pick_tag LBER_DEFAULT LBER_SEQUENCE, len), b2, sb2) /\ incoming sb2 = [48; 9] /\
       exists e rc' e' os, input_element b2 = Some e /\
         @ber_scanf zero_heap e (concat (scan_fmt false <$> sample_values)) (concat (scan_args <$> sample_values)) = Some (rc', os, e') /\
         rc' <> LBER_DEFAULT /\ Forall2 (meets e') (concat (expect <$> sample_values)) os /\ ber_view e' = []).
Proof.
  split; [by do 4 eexists; split; vm_compute|].
  apply (@ber_message_passed zero_heap wire _ _ (Sockbuf_Buf * wire) _ _ 0 0 1000 false LBER_DEFAULT sample_values [48; 9] 9 40 sample_near sample_far).
  - intros. reflexivity.
  - simpl. repeat split; try lia. repeat constructor; unfold byte_ok; lia.
  - simpl. repeat split; vm_compute; reflexivity.
  - done.
  - vm_compute. discriminate.
  - vm_compute. lia.
  - vm_compute. reflexivity.
  - right. vm_compute. discriminate.
  - left. vm_compute. lia.
  - repeat constructor.
  - split; [split; cbn; lia|]. split; [cbn; lia|repeat constructor].
  - apply _.
  - vm_compute. lia.
Defined.

(** A request to delete the entry with the empty name has seven octets; if another
    request follows at once, the connection is given up. *)
Lemma short_message_refused : exists b sb,
  @ber_get_next zero_heap wire _ 0 0 (mkWire ([48; 5; 2; 1; 1; 74; 0] ++ [48; 5; 2; 1; 2; 66; 0]) [] [] []) (ber_input 0) = Some (LBER_DEFAULT, ERANGE, None, b, sb).
Proof. by do 2 eexists; vm_compute. Qed.
