(* ===== verification/Idl.v ===== *)
(** * ID lists of the mdb backend (servers/slapd/back-mdb/idl.c, idl.h)

    An ID list is an array of 64-bit IDs whose element 0 is the number of IDs
    that follow, or [NOID] for the range from element 1 to element 2.  The array
    is the list of all its cells; an access outside it is undefined behaviour
    ([None]). *)

From stdpp Require Import base list numbers option.
From S2P Require Import Prelude.

Local Open Scope Z_scope.

Definition NOID : Z := 2 ^ 64 - 1.
Definition MDB_IDL_LOGN : Z := 16.
Definition MDB_IDL_DB_SIZE : Z := Z.shiftl 1 MDB_IDL_LOGN.
Definition MDB_IDL_UM_SIZE : Z := Z.shiftl 1 (MDB_IDL_LOGN + 1).
Definition MDB_IDL_DB_MAX : Z := MDB_IDL_DB_SIZE - 1.
Definition MDB_IDL_UM_MAX : Z := MDB_IDL_UM_SIZE - 1.

Abbreviation ID := Z (only parsing).
Abbreviation IDL := (list Z) (only parsing).

Definition IDL_MAX (x y : ID) : ID := if x >? y then x else y.
Definition IDL_MIN (x y : ID) : ID := if x <? y then x else y.
Definition IDL_CMP (x y : ID) : Z := if x <? y then -1 else if x >? y then 1 else 0.

Definition MDB_IDL_IS_RANGE (ids : IDL) : option bool := n ← arr_get ids 0; Some (n =? NOID).
Definition MDB_IDL_IS_ZERO (ids : IDL) : option bool := n ← arr_get ids 0; Some (n =? 0).
Definition MDB_IDL_RANGE_FIRST (ids : IDL) : option ID := arr_get ids 1.
Definition MDB_IDL_RANGE_LAST (ids : IDL) : option ID := arr_get ids 2.
Definition MDB_IDL_FIRST (ids : IDL) : option ID := arr_get ids 1.
Definition MDB_IDL_LLAST (ids : IDL) : option ID := n ← arr_get ids 0; arr_get ids n.
Definition MDB_IDL_LAST (ids : IDL) : option ID :=
  r ← MDB_IDL_IS_RANGE ids; if (r : bool) then arr_get ids 2 else MDB_IDL_LLAST ids.

Definition MDB_IDL_RANGE (ids : IDL) (f l : ID) : option IDL :=
  ids ← arr_set ids 0 NOID; ids ← arr_set ids 1 f; arr_set ids 2 l.

(** [MDB_IDL_SIZEOF], in IDs. *)
Definition MDB_IDL_SIZE (ids : IDL) : option Z :=
  n ← arr_get ids 0; Some (if n =? NOID then 3 else u64 (n + 1)).

Definition MDB_IDL_CPY (dst src : IDL) : option IDL :=
  n ← MDB_IDL_SIZE src;
  data ← mem_read src 0 (Z.to_nat n);
  mem_write dst 0 data.

(** The assertions of [idl_check]; a failed one stops the program ([None]). *)
Definition idl_check (ids : IDL) : option unit :=
  r ← MDB_IDL_IS_RANGE ids;
  if (r : bool) then
    f ← MDB_IDL_RANGE_FIRST ids; l ← MDB_IDL_RANGE_LAST ids;
    if f <=? l then Some tt else None
  else
    n ← arr_get ids 0;
    run (fun i =>
      if i <? n then
        y ← arr_get ids (i + 1); x ← arr_get ids i;
        if y >? x then Some (inl (i + 1)) else None
      else Some (inr tt)) 64 1.

Section idl.
(** [reopenldap_mode_check()]: whether the self checks are on. *)
Variable mode_check : bool.

Definition idl_selfcheck (ids : IDL) : option unit :=
  if mode_check then idl_check ids else Some tt.

(** The turn of the binary search: [base], [n], [cursor], [val]. *)
Definition idl_search_step (get : Z -> option ID) (id : ID) (s : Z * Z * Z * Z)
  : option (Z * Z * Z * Z + Z) :=
  let '(base, n, cursor, val) := s in
  if 0 <? n then
    let pivot := Z.shiftr n 1 in
    let cursor := u32 (base + pivot + 1) in
    x ← get cursor;
    let val := IDL_CMP id x in
    if val <? 0 then Some (inl (base, pivot, cursor, val))
    else if val >? 0 then Some (inl (cursor, u32 (n - (pivot + 1)), cursor, val))
    else Some (inr cursor)
  else Some (inr (if val >? 0 then u32 (cursor + 1) else cursor)).

Definition mdb_idl_search (ids : IDL) (id : ID) : option Z :=
  n ← arr_get ids 0;
  _ ← idl_selfcheck ids;
  run (idl_search_step (arr_get ids) id) 32 (0, u32 n, 1, 0).

(** The part of the insertions that deals with a range. *)
Definition idl_range_insert (ids : IDL) (id : ID) : option (Z * IDL) :=
  f ← MDB_IDL_RANGE_FIRST ids; l ← MDB_IDL_RANGE_LAST ids;
  if (id >=? f) && (id <=? l) then Some (-1, ids)
  else if id <? f then ids ← arr_set ids 1 id; Some (0, ids)
  else if id >? l then ids ← arr_set ids 2 id; Some (0, ids)
  else Some (0, ids).

(** No room for another ID: the list becomes a range. *)
Definition idl_insert_overflow (ids : IDL) (id : ID) : option IDL :=
  n ← arr_get ids 0;
  first ← arr_get ids 1;
  last ← arr_get ids (n - 1);
  ids ← (if id <? first then ids ← arr_set ids 1 id; x ← arr_get ids (n - 1); arr_set ids 2 x
         else if last <? id then arr_set ids 2 id
         else arr_set ids 2 last);
  arr_set ids 0 NOID.

Definition mdb_idl_insert (ids : IDL) (id : ID) : option (Z * IDL) :=
  _ ← idl_selfcheck ids;
  range ← MDB_IDL_IS_RANGE ids;
  if (range : bool) then idl_range_insert ids id else
  x ← mdb_idl_search ids id;
  if x <? 1 then None else
  n ← arr_get ids 0;
  dup ← (if x <=? n then y ← arr_get ids x; Some (y =? id) else Some false);
  if (dup : bool) then Some (-1, ids) else
  let n := u64 (n + 1) in
  ids ← arr_set ids 0 n;
  ids ← (if n >=? MDB_IDL_DB_MAX then idl_insert_overflow ids id
         else
           tail ← mem_read ids (Z.to_nat x) (Z.to_nat (n - x));
           ids ← mem_write ids (Z.to_nat (x + 1)) tail;
           arr_set ids x id);
  _ ← idl_selfcheck ids;
  Some (0, ids).

(** The returned ID and the cursor. *)
Definition mdb_idl_first (ids : IDL) (cursor : Z) : option (ID * Z) :=
  n ← arr_get ids 0;
  if n =? 0 then Some (NOID, NOID) else
  if n =? NOID then
    f ← arr_get ids 1;
    let cursor := if cursor <? f then f else cursor in
    Some (cursor, cursor)
  else
    pos ← (if cursor =? 0 then Some 1 else mdb_idl_search ids cursor);
    if pos >? n then Some (NOID, cursor) else
    x ← arr_get ids pos; Some (x, pos).

Definition mdb_idl_next (ids : IDL) (cursor : Z) : option (ID * Z) :=
  n ← arr_get ids 0;
  let cursor := u64 (cursor + 1) in
  if n =? NOID then
    l ← arr_get ids 2;
    if l <? cursor then Some (NOID, cursor) else Some (cursor, cursor)
  else if cursor <=? n then x ← arr_get ids cursor; Some (x, cursor)
  else Some (NOID, cursor).

(** One turn of the intersection: the array [a] (written in place), the two
    cursors with their IDs, and the output cursor. *)
Definition idl_inter_step (b : IDL) (idmax : ID) (s : IDL * ID * Z * ID * Z * Z)
  : option (IDL * ID * Z * ID * Z * Z + IDL) :=
  let '(a, ida, cursora, idb, cursorb, cursorc) := s in
  if (ida <=? idmax) || (idb <=? idmax) then
    if ida =? idb then
      let cursorc := u64 (cursorc + 1) in
      a ← arr_set a cursorc ida;
      '(ida, cursora) ← mdb_idl_next a cursora;
      '(idb, cursorb) ← mdb_idl_next b cursorb;
      Some (inl (a, ida, cursora, idb, cursorb, cursorc))
    else if ida <? idb then
      '(ida, cursora) ← mdb_idl_next a cursora;
      Some (inl (a, ida, cursora, idb, cursorb, cursorc))
    else
      '(idb, cursorb) ← mdb_idl_next b cursorb;
      Some (inl (a, ida, cursora, idb, cursorb, cursorc))
  else a ← arr_set a 0 cursorc; Some (inr a).

(** [a] a list, [b] a list or a range: what ends in [a]. *)
Definition idl_inter_list (a b : IDL) (idmin idmax : ID) : option IDL :=
  brange ← MDB_IDL_IS_RANGE b;
  f ← arr_get b 1; fa ← MDB_IDL_FIRST a; la ← MDB_IDL_LLAST a;
  covered ← (if (brange : bool) && (f <=? fa) then l ← arr_get b 2; Some (l >=? la) else Some false);
  if (covered : bool) then Some a else
  '(ida, cursora) ← mdb_idl_first a idmin;
  '(idb, cursorb) ← mdb_idl_first b idmin;
  run (idl_inter_step b idmax) 66 (a, ida, cursora, idb, cursorb, 0).

(** Both arrays afterwards: when [a] is a range and [b] a list, the result is
    made in [b] and copied to [a]. *)
Definition mdb_idl_intersection (a b : IDL) : option (IDL * IDL) :=
  za ← MDB_IDL_IS_ZERO a; zb ← MDB_IDL_IS_ZERO b;
  if (za : bool) || zb then a ← arr_set a 0 0; Some (a, b) else
  fa ← MDB_IDL_FIRST a; fb ← MDB_IDL_FIRST b;
  la ← MDB_IDL_LAST a; lb ← MDB_IDL_LAST b;
  let idmin := IDL_MAX fa fb in
  let idmax := IDL_MIN la lb in
  if idmin >? idmax then a ← arr_set a 0 0; Some (a, b)
  else if idmin =? idmax then a ← arr_set a 0 1; a ← arr_set a 1 idmin; Some (a, b)
  else
    ra ← MDB_IDL_IS_RANGE a;
    if (ra : bool) then
      rb ← MDB_IDL_IS_RANGE b;
      if (rb : bool) then a ← arr_set a 1 idmin; a ← arr_set a 2 idmax; Some (a, b)
      else
        b ← idl_inter_list b a idmin idmax;
        a ← MDB_IDL_CPY a b; Some (a, b)
    else a ← idl_inter_list a b idmin idmax; Some (a, b).

(** The cat loop of the union: the distinct elements of [a] behind those of [b];
    [None] inside the result is the jump to [over]. *)
Definition idl_cat_step (a : IDL) (s : IDL * ID * Z * ID * Z * Z)
  : option (IDL * ID * Z * ID * Z * Z + IDL * option Z) :=
  let '(b, ida, cursora, idb, cursorb, cursorc) := s in
  if negb (ida =? NOID) || negb (idb =? NOID) then
    if ida <? idb then
      let cursorc := u64 (cursorc + 1) in
      if cursorc >? MDB_IDL_UM_MAX then Some (inr (b, None)) else
      b ← arr_set b cursorc ida;
      '(ida, cursora) ← mdb_idl_next a cursora;
      Some (inl (b, ida, cursora, idb, cursorb, cursorc))
    else
      '(ida, cursora) ← (if ida =? idb then mdb_idl_next a cursora else Some (ida, cursora));
      '(idb, cursorb) ← mdb_idl_next b cursorb;
      Some (inl (b, ida, cursora, idb, cursorb, cursorc))
  else Some (inr (b, Some cursorc)).

(** The merge loop: both parts of [b] back to [a] in order. *)
Definition idl_merge_step (b : IDL) (nb na : Z) (s : IDL * Z * Z * Z)
  : option (IDL * Z * Z * Z + IDL) :=
  let '(a, cursora, cursorb, cursorc) := s in
  if (cursorb <=? nb) || (cursorc <=? na) then
    idb ← (if cursorc >? na then Some NOID else arr_get b cursorc);
    fromb ← (if cursorb <=? nb then x ← arr_get b cursorb; Some (x <? idb) else Some false);
    if (fromb : bool) then
      x ← arr_get b cursorb;
      a ← arr_set a cursora x;
      Some (inl (a, u64 (cursora + 1), u64 (cursorb + 1), cursorc))
    else
      a ← arr_set a cursora idb;
      Some (inl (a, u64 (cursora + 1), cursorb, u64 (cursorc + 1)))
  else Some (inr a).

(** The label [over]: the range from the smallest to the largest ID. *)
Definition idl_union_over (a b : IDL) : option IDL :=
  fa ← MDB_IDL_FIRST a; fb ← MDB_IDL_FIRST b;
  la ← MDB_IDL_LAST a; lb ← MDB_IDL_LAST b;
  a ← arr_set a 0 NOID; a ← arr_set a 1 (IDL_MIN fa fb); arr_set a 2 (IDL_MAX la lb).

Definition mdb_idl_union (a b : IDL) : option (IDL * IDL) :=
  zb ← MDB_IDL_IS_ZERO b;
  if (zb : bool) then Some (a, b) else
  za ← MDB_IDL_IS_ZERO a;
  if (za : bool) then a ← MDB_IDL_CPY a b; Some (a, b) else
  ra ← MDB_IDL_IS_RANGE a; rb ← MDB_IDL_IS_RANGE b;
  if (ra : bool) || rb then a ← idl_union_over a b; Some (a, b) else
  '(ida, cursora) ← mdb_idl_first a 0;
  '(idb, cursorb) ← mdb_idl_first b 0;
  nb ← arr_get b 0;
  '(b, r) ← run (idl_cat_step a) 66 (b, ida, cursora, idb, cursorb, nb);
  match r with
  | None => a ← idl_union_over a b; Some (a, b)
  | Some cursorc =>
      a ← arr_set a 0 cursorc;
      nb ← arr_get b 0;
      a ← run (idl_merge_step b nb cursorc) 66 (a, 1, 1, u64 (nb + 1));
      Some (a, b)
  end.
End idl.

Definition mdb_idl_append_one (ids : IDL) (id : ID) : option (Z * IDL) :=
  range ← MDB_IDL_IS_RANGE ids;
  if (range : bool) then idl_range_insert ids id else
  n ← arr_get ids 0;
  '(ids, id) ←
    (if n =? 0 then Some (ids, id) else
      f ← arr_get ids 1;
      '(ids, id) ← (if id <? f then ids ← arr_set ids 1 id; Some (ids, f) else Some (ids, id));
      if n >? 1 then
        l ← arr_get ids n;
        if id <? l then ids ← arr_set ids n id; Some (ids, l) else Some (ids, id)
      else Some (ids, id));
  let n := u64 (n + 1) in
  ids ← arr_set ids 0 n;
  ids ← (if n >=? MDB_IDL_UM_MAX then ids ← arr_set ids 0 NOID; arr_set ids 2 id
         else arr_set ids n id);
  Some (0, ids).

(** Both arrays afterwards ([b] is restored at the end). *)
Definition mdb_idl_append (a b : IDL) : option (IDL * IDL) :=
  zb ← MDB_IDL_IS_ZERO b;
  if (zb : bool) then Some (a, b) else
  za ← MDB_IDL_IS_ZERO a;
  if (za : bool) then a ← MDB_IDL_CPY a b; Some (a, b) else
  ida ← MDB_IDL_LAST a; idb ← MDB_IDL_LAST b;
  ra ← MDB_IDL_IS_RANGE a; rb ← MDB_IDL_IS_RANGE b;
  na ← arr_get a 0; nb ← arr_get b 0;
  if (ra : bool) || rb || (u64 (na + nb) >=? MDB_IDL_UM_MAX) then
    a ← arr_set a 2 (IDL_MAX ida idb);
    fa ← arr_get a 1; fb ← arr_get b 1;
    a ← arr_set a 1 (IDL_MIN fa fb);
    a ← arr_set a 0 NOID;
    Some (a, b)
  else
    '(a, b, swap) ←
      (if (nb >? 1) && (ida >? idb)
       then a ← arr_set a na idb; b ← arr_set b nb ida; Some (a, b, idb)
       else Some (a, b, 0));
    fa ← arr_get a 1; fb ← arr_get b 1;
    '(a, tmp) ← (if fb <? fa then a ← arr_set a 1 fb; Some (a, fa) else Some (a, fb));
    let na := na + 1 in
    a ← arr_set a 0 na;
    a ← arr_set a na tmp;
    a ← (if nb >? 1 then
           let i := swrap 32 (nb - 1) in
           data ← mem_read b 2 (Z.to_nat i);
           a ← mem_write a (Z.to_nat (na + 1)) data;
           arr_set a 0 (na + i)
         else Some a);
    b ← (if swap =? 0 then Some b else arr_set b nb swap);
    Some (a, b).

(** ** Lists of ID/value pairs *)

Section id2l.
Context {V : Type}.
Abbreviation ID2 := (Z * V)%type.
Abbreviation ID2L := (list (Z * V)) (only parsing).

Definition id2_mid (ids : ID2L) (i : Z) : option ID := x ← arr_get ids i; Some x.1.

Definition mdb_id2l_search (ids : ID2L) (id : ID) : option Z :=
  n ← id2_mid ids 0;
  run (idl_search_step (id2_mid ids) id) 32 (0, u32 n, 1, 0).

(** [for (i = ids[0].mid; i > x; i--) ids[i] = ids[i - 1];] *)
Definition id2l_shift (ids : ID2L) (n x : Z) : option ID2L :=
  run (fun '(ids, i) =>
    if i >? x then
      e ← arr_get ids (i - 1); ids ← arr_set ids i e; Some (inl (ids, i - 1))
    else Some (inr ids)) 32 (ids, u32 n).

Definition mdb_id2l_insert (ids : ID2L) (id : ID2) : option (Z * ID2L) :=
  x ← mdb_id2l_search ids id.1;
  if x <? 1 then None else
  n ← id2_mid ids 0;
  dup ← (if x <=? n then y ← id2_mid ids x; Some (y =? id.1) else Some false);
  if (dup : bool) then Some (-1, ids) else
  if n >=? MDB_IDL_UM_MAX then Some (-2, ids) else
  e ← arr_get ids 0;
  ids ← arr_set ids 0 (n + 1, e.2);
  ids ← id2l_shift ids (n + 1) x;
  ids ← arr_set ids x id;
  Some (0, ids).
End id2l.
