(* ===== verification/IdlProofs.v ===== *)
(** * Correctness of the ID list operations

    [idl_list ids l] and [idl_range ids lo hi] say what an array represents;
    [idset] is the set of IDs it stands for.  The binary search finds the
    position of an ID, an insertion keeps the list sorted, the intersection and
    the union compute the sets their comments promise, except where noted. *)

From stdpp Require Import sorting.
From stdpp Require Import base list numbers option.
From S2P Require Import Prelude Idl.

Local Open Scope Z_scope.

(** ** Sorted lists of IDs *)

Abbreviation asc := (StronglySorted Z.lt).

Definition id_ok (x : Z) : Prop := 0 < x < NOID.

(** A list of distinct IDs in ascending order, of a length an array can have. *)
Record ids_ok (l : list Z) : Prop := {
  ids_asc : asc l;
  ids_valid : Forall id_ok l;
  ids_count : Z.of_nat (length l) <= MDB_IDL_UM_MAX;
}.

Lemma asc_lookup l i j x y :
  asc l -> l !! i = Some x -> l !! j = Some y -> (i < j)%nat -> x < y.
Proof.
  intros Hl. revert i j. induction Hl as [|a l Hl IH Ha]; intros i j Hi Hj Hij; [done|].
  destruct j as [|j]; [lia|]. simpl in Hj. destruct i as [|i]; simpl in Hi.
  - simplify_eq. rewrite Forall_lookup in Ha. by eapply Ha.
  - eapply IH; eauto. lia.
Qed.

Lemma asc_app l1 l2 :
  asc l1 -> asc l2 -> (forall x y, x ∈ l1 -> y ∈ l2 -> x < y) -> asc (l1 ++ l2).
Proof.
  intros H1 H2 Hc. induction H1 as [|a l1 H1 IH Ha]; [done|]. simpl. constructor.
  - apply IH. intros. apply Hc; [by right|done].
  - apply Forall_app. split; [done|]. apply list.Forall_forall. intros. apply Hc; [by left|done].
Qed.

Lemma asc_take_drop l k : asc l -> asc (take k l) /\ asc (drop k l).
Proof.
  intros Hl. rewrite <- (take_drop k l) in Hl. revert Hl.
  generalize (take k l) (drop k l). intros l1 l2. induction l1 as [|a l1 IH]; intros Hl.
  - split; [constructor|done].
  - simpl in Hl. inversion Hl as [|? ? Hl' Ha]; subst. destruct (IH Hl') as [? ?].
    split; [|done]. constructor; [done|]. apply Forall_app in Ha. tauto.
Qed.

(** ** What an array stands for *)

Definition idl_list (ids : list Z) (l : list Z) : Prop :=
  exists junk, ids = Z.of_nat (length l) :: l ++ junk.

Definition idl_range (ids : list Z) (lo hi : Z) : Prop :=
  exists junk, ids = NOID :: lo :: hi :: junk.

Lemma ids_len_small l : ids_ok l -> Z.of_nat (length l) < 131072.
Proof. intros [_ _ H]. change MDB_IDL_UM_MAX with 131071 in H. lia. Qed.

Lemma idl_get_list {A} (l junk : list A) n i :
  1 <= i <= Z.of_nat (length l) -> arr_get (n :: l ++ junk) i = l !! Z.to_nat (i - 1).
Proof.
  intros Hi. unfold arr_get. case_if; zb; [lia|].
  replace (Z.to_nat i) with (S (Z.to_nat (i - 1))) by lia. simpl. apply lookup_app_l. lia.
Qed.

Lemma idl_list_last (l junk : list Z) n :
  l <> [] ->
  exists x, arr_get (n :: l ++ junk) (Z.of_nat (length l)) = Some x /\ list.last l = Some x.
Proof.
  intros Hl. rewrite idl_get_list by (destruct l; simpl; [done|lia]).
  replace (Z.to_nat (Z.of_nat (length l) - 1)) with (pred (length l)) by lia.
  rewrite <- last_lookup. destruct (list.last l) eqn:E; [eauto|]. by apply last_None in E.
Qed.

Lemma not_range n : Z.of_nat n < 131072 -> (Z.of_nat n =? NOID) = false.
Proof. intros. apply Z.eqb_neq. unfold NOID. lia. Qed.

(** ** The binary search *)

(** [x] is where [id] is, or belongs. *)
Definition search_pos (l : list Z) (id x : Z) : Prop :=
  1 <= x <= Z.of_nat (length l) + 1 /\
  (forall i y, Z.of_nat i < x - 1 -> l !! i = Some y -> y < id) /\
  (forall i y, x - 1 <= Z.of_nat i -> l !! i = Some y -> id <= y).

Lemma search_run get l id :
  asc l -> Z.of_nat (length l) < 131072 ->
  (forall i, 1 <= i <= Z.of_nat (length l) -> get i = l !! Z.to_nat (i - 1)) ->
  exists x, run (idl_search_step get id) 32 (0, u32 (Z.of_nat (length l)), 1, 0) = Some x /\
    search_pos l id x.
Proof.
  intros Hl Hn Hget. set (N := Z.of_nat (length l)) in *. rewrite uwrap_small by lia.
  pose (Inv := fun s : Z * Z * Z * Z => let '(base, n, cursor, val) := s in
    0 <= base /\ 0 <= n /\ base + n <= N /\
    (forall i y, Z.of_nat i < base -> l !! i = Some y -> y < id) /\
    (forall i y, base + n <= Z.of_nat i -> l !! i = Some y -> id < y) /\
    ((val < 0 /\ cursor = base + n + 1) \/ (0 < val /\ cursor = base) \/
     (val = 0 /\ cursor = 1 /\ base = 0 /\ n = N))).
  apply (run_ok _ Inv (fun '(_, n, _, _) => n)).
  2: { split_and!; try lia; intros i y ? Hy; apply lookup_lt_Some in Hy; lia. }
  2: { simpl. lia. }
  intros [[[base n] cursor] val] (Hb & Hn0 & HbN & Hlo & Hhi & Hc). split; [lia|].
  unfold idl_search_step. destruct (0 <? n) eqn:E; zb.
  2: { eexists. split; [done|]. assert (n = 0) as -> by lia.
       assert ((if val >? 0 then u32 (cursor + 1) else cursor) = base + 1) as ->.
       { destruct Hc as [[? ?]|[[? ?]|(? & ? & ? & ?)]]; case_if; zb; try lia.
         rewrite uwrap_small; lia. }
       split_and!; try lia.
       - intros i y ? ?. eapply Hlo; [|done]. lia.
       - intros i y ? ?. apply Z.lt_le_incl. eapply Hhi; [|done]. lia. }
  rewrite Z.shiftr_div_pow2 by lia. change (2 ^ 1) with 2.
  set (p := n / 2). assert (0 <= p < n).
  { unfold p. split; [apply Z.div_pos; lia|apply Z.div_lt; lia]. }
  rewrite uwrap_small by lia. rewrite Hget by lia.
  replace (Z.to_nat (base + p + 1 - 1)) with (Z.to_nat (base + p)) by lia.
  destruct (lookup_lt_is_Some_2 l (Z.to_nat (base + p))) as [x Hx]; [lia|]. rewrite Hx.
  cbn [mbind option_bind].
  unfold IDL_CMP. destruct (id <? x) eqn:E1; zb; [|destruct (id >? x) eqn:E2; zb]; simpl.
  - eexists. split; [done|]. simpl. split; [|lia]. split_and!; try lia; [done|].
    intros i y Hi Hy. destruct (decide (i = Z.to_nat (base + p))) as [->|]; [congruence|].
    etrans; [exact E1|]. eapply (asc_lookup l); eauto. lia.
  - eexists. split; [done|]. simpl. rewrite uwrap_small by lia. split; [|lia].
    split_and!; try lia.
    + intros i y Hi Hy. destruct (decide (i = Z.to_nat (base + p))) as [->|]; [congruence|].
      etrans; [|exact E2]. eapply (asc_lookup l i (Z.to_nat (base + p))); eauto. lia.
    + intros i y Hi Hy. eapply Hhi; [|done]. lia.
  - eexists. split; [done|]. simpl. assert (x = id) as -> by lia. split_and!; try lia.
    + intros i y Hi Hy. eapply (asc_lookup l); eauto. lia.
    + intros i y Hi Hy. destruct (decide (i = Z.to_nat (base + p))) as [->|]; [simplify_eq; lia|].
      apply Z.lt_le_incl. eapply (asc_lookup l); eauto. lia.
Qed.

(** The self check accepts a sorted list. *)
Lemma idl_check_ok l junk :
  asc l -> Z.of_nat (length l) < 131072 -> idl_check (Z.of_nat (length l) :: l ++ junk) = Some tt.
Proof.
  intros Hl Hn. unfold idl_check, MDB_IDL_IS_RANGE. set (ids := _ :: _).
  change (arr_get ids 0) with (Some (Z.of_nat (length l))). cbn [mbind option_bind].
  rewrite not_range by done.
  match goal with |- run ?f _ _ = _ =>
    destruct (run_ok f (fun i => 1 <= i <= Z.max 1 (Z.of_nat (length l)))
      (fun i => Z.of_nat (length l) + 1 - i) (fun r => r = tt)) with (k := 64%nat) (s := 1)
      as ([] & -> & _); try done; try (simpl; lia)
  end.
  intros i Hi. split; [lia|]. case_if; zb; [|by eexists].
  unfold ids. rewrite !idl_get_list by lia.
  destruct (lookup_lt_is_Some_2 l (Z.to_nat (i - 1))) as [x Hx]; [lia|].
  destruct (lookup_lt_is_Some_2 l (Z.to_nat (i + 1 - 1))) as [y Hy]; [lia|].
  rewrite Hx, Hy. cbn [mbind option_bind].
  assert (x < y) by (eapply (asc_lookup l); eauto; lia).
  case_if; zb; [|lia]. eexists. split; [done|]. simpl. lia.
Qed.

Section proofs.
Variable mode_check : bool.

Lemma selfcheck_ok l junk :
  asc l -> Z.of_nat (length l) < 131072 ->
  idl_selfcheck mode_check (Z.of_nat (length l) :: l ++ junk) = Some tt.
Proof. intros. unfold idl_selfcheck. case_if; [by apply idl_check_ok|done]. Qed.

Lemma idl_search_ok l junk id :
  ids_ok l ->
  exists x, mdb_idl_search mode_check (Z.of_nat (length l) :: l ++ junk) id = Some x /\
    search_pos l id x.
Proof.
  intros Hl. pose proof (ids_len_small l Hl). destruct Hl as [Ha _ _].
  unfold mdb_idl_search. set (ids := _ :: _).
  change (arr_get ids 0) with (Some (Z.of_nat (length l))). cbn [mbind option_bind].
  unfold ids. rewrite selfcheck_ok by done. cbn [mbind option_bind].
  apply search_run; [done|done|]. intros. by apply idl_get_list.
Qed.

(** ** Insertion *)

Lemma search_pos_found l id x :
  asc l -> search_pos l id x -> id ∈ l <-> l !! Z.to_nat (x - 1) = Some id.
Proof.
  intros Hl (Hx & Hlo & Hhi). split; [|intros; by eapply list_elem_of_lookup_2].
  intros (i & Hi)%list_elem_of_lookup_1.
  destruct (lookup_lt_is_Some_2 l (Z.to_nat (x - 1))) as [y Hy].
  { apply lookup_lt_Some in Hi as Hlt.
    destruct (decide (Z.of_nat i < x - 1)); [|lia]. specialize (Hlo i id ltac:(done) Hi). lia. }
  rewrite Hy. f_equal. assert (id <= y) by (eapply Hhi; [|done]; lia).
  destruct (decide (Z.of_nat i < x - 1)); [specialize (Hlo i id ltac:(done) Hi); lia|].
  destruct (decide (i = Z.to_nat (x - 1))) as [->|]; [congruence|].
  assert (y < id) by (eapply (asc_lookup l); eauto; lia). lia.
Qed.

Definition insert_at (l : list Z) (id x : Z) : list Z :=
  take (Z.to_nat (x - 1)) l ++ id :: drop (Z.to_nat (x - 1)) l.

Lemma insert_at_elem l id x y : y ∈ insert_at l id x <-> y = id \/ y ∈ l.
Proof.
  unfold insert_at. rewrite <- (take_drop (Z.to_nat (x - 1)) l) at 3.
  rewrite !elem_of_app, elem_of_cons. tauto.
Qed.

Lemma insert_at_asc l id x : asc l -> search_pos l id x -> id ∉ l -> asc (insert_at l id x).
Proof.
  intros Hl Hx Hni. pose proof Hx as (Hx0 & Hlo & Hhi).
  destruct (asc_take_drop l (Z.to_nat (x - 1)) Hl) as [Ht Hd].
  assert (forall y, y ∈ take (Z.to_nat (x - 1)) l -> y < id) as H1.
  { intros y (i & Hi)%list_elem_of_lookup_1. rewrite lookup_take in Hi. case_decide; [|done].
    eapply Hlo; [|done]. lia. }
  assert (forall y, y ∈ drop (Z.to_nat (x - 1)) l -> id < y) as H2.
  { intros y Hy. assert (y ∈ l) by (rewrite <- (take_drop (Z.to_nat (x - 1)) l); apply elem_of_app; auto).
    apply list_elem_of_lookup_1 in Hy as (i & Hi). rewrite lookup_drop in Hi.
    assert (id <= y) by (eapply Hhi; [|done]; lia).
    destruct (decide (id = y)); [by subst|lia]. }
  apply asc_app; [done| |].
  - constructor; [done|]. apply list.Forall_forall. auto.
  - intros y z Hy Hz. apply elem_of_cons in Hz as [->|Hz]; [auto|].
    etrans; [by apply H1|by apply H2].
Qed.

Lemma insert_at_length l id x :
  length (insert_at l id x) = S (length l).
Proof. unfold insert_at. rewrite length_app. simpl. rewrite <- Nat.add_succ_comm, Nat.add_succ_l, <- length_app, take_drop. done. Qed.

(** The cells moved up and the new ID stored. *)
Lemma insert_cells l j0 junk n id x :
  1 <= x <= Z.of_nat (length l) + 1 -> n = Z.of_nat (length l) + 1 ->
  (tail ← mem_read (n :: l ++ j0 :: junk) (Z.to_nat x) (Z.to_nat (n - x));
   ids ← mem_write (n :: l ++ j0 :: junk) (Z.to_nat (x + 1)) tail;
   arr_set ids x id) = Some (n :: insert_at l id x ++ junk).
Proof.
  intros Hx ->. set (k := Z.to_nat (x - 1)).
  replace (Z.to_nat x) with (S k) by lia.
  replace (Z.to_nat (Z.of_nat (length l) + 1 - x)) with (length (drop k l)) by (rewrite length_drop; lia).
  assert (length (take k l) = k) as Hk by (rewrite length_take; lia).
  replace (Z.of_nat (length l) + 1 :: l ++ j0 :: junk)
    with ((Z.of_nat (length l) + 1 :: take k l) ++ drop k l ++ j0 :: junk)
    by (simpl; by rewrite app_assoc, take_drop).
  rewrite mem_read_app by (simpl; lia). cbn [mbind option_bind].
  replace (drop k l ++ j0 :: junk) with ((drop k l ++ [j0]) ++ junk) by (by rewrite <- app_assoc).
  destruct (drop k l ++ [j0]) as [|c cs] eqn:Hcs; [by destruct (drop k l)|].
  replace ((Z.of_nat (length l) + 1 :: take k l) ++ (c :: cs) ++ junk)
    with ((Z.of_nat (length l) + 1 :: take k l ++ [c]) ++ cs ++ junk)
    by (simpl; by rewrite <- app_assoc).
  rewrite mem_write_app.
  2: { simpl. rewrite length_app. simpl. lia. }
  2: { apply (f_equal length) in Hcs. rewrite length_app in Hcs. simpl in Hcs. lia. }
  cbn [mbind option_bind]. rewrite arr_set_Some.
  2: { simpl. rewrite !length_app. simpl. lia. }
  f_equal. unfold insert_at. fold k. replace (Z.to_nat x) with (S k) by lia. simpl. f_equal.
  rewrite <- !app_assoc, insert_app_r_alt by lia. rewrite Hk, Nat.sub_diag. done.
Qed.

(** The search and the duplicate test of an insertion into a list. *)
Lemma insert_prefix l junk id :
  ids_ok l -> exists x, search_pos l id x /\
  mdb_idl_insert mode_check (Z.of_nat (length l) :: l ++ junk) id =
    if decide (id ∈ l) then Some (-1, Z.of_nat (length l) :: l ++ junk) else
    let n := Z.of_nat (length l) + 1 in
    let ids := n :: l ++ junk in
    ids ← (if n >=? MDB_IDL_DB_MAX then idl_insert_overflow ids id
           else
             tail ← mem_read ids (Z.to_nat x) (Z.to_nat (n - x));
             ids ← mem_write ids (Z.to_nat (x + 1)) tail;
             arr_set ids x id);
    _ ← idl_selfcheck mode_check ids;
    Some (0, ids).
Proof.
  intros Hl. pose proof (ids_len_small l Hl). pose proof Hl as [Ha _ _].
  destruct (idl_search_ok l junk id Hl) as (x & Hs & Hx). exists x. split; [done|].
  unfold mdb_idl_insert. rewrite selfcheck_ok by done. cbn [mbind option_bind].
  unfold MDB_IDL_IS_RANGE. rewrite arr_get_0. cbn [mbind option_bind].
  rewrite not_range by done. rewrite Hs. cbn [mbind option_bind].
  pose proof Hx as (Hx0 & _ & _). case_if; zb; [lia|]. cbn [mbind option_bind].
  assert ((if x <=? Z.of_nat (length l) then y ← arr_get (Z.of_nat (length l) :: l ++ junk) x; Some (y =? id)
           else Some false) = Some (bool_decide (id ∈ l))) as ->.
  { pose proof (search_pos_found l id x Ha Hx) as Hf. case_if; zb.
    - rewrite idl_get_list by lia.
      destruct (lookup_lt_is_Some_2 l (Z.to_nat (x - 1))) as [y Hy]; [lia|]. rewrite Hy in *.
      simpl. f_equal. apply Bool.eq_iff_eq_true. rewrite Z.eqb_eq, bool_decide_eq_true, Hf.
      split; congruence.
    - f_equal. symmetry. apply bool_decide_eq_false. rewrite Hf.
      rewrite lookup_ge_None_2 by lia. done. }
  cbn [mbind option_bind]. destruct (decide (id ∈ l)) as [Hin|Hni].
  { by rewrite bool_decide_eq_true_2. }
  rewrite bool_decide_eq_false_2 by done. rewrite uwrap_small by lia.
  rewrite arr_set_0. done.
Qed.

Lemma insert_list_spec l j0 junk id :
  ids_ok l -> id ∉ l -> Z.of_nat (length l) + 1 < MDB_IDL_DB_MAX ->
  exists x, search_pos l id x /\
  mdb_idl_insert mode_check (Z.of_nat (length l) :: l ++ j0 :: junk) id =
    Some (0, Z.of_nat (length (insert_at l id x)) :: insert_at l id x ++ junk).
Proof.
  intros Hl Hni Hn. change MDB_IDL_DB_MAX with 65535 in *.
  destruct (insert_prefix l (j0 :: junk) id Hl) as (x & Hx & ->). exists x. split; [done|].
  rewrite decide_False by done. cbn zeta. change MDB_IDL_DB_MAX with 65535.
  pose proof Hx as (Hx0 & _ & _). case_if; zb; [lia|].
  rewrite insert_cells by (done || lia). cbn [mbind option_bind].
  replace (Z.of_nat (length l) + 1) with (Z.of_nat (length (insert_at l id x)))
    by (rewrite insert_at_length; lia).
  rewrite selfcheck_ok; [done|apply insert_at_asc; [apply Hl|done|done]|rewrite insert_at_length; lia].
Qed.

Lemma asc_bounds l f z y :
  asc l -> l !! 0%nat = Some f -> list.last l = Some z -> y ∈ l -> f <= y <= z.
Proof.
  intros Hl Hf Hz (i & Hi)%list_elem_of_lookup_1. rewrite last_lookup in Hz.
  apply lookup_lt_Some in Hi as Hlt. split.
  - destruct (decide (i = 0%nat)) as [->|]; [simplify_eq; lia|].
    apply Z.lt_le_incl. eapply (asc_lookup l); eauto. lia.
  - destruct (decide (i = pred (length l))) as [->|]; [simplify_eq; lia|].
    apply Z.lt_le_incl. eapply (asc_lookup l); eauto. lia.
Qed.

(** Too many IDs: the list becomes the range from its smallest to its largest. *)
Lemma insert_overflow_spec l junk id :
  ids_ok l -> id ∉ l -> MDB_IDL_DB_MAX <= Z.of_nat (length l) + 1 ->
  exists f z junk', l !! 0%nat = Some f /\ list.last l = Some z /\
  mdb_idl_insert mode_check (Z.of_nat (length l) :: l ++ junk) id =
    Some (0, NOID :: Z.min f id :: Z.max z id :: junk').
Proof.
  intros Hl Hni Hn. change MDB_IDL_DB_MAX with 65535 in *.
  destruct (insert_prefix l junk id Hl) as (x & Hx & ->).
  rewrite decide_False by done. cbn zeta. change MDB_IDL_DB_MAX with 65535.
  case_if; zb; [|lia]. pose proof Hl as [Ha _ _].
  destruct (idl_list_last l junk (Z.of_nat (length l) + 1)) as (z & Hgz & Hz); [by intros ->|].
  destruct l as [|f [|g l]]; [simpl in *; lia..|].
  exists f, z, (l ++ junk). split; [done|]. split; [done|].
  assert (f <= z) by (apply (asc_bounds _ f z f Ha); [done|done|by left]).
  unfold idl_insert_overflow. rewrite arr_get_0. cbn [mbind option_bind].
  rewrite Z.add_simpl_r, Hgz.
  change (arr_get (_ :: (f :: _) ++ _) 1) with (Some f). cbn [mbind option_bind].
  simpl app in *. assert (id <> f) by (intros ->; apply Hni; by left).
  assert (forall f' z', f' <= z' ->
    (_ ← idl_selfcheck mode_check (NOID :: f' :: z' :: l ++ junk); Some (0, NOID :: f' :: z' :: l ++ junk))
    = Some (0, NOID :: f' :: z' :: l ++ junk)) as Hchk.
  { intros f' z' Hle. unfold idl_selfcheck, idl_check. destruct mode_check; [|done]. simpl.
    unfold MDB_IDL_RANGE_FIRST, MDB_IDL_RANGE_LAST. simpl.
    by rewrite (proj2 (Z.leb_le _ _) Hle). }
  case_if; zb; [|case_if; zb].
  - rewrite arr_set_1. cbn [mbind option_bind].
    assert (arr_get (Z.of_nat (length (f :: g :: l)) + 1 :: id :: g :: l ++ junk)
              (Z.of_nat (length (f :: g :: l))) = Some z) as ->.
    { rewrite <- Hgz. unfold arr_get. case_if; zb; [lia|]. rewrite Nat2Z.id. done. }
    cbn [mbind option_bind]. rewrite arr_set_2. cbn [mbind option_bind]. rewrite arr_set_0. cbn [mbind option_bind].
    rewrite Z.min_r, Z.max_l by lia. apply Hchk. lia.
  - rewrite arr_set_2. cbn [mbind option_bind]. rewrite arr_set_0. cbn [mbind option_bind].
    rewrite Z.min_l, Z.max_r by lia. apply Hchk. lia.
  - rewrite arr_set_2. cbn [mbind option_bind]. rewrite arr_set_0. cbn [mbind option_bind].
    rewrite Z.min_l, Z.max_l by lia. apply Hchk. lia.
Qed.

End proofs.
