(* ===== verification/IdlSets.v ===== *)
(** * ID lists as sets: insertion, intersection and union

    [idset] is the set an ID array stands for, a sorted list or a range, and
    [repr] relates the two.  Each operation of idl.c is shown to compute the set
    operation it is named after, with the exceptions the theorems spell out. *)

From stdpp Require Import sorting.
From stdpp Require Import base list numbers option.
From S2P Require Import Prelude Idl IdlProofs.

Local Open Scope Z_scope.

Inductive idset := SList (l : list Z) | SRange (lo hi : Z).

Definition set_mem (s : idset) (x : Z) : Prop :=
  match s with SList l => x ∈ l | SRange lo hi => lo <= x <= hi end.

(** Ranges may end in [NOID] ([MDB_IDL_ALL]). *)
Definition set_ok (s : idset) : Prop :=
  match s with SList l => ids_ok l | SRange lo hi => 0 < lo < NOID /\ lo <= hi /\ hi <= NOID end.

Definition set_cells (s : idset) (junk : list Z) : list Z :=
  match s with
  | SList l => Z.of_nat (length l) :: l ++ junk
  | SRange lo hi => NOID :: lo :: hi :: junk
  end.

(** [ids] represents [s]; the rest of the array is arbitrary. *)
Definition repr (ids : list Z) (s : idset) : Prop := exists junk, ids = set_cells s junk.

Definition is_list (s : idset) : Prop := match s with SList _ => True | _ => False end.

Section sets.
Variable mode_check : bool.

(** ** Stepping through a list of cells

    [from l k x]: [x] is the ID at position [k] (from 1), [NOID] behind the end. *)
Definition from (l : list Z) (k x : Z) : Prop :=
  1 <= k /\ x = match l !! Z.to_nat (k - 1) with Some y => y | None => NOID end.

Lemma next_list_gen n cells cur :
  0 <= cur -> cur < 2 ^ 63 -> n = Z.of_nat (length cells) -> n < 131072 ->
  forall junk, mdb_idl_next (n :: cells ++ junk) cur =
    Some (match cells !! Z.to_nat cur with Some y => y | None => NOID end, cur + 1).
Proof.
  intros Hc Hm -> Hn junk. unfold mdb_idl_next. rewrite arr_get_0. cbn [mbind option_bind].
  rewrite uwrap_small by lia. rewrite not_range by done. case_if; zb.
  - rewrite idl_get_list by lia. replace (Z.to_nat (cur + 1 - 1)) with (Z.to_nat cur) by lia.
    destruct (lookup_lt_is_Some_2 cells (Z.to_nat cur)) as [y Hy]; [lia|]. by rewrite Hy.
  - by rewrite lookup_ge_None_2 by lia.
Qed.

(** An iterator standing at [id]: [id] belongs to the set or lies behind
    [bound]. *)
Definition at_id (M : Z -> Prop) (id : Z) : Prop := M id \/ id = NOID.

Lemma from_asc_next l k x y z :
  ids_ok l -> from l k x -> from l (k + 1) y -> x <> NOID ->
  x < y /\ (z ∈ l -> x < z -> y <= z).
Proof.
  intros [Ha Hv _] [Hk Hx] [_ Hy] Hne. replace (k + 1 - 1) with k in Hy by lia.
  destruct (l !! Z.to_nat (k - 1)) as [x'|] eqn:Ex; [|done]. subst x'.
  destruct (l !! Z.to_nat k) as [y'|] eqn:Ey; subst.
  - split; [eapply (asc_lookup l); eauto; lia|].
    intros (i & Hi)%list_elem_of_lookup_1 Hlt.
    destruct (decide (i < Z.to_nat k)%nat).
    + destruct (decide (i = Z.to_nat (k - 1))) as [->|]; [simplify_eq; lia|].
      assert (z < x) by (eapply (asc_lookup l); eauto; lia). lia.
    + destruct (decide (i = Z.to_nat k)) as [->|]; [simplify_eq; lia|].
      apply Z.lt_le_incl. eapply (asc_lookup l); eauto. lia.
  - rewrite Forall_lookup in Hv. split; [by apply (Hv _ _ Ex)|].
    intros (i & Hi)%list_elem_of_lookup_1 Hlt. apply lookup_ge_None_1 in Ey.
    apply lookup_lt_Some in Hi as Hil. apply lookup_lt_Some in Ex as Hxl.
    assert (i = Z.to_nat (k - 1) \/ i < Z.to_nat (k - 1))%nat as [->|] by lia; [simplify_eq; lia|].
    assert (z < x) by (eapply (asc_lookup l); eauto; lia). lia.
Qed.

(** The other operand of an intersection: a list or a range that is not
    written.  [it_at b s cur x]: the cursor of [b] stands at [x]. *)
Definition it_at (s : idset) (cur x : Z) : Prop :=
  match s with
  | SList l => from l cur x /\ cur < 2 ^ 62
  | SRange lo hi => (x = cur /\ lo <= x <= hi) \/ x = NOID
  end.

Lemma it_at_mem s cur x : it_at s cur x -> x <> NOID -> set_mem s x.
Proof.
  destruct s as [l|lo hi]; simpl.
  - intros [[_ Hx] _] Hne. destruct (l !! _) eqn:E; [|done]. subst. by eapply list_elem_of_lookup_2.
  - intros [[_ ?]|?]; [done|done].
Qed.

Lemma it_next s junk cur x :
  set_ok s -> it_at s cur x -> x <> NOID ->
  exists y cur', mdb_idl_next (set_cells s junk) cur = Some (y, cur') /\ it_at s cur' y /\
    x < y <= NOID /\ forall z, set_mem s z -> x < z -> y <= z.
Proof.
  destruct s as [l|lo hi]; cbn [set_ok it_at set_cells set_mem].
  - intros Hl [Hf Hb] Hne. pose proof (ids_len_small l Hl). pose proof Hf as [Hk _].
    rewrite next_list_gen by (done || lia). eexists _, _. split; [done|].
    assert (from l (cur + 1) match l !! Z.to_nat cur with Some y => y | None => NOID end) as Hf'.
    { split; [lia|]. by replace (cur + 1 - 1) with cur by lia. }
    assert (cur <= Z.of_nat (length l)).
    { destruct Hf as [_ Hx]. destruct (l !! Z.to_nat (cur - 1)) eqn:E; [|done].
      apply lookup_lt_Some in E. lia. }
    split; [split; [done|lia]|]. split; [|intros z; by apply (from_asc_next l cur x _ z Hl Hf Hf' Hne)].
    split; [by apply (from_asc_next l cur x _ 0 Hl Hf Hf' Hne)|].
    destruct (l !! Z.to_nat cur) as [y|] eqn:E; [|done].
    destruct Hl as [_ Hv _]. rewrite Forall_lookup in Hv. apply Hv in E. unfold id_ok in E. lia.
  - intros (Hlo & Hle & Hhi) [[-> Hx]|?] Hne; [|done].
    unfold mdb_idl_next. rewrite arr_get_0. cbn [mbind option_bind].
    rewrite Z.eqb_refl. unfold NOID in *. rewrite uwrap_small by lia.
    change (arr_get (_ :: lo :: hi :: junk) 2) with (Some hi). cbn [mbind option_bind].
    case_if; zb; eexists _, _; (split; [done|]); split_and!; try lia; auto.
    all: intros; lia.
Qed.

(** The first ID that is not below [idmin]. *)
Lemma it_first s junk idmin y0 :
  set_ok s -> 0 < idmin < NOID -> set_mem s y0 -> idmin <= y0 ->
  exists x cur, mdb_idl_first mode_check (set_cells s junk) idmin = Some (x, cur) /\ it_at s cur x /\
    idmin <= x <= y0 /\ (forall z, set_mem s z -> idmin <= z -> x <= z).
Proof.
  destruct s as [l|lo hi]; cbn [set_ok it_at set_cells set_mem]; intros Hs Hmin Hy Hle.
  - pose proof (ids_len_small l Hs). unfold mdb_idl_first. rewrite arr_get_0. cbn [mbind option_bind].
    assert (length l <> 0%nat) by (destruct l; [by apply elem_of_nil in Hy|done]).
    rewrite (proj2 (Z.eqb_neq (Z.of_nat (length l)) 0)) by lia. rewrite not_range by done.
    rewrite (proj2 (Z.eqb_neq idmin 0)) by lia.
    destruct (idl_search_ok mode_check l junk idmin Hs) as (p & -> & Hp & Hlo & Hhi).
    cbn [mbind option_bind]. apply list_elem_of_lookup_1 in Hy as (i & Hi).
    apply lookup_lt_Some in Hi as Hil.
    assert (p - 1 <= Z.of_nat i) by (apply Z.le_ngt; intros ?; specialize (Hlo i y0 ltac:(lia) Hi); lia).
    case_if; zb; [lia|]. rewrite idl_get_list by lia.
    destruct (lookup_lt_is_Some_2 l (Z.to_nat (p - 1))) as [x Hx]; [lia|]. rewrite Hx.
    cbn [mbind option_bind]. eexists _, _. split; [done|].
    assert (forall z, z ∈ l -> idmin <= z -> x <= z) as Hmn.
    { intros z (j & Hj)%list_elem_of_lookup_1 Hz.
      destruct (decide (Z.of_nat j < p - 1)); [specialize (Hlo j z ltac:(done) Hj); lia|].
      destruct (decide (j = Z.to_nat (p - 1))) as [->|]; [simplify_eq; lia|].
      apply Z.lt_le_incl. destruct Hs. eapply (asc_lookup l); eauto. lia. }
    split; [split; [split; [lia|by rewrite Hx]|lia]|]. split; [split|done].
    + eapply Hhi; [|done]. lia.
    + apply Hmn; [by eapply list_elem_of_lookup_2|done].
  - unfold mdb_idl_first. rewrite arr_get_0. cbn [mbind option_bind].
    rewrite (proj2 (Z.eqb_neq NOID 0)), Z.eqb_refl by done.
    change (arr_get (_ :: lo :: hi :: junk) 1) with (Some lo). cbn [mbind option_bind].
    eexists _, _. split; [done|]. case_if; zb; split_and!; try lia; try (left; lia).
    all: intros; lia.
Qed.

(** ** Intersection *)

Section inter.
Variables (la : list Z) (sb : idset) (junkb : list Z) (idmin idmax : Z).
Hypothesis Hla : ids_ok la.
Hypothesis Hsb : set_ok sb.
Hypothesis Hmax : 0 < idmin /\ idmax < NOID.
Hypothesis Hbounds : forall x, x ∈ la -> set_mem sb x -> idmin <= x <= idmax.

(** The state of the loop: [c] IDs were written, those from [cursora] on are
    still the original ones. *)
Definition inter_inv (st : list Z * Z * Z * Z * Z * Z) : Prop :=
  let '(a, ida, cursora, idb, cursorb, cursorc) := st in
  exists cells junk, a = Z.of_nat (length la) :: cells ++ junk /\ length cells = length la /\
    0 <= cursorc < cursora /\ cursora <= Z.of_nat (length la) + 1 /\
    (forall i, cursora - 1 <= Z.of_nat i -> cells !! i = la !! i) /\
    from la cursora ida /\ it_at sb cursorb idb /\ idb <= NOID /\
    let r := take (Z.to_nat cursorc) cells in
    asc r /\ (forall x, x ∈ r -> x ∈ la /\ set_mem sb x /\ x < ida /\ x < idb) /\
    (forall x, x ∈ la -> set_mem sb x -> x < ida \/ x < idb -> x ∈ r).

Lemma from_le_NOID l k x : ids_ok l -> from l k x -> 0 < x <= NOID.
Proof.
  intros [_ Hv _] [_ ->]. destruct (l !! _) eqn:E; [|unfold NOID; lia].
  rewrite Forall_lookup in Hv. apply Hv in E. unfold id_ok in E. lia.
Qed.

(** Advancing in the list that is being overwritten behind the cursor. *)
Lemma inter_next_a cells junk cursora ida :
  length cells = length la -> 1 <= cursora <= Z.of_nat (length la) ->
  (forall i, cursora <= Z.of_nat i -> cells !! i = la !! i) -> from la cursora ida ->
  exists ida', mdb_idl_next (Z.of_nat (length la) :: cells ++ junk) cursora = Some (ida', cursora + 1) /\
    from la (cursora + 1) ida' /\ ida < ida' /\ forall z, z ∈ la -> ida < z -> ida' <= z.
Proof.
  intros Hlen Hc Heq Hf. pose proof (ids_len_small la Hla).
  rewrite (next_list_gen (Z.of_nat (length la)) cells) by lia. rewrite Heq by lia.
  eexists. split; [done|].
  assert (from la (cursora + 1) match la !! Z.to_nat cursora with Some y => y | None => NOID end) as Hf'.
  { split; [lia|]. by replace (cursora + 1 - 1) with cursora by lia. }
  assert (ida <> NOID) as Hne.
  { destruct Hf as [_ ->]. destruct (lookup_lt_is_Some_2 la (Z.to_nat (cursora - 1))) as [y Hy]; [lia|].
    rewrite Hy. destruct Hla as [_ Hv _]. rewrite Forall_lookup in Hv. apply Hv in Hy. unfold id_ok in Hy. lia. }
  split; [done|]. split; [apply (from_asc_next la cursora ida _ 0 Hla Hf Hf' Hne)|].
  intros z. by apply (from_asc_next la cursora ida _ z Hla Hf Hf' Hne).
Qed.

Lemma from_in_range cursora ida :
  from la cursora ida -> ida <= idmax -> 1 <= cursora <= Z.of_nat (length la).
Proof.
  intros [Hk ->] Hle. destruct (la !! _) eqn:E; [|lia]. apply lookup_lt_Some in E. lia.
Qed.

Lemma inter_step_ok st :
  inter_inv st -> exists r, idl_inter_step (set_cells sb junkb) idmax st = Some r /\
  match r with
  | inl st' => inter_inv st' /\
      (let '(_, ida, _, idb, _, _) := st in Z.max 0 (idmax + 1 - ida) + Z.max 0 (idmax + 1 - idb)) >
      (let '(_, ida, _, idb, _, _) := st' in Z.max 0 (idmax + 1 - ida) + Z.max 0 (idmax + 1 - idb))
  | inr a => exists r junk, a = set_cells (SList r) junk /\ ids_ok r /\ (length r <= length la)%nat /\
      forall x, x ∈ r <-> x ∈ la /\ set_mem sb x
  end.
Proof.
  destruct st as [[[[[a ida] ca] idb] cb] cc].
  intros (cells & junk & -> & Hlen & Hcc & Hca & Heq & Hfa & Hib & Hbn & Hr & Hin & Hall).
  unfold idl_inter_step. destruct ((ida <=? idmax) || (idb <=? idmax)) eqn:E.
  2: { zb. rewrite arr_set_0. cbn [mbind option_bind]. eexists. split; [done|].
       exists (take (Z.to_nat cc) cells), (drop (Z.to_nat cc) cells ++ junk).
       assert (length (take (Z.to_nat cc) cells) = Z.to_nat cc) as Hlt by (rewrite length_take; lia).
       split.
       { unfold set_cells. rewrite Hlt, app_assoc, take_drop, Z2Nat.id by lia. done. }
       pose proof (ids_len_small la Hla). split; [split; [done| |]|split; [lia|]].
       - apply list.Forall_forall. intros x Hx. destruct (Hin x Hx) as (Hxa & _).
         destruct Hla as [_ Hv _]. rewrite list.Forall_forall in Hv. auto.
       - rewrite Hlt. change MDB_IDL_UM_MAX with 131071. lia.
       - intros x. split; [intros Hx; destruct (Hin x Hx); tauto|].
         intros [Hx Hxb]. apply Hall; [done|done|]. specialize (Hbounds x Hx Hxb). lia. }
  apply orb_prop in E. rewrite !Z.leb_le in E.
  destruct (Z.eqb_spec ida idb) as [<-|Hne]; [|destruct (Z.ltb_spec ida idb)].
  - assert (ida <= idmax) by lia. pose proof (from_in_range ca ida Hfa ltac:(done)) as Hcar.
    pose proof (ids_len_small la Hla).
    rewrite uwrap_small by lia. rewrite arr_set_Some by (simpl; rewrite length_app; lia).
    cbn [mbind option_bind]. replace (Z.to_nat (cc + 1)) with (S (Z.to_nat cc)) by lia. simpl insert.
    rewrite insert_app_l by lia. set (cells' := <[Z.to_nat cc := ida]> cells).
    assert (length cells' = length la) as Hlen' by (unfold cells'; by rewrite length_insert).
    destruct (inter_next_a cells' junk ca ida Hlen' ltac:(lia)) as (ida' & -> & Hfa' & Hlt & Hsucc); [|done|].
    { intros i Hi. unfold cells'. rewrite list_lookup_insert_ne by lia. apply Heq. lia. }
    cbn [mbind option_bind].
    destruct (it_next sb junkb cb ida Hsb Hib ltac:(lia)) as (idb' & cb' & -> & Hib' & Hltb & Hsuccb).
    cbn [mbind option_bind]. eexists. split; [done|]. split; [|lia].
    exists cells', junk.
    assert (take (Z.to_nat (cc + 1)) cells' = take (Z.to_nat cc) cells ++ [ida]) as Htk.
    { replace (Z.to_nat (cc + 1)) with (S (Z.to_nat cc)) by lia. unfold cells'.
      rewrite (take_S_r _ _ ida) by (apply list_lookup_insert_eq; lia).
      rewrite take_insert_ge by lia. done. }
    cbn zeta. rewrite Htk. split_and!; try done; try lia.
    + intros i Hi. unfold cells'. rewrite list_lookup_insert_ne by lia. apply Heq. lia.
    + apply asc_app; [done|repeat constructor|]. intros x y Hx Hy.
      apply list_elem_of_singleton in Hy as ->. by apply Hin.
    + assert (ida ∈ la) as Hida.
      { destruct Hfa as [_ Hx]. destruct (la !! _) eqn:E'; [|lia]. subst. by eapply list_elem_of_lookup_2. }
      intros x [Hx|Hx]%elem_of_app.
      * destruct (Hin x Hx) as (? & ? & ? & ?). split_and!; try done; lia.
      * apply list_elem_of_singleton in Hx as ->. split_and!; try done; try lia.
        eapply it_at_mem; [done|lia].
    + intros x Hx Hxb Hor. apply elem_of_app. destruct (Z.lt_trichotomy x ida) as [?|[->|?]].
      * left. apply Hall; auto.
      * right. by apply list_elem_of_singleton.
      * specialize (Hsucc x Hx ltac:(done)). specialize (Hsuccb x Hxb ltac:(done)). lia.
  - assert (ida <= idmax) by lia. pose proof (from_in_range ca ida Hfa ltac:(done)) as Hcar.
    destruct (inter_next_a cells junk ca ida Hlen ltac:(lia)) as (ida' & -> & Hfa' & Hlt & Hsucc); [|done|].
    { intros i Hi. apply Heq. lia. }
    cbn [mbind option_bind]. eexists. split; [done|]. split; [|lia].
    exists cells, junk. cbn zeta. split_and!; try done; try lia.
    + intros i Hi. apply Heq. lia.
    + intros x Hx. destruct (Hin x Hx) as (? & ? & ? & ?). split_and!; try done; lia.
    + intros x Hx Hxb Hor. apply Hall; [done|done|]. destruct (Z.lt_ge_cases x idb); [by right|].
      specialize (Hsucc x Hx ltac:(lia)). lia.
  - assert (idb <= idmax) by lia.
    destruct (it_next sb junkb cb idb Hsb Hib ltac:(lia)) as (idb' & cb' & -> & Hib' & Hltb & Hsuccb).
    cbn [mbind option_bind]. eexists. split; [done|]. split; [|lia].
    exists cells, junk. cbn zeta. split_and!; try done; try lia.
    + intros x Hx. destruct (Hin x Hx) as (? & ? & ? & ?). split_and!; try done; lia.
    + intros x Hx Hxb Hor. apply Hall; [done|done|]. destruct (Z.lt_ge_cases x ida); [by left|].
      specialize (Hsuccb x Hxb ltac:(lia)). lia.
Qed.

Lemma cells_first sx jx y :
  set_ok sx -> set_mem sx y ->
  exists f, arr_get (set_cells sx jx) 1 = Some f /\ set_mem sx f /\ forall z, set_mem sx z -> f <= z.
Proof.
  destruct sx as [l|lo hi]; cbn [set_ok set_mem set_cells]; intros Hs Hy.
  - destruct l as [|f l]; [by apply elem_of_nil in Hy|]. exists f. split; [done|].
    split; [by left|]. intros z Hz. destruct Hs as [Ha _ _]. inversion Ha as [|? ? _ Hf]; subst.
    apply elem_of_cons in Hz as [->|Hz]; [done|]. rewrite list.Forall_forall in Hf.
    apply Z.lt_le_incl. auto.
  - exists lo. split; [done|]. split; [lia|]. intros. lia.
Qed.

Lemma cells_last sx jx y :
  set_ok sx -> set_mem sx y ->
  exists z, MDB_IDL_LAST (set_cells sx jx) = Some z /\ set_mem sx z /\ forall x, set_mem sx x -> x <= z.
Proof.
  destruct sx as [l|lo hi]; cbn [set_ok set_mem set_cells]; intros Hs Hy.
  - unfold MDB_IDL_LAST, MDB_IDL_IS_RANGE, MDB_IDL_LLAST. rewrite arr_get_0. cbn [mbind option_bind].
    rewrite not_range by (by apply ids_len_small).
    destruct (idl_list_last l jx (Z.of_nat (length l))) as (z & -> & Hz).
    { intros ->. by apply elem_of_nil in Hy. }
    exists z. split; [done|]. split.
    { rewrite last_lookup in Hz. by eapply list_elem_of_lookup_2. }
    intros x Hx. destruct l as [|f l]; [by apply elem_of_nil in Hx|].
    destruct Hs as [Ha _ _]. by apply (asc_bounds _ f z x Ha).
  - exists hi. split; [done|]. split; [lia|]. intros. lia.
Qed.

(** The element-wise intersection, in the array of the list. *)
Lemma inter_list_ok ja ya yb :
  ya ∈ la -> idmin <= ya -> set_mem sb yb -> idmin <= yb -> idmin < NOID -> 0 <= idmax ->
  exists r junk, idl_inter_list mode_check (set_cells (SList la) ja) (set_cells sb junkb) idmin idmax
      = Some (set_cells (SList r) junk) /\
    ids_ok r /\ (length r <= length la)%nat /\ forall x, x ∈ r <-> x ∈ la /\ set_mem sb x.
Proof.
  intros Hya Hmya Hyb Hmyb Hmn Hmx. unfold idl_inter_list.
  destruct (cells_first sb junkb yb Hsb Hyb) as (f & -> & Hf & Hfmin).
  destruct (cells_first (SList la) ja ya Hla Hya) as (fa & Hfa & Hfam & Hfamin).
  destruct (cells_last (SList la) ja ya Hla Hya) as (z & Hz & Hzm & Hzmax).
  unfold MDB_IDL_FIRST. rewrite Hfa. cbn [mbind option_bind].
  assert (MDB_IDL_LLAST (set_cells (SList la) ja) = Some z) as ->.
  { unfold MDB_IDL_LAST, MDB_IDL_IS_RANGE in Hz. cbn [set_cells] in *. rewrite arr_get_0 in Hz.
    cbn [mbind option_bind] in Hz. by rewrite not_range in Hz by (by apply ids_len_small). }
  assert (exists br : bool, MDB_IDL_IS_RANGE (set_cells sb junkb) = Some br /\
    (br = true -> exists lo hi, sb = SRange lo hi)) as (br & -> & Hbr).
  { destruct sb as [l|lo hi]; unfold MDB_IDL_IS_RANGE; cbn [set_cells]; rewrite arr_get_0; cbn [mbind option_bind];
      eexists; (split; [done|]); [|eauto]. rewrite not_range by (by apply ids_len_small). done. }
  cbn [mbind option_bind].
  assert (exists cov : bool, (if br && (f <=? fa) then l ← arr_get (set_cells sb junkb) 2; Some (l >=? z) else Some false)
            = Some cov /\ (cov = true -> forall x, x ∈ la -> set_mem sb x)) as (cov & -> & Hcov).
  { destruct (br && (f <=? fa)) eqn:E; [|by eexists]. zb. destruct (Hbr ltac:(done)) as (lo & hi & ->).
    cbn [set_cells]. change (arr_get (_ :: lo :: hi :: junkb) 2) with (Some hi). cbn [mbind option_bind].
    eexists. split; [done|]. intros Hge. zb. intros x Hx. cbn [set_mem] in *.
    specialize (Hfamin x Hx). specialize (Hzmax x Hx). lia. }
  cbn [mbind option_bind]. destruct cov.
  { exists la, ja. split; [done|]. split; [done|]. split; [done|]. intros x. split; [|tauto]. auto. }
  destruct (it_first (SList la) ja idmin ya Hla ltac:(lia) Hya Hmya) as (ida & ca & -> & [Hita Hca] & Hida & Hmina).
  destruct (it_first sb junkb idmin yb Hsb ltac:(lia) Hyb Hmyb) as (idb & cb & -> & Hitb & Hidb & Hminb).
  cbn [mbind option_bind].
  destruct (run_ok (idl_inter_step (set_cells sb junkb) idmax) inter_inv
    (fun '(_, ida, _, idb, _, _) => Z.max 0 (idmax + 1 - ida) + Z.max 0 (idmax + 1 - idb))
    (fun a => exists r junk, a = set_cells (SList r) junk /\ ids_ok r /\ (length r <= length la)%nat /\
      forall x, x ∈ r <-> x ∈ la /\ set_mem sb x)) with (k := 66%nat)
    (s := (set_cells (SList la) ja, ida, ca, idb, cb, 0)) as (a & -> & r & junk & -> & ? & ? & ?).
  - intros st Hst. split; [destruct st as [[[[[? ?] ?] ?] ?] ?]; lia|].
    destruct (inter_step_ok st Hst) as (res & -> & Hres). exists res. split; [done|].
    destruct res as [st'|]; [|done]. destruct Hres. split; [done|].
    destruct st as [[[[[? ?] ?] ?] ?] ?], st' as [[[[[? ?] ?] ?] ?] ?]. lia.
  - pose proof (ids_len_small la Hla). destruct Hita as [Hk Hx].
    assert (ca <= Z.of_nat (length la)).
    { destruct (la !! Z.to_nat (ca - 1)) eqn:E; [apply lookup_lt_Some in E; lia|].
      destruct Hla as [_ Hv _]. rewrite list.Forall_forall in Hv. specialize (Hv _ Hya). unfold id_ok in Hv. lia. }
    exists la, ja. cbn zeta. split_and!; try done; try lia.
    + destruct sb as [l|lo hi]; [|cbn in Hyb, Hsb; lia]. cbn in Hyb.
      destruct Hsb as [_ Hv _]. rewrite list.Forall_forall in Hv. specialize (Hv _ Hyb). unfold id_ok in Hv. lia.
    + constructor.
    + intros x Hx'. by apply elem_of_nil in Hx'.
    + intros x Hxa Hxb [Hlt|Hlt]; specialize (Hbounds x Hxa Hxb);
        [specialize (Hmina x Hxa)|specialize (Hminb x Hxb)]; lia.
  - assert (0 < ida /\ 0 < idb) by lia. change (2 ^ Z.of_nat 66) with (2 ^ 66). unfold NOID in *. lia.
  - exists r, junk. done.
Qed.
End inter.
End sets.

(** ** The whole intersection *)

Definition set_empty (s : idset) : Prop := s = SList [].

Lemma set_inhabited s : set_ok s -> ~ set_empty s -> exists y, set_mem s y.
Proof.
  destruct s as [[|y l]|lo hi]; cbn; intros Hs He; [by destruct He|exists y; by left|exists lo; lia].
Qed.

Lemma cells_zero s junk :
  set_ok s -> exists z : bool, MDB_IDL_IS_ZERO (set_cells s junk) = Some z /\ (z = true <-> set_empty s).
Proof.
  destruct s as [l|lo hi]; intros Hs; unfold MDB_IDL_IS_ZERO, set_empty; cbn [set_cells];
    rewrite arr_get_0; cbn [mbind option_bind]; eexists; (split; [done|]); rewrite Z.eqb_eq.
  - split; [|by intros [= ->]]. intros. destruct l; [done|simpl in *; lia].
  - split; done.
Qed.

Lemma cells_range s junk :
  set_ok s -> exists r : bool, MDB_IDL_IS_RANGE (set_cells s junk) = Some r /\
    match s with SList _ => r = false | SRange _ _ => r = true end.
Proof.
  destruct s as [l|lo hi]; intros Hs; unfold MDB_IDL_IS_RANGE; cbn [set_cells];
    rewrite arr_get_0; cbn [mbind option_bind]; eexists; (split; [done|]); [|done].
  by rewrite not_range by (by apply ids_len_small).
Qed.

Lemma cpy_list dst r junk :
  (S (length r) <= length dst)%nat -> ids_ok r ->
  exists junk', MDB_IDL_CPY dst (set_cells (SList r) junk) = Some (set_cells (SList r) junk').
Proof.
  intros Hc Hr. pose proof (ids_len_small r Hr). unfold MDB_IDL_CPY, MDB_IDL_SIZE. cbn [set_cells].
  rewrite arr_get_0. cbn [mbind option_bind]. rewrite not_range by done.
  rewrite uwrap_small by lia. replace (Z.to_nat (Z.of_nat (length r) + 1)) with (S (length r)) by lia.
  unfold mem_read. rewrite decide_True by (simpl; rewrite length_app; lia). cbn [mbind option_bind].
  rewrite drop_0. cbn [take]. rewrite take_app_length. unfold mem_write. rewrite decide_True by (simpl; lia).
  exists (drop (S (length r)) dst). simpl. done.
Qed.

Section intersection.
Variable mode_check : bool.

Lemma intersection_spec sa sb ja jb :
  set_ok sa -> set_ok sb ->
  match sb with SList l => (S (length l) <= length (set_cells sa ja))%nat | _ => True end ->
  exists s' a' b', mdb_idl_intersection mode_check (set_cells sa ja) (set_cells sb jb) = Some (a', b') /\
    repr a' s' /\ set_ok s' /\
    (forall x, set_mem sa x -> set_mem sb x -> set_mem s' x) /\
    ((forall x, set_mem s' x -> set_mem sa x /\ set_mem sb x) \/
     (exists m, s' = SList [m] /\ (set_mem sa m \/ set_mem sb m) /\
        forall x, set_mem sa x -> set_mem sb x -> x = m)).
Proof.
  intros Ha Hb Hcap. unfold mdb_idl_intersection.
  destruct (cells_zero sa ja Ha) as (za & -> & Hza). destruct (cells_zero sb jb Hb) as (zb' & -> & Hzb).
  cbn [mbind option_bind].
  assert (Hset0 : exists junk', arr_set (set_cells sa ja) 0 0 = Some (set_cells (SList []) junk')).
  { destruct sa as [l|lo hi]; cbn [set_cells]; rewrite arr_set_0; eexists; reflexivity. }
  assert (Hempty : ids_ok []) by (split; [constructor|constructor|done]).
  assert (Hnone : (forall x, set_mem sa x -> set_mem sb x -> False) ->
    exists s' a' b', (a ← arr_set (set_cells sa ja) 0 0; Some (a, set_cells sb jb)) = Some (a', b') /\
    repr a' s' /\ set_ok s' /\ (forall x, set_mem sa x -> set_mem sb x -> set_mem s' x) /\
    ((forall x, set_mem s' x -> set_mem sa x /\ set_mem sb x) \/
     (exists m, s' = SList [m] /\ (set_mem sa m \/ set_mem sb m) /\
        forall x, set_mem sa x -> set_mem sb x -> x = m))).
  { intros Hno. destruct Hset0 as (junk' & ->). cbn [mbind option_bind].
    exists (SList []). eexists _, _. split; [done|]. split; [by eexists|]. split; [done|].
    split; [intros x ? ?; by destruct (Hno x)|]. left. intros x Hx. by apply elem_of_nil in Hx. }
  destruct (za || zb') eqn:Ez.
  { apply Hnone. intros x Hxa Hxb. apply orb_prop in Ez as [->| ->].
    - destruct Hza as [Hza _]. rewrite (Hza eq_refl) in Hxa. by apply elem_of_nil in Hxa.
    - destruct Hzb as [Hzb _]. rewrite (Hzb eq_refl) in Hxb. by apply elem_of_nil in Hxb. }
  apply orb_false_elim in Ez as [-> ->].
  destruct (set_inhabited sa Ha ltac:(by intros ?%Hza)) as (ya & Hya).
  destruct (set_inhabited sb Hb ltac:(by intros ?%Hzb)) as (yb & Hyb).
  destruct (cells_first sa ja ya Ha Hya) as (fa & Hfa & Hfam & Hfamin).
  destruct (cells_first sb jb yb Hb Hyb) as (fb & Hfb & Hfbm & Hfbmin).
  destruct (cells_last sa ja ya Ha Hya) as (la & Hla & Hlam & Hlamax).
  destruct (cells_last sb jb yb Hb Hyb) as (lb & Hlb & Hlbm & Hlbmax).
  unfold MDB_IDL_FIRST. rewrite Hfa, Hfb, Hla, Hlb. cbn [mbind option_bind].
  assert (Hpos : forall s x, set_ok s -> set_mem s x -> 0 < x <= NOID).
  { intros [l|lo hi] x; cbn; intros Hs Hx; [|lia]. destruct Hs as [_ Hv _].
    rewrite list.Forall_forall in Hv. specialize (Hv _ Hx). unfold id_ok in Hv. lia. }
  assert (IDL_MAX fa fb = Z.max fa fb) as -> by (unfold IDL_MAX; case_if; zb; lia).
  assert (IDL_MIN la lb = Z.min la lb) as -> by (unfold IDL_MIN; case_if; zb; lia).
  pose proof (Hpos sa fa Ha Hfam). pose proof (Hpos sb fb Hb Hfbm).
  pose proof (Hpos sa la Ha Hlam). pose proof (Hpos sb lb Hb Hlbm).
  assert (forall s j f y, set_ok s -> arr_get (set_cells s j) 1 = Some f -> set_mem s y -> f < NOID) as HfN.
  { intros [l|lo hi] j f y; cbn [set_ok set_cells set_mem]; intros Hs Hf Hy.
    - destruct l as [|g l]; [by apply elem_of_nil in Hy|]. injection Hf as <-.
      destruct Hs as [_ Hv _]. inversion Hv as [|? ? Hg _]. unfold id_ok in Hg. lia.
    - injection Hf as <-. lia. }
  pose proof (HfN _ _ _ _ Ha Hfa Hya). pose proof (HfN _ _ _ _ Hb Hfb Hyb).
  assert (Hbounds : forall x, set_mem sa x -> set_mem sb x -> Z.max fa fb <= x <= Z.min la lb).
  { intros x Hxa Hxb. specialize (Hfamin x Hxa). specialize (Hfbmin x Hxb).
    specialize (Hlamax x Hxa). specialize (Hlbmax x Hxb). lia. }
  case_if; zb.
  { apply Hnone. intros x Hxa Hxb. specialize (Hbounds x Hxa Hxb). lia. }
  case_if; zb.
  { assert (exists junk', arr_set (set_cells sa ja) 0 1 ≫= (fun a => arr_set a 1 (Z.max fa fb))
        = Some (set_cells (SList [Z.max fa fb]) junk')) as (junk' & Hset).
    { destruct sa as [[|f l]|lo hi]; [by apply elem_of_nil in Hya|..]; cbn [set_cells];
        rewrite arr_set_0; cbn [mbind option_bind app]; rewrite arr_set_1; eexists; reflexivity. }
    destruct (arr_set (set_cells sa ja) 0 1) as [a1|]; [|done]. cbn [mbind option_bind] in *.
    rewrite Hset. cbn [mbind option_bind].
    exists (SList [Z.max fa fb]). eexists _, _. split; [done|]. split; [by eexists|].
    split; [|split].
    - split; [repeat constructor| |done]. repeat constructor; lia.
    - intros x Hxa Hxb. apply list_elem_of_singleton. specialize (Hbounds x Hxa Hxb). lia.
    - right. exists (Z.max fa fb). split; [done|]. split.
      + destruct (Z.max_spec fa fb) as [[_ ->]|[_ ->]]; auto.
      + intros x Hxa Hxb. specialize (Hbounds x Hxa Hxb). lia. }
  destruct (cells_range sa ja Ha) as (ra & -> & Hra). cbn [mbind option_bind].
  destruct sa as [l|lo hi]; subst ra.
  - assert (la < NOID) by (destruct Ha as [_ Hv _]; rewrite list.Forall_forall in Hv; by apply Hv).
    destruct (inter_list_ok mode_check l sb jb (Z.max fa fb) (Z.min la lb) Ha Hb ltac:(lia) Hbounds ja la lb)
      as (r & junk & -> & Hr & Hlr & Hmem); try done; try lia.
    cbn [mbind option_bind]. exists (SList r). eexists _, _. split; [done|]. split; [by eexists|].
    split; [done|]. cbn [set_mem]. split; [intros; by apply Hmem|]. left. intros x. by apply Hmem.
  - destruct (cells_range sb jb Hb) as (rb & -> & Hrb). cbn [mbind option_bind].
    destruct sb as [l|lo' hi']; subst rb.
    + assert (lb < NOID) by (destruct Hb as [_ Hv _]; rewrite list.Forall_forall in Hv; by apply Hv).
      destruct (inter_list_ok mode_check l (SRange lo hi) ja (Z.max fa fb) (Z.min la lb) Hb Ha ltac:(lia))
        with (ja := jb) (ya := lb) (yb := la) as (r & junk & -> & Hr & Hlr & Hmem); try done; try lia.
      { intros x ? ?. by apply Hbounds. }
      cbn [mbind option_bind].
      destruct (cpy_list (set_cells (SRange lo hi) ja) r junk) as (junk' & ->); [lia|done|].
      cbn [mbind option_bind]. exists (SList r). eexists _, _. split; [done|]. split; [by eexists|].
      split; [done|]. split; [intros x ? ?; by apply Hmem|]. left. intros x Hx. apply Hmem in Hx. tauto.
    + cbn [set_cells]. rewrite arr_set_1. cbn [mbind option_bind]. rewrite arr_set_2. cbn [mbind option_bind].
      exists (SRange (Z.max fa fb) (Z.min la lb)). eexists _, _. split; [done|]. split; [by eexists|].
      cbn [set_ok set_mem] in *. split; [lia|]. split; [intros x ? ?; by apply Hbounds|].
      left. intros x Hx. injection Hfa as <-. injection Hfb as <-.
      injection Hla as <-. injection Hlb as <-. lia.
Qed.
End intersection.
