(* ===== verification/IdlUnion.v ===== *)
(** * The union of ID lists, and the theorems about ID lists

    The two loops of [mdb_idl_union]: the IDs of [a] that are missing from [b]
    are put behind those of [b], then both parts are merged into [a]. *)

From stdpp Require Import sorting.
From stdpp Require Import base list numbers option.
From S2P Require Import Prelude Idl IdlProofs IdlSets.

Local Open Scope Z_scope.

Section union.
Variables (la lb : list Z).
Hypothesis Hla : ids_ok la.
Hypothesis Hlb : ids_ok lb.

(** ** The first loop *)

Section cat.
Variable ja : list Z.
Abbreviation acells := (set_cells (SList la) ja).

(** How many cells the array [b] has to have. *)
Variable cap : Z.
Hypothesis Hcap : Z.min (MDB_IDL_UM_MAX + 1) (Z.of_nat (length la + length lb) + 1) <= cap.

Definition cat_inv (st : list Z * Z * Z * Z * Z * Z) : Prop :=
  let '(b, ida, ca, idb, cb, cc) := st in
  exists ext junk, b = Z.of_nat (length lb) :: lb ++ ext ++ junk /\ cap <= Z.of_nat (length b) /\
    cc = Z.of_nat (length lb + length ext) /\ cc <= MDB_IDL_UM_MAX /\
    from la ca ida /\ from lb cb idb /\
    ca <= Z.of_nat (length la) + 1 /\ cb <= Z.of_nat (length lb) + 1 /\
    Z.of_nat (length ext) <= ca - 1 /\
    asc ext /\ (forall x, x ∈ ext -> x ∈ la /\ (x ∉ lb) /\ x < ida) /\
    (forall x, x ∈ la -> x < ida -> x ∈ lb \/ x ∈ ext) /\
    (forall y, y ∈ lb -> y < idb -> y < ida).

(** What the first loop leaves: the missing IDs, or too many of them. *)
Definition cat_post (r : list Z * option Z) : Prop :=
  match r with
  | (b, Some cc) => exists ext junk, b = Z.of_nat (length lb) :: lb ++ ext ++ junk /\
      cap <= Z.of_nat (length b) /\ cc = Z.of_nat (length lb + length ext) /\ cc <= MDB_IDL_UM_MAX /\
      (length ext <= length la)%nat /\ asc ext /\ forall x, x ∈ ext <-> x ∈ la /\ x ∉ lb
  | (b, None) => exists junk, b = set_cells (SList lb) junk
  end.

Lemma from_next l k x :
  ids_ok l -> from l k x -> x <> NOID -> k <= Z.of_nat (length l) + 1 ->
  forall junk, exists y, mdb_idl_next (set_cells (SList l) junk) k = Some (y, k + 1) /\ from l (k + 1) y /\
    k + 1 <= Z.of_nat (length l) + 1 /\ x < y /\ (forall z, z ∈ l -> x < z -> y <= z) /\ x ∈ l.
Proof.
  intros Hl Hf Hne Hk junk. pose proof (ids_len_small l Hl). pose proof Hf as [Hk1 Hx].
  assert (x ∈ l /\ k <= Z.of_nat (length l)) as [Hxl Hkl].
  { destruct (l !! Z.to_nat (k - 1)) eqn:E; [|done]. subst. split; [by eapply list_elem_of_lookup_2|].
    apply lookup_lt_Some in E. lia. }
  cbn [set_cells]. rewrite (next_list_gen (Z.of_nat (length l)) l) by lia. eexists. split; [done|].
  assert (from l (k + 1) match l !! Z.to_nat k with Some y => y | None => NOID end) as Hf'.
  { split; [lia|]. by replace (k + 1 - 1) with k by lia. }
  split; [done|]. split; [lia|]. split; [by apply (from_asc_next l k x _ 0 Hl Hf Hf' Hne)|].
  split; [|done]. intros z. by apply (from_asc_next l k x _ z Hl Hf Hf' Hne).
Qed.

Lemma cat_step_ok st :
  cat_inv st -> exists r, idl_cat_step acells st = Some r /\
  match r with
  | inl st' => cat_inv st' /\
      (let '(_, _, ca, _, cb, _) := st in Z.of_nat (length la + length lb) + 2 - ca - cb) >
      (let '(_, _, ca, _, cb, _) := st' in Z.of_nat (length la + length lb) + 2 - ca - cb)
  | inr r => cat_post r
  end.
Proof.
  destruct st as [[[[[b ida] ca] idb] cb] cc].
  intros (ext & junk & -> & Hlen & -> & Hcc & Hfa & Hfb & Hca & Hcb & Hext & Hasc & Hin & Hall & Hsep).
  pose proof (ids_len_small la Hla). pose proof (ids_len_small lb Hlb).
  pose proof (from_le_NOID la ca ida Hla Hfa) as Hida. pose proof (from_le_NOID lb cb idb Hlb Hfb) as Hidb.
  pose proof Hfa as [Hca1 _]. pose proof Hfb as [Hcb1 _].
  unfold idl_cat_step. destruct (negb (ida =? NOID) || negb (idb =? NOID)) eqn:E.
  2: { zb. eexists. split; [done|]. exists ext, junk. split_and!; try done; try lia. intros x. split.
       - intros Hx. destruct (Hin x Hx). tauto.
       - intros [Hx Hnx]. destruct (Hall x Hx) as [?|?]; [|done|done].
         destruct Hla as [_ Hv _]. rewrite list.Forall_forall in Hv. specialize (Hv x Hx).
         unfold id_ok in Hv. lia. }
  destruct (Z.ltb_spec ida idb).
  - destruct (from_next la ca ida Hla Hfa ltac:(lia) Hca ja) as (ida' & Hnx & Hfa' & Hca' & Hlt & Hsucc & Hmem).
    assert (ida ∉ lb) as Hnb by (intros Hb; specialize (Hsep ida Hb ltac:(done)); lia).
    rewrite uwrap_small by lia. change MDB_IDL_UM_MAX with 131071 in *. case_if; zb.
    { eexists. split; [done|]. exists (ext ++ junk). done. }
    assert (exists j0 junk', junk = j0 :: junk') as (j0 & junk' & ->).
    { destruct junk; [|eauto]. exfalso. cbn [length] in Hlen. rewrite !length_app in Hlen. simpl in Hlen. lia. }
    rewrite arr_set_Some by (cbn [length]; rewrite !length_app; simpl; lia).
    cbn [mbind option_bind]. rewrite Hnx. cbn [mbind option_bind]. eexists. split; [done|]. split; [|lia].
    exists (ext ++ [ida]), junk'.
    replace (Z.to_nat (Z.of_nat (length lb + length ext) + 1)) with (S (length lb + length ext)) by lia.
    simpl insert. rewrite insert_app_r, insert_app_r_alt by lia. rewrite Nat.sub_diag.
    simpl insert. rewrite <- (app_assoc ext). cbn [app].
    split_and!; try done; rewrite ?length_app; cbn [length]; rewrite ?length_app; cbn [length]; try lia.
    + cbn [length] in Hlen. rewrite !length_app in Hlen. cbn [length] in Hlen. lia.
    + apply asc_app; [done|repeat constructor|]. intros x y Hx Hy.
      apply list_elem_of_singleton in Hy as ->. by apply Hin.
    + intros x [Hx|Hx]%elem_of_app; [destruct (Hin x Hx) as (? & ? & ?); split_and!; try done; lia|].
      apply list_elem_of_singleton in Hx as ->. done.
    + intros x Hx Hxl. destruct (Z.lt_trichotomy x ida) as [?|[->|?]].
      * destruct (Hall x Hx) as [?|?]; [done|by left|right; apply elem_of_app; by left].
      * right. apply elem_of_app. right. by apply list_elem_of_singleton.
      * specialize (Hsucc x Hx ltac:(done)). lia.
    + intros y Hy Hyb. specialize (Hsep y Hy Hyb). lia.
  - destruct (from_next lb cb idb Hlb Hfb ltac:(lia) Hcb (ext ++ junk))
      as (idb' & Hnb & Hfb' & Hcb' & Hltb & Hsuccb & Hmemb).
    assert (exists ida' ca', (if ida =? idb then mdb_idl_next acells ca else Some (ida, ca)) = Some (ida', ca') /\
      from la ca' ida' /\ ca <= ca' <= Z.of_nat (length la) + 1 /\ ida <= ida' /\ idb < ida' /\
      (forall x, x ∈ la -> ida < x -> ida' <= x) /\ (ida <> ida' -> ida = idb)) as
      (ida' & ca' & -> & Hfa' & Hca' & Hle & Hlt & Hsucc & Hch).
    { case_if; zb.
      - destruct (from_next la ca ida Hla Hfa ltac:(lia) Hca ja) as (ida' & -> & ? & ? & ? & ? & _).
        exists ida', (ca + 1). split_and!; try done; lia.
      - exists ida, ca. split_and!; try done; try lia; intros; lia. }
    cbn [mbind option_bind]. change (mdb_idl_next _ cb) with (mdb_idl_next (set_cells (SList lb) (ext ++ junk)) cb).
    rewrite Hnb. cbn [mbind option_bind]. eexists. split; [done|]. split; [|lia].
    exists ext, junk. split_and!; try done; try lia.
    + intros x Hx. destruct (Hin x Hx) as (? & ? & ?). split_and!; try done; lia.
    + intros x Hx Hxl. destruct (Z.lt_trichotomy x ida) as [?|[->|?]]; [by apply Hall| |].
      * left. rewrite Hch by lia. done.
      * specialize (Hsucc x Hx ltac:(done)). lia.
    + intros y Hy Hyb. destruct (Z.lt_ge_cases idb y) as [Hgt|?]; [|lia].
      specialize (Hsuccb y Hy Hgt). lia.
Qed.

End cat.

(** ** The merge *)

Section merge.
Variables (ext : list Z).
Hypothesis Hasc : asc ext.
Hypothesis Hext : forall x, x ∈ ext -> x ∈ la /\ x ∉ lb.
Variable jb : list Z.
Abbreviation bcells := (Z.of_nat (length lb) :: lb ++ ext ++ jb).
Abbreviation nb := (Z.of_nat (length lb)).
Abbreviation na := (Z.of_nat (length lb + length ext)).
Hypothesis Hna : na <= MDB_IDL_UM_MAX.

Definition merge_inv (st : list Z * Z * Z * Z) : Prop :=
  let '(a, ca, cb, cc) := st in
  1 <= cb <= nb + 1 /\ nb + 1 <= cc <= na + 1 /\ ca = cb + (cc - nb - 1) /\
  na + 1 <= Z.of_nat (length a) /\
  exists m junk, a = na :: m ++ junk /\ Z.of_nat (length m) = ca - 1 /\ asc m /\
    (forall x, x ∈ m <-> x ∈ take (Z.to_nat (cb - 1)) lb \/ x ∈ take (Z.to_nat (cc - nb - 1)) ext) /\
    (forall x y, x ∈ m -> y ∈ drop (Z.to_nat (cb - 1)) lb \/ y ∈ drop (Z.to_nat (cc - nb - 1)) ext -> x < y).

(** One more ID at the end of the merged part. *)
Lemma merge_push a m junk ca x :
  a = na :: m ++ junk -> Z.of_nat (length m) = ca - 1 -> ca <= na -> na + 1 <= Z.of_nat (length a) ->
  exists junk', arr_set a ca x = Some (na :: (m ++ [x]) ++ junk') /\
    length (na :: (m ++ [x]) ++ junk') = length a.
Proof.
  intros -> Hm Hc Hl. assert (exists j0 junk', junk = j0 :: junk') as (j0 & junk' & ->).
  { destruct junk; [|eauto]. exfalso. cbn [length] in Hl. rewrite length_app in Hl. simpl in Hl. lia. }
  exists junk'. rewrite arr_set_Some by (simpl; rewrite length_app; simpl; lia).
  replace (Z.to_nat ca) with (S (length m)) by lia. simpl insert.
  rewrite insert_app_r_alt, Nat.sub_diag by lia. simpl insert.
  rewrite <- app_assoc. cbn [app length]. split; [done|]. rewrite !length_app. done.
Qed.

Lemma drop_cons_take (l : list Z) k x :
  l !! k = Some x -> take (S k) l = take k l ++ [x] /\ drop k l = x :: drop (S k) l.
Proof. intros. split; [by apply take_S_r|by apply drop_S]. Qed.

Lemma asc_head_lt l k x y : asc l -> l !! k = Some x -> y ∈ drop (S k) l -> x < y.
Proof.
  intros Hl Hx (i & Hi)%list_elem_of_lookup_1. rewrite lookup_drop in Hi.
  eapply (asc_lookup l); eauto. lia.
Qed.

Lemma merge_step_ok st :
  merge_inv st -> exists r, idl_merge_step bcells nb na st = Some r /\
  match r with
  | inl st' => merge_inv st' /\ (let '(_, ca, _, _) := st in na + 1 - ca) > (let '(_, ca, _, _) := st' in na + 1 - ca)
  | inr a => exists m junk, a = set_cells (SList m) junk /\ length m = (length lb + length ext)%nat /\ asc m /\
      forall x, x ∈ m <-> x ∈ lb \/ x ∈ ext
  end.
Proof.
  destruct st as [[[a ca] cb] cc].
  intros (Hcb & Hcc & Hca & Hl & m & junk & Ha & Hm & Hasm & Hmem & Hlt).
  pose proof (ids_len_small lb Hlb). change MDB_IDL_UM_MAX with 131071 in *.
  unfold idl_merge_step. destruct ((cb <=? nb) || (cc <=? na)) eqn:E.
  2: { zb. eexists. split; [done|]. exists m, junk.
       assert (length m = (length lb + length ext)%nat) as Hlm by lia.
       split; [cbn [set_cells]; by rewrite Hlm|]. split; [done|]. split; [done|].
       intros x. rewrite Hmem, !take_ge by lia. done. }
  (* the head of the second part, NOID when it is used up *)
  assert (exists idb, (if cc >? na then Some NOID else arr_get bcells cc) = Some idb /\
    ((na < cc /\ idb = NOID) \/ (cc <= na /\ ext !! Z.to_nat (cc - nb - 1) = Some idb))) as (idb & -> & Hidb).
  { case_if; zb; [eauto 10|].
    destruct (lookup_lt_is_Some_2 ext (Z.to_nat (cc - nb - 1))) as [y Hy]; [lia|].
    exists y. split; [|by right]. unfold arr_get. case_if; zb; [lia|].
    replace (Z.to_nat cc) with (S (length lb + Z.to_nat (cc - nb - 1))) by lia.
    rewrite lookup_cons_ne_0 by lia. rewrite Nat.pred_succ, lookup_app_r by lia.
    replace (length lb + _ - length lb)%nat with (Z.to_nat (cc - nb - 1)) by lia.
    by rewrite lookup_app_l by (apply lookup_lt_Some in Hy; lia). }
  assert (Hgetb : forall i, 1 <= i <= nb -> arr_get bcells i = lb !! Z.to_nat (i - 1)).
  { intros i Hi. by apply idl_get_list. }
  cbn [mbind option_bind].
  assert (exists fromb : bool, (if cb <=? nb then x ← arr_get bcells cb; Some (x <? idb) else Some false) = Some fromb /\
    if fromb then exists x, lb !! Z.to_nat (cb - 1) = Some x /\ cb <= nb /\ x < idb
    else nb < cb \/ exists x, lb !! Z.to_nat (cb - 1) = Some x /\ idb <= x) as (fromb & -> & Hfrom).
  { case_if; zb; [|eexists; split; [done|]; left; lia].
    rewrite Hgetb by lia.
    destruct (lookup_lt_is_Some_2 lb (Z.to_nat (cb - 1))) as [x Hx]; [lia|]. rewrite Hx.
    cbn [mbind option_bind]. eexists. split; [done|]. case_if; zb; [eauto|right; eauto]. }
  cbn [mbind option_bind]. destruct fromb.
  - destruct Hfrom as (x & Hx & Hcbn & Hxi). rewrite Hgetb, Hx by lia. cbn [mbind option_bind].
    destruct (merge_push a m junk ca x Ha Hm ltac:(lia) Hl) as (junk' & -> & Hlen'). cbn [mbind option_bind].
    rewrite !uwrap_small by lia. eexists. split; [done|]. split; [|lia].
    destruct (drop_cons_take lb _ _ Hx) as [Htk Hdr].
    replace (Z.to_nat (cb + 1 - 1)) with (S (Z.to_nat (cb - 1))) by lia.
    split_and!; try lia. exists (m ++ [x]), junk'. split; [done|].
    rewrite length_app. cbn [length]. split; [lia|].
    replace (Z.to_nat (cb + 1 - 1)) with (S (Z.to_nat (cb - 1))) by lia. split_and!.
    + apply asc_app; [done|repeat constructor|]. intros y z Hy Hz. apply list_elem_of_singleton in Hz as ->.
      apply Hlt; [done|]. left. rewrite Hdr. by left.
    + intros y. rewrite elem_of_app, list_elem_of_singleton, Hmem, Htk, elem_of_app, list_elem_of_singleton. tauto.
    + intros y z [Hy|Hy]%elem_of_app Hz.
      * apply Hlt; [done|]. rewrite Hdr. destruct Hz; [left; by right|by right].
      * apply list_elem_of_singleton in Hy as ->. destruct Hz as [Hz|Hz].
        -- destruct Hlb as [Hal _ _]. exact (asc_head_lt lb _ _ _ Hal Hx Hz).
        -- destruct Hidb as [[? _]|[_ Hi]]; [rewrite drop_ge in Hz by lia; by apply elem_of_nil in Hz|].
           destruct (drop_cons_take ext _ _ Hi) as [_ Hde]. rewrite Hde in Hz.
           apply elem_of_cons in Hz as [->|Hz]; [done|].
           pose proof (asc_head_lt ext _ _ _ Hasc Hi Hz). lia.
  - assert (cc <= na /\ ext !! Z.to_nat (cc - nb - 1) = Some idb) as [Hccn Hi].
    { destruct Hidb as [[? ->]|?]; [|done]. exfalso.
      apply orb_prop in E as [E|E]; zb; [|lia]. destruct Hfrom as [?|(x & Hx & ?)]; [lia|].
      destruct Hlb as [_ Hv _]. rewrite Forall_lookup in Hv. apply Hv in Hx. unfold id_ok in Hx. lia. }
    destruct (merge_push a m junk ca idb Ha Hm ltac:(lia) Hl) as (junk' & -> & Hlen'). cbn [mbind option_bind].
    rewrite !uwrap_small by lia. eexists. split; [done|]. split; [|lia].
    destruct (drop_cons_take ext _ _ Hi) as [Htk Hdr].
    split_and!; try lia. exists (m ++ [idb]), junk'. split; [done|].
    rewrite length_app. cbn [length]. split; [lia|].
    replace (Z.to_nat (cc + 1 - nb - 1)) with (S (Z.to_nat (cc - nb - 1))) by lia. split_and!.
    + apply asc_app; [done|repeat constructor|]. intros y z Hy Hz. apply list_elem_of_singleton in Hz as ->.
      apply Hlt; [done|]. right. rewrite Hdr. by left.
    + intros y. rewrite elem_of_app, list_elem_of_singleton, Hmem, Htk, elem_of_app, list_elem_of_singleton. tauto.
    + intros y z [Hy|Hy]%elem_of_app Hz.
      * apply Hlt; [done|]. rewrite Hdr. destruct Hz; [by left|right; by right].
      * apply list_elem_of_singleton in Hy as ->. destruct Hz as [Hz|Hz]; [|exact (asc_head_lt ext _ _ _ Hasc Hi Hz)].
        destruct Hfrom as [?|(x & Hx & Hle)]; [rewrite drop_ge in Hz by lia; by apply elem_of_nil in Hz|].
        assert (idb <> x).
        { intros ->. destruct (Hext x) as [_ Hn]; [by eapply list_elem_of_lookup_2|].
          apply Hn. by eapply list_elem_of_lookup_2. }
        destruct (drop_cons_take lb _ _ Hx) as [_ Hde]. rewrite Hde in Hz.
        apply elem_of_cons in Hz as [->|Hz]; [lia|].
        destruct Hlb as [Hal _ _]. pose proof (asc_head_lt lb _ _ _ Hal Hx Hz). lia.
Qed.
End merge.
End union.

(** ** The whole union *)

(** The cells a set takes behind the count. *)
Definition set_size (s : idset) : Z :=
  match s with SList l => Z.of_nat (length l) | SRange _ _ => 2 end.

Definition union_cells (sa sb : idset) : Z :=
  Z.max 3 (Z.min (MDB_IDL_UM_MAX + 1) (set_size sa + set_size sb + 1)).

(** [s'] is the union, or the smallest range around it. *)
Definition union_or_hull (sa sb s' : idset) : Prop :=
  let either x := set_mem sa x \/ set_mem sb x in
  match s' with
  | SList l => forall x, x ∈ l <-> either x
  | SRange lo hi => either lo /\ either hi /\ forall x, either x -> lo <= x <= hi
  end.

Lemma set_mem_pos s x : set_ok s -> set_mem s x -> 0 < x <= NOID.
Proof.
  destruct s as [l|lo hi]; cbn; intros Hs Hx; [|lia]. destruct Hs as [_ Hv _].
  rewrite list.Forall_forall in Hv. specialize (Hv _ Hx). unfold id_ok in Hv. lia.
Qed.

Lemma cells_first_lt s j f y :
  set_ok s -> arr_get (set_cells s j) 1 = Some f -> set_mem s y -> f < NOID.
Proof.
  destruct s as [l|lo hi]; cbn [set_ok set_cells set_mem]; intros Hs Hf Hy.
  - destruct l as [|g l]; [by apply elem_of_nil in Hy|]. injection Hf as <-.
    destruct Hs as [_ Hv _]. inversion Hv as [|? ? Hg _]. unfold id_ok in Hg. lia.
  - injection Hf as <-. lia.
Qed.

(** The label [over]. *)
Lemma union_over_spec sa sb ja jb ya yb :
  set_ok sa -> set_ok sb -> set_mem sa ya -> set_mem sb yb -> 3 <= Z.of_nat (length (set_cells sa ja)) ->
  exists lo hi junk, idl_union_over (set_cells sa ja) (set_cells sb jb) = Some (set_cells (SRange lo hi) junk) /\
    set_ok (SRange lo hi) /\ union_or_hull sa sb (SRange lo hi).
Proof.
  intros Ha Hb Hya Hyb Hcap.
  destruct (cells_first sa ja ya Ha Hya) as (fa & Hfa & Hfam & Hfamin).
  destruct (cells_first sb jb yb Hb Hyb) as (fb & Hfb & Hfbm & Hfbmin).
  destruct (cells_last sa ja ya Ha Hya) as (la & Hla & Hlam & Hlamax).
  destruct (cells_last sb jb yb Hb Hyb) as (lb & Hlb & Hlbm & Hlbmax).
  unfold idl_union_over, MDB_IDL_FIRST. rewrite Hfa, Hfb, Hla, Hlb. cbn [mbind option_bind].
  assert (IDL_MIN fa fb = Z.min fa fb) as -> by (unfold IDL_MIN; case_if; zb; lia).
  assert (IDL_MAX la lb = Z.max la lb) as -> by (unfold IDL_MAX; case_if; zb; lia).
  exists (Z.min fa fb), (Z.max la lb).
  assert (exists n x y junk, set_cells sa ja = n :: x :: y :: junk) as (n & x & y & junk & ->).
  { destruct (set_cells sa ja) as [|n [|x [|y junk]]]; simpl in Hcap; try lia. eauto. }
  rewrite arr_set_0. cbn [mbind option_bind]. rewrite arr_set_1. cbn [mbind option_bind].
  rewrite arr_set_2. exists junk. split; [done|].
  pose proof (set_mem_pos sa fa Ha Hfam). pose proof (set_mem_pos sb fb Hb Hfbm).
  pose proof (set_mem_pos sa la Ha Hlam). pose proof (set_mem_pos sb lb Hb Hlbm).
  pose proof (cells_first_lt sa ja fa ya Ha Hfa Hya). specialize (Hlamax fa Hfam).
  split; [cbn; lia|]. cbn. split_and!.
  - destruct (Z.min_spec fa fb) as [[_ ->]|[_ ->]]; auto.
  - destruct (Z.max_spec la lb) as [[_ ->]|[_ ->]]; auto.
  - intros z [Hz|Hz]; [specialize (Hfamin z Hz)|specialize (Hfbmin z Hz); specialize (Hlbmax z Hz); lia].
    destruct (cells_last sa ja ya Ha Hya) as (la' & Hla' & _ & Hmx'). simplify_eq.
    specialize (Hmx' z Hz). lia.
Qed.

Lemma first_list mode_check l junk :
  ids_ok l -> l <> [] -> exists x, mdb_idl_first mode_check (set_cells (SList l) junk) 0 = Some (x, 1) /\ from l 1 x.
Proof.
  intros Hl Hne. pose proof (ids_len_small l Hl). unfold mdb_idl_first. cbn [set_cells]. rewrite arr_get_0.
  cbn [mbind option_bind]. destruct l as [|x l]; [done|]. exists x.
  rewrite (proj2 (Z.eqb_neq (Z.of_nat (length (x :: l))) 0)) by (simpl; lia). rewrite not_range by done.
  cbn [Z.eqb mbind option_bind]. rewrite (Z.gtb_ltb 1).
  rewrite (proj2 (Z.ltb_ge _ 1)) by (simpl; lia). by split.
Qed.

Lemma asc_ge_first l x : asc l -> x ∈ l -> forall f, from l 1 f -> f <= x.
Proof.
  intros Hl Hx f [_ ->]. destruct l as [|f l]; [by apply elem_of_nil in Hx|]. simpl.
  inversion Hl as [|? ? _ Hfl]; subst. apply elem_of_cons in Hx as [->|Hx]; [lia|].
  rewrite list.Forall_forall in Hfl. apply Z.lt_le_incl. auto.
Qed.

Section union_loops.
Variables (la lb ja jb : list Z).
Hypothesis Hla : ids_ok la.
Hypothesis Hlb : ids_ok lb.

Lemma cat_run_ok ida idb :
  from la 1 ida -> from lb 1 idb ->
  Z.min (MDB_IDL_UM_MAX + 1) (Z.of_nat (length la + length lb) + 1)
    <= Z.of_nat (length (set_cells (SList lb) jb)) ->
  exists r, run (idl_cat_step (set_cells (SList la) ja)) 66
      (set_cells (SList lb) jb, ida, 1, idb, 1, Z.of_nat (length lb)) = Some r /\
    cat_post la lb (Z.of_nat (length (set_cells (SList lb) jb))) r.
Proof.
  intros Hfa Hfb Hcap. pose proof (ids_len_small la Hla). pose proof (ids_len_small lb Hlb).
  set (cap := Z.of_nat (length _)) in *.
  apply (run_ok _ (cat_inv la lb cap)
    (fun '(_, _, ca, _, cb, _) => Z.of_nat (length la + length lb) + 2 - ca - cb)).
  - intros st Hst. split.
    { destruct st as [[[[[? ?] ?] ?] ?] ?]. destruct Hst as (? & ? & _ & _ & _ & _ & _ & _ & ? & ? & _). lia. }
    destruct (cat_step_ok la lb Hla Hlb ja cap Hcap st Hst) as (res & -> & Hres). exists res. split; [done|].
    destruct res as [st'|]; [|done]. destruct Hres. split; [done|].
    destruct st as [[[[[? ?] ?] ?] ?] ?], st' as [[[[[? ?] ?] ?] ?] ?]. lia.
  - destruct Hla as [Hala _ _], Hlb as [Halb _ Hcl].
    exists [], jb. split_and!; try done; try (simpl; lia).
    + constructor.
    + intros x Hx. by apply elem_of_nil in Hx.
    + intros x Hx Hlt. pose proof (asc_ge_first la x Hala Hx ida Hfa). lia.
    + intros x Hx Hlt. pose proof (asc_ge_first lb x Halb Hx idb Hfb). lia.
  - apply Z.lt_trans with (2 ^ 32); [lia|done].
Qed.

Lemma merge_run_ok ext junk :
  asc ext -> (forall x, x ∈ ext -> x ∈ la /\ (x ∉ lb)) ->
  Z.of_nat (length lb + length ext) <= MDB_IDL_UM_MAX ->
  Z.of_nat (length lb + length ext) + 1 <= Z.of_nat (length (set_cells (SList la) ja)) ->
  exists m junk', run (idl_merge_step (Z.of_nat (length lb) :: lb ++ ext ++ junk) (Z.of_nat (length lb))
        (Z.of_nat (length lb + length ext))) 66
      (Z.of_nat (length lb + length ext) :: la ++ ja, 1, 1, Z.of_nat (length lb) + 1)
      = Some (set_cells (SList m) junk') /\
    length m = (length lb + length ext)%nat /\ asc m /\ forall x, x ∈ m <-> x ∈ lb \/ x ∈ ext.
Proof.
  intros Hasc Hext Hcc Hl. pose proof (ids_len_small lb Hlb).
  destruct (run_ok (idl_merge_step (Z.of_nat (length lb) :: lb ++ ext ++ junk) (Z.of_nat (length lb))
      (Z.of_nat (length lb + length ext))) (merge_inv lb ext)
    (fun '(_, ca, _, _) => Z.of_nat (length lb + length ext) + 1 - ca)
    (fun a => exists m junk, a = set_cells (SList m) junk /\ length m = (length lb + length ext)%nat /\ asc m /\
      forall x, x ∈ m <-> x ∈ lb \/ x ∈ ext)) with (k := 66%nat)
    (s := (Z.of_nat (length lb + length ext) :: la ++ ja, 1, 1, Z.of_nat (length lb) + 1))
    as (a & Hrun & m & junk' & -> & Hm).
  - intros st Hst. split.
    { destruct st as [[[? ?] ?] ?]. destruct Hst as (? & ? & ? & _). lia. }
    destruct (merge_step_ok la lb Hlb ext Hasc Hext junk Hcc st Hst) as (res & -> & Hres).
    exists res. split; [done|]. destruct res as [st'|]; [|done]. destruct Hres. split; [done|].
    destruct st as [[[? ?] ?] ?], st' as [[[? ?] ?] ?]. lia.
  - split_and!; try lia.
    { cbn [set_cells length] in Hl. cbn [length]. lia. }
    exists [], (la ++ ja). split_and!; try done; try constructor.
    + intros Hx. by apply elem_of_nil in Hx.
    + replace (Z.of_nat (length lb) + 1 - Z.of_nat (length lb) - 1) with 0 by lia. simpl.
      intros [Hx|Hx]; by apply elem_of_nil in Hx.
    + intros x y Hx. by apply elem_of_nil in Hx.
  - change MDB_IDL_UM_MAX with 131071 in *. apply Z.lt_trans with (2 ^ 32); [lia|done].
  - exists m, junk'. done.
Qed.
End union_loops.

Lemma union_lists_spec mode_check la lb ja jb :
  ids_ok la -> ids_ok lb -> la <> [] -> lb <> [] ->
  union_cells (SList la) (SList lb) <= Z.of_nat (length (set_cells (SList la) ja)) ->
  union_cells (SList la) (SList lb) <= Z.of_nat (length (set_cells (SList lb) jb)) ->
  exists s' a' b', mdb_idl_union mode_check (set_cells (SList la) ja) (set_cells (SList lb) jb) = Some (a', b') /\
    repr a' s' /\ set_ok s' /\ union_or_hull (SList la) (SList lb) s'.
Proof.
  intros Hla Hlb Hna Hnb Hca Hcb. unfold union_cells in *. cbn [set_size] in *.
  assert (exists ya, ya ∈ la) as (ya & Hya) by (destruct la; [done|eexists; by left]).
  assert (exists yb, yb ∈ lb) as (yb & Hyb) by (destruct lb; [done|eexists; by left]).
  pose proof (ids_len_small la Hla). pose proof (ids_len_small lb Hlb).
  unfold mdb_idl_union.
  destruct (cells_zero (SList lb) jb Hlb) as (zb' & -> & Hzb). destruct (cells_zero (SList la) ja Hla) as (za & -> & Hza).
  destruct (cells_range (SList la) ja Hla) as (ra & -> & ->). destruct (cells_range (SList lb) jb Hlb) as (rb & -> & ->).
  cbn [mbind option_bind].
  destruct zb'; [destruct Hzb as [Hzb _]; by injection (Hzb eq_refl)|].
  destruct za; [destruct Hza as [Hza _]; by injection (Hza eq_refl)|]. cbn [orb].
  destruct (first_list mode_check la ja Hla Hna) as (ida & -> & Hfa).
  destruct (first_list mode_check lb jb Hlb Hnb) as (idb & -> & Hfb). cbn [mbind option_bind].
  assert (arr_get (set_cells (SList lb) jb) 0 = Some (Z.of_nat (length lb))) as -> by done.
  rewrite bind_ret.
  destruct (cat_run_ok la lb ja jb Hla Hlb ida idb Hfa Hfb ltac:(lia)) as ([b r] & -> & Hpost).
  rewrite bind_ret. destruct r as [cc|].
  - destruct Hpost as (ext & junk & -> & _ & -> & Hcc & Hlel & Hasc & Hext).
    cbn [set_cells]. rewrite arr_set_0, bind_ret, arr_get_0, bind_ret. rewrite uwrap_small by lia.
    destruct (merge_run_ok la lb ja Hlb ext junk Hasc) as (m & junk' & -> & Hlm & Hasm & Hm); [|done|lia|].
    { intros x. apply Hext. }
    rewrite bind_ret. exists (SList m). eexists _, _. split; [done|]. split; [by eexists|].
    split; [split; [done| |by rewrite Hlm]|].
    + apply list.Forall_forall. intros x Hx%Hm.
      destruct Hla as [_ Hva _], Hlb as [_ Hvb _]. rewrite list.Forall_forall in Hva, Hvb.
      destruct Hx as [Hx|Hx%Hext]; [by apply Hvb|apply Hva; tauto].
    + intros x. cbn. rewrite Hm, Hext. destruct (decide (x ∈ lb)); tauto.
  - destruct Hpost as (junk & ->).
    destruct (union_over_spec (SList la) (SList lb) ja junk ya yb Hla Hlb Hya Hyb) as (lo & hi & j & -> & ? & ?); [lia|].
    rewrite bind_ret. exists (SRange lo hi). eexists _, _. split; [done|]. split; [by eexists|]. done.
Qed.

Lemma hull_self_l s : set_ok s -> union_or_hull s (SList []) s.
Proof.
  destruct s as [l|lo hi]; cbn; intros Hs.
  - intros x. split; [by left|]. intros [?|Hx]; [done|by apply elem_of_nil in Hx].
  - split_and!; [left; lia..|]. intros x [?|Hx]; [done|by apply elem_of_nil in Hx].
Qed.

Lemma hull_comm sa sb s : union_or_hull sa sb s -> union_or_hull sb sa s.
Proof.
  destruct s as [l|lo hi]; cbn.
  - intros H x. rewrite H. tauto.
  - intros (? & ? & H). split_and!; try tauto. intros x ?. apply H. tauto.
Qed.

Lemma cpy_set dst s junk :
  set_size s + 1 <= Z.of_nat (length dst) -> set_ok s ->
  exists junk', MDB_IDL_CPY dst (set_cells s junk) = Some (set_cells s junk').
Proof.
  destruct s as [l|lo hi]; cbn [set_size set_ok]; intros Hl Hs; [apply cpy_list; [lia|done]|].
  unfold MDB_IDL_CPY, MDB_IDL_SIZE. cbn [set_cells]. rewrite arr_get_0. cbn [mbind option_bind].
  rewrite Z.eqb_refl. unfold mem_read. rewrite decide_True by (simpl; lia). cbn [mbind option_bind].
  unfold mem_write. rewrite decide_True by (simpl; lia). eexists. reflexivity.
Qed.

Lemma union_spec mode_check sa sb ja jb :
  set_ok sa -> set_ok sb ->
  union_cells sa sb <= Z.of_nat (length (set_cells sa ja)) ->
  union_cells sa sb <= Z.of_nat (length (set_cells sb jb)) ->
  exists s' a' b', mdb_idl_union mode_check (set_cells sa ja) (set_cells sb jb) = Some (a', b') /\
    repr a' s' /\ set_ok s' /\ union_or_hull sa sb s'.
Proof.
  intros Ha Hb Hca Hcb.
  destruct (cells_zero sb jb Hb) as (zb' & Hz & Hzb). destruct (cells_zero sa ja Ha) as (za & Hz' & Hza).
  destruct (cells_range sa ja Ha) as (ra & Hr & Hra). destruct (cells_range sb jb Hb) as (rb & Hr' & Hrb).
  destruct zb'.
  { unfold mdb_idl_union. rewrite Hz, bind_ret. destruct Hzb as [Hzb _]. rewrite (Hzb eq_refl) in *.
    exists sa. eexists _, _. split; [done|]. split; [by eexists|]. split; [done|by apply hull_self_l]. }
  destruct za.
  { unfold mdb_idl_union. rewrite Hz, bind_ret, Hz', bind_ret. destruct Hza as [Hza _].
    rewrite (Hza eq_refl) in *.
    destruct (cpy_set (set_cells (SList []) ja) sb jb) as (junk' & ->); [|done|].
    { unfold union_cells in Hca. cbn [set_size length] in Hca. change MDB_IDL_UM_MAX with 131071 in Hca.
      destruct sb as [l|]; cbn [set_size] in *; [pose proof (ids_len_small l Hb)|]; lia. }
    rewrite bind_ret. exists sb. eexists _, _. split; [done|]. split; [by eexists|].
    split; [done|]. by apply hull_comm, hull_self_l. }
  assert (forall s, ~ set_empty s -> set_ok s -> exists y, set_mem s y) as Hinh by (intros; by apply set_inhabited).
  destruct (Hinh sa ltac:(by intros ?%Hza) Ha) as (ya & Hya).
  destruct (Hinh sb ltac:(by intros ?%Hzb) Hb) as (yb & Hyb).
  assert (Hover : ra || rb = true -> exists s' a' b',
    mdb_idl_union mode_check (set_cells sa ja) (set_cells sb jb) = Some (a', b') /\
    repr a' s' /\ set_ok s' /\ union_or_hull sa sb s').
  { intros Hor. unfold mdb_idl_union. rewrite Hz, bind_ret, Hz', bind_ret, Hr, bind_ret, Hr', bind_ret, Hor.
    destruct (union_over_spec sa sb ja jb ya yb Ha Hb Hya Hyb) as (lo & hi & j & -> & ? & ?).
    { unfold union_cells in *. lia. }
    rewrite bind_ret. exists (SRange lo hi). eexists _, _. split; [done|]. split; [by eexists|done]. }
  destruct sa as [la|], sb as [lb|]; try (apply Hover; subst; by rewrite ?orb_true_r).
  apply union_lists_spec; try done; by intros ->; apply elem_of_nil in Hya || apply elem_of_nil in Hyb.
Qed.

(** ** append_one *)

(** An unsorted list whose first ID is its smallest and whose last is its
    largest. *)
Record span_ok (l : list Z) : Prop := {
  span_valid : Forall id_ok l;
  span_first : forall f x, l !! 0%nat = Some f -> x ∈ l -> f <= x;
  span_last : forall z x, list.last l = Some z -> x ∈ l -> x <= z;
}.

Lemma range_insert_spec lo hi junk id :
  0 < lo -> lo <= hi -> 
  exists rc lo' hi', idl_range_insert (NOID :: lo :: hi :: junk) id = Some (rc, NOID :: lo' :: hi' :: junk) /\
    lo' = Z.min lo id /\ hi' = Z.max hi id /\ (rc = -1 <-> lo <= id <= hi) /\ (rc = -1 \/ rc = 0).
Proof.
  intros Hlo Hle. unfold idl_range_insert, MDB_IDL_RANGE_FIRST, MDB_IDL_RANGE_LAST.
  change (arr_get (NOID :: lo :: hi :: junk) 1) with (Some lo).
  change (arr_get (NOID :: lo :: hi :: junk) 2) with (Some hi). cbn [mbind option_bind].
  rewrite arr_set_1, arr_set_2. cbn [mbind option_bind].
  destruct ((id >=? lo) && (id <=? hi)) eqn:E.
  { zb. exists (-1), lo, hi. split_and!; try lia. done. }
  apply andb_false_iff in E. case_if; zb.
  { exists 0, id, hi. split_and!; try lia. done. }
  destruct E as [E|E]; zb; [lia|]. case_if; zb; [|lia].
  exists 0, lo, id. split_and!; try lia. done.
Qed.
