(* ===== verification/IdlTheorems.v ===== *)
(** * The theorems about ID lists

    Search, insertion, intersection, union, unsorted appending and the lists of
    ID/value pairs, each with an example, and two places where idl.c does not
    do what its comments say. *)

From stdpp Require Import sorting.
From stdpp Require Import base list numbers option.
From S2P Require Import Prelude Idl IdlProofs IdlSets IdlUnion.

Local Open Scope Z_scope.

(** @: [mdb_idl_search] terminates and returns the position of [id] in a
    sorted list or, when it is not there, of the first larger ID: everything
    before is smaller, nothing from there on is. *)
Theorem mdb_idl_search_finds (mode_check : bool) (l junk : list Z) (id : Z) :
  ids_ok l ->
  exists x, mdb_idl_search mode_check (Z.of_nat (length l) :: l ++ junk) id = Some x /\
    1 <= x <= Z.of_nat (length l) + 1 /\
    (forall i y, l !! i = Some y -> (Z.of_nat i < x - 1 -> y < id) /\ (x - 1 <= Z.of_nat i -> id <= y)) /\
    (id ∈ l <-> l !! Z.to_nat (x - 1) = Some id).
Proof.
  intros Hl. destruct (idl_search_ok mode_check l junk id Hl) as (x & Hs & Hx). exists x.
  split; [done|]. pose proof (search_pos_found l id x (ids_asc _ Hl) Hx). destruct Hx as (? & Hlo & Hhi).
  split_and!; try done; try lia; try tauto. intros i y Hi. split; intros; eauto.
Qed.

Lemma sample_ids_ok l : bool_decide (StronglySorted Z.lt l) && forallb (fun x => (0 <? x) && (x <? NOID)) l
  && (Z.of_nat (length l) <=? MDB_IDL_UM_MAX) = true -> ids_ok l.
Proof.
  intros H. zb. split; [by eapply bool_decide_eq_true_1|apply list.Forall_forall|done].
  rewrite forallb_forall in H1. intros x Hx%list_elem_of_In. apply H1 in Hx. zb. by split.
Qed.

Lemma mdb_idl_search_finds_witness :
  exists x, mdb_idl_search true [3; 2; 5; 9; 0] 6 = Some x /\ 1 <= x <= 4 /\
    (forall i y, [2; 5; 9] !! i = Some y -> (Z.of_nat i < x - 1 -> y < 6) /\ (x - 1 <= Z.of_nat i -> 6 <= y)) /\
    (6 ∈ [2; 5; 9] <-> [2; 5; 9] !! Z.to_nat (x - 1) = Some 6).
Proof. apply (mdb_idl_search_finds true [2; 5; 9] [0] 6). apply sample_ids_ok. vm_compute. reflexivity. Defined.

(** C16: [mdb_idl_insert] keeps the representation sorted and adds the ID: it returns -1
    exactly when the ID was there already, and leaves the array unchanged; a list of
    fewer than [MDB_IDL_DB_MAX] IDs with the new one stays a list, with exactly this one
    more; from [MDB_IDL_DB_MAX] IDs on, and not before, the result is the smallest range
    around the IDs; a range is widened up to the ID. *)
Theorem mdb_idl_insert_correct (mode_check : bool) (s : idset) (junk : list Z) (id : Z) :
  set_ok s -> id_ok id -> junk <> [] ->
  exists rc ids' s', mdb_idl_insert mode_check (set_cells s junk) id = Some (rc, ids') /\
    repr ids' s' /\ set_ok s' /\ (rc = -1 <-> set_mem s id) /\ (rc = -1 -> ids' = set_cells s junk) /\
    (rc <> -1 -> rc = 0 /\
      match s, s' with
      | SList l, SList l' => Z.of_nat (length l) + 1 < MDB_IDL_DB_MAX /\ length l' = S (length l) /\ forall x, x ∈ l' <-> x = id \/ x ∈ l
      | SList l, SRange lo hi => MDB_IDL_DB_MAX <= Z.of_nat (length l) + 1 /\
          (lo = id \/ lo ∈ l) /\ (hi = id \/ hi ∈ l) /\ forall x, x = id \/ x ∈ l -> lo <= x <= hi
      | SRange lo hi, s' => s' = SRange (Z.min lo id) (Z.max hi id)
      end).
Proof.
  intros Hs Hid Hj. pose proof Hid as [? ?]. destruct s as [l|lo hi]; cbn [set_ok set_cells set_mem] in *.
  - destruct (decide (id ∈ l)) as [Hin|Hni].
    { destruct (insert_prefix mode_check l junk id Hs) as (x & Hx & ->). rewrite decide_True by done.
      eexists _, _, (SList l). split; [done|]. split; [by eexists|]. split_and!; done. }
    destruct (decide (MDB_IDL_DB_MAX <= Z.of_nat (length l) + 1)) as [Hbig|Hsmall].
    + destruct (insert_overflow_spec mode_check l junk id Hs Hni Hbig) as (f & z & junk' & Hf & Hz & ->).
      assert (f ∈ l) as Hfl by (by eapply list_elem_of_lookup_2).
      assert (z ∈ l) as Hzl by (rewrite last_lookup in Hz; by eapply list_elem_of_lookup_2).
      pose proof Hs as [Ha Hv _]. rewrite list.Forall_forall in Hv.
      pose proof (Hv f Hfl) as [? ?]. pose proof (Hv z Hzl) as [? ?].
      eexists _, _, (SRange (Z.min f id) (Z.max z id)). split; [done|]. split; [by eexists|].
      pose proof (asc_bounds l f z f Ha Hf Hz Hfl). cbn [set_ok]. split; [lia|]. split; [done|]. split; [done|].
      intros _. split; [done|]. split; [done|]. split_and!.
      * destruct (Z.min_spec f id) as [[_ ->]|[_ ->]]; auto.
      * destruct (Z.max_spec z id) as [[_ ->]|[_ ->]]; auto.
      * intros x [->|Hx]; [lia|]. pose proof (asc_bounds l f z x Ha Hf Hz Hx). lia.
    + destruct junk as [|j0 junk]; [done|].
      destruct (insert_list_spec mode_check l j0 junk id Hs Hni ltac:(lia)) as (x & Hx & ->).
      eexists _, _, (SList (insert_at l id x)). split; [done|]. split; [by eexists|].
      split; [split|]; [by apply insert_at_asc; [apply Hs|..]| | |].
      * apply list.Forall_forall. intros y [->|Hy]%insert_at_elem; [done|].
        destruct Hs as [_ Hv _]. rewrite list.Forall_forall in Hv. auto.
      * rewrite insert_at_length. change MDB_IDL_UM_MAX with 131071. change MDB_IDL_DB_MAX with 65535 in *. lia.
      * split; [done|]. split; [done|]. intros _. split; [done|]. split; [lia|]. split; [apply insert_at_length|]. intros y. apply insert_at_elem.
  - unfold mdb_idl_insert.
    assert (idl_selfcheck mode_check (NOID :: lo :: hi :: junk) = Some tt) as ->.
    { unfold idl_selfcheck, idl_check. destruct mode_check; [|done]. simpl.
      unfold MDB_IDL_RANGE_FIRST, MDB_IDL_RANGE_LAST. simpl.
      by rewrite (proj2 (Z.leb_le lo hi)) by lia. }
    rewrite bind_ret. change (MDB_IDL_IS_RANGE (NOID :: lo :: hi :: junk)) with (Some true). rewrite bind_ret.
    destruct (range_insert_spec lo hi junk id) as (rc & lo' & hi' & -> & -> & -> & Hrc & Hor); [lia|lia|].
    eexists rc, _, (SRange _ _). split; [done|]. split; [by eexists|]. cbn [set_ok]. split; [lia|].
    split; [done|]. split.
    + intros Hm%Hrc. rewrite Z.min_l, Z.max_l by lia. done.
    + intros Hn. split; [lia|done].
Qed.

Lemma mdb_idl_insert_correct_witness :
  exists rc ids' s', mdb_idl_insert true [2; 3; 8; 0] 5 = Some (rc, ids') /\
    repr ids' s' /\ set_ok s' /\ (rc = -1 <-> set_mem (SList [3; 8]) 5) /\ (rc = -1 -> ids' = [2; 3; 8; 0]) /\
    (rc <> -1 -> rc = 0 /\
      match s' with
      | SList l' => 2 + 1 < MDB_IDL_DB_MAX /\ length l' = 3%nat /\ forall x, x ∈ l' <-> x = 5 \/ x ∈ [3; 8]
      | SRange lo hi => MDB_IDL_DB_MAX <= 2 + 1 /\
          (lo = 5 \/ lo ∈ [3; 8]) /\ (hi = 5 \/ hi ∈ [3; 8]) /\ forall x, x = 5 \/ x ∈ [3; 8] -> lo <= x <= hi
      end).
Proof.
  apply (mdb_idl_insert_correct true (SList [3; 8]) [0] 5).
  - apply sample_ids_ok. vm_compute. reflexivity.
  - unfold id_ok, NOID. lia.
  - done.
Defined.

(** @: [mdb_idl_intersection] never loses a common ID, and its result is
    exactly the intersection, for any mix of lists and ranges, except that when
    the larger first ID equals the smaller last ID the result is that one ID
    without a test that both contain it. *)
Theorem mdb_idl_intersection_correct (mode_check : bool) (sa sb : idset) (ja jb : list Z) :
  set_ok sa -> set_ok sb ->
  match sb with SList l => (S (length l) <= length (set_cells sa ja))%nat | _ => True end ->
  exists s' a' b', mdb_idl_intersection mode_check (set_cells sa ja) (set_cells sb jb) = Some (a', b') /\
    repr a' s' /\ set_ok s' /\
    (forall x, set_mem sa x -> set_mem sb x -> set_mem s' x) /\
    ((forall x, set_mem s' x -> set_mem sa x /\ set_mem sb x) \/
     (exists m, s' = SList [m] /\ (set_mem sa m \/ set_mem sb m) /\
        forall x, set_mem sa x -> set_mem sb x -> x = m)).
Proof. apply intersection_spec. Qed.

Lemma mdb_idl_intersection_correct_witness :
  exists s' a' b', mdb_idl_intersection true [NOID; 4; 90; 0; 0] [3; 2; 5; 8] = Some (a', b') /\
    repr a' s' /\ set_ok s' /\
    (forall x, set_mem (SRange 4 90) x -> set_mem (SList [2; 5; 8]) x -> set_mem s' x) /\
    ((forall x, set_mem s' x -> set_mem (SRange 4 90) x /\ set_mem (SList [2; 5; 8]) x) \/
     (exists m, s' = SList [m] /\ (set_mem (SRange 4 90) m \/ set_mem (SList [2; 5; 8]) m) /\
        forall x, set_mem (SRange 4 90) x -> set_mem (SList [2; 5; 8]) x -> x = m)).
Proof.
  apply (mdb_idl_intersection_correct true (SRange 4 90) (SList [2; 5; 8]) [0; 0] []).
  - unfold set_ok, NOID. lia.
  - apply sample_ids_ok. vm_compute. reflexivity.
  - simpl. lia.
Defined.

(** The comment "return a = a intersection b" does not hold in general:
    the intersection of {5} and {3, 7}, which have no ID in common, is {5}. *)
Theorem mdb_idl_intersection_inexact (mode_check : bool) :
  mdb_idl_intersection mode_check [1; 5; 0] [2; 3; 7; 0] = Some ([1; 5; 0], [2; 3; 7; 0]).
Proof. destruct mode_check; vm_compute; reflexivity. Qed.

(** @: [mdb_idl_union] computes the union of two ID sets; the result is a
    sorted list, or, when one operand is a range or the IDs do not fit the
    array, the smallest range around the union. *)
Theorem mdb_idl_union_correct (mode_check : bool) (sa sb : idset) (ja jb : list Z) :
  set_ok sa -> set_ok sb ->
  union_cells sa sb <= Z.of_nat (length (set_cells sa ja)) ->
  union_cells sa sb <= Z.of_nat (length (set_cells sb jb)) ->
  exists s' a' b', mdb_idl_union mode_check (set_cells sa ja) (set_cells sb jb) = Some (a', b') /\
    repr a' s' /\ set_ok s' /\ union_or_hull sa sb s'.
Proof. apply union_spec. Qed.

Lemma mdb_idl_union_correct_witness :
  exists s' a' b', mdb_idl_union true [2; 1; 6; 0; 0; 0; 0] [3; 2; 6; 8; 0; 0; 0] = Some (a', b') /\
    repr a' s' /\ set_ok s' /\ union_or_hull (SList [1; 6]) (SList [2; 6; 8]) s'.
Proof.
  apply (mdb_idl_union_correct true (SList [1; 6]) (SList [2; 6; 8]) [0; 0; 0; 0] [0; 0; 0]).
  - apply sample_ids_ok. vm_compute. reflexivity.
  - apply sample_ids_ok. vm_compute. reflexivity.
  - vm_compute. discriminate.
  - vm_compute. discriminate.
Defined.

(** @: [mdb_idl_append] does not keep what its comment promises ("a[1] is the
    min of the result and a[a[0]] is the max"): appending {5} to {1, 9} gives
    1, 9, 5, whose last ID is not the largest. *)
Theorem mdb_idl_append_last_not_max :
  mdb_idl_append [2; 1; 9; 0] [1; 5] = Some ([3; 1; 9; 5], [1; 5]) /\
  MDB_IDL_LAST [3; 1; 9; 5] = Some 5.
Proof. split; vm_compute; reflexivity. Qed.

(** ** Unsorted lists *)

Lemma span_three f m z :
  Forall id_ok (f :: m ++ [z]) -> (forall x, x ∈ m -> f <= x <= z) -> f <= z -> span_ok (f :: m ++ [z]).
Proof.
  intros Hv Hm Hfz. split; [done| |].
  - intros f' x [= <-] Hx. rewrite elem_of_cons, elem_of_app, list_elem_of_singleton in Hx.
    destruct Hx as [->|[Hx| ->]]; [lia|specialize (Hm x Hx); lia|done].
  - intros z' x Hz Hx. rewrite app_comm_cons, last_snoc in Hz. injection Hz as <-.
    rewrite elem_of_cons, elem_of_app, list_elem_of_singleton in Hx.
    destruct Hx as [->|[Hx| ->]]; [lia|specialize (Hm x Hx); lia|lia].
Qed.

Lemma span_inv f m z : span_ok (f :: m ++ [z]) -> f <= z /\ forall x, x ∈ m -> f <= x <= z.
Proof.
  intros [_ Hf Hz]. assert (list.last (f :: m ++ [z]) = Some z) as Hlz by (by rewrite app_comm_cons, last_snoc).
  split; [apply (Hz z f Hlz); by left|]. intros x Hx.
  assert (x ∈ f :: m ++ [z]) by (right; apply elem_of_app; by left).
  split; [by apply (Hf f x)|by apply (Hz z x)].
Qed.

(** The cells of [mdb_idl_append_one], by the length of the list. *)
Lemma append_one_empty junk j0 id :
  mdb_idl_append_one (0 :: j0 :: junk) id = Some (0, 1 :: id :: junk).
Proof.
  unfold mdb_idl_append_one, MDB_IDL_IS_RANGE. rewrite arr_get_0, !bind_ret.
  change (0 =? NOID) with false. change (0 =? 0) with true. cbv iota. rewrite !bind_ret.
  change (u64 (0 + 1)) with 1. rewrite arr_set_0, bind_ret.
  change (1 >=? MDB_IDL_UM_MAX) with false. cbv iota. rewrite arr_set_1, bind_ret. done.
Qed.

Lemma append_one_single f j0 junk id :
  mdb_idl_append_one (1 :: f :: j0 :: junk) id = Some (0, 2 :: Z.min f id :: Z.max f id :: junk).
Proof.
  unfold mdb_idl_append_one, MDB_IDL_IS_RANGE. rewrite arr_get_0, !bind_ret.
  change (1 =? NOID) with false. change (1 =? 0) with false. cbv iota. rewrite ?bind_ret.
  change (arr_get (1 :: f :: j0 :: junk) 1) with (Some f). rewrite bind_ret, arr_set_1.
  change (1 >? 1) with false. change (u64 (1 + 1)) with 2. change (2 >=? MDB_IDL_UM_MAX) with false.
  cbv iota. case_if; zb; rewrite !bind_ret, arr_set_0, bind_ret, arr_set_2, bind_ret.
  - by rewrite Z.min_r, Z.max_l by lia.
  - by rewrite Z.min_l, Z.max_r by lia.
Qed.

Lemma append_one_many f m z j0 junk id :
  let n := Z.of_nat (length m) + 2 in
  n + 1 < MDB_IDL_UM_MAX ->
  mdb_idl_append_one (n :: f :: m ++ z :: j0 :: junk) id =
    Some (0, n + 1 :: Z.min f id :: m ++ Z.min z (Z.max f id) :: Z.max z (Z.max f id) :: junk).
Proof.
  intros n Hn. change MDB_IDL_UM_MAX with 131071 in Hn.
  unfold mdb_idl_append_one, MDB_IDL_IS_RANGE. rewrite arr_get_0, !bind_ret.
  rewrite (proj2 (Z.eqb_neq n NOID)) by (unfold NOID; lia). rewrite (proj2 (Z.eqb_neq n 0)) by lia.
  rewrite ?bind_ret.
  change (arr_get (n :: f :: m ++ z :: j0 :: junk) 1) with (Some f). rewrite bind_ret, arr_set_1.
  rewrite (proj2 (Z.gtb_lt n 1)) by lia. rewrite uwrap_small by lia.
  change MDB_IDL_UM_MAX with 131071. rewrite (Z.geb_leb (n + 1)).
  rewrite (proj2 (Z.leb_gt 131071 (n + 1))) by lia.
  assert (Hfin : forall f' z' id', (ids ← arr_set (n :: f' :: m ++ z' :: j0 :: junk) 0 (n + 1);
      ids ← arr_set ids (n + 1) id'; Some (0, ids)) = Some (0, n + 1 :: f' :: m ++ z' :: id' :: junk)).
  { intros. rewrite arr_set_0, bind_ret.
    replace (n + 1 :: f' :: m ++ z' :: j0 :: junk) with (((n + 1 :: f' :: m) ++ [z']) ++ j0 :: junk)
      by (by rewrite <- app_assoc).
    rewrite arr_set_mid by (rewrite length_app; simpl; lia). rewrite bind_ret.
    by rewrite <- app_assoc. }
  assert (Hgz : forall f', arr_get (n :: f' :: m ++ z :: j0 :: junk) n = Some z).
  { intros. apply (arr_get_mid (n :: f' :: m)). simpl. lia. }
  assert (Hsz : forall f' y, arr_set (n :: f' :: m ++ z :: j0 :: junk) n y = Some (n :: f' :: m ++ y :: j0 :: junk)).
  { intros. apply (arr_set_mid (n :: f' :: m)). simpl. lia. }
  destruct (Z.ltb_spec id f); rewrite ?bind_ret, Hgz, ?bind_ret; case_if; zb;
    rewrite ?Hsz, ?bind_ret, Hfin; repeat f_equal; lia.
Qed.

Lemma list_cases (l : list Z) : l = [] \/ (exists f, l = [f]) \/ exists f m z, l = f :: m ++ [z].
Proof.
  destruct l as [|f l]; [by left|right]. destruct l as [|z m] using rev_ind; [left; eauto|right; eauto].
Qed.

(** Below the size limit [mdb_idl_append_one] adds the ID to an unsorted
    list and keeps the smallest ID first and the largest last. *)
Theorem mdb_idl_append_one_spans (l : list Z) (j0 : Z) (junk : list Z) (id : Z) :
  span_ok l -> id_ok id -> Z.of_nat (length l) + 1 < MDB_IDL_UM_MAX ->
  exists l' junk', mdb_idl_append_one (Z.of_nat (length l) :: l ++ j0 :: junk) id =
      Some (0, Z.of_nat (length l') :: l' ++ junk') /\ l' ≡ₚ id :: l /\ span_ok l'.
Proof.
  intros Hs Hid Hn. destruct (list_cases l) as [->|[(f & ->)|(f & m & z & ->)]].
  - exists [id], junk. split; [apply append_one_empty|]. split; [done|]. split; [by apply Forall_singleton|..].
    + intros f x [= <-] ->%list_elem_of_singleton. done.
    + intros f x [= <-] ->%list_elem_of_singleton. done.
  - exists [Z.min f id; Z.max f id], junk. split; [apply append_one_single|].
    destruct Hs as [Hv _ _]. inversion Hv as [|? ? Hf _]; subst. unfold id_ok in *. split.
    + destruct (Z.min_spec f id) as [[? ->]|[? ->]]; [rewrite Z.max_r by lia; by rewrite Permutation_swap|].
      by rewrite Z.max_l by lia.
    + apply (span_three _ [] _); [repeat constructor; unfold id_ok; lia| |lia].
      intros x Hx. by apply elem_of_nil in Hx.
  - destruct (span_inv f m z Hs) as [Hfz Hm]. pose proof (span_valid _ Hs) as Hv.
    exists (Z.min f id :: (m ++ [Z.min z (Z.max f id)]) ++ [Z.max z (Z.max f id)]), junk.
    replace (Z.of_nat (length (f :: m ++ [z]))) with (Z.of_nat (length m) + 2) in *
      by (simpl; rewrite length_app; simpl; lia).
    split; [|split].
    + cbn [app]. rewrite <- app_assoc. cbn [app]. rewrite append_one_many by lia. do 2 f_equal.
      rewrite <- !app_assoc. cbn [app length]. f_equal. rewrite !length_app. simpl. lia.
    + destruct (Z.le_gt_cases f id).
      * rewrite (Z.min_l f id), (Z.max_r f id) by lia. destruct (Z.le_gt_cases z id).
        -- rewrite Z.min_l, Z.max_r by lia. solve_Permutation.
        -- rewrite Z.min_r, Z.max_l by lia. solve_Permutation.
      * rewrite (Z.min_r f id), (Z.max_l f id) by lia. destruct (Z.le_gt_cases z f).
        -- rewrite Z.min_l, Z.max_r by lia. assert (z = f) as -> by lia. solve_Permutation.
        -- rewrite Z.min_r, Z.max_l by lia. solve_Permutation.
    + apply span_three.
      * rewrite list.Forall_cons, list.Forall_app, list.Forall_singleton in Hv. destruct Hv as (? & ? & ?).
        rewrite list.Forall_cons, !list.Forall_app, !list.Forall_singleton. unfold id_ok in *. split_and!; try done; lia.
      * intros x [Hx|Hx]%elem_of_app; [specialize (Hm x Hx); lia|]. apply list_elem_of_singleton in Hx. lia.
      * lia.
Qed.

Lemma mdb_idl_append_one_spans_witness :
  exists l' junk', mdb_idl_append_one [3; 2; 7; 9; 0; 0] 1 = Some (0, Z.of_nat (length l') :: l' ++ junk') /\
    l' ≡ₚ [1; 2; 7; 9] /\ span_ok l'.
Proof.
  apply (mdb_idl_append_one_spans [2; 7; 9] 0 [0] 1).
  - apply (span_three 2 [7] 9).
    + repeat constructor; unfold NOID; lia.
    + intros x ->%list_elem_of_singleton. lia.
    + lia.
  - unfold id_ok, NOID. lia.
  - vm_compute. reflexivity.
Defined.
