(* ===== verification/Quorum.v ===== *)
(** * The syncrepl quorum (servers/slapd/quorum.c)

    A backend's quorum object keeps the replication links ([qr_present]) and the
    configured requirements, and caches the verdict of [lazy_update] in
    [bd_quorum_cache] (0: to be computed, 1: have, -1: lack).  A failed
    assertion is [None].  All operations run under [quorum_mutex], so that each
    is one step of the system. *)

From stdpp Require Import base list numbers option gmap.
From Stdlib Require Import Ascii String.
From S2P Require Import Prelude.

Local Open Scope Z_scope.

(** proto-slap.h, slap.h *)
Definition QS_DIRTY : Z := 0.
Definition QS_DEAD : Z := 1.
Definition QS_REFRESH : Z := 2.
Definition QS_READY : Z := 3.
Definition QS_PROCESS : Z := 4.
Definition SLAP_SYNC_RID_MAX : Z := 999.
Definition SLAP_SYNC_SID_MAX : Z := 4095.

Definition QR_FLAG_DEMAND : Z := 1.
Definition QR_FLAG_RID : Z := 2.
Definition QR_FLAG_AUTO : Z := 4.
Definition QR_VOTED_SID : Z := 0.
Definition QR_VOTED_RID : Z := QR_FLAG_RID.
Definition QR_DEMAND_RID : Z := Z.lor QR_VOTED_RID QR_FLAG_AUTO.
Definition QR_DEMAND_SID : Z := Z.lor QR_VOTED_SID QR_FLAG_DEMAND.
Definition QR_IS_RID (type : Z) : bool := negb (Z.land type QR_FLAG_RID =? 0).
Definition QR_IS_SID (type : Z) : bool := negb (QR_IS_RID type).
Definition QR_IS_DEMAND (type : Z) : bool := negb (Z.land type QR_FLAG_DEMAND =? 0).
Definition QR_IS_AUTO (type : Z) : bool := negb (Z.land type QR_FLAG_AUTO =? 0).

Definition QR_AUTO_RIDS : Z := 1.
Definition QR_AUTO_SIDS : Z := 2.
Definition QR_ALL_LINKS : Z := 4.
Definition QR_SYNCREPL_MAX : Z := 15.

(** A link; the key is the address of its syncinfo, never null. *)
Record present := mkPresent { p_key : Z; p_rid : Z; p_sid : Z; p_status : Z }.

Record requirment := mkReq { r_type : Z; r_id : Z }.

(** [qr_present]: the links and the [status] field of the terminator, which is
    never initialised; [None] is the null pointer.  [cns_status_buf]: the fields
    of the status text besides the time, [None] while the buffer is empty. *)
Record slap_quorum := mkQuorum {
  qr_present : option (list present * Z);
  qr_requirements : option (list requirment);
  q_flags : Z;
  qr_syncrepl_limit : Z;
  qt_running : Z;
  qt_status : list Z;
  qt_left : Z;
  q_salt : Z;
  cns_status : option (Z * list Z);
}.

Record BackendDB := mkBD { bd_quorum : option slap_quorum; bd_quorum_cache : Z }.

Definition with_present (q : slap_quorum) v := mkQuorum v q.(qr_requirements) q.(q_flags)
  q.(qr_syncrepl_limit) q.(qt_running) q.(qt_status) q.(qt_left) q.(q_salt) q.(cns_status).
Definition with_requirements (q : slap_quorum) v := mkQuorum q.(qr_present) v q.(q_flags)
  q.(qr_syncrepl_limit) q.(qt_running) q.(qt_status) q.(qt_left) q.(q_salt) q.(cns_status).
Definition with_flags (q : slap_quorum) v := mkQuorum q.(qr_present) q.(qr_requirements) v
  q.(qr_syncrepl_limit) q.(qt_running) q.(qt_status) q.(qt_left) q.(q_salt) q.(cns_status).
Definition with_limit (q : slap_quorum) v := mkQuorum q.(qr_present) q.(qr_requirements) q.(q_flags)
  v q.(qt_running) q.(qt_status) q.(qt_left) q.(q_salt) q.(cns_status).
Definition with_running (q : slap_quorum) v := mkQuorum q.(qr_present) q.(qr_requirements) q.(q_flags)
  q.(qr_syncrepl_limit) v q.(qt_status) q.(qt_left) q.(q_salt) q.(cns_status).
Definition with_status (q : slap_quorum) v := mkQuorum q.(qr_present) q.(qr_requirements) q.(q_flags)
  q.(qr_syncrepl_limit) q.(qt_running) v q.(qt_left) q.(q_salt) q.(cns_status).
Definition with_salt (q : slap_quorum) v := mkQuorum q.(qr_present) q.(qr_requirements) q.(q_flags)
  q.(qr_syncrepl_limit) q.(qt_running) q.(qt_status) q.(qt_left) v q.(cns_status).

Definition links (q : slap_quorum) : list present :=
  match q.(qr_present) with None => [] | Some (l, _) => l end.
Definition reqs (q : slap_quorum) : list requirment := default [] q.(qr_requirements).

Definition flag_set (q : slap_quorum) (f : Z) : bool := negb (Z.land q.(q_flags) f =? 0).

(** [ch_calloc]ed, then initialised by [quorum_be_init]. *)
Definition fresh_quorum : slap_quorum := mkQuorum None None 0 0 0 (replicate 5 0) (-1) 0 None.

Definition quorum_be_init (bd : BackendDB) : BackendDB := mkBD (Some fresh_quorum) 1.

Definition quorum_be_destroy (bd : BackendDB) : BackendDB :=
  match bd.(bd_quorum) with None => bd | Some _ => mkBD None 1 end.

(** ** The verdict *)

Definition quorum (total wanna ready : Z) : bool :=
  let wanna := if wanna >? total then total else wanna in
  negb ((wanna =? 0) || (ready <? (wanna + 2 - Z.land wanna 1) / 2)).

Definition is_ready (p : present) : bool := p.(p_status) >=? QS_READY.

(** The counters of the requirements loop. *)
Record tally := mkTally {
  t_state : Z; wanna_sids : Z; ready_sids : Z; wanna_rids : Z; ready_rids : Z }.

Definition find_link (f : present -> bool) (l : list present) : option present :=
  head (filter (fun p => f p = true) l).

(** The status [p->status] has after the search loop: that of the link found,
    the terminator's when none was found, [None] when [p] is null. *)
Definition found_status (q : slap_quorum) (f : present -> bool) : option Z :=
  match q.(qr_present) with
  | None => None
  | Some (l, term) => Some (match find_link f l with Some p => p.(p_status) | None => term end)
  end.

Definition b2z (b : bool) : Z := if b then 1 else 0.

Definition tally_req (serverID : Z) (q : slap_quorum) (t : tally) (r : requirment) : tally :=
  let sid := QR_IS_SID r.(r_type) in
  if sid && (r.(r_id) =? serverID) then t else
  let f p := (if sid then p.(p_sid) else p.(p_rid)) =? r.(r_id) in
  let ready := match find_link f (links q) with Some p => b2z (is_ready p) | None => 0 end in
  let lack := QR_IS_DEMAND r.(r_type) &&
              match found_status q f with None => true | Some st => st <? QS_READY end in
  let state := if lack then -1 else t.(t_state) in
  if sid then mkTally state (t.(wanna_sids) + 1) (t.(ready_sids) + ready) t.(wanna_rids) t.(ready_rids)
  else mkTally state t.(wanna_sids) t.(ready_sids) (t.(wanna_rids) + 1) (t.(ready_rids) + ready).

Definition count_links (f : present -> bool) (l : list present) : Z :=
  Z.of_nat (List.length (filter (fun p => f p = true) l)).

Definition lazy_update (serverID : Z) (q : slap_quorum) : Z :=
  let total_links := Z.of_nat (List.length (links q)) in
  let ready_links := count_links is_ready (links q) in
  let state := if flag_set q QR_ALL_LINKS && (ready_links <? total_links) then -1 else 1 in
  let t := fold_left (tally_req serverID q) (reqs q) (mkTally state 0 0 0 0) in
  let state :=
    match q.(qr_requirements) with
    | None => t.(t_state)
    | Some _ =>
        if (t.(t_state) >? 0) && (negb (t.(wanna_sids) =? 0) || negb (t.(wanna_rids) =? 0))
        then (if quorum total_links t.(wanna_sids) t.(ready_sids)
                 || quorum total_links t.(wanna_rids) t.(ready_rids) then 1 else -1)
        else t.(t_state)
    end in
  if flag_set q QR_AUTO_SIDS && (state >? 0) && negb (total_links =? 0) &&
     negb (quorum total_links total_links t.(wanna_sids)) then -1 else state.

Definition set_cache (bd : BackendDB) (v : Z) : BackendDB := mkBD bd.(bd_quorum) v.
Definition quorum_invalidate (bd : BackendDB) : BackendDB := set_cache bd 0.
Definition set_quorum (bd : BackendDB) (q : slap_quorum) : BackendDB := mkBD (Some q) bd.(bd_quorum_cache).

(** The backends with a quorum object are those of [quorum_list]. *)
Definition quorum_notify_self_sid (bds : list BackendDB) : list BackendDB :=
  (fun bd => match bd.(bd_quorum) with Some _ => quorum_invalidate bd | None => bd end) <$> bds.

(** [quorum_query]: the answer and the backend with its cache filled. *)
Definition quorum_query (serverID : Z) (bd : BackendDB) : bool * BackendDB :=
  if bd.(bd_quorum_cache) =? 0 then
    let snap := match bd.(bd_quorum) with Some q => lazy_update serverID q | None => 1 end in
    (snap >? 0, set_cache bd snap)
  else (bd.(bd_quorum_cache) >? 0, bd).

(** ** The status text *)

Definition qt (q : slap_quorum) (status : Z) : Z := default 0 (q.(qt_status) !! Z.to_nat status).

Definition lpq (q : slap_quorum) (status : Z) : Z :=
  let r := qt q status in if r >? 15 then 15 else r.

Definition kick (q : slap_quorum) : slap_quorum :=
  let text := (Z.land q.(q_salt) 0xFFFFFF,
    [lpq q QS_DEAD; lpq q QS_DIRTY; lpq q QS_REFRESH; lpq q QS_PROCESS; lpq q QS_READY]) in
  let now := qt q QS_DEAD + qt q QS_DIRTY + qt q QS_REFRESH + qt q QS_PROCESS in
  mkQuorum q.(qr_present) q.(qr_requirements) q.(q_flags) q.(qr_syncrepl_limit) q.(qt_running)
    q.(qt_status) now q.(q_salt) (Some text).

Definition quorum_query_status (bd : BackendDB) (running_only : bool)
  : Z * (Z * list Z) * BackendDB :=
  let bd := match bd.(bd_quorum) with None => quorum_be_init bd | Some _ => bd end in
  let q := default fresh_quorum bd.(bd_quorum) in
  let q := match q.(cns_status) with None => kick q | Some _ => q end in
  let left := q.(qt_left) in
  (if running_only then left - qt q QS_DEAD else left, default (0, []) q.(cns_status), set_quorum bd q).

(** [qt_status[i] += d]; [None] outside the array. *)
Definition bump_status (q : slap_quorum) (i d : Z) : option slap_quorum :=
  x ← arr_get q.(qt_status) i;
  st ← arr_set q.(qt_status) i (x + d);
  Some (with_status q st).

(** ** Requirements *)

Definition require_id_ok (type id : Z) : bool :=
  (id >? -1) && (if QR_IS_SID type then id <=? SLAP_SYNC_SID_MAX else id <=? SLAP_SYNC_RID_MAX).

Definition same_req (type id : Z) (r : requirment) : bool :=
  (r.(r_id) =? id) && Bool.eqb (QR_IS_SID r.(r_type)) (QR_IS_SID type).

(** The search of [require_append]: [inl b]: a match was found, the list with
    the type replaced ([true]) or kept; [inr]: no match. *)
Fixpoint require_match (type id : Z) (l : list requirment) : option (bool * list requirment) :=
  match l with
  | [] => None
  | r :: l =>
      if same_req type id r then
        if QR_IS_AUTO r.(r_type) && negb (QR_IS_AUTO type)
        then Some (true, mkReq type r.(r_id) :: l) else Some (false, r :: l)
      else '(b, l) ← require_match type id l; Some (b, r :: l)
  end.

Definition require_append (q : slap_quorum) (type id : Z) : option (bool * slap_quorum) :=
  if require_id_ok type id then
    match require_match type id (reqs q) with
    | Some (b, l) => Some (b, with_requirements q (if b then Some l else q.(qr_requirements)))
    | None => Some (true, with_requirements q (Some (reqs q ++ [mkReq type id])))
    end
  else None.

(** The first match removed; [None] when there is none. *)
Fixpoint remove_req (type type_mask id : Z) (l : list requirment) : option (list requirment) :=
  match l with
  | [] => None
  | r :: l =>
      if (r.(r_id) =? id) && (Z.land r.(r_type) type_mask =? type) then Some l
      else l ← remove_req type type_mask id l; Some (r :: l)
  end.

Definition require_remove (q : slap_quorum) (type type_mask id : Z) : option (bool * slap_quorum) :=
  if require_id_ok type id then
    match remove_req type type_mask id (reqs q) with
    | None => Some (false, q)
    | Some [] => Some (true, with_requirements q None)
    | Some l => Some (true, with_requirements q (Some l))
    end
  else None.

(** [changed |= require_append(...)] over the links. *)
Fixpoint append_all (q : slap_quorum) (type : Z) (ids : list Z) : option (bool * slap_quorum) :=
  match ids with
  | [] => Some (false, q)
  | id :: ids =>
      '(b1, q) ← require_append q type id;
      '(b2, q) ← append_all q type ids;
      Some (b1 || b2, q)
  end.

Definition require_auto_rids (q : slap_quorum) : option (bool * slap_quorum) :=
  if flag_set q QR_AUTO_RIDS then Some (false, q) else
  let q := with_flags q (Z.lor q.(q_flags) QR_AUTO_RIDS) in
  append_all q (Z.lor QR_VOTED_RID QR_FLAG_AUTO) (p_rid <$> links q).

Definition require_auto_sids (q : slap_quorum) : option (bool * slap_quorum) :=
  if flag_set q QR_AUTO_SIDS then Some (false, q) else
  let q := with_flags q (Z.lor q.(q_flags) QR_AUTO_SIDS) in
  append_all q (Z.lor QR_VOTED_SID QR_FLAG_AUTO)
    (filter (fun s => s > -1) (p_sid <$> links q)).

(** ** Links *)

(** The link with this key, with what is before and behind it. *)
Fixpoint split_key (key : Z) (l : list present) : option (list present * present * list present) :=
  match l with
  | [] => None
  | p :: l =>
      if p.(p_key) =? key then Some ([], p, l)
      else '(u, x, v) ← split_key key l; Some (p :: u, x, v)
  end.

Definition put_links (q : slap_quorum) (l : list present) : slap_quorum :=
  match q.(qr_present) with
  | Some (_, term) => with_present q (Some (l, term))
  | None => q
  end.

(** [~QR_FLAG_DEMAND] on a [short]. *)
Definition NOT_DEMAND : Z := -2.

Definition notify_sid (q : slap_quorum) (key sid : Z) : option (bool * slap_quorum) :=
  match split_key key (links q) with
  | None => Some (false, q)
  | Some (u, p, v) =>
      if p.(p_sid) =? sid then Some (false, q) else
      q ← (if flag_set q QR_AUTO_SIDS then
             q ← (if p.(p_sid) >? -1
                  then '(_, q) ← require_remove q (Z.lor QR_VOTED_SID QR_FLAG_AUTO) NOT_DEMAND p.(p_sid); Some q
                  else Some q);
             if sid >? -1
             then '(_, q) ← require_append q (Z.lor QR_VOTED_SID QR_FLAG_AUTO) sid; Some q
             else Some q
           else Some q);
      Some (true, put_links q (u ++ mkPresent p.(p_key) p.(p_rid) sid p.(p_status) :: v))
  end.

Definition notify_status (q : slap_quorum) (key status : Z) : option (bool * slap_quorum) :=
  match split_key key (links q) with
  | None => Some (false, q)
  | Some (u, p, v) =>
      if p.(p_status) =? status then Some (false, q) else
      if qt q p.(p_status) >? 0 then
        let invalidate := negb (Bool.eqb (p.(p_status) <? QS_READY) (status <? QS_READY)) in
        q ← bump_status q p.(p_status) (-1);
        let q := put_links q (u ++ mkPresent p.(p_key) p.(p_rid) p.(p_sid) status :: v) in
        q ← bump_status q status 1;
        Some (invalidate, kick q)
      else None
  end.

Definition mesh (x : Z) : Z :=
  let x := u32 (Z.lxor x (u32 (Z.shiftl x 13))) in
  let x := u32 (x * 3931654393) in
  let x := Z.lxor x (Z.shiftr x 13) in
  let x := u32 (x * 3058479007) in
  Z.lxor x (Z.shiftr x 16).

(** ** The operations on a backend *)

Definition ensure_quorum (bd : BackendDB) : BackendDB * slap_quorum :=
  match bd.(bd_quorum) with
  | Some q => (bd, q)
  | None => (quorum_be_init bd, fresh_quorum)
  end.

(** [junk] is the indeterminate [status] of the new terminator. *)
Definition quorum_add_rid (bd : BackendDB) (key rid junk : Z) : option BackendDB :=
  let '(bd, q) := ensure_quorum bd in
  match split_key key (links q) with
  | Some _ => Some bd
  | None =>
      let q := with_present q (Some (links q ++ [mkPresent key rid (-1) QS_DIRTY], junk)) in
      q ← bump_status q QS_DIRTY 1;
      let q := kick (with_salt q (u32 (q.(q_salt) + mesh (u32 rid)))) in
      if flag_set q QR_AUTO_RIDS then
        '(changed, q) ← require_append q (Z.lor QR_VOTED_RID QR_FLAG_AUTO) rid;
        let bd := set_quorum bd q in
        Some (if (changed : bool) then quorum_invalidate bd else bd)
      else Some (set_quorum bd q)
  end.

Definition quorum_remove_rid (bd : BackendDB) (key : Z) : option BackendDB :=
  match bd.(bd_quorum) with
  | None => Some bd
  | Some q =>
      match split_key key (links q) with
      | None => Some bd
      | Some (u, p, v) =>
          q ← (if (p.(p_sid) >? -1) && flag_set q QR_AUTO_SIDS
               then '(_, q) ← require_remove q (Z.lor QR_VOTED_SID QR_FLAG_AUTO) NOT_DEMAND p.(p_sid); Some q
               else Some q);
          q ← (if flag_set q QR_AUTO_RIDS
               then '(_, q) ← require_remove q (Z.lor QR_VOTED_RID QR_FLAG_AUTO) NOT_DEMAND p.(p_rid); Some q
               else Some q);
          if qt q p.(p_status) >? 0 then
            q ← bump_status q p.(p_status) (-1);
            let q := kick (with_salt q (u32 (q.(q_salt) - mesh (u32 p.(p_rid))))) in
            let q := match u ++ v with [] => with_present q None | l => put_links q l end in
            Some (quorum_invalidate (set_quorum bd q))
          else None
      end
  end.

Definition quorum_notify_sid (bd : BackendDB) (key sid : Z) : option BackendDB :=
  if (sid <? 0) || (sid <=? SLAP_SYNC_SID_MAX) then
    match bd.(bd_quorum) with
    | None => Some bd
    | Some q =>
        '(changed, q) ← notify_sid q key sid;
        let bd := set_quorum bd q in
        Some (if (changed : bool) then quorum_invalidate bd else bd)
    end
  else None.

Definition quorum_notify_status (bd : BackendDB) (key status : Z) : option BackendDB :=
  if (status >=? QS_DIRTY) && (status <=? QS_PROCESS) then
    match bd.(bd_quorum) with
    | None => Some bd
    | Some q =>
        '(changed, q) ← notify_status q key status;
        let bd := set_quorum bd q in
        Some (if (changed : bool) then quorum_invalidate bd else bd)
    end
  else None.

Definition quorum_notify_csn (bd : BackendDB) (csnsid : Z) : option BackendDB :=
  if (csnsid >? -1) && (csnsid <=? SLAP_SYNC_SID_MAX) then
    match bd.(bd_quorum) with
    | Some q =>
        if flag_set q QR_AUTO_SIDS then
          '(changed, q) ← require_append q (Z.lor QR_VOTED_SID QR_FLAG_AUTO) csnsid;
          let bd := set_quorum bd q in
          Some (if (changed : bool) then quorum_invalidate bd else bd)
        else Some bd
    | None => Some bd
    end
  else None.

Definition quorum_syncrepl_maxrefresh (bd : BackendDB) : Z :=
  match bd.(bd_quorum) with
  | None => 2147483647
  | Some q => if q.(qr_syncrepl_limit) =? 0 then 2147483647 else q.(qr_syncrepl_limit)
  end.

Definition LDAP_SUCCESS : Z := 0.
Definition LDAP_BUSY : Z := 0x33.

Definition quorum_syncrepl_gate (bd : BackendDB) (enter : bool) : option (Z * BackendDB) :=
  let '(bd, q) := ensure_quorum bd in
  '(rc, q) ←
    (if enter then
       if negb (q.(qr_syncrepl_limit) =? 0) && (q.(qt_running) >=? q.(qr_syncrepl_limit))
       then Some (LDAP_BUSY, q) else Some (LDAP_SUCCESS, with_running q (q.(qt_running) + 1))
     else if q.(qt_running) >? 0 then Some (LDAP_SUCCESS, with_running q (q.(qt_running) - 1)) else None);
  let q := if rc =? LDAP_SUCCESS then kick q else q in
  if (q.(qt_running) >=? 0) && (q.(qt_running) <=? QR_SYNCREPL_MAX)
  then Some (rc, set_quorum bd q) else None.
