(* ===== verification/QuorumConfig.v ===== *)
(** * The quorum directive (servers/slapd/quorum.c: config_quorum)

    Parsing the words of the directive, emitting them again and deleting the
    directive; with the number parser [lutil_atoix] (liblutil/utils.c) and the
    word joiner [value_join_str] (slapd/value.c). *)

From stdpp Require Import base list numbers option gmap.
From Stdlib Require Import Ascii String.
From S2P Require Import Prelude Text Quorum.

Local Open Scope Z_scope.

(** ** Numbers *)

(** [lutil_atoix]: [inl] is the error code. *)
Definition lutil_atoix (s : text) (x : Z) : Z + Z :=
  match strtol s x with
  | None => inl (-1)
  | Some (i, rest) =>
      match rest with
      | _ :: _ => inl (-1)
      | [] => if swrap 32 i =? i then inr i else inl 1
      end
  end.

Definition lutil_atoi (s : text) : Z + Z := lutil_atoix s 10.

(** ** Words *)

(** [value_join_str]: the text written and the length stored in [bv_len]. *)
Definition value_join_str (vals : list text) (comma : text) : text * Z :=
  let len := fold_right (fun v n => Z.of_nat (List.length v) + Z.of_nat (List.length comma) + n) 0 vals in
  let fix join vals := match vals with
    | [] => []
    | [v] => v
    | v :: vals => v ++ comma ++ join vals
    end in
  if len =? 0 then ([], 0) else (join vals, len).

(** ** The directive *)

Definition QR_FAKETYPE_max_concurrent_refresh : Z := -2.

(** The mode key a word sets, besides those with an effect of their own. *)
Definition mode_key (w : text) : option Z :=
  if strcasecmp_eq w (kw "vote-sids") then Some QR_VOTED_SID
  else if strcasecmp_eq w (kw "vote-rids") then Some QR_VOTED_RID
  else if strcasecmp_eq w (kw "require-sids") then Some QR_DEMAND_SID
  else if strcasecmp_eq w (kw "require-rids") then Some QR_DEMAND_RID
  else None.

(** The ID of a requirement, decimal or else hexadecimal. *)
Definition parse_id (type : Z) (w : text) : option Z :=
  let r := match lutil_atoi w with inr n => inr n | inl _ => lutil_atoix w 16 end in
  match r with
  | inl _ => None
  | inr id =>
      if (id <? 0) || (id >? (if QR_IS_SID type then SLAP_SYNC_SID_MAX else SLAP_SYNC_RID_MAX))
      then None else Some id
  end.

Definition invalidate_if (c : bool) (bd : BackendDB) : BackendDB :=
  if c then quorum_invalidate bd else bd.

(** One word: [inl] is the error return with what was changed before, [inr] the
    new [type]; [None] is a failed assertion. *)
Definition config_word (bd : BackendDB) (q : slap_quorum) (type : Z) (w : text)
  : option (BackendDB + BackendDB * slap_quorum * Z) :=
  if strcasecmp_eq w (kw "all-links") then
    if flag_set q QR_ALL_LINKS then Some (inr (bd, q, -1))
    else Some (inr (quorum_invalidate bd, with_flags q (Z.lor q.(q_flags) QR_ALL_LINKS), -1))
  else if strcasecmp_eq w (kw "auto-sids") then
    '(c, q) ← require_auto_sids q; Some (inr (invalidate_if c bd, q, -1))
  else if strcasecmp_eq w (kw "auto-rids") then
    '(c, q) ← require_auto_rids q; Some (inr (invalidate_if c bd, q, -1))
  else match mode_key w with
  | Some type => Some (inr (bd, q, type))
  | None =>
      if strcasecmp_eq w (kw "limit-concurrent-refresh") then
        if negb (q.(qr_syncrepl_limit) =? 0) then Some (inl (set_quorum bd q))
        else Some (inr (bd, with_limit q 1, QR_FAKETYPE_max_concurrent_refresh))
      else if type =? QR_FAKETYPE_max_concurrent_refresh then
        match lutil_atoi w with
        | inr n => if (n <? 1) || (n >? QR_SYNCREPL_MAX) then Some (inl (set_quorum bd q))
                   else Some (inr (bd, with_limit q n, -1))
        | inl _ => Some (inl (set_quorum bd q))
        end
      else if type <? 0 then Some (inl (set_quorum bd q))
      else match parse_id type w with
      | None => Some (inl (set_quorum bd q))
      | Some id =>
          '(added, q) ← require_append q type id;
          if (added : bool) then Some (inr (quorum_invalidate bd, q, type))
          else Some (inl (set_quorum bd q))
      end
  end.

Fixpoint config_words (bd : BackendDB) (q : slap_quorum) (type : Z) (ws : list text)
  : option (Z * BackendDB) :=
  match ws with
  | [] => Some (0, set_quorum bd q)
  | w :: ws =>
      r ← config_word bd q type w;
      match r with
      | inl bd => Some (1, bd)
      | inr (bd, q, type) => config_words bd q type ws
      end
  end.

(** [config_quorum] adding a directive with the words [argv[1..]]. *)
Definition config_quorum_add (bd : BackendDB) (argv : list text) : option (Z * BackendDB) :=
  let '(bd, q) := ensure_quorum bd in config_words bd q (-1) argv.

(** [config_quorum] with [LDAP_MOD_DELETE]. *)
Definition config_quorum_delete (bd : BackendDB) : BackendDB :=
  match bd.(bd_quorum) with
  | None => bd
  | Some q =>
      let q := with_flags q 0 in
      let '(bd, q) := match q.(qr_requirements) with
        | Some _ => (set_cache bd 1, with_requirements q None)
        | None => (bd, q)
        end in
      let q := if q.(qr_syncrepl_limit) =? 0 then q else with_limit q 0 in
      set_quorum bd q
  end.

(** The words of one kind of requirement. *)
Definition unparse (q : slap_quorum) (type : Z) (verb : string) : list text :=
  match filter (fun r => r.(r_type) = type) (reqs q) with
  | [] => []
  | l => kw verb :: ((fun r => fmt_d r.(r_id)) <$> l)
  end.

Definition emit_words (q : slap_quorum) : list text :=
  (if flag_set q QR_ALL_LINKS then [kw "all-links"] else []) ++
  (if flag_set q QR_AUTO_SIDS then [kw "auto-sids"] else []) ++
  (if flag_set q QR_AUTO_RIDS then [kw "auto-rids"] else []) ++
  unparse q QR_DEMAND_RID "require-rids" ++ unparse q QR_DEMAND_SID "require-sids" ++
  unparse q QR_VOTED_RID "vote-rids" ++ unparse q QR_VOTED_SID "vote-sids" ++
  (if q.(qr_syncrepl_limit) >? 0
   then [kw "limit-concurrent-refresh"; fmt_d q.(qr_syncrepl_limit)] else []).

(** [config_quorum] with [SLAP_CONFIG_EMIT]: the return code, the text of
    [c->value_bv] and its length. *)
Definition config_quorum_emit (bd : BackendDB) : Z * (text * Z) :=
  match bd.(bd_quorum) with
  | None => (1, ([], 0))
  | Some q => match emit_words q with
              | [] => (1, ([], 0))
              | vals => (0, value_join_str vals (kw " "))
              end
  end.
