(* ===== verification/QuorumVerdict.v ===== *)
(** * The verdict of the quorum and its cache

    [lazy_update] as a formula over the links and requirements, what it depends
    on, and that the cached verdict stays right under the operations that keep
    it up to date. *)

From stdpp Require Import base list numbers option gmap.
From Stdlib Require Import Ascii String.
From S2P Require Import Prelude Text Quorum QuorumConfig.

Local Open Scope Z_scope.

(** ** Majority *)

Lemma land_1_mod w : Z.land w 1 = w mod 2.
Proof. change 1 with (2 ^ 1 - 1). by rewrite land_ones_mod. Qed.

Lemma quorum_spec total wanna ready :
  0 <= total -> 0 <= wanna ->
  quorum total wanna ready = true <-> 0 < Z.min wanna total < 2 * ready.
Proof.
  intros Ht Hw. unfold quorum. rewrite Z.gtb_ltb.
  replace (if total <? wanna then total else wanna) with (Z.min wanna total)
    by (destruct (Z.ltb_spec total wanna); lia).
  set (w := Z.min wanna total). assert (0 <= w) by lia.
  rewrite negb_true_iff, orb_false_iff, Z.eqb_neq, Z.ltb_ge, land_1_mod.
  assert ((w + 2 - w mod 2) / 2 = w / 2 + 1) as ->.
  { pose proof (Z.div_mod w 2 ltac:(lia)) as E. rewrite E at 1.
    replace (2 * (w / 2) + w mod 2 + 2 - w mod 2) with ((w / 2 + 1) * 2) by lia.
    by rewrite Z.div_mul. }
  pose proof (Z.div_mod w 2 ltac:(lia)). pose proof (Z.mod_pos_bound w 2 ltac:(lia)). lia.
Qed.

(** ** The verdict as a formula *)

Section verdict.
Variable serverID : Z.

(** The link a requirement is about. *)
Definition req_link (q : slap_quorum) (r : requirment) : option present :=
  find_link (fun p => (if QR_IS_SID r.(r_type) then p.(p_sid) else p.(p_rid)) =? r.(r_id)) (links q).

Definition req_met (q : slap_quorum) (r : requirment) : bool :=
  match req_link q r with Some p => is_ready p | None => false end.

(** The requirements that count: this server itself is not waited for. *)
Definition relevant (r : requirment) : bool :=
  negb (QR_IS_SID r.(r_type) && (r.(r_id) =? serverID)).

Definition votes (q : slap_quorum) (sid : bool) : list requirment :=
  filter (fun r => relevant r && Bool.eqb (QR_IS_SID r.(r_type)) sid = true) (reqs q).

Definition n_votes q sid : Z := Z.of_nat (List.length (votes q sid)).
Definition n_met q sid : Z := Z.of_nat (List.length (filter (fun r => req_met q r = true) (votes q sid))).

Definition verdict (q : slap_quorum) : bool :=
  let total := Z.of_nat (List.length (links q)) in
  (negb (flag_set q QR_ALL_LINKS) || forallb is_ready (links q)) &&
  forallb (fun r => negb (relevant r && QR_IS_DEMAND r.(r_type)) || req_met q r) (reqs q) &&
  ((n_votes q true =? 0) && (n_votes q false =? 0) ||
   quorum total (n_votes q true) (n_met q true) || quorum total (n_votes q false) (n_met q false)) &&
  (negb (flag_set q QR_AUTO_SIDS) || (total =? 0) || quorum total total (n_votes q true)).

(** The terminator's [status] does not pretend to be a ready link. *)
Definition term_ok (q : slap_quorum) : Prop :=
  match q.(qr_present) with Some (_, term) => term < QS_READY | None => True end.

Lemma count_all_ready l : (count_links is_ready l <? Z.of_nat (List.length l)) = negb (forallb is_ready l).
Proof.
  unfold count_links. induction l as [|p l IH]; [done|]. cbn [forallb].
  rewrite filter_cons. destruct (is_ready p) eqn:E.
  - rewrite decide_True by done. cbn [List.length andb]. rewrite <- IH.
    apply Bool.eq_iff_eq_true. rewrite !Z.ltb_lt. lia.
  - rewrite decide_False by done. cbn [List.length andb negb].
    pose proof (length_filter (fun p => is_ready p = true) l). apply Z.ltb_lt. lia.
Qed.

Lemma found_status_lack q r :
  term_ok q ->
  match found_status q (fun p => (if QR_IS_SID r.(r_type) then p.(p_sid) else p.(p_rid)) =? r.(r_id)) with
  | None => true | Some st => st <? QS_READY end = negb (req_met q r).
Proof.
  intros Ht. unfold found_status, req_met, req_link, links, term_ok in *.
  destruct (qr_present q) as [[l term]|]; [|done].
  destruct (find_link _ l) as [p|].
  - unfold is_ready. rewrite Z.geb_leb. apply Bool.eq_iff_eq_true.
    rewrite Z.ltb_lt, negb_true_iff, Z.leb_gt. done.
  - by apply Z.ltb_lt.
Qed.

Ltac tally_simpl :=
  repeat first
    [ progress cbn [andb negb orb Bool.eqb b2z List.length t_state wanna_sids ready_sids wanna_rids ready_rids]
    | rewrite filter_cons | rewrite decide_True by done | rewrite decide_False by done
    | rewrite decide_True by congruence | rewrite decide_False by congruence ].

(** What the requirements loop adds up. *)
Lemma tally_reqs q rs t :
  term_ok q ->
  let vs sid := filter (fun r => relevant r && Bool.eqb (QR_IS_SID r.(r_type)) sid = true) rs in
  let met sid := Z.of_nat (List.length (filter (fun r => req_met q r = true) (vs sid))) in
  fold_left (tally_req serverID q) rs t =
    mkTally (if forallb (fun r => negb (relevant r && QR_IS_DEMAND r.(r_type)) || req_met q r) rs
             then t.(t_state) else -1)
      (t.(wanna_sids) + Z.of_nat (List.length (vs true))) (t.(ready_sids) + met true)
      (t.(wanna_rids) + Z.of_nat (List.length (vs false))) (t.(ready_rids) + met false).
Proof.
  intros Ht. revert t. induction rs as [|r rs IH]; intros t.
  { cbn. rewrite !Z.add_0_r. by destruct t. }
  cbn [fold_left]. rewrite IH. clear IH. unfold tally_req. rewrite found_status_lack by done.
  fold (req_link q r). cbn [forallb]. rewrite !filter_cons.
  assert (match req_link q r with Some p => b2z (is_ready p) | None => 0 end = b2z (req_met q r)) as ->.
  { unfold req_met. by destruct (req_link q r). }
  destruct (QR_IS_SID (r_type r)) eqn:Es; cbn [andb negb Bool.eqb].
  - assert (relevant r = negb (r_id r =? serverID)) as Hrel by (unfold relevant; by rewrite Es).
    rewrite Hrel. destruct (r_id r =? serverID); [tally_simpl; done|].
    destruct (req_met q r) eqn:Em, (QR_IS_DEMAND (r_type r)); tally_simpl; f_equal; (lia || by case_if).
  - assert (relevant r = true) as Hrel by (unfold relevant; by rewrite Es). rewrite Hrel.
    destruct (req_met q r) eqn:Em, (QR_IS_DEMAND (r_type r)); tally_simpl; f_equal; (lia || by case_if).
Qed.

Lemma lazy_update_verdict q : term_ok q -> lazy_update serverID q = if verdict q then 1 else -1.
Proof.
  intros Ht. unfold lazy_update. rewrite tally_reqs by done. rewrite count_all_ready.
  cbn [t_state wanna_sids ready_sids wanna_rids ready_rids]. rewrite !Z.add_0_l.
  fold (votes q true) (votes q false). unfold verdict.
  fold (n_votes q true) (n_votes q false) (n_met q true) (n_met q false).
  set (total := Z.of_nat _).
  set (dem := forallb _ (reqs q)). set (Q1 := quorum total (n_votes q true) _).
  set (Q2 := quorum total (n_votes q false) _). set (Q3 := quorum total total _).
  assert ((n_votes q true =? 0) = true -> Q1 = false) as H1.
  { intros E%Z.eqb_eq. unfold Q1, quorum. rewrite E. unfold total. case_if; [zb; lia|done]. }
  assert ((n_votes q false =? 0) = true -> Q2 = false) as H2.
  { intros E%Z.eqb_eq. unfold Q2, quorum. rewrite E. unfold total. case_if; [zb; lia|done]. }
  assert (qr_requirements q = None -> (n_votes q true =? 0) = true /\ (n_votes q false =? 0) = true) as H3.
  { intros E. unfold n_votes, votes, reqs. by rewrite E. }
  destruct (flag_set q QR_ALL_LINKS), (forallb is_ready (links q)), dem, (flag_set q QR_AUTO_SIDS);
    cbn [negb andb orb Z.gtb Z.compare]; destruct (qr_requirements q); cbn [andb];
    try (destruct H3 as [-> ->]; [done|]); cbn [andb orb negb];
    destruct (n_votes q true =? 0), (n_votes q false =? 0); cbn [andb orb negb Z.gtb Z.compare] in *;
    rewrite ?H1, ?H2 by done; cbn [orb andb negb Z.gtb Z.compare];
    destruct Q1, Q2; cbn [orb andb negb Z.gtb Z.compare];
    destruct (total =? 0), Q3; done.
Qed.
End verdict.

(** ** What the verdict depends on *)

(** Two quorum objects the verdict cannot tell apart. *)
Definition same_core (q q' : slap_quorum) : Prop :=
  q'.(qr_present) = q.(qr_present) /\ q'.(qr_requirements) = q.(qr_requirements) /\
  q'.(q_flags) = q.(q_flags).

Global Instance same_core_preorder : PreOrder same_core.
Proof. split; [done|]. intros q1 q2 q3 (? & ? & ?) (? & ? & ?). split_and!; congruence. Qed.

Lemma lazy_update_core sid q q' : same_core q q' -> lazy_update sid q' = lazy_update sid q.
Proof. destruct q, q'. intros (? & ? & ?). simpl in *. subst. reflexivity. Qed.

Lemma lazy_update_auto_rids sid q :
  lazy_update sid (with_flags q (Z.lor q.(q_flags) QR_AUTO_RIDS)) = lazy_update sid q.
Proof.
  unfold lazy_update, flag_set. cbn [q_flags with_flags]. rewrite !Z.land_lor_distr_l.
  change (Z.land QR_AUTO_RIDS QR_ALL_LINKS) with 0. change (Z.land QR_AUTO_RIDS QR_AUTO_SIDS) with 0.
  rewrite !Z.lor_0_r. reflexivity.
Qed.

Lemma kick_core q : same_core q (kick q).
Proof. done. Qed.

Lemma bump_core q i d q' : bump_status q i d = Some q' -> same_core q q'.
Proof. unfold bump_status. intros H. inv_bind H. inv_bind H. by injection H as <-. Qed.

Lemma append_unchanged q type id q' : require_append q type id = Some (false, q') -> same_core q q'.
Proof.
  unfold require_append. case_if; [|done].
  destruct (require_match _ _ _) as [[[] l]|]; [done| |done]. by intros [= <-].
Qed.

(** Links that differ at most in a status on the same side of [QS_READY]. *)
Definition link_sim (p p' : present) : Prop :=
  p'.(p_sid) = p.(p_sid) /\ p'.(p_rid) = p.(p_rid) /\
  (p'.(p_status) <? QS_READY) = (p.(p_status) <? QS_READY).

Lemma is_ready_sim p p' : link_sim p p' -> is_ready p' = is_ready p.
Proof. intros (_ & _ & H). unfold is_ready. rewrite !Z.geb_leb, !Z.leb_antisym. by rewrite H. Qed.

Lemma filter_sim f l l' :
  Forall2 link_sim l l' -> (forall p p', link_sim p p' -> f p' = f p) ->
  Forall2 link_sim (filter (fun p => f p = true) l) (filter (fun p => f p = true) l').
Proof.
  intros Hl Hf. induction Hl as [|p p' l l' Hp Hl IH]; [constructor|]. rewrite !filter_cons.
  rewrite (Hf p p' Hp). destruct (f p); [rewrite !decide_True by done; by constructor|].
  by rewrite !decide_False by done.
Qed.

Lemma find_sim f l l' :
  Forall2 link_sim l l' -> (forall p p', link_sim p p' -> f p' = f p) ->
  match find_link f l, find_link f l' with
  | Some p, Some p' => link_sim p p'
  | None, None => True
  | _, _ => False
  end.
Proof.
  intros Hl Hf. unfold find_link. pose proof (filter_sim f l l' Hl Hf) as Hs.
  inversion Hs; by simpl.
Qed.

Lemma lazy_update_sim sid q l l' term :
  q.(qr_present) = Some (l, term) -> Forall2 link_sim l l' ->
  lazy_update sid (put_links q l') = lazy_update sid q.
Proof.
  intros Hq Hl.
  assert (links q = l /\ links (put_links q l') = l') as [Hlq Hlq'].
  { unfold links, put_links. rewrite Hq. done. }
  assert (reqs (put_links q l') = reqs q /\ q_flags (put_links q l') = q_flags q /\
          qr_requirements (put_links q l') = qr_requirements q) as (Hr & Hf & Hrq).
  { unfold put_links, reqs. rewrite Hq. done. }
  assert (forall t r, tally_req sid (put_links q l') t r = tally_req sid q t r) as Ht.
  { intros t r. unfold tally_req, found_status. rewrite Hlq, Hlq'.
    unfold put_links. rewrite Hq. cbn [qr_present with_present].
    set (f := fun p => _ =? r_id r).
    pose proof (find_sim f l l' Hl) as Hs.
    assert (forall p p', link_sim p p' -> f p' = f p) as Hff.
    { intros p p' (H1 & H2 & _). unfold f. by rewrite H1, H2. }
    specialize (Hs Hff). destruct (find_link f l) as [p|], (find_link f l') as [p'|]; try done.
    rewrite (is_ready_sim p p' Hs). destruct Hs as (_ & _ & ->). done. }
  assert (forall rs t, fold_left (tally_req sid (put_links q l')) rs t = fold_left (tally_req sid q) rs t) as Hfold.
  { induction rs as [|r rs IH]; intros t; cbn [fold_left]; [done|]. by rewrite Ht, IH. }
  assert (length l' = length l) as Hlen by (symmetry; by eapply Forall2_length).
  assert (count_links is_ready l' = count_links is_ready l) as Hc.
  { unfold count_links. f_equal. symmetry. eapply Forall2_length, (filter_sim is_ready); [done|apply is_ready_sim]. }
  unfold lazy_update, flag_set. rewrite Hfold, Hr, Hf, Hrq, Hlq, Hlq', Hlen, Hc. done.
Qed.

Lemma tally_state sid q rs t :
  t.(t_state) = 1 \/ t.(t_state) = -1 ->
  (fold_left (tally_req sid q) rs t).(t_state) = 1 \/ (fold_left (tally_req sid q) rs t).(t_state) = -1.
Proof.
  revert t. induction rs as [|r rs IH]; intros t Ht; cbn [fold_left]; [done|]. apply IH.
  unfold tally_req. case_if; [done|]. case_if; cbn [t_state]; case_if; auto.
Qed.

Lemma lazy_update_range sid q : lazy_update sid q = 1 \/ lazy_update sid q = -1.
Proof.
  unfold lazy_update.
  match goal with |- context [fold_left _ _ (mkTally ?s _ _ _ _)] =>
    pose proof (tally_state sid q (reqs q) (mkTally s 0 0 0 0) ltac:(cbn; case_if; auto)) as Ht
  end.
  set (t := fold_left _ _ _) in *. clearbody t.
  case_if; [by right|]. destruct (qr_requirements q); [|done]. case_if; [|done]. case_if; auto.
Qed.

(** ** The cached verdict *)

Create HintDb quorum.

Section cache.
Variable serverID : Z.

Definition current (bd : BackendDB) : Z :=
  match bd.(bd_quorum) with Some q => lazy_update serverID q | None => 1 end.

(** The cache is empty or right. *)
Definition coherent (bd : BackendDB) : Prop := bd.(bd_quorum_cache) = 0 \/ bd.(bd_quorum_cache) = current bd.

(** Nothing in the configuration depends on the number of links. *)
Definition indifferent (bd : BackendDB) : Prop :=
  match bd.(bd_quorum) with
  | None => True
  | Some q => q.(qr_requirements) = None /\ flag_set q QR_ALL_LINKS = false /\ flag_set q QR_AUTO_SIDS = false
  end.

(** The operations of the module, one at a time.  A link may be added while the
    verdict has not been computed yet or does not depend on the links; the
    directive may be deleted when it named requirements or nothing at all. *)
Inductive quorum_step : BackendDB -> BackendDB -> Prop :=
  | step_query bd : quorum_step bd (quorum_query serverID bd).2
  | step_status bd ro : quorum_step bd (quorum_query_status bd ro).2
  | step_add bd key rid junk bd' :
      bd.(bd_quorum_cache) = 0 \/ indifferent bd ->
      quorum_add_rid bd key rid junk = Some bd' -> quorum_step bd bd'
  | step_remove bd key bd' : quorum_remove_rid bd key = Some bd' -> quorum_step bd bd'
  | step_sid bd key sid bd' : quorum_notify_sid bd key sid = Some bd' -> quorum_step bd bd'
  | step_link_status bd key st bd' : quorum_notify_status bd key st = Some bd' -> quorum_step bd bd'
  | step_csn bd sid bd' : quorum_notify_csn bd sid = Some bd' -> quorum_step bd bd'
  | step_gate bd enter rc bd' : quorum_syncrepl_gate bd enter = Some (rc, bd') -> quorum_step bd bd'
  | step_config bd ws rc bd' :
      Forall (fun w => strcasecmp_eq w (kw "auto-sids") = false) ws ->
      config_quorum_add bd ws = Some (rc, bd') -> quorum_step bd bd'
  | step_delete bd :
      (match bd.(bd_quorum) with Some q => q.(qr_requirements) <> None | None => True end) \/ indifferent bd ->
      quorum_step bd (config_quorum_delete bd)
  | step_destroy bd : quorum_step bd (quorum_be_destroy bd).

Lemma coherent_core bd q q' :
  bd.(bd_quorum) = Some q -> same_core q q' -> coherent bd -> coherent (set_quorum bd q').
Proof.
  intros Hq Hc [H0|H1]; [by left|right]. unfold current in *. rewrite Hq in H1. cbn.
  by rewrite (lazy_update_core _ _ _ Hc).
Qed.

Lemma coherent_invalidated bd : coherent (quorum_invalidate bd).
Proof. by left. Qed.

Lemma fresh_coherent : lazy_update serverID fresh_quorum = 1.
Proof. done. Qed.

Lemma ensure_coherent bd : coherent bd -> coherent (ensure_quorum bd).1 /\
  bd_quorum (ensure_quorum bd).1 = Some (ensure_quorum bd).2.
Proof.
  intros H. unfold ensure_quorum. destruct (bd_quorum bd) eqn:E; cbn; [done|].
  split; [|done]. right. done.
Qed.

Lemma split_key_links key l u p v : split_key key l = Some (u, p, v) -> l = u ++ p :: v /\ p.(p_key) = key.
Proof.
  revert u. induction l as [|x l IH]; intros u; [done|]. cbn [split_key]. case_if.
  - zb. intros [= <- <- <-]. done.
  - intros H. inv_bind H. destruct x0 as [[u' p'] v']. injection H as <- <- <-.
    destruct (IH u' Hb) as [-> ?]. done.
Qed.

Lemma notify_status_coherent bd key st bd' :
  quorum_notify_status bd key st = Some bd' -> coherent bd -> coherent bd'.
Proof.
  unfold quorum_notify_status. case_if; [|done]. destruct (bd_quorum bd) as [q|] eqn:Hq; [|by intros [= <-]].
  intros H Hc. inv_bind H. destruct x as [changed q']. injection H as <-.
  destruct changed; [apply coherent_invalidated|].
  unfold notify_status in Hb. destruct (split_key key (links q)) as [[[u p] v]|] eqn:Hs.
  2: { injection Hb as <-. by apply (coherent_core bd q q). }
  case_if_in Hb; [injection Hb as <-; by apply (coherent_core bd q q)|].
  case_if_in Hb; [|done]. inv_bind Hb. inv_bind Hb. injection Hb as Hinv <-.
  apply split_key_links in Hs as [Hl _].
  destruct (qr_present q) as [[l term]|] eqn:Hpr; [|by unfold links in Hl; rewrite Hpr in Hl; destruct u].
  unfold links in Hl. rewrite Hpr in Hl. subst l.
  apply bump_core in Hb0, Hb1.
  assert (same_core (put_links q (u ++ mkPresent (p_key p) (p_rid p) (p_sid p) st :: v)) (kick x0)) as Hk.
  { etrans; [|apply kick_core]. etrans; [|exact Hb1]. destruct Hb0 as (F1 & F2 & F3).
    unfold put_links. rewrite Hpr, F1, Hpr. split_and!; done. }
  destruct Hc as [H0|H1]; [by left|right]. cbn. rewrite (lazy_update_core _ _ _ Hk).
  unfold current in H1. rewrite Hq in H1. rewrite H1. symmetry.
  eapply lazy_update_sim; [done|]. apply Forall2_app; [|constructor].
  - apply Forall_Forall2_diag, list.Forall_forall. done.
  - unfold link_sim. cbn. split_and!; try done.
    apply negb_false_iff, Bool.eqb_prop in Hinv. done.
  - apply Forall_Forall2_diag, list.Forall_forall. done.
Qed.

Lemma add_rid_coherent bd key rid junk bd' :
  bd.(bd_quorum_cache) = 0 \/ indifferent bd ->
  quorum_add_rid bd key rid junk = Some bd' -> coherent bd -> coherent bd'.
Proof.
  intros Hor H Hc. unfold quorum_add_rid in H.
  destruct (ensure_quorum bd) as [bd1 q] eqn:Ee.
  destruct (ensure_coherent bd Hc) as [Hc1 Hq1]. rewrite Ee in Hc1, Hq1. cbn in Hc1, Hq1.
  destruct (split_key key (links q)); [by injection H as <-|]. inv_bind H.
  apply bump_core in Hb. set (q2 := kick _) in *.
  assert (same_core (with_present q (Some (links q ++ [mkPresent key rid (-1) QS_DIRTY], junk))) q2) as Hcore.
  { etrans; [exact Hb|]. done. }
  clearbody q2.
  assert (indifferent bd1 \/ bd_quorum_cache bd1 = 0) as Hor1.
  { unfold ensure_quorum in Ee. unfold indifferent in *. destruct (bd_quorum bd) eqn:E.
    - injection Ee as <- <-. rewrite E. tauto.
    - injection Ee as <- <-. left. done. }
  destruct Hor1 as [Hind|Hz].
  - unfold indifferent in Hind. rewrite Hq1 in Hind. destruct Hind as (Hr & Ha & Hs).
    assert (forall q3, q_flags q3 = q_flags q -> qr_requirements q3 = None -> lazy_update serverID q3 = 1) as Hone.
    { intros q3 Hf Hr3. unfold lazy_update, reqs, flag_set in *. rewrite Hr3, Hf, Ha, Hs. done. }
    destruct Hcore as (_ & Hrq & Hfl). cbn in Hrq, Hfl.
    destruct (flag_set q2 QR_AUTO_RIDS).
    + inv_bind H. destruct x0 as [ch q3]. destruct ch; injection H as <-; [by left|].
      apply append_unchanged in Hb0 as (_ & Hr3 & Hf3). destruct Hc1 as [?|H1]; [by left|right].
      cbn. rewrite Hone by congruence. rewrite H1. unfold current. rewrite Hq1. apply Hone; done.
    + injection H as <-. destruct Hc1 as [?|H1]; [by left|right].
      cbn. rewrite Hone by congruence. rewrite H1. unfold current. rewrite Hq1. apply Hone; done.
  - left. destruct (flag_set q2 QR_AUTO_RIDS).
    + inv_bind H. destruct x0 as [ch q3]. destruct ch; by injection H as <-.
    + by injection H as <-.
Qed.

Lemma append_coherent bd q type id b q' :
  bd.(bd_quorum) = Some q -> require_append q type id = Some (b, q') -> coherent bd ->
  coherent (invalidate_if b (set_quorum bd q')).
Proof.
  intros Hq Ha Hc. destruct b; [by left|]. apply append_unchanged in Ha. by eapply coherent_core.
Qed.

Lemma invalidate_if_set c bd q : invalidate_if c (set_quorum bd q) = set_quorum (invalidate_if c bd) q.
Proof. by destruct c. Qed.

Lemma notify_sid_coherent bd key sid bd' :
  quorum_notify_sid bd key sid = Some bd' -> coherent bd -> coherent bd'.
Proof.
  unfold quorum_notify_sid. case_if; [|done]. destruct (bd_quorum bd) as [q|] eqn:Hq; [|by intros [= <-]].
  intros H Hc. inv_bind H. destruct x as [changed q']. injection H as <-.
  destruct changed; [by left|]. unfold notify_sid in Hb.
  destruct (split_key key (links q)) as [[[u p] v]|]; [case_if_in Hb|];
    [injection Hb as <-; by eapply coherent_core|by inv_bind Hb|injection Hb as <-; by eapply coherent_core].
Qed.

Lemma remove_rid_coherent bd key bd' :
  quorum_remove_rid bd key = Some bd' -> coherent bd -> coherent bd'.
Proof.
  unfold quorum_remove_rid. intros H Hc. destruct (bd_quorum bd) as [q|]; [|by injection H as <-].
  destruct (split_key key (links q)) as [[[u p] v]|]; [|by injection H as <-].
  inv_bind H. inv_bind H. case_if_in H; [|done]. inv_bind H. injection H as <-. by left.
Qed.

Lemma notify_csn_coherent bd sid bd' :
  quorum_notify_csn bd sid = Some bd' -> coherent bd -> coherent bd'.
Proof.
  unfold quorum_notify_csn. case_if; [|done]. intros H Hc.
  destruct (bd_quorum bd) as [q|] eqn:Hq; [|by injection H as <-].
  case_if_in H; [|by injection H as <-]. inv_bind H. destruct x as [b q']. injection H as <-.
  by apply (append_coherent bd q _ _ _ _ Hq Hb).
Qed.

Lemma gate_coherent bd enter rc bd' :
  quorum_syncrepl_gate bd enter = Some (rc, bd') -> coherent bd -> coherent bd'.
Proof.
  unfold quorum_syncrepl_gate. intros H Hc. destruct (ensure_coherent bd Hc) as [Hc1 Hq1].
  destruct (ensure_quorum bd) as [bd1 q]. cbn in Hc1, Hq1. inv_bind H. destruct x as [rc1 q1].
  case_if_in H; [|done]. injection H as <- <-. eapply coherent_core; [done| |done].
  assert (same_core q q1) as Hs.
  { destruct enter; case_if_in Hb; try done; by injection Hb as <- <-. }
  case_if; [|done]. etrans; [exact Hs|apply kick_core].
Qed.

Lemma query_coherent bd : coherent bd -> coherent (quorum_query serverID bd).2.
Proof. unfold quorum_query. case_if; [|done]. by right. Qed.

Lemma status_coherent bd ro : coherent bd -> coherent (quorum_query_status bd ro).2.
Proof.
  intros Hc. unfold quorum_query_status. cbn.
  destruct (bd_quorum bd) as [q|] eqn:Hq; cbn [default quorum_be_init bd_quorum].
  - rewrite Hq. cbn. eapply coherent_core; [done| |done]. destruct (cns_status q); [done|apply kick_core].
  - right. done.
Qed.

Lemma destroy_coherent bd : coherent bd -> coherent (quorum_be_destroy bd).
Proof. intros Hc. unfold quorum_be_destroy. destruct (bd_quorum bd); [|done]. by right. Qed.

Lemma indifferent_one q :
  q.(qr_requirements) = None -> flag_set q QR_ALL_LINKS = false -> flag_set q QR_AUTO_SIDS = false ->
  lazy_update serverID q = 1.
Proof. intros Hr Ha Hs. unfold lazy_update, reqs. by rewrite Hr, Ha, Hs. Qed.

Lemma delete_coherent bd :
  (match bd.(bd_quorum) with Some q => q.(qr_requirements) <> None | None => True end) \/ indifferent bd ->
  coherent bd -> coherent (config_quorum_delete bd).
Proof.
  unfold indifferent, config_quorum_delete. destruct (bd_quorum bd) as [q|] eqn:Hq; [|done].
  intros Hor Hc. cbn [qr_requirements with_flags].
  destruct (qr_requirements q) as [rs|] eqn:Er.
  - right. unfold set_quorum, current. cbn [bd_quorum bd_quorum_cache set_cache].
    rewrite indifferent_one; [done|..]; case_if; done.
  - destruct Hor as [?|(_ & Ha & Hs)]; [done|].
    destruct Hc as [?|Hc]; [by left|right]. unfold current in Hc. rewrite Hq in Hc.
    rewrite (indifferent_one q) in Hc by done. unfold set_quorum, current. cbn [bd_quorum bd_quorum_cache].
    rewrite Hc. symmetry. apply indifferent_one; case_if; done.
Qed.

(** The configuration words keep the cache right: the state after a word is
    [bd] with the quorum object [q]. *)
Lemma append_all_coherent bd q type ids b q' :
  append_all q type ids = Some (b, q') -> coherent (set_quorum bd q) ->
  coherent (invalidate_if b (set_quorum bd q')).
Proof.
  revert q b q'. induction ids as [|id ids IH]; intros q b q' H Hc; cbn [append_all] in H.
  { by injection H as <- <-. }
  inv_bind H. destruct x as [b1 q1]. inv_bind H. destruct x as [b2 q2]. injection H as <- <-.
  destruct b1; [by left|]. apply (IH q1); [done|]. apply append_unchanged in Hb.
  eapply (coherent_core (set_quorum bd q)); done.
Qed.

Lemma config_word_coherent bd q type w r :
  strcasecmp_eq w (kw "auto-sids") = false ->
  config_word bd q type w = Some r -> coherent (set_quorum bd q) ->
  match r with
  | inl bd' => coherent bd'
  | inr (bd', q', _) => coherent (set_quorum bd' q')
  end.
Proof.
  intros Hw H Hc. unfold config_word in H. rewrite Hw in H.
  case_if_in H. { case_if_in H; injection H as <-; [done|by left]. }
  case_if_in H.
  { unfold require_auto_rids in H. case_if_in H; [by injection H as <-|].
    inv_bind H. destruct x as [c q1]. injection H as <-. rewrite <- invalidate_if_set.
    eapply append_all_coherent; [done|].
    destruct Hc as [?|Hc]; [by left|right]. cbn in *. by rewrite lazy_update_auto_rids. }
  destruct (mode_key w); [by injection H as <-|].
  case_if_in H. { case_if_in H; injection H as <-; [done|]. by eapply (coherent_core (set_quorum bd q)). }
  case_if_in H.
  { destruct (lutil_atoi w); [by injection H as <-|]. case_if_in H; injection H as <-; [done|].
    by eapply (coherent_core (set_quorum bd q)). }
  case_if_in H; [by injection H as <-|]. destruct (parse_id type w); [|by injection H as <-].
  inv_bind H. destruct x as [added q1]. pose proof (append_coherent (set_quorum bd q) q _ _ _ _ eq_refl Hb Hc) as Ha.
  destruct added; injection H as <-; exact Ha.
Qed.

Lemma config_words_coherent bd q type ws rc bd' :
  Forall (fun w => strcasecmp_eq w (kw "auto-sids") = false) ws ->
  config_words bd q type ws = Some (rc, bd') -> coherent (set_quorum bd q) -> coherent bd'.
Proof.
  intros Hws. revert bd q type. induction Hws as [|w ws Hw Hws IH]; intros bd q type H Hc.
  { by injection H as <- <-. }
  cbn [config_words] in H. inv_bind H.
  pose proof (config_word_coherent _ _ _ _ _ Hw Hb Hc) as Hr.
  destruct x as [bd1|[[bd1 q1] ty1]]; [by injection H as <- <-|]. by eapply IH.
Qed.

Lemma config_add_coherent bd ws rc bd' :
  Forall (fun w => strcasecmp_eq w (kw "auto-sids") = false) ws ->
  config_quorum_add bd ws = Some (rc, bd') -> coherent bd -> coherent bd'.
Proof.
  intros Hws H Hc. unfold config_quorum_add in H. destruct (ensure_coherent bd Hc) as [Hc1 Hq1].
  destruct (ensure_quorum bd) as [bd1 q]. cbn in Hc1, Hq1. eapply config_words_coherent; [done..|].
  by apply (coherent_core bd1 q).
Qed.

Hint Resolve query_coherent status_coherent add_rid_coherent remove_rid_coherent notify_sid_coherent
  notify_status_coherent notify_csn_coherent gate_coherent config_add_coherent
  delete_coherent destroy_coherent : quorum.

Lemma quorum_step_coherent bd bd' : quorum_step bd bd' -> coherent bd -> coherent bd'.
Proof. intros H. destruct H; eauto with quorum. Qed.

Lemma quorum_reach_coherent bd bd' : rtc quorum_step bd bd' -> coherent bd -> coherent bd'.
Proof. intros H. induction H; eauto using quorum_step_coherent. Qed.

Lemma quorum_query_current bd : coherent bd -> (quorum_query serverID bd).1 = (current bd >? 0).
Proof.
  intros Hc. unfold quorum_query. case_if; [done|]. zb. destruct Hc as [?|Hc]; [done|]. by rewrite Hc.
Qed.
End cache.
