(* ===== verification/QuorumInvariant.v ===== *)
(** * The invariant of a quorum object

    The counters of the links by status, the ranges of the identifiers, the
    requirements named at most once: every operation keeps them, and while they
    hold no assertion of the module fails on arguments in range. *)

From stdpp Require Import base list numbers option gmap.
From Stdlib Require Import Ascii String.
From S2P Require Import Prelude Text Quorum QuorumConfig QuorumVerdict.

Local Open Scope Z_scope.

(** ** The counters *)

Definition has_status (st : Z) (p : present) : bool := p.(p_status) =? st.

Definition status_counts (l : list present) : list Z :=
  (fun st => count_links (has_status st) l) <$> [QS_DIRTY; QS_DEAD; QS_REFRESH; QS_READY; QS_PROCESS].

Definition status_in_range (st : Z) : Prop := QS_DIRTY <= st <= QS_PROCESS.

Lemma count_links_app f u v : count_links f (u ++ v) = count_links f u + count_links f v.
Proof. unfold count_links. rewrite list.filter_app, length_app. lia. Qed.

Lemma count_links_cons f p l : count_links f (p :: l) = b2z (f p) + count_links f l.
Proof.
  unfold count_links. rewrite filter_cons. destruct (f p);
    [rewrite decide_True by done|rewrite decide_False by done]; cbn [List.length b2z]; lia.
Qed.

Lemma count_links_put st u p v :
  count_links (has_status st) (u ++ p :: v) = count_links (has_status st) (u ++ v) + b2z (st =? p.(p_status)).
Proof.
  rewrite !count_links_app, count_links_cons. unfold has_status at 2. rewrite (Z.eqb_sym (p_status p)). lia.
Qed.

Lemma count_links_nonneg f l : 0 <= count_links f l.
Proof. unfold count_links. lia. Qed.

Lemma status_cases st (P : Z -> Prop) :
  P QS_DIRTY -> P QS_DEAD -> P QS_REFRESH -> P QS_READY -> P QS_PROCESS -> status_in_range st -> P st.
Proof.
  unfold status_in_range, QS_DIRTY, QS_DEAD, QS_REFRESH, QS_READY, QS_PROCESS.
  intros ????? H. assert (st = 0 \/ st = 1 \/ st = 2 \/ st = 3 \/ st = 4) as [->|[->|[->|[->| ->]]]] by lia; assumption.
Qed.

Lemma qt_counts q st :
  q.(qt_status) = status_counts (links q) -> status_in_range st -> qt q st = count_links (has_status st) (links q).
Proof. intros E Hst. unfold qt. rewrite E. by apply (status_cases st). Qed.

(** [bump_status] on counters that count [l]. *)
Lemma bump_counts q i d l l' :
  status_in_range i -> q.(qt_status) = status_counts l ->
  (forall st, status_in_range st -> count_links (has_status st) l' = count_links (has_status st) l + b2z (st =? i) * d) ->
  bump_status q i d = Some (with_status q (status_counts l')).
Proof.
  intros Hi E Hl. unfold bump_status. rewrite E.
  assert (status_counts l' = (fun st => count_links (has_status st) l + b2z (st =? i) * d) <$>
    [QS_DIRTY; QS_DEAD; QS_REFRESH; QS_READY; QS_PROCESS]) as ->.
  { unfold status_counts. cbn. rewrite !Hl by (unfold status_in_range; done). done. }
  clear Hl E. apply (status_cases i); [..|exact Hi]; cbn; rewrite ?Z.mul_1_l, ?Z.add_0_r; reflexivity.
Qed.

(** ** The invariant *)

Definition req_ok (r : requirment) : Prop := 0 <= r.(r_type) <= 7 /\ require_id_ok r.(r_type) r.(r_id) = true.

(** What a requirement is about: the kind of the identifier and its value. *)
Definition req_key (r : requirment) : bool * Z := (QR_IS_SID r.(r_type), r.(r_id)).

Definition link_ok (p : present) : Prop :=
  0 <= p.(p_rid) <= SLAP_SYNC_RID_MAX /\ p.(p_sid) <= SLAP_SYNC_SID_MAX /\ status_in_range p.(p_status).

(** The requirements: in range, none twice, never an empty array. *)
Definition reqs_ok (o : option (list requirment)) : Prop :=
  Forall req_ok (default [] o) /\ NoDup (req_key <$> default [] o) /\ o <> Some [].

(** The links: in range, no key twice, never an empty array; the counters count
    them by status. *)
Definition links_ok (o : option (list present * Z)) (counts : list Z) : Prop :=
  let l := match o with Some (l, _) => l | None => [] end in
  Forall link_ok l /\ NoDup (p_key <$> l) /\ (forall t, o <> Some ([], t)) /\ counts = status_counts l.

(** The number of links that are not ready, once the status text is made. *)
Definition left_ok (q : slap_quorum) : Prop :=
  q.(cns_status) <> None ->
  q.(qt_left) = Z.of_nat (List.length (links q)) - count_links (has_status QS_READY) (links q).

Record quorum_ok (q : slap_quorum) : Prop := {
  ok_links : links_ok q.(qr_present) q.(qt_status);
  ok_left : left_ok q;
  ok_reqs : reqs_ok q.(qr_requirements);
  ok_limit : 0 <= q.(qr_syncrepl_limit) <= QR_SYNCREPL_MAX;
  ok_running : 0 <= q.(qt_running) <= QR_SYNCREPL_MAX;
}.

Definition backend_ok (bd : BackendDB) : Prop :=
  match bd.(bd_quorum) with Some q => quorum_ok q | None => True end.

Lemma fresh_ok : quorum_ok fresh_quorum.
Proof.
  split; [| | |cbn; unfold QR_SYNCREPL_MAX; lia..].
  - split_and!; [constructor|constructor|done|done].
  - intros H. by destruct H.
  - split_and!; [constructor|constructor|done].
Qed.

Lemma length_counts l : Forall link_ok l ->
  Z.of_nat (List.length l) = foldr Z.add 0 (status_counts l).
Proof.
  unfold status_counts. cbn. intros Hl. induction Hl as [|p l (_ & _ & Hp) Hl IH]; [done|].
  cbn [List.length]. rewrite Nat2Z.inj_succ, IH, !count_links_cons. unfold has_status.
  apply (status_cases (p_status p)); [..|exact Hp];
    cbn [b2z Z.eqb Pos.eqb QS_DIRTY QS_DEAD QS_REFRESH QS_READY QS_PROCESS]; lia.
Qed.

Lemma kick_left q : links_ok q.(qr_present) q.(qt_status) -> left_ok (kick q).
Proof.
  intros (Hl & _ & _ & Hc) _. change (links (kick q)) with (links q).
  assert (qt_status q = status_counts (links q)) as Hc' by exact Hc.
  rewrite (length_counts (links q)) by exact Hl. cbn [kick qt_left].
  rewrite !(qt_counts q) by (try done; unfold status_in_range; done). cbn. lia.
Qed.

(** ** Requirements *)

Lemma require_match_spec type id l :
  match require_match type id l with
  | Some (_, l') => req_key <$> l' = req_key <$> l /\
      (0 <= type <= 7 -> require_id_ok type id = true -> Forall req_ok l -> Forall req_ok l')
  | None => (QR_IS_SID type, id) ∉ req_key <$> l
  end.
Proof.
  induction l as [|r l IH]; cbn [require_match]; [by apply not_elem_of_nil|].
  destruct (same_req type id r) eqn:E.
  - unfold same_req in E. apply andb_true_iff in E as [E%Z.eqb_eq E0%Bool.eqb_prop].
    case_if; [|done]. split.
    + cbn. f_equal. unfold req_key. cbn. by rewrite E0.
    + intros Ht Hid Hl. apply list.Forall_cons in Hl as [_ Hl]. constructor; [|done].
      split; cbn; [done|]. by rewrite E.
  - destruct (require_match type id l) as [[b l']|]; cbn.
    + destruct IH as [Hk Hf]. split; [by f_equal|]. intros Ht Hid Hl.
      apply list.Forall_cons in Hl as [Hr Hl]. constructor; auto.
    + rewrite not_elem_of_cons. split; [|done]. intros [= E1 E2].
      unfold same_req in E. by rewrite <- E1, <- E2, Z.eqb_refl, Bool.eqb_reflx in E.
Qed.

Lemma require_append_ok q type id :
  reqs_ok q.(qr_requirements) -> 0 <= type <= 7 -> require_id_ok type id = true ->
  exists b o, require_append q type id = Some (b, with_requirements q o) /\ reqs_ok o.
Proof.
  intros (Hf & Hn & Hs) Ht Hid. unfold require_append. rewrite Hid.
  pose proof (require_match_spec type id (reqs q)) as Hm.
  destruct (require_match type id (reqs q)) as [[b l']|] eqn:E.
  - destruct Hm as [Hk Hl]. eexists b, _. split; [done|]. destruct b; [|done].
    split_and!; cbn; [by apply Hl|by rewrite Hk|]. intros [= ->].
    by destruct (reqs q).
  - eexists true, _. split; [done|]. split_and!; cbn.
    + apply list.Forall_app. split; [done|]. constructor; [|constructor]. done.
    + rewrite fmap_app. apply list.NoDup_app. split_and!; [done| |apply NoDup_singleton].
      intros x Hx. cbn. rewrite list_elem_of_singleton. intros ->. done.
    + intros [= E0]. by destruct (reqs q).
Qed.

Lemma remove_req_sublist type mask id l l' : remove_req type mask id l = Some l' -> sublist l' l.
Proof.
  revert l'. induction l as [|r l IH]; intros l' H; [done|]. cbn [remove_req] in H. case_if_in H.
  - injection H as <-. by apply sublist_cons.
  - inv_bind H. injection H as <-. apply sublist_skip. auto.
Qed.

Lemma reqs_ok_sublist o l l' : reqs_ok o -> default [] o = l -> sublist l' l ->
  reqs_ok (match l' with [] => None | _ => Some l' end).
Proof.
  intros (Hf & Hn & _) <- Hs.
  assert (Forall req_ok l' /\ NoDup (req_key <$> l')) as [H1 H2].
  { split; [|eapply sublist_NoDup; [exact Hn|by apply fmap_sublist]].
    clear Hn. induction Hs; auto; apply list.Forall_cons in Hf as [? ?]; auto. }
  destruct l'; split_and!; try done; constructor.
Qed.

Lemma require_remove_ok q type mask id :
  reqs_ok q.(qr_requirements) -> require_id_ok type id = true ->
  exists b o, require_remove q type mask id = Some (b, with_requirements q o) /\ reqs_ok o.
Proof.
  intros Hr Hid. unfold require_remove. rewrite Hid.
  destruct (remove_req type mask id (reqs q)) as [l'|] eqn:E.
  - apply remove_req_sublist in E. pose proof (reqs_ok_sublist _ _ l' Hr eq_refl E) as Hl.
    destruct l'; eexists true, _; split; done.
  - exists false, (qr_requirements q). by destruct q.
Qed.

Lemma with_requirements_ok q o : quorum_ok q -> reqs_ok o -> quorum_ok (with_requirements q o).
Proof. intros [] Ho. by split. Qed.

Lemma append_keeps_ok q type id :
  quorum_ok q -> 0 <= type <= 7 -> require_id_ok type id = true ->
  exists b q', require_append q type id = Some (b, q') /\ quorum_ok q' /\ links q' = links q.
Proof.
  intros Hq Ht Hid. destruct (require_append_ok q type id (ok_reqs q Hq) Ht Hid) as (b & o & E & Ho).
  eexists b, _. split; [exact E|]. split; [by apply with_requirements_ok|done].
Qed.

Lemma append_all_ok q type ids :
  quorum_ok q -> 0 <= type <= 7 -> Forall (fun id => require_id_ok type id = true) ids ->
  exists b q', append_all q type ids = Some (b, q') /\ quorum_ok q'.
Proof.
  intros Hq Ht Hids. revert q Hq. induction Hids as [|id ids Hid Hids IH]; intros q Hq; [by eexists _, _|].
  destruct (append_keeps_ok q type id Hq Ht Hid) as (b1 & q1 & E1 & H1 & _).
  destruct (IH q1 H1) as (b2 & q2 & E2 & H2). cbn [append_all]. rewrite E1. cbn. rewrite E2. cbn. eauto.
Qed.

Lemma rid_id_ok p : link_ok p -> require_id_ok (Z.lor QR_VOTED_RID QR_FLAG_AUTO) p.(p_rid) = true.
Proof.
  intros (H & _). unfold require_id_ok. change (QR_IS_SID _) with false. cbn [negb].
  apply andb_true_iff. rewrite Z.gtb_ltb, Z.ltb_lt, Z.leb_le. lia.
Qed.

Lemma sid_id_ok sid : -1 < sid <= SLAP_SYNC_SID_MAX ->
  require_id_ok (Z.lor QR_VOTED_SID QR_FLAG_AUTO) sid = true.
Proof.
  intros H. unfold require_id_ok. change (QR_IS_SID _) with true.
  apply andb_true_iff. rewrite Z.gtb_ltb, Z.ltb_lt, Z.leb_le. lia.
Qed.

Lemma links_of_ok q : quorum_ok q -> Forall link_ok (links q).
Proof. by intros [(H & _) _ _ _ _]. Qed.

Lemma with_flags_ok q v : quorum_ok q -> quorum_ok (with_flags q v).
Proof. intros []. by split. Qed.

Lemma auto_rids_ok q : quorum_ok q -> exists b q', require_auto_rids q = Some (b, q') /\ quorum_ok q'.
Proof.
  intros Hq. unfold require_auto_rids. case_if; [by eexists _, _|].
  apply append_all_ok; [by apply with_flags_ok|done|].
  apply list.Forall_fmap. eapply list.Forall_impl; [exact (links_of_ok q Hq)|apply rid_id_ok].
Qed.

Lemma auto_sids_ok q : quorum_ok q -> exists b q', require_auto_sids q = Some (b, q') /\ quorum_ok q'.
Proof.
  intros Hq. unfold require_auto_sids. case_if; [by eexists _, _|].
  apply append_all_ok; [by apply with_flags_ok|done|].
  apply list.Forall_forall. intros s [Hs Hin]%list_elem_of_filter.
  apply list_elem_of_fmap in Hin as (p & -> & Hp).
  pose proof (links_of_ok q Hq) as Hl. rewrite list.Forall_forall in Hl.
  destruct (Hl p Hp) as (_ & ? & _). apply sid_id_ok. lia.
Qed.

(** ** Links *)

Lemma split_key_none key l : split_key key l = None -> key ∉ p_key <$> l.
Proof.
  induction l as [|p l IH]; cbn [split_key]; intros H; [by apply not_elem_of_nil|].
  case_if_in H; [done|]. zb. destruct (split_key key l) as [[[u x] v]|]; [done|].
  apply not_elem_of_cons. split; [congruence|auto].
Qed.

(** A link replaced by another with the same key. *)
Lemma links_ok_replace u p p' v t :
  p'.(p_key) = p.(p_key) -> link_ok p' ->
  links_ok (Some (u ++ p :: v, t)) (status_counts (u ++ p :: v)) ->
  links_ok (Some (u ++ p' :: v, t)) (status_counts (u ++ p' :: v)).
Proof.
  intros Hk Hp (Hl & Hn & _ & _). split_and!.
  - apply list.Forall_app in Hl as [Hu Hv]. apply list.Forall_cons in Hv as [_ Hv].
    apply list.Forall_app. split; [done|]. by constructor.
  - revert Hn. rewrite !fmap_app, !fmap_cons. by rewrite Hk.
  - intros t' [= E]. by destruct u.
  - done.
Qed.

Lemma links_ok_remove u p v t :
  links_ok (Some (u ++ p :: v, t)) (status_counts (u ++ p :: v)) ->
  links_ok (match u ++ v with [] => None | l => Some (l, t) end) (status_counts (u ++ v)).
Proof.
  intros (Hl & Hn & _ & _).
  assert (Forall link_ok (u ++ v) /\ NoDup (p_key <$> u ++ v)) as [H1 H2].
  { split.
    - apply list.Forall_app in Hl as [Hu Hv]. apply list.Forall_cons in Hv as [_ Hv]. by apply list.Forall_app.
    - eapply sublist_NoDup; [exact Hn|]. apply fmap_sublist. apply sublist_app; [done|by apply sublist_cons]. }
  destruct (u ++ v) eqn:E; split_and!; try done.
Qed.

Lemma links_ok_add o counts key rid t :
  links_ok o counts -> 0 <= rid <= SLAP_SYNC_RID_MAX ->
  let l := match o with Some (l, _) => l | None => [] end in
  key ∉ p_key <$> l ->
  let l' := l ++ [mkPresent key rid (-1) QS_DIRTY] in
  links_ok (Some (l', t)) (status_counts l').
Proof.
  intros (Hl & Hn & _ & _) Hr l Hk l'. split_and!.
  - apply list.Forall_app. split; [done|]. constructor; [|constructor].
    unfold link_ok, status_in_range, SLAP_SYNC_SID_MAX. cbn. split_and!; try lia; done.
  - unfold l'. rewrite fmap_app. apply list.NoDup_app. split_and!; [done| |apply NoDup_singleton].
    intros x Hx. cbn. rewrite list_elem_of_singleton. by intros ->.
  - intros t' [= E]. unfold l' in E. by destruct l.
  - done.
Qed.

(** The link with a key, its status counted. *)
Lemma found_counted q key u p v :
  quorum_ok q -> split_key key (links q) = Some (u, p, v) ->
  exists t, q.(qr_present) = Some (u ++ p :: v, t) /\ q.(qt_status) = status_counts (u ++ p :: v) /\
    link_ok p /\ (qt q p.(p_status) >? 0) = true.
Proof.
  intros Hq Hs. apply split_key_links in Hs as [Hl _]. pose proof Hq as [(Hf & _ & _ & Hc) _ _ _ _].
  fold (links q) in Hf, Hc. rewrite Hl in Hf, Hc.
  assert (link_ok p) as Hp by (apply list.Forall_app in Hf as [_ Hf]; by apply list.Forall_cons in Hf as [? _]).
  unfold links in Hl. destruct (qr_present q) as [[l t]|] eqn:E; [subst l|by destruct u].
  exists t. split_and!; try done.
  rewrite qt_counts; [|unfold links; by rewrite E|by destruct Hp as (_ & _ & ?)].
  unfold links. rewrite E, count_links_app, count_links_cons. unfold has_status at 2. rewrite Z.eqb_refl.
  pose proof (count_links_nonneg (has_status (p_status p)) u).
  pose proof (count_links_nonneg (has_status (p_status p)) v). cbn [b2z]. apply Z.gtb_lt. lia.
Qed.

(** ** The operations *)

Lemma kick_ok q :
  links_ok q.(qr_present) q.(qt_status) -> reqs_ok q.(qr_requirements) ->
  0 <= q.(qr_syncrepl_limit) <= QR_SYNCREPL_MAX -> 0 <= q.(qt_running) <= QR_SYNCREPL_MAX ->
  quorum_ok (kick q).
Proof. intros Hl. split; [done|by apply kick_left|done..]. Qed.

Lemma ensure_ok bd : backend_ok bd ->
  quorum_ok (ensure_quorum bd).2.
Proof. unfold backend_ok, ensure_quorum. destruct (bd_quorum bd); [done|]. intros _. apply fresh_ok. Qed.

Lemma add_rid_ok bd key rid junk :
  backend_ok bd -> 0 <= rid <= SLAP_SYNC_RID_MAX ->
  exists bd', quorum_add_rid bd key rid junk = Some bd' /\ backend_ok bd'.
Proof.
  intros Hbd Hr. pose proof (ensure_ok bd Hbd) as Hq. unfold quorum_add_rid.
  assert (backend_ok (ensure_quorum bd).1) as Hbd1.
  { unfold ensure_quorum. destruct (bd_quorum bd) eqn:E; [done|apply fresh_ok]. }
  destruct (ensure_quorum bd) as [bd1 q]. cbn in Hq, Hbd1. destruct Hq as [Hl _ Hrq Hlim Hrun].
  destruct (split_key key (links q)) eqn:Es; [by eexists|].
  pose proof (links_ok_add _ _ key rid junk Hl Hr (split_key_none _ _ Es)) as Hl'.
  fold (links q) in Hl'. destruct Hl as (_ & _ & _ & Hc). fold (links q) in Hc.
  set (l' := links q ++ _) in *.
  rewrite (bump_counts _ QS_DIRTY 1 (links q) l'); [|done..|].
  2: { intros st _. unfold l'. rewrite count_links_put, app_nil_r. cbn [p_status]. lia. }
  cbn [mbind option_bind]. set (q2 := kick _).
  assert (quorum_ok q2) as Hq2 by by apply kick_ok.
  clearbody q2. case_if; [|by eexists].
  assert (require_id_ok (Z.lor QR_VOTED_RID QR_FLAG_AUTO) rid = true) as Hid.
  { apply (rid_id_ok (mkPresent 0 rid (-1) 0)). split; [done|]. split; done. }
  destruct (append_keeps_ok q2 (Z.lor QR_VOTED_RID QR_FLAG_AUTO) rid Hq2 ltac:(done) Hid) as (b & q3 & -> & Hq3 & _).
  cbn. destruct b; by eexists.
Qed.

Lemma notify_status_ok bd key st :
  backend_ok bd -> status_in_range st ->
  exists bd', quorum_notify_status bd key st = Some bd' /\ backend_ok bd'.
Proof.
  intros Hbd Hst. unfold quorum_notify_status.
  replace ((st >=? QS_DIRTY) && (st <=? QS_PROCESS)) with true
    by (symmetry; apply andb_true_iff; rewrite Z.geb_le, Z.leb_le; apply Hst).
  unfold backend_ok in Hbd. destruct (bd_quorum bd) as [q|] eqn:Hb; [|by exists bd; unfold backend_ok; rewrite Hb].
  unfold notify_status. destruct (split_key key (links q)) as [[[u p] v]|] eqn:Es; [|by eexists].
  case_if; [by eexists|]. destruct (found_counted _ _ _ _ _ Hbd Es) as (t & Hpr & Hc & Hp & Hpos).
  rewrite Hpos. destruct Hbd as [Hl _ Hrq Hlim Hrun]. rewrite Hpr, Hc in Hl.
  set (p' := mkPresent _ _ _ st).
  assert (link_ok p') as Hp' by (destruct Hp as (? & ? & ?); split; done).
  rewrite (bump_counts _ _ (-1) (u ++ p :: v) (u ++ v)); [|by destruct Hp as (_ & _ & ?)|done|].
  2: { intros s _. rewrite count_links_put. lia. }
  cbn [mbind option_bind]. unfold put_links. cbn [qr_present with_status]. rewrite Hpr.
  rewrite (bump_counts _ _ 1 (u ++ v) (u ++ p' :: v)); [|done|done|].
  2: { intros s _. rewrite count_links_put. cbn [p_status p']. lia. }
  cbn. eexists. split; [done|]. unfold backend_ok.
  case_if; cbn; (apply kick_ok; [by apply (links_ok_replace u p p' v t)|done..]).
Qed.

Lemma remove_rid_ok bd key :
  backend_ok bd -> exists bd', quorum_remove_rid bd key = Some bd' /\ backend_ok bd'.
Proof.
  intros Hbd. unfold quorum_remove_rid. pose proof Hbd as Hbd0. unfold backend_ok in Hbd.
  destruct (bd_quorum bd) as [q|] eqn:Hb; [|by eexists].
  destruct (split_key key (links q)) as [[[u p] v]|] eqn:Es; [|by eexists].
  destruct (found_counted _ _ _ _ _ Hbd Es) as (t & Hpr & Hc & Hp & Hpos).
  assert (exists o, reqs_ok o /\
    (if (p_sid p >? -1) && flag_set q QR_AUTO_SIDS
     then '(_, q) ← require_remove q (Z.lor QR_VOTED_SID QR_FLAG_AUTO) NOT_DEMAND (p_sid p); Some q
     else Some q) = Some (with_requirements q o)) as (o1 & Ho1 & ->).
  { case_if; [|exists (qr_requirements q); split; [by destruct Hbd|by destruct q]].
    apply andb_true_iff in E as [E%Z.gtb_lt _].
    destruct (require_remove_ok q (Z.lor QR_VOTED_SID QR_FLAG_AUTO) NOT_DEMAND (p_sid p)) as (b & o & E1 & Ho);
      [by destruct Hbd|apply sid_id_ok; destruct Hp as (_ & ? & _); lia|].
    exists o. by rewrite E1. }
  cbn [mbind option_bind].
  assert (exists o, reqs_ok o /\
    (if flag_set (with_requirements q o1) QR_AUTO_RIDS
     then '(_, q) ← require_remove (with_requirements q o1) (Z.lor QR_VOTED_RID QR_FLAG_AUTO) NOT_DEMAND (p_rid p); Some q
     else Some (with_requirements q o1)) = Some (with_requirements q o)) as (o2 & Ho2 & ->).
  { case_if; [|by exists o1].
    destruct (require_remove_ok (with_requirements q o1) (Z.lor QR_VOTED_RID QR_FLAG_AUTO) NOT_DEMAND (p_rid p))
      as (b & o & E1 & Ho); [done|by apply rid_id_ok|]. exists o. by rewrite E1. }
  cbn [mbind option_bind]. change (qt (with_requirements q o2) (p_status p)) with (qt q (p_status p)).
  rewrite Hpos. destruct Hbd as [Hl _ Hrq Hlim Hrun]. rewrite Hpr, Hc in Hl.
  rewrite (bump_counts _ _ (-1) (u ++ p :: v) (u ++ v)); [|by destruct Hp as (_ & _ & ?)|done|].
  2: { intros s _. rewrite count_links_put. lia. }
  cbn [mbind option_bind]. eexists. split; [done|]. unfold backend_ok. cbn [bd_quorum quorum_invalidate set_cache set_quorum].
  set (q2 := with_salt _ _).
  replace (match u ++ v with [] => with_present (kick q2) None | l => put_links (kick q2) l end)
    with (kick (with_present q2 (match u ++ v with [] => None | l => Some (l, t) end))).
  2: { destruct (u ++ v); [done|]. unfold put_links, q2. cbn [qr_present kick with_salt with_status with_requirements].
       by rewrite Hpr. }
  apply kick_ok; [by apply (links_ok_remove u p v t)|done..].
Qed.

Lemma notify_sid_ok bd key sid :
  backend_ok bd -> sid <= SLAP_SYNC_SID_MAX ->
  exists bd', quorum_notify_sid bd key sid = Some bd' /\ backend_ok bd'.
Proof.
  intros Hbd Hsid. unfold quorum_notify_sid. rewrite (proj2 (Z.leb_le _ _) Hsid), orb_true_r.
  pose proof Hbd as Hbd0. unfold backend_ok in Hbd. destruct (bd_quorum bd) as [q|] eqn:Hb; [|by eexists].
  unfold notify_sid. destruct (split_key key (links q)) as [[[u p] v]|] eqn:Es; [|by eexists].
  case_if; [by eexists|]. destruct (found_counted _ _ _ _ _ Hbd Es) as (t & Hpr & Hc & Hp & _).
  match goal with |- context [if flag_set q QR_AUTO_SIDS then ?A else Some q] =>
    assert (exists o, reqs_ok o /\ (if flag_set q QR_AUTO_SIDS then A else Some q) = Some (with_requirements q o))
      as (o & Ho & ->) end.
  { case_if; [|exists (qr_requirements q); split; [by destruct Hbd|by destruct q]].
    assert (exists o, reqs_ok o /\
      (if p_sid p >? -1
       then '(_, q) ← require_remove q (Z.lor QR_VOTED_SID QR_FLAG_AUTO) NOT_DEMAND (p_sid p); Some q
       else Some q) = Some (with_requirements q o)) as (o1 & Ho1 & ->).
    { case_if; [|exists (qr_requirements q); split; [by destruct Hbd|by destruct q]]. apply Z.gtb_lt in E1.
      destruct (require_remove_ok q (Z.lor QR_VOTED_SID QR_FLAG_AUTO) NOT_DEMAND (p_sid p)) as (b & o & E2 & Ho);
        [by destruct Hbd|apply sid_id_ok; destruct Hp as (_ & ? & _); lia|]. exists o. by rewrite E2. }
    cbn [mbind option_bind]. case_if; [|by exists o1]. apply Z.gtb_lt in E1.
    destruct (require_append_ok (with_requirements q o1) (Z.lor QR_VOTED_SID QR_FLAG_AUTO) sid)
      as (b & o & E2 & Ho); [done|done|apply sid_id_ok; lia|]. exists o. by rewrite E2. }
  cbn. eexists. split; [done|]. unfold backend_ok. cbn. unfold put_links. cbn [qr_present with_requirements]. rewrite Hpr.
  set (p' := mkPresent _ _ _ _). pose proof Hbd as [Hl Hleft _ Hlim Hrun]. rewrite Hpr, Hc in Hl.
  assert (forall st, count_links (has_status st) (u ++ p' :: v) = count_links (has_status st) (u ++ p :: v)) as Hcnt.
  { intros st. by rewrite !count_links_put. }
  assert (status_counts (u ++ p' :: v) = status_counts (u ++ p :: v)) as Hsc.
  { unfold status_counts. cbn. by rewrite !Hcnt. }
  split; cbn; try done.
  - rewrite Hc, <- Hsc. apply (links_ok_replace u p p' v t); [done|by destruct Hp as (? & ? & ?)|done].
  - unfold left_ok in *. cbn. intros Hn. rewrite (Hleft Hn). unfold links. rewrite Hpr, Hcnt, !length_app. done.
Qed.

Lemma notify_csn_ok bd sid :
  backend_ok bd -> -1 < sid <= SLAP_SYNC_SID_MAX ->
  exists bd', quorum_notify_csn bd sid = Some bd' /\ backend_ok bd'.
Proof.
  intros Hbd Hsid. unfold quorum_notify_csn.
  replace ((sid >? -1) && (sid <=? SLAP_SYNC_SID_MAX)) with true
    by (symmetry; apply andb_true_iff; rewrite Z.gtb_lt, Z.leb_le; lia).
  pose proof Hbd as Hbd0. unfold backend_ok in Hbd. destruct (bd_quorum bd) as [q|] eqn:Hb; [|by eexists].
  case_if; [|by eexists].
  destruct (append_keeps_ok q (Z.lor QR_VOTED_SID QR_FLAG_AUTO) sid Hbd ltac:(done) (sid_id_ok sid Hsid))
    as (b & q1 & -> & Hq1 & _). cbn. destruct b; by eexists.
Qed.

(** Leaving needs a refresh under way; entering without a limit needs room in
    the range the module asserts. *)
Lemma gate_ok bd (enter : bool) :
  backend_ok bd ->
  let q := (ensure_quorum bd).2 in
  (if enter then q.(qr_syncrepl_limit) <> 0 \/ q.(qt_running) < QR_SYNCREPL_MAX else 0 < q.(qt_running)) ->
  exists rc bd', quorum_syncrepl_gate bd enter = Some (rc, bd') /\ backend_ok bd'.
Proof.
  intros Hbd q Hpre. pose proof (ensure_ok bd Hbd) as Hq. unfold quorum_syncrepl_gate. subst q.
  destruct (ensure_quorum bd) as [bd1 q]. cbn in Hq, Hpre. pose proof Hq as [Hl Hleft Hr Hlim Hrun].
  assert (forall n, 0 <= n <= QR_SYNCREPL_MAX -> (n >=? 0) && (n <=? QR_SYNCREPL_MAX) = true) as Hin.
  { intros n Hn. apply andb_true_iff. rewrite Z.geb_le, Z.leb_le. lia. }
  destruct enter.
  - destruct (negb (qr_syncrepl_limit q =? 0) && (qt_running q >=? qr_syncrepl_limit q)) eqn:E; cbn.
    + rewrite Hin by done. by eexists _, _.
    + assert (0 <= qt_running q + 1 <= QR_SYNCREPL_MAX).
      { apply andb_false_iff in E as [E|E]; [zb; lia|]. rewrite Z.geb_leb in E. apply Z.leb_gt in E. lia. }
      rewrite Hin by done. eexists _, _. split; [done|]. by apply kick_ok.
  - rewrite (proj2 (Z.gtb_lt _ _) Hpre). cbn. rewrite Hin by lia. eexists _, _. split; [done|].
    apply kick_ok; try done. cbn. lia.
Qed.

(** ** The directive *)

Lemma mode_key_range w t : mode_key w = Some t -> 0 <= t <= 7.
Proof. unfold mode_key. repeat (case_if; [by intros [= <-]|]). done. Qed.

Lemma with_limit_ok q n : quorum_ok q -> 0 <= n <= QR_SYNCREPL_MAX -> quorum_ok (with_limit q n).
Proof. intros [] Hn. by split. Qed.

Lemma parse_id_ok type w id : parse_id type w = Some id -> require_id_ok type id = true.
Proof.
  unfold parse_id, require_id_ok. cbv zeta.
  destruct (match lutil_atoi w with inl _ => lutil_atoix w 16 | inr n => inr n end) as [|n]; [done|].
  case_if; [done|]. intros [= ->]. apply orb_false_iff in E as [E1 E2]. zb.
  rewrite Z.gtb_ltb in *. apply Z.ltb_ge in E2. apply andb_true_iff. rewrite Z.ltb_lt. split; [lia|].
  destruct (QR_IS_SID type); apply Z.leb_le; lia.
Qed.

Lemma config_word_ok bd q type w :
  quorum_ok q -> type <= 7 ->
  exists r, config_word bd q type w = Some r /\
    match r with
    | inl bd' => backend_ok bd'
    | inr (_, q', type') => quorum_ok q' /\ type' <= 7
    end.
Proof.
  intros Hq Ht. unfold config_word. case_if.
  { case_if; eexists; split; try done; split; try done. by apply with_flags_ok. }
  case_if. { destruct (auto_sids_ok q Hq) as (b & q1 & -> & H1). cbn. by eexists. }
  case_if. { destruct (auto_rids_ok q Hq) as (b & q1 & -> & H1). cbn. by eexists. }
  destruct (mode_key w) as [t|] eqn:Em.
  { eexists. split; [done|]. split; [done|]. apply mode_key_range in Em. lia. }
  case_if.
  { case_if; (eexists; split; [done|]); [done|]. split; [apply with_limit_ok; [done|by unfold QR_SYNCREPL_MAX; lia]|done]. }
  case_if.
  { destruct (lutil_atoi w) as [|n]; [by eexists|]. case_if; (eexists; split; [done|]); [done|].
    split; [|done]. apply with_limit_ok; [done|]. zb. lia. }
  case_if; [by eexists|]. zb. destruct (parse_id type w) as [id|] eqn:Ep; [|by eexists].
  destruct (append_keeps_ok q type id Hq ltac:(lia) (parse_id_ok _ _ _ Ep)) as (b & q1 & -> & H1 & _).
  cbn. destruct b; by eexists.
Qed.

Lemma config_words_ok bd q type ws :
  quorum_ok q -> type <= 7 -> exists rc bd', config_words bd q type ws = Some (rc, bd') /\ backend_ok bd'.
Proof.
  revert bd q type. induction ws as [|w ws IH]; intros bd q type Hq Ht; [by eexists _, _|].
  destruct (config_word_ok bd q type w Hq Ht) as (r & E & Hr). cbn [config_words]. rewrite E. cbn.
  destruct r as [bd'|[[bd1 q1] ty1]]; [by eexists _, _|]. destruct Hr. by apply IH.
Qed.

Lemma config_add_ok bd ws :
  backend_ok bd -> exists rc bd', config_quorum_add bd ws = Some (rc, bd') /\ backend_ok bd'.
Proof.
  intros Hbd. pose proof (ensure_ok bd Hbd) as Hq. unfold config_quorum_add.
  destruct (ensure_quorum bd) as [bd1 q]. by apply config_words_ok.
Qed.

Lemma config_delete_ok bd : backend_ok bd -> backend_ok (config_quorum_delete bd).
Proof.
  unfold config_quorum_delete, backend_ok. destruct (bd_quorum bd) as [q|] eqn:E; [|by rewrite E].
  intros [Hl Hleft Hr Hlim Hrun]. cbn [qr_requirements with_flags].
  assert (reqs_ok None) as Hn by (split_and!; [constructor|constructor|done]).
  destruct (qr_requirements q) eqn:Er; cbn -[Z.eqb]; case_if; split; try done; cbn; try rewrite Er; try done;
    unfold QR_SYNCREPL_MAX; lia.
Qed.

Lemma status_query_ok bd ro : backend_ok bd -> backend_ok (quorum_query_status bd ro).2.
Proof.
  intros Hbd. unfold quorum_query_status. cbn. unfold backend_ok in *. cbn.
  assert (forall q, quorum_ok q -> quorum_ok (match cns_status q with None => kick q | Some _ => q end)) as Hk.
  { intros q [Hl Hleft Hr Hlim Hrun]. destruct (cns_status q) eqn:E; [by split|by apply kick_ok]. }
  apply Hk. destruct (bd_quorum bd) eqn:E; [by rewrite E|apply fresh_ok].
Qed.

(** ** Histories *)

(** A call of the module with arguments in range. *)
Inductive call :=
  | CQuery | CStatus (running_only : bool) | CAddRid (key rid junk : Z) | CRemoveRid (key : Z)
  | CNotifySid (key sid : Z) | CNotifyStatus (key st : Z) | CNotifyCsn (sid : Z) | CGate (enter : bool)
  | CConfig (ws : list text) | CDelete | CDestroy.

Definition perform (serverID : Z) (bd : BackendDB) (c : call) : option BackendDB :=
  match c with
  | CQuery => Some (quorum_query serverID bd).2
  | CStatus ro => Some (quorum_query_status bd ro).2
  | CAddRid key rid junk => quorum_add_rid bd key rid junk
  | CRemoveRid key => quorum_remove_rid bd key
  | CNotifySid key sid => quorum_notify_sid bd key sid
  | CNotifyStatus key st => quorum_notify_status bd key st
  | CNotifyCsn sid => quorum_notify_csn bd sid
  | CGate enter => '(_, bd) ← quorum_syncrepl_gate bd enter; Some bd
  | CConfig ws => '(_, bd) ← config_quorum_add bd ws; Some bd
  | CDelete => Some (config_quorum_delete bd)
  | CDestroy => Some (quorum_be_destroy bd)
  end.

(** Arguments in the ranges of the interface.  The gate is left only after it
    was entered, and entered only below the number of places it has. *)
Definition call_ok (bd : BackendDB) (c : call) : Prop :=
  match c with
  | CAddRid _ rid _ => 0 <= rid <= SLAP_SYNC_RID_MAX
  | CNotifySid _ sid => sid <= SLAP_SYNC_SID_MAX
  | CNotifyStatus _ st => status_in_range st
  | CNotifyCsn sid => -1 < sid <= SLAP_SYNC_SID_MAX
  | CGate enter =>
      let q := (ensure_quorum bd).2 in
      if enter then q.(qr_syncrepl_limit) <> 0 \/ q.(qt_running) < QR_SYNCREPL_MAX else 0 < q.(qt_running)
  | _ => True
  end.

#[export] Hint Resolve add_rid_ok remove_rid_ok notify_sid_ok notify_status_ok notify_csn_ok
  status_query_ok config_delete_ok : quorum.

Lemma perform_ok serverID bd c :
  backend_ok bd -> call_ok bd c -> exists bd', perform serverID bd c = Some bd' /\ backend_ok bd'.
Proof.
  intros Hbd Hc. destruct c; cbn [perform call_ok] in *; auto with quorum; try (eexists; split; [done|]; auto with quorum).
  - unfold quorum_query. by case_if.
  - destruct (gate_ok bd enter Hbd Hc) as (rc & bd' & -> & H). by exists bd'.
  - destruct (config_add_ok bd ws Hbd) as (rc & bd' & -> & H). by exists bd'.
  - unfold quorum_be_destroy. by destruct (bd_quorum bd).
Qed.
