(* ===== verification/QuorumDirective.v ===== *)
(** * Emitting and parsing the quorum directive

    The words [config_quorum] emits for a quorum object are parsed back to the
    same flags, limit and requirements. *)

From stdpp Require Import base list numbers option gmap.
From Stdlib Require Import Ascii String.
From S2P Require Import Prelude Text Quorum QuorumConfig QuorumVerdict QuorumInvariant.

Local Open Scope Z_scope.

(** ** One word *)

(** A word that is none of the keywords and reads as [n]. *)
Definition reads_as (n : Z) (w : text) : bool :=
  forallb (fun k => negb (strcasecmp_eq w (kw k)))
    ["all-links"; "auto-sids"; "auto-rids"; "vote-sids"; "vote-rids"; "require-sids"; "require-rids";
     "limit-concurrent-refresh"]%string &&
  match lutil_atoi w with inr m => m =? n | inl _ => false end.

Lemma fmt_reads_table : forallb (fun i => reads_as (Z.of_nat i) (fmt_d (Z.of_nat i))) (seq 0 4096) = true.
Proof. vm_compute. reflexivity. Qed.

Lemma fmt_reads n : 0 <= n <= SLAP_SYNC_SID_MAX -> reads_as n (fmt_d n) = true.
Proof.
  unfold SLAP_SYNC_SID_MAX. intros Hn. pose proof fmt_reads_table as H. rewrite forallb_forall in H.
  rewrite <- (Z2Nat.id n) by lia. apply H, in_seq. lia.
Qed.

(** Such a word reaches the tests behind the keywords. *)
Lemma number_word bd q type w n :
  reads_as n w = true ->
  config_word bd q type w =
    if type =? QR_FAKETYPE_max_concurrent_refresh then
      if (n <? 1) || (n >? QR_SYNCREPL_MAX) then Some (inl (set_quorum bd q)) else Some (inr (bd, with_limit q n, -1))
    else if type <? 0 then Some (inl (set_quorum bd q))
    else if (n <? 0) || (n >? (if QR_IS_SID type then SLAP_SYNC_SID_MAX else SLAP_SYNC_RID_MAX))
    then Some (inl (set_quorum bd q))
    else '(added, q) ← require_append q type n;
         if (added : bool) then Some (inr (quorum_invalidate bd, q, type)) else Some (inl (set_quorum bd q)).
Proof.
  unfold reads_as. intros H. cbn [forallb] in H. bool_hyps.
  unfold config_word, mode_key, parse_id.
  repeat match goal with H : strcasecmp_eq _ _ = false |- _ => rewrite H; clear H end.
  destruct (lutil_atoi w) as [|m]; [done|]. zb. subst m. do 2 (case_if; [done|]). cbv zeta. case_if; done.
Qed.

(** ** A group of requirements *)

Lemma append_new q type id :
  require_id_ok type id = true -> (QR_IS_SID type, id) ∉ req_key <$> reqs q ->
  require_append q type id = Some (true, with_requirements q (Some (reqs q ++ [mkReq type id]))).
Proof.
  intros Hid Hk. unfold require_append. rewrite Hid.
  pose proof (require_match_spec type id (reqs q)) as Hm.
  destruct (require_match type id (reqs q)) as [[b l]|] eqn:E; [|done]. exfalso. clear Hm.
  revert b l E. induction (reqs q) as [|r l0 IH]; intros b l E; [done|]. cbn [require_match] in E.
  apply not_elem_of_cons in Hk as [Hr Hk]. case_if_in E.
  - unfold same_req in E0. apply andb_true_iff in E0 as [E0%Z.eqb_eq E1%Bool.eqb_prop].
    apply Hr. unfold req_key. congruence.
  - inv_bind E. destruct x as [b' l']. by eapply IH.
Qed.

Lemma config_ids bd q type ids ws :
  0 <= type <= 7 -> Forall (fun id => require_id_ok type id = true) ids ->
  NoDup ((req_key <$> reqs q) ++ ((QR_IS_SID type,.) <$> ids)) ->
  exists bd', config_words bd q type ((fmt_d <$> ids) ++ ws) =
    config_words bd' (if decide (ids = []) then q
                      else with_requirements q (Some (reqs q ++ (mkReq type <$> ids)))) type ws.
Proof.
  intros Ht Hids. revert bd q. induction Hids as [|id ids Hid Hids IH]; intros bd q Hn; [by eexists|].
  assert (0 <= id <= SLAP_SYNC_SID_MAX /\ (if QR_IS_SID type then id <= SLAP_SYNC_SID_MAX else id <= SLAP_SYNC_RID_MAX))
    as [Hr1 Hr2].
  { unfold require_id_ok, SLAP_SYNC_SID_MAX, SLAP_SYNC_RID_MAX in *. apply andb_true_iff in Hid as [H1 H2].
    destruct (QR_IS_SID type); zb; lia. }
  cbn [fmap list_fmap app config_words].
  rewrite (number_word _ _ _ _ id) by by apply fmt_reads.
  replace (type =? QR_FAKETYPE_max_concurrent_refresh) with false
    by (symmetry; apply Z.eqb_neq; unfold QR_FAKETYPE_max_concurrent_refresh; lia).
  replace (type <? 0) with false by (symmetry; apply Z.ltb_ge; lia).
  replace ((id <? 0) || _) with false.
  2: { symmetry. apply orb_false_iff. rewrite Z.ltb_ge, Z.gtb_ltb, Z.ltb_ge. split; [lia|].
       destruct (QR_IS_SID type); lia. }
  rewrite fmap_cons in Hn.
  rewrite append_new; [|done|].
  2: { apply list.NoDup_app in Hn as (_ & Hn & _). intros Hin. eapply Hn; [exact Hin|]. by left. }
  cbn [mbind option_bind]. set (q1 := with_requirements q _).
  destruct (IH (quorum_invalidate bd) q1) as [bd' E].
  { unfold q1, reqs. cbn. fold (reqs q). rewrite fmap_app, <- app_assoc. exact Hn. }
  exists bd'. rewrite E. f_equal. destruct (decide (id :: ids = [])) as [|_]; [done|].
  case_decide; [by subst|].
  unfold q1, reqs. cbn. fold (reqs q). rewrite <- app_assoc. done.
Qed.

(** What parsing a piece [A] of the directive does to the quorum object. *)
Definition parses (A : list text) (q : slap_quorum) (fl lim : Z) (rs : list requirment) : Prop :=
  forall bd ty ws, exists bd' q' ty', config_words bd q ty (A ++ ws) = config_words bd' q' ty' ws /\
    links q' = links q /\ q_flags q' = fl /\ qr_syncrepl_limit q' = lim /\ reqs q' = rs.

Lemma parses_nil q : parses [] q q.(q_flags) q.(qr_syncrepl_limit) (reqs q).
Proof. intros bd ty ws. by exists bd, q, ty. Qed.

Lemma parses_eq A q fl lim rs fl' lim' rs' :
  parses A q fl lim rs -> fl = fl' -> lim = lim' -> rs = rs' -> parses A q fl' lim' rs'.
Proof. by intros ? -> -> ->. Qed.

Lemma parses_app A B q fl lim rs fl' lim' rs' :
  parses A q fl lim rs ->
  (forall q1, links q1 = links q -> q_flags q1 = fl -> qr_syncrepl_limit q1 = lim -> reqs q1 = rs ->
     parses B q1 fl' lim' rs') ->
  parses (A ++ B) q fl' lim' rs'.
Proof.
  intros HA HB bd ty ws. rewrite <- app_assoc.
  destruct (HA bd ty (B ++ ws)) as (bd1 & q1 & ty1 & E1 & H1 & H2 & H3 & H4).
  destruct (HB q1 H1 H2 H3 H4 bd1 ty1 ws) as (bd2 & q2 & ty2 & E2 & G1 & G2 & G3 & G4).
  exists bd2, q2, ty2. rewrite E1, E2. split_and!; congruence.
Qed.

Lemma parses_group q q0 type verb :
  mode_key (kw verb) = Some type ->
  forallb (fun k => negb (strcasecmp_eq (kw verb) (kw k))) ["all-links"; "auto-sids"; "auto-rids"]%string = true ->
  Forall req_ok (reqs q0) ->
  NoDup (req_key <$> reqs q ++ filter (fun r => r.(r_type) = type) (reqs q0)) ->
  parses (unparse q0 type verb) q q.(q_flags) q.(qr_syncrepl_limit)
    (reqs q ++ filter (fun r => r.(r_type) = type) (reqs q0)).
Proof.
  intros Hm Hk Hok Hn bd ty ws. unfold unparse. set (G := filter _ (reqs q0)) in *.
  assert (Forall (fun r => r_type r = type /\ req_ok r) G) as HG.
  { apply list.Forall_forall. intros r [Ht Hr]%list_elem_of_filter. rewrite list.Forall_forall in Hok. auto. }
  assert (G = mkReq type <$> (r_id <$> G)) as EG.
  { clear -HG. induction HG as [|[t i] G [Ht _] HG IH]; [done|]. cbn in *. by rewrite <- IH, <- Ht. }
  clearbody G. destruct (decide (G = [])) as [->|Hne].
  { rewrite app_nil_r. by exists bd, q, ty. }
  destruct G as [|r G]; [done|].
  change (fun r => fmt_d (r_id r)) with (fmt_d ∘ r_id). rewrite list_fmap_compose.
  cbn [app config_words]. cbn [forallb] in Hk. bool_hyps.
  unfold config_word at 1. rewrite H, H0, H1, Hm. cbn [mbind option_bind].
  assert (0 <= type <= 7) as Ht by by eapply mode_key_range.
  destruct (config_ids bd q type (r_id <$> r :: G) ws Ht) as [bd' ->].
  { apply list.Forall_fmap. eapply list.Forall_impl; [exact HG|]. intros r' [<- [_ Hr]]. exact Hr. }
  { revert Hn. rewrite fmap_app, EG at 1. rewrite <- (list_fmap_compose _ _ (r_id <$> r :: G)). done. }
  rewrite decide_False by done. rewrite <- EG. eexists _, _, _. split; [reflexivity|]. by split_and!.
Qed.

Lemma parses_all_links q :
  flag_set q QR_ALL_LINKS = false ->
  parses [kw "all-links"] q (Z.lor q.(q_flags) QR_ALL_LINKS) q.(qr_syncrepl_limit) (reqs q).
Proof.
  intros Hf bd ty ws. cbn [app config_words]. unfold config_word.
  replace (strcasecmp_eq (kw "all-links") (kw "all-links")) with true by (vm_compute; reflexivity).
  rewrite Hf. cbn [mbind option_bind]. eexists _, _, _. split; [reflexivity|by split_and!].
Qed.

Lemma parses_auto q w f (Hw : w = kw "auto-sids" /\ f = QR_AUTO_SIDS \/ w = kw "auto-rids" /\ f = QR_AUTO_RIDS) :
  links q = [] -> flag_set q f = false ->
  parses [w] q (Z.lor q.(q_flags) f) q.(qr_syncrepl_limit) (reqs q).
Proof.
  intros Hl Hf bd ty ws. cbn [app config_words]. unfold config_word.
  destruct Hw as [[-> ->]|[-> ->]].
  - replace (strcasecmp_eq (kw "auto-sids") (kw "all-links")) with false by (vm_compute; reflexivity).
    replace (strcasecmp_eq (kw "auto-sids") (kw "auto-sids")) with true by (vm_compute; reflexivity).
    unfold require_auto_sids. rewrite Hf. change (links (with_flags q _)) with (links q). rewrite Hl.
    cbn [fmap list_fmap]. eexists _, _, _. split; [reflexivity|by split_and!].
  - replace (strcasecmp_eq (kw "auto-rids") (kw "all-links")) with false by (vm_compute; reflexivity).
    replace (strcasecmp_eq (kw "auto-rids") (kw "auto-sids")) with false by (vm_compute; reflexivity).
    replace (strcasecmp_eq (kw "auto-rids") (kw "auto-rids")) with true by (vm_compute; reflexivity).
    unfold require_auto_rids. rewrite Hf. change (links (with_flags q _)) with (links q). rewrite Hl.
    cbn [fmap list_fmap]. eexists _, _, _. split; [reflexivity|by split_and!].
Qed.

Lemma parses_limit q n :
  q.(qr_syncrepl_limit) = 0 -> 1 <= n <= QR_SYNCREPL_MAX ->
  parses [kw "limit-concurrent-refresh"; fmt_d n] q q.(q_flags) n (reqs q).
Proof.
  intros Hl Hn bd ty ws. cbn [app config_words].
  assert (config_word bd q ty (kw "limit-concurrent-refresh") =
          Some (inr (bd, with_limit q 1, QR_FAKETYPE_max_concurrent_refresh))) as ->.
  { unfold config_word. replace (mode_key (kw "limit-concurrent-refresh")) with (@None Z) by (vm_compute; reflexivity).
    repeat match goal with |- context [strcasecmp_eq ?a ?b] =>
      let v := eval vm_compute in (strcasecmp_eq a b) in
      replace (strcasecmp_eq a b) with v by (vm_compute; reflexivity) end.
    by rewrite Hl. }
  cbn [mbind option_bind]. rewrite (number_word _ _ _ _ n).
  2: { apply fmt_reads. unfold QR_SYNCREPL_MAX, SLAP_SYNC_SID_MAX in *. lia. }
  rewrite Z.eqb_refl. replace ((n <? 1) || (n >? QR_SYNCREPL_MAX)) with false.
  2: { symmetry. apply orb_false_iff. rewrite Z.ltb_ge, Z.gtb_ltb, Z.ltb_ge. lia. }
  cbn [mbind option_bind]. eexists _, _, _. split; [reflexivity|by split_and!].
Qed.

(** ** The whole directive *)

Definition of_type (q : slap_quorum) (type : Z) : list requirment :=
  filter (fun r => r.(r_type) = type) (reqs q).

(** The requirements in the order they are emitted. *)
Definition emitted (q : slap_quorum) : list requirment :=
  of_type q QR_DEMAND_RID ++ of_type q QR_DEMAND_SID ++ of_type q QR_VOTED_RID ++ of_type q QR_VOTED_SID.

(** Every requirement came from the directive. *)
Definition configured (q : slap_quorum) : Prop :=
  Forall (fun r => r.(r_type) ∈ [QR_DEMAND_RID; QR_DEMAND_SID; QR_VOTED_RID; QR_VOTED_SID]) (reqs q).

Lemma emitted_perm q : configured q -> emitted q ≡ₚ reqs q.
Proof.
  unfold configured, emitted, of_type. induction (reqs q) as [|r l IH]; intros H; [done|].
  apply list.Forall_cons in H as [Hr Hl]. specialize (IH Hl). rewrite !filter_cons. rewrite !elem_of_cons in Hr.
  change QR_DEMAND_RID with 6 in *. change QR_DEMAND_SID with 1 in *.
  change QR_VOTED_RID with 2 in *. change QR_VOTED_SID with 0 in *.
  revert IH. generalize (filter (fun r => r_type r = 6) l) (filter (fun r => r_type r = 1) l)
    (filter (fun r => r_type r = 2) l) (filter (fun r => r_type r = 0) l). intros A B C D <-.
  repeat case_decide; try lia; symmetry.
  - done.
  - by apply Permutation_cons_app.
  - change ((r :: C) ++ D) with (r :: (C ++ D)). rewrite !(app_assoc A B). by apply Permutation_cons_app.
  - rewrite !app_assoc. by apply Permutation_cons_app.
  - exfalso. destruct Hr as [?|[?|[?|[?|Hr]]]]; try lia. by apply not_elem_of_nil in Hr.
Qed.

Lemma parses_flag q w f (b : bool) :
  (w, f) ∈ [(kw "all-links", QR_ALL_LINKS); (kw "auto-sids", QR_AUTO_SIDS); (kw "auto-rids", QR_AUTO_RIDS)] ->
  links q = [] -> flag_set q f = false ->
  parses (if b then [w] else []) q (if b then Z.lor q.(q_flags) f else q.(q_flags)) q.(qr_syncrepl_limit) (reqs q).
Proof.
  intros Hin Hl Hf. destruct b; [|apply parses_nil].
  rewrite !elem_of_cons in Hin. destruct Hin as [[= -> ->]|[[= -> ->]|[[= -> ->]|Hin]]].
  - by apply parses_all_links.
  - apply parses_auto; [by left|done..].
  - apply parses_auto; [by right|done..].
  - by apply not_elem_of_nil in Hin.
Qed.

Lemma parses_flags q (b1 b2 b3 : bool) :
  links q = [] -> q.(q_flags) = 0 ->
  parses ((if b1 then [kw "all-links"] else []) ++ (if b2 then [kw "auto-sids"] else []) ++
          (if b3 then [kw "auto-rids"] else []))
    q (b2z b1 * 4 + b2z b2 * 2 + b2z b3) q.(qr_syncrepl_limit) (reqs q).
Proof.
  intros Hl Hq. eapply parses_app.
  { apply (parses_flag q _ QR_ALL_LINKS); [apply elem_of_cons; by left|done|unfold flag_set; by rewrite Hq]. }
  intros q1 L1 F1 M1 R1. rewrite Hq in F1. eapply parses_app.
  { apply (parses_flag q1 _ QR_AUTO_SIDS); [apply elem_of_cons; right; apply elem_of_cons; by left|congruence|].
    unfold flag_set. rewrite F1. by destruct b1. }
  intros q2 L2 F2 M2 R2. rewrite F1 in F2. eapply parses_eq.
  { apply (parses_flag q2 _ QR_AUTO_RIDS); [do 2 (apply elem_of_cons; right); apply elem_of_cons; by left|congruence|].
    unfold flag_set. rewrite F2. by destruct b1, b2. }
  all: rewrite ?F2, ?M2, ?R2; try done. by destruct b1, b2, b3.
Qed.

Lemma flags_bits fl : 0 <= fl < 8 ->
  b2z (negb (Z.land fl QR_ALL_LINKS =? 0)) * 4 + b2z (negb (Z.land fl QR_AUTO_SIDS =? 0)) * 2 +
  b2z (negb (Z.land fl QR_AUTO_RIDS =? 0)) = fl.
Proof.
  intros H. assert (fl = 0 \/ fl = 1 \/ fl = 2 \/ fl = 3 \/ fl = 4 \/ fl = 5 \/ fl = 6 \/ fl = 7)
    as [->|[->|[->|[->|[->|[->|[->| ->]]]]]]] by lia; reflexivity.
Qed.

(** The next group, when what has been parsed is [P]. *)
Lemma parses_next q0 q type verb P rest :
  mode_key (kw verb) = Some type ->
  forallb (fun k => negb (strcasecmp_eq (kw verb) (kw k))) ["all-links"; "auto-sids"; "auto-rids"]%string = true ->
  Forall req_ok (reqs q0) -> NoDup (req_key <$> P ++ of_type q0 type ++ rest) -> reqs q = P ->
  parses (unparse q0 type verb) q q.(q_flags) q.(qr_syncrepl_limit) (P ++ of_type q0 type).
Proof.
  intros Hm Hk Hok Hn <-. apply parses_group; [done..|].
  rewrite app_assoc, fmap_app in Hn. by apply list.NoDup_app in Hn as (Hn & _ & _).
Qed.

Lemma emit_parses q0 q :
  quorum_ok q0 -> configured q0 -> 0 <= q0.(q_flags) < 8 ->
  links q = [] -> q.(q_flags) = 0 -> q.(qr_syncrepl_limit) = 0 -> reqs q = [] ->
  parses (emit_words q0) q q0.(q_flags) q0.(qr_syncrepl_limit) (emitted q0).
Proof.
  intros Hok Hcf Hfl L0 F0 M0 R0. unfold emit_words.
  match goal with |- parses (?a ++ ?b ++ ?c ++ ?d) _ _ _ _ =>
    replace (a ++ b ++ c ++ d) with ((a ++ b ++ c) ++ d) by by rewrite <- !app_assoc end.
  destruct Hok as [_ _ (Hreq & Hnd & _) Hlim _]. fold (reqs q0) in Hreq, Hnd.
  assert (NoDup (req_key <$> emitted q0)) as Hn by by rewrite emitted_perm.
  unfold emitted in Hn |- *.
  eapply parses_app; [by apply parses_flags|intros q1 L1 F1 M1 R1].
  rewrite R0 in R1. unfold flag_set in F1. rewrite flags_bits in F1 by done.
  eapply parses_app; [eapply (parses_next _ _ _ _ []); [vm_compute; reflexivity..|done|exact Hn|exact R1]|].
  intros q2 L2 F2 M2 R2.
  eapply parses_app; [eapply parses_next; [vm_compute; reflexivity..|done|exact Hn|exact R2]|].
  intros q3 L3 F3 M3 R3.
  eapply parses_app.
  { eapply parses_next; [vm_compute; reflexivity..|done| |exact R3]. rewrite <- app_assoc. exact Hn. }
  intros q4 L4 F4 M4 R4. eapply parses_app.
  { eapply (parses_next _ _ _ _ _ []); [vm_compute; reflexivity..|done| |exact R4].
    rewrite app_nil_r, <- !app_assoc. exact Hn. }
  intros q5 L5 F5 M5 R5.
  cbn [app] in R5. rewrite <- !app_assoc in R5. rewrite <- R5.
  destruct (qr_syncrepl_limit q0 >? 0) eqn:E.
  - zb. eapply parses_eq; [apply parses_limit; [congruence|lia]|congruence..].
  - eapply parses_eq; [apply parses_nil|congruence| |done]. zb. lia.
Qed.
