(* ===== verification/QuorumTheorems.v ===== *)
(** * The theorems about the syncrepl quorum *)

From stdpp Require Import base list numbers option gmap.
From Stdlib Require Import Ascii String.
From S2P Require Import Prelude Text Quorum QuorumConfig QuorumVerdict QuorumInvariant QuorumDirective.

Local Open Scope Z_scope.

(** ** The verdict *)

(** A strict majority of [wanna] voters, of whom no more than [total] can exist. *)
Definition majority (total wanna ready : Z) : Prop := 0 < Z.min wanna total < 2 * ready.

(** The requirement [r] has a link, and the first such link is ready. *)
Definition satisfied (q : slap_quorum) (r : requirment) : Prop :=
  exists p, req_link q r = Some p /\ QS_READY <= p.(p_status).

(** What it means to have the quorum. *)
Record have_quorum (serverID : Z) (q : slap_quorum) : Prop := {
  have_links : flag_set q QR_ALL_LINKS = true -> forall p, p ∈ links q -> QS_READY <= p.(p_status);
  have_demands : forall r, r ∈ reqs q -> relevant serverID r = true -> QR_IS_DEMAND r.(r_type) = true ->
    satisfied q r;
  have_votes : let total := Z.of_nat (List.length (links q)) in
    n_votes serverID q true = 0 /\ n_votes serverID q false = 0 \/
    majority total (n_votes serverID q true) (n_met serverID q true) \/
    majority total (n_votes serverID q false) (n_met serverID q false);
  have_sids : flag_set q QR_AUTO_SIDS = true ->
    links q = [] \/ Z.of_nat (List.length (links q)) < 2 * n_votes serverID q true;
}.

Lemma quorum_majority total wanna ready :
  0 <= total -> 0 <= wanna -> quorum total wanna ready = true <-> majority total wanna ready.
Proof. apply quorum_spec. Qed.

Lemma is_ready_iff p : is_ready p = true <-> QS_READY <= p.(p_status).
Proof. unfold is_ready. by rewrite Z.geb_le. Qed.

Lemma req_met_iff q r : req_met q r = true <-> satisfied q r.
Proof.
  unfold req_met, satisfied. destruct (req_link q r) as [p|].
  - rewrite is_ready_iff. split; [eauto|]. by intros (? & [= <-] & ?).
  - split; [done|]. by intros (? & ? & _).
Qed.

Lemma verdict_iff serverID q : verdict serverID q = true <-> have_quorum serverID q.
Proof.
  unfold verdict. set (total := Z.of_nat _).
  rewrite !andb_true_iff, !orb_true_iff, !negb_true_iff, andb_true_iff, !forallb_forall, !Z.eqb_eq.
  rewrite !quorum_majority by (unfold n_votes, total; lia).
  assert (total = 0 <-> links q = []) as Ht by (unfold total; destruct (links q); cbn; intuition (done || lia)).
  split.
  - intros [[[H1 H2] H3] H4]. split.
    + intros Ha p Hp. destruct H1 as [H1|H1]; [congruence|]. apply is_ready_iff, H1. by apply list_elem_of_In.
    + intros r Hr Hrel Hd. apply list_elem_of_In, H2 in Hr. rewrite Hrel, Hd in Hr. by apply req_met_iff.
    + cbv zeta. fold total. tauto.
    + intros Hs. fold total. destruct H4 as [[?|?]|H4]; [congruence|left; tauto|right]. unfold majority in H4. lia.
  - intros [H1 H2 H3 H4]. split_and!.
    + destruct (flag_set q QR_ALL_LINKS); [right|by left]. intros p Hp. apply is_ready_iff, H1; [done|].
      by apply list_elem_of_In.
    + intros r Hr. destruct (relevant serverID r && QR_IS_DEMAND (r_type r)) eqn:E; [|done].
      apply andb_true_iff in E as [E1 E2]. cbn. apply req_met_iff, H2; try done. by apply list_elem_of_In.
    + cbv zeta in H3. fold total in H3. tauto.
    + destruct (flag_set q QR_AUTO_SIDS); [|by left; left]. destruct (H4 eq_refl) as [H|H].
      * left. right. by apply Ht.
      * destruct (decide (links q = [])) as [E|E]; [left; right; by apply Ht|]. right. unfold majority.
        assert (0 < total) by (unfold total in *; destruct (links q); [done|cbn; lia]). fold total in H. lia.
Qed.

(** In every state the verdict is 1 (have) or -1 (lack) by the rule [have_quorum]. This
    holds as long as the status field of the array's terminator is below QS_READY. *)
Theorem lazy_update_rule serverID q :
  term_ok q ->
  (lazy_update serverID q = 1 <-> have_quorum serverID q) /\
  (lazy_update serverID q = -1 <-> ~ have_quorum serverID q).
Proof.
  intros Ht. rewrite (lazy_update_verdict serverID q Ht), <- verdict_iff.
  destruct (verdict serverID q); split; split; try done; intros H; by destruct H.
Qed.

(** A history of calls. *)
Definition perform_all (serverID : Z) (bd : BackendDB) (cs : list call) : option BackendDB :=
  fold_left (fun o c => bd ← o; perform serverID bd c) cs (Some bd).

Definition no_quorum : BackendDB := mkBD None 1.

Definition three_links : list call :=
  [CAddRid 100 1 0; CAddRid 200 2 0; CAddRid 300 3 0;
   CConfig [kw "vote-sids"; kw "10"; kw "20"; kw "30"];
   CNotifySid 100 10; CNotifySid 200 20; CNotifyStatus 100 QS_READY; CNotifyStatus 200 QS_PROCESS].

Definition quorum_of (o : option BackendDB) : slap_quorum :=
  match o with Some bd => default fresh_quorum bd.(bd_quorum) | None => fresh_quorum end.

(** Filters that agree on a list. *)
Lemma filter_agree {A} (P Q : A -> Prop) `{!forall x, Decision (P x), !forall x, Decision (Q x)} (l : list A) :
  (forall x, x ∈ l -> P x <-> Q x) -> filter P l = filter Q l.
Proof.
  induction l as [|x l IH]; intros Hl; [done|]. rewrite !filter_cons. rewrite IH by (intros y Hy; apply Hl; by right).
  pose proof (Hl x ltac:(by left)) as Hx. repeat case_decide; tauto.
Qed.

Lemma filter_none {A} (P : A -> Prop) `{!forall x, Decision (P x)} (l : list A) : (forall x, x ∈ l -> ~ P x) -> filter P l = [].
Proof. induction l as [|x l IH]; intros Hl; [done|]. rewrite filter_cons, decide_False by (apply Hl; by left). apply IH. intros y Hy. apply Hl. by right. Qed.

Lemma filter_whole {A} (P : A -> Prop) `{!forall x, Decision (P x)} (l : list A) : (forall x, x ∈ l -> P x) -> filter P l = l.
Proof. induction l as [|x l IH]; intros Hl; [done|]. rewrite filter_cons, decide_True by (apply Hl; by left). f_equal. apply IH. intros y Hy. apply Hl. by right. Qed.

(** ** The rule of the manual

    slapd.conf(5) on the [quorum] directive. *)

(** What a requirement names has a link that is ready. *)
Definition synced (q : slap_quorum) (r : requirment) : Prop :=
  Exists (fun p => (if QR_IS_SID r.(r_type) then p.(p_sid) else p.(p_rid)) = r.(r_id) /\ QS_READY <= p.(p_status)) (links q).

Global Instance synced_dec q r : Decision (synced q r).
Proof. unfold synced. apply _. Defined.

(** The servers, or the replicas, of the vote lists, without this server. *)
Definition voters (serverID : Z) (q : slap_quorum) (sid : bool) : list requirment :=
  filter (fun r => relevant serverID r && Bool.eqb (QR_IS_SID r.(r_type)) sid && negb (QR_IS_DEMAND r.(r_type)) = true) (reqs q).

(** Each of the lists that require something is met, and one of the vote lists, where there
    are any: by most of its servers, their number limited by that of the connections,
    or by most of its replicas. *)
Record quorum_reached (serverID : Z) (q : slap_quorum) : Prop := {
  reached_links : flag_set q QR_ALL_LINKS = true -> forall p, p ∈ links q -> QS_READY <= p.(p_status);
  reached_require : forall r, r ∈ reqs q -> relevant serverID r = true -> QR_IS_DEMAND r.(r_type) = true -> synced q r;
  reached_votes : let count l := Z.of_nat (List.length l) in let ready sid := filter (synced q) (voters serverID q sid) in
    voters serverID q true = [] /\ voters serverID q false = [] \/
    Z.min (count (voters serverID q true)) (Z.of_nat (List.length (links q))) < 2 * count (ready true) \/
    count (voters serverID q false) < 2 * count (ready false);
}.

(** The states to which that applies: without auto-sids and require-rids, without vote lists
    beside require-sids, the replicas named have connections, and the connections have
    different replica IDs and servers. *)
Record plain_config (serverID : Z) (q : slap_quorum) : Prop := {
  plain_auto_sids : flag_set q QR_AUTO_SIDS = false;
  plain_auto_rids : forall r, r ∈ reqs q -> QR_IS_SID r.(r_type) = false -> QR_IS_AUTO r.(r_type) = true -> flag_set q QR_AUTO_RIDS = true;
  plain_apart : (forall r, r ∈ reqs q -> relevant serverID r = true -> QR_IS_DEMAND r.(r_type) = true) \/
                (forall r, r ∈ reqs q -> relevant serverID r = true -> QR_IS_DEMAND r.(r_type) = false);
  plain_rids : forall r, r ∈ reqs q -> QR_IS_SID r.(r_type) = false -> exists p, p ∈ links q /\ p.(p_rid) = r.(r_id);
  plain_reqs : NoDup ((fun r => (QR_IS_SID r.(r_type), r.(r_id))) <$> reqs q) /\ forall r, r ∈ reqs q -> 0 <= r.(r_id);
  plain_links : forall p p', p ∈ links q -> p' ∈ links q -> p.(p_rid) = p'.(p_rid) \/ 0 <= p.(p_sid) /\ p.(p_sid) = p'.(p_sid) -> p = p';
}.

Lemma find_link_Some f l p : find_link f l = Some p -> p ∈ l /\ f p = true.
Proof.
  unfold find_link. intros H. assert (p ∈ filter (fun p => f p = true) l) as Hp by (destruct (filter _ l); [done|]; injection H as ->; by left).
  apply list_elem_of_filter in Hp. tauto.
Qed.

Lemma find_link_None f l : find_link f l = None -> forall p, p ∈ l -> f p = false.
Proof.
  unfold find_link. intros H p Hp. destruct (f p) eqn:E; [|done]. assert (p ∈ filter (fun p => f p = true) l) as Hin by (by apply list_elem_of_filter).
  destruct (filter _ l); [by apply not_elem_of_nil in Hin|done].
Qed.

Lemma satisfied_synced serverID q r : plain_config serverID q -> r ∈ reqs q -> satisfied q r <-> synced q r.
Proof.
  intros Hc Hr. unfold satisfied, synced, req_link. rewrite list.Exists_exists. split.
  - intros (p & [Hp E%Z.eqb_eq]%find_link_Some & Hs). by exists p.
  - intros (p & Hp & E & Hs). destruct (find_link _ (links q)) as [p'|] eqn:Ef.
    + destruct (find_link_Some _ _ _ Ef) as [Hp' E'%Z.eqb_eq]. exists p'. split; [done|].
      enough (p' = p) by congruence. apply (plain_links _ _ Hc); [done|done|].
      pose proof (proj2 (plain_reqs _ _ Hc) r Hr). destruct (QR_IS_SID (r_type r)); [right; lia|left; lia].
    + pose proof (find_link_None _ _ Ef p Hp) as Hf. cbv beta in Hf. by rewrite E, Z.eqb_refl in Hf.
Qed.

(** The replicas of the vote lists are no more than the connections. *)
Lemma rids_connected serverID q : plain_config serverID q -> (List.length (votes serverID q false) <= List.length (links q))%nat.
Proof.
  intros Hc. rewrite <- (length_fmap r_id), <- (length_fmap p_rid (links q)). apply submseteq_length, NoDup_submseteq.
  - destruct (plain_reqs _ _ Hc) as [Hd _]. unfold votes. revert Hd. generalize (reqs q) as l. induction l as [|r l IH]; [constructor|].
    cbn [fmap list_fmap]. intros [Hn Hd]%list.NoDup_cons. rewrite filter_cons. case_decide as Hf; [|by apply IH]. cbn [fmap list_fmap]. apply list.NoDup_cons. split; [|by apply IH].
    intros (r' & E & Hr')%list_elem_of_fmap. apply list_elem_of_filter in Hr' as [Hf' Hr']. apply Hn, list_elem_of_fmap. exists r'. split; [|done].
    apply andb_true_iff in Hf as [_ Hf%eqb_prop]. apply andb_true_iff in Hf' as [_ Hf'%eqb_prop]. congruence.
  - intros i (r & -> & Hr)%list_elem_of_fmap. unfold votes in Hr. apply list_elem_of_filter in Hr as [Hf Hr]. apply andb_true_iff in Hf as [_ Hf%eqb_prop].
    destruct (plain_rids _ _ Hc r Hr Hf) as (p & Hp & <-). apply list_elem_of_fmap. by exists p.
Qed.

(** Without demands the votes are those of the vote lists. *)
Lemma votes_voters serverID q sid : plain_config serverID q -> (forall r, r ∈ reqs q -> relevant serverID r = true -> QR_IS_DEMAND r.(r_type) = false) ->
  votes serverID q sid = voters serverID q sid /\ n_met serverID q sid = Z.of_nat (List.length (filter (synced q) (voters serverID q sid))).
Proof.
  intros Hc Hv. assert (votes serverID q sid = voters serverID q sid) as E.
  { apply filter_agree. intros r Hr. destruct (relevant serverID r) eqn:Er; [|done]. rewrite (Hv r Hr Er). cbn [negb andb]. by rewrite andb_true_r. }
  split; [done|]. unfold n_met. rewrite <- E. do 2 f_equal. apply filter_agree. intros r Hr. apply list_elem_of_filter in Hr as [_ Hr].
  rewrite req_met_iff. by apply (satisfied_synced serverID).
Qed.

(** Where everything is demanded and there is no vote list. *)
Lemma demands_only serverID q : (forall r, r ∈ reqs q -> relevant serverID r = true -> QR_IS_DEMAND r.(r_type) = true) ->
  (forall sid, voters serverID q sid = []) /\
  ((forall r, r ∈ reqs q -> relevant serverID r = true -> satisfied q r) -> forall sid, n_votes serverID q sid = 0 \/ majority (Z.of_nat (List.length (links q))) (n_votes serverID q sid) (n_met serverID q sid)).
Proof.
  intros Hv. split.
  - intros sid. apply filter_none. intros r Hr. destruct (relevant serverID r) eqn:Er; [|done]. rewrite (Hv r Hr Er). cbn [negb]. by rewrite andb_false_r.
  - intros Hs sid. assert (filter (fun r => req_met q r = true) (votes serverID q sid) = votes serverID q sid) as E.
    { apply filter_whole. intros r Hr. apply list_elem_of_filter in Hr as [Hf Hr]. apply andb_true_iff in Hf as [Hf _]. by apply req_met_iff, Hs. }
    unfold n_met, n_votes. rewrite E. destruct (votes serverID q sid) as [|r l] eqn:El; [by left|right].
    assert (r ∈ votes serverID q sid) as Hr by (rewrite El; by left). apply list_elem_of_filter in Hr as [Hf Hr]. apply andb_true_iff in Hf as [Hf _].
    destruct (Hs r Hr Hf) as (p & Hp & _). apply find_link_Some in Hp as [Hp _]. unfold majority. destruct (links q); [by apply not_elem_of_nil in Hp|cbn [List.length]; lia].
Qed.

Lemma have_quorum_reached serverID q : plain_config serverID q -> have_quorum serverID q <-> quorum_reached serverID q.
Proof.
  intros Hc. pose proof (rids_connected serverID q Hc) as Hrids. split.
  - intros [H1 H2 H3 _]. split; [done|intros r Hr Hrel Hd; by apply (satisfied_synced serverID), H2|]. cbv beta zeta.
    destruct (plain_apart _ _ Hc) as [Hv|Hv]; [left; by rewrite !(proj1 (demands_only serverID q Hv))|].
    destruct (votes_voters serverID q true Hc Hv) as [E1 M1], (votes_voters serverID q false Hc Hv) as [E2 M2].
    unfold n_votes, majority in H3. rewrite E1, E2, M1, M2 in H3. rewrite E2 in Hrids. destruct H3 as [[Z1 Z2]|[H3|H3]]; [left|right; left; lia|right; right; lia].
    by split; apply nil_length_inv; lia.
  - intros [H1 H2 H3]. split; [done|intros r Hr Hrel Hd; by apply (satisfied_synced serverID), H2| |by rewrite (plain_auto_sids _ _ Hc)]. cbv beta zeta.
    destruct (plain_apart _ _ Hc) as [Hv|Hv].
    + pose proof (proj2 (demands_only serverID q Hv)) as Hd. destruct (Hd ltac:(intros r Hr Hrel; apply (satisfied_synced serverID), H2; auto) true) as [?|?];
        [|by right; left]. destruct (Hd ltac:(intros r Hr Hrel; apply (satisfied_synced serverID), H2; auto) false) as [?|?]; [by left|by right; right].
    + destruct (votes_voters serverID q true Hc Hv) as [E1 M1], (votes_voters serverID q false Hc Hv) as [E2 M2].
      unfold n_votes, majority. rewrite E1, E2, M1, M2. rewrite E2 in Hrids. cbv beta zeta in H3. pose proof (length_filter (synced q) (voters serverID q false)). destruct H3 as [[-> ->]|[H3|H3]]; [by left|right; left|right; right; lia].
      split; [|done]. destruct (voters serverID q true) as [|r l]; [cbn in H3; lia|]. destruct (links q) eqn:El; [|cbn [List.length]; lia].
      assert (filter (synced q) (r :: l) = []) as Ef by (apply filter_none; intros x _; unfold synced; rewrite El; by intros []%Exists_nil).
      rewrite Ef in H3. cbn in H3. lia.
Qed.

(** C15: the verdict [lazy_update] computes is 1 (have) or -1 (lack), and it is 1 exactly
    when the quorum is reached by the rule of slapd.conf(5): with all-links every
    connection is ready, every server of require-sids has a ready connection, and of
    the vote lists, where there are any, one is met: by more than half of its servers,
    their number limited by that of the connections, or by more than half of its
    replicas; this server is left out. It is stated for the configurations
    [plain_config]: neither auto-sids nor require-rids, require-sids not together with
    vote lists, the replicas named are those of connections, no two connections have
    the same replica or server ID; and as long as the status field of the array's
    terminator is below QS_READY. (See [mixed_lists_differ] and
    [require_rids_not_demanded] for others.) *)
Theorem lazy_update_correct serverID q :
  term_ok q -> plain_config serverID q ->
  (lazy_update serverID q = 1 <-> quorum_reached serverID q) /\
  (lazy_update serverID q = -1 <-> ~ quorum_reached serverID q).
Proof.
  intros Ht Hc. rewrite (lazy_update_verdict serverID q Ht), <- (have_quorum_reached serverID q Hc), <- verdict_iff.
  destruct (verdict serverID q); split; split; try done; intros H; by destruct H.
Qed.

Lemma lazy_update_correct_witness :
  let q := quorum_of (perform_all 1 no_quorum three_links) in
  quorum_reached 1 q /\ List.length (links q) = 3%nat.
Proof.
  intros q. split; [|vm_compute; reflexivity].
  assert (term_ok q) as Ht by (vm_compute; reflexivity).
  assert (plain_config 1 q) as Hc.
  { split; [reflexivity|..].
    - intros r Hr. apply list_elem_of_In in Hr. vm_compute in Hr. destruct Hr as [<-|[<-|[<-|[]]]]; done.
    - right. intros r Hr. apply list_elem_of_In in Hr. vm_compute in Hr. destruct Hr as [<-|[<-|[<-|[]]]]; done.
    - intros r Hr. apply list_elem_of_In in Hr. vm_compute in Hr. destruct Hr as [<-|[<-|[<-|[]]]]; done.
    - split; [by apply (bool_decide_unpack _)|]. intros r Hr. apply list_elem_of_In in Hr. vm_compute in Hr. destruct Hr as [<-|[<-|[<-|[]]]]; done.
    - intros p p' Hp Hp'. apply list_elem_of_In in Hp, Hp'. vm_compute in Hp, Hp'.
      destruct Hp as [<-|[<-|[<-|[]]]], Hp' as [<-|[<-|[<-|[]]]]; cbn; (done || lia). }
  apply (proj1 (proj1 (lazy_update_correct 1 q Ht Hc))). vm_compute. reflexivity.
Defined.

(** Where the manual's rule is not the code's: a required server that is ready meets the
    vote for servers, although no replica of the vote list is ready; a replica of the
    vote list without a connection is counted; with auto-sids alone, the only known
    server is ready, but not known for most of the connections. *)
Lemma mixed_lists_differ :
  (exists bd, perform_all 1 no_quorum
    [CAddRid 100 1 0; CAddRid 200 2 0; CNotifySid 100 10; CNotifyStatus 100 QS_READY;
     CConfig [kw "require-sids"; kw "10"; kw "vote-rids"; kw "2"]] = Some bd /\ (quorum_query 1 bd).1 = true) /\
  (exists bd, perform_all 1 no_quorum
    [CAddRid 100 1 0; CAddRid 200 2 0; CNotifyStatus 100 QS_READY;
     CConfig [kw "vote-rids"; kw "1"; kw "5"]] = Some bd /\ (quorum_query 1 bd).1 = false) /\
  (exists bd, perform_all 1 no_quorum
    [CConfig [kw "auto-sids"]; CAddRid 100 1 0; CAddRid 200 2 0; CAddRid 300 3 0; CNotifySid 100 10; CNotifyStatus 100 QS_READY] = Some bd /\ (quorum_query 1 bd).1 = false).
Proof. split_and!; (eexists; split; [vm_compute; reflexivity|vm_compute; reflexivity]). Qed.

(** ** The cached verdict *)

(** C40: the cached verdict is never stale: whatever operations the module performs, starting
    from a backend without a quorum object, [quorum_query] answers what [lazy_update]
    computes of the links, requirements and flags of that moment. The operations are
    those of [quorum_step]: links are added while the verdict is not cached or nothing
    in the configuration depends on the links, the auto-sids word is not used, and the
    directive is deleted with its requirements ([quorum_cache_stale] shows the others). *)
Theorem quorum_query_answers serverID bd :
  rtc (quorum_step serverID) no_quorum bd ->
  (quorum_query serverID bd).1 = match bd.(bd_quorum) with Some q => lazy_update serverID q >? 0 | None => true end.
Proof.
  intros Hr. rewrite quorum_query_current by (eapply quorum_reach_coherent; [exact Hr|by right]).
  unfold current. by destruct (bd_quorum bd).
Qed.

Lemma quorum_query_answers_witness :
  exists bd q, rtc (quorum_step 1) no_quorum bd /\ bd.(bd_quorum) = Some q /\
    (quorum_query 1 bd).1 = (lazy_update 1 q >? 0) /\ (quorum_query 1 bd).1 = false.
Proof.
  assert (exists bd1, quorum_add_rid no_quorum 100 1 0 = Some bd1 /\
    exists rc bd2, config_quorum_add bd1 [kw "vote-rids"; kw "1"] = Some (rc, bd2) /\
    exists q, bd_quorum bd2 = Some q /\ (quorum_query 1 bd2).1 = false)
    as (bd1 & E1 & rc & bd2 & E2 & q & Eq & Hq).
  { eexists. split; [vm_compute; reflexivity|]. eexists _, _. split; [vm_compute; reflexivity|].
    eexists. split; [vm_compute; reflexivity|vm_compute; reflexivity]. }
  assert (rtc (quorum_step 1) no_quorum bd2) as Hr.
  { eapply rtc_l; [eapply step_add; [by right|exact E1]|].
    apply rtc_once. eapply step_config; [|exact E2]. repeat constructor. }
  exists bd2, q. split; [exact Hr|]. split; [exact Eq|]. split; [|exact Hq].
  pose proof (quorum_query_answers 1 bd2 Hr) as Ha. by rewrite Eq in Ha.
Defined.

(** ** The invariant *)

(** A history of calls with arguments in the ranges of the interface never
    fails an assertion, and leaves a quorum object in which the counters count
    the links by status, the number of links left to be ready is right, no link
    and no requirement appears twice, and the gate is within its bounds. *)
Theorem quorum_calls_safe serverID cs bd :
  backend_ok bd ->
  (forall cs1 c cs2 bd1, cs = cs1 ++ c :: cs2 -> perform_all serverID bd cs1 = Some bd1 -> call_ok bd1 c) ->
  exists bd', perform_all serverID bd cs = Some bd' /\ backend_ok bd'.
Proof.
  revert bd. induction cs as [|c cs IH]; intros bd Hbd Hcs; [by exists bd|].
  destruct (perform_ok serverID bd c Hbd (Hcs [] c cs bd eq_refl eq_refl)) as (bd1 & E & Hbd1).
  unfold perform_all. cbn [fold_left mbind option_bind]. rewrite E. apply IH; [done|].
  intros cs1 c' cs2 bd2 -> H. apply (Hcs (c :: cs1) c' cs2 bd2); [done|].
  unfold perform_all. cbn [fold_left mbind option_bind]. by rewrite E.
Qed.

(** The calls of a history, each with the state it is made in. *)
Fixpoint calls_okb (serverID : Z) (P : BackendDB -> call -> bool) (bd : BackendDB) (cs : list call) : bool :=
  match cs with
  | [] => true
  | c :: cs => P bd c && match perform serverID bd c with Some bd => calls_okb serverID P bd cs | None => true end
  end.

Lemma calls_okb_spec serverID P bd cs cs1 c cs2 bd1 :
  calls_okb serverID P bd cs = true -> cs = cs1 ++ c :: cs2 -> perform_all serverID bd cs1 = Some bd1 -> P bd1 c = true.
Proof.
  revert bd cs1. induction cs as [|c0 cs IH]; intros bd cs1 H E Hp; [by destruct cs1|].
  cbn [calls_okb] in H. apply andb_true_iff in H as [H0 H]. destruct cs1 as [|c1 cs1].
  - injection E as -> <-. injection Hp as <-. done.
  - injection E as -> ->. unfold perform_all in Hp. cbn [fold_left mbind option_bind] in Hp.
    destruct (perform serverID bd c1) as [bd2|]; [|].
    + by apply (IH bd2 cs1).
    + exfalso. clear -Hp. induction cs1; cbn in Hp; [done|auto].
Qed.

Definition simple_call (bd : BackendDB) (c : call) : bool :=
  match c with
  | CAddRid _ rid _ => (0 <=? rid) && (rid <=? SLAP_SYNC_RID_MAX)
  | CNotifySid _ sid => sid <=? SLAP_SYNC_SID_MAX
  | CNotifyStatus _ st => (QS_DIRTY <=? st) && (st <=? QS_PROCESS)
  | CNotifyCsn _ | CGate _ => false
  | _ => true
  end.

Lemma simple_call_ok bd c : simple_call bd c = true -> call_ok bd c.
Proof. destruct c; cbn; try done; intros H; unfold status_in_range; zb; try done; lia. Qed.

Lemma quorum_calls_safe_witness :
  exists bd', perform_all 1 no_quorum (three_links ++ [CRemoveRid 100; CQuery]) = Some bd' /\ backend_ok bd'.
Proof.
  apply (quorum_calls_safe 1 _ no_quorum); [exact I|].
  intros cs1 c cs2 bd1 E Hp. apply simple_call_ok.
  refine (calls_okb_spec 1 simple_call no_quorum _ cs1 c cs2 bd1 _ E Hp). vm_compute. reflexivity.
Defined.

(** ** The gate *)

Lemma gate_enter bd q :
  bd.(bd_quorum) = Some q -> 0 <= q.(qt_running) <= QR_SYNCREPL_MAX ->
  0 < q.(qr_syncrepl_limit) <= QR_SYNCREPL_MAX ->
  quorum_syncrepl_gate bd true =
    Some (if q.(qt_running) <? q.(qr_syncrepl_limit)
          then (LDAP_SUCCESS, set_quorum bd (kick (with_running q (q.(qt_running) + 1))))
          else (LDAP_BUSY, set_quorum bd q)).
Proof.
  intros Hb Hr Hl. unfold quorum_syncrepl_gate, ensure_quorum. rewrite Hb.
  replace (qr_syncrepl_limit q =? 0) with false by (symmetry; apply Z.eqb_neq; lia).
  cbn [negb andb]. rewrite Z.geb_leb, Z.leb_antisym.
  destruct (qt_running q <? qr_syncrepl_limit q) eqn:E; cbn [negb mbind option_bind].
  - zb. cbn. replace ((qt_running q + 1 >=? 0) && _) with true; [done|].
    symmetry. apply andb_true_iff. rewrite Z.geb_le, Z.leb_le. lia.
  - change (LDAP_BUSY =? LDAP_SUCCESS) with false. cbv iota.
    replace ((qt_running q >=? 0) && _) with true; [done|].
    symmetry. apply andb_true_iff. rewrite Z.geb_le, Z.leb_le. lia.
Qed.

(** With a limit, entering the gate succeeds exactly while fewer refreshes
    run than the limit allows and then counts one more, a busy gate changes
    nothing, the limit is never exceeded, and leaving gives the place back. *)
Theorem quorum_gate_limits bd q :
  backend_ok bd -> bd.(bd_quorum) = Some q -> 0 < q.(qr_syncrepl_limit) ->
  q.(qt_running) <= q.(qr_syncrepl_limit) ->
  exists rc bd1 q1, quorum_syncrepl_gate bd true = Some (rc, bd1) /\ bd1.(bd_quorum) = Some q1 /\
    q1.(qt_running) <= q1.(qr_syncrepl_limit) /\
    (q.(qt_running) < q.(qr_syncrepl_limit) ->
       rc = LDAP_SUCCESS /\ q1.(qt_running) = q.(qt_running) + 1 /\
       exists bd2 q2, quorum_syncrepl_gate bd1 false = Some (LDAP_SUCCESS, bd2) /\
         bd2.(bd_quorum) = Some q2 /\ q2.(qt_running) = q.(qt_running)) /\
    (q.(qt_running) = q.(qr_syncrepl_limit) -> rc = LDAP_BUSY /\ q1 = q).
Proof.
  intros Hok Hb Hl Hle. unfold backend_ok in Hok. rewrite Hb in Hok. destruct Hok as [_ _ _ Hlim Hrun].
  rewrite (gate_enter bd q) by (done || lia). destruct (qt_running q <? qr_syncrepl_limit q) eqn:E; zb.
  - eexists _, _, _. split; [done|]. split; [done|]. split; [cbn; lia|]. split; [|lia]. intros _.
    split_and!; [done..|]. unfold quorum_syncrepl_gate, ensure_quorum. cbn [bd_quorum set_quorum qt_running kick with_running].
    replace (qt_running q + 1 >? 0) with true by (symmetry; apply Z.gtb_lt; lia). cbn [mbind option_bind].
    change (LDAP_SUCCESS =? LDAP_SUCCESS) with true. cbv iota.
    cbn [qt_running kick with_running]. rewrite Z.add_simpl_r.
    replace ((qt_running q >=? 0) && (qt_running q <=? QR_SYNCREPL_MAX)) with true
      by (symmetry; apply andb_true_iff; rewrite Z.geb_le, Z.leb_le; lia).
    eexists _, _. by split_and!.
  - eexists _, _, _. split; [done|]. split; [done|]. split; [lia|]. split; [lia|done].
Qed.

Definition gated : list call := [CConfig [kw "limit-concurrent-refresh"; kw "2"]; CGate true].

Lemma quorum_gate_limits_witness :
  let bd := default no_quorum (perform_all 1 no_quorum gated) in
  exists rc bd1, quorum_syncrepl_gate bd true = Some (rc, bd1) /\ rc = LDAP_SUCCESS.
Proof.
  intros bd. pose (q := quorum_of (Some bd)).
  assert (backend_ok bd) as Hok.
  { assert (exists bd', perform_all 1 no_quorum gated = Some bd' /\ backend_ok bd') as (bd' & E & H).
    { unfold perform_all, gated. cbn [fold_left mbind option_bind perform].
      destruct (config_add_ok no_quorum [kw "limit-concurrent-refresh"; kw "2"] I) as (rc & b1 & E1 & H1).
      rewrite E1. cbn [mbind option_bind].
      destruct (gate_ok b1 true H1) as (rc2 & b2 & E2 & H2).
      { revert E1. vm_compute. intros [= <- <-]. by left. }
      rewrite E2. by exists b2. }
    unfold bd. by rewrite E. }
  destruct (quorum_gate_limits bd q Hok) as (rc & bd1 & q1 & E & _ & _ & H & _);
    [vm_compute; reflexivity|vm_compute; reflexivity|vm_compute; discriminate|].
  exists rc, bd1. split; [exact E|]. apply H. vm_compute. reflexivity.
Defined.

(** ** The directive *)

(** The words emitted for a quorum object whose requirements all come from
    the directive are accepted for a backend without links, and give the same
    flags, the same limit and the same requirements up to their order. *)
Theorem quorum_directive_roundtrip q :
  quorum_ok q -> configured q -> 0 <= q.(q_flags) < 8 ->
  exists bd' q', config_quorum_add no_quorum (emit_words q) = Some (0, bd') /\ bd'.(bd_quorum) = Some q' /\
    q'.(q_flags) = q.(q_flags) /\ q'.(qr_syncrepl_limit) = q.(qr_syncrepl_limit) /\ reqs q' ≡ₚ reqs q.
Proof.
  intros Hok Hc Hf. unfold config_quorum_add, ensure_quorum, no_quorum. cbn [bd_quorum].
  destruct (emit_parses q fresh_quorum Hok Hc Hf eq_refl eq_refl eq_refl eq_refl (quorum_be_init (mkBD None 1)) (-1) [])
    as (bd1 & q1 & ty & E & _ & H1 & H2 & H3). rewrite app_nil_r in E. rewrite E.
  eexists _, q1. cbn [config_words]. split_and!; [done..|]. rewrite H3. by apply emitted_perm.
Qed.

Definition directive : list text :=
  [kw "vote-sids"; kw "7"; kw "0x0b"; kw "require-sids"; kw "300"; kw "all-links"; kw "vote-rids"; kw "42";
   kw "limit-concurrent-refresh"; kw "3"].

Lemma quorum_directive_roundtrip_witness :
  let q := quorum_of (perform_all 1 no_quorum [CConfig directive]) in
  (exists bd' q', config_quorum_add no_quorum (emit_words q) = Some (0, bd') /\ bd'.(bd_quorum) = Some q' /\
    q'.(q_flags) = q.(q_flags) /\ q'.(qr_syncrepl_limit) = q.(qr_syncrepl_limit) /\ reqs q' ≡ₚ reqs q) /\
  List.length (reqs q) = 4%nat.
Proof.
  intros q. split; [|vm_compute; reflexivity]. apply (quorum_directive_roundtrip q).
  - destruct (config_add_ok no_quorum directive I) as (rc & bd' & E & H).
    unfold q, perform_all. cbn [fold_left mbind option_bind perform]. rewrite E. cbn.
    unfold backend_ok in H. destruct (bd_quorum bd'); [exact H|apply fresh_ok].
  - unfold configured. apply list.Forall_forall. intros r Hr.
    assert (forallb (fun r => existsb (Z.eqb (r_type r)) [6; 1; 2; 0]) (reqs q) = true) as Hb by (vm_compute; reflexivity).
    rewrite forallb_forall in Hb. apply list_elem_of_In, Hb, existsb_exists in Hr as (t & Ht & E%Z.eqb_eq).
    rewrite E. apply list_elem_of_In. exact Ht.
  - vm_compute. split; [discriminate|reflexivity].
Defined.

(** The length [value_join_str] stores in [bv_len] for one or more words is
    greater than the length of the text it wrote, by one separator. *)
Theorem value_join_str_too_long v vals comma :
  (0 < List.length v)%nat ->
  let '(out, len) := value_join_str (v :: vals) comma in
  len = Z.of_nat (List.length out) + Z.of_nat (List.length comma).
Proof.
  intros Hv. unfold value_join_str.
  set (f := fun w n => Z.of_nat (List.length w) + Z.of_nat (List.length comma) + n).
  set (join := fix join vals := match vals with [] => [] | [v] => v | v :: vals => v ++ comma ++ join vals end).
  assert (forall v vals, fold_right f 0 (v :: vals) =
    Z.of_nat (List.length (join (v :: vals))) + Z.of_nat (List.length comma)) as H.
  { clear v Hv vals. intros v vals. revert v. induction vals as [|w vals IH]; intros v; [cbn; unfold f; lia|].
    change (fold_right f 0 (v :: w :: vals)) with (f v (fold_right f 0 (w :: vals))).
    change (join (v :: w :: vals)) with (v ++ comma ++ join (w :: vals)). rewrite IH, !length_app. unfold f. lia. }
  assert (0 <= fold_right f 0 vals) as Hn.
  { clear. induction vals; cbn; unfold f in *; lia. }
  replace (fold_right f 0 (v :: vals) =? 0) with false; [apply H|].
  symmetry. apply Z.eqb_neq. cbn. unfold f at 1. lia.
Qed.

Lemma value_join_str_too_long_witness :
  value_join_str [kw "all-links"; kw "auto-sids"] (kw " ") = (kw "all-links auto-sids", 20) /\
  List.length (kw "all-links auto-sids") = 19%nat.
Proof.
  pose proof (value_join_str_too_long (kw "all-links") [kw "auto-sids"] (kw " ") ltac:(cbn; lia)) as H.
  split; [|reflexivity]. revert H. vm_compute. reflexivity.
Defined.

(** ** Where the code does something else *)

(** The cached verdict goes stale in three ways: a link added under
    all-links leaves a cached "have", deleting a directive that has no
    requirements leaves a cached "lack", and auto-sids configured while no server
    is known leaves a cached "have". *)
Theorem quorum_cache_stale :
  (exists bd q, perform_all 1 no_quorum [CConfig [kw "all-links"]; CQuery; CAddRid 100 1 0] = Some bd /\
     bd.(bd_quorum) = Some q /\ (quorum_query 1 bd).1 = true /\ lazy_update 1 q = -1) /\
  (exists bd q, perform_all 1 no_quorum [CConfig [kw "all-links"]; CAddRid 100 1 0; CQuery; CDelete] = Some bd /\
     bd.(bd_quorum) = Some q /\ (quorum_query 1 bd).1 = false /\ lazy_update 1 q = 1) /\
  (exists bd q, perform_all 1 no_quorum [CAddRid 100 1 0; CQuery; CConfig [kw "auto-sids"]] = Some bd /\
     bd.(bd_quorum) = Some q /\ (quorum_query 1 bd).1 = true /\ lazy_update 1 q = -1).
Proof.
  split_and!; (eexists _, _; split; [vm_compute; reflexivity|]; split; [reflexivity|]; split; vm_compute; reflexivity).
Qed.

(** A replica named by require-rids is not demanded: with replicas 8 and 9
    ready and the required replica 7 dead there is a quorum, and the requirement
    is kept with the automatic flag instead of the demanding one. *)
Theorem require_rids_not_demanded :
  exists bd q, perform_all 1 no_quorum
    [CConfig [kw "require-rids"; kw "7"; kw "vote-rids"; kw "8"; kw "9"];
     CAddRid 100 7 0; CAddRid 200 8 0; CAddRid 300 9 0;
     CNotifyStatus 100 QS_DEAD; CNotifyStatus 200 QS_READY; CNotifyStatus 300 QS_READY] = Some bd /\
    bd.(bd_quorum) = Some q /\ (quorum_query 1 bd).1 = true /\
    mkReq QR_DEMAND_RID 7 ∈ reqs q /\ QR_IS_DEMAND QR_DEMAND_RID = false /\ QR_IS_AUTO QR_DEMAND_RID = true.
Proof.
  eexists _, _. split; [vm_compute; reflexivity|]. split; [reflexivity|]. split; [vm_compute; reflexivity|].
  split; [|done]. apply list_elem_of_In. vm_compute. by left.
Qed.

(** Whether a demanded server without a link makes the quorum lack depends
    on memory that was never written, the status of the array's terminator. *)
Theorem absent_server_undetermined :
  let calls junk := [CAddRid 100 1 0; CAddRid 200 2 junk;
     CConfig [kw "require-sids"; kw "30"; kw "vote-rids"; kw "1"; kw "2"];
     CNotifyStatus 100 QS_READY; CNotifyStatus 200 QS_READY] in
  (exists bd, perform_all 1 no_quorum (calls 0) = Some bd /\ (quorum_query 1 bd).1 = false) /\
  (exists bd, perform_all 1 no_quorum (calls 3) = Some bd /\ (quorum_query 1 bd).1 = true).
Proof. split; (eexists; split; [vm_compute; reflexivity|vm_compute; reflexivity]). Qed.

(** Without a limit, the sixteenth refresh to enter the gate fails the
    assertion on the number of refreshes. *)
Theorem gate_without_limit_aborts :
  perform_all 1 no_quorum (replicate 15 (CGate true)) <> None /\
  perform_all 1 no_quorum (replicate 16 (CGate true)) = None.
Proof. split; vm_compute; done. Qed.
