(* ===== verification/Csn.v ===== *)
(** * Change sequence numbers (servers/slapd/ldapsync.c)

    A CSN is the 40-character text "YYYYmmddHHMMSS.uuuuuuZ#ssssss#sid#mmmmmm".
    Its checks and comparisons, shifting, and the operations on arrays of CSNs.
    A CSN in a [BerValue] is the text of its [bv_len] characters, followed by a
    NUL; an array ends at its first empty value.  A failed assertion, or a signed
    overflow, is [None]. *)

From stdpp Require Import base list numbers option.
From Stdlib Require Import Ascii String.
From S2P Require Import Prelude Text Quorum.

Local Open Scope Z_scope.

(** What the operations read of the process: the modes of reopenldap and the
    clock, as the CSN [ldap_pvt_csnstr] makes of it. *)
Class Env := {
  mode_check : bool;
  mode_strict : bool;
  clock : text;
}.

Definition ensure (b : bool) : option unit := if b then Some tt else None.

(** ** One CSN *)

Definition slap_csn_verify_lite (csn : text) : bool :=
  let at_ i := char_at csn i in
  negb (negb (Z.of_nat (List.length csn) =? 40) || (schar (at_ 0%nat) <? 48) ||
        negb (Ascii.eqb (at_ 14%nat) ".") || negb (Ascii.eqb (at_ 21%nat) "Z") ||
        negb (Ascii.eqb (at_ 22%nat) "#") || negb (Ascii.eqb (at_ 29%nat) "#") ||
        negb (Ascii.eqb (at_ 33%nat) "#") || negb (Ascii.eqb (at_ 40%nat) "000")).

Definition slap_csn_match (a b : text) : option bool :=
  if slap_csn_verify_lite a && slap_csn_verify_lite b
  then Some (memcmp (sub a 0 40) (sub b 0 40) =? 0) else None.

Definition slap_csn_compare_sr (a b : text) : option Z :=
  if slap_csn_verify_lite a && slap_csn_verify_lite b
  then Some (memcmp (sub a 30 4) (sub b 30 4)) else None.

Definition slap_csn_compare_ts (a b : text) : option Z :=
  if slap_csn_verify_lite a && slap_csn_verify_lite b then
    let cmp := memcmp (sub a 0 29) (sub b 0 29) in
    Some (if cmp =? 0 then memcmp (sub a 34 6) (sub b 34 6) else cmp)
  else None.

Definition between (lo c hi : ascii) : bool := (schar lo <=? schar c) && (schar c <=? schar hi).

(** The switch on the character [x] of the template. *)
Definition template_ok (x c : ascii) : bool :=
  (Ascii.eqb x "F" && (between "a" c "f" || between "A" c "F")) ||
  ((Ascii.eqb x "F" || Ascii.eqb x "9") && between "0" c "9") ||
  Ascii.eqb c x.

Fixpoint template_match (xs cs : text) : bool :=
  match xs, cs with
  | [], [] => true
  | x :: xs, c :: cs => template_ok x c && template_match xs cs
  | _, _ => false
  end.

Definition csn_template : text := kw "99999999999999.999999Z#FFFFFF#FFF#FFFFFF".

Section env.
Context `{Env}.

Definition slap_csn_verify_full (csn : text) : bool :=
  (Z.of_nat (List.length csn) =? 40) && template_match csn_template csn &&
  (negb mode_strict ||
   (negb (memcmp (sub csn 0 21) (kw "19000101000000.000000") <? 0) &&
    match slap_csn_compare_ts clock csn with Some c => negb (c <? 0) | None => false end)).

Definition slap_csn_get_sid (csn : text) : Z :=
  if slap_csn_verify_lite csn then
    match strtol (drop 30 csn) 16 with
    | Some (v, rest) =>
        let sid := swrap 32 v in
        if negb (Nat.eqb (List.length rest) 7) || (sid <? 0) || (sid >? SLAP_SYNC_SID_MAX) then -1 else sid
    | None => -1
    end
  else -1.

(** [strntoi] over the first [n] characters: the number and what follows it;
    [None] is an overflow of [int]. *)
Fixpoint strntoi_loop (n : nat) (s : text) (r base : Z) : option (Z * text) :=
  match n, s with
  | S n, c :: s' =>
      match digit_in base c with
      | None => Some (r, s)
      | Some d =>
          let d := d + r * base in
          if d <=? 2147483647 then (if d <? r then Some (r, s) else strntoi_loop n s' d base) else None
      end
  | _, _ => Some (r, s)
  end.

Definition strntoi (s : text) (n : nat) (base : Z) : option (Z * text) := strntoi_loop n s 0 base.

(** ** Shifting *)

(** [while (v < 0) { carry += step; v += m; } while (v >= m) { carry += 1; v -= m; }] *)
Definition carry_over (step m v : Z) : Z * Z :=
  if v <? 0 then ((- (v / m)) * step, v mod m) else (v / m, v mod m).

(** The digits of the date, from the last to the first. *)
Fixpoint carry_digits (rev_digits : text) (carry : Z) : text :=
  match rev_digits with
  | [] => []
  | c :: l =>
      if carry =? 0 then c :: l else
      let d := schar c + carry in
      if d <? 48 then "9"%char :: carry_digits l (-1)
      else if d >? 57 then "0"%char :: carry_digits l 1
      else ascii_of_N (Z.to_N d) :: carry_digits l 0
  end.

Definition put (s : text) (off : nat) (t : text) : text := take off s ++ t ++ drop (off + List.length t) s.

(** The carry of the change counter into the microseconds and the date. *)
Definition carry_usec (csn : text) (carry : Z) : option text :=
  if carry =? 0 then Some csn else
  '(v, rest) ← strntoi (drop 15 csn) (List.length csn - 15) 10;
  _ ← ensure (Nat.eqb (List.length csn - List.length rest) 21 && Ascii.eqb (char_at csn 21) "Z");
  let '(carry, v) := carry_over 1 1000000 (v + carry) in
  let csn := put csn 15 (fmt_pad 10 6 v) in
  if carry =? 0 then Some csn else
  _ ← ensure (Z.abs carry =? 1);
  Some (put csn 0 (reverse (carry_digits (reverse (take 14 csn)) carry))).

Definition slap_csn_shift (csn : text) (delta_points : Z) : option text :=
  _ ← ensure (slap_csn_verify_full csn);
  if delta_points =? 0 then Some csn else
  '(v, rest) ← strntoi (drop 23 csn) (List.length csn - 23) 16;
  _ ← ensure (Nat.eqb (List.length csn - List.length rest) 29 && Ascii.eqb (char_at csn 29) "#");
  _ ← ensure (v + delta_points <=? 2147483647);
  let '(carry, v) := carry_over (-1) 0x1000000 (v + delta_points) in
  csn ← carry_usec (put csn 23 (fmt_pad 16 6 v)) carry;
  _ ← ensure (slap_csn_verify_full csn);
  Some csn.

(** ** The CSN syntax of the schema (schema_init.c) *)

Definition csnValidate (val : text) : bool := slap_csn_verify_full val.

(** What is in front of the first "#" and behind it. *)
Fixpoint cut_hash (val : text) : option (text * text) :=
  match val with
  | [] => None
  | c :: val => if Ascii.eqb c "#" then Some ([], val) else '(pre, post) ← cut_hash val; Some (c :: pre, post)
  end.

(** The four fields between the signs, if they have these lengths. *)
Definition csn_fields (val : text) (gt cnt sid mod_ : nat) : option (text * text * text * text) :=
  '(g, val) ← cut_hash val; _ ← ensure (Nat.eqb (List.length g) gt);
  '(c, val) ← cut_hash val; _ ← ensure (Nat.eqb (List.length c) cnt);
  '(s, m) ← cut_hash val; _ ← ensure (Nat.eqb (List.length s) sid);
  _ ← ensure (Nat.eqb (List.length m) mod_); Some (g, c, s, m).

(** What [lutil_strncopy] leaves of [n] characters of [b]: it stops at a NUL, and a
    character that it copies behind them is written over next. *)
Fixpoint lutil_strncopy (b : text) (n : nat) : text :=
  match n, b with
  | S n, c :: b => if Ascii.eqb c "000" then [] else c :: lutil_strncopy b n
  | _, _ => []
  end.

(** The normalisers: the normal form, or none for LDAP_INVALID_SYNTAX. *)
Definition csn_checked (bv : text) : option (option text) :=
  _ ← ensure (Nat.eqb (List.length bv) 40); Some (if csnValidate bv then Some bv else None).

Definition csnNormalize21 (val : text) : option (option text) :=
  match csn_fields val 17 6 1 4 with
  | Some (gt, cnt, sid, mod_) =>
      if negb (Ascii.eqb (char_at gt 10) ":" && Ascii.eqb (char_at gt 13) ":") then Some None
      else if negb (Ascii.eqb (char_at cnt 0) "0" && Ascii.eqb (char_at cnt 1) "x") then Some None
      else csn_checked (lutil_strncopy gt 10 ++ lutil_strncopy (drop 11 gt) 2 ++ lutil_strncopy (drop 14 gt) 2 ++
                        kw ".000000Z#00" ++ drop 2 cnt ++ kw "#00" ++ [char_at sid 0] ++ kw "#00" ++ (tolower <$> mod_))
  | None => Some None
  end.

Definition csnNormalize23 (val : text) : option (option text) :=
  match csn_fields val 15 6 2 6 with
  | Some (gt, cnt, sid, mod_) =>
      csn_checked (lutil_strncopy gt 14 ++ kw ".000000Z#" ++ cnt ++ kw "#0" ++ (tolower <$> sid) ++ kw "#" ++ (tolower <$> mod_))
  | None => Some None
  end.

Definition csnNormalize (val : text) : option (option text) :=
  if Nat.eqb (List.length val) 0 then Some None
  else if Nat.eqb (List.length val) 32 then csnNormalize23 val
  else if Nat.eqb (List.length val) 31 then csnNormalize21 val
  else if negb (Nat.eqb (List.length val) 40) then Some None
  else match csn_fields val 22 6 3 6 with
       | Some _ => Some (Some (take 30 val ++ (tolower <$> drop 30 val)))
       | None => Some None
       end.

(** ** Arrays of CSNs *)

(** The values before the first empty one. *)
Fixpoint until_empty (vals : list text) : list text :=
  match vals with
  | [] | [] :: _ => []
  | v :: vals => v :: until_empty vals
  end.

Definition slap_csns_length (vals : list text) : option Z :=
  let vals := until_empty vals in
  _ ← ensure (forallb no_nul vals); Some (Z.of_nat (List.length vals)).

Definition csn_qsort_cmp (a b : text) : option Z :=
  cmp ← slap_csn_compare_sr a b;
  if cmp =? 0 then slap_csn_compare_ts b a else Some cmp.

(** [qsort] with [csn_qsort_cmp]: values that compare equal are equal, so that
    the order it leaves is the one of insertion. *)
Fixpoint csn_insert (x : text) (l : list text) : option (list text) :=
  match l with
  | [] => Some [x]
  | y :: l' => c ← csn_qsort_cmp x y; if c <=? 0 then Some (x :: l) else r ← csn_insert x l'; Some (y :: r)
  end.

Fixpoint csn_qsort (l : list text) : option (list text) :=
  match l with
  | [] => Some []
  | x :: l => r ← csn_qsort l; csn_insert x r
  end.

(** The values behind [w - 1] that do not repeat its SID. *)
Fixpoint csn_unique (last : text) (l : list text) : option (list text) :=
  match l with
  | [] => Some []
  | r :: l =>
      c ← slap_csn_compare_sr last r;
      if c =? 0 then csn_unique last l else l ← csn_unique r l; Some (r :: l)
  end.

Definition slap_csns_validate_and_sort (vals : list text) : option (Z * list text) :=
  let vals := until_empty vals in
  _ ← ensure (forallb no_nul vals);
  l ← csn_qsort (filter (fun v => slap_csn_verify_full v = true) vals);
  l ← match l with [] => Some [] | x :: l => l ← csn_unique x l; Some (x :: l) end;
  Some (Z.of_nat (List.length l), l).

Fixpoint slap_csns_match_loop (a b : list text) : option bool :=
  match a, b with
  | x :: a', y :: b' =>
      _ ← ensure (no_nul x && no_nul y);
      m ← slap_csn_match x y; if (m : bool) then slap_csns_match_loop a' b' else Some false
  | [], [] => Some true
  | _, _ => Some false
  end.

Definition slap_csns_match (a b : list text) : option bool :=
  slap_csns_match_loop (until_empty a) (until_empty b).

Definition INT_MAX : Z := 2147483647.
Definition INT_MIN : Z := -2147483648.

Fixpoint csns_compare_loop (n res : Z) (next base : list text) : option Z :=
  match next with
  | [] => Some (match base with [] => res | _ => INT_MIN end)
  | x :: next' =>
      _ ← ensure (no_nul x);
      match base with
      | [] => Some INT_MAX
      | y :: base' =>
          _ ← ensure (no_nul y);
          cmp ← slap_csn_compare_sr x y;
          if cmp >? 0 then Some INT_MIN
          else if cmp <? 0 then csns_compare_loop (n + 1) INT_MAX next' base
          else
            cmp ← slap_csn_compare_ts x y;
            if cmp <? 0 then Some (- n)
            else csns_compare_loop (n + 1) (if negb (cmp =? 0) && (res =? 0) then n else res) next' base'
      end
  end.

Definition slap_csns_compare (next base : list text) : option Z :=
  csns_compare_loop 1 0 (until_empty next) (until_empty base).

Definition slap_csns_parse_sids (csns : list text) : option (list Z) :=
  _ ← slap_csns_length csns; Some (slap_csn_get_sid <$> until_empty csns).
End env.
