(* ===== verification/CsnFacts.v ===== *)
(** * The order of CSNs

    On valid CSNs [slap_csn_compare_ts] compares time stamps and [slap_csn_compare_sr] the
    server IDs [slap_csn_get_sid] reads. *)

From stdpp Require Import base list numbers option.
From Stdlib Require Import Ascii String.
From stdpp Require Import base list numbers option sorting.
From S2P Require Import Prelude Text Quorum Csn.

Local Open Scope Z_scope.

(** ** Hexadecimal digits *)

Definition is_hex (c : ascii) : bool := bool_decide (is_Some (digit_in 16 c)).
Definition hexval (c : ascii) : Z := default 0 (digit_in 16 c).
Definition is_upper (c : ascii) : bool := between "A" c "Z".

Lemma template_hex c : template_ok "F" c = is_hex c.
Proof. apply Bool.eqb_prop. revert c. apply ascii_table. vm_compute. reflexivity. Qed.

Lemma hex_digit c : is_hex c = true -> digit_in 16 c = Some (hexval c).
Proof. unfold is_hex, hexval. intros [d ->]%bool_decide_eq_true. done. Qed.

Lemma hexval_range c : 0 <= hexval c < 16.
Proof.
  assert ((0 <=? hexval c) && (hexval c <? 16) = true) as Ht by (revert c; apply ascii_table; vm_compute; reflexivity).
  zb. lia.
Qed.

Lemma hex_implies (Q : ascii -> bool) c :
  forallb (fun n => implb (is_hex (ascii_of_nat n)) (Q (ascii_of_nat n))) (seq 0 256) = true ->
  is_hex c = true -> Q c = true.
Proof. intros Ht Hc. pose proof (ascii_table (fun c => implb (is_hex c) (Q c)) Ht c) as H. cbv beta in H. by rewrite Hc in H. Qed.

Lemma hex_not_space c : is_hex c = true -> isspace c = false.
Proof. intros Hc. apply negb_true_iff. revert Hc. apply (hex_implies (fun c => negb (isspace c))). vm_compute. reflexivity. Qed.

Lemma hex_not_x c : is_hex c = true -> (ascii_code c =? 120) || (ascii_code c =? 88) = false.
Proof.
  intros Hc. apply negb_true_iff. revert Hc.
  apply (hex_implies (fun c => negb ((ascii_code c =? 120) || (ascii_code c =? 88)))). vm_compute. reflexivity.
Qed.

Lemma hex_not_sign c : is_hex c = true -> Ascii.eqb c "-" = false /\ Ascii.eqb c "+" = false.
Proof.
  intros Hc. apply orb_false_iff, negb_true_iff. revert Hc.
  apply (hex_implies (fun c => negb (Ascii.eqb c "-" || Ascii.eqb c "+"))). vm_compute. reflexivity.
Qed.

(** [strtol] on three hexadecimal digits and something else. *)
Lemma strtol_hex3 s0 s1 s2 c m :
  is_hex s0 = true -> is_hex s1 = true -> is_hex s2 = true -> is_hex c = false ->
  strtol (s0 :: s1 :: s2 :: c :: m) 16 = Some (hexval s0 * 256 + hexval s1 * 16 + hexval s2, c :: m).
Proof.
  intros H0 H1 H2 Hc. unfold strtol, strtol_exact. cbn [skip_space]. rewrite hex_not_space by done.
  destruct (hex_not_sign s0 H0) as [-> ->]. rewrite hex_not_x by done. rewrite andb_false_r. cbn [andb].
  cbn [read_digits]. rewrite (hex_digit s0), (hex_digit s1), (hex_digit s2) by done.
  assert (digit_in 16 c = None) as ->.
  { apply eq_None_not_Some. intros Hs. by apply bool_decide_eq_false in Hc. }
  pose proof (hexval_range s0). pose proof (hexval_range s1). pose proof (hexval_range s2).
  cbn [mbind option_bind]. f_equal. f_equal. rewrite Z.min_r, Z.max_r by lia. lia.
Qed.

(** ** The shape of a valid CSN *)

(** The parts of a CSN: the time with the change counter, the server ID, the
    modification number. *)
Record csn_parts := mkParts { cp_time : text; cp_s0 : ascii; cp_s1 : ascii; cp_s2 : ascii; cp_mod : text }.

Definition csn_text (p : csn_parts) : text :=
  p.(cp_time) ++ "#"%char :: p.(cp_s0) :: p.(cp_s1) :: p.(cp_s2) :: "#"%char :: p.(cp_mod).

Lemma template_length xs cs : template_match xs cs = true -> List.length cs = List.length xs.
Proof.
  revert cs. induction xs as [|x xs IH]; intros [|c cs]; cbn; try done. intros [_ H]%andb_true_iff. f_equal. by apply IH.
Qed.

Lemma template_lookup xs cs i x :
  template_match xs cs = true -> xs !! i = Some x -> exists c, cs !! i = Some c /\ template_ok x c = true.
Proof.
  revert cs i. induction xs as [|y xs IH]; intros [|c cs] i; cbn; try done.
  intros [Hc H]%andb_true_iff. destruct i as [|i]; cbn; [intros [= <-]; eauto|]. by apply IH.
Qed.

Lemma template_sep xs cs i x :
  template_match xs cs = true -> xs !! i = Some x -> Ascii.eqb x "F" = false -> Ascii.eqb x "9" = false ->
  cs !! i = Some x.
Proof.
  intros H Hi HF H9. destruct (template_lookup _ _ _ _ H Hi) as (c & -> & Hc).
  unfold template_ok in Hc. rewrite HF, H9 in Hc. cbn in Hc. by apply Ascii.eqb_eq in Hc as ->.
Qed.

Section env.
Context `{Env}.

Definition valid (c : text) : Prop := slap_csn_verify_full c = true.

Lemma valid_template c : valid c -> template_match csn_template c = true.
Proof. unfold valid, slap_csn_verify_full. intros Hv. by bool_hyps. Qed.

Lemma valid_length c : valid c -> List.length c = 40%nat.
Proof. intros Hv%valid_template%template_length. done. Qed.

Lemma char_at_Some s i c : s !! i = Some c -> char_at s i = c.
Proof. unfold char_at. by intros ->. Qed.

Lemma valid_lite c : valid c -> slap_csn_verify_lite c = true.
Proof.
  intros Hv. pose proof (valid_length c Hv) as Hl. pose proof (valid_template c Hv) as Ht.
  assert (forall i x, csn_template !! i = Some x -> Ascii.eqb x "F" = false -> Ascii.eqb x "9" = false ->
    Ascii.eqb (char_at c i) x = true) as Hsep.
  { intros i x Hi HF H9. apply Ascii.eqb_eq, char_at_Some. by eapply template_sep. }
  unfold slap_csn_verify_lite. cbv zeta. rewrite Hl. change (Z.of_nat 40 =? 40) with true.
  rewrite (Hsep 14%nat "."%char), (Hsep 21%nat "Z"%char), (Hsep 22%nat "#"%char), (Hsep 29%nat "#"%char),
    (Hsep 33%nat "#"%char) by done.
  destruct (template_lookup _ _ 0 "9"%char Ht eq_refl) as (c0 & Hc0 & H0). rewrite (char_at_Some _ _ _ Hc0).
  assert ((schar c0 <? 48) = false) as ->.
  { apply Z.ltb_ge. unfold template_ok in H0. cbn in H0. apply orb_true_iff in H0 as [H0|H0].
    - unfold between in H0. apply andb_true_iff in H0 as [H0%Z.leb_le _]. done.
    - apply Ascii.eqb_eq in H0 as ->. done. }
  unfold char_at. rewrite lookup_ge_None_2 by lia. done.
Qed.

Lemma valid_parts c : valid c ->
  exists p, c = csn_text p /\ List.length p.(cp_time) = 29%nat /\ List.length p.(cp_mod) = 6%nat /\
    is_hex p.(cp_s0) = true /\ is_hex p.(cp_s1) = true /\ is_hex p.(cp_s2) = true.
Proof.
  intros Hv. pose proof (valid_length c Hv) as Hl. pose proof (valid_template c Hv) as Ht.
  assert (forall i, csn_template !! i = Some "F"%char -> exists x, c !! i = Some x /\ is_hex x = true) as Hhex.
  { intros i Hi. destruct (template_lookup _ _ _ _ Ht Hi) as (x & Hx & Hok). rewrite template_hex in Hok. eauto. }
  destruct (Hhex 30%nat eq_refl) as (s0 & E0 & H0). destruct (Hhex 31%nat eq_refl) as (s1 & E1 & H1).
  destruct (Hhex 32%nat eq_refl) as (s2 & E2 & H2).
  assert (c !! 29%nat = Some "#"%char) as E29 by by eapply template_sep.
  assert (c !! 33%nat = Some "#"%char) as E33 by by eapply template_sep.
  exists (mkParts (take 29 c) s0 s1 s2 (drop 34 c)). cbn. split_and!; try done.
  - unfold csn_text. cbn. rewrite <- (take_drop 29 c) at 1. f_equal.
    rewrite (drop_S c "#"%char 29), (drop_S c s0 30), (drop_S c s1 31), (drop_S c s2 32), (drop_S c "#"%char 33) by done.
    done.
  - rewrite length_take. lia.
  - rewrite length_drop. lia.
Qed.

(** ** Time stamps and server IDs *)

(** What [slap_csn_compare_ts] compares. *)
Definition ts (c : text) : text := sub c 0 29 ++ sub c 34 6.
Definition cts (a b : text) : Z := memcmp (ts a) (ts b).
Definition sid (c : text) : Z := slap_csn_get_sid c.

(** Valid with a server ID in small letters, as [csnNormalize] leaves it. *)
Definition normal (c : text) : Prop := valid c /\ forallb (fun x => negb (is_upper x)) (sub c 30 3) = true.

Lemma normal_valid c : normal c -> valid c.
Proof. by intros []. Qed.

Lemma ts_length c : valid c -> List.length (ts c) = 35%nat.
Proof.
  intros Hv%valid_length. unfold ts, sub. rewrite length_app, !length_take, !length_drop. lia.
Qed.

Lemma compare_ts_valid a b : valid a -> valid b -> slap_csn_compare_ts a b = Some (cts a b).
Proof.
  intros Ha Hb. unfold slap_csn_compare_ts. rewrite !valid_lite by done. cbn [andb]. f_equal. unfold cts, ts.
  rewrite memcmp_app; [done|]. unfold sub. rewrite !length_take, !length_drop, !valid_length by done. done.
Qed.

Lemma compare_sr_valid a b : valid a -> valid b -> slap_csn_compare_sr a b = Some (memcmp (sub a 30 4) (sub b 30 4)).
Proof. intros Ha Hb. unfold slap_csn_compare_sr. by rewrite !valid_lite. Qed.

Lemma sub_sid p : List.length p.(cp_time) = 29%nat ->
  sub (csn_text p) 30 4 = [p.(cp_s0); p.(cp_s1); p.(cp_s2); "#"%char] /\
  sub (csn_text p) 30 3 = [p.(cp_s0); p.(cp_s1); p.(cp_s2)] /\
  drop 30 (csn_text p) = p.(cp_s0) :: p.(cp_s1) :: p.(cp_s2) :: "#"%char :: p.(cp_mod) /\
  sub (csn_text p) 0 29 = p.(cp_time) /\ drop 34 (csn_text p) = p.(cp_mod).
Proof.
  intros Hl. unfold sub, csn_text.
  assert (forall n, drop (29 + n) (cp_time p ++ "#"%char :: cp_s0 p :: cp_s1 p :: cp_s2 p :: "#"%char :: cp_mod p) =
    drop n ("#"%char :: cp_s0 p :: cp_s1 p :: cp_s2 p :: "#"%char :: cp_mod p)) as Hd.
  { intros n. rewrite <- Hl. apply drop_app_add. }
  pose proof (Hd 1%nat) as D1. pose proof (Hd 5%nat) as D5. cbn in D1, D5. rewrite D1, D5.
  split_and!; try done. rewrite drop_0, <- Hl. apply take_app_length.
Qed.

Lemma sid_parts p :
  List.length p.(cp_time) = 29%nat -> valid (csn_text p) ->
  is_hex p.(cp_s0) = true -> is_hex p.(cp_s1) = true -> is_hex p.(cp_s2) = true ->
  sid (csn_text p) = hexval p.(cp_s0) * 256 + hexval p.(cp_s1) * 16 + hexval p.(cp_s2).
Proof.
  intros Hl Hv H0 H1 H2. unfold sid, slap_csn_get_sid. rewrite valid_lite by done.
  destruct (sub_sid p Hl) as (_ & _ & -> & _). rewrite strtol_hex3 by done.
  pose proof (hexval_range (cp_s0 p)). pose proof (hexval_range (cp_s1 p)). pose proof (hexval_range (cp_s2 p)).
  set (v := _ * 256 + _ + _). assert (0 <= v < 4096) as Hr by (unfold v; lia).
  assert (swrap 32 v = v) as ->. { unfold swrap. rewrite Z.mod_small by lia. lia. }
  assert (List.length (cp_mod p) = 6%nat) as Hm.
  { apply valid_length in Hv. unfold csn_text in Hv. rewrite length_app in Hv. cbn in Hv. lia. }
  cbn [List.length]. rewrite Hm. unfold SLAP_SYNC_SID_MAX.
  replace (v <? 0) with false by (symmetry; apply Z.ltb_ge; lia).
  replace (v >? 4095) with false by (symmetry; rewrite Z.gtb_ltb; apply Z.ltb_ge; lia). done.
Qed.

Lemma sid_range c : valid c -> 0 <= sid c <= SLAP_SYNC_SID_MAX.
Proof.
  intros Hv. destruct (valid_parts c Hv) as (p & -> & Hl & _ & H0 & H1 & H2).
  rewrite sid_parts by done. pose proof (hexval_range (cp_s0 p)). pose proof (hexval_range (cp_s1 p)).
  pose proof (hexval_range (cp_s2 p)). unfold SLAP_SYNC_SID_MAX. lia.
Qed.

(** Small hexadecimal digits are ordered as their values. *)
Definition small_digits : list ascii := list_ascii_of_string "0123456789abcdef".

Lemma small_digit c : is_hex c = true -> is_upper c = false -> c ∈ small_digits.
Proof.
  intros Hc Hu. assert (existsb (Ascii.eqb c) small_digits || is_upper c = true) as Ht.
  { revert Hc. apply (hex_implies (fun c => existsb (Ascii.eqb c) small_digits || is_upper c)). vm_compute. reflexivity. }
  rewrite Hu, orb_false_r in Ht. apply existsb_exists in Ht as (x & Hx & ->%Ascii.eqb_eq). by apply list_elem_of_In.
Qed.

Lemma small_order x y : x ∈ small_digits -> y ∈ small_digits ->
  (ascii_code x <? ascii_code y) = (hexval x <? hexval y).
Proof.
  assert (forallb (fun x => forallb (fun y => Bool.eqb (ascii_code x <? ascii_code y) (hexval x <? hexval y))
    small_digits) small_digits = true) as Ht by (vm_compute; reflexivity).
  intros Hx%list_elem_of_In Hy%list_elem_of_In. rewrite forallb_forall in Ht. specialize (Ht x Hx).
  rewrite forallb_forall in Ht. by apply Bool.eqb_prop, Ht.
Qed.

Lemma normal_parts c : normal c ->
  exists p, c = csn_text p /\ List.length p.(cp_time) = 29%nat /\ List.length p.(cp_mod) = 6%nat /\
    p.(cp_s0) ∈ small_digits /\ p.(cp_s1) ∈ small_digits /\ p.(cp_s2) ∈ small_digits /\
    sid c = hexval p.(cp_s0) * 256 + hexval p.(cp_s1) * 16 + hexval p.(cp_s2).
Proof.
  intros [Hv Hu]. destruct (valid_parts c Hv) as (p & -> & Hl & Hm & H0 & H1 & H2).
  destruct (sub_sid p Hl) as (_ & E & _). rewrite E in Hu. cbn in Hu. bool_hyps.
  exists p. split_and!; try done; try by apply small_digit. by apply sid_parts.
Qed.

(** [slap_csn_compare_sr] compares the server IDs. *)
Lemma compare_sr_sid a b : normal a -> normal b -> slap_csn_compare_sr a b = Some (Z.sgn (sid a - sid b)).
Proof.
  intros Ha Hb. rewrite compare_sr_valid by by apply normal_valid. f_equal.
  destruct (normal_parts a Ha) as (p & -> & Hl & _ & H0 & H1 & H2 & ->).
  destruct (normal_parts b Hb) as (q & -> & Hl' & _ & G0 & G1 & G2 & ->).
  destruct (sub_sid p Hl) as (-> & _). destruct (sub_sid q Hl') as (-> & _). cbn [memcmp].
  rewrite !small_order by done. rewrite Z.ltb_irrefl.
  pose proof (hexval_range (cp_s0 p)). pose proof (hexval_range (cp_s1 p)). pose proof (hexval_range (cp_s2 p)).
  pose proof (hexval_range (cp_s0 q)). pose proof (hexval_range (cp_s1 q)). pose proof (hexval_range (cp_s2 q)).
  repeat case_if; zb; lia.
Qed.

(** Two CSNs with one server ID and one time stamp are one. *)
Lemma normal_eq a b : normal a -> normal b -> sid a = sid b -> cts a b = 0 -> a = b.
Proof.
  intros Ha Hb Hs Hc. unfold cts in Hc.
  apply memcmp_eq in Hc; [|by rewrite !ts_length by by apply normal_valid].
  pose proof (compare_sr_sid a b Ha Hb) as Hr. rewrite Hs, Z.sub_diag in Hr.
  rewrite compare_sr_valid in Hr by by apply normal_valid. injection Hr as Hr.
  destruct (normal_parts a Ha) as (p & -> & Hl & Hm & _). destruct (normal_parts b Hb) as (q & -> & Hl' & Hm' & _).
  unfold ts in Hc. destruct (sub_sid p Hl) as (P4 & _ & _ & PT & PM). destruct (sub_sid q Hl') as (Q4 & _ & _ & QT & QM).
  rewrite P4, Q4 in Hr. apply memcmp_eq in Hr; [|done]. injection Hr as E0 E1 E2.
  rewrite PT, QT in Hc. unfold sub in Hc. rewrite PM, QM in Hc.
  rewrite !take_ge in Hc by lia. apply app_inj_1 in Hc as [Et Em]; [|congruence].
  unfold csn_text. congruence.
Qed.

(** ** The order of time stamps *)

Lemma cts_refl a : cts a a = 0.
Proof. apply memcmp_refl. Qed.

Lemma cts_antisym a b : cts b a = - cts a b.
Proof. apply memcmp_antisym. Qed.

Lemma cts_trans a b c : valid a -> valid b -> valid c -> cts a b <= 0 -> cts b c <= 0 -> cts a c <= 0.
Proof. intros Ha Hb Hc. apply memcmp_trans; by rewrite !ts_length. Qed.
End env.

(** * Sorted arrays of CSNs

    An array with one CSN for each server ID, in ascending order, is a map from
    server IDs to CSNs: looking up and storing, sorting an array into one, and
    comparing two. *)

Section env.
Context `{Env}.

Definition sid_lt (a b : text) : Prop := sid a < sid b.

Record csns_ok (l : list text) : Prop := {
  csns_normal : Forall normal l;
  csns_sorted : StronglySorted sid_lt l;
}.

(** The CSN of a server. *)
Definition csn_of (l : list text) (s : Z) : option text := List.find (fun c => sid c =? s) l.

(** The newer of two CSNs of one server. *)
Definition newer (o1 o2 : option text) : option text :=
  match o1, o2 with
  | Some a, Some b => Some (if cts b a >? 0 then b else a)
  | Some a, None => Some a
  | None, o => o
  end.

(** Store a CSN unless a newer one of its server is there. *)
Fixpoint csn_put (c : text) (l : list text) : list text :=
  match l with
  | [] => [c]
  | x :: l' =>
      if sid c <? sid x then c :: l
      else if sid c =? sid x then (if cts c x >? 0 then c :: l' else l)
      else x :: csn_put c l'
  end.

Lemma csns_ok_nil : csns_ok [].
Proof. split; constructor. Qed.

Lemma csns_ok_cons c l : csns_ok (c :: l) <-> normal c /\ Forall (sid_lt c) l /\ csns_ok l.
Proof.
  split.
  - intros [Hn Hs]. apply list.Forall_cons in Hn as [? ?]. apply StronglySorted_inv in Hs as [? ?]. by split_and!.
  - intros (Hc & Hf & [Hn Hs]). split; by constructor.
Qed.

Lemma csn_of_Some l s c : csn_of l s = Some c -> c ∈ l /\ sid c = s.
Proof. unfold csn_of. intros [Hin Hs%Z.eqb_eq]%find_some. split; [by apply list_elem_of_In|done]. Qed.

Lemma csn_of_None l s : csn_of l s = None <-> Forall (fun c => sid c <> s) l.
Proof.
  unfold csn_of. rewrite list.Forall_forall. split.
  - intros Hn c Hc. apply list_elem_of_In in Hc. pose proof (find_none _ _ Hn c Hc) as Hb. by apply Z.eqb_neq in Hb.
  - intros Hf. destruct (List.find _ l) as [c|] eqn:E; [|done]. apply find_some in E as [Hin Hs%Z.eqb_eq].
    by apply list_elem_of_In, Hf in Hin.
Qed.

Lemma csn_of_cons c l s : csn_of (c :: l) s = if sid c =? s then Some c else csn_of l s.
Proof. done. Qed.

Lemma csn_of_above l s : Forall (fun c => s < sid c) l -> csn_of l s = None.
Proof. intros Hf. apply csn_of_None. eapply list.Forall_impl; [exact Hf|]. cbn. lia. Qed.

Lemma csn_of_elem l c : csns_ok l -> c ∈ l -> csn_of l (sid c) = Some c.
Proof.
  induction l as [|x l IH]; intros Hok Hc; [by apply not_elem_of_nil in Hc|].
  apply csns_ok_cons in Hok as (_ & Hf & Hok). rewrite csn_of_cons. apply elem_of_cons in Hc as [->|Hc].
  - by rewrite Z.eqb_refl.
  - rewrite list.Forall_forall in Hf. pose proof (Hf c Hc) as Hlt. unfold sid_lt in Hlt.
    replace (sid x =? sid c) with false by (symmetry; apply Z.eqb_neq; lia). auto.
Qed.

(** Two arrays that hold the same are the same. *)
Lemma csns_ext l1 l2 : csns_ok l1 -> csns_ok l2 -> (forall s, csn_of l1 s = csn_of l2 s) -> l1 = l2.
Proof.
  revert l2. induction l1 as [|a l1 IH]; intros [|b l2] H1 H2 He; [done| | |].
  - specialize (He (sid b)). by rewrite csn_of_cons, Z.eqb_refl in He.
  - specialize (He (sid a)). by rewrite csn_of_cons, Z.eqb_refl in He.
  - apply csns_ok_cons in H1 as (Ha & Fa & H1). apply csns_ok_cons in H2 as (Hb & Fb & H2).
    assert (a = b) as ->.
    { pose proof (He (sid a)) as Ea. pose proof (He (sid b)) as Eb. rewrite !csn_of_cons, Z.eqb_refl in Ea, Eb.
      destruct (Z.eqb_spec (sid b) (sid a)) as [E|E]; [congruence|].
      replace (sid a =? sid b) with false in Eb by (symmetry; apply Z.eqb_neq; lia).
      symmetry in Ea. apply csn_of_Some in Ea as [Ea _]. apply csn_of_Some in Eb as [Eb _].
      rewrite list.Forall_forall in Fa, Fb. specialize (Fa b Eb). specialize (Fb a Ea). unfold sid_lt in *. lia. }
    f_equal. apply IH; [done..|]. intros s. specialize (He s). rewrite !csn_of_cons in He.
    destruct (Z.eqb_spec (sid b) s) as [E|E]; [|done]. rewrite <- E. by rewrite !csn_of_above.
Qed.

(** ** Storing *)

Lemma csn_put_sids c l (P : Z -> Prop) :
  P (sid c) -> Forall (fun x => P (sid x)) l -> Forall (fun x => P (sid x)) (csn_put c l).
Proof.
  intros Hc Hl. induction Hl as [|x l Hx Hl IH]; cbn; [by repeat constructor|].
  repeat case_if; by repeat constructor.
Qed.

Lemma csn_put_ok c l : normal c -> csns_ok l -> csns_ok (csn_put c l).
Proof.
  intros Hc. induction l as [|x l IH]; intros Hok; cbn.
  { apply csns_ok_cons. split_and!; [done|constructor|done]. }
  pose proof Hok as (Hx & Hf & Hl)%csns_ok_cons. case_if.
  - apply csns_ok_cons. split_and!; [done| |done]. zb. constructor; [done|].
    eapply list.Forall_impl; [exact Hf|]. unfold sid_lt. intros y Hy. cbn in *. lia.
  - case_if.
    + zb. case_if; [|done]. apply csns_ok_cons. split_and!; [done| |done].
      eapply list.Forall_impl; [exact Hf|]. unfold sid_lt. intros y Hy. lia.
    + zb. apply csns_ok_cons. split_and!; [done| |by apply IH].
      apply (csn_put_sids c l (fun s => sid x < s)); [lia|exact Hf].
Qed.

Lemma csn_of_put c l s : csns_ok l ->
  csn_of (csn_put c l) s = if s =? sid c then newer (csn_of l s) (Some c) else csn_of l s.
Proof.
  induction l as [|x l IH]; intros Hok; cbn [csn_put].
  { rewrite csn_of_cons, Z.eqb_sym. by case_if. }
  apply csns_ok_cons in Hok as (Hx & Hf & Hl). specialize (IH Hl).
  destruct (Z.ltb_spec (sid c) (sid x)); [|destruct (Z.eqb_spec (sid c) (sid x)) as [E|E]].
  - rewrite csn_of_cons, (Z.eqb_sym (sid c)). case_if; [|done]. zb. subst s.
    rewrite csn_of_above; [done|]. constructor; [done|].
    eapply list.Forall_impl; [exact Hf|]. unfold sid_lt. intros y Hy. cbn in *. lia.
  - destruct (cts c x >? 0) eqn:Ec; rewrite !csn_of_cons, ?E.
    + rewrite (Z.eqb_sym s). case_if; [|done]. cbn. by rewrite Ec.
    + rewrite (Z.eqb_sym s). case_if; [|done]. cbn. by rewrite Ec.
  - rewrite !csn_of_cons, IH. destruct (Z.eqb_spec (sid x) s) as [Es|]; [|done].
    rewrite <- Es. replace (sid x =? sid c) with false by (symmetry; apply Z.eqb_neq; lia). done.
Qed.

(** ** Sorting *)

(** The order of [csn_qsort_cmp]: by server, the newer first. *)
Definition csn_le (a b : text) : Prop := sid a < sid b \/ sid a = sid b /\ 0 <= cts a b.

Lemma qsort_cmp_normal a b : normal a -> normal b ->
  exists c, csn_qsort_cmp a b = Some c /\ (c <= 0 <-> csn_le a b) /\ (0 < c -> csn_le b a).
Proof.
  intros Ha Hb. unfold csn_qsort_cmp. rewrite compare_sr_sid by done. cbn [mbind option_bind].
  destruct (Z.eqb_spec (Z.sgn (sid a - sid b)) 0).
  - rewrite compare_ts_valid by by apply normal_valid. eexists. split; [done|].
    unfold csn_le. rewrite (cts_antisym a b). lia.
  - eexists. split; [done|]. unfold csn_le. lia.
Qed.

Lemma csn_le_trans a b c : normal a -> normal b -> normal c -> csn_le a b -> csn_le b c -> csn_le a c.
Proof.
  intros Ha Hb Hc [H1|[H1 H2]] [H3|[H3 H4]]; unfold csn_le; [lia..|]. right. split; [lia|].
  pose proof (cts_trans c b a) as Ht. rewrite (cts_antisym a c), (cts_antisym a b), (cts_antisym b c) in Ht.
  pose proof (Ht (normal_valid _ Hc) (normal_valid _ Hb) (normal_valid _ Ha) ltac:(lia) ltac:(lia)). lia.
Qed.

Lemma csn_insert_sorts x l :
  normal x -> Forall normal l -> StronglySorted csn_le l ->
  exists l', csn_insert x l = Some l' /\ l' ≡ₚ x :: l /\ StronglySorted csn_le l'.
Proof.
  intros Hx. induction l as [|y l IH]; intros Hn Hs.
  { exists [x]. split_and!; [done..|]. by repeat constructor. }
  pose proof Hn as [Hy Hl]%list.Forall_cons. pose proof Hs as [Hsl Hf]%StronglySorted_inv. cbn [csn_insert].
  destruct (qsort_cmp_normal x y Hx Hy) as (c & -> & Hle & Hgt). cbn [mbind option_bind]. case_if; zb.
  - exists (x :: y :: l). split_and!; [done..|]. constructor; [done|]. apply Hle in E. constructor; [done|].
    rewrite list.Forall_forall in Hf, Hl |- *. intros z Hz. apply (csn_le_trans x y z); auto.
  - destruct (IH Hl Hsl) as (r & -> & Hp & Hr). cbn [mbind option_bind]. exists (y :: r). split_and!; [done| |].
    + rewrite Hp. by apply Permutation_swap.
    + constructor; [done|]. rewrite Hp. constructor; [auto|done].
Qed.

Lemma csn_qsort_sorts l :
  Forall normal l -> exists l', csn_qsort l = Some l' /\ l' ≡ₚ l /\ StronglySorted csn_le l'.
Proof.
  intros Hl. induction Hl as [|x l Hx Hl IH].
  { exists []. split_and!; [done..|]. constructor. }
  destruct IH as (r & Er & Hp & Hs). cbn [csn_qsort]. rewrite Er. cbn [mbind option_bind].
  assert (Forall normal r) as Hr by by rewrite Hp.
  destruct (csn_insert_sorts x r Hx Hr Hs) as (l' & -> & Hp' & Hs'). exists l'. split_and!; [done| |done].
  by rewrite Hp', Hp.
Qed.

(** [csn_unique] keeps the first CSN of each server. *)
Lemma csn_unique_keeps x l :
  Forall normal (x :: l) -> StronglySorted csn_le (x :: l) ->
  exists l', csn_unique x l = Some l' /\ csns_ok (x :: l') /\ forall s, csn_of (x :: l') s = csn_of (x :: l) s.
Proof.
  revert x. induction l as [|r l IH]; intros x Hn Hs.
  { exists []. split_and!; [done| |done]. apply csns_ok_cons. split_and!; [by inversion Hn|done|apply csns_ok_nil]. }
  pose proof Hn as [Hx [Hr Hl]%list.Forall_cons]%list.Forall_cons.
  pose proof Hs as [Hs' [Hxr Hxl]%list.Forall_cons]%StronglySorted_inv. pose proof Hs' as [Hsl Hrl]%StronglySorted_inv.
  cbn [csn_unique]. rewrite compare_sr_sid by done. cbn [mbind option_bind].
  destruct (Z.eqb_spec (Z.sgn (sid x - sid r)) 0) as [E|E].
  - destruct (IH x) as (l' & -> & Hok & Hof); [by constructor|by constructor|].
    exists l'. split_and!; [done..|]. intros s. rewrite Hof, !csn_of_cons. case_if; [done|]. zb.
    replace (sid r =? s) with false by (symmetry; apply Z.eqb_neq; lia). done.
  - destruct (IH r) as (l' & -> & Hok & Hof); [by constructor|done|]. cbn [mbind option_bind].
    exists (r :: l'). split_and!; [done| |].
    + apply csns_ok_cons. split_and!; [done| |done]. apply csns_ok_cons in Hok as (_ & Hf & _).
      destruct Hxr as [Hxr|Hxr]; [|lia]. constructor; [done|].
      eapply list.Forall_impl; [exact Hf|]. unfold sid_lt. intros y Hy. lia.
    + intros s. rewrite csn_of_cons, (csn_of_cons x (r :: l)), Hof. done.
Qed.

(** In the sorted array the first CSN of a server is its newest. *)
Lemma csn_of_newest l s c : Forall normal l -> StronglySorted csn_le l ->
  csn_of l s = Some c <-> c ∈ l /\ sid c = s /\ forall c', c' ∈ l -> sid c' = s -> cts c' c <= 0.
Proof.
  intros Hn Hs. induction l as [|x l IH].
  { split; [done|]. intros (Hc & _). by apply not_elem_of_nil in Hc. }
  apply list.Forall_cons in Hn as [Hx Hl]. apply StronglySorted_inv in Hs as [Hs Hf]. rewrite list.Forall_forall in Hf.
  specialize (IH Hl Hs). rewrite csn_of_cons. case_if; zb.
  - split.
    + intros [= <-]. split_and!; [apply elem_of_cons; by left|done|].
      intros c' [->|Hc']%elem_of_cons Hs'; [by rewrite cts_refl|]. specialize (Hf c' Hc').
      rewrite (cts_antisym x c'). unfold csn_le in Hf. lia.
    + intros (Hc & Hsc & Hmax). f_equal. apply elem_of_cons in Hc as [->|Hc]; [done|].
      rewrite list.Forall_forall in Hl. apply normal_eq; [done|auto|congruence|].
      specialize (Hmax x ltac:(apply elem_of_cons; by left) E). specialize (Hf c Hc). unfold csn_le in Hf. lia.
  - rewrite IH. split; intros (Hc & Hsc & Hmax); split_and!; [apply elem_of_cons; by right|done| |..]; try done.
    + intros c' [->|Hc']%elem_of_cons Hs'; [congruence|auto].
    + apply elem_of_cons in Hc as [->|Hc]; [congruence|done].
    + intros c' Hc' Hs'. apply Hmax; [apply elem_of_cons; by right|done].
Qed.

(** What [slap_csns_validate_and_sort] leaves: the newest valid CSN of each
    server. *)
Lemma validate_and_sort_spec vals :
  forallb no_nul (until_empty vals) = true ->
  let good := filter (fun v => slap_csn_verify_full v = true) (until_empty vals) in
  Forall normal good ->
  exists l, slap_csns_validate_and_sort vals = Some (Z.of_nat (List.length l), l) /\ csns_ok l /\
    forall s c, csn_of l s = Some c <-> c ∈ good /\ sid c = s /\ forall c', c' ∈ good -> sid c' = s -> cts c' c <= 0.
Proof.
  intros Hnul good Hg. unfold slap_csns_validate_and_sort, ensure. rewrite Hnul. cbn [mbind option_bind]. fold good.
  destruct (csn_qsort_sorts good Hg) as (r & -> & Hp & Hs). cbn [mbind option_bind].
  assert (Forall normal r) as Hr by by rewrite Hp.
  assert (exists l, match r with [] => Some [] | x :: l => l ← csn_unique x l; Some (x :: l) end = Some l /\
    csns_ok l /\ forall s, csn_of l s = csn_of r s) as (l & -> & Hok & Hof).
  { destruct r as [|x r]; [exists []; split_and!; [done|apply csns_ok_nil|done]|].
    destruct (csn_unique_keeps x r Hr Hs) as (l' & -> & Hok & Hof). by exists (x :: l'). }
  cbn [mbind option_bind]. exists l. split_and!; [done..|]. intros s c. rewrite Hof, csn_of_newest by done.
  setoid_rewrite Hp. done.
Qed.

(** ** Comparing *)

Lemma template_no_nul xs cs : no_nul xs = true -> template_match xs cs = true -> no_nul cs = true.
Proof.
  revert cs. induction xs as [|x xs IH]; intros [|c cs]; cbn; try done.
  intros [Hx Hxs]%andb_true_iff [Hc Hcs]%andb_true_iff. rewrite IH by done. rewrite andb_true_r.
  assert (implb (ascii_code c =? 0) (Ascii.eqb c "000") = true) as Hz
    by (revert c Hc; intros c _; revert c; apply ascii_table; vm_compute; reflexivity).
  destruct (ascii_code c =? 0) eqn:E; [|done]. cbn in Hz. apply Ascii.eqb_eq in Hz as ->.
  pose proof (ascii_table (fun x => implb (template_ok x "000") (ascii_code x =? 0)) ltac:(vm_compute; reflexivity) x) as Ht.
  cbv beta in Ht. rewrite Hc in Ht. cbn [implb] in Ht. by rewrite Ht in Hx.
Qed.

Lemma valid_no_nul c : valid c -> no_nul c = true.
Proof. intros Hv%valid_template. apply (template_no_nul csn_template); [vm_compute; reflexivity|exact Hv]. Qed.

Lemma until_empty_valid l : Forall valid l -> until_empty l = l.
Proof.
  intros Hl. induction Hl as [|c l Hc Hl IH]; [done|]. apply valid_length in Hc. destruct c; [done|]. cbn. by rewrite IH.
Qed.

Lemma csns_valid l : csns_ok l -> Forall valid l.
Proof. intros [Hn _]. eapply list.Forall_impl; [exact Hn|apply normal_valid]. Qed.

Lemma csns_no_nul l : Forall valid l -> forallb no_nul l = true.
Proof. intros Hl. apply forallb_forall. intros c Hc%list_elem_of_In. rewrite list.Forall_forall in Hl. by apply valid_no_nul, Hl. Qed.

(** Every server of [base] is in [next], with a CSN at least as new. *)
Definition covers (next base : list text) : Prop :=
  forall s b, csn_of base s = Some b -> exists n, csn_of next s = Some n /\ cts b n <= 0.

Lemma covers_skip x next base : Forall (fun b => sid x < sid b) base -> covers (x :: next) base <-> covers next base.
Proof.
  intros Hf. assert (forall s b, csn_of base s = Some b -> csn_of (x :: next) s = csn_of next s) as He.
  { intros s b Hb. rewrite csn_of_cons. apply csn_of_Some in Hb as [Hb <-]. rewrite list.Forall_forall in Hf.
    specialize (Hf b Hb). cbn in Hf. case_if; [zb; lia|done]. }
  split; intros Hc s b Hb; destruct (Hc s b Hb) as (n & Hn & ?); exists n; (split; [|done]).
  - by rewrite <- (He s b).
  - by rewrite (He s b).
Qed.

Lemma covers_step x next y base :
  csns_ok (x :: next) -> csns_ok (y :: base) -> sid x = sid y ->
  covers (x :: next) (y :: base) <-> cts y x <= 0 /\ covers next base.
Proof.
  intros (Hx & Fx & Hn)%csns_ok_cons (Hy & Fy & Hb)%csns_ok_cons E.
  assert (forall s b, csn_of base s = Some b -> (sid x =? s) = false) as Hne.
  { intros s b [Hin <-]%csn_of_Some. rewrite list.Forall_forall in Fy. specialize (Fy b Hin). unfold sid_lt in Fy.
    apply Z.eqb_neq. lia. }
  split.
  - intros Hc. split.
    + destruct (Hc (sid y) y) as (n & Hn' & ?); [by rewrite csn_of_cons, Z.eqb_refl|].
      rewrite csn_of_cons, E, Z.eqb_refl in Hn'. by injection Hn' as <-.
    + intros s b Hs. pose proof (Hne s b Hs) as Hf. destruct (Hc s b) as (n & Hn' & ?).
      { rewrite csn_of_cons, <- E, Hf. done. }
      exists n. split; [|done]. by rewrite csn_of_cons, Hf in Hn'.
  - intros [Hxy Hc] s b. rewrite !csn_of_cons, E. case_if; [|apply Hc]. intros [= <-]. eauto.
Qed.

Lemma csns_compare_loop_spec n res next base :
  csns_ok next -> csns_ok base -> 1 <= n -> 0 <= res ->
  exists r, csns_compare_loop n res next base = Some r /\ (0 <= r <-> covers next base) /\
    (r = 0 <-> res = 0 /\ next = base).
Proof.
  revert n res base. induction next as [|x next IH]; intros n res base Hn Hb Hn1 Hres; cbn [csns_compare_loop].
  { eexists. split; [done|]. destruct base as [|y base].
    { split; [split; [intros _ s b; done|done]|tauto]. }
    unfold INT_MIN. split; [|split; [lia|by intros [_ ?]]]. split; [lia|]. intros Hc.
    destruct (Hc (sid y) y) as (? & ? & _); [by rewrite csn_of_cons, Z.eqb_refl|done]. }
  pose proof Hn as (Hx & Fx & Hn')%csns_ok_cons. unfold ensure.
  rewrite valid_no_nul by by apply normal_valid. cbn [mbind option_bind].
  destruct base as [|y base].
  { eexists. split; [done|]. unfold INT_MAX. split; [|split; [lia|by intros [_ ?]]]. split; [intros _ s b; done|lia]. }
  pose proof Hb as (Hy & Fy & Hb')%csns_ok_cons.
  rewrite valid_no_nul by by apply normal_valid. rewrite compare_sr_sid by done. cbn [mbind option_bind].
  assert (forall r, sid x < sid y \/ sid y < sid x -> r = 0 /\ x :: next = y :: base <-> False) as Hdiff.
  { intros r Hlt. split; [|done]. intros [_ [= -> ->]]. lia. }
  destruct (Z.sgn (sid x - sid y) >? 0) eqn:E1; [|destruct (Z.sgn (sid x - sid y) <? 0) eqn:E2]; zb.
  - eexists. split; [done|]. unfold INT_MIN. rewrite Hdiff by lia. split; [|lia]. split; [lia|]. intros Hc.
    destruct (Hc (sid y) y) as (m & Hm & _); [by rewrite csn_of_cons, Z.eqb_refl|].
    rewrite csn_of_above in Hm; [done|]. constructor; [lia|]. eapply list.Forall_impl; [exact Fx|].
    unfold sid_lt. intros z Hz. lia.
  - destruct (IH (n + 1) INT_MAX (y :: base)) as (r & -> & Hr1 & Hr2); [done..|lia|by unfold INT_MAX|].
    exists r. split; [done|]. rewrite Hdiff by lia. rewrite covers_skip.
    + split; [done|]. rewrite Hr2. unfold INT_MAX. lia.
    + constructor; [lia|]. eapply list.Forall_impl; [exact Fy|]. unfold sid_lt. intros z Hz. lia.
  - rewrite compare_ts_valid by by apply normal_valid. cbn [mbind option_bind].
    assert (sid x = sid y) as E by lia. pose proof (covers_step x next y base Hn Hb E) as Hcs.
    rewrite (cts_antisym x y) in Hcs. case_if; zb.
    + eexists. split; [done|]. rewrite Hcs. split; [lia|]. split; [lia|]. intros [_ [= -> _]]. rewrite cts_refl in *. lia.
    + destruct (IH (n + 1) (if negb (cts x y =? 0) && (res =? 0) then n else res) base) as (r & -> & Hr1 & Hr2);
        [done..|lia|case_if; lia|].
      exists r. split; [done|]. rewrite Hcs. split; [rewrite Hr1; split; [intros ?; split; [lia|done]|tauto]|].
      rewrite Hr2. destruct (Z.eqb_spec (cts x y) 0) as [E3|E3]; cbn [negb andb].
      * assert (x = y) as -> by by apply normal_eq. split; intros [? ?]; (split; [done|congruence]).
      * split; [case_if; zb; lia|]. intros [_ [= -> _]]. by rewrite cts_refl in E3.
Qed.

Lemma csns_compare_spec next base :
  csns_ok next -> csns_ok base ->
  exists r, slap_csns_compare next base = Some r /\ (0 <= r <-> covers next base) /\ (r = 0 <-> next = base).
Proof.
  intros Hn Hb. unfold slap_csns_compare. rewrite !until_empty_valid by by apply csns_valid.
  destruct (csns_compare_loop_spec 1 0 next base) as (r & -> & H1 & H2); [done..|].
  exists r. split; [done|]. split; [done|]. rewrite H2. tauto.
Qed.
End env.
