(* ===== verification/Cookie.v ===== *)
(** * Synchronisation cookies (servers/slapd/ldapsync.c)

    A cookie holds, for each server ID known, the latest CSN seen of it.  Its two
    arrays are the lists [ck_sids] and [ck_csns] of their first [numcsns] cells,
    in ascending order of the server ID. *)

From stdpp Require Import base list numbers option gmap.
From Stdlib Require Import Ascii String.
From S2P Require Import Prelude Text Quorum Csn.

Local Open Scope Z_scope.

Record sync_cookie := mkCookie {
  ck_rid : Z;
  ck_sid : Z;
  ck_sids : list Z;
  ck_csns : list text;
}.

Definition numcsns (ck : sync_cookie) : nat := List.length ck.(ck_csns).

Definition with_csns (ck : sync_cookie) (sids : list Z) (csns : list text) : sync_cookie :=
  mkCookie ck.(ck_rid) ck.(ck_sid) sids csns.

Definition slap_cookie_init : sync_cookie := mkCookie (-1) (-1) [] [].
Definition slap_cookie_clean_csns (ck : sync_cookie) : sync_cookie := with_csns ck [] [].
Definition slap_cookie_clean_all (ck : sync_cookie) : sync_cookie := slap_cookie_clean_csns (mkCookie (-1) (-1) ck.(ck_sids) ck.(ck_csns)).

Section env.
Context `{Env}.

(** The loop of [slap_cookie_verify] over the cells. *)
Fixpoint verify_cells (prev : option Z) (sids : list Z) (csns : list text) : bool :=
  match sids, csns with
  | [], [] => true
  | s :: sids, c :: csns =>
      slap_csn_verify_full c && (s =? slap_csn_get_sid c) && (0 <=? s) && (s <=? SLAP_SYNC_SID_MAX) &&
      match prev with None => true | Some p => p <? s end && verify_cells (Some s) sids csns
  | _, _ => false
  end.

Definition slap_cookie_verify (ck : sync_cookie) : bool := verify_cells None ck.(ck_sids) ck.(ck_csns).

(** [if (reopenldap_mode_check()) slap_cookie_verify(ck);] *)
Definition check_cookie (ck : sync_cookie) : option unit := ensure (negb mode_check || slap_cookie_verify ck).

Definition insert_at {A} (l : list A) (pos : nat) (x : A) : list A := take pos l ++ x :: drop pos l.

Definition slap_insert_csn_sids (ck : sync_cookie) (pos : nat) (sid : Z) (csn : text) : option sync_cookie :=
  let ck := with_csns ck (insert_at ck.(ck_sids) pos sid) (insert_at ck.(ck_csns) pos csn) in
  _ ← check_cookie ck; Some ck.

Fixpoint is_sid_here (sid : Z) (sids : list Z) : bool :=
  match sids with
  | [] => false
  | s :: sids => if sid =? s then true else if sid <? s then false else is_sid_here sid sids
  end.

Definition slap_cookie_is_sid_here (ck : sync_cookie) (sid : Z) : bool := is_sid_here sid ck.(ck_sids).

Definition slap_cookie_copy (src : sync_cookie) : option sync_cookie := _ ← check_cookie src; Some src.

(** The cookie moved to and the one moved from. *)
Definition slap_cookie_move (src : sync_cookie) : option (sync_cookie * sync_cookie) :=
  _ ← check_cookie src; Some (src, slap_cookie_init).

(** The index at which the search for [sid] stops, and whether it is there. *)
Fixpoint find_sid (sid : Z) (sids : list Z) : nat * bool :=
  match sids with
  | [] => (0%nat, false)
  | s :: sids =>
      if sid <? s then (0%nat, false) else if sid =? s then (0%nat, true)
      else let '(j, b) := find_sid sid sids in (S j, b)
  end.

(** [quorum_notify_csn] when there is a backend. *)
Definition notify_quorum (bd : option BackendDB) (sid : Z) : option (option BackendDB) :=
  match bd with
  | None => Some None
  | Some bd => bd ← quorum_notify_csn bd sid; Some (Some bd)
  end.

(** [if (lead < 0 || slap_csn_compare_ts(&dst->ctxcsn[j], &dst->ctxcsn[lead]) > 0) lead = j] *)
Definition new_lead (csns : list text) (lead : Z) (j : nat) : option Z :=
  if lead <? 0 then Some (Z.of_nat j) else
  x ← csns !! j; y ← csns !! Z.to_nat lead; c ← slap_csn_compare_ts x y;
  Some (if c >? 0 then Z.of_nat j else lead).

(** One CSN of the source. *)
Definition merge_one (bd : option BackendDB) (dst : sync_cookie) (lead sid : Z) (csn : text)
  : option (Z * sync_cookie * option BackendDB) :=
  match find_sid sid dst.(ck_sids) with
  | (j, true) =>
      old ← dst.(ck_csns) !! j;
      c ← slap_csn_compare_ts csn old;
      if c >? 0 then
        let dst := with_csns dst dst.(ck_sids) (<[j := csn]> dst.(ck_csns)) in
        lead ← new_lead dst.(ck_csns) lead j; Some (lead, dst, bd)
      else Some (lead, dst, bd)
  | (j, false) =>
      dst ← slap_insert_csn_sids dst j sid csn;
      bd ← notify_quorum bd sid;
      lead ← new_lead dst.(ck_csns) lead j; Some (lead, dst, bd)
  end.

Fixpoint merge_loop (bd : option BackendDB) (dst : sync_cookie) (lead : Z) (sids : list Z) (csns : list text)
  : option (Z * sync_cookie * option BackendDB) :=
  match sids, csns with
  | s :: sids, c :: csns =>
      '(lead, dst, bd) ← merge_one bd dst lead s c; merge_loop bd dst lead sids csns
  | _, _ => Some (lead, dst, bd)
  end.

Definition slap_cookie_merge (bd : option BackendDB) (dst src : sync_cookie)
  : option (Z * sync_cookie * option BackendDB) :=
  _ ← check_cookie dst; _ ← check_cookie src;
  '(lead, dst, bd) ← merge_loop bd dst (-1) src.(ck_sids) src.(ck_csns);
  _ ← (if lead >? -1 then check_cookie dst else Some tt);
  Some (lead, dst, bd).

Definition slap_cookie_fetch (dst : sync_cookie) (src : list text) : option sync_cookie :=
  _ ← slap_csns_length src;
  sids ← slap_csns_parse_sids src;
  let dst := with_csns dst sids (until_empty src) in
  _ ← check_cookie dst; Some dst.

(** [slap_cookie_pull]; [None] for [src] is the null array. *)
Definition slap_cookie_pull (dst : sync_cookie) (src : option (list text)) : option (Z * sync_cookie) :=
  src ← match src with None => Some [] | Some l => '(_, l) ← slap_csns_validate_and_sort l; Some l end;
  vector ← slap_csns_compare src dst.(ck_csns);
  dst ← (if vector >? 0 then slap_cookie_fetch dst src else Some dst);
  _ ← check_cookie dst;
  Some (vector, dst).

Definition slap_cookie_merge_csn (bd : option BackendDB) (dst : sync_cookie) (sid : Z) (src : text)
  : option (Z * sync_cookie * option BackendDB) :=
  if negb (slap_csn_verify_full src) then Some (-1, dst, bd) else
  _ ← check_cookie dst;
  let sid := if sid <? 0 then slap_csn_get_sid src else sid in
  if sid <? 0 then Some (-1, dst, bd) else
  match find_sid sid dst.(ck_sids) with
  | (i, true) =>
      old ← dst.(ck_csns) !! i;
      vector ← slap_csn_compare_ts src old;
      Some (vector, if vector >? 0 then with_csns dst dst.(ck_sids) (<[i := src]> dst.(ck_csns)) else dst, bd)
  | (i, false) =>
      dst ← slap_insert_csn_sids dst i sid src;
      bd ← notify_quorum bd sid;
      Some (1, dst, bd)
  end.

Definition slap_cookie_compare_csn (ck : sync_cookie) (csn : text) : option Z :=
  if negb (slap_csn_verify_full csn) then Some (-1) else
  let sid := slap_csn_get_sid csn in
  if sid <? 0 then Some (-1) else
  match find_sid sid ck.(ck_sids) with
  | (i, true) => old ← ck.(ck_csns) !! i; slap_csn_compare_ts csn old
  | (_, false) => Some 1
  end.

Fixpoint merge_csnset_loop (bd : option BackendDB) (dst : sync_cookie) (rc : Z) (src : list text)
  : option (Z * sync_cookie * option BackendDB) :=
  match src with
  | [] => Some (rc, dst, bd)
  | csn :: src =>
      _ ← ensure (no_nul csn);
      '(vector, dst, bd) ← slap_cookie_merge_csn bd dst (-1) csn;
      merge_csnset_loop bd dst (if vector >? 0 then vector else if rc =? 0 then vector else rc) src
  end.

Definition slap_cookie_merge_csnset (bd : option BackendDB) (dst : sync_cookie) (src : list text)
  : option (Z * sync_cookie * option BackendDB) :=
  _ ← check_cookie dst; merge_csnset_loop bd dst 0 (until_empty src).

(** The search of [slap_cookie_compare_csnset] for one CSN: [inl] is what the
    function returns, [inr] the new [vector]. *)
Fixpoint compare_one (vector sid : Z) (next : text) (sids : list Z) (csns : list text) : option (Z + Z) :=
  match sids, csns with
  | s :: sids, c :: csns =>
      if sid <? s then Some (inl 1)
      else if sid =? s then
        vector ← slap_csn_compare_ts next c;
        Some (if vector >? 0 then inl vector else inr vector)
      else compare_one vector sid next sids csns
  | _, _ => Some (inr vector)
  end.

Fixpoint compare_csnset_loop (base : sync_cookie) (vector : Z) (next : list text) : option Z :=
  match next with
  | [] => Some vector
  | csn :: next =>
      _ ← ensure (no_nul csn);
      let sid := slap_csn_get_sid csn in
      if sid <? 0 then compare_csnset_loop base (-1) next else
      r ← compare_one vector sid csn base.(ck_sids) base.(ck_csns);
      match r with
      | inl v => Some v
      | inr vector => compare_csnset_loop base vector next
      end
  end.

Definition slap_cookie_compare_csnset (base : sync_cookie) (next : list text) : option Z :=
  _ ← check_cookie base; compare_csnset_loop base 0 (until_empty next).

(** ** Text form *)

Definition stub_csn (serverID : Z) : text :=
  kw "19000101000000.000000Z#000000#" ++ fmt_pad 16 3 serverID ++ kw "#000000".

Definition slap_cookie_stubself (serverID : Z) (dst : sync_cookie) : option (Z * sync_cookie) :=
  if existsb (Z.eqb serverID) dst.(ck_sids) then Some (0, dst) else
  '(rc, dst, _) ← slap_cookie_merge_csn None dst serverID (stub_csn serverID);
  Some (rc, dst).

(** The values joined with semicolons. *)
Fixpoint join_csns (csns : list text) : text :=
  match csns with
  | [] => []
  | [c] => c
  | c :: csns => c ++ ";"%char :: join_csns csns
  end.

(** [slap_cookie_compose]; [None] for [csns] is the null array. *)
Definition slap_cookie_compose (csns : option (list text)) (rid sid : Z) : option text :=
  let buf := if rid >=? 0 then kw "rid=" ++ fmt_pad 10 3 rid else [] in
  let comma buf := match buf with [] => [] | _ => [","%char] end in
  let buf := if sid >=? 0 then buf ++ comma buf ++ kw "sid=" ++ fmt_pad 16 3 sid else buf in
  match csns with
  | None | Some [] => Some buf
  | Some csns =>
      let csns := until_empty csns in
      _ ← ensure (forallb no_nul csns);
      match csns with
      | [] => Some (buf ++ comma buf ++ kw "csn")
      | _ => Some (buf ++ comma buf ++ kw "csn=" ++ join_csns csns)
      end
  end.

(** Parsing: the code with the cookie, an overflow of [int], or no fuel left. *)
Inductive presult := PDone (rc : Z) (ck : sync_cookie) | PUndef | PFuel.

Definition LDAP_PROTOCOL_ERROR : Z := 2.
Definition bailout : presult := PDone LDAP_PROTOCOL_ERROR slap_cookie_init.

Fixpoint strip_prefix (p s : text) : option text :=
  match p, s with
  | [], s => Some s
  | x :: p, y :: s => if Ascii.eqb x y then strip_prefix p s else None
  | _, [] => None
  end.

(** The pieces the semicolons and commas make of what follows "csn=". *)
Fixpoint split_csns (cur s : text) : list text :=
  match s with
  | [] => [reverse cur]
  | c :: s' =>
      if Ascii.eqb c ";" || Ascii.eqb c ","
      then match s' with [] => [reverse cur] | _ => reverse cur :: split_csns [] s' end
      else split_csns (c :: cur) s'
  end.

(** Whether the schema has the attribute entryCSN yet. *)
Variable entryCSN : bool.

Definition oldest_csn : text := kw "19000101000000.000000Z#000000#000#000000".

(** What is valid is a CSN of today's format, which [csnNormalize] never refuses and
    for which it asserts nothing. *)
Definition parse_piece (piece : text) : option text :=
  let csn := if entryCSN && csnValidate piece
             then match csnNormalize piece with Some (Some bv) => bv | _ => piece end else piece in
  if slap_csn_verify_full csn then Some csn
  else if mode_strict then None else Some oldest_csn.

(** A number that ends at a comma or at the end: [inl] is where to go on. *)
Definition parse_number (s : text) (base limit : Z) : option (option (Z * text)) :=
  '(v, next) ← strntoi s (List.length s) base;
  Some (if Nat.eqb (List.length next) (List.length s) || (v <? 0) || (v >? limit) then None else
        match next with
        | [] => Some (v, [])
        | c :: rest => if Ascii.eqb c "," then Some (v, rest) else None
        end).

Definition parse_finish (dst : sync_cookie) : presult :=
  if dst.(ck_rid) <? 0 then bailout else
  match dst.(ck_csns) with
  | [] => PDone LDAP_SUCCESS dst
  | csns =>
      match slap_csns_validate_and_sort csns with
      | None => PUndef
      | Some (n, l) =>
          if Z.of_nat (numcsns dst) =? n then
            match slap_csns_parse_sids l with
            | None => PUndef
            | Some sids =>
                let dst := with_csns dst sids l in
                match check_cookie dst with Some _ => PDone LDAP_SUCCESS dst | None => PUndef end
            end
          else bailout
      end
  end.

Fixpoint parse_loop (fuel : nat) (dst : sync_cookie) (next : text) : presult :=
  match fuel with
  | O => PFuel
  | S fuel =>
      match next with
      | [] => parse_finish dst
      | c :: rest =>
          match strip_prefix (kw "rid=") next with
          | Some s =>
              match parse_number s 10 SLAP_SYNC_RID_MAX with
              | None => PUndef
              | Some None => bailout
              | Some (Some (v, next)) =>
                  parse_loop fuel (mkCookie v dst.(ck_sid) dst.(ck_sids) dst.(ck_csns)) next
              end
          | None =>
              match strip_prefix (kw "sid=") next with
              | Some s =>
                  match parse_number s 16 SLAP_SYNC_SID_MAX with
                  | None => PUndef
                  | Some None => bailout
                  | Some (Some (v, next)) =>
                      parse_loop fuel (mkCookie dst.(ck_rid) v dst.(ck_sids) dst.(ck_csns)) next
                  end
              | None =>
                  match strip_prefix (kw "csn=") next with
                  | Some s =>
                      match mapM parse_piece (split_csns [] s) with
                      | None => bailout
                      | Some csns => parse_finish (with_csns dst dst.(ck_sids) (dst.(ck_csns) ++ csns))
                      end
                  | None => if Ascii.eqb c " " then parse_loop fuel dst rest else bailout
                  end
              end
          end
      end
  end.

(** [None] for [src] is the null pointer. *)
Definition slap_cookie_parse (dst : sync_cookie) (src : option text) : presult :=
  let dst := slap_cookie_clean_all dst in
  match src with
  | None | Some [] => PDone LDAP_SUCCESS dst
  | Some src =>
      if Z.of_nat (List.length src) <=? 4 then bailout
      else if negb (no_nul src) then bailout
      else parse_loop (S (List.length src)) dst src
  end.
End env.
