(* ===== verification/CookieFacts.v ===== *)
(** * Cookies as maps

    The operations on a well-formed cookie are stores into the map from server
    IDs to CSNs; with each, no assertion fails. *)

From stdpp Require Import base list numbers option gmap sorting.
From Stdlib Require Import Ascii String.
From S2P Require Import Prelude Text Quorum Csn CsnFacts Cookie.

Local Open Scope Z_scope.

Section env.
Context `{Env}.

Definition cookie_ok (ck : sync_cookie) : Prop :=
  csns_ok ck.(ck_csns) /\ ck.(ck_sids) = sid <$> ck.(ck_csns).

(** A cookie with other CSNs. *)
Definition cookie_with (ck : sync_cookie) (l : list text) : sync_cookie := with_csns ck (sid <$> l) l.

Lemma cookie_with_same ck : cookie_ok ck -> cookie_with ck ck.(ck_csns) = ck.
Proof. intros [_ E]. unfold cookie_with. rewrite <- E. by destruct ck. Qed.

Lemma cookie_with_ok ck l : csns_ok l -> cookie_ok (cookie_with ck l).
Proof. done. Qed.

Lemma verify_cells_ok prev l : csns_ok l -> (forall p, prev = Some p -> Forall (fun c => p < sid c) l) ->
  verify_cells prev (sid <$> l) l = true.
Proof.
  revert prev. induction l as [|c l IH]; intros prev Hok Hp; [done|].
  apply csns_ok_cons in Hok as (Hc & Hf & Hl). cbn [fmap list_fmap verify_cells].
  pose proof (normal_valid c Hc) as Hv. pose proof (sid_range c Hv). unfold valid in Hv. rewrite Hv.
  fold (sid c). rewrite Z.eqb_refl. cbn [andb].
  rewrite (proj2 (Z.leb_le _ _)) by lia. rewrite (proj2 (Z.leb_le _ _)) by lia. cbn [andb].
  apply andb_true_iff. split.
  - destruct prev as [p|]; [|done]. specialize (Hp p eq_refl). apply list.Forall_cons in Hp as [Hp _]. by apply Z.ltb_lt.
  - apply IH; [done|]. by intros p [= <-].
Qed.

Lemma check_cookie_ok ck : cookie_ok ck -> check_cookie ck = Some tt.
Proof.
  intros [Hok E]. unfold check_cookie, slap_cookie_verify, ensure. rewrite E, verify_cells_ok by done.
  by rewrite orb_true_r.
Qed.

(** ** Finding and storing *)

Lemma csn_put_keeps c l i m : l !! i = Some m -> sid m < sid c -> csns_ok l -> csn_put c l !! i = Some m.
Proof.
  revert i. induction l as [|x l IH]; intros i Hi Hlt Hok; [done|].
  apply csns_ok_cons in Hok as (_ & Hf & Hl). rewrite list.Forall_forall in Hf. cbn [csn_put].
  assert (sid x <= sid m) as Hle.
  { destruct i as [|i]; cbn in Hi; [injection Hi as ->; lia|].
    apply list_elem_of_lookup_2 in Hi. specialize (Hf m Hi). unfold sid_lt in Hf. lia. }
  replace (sid c <? sid x) with false by (symmetry; apply Z.ltb_ge; lia).
  replace (sid c =? sid x) with false by (symmetry; apply Z.eqb_neq; lia).
  destruct i as [|i]; [done|]. cbn in *. by apply IH.
Qed.

(** The CSN would be stored. *)
Definition gained (l : list text) (c : text) : bool :=
  match csn_of l (sid c) with None => true | Some x => cts c x >? 0 end.

Lemma put_not_gained c l : csns_ok l -> gained l c = false -> csn_put c l = l.
Proof.
  unfold gained. induction l as [|x l IH]; intros Hok; [done|].
  apply csns_ok_cons in Hok as (_ & Hf & Hl). rewrite csn_of_cons, (Z.eqb_sym (sid x)). cbn [csn_put].
  destruct (Z.ltb_spec (sid c) (sid x)); [|destruct (Z.eqb_spec (sid c) (sid x))].
  - replace (sid c =? sid x) with false by (symmetry; apply Z.eqb_neq; lia).
    rewrite csn_of_above; [done|]. eapply list.Forall_impl; [exact Hf|]. unfold sid_lt. intros y Hy. lia.
  - by intros ->.
  - intros Hg. by rewrite IH.
Qed.

Lemma gained_other l c x : csns_ok l -> sid c <> sid x -> gained (csn_put x l) c = gained l c.
Proof. intros Hok Hne. unfold gained. rewrite csn_of_put by done. by case_if; [zb|]. Qed.

(** Where [find_sid] stops. *)
Lemma find_sid_spec c l :
  csns_ok l ->
  match find_sid (sid c) (sid <$> l) with
  | (j, true) => exists x, l !! j = Some x /\ csn_of l (sid c) = Some x /\
      csn_put c l = (if cts c x >? 0 then <[j := c]> l else l) /\
      (sid <$> <[j := c]> l) = sid <$> l
  | (j, false) => csn_of l (sid c) = None /\ insert_at l j c = csn_put c l /\
      insert_at (sid <$> l) j (sid c) = sid <$> csn_put c l /\ csn_put c l !! j = Some c
  end.
Proof.
  induction l as [|x l IH]; intros Hok; [done|].
  apply csns_ok_cons in Hok as (_ & Hf & Hl). specialize (IH Hl). cbn [fmap list_fmap find_sid csn_put].
  rewrite csn_of_cons, (Z.eqb_sym (sid x)).
  destruct (Z.ltb_spec (sid c) (sid x)); [|destruct (Z.eqb_spec (sid c) (sid x)) as [E|E]].
  - replace (sid c =? sid x) with false by (symmetry; apply Z.eqb_neq; lia).
    split_and!; [|done..]. apply csn_of_above. eapply list.Forall_impl; [exact Hf|]. unfold sid_lt. intros y Hy. lia.
  - exists x. split_and!; [done..| |]; [by case_if|]. cbn. by rewrite E.
  - destruct (find_sid (sid c) (sid <$> l)) as [j []].
    + destruct IH as (y & H1 & H2 & H3 & H4). exists y. split_and!; [done..| |]; [rewrite H3; by case_if|]. cbn. by f_equal.
    + destruct IH as (H1 & H2 & H3 & H4). unfold insert_at in *. cbn. split_and!; [done| | |done]; by f_equal.
Qed.

Lemma notify_quorum_total bd s : 0 <= s <= SLAP_SYNC_SID_MAX -> exists bd', notify_quorum bd s = Some bd'.
Proof.
  intros Hs. destruct bd as [bd|]; [|by eexists]. cbn. unfold quorum_notify_csn.
  replace ((s >? -1) && (s <=? SLAP_SYNC_SID_MAX)) with true
    by (symmetry; apply andb_true_iff; rewrite Z.gtb_lt, Z.leb_le; lia).
  destruct (bd_quorum bd) as [q|]; [|by eexists]. case_if; [|by eexists]. unfold require_append.
  assert (require_id_ok (Z.lor QR_VOTED_SID QR_FLAG_AUTO) s = true) as ->.
  { unfold require_id_ok. change (QR_IS_SID _) with true. apply andb_true_iff. rewrite Z.gtb_lt, Z.leb_le. lia. }
  destruct (require_match _ _ _) as [[b r]|]; cbn; [destruct b|]; by eexists.
Qed.

(** ** One CSN *)

Lemma insert_csn_ok ck j c :
  cookie_ok ck -> normal c -> find_sid (sid c) ck.(ck_sids) = (j, false) ->
  slap_insert_csn_sids ck j (sid c) c = Some (cookie_with ck (csn_put c ck.(ck_csns))).
Proof.
  intros [Hok E] Hc Hf. rewrite E in Hf. pose proof (find_sid_spec c (ck_csns ck) Hok) as Hs. rewrite Hf in Hs.
  destruct Hs as (_ & H1 & H2 & _). unfold slap_insert_csn_sids. rewrite E, H1, H2. fold (cookie_with ck (csn_put c (ck_csns ck))).
  rewrite check_cookie_ok; [done|]. apply cookie_with_ok. by apply csn_put_ok.
Qed.

(** [slap_cookie_merge_csn] with a CSN and its server ID, given or read. *)
Lemma merge_csn_ok bd ck s c :
  cookie_ok ck -> normal c -> s < 0 \/ s = sid c ->
  exists bd' r, slap_cookie_merge_csn bd ck s c = Some (r, cookie_with ck (csn_put c ck.(ck_csns)), bd') /\
    r = match csn_of ck.(ck_csns) (sid c) with None => 1 | Some x => cts c x end.
Proof.
  intros Hok Hc Hs. unfold slap_cookie_merge_csn. pose proof (normal_valid c Hc) as Hv.
  pose proof (sid_range c Hv) as Hr. unfold valid in Hv. rewrite Hv. cbn [negb]. rewrite check_cookie_ok by done.
  cbn [mbind option_bind]. replace (if s <? 0 then slap_csn_get_sid c else s) with (sid c)
    by (case_if; zb; [done|lia]).
  replace (sid c <? 0) with false by (symmetry; apply Z.ltb_ge; lia).
  pose proof Hok as [Hl E]. pose proof (find_sid_spec c (ck_csns ck) Hl) as Hf. rewrite <- E in Hf.
  destruct (find_sid (sid c) (ck_sids ck)) as [j []] eqn:Ef.
  - destruct Hf as (x & H1 & H2 & H3 & H4). rewrite H1, H2. cbn [mbind option_bind].
    rewrite compare_ts_valid; [|done|].
    2: { apply list_elem_of_lookup_2 in H1. pose proof (csns_valid _ Hl) as Hv'. rewrite list.Forall_forall in Hv'. auto. }
    cbn [mbind option_bind]. eexists bd, _. split; [|done]. rewrite H3. f_equal. f_equal. f_equal.
    case_if; [|by rewrite cookie_with_same]. unfold cookie_with. by rewrite H4, E.
  - destruct Hf as (-> & _). rewrite insert_csn_ok by done. cbn [mbind option_bind].
    destruct (notify_quorum_total bd (sid c) Hr) as [bd' ->]. cbn [mbind option_bind]. by eexists bd', _.
Qed.

(** [merge_one]: the lead moves to the new CSN when it is the most recent. *)
Lemma merge_one_ok bd ck lead c :
  cookie_ok ck -> normal c ->
  (0 <= lead -> exists m, ck.(ck_csns) !! Z.to_nat lead = Some m /\ sid m < sid c) ->
  exists bd' lead', merge_one bd ck lead (sid c) c = Some (lead', cookie_with ck (csn_put c ck.(ck_csns)), bd') /\
    if gained ck.(ck_csns) c
    then lead' = lead /\ 0 <= lead /\
           (exists m, csn_put c ck.(ck_csns) !! Z.to_nat lead = Some m /\ cts c m <= 0) \/
         0 <= lead' /\ csn_put c ck.(ck_csns) !! Z.to_nat lead' = Some c /\
           (0 <= lead -> exists m, ck.(ck_csns) !! Z.to_nat lead = Some m /\ cts m c <= 0)
    else lead' = lead.
Proof.
  intros Hok Hc Hlead. pose proof Hok as [Hl E]. pose proof (normal_valid c Hc) as Hv. unfold merge_one, gained.
  pose proof (csns_valid _ Hl) as Hvl. rewrite list.Forall_forall in Hvl.
  pose proof (find_sid_spec c (ck_csns ck) Hl) as Hf. rewrite <- E in Hf.
  assert (forall j, csn_put c (ck_csns ck) !! j = Some c ->
    exists lead', new_lead (csn_put c (ck_csns ck)) lead j = Some lead' /\
      (lead' = lead /\ 0 <= lead /\ (exists m, csn_put c (ck_csns ck) !! Z.to_nat lead = Some m /\ cts c m <= 0) \/
       0 <= lead' /\ csn_put c (ck_csns ck) !! Z.to_nat lead' = Some c /\
         (0 <= lead -> exists m, ck_csns ck !! Z.to_nat lead = Some m /\ cts m c <= 0))) as Hnew.
  { intros j Hj. unfold new_lead. case_if; zb.
    - eexists. split; [done|]. right. rewrite Nat2Z.id. split_and!; [lia|done|lia].
    - destruct (Hlead E0) as (m & Hm & Hlt). pose proof (csn_put_keeps c _ _ m Hm Hlt Hl) as Hm'.
      rewrite Hj, Hm'. cbn [mbind option_bind]. rewrite compare_ts_valid; [|done|by eapply Hvl, list_elem_of_lookup_2].
      cbn [mbind option_bind]. eexists. split; [done|]. case_if; zb.
      + right. rewrite Nat2Z.id. split_and!; [lia|done|]. intros _. exists m. split; [done|].
        rewrite (cts_antisym c m). lia.
      + left. split_and!; [done..|]. exists m. split; [done|lia]. }
  destruct (find_sid (sid c) (ck_sids ck)) as [j []] eqn:Ef.
  - destruct Hf as (x & H1 & H2 & H3 & H4). rewrite H1, H2. cbn [mbind option_bind].
    rewrite compare_ts_valid; [|done|by eapply Hvl, list_elem_of_lookup_2]. cbn [mbind option_bind].
    destruct (cts c x >? 0) eqn:Eg.
    + cbn [ck_csns with_csns]. rewrite <- H3. destruct (Hnew j) as (lead' & -> & Hl').
      { rewrite H3. apply list_lookup_insert_eq. by eapply lookup_lt_Some. }
      cbn [mbind option_bind]. exists bd, lead'. split; [|done]. unfold cookie_with. by rewrite H3, H4.
    + exists bd, lead. split; [|done]. rewrite H3. by rewrite cookie_with_same.
  - destruct Hf as (-> & H1 & H2 & H3). rewrite insert_csn_ok by done. cbn [mbind option_bind].
    destruct (notify_quorum_total bd (sid c) (sid_range c Hv)) as [bd' ->]. cbn [mbind option_bind].
    cbn [ck_csns cookie_with with_csns]. destruct (Hnew j H3) as (lead' & -> & Hl').
    cbn [mbind option_bind]. by exists bd', lead'.
Qed.

(** ** Merging *)

(** Storing all of [src]. *)
Definition csn_puts (src l : list text) : list text := fold_left (fun l c => csn_put c l) src l.

Lemma csn_puts_ok src l : Forall normal src -> csns_ok l -> csns_ok (csn_puts src l).
Proof. intros Hs. revert l. induction Hs as [|c src Hc Hs IH]; intros l Hl; [done|]. by apply IH, csn_put_ok. Qed.

Lemma csn_of_puts src l s : csns_ok src -> csns_ok l ->
  csn_of (csn_puts src l) s = newer (csn_of l s) (csn_of src s).
Proof.
  revert l. induction src as [|c src IH]; intros l Hs Hl.
  { change (csn_puts [] l) with l. by destruct (csn_of l s). }
  apply csns_ok_cons in Hs as (Hc & Hf & Hs). unfold csn_puts. cbn [fold_left]. fold (csn_puts src (csn_put c l)).
  rewrite IH, csn_of_put by (done || by apply csn_put_ok). rewrite csn_of_cons, (Z.eqb_sym s). case_if; [|done].
  zb. subst s. rewrite (csn_of_above src) by exact Hf. by destruct (csn_of l (sid c)).
Qed.

(** The entry the lead names, when there is one. *)
Definition lead_at (l : list text) (lead : Z) : option text := if lead <? 0 then None else l !! Z.to_nat lead.

(** The lead names the most recent of what the cookie gained. *)
Definition is_lead (l src l' : list text) (m0 : option text) (lead' : Z) : Prop :=
  (lead' = -1 /\ m0 = None /\ forall c, c ∈ src -> gained l c = false) \/
  (exists m, 0 <= lead' /\ l' !! Z.to_nat lead' = Some m /\
     (m0 = Some m \/ m ∈ src /\ gained l m = true) /\
     (forall x, m0 = Some x -> cts x m <= 0) /\
     (forall c, c ∈ src -> gained l c = true -> cts c m <= 0)).

(** The lead after the first CSN, and after the others. *)
Lemma is_lead_step l c src l1 l' m0 m1 lead' :
  valid c -> Forall valid src -> (forall m, m0 = Some m -> valid m) ->
  (forall x, x ∈ src -> gained l1 x = gained l x) ->
  (gained l c = false /\ m1 = m0) \/
  (gained l c = true /\ m1 = m0 /\ exists m, m0 = Some m /\ cts c m <= 0) \/
  (gained l c = true /\ m1 = Some c /\ forall m, m0 = Some m -> cts m c <= 0) ->
  is_lead l1 src l' m1 lead' -> is_lead l (c :: src) l' m0 lead'.
Proof.
  intros Hc Hv Hv0 Hg Hrel Hlead. rewrite list.Forall_forall in Hv. unfold is_lead.
  destruct Hlead as [(-> & Hm1 & Hno)|(m & H0 & Hm & Hfrom & Hm1 & Hsrc)].
  - left. destruct Hrel as [[Hgc ->]|[(_ & -> & m & Hm & _)|(_ & -> & _)]]; [|congruence|congruence].
    split_and!; [done..|]. intros x [->|Hx]%elem_of_cons; [done|]. rewrite <- Hg by done. auto.
  - right. exists m. assert (valid m) as Hvm.
    { destruct Hfrom as [->|[Hin _]]; [|auto]. destruct Hrel as [[_ E]|[(_ & E & _)|(_ & E & _)]]; [auto..|congruence]. }
    split_and!; [done..| | |].
    + destruct Hfrom as [->|[Hin Hgm]]; [|right; split; [apply elem_of_cons; by right|by rewrite <- Hg]].
      destruct Hrel as [[_ E]|[(_ & E & _)|(Hgc & [= ->] & _)]]; [by left..|]. right. split; [apply elem_of_cons; by left|done].
    + intros x ->. destruct Hrel as [[_ E]|[(_ & E & _)|(_ & -> & Hx)]]; [auto..|].
      apply (cts_trans x c m); auto.
    + intros x [->|Hx]%elem_of_cons Hgx; [|apply Hsrc; [done|by rewrite Hg]].
      destruct Hrel as [[E _]|[(_ & -> & m' & E & Hle)|(_ & -> & _)]]; [congruence| |auto].
      apply (cts_trans c m' m); auto.
Qed.

Lemma merge_loop_ok bd ck lead src :
  cookie_ok ck -> csns_ok src -> lead = -1 \/ 0 <= lead ->
  (0 <= lead -> exists m, ck.(ck_csns) !! Z.to_nat lead = Some m /\ Forall (fun c => sid m < sid c) src) ->
  exists bd' lead', merge_loop bd ck lead (sid <$> src) src = Some (lead', cookie_with ck (csn_puts src ck.(ck_csns)), bd') /\
    is_lead ck.(ck_csns) src (csn_puts src ck.(ck_csns)) (lead_at ck.(ck_csns) lead) lead'.
Proof.
  revert bd ck lead. induction src as [|c src IH]; intros bd ck lead Hok Hs Hl1 Hl2.
  { exists bd, lead. cbn. rewrite cookie_with_same by done. split; [done|]. unfold is_lead, lead_at. case_if; zb.
    - left. split_and!; [lia|done|]. intros c Hc. by apply not_elem_of_nil in Hc.
    - right. destruct (Hl2 E) as (m & Hm & _). exists m. split_and!; [done|done|by left| |].
      + intros x. rewrite Hm. intros [= ->]. by rewrite cts_refl.
      + intros c Hc. by apply not_elem_of_nil in Hc. }
  apply csns_ok_cons in Hs as (Hc & Hf & Hs). cbn [fmap list_fmap merge_loop].
  destruct (merge_one_ok bd ck lead c Hok Hc) as (bd1 & lead1 & -> & H1).
  { intros H0. destruct (Hl2 H0) as (m & Hm & [? _]%list.Forall_cons). eauto. }
  cbn [mbind option_bind]. set (ck1 := cookie_with ck (csn_put c (ck_csns ck))).
  assert (cookie_ok ck1) as Hok1 by (apply cookie_with_ok, csn_put_ok; [done|apply Hok]).
  assert (forall m, ck_csns ck !! Z.to_nat lead = Some m -> 0 <= lead -> sid m < sid c /\ ck_csns ck1 !! Z.to_nat lead = Some m) as Hkeep.
  { intros m Hm H0. destruct (Hl2 H0) as (m' & Hm' & [? _]%list.Forall_cons). rewrite Hm in Hm'. injection Hm' as <-.
    split; [done|]. by apply csn_put_keeps; [..|apply Hok]. }
  assert (forall x, x ∈ src -> gained (ck_csns ck1) x = gained (ck_csns ck) x) as Hg.
  { intros x Hx. apply gained_other; [apply Hok|]. rewrite list.Forall_forall in Hf. specialize (Hf x Hx). unfold sid_lt in Hf. lia. }
  destruct (IH bd1 ck1 lead1) as (bd' & lead' & E' & Hlead); [done|done| | |].
  { destruct (gained (ck_csns ck) c); [|by subst]. destruct H1 as [(-> & ? & _)|(? & _)]; by right. }
  { intros H0. assert (forall m, sid m <= sid c -> Forall (fun x => sid m < sid x) src) as Hbelow.
    { intros m Hm. eapply list.Forall_impl; [exact Hf|]. unfold sid_lt. intros x Hx. lia. }
    assert (lead1 = lead -> exists m, ck_csns ck1 !! Z.to_nat lead1 = Some m /\ Forall (fun x => sid m < sid x) src) as Hsame.
    { intros ->. destruct (Hl2 H0) as (m & Hm & _). destruct (Hkeep m Hm H0). exists m. split; [done|]. apply Hbelow. lia. }
    destruct (gained (ck_csns ck) c); [|auto].
    destruct H1 as [(-> & _)|(_ & Hc1 & _)]; [auto|]. exists c. split; [exact Hc1|]. by apply Hbelow. }
  exists bd', lead'. split; [exact E'|]. clear E' IH.
  change (ck_csns ck1) with (csn_put c (ck_csns ck)) in *.
  unfold csn_puts. cbn [fold_left]. fold (csn_puts src (csn_put c (ck_csns ck))).
  pose proof (csns_valid _ (proj1 Hok)) as Hvl. rewrite list.Forall_forall in Hvl.
  eapply (is_lead_step _ c src (csn_put c (ck_csns ck)));
    [by apply normal_valid|by apply csns_valid| |done| |exact Hlead].
  { unfold lead_at. intros m. case_if; [done|]. intros Hm. by eapply Hvl, list_elem_of_lookup_2. }
  assert (lead1 = lead -> lead_at (csn_put c (ck_csns ck)) lead1 = lead_at (ck_csns ck) lead) as Hsame.
  { intros ->. unfold lead_at. case_if; [done|]. zb. destruct (Hl2 E) as (m & Hm & _). rewrite Hm. by apply Hkeep. }
  destruct (gained (ck_csns ck) c); [right|left; auto].
  destruct H1 as [(-> & H0 & m & Hm & Hle)|(H0 & Hc1 & Hle)].
  - left. split_and!; [done|auto|]. exists m. split; [|done]. rewrite <- Hsame by done. unfold lead_at.
    replace (lead <? 0) with false by (symmetry; apply Z.ltb_ge; lia). done.
  - right. split_and!; [done| |].
    + unfold lead_at. replace (lead1 <? 0) with false by (symmetry; apply Z.ltb_ge; lia). done.
    + unfold lead_at. intros m. case_if; [done|]. zb. intros Hm. destruct (Hle E) as (m' & Hm' & ?). congruence.
Qed.
End env.
