(* ===== verification/CookieParse.v ===== *)
(** * Composing and parsing cookies

    The text form of a cookie is read back, and parsing always ends. *)

From stdpp Require Import base list numbers option gmap sorting.
From Stdlib Require Import Ascii String.
From S2P Require Import Prelude Text Digits Quorum Csn CsnFacts Cookie CookieFacts.

Local Open Scope Z_scope.

(** ** Numbers *)

Lemma strntoi_digits base ds rest n r :
  1 < base -> 0 <= r -> all_digits base ds = true -> no_digit_first base rest ->
  (List.length ds <= n)%nat -> digits_value base r ds <= 2147483647 ->
  strntoi_loop n (ds ++ rest) r base = Some (digits_value base r ds, rest).
Proof.
  intros Hb. revert n r. induction ds as [|c ds IH]; intros n r Hr Hd Hn Hl Hv.
  { cbn. destruct n, rest; cbn; try done. cbn in Hn. by rewrite Hn. }
  cbn [all_digits forallb] in Hd. apply andb_true_iff in Hd as [[d Hc]%bool_decide_eq_true Hd].
  destruct n as [|n]; [cbn in Hl; lia|]. cbn [app strntoi_loop]. rewrite Hc.
  pose proof (digit_in_range _ _ _ Hc). unfold digits_value in Hv |- *. cbn [fold_left] in Hv |- *. rewrite Hc in Hv |- *.
  cbn [default from_option id] in Hv |- *. fold (digits_value base (r * base + d) ds) in Hv |- *.
  pose proof (digits_value_ge base ds (r * base + d) Hb ltac:(nia)).
  rewrite (proj2 (Z.leb_le _ _)) by lia. rewrite (proj2 (Z.ltb_ge _ _)) by nia.
  rewrite (Z.add_comm d). apply IH; [nia|done|done|cbn in Hl; lia|done].
Qed.

(** What a printed number of three digits is. *)
Definition prints (base n : Z) : bool :=
  let ds := fmt_pad base 3 n in
  all_digits base ds && (digits_value base 0 ds =? n) && Nat.eqb (List.length ds) 3 && no_nul ds.

Lemma prints_table :
  forallb (fun n => prints 10 (Z.of_nat n)) (seq 0 1000) && forallb (fun n => prints 16 (Z.of_nat n)) (seq 0 4096) = true.
Proof. vm_compute. reflexivity. Qed.

Lemma prints_rid n : 0 <= n <= SLAP_SYNC_RID_MAX -> prints 10 n = true.
Proof.
  unfold SLAP_SYNC_RID_MAX. intros Hn. pose proof prints_table as [Ht _]%andb_true_iff. rewrite forallb_forall in Ht.
  rewrite <- (Z2Nat.id n) by lia. apply Ht, in_seq. lia.
Qed.

Lemma prints_sid n : 0 <= n <= SLAP_SYNC_SID_MAX -> prints 16 n = true.
Proof.
  unfold SLAP_SYNC_SID_MAX. intros Hn. pose proof prints_table as [_ Ht]%andb_true_iff. rewrite forallb_forall in Ht.
  rewrite <- (Z2Nat.id n) by lia. apply Ht, in_seq. lia.
Qed.

(** A printed number, at the end or before a comma, is read back. *)
Lemma parse_printed base limit n rest :
  1 < base -> prints base n = true -> 0 <= n <= limit -> limit <= 4095 ->
  rest = [] \/ (exists r, rest = ","%char :: r) ->
  parse_number (fmt_pad base 3 n ++ rest) base limit = Some (Some (n, tail rest)).
Proof.
  intros Hb Hp Hn Hl Hrest. unfold prints in Hp. set (ds := fmt_pad base 3 n) in *.
  apply andb_true_iff in Hp as [[[H0 H1%Z.eqb_eq]%andb_true_iff H2%Nat.eqb_eq]%andb_true_iff _].
  unfold parse_number, strntoi. rewrite strntoi_digits; [|done|lia|done| |rewrite length_app; lia|lia].
  2: { destruct Hrest as [->|[r ->]]; [done|]. cbn. unfold digit_in. done. }
  cbn [mbind option_bind]. rewrite H1, length_app, H2. f_equal.
  rewrite (proj2 (Nat.eqb_neq _ _)) by lia. rewrite (proj2 (Z.ltb_ge _ _)) by lia.
  rewrite Z.gtb_ltb, (proj2 (Z.ltb_ge _ _)) by lia. cbn [orb].
  destruct Hrest as [->|[r ->]]; done.
Qed.

(** ** Pieces *)

(** A character no CSN holds. *)
Lemma template_free bad xs cs :
  forallb (fun x => negb (template_ok x bad)) xs = true -> template_match xs cs = true ->
  forallb (fun c => negb (Ascii.eqb c bad)) cs = true.
Proof.
  revert cs. induction xs as [|x xs IH]; intros [|c cs]; cbn; try done.
  intros [Hx Hxs]%andb_true_iff [Hc Hcs]%andb_true_iff. rewrite IH by done. rewrite andb_true_r.
  destruct (Ascii.eqb_spec c bad) as [->|]; [|done]. by rewrite Hc in Hx.
Qed.

Definition is_sep (c : ascii) : bool := Ascii.eqb c ";" || Ascii.eqb c ",".

Definition no_sep (s : text) : bool := forallb (fun c => negb (is_sep c)) s.

Lemma split_piece cur c s :
  no_sep c = true ->
  split_csns cur (c ++ s) = split_csns (reverse c ++ cur) s.
Proof.
  revert cur. induction c as [|x c IH]; intros cur Hc; [done|].
  cbn in Hc. apply andb_true_iff in Hc as [Hx Hc]. cbn [app split_csns].
  unfold is_sep in Hx. rewrite negb_true_iff in Hx. rewrite Hx, IH by done.
  by rewrite reverse_cons, <- app_assoc.
Qed.

Lemma split_join l : l <> [] -> Forall (fun c => no_sep c = true /\ c <> []) l -> split_csns [] (join_csns l) = l.
Proof.
  intros Hne Hl. induction Hl as [|c l [Hc Hcn] Hl IH]; [done|]. destruct l as [|d l].
  - cbn [join_csns]. rewrite <- (app_nil_r c) at 1. rewrite split_piece by done. cbn. by rewrite app_nil_r, reverse_involutive.
  - change (join_csns (c :: d :: l)) with (c ++ ";"%char :: join_csns (d :: l)). rewrite split_piece by done.
    cbn [split_csns Ascii.eqb Bool.eqb orb]. rewrite app_nil_r, reverse_involutive, IH by done.
    destruct (join_csns (d :: l)) eqn:E; [|done]. exfalso.
    apply list.Forall_cons in Hl as [[_ Hd] _]. destruct d; [done|]. by destruct l.
Qed.

Section env.
Context `{Env}.
Variable entryCSN : bool.

(** The syntax leaves the CSN as it is. *)
Definition keeps_csn (c : text) : Prop := csnNormalize c = Some (Some c).

Lemma valid_no_sep c : valid c -> no_sep c = true /\ c <> [].
Proof.
  intros Hv. pose proof (valid_length c Hv) as Hl. split; [|by intros ->].
  pose proof (template_free ";" csn_template c ltac:(vm_compute; reflexivity) (valid_template c Hv)) as H1.
  pose proof (template_free "," csn_template c ltac:(vm_compute; reflexivity) (valid_template c Hv)) as H2.
  unfold no_sep. rewrite forallb_forall in *. intros x Hx. specialize (H1 x Hx). specialize (H2 x Hx).
  unfold is_sep. by rewrite negb_orb, H1, H2.
Qed.

Lemma parse_piece_kept c : valid c -> (entryCSN = true -> keeps_csn c) -> parse_piece entryCSN c = Some c.
Proof.
  intros Hv Hk. unfold parse_piece, csnValidate. unfold valid in Hv. rewrite Hv, andb_true_r.
  destruct entryCSN; [rewrite (Hk eq_refl)|]; by rewrite Hv.
Qed.

Lemma mapM_pieces l : Forall valid l -> (entryCSN = true -> Forall keeps_csn l) -> mapM (parse_piece entryCSN) l = Some l.
Proof.
  intros Hl Hk. apply mapM_Some. apply Forall_Forall2_diag. rewrite list.Forall_forall in Hl |- *. intros c Hc.
  apply parse_piece_kept; [by apply Hl|]. intros E. exact (proj1 (list.Forall_forall _ _) (Hk E) c Hc).
Qed.

(** A valid CSN is normalised to small letters from the server ID on. *)
Lemma template_hash x c : template_ok x c = true -> Ascii.eqb c "#" = Ascii.eqb x "#".
Proof.
  intros Ht. destruct (Ascii.eqb_spec c "#") as [Hc|Hc], (Ascii.eqb_spec x "#") as [Hx|Hx]; try done; exfalso.
  - rewrite Hc in Ht. unfold template_ok in Ht. apply Hx. destruct (Ascii.eqb x "F"), (Ascii.eqb x "9"), (Ascii.eqb_spec "#" x); done.
  - rewrite Hx in Ht. unfold template_ok in Ht. apply Hc. by apply Ascii.eqb_eq.
Qed.

Lemma cut_template xs cs a b :
  template_match xs cs = true -> cut_hash xs = Some (a, b) ->
  exists a' b', cut_hash cs = Some (a', b') /\ List.length a' = List.length a /\ template_match b b' = true.
Proof.
  revert cs a. induction xs as [|x xs IH]; intros [|c cs] a; cbn; try done.
  intros [Hx Hm]%andb_true_iff. rewrite (template_hash x c Hx). destruct (Ascii.eqb x "#").
  - intros [= <- <-]. by exists [], cs.
  - intros Hc. destruct (cut_hash xs) as [[p q]|] eqn:E; [|done]. cbn in Hc. injection Hc as <- <-.
    destruct (IH cs p Hm eq_refl) as (a' & b' & -> & Hl & Hb). exists (c :: a'), b'. cbn. by rewrite Hl.
Qed.

Lemma csnNormalize_valid c : valid c -> csnNormalize c = Some (Some (take 30 c ++ (tolower <$> drop 30 c))).
Proof.
  intros Hv. unfold csnNormalize. rewrite (valid_length c Hv). cbn [Nat.eqb negb]. unfold csn_fields.
  destruct (cut_template csn_template c _ _ (valid_template c Hv) eq_refl) as (a1 & b1 & -> & L1 & T1).
  cbn [mbind option_bind]. rewrite L1. cbn [List.length Nat.eqb ensure mbind option_bind].
  destruct (cut_template _ b1 _ _ T1 eq_refl) as (a2 & b2 & -> & L2 & T2).
  cbn [mbind option_bind]. rewrite L2. cbn [List.length Nat.eqb ensure mbind option_bind].
  destruct (cut_template _ b2 _ _ T2 eq_refl) as (a3 & b3 & -> & L3 & T3).
  cbn [mbind option_bind]. rewrite L3. cbn [List.length Nat.eqb ensure mbind option_bind].
  by rewrite (template_length _ b3 T3).
Qed.

(** A sorted array is left as it is. *)
Lemma validate_and_sort_sorted l : csns_ok l -> slap_csns_validate_and_sort l = Some (Z.of_nat (List.length l), l).
Proof.
  intros Hok. pose proof (csns_valid l Hok) as Hv. pose proof (until_empty_valid l Hv) as Hu.
  destruct (validate_and_sort_spec l) as (l' & -> & Hok' & Hof).
  { rewrite Hu. by apply csns_no_nul. }
  { rewrite Hu. apply list.Forall_forall. intros c [_ Hc]%list_elem_of_filter.
    destruct Hok as [Hn _]. rewrite list.Forall_forall in Hn. auto. }
  assert (l' = l) as ->; [|done]. apply csns_ext; [done..|]. intros s. rewrite Hu in Hof.
  apply option_eq. intros c. rewrite Hof, list_elem_of_filter. split.
  - intros ((_ & Hin) & <- & _). by apply csn_of_elem.
  - intros Hc. pose proof (csn_of_Some _ _ _ Hc) as [Hin Hs]. rewrite list.Forall_forall in Hv.
    split_and!; [by apply Hv|done..|]. intros c' [_ Hc']%list_elem_of_filter Hs'.
    apply (csn_of_elem l c' Hok) in Hc'. rewrite Hs', Hc in Hc'. injection Hc' as ->. by rewrite cts_refl.
Qed.

Lemma parse_finish_ok ck :
  0 <= ck.(ck_rid) -> csns_ok ck.(ck_csns) ->
  ck.(ck_csns) <> [] \/ ck.(ck_sids) = [] ->
  parse_finish ck = PDone LDAP_SUCCESS (cookie_with ck ck.(ck_csns)).
Proof.
  intros Hr Hok Hn. unfold parse_finish. rewrite (proj2 (Z.ltb_ge _ _)) by lia.
  destruct (ck_csns ck) as [|x l] eqn:E.
  - destruct Hn as [?|Hn]; [done|]. unfold cookie_with, with_csns. destruct ck; simpl in *. by subst.
  - rewrite (validate_and_sort_sorted _ Hok). unfold numcsns. rewrite E, Z.eqb_refl.
    unfold slap_csns_parse_sids, slap_csns_length, ensure. pose proof (csns_valid _ Hok) as Hv.
    rewrite until_empty_valid, csns_no_nul by done. cbn [mbind option_bind].
    change (slap_csn_get_sid <$> x :: l) with (sid <$> x :: l). fold (cookie_with ck (x :: l)).
    by rewrite check_cookie_ok by by apply cookie_with_ok.
Qed.

(** ** The round trip *)

Lemma parse_rid k ck n rest :
  0 <= n <= SLAP_SYNC_RID_MAX -> rest = [] \/ (exists r, rest = ","%char :: r) ->
  parse_loop entryCSN (S k) ck (kw "rid=" ++ fmt_pad 10 3 n ++ rest) =
  parse_loop entryCSN k (mkCookie n ck.(ck_sid) ck.(ck_sids) ck.(ck_csns)) (tail rest).
Proof.
  intros Hn Hr. cbn [parse_loop app kw list_ascii_of_string strip_prefix Ascii.eqb Bool.eqb].
  rewrite (parse_printed 10 SLAP_SYNC_RID_MAX n rest); [done|lia|by apply prints_rid|done|by unfold SLAP_SYNC_RID_MAX; lia|done].
Qed.

Lemma parse_sid k ck n rest :
  0 <= n <= SLAP_SYNC_SID_MAX -> rest = [] \/ (exists r, rest = ","%char :: r) ->
  parse_loop entryCSN (S k) ck (kw "sid=" ++ fmt_pad 16 3 n ++ rest) =
  parse_loop entryCSN k (mkCookie ck.(ck_rid) n ck.(ck_sids) ck.(ck_csns)) (tail rest).
Proof.
  intros Hn Hr. cbn [parse_loop app kw list_ascii_of_string strip_prefix Ascii.eqb Bool.eqb].
  rewrite (parse_printed 16 SLAP_SYNC_SID_MAX n rest); [done|lia|by apply prints_sid|done|by unfold SLAP_SYNC_SID_MAX; lia|done].
Qed.

Lemma parse_csns k ck l :
  csns_ok l -> (entryCSN = true -> Forall keeps_csn l) -> l <> [] -> ck.(ck_csns) = [] -> 0 <= ck.(ck_rid) ->
  parse_loop entryCSN (S k) ck (kw "csn=" ++ join_csns l) = PDone LDAP_SUCCESS (cookie_with ck l).
Proof.
  intros Hok Hkeep Hne Hck Hr. cbn [parse_loop app kw list_ascii_of_string strip_prefix Ascii.eqb Bool.eqb].
  rewrite split_join; [|done|].
  2: { eapply list.Forall_impl; [by apply csns_valid|apply valid_no_sep]. }
  rewrite mapM_pieces by (done || by apply csns_valid). rewrite Hck. cbn [app].
  rewrite parse_finish_ok; [done|done|done|by left].
Qed.

(** The text [slap_cookie_compose] makes. *)
Lemma compose_text l rid s :
  csns_ok l -> 0 <= rid ->
  slap_cookie_compose (Some l) rid s =
    Some (kw "rid=" ++ fmt_pad 10 3 rid ++
          (if s >=? 0 then kw ",sid=" ++ fmt_pad 16 3 s else []) ++
          match l with [] => [] | _ => kw ",csn=" ++ join_csns l end).
Proof.
  intros Hok Hr. unfold slap_cookie_compose. rewrite (proj2 (Z.geb_le _ _) Hr).
  pose proof (csns_valid l Hok) as Hv. destruct l as [|c l].
  - case_if; cbn; rewrite <- ?app_assoc, ?app_nil_r; done.
  - rewrite until_empty_valid by done. unfold ensure. rewrite csns_no_nul by done. cbn [mbind option_bind].
    case_if; cbn -[join_csns fmt_pad]; rewrite <- ?app_assoc; done.
Qed.

Lemma no_nul_app a b : no_nul (a ++ b) = no_nul a && no_nul b.
Proof. apply forallb_app. Qed.

Lemma join_no_nul l : Forall valid l -> no_nul (join_csns l) = true.
Proof.
  intros Hl. induction Hl as [|c l Hc Hl IH]; [done|]. destruct l as [|d l]; [by apply valid_no_nul|].
  change (join_csns (c :: d :: l)) with (c ++ ";"%char :: join_csns (d :: l)). rewrite no_nul_app.
  rewrite valid_no_nul by done. exact IH.
Qed.

Lemma prints_shape base n : prints base n = true -> no_nul (fmt_pad base 3 n) = true /\ List.length (fmt_pad base 3 n) = 3%nat.
Proof. unfold prints. intros [[_ Hl%Nat.eqb_eq]%andb_true_iff Hn]%andb_true_iff. done. Qed.

Lemma parse_compose dst l rid s :
  csns_ok l -> (entryCSN = true -> Forall keeps_csn l) -> 0 <= rid <= SLAP_SYNC_RID_MAX -> -1 <= s <= SLAP_SYNC_SID_MAX ->
  exists t, slap_cookie_compose (Some l) rid s = Some t /\
    slap_cookie_parse entryCSN dst (Some t) = PDone LDAP_SUCCESS (mkCookie rid s (sid <$> l) l).
Proof.
  intros Hok Hkeep Hr Hs. rewrite compose_text by (done || lia). eexists. split; [done|].
  set (t2 := match l with [] => [] | _ => kw ",csn=" ++ join_csns l end).
  set (t1 := if s >=? 0 then _ else _).
  assert (no_nul t2 = true) as Hn2.
  { unfold t2. destruct l; [done|]. rewrite no_nul_app. by rewrite join_no_nul by by apply csns_valid. }
  assert (no_nul t1 = true) as Hn1.
  { unfold t1. case_if; [|done]. zb. rewrite no_nul_app.
    by rewrite (proj1 (prints_shape 16 s (prints_sid s ltac:(lia)))). }
  destruct (prints_shape 10 rid (prints_rid rid Hr)) as [Hnr Hlr].
  unfold slap_cookie_parse. set (src := kw "rid=" ++ _).
  assert (exists k, List.length src = (3 + k)%nat) as [k Hk].
  { unfold src. rewrite !length_app, Hlr. cbn. by eexists. }
  assert ((Z.of_nat (List.length src) <=? 4) = false) as ->.
  { apply Z.leb_gt. unfold src. rewrite !length_app, Hlr. cbn. lia. }
  assert (no_nul src = true) as ->.
  { unfold src. by rewrite !no_nul_app, Hnr, Hn1, Hn2. }
  change (match src with [] => _ | _ => ?x end) with x. cbn [negb]. rewrite Hk. cbn [Nat.add]. unfold src.
  assert (t2 = [] \/ exists r, t2 = ","%char :: r) as Ht2.
  { unfold t2. destruct l; [by left|]. right. by eexists. }
  rewrite parse_rid; [|done|].
  2: { unfold t1. case_if; [right; by eexists|exact Ht2]. }
  cbn [ck_sid ck_sids ck_csns slap_cookie_clean_all slap_cookie_clean_csns with_csns].
  assert (forall k s0, s0 = s -> parse_loop entryCSN (S (S k)) (mkCookie rid s0 [] []) (tail t2) =
    PDone LDAP_SUCCESS (mkCookie rid s (sid <$> l) l)) as Hend.
  { intros k' s0 ->. unfold t2. destruct l as [|c l].
    - cbn [tail parse_loop]. rewrite parse_finish_ok; [done|cbn; lia|apply csns_ok_nil|by right].
    - cbn [kw list_ascii_of_string app tail]. change ("c"%char :: "s"%char :: "n"%char :: "="%char :: join_csns (c :: l))
        with (kw "csn=" ++ join_csns (c :: l)).
      rewrite parse_csns; [done|done|done|done|done|cbn; lia]. }
  unfold t1. case_if; zb.
  - cbn [kw list_ascii_of_string app tail].
    change ("s"%char :: "i"%char :: "d"%char :: "="%char :: (fmt_pad 16 3 s ++ t2)) with (kw "sid=" ++ fmt_pad 16 3 s ++ t2).
    rewrite parse_sid by (lia || done). by apply Hend.
  - cbn [app]. apply Hend. lia.
Qed.

(** ** Termination *)

Lemma strntoi_suffix n s r base v rest :
  strntoi_loop n s r base = Some (v, rest) -> (List.length rest <= List.length s)%nat.
Proof.
  revert s r. induction n as [|n IH]; intros [|c s] r; cbn [strntoi_loop]; try by intros [= <- <-].
  destruct (digit_in base c); [|by intros [= <- <-]]. do 2 (case_if; [|done || idtac]).
  - by intros [= <- <-].
  - intros Hs%IH. cbn. lia.
Qed.

Lemma parse_number_suffix s base limit v next :
  parse_number s base limit = Some (Some (v, next)) -> (List.length next <= List.length s)%nat.
Proof.
  unfold parse_number. intros Hp. inv_bind Hp. destruct x as [v' rest]. apply strntoi_suffix in Hb.
  injection Hp as Hp. case_if_in Hp; [done|]. destruct rest as [|c rest]; [by injection Hp as <- <-|].
  case_if_in Hp; [|done]. injection Hp as <- <-. cbn in Hb. lia.
Qed.

Lemma strip_prefix_length p s s' : strip_prefix p s = Some s' -> (List.length s = List.length p + List.length s')%nat.
Proof.
  revert s. induction p as [|x p IH]; intros [|y s]; cbn; try done; try by intros [= <-].
  case_if; [|done]. intros Hs%IH. lia.
Qed.

Lemma parse_finish_ends ck : parse_finish ck <> PFuel.
Proof.
  unfold parse_finish. case_if; [done|]. destruct (ck_csns ck); [done|].
  destruct (slap_csns_validate_and_sort _) as [[n l']|]; [|done]. case_if; [|done].
  destruct (slap_csns_parse_sids l'); [|done]. by destruct (check_cookie _).
Qed.

Lemma parse_loop_ends fuel ck next : (List.length next < fuel)%nat -> parse_loop entryCSN fuel ck next <> PFuel.
Proof.
  revert ck next. induction fuel as [|fuel IH]; intros ck next Hl; [lia|]. cbn [parse_loop].
  destruct next as [|c rest] eqn:En; [apply parse_finish_ends|]. rewrite <- En in *.
  assert (forall p s base limit, strip_prefix p next = Some s -> p <> [] ->
    forall v next', parse_number s base limit = Some (Some (v, next')) -> (List.length next' < fuel)%nat) as Hshort.
  { intros p s base limit Hp Hne v next' Hn. apply strip_prefix_length in Hp. apply parse_number_suffix in Hn.
    destruct p; [done|]. cbn in Hp. lia. }
  destruct (strip_prefix (kw "rid=") next) as [s|] eqn:E1.
  { destruct (parse_number s _ _) as [[[v n']|]|] eqn:E; [|done..]. by eapply IH, Hshort. }
  destruct (strip_prefix (kw "sid=") next) as [s|] eqn:E2.
  { destruct (parse_number s _ _) as [[[v n']|]|] eqn:E; [|done..]. by eapply IH, Hshort. }
  destruct (strip_prefix (kw "csn=") next) as [s|]; [destruct (mapM _ _); [apply parse_finish_ends|done]|].
  case_if; [|done]. apply IH. rewrite En in Hl. cbn in Hl. lia.
Qed.
End env.
