(* ===== verification/CsnShift.v ===== *)
(** * Shifting a CSN

    [slap_csn_shift] is an addition to the number that the time stamp and the change
    counter make. *)

From stdpp Require Import base list numbers option gmap sorting.
From Stdlib Require Import Ascii String.
From S2P Require Import Prelude Text Digits Quorum Csn CsnFacts Cookie CookieFacts CookieParse.

Local Open Scope Z_scope.

(** ** The fields of a CSN *)

(** Date, microseconds, change counter, and the rest. *)
Definition fields (D U H R : text) : text := D ++ "."%char :: U ++ "Z"%char :: "#"%char :: H ++ R.

Record shape (D U H R : text) : Prop := {
  shape_date : List.length D = 14%nat /\ all_digits 10 D = true;
  shape_usec : List.length U = 6%nat /\ all_digits 10 U = true;
  shape_count : List.length H = 6%nat /\ all_digits 16 H = true;
  shape_rest : template_match (kw "#FFF#FFFFFF") R = true;
}.

Lemma template_app xs1 xs2 c1 c2 :
  List.length c1 = List.length xs1 ->
  template_match (xs1 ++ xs2) (c1 ++ c2) = template_match xs1 c1 && template_match xs2 c2.
Proof.
  revert c1. induction xs1 as [|x xs1 IH]; intros [|c c1] Hl; cbn in *; try done.
  rewrite IH by lia. by rewrite andb_assoc.
Qed.

Lemma template_digits x base n cs :
  (forall c, template_ok x c = bool_decide (is_Some (digit_in base c))) ->
  template_match (replicate n x) cs = Nat.eqb (List.length cs) n && all_digits base cs.
Proof.
  intros Hx. revert cs. induction n as [|n IH]; intros [|c cs]; cbn; try done. rewrite Hx, IH.
  by destruct (bool_decide _), (Nat.eqb _ _).
Qed.

Lemma nine_ok c : template_ok "9" c = bool_decide (is_Some (digit_in 10 c)).
Proof. apply Bool.eqb_prop. revert c. apply ascii_table. vm_compute. reflexivity. Qed.

Lemma split_at {A} (c : list A) n : (n <= List.length c)%nat -> exists a b, c = a ++ b /\ List.length a = n.
Proof. intros Hn. exists (take n c), (drop n c). rewrite take_drop, length_take. split; [done|lia]. Qed.

Lemma match_shape c : template_match csn_template c = true -> exists D U H R, c = fields D U H R /\ shape D U H R.
Proof.
  intros Ht. pose proof (template_length _ _ Ht) as Hl. change (List.length csn_template) with 40%nat in Hl.
  destruct (split_at c 14) as (D & c1 & -> & HD); [lia|]. rewrite length_app in Hl.
  change csn_template with (replicate 14 "9"%char ++ "."%char :: replicate 6 "9"%char ++ "Z"%char :: "#"%char ::
    replicate 6 "F"%char ++ kw "#FFF#FFFFFF") in Ht.
  rewrite template_app, (template_digits "9" 10) in Ht by (done || apply nine_ok).
  destruct c1 as [|x c1]; [cbn in Hl; lia|]. cbn [List.length] in Hl.
  destruct (split_at c1 6) as (U & c2 & -> & HU); [lia|]. rewrite length_app in Hl. cbn [template_match] in Ht.
  rewrite template_app, (template_digits "9" 10) in Ht by (done || apply nine_ok).
  destruct c2 as [|y [|z c2]]; [cbn in Hl; lia..|]. cbn [List.length] in Hl. cbn [template_match] in Ht.
  destruct (split_at c2 6) as (H & R & -> & HH); [lia|].
  rewrite template_app, (template_digits "F" 16) in Ht by (done || apply template_hex).
  apply andb_true_iff in Ht as [[_ HDd]%andb_true_iff [Hx [[_ HUd]%andb_true_iff [Hy [Hz [[_ HHd]%andb_true_iff
    HR]%andb_true_iff]%andb_true_iff]%andb_true_iff]%andb_true_iff]%andb_true_iff].
  apply Ascii.eqb_eq in Hx as ->. apply Ascii.eqb_eq in Hy as ->. apply Ascii.eqb_eq in Hz as ->.
  exists D, U, H, R. split; [done|]. split; [by split|by split|by split|done].
Qed.

Lemma shape_match D U H R : shape D U H R -> template_match csn_template (fields D U H R) = true.
Proof.
  intros [[LD HD] [LU HU] [LH HH] HR].
  change csn_template with (replicate 14 "9"%char ++ "."%char :: replicate 6 "9"%char ++ "Z"%char :: "#"%char ::
    replicate 6 "F"%char ++ kw "#FFF#FFFFFF"). unfold fields.
  rewrite template_app, (template_digits "9" 10), HD, LD by (done || apply nine_ok). cbn [template_match].
  rewrite template_app, (template_digits "9" 10), HU, LU by (done || apply nine_ok). cbn [template_match].
  rewrite template_app, (template_digits "F" 16), HH, LH, HR by (done || apply template_hex). done.
Qed.

(** ** Replacing a field *)

Lemma put_app a b c t : List.length b = List.length t -> put (a ++ b ++ c) (List.length a) t = a ++ t ++ c.
Proof.
  intros Hl. unfold put. rewrite take_app_length, drop_app_add, <- Hl. by rewrite drop_app_length.
Qed.

Lemma put_count D U H R H' : shape D U H R -> List.length H' = 6%nat -> put (fields D U H R) 23 H' = fields D U H' R.
Proof.
  intros [[LD _] [LU _] [LH _] _] L'. unfold fields.
  pose proof (put_app (D ++ "."%char :: U ++ ["Z"%char; "#"%char]) H R H' ltac:(congruence)) as E.
  rewrite <- !app_assoc in E. cbn [app] in E. rewrite <- !app_assoc in E. cbn [app] in E. rewrite <- E. f_equal.
  rewrite length_app. cbn. rewrite length_app. cbn. lia.
Qed.

Lemma put_usec D U H R U' : shape D U H R -> List.length U' = 6%nat -> put (fields D U H R) 15 U' = fields D U' H R.
Proof.
  intros [[LD _] [LU _] [LH _] _] L'. unfold fields.
  pose proof (put_app (D ++ ["."%char]) U ("Z"%char :: "#"%char :: H ++ R) U' ltac:(congruence)) as E.
  rewrite <- !app_assoc in E. cbn [app] in E. rewrite <- E. f_equal. rewrite length_app. cbn. lia.
Qed.

Lemma put_date D U H R D' : shape D U H R -> List.length D' = 14%nat -> put (fields D U H R) 0 D' = fields D' U H R.
Proof. intros [[LD _] _ _ _] L'. unfold fields. apply (put_app [] D). congruence. Qed.

Lemma fields_drop D U H R : shape D U H R ->
  drop 23 (fields D U H R) = H ++ R /\ drop 15 (fields D U H R) = U ++ "Z"%char :: "#"%char :: H ++ R /\
  take 14 (fields D U H R) = D /\ drop 29 (fields D U H R) = R /\ List.length (fields D U H R) = 40%nat /\
  fields D U H R !! 21%nat = Some "Z"%char /\ fields D U H R !! 29%nat = Some "#"%char.
Proof.
  intros Hs. pose proof (shape_match _ _ _ _ Hs) as Ht. pose proof (template_length _ _ Ht) as Hl.
  assert (fields D U H R !! 21%nat = Some "Z"%char /\ fields D U H R !! 29%nat = Some "#"%char) as [H21 H29].
  { split; by eapply template_sep. }
  destruct Hs as [[LD _] [LU _] [LH _] _]. unfold fields in *. split_and!; try done.
  - rewrite <- (drop_app_length (D ++ "."%char :: U ++ ["Z"%char; "#"%char]) (H ++ R)) at 2.
    rewrite <- !app_assoc. cbn [app]. rewrite <- !app_assoc. cbn [app]. f_equal. rewrite length_app. cbn. rewrite length_app. cbn. lia.
  - rewrite <- (drop_app_length (D ++ ["."%char]) (U ++ _)) at 2. rewrite <- !app_assoc. cbn [app]. f_equal. rewrite length_app. cbn. lia.
  - rewrite <- LD. apply take_app_length.
  - rewrite <- (drop_app_length (D ++ "."%char :: U ++ "Z"%char :: "#"%char :: H) R) at 2.
    rewrite <- !app_assoc. cbn [app]. rewrite <- !app_assoc. cbn [app]. f_equal. rewrite length_app. cbn. rewrite length_app. cbn. lia.
Qed.

(** ** Carrying *)

Definition dec (c : ascii) : Z := default 0 (digit_in 10 c).

Lemma dec_succ c : is_Some (digit_in 10 c) ->
  schar c = 48 + dec c /\ 0 <= dec c < 10 /\
  (dec c < 9 -> digit_in 10 (ascii_of_N (Z.to_N (schar c + 1))) = Some (dec c + 1)).
Proof.
  intros Hc.
  assert (implb (bool_decide (is_Some (digit_in 10 c)))
    ((schar c =? 48 + dec c) && (implb (dec c <? 9)
      (bool_decide (digit_in 10 (ascii_of_N (Z.to_N (schar c + 1))) = Some (dec c + 1))))) = true) as Ht.
  { clear Hc. revert c. apply ascii_table. vm_compute. reflexivity. }
  rewrite bool_decide_eq_true_2 in Ht by done. cbn [implb] in Ht. apply andb_true_iff in Ht as [E%Z.eqb_eq Ht].
  split_and!; [done|..].
  - destruct Hc as [d Hd]. unfold dec. rewrite Hd. apply digit_in_range in Hd. cbn. lia.
  - destruct Hc as [d Hd]. unfold dec. rewrite Hd. apply digit_in_range in Hd. cbn. lia.
  - intros Hlt. rewrite (proj2 (Z.ltb_lt _ _) Hlt) in Ht. by apply bool_decide_eq_true in Ht.
Qed.

Lemma carry_none l : carry_digits l 0 = l.
Proof. by destruct l. Qed.

Lemma value_snoc base ds c : digits_value base 0 (ds ++ [c]) = digits_value base 0 ds * base + default 0 (digit_in base c).
Proof. by rewrite digits_value_app. Qed.

Lemma carry_digits_spec l :
  Forall (fun c => is_Some (digit_in 10 c)) l ->
  let l' := carry_digits l 1 in
  List.length l' = List.length l /\ Forall (fun c => is_Some (digit_in 10 c)) l' /\
  (digits_value 10 0 (reverse l) + 1 < 10 ^ Z.of_nat (List.length l) ->
   digits_value 10 0 (reverse l') = digits_value 10 0 (reverse l) + 1).
Proof.
  intros Hl. induction Hl as [|c l Hc Hl IH]; [split_and!; [done..|]; cbn; lia|]. cbv zeta in *.
  destruct (dec_succ c Hc) as (Es & Hr & Hsucc). destruct IH as (IH1 & IH2 & IH3).
  cbn [carry_digits]. change (1 =? 0) with false. cbv iota.
  replace (schar c + 1 <? 48) with false by (symmetry; apply Z.ltb_ge; lia).
  destruct (schar c + 1 >? 57) eqn:E; zb.
  - assert (dec c = 9) as E9 by lia. cbn [List.length]. split_and!; [by rewrite IH1| |].
    + constructor; [|done]. exists 0. by apply zero_digit.
    + rewrite !reverse_cons, !value_snoc. fold (dec c). rewrite E9, zero_digit by done. cbn [default from_option id].
      rewrite Nat2Z.inj_succ, Z.pow_succ_r by lia. intros Hv. rewrite IH3 by lia. lia.
  - rewrite carry_none. split_and!; [done| |].
    + constructor; [|done]. exists (dec c + 1). apply Hsucc. lia.
    + intros _. rewrite !reverse_cons, !value_snoc. rewrite Hsucc by lia. fold (dec c). cbn [default from_option id]. lia.
Qed.

Lemma all_digits_Forall base ds : all_digits base ds = true <-> Forall (fun c => is_Some (digit_in base c)) ds.
Proof.
  unfold all_digits. rewrite forallb_forall, list.Forall_forall. setoid_rewrite bool_decide_eq_true.
  setoid_rewrite list_elem_of_In. done.
Qed.

(** The date plus one. *)
Lemma carry_date D :
  List.length D = 14%nat -> all_digits 10 D = true ->
  let D' := reverse (carry_digits (reverse D) 1) in
  List.length D' = 14%nat /\ all_digits 10 D' = true /\
  (digits_value 10 0 D + 1 < 10 ^ 14 -> digits_value 10 0 D' = digits_value 10 0 D + 1).
Proof.
  intros HL HD. apply all_digits_Forall in HD. destruct (carry_digits_spec (reverse D)) as (H1 & H2 & H3).
  { by rewrite reverse_Permutation. }
  rewrite length_reverse in H1, H3. rewrite HL in H1, H3. rewrite reverse_involutive in H3. cbv zeta. split_and!.
  - by rewrite length_reverse.
  - apply all_digits_Forall. by rewrite reverse_Permutation.
  - exact H3.
Qed.

(** ** The shift *)

(** The number of change-counter steps since the year zero, a year taken as its
    digits. *)
Definition csn_time (c : text) : Z :=
  (digits_value 10 0 (sub c 0 14) * 10 ^ 6 + digits_value 10 0 (sub c 15 6)) * 2 ^ 24 + digits_value 16 0 (sub c 23 6).

Lemma sub_usec D U H R : shape D U H R -> sub (fields D U H R) 15 6 = U.
Proof.
  intros Hs. destruct (fields_drop D U H R Hs) as (_ & E & _). destruct Hs as [_ [LU _] _ _].
  unfold sub. rewrite E, <- LU. apply take_app_length.
Qed.

Lemma sub_count D U H R : shape D U H R -> sub (fields D U H R) 23 6 = H.
Proof.
  intros Hs. destruct (fields_drop D U H R Hs) as (E & _). destruct Hs as [_ _ [LH _] _].
  unfold sub. rewrite E, <- LH. apply take_app_length.
Qed.

Lemma csn_time_fields D U H R : shape D U H R ->
  csn_time (fields D U H R) =
    (digits_value 10 0 D * 10 ^ 6 + digits_value 10 0 U) * 2 ^ 24 + digits_value 16 0 H.
Proof.
  intros Hs. unfold csn_time. rewrite sub_usec, sub_count by done.
  destruct (fields_drop D U H R Hs) as (_ & _ & E & _). unfold sub. by rewrite drop_0, E.
Qed.

Lemma carry_over_down m v : 0 < m -> carry_over (-1) m v = (v / m, v mod m).
Proof. intros Hm. unfold carry_over. case_if; f_equal. lia. Qed.

Lemma carry_over_up m v : 0 < m -> 0 <= v -> carry_over 1 m v = (v / m, v mod m).
Proof. intros Hm Hv. unfold carry_over. case_if; [zb; lia|done]. Qed.

Section env.
Context `{Env}.

Lemma fields_valid D U H' R : mode_strict = false -> shape D U H' R -> valid (fields D U H' R).
Proof.
  intros Hm Hs. unfold valid, slap_csn_verify_full. destruct (fields_drop D U H' R Hs) as (_ & _ & _ & _ & -> & _).
  rewrite shape_match by done. by rewrite Hm.
Qed.

(** The microseconds and the date, after the carry of the counter. *)
Lemma shift_usec D U H' R carry :
  mode_strict = false -> shape D U H' R ->
  let w := digits_value 10 0 U + carry in
  0 <= w < 2 * 10 ^ 6 -> digits_value 10 0 D + w / 10 ^ 6 < 10 ^ 14 ->
  exists D' U', shape D' U' H' R /\
    carry_usec (fields D U H' R) carry = Some (fields D' U' H' R) /\
    digits_value 10 0 D' * 10 ^ 6 + digits_value 10 0 U' = digits_value 10 0 D * 10 ^ 6 + w.
Proof.
  intros Hm Hs w Hw HD. unfold carry_usec. destruct (Z.eqb_spec carry 0) as [->|Hc].
  { exists D, U. split_and!; [done..|]. unfold w. lia. }
  destruct (fields_drop D U H' R Hs) as (_ & Ed & _ & _ & El & E21 & _). rewrite Ed, El.
  pose proof Hs as [[LD DD] [LU DU] [LH DH] HR].
  pose proof (digits_value_bound 10 U ltac:(lia)) as Hb. rewrite LU in Hb. change (10 ^ Z.of_nat 6) with 1000000 in Hb.
  unfold strntoi. rewrite strntoi_digits; [|lia|lia|done|done|lia|lia]. cbn [mbind option_bind].
  rewrite (char_at_Some _ _ _ E21). apply template_length in HR. cbn in HR.
  replace (Nat.eqb _ 21) with true by (symmetry; apply Nat.eqb_eq; cbn; rewrite length_app; lia).
  cbn [andb Ascii.eqb Bool.eqb ensure mbind option_bind].
  fold w. rewrite carry_over_up by lia. change (10 ^ 6) with 1000000 in *.
  pose proof (Z.mod_pos_bound w 1000000 ltac:(lia)). pose proof (Z.div_mod w 1000000 ltac:(lia)).
  destruct (fmt_pad_spec 10 6 (w mod 1000000)) as (L' & D' & V'); [lia|lia|change (10 ^ Z.of_nat 6) with 1000000; lia|].
  assert (shape D (fmt_pad 10 6 (w mod 1000000)) H' R) as Hs' by by destruct Hs; split.
  rewrite put_usec by done. destruct (Z.eqb_spec (w / 1000000) 0) as [E0|E0].
  - eexists D, _. split_and!; [done..|]. rewrite V'. lia.
  - assert (w / 1000000 = 1) as E1 by nia. rewrite E1. cbn [Z.abs Z.eqb Pos.eqb ensure mbind option_bind].
    destruct (fields_drop _ _ _ _ Hs') as (_ & _ & -> & _).
    destruct (carry_date D LD DD) as (C1 & C2 & C3). rewrite put_date by done. eexists _, _.
    split_and!; [|done|].
    + destruct Hs' as [_ ? ? ?]. by split.
    + rewrite C3, V'; lia.
Qed.

(** Forward, and backward within the second, the shift is an addition. *)
Lemma csn_shift_spec D U H' R d :
  mode_strict = false -> shape D U H' R ->
  let n := digits_value 10 0 U * 2 ^ 24 + digits_value 16 0 H' + d in
  0 <= n < 2 * 10 ^ 6 * 2 ^ 24 -> d < 2 ^ 31 - 2 ^ 24 ->
  csn_time (fields D U H' R) + d < 10 ^ 14 * 10 ^ 6 * 2 ^ 24 ->
  exists D' U' H2, slap_csn_shift (fields D U H' R) d = Some (fields D' U' H2 R) /\ shape D' U' H2 R /\
    csn_time (fields D' U' H2 R) = csn_time (fields D U H' R) + d.
Proof.
  intros Hm Hs n Hn Hd Ht. unfold slap_csn_shift. pose proof (fields_valid D U H' R Hm Hs) as Hv. unfold valid in Hv.
  rewrite Hv. cbn [ensure mbind option_bind].
  destruct (Z.eqb_spec d 0) as [->|Hd0]; [exists D, U, H'; split_and!; [done..|lia]|].
  destruct (fields_drop D U H' R Hs) as (Ed & _ & _ & _ & El & _ & E29). rewrite Ed, El.
  pose proof Hs as [[LD DD] [LU DU] [LH DH] HR]. rewrite csn_time_fields in Ht |- * by done.
  pose proof (digits_value_bound 16 H' ltac:(lia)) as Hb. rewrite LH in Hb. change (16 ^ Z.of_nat 6) with 16777216 in Hb.
  pose proof (template_length _ _ HR) as LR. cbn in LR. change (2 ^ 24) with 16777216 in *. change (2 ^ 31) with 2147483648 in *.
  assert (no_digit_first 16 R) as Hnd.
  { destruct R as [|c R]; [done|]. cbn in HR. apply andb_true_iff in HR as [HR _]. by apply Ascii.eqb_eq in HR as ->. }
  unfold strntoi. rewrite strntoi_digits; [|lia|lia|done|done|lia|lia]. cbn [mbind option_bind].
  rewrite (char_at_Some _ _ _ E29), LR. cbn [Nat.sub Nat.eqb andb Ascii.eqb Bool.eqb ensure mbind option_bind].
  rewrite (proj2 (Z.leb_le _ _)) by lia. cbn [mbind option_bind]. rewrite carry_over_down by lia.
  set (v := digits_value 16 0 H' + d) in *. change 0x1000000 with 16777216.
  pose proof (Z.mod_pos_bound v 16777216 ltac:(lia)). pose proof (Z.div_mod v 16777216 ltac:(lia)).
  destruct (fmt_pad_spec 16 6 (v mod 16777216)) as (L2 & D2 & V2); [lia|lia|change (16 ^ Z.of_nat 6) with 16777216; lia|].
  assert (shape D U (fmt_pad 16 6 (v mod 16777216)) R) as Hs' by by destruct Hs; split.
  rewrite put_count by done.
  pose proof (digits_value_bound 10 U ltac:(lia)) as HbU. rewrite LU in HbU. change (10 ^ Z.of_nat 6) with 1000000 in HbU.
  change (10 ^ 6) with 1000000 in *. change (10 ^ 14) with 100000000000000 in *.
  destruct (shift_usec D U _ R (v / 16777216) Hm Hs') as (D' & U' & Hs2 & E & Hval); [lia|..].
  { change (10 ^ 6) with 1000000. change (10 ^ 14) with 100000000000000.
    set (w := digits_value 10 0 U + v / 16777216).
    pose proof (Z.div_mod w 1000000 ltac:(lia)). pose proof (Z.mod_pos_bound w 1000000 ltac:(lia)). lia. }
  rewrite E. cbn [mbind option_bind]. pose proof (fields_valid _ _ _ _ Hm Hs2) as Hv2. unfold valid in Hv2. rewrite Hv2.
  cbn [ensure mbind option_bind]. eexists _, _, _. split_and!; [done..|]. rewrite csn_time_fields by done.
  change (10 ^ 6) with 1000000 in *. change (2 ^ 24) with 16777216. lia.
Qed.
End env.
