(* ===== verification/Pending.v ===== *)
(** * Pending CSNs (servers/slapd/ctxcsn.c)

    Each backend keeps the list of the CSNs of its operations under way, from
    queueing to graduation; the context CSN is advanced to a CSN only when no
    older one of the same server is pending.  Every operation runs under
    [be_pcl_mutex].  A failed assertion is [None]. *)

From stdpp Require Import base list numbers option gmap.
From Stdlib Require Import Ascii String.
From stdpp Require Import base list numbers option gmap sorting.
From S2P Require Import Prelude Text Quorum Csn CsnFacts.

Local Open Scope Z_scope.

Definition SLAP_CSN_PENDING : Z := 1.
Definition SLAP_CSN_COMMIT : Z := 2.

(** [ce_op] is the operation's address. *)
Record slap_csn_entry := mkEntry { ce_op : Z; ce_csn : text; ce_sid : Z; ce_state : Z }.

(** What these functions use of an operation: its address, [o_csn] ([None] is a
    null [bv_val]) and [o_csn_master]. *)
Record Operation := mkOp { o_addr : Z; o_csn : option text; o_csn_master : option Z }.

Definition o_csn_empty (op : Operation) : bool := match op.(o_csn) with None | Some [] => true | _ => false end.

Definition slap_op_csn_free (op : Operation) : option Operation :=
  match op.(o_csn) with
  | None => Some op
  | Some _ => match op.(o_csn_master) with None => None | Some _ => Some (mkOp op.(o_addr) None None) end
  end.

Definition slap_op_csn_clean (op : Operation) : option Operation :=
  match op.(o_csn) with
  | None => Some op
  | Some _ =>
      match op.(o_csn_master) with
      | None => None
      | Some m => if m =? op.(o_addr) then Some (mkOp op.(o_addr) (Some []) (Some m))
                  else Some (mkOp op.(o_addr) None None)
      end
  end.

Section env.
Context `{Env}.

Definition slap_op_csn_assign (op : Operation) (csn : text) : option Operation :=
  _ ← ensure (slap_csn_verify_full csn);
  _ ← ensure (match op.(o_csn_master) with None => true | Some m => m =? op.(o_addr) end);
  Some (mkOp op.(o_addr) (Some csn) (Some op.(o_addr))).

(** The state of the first entry of the operation set to [SLAP_CSN_COMMIT]. *)
Fixpoint mark_commit (addr sid : Z) (l : list slap_csn_entry) : option (list slap_csn_entry) :=
  match l with
  | [] => Some []
  | e :: l =>
      if e.(ce_op) =? addr then
        _ ← ensure ((sid <? 0) || (sid =? e.(ce_sid)));
        Some (mkEntry e.(ce_op) e.(ce_csn) e.(ce_sid) SLAP_CSN_COMMIT :: l)
      else l ← mark_commit addr sid l; Some (e :: l)
  end.

(** The search for the last committed CSN before a pending one. *)
Fixpoint find_committed (addr sid : Z) (committed : option text) (l : list slap_csn_entry)
  : option (option text) :=
  match l with
  | [] => Some committed
  | e :: l =>
      if sid =? e.(ce_sid) then
        _ ← match committed with
            | Some c => cmp ← slap_csn_compare_ts e.(ce_csn) c; ensure (negb (cmp <? 0))
            | None => Some tt
            end;
        if e.(ce_state) =? SLAP_CSN_COMMIT then
          if e.(ce_op) =? addr then Some (Some e.(ce_csn)) else find_committed addr sid (Some e.(ce_csn)) l
        else if e.(ce_state) =? SLAP_CSN_PENDING then Some committed
        else None
      else find_committed addr sid committed l
  end.

(** The server ID, the CSN for [maxcsn] when it is asked for, and the list. *)
Definition slap_get_commit_csn (op : Operation) (want_max : bool) (l : list slap_csn_entry)
  : option (Z * option text * list slap_csn_entry) :=
  sid ← match op.(o_csn) with
        | None | Some [] => Some (-1)
        | Some c => _ ← ensure (slap_csn_get_sid c >=? 0); Some (slap_csn_get_sid c)
        end;
  l ← mark_commit op.(o_addr) sid l;
  max ← (if want_max && (sid >=? 0) then find_committed op.(o_addr) sid None l else Some None);
  Some (sid, max, l).

(** The first entry of the operation removed: its state with what is left. *)
Fixpoint graduate (addr : Z) (ocsn : text) (l : list slap_csn_entry) : option (Z * list slap_csn_entry) :=
  match l with
  | [] => Some (0, [])
  | e :: l =>
      if e.(ce_op) =? addr then
        _ ← ensure (e.(ce_state) >? 0);
        m ← slap_csn_match ocsn e.(ce_csn);
        _ ← ensure m;
        Some (e.(ce_state), l)
      else '(found, l) ← graduate addr ocsn l; Some (found, e :: l)
  end.

Definition slap_graduate_commit_csn (op : Operation) (l : list slap_csn_entry)
  : option (Z * Operation * list slap_csn_entry) :=
  '(found, l) ← graduate op.(o_addr) (default [] op.(o_csn)) l;
  op ← (if found =? 0 then Some op else slap_op_csn_clean op);
  Some (found, op, l).

(** The loop of [slap_queue_csn]: the entry before which the new one goes, if
    the operation has none yet. *)
Inductive place := AtTail | Before (n : nat) | Already.

Fixpoint queue_place (addr sid : Z) (csn : text) (n : nat) (before : option nat) (l : list slap_csn_entry)
  : option place :=
  match l with
  | [] => Some (match before with None => AtTail | Some i => Before i end)
  | e :: l =>
      before ← (if (e.(ce_sid) =? sid) && bool_decide (before = None) then
                  cmp ← slap_csn_compare_ts csn e.(ce_csn);
                  Some (if cmp <? 0 then Some n else None)
                else Some before);
      if e.(ce_op) =? addr then
        _ ← ensure (e.(ce_sid) =? sid); _ ← ensure (negb mode_check); Some Already
      else queue_place addr sid csn (S n) before l
  end.

Definition slap_queue_csn (op : Operation) (csn : text) (l : list slap_csn_entry)
  : option (Operation * list slap_csn_entry) :=
  _ ← ensure (slap_csn_verify_full csn);
  let sid := slap_csn_get_sid csn in
  _ ← ensure (sid >? -1);
  p ← queue_place op.(o_addr) sid csn 0 None l;
  match p with
  | Already => Some (op, l)
  | _ =>
      _ ← ensure (o_csn_empty op);
      op ← slap_op_csn_assign op csn;
      let e := mkEntry op.(o_addr) csn sid SLAP_CSN_PENDING in
      Some (op, match p with Before n => take n l ++ e :: drop n l | _ => l ++ [e] end)
  end.
End env.

(** * The list of pending CSNs stays in order *)

Section env.
Context `{Env}.

Record entry_ok (e : slap_csn_entry) : Prop := {
  entry_valid : valid e.(ce_csn);
  entry_sid : e.(ce_sid) = sid e.(ce_csn);
  entry_state : e.(ce_state) = SLAP_CSN_PENDING \/ e.(ce_state) = SLAP_CSN_COMMIT;
}.

(** Entries of one server are in the order of their time stamps. *)
Definition in_order (a b : slap_csn_entry) : Prop := a.(ce_sid) = b.(ce_sid) -> cts a.(ce_csn) b.(ce_csn) <= 0.

Record pending_ok (l : list slap_csn_entry) : Prop := {
  pending_entries : Forall entry_ok l;
  pending_ops : NoDup (ce_op <$> l);
  pending_sorted : StronglySorted in_order l;
}.

Lemma pending_ok_cons e l :
  pending_ok (e :: l) <-> entry_ok e /\ (e.(ce_op) ∉ ce_op <$> l) /\ Forall (in_order e) l /\ pending_ok l.
Proof.
  split.
  - intros [H1 H2 H3]. apply list.Forall_cons in H1 as [? ?]. apply list.NoDup_cons in H2 as [? ?].
    apply StronglySorted_inv in H3 as [? ?]. by split_and!.
  - intros (He & Ho & Hf & [H1 H2 H3]). split; by constructor.
Qed.

Lemma compare_entries a b : entry_ok a -> entry_ok b ->
  slap_csn_compare_ts a.(ce_csn) b.(ce_csn) = Some (cts a.(ce_csn) b.(ce_csn)).
Proof. intros [? _ _] [? _ _]. by apply compare_ts_valid. Qed.

(** ** Queueing *)

(** The place found is behind the entries of the server that are not newer and
    before one that is. *)
Lemma queue_place_spec addr s csn n l :
  valid csn -> Forall entry_ok l -> addr ∉ ce_op <$> l ->
  exists p, queue_place addr s csn n None l = Some p /\
    match p with
    | AtTail => Forall (fun e => e.(ce_sid) = s -> cts e.(ce_csn) csn <= 0) l
    | Before i => exists u e v, l = u ++ e :: v /\ (i = n + List.length u)%nat /\ e.(ce_sid) = s /\ cts csn e.(ce_csn) < 0 /\
        Forall (fun e => e.(ce_sid) = s -> cts e.(ce_csn) csn <= 0) u
    | Already => False
    end.
Proof.
  intros Hv Hl. revert n. induction Hl as [|e l He Hl IH]; intros n Ho; [by exists AtTail|].
  rewrite fmap_cons, not_elem_of_cons in Ho. destruct Ho as [Hne Ho]. cbn [queue_place].
  rewrite bool_decide_eq_true_2, andb_true_r by done.
  assert ((ce_op e =? addr) = false) as Hop by (apply Z.eqb_neq; congruence).
  destruct (Z.eqb_spec (ce_sid e) s) as [Es|Es].
  - rewrite compare_ts_valid by (done || by destruct He). cbn [mbind option_bind].
    destruct (Z.ltb_spec (cts csn (ce_csn e)) 0) as [Ec|Ec]; rewrite Hop.
    + exists (Before n). split.
      * clear IH. generalize (S n). induction Hl as [|e' l He' Hl IH]; intros m; [done|].
        rewrite fmap_cons, not_elem_of_cons in Ho. destruct Ho as [Hne' Ho]. cbn [queue_place].
        rewrite bool_decide_eq_false_2, andb_false_r by done. cbn [mbind option_bind].
        replace (ce_op e' =? addr) with false by (symmetry; apply Z.eqb_neq; congruence). by apply IH.
      * exists [], e, l. split_and!; [done|cbn; lia|done|done|constructor].
    + destruct (IH (S n) Ho) as (p & -> & Hp). exists p. split; [done|].
      assert (ce_sid e = s -> cts (ce_csn e) csn <= 0) by (intros _; rewrite (cts_antisym csn); lia).
      destruct p as [|i|]; [by constructor| |done].
      destruct Hp as (u & e1 & v & -> & -> & ? & ? & ?). exists (e :: u), e1, v. split_and!; [done|cbn; lia|done|done|by constructor].
  - cbn [mbind option_bind]. rewrite Hop. destruct (IH (S n) Ho) as (p & -> & Hp). exists p. split; [done|].
    destruct p as [|i|]; [by constructor| |done].
    destruct Hp as (u & e1 & v & -> & -> & ? & ? & ?). exists (e :: u), e1, v. split_and!; [done|cbn; lia|done|done|by constructor].
Qed.

(** An entry put between two parts of the list. *)
Lemma pending_insert u e v :
  pending_ok (u ++ v) -> entry_ok e -> e.(ce_op) ∉ ce_op <$> (u ++ v) ->
  Forall (fun x => in_order x e) u -> Forall (in_order e) v -> pending_ok (u ++ e :: v).
Proof.
  intros Hok He Ho Hu Hv. induction u as [|x u IH]; cbn [app] in *.
  { apply pending_ok_cons. by split_and!. }
  apply pending_ok_cons in Hok as (Hx & Hox & Hfx & Hok). apply list.Forall_cons in Hu as [Hxe Hu].
  rewrite fmap_cons, not_elem_of_cons in Ho. destruct Ho as [Hne Ho].
  apply pending_ok_cons. split_and!; [done| | |by apply IH].
  - rewrite fmap_app, fmap_cons. rewrite fmap_app in Hox. rewrite elem_of_app, elem_of_cons in *.
    intros [?|[?|?]]; [tauto|congruence|tauto].
  - apply list.Forall_app in Hfx as [? ?]. apply list.Forall_app. split; [done|]. by constructor.
Qed.

Lemma in_order_newer csn x e : entry_ok x -> entry_ok e -> valid csn -> x.(ce_sid) = e.(ce_sid) ->
  cts csn x.(ce_csn) < 0 -> in_order x e -> cts csn e.(ce_csn) <= 0.
Proof. intros [? _ _] [? _ _] Hv Hs Hc Ho. apply (cts_trans csn (ce_csn x)); auto. lia. Qed.

Definition queued (op : Operation) (csn : text) : slap_csn_entry := mkEntry op.(o_addr) csn (sid csn) SLAP_CSN_PENDING.

Lemma queue_csn_spec op csn l :
  pending_ok l -> valid csn -> op.(o_addr) ∉ ce_op <$> l -> o_csn_empty op = true ->
  (forall m, op.(o_csn_master) = Some m -> m = op.(o_addr)) ->
  exists u v, l = u ++ v /\
    slap_queue_csn op csn l = Some (mkOp op.(o_addr) (Some csn) (Some op.(o_addr)), u ++ queued op csn :: v) /\
    pending_ok (u ++ queued op csn :: v).
Proof.
  intros Hok Hv Ho Hemp Hmaster. unfold slap_queue_csn. pose proof Hv as Hv'. unfold valid in Hv'. rewrite Hv'.
  pose proof (sid_range csn Hv) as Hr. cbn [ensure mbind option_bind]. fold (sid csn).
  replace (sid csn >? -1) with true by (symmetry; apply Z.gtb_lt; lia). cbn [ensure mbind option_bind].
  destruct (queue_place_spec (o_addr op) (sid csn) csn 0 l Hv (pending_entries l Hok) Ho) as (p & -> & Hp).
  cbn [mbind option_bind]. rewrite Hemp. cbn [ensure mbind option_bind].
  assert (slap_op_csn_assign op csn = Some (mkOp (o_addr op) (Some csn) (Some (o_addr op)))) as ->.
  { unfold slap_op_csn_assign. rewrite Hv'. cbn [ensure mbind option_bind].
    destruct (o_csn_master op) as [m|]; [|done]. by rewrite (Hmaster m eq_refl), Z.eqb_refl. }
  assert (entry_ok (queued op csn)) as Hq by (split; [done|done|by left]).
  destruct p as [|i|]; [| |done]; cbn [mbind option_bind].
  - exists l, []. rewrite app_nil_r. split_and!; [done|done|].
    apply pending_insert; rewrite ?app_nil_r; try done.
  - destruct Hp as (u & e & v & -> & -> & He & Hc & Hu). exists u, (e :: v). cbn [Nat.add].
    rewrite take_app_length, drop_app_length. split_and!; [done..|].
    apply pending_insert; try done.
    assert (pending_ok (e :: v)) as Hev.
    { destruct Hok as [H1 H2 H3]. apply list.Forall_app in H1 as [_ H1]. rewrite fmap_app in H2. apply list.NoDup_app in H2 as (_ & _ & H2).
      split; [done|done|]. clear -H3. induction u; [done|]. apply StronglySorted_inv in H3 as [? _]. auto. }
    apply pending_ok_cons in Hev as (Hee & _ & Hfe & Hvok). constructor; [intros _; cbn [ce_csn queued]; lia|].
    destruct Hvok as [Hve _ _]. rewrite list.Forall_forall in Hfe, Hve |- *. intros x Hx Hs. cbn [ce_csn ce_sid queued] in Hs |- *.
    apply (in_order_newer csn e x); auto. by rewrite He.
Qed.

(** ** Graduating *)

Lemma match_valid a : valid a -> slap_csn_match a a = Some true.
Proof. intros Ha. unfold slap_csn_match. by rewrite valid_lite, memcmp_refl. Qed.

Lemma graduate_spec u e v csn :
  e.(ce_op) ∉ ce_op <$> u -> entry_ok e -> e.(ce_csn) = csn ->
  graduate e.(ce_op) csn (u ++ e :: v) = Some (e.(ce_state), u ++ v).
Proof.
  intros Ho [Hv _ Hst] <-. induction u as [|x u IH]; cbn [app graduate].
  - rewrite Z.eqb_refl. assert ((ce_state e >? 0) = true) as -> by (destruct Hst as [-> | ->]; done).
    by rewrite match_valid.
  - rewrite fmap_cons, not_elem_of_cons in Ho. destruct Ho as [Hne Ho].
    replace (ce_op x =? ce_op e) with false by (symmetry; apply Z.eqb_neq; congruence). by rewrite IH.
Qed.

(** ** Committing *)

Lemma mark_commit_spec u e v s :
  e.(ce_op) ∉ ce_op <$> u -> s = e.(ce_sid) ->
  mark_commit e.(ce_op) s (u ++ e :: v) = Some (u ++ mkEntry e.(ce_op) e.(ce_csn) e.(ce_sid) SLAP_CSN_COMMIT :: v).
Proof.
  intros Ho ->. induction u as [|x u IH]; cbn [app mark_commit].
  - by rewrite !Z.eqb_refl, orb_true_r.
  - rewrite fmap_cons, not_elem_of_cons in Ho. destruct Ho as [Hne Ho].
    replace (ce_op x =? ce_op e) with false by (symmetry; apply Z.eqb_neq; congruence). by rewrite IH.
Qed.

(** An entry replaced by one with the same CSN and operation. *)
Lemma pending_replace u e e' v :
  pending_ok (u ++ e :: v) -> entry_ok e' -> e'.(ce_op) = e.(ce_op) -> e'.(ce_csn) = e.(ce_csn) -> e'.(ce_sid) = e.(ce_sid) ->
  pending_ok (u ++ e' :: v).
Proof.
  intros Hok He Eo Ec Es. induction u as [|x u IH]; cbn [app] in *.
  - apply pending_ok_cons in Hok as (_ & Ho & Hf & Hok). apply pending_ok_cons. unfold in_order in *. by rewrite Eo, Ec, Es.
  - apply pending_ok_cons in Hok as (Hx & Ho & Hf & Hok). apply pending_ok_cons. split_and!; [done| | |by apply IH].
    + revert Ho. rewrite !fmap_app, !fmap_cons. by rewrite Eo.
    + apply list.Forall_app in Hf as [? [Hxe ?]%list.Forall_cons]. apply list.Forall_app. split; [done|].
      constructor; [|done]. unfold in_order in *. by rewrite Ec, Es.
Qed.

Lemma find_committed_spec addr s committed l :
  pending_ok l ->
  (forall c, committed = Some c -> valid c /\ Forall (fun e => e.(ce_sid) = s -> cts c e.(ce_csn) <= 0) l) ->
  exists r, find_committed addr s committed l = Some r /\
    (r = committed \/ exists e, e ∈ l /\ r = Some e.(ce_csn) /\ e.(ce_sid) = s /\ e.(ce_state) = SLAP_CSN_COMMIT) /\
    (forall c, r = Some c -> Forall (fun e => e.(ce_sid) = s -> e.(ce_state) = SLAP_CSN_PENDING -> cts c e.(ce_csn) <= 0) l) /\
    (forall e, e ∈ l -> e.(ce_op) = addr -> e.(ce_sid) = s -> e.(ce_state) = SLAP_CSN_COMMIT ->
       r = Some e.(ce_csn) \/ exists p, p ∈ l /\ p.(ce_sid) = s /\ p.(ce_state) = SLAP_CSN_PENDING /\ cts p.(ce_csn) e.(ce_csn) <= 0).
Proof.
  assert (SLAP_CSN_PENDING <> SLAP_CSN_COMMIT) as Hpc by done.
  revert committed. induction l as [|x l IH]; intros committed Hok Hc.
  { exists committed. split_and!; [done|by left|constructor|]. intros e He. by apply not_elem_of_nil in He. }
  apply pending_ok_cons in Hok as (Hx & Ho & Hf & Hok). cbn [find_committed].
  assert (forall c, committed = Some c -> valid c /\ (ce_sid x = s -> cts c (ce_csn x) <= 0) /\
    Forall (fun e => ce_sid e = s -> cts c (ce_csn e) <= 0) l) as Hc'.
  { intros c E. destruct (Hc c E) as [? [? ?]%list.Forall_cons]. done. }
  destruct (Z.eqb_spec s (ce_sid x)) as [Es|Es].
  2: { destruct (IH committed Hok) as (r & -> & H1 & H2 & H3).
       { intros c E. destruct (Hc' c E) as (? & _ & ?). done. }
       exists r. split_and!; [done| | |].
       - destruct H1 as [->|(e & He & ?)]; [by left|]. right. exists e. split; [apply elem_of_cons; by right|done].
       - intros c E. constructor; [congruence|auto].
       - intros e [->|He]%elem_of_cons Ea Es'; [congruence|]. intros Est. destruct (H3 e He Ea Es' Est) as [?|(p & Hp & ?)]; [by left|].
         right. exists p. split; [apply elem_of_cons; by right|done]. }
  assert (match committed with Some c => cmp ← slap_csn_compare_ts (ce_csn x) c; ensure (negb (cmp <? 0)) | None => Some tt end = Some tt) as ->.
  { destruct committed as [c|]; [|done]. destruct (Hc' c eq_refl) as (Hvc & Hle & _).
    rewrite compare_ts_valid by (done || by destruct Hx). cbn [mbind option_bind]. rewrite (cts_antisym c).
    rewrite (proj2 (Z.ltb_ge _ _)); [done|]. specialize (Hle (eq_sym Es)). lia. }
  cbn [mbind option_bind]. pose proof Hx as [Hvx Hsx Hst].
  assert (Forall (fun e => ce_sid e = s -> cts (ce_csn x) (ce_csn e) <= 0) l) as Hxl.
  { eapply list.Forall_impl; [exact Hf|]. intros e Hxe E. apply Hxe. congruence. }
  destruct Hst as [Hst|Hst]; rewrite Hst; cbn [Z.eqb Pos.eqb SLAP_CSN_COMMIT SLAP_CSN_PENDING].
  - exists committed. split_and!; [done|by left| |].
    + intros c E. destruct (Hc' c E) as (_ & ? & Hl). constructor; [auto|].
      eapply list.Forall_impl; [exact Hl|]. auto.
    + intros e He Ea Es' Est. right. exists x. split_and!; [apply elem_of_cons; by left|done|done|].
      apply elem_of_cons in He as [->|He]; [congruence|]. rewrite list.Forall_forall in Hxl. auto.
  - destruct (Z.eqb_spec (ce_op x) addr) as [Ea|Ea].
    + exists (Some (ce_csn x)). split_and!; [done| | |].
      * right. exists x. split_and!; [apply elem_of_cons; by left|done..].
      * intros c [= <-]. constructor; [congruence|]. eapply list.Forall_impl; [exact Hxl|]. auto.
      * intros e [->|He]%elem_of_cons Ea' Es' Est; [by left|]. exfalso. apply Ho. rewrite Ea, <- Ea'. by apply list_elem_of_fmap_2.
    + destruct (IH (Some (ce_csn x)) Hok) as (r & -> & H1 & H2 & H3); [by intros c [= <-]|].
      exists r. split_and!; [done| | |].
      * right. destruct H1 as [->|(e & He & ?)]; [exists x; split; [apply elem_of_cons; by left|done]|].
        exists e. split; [apply elem_of_cons; by right|done].
      * intros c E. constructor; [congruence|auto].
      * intros e [->|He]%elem_of_cons Ea' Es' Est; [congruence|]. destruct (H3 e He Ea' Es' Est) as [?|(p & Hp & ?)]; [by left|].
        right. exists p. split; [apply elem_of_cons; by right|done].
Qed.
End env.
