(* ===== verification/CookieTheorems.v ===== *)
(** * The theorems about CSNs, cookies and pending CSNs *)

From stdpp Require Import base list numbers option gmap sorting.
From Stdlib Require Import Ascii String.
From S2P Require Import Prelude Text Digits Quorum Csn CsnFacts Cookie CookieFacts CookieParse CsnShift Pending.

Local Open Scope Z_scope.

(** ** A setting to evaluate in *)

(** All checks on, and not the strict mode, which reads the clock. *)
#[local] Instance sample_env : Env :=
  {| mode_check := true; mode_strict := false; clock := kw "20240101000000.000000Z#000000#000#000000" |}.

Definition csn_a : text := kw "20200101000000.000000Z#000000#001#000000".
Definition csn_a' : text := kw "20210101000000.000000Z#000000#001#000000".
Definition csn_b : text := kw "20200601000000.500000Z#000007#00a#000000".
Definition csn_c : text := kw "20190101000000.000000Z#000000#0ff#000000".

Lemma sample_normal : Forall (normal ) [csn_a; csn_a'; csn_b; csn_c].
Proof. repeat constructor; vm_compute; reflexivity. Qed.

Lemma sample_ok l : l ∈ [[csn_a]; [csn_a'; csn_b]; [csn_b; csn_c]; [csn_a; csn_c]; [csn_a; csn_b; csn_c]] ->
  csns_ok l.
Proof.
  intros Hl. rewrite !elem_of_cons in Hl. destruct Hl as [->|[->|[->|[->|[->|Hl]]]]]; [..|by apply not_elem_of_nil in Hl];
    (split; [repeat constructor; vm_compute; reflexivity|repeat constructor; vm_compute; reflexivity]).
Qed.

Definition sample_cookie (l : list text) : sync_cookie := mkCookie 1 2 (sid <$> l) l.

(** ** Arrays of CSNs *)

(** Sorting an array of CSNs whose valid values are in normal form leaves
    valid CSNs in ascending order of their server IDs, one for each server ID of
    a valid value, namely the most recent of that server; the number returned is
    the number of CSNs left. *)
Theorem csns_sort_correct `{Env} vals :
  forallb no_nul (until_empty vals) = true ->
  let good := filter (fun v => slap_csn_verify_full v = true) (until_empty vals) in
  Forall normal good ->
  exists l, slap_csns_validate_and_sort vals = Some (Z.of_nat (List.length l), l) /\ csns_ok l /\
    forall s c, csn_of l s = Some c <->
      c ∈ good /\ sid c = s /\ forall c', c' ∈ good -> sid c' = s -> cts c' c <= 0.
Proof. apply validate_and_sort_spec. Qed.

Lemma csns_sort_correct_witness :
  slap_csns_validate_and_sort [csn_c; csn_a; kw "bad"; csn_b; csn_a'] = Some (3, [csn_a'; csn_b; csn_c]) /\
  exists l, slap_csns_validate_and_sort [csn_c; csn_a; kw "bad"; csn_b; csn_a'] =
    Some (Z.of_nat (List.length l), l) /\ csns_ok l.
Proof.
  split; [vm_compute; reflexivity|].
  destruct (csns_sort_correct [csn_c; csn_a; kw "bad"; csn_b; csn_a']) as (l & E & Hok & _).
  - vm_compute. reflexivity.
  - apply list.Forall_forall. intros c [Hv Hc]%list_elem_of_filter.
    assert (c ∈ [csn_c; csn_a; kw "bad"; csn_b; csn_a']) as Hc' by exact Hc.
    rewrite !elem_of_cons in Hc'. pose proof sample_normal as Hn. rewrite list.Forall_forall in Hn.
    destruct Hc' as [->|[->|[->|[->|[->|Hc']]]]]; try (apply Hn; rewrite !elem_of_cons; tauto).
    by vm_compute in Hv.
  - exists l. split; [exact E|exact Hok].
Defined.

(** Comparing two sorted arrays gives a result that is not negative exactly
    when the first covers the second (each server of the second is in the first,
    with a CSN at least as recent), and zero exactly when they are equal. *)
Theorem csns_compare_correct `{Env} next base :
  csns_ok next -> csns_ok base ->
  exists r, slap_csns_compare next base = Some r /\ (0 <= r <-> covers next base) /\ (r = 0 <-> next = base).
Proof. apply csns_compare_spec. Qed.

Lemma csns_compare_correct_witness :
  exists r, slap_csns_compare [csn_a'; csn_b] [csn_a] = Some r /\
    (0 <= r <-> covers [csn_a'; csn_b] [csn_a]) /\ (r = 0 <-> [csn_a'; csn_b] = [csn_a]).
Proof. apply (csns_compare_correct ); apply sample_ok; rewrite !elem_of_cons; tauto. Defined.

(** ** Cookies *)

(** C14: merging a cookie into another keeps the other well-formed, gives each
    server the more recent of the two CSNs, keeps the replica and server ID, and
    returns the index of the most recent CSN that was new or newer than before,
    or -1 when there was none and nothing changed. *)
Theorem cookie_merge_correct `{Env} bd dst src :
  cookie_ok dst -> cookie_ok src ->
  exists bd' lead dst', slap_cookie_merge bd dst src = Some (lead, dst', bd') /\ cookie_ok dst' /\
    ck_rid dst' = ck_rid dst /\ ck_sid dst' = ck_sid dst /\
    (forall s, csn_of (ck_csns dst') s = newer (csn_of (ck_csns dst) s) (csn_of (ck_csns src) s)) /\
    ((lead = -1 /\ dst' = dst) \/
     exists m, 0 <= lead /\ ck_csns dst' !! Z.to_nat lead = Some m /\ m ∈ ck_csns src /\
       gained (ck_csns dst) m = true /\
       forall c, c ∈ ck_csns src -> gained (ck_csns dst) c = true -> cts c m <= 0).
Proof.
  intros Hd Hs. pose proof Hs as [Hls Es]. pose proof Hd as [Hld Ed].
  destruct (merge_loop_ok bd dst (-1) (ck_csns src) Hd Hls) as (bd' & lead & E & Hlead); [by left|lia|].
  assert (cookie_ok (cookie_with dst (csn_puts (ck_csns src) (ck_csns dst)))) as Hok.
  { apply cookie_with_ok, csn_puts_ok; [by destruct Hls|done]. }
  exists bd', lead, (cookie_with dst (csn_puts (ck_csns src) (ck_csns dst))). split.
  { unfold slap_cookie_merge. rewrite !check_cookie_ok by done. cbn [mbind option_bind]. rewrite Es, E. cbn [mbind option_bind].
    rewrite check_cookie_ok by done. by case_if. }
  split_and!; [done..| |].
  - intros s. apply csn_of_puts; done.
  - destruct Hlead as [(-> & _ & Hno)|(m & H0 & Hm & [Hf|[Hin Hg]] & _ & Hmax)]; [left|done|right; by exists m].
    split; [done|]. transitivity (cookie_with dst (ck_csns dst)); [f_equal|by apply cookie_with_same].
    apply csns_ext; [by apply csn_puts_ok; [destruct Hls|]|done|].
    intros s. rewrite csn_of_puts by done. destruct (csn_of (ck_csns src) s) as [c|] eqn:Ec; [|by destruct (csn_of (ck_csns dst) s)].
    apply csn_of_Some in Ec as [Hin <-]. specialize (Hno c Hin). unfold gained in Hno.
    destruct (csn_of (ck_csns dst) (sid c)) as [x|]; [|done]. cbn. by rewrite Hno.
Qed.

Lemma cookie_merge_correct_witness :
  exists bd' lead dst', slap_cookie_merge (Some (mkBD (Some fresh_quorum) 1))
      (sample_cookie [csn_a; csn_c]) (sample_cookie [csn_a'; csn_b]) = Some (lead, dst', bd') /\
    cookie_ok dst'.
Proof.
  destruct (cookie_merge_correct (Some (mkBD (Some fresh_quorum) 1)) (sample_cookie [csn_a; csn_c])
    (sample_cookie [csn_a'; csn_b])) as (bd' & lead & dst' & E & Hok & _).
  - split; [apply sample_ok; rewrite !elem_of_cons; tauto|reflexivity].
  - split; [apply sample_ok; rewrite !elem_of_cons; tauto|reflexivity].
  - exists bd', lead, dst'. split; [exact E|exact Hok].
Defined.

(** Merging one CSN into a cookie stores it unless the cookie has one of
    that server at least as recent, touches no other server, and returns a
    positive number exactly when the CSN was stored. *)
Theorem cookie_merge_csn_correct `{Env} bd ck s c :
  cookie_ok ck -> normal c -> s < 0 \/ s = sid c ->
  exists bd' r ck', slap_cookie_merge_csn bd ck s c = Some (r, ck', bd') /\ cookie_ok ck' /\
    (forall t, csn_of (ck_csns ck') t =
       if t =? sid c then newer (csn_of (ck_csns ck) t) (Some c) else csn_of (ck_csns ck) t) /\
    (0 < r <-> gained (ck_csns ck) c = true) /\ (r <= 0 -> ck' = ck).
Proof.
  intros Hok Hc Hs. destruct (merge_csn_ok bd ck s c Hok Hc Hs) as (bd' & r & E & Hr).
  exists bd', r, (cookie_with ck (csn_put c (ck_csns ck))). split; [done|].
  assert (0 < r <-> gained (ck_csns ck) c = true) as Hiff.
  { unfold gained. rewrite Hr. destruct (csn_of (ck_csns ck) (sid c)); [by rewrite Z.gtb_lt|done]. }
  split_and!; [|intros t; apply csn_of_put, Hok|done|].
  - apply cookie_with_ok, csn_put_ok; [done|apply Hok].
  - intros Hle. rewrite put_not_gained; [by apply cookie_with_same|apply Hok|].
    apply not_true_is_false. intros Hg. apply Hiff in Hg. lia.
Qed.

Lemma cookie_merge_csn_correct_witness :
  exists bd' r ck', slap_cookie_merge_csn None (sample_cookie [csn_a; csn_c]) (-1) csn_b = Some (r, ck', bd') /\
    ck' = sample_cookie [csn_a; csn_b; csn_c].
Proof.
  destruct (cookie_merge_csn_correct None (sample_cookie [csn_a; csn_c]) (-1) csn_b) as (bd' & r & ck' & E & _).
  - split; [apply sample_ok; rewrite !elem_of_cons; tauto|reflexivity].
  - split; vm_compute; reflexivity.
  - by left.
  - exists bd', r, ck'. split; [exact E|]. revert E. vm_compute. congruence.
Defined.

(** Pulling an array into a cookie never moves the cookie back: the cookie
    it leaves is well-formed and covers the one before, and it is the sorted
    array exactly when the array covers the cookie and differs from it. *)
Theorem cookie_pull_monotone `{Env} dst vals :
  cookie_ok dst -> forallb no_nul (until_empty vals) = true ->
  Forall normal (filter (fun v => slap_csn_verify_full v = true) (until_empty vals)) ->
  exists l vector dst', slap_csns_validate_and_sort vals = Some (Z.of_nat (List.length l), l) /\
    slap_cookie_pull dst (Some vals) = Some (vector, dst') /\ cookie_ok dst' /\
    covers (ck_csns dst') (ck_csns dst) /\
    (0 < vector -> ck_csns dst' = l /\ covers l (ck_csns dst)) /\ (vector <= 0 -> dst' = dst) /\
    (0 < vector <-> covers l (ck_csns dst) /\ l <> ck_csns dst).
Proof.
  intros Hd Hn Hg. pose proof Hd as [Hld Ed].
  destruct (validate_and_sort_spec vals Hn Hg) as (l & E & Hl & _).
  destruct (csns_compare_spec l (ck_csns dst) Hl Hld) as (r & Er & H1 & H2).
  assert (covers (ck_csns dst) (ck_csns dst)) as Hrefl.
  { intros s b Hb. exists b. split; [done|]. by rewrite cts_refl. }
  unfold slap_cookie_pull. rewrite E. cbn [mbind option_bind]. rewrite Er. cbn [mbind option_bind].
  destruct (r >? 0) eqn:Ev; zb.
  - assert (slap_cookie_fetch dst l = Some (cookie_with dst l)) as ->.
    { unfold slap_cookie_fetch, slap_csns_parse_sids, slap_csns_length, ensure. pose proof (csns_valid l Hl) as Hv.
      rewrite until_empty_valid, csns_no_nul by done. cbn [mbind option_bind].
      change (slap_csn_get_sid <$> l) with (sid <$> l). fold (cookie_with dst l).
      by rewrite check_cookie_ok by by apply cookie_with_ok. }
    cbn [mbind option_bind]. rewrite check_cookie_ok by by apply cookie_with_ok. cbn [mbind option_bind].
    assert (covers l (ck_csns dst)) as Hc by (apply H1; lia).
    exists l, r, (cookie_with dst l). split_and!; [done|done|by apply cookie_with_ok|done|done|lia|].
    split; [|lia]. intros _. split; [done|]. intros E2. apply H2 in E2. lia.
  - cbn [mbind option_bind]. rewrite check_cookie_ok by done. cbn [mbind option_bind].
    exists l, r, dst. split_and!; [done..|lia|done|]. split; [lia|]. intros [Hc Hne].
    apply H1 in Hc. assert (r <> 0) by (intros E2; by apply Hne, H2). lia.
Qed.

Lemma cookie_pull_monotone_witness :
  exists vector dst', slap_cookie_pull (sample_cookie [csn_a]) (Some [csn_b; csn_a']) = Some (vector, dst') /\
    0 < vector /\ covers (ck_csns dst') [csn_a].
Proof.
  destruct (cookie_pull_monotone (sample_cookie [csn_a]) [csn_b; csn_a'])
    as (l & vector & dst' & _ & E & _ & Hc & _).
  - split; [apply sample_ok; rewrite !elem_of_cons; tauto|reflexivity].
  - vm_compute. reflexivity.
  - apply list.Forall_forall. intros c [_ Hc]%list_elem_of_filter.
    pose proof sample_normal as Hn. rewrite list.Forall_forall in Hn.
    assert (c ∈ [csn_b; csn_a']) as Hc' by exact Hc. rewrite !elem_of_cons in Hc'.
    destruct Hc' as [->|[->|Hc']]; [..|by apply not_elem_of_nil in Hc']; apply Hn; rewrite !elem_of_cons; tauto.
  - exists vector, dst'. split; [exact E|]. split; [|exact Hc]. revert E. vm_compute. intros [= <- _]. reflexivity.
Defined.

(** C39: the text composed for a cookie with a replica ID is parsed back to that
    cookie: CSNs that are sorted and valid, one for each server, and that the CSN
    syntax leaves as they are once the schema has the attribute, which is if they
    have small letters from the server ID on. Parsing any text comes to an end. *)
Theorem cookie_roundtrip `{Env} entryCSN dst l rid s :
  csns_ok l -> (entryCSN = true -> Forall (fun c => csnNormalize c = Some (Some c)) l) ->
  0 <= rid <= SLAP_SYNC_RID_MAX -> -1 <= s <= SLAP_SYNC_SID_MAX ->
  (exists t, slap_cookie_compose (Some l) rid s = Some t /\
     slap_cookie_parse entryCSN dst (Some t) = PDone LDAP_SUCCESS (mkCookie rid s (sid <$> l) l)) /\
  (forall src, slap_cookie_parse entryCSN dst src <> PFuel).
Proof.
  intros Hok Hk Hr Hs. split; [by apply parse_compose|]. intros [src|]; [|done]. unfold slap_cookie_parse.
  destruct src as [|c src]; [done|]. do 2 (case_if; [done|]). apply parse_loop_ends. lia.
Qed.

Lemma cookie_roundtrip_witness :
  (exists t, slap_cookie_compose (Some [csn_a; csn_b; csn_c]) 7 255 = Some t /\
     slap_cookie_parse true slap_cookie_init (Some t) =
       PDone LDAP_SUCCESS (mkCookie 7 255 [1; 10; 255] [csn_a; csn_b; csn_c])) /\
  (forall src, slap_cookie_parse true slap_cookie_init src <> PFuel).
Proof.
  apply (cookie_roundtrip true slap_cookie_init [csn_a; csn_b; csn_c] 7 255).
  - apply sample_ok. rewrite !elem_of_cons. tauto.
  - intros _. repeat constructor.
  - by vm_compute.
  - by vm_compute.
Defined.

(** A CSN with large letters is parsed into its normal form. *)
Lemma large_letters_normalised :
  slap_cookie_parse true slap_cookie_init (Some (kw "rid=001,csn=20200101000000.000000Z#00000A#00A#00000A")) =
    PDone LDAP_SUCCESS (mkCookie 1 (-1) [10] [kw "20200101000000.000000Z#00000A#00a#00000a"]) /\
  csnNormalize (kw "20200101000000Z#00000A#0A#00000A") = Some (Some (kw "20200101000000.000000Z#00000A#00a#00000a")) /\
  csnNormalize (kw "2020010100:00:00Z#0x000A#1#000A") = Some (Some (kw "20200101000000.000000Z#00000A#001#00000a")).
Proof. by vm_compute. Qed.

(** A NUL within the date of a value in the formats of OpenLDAP 2.1 and 2.3 fails
    the assertion behind the copying. *)
Lemma csn_nul_aborts :
  csnNormalize (kw "2020010" ++ "000"%char :: kw "000000Z#000000#00#000000") = None /\
  csnNormalize (kw "2020010" ++ "000"%char :: kw "00:00:00Z#0x0000#1#0000") = None.
Proof. by vm_compute. Qed.

(** Comparing an array with a cookie says that a server the cookie does not
    know is no news when its ID is above all the cookie has, or the cookie is
    empty, while [slap_cookie_compare_csn] says that it is. *)
Theorem compare_csnset_misses_new_server :
  slap_cookie_compare_csnset (sample_cookie [csn_a]) [csn_b] = Some 0 /\
  slap_cookie_compare_csn (sample_cookie [csn_a]) csn_b = Some 1 /\
  slap_cookie_compare_csnset (sample_cookie [csn_c]) [csn_b] = Some 1 /\
  slap_cookie_compare_csnset slap_cookie_init [csn_a] = Some 0.
Proof. vm_compute. done. Qed.

(** ** Shifting *)

(** Outside the strict mode, shifting a valid CSN adds the distance to the
    number that its date, microseconds and change counter make, and changes
    nothing else, when the shift does not go back beyond the second of the CSN
    and stays within its range. *)
Theorem csn_shift_adds `{Env} c d :
  mode_strict = false -> valid c ->
  let within := digits_value 10 0 (sub c 15 6) * 2 ^ 24 + digits_value 16 0 (sub c 23 6) + d in
  0 <= within < 2 * 10 ^ 6 * 2 ^ 24 -> d < 2 ^ 31 - 2 ^ 24 ->
  csn_time c + d < 10 ^ 14 * 10 ^ 6 * 2 ^ 24 ->
  exists c', slap_csn_shift c d = Some c' /\ valid c' /\ csn_time c' = csn_time c + d /\ drop 29 c' = drop 29 c.
Proof.
  intros Hm Hv within Hw Hd Ht. destruct (match_shape c (valid_template c Hv)) as (D & U & C & R & -> & Hs).
  unfold within in Hw. rewrite (sub_usec _ _ _ _ Hs), (sub_count _ _ _ _ Hs) in Hw.
  destruct (csn_shift_spec D U C R d Hm Hs Hw Hd Ht) as (D' & U' & C' & E & Hs' & E').
  exists (fields D' U' C' R). split_and!; [done|by apply fields_valid|done|].
  destruct (fields_drop _ _ _ _ Hs) as (_ & _ & _ & -> & _). by destruct (fields_drop _ _ _ _ Hs') as (_ & _ & _ & -> & _).
Qed.

Lemma csn_shift_adds_witness :
  exists c', slap_csn_shift csn_b (-8) = Some c' /\ csn_time c' = csn_time csn_b + -8 /\
    c' = kw "20200601000000.499999Z#ffffff#00a#000000".
Proof.
  destruct (csn_shift_adds csn_b (-8)) as (c' & E & _ & Ht & _).
  - reflexivity.
  - vm_compute. reflexivity.
  - vm_compute. split; [discriminate|reflexivity].
  - vm_compute. reflexivity.
  - vm_compute. reflexivity.
  - exists c'. split; [exact E|]. split; [exact Ht|]. revert E. vm_compute. congruence.
Defined.

(** Shifting back across a second moves the CSN forward, by almost one
    second, instead of back. *)
Theorem csn_shift_backward_wrong :
  slap_csn_shift csn_a (-1) = Some (kw "20200101000001.999999Z#ffffff#001#000000") /\
  slap_csn_compare_ts (kw "20200101000001.999999Z#ffffff#001#000000") csn_a = Some 1.
Proof. vm_compute. done. Qed.

(** ** Pending CSNs *)

(** Queueing the CSN of an operation that has none puts it into the list
    with the others of its server in the order of their time stamps, with each
    operation there once; graduating the operation next gives the list from
    before. *)
Theorem pending_queue_graduate `{Env} op csn l :
  pending_ok l -> valid csn -> op.(o_addr) ∉ ce_op <$> l -> o_csn_empty op = true ->
  (forall m, op.(o_csn_master) = Some m -> m = op.(o_addr)) ->
  exists op' l', slap_queue_csn op csn l = Some (op', l') /\ pending_ok l' /\ l' ≡ₚ queued op csn :: l /\
    o_csn op' = Some csn /\
    exists op'', slap_graduate_commit_csn op' l' = Some (SLAP_CSN_PENDING, op'', l) /\ o_csn_empty op'' = true.
Proof.
  intros Hok Hv Ho Hemp Hm. destruct (queue_csn_spec op csn l Hok Hv Ho Hemp Hm) as (u & v & -> & E & Hok').
  eexists _, _. split; [exact E|]. split_and!; [done|by rewrite Permutation_middle|done|].
  rewrite fmap_app, not_elem_of_app in Ho. destruct Ho as [Hou _].
  unfold slap_graduate_commit_csn. cbn [o_addr o_csn default from_option id].
  pose proof (graduate_spec u (queued op csn) v csn Hou ltac:(split; [done|done|by left]) eq_refl) as Eg.
  cbn [ce_op queued] in Eg. rewrite Eg. cbn [mbind option_bind ce_state queued]. unfold slap_op_csn_clean.
  cbn [o_csn o_csn_master o_addr]. rewrite Z.eqb_refl. cbn. by eexists.
Qed.

Definition op_one : Operation := mkOp 100 None None.
Definition some_pending : list slap_csn_entry :=
  [mkEntry 1 csn_a 1 SLAP_CSN_COMMIT; mkEntry 2 csn_b 10 SLAP_CSN_PENDING; mkEntry 3 csn_a' 1 SLAP_CSN_PENDING].

Lemma some_pending_ok : pending_ok some_pending.
Proof.
  split.
  - repeat constructor; try (vm_compute; reflexivity); by (left + right).
  - apply (bool_decide_eq_true (NoDup (ce_op <$> some_pending))). vm_compute. reflexivity.
  - repeat constructor; try (intros _; vm_compute; discriminate); intros E; vm_compute in E; discriminate.
Qed.

Lemma pending_queue_graduate_witness :
  exists op' l', slap_queue_csn op_one (kw "20200601000000.000000Z#000000#001#000000") some_pending = Some (op', l') /\
    (ce_op <$> l') = [1; 2; 100; 3].
Proof.
  destruct (pending_queue_graduate op_one (kw "20200601000000.000000Z#000000#001#000000") some_pending)
    as (op' & l' & E & _).
  - exact some_pending_ok.
  - vm_compute. reflexivity.
  - intros Hin. apply (bool_decide_eq_true_2 _) in Hin. by vm_compute in Hin.
  - reflexivity.
  - discriminate.
  - exists op', l'. split; [exact E|]. revert E. vm_compute. intros [= _ <-]. reflexivity.
Defined.

Lemma op_csn_sid `{Env} op csn : op.(o_csn) = Some csn -> valid csn ->
  match op.(o_csn) with
  | None | Some [] => Some (-1)
  | Some c => _ ← ensure (slap_csn_get_sid c >=? 0); Some (slap_csn_get_sid c)
  end = Some (sid csn).
Proof.
  intros -> Hv. pose proof (sid_range csn Hv). pose proof (valid_length csn Hv). destruct csn; [done|].
  fold (sid (a :: csn)). by rewrite (proj2 (Z.geb_le _ _)) by lia.
Qed.

(** C7: committing an operation returns its server ID and a CSN that is safe to
    publish as the context CSN: it is that of a committed entry of the server, no
    entry of the server still pending is older, and it is the CSN of the
    operation itself unless an entry that is not newer is still pending. *)
Theorem pending_commit_safe `{Env} op csn l u e v :
  pending_ok l -> l = u ++ e :: v -> ce_op e = op.(o_addr) -> ce_csn e = csn -> op.(o_csn) = Some csn ->
  exists max l', slap_get_commit_csn op true l = Some (sid csn, max, l') /\ pending_ok l' /\
    l' = u ++ mkEntry (ce_op e) csn (ce_sid e) SLAP_CSN_COMMIT :: v /\
    (forall c, max = Some c ->
       (exists x, x ∈ l' /\ ce_csn x = c /\ ce_sid x = sid csn /\ ce_state x = SLAP_CSN_COMMIT) /\
       (forall x, x ∈ l' -> ce_sid x = sid csn -> ce_state x = SLAP_CSN_PENDING -> cts c (ce_csn x) <= 0)) /\
    (max = Some csn \/ exists x, x ∈ l' /\ ce_sid x = sid csn /\ ce_state x = SLAP_CSN_PENDING /\ cts (ce_csn x) csn <= 0).
Proof.
  intros Hok -> Eop Ec Eo. pose proof Hok as [He Hn _]. apply list.Forall_app in He as [_ [He _]%list.Forall_cons].
  pose proof He as [Hve Hse _]. rewrite Ec in Hve, Hse. pose proof (sid_range csn Hve).
  assert (ce_op e ∉ ce_op <$> u) as Hou.
  { rewrite fmap_app, fmap_cons in Hn. apply list.NoDup_app in Hn as (_ & Hn & _). intros Hin. apply (Hn _ Hin), elem_of_cons. by left. }
  set (e' := mkEntry (ce_op e) csn (ce_sid e) SLAP_CSN_COMMIT).
  assert (entry_ok e') as He' by (split; [done|done|by right]).
  assert (pending_ok (u ++ e' :: v)) as Hok' by by apply (pending_replace u e e' v).
  destruct (find_committed_spec (o_addr op) (sid csn) None _ Hok') as (r & Er & H1 & H2 & H3); [done|].
  exists r, (u ++ e' :: v). split.
  { unfold slap_get_commit_csn. rewrite (op_csn_sid op csn) by done. cbn [mbind option_bind].
    rewrite <- Eop, (mark_commit_spec u e v (sid csn)) by done. cbn [mbind option_bind andb].
    rewrite (proj2 (Z.geb_le _ _)) by lia. rewrite Ec. fold e'. rewrite <- Eop in Er. by rewrite Er. }
  split_and!; [done|done| |].
  - intros c ->. split.
    + destruct H1 as [?|(x & Hx & [= ->] & ? & ?)]; [done|]. by exists x.
    + specialize (H2 c eq_refl). rewrite list.Forall_forall in H2. auto.
  - apply (H3 e'); [apply elem_of_app; right; apply elem_of_cons; by left|done|done|done].
Qed.

Lemma pending_commit_safe_witness :
  exists l', slap_get_commit_csn (mkOp 3 (Some csn_a') (Some 3)) true some_pending = Some (1, Some csn_a', l') /\ pending_ok l'.
Proof.
  destruct (pending_commit_safe (mkOp 3 (Some csn_a') (Some 3)) csn_a' some_pending
    [mkEntry 1 csn_a 1 SLAP_CSN_COMMIT; mkEntry 2 csn_b 10 SLAP_CSN_PENDING] (mkEntry 3 csn_a' 1 SLAP_CSN_PENDING) [])
    as (max & l' & E & Hok & _); [exact some_pending_ok|reflexivity..|].
  exists l'. split; [|exact Hok]. revert E. vm_compute. intros [= _ <-]. reflexivity.
Defined.
