(* ===== verification/Avl.v ===== *)
(** * AVL trees (libraries/liblutil/avl.c)

    The nodes of a tree are not shared, so a tree of nodes is an inductive
    tree, and a pointer to a node inside a tree is the node with the frames that
    lead to it (innermost first): the sequences of parents that [avl_insert]
    walks down and that [avl_delete] keeps in its stack [pptr]/[pdir].

    [None] is a null pointer that is followed, or a stack that overflows. *)

From S2P Require Import Prelude Ber.

Local Open Scope Z_scope.

Definition LH : Z := -1.
Definition EH : Z := 0.
Definition RH : Z := 1.
Definition MAX_TREE_DEPTH : nat := 64.
Definition AVL_NOMORE : Z := -6.
Definition AVL_PREORDER : Z := 1.
Definition AVL_INORDER : Z := 2.
Definition AVL_POSTORDER : Z := 3.

(** [avl_bfs[dir]], where [true] is the index 1, the right. *)
Definition avl_bfs (dir : bool) : Z := if dir then RH else LH.

Section Avl.
Context {A : Type}.

Inductive Avlnode : Type :=
| Leaf
| Node (avl_bf : Z) (avl_left : Avlnode) (avl_data : A) (avl_right : Avlnode).

(** The node whose [avl_link[dir]] is [child] and whose other link is [other]. *)
Definition mknode (dir : bool) (bf : Z) (x : A) (child other : Avlnode) : Avlnode :=
  if dir then Node bf other x child else Node bf child x other.

Definition link (dir : bool) (l r : Avlnode) : Avlnode := if dir then r else l.

(** A node seen from the child in direction [fr_dir]. *)
Record frame := mkFrame { fr_dir : bool; fr_bf : Z; fr_data : A; fr_other : Avlnode }.

Definition refill (f : frame) (bf : Z) (t : Avlnode) : Avlnode :=
  mknode f.(fr_dir) bf f.(fr_data) t f.(fr_other).

Fixpoint plug (fs : list frame) (t : Avlnode) : Avlnode :=
  match fs with
  | [] => t
  | f :: fs => plug fs (refill f f.(fr_bf) t)
  end.

Context `{Heap}.
Variable fcmp : A -> A -> Z.

(** ** Insertion *)

(** The walk to the insertion point: a node with equal data, or the frames above
    the node [s] (the last one on the way that is out of balance) and those from
    [s] down to the new node's parent. *)
Fixpoint find_place (data : A) (p : Avlnode) (above below : list frame)
  : A + (list frame * list frame) :=
  match p with
  | Leaf => inr (above, below)
  | Node bf l x r =>
      let cmp := fcmp data x in
      if cmp =? 0 then inl x else
      let cmp := cmp >? 0 in
      let q := link cmp l r in
      let f := mkFrame cmp bf x (link (negb cmp) l r) in
      match q with
      | Node qbf _ _ _ =>
          if negb (qbf =? 0) then find_place data q (f :: below ++ above) []
          else find_place data q above (f :: below)
      | Leaf => find_place data q above (f :: below)
      end
  end.

(** The balance factors below [s]: the subtree [r] of [s] and the frame of [s]. *)
Fixpoint adjust (below : list frame) (t : Avlnode) : option (Avlnode * frame) :=
  match below with
  | [] => None
  | [s] => Some (t, s)
  | f :: below => adjust below (refill f (avl_bfs f.(fr_dir)) t)
  end.

(** "checks and balances": the subtree that replaces [s], whose child is [r]. *)
Definition insert_balance (s : frame) (r : Avlnode) : option Avlnode :=
  let cmp := s.(fr_dir) in
  let ncmp := negb cmp in
  let a := avl_bfs cmp in
  if s.(fr_bf) =? EH then Some (refill s a r)
  else if s.(fr_bf) =? - a then Some (refill s EH r)
  else if s.(fr_bf) =? a then
    match r with
    | Leaf => None
    | Node rbf rl rx rr =>
        if rbf =? a then
          Some (mknode ncmp 0 rx (refill s 0 (link ncmp rl rr)) (link cmp rl rr))
        else if rbf =? - a then
          match link ncmp rl rr with
          | Leaf => None
          | Node pbf pl px pr =>
              let '(sbf, rbf) := if pbf =? a then (- a, 0) else if pbf =? - a then (0, a) else (0, 0) in
              let r := mknode ncmp rbf rx (link cmp pl pr) (link cmp rl rr) in
              let s := refill s sbf (link ncmp pl pr) in
              Some (mknode cmp 0 px r s)
          end
        else None
    end
  else Some (refill s s.(fr_bf) r).

Definition sizeof_Avlnode : Z := 32.

(** The return value and the tree. *)
Definition avl_insert (root : Avlnode) (data : A) (fdup : A -> A -> Z) : option (Z * Avlnode) :=
  match root with
  | Leaf =>
      if ber_memalloc_x sizeof_Avlnode then Some (0, Node EH Leaf data Leaf) else Some (-1, root)
  | _ =>
      match find_place data root [] [] with
      | inl x => Some (fdup x data, root)
      | inr (above, below) =>
          if ber_memalloc_x sizeof_Avlnode then
            '(r, s) ← adjust below (Node EH Leaf data Leaf);
            p ← insert_balance s r;
            Some (0, plug above p)
          else Some (-1, root)
      end
  end.

(** ** Deletion *)

Definition push (f : frame) (stk : list frame) : option (list frame) :=
  if decide (length stk < MAX_TREE_DEPTH)%nat then Some (f :: stk) else None.

(** The node to delete with its stack; nothing when there is no such node. *)
Fixpoint delete_find (data : A) (p : Avlnode) (stk : list frame)
  : option (option (Z * Avlnode * A * Avlnode * list frame)) :=
  match p with
  | Leaf => Some None
  | Node bf l x r =>
      let side := fcmp data x in
      if side =? 0 then Some (Some (bf, l, x, r, stk)) else
      let side := side >? 0 in
      stk ← push (mkFrame side bf x (link (negb side) l r)) stk;
      delete_find data (link side l r) stk
  end.

(** The predecessor [q] of the node to delete: its data, its left child and the
    nodes on the way, above a stack of [depth] nodes. *)
Fixpoint predecessor (q : Avlnode) (depth : nat) (way : list frame)
  : option (A * Avlnode * list frame) :=
  match q with
  | Leaf => None
  | Node _ l x Leaf => Some (x, l, way)
  | Node bf l x r =>
      if decide (depth + length way < MAX_TREE_DEPTH)%nat
      then predecessor r depth (mkFrame true bf x l :: way) else None
  end.

(** The child of the removed node and the stack of its parents. *)
Definition unlink_node (bf : Z) (l r : Avlnode) (stk : list frame) : option (Avlnode * list frame) :=
  match l, r with
  | Node _ _ _ _, Node _ _ _ _ =>
      if decide (length stk < MAX_TREE_DEPTH)%nat then
        '(x, ql, way) ← predecessor l (S (length stk)) [];
        Some (ql, way ++ mkFrame false bf x r :: stk)
      else None
  | Leaf, _ => Some (r, stk)
  | _, _ => Some (l, stk)
  end.

(** One turn of the loop at the node of [f], whose child on that side has been
    replaced by the shorter [q]: the subtree and whether it got shorter. *)
Definition delete_balance (f : frame) (q : Avlnode) : option (Avlnode * bool) :=
  let side := f.(fr_dir) in
  let nside := negb side in
  let side_bf := avl_bfs side in
  if f.(fr_bf) =? EH then Some (refill f (avl_bfs nside) q, false)
  else if f.(fr_bf) =? side_bf then Some (refill f EH q, true)
  else
    let p bf other := mknode side bf f.(fr_data) q other in
    match f.(fr_other) with
    | Leaf => None
    | Node qbf ql qx qr =>
        let rotate pbf qbf := mknode side qbf qx (p pbf (link side ql qr)) (link nside ql qr) in
        if qbf =? EH then Some (rotate (- side_bf) side_bf, false)
        else if qbf =? f.(fr_bf) then Some (rotate EH EH, true)
        else
          match link side ql qr with
          | Leaf => None
          | Node rbf rl rx rr =>
              let '(qbf, pbf) := if rbf =? side_bf then (- side_bf, EH)
                                 else if rbf =? - side_bf then (EH, side_bf) else (EH, EH) in
              let q := mknode side qbf qx (link nside rl rr) (link nside ql qr) in
              Some (mknode side EH rx (p pbf (link side rl rr)) q, true)
          end
    end.

Fixpoint shrink (stk : list frame) (t : Avlnode) : option Avlnode :=
  match stk with
  | [] => Some t
  | f :: stk =>
      '(t, shorter) ← delete_balance f t;
      if (shorter : bool) then shrink stk t else Some (plug stk t)
  end.

(** The data of the deleted node, if there is one, and the tree. *)
Definition avl_delete (root : Avlnode) (data : A) : option (option A * Avlnode) :=
  found ← delete_find data root [];
  match found with
  | None => Some (None, root)
  | Some (bf, l, x, r, stk) =>
      '(q, stk) ← unlink_node bf l r stk;
      t ← shrink stk q;
      Some (Some x, t)
  end.

(** ** Search *)

Fixpoint avl_find2 (root : Avlnode) (data : A) : Avlnode :=
  match root with
  | Leaf => Leaf
  | Node _ l x r =>
      let cmp := fcmp data x in
      if cmp =? 0 then root else if cmp >? 0 then avl_find2 r data else avl_find2 l data
  end.

Fixpoint avl_find (root : Avlnode) (data : A) : option A :=
  match root with
  | Leaf => None
  | Node _ l x r =>
      let cmp := fcmp data x in
      if cmp =? 0 then Some x else if cmp >? 0 then avl_find r data else avl_find l data
  end.

Fixpoint avl_find_lin (root : Avlnode) (data : A) : option A :=
  match root with
  | Leaf => None
  | Node _ l x r =>
      if fcmp data x =? 0 then Some x else
      match avl_find_lin l data with
      | Some res => Some res
      | None => avl_find_lin r data
      end
  end.

(** ** Traversal: [fn] changes a state [st] and returns a code *)

Section Apply.
Context {St : Type}.
Variable fn : A -> St -> Z * St.
Variable stopflag : Z.

Fixpoint avl_inapply (root : Avlnode) (st : St) : Z * St :=
  match root with
  | Leaf => (AVL_NOMORE, st)
  | Node _ l x r =>
      let here st :=
        let '(rc, st) := fn x st in
        if rc =? stopflag then (stopflag, st) else
        match r with Leaf => (AVL_NOMORE, st) | _ => avl_inapply r st end in
      match l with
      | Leaf => here st
      | _ => let '(rc, st) := avl_inapply l st in if rc =? stopflag then (stopflag, st) else here st
      end
  end.

Fixpoint avl_postapply (root : Avlnode) (st : St) : Z * St :=
  match root with
  | Leaf => (AVL_NOMORE, st)
  | Node _ l x r =>
      let right st :=
        match r with
        | Leaf => fn x st
        | _ => let '(rc, st) := avl_postapply r st in if rc =? stopflag then (stopflag, st) else fn x st
        end in
      match l with
      | Leaf => right st
      | _ => let '(rc, st) := avl_postapply l st in if rc =? stopflag then (stopflag, st) else right st
      end
  end.

Fixpoint avl_preapply (root : Avlnode) (st : St) : Z * St :=
  match root with
  | Leaf => (AVL_NOMORE, st)
  | Node _ l x r =>
      let '(rc, st) := fn x st in
      if rc =? stopflag then (stopflag, st) else
      let right st := match r with Leaf => (AVL_NOMORE, st) | _ => avl_preapply r st end in
      match l with
      | Leaf => right st
      | _ => let '(rc, st) := avl_preapply l st in if rc =? stopflag then (stopflag, st) else right st
      end
  end.

Definition avl_apply (root : Avlnode) (type : Z) (st : St) : Z * St :=
  if type =? AVL_INORDER then avl_inapply root st
  else if type =? AVL_PREORDER then avl_preapply root st
  else if type =? AVL_POSTORDER then avl_postapply root st
  else (-1, st).

(** [avl_prefixapply]: [fmatch] is [fn] here. *)
Fixpoint avl_prefixapply (root : Avlnode) (data : A) (st : St) : Z * St :=
  match root with
  | Leaf => (AVL_NOMORE, st)
  | Node _ l x r =>
      let cmp := fcmp data x in
      if cmp =? 0 then
        let '(rc, st) := fn x st in
        if rc =? stopflag then (stopflag, st) else
        let right st := match r with Leaf => (AVL_NOMORE, st) | _ => avl_prefixapply r data st end in
        match l with
        | Leaf => right st
        | _ => let '(rc, st) := avl_prefixapply l data st in
               if rc =? stopflag then (stopflag, st) else right st
        end
      else if cmp <? 0 then avl_prefixapply l data st
      else avl_prefixapply r data st
  end.
End Apply.

(** [avl_free]: the count, and the data in the order [dfree] gets them. *)
Fixpoint avl_free (root : Avlnode) (freed : list A) : Z * list A :=
  match root with
  | Leaf => (0, freed)
  | Node _ l x r =>
      let '(nleft, freed) := avl_free l freed in
      let '(nright, freed) := avl_free r freed in
      (nleft + nright + 1, freed ++ [x])
  end.

End Avl.
Arguments Avlnode : clear implicits.
Arguments frame : clear implicits.

Definition avl_dup_error {A} (left right : A) : Z := -1.
Definition avl_dup_ok {A} (left right : A) : Z := 0.

(** ** The non-reentrant iteration: the static variables *)

Record avl_iter A := mkIter { avl_list : option (list A); avl_nextlist : nat }.
Arguments mkIter {A}.
Arguments avl_list {A}.
Arguments avl_nextlist {A}.

Definition avl_buildlist {A} (data : A) (l : option (list A)) : Z * option (list A) :=
  (0, Some (default [] l ++ [data])).

Definition avl_getfirst {A} (root : Avlnode A) : option (option A * avl_iter A) :=
  match root with
  | Leaf => Some (None, mkIter None 0)
  | _ =>
      l ← (avl_apply avl_buildlist (-1) root AVL_INORDER None).2;
      x ← l !! 0%nat; Some (Some x, mkIter (Some l) 1)
  end.

Definition avl_getnext {A} (it : avl_iter A) : option (option A * avl_iter A) :=
  match it.(avl_list) with
  | None => Some (None, it)
  | Some l =>
      if decide (it.(avl_nextlist) = length l) then Some (None, mkIter None it.(avl_nextlist)) else
      x ← l !! it.(avl_nextlist); Some (Some x, mkIter (Some l) (S it.(avl_nextlist)))
  end.

(** The loop over [avl_getnext] that callers write. *)
Fixpoint avl_drain {A} (fuel : nat) (it : avl_iter A) : option (list A) :=
  match fuel with
  | O => None
  | S fuel =>
      '(x, it) ← avl_getnext it;
      match x with None => Some [] | Some x => l ← avl_drain fuel it; Some (x :: l) end
  end.
