(* ===== verification/AvlFacts.v ===== *)
(** * AVL trees: the invariant, the sequence a tree stands for, and the two
      rebalancing loops

    [inorder] is the abstraction, [balanced] (every balance factor is the
    difference of the heights and is -1, 0 or 1) with the order of [inorder] the
    invariant. *)

From S2P Require Import Prelude Order Ber Avl.

Local Open Scope Z_scope.

Section Tree.
Context {A : Type}.

Fixpoint inorder (t : Avlnode A) : list A :=
  match t with Leaf => [] | Node _ l x r => inorder l ++ x :: inorder r end.

Fixpoint height (t : Avlnode A) : Z :=
  match t with Leaf => 0 | Node _ l _ r => 1 + Z.max (height l) (height r) end.

Fixpoint balanced (t : Avlnode A) : Prop :=
  match t with
  | Leaf => True
  | Node bf l _ r => bf = height r - height l /\ -1 <= bf <= 1 /\ balanced l /\ balanced r
  end.

Global Instance balanced_dec t : Decision (balanced t).
Proof. induction t; simpl; apply _. Defined.

Lemma height_nonneg t : 0 <= height t.
Proof. induction t; simpl; lia. Qed.

(** The sequence around a subtree. *)
Fixpoint lefts (fs : list (frame A)) : list A :=
  match fs with
  | [] => []
  | f :: fs => lefts fs ++ (if f.(fr_dir) then inorder f.(fr_other) ++ [f.(fr_data)] else [])
  end.
Fixpoint rights (fs : list (frame A)) : list A :=
  match fs with
  | [] => []
  | f :: fs => (if f.(fr_dir) then [] else f.(fr_data) :: inorder f.(fr_other)) ++ rights fs
  end.

Lemma inorder_refill f bf t :
  inorder (refill f bf t) = lefts [f] ++ inorder t ++ rights [f].
Proof.
  destruct f as [[] fb x o]; unfold refill, mknode; simpl; rewrite ?app_nil_r, <-?app_assoc; done.
Qed.

Lemma inorder_plug (fs : list (frame A)) t : inorder (plug fs t) = lefts fs ++ inorder t ++ rights fs.
Proof.
  revert t. induction fs as [|f fs IH]; intros t; simpl; [by rewrite app_nil_r|].
  rewrite IH, inorder_refill. simpl. rewrite app_nil_r, <-!app_assoc. done.
Qed.

Lemma lefts_app fs gs : lefts (fs ++ gs) = lefts gs ++ lefts fs.
Proof. induction fs; simpl; [by rewrite app_nil_r|]. by rewrite IHfs, app_assoc. Qed.
Lemma rights_app fs gs : rights (fs ++ gs) = rights fs ++ rights gs.
Proof. induction fs; simpl; [done|]. by rewrite IHfs, app_assoc. Qed.
Lemma plug_app (fs gs : list (frame A)) (t : Avlnode A) : plug (fs ++ gs) t = plug gs (plug fs t).
Proof. revert t. induction fs; intros t; simpl; auto. Qed.

(** A frame around a balanced subtree of height [h]. *)
Definition frame_ok (f : frame A) (h : Z) : Prop :=
  f.(fr_bf) = avl_bfs f.(fr_dir) * (h - height f.(fr_other)) /\ -1 <= f.(fr_bf) <= 1 /\
  balanced f.(fr_other).

Definition frame_height (f : frame A) (h : Z) : Z := 1 + Z.max h (height f.(fr_other)).

Lemma height_refill f bf t : height (refill f bf t) = frame_height f (height t).
Proof. destruct f as [[] fb x o]; unfold refill, mknode, frame_height; simpl; lia. Qed.

Lemma balanced_refill f bf t :
  balanced (refill f bf t) <->
  bf = avl_bfs f.(fr_dir) * (height t - height f.(fr_other)) /\ -1 <= bf <= 1 /\
  balanced t /\ balanced f.(fr_other).
Proof.
  destruct f as [[] fb x o]; unfold refill, mknode, avl_bfs, RH, LH; cbn [fr_dir fr_bf fr_data fr_other balanced];
    split; intros (? & ? & ? & ?); repeat split; (done || lia).
Qed.

Lemma frame_of_node dir bf l x r :
  balanced (Node bf l x r) ->
  let f := mkFrame dir bf x (link (negb dir) l r) in
  Node bf l x r = refill f bf (link dir l r) /\ frame_ok f (height (link dir l r)) /\
  balanced (link dir l r).
Proof.
  intros (Hbf & Hr & Hl & Hrr). destruct dir; unfold refill, mknode, frame_ok, avl_bfs, RH, LH; simpl;
    repeat split; (done || lia).
Qed.

(** Plugging a balanced tree of the height that was there before. *)
Fixpoint frames_ok (fs : list (frame A)) (h : Z) : Prop :=
  match fs with [] => True | f :: fs => frame_ok f h /\ frames_ok fs (frame_height f h) end.

Lemma frames_ok_app fs gs h :
  frames_ok (fs ++ gs) h <-> frames_ok fs h /\ frames_ok gs (fold_left (fun h f => frame_height f h) fs h).
Proof. revert h. induction fs as [|f fs IH]; intros h; simpl; [tauto|]. rewrite IH. tauto. Qed.

Lemma balanced_plug (fs : list (frame A)) t :
  balanced t -> frames_ok fs (height t) -> balanced (plug fs t).
Proof.
  revert t. induction fs as [|f fs IH]; intros t Ht Hfs; simpl; [done|].
  destruct Hfs as [(Hbf & Hr & Ho) Hfs]. apply IH.
  - apply balanced_refill. done.
  - by rewrite height_refill.
Qed.

Lemma frames_of_plug (fs : list (frame A)) t :
  balanced (plug fs t) -> balanced t /\ frames_ok fs (height t).
Proof.
  revert t. induction fs as [|f fs IH]; intros t Hb; simpl in *; [done|].
  apply IH in Hb as [Hb Hfs]. apply balanced_refill in Hb as (? & ? & ? & ?).
  rewrite height_refill in Hfs. done.
Qed.

(** ** The checks after an insertion *)

Definition root_bf (t : Avlnode A) : Z := match t with Leaf => 0 | Node bf _ _ _ => bf end.

Lemma root_bf_refill f bf t : root_bf (refill f bf t) = bf.
Proof. destruct f as [[] ? ? ?]; done. Qed.

Ltac sides := unfold avl_bfs, RH, LH in *;
  repeat match goal with |- context [fr_dir ?f] => destruct (fr_dir f) | H : context [fr_dir ?f] |- _ => destruct (fr_dir f) end.

(** Frames whose subtree has grown by one and which were balanced evenly. *)
Lemma adjust_spec below (t : Avlnode A) h :
  below <> [] -> frames_ok below h -> balanced t -> height t = h + 1 ->
  Forall (fun f => f.(fr_bf) = 0) (removelast below) ->
  exists r s, adjust below t = Some (r, s) /\ below = removelast below ++ [s] /\
  balanced r /\ frame_ok s (height r - 1) /\
  height r - 1 = fold_left (fun h f => frame_height f h) (removelast below) h /\
  inorder r = lefts (removelast below) ++ inorder t ++ rights (removelast below) /\
  (root_bf t <> 0 \/ 0 < h < height r - 1 \/ h < height r - 1 -> root_bf r <> 0).
Proof.
  revert t h. induction below as [|f below IH]; intros t h Hne Hfs Hb Hh Hbf; [done|].
  destruct below as [|g below].
  - exists t, f. simpl in *. rewrite app_nil_r. destruct Hfs as [Hf _].
    replace (height t - 1) with h by lia. split_and!; try done. intros [?|?]; [done|lia].
  - remember (g :: below) as gb eqn:Eg.
    assert (removelast (f :: gb) = f :: removelast gb) as Erl by (subst; done).
    rewrite Erl in *. rewrite list.Forall_cons in Hbf. destruct Hbf as [Hf Hbf].
    destruct Hfs as [(Hfb & Hfr & Hfo) Hfs].
    assert (height f.(fr_other) = h) by (sides; lia).
    destruct (IH (refill f (avl_bfs f.(fr_dir)) t) (frame_height f h))
      as (r & s & Ha & H3 & H1 & H2 & H4 & H5 & H6); try done.
    + by subst gb.
    + apply balanced_refill. split_and!; try done; sides; lia.
    + rewrite height_refill. unfold frame_height. lia.
    + exists r, s. split_and!; try done.
      * rewrite Eg in Ha |- *. exact Ha.
      * simpl. by rewrite <- H3.
      * rewrite H5, inorder_refill. simpl. rewrite app_nil_r, <-!app_assoc. done.
      * intros _. apply H6. left. rewrite root_bf_refill. sides; lia.
Qed.

(** Rotations: unfold the links, leave linear facts about heights. *)
Ltac rotation :=
  unfold refill, mknode, link, frame_height, avl_bfs, RH, LH, EH in *; cbn [negb height balanced inorder fr_dir fr_bf fr_data fr_other fst snd] in *;
  destruct_and?; split_and?; intros; try done; try lia; rewrite <-?app_assoc; simpl; rewrite <-?app_assoc; try done.

(** The new subtree at [s], whose child has grown to [r]. *)
Lemma insert_balance_spec (s : frame A) r :
  balanced r -> frame_ok s (height r - 1) -> (1 < height r -> root_bf r <> 0) ->
  exists p, insert_balance s r = Some p /\ balanced p /\ inorder p = inorder (refill s 0 r) /\
  (s.(fr_bf) <> 0 -> height p = frame_height s (height r - 1)).
Proof.
  intros Hr (Hs & Hsr & Hso) Hroot. unfold insert_balance.
  pose proof (height_nonneg r). pose proof (height_nonneg s.(fr_other)).
  destruct s as [d sb sx so]; cbn [fr_dir fr_bf fr_data fr_other] in *.
  case_if; zb; [|case_if; zb; [|case_if; zb]].
  - eexists. split; [done|]. destruct d; rotation.
  - eexists. split; [done|]. destruct d; rotation.
  - assert (1 < height r) as Hh by (destruct d; rotation).
    specialize (Hroot Hh). destruct r as [|rb rl rx rr]; [simpl in Hh; lia|].
    cbn [root_bf] in Hroot. case_if; zb; [eexists; split; [done|]; destruct d; rotation|].
    case_if; zb; [|destruct d; rotation].
    destruct (link (negb d) rl rr) as [|pb pl px pr] eqn:El.
    + pose proof (height_nonneg rl). pose proof (height_nonneg rr). destruct d; cbn [link negb] in El; subst; rotation.
    + case_if; zb; [|case_if; zb]; eexists; (split; [done|]); destruct d; cbn [link negb] in El; subst; rotation.
  - destruct d; rotation.
Qed.

(** ** The loop after a deletion *)

Lemma delete_balance_spec (f : frame A) q :
  balanced q -> frame_ok f (height q + 1) ->
  exists p sh, delete_balance f q = Some (p, sh) /\ balanced p /\ inorder p = inorder (refill f 0 q) /\
  height p = frame_height f (height q + 1) - (if sh then 1 else 0).
Proof.
  intros Hq (Hf & Hfr & Hfo). unfold delete_balance. pose proof (height_nonneg q).
  destruct f as [d fb fx fo]; cbn [fr_dir fr_bf fr_data fr_other] in *.
  case_if; zb; [|case_if; zb].
  - do 2 eexists. split; [done|]. destruct d; rotation.
  - do 2 eexists. split; [done|]. destruct d; rotation.
  - destruct fo as [|ob ol ox orr]; [simpl in *; destruct d; rotation|].
    pose proof (height_nonneg ol). pose proof (height_nonneg orr).
    case_if; zb; [do 2 eexists; split; [done|]; destruct d; rotation|].
    case_if; zb; [do 2 eexists; split; [done|]; destruct d; rotation|].
    destruct (link d ol orr) as [|rb rl rx rr] eqn:El.
    + destruct d; cbn [link negb] in El; subst; rotation.
    + case_if; zb; [|case_if; zb]; do 2 eexists; (split; [done|]); destruct d; cbn [link negb] in El; subst; rotation.
Qed.

Lemma shrink_spec (stk : list (frame A)) q :
  balanced q -> frames_ok stk (height q + 1) ->
  exists t, shrink stk q = Some t /\ balanced t /\ inorder t = lefts stk ++ inorder q ++ rights stk.
Proof.
  revert q. induction stk as [|f stk IH]; intros q Hq Hs; simpl.
  - exists q. by rewrite app_nil_r.
  - destruct Hs as [Hf Hs]. destruct (delete_balance_spec f q Hq Hf) as (p & sh & -> & Hp & Hin & Hh).
    simpl. rewrite inorder_refill in Hin. destruct sh.
    + destruct (IH p Hp) as (t & -> & Ht & Hti); [by rewrite Hh, Z.sub_add|].
      exists t. rewrite Hti, Hin. simpl. rewrite app_nil_r, <-!app_assoc. done.
    + eexists. split; [done|]. rewrite inorder_plug, Hin. simpl. rewrite app_nil_r, <-!app_assoc.
      split; [|done]. apply balanced_plug; [done|]. by rewrite Hh, Z.sub_0_r.
Qed.

Lemma height_plug (fs : list (frame A)) t :
  fold_left (fun h f => frame_height f h) fs (height t) = height (plug fs t).
Proof. revert t. induction fs; intros t; simpl; [done|]. by rewrite <- IHfs, height_refill. Qed.

(** ** Taking a node out *)

Lemma predecessor_spec (q : Avlnode A) depth way :
  q <> Leaf -> Forall (fun f => fr_dir f = true) way ->
  Z.of_nat (depth + length way) + height q - 1 <= Z.of_nat MAX_TREE_DEPTH ->
  exists bf ql x way', predecessor q depth way = Some (x, ql, way') /\
  plug way' (Node bf ql x Leaf) = plug way q /\ Forall (fun f => fr_dir f = true) way'.
Proof.
  revert way. induction q as [|bf l _ x r IH]; intros way Hq Hw Hd; [done|].
  simpl. destruct r as [|rb rl rx rr].
  - exists bf, l, x, way. done.
  - assert (depth + length way < MAX_TREE_DEPTH)%nat.
    { cbn [height] in Hd. pose proof (height_nonneg rl). pose proof (height_nonneg rr). lia. }
    rewrite decide_True by done.
    destruct (IH (mkFrame true bf x l :: way)) as (b & ql & y & way' & Hp & Hpl & Hw').
    + done.
    + by constructor.
    + cbn [height length] in *. lia.
    + exists b, ql, y, way'. done.
Qed.

Lemma rights_true (fs : list (frame A)) : Forall (fun f => fr_dir f = true) fs -> rights fs = [].
Proof. induction 1 as [|f fs E _ IH]; simpl; [done|]. by rewrite E. Qed.

Lemma unlink_node_spec bf l (x : A) r stk :
  balanced (Node bf l x r) -> frames_ok stk (height (Node bf l x r)) ->
  Z.of_nat (length stk) + height (Node bf l x r) <= Z.of_nat MAX_TREE_DEPTH ->
  exists q stk', unlink_node bf l r stk = Some (q, stk') /\ balanced q /\ frames_ok stk' (height q + 1) /\
  lefts stk' ++ inorder q ++ rights stk' = lefts stk ++ (inorder l ++ inorder r) ++ rights stk.
Proof.
  intros Hb Hs Hd. pose proof Hb as (Hbf & Hbr & Hl & Hr).
  pose proof (height_nonneg l). pose proof (height_nonneg r). cbn [height] in Hs, Hd.
  destruct l as [|lb ll lx lr].
  { exists r, stk. cbn [unlink_node height inorder app] in *. replace (Z.max 0 (height r)) with (height r) in Hs by lia.
    rewrite Z.add_comm. done. }
  destruct r as [|rb rl rx rr].
  { exists (Node lb ll lx lr), stk. unfold unlink_node. rewrite app_nil_r.
    change (height (@Leaf A)) with 0 in *.
    rewrite Z.max_l in Hs by lia. rewrite Z.add_comm. done. }
  unfold unlink_node. remember (Node lb ll lx lr) as l. remember (Node rb rl rx rr) as r.
  assert (1 <= height l) by (subst l; cbn [height]; pose proof (height_nonneg ll); lia).
  rewrite decide_True by lia.
  destruct (predecessor_spec l (S (length stk)) []) as (b & ql & y & way & -> & Hpl & Hw).
  { by subst. } { done. } { simpl. lia. }
  cbn [mbind option_bind]. do 2 eexists. split; [done|]. cbn [plug] in Hpl.
  assert (balanced (plug way (Node b ql y Leaf))) as Hbw by (by rewrite Hpl).
  apply frames_of_plug in Hbw as [(Hb1 & Hb2 & Hb3 & _) Hfw].
  assert (height (Node b ql y Leaf) = height ql + 1) as Hh.
  { cbn [height] in *. pose proof (height_nonneg ql). lia. }
  split; [done|]. split.
  - rewrite frames_ok_app, <- Hh, height_plug, Hpl. split; [done|]. cbn [frames_ok]. split.
    + unfold frame_ok, avl_bfs, LH. cbn [fr_dir fr_bf fr_other]. split_and!; (done || lia).
    + exact Hs.
  - rewrite lefts_app, rights_app. rewrite (rights_true way) by done.
    assert (inorder l = lefts way ++ inorder ql ++ [y]) as ->.
    { rewrite <- Hpl, inorder_plug, rights_true by done. by rewrite app_nil_r. }
    simpl. rewrite app_nil_r, <-!app_assoc. done.
Qed.

(** ** Size and height *)

Fixpoint size (t : Avlnode A) : Z := match t with Leaf => 0 | Node _ l _ r => size l + 1 + size r end.

Lemma size_inorder t : size t = Z.of_nat (length (inorder t)).
Proof. induction t; simpl; [done|]. rewrite length_app. simpl. lia. Qed.
End Tree.

(** The least sizes of balanced trees of heights [n] and [n + 1]. *)
Fixpoint minsizes (n : nat) : Z * Z :=
  match n with O => (0, 1) | S n => let '(a, b) := minsizes n in (b, a + b + 1) end.
Definition minsize (n : nat) : Z := (minsizes n).1.

Lemma minsize_SS n : minsize (S (S n)) = minsize n + minsize (S n) + 1.
Proof. unfold minsize. simpl. by destruct (minsizes n). Qed.

Lemma minsize_mono n m : (n <= m)%nat -> minsize n <= minsize m.
Proof.
  assert (forall k, minsize k <= minsize (S k) /\ 0 <= minsize k) as Hs.
  { intros k. induction k as [|k [IH1 IH2]]; [done|]. rewrite minsize_SS. lia. }
  induction 1 as [|m _ IH]; [lia|]. pose proof (Hs m). lia.
Qed.

Lemma balanced_size {A} (t : Avlnode A) : balanced t -> minsize (Z.to_nat (height t)) <= size t.
Proof.
  induction t as [|bf l IHl x r IHr]; intros Hb; [done|]. destruct Hb as (Hbf & Hr & Hl & Hrr).
  specialize (IHl Hl). specialize (IHr Hrr). cbn [height size].
  pose proof (height_nonneg l). pose proof (height_nonneg r).
  remember (Z.to_nat (height l)) as nl. remember (Z.to_nat (height r)) as nr.
  destruct (Z.to_nat (1 + Z.max (height l) (height r))) as [|[|n]] eqn:En; [lia| |].
  - assert (0 <= minsize nl /\ 0 <= minsize nr) by (split; apply (minsize_mono 0); lia).
    unfold minsize at 1. simpl. lia.
  - rewrite minsize_SS. pose proof (minsize_mono n nl ltac:(lia)). pose proof (minsize_mono n nr ltac:(lia)).
    pose proof (minsize_mono (S n) (Nat.max nl nr) ltac:(lia)).
    destruct (Nat.max_spec nl nr) as [[? E]|[? E]]; rewrite E in *; lia.
Qed.

(** The stack of [avl_delete] has room for every tree of up to this many nodes. *)
Definition AVL_SAFE_SIZE : Z := 44945570212852.

Lemma safe_height {A} (t : Avlnode A) :
  balanced t -> size t < AVL_SAFE_SIZE -> height t <= Z.of_nat MAX_TREE_DEPTH.
Proof.
  intros Hb Hs. destruct (decide (height t <= Z.of_nat MAX_TREE_DEPTH)) as [|Hn]; [done|exfalso].
  pose proof (balanced_size t Hb). pose proof (minsize_mono 65 (Z.to_nat (height t))) as Hm.
  assert (minsize 65 = AVL_SAFE_SIZE) as E by (vm_compute; reflexivity).
  unfold MAX_TREE_DEPTH in *. lia.
Qed.
