(* ===== verification/AvlTheorems.v ===== *)
(** * AVL trees: the operations refine those of sorted sequences *)

From S2P Require Import Prelude Order Ber Avl AvlFacts.
From Stdlib Require Import Sorted.

Local Open Scope Z_scope.

Section Order.
Context {A : Type} (fcmp : A -> A -> Z) `{!Comparison fcmp}.
Local Abbreviation cmp_lt := (cmp_lt fcmp).

(** A well-formed tree: balanced, with its sequence in ascending order. *)
Definition avl_ok (t : Avlnode A) : Prop := balanced t /\ StronglySorted cmp_lt (inorder t).

(** Frames that the walk for [data] leaves behind. *)
Definition walked (data : A) (f : frame A) : Prop :=
  if f.(fr_dir) then fcmp data f.(fr_data) > 0 else fcmp data f.(fr_data) < 0.

Lemma walked_around data fs mid :
  Forall (walked data) fs -> StronglySorted cmp_lt (lefts fs ++ mid ++ rights fs) ->
  (forall x, x ∈ lefts fs -> cmp_lt x data) /\ (forall x, x ∈ rights fs -> cmp_lt data x).
Proof.
  revert mid. induction fs as [|f fs IH]; intros mid Hw Hs; [split; intros x Hx; by apply not_elem_of_nil in Hx|].
  rewrite list.Forall_cons in Hw. destruct Hw as [Hf Hw]. destruct f as [d b y o].
  unfold walked in Hf. cbn [lefts rights fr_dir fr_data fr_other] in *. destruct d.
  - destruct (IH (inorder o ++ [y] ++ mid) Hw) as [Hl Hr]; [by rewrite <-!app_assoc in *|].
    split; [|intros x; rewrite app_nil_l; apply Hr]. intros x.
    pose proof (cmp_swap (fcmp:=fcmp) y data). rewrite !elem_of_app, list_elem_of_singleton.
    intros [Hx|[Hx| ->]]; [by apply Hl| |unfold cmp_lt; lia].
    rewrite <-!app_assoc in Hs. apply sorted_app in Hs as (_ & Hs & _). apply sorted_app in Hs as (_ & _ & Hs).
    apply (cmp_lt_le x y data); [|lia]. apply Hs; [done|]. simpl. left.
  - destruct (IH (mid ++ y :: inorder o) Hw) as [Hl Hr].
    { rewrite app_nil_r, <-!app_assoc in *. done. }
    split; [intros x; rewrite app_nil_r; apply Hl|]. intros x. cbn [app]. rewrite elem_of_cons, elem_of_app.
    intros [->|[Hx|Hx]]; [unfold cmp_lt; lia| |by apply Hr].
    rewrite app_nil_r in Hs. cbn [app] in Hs. apply sorted_app in Hs as (_ & Hs & _). apply sorted_app in Hs as (_ & Hs & _).
    apply sorted_cons in Hs as [_ Hs].
    apply (cmp_lt_le data y x); [lia|]. apply Z.lt_le_incl, Hs. rewrite elem_of_app. by left.
Qed.

(** ** Search *)

Lemma find_spec t data x :
  StronglySorted cmp_lt (inorder t) ->
  avl_find fcmp t data = Some x <-> x ∈ inorder t /\ fcmp data x = 0.
Proof.
  induction t as [|bf l IHl y r IHr]; intros Hs; simpl.
  { split; [done|]. intros [Hx _]. by apply not_elem_of_nil in Hx. }
  cbn [inorder] in Hs. apply sorted_app in Hs as (Hl & Hs & Hlr). apply sorted_cons in Hs as [Hr Hy].
  rewrite elem_of_app, elem_of_cons.
  assert (forall z, z ∈ inorder l -> cmp_lt z y) as Hly by (intros z Hz; apply Hlr; [done|left]).
  pose proof (cmp_swap (fcmp:=fcmp) data y) as Sy.
  case_if; zb; [|case_if; zb; rewrite ?IHr, ?IHl by done]; split.
  - intros [= <-]. auto.
  - intros [[Hx|[->|Hx]] Hc]; [|done|]; exfalso.
    + pose proof (cmp_le_lt (fcmp:=fcmp) data x y ltac:(lia) (Hly x Hx)). lia.
    + pose proof (cmp_lt_le (fcmp:=fcmp) y x data (Hy x Hx)). pose proof (cmp_swap (fcmp:=fcmp) data x). lia.
  - intros [? ?]. auto.
  - intros [[Hx|[->|Hx]] Hc]; [|lia|done]. exfalso. pose proof (cmp_le_lt (fcmp:=fcmp) data x y ltac:(lia) (Hly x Hx)). lia.
  - intros [? ?]. auto.
  - intros [[Hx|[->|Hx]] Hc]; [done|lia|]. exfalso.
    pose proof (cmp_lt_le (fcmp:=fcmp) y x data (Hy x Hx)). pose proof (cmp_swap (fcmp:=fcmp) data x). lia.
Qed.

(** ** The walk of an insertion *)

Definition walk_ok (above below : list (frame A)) : Prop :=
  Forall (fun f => f.(fr_bf) = 0) (removelast below) /\
  (forall pre s, below = pre ++ [s] -> s.(fr_bf) <> 0 \/ above = []).

Lemma walk_push above below f :
  walk_ok above below ->
  (below = [] -> f.(fr_bf) <> 0 \/ above = []) -> (below <> [] -> f.(fr_bf) = 0) ->
  walk_ok above (f :: below).
Proof.
  intros [H1 H2] Hs0 Hs1. destruct below as [|g below].
  - split; [constructor|]. intros [|? [|? ?]] s [= <-]. by apply Hs0.
  - split; [simpl; constructor; [by apply Hs1|done]|].
    intros [|h pre] s [= Es E2]. apply (H2 pre). done.
Qed.

Definition child_frame (d : bool) (bf : Z) (l : Avlnode A) (x : A) (r : Avlnode A) : frame A :=
  mkFrame d bf x (link (negb d) l r).

Lemma plug_child d bf l x r fs :
  plug (child_frame d bf l x r :: fs) (link d l r) = plug fs (Node bf l x r).
Proof. by destruct d. Qed.

Lemma link_inorder d (l r : Avlnode A) x y : y ∈ inorder (link d l r) -> y ∈ inorder l ++ x :: inorder r.
Proof. rewrite elem_of_app, elem_of_cons. destruct d; auto. Qed.

Lemma find_place_node data bf l x r above below :
  fcmp data x <> 0 ->
  let d := fcmp data x >? 0 in
  let q := link d l r in
  let f := child_frame d bf l x r in
  find_place fcmp data (Node bf l x r) above below =
  if negb (root_bf q =? 0) then find_place fcmp data q (f :: below ++ above) []
  else find_place fcmp data q above (f :: below).
Proof.
  intros Hc. simpl. rewrite (proj2 (Z.eqb_neq _ _) Hc).
  by destruct (link (fcmp data x >? 0) l r) as [|qb ? ? ?].
Qed.

(** What the walk from [p] leaves: the tree with a hole. *)
Definition placed (data : A) (t : Avlnode A) (ys : list A) (res : A + (list (frame A) * list (frame A))) : Prop :=
  match res with
  | inl x => x ∈ ys /\ fcmp data x = 0
  | inr (above, below) =>
      plug (below ++ above) Leaf = t /\ walk_ok above below /\ Forall (walked data) (below ++ above) /\
      (t <> Leaf -> below <> [])
  end.

Lemma find_place_spec data p above below :
  walk_ok above below ->
  (below = [] -> root_bf p <> 0 \/ above = []) -> (below <> [] -> root_bf p = 0) ->
  (below = [] -> p = Leaf -> above = []) ->
  Forall (walked data) (below ++ above) ->
  placed data (plug (below ++ above) p) (inorder p) (find_place fcmp data p above below).
Proof.
  revert above below. induction p as [|bf l IHl x r IHr]; intros above below Hwk Hs0 Hs1 Hl Hw.
  { simpl. split_and!; [done..|]. intros Hne ->. rewrite (Hl eq_refl eq_refl) in Hne. done. }
  destruct (decide (fcmp data x = 0)) as [Hc|Hc].
  { simpl. rewrite (proj2 (Z.eqb_eq _ _) Hc). split; [|done]. rewrite elem_of_app, elem_of_cons. auto. }
  rewrite find_place_node by done. cbv zeta. set (d := fcmp data x >? 0). set (f := child_frame d bf l x r).
  assert (walked data f) as Hf by (unfold walked, f, d; simpl; destruct (_ >? _) eqn:E2; zb; lia).
  assert (forall ab be, be ++ ab = f :: below ++ above -> walk_ok ab be ->
    (be = [] -> root_bf (link d l r) <> 0 \/ ab = []) -> (be <> [] -> root_bf (link d l r) = 0) ->
    (be = [] -> link d l r = Leaf -> ab = []) ->
    placed data (plug (below ++ above) (Node bf l x r)) (inorder l ++ x :: inorder r)
      (find_place fcmp data (link d l r) ab be)) as Hstep.
  { intros ab be Eab H1 H2 H3 H4. rewrite <- (plug_child d). fold f. rewrite <- Eab.
    assert (placed data (plug (be ++ ab) (link d l r)) (inorder (link d l r))
      (find_place fcmp data (link d l r) ab be)) as IH.
    { assert (Forall (walked data) (be ++ ab)) by (rewrite Eab; by constructor).
      destruct d; [by apply IHr|by apply IHl]. }
    destruct (find_place _ _ _ _ _) as [y|[a b]]; [|done].
    destruct IH as [Hy ?]. split; [by apply (link_inorder d)|done]. }
  destruct (root_bf (link d l r) =? 0) eqn:Eq; zb; cbn [negb]; apply Hstep; try done; try (by auto).
  - by apply walk_push.
  - split; [constructor|]. intros [|? ?] ? [=].
  - intros _ El. by rewrite El in Eq.
Qed.

(** ** The sequence after an insertion *)

Lemma sorted_add (u v : list A) data :
  StronglySorted cmp_lt (u ++ v) ->
  (forall x, x ∈ u -> cmp_lt x data) -> (forall x, x ∈ v -> cmp_lt data x) ->
  StronglySorted cmp_lt (u ++ data :: v).
Proof.
  intros (Hu & Hv & Huv)%sorted_app H1 H2. apply sorted_app. split_and!; [done|by apply sorted_cons|].
  intros x y Hx [->|Hy]%elem_of_cons; auto.
Qed.

Lemma find_None t data :
  StronglySorted cmp_lt (inorder t) ->
  avl_find fcmp t data = None <-> (forall x, x ∈ inorder t -> fcmp data x <> 0).
Proof.
  intros Hs. split.
  - intros Hn x Hx Hc. assert (avl_find fcmp t data = Some x) by (by apply find_spec). congruence.
  - intros Hx. destruct (avl_find fcmp t data) as [y|] eqn:E; [|done].
    apply find_spec in E as [Hy Hc]; [|done]. by destruct (Hx y Hy).
Qed.

(** Two trees with the same elements find the same. *)
Lemma find_ext t t' data :
  StronglySorted cmp_lt (inorder t) -> StronglySorted cmp_lt (inorder t') ->
  (forall x, fcmp data x = 0 -> x ∈ inorder t <-> x ∈ inorder t') ->
  avl_find fcmp t data = avl_find fcmp t' data.
Proof.
  intros Hs Hs' Hx. destruct (avl_find fcmp t' data) as [y|] eqn:E.
  - apply find_spec in E as [Hy Hc]; [|done]. apply find_spec; [done|]. split; [by apply Hx|done].
  - apply find_None; [done|]. intros x Hin Hc. apply (proj1 (find_None t' data Hs') E x); [|done]. by apply Hx.
Qed.

Definition find_after_insert (t t' : Avlnode A) (data : A) : Prop :=
  forall k, avl_find fcmp t' k = if decide (fcmp k data = 0) then Some data else avl_find fcmp t k.

Lemma find_inserted t t' data :
  StronglySorted cmp_lt (inorder t) -> StronglySorted cmp_lt (inorder t') ->
  inorder t' ≡ₚ data :: inorder t -> find_after_insert t t' data.
Proof.
  intros Hs Hs' Hp k. case_decide as Hk.
  - apply find_spec; [done|]. split; [rewrite Hp; left|done].
  - apply find_ext; [done..|]. intros x Hx. rewrite Hp, elem_of_cons.
    split; [intros [->|?]; done|by right].
Qed.

Lemma insert_placed `{Heap} t data fdup above below :
  avl_ok t -> t <> Leaf -> find_place fcmp data t [] [] = inr (above, below) ->
  exists t', avl_insert fcmp t data fdup = (if ber_memalloc_x sizeof_Avlnode then Some (0, t') else Some (-1, t)) /\
  avl_ok t' /\ inorder t' ≡ₚ data :: inorder t /\ avl_find fcmp t data = None.
Proof.
  intros [Hb Hs] Hne Hf.
  pose proof (find_place_spec data t [] []) as Hp. rewrite Hf in Hp.
  destruct Hp as (Hpl & [Hz Hs0] & Hw & Hne'); try (by auto).
  { split; [constructor|]. intros [|? ?] ? [=]. }
  simpl in Hpl, Hne'. specialize (Hne' Hne).
  rewrite <- Hpl in Hb. apply frames_of_plug in Hb as [_ Hfs]. apply frames_ok_app in Hfs as [Hfb Hfa].
  destruct (adjust_spec below (Node EH Leaf data Leaf) 0)
    as (r & s & Ha & Hbel & Hr & Hsok & Hh & Hin & Hroot); try done.
  destruct (insert_balance_spec s r Hr Hsok) as (p & Hib & Hbp & Hip & Hhp).
  { intros. apply Hroot. lia. }
  exists (plug above p). split.
  { unfold avl_insert. destruct t; [done|]. rewrite Hf. case_if; [|done]. rewrite Ha. simpl. by rewrite Hib. }
  assert (inorder (plug above p) = lefts (below ++ above) ++ data :: rights (below ++ above)) as Hseq.
  { rewrite inorder_plug, Hip, inorder_refill, Hin, lefts_app, rights_app, Hbel, lefts_app, rights_app.
    rewrite <-Hbel. simpl. rewrite <-!app_assoc. done. }
  assert (inorder t = lefts (below ++ above) ++ rights (below ++ above)) as Ht by (by rewrite <- Hpl, inorder_plug).
  rewrite Ht in Hs. destruct (walked_around data (below ++ above) [] Hw Hs) as [Hl Hr'].
  split; [split|split].
  - apply balanced_plug; [done|]. destruct (Hs0 _ _ Hbel) as [Hsb| ->]; [|done].
    rewrite Hhp by done. rewrite Hbel, fold_left_app in Hfa. simpl in Hfa. by rewrite <- Hh in Hfa.
  - rewrite Hseq. by apply sorted_add.
  - rewrite Hseq, Ht. by rewrite Permutation_middle.
  - apply find_None; [by rewrite Ht|]. intros x. rewrite Ht, elem_of_app.
    pose proof (cmp_swap (fcmp:=fcmp) x data). intros [Hx|Hx]; [apply Hl in Hx|apply Hr' in Hx]; unfold cmp_lt in *; lia.
Qed.

(** ** The walk of a deletion *)

Lemma delete_find_spec data p stk :
  Z.of_nat (length stk) + height p <= Z.of_nat MAX_TREE_DEPTH ->
  exists res, delete_find fcmp data p stk = Some res /\
  match res with
  | None => avl_find fcmp p data = None
  | Some (bf, l, x, r, stk') =>
      avl_find fcmp p data = Some x /\ plug stk' (Node bf l x r) = plug stk p /\
      Z.of_nat (length stk') + height (Node bf l x r) <= Z.of_nat MAX_TREE_DEPTH
  end.
Proof.
  revert stk. induction p as [|bf l IHl x r IHr]; intros stk Hd; [eexists; done|].
  cbn [delete_find avl_find]. destruct (fcmp data x =? 0) eqn:E; [eexists; done|].
  set (d := fcmp data x >? 0). pose proof (height_nonneg l). pose proof (height_nonneg r).
  unfold push. cbn [height] in Hd. rewrite decide_True by lia. cbn [mbind option_bind].
  rewrite <- (plug_child d).
  destruct d; [apply (IHr (child_frame true bf l x r :: stk))|apply (IHl (child_frame false bf l x r :: stk))];
    simpl; lia.
Qed.

Lemma sorted_remove (u v : list A) x :
  StronglySorted cmp_lt (u ++ x :: v) -> StronglySorted cmp_lt (u ++ v).
Proof.
  intros (Hu & [Hv Hx]%sorted_cons & Huv)%sorted_app. apply sorted_app. split_and!; [done..|].
  intros a b Ha Hb. apply Huv; [done|by right].
Qed.

(** In ascending order no two elements are equal. *)
Lemma sorted_unique (l : list A) x u v :
  StronglySorted cmp_lt l -> l = u ++ x :: v -> forall y, y ∈ u ++ v -> fcmp x y <> 0.
Proof.
  intros Hs -> y Hy. apply sorted_app in Hs as (_ & [_ Hv]%sorted_cons & Huv).
  apply elem_of_app in Hy as [Hy|Hy].
  - specialize (Huv y x Hy ltac:(left)). pose proof (cmp_swap (fcmp:=fcmp) y x). unfold cmp_lt in *. lia.
  - specialize (Hv y Hy). unfold cmp_lt in *. lia.
Qed.

Definition find_after_delete (t t' : Avlnode A) (data : A) : Prop :=
  forall k, avl_find fcmp t' k = if decide (fcmp k data = 0) then None else avl_find fcmp t k.

Lemma find_deleted t t' data x u v :
  avl_ok t -> StronglySorted cmp_lt (inorder t') -> fcmp data x = 0 ->
  inorder t = u ++ x :: v -> inorder t' = u ++ v -> find_after_delete t t' data.
Proof.
  intros [_ Hs] Hs' Hc Ht Ht' k. pose proof (sorted_unique _ _ _ _ Hs Ht) as Hu. rewrite <- Ht' in Hu.
  case_decide as Hk.
  - apply find_None; [done|]. intros y Hy Hky. apply (Hu y Hy).
    apply (cmp_eq_trans k); [|done]. pose proof (cmp_swap (fcmp:=fcmp) k data).
    apply (cmp_eq_trans data); [lia|done].
  - apply find_ext; [done..|]. intros y Hy. rewrite Ht, Ht', !elem_of_app, elem_of_cons.
    split; [tauto|]. intros [?|[->|?]]; [by left| |by right]. exfalso. apply Hk.
    pose proof (cmp_swap (fcmp:=fcmp) k x). pose proof (cmp_swap (fcmp:=fcmp) data x).
    pose proof (cmp_swap (fcmp:=fcmp) k data).
    assert (fcmp x k = 0) by lia. apply (cmp_eq_trans x); lia.
Qed.

Lemma delete_found t data bf l x r stk :
  avl_ok t -> plug stk (Node bf l x r) = t ->
  Z.of_nat (length stk) + height (Node bf l x r) <= Z.of_nat MAX_TREE_DEPTH -> fcmp data x = 0 ->
  exists q stk' t', unlink_node bf l r stk = Some (q, stk') /\ shrink stk' q = Some t' /\
  avl_ok t' /\ inorder t ≡ₚ x :: inorder t' /\ find_after_delete t t' data.
Proof.
  intros Hok Hpl Hd Hc. pose proof Hok as [Hb Hs]. pose proof Hb as Hb'. rewrite <- Hpl in Hb'.
  apply frames_of_plug in Hb' as [Hn Hfs].
  destruct (unlink_node_spec bf l x r stk Hn Hfs Hd) as (q & stk' & Hu & Hq & Hfs' & Hseq).
  destruct (shrink_spec stk' q Hq Hfs') as (t' & Hsh & Hbt & Hin).
  exists q, stk', t'. rewrite Hseq in Hin.
  assert (inorder t = (lefts stk ++ inorder l) ++ x :: (inorder r ++ rights stk)) as Ht.
  { rewrite <- Hpl, inorder_plug. simpl. rewrite <-!app_assoc. done. }
  assert (inorder t' = (lefts stk ++ inorder l) ++ (inorder r ++ rights stk)) as Ht'
    by (rewrite Hin, <-!app_assoc; done).
  assert (StronglySorted cmp_lt (inorder t')) as Hs'.
  { rewrite Ht'. apply (sorted_remove _ _ x). by rewrite <- Ht. }
  split_and!; [done..|rewrite Ht, Ht'; symmetry; apply Permutation_middle|]. by eapply find_deleted.
Qed.
End Order.

(** C13: on a well-formed tree [avl_insert] either finds equal data, and then
    returns what the caller's [fdup] says and leaves the tree alone, or it puts
    the data into the sequence: the result is again balanced and in order, and a
    search afterwards finds the new data and everything that was there before.
    Without memory it fails and leaves the tree alone. *)
Theorem avl_insert_correct {A} (fcmp : A -> A -> Z) `{!Comparison fcmp} `{Heap} t data fdup :
  avl_ok fcmp t ->
  exists rc t', avl_insert fcmp t data fdup = Some (rc, t') /\ avl_ok fcmp t' /\
  match avl_find fcmp t data with
  | Some x => rc = fdup x data /\ t' = t
  | None =>
      if ber_memalloc_x sizeof_Avlnode
      then rc = 0 /\ inorder t' ≡ₚ data :: inorder t /\ find_after_insert fcmp t t' data
      else rc = -1 /\ t' = t
  end.
Proof.
  intros Hok. assert (t = Leaf \/ t <> Leaf) as [->|Hne] by (destruct t; auto).
  { simpl. case_if; do 2 eexists; (split; [done|]); [|done]. split.
    - split; [done|]. repeat constructor.
    - split_and!; [done..|]. apply find_inserted; [done|constructor|repeat constructor|done]. }
  destruct (find_place fcmp data t [] []) as [x|[above below]] eqn:Hf.
  - pose proof (find_place_spec fcmp data t [] []) as Hp. rewrite Hf in Hp. destruct Hp as [Hx Hc]; try (by auto).
    { split; [constructor|]. intros [|? ?] ? [=]. }
    destruct Hok as [Hb Hs]. rewrite (proj2 (find_spec fcmp t data x Hs) (conj Hx Hc)).
    exists (fdup x data), t. split; [|done]. unfold avl_insert. destruct t; [done|]. by rewrite Hf.
  - destruct (insert_placed fcmp t data fdup above below Hok Hne Hf) as (t' & -> & Hok' & Hp & ->).
    case_if; do 2 eexists; (split; [done|]); [|done]. split_and!; [done..|].
    apply find_inserted; [done|apply Hok|apply Hok'|done].
Qed.

Definition sample_tree : Avlnode Z :=
  Node 1 (Node 0 Leaf 1 Leaf) 2 (Node 1 Leaf 5 (Node 0 Leaf 7 Leaf)).

Lemma sample_tree_ok : avl_ok zcmp sample_tree.
Proof. split; [by apply (bool_decide_unpack _); vm_compute|]. repeat constructor. Qed.

Lemma avl_insert_correct_witness :
  avl_insert (H:=zero_heap) zcmp sample_tree 6 avl_dup_error =
    Some (0, Node 1 (Node 0 Leaf 1 Leaf) 2 (Node 0 (Node 0 Leaf 5 Leaf) 6 (Node 0 Leaf 7 Leaf))) /\
  exists rc t', avl_insert (H:=zero_heap) zcmp sample_tree 6 avl_dup_error = Some (rc, t') /\ avl_ok zcmp t'.
Proof.
  split; [vm_compute; reflexivity|].
  destruct (avl_insert_correct (H:=zero_heap) zcmp sample_tree 6 avl_dup_error sample_tree_ok)
    as (rc & t' & E & Hok & _).
  exists rc, t'. split; [exact E|exact Hok].
Defined.

(** C21: on a well-formed tree that fits the stack of parents (every tree of
    less than 44945570212852 nodes does) [avl_delete] returns what a search
    finds, and removes it from the sequence: the result is balanced and in order,
    the data is no longer found and everything else still is. *)
Theorem avl_delete_correct {A} (fcmp : A -> A -> Z) `{!Comparison fcmp} t data :
  avl_ok fcmp t -> size t < AVL_SAFE_SIZE ->
  exists res t', avl_delete fcmp t data = Some (res, t') /\ avl_ok fcmp t' /\
  res = avl_find fcmp t data /\ find_after_delete fcmp t t' data /\
  match res with
  | Some x => inorder t ≡ₚ x :: inorder t'
  | None => t' = t
  end.
Proof.
  intros Hok Hsz. pose proof Hok as [Hb Hs].
  destruct (delete_find_spec fcmp data t []) as (res & Hd & Hres); [simpl; by apply safe_height|].
  unfold avl_delete. rewrite Hd. cbn [mbind option_bind].
  destruct res as [[[[[bf l] x] r] stk]|].
  - destruct Hres as (Hf & Hpl & Hdep).
    assert (fcmp data x = 0) as Hc by (by apply find_spec in Hf as [_ ?]).
    destruct (delete_found fcmp t data bf l x r stk Hok Hpl Hdep Hc) as (q & stk' & t' & -> & Hsh & Hok' & Hp & Hfd).
    cbn [mbind option_bind]. rewrite Hsh. exists (Some x), t'. split; [done|]. rewrite Hf. done.
  - exists None, t. rewrite Hres. split_and!; [done..| |done]. intros k. case_decide as Hk; [|done].
    apply (find_None fcmp); [done|]. intros x Hx Hkx. apply (proj1 (find_None fcmp t data Hs) Hres x Hx).
    by apply (cmp_eq_trans (fcmp:=fcmp) k).
Qed.

Lemma avl_delete_correct_witness :
  size sample_tree < AVL_SAFE_SIZE /\
  avl_delete zcmp sample_tree 1 = Some (Some 1, Node 0 (Node 0 Leaf 2 Leaf) 5 (Node 0 Leaf 7 Leaf)) /\
  exists res t', avl_delete zcmp sample_tree 1 = Some (res, t') /\ avl_ok zcmp t'.
Proof.
  split; [reflexivity|]. split; [vm_compute; reflexivity|].
  destruct (avl_delete_correct zcmp sample_tree 1 sample_tree_ok eq_refl) as (res & t' & E & Hok & _).
  exists res, t'. split; [exact E|exact Hok].
Defined.

(** ** Traversals *)

Section Traversal.
Context {A St : Type} (fn : A -> St -> Z * St) (stopflag : Z).

(** Call [fn] on each element until it returns [stopflag]. *)
Fixpoint visit (l : list A) (st : St) : bool * St :=
  match l with
  | [] => (false, st)
  | x :: l => let '(rc, st) := fn x st in if rc =? stopflag then (true, st) else visit l st
  end.

Lemma visit_app u v st :
  visit (u ++ v) st = let '(b, st) := visit u st in if b then (true, st) else visit v st.
Proof.
  revert st. induction u as [|x u IH]; intros st; simpl; [done|].
  destruct (fn x st) as [rc st']. by case_if.
Qed.

Fixpoint preorder (t : Avlnode A) : list A :=
  match t with Leaf => [] | Node _ l x r => x :: preorder l ++ preorder r end.
Fixpoint postorder (t : Avlnode A) : list A :=
  match t with Leaf => [] | Node _ l x r => postorder l ++ postorder r ++ [x] end.

(** The code a traversal returns tells whether it was stopped. *)
Definition visits (res : Z * St) (l : list A) (st : St) : Prop :=
  res.2 = (visit l st).2 /\ (res.1 = stopflag <-> (visit l st).1 = true).

Lemma visits_nil st : stopflag <> AVL_NOMORE -> visits (AVL_NOMORE, st) [] st.
Proof. split; [done|]. simpl. split; [congruence|done]. Qed.

(** A part of a traversal followed by the rest, unless the part was stopped. *)
Lemma visits_app (res : Z * St) u v st (k : St -> Z * St) :
  visits res u st -> (forall st, visits (k st) v st) ->
  visits (let '(rc, st) := res in if rc =? stopflag then (stopflag, st) else k st) (u ++ v) st.
Proof.
  destruct res as [rc st']. intros [Hst Hrc] Hk. unfold visits. rewrite visit_app.
  destruct (visit u st) as [b st'']. simpl in *. subst st''. destruct b.
  - rewrite (proj2 (Z.eqb_eq _ _)) by tauto. done.
  - rewrite (proj2 (Z.eqb_neq _ _)) by (intros E; discriminate (proj1 Hrc E)). apply Hk.
Qed.

Lemma visits_one x st : visits (fn x st) [x] st.
Proof.
  unfold visits. simpl. destruct (fn x st) as [rc st']. simpl. case_if; zb; simpl; (split; [done|]); split; congruence.
Qed.

Context (Hstop : stopflag <> AVL_NOMORE).

Lemma inapply_visits t st : visits (avl_inapply fn stopflag t st) (inorder t) st.
Proof using Hstop.
  revert st. induction t as [|bf l IHl x r IHr]; intros st; [by apply visits_nil|].
  assert (forall st, visits (let '(rc, st) := fn x st in if rc =? stopflag then (stopflag, st) else
    match r with Leaf => (AVL_NOMORE, st) | _ => avl_inapply fn stopflag r st end) (x :: inorder r) st) as Hx.
  { intros st1. apply (visits_app _ [x] _ _ (fun st => match r with Leaf => (AVL_NOMORE, st) | _ => avl_inapply fn stopflag r st end)).
    - apply visits_one.
    - intros st2. by destruct r. }
  cbn [avl_inapply inorder]. destruct l as [|lb ll lx lr]; [apply Hx|]. by apply visits_app.
Qed.

Lemma preapply_visits t st : visits (avl_preapply fn stopflag t st) (preorder t) st.
Proof using Hstop.
  revert st. induction t as [|bf l IHl x r IHr]; intros st; [by apply visits_nil|].
  cbn [avl_preapply preorder]. change (x :: ?v) with ([x] ++ v).
  assert (forall st, visits match r with Leaf => (AVL_NOMORE, st) | _ => avl_preapply fn stopflag r st end (preorder r) st) as Hr.
  { intros st1. by destruct r. }
  apply visits_app; [apply visits_one|]. intros st1. destruct l as [|lb ll lx lr]; [apply Hr|]. by apply visits_app.
Qed.

Lemma postapply_visits t st : visits (avl_postapply fn stopflag t st) (postorder t) st.
Proof using Hstop.
  revert st. induction t as [|bf l IHl x r IHr]; intros st; [by apply visits_nil|].
  cbn [avl_postapply postorder].
  assert (forall st, visits match r with Leaf => fn x st
    | _ => let '(rc, st) := avl_postapply fn stopflag r st in if rc =? stopflag then (stopflag, st) else fn x st end
    (postorder r ++ [x]) st) as Hr.
  { intros st1. destruct r as [|rb rl rx rr]; [apply visits_one|]. apply visits_app; [done|apply visits_one]. }
  destruct l as [|lb ll lx lr]; [apply Hr|]. by apply visits_app.
Qed.
End Traversal.

Definition order_of {A} (type : Z) (t : Avlnode A) : list A :=
  if type =? AVL_INORDER then inorder t else if type =? AVL_PREORDER then preorder t else postorder t.

(** @: [avl_apply] in each of the three orders calls [fn] on the elements of
    the tree in that order, stops at the first call that returns [stopflag], and
    returns [stopflag] exactly when it was stopped, as long as [stopflag] is not
    the code that means "no more". *)
Theorem avl_apply_visits {A St} (fn : A -> St -> Z * St) stopflag t type st :
  stopflag <> AVL_NOMORE -> type = AVL_INORDER \/ type = AVL_PREORDER \/ type = AVL_POSTORDER ->
  let '(rc, st') := avl_apply fn stopflag t type st in
  let '(stopped, st'') := visit fn stopflag (order_of type t) st in
  st' = st'' /\ (rc = stopflag <-> stopped = true).
Proof.
  intros Hs Ht.
  assert (visits fn stopflag (avl_apply fn stopflag t type st) (order_of type t) st) as Hv.
  { destruct Ht as [-> |[-> | ->]]; unfold avl_apply, order_of; simpl;
      [by apply inapply_visits|by apply preapply_visits|by apply postapply_visits]. }
  unfold visits in Hv. by destruct (avl_apply _ _ _ _ _), (visit _ _ _ _).
Qed.

Lemma avl_apply_visits_witness :
  let fn (x : Z) (st : list Z) := (if x =? 5 then -1 else 0, st ++ [x]) in
  avl_apply fn (-1) sample_tree AVL_INORDER [] = (-1, [1; 2; 5]) /\
  let '(rc, st') := avl_apply fn (-1) sample_tree AVL_INORDER [] in
  let '(stopped, st'') := visit fn (-1) (order_of AVL_INORDER sample_tree) [] in
  st' = st'' /\ (rc = -1 <-> stopped = true).
Proof.
  intros fn. split; [vm_compute; reflexivity|].
  apply (avl_apply_visits fn (-1) sample_tree AVL_INORDER []); [discriminate|left; reflexivity].
Defined.

(** The comment on [avl_apply] has -6 for a traversal that ran out of nodes; in
    post-order it returns the code of the last call instead. *)
Theorem avl_postapply_last_code :
  avl_apply (fun (x : Z) (st : unit) => (0, st)) (-1) sample_tree AVL_POSTORDER tt = (0, tt).
Proof. reflexivity. Qed.

(** [avl_free] counts the nodes and frees each datum, children first. *)
Lemma avl_free_all {A} (t : Avlnode A) freed : avl_free t freed = (size t, freed ++ postorder t).
Proof.
  revert freed. induction t as [|bf l IHl x r IHr]; intros freed; simpl; [by rewrite app_nil_r|].
  rewrite IHl, IHr, <-!app_assoc. f_equal. lia.
Qed.

(** [avl_find_lin] finds an element whenever there is one, in any tree. *)
Lemma avl_find_lin_spec {A} (fcmp : A -> A -> Z) t data :
  (avl_find_lin fcmp t data = None <-> forall x, x ∈ inorder t -> fcmp data x <> 0) /\
  (forall x, avl_find_lin fcmp t data = Some x -> x ∈ inorder t /\ fcmp data x = 0).
Proof.
  induction t as [|bf l [IHl1 IHl2] y r [IHr1 IHr2]]; cbn [avl_find_lin inorder].
  { split; [|done]. split; [|done]. intros _ x Hx. by apply not_elem_of_nil in Hx. }
  setoid_rewrite elem_of_app. setoid_rewrite elem_of_cons. case_if; zb.
  { split; [|intros x [= <-]; auto]. split; [done|]. intros Hx. destruct (Hx y); auto. }
  destruct (avl_find_lin fcmp l data) as [z|].
  - split; [|intros x [= <-]; destruct (IHl2 z eq_refl); auto]. split; [done|].
    intros Hx. destruct (IHl2 z eq_refl). destruct (Hx z); auto.
  - split; [|intros x Hx; destruct (IHr2 x Hx); auto]. rewrite IHr1. split.
    + intros Hr x [Hx|[->|Hx]]; auto. by apply IHl1.
    + auto.
Qed.

(** Iterating with [avl_getfirst] and [avl_getnext] gives the sequence. *)
Lemma visit_buildlist {A} (l : list A) acc :
  visit avl_buildlist (-1) l (Some acc) = (false, Some (acc ++ l)).
Proof.
  revert acc. induction l as [|x l IH]; intros acc; simpl; [by rewrite app_nil_r|].
  rewrite IH, <- app_assoc. done.
Qed.

Lemma drain_spec {A} (l : list A) n fuel :
  (n <= length l)%nat -> (length l - n < fuel)%nat ->
  avl_drain fuel (mkIter (Some l) n) = Some (drop n l).
Proof.
  revert n. induction fuel as [|fuel IH]; intros n Hn Hf; [lia|]. simpl. unfold avl_getnext. simpl.
  case_decide as Hd.
  - simpl. by rewrite drop_ge by lia.
  - destruct (lookup_lt_is_Some_2 l n) as [x Hx]; [lia|]. rewrite Hx. simpl.
    rewrite IH by lia. simpl. by rewrite (drop_S l x n Hx).
Qed.

Theorem avl_iteration {A} (t : Avlnode A) :
  exists x it, avl_getfirst t = Some (x, it) /\
  match x with
  | None => t = Leaf
  | Some x => exists l, avl_drain (S (length (inorder t))) it = Some l /\ inorder t = x :: l
  end.
Proof.
  destruct t as [|bf l x r]; [do 2 eexists; done|]. unfold avl_getfirst.
  remember (Node bf l x r) as t eqn:Et.
  destruct (inapply_visits avl_buildlist (-1) ltac:(done) t None) as [Hl _].
  change (avl_inapply avl_buildlist (-1) t None) with (avl_apply avl_buildlist (-1) t AVL_INORDER None) in Hl.
  destruct (inorder t) as [|y ys] eqn:Ei; [subst; simpl in Ei; by destruct (inorder l)|].
  simpl in Hl. rewrite visit_buildlist in Hl. rewrite Hl, Et.
  exists (Some y), (mkIter (Some (y :: ys)) 1). split; [done|]. exists ys. split; [|done]. rewrite drain_spec by (simpl; lia). done.
Qed.
