(* ===== verification/Rurw.v ===== *)
(** * The recursive readers-writer lock of the configuration (rurwl.c)

    The operations are cut where another thread can come in between: at the
    unlocked look for the thread's slot, at the mutex, and at the waits on a
    condition. What a thread does between taking the mutex and releasing it or
    waiting is one step, and so is what it does to its own slot without the mutex.

    [Fails] is a failed assertion, [LDAP_BUG] or undefined behaviour: waiting on
    a condition, or releasing the mutex, without holding it. *)

From S2P Require Import Prelude.

Local Open Scope Z_scope.

Definition RURW_LOCK_MAXTHREADS : Z := 64.

(** [rurw_thr_state]: [thr] is 0 in a free slot; the depths [r] and [w]. *)
Record thr_state := mkThr { thr : Z; st_r : Z; st_w : Z }.

Record rurw_lock := mkLock {
  rurw_readers : Z;
  rurw_writer : bool;
  rurw_readers_wait : Z;
  rurw_writers_wait : Z;
  rurw_upgrades_wait : Z;
  rurw_fullscan_bitmask : Z;
  state : list thr_state }.

Definition rurw_lock_init : rurw_lock :=
  mkLock 0 false 0 0 0 0 (replicate (Z.to_nat RURW_LOCK_MAXTHREADS) (mkThr 0 0 0)).

Definition with_readers (p : rurw_lock) v :=
  mkLock v p.(rurw_writer) p.(rurw_readers_wait) p.(rurw_writers_wait) p.(rurw_upgrades_wait) p.(rurw_fullscan_bitmask) p.(state).
Definition with_writer (p : rurw_lock) v :=
  mkLock p.(rurw_readers) v p.(rurw_readers_wait) p.(rurw_writers_wait) p.(rurw_upgrades_wait) p.(rurw_fullscan_bitmask) p.(state).
Definition with_bitmask (p : rurw_lock) v :=
  mkLock p.(rurw_readers) p.(rurw_writer) p.(rurw_readers_wait) p.(rurw_writers_wait) p.(rurw_upgrades_wait) v p.(state).
Definition with_slot (p : rurw_lock) (j : nat) (s : thr_state) :=
  mkLock p.(rurw_readers) p.(rurw_writer) p.(rurw_readers_wait) p.(rurw_writers_wait) p.(rurw_upgrades_wait) p.(rurw_fullscan_bitmask)
    (<[j := s]> p.(state)).

(** The conditions [rurw_wait4r], [rurw_wait4w] and [rurw_wait4u]. *)
Inductive cond := wait4r | wait4w | wait4u.

(** Count a thread in or out of those that wait on a condition. *)
Definition add_wait (p : rurw_lock) (c : cond) (d : Z) : rurw_lock :=
  let dr := match c with wait4r => d | _ => 0 end in
  let dw := match c with wait4w => d | _ => 0 end in
  let du := match c with wait4u => d | _ => 0 end in
  mkLock p.(rurw_readers) p.(rurw_writer) (p.(rurw_readers_wait) + dr) (p.(rurw_writers_wait) + dw)
    (p.(rurw_upgrades_wait) + du) p.(rurw_fullscan_bitmask) p.(state).

(** ** [rurw_thread_index]: the static [last] and the thread's [index] *)

Definition INT_MAX : Z := 2147483647.

Definition rurw_thread_index (last index : Z) : Z * Z * Z :=
  let '(last, index) :=
    if index =? 0 then
      if last <? RURW_LOCK_MAXTHREADS then (last + 1, last + 1) else (last, INT_MAX)
    else (last, index) in
  (index - 1, last, index).

(** ** [rurw_enter] *)

Fixpoint index_where {A} (f : A -> bool) (l : list A) : option nat :=
  match l with
  | [] => None
  | x :: l => if f x then Some 0%nat else S <$> index_where f l
  end.

Definition own_slot (p : rurw_lock) (current : Z) : option nat :=
  index_where (fun s => s.(thr) =? current) p.(state).

(** The part without the mutex. *)
Inductive looked :=
| Found (slot : nat)   (** the thread has this slot *)
| Absent               (** [NULL]: it has none, and does not want one *)
| Take (scan : bool)   (** get a slot under the mutex: the own one, or scan for one *)
| Broken.

Definition rurw_look (p : rurw_lock) (current index : Z) (acquire : bool) : looked :=
  let fullscan :=
    match own_slot p current with
    | Some s => Found s
    | None => if acquire then Take true else Absent
    end in
  if index <? RURW_LOCK_MAXTHREADS then
    match p.(state) !! Z.to_nat index with
    | None => Broken
    | Some s =>
        if s.(thr) =? current then Found (Z.to_nat index) else
        if s.(thr) =? 0 then
          if negb acquire then
            if negb (Z.land p.(rurw_fullscan_bitmask) (Z.shiftl 1 index) =? 0) then fullscan else Absent
          else Take false
        else fullscan
    end
  else fullscan.

(** The part under the mutex; the slot is the thread's then. *)
Definition take_slot (p : rurw_lock) (j : nat) (current : Z) : option (nat * rurw_lock) :=
  s ← p.(state) !! j;
  if (s.(st_r) =? 0) && (s.(st_w) =? 0) then Some (j, with_slot p j (mkThr current s.(st_r) s.(st_w)))
  else None.

Definition rurw_take (p : rurw_lock) (current index : Z) (scan : bool) : option (nat * rurw_lock) :=
  let mask := if index <? RURW_LOCK_MAXTHREADS then Z.shiftl 1 index else 0 in
  let locked :=
    j ← index_where (fun s => s.(thr) =? 0) p.(state);
    take_slot (with_bitmask p (Z.lor p.(rurw_fullscan_bitmask) mask)) j current in
  if scan then locked else
  s ← p.(state) !! Z.to_nat index;
  if negb (s.(thr) =? 0) then locked
  else take_slot (with_bitmask p (Z.land p.(rurw_fullscan_bitmask) (Z.lnot mask))) (Z.to_nat index) current.

(** ** The operations, once the slot is known *)

Inductive signal := SigNone | SigOne (c : cond) | SigAll (c : cond).

Inductive result :=
| Returns (p : rurw_lock) (sig : signal)
| Blocks (c : cond) (p : rurw_lock)
| Fails.

(** [rurw_leave]: what is signalled when the mutex is released. *)
Definition rurw_leave (p : rurw_lock) : signal :=
  if negb p.(rurw_writer) then
    if (p.(rurw_readers) =? 0) && negb (p.(rurw_upgrades_wait) =? 0) then SigOne wait4u
    else if (p.(rurw_readers) =? 0) && negb (p.(rurw_writers_wait) =? 0) then SigOne wait4w
    else if negb (p.(rurw_readers_wait) =? 0) then SigAll wait4r
    else SigNone
  else SigNone.

Definition wait (mutex : bool) (c : cond) (p : rurw_lock) : result :=
  if mutex then Blocks c (add_wait p c 1) else Fails.

Definition unlock (mutex : bool) (p : rurw_lock) (sig : signal) : result :=
  if mutex then Returns p sig else Fails.

(** The loop of [rurw_r_lock] from its test on, and the rest. *)
Definition r_loop (p : rurw_lock) (j : nat) (mutex : bool) : result :=
  match p.(state) !! j with
  | None => Fails
  | Some s =>
      if p.(rurw_writer) then wait mutex wait4r p
      else unlock mutex (with_readers (with_slot p j (mkThr s.(thr) 1 s.(st_w))) (p.(rurw_readers) + 1)) SigNone
  end.

Definition rurw_r_lock (p : rurw_lock) (j : nat) (mutex : bool) : result :=
  match p.(state) !! j with
  | None => Fails
  | Some s =>
      if negb (s.(st_r) =? 0) then
        if mutex || negb (s.(st_r) <? 0xFFFF) then Fails
        else Returns (with_slot p j (mkThr s.(thr) (s.(st_r) + 1) s.(st_w))) SigNone
      else r_loop p j mutex
  end.

(** The loop of [rurw_w_lock] and the rest. *)
Definition w_loop (p : rurw_lock) (j : nat) (mutex : bool) : result :=
  match p.(state) !! j with
  | None => Fails
  | Some s =>
      if negb (p.(rurw_readers) =? 0) || p.(rurw_writer) then
        wait mutex (if negb (s.(st_r) =? 0) then wait4u else wait4w) p
      else unlock mutex (with_writer (with_slot p j (mkThr s.(thr) s.(st_r) 1)) true) SigNone
  end.

Definition rurw_w_lock (p : rurw_lock) (j : nat) (mutex : bool) : result :=
  match p.(state) !! j with
  | None => Fails
  | Some s =>
      if negb (s.(st_w) =? 0) then
        if mutex || negb (s.(st_w) <? 0xFFFF) then Fails
        else Returns (with_slot p j (mkThr s.(thr) s.(st_r) (s.(st_w) + 1))) SigNone
      else w_loop p j mutex
  end.

(** The loops of [rurw_obtain] and the rest; the slot holds the saved depths. *)
Definition obtain_loop (p : rurw_lock) (j : nat) (mutex : bool) : result :=
  match p.(state) !! j with
  | None => Fails
  | Some s =>
      if negb (s.(st_w) =? 0) then
        if negb (p.(rurw_readers) =? 0) || p.(rurw_writer) then wait mutex wait4w p
        else unlock mutex (with_readers (with_writer p true)
               (p.(rurw_readers) + (if s.(st_r) >? 0 then 1 else 0))) SigNone
      else
        if p.(rurw_writer) then wait mutex wait4r p
        else unlock mutex (with_readers p (p.(rurw_readers) + 1)) SigNone
  end.

Definition rurw_obtain (p : rurw_lock) (j : nat) (mutex : bool) (r w : Z) : result :=
  match p.(state) !! j with
  | None => Fails
  | Some s => obtain_loop (with_slot p j (mkThr s.(thr) r w)) j mutex
  end.

Definition rurw_r_unlock (p : rurw_lock) (j : nat) : result :=
  match p.(state) !! j with
  | None => Fails
  | Some s =>
      if (s.(st_r) >? 0) && (p.(rurw_readers) >? 0) then
        let r := s.(st_r) - 1 in
        let p :=
          if r =? 0 then
            with_readers (with_slot p j (mkThr (if s.(st_w) =? 0 then 0 else s.(thr)) r s.(st_w))) (p.(rurw_readers) - 1)
          else with_slot p j (mkThr s.(thr) r s.(st_w)) in
        Returns p (rurw_leave p)
      else Fails
  end.

Definition rurw_w_unlock (p : rurw_lock) (j : nat) : result :=
  match p.(state) !! j with
  | None => Fails
  | Some s =>
      if (s.(st_w) >? 0) && p.(rurw_writer) then
        let w := s.(st_w) - 1 in
        let p :=
          if w =? 0 then
            with_writer (with_slot p j (mkThr (if s.(st_r) =? 0 then 0 else s.(thr)) s.(st_r) w)) false
          else with_slot p j (mkThr s.(thr) s.(st_r) w) in
        Returns p (rurw_leave p)
      else Fails
  end.

(** [rurw_retreat]: the depths that were given up are the result. *)
Definition rurw_retreat (p : rurw_lock) (j : nat) : (Z * Z) * result :=
  match p.(state) !! j with
  | None => ((0, 0), Fails)
  | Some s =>
      let deep := (s.(st_r), s.(st_w)) in
      if ((s.(st_r) =? 0) && (s.(st_w) =? 0)) ||
         (negb (s.(st_r) =? 0) && negb (p.(rurw_readers) >? 0)) ||
         (negb (s.(st_w) =? 0) && negb p.(rurw_writer)) then (deep, Fails)
      else
        let p := if negb (s.(st_r) =? 0) then with_readers p (p.(rurw_readers) - 1) else p in
        let p := if negb (s.(st_w) =? 0) then with_writer p false else p in
        let p := with_slot p j (mkThr 0 0 0) in
        (deep, Returns p (rurw_leave p))
  end.

(** ** Threads

    A thread is outside the lock's code, or about to take the mutex for a call,
    or waiting on a condition in a call. *)

Inductive call :=
| RLock | RUnlock | WLock | WUnlock | Retreat | Obtain (r w : Z).

Inductive pc :=
| Idle
| Enter (c : call) (scan : bool)
| Wait (on : cond) (c : call) (slot : nat) (woken : bool).

Record sys := mkSys {
  lk : rurw_lock;
  last : Z;               (** the static of [rurw_thread_index] *)
  index : list Z;         (** the thread-local [index] of each thread *)
  pcs : list pc }.

(** The identity of the thread number [i]. *)
Definition self (i : nat) : Z := Z.of_nat i + 1.

Definition with_pc (s : sys) (i : nat) (x : pc) : sys := mkSys s.(lk) s.(last) s.(index) (<[i := x]> s.(pcs)).
Definition with_lk (s : sys) (p : rurw_lock) : sys := mkSys p s.(last) s.(index) s.(pcs).

(** The thread's index, assigned at its first call. *)
Definition thread_index (s : sys) (i : nat) : Z * sys :=
  let '(ix, last, own) := rurw_thread_index s.(last) (default 0 (s.(index) !! i)) in
  (ix, mkSys s.(lk) last (<[i := own]> s.(index)) s.(pcs)).

Definition unwoken (c : cond) (x : pc) : Prop :=
  match x with Wait c' _ _ false => c = c' | _ => False end.

Definition wake (x : pc) : pc := match x with Wait c o j _ => Wait c o j true | x => x end.

Definition wake_cond (c : cond) (x : pc) : pc :=
  match x with Wait c' _ _ _ => match c, c' with wait4r, wait4r | wait4w, wait4w | wait4u, wait4u => wake x | _, _ => x end | _ => x end.

(** What a signal does: one waiting thread is woken if there is any, or all are. *)
Inductive signals : signal -> list pc -> list pc -> Prop :=
| sig_none ts : signals SigNone ts ts
| sig_one c ts i x : ts !! i = Some x -> unwoken c x -> signals (SigOne c) ts (<[i := wake x]> ts)
| sig_nobody c ts : (forall i x, ts !! i = Some x -> ~ unwoken c x) -> signals (SigOne c) ts ts
| sig_all c ts : signals (SigAll c) ts (wake_cond c <$> ts).

(** The effect of a result of the call [o] of thread [i] in slot [j]. *)
Inductive finish (s : sys) (i j : nat) (o : call) : result -> sys -> Prop :=
| finish_returns p sig ts :
    signals sig (<[i := Idle]> s.(pcs)) ts ->
    finish s i j o (Returns p sig) (mkSys p s.(last) s.(index) ts)
| finish_blocks c p : finish s i j o (Blocks c p) (with_pc (with_lk s p) i (Wait c o j false)).

(** A call in a slot, with or without the mutex. *)
Definition run (p : rurw_lock) (j : nat) (mutex : bool) (o : call) : result :=
  match o with
  | RLock => rurw_r_lock p j mutex
  | WLock => rurw_w_lock p j mutex
  | Obtain r w => rurw_obtain p j mutex r w
  | RUnlock => rurw_r_unlock p j
  | WUnlock => rurw_w_unlock p j
  | Retreat => (rurw_retreat p j).2
  end.

Definition acquires (o : call) : bool :=
  match o with RLock | WLock | Obtain _ _ => true | _ => false end.

(** After a wait the thread has the mutex and tests again. *)
Definition resume (p : rurw_lock) (on : cond) (j : nat) (o : call) : result :=
  let p := add_wait p on (-1) in
  match o with
  | RLock => r_loop p j true
  | WLock => w_loop p j true
  | Obtain _ _ => obtain_loop p j true
  | _ => Fails
  end.

(** A call for nothing: [rurw_obtain] of the empty state, and [rurw_retreat] of a
    thread that has no slot. *)
Definition empty_call (o : call) (l : looked) : bool :=
  match o, l with
  | Obtain r w, _ => (r =? 0) && (w =? 0)
  | Retreat, Absent => true
  | _, _ => false
  end.

Inductive step (s : sys) (i : nat) : option call -> sys -> Prop :=
| step_empty o :
    s.(pcs) !! i = Some Idle -> (exists r w, o = Obtain r w /\ (r =? 0) && (w =? 0) = true) ->
    step s i (Some o) s
| step_absent ix s1 :
    s.(pcs) !! i = Some Idle -> thread_index s i = (ix, s1) ->
    rurw_look s.(lk) (self i) ix false = Absent -> step s i (Some Retreat) s1
| step_found o ix s1 j s2 :
    s.(pcs) !! i = Some Idle -> empty_call o Broken = false -> thread_index s i = (ix, s1) ->
    rurw_look s.(lk) (self i) ix (acquires o) = Found j ->
    finish s1 i j o (run s.(lk) j (negb (acquires o)) o) s2 -> step s i (Some o) s2
| step_want o ix s1 scan :
    s.(pcs) !! i = Some Idle -> empty_call o Broken = false -> thread_index s i = (ix, s1) ->
    rurw_look s.(lk) (self i) ix (acquires o) = Take scan ->
    step s i (Some o) (with_pc s1 i (Enter o scan))
| step_enter o scan j p s2 :
    s.(pcs) !! i = Some (Enter o scan) ->
    rurw_take s.(lk) (self i) (default 0 (s.(index) !! i) - 1) scan = Some (j, p) ->
    finish s i j o (run p j true o) s2 -> step s i None s2
| step_resume c o j woken s2 :
    s.(pcs) !! i = Some (Wait c o j woken) ->
    finish s i j o (resume s.(lk) c j o) s2 -> step s i None s2.

(** A thread that cannot go on: the cases in which the code fails. *)
Inductive fails (s : sys) (i : nat) : option call -> Prop :=
| fail_absent o ix s1 :
    s.(pcs) !! i = Some Idle -> empty_call o Absent = false -> thread_index s i = (ix, s1) ->
    rurw_look s.(lk) (self i) ix (acquires o) = Absent -> fails s i (Some o)
| fail_broken o ix s1 :
    s.(pcs) !! i = Some Idle -> empty_call o Broken = false -> thread_index s i = (ix, s1) ->
    rurw_look s.(lk) (self i) ix (acquires o) = Broken -> fails s i (Some o)
| fail_found o ix s1 j :
    s.(pcs) !! i = Some Idle -> empty_call o Broken = false -> thread_index s i = (ix, s1) ->
    rurw_look s.(lk) (self i) ix (acquires o) = Found j ->
    run s.(lk) j (negb (acquires o)) o = Fails -> fails s i (Some o)
| fail_take o scan :
    s.(pcs) !! i = Some (Enter o scan) ->
    rurw_take s.(lk) (self i) (default 0 (s.(index) !! i) - 1) scan = None -> fails s i None
| fail_enter o scan j p :
    s.(pcs) !! i = Some (Enter o scan) ->
    rurw_take s.(lk) (self i) (default 0 (s.(index) !! i) - 1) scan = Some (j, p) ->
    run p j true o = Fails -> fails s i None
| fail_resume c o j woken :
    s.(pcs) !! i = Some (Wait c o j woken) -> resume s.(lk) c j o = Fails -> fails s i None.

Definition sys_init (n : nat) : sys := mkSys rurw_lock_init 0 (replicate n 0) (replicate n Idle).

(** ** An executable step, in which a signal wakes the first thread that sleeps *)

Definition unwokenb (c : cond) (x : pc) : bool :=
  match x, c with
  | Wait wait4r _ _ false, wait4r | Wait wait4w _ _ false, wait4w | Wait wait4u _ _ false, wait4u => true
  | _, _ => false
  end.

Definition deliver (sig : signal) (ts : list pc) : list pc :=
  match sig with
  | SigNone => ts
  | SigOne c =>
      match index_where (unwokenb c) ts with
      | Some k => match ts !! k with Some x => <[k := wake x]> ts | None => ts end
      | None => ts
      end
  | SigAll c => wake_cond c <$> ts
  end.

Definition finished (s : sys) (i j : nat) (o : call) (res : result) : option sys :=
  match res with
  | Returns p sig => Some (mkSys p s.(last) s.(index) (deliver sig (<[i := Idle]> s.(pcs))))
  | Blocks c p => Some (with_pc (with_lk s p) i (Wait c o j false))
  | Fails => None
  end.

Definition exec (s : sys) (i : nat) (o : option call) : option sys :=
  x ← s.(pcs) !! i;
  match x, o with
  | Idle, Some c =>
      if empty_call c Broken then Some s else
      let '(ix, s1) := thread_index s i in
      match rurw_look s.(lk) (self i) ix (acquires c) with
      | Found j => finished s1 i j c (run s.(lk) j (negb (acquires c)) c)
      | Take scan => Some (with_pc s1 i (Enter c scan))
      | Absent => if empty_call c Absent then Some s1 else None
      | Broken => None
      end
  | Enter c scan, None =>
      '(j, p) ← rurw_take s.(lk) (self i) (default 0 (s.(index) !! i) - 1) scan;
      finished s i j c (run p j true c)
  | Wait on c j _, None => finished s i j c (resume s.(lk) on j c)
  | _, _ => None
  end.

(** A schedule: the threads that step, with the calls they start. *)
Fixpoint execs (s : sys) (l : list (nat * option call)) : option sys :=
  match l with
  | [] => Some s
  | (i, o) :: l => s' ← exec s i o; execs s' l
  end.
