(* ===== verification/RurwSpec.v ===== *)
(** * The recursive readers-writer lock: the abstract lock

    The specification has no slots and no counters: a list of threads, each
    outside the lock's code with its depths of read and write locking, or about
    to enter, or waiting. *)

From S2P Require Import Prelude Rurw.

Local Open Scope Z_scope.

Inductive thread :=
| Out (r w : Z)
| Entering (c : call)
| Waiting (on : cond) (c : call) (woken : bool).

Definition reads (t : thread) : bool := match t with Out r _ => negb (r =? 0) | _ => false end.
Definition writes (t : thread) : bool := match t with Out _ w => negb (w =? 0) | _ => false end.
Definition holds (t : thread) : bool := reads t || writes t.
Definition waits_on (c : cond) (t : thread) : bool :=
  match c, t with
  | wait4r, Waiting wait4r _ _ | wait4w, Waiting wait4w _ _ | wait4u, Waiting wait4u _ _ => true
  | _, _ => false
  end.
Definition asleep (t : thread) : bool := match t with Waiting _ _ false => true | _ => false end.
Definition awake (t : thread) : bool := match t with Waiting _ _ true => true | _ => false end.

(** What a thread gets when it tests the lock for the call [c]. *)
Definition attempt (ts : list thread) (c : call) : thread :=
  match c with
  | RLock => if existsb writes ts then Waiting wait4r c false else Out 1 0
  | WLock => if existsb holds ts then Waiting wait4w c false else Out 0 1
  | Obtain r w =>
      if negb (w =? 0) then if existsb holds ts then Waiting wait4w c false else Out r w
      else if existsb writes ts then Waiting wait4r c false else Out r w
  | _ => Out 0 0
  end.

(** The depths after a release. *)
Definition release (c : call) (r w : Z) : option thread :=
  match c with
  | RUnlock => if r >? 0 then Some (Out (r - 1) w) else None
  | WUnlock => if w >? 0 then Some (Out r (w - 1)) else None
  | Retreat => Some (Out 0 0)
  | _ => None
  end.

Definition deepen (c : call) (r w : Z) : option thread :=
  match c with
  | RLock => if (r >? 0) && (r <? 0xFFFF) then Some (Out (r + 1) w) else None
  | WLock => if (w >? 0) && (w <? 0xFFFF) then Some (Out r (w + 1)) else None
  | _ => None
  end.

(** Whom a release wakes: a writer once nobody holds the lock, or all readers. *)
Definition wakeup (ts : list thread) : signal :=
  if existsb writes ts then SigNone
  else if negb (existsb reads ts) && existsb (waits_on wait4w) ts then SigOne wait4w
  else if existsb (waits_on wait4r) ts then SigAll wait4r
  else SigNone.

Definition awaken (t : thread) : thread := match t with Waiting c o _ => Waiting c o true | t => t end.

Inductive awakens : signal -> list thread -> list thread -> Prop :=
| aw_none ts : awakens SigNone ts ts
| aw_one c ts i t : ts !! i = Some t -> waits_on c t = true -> asleep t = true ->
    awakens (SigOne c) ts (<[i := awaken t]> ts)
| aw_nobody c ts : existsb (fun t => waits_on c t && asleep t) ts = false -> awakens (SigOne c) ts ts
| aw_all c ts : awakens (SigAll c) ts ((fun t => if waits_on c t then awaken t else t) <$> ts).

(** What a caller has to observe: locks of one kind nest, a thread that holds
    the lock does not ask for the other kind, and releases what it holds. *)
Definition legal (t : thread) (c : call) : bool :=
  match t, c with
  | Out r w, RLock => ((r >? 0) && (r <? 0xFFFF)) || ((r =? 0) && (w =? 0))
  | Out r w, WLock => ((w >? 0) && (w <? 0xFFFF)) || ((r =? 0) && (w =? 0))
  | Out r w, RUnlock => r >? 0
  | Out r w, WUnlock => w >? 0
  | Out r w, Retreat => true
  | Out r w, Obtain r' w' =>
      ((r' =? 0) && (w' =? 0)) ||
      ((r =? 0) && (w =? 0) && (0 <=? r') && (r' <=? 0xFFFF) && (0 <=? w') && (w' <=? 0xFFFF))
  | _, _ => false
  end.

(** A state other than the empty one, for [rurw_obtain]. *)
Definition proper (c : call) : Prop :=
  match c with
  | Obtain r w => 0 <= r <= 0xFFFF /\ 0 <= w <= 0xFFFF /\ ~ (r = 0 /\ w = 0)
  | _ => True
  end.

Inductive astep (ts : list thread) (i : nat) : list thread -> Prop :=
| a_nothing : astep ts i ts
| a_again r w c t : ts !! i = Some (Out r w) -> deepen c r w = Some t -> astep ts i (<[i := t]> ts)
| a_enter c : ts !! i = Some (Out 0 0) -> acquires c = true -> proper c -> astep ts i (<[i := Entering c]> ts)
| a_enter_try c : ts !! i = Some (Entering c) -> acquires c = true -> astep ts i (<[i := attempt ts c]> ts)
| a_retry on c woken : ts !! i = Some (Waiting on c woken) -> acquires c = true ->
    astep ts i (<[i := attempt ts c]> ts)
| a_release r w c t ts' : ts !! i = Some (Out r w) -> release c r w = Some t -> holds (Out r w) = true ->
    awakens (wakeup (<[i := t]> ts)) (<[i := t]> ts) ts' -> astep ts i ts'.

(** ** The invariant *)

(** A thread that writes is the only holder. *)
Definition exclusive (ts : list thread) : Prop :=
  forall i j t u, ts !! i = Some t -> ts !! j = Some u -> writes t = true -> holds u = true -> i = j.

(** While nobody holds the lock, a sleeping thread is not the only one. *)
Definition no_lost_wakeup (ts : list thread) : Prop :=
  existsb holds ts = false -> existsb asleep ts = true -> existsb awake ts = true.

Definition thread_ok (t : thread) : Prop :=
  match t with
  | Out r w => 0 <= r <= 0xFFFF /\ 0 <= w <= 0xFFFF
  | Entering c => acquires c = true /\ proper c
  | Waiting on c _ => acquires c = true /\ proper c /\
      match c, on with
      | RLock, wait4r | WLock, wait4w => True
      | Obtain _ w, wait4w => w <> 0
      | Obtain _ w, wait4r => w = 0
      | _, _ => False
      end
  end.

Definition spec_ok (ts : list thread) : Prop :=
  Forall thread_ok ts /\ exclusive ts /\ no_lost_wakeup ts.

Lemma existsb_true {A} (f : A -> bool) l : existsb f l = true <-> exists i x, l !! i = Some x /\ f x = true.
Proof.
  rewrite existsb_exists. split.
  - intros (x & Hx & Hf). apply list_elem_of_In, list_elem_of_lookup in Hx as [i Hi]. eauto.
  - intros (i & x & Hi & Hf). exists x. split; [|done]. apply list_elem_of_In. by apply list_elem_of_lookup_2 in Hi.
Qed.

Lemma existsb_false {A} (f : A -> bool) l : existsb f l = false <-> forall i x, l !! i = Some x -> f x = false.
Proof.
  split.
  - intros Hf i x Hi. destruct (f x) eqn:E; [|done]. assert (existsb f l = true); [|congruence].
    apply existsb_true. eauto.
  - intros Hx. destruct (existsb f l) eqn:E; [|done]. apply existsb_true in E as (i & x & Hi & Hf).
    by rewrite (Hx i x Hi) in Hf.
Qed.

Lemma lookup_upd {A} (l : list A) i j x y :
  (<[i := x]> l) !! j = Some y -> (i = j /\ y = x) \/ (i <> j /\ l !! j = Some y).
Proof.
  intros Hj. destruct (decide (i = j)) as [->|Hn].
  - left. apply list_lookup_insert_Some in Hj as [(?&?&?)|(?&?)]; [by simplify_eq|done].
  - right. by rewrite list_lookup_insert_ne in Hj.
Qed.

(** A thread that stops holding, or never held, keeps the exclusion. *)
Lemma exclusive_upd ts i t :
  exclusive ts ->
  (writes t = true -> forall j u, i <> j -> ts !! j = Some u -> holds u = false) ->
  (holds t = true -> forall j u, i <> j -> ts !! j = Some u -> writes u = false) ->
  exclusive (<[i := t]> ts).
Proof.
  intros He Hw Hh a b x y Ha Hb Hx Hy.
  apply lookup_upd in Ha as [[-> ->]|[Ha0 Ha]]; apply lookup_upd in Hb as [[-> ->]|[Hb0 Hb]]; [done|..].
  - by rewrite (Hw Hx b y) in Hy.
  - by rewrite (Hh Hy a x) in Hx.
  - by apply (He a b x y).
Qed.

Lemma exclusive_mono ts i t u :
  exclusive ts -> ts !! i = Some u ->
  (writes t = true -> writes u = true) -> (holds t = true -> holds u = true) ->
  exclusive (<[i := t]> ts).
Proof.
  intros He Hi Hw Hh. apply exclusive_upd; [done|..].
  - intros Ht j v Hn Hj. destruct (holds v) eqn:E; [|done]. by destruct Hn, (He i j u v Hi Hj); auto.
  - intros Ht j v Hn Hj. destruct (writes v) eqn:E; [|done]. by destruct Hn, (He j i v u Hj Hi); auto.
Qed.

Lemma existsb_upd_same {A} (f : A -> bool) (ts : list A) i x y :
  ts !! i = Some x -> f y = f x -> existsb f (<[i := y]> ts) = existsb f ts.
Proof.
  intros Hi Hf. destruct (existsb f ts) eqn:E.
  - apply existsb_true in E as (j & z & Hj & Hz). apply existsb_true. destruct (decide (i = j)) as [->|Hn].
    + exists j, y. rewrite list_lookup_insert_eq by eauto using lookup_lt_Some. split; [done|congruence].
    + exists j, z. by rewrite list_lookup_insert_ne.
  - rewrite existsb_false in E |- *. intros j z [[-> ->]|[_ Hj]]%lookup_upd; [rewrite Hf|]; eauto.
Qed.

Lemma existsb_upd_true {A} (f : A -> bool) (ts : list A) i x y :
  ts !! i = Some x -> f y = true -> existsb f (<[i := y]> ts) = true.
Proof.
  intros Hi Hf. apply existsb_true. exists i, y. split; [|done].
  apply list_lookup_insert_eq. eauto using lookup_lt_Some.
Qed.

(** Waking does not change who holds the lock. *)
Lemma awakens_lookup sig ts ts' i :
  awakens sig ts ts' ->
  (forall t', ts' !! i = Some t' -> exists t, ts !! i = Some t /\ (t' = t \/ t' = awaken t)) /\
  (forall t, ts !! i = Some t -> exists t', ts' !! i = Some t' /\ (t' = t \/ t' = awaken t)).
Proof.
  intros Ha. destruct Ha as [ts|c ts k t Hk Hw Hs|c ts _|c ts]; [split; eauto 6| |split; eauto 6|].
  - split.
    + intros t' [[-> ->]|[_ Hi]]%lookup_upd; eauto.
    + intros u Hi. destruct (decide (k = i)) as [->|Hn].
      * exists (awaken t). rewrite list_lookup_insert_eq by eauto using lookup_lt_Some. split; [done|].
        right. congruence.
      * exists u. rewrite list_lookup_insert_ne by done. auto.
  - split.
    + intros t' Ht. rewrite list_lookup_fmap in Ht. destruct (ts !! i) as [t|]; [|done].
      simplify_eq/=. exists t. split; [done|]. case_match; auto.
    + intros t Ht. rewrite list_lookup_fmap, Ht. simpl. eexists. split; [done|]. case_match; auto.
Qed.

Lemma awakens_existsb f sig ts ts' :
  (forall t, f (awaken t) = f t) -> awakens sig ts ts' -> existsb f ts' = existsb f ts.
Proof.
  intros Hf Ha. destruct (existsb f ts) eqn:E.
  - apply existsb_true in E as (i & t & Hi & Ht). apply existsb_true.
    destruct (proj2 (awakens_lookup _ _ _ i Ha) t Hi) as (t' & Hi' & [->| ->]); exists i; eexists;
      (split; [done|]); [done|by rewrite Hf].
  - rewrite existsb_false in E |- *. intros i t' Hi.
    destruct (proj1 (awakens_lookup _ _ _ i Ha) t' Hi) as (t & Hi' & [->| ->]); rewrite ?Hf; eauto.
Qed.

Lemma awakens_ok sig ts ts' : awakens sig ts ts' -> Forall thread_ok ts -> Forall thread_ok ts'.
Proof.
  intros Ha Hok. rewrite Forall_lookup in Hok |- *. intros i t' Hi.
  destruct (proj1 (awakens_lookup _ _ _ i Ha) t' Hi) as (t & Hi' & [->| ->]); [eauto|].
  specialize (Hok i t Hi'). by destruct t.
Qed.

Lemma awakens_exclusive sig ts ts' : awakens sig ts ts' -> exclusive ts -> exclusive ts'.
Proof.
  intros Ha He i j t u Hi Hj Ht Hu.
  destruct (proj1 (awakens_lookup _ _ _ i Ha) t Hi) as (t0 & Hi' & Ht0).
  destruct (proj1 (awakens_lookup _ _ _ j Ha) u Hj) as (u0 & Hj' & Hu0).
  apply (He i j t0 u0); [done..| |].
  - destruct Ht0 as [->| ->]; [done|by destruct t0].
  - destruct Hu0 as [->| ->]; [done|by destruct u0].
Qed.

(** A release leaves nobody asleep unless somebody holds the lock or is awake. *)
Lemma wakeup_wakes ts ts' :
  Forall thread_ok ts -> awakens (wakeup ts) ts ts' -> no_lost_wakeup ts'.
Proof.
  intros Hok Ha Hh Hs.
  assert (existsb holds ts = false) as Hfree.
  { rewrite <- Hh. symmetry. eapply awakens_existsb; [|done]. by intros []. }
  clear Hh. rename Hfree into Hh.
  assert (existsb writes ts = false /\ existsb reads ts = false) as [Hw Hr].
  { unfold holds in Hh. rewrite !existsb_false in *. split; intros i x Hx; specialize (Hh i x Hx); by destruct (reads x), (writes x). }
  unfold wakeup in Ha. rewrite Hw, Hr in Ha. simpl in Ha.
  assert (forall c t, waits_on c t = true -> asleep t = false -> awake t = true) as Haw.
  { intros c t. by destruct c, t as [| |[] ? []]. }
  assert (forall c t, waits_on c t = true -> awake (awaken t) = true) as Haw'.
  { intros c t. by destruct c, t as [| |[] ? ?]. }
  destruct (existsb (waits_on wait4w) ts) eqn:E1.
  - inversion Ha as [|c ts0 i t Hi Hwt Hst|c ts0 Hn|]; subst.
    + apply (existsb_upd_true _ _ _ t); [done|]. by apply (Haw' wait4w).
    + apply existsb_true in E1 as (i & t & Hi & Ht). apply existsb_true. exists i, t. split; [done|].
      apply (Haw wait4w); [done|]. rewrite existsb_false in Hn. specialize (Hn i t Hi). by rewrite Ht in Hn.
  - destruct (existsb (waits_on wait4r) ts) eqn:E2.
    + inversion Ha; subst. apply existsb_true in E2 as (i & t & Hi & Ht). apply existsb_true.
      exists i, (awaken t). rewrite list_lookup_fmap, Hi. cbn -[waits_on]. rewrite Ht. split; [done|]. by apply (Haw' wait4r).
    + inversion Ha; subst. exfalso. apply existsb_true in Hs as (i & t & Hi & Ht).
      rewrite existsb_false in E1, E2. specialize (E1 i t Hi). specialize (E2 i t Hi).
      rewrite Forall_lookup in Hok. specialize (Hok i t Hi). destruct t as [| |[] c b]; try done.
      destruct Hok as (_ & _ & Hc). by destruct c.
Qed.

Lemma attempt_cases ts c :
  acquires c = true -> proper c ->
  match attempt ts c with
  | Out r w => holds (Out r w) = true /\ existsb writes ts = false /\
      (writes (Out r w) = true -> existsb holds ts = false)
  | Waiting _ _ woken => existsb holds ts = true /\ woken = false
  | _ => False
  end.
Proof.
  intros Hc Hp.
  assert (existsb holds ts = false -> existsb writes ts = false) as Hhw.
  { rewrite !existsb_false. intros Hh i x Hx. specialize (Hh i x Hx). unfold holds in Hh. by destruct (reads x), (writes x). }
  assert (existsb writes ts = true -> existsb holds ts = true) as Hwh.
  { intros Hw. destruct (existsb holds ts) eqn:E; [done|]. rewrite Hhw in Hw; done. }
  destruct c as [| | | | |r w]; try done; unfold attempt.
  - destruct (existsb writes ts); [by auto|done].
  - destruct (existsb holds ts); [by auto|]. by rewrite Hhw.
  - simpl in Hp. assert (holds (Out r w) = true).
    { unfold holds, reads, writes. destruct (r =? 0) eqn:Er, (w =? 0) eqn:Ew; zb; simpl; tauto. }
    destruct (w =? 0) eqn:Ew; cbn [negb].
    + destruct (existsb writes ts); [by auto|]. split_and!; [done..|]. unfold writes. by rewrite Ew.
    + destruct (existsb holds ts); by auto.
Qed.

Lemma attempt_ok ts c : acquires c = true -> proper c -> thread_ok (attempt ts c).
Proof.
  intros Hc Hp. destruct c as [| | | | |r w]; try done; unfold attempt.
  - by destruct (existsb writes ts).
  - by destruct (existsb holds ts).
  - simpl in Hp. destruct (w =? 0) eqn:Ew; zb; cbn [negb];
      [destruct (existsb writes ts)|destruct (existsb holds ts)]; simpl; tauto.
Qed.

Lemma attempt_preserves ts i t c :
  spec_ok ts -> ts !! i = Some t -> holds t = false -> acquires c = true -> proper c ->
  spec_ok (<[i := attempt ts c]> ts).
Proof.
  intros (Hok & He & Hn) Hi Ht Hc Hp. pose proof (attempt_ok ts c Hc Hp) as Ha.
  pose proof (attempt_cases ts c Hc Hp) as Hcase.
  split; [by apply Forall_insert|]. destruct (attempt ts c) as [r w| |on o woken] eqn:E; [|done|].
  - destruct Hcase as (Hh & Hw & Hhw). split.
    + apply exclusive_upd; [done|..]; intros Hx j u Hne Hj.
      * by apply (proj1 (existsb_false holds ts) (Hhw Hx) j).
      * by apply (proj1 (existsb_false writes ts) Hw j).
    + intros Hfree. by rewrite (existsb_upd_true holds ts i t) in Hfree.
  - destruct Hcase as [Hh _]. split; [by apply (exclusive_mono ts i _ t)|].
    intros Hfree. rewrite (existsb_upd_same holds ts i t) in Hfree; [congruence|done|done].
Qed.

Lemma astep_preserves ts i ts' : spec_ok ts -> astep ts i ts' -> spec_ok ts'.
Proof.
  intros Hs Hst. pose proof Hs as (Hok & He & Hn).
  assert (forall t, ts !! i = Some t -> thread_ok t) as Hti by (rewrite Forall_lookup in Hok; eauto).
  destruct Hst as [|r w c t Hi Ht|c Hi Hc Hp|c Hi Hc|on c woken Hi Hc|r w c t ts' Hi Ht Hh Ha]; [done|..].
  - destruct (Hti _ Hi) as [Hr Hw].
    assert (thread_ok t /\ holds t = true /\ holds (Out r w) = true /\ (writes t = true -> writes (Out r w) = true))
      as (Ht1 & Ht2 & Ht3 & Ht4).
    { destruct c; simpl in Ht; try done; case_match; simplify_eq; zb; simpl; unfold holds, reads, writes;
        repeat split; try lia; rewrite ?(proj2 (Z.eqb_neq r 0)), ?(proj2 (Z.eqb_neq (r + 1) 0)),
          ?(proj2 (Z.eqb_neq w 0)), ?(proj2 (Z.eqb_neq (w + 1) 0)), ?orb_true_r by lia; done. }
    split; [by apply Forall_insert|]. split; [by apply (exclusive_mono ts i _ (Out r w))|].
    intros Hfree. by rewrite (existsb_upd_true holds ts i (Out r w)) in Hfree.
  - split; [by apply Forall_insert|]. split; [by apply (exclusive_mono ts i _ (Out 0 0))|].
    unfold no_lost_wakeup. by rewrite !(existsb_upd_same _ ts i (Out 0 0)).
  - apply (attempt_preserves _ _ (Entering c)); try done. apply (Hti _ Hi).
  - apply (attempt_preserves _ _ (Waiting on c woken)); try done. apply (Hti _ Hi).
  - assert (thread_ok t /\ (writes t = true -> writes (Out r w) = true) /\ (holds t = true -> holds (Out r w) = true))
      as (Ht1 & Ht2 & Ht3).
    { destruct (Hti _ Hi) as [Hr Hw]. destruct c; simpl in Ht; try done; case_match || idtac; simplify_eq; zb; simpl; unfold writes in *;
        rewrite ?(proj2 (Z.eqb_neq w 0)) by lia; repeat split; (done || lia). }
    assert (Forall thread_ok (<[i := t]> ts)) as Hok' by (by apply Forall_insert).
    split; [by apply (awakens_ok _ _ _ Ha)|]. split; [|by apply (wakeup_wakes _ _ Hok' Ha)].
    apply (awakens_exclusive _ _ _ Ha). by apply (exclusive_mono ts i _ (Out r w)).
Qed.
