(* ===== verification/RurwRefine.v ===== *)
(** * The recursive readers-writer lock: the code refines the abstract lock

    As long as at most [RURW_LOCK_MAXTHREADS] threads use the lock, each thread
    has the slot of its index to itself, the counters count the threads of the
    abstract lock, and each step of a caller that observes [legal] is a step of
    the abstract lock. *)

From S2P Require Import Prelude Rurw RurwSpec.

Local Open Scope Z_scope.

(** ** Counting *)

Definition cnt {A} (f : A -> bool) (l : list A) : Z := Z.of_nat (length (filter (fun x => f x = true) l)).

Definition b2z (b : bool) : Z := if b then 1 else 0.

Lemma cnt_nil {A} (f : A -> bool) : cnt f [] = 0.
Proof. done. Qed.

Lemma cnt_cons {A} (f : A -> bool) x l : cnt f (x :: l) = b2z (f x) + cnt f l.
Proof. unfold cnt. rewrite filter_cons. destruct (f x); simpl; lia. Qed.

Lemma cnt_nonneg {A} (f : A -> bool) l : 0 <= cnt f l.
Proof. unfold cnt. lia. Qed.

Lemma cnt_upd {A} (f : A -> bool) l i x y :
  l !! i = Some x -> cnt f (<[i := y]> l) = cnt f l - b2z (f x) + b2z (f y).
Proof.
  revert i. induction l as [|z l IH]; intros [|i] Hi; simplify_eq/=; rewrite !cnt_cons; [lia|].
  rewrite (IH i) by done. lia.
Qed.

Lemma cnt_zero {A} (f : A -> bool) l : (cnt f l =? 0) = negb (existsb f l).
Proof.
  induction l as [|x l IH]; [done|]. rewrite cnt_cons. simpl. pose proof (cnt_nonneg f l).
  destruct (f x); simpl; [apply Z.eqb_neq; lia|]. by rewrite <- IH.
Qed.

Lemma cnt_length {A} (f : A -> bool) l i x :
  l !! i = Some x -> f x = false -> cnt f l < Z.of_nat (length l).
Proof.
  revert i. induction l as [|z l IH]; intros [|i] Hi Hf; simplify_eq/=; rewrite cnt_cons.
  - rewrite Hf. assert (cnt f l <= Z.of_nat (length l)) by (unfold cnt; pose proof (length_filter (fun x => f x = true) l); lia).
    simpl. lia.
  - pose proof (IH i Hi Hf). destruct (f z); simpl; lia.
Qed.

(** ** The slots *)

(** The depths in the slot of the index [ix] of the thread [i]. *)
Definition depths (st : list thr_state) (ix : Z) (i : nat) : Z * Z :=
  if ix =? 0 then (0, 0) else
  match st !! Z.to_nat (ix - 1) with
  | Some sl => if sl.(thr) =? self i then (sl.(st_r), sl.(st_w)) else (0, 0)
  | None => (0, 0)
  end.

Definition view (s : sys) (i : nat) (x : pc) : thread :=
  match x with
  | Idle => let '(r, w) := depths s.(lk).(state) (default 0 (s.(index) !! i)) i in Out r w
  | Enter c _ => Entering c
  | Wait on c _ woken => Waiting on c woken
  end.

(** The abstraction of a state. *)
Definition abs (s : sys) : list thread := imap (view s) s.(pcs).

Lemma abs_lookup s i : abs s !! i = view s i <$> s.(pcs) !! i.
Proof. apply list_lookup_imap. Qed.

Definition owns (st : list thr_state) (ix : Z) (i : nat) (sl : thr_state) : Prop :=
  ix <> 0 /\ st !! Z.to_nat (ix - 1) = Some sl /\ sl.(thr) = self i.

Definition saved (c : call) : Z * Z := match c with Obtain r w => (r, w) | _ => (0, 0) end.

(** What the program counter says about the slot. *)
Definition pc_ok (st : list thr_state) (ix : Z) (i : nat) (x : pc) : Prop :=
  match x with
  | Idle => forall sl, owns st ix i sl -> ~ (sl.(st_r) = 0 /\ sl.(st_w) = 0)
  | Enter c scan => scan = false /\ ix <> 0 /\ (forall sl, ~ owns st ix i sl)
  | Wait _ c j _ => ix = Z.of_nat j + 1 /\ owns st ix i (mkThr (self i) (saved c).1 (saved c).2)
  end.

Record wf (s : sys) : Prop := mkWf {
  wf_slots : length s.(lk).(state) = 64%nat;
  wf_index : length s.(index) = length s.(pcs);
  wf_threads : (length s.(pcs) <= 64)%nat;
  wf_last : s.(last) = cnt (fun x => negb (x =? 0)) s.(index);
  wf_range i x : s.(index) !! i = Some x -> 0 <= x <= s.(last);
  wf_inj i j x : s.(index) !! i = Some x -> s.(index) !! j = Some x -> x <> 0 -> i = j;
  wf_owner j sl : s.(lk).(state) !! j = Some sl ->
    sl = mkThr 0 0 0 \/ exists i, sl.(thr) = self i /\ s.(index) !! i = Some (Z.of_nat j + 1);
  wf_pcs i x : s.(pcs) !! i = Some x -> pc_ok s.(lk).(state) (default 0 (s.(index) !! i)) i x;
}.

(** The counters count the threads of the abstract lock. *)
Definition counts (p : rurw_lock) (ts : list thread) : Prop :=
  p.(rurw_readers) = cnt reads ts /\ p.(rurw_writer) = existsb writes ts /\
  p.(rurw_readers_wait) = cnt (waits_on wait4r) ts /\ p.(rurw_writers_wait) = cnt (waits_on wait4w) ts /\
  p.(rurw_upgrades_wait) = 0.

Lemma self_inj i j : self i = self j -> i = j.
Proof. unfold self. lia. Qed.

(** The slot of a thread's index is the thread's or free. *)
Lemma own_or_free s i ix :
  wf s -> s.(index) !! i = Some ix -> ix <> 0 ->
  exists sl, s.(lk).(state) !! Z.to_nat (ix - 1) = Some sl /\ (sl = mkThr 0 0 0 \/ sl.(thr) = self i).
Proof.
  intros Hwf Hi Hix. pose proof (wf_range s Hwf i ix Hi) as Hr.
  assert (ix <= 64).
  { rewrite (wf_last s Hwf) in Hr. pose proof (wf_index s Hwf). pose proof (wf_threads s Hwf).
    pose proof (length_filter (fun x => negb (x =? 0) = true) s.(index)). unfold cnt in Hr. lia. }
  destruct (lookup_lt_is_Some_2 s.(lk).(state) (Z.to_nat (ix - 1))) as [sl Hsl].
  { rewrite (wf_slots s Hwf). lia. }
  exists sl. split; [done|]. destruct (wf_owner s Hwf _ _ Hsl) as [->|(k & Hk & Hki)]; [by left|right].
  rewrite Hk. f_equal. rewrite Z2Nat.id in Hki by lia. rewrite Z.sub_add in Hki. by apply (wf_inj s Hwf k i ix).
Qed.

Lemma index_where_lookup {A} (f : A -> bool) l j :
  index_where f l = Some j -> exists x, l !! j = Some x /\ f x = true.
Proof.
  revert j. induction l as [|x l IH]; intros j Hj; simpl in *; [done|].
  destruct (f x) eqn:E; [simplify_eq; eauto|]. destruct (index_where f l) as [k|]; simplify_eq/=. by apply IH.
Qed.

(** Every slot with the thread's identity is the one of its index. *)
Lemma own_slot_index s i j :
  wf s -> own_slot s.(lk) (self i) = Some j -> s.(index) !! i = Some (Z.of_nat j + 1).
Proof.
  intros Hwf Hj. apply index_where_lookup in Hj as (sl & Hsl & Ht%Z.eqb_eq).
  destruct (wf_owner s Hwf _ _ Hsl) as [->|(k & Hk & Hki)].
  - simpl in Ht. unfold self in Ht. lia.
  - rewrite Ht in Hk. by apply self_inj in Hk as ->.
Qed.

(** A thread without an index has no slot. *)
Lemma no_index_no_slot s i ix sl :
  wf s -> s.(index) !! i = Some 0 -> ~ owns s.(lk).(state) ix i sl.
Proof.
  intros Hwf Hi (Hix & Hsl & Ht). destruct (wf_owner s Hwf _ _ Hsl) as [->|(k & Hk & Hki)].
  - unfold self in Ht. simpl in Ht. lia.
  - rewrite Ht in Hk. apply self_inj in Hk as ->. rewrite Hi in Hki. injection Hki. lia.
Qed.

Lemma depths_owned st ix i sl : owns st ix i sl -> depths st ix i = (sl.(st_r), sl.(st_w)).
Proof.
  intros (Hix & Hsl & Ht). unfold depths. rewrite (proj2 (Z.eqb_neq _ _) Hix), Hsl, (proj2 (Z.eqb_eq _ _) Ht). done.
Qed.

Lemma depths_not_owned st ix i : (forall sl, ~ owns st ix i sl) -> depths st ix i = (0, 0).
Proof.
  intros Hn. unfold depths. destruct (ix =? 0) eqn:E; [done|]. zb. destruct (st !! _) as [sl|] eqn:Es; [|done].
  destruct (thr sl =? self i) eqn:Et; [|done]. zb. by destruct (Hn sl).
Qed.

(** Giving a thread its index changes nothing else. *)
Lemma assign_index_wf s i :
  wf s -> s.(index) !! i = Some 0 ->
  let s1 := mkSys s.(lk) (s.(last) + 1) (<[i := s.(last) + 1]> s.(index)) s.(pcs) in
  wf s1 /\ abs s1 = abs s.
Proof.
  intros Hwf Hi s1. pose proof (lookup_lt_Some _ _ _ Hi) as Hlt.
  assert (0 <= s.(last)) as Hl by (pose proof (wf_range s Hwf i 0 Hi); lia).
  assert (forall k x, (<[i := s.(last) + 1]> s.(index)) !! k = Some x ->
    (k = i /\ x = s.(last) + 1) \/ (k <> i /\ s.(index) !! k = Some x)) as Hlk.
  { intros k x [[-> ->]|[? ?]]%lookup_upd; auto. }
  split.
  - split; simpl; try apply Hwf.
    + rewrite length_insert. apply Hwf.
    + rewrite (cnt_upd _ _ _ 0) by done. rewrite (proj2 (Z.eqb_neq (s.(last) + 1) 0)) by lia. simpl.
      rewrite <- (wf_last s Hwf). lia.
    + intros k x [[-> ->]|[_ Hk]]%Hlk; [lia|]. pose proof (wf_range s Hwf k x Hk). lia.
    + intros k l x [[-> ->]|[Hk0 Hk]]%Hlk [[-> ?]|[Hl0 Hll]]%Hlk Hx; [done|..].
      * pose proof (wf_range s Hwf l _ Hll). lia.
      * subst. pose proof (wf_range s Hwf k _ Hk). lia.
      * by apply (wf_inj s Hwf k l x).
    + intros j sl Hsl. destruct (wf_owner s Hwf j sl Hsl) as [->|(k & Hk & Hki)]; [by left|right].
      exists k. split; [done|]. rewrite list_lookup_insert_ne; [done|].
      intros ->. rewrite Hi in Hki. injection Hki. lia.
    + intros k x Hk. pose proof (wf_pcs s Hwf k x Hk) as Hp. destruct (decide (i = k)) as [->|Hn].
      * rewrite Hi in Hp. simpl in Hp. destruct x; simpl in *; [|by destruct Hp as (_ & ? & _)|destruct Hp as [_ [? _]]; lia].
        intros sl Ho. by destruct (no_index_no_slot s k _ sl Hwf Hi Ho).
      * by rewrite list_lookup_insert_ne.
  - unfold abs. simpl. apply imap_ext. intros k x Hk. unfold view. simpl.
    destruct (decide (i = k)) as [->|Hn]; [|by rewrite list_lookup_insert_ne].
    destruct x; [|done..]. rewrite !depths_not_owned; [done|..]; intros sl; by apply no_index_no_slot.
Qed.

(** The index a thread has after its first call. *)
Lemma thread_index_wf s i :
  wf s -> (i < length s.(pcs))%nat ->
  exists ix s1, thread_index s i = (ix, s1) /\ wf s1 /\ abs s1 = abs s /\ s1.(lk) = s.(lk) /\ s1.(pcs) = s.(pcs) /\
  s1.(index) !! i = Some (ix + 1) /\ 0 <= ix < 64.
Proof.
  intros Hwf Hi. rewrite <- (wf_index s Hwf) in Hi.
  destruct (lookup_lt_is_Some_2 _ _ Hi) as [x Hx]. unfold thread_index, rurw_thread_index. rewrite Hx. simpl.
  pose proof (wf_range s Hwf i x Hx) as Hr. pose proof (wf_threads s Hwf). pose proof (wf_index s Hwf).
  destruct (x =? 0) eqn:E; zb.
  - subst x. assert (s.(last) < 64).
    { rewrite (wf_last s Hwf). pose proof (cnt_length (fun x => negb (x =? 0)) _ _ _ Hx eq_refl). lia. }
    unfold RURW_LOCK_MAXTHREADS. rewrite (proj2 (Z.ltb_lt _ _)) by lia.
    do 2 eexists. split; [done|]. destruct (assign_index_wf s i Hwf Hx) as [Hw Ha].
    split_and!; try done; try lia. simpl. rewrite list_lookup_insert_eq by done. f_equal. lia.
  - do 2 eexists. split; [done|]. rewrite list_insert_id by done. destruct s as [lk0 last0 index0 pcs0]; simpl in *.
    assert (last0 <= 64).
    { pose proof (wf_last _ Hwf) as Hl. pose proof (length_filter (fun x => negb (x =? 0) = true) index0). unfold cnt in Hl. simpl in Hl. lia. }
    split_and!; try done; try lia. rewrite Hx. f_equal. lia.
Qed.

(** Where the unlocked part of [rurw_enter] ends up. *)
Lemma rurw_look_spec s i ix acquire :
  wf s -> s.(index) !! i = Some (ix + 1) -> 0 <= ix < 64 ->
  (exists sl, owns s.(lk).(state) (ix + 1) i sl /\ rurw_look s.(lk) (self i) ix acquire = Found (Z.to_nat ix)) \/
  ((forall sl, ~ owns s.(lk).(state) (ix + 1) i sl) /\
   rurw_look s.(lk) (self i) ix acquire = (if acquire then Take false else Absent)).
Proof.
  intros Hwf Hi Hix. destruct (own_or_free s i (ix + 1) Hwf Hi) as (sl & Hsl & Hown); [lia|].
  rewrite Z.add_simpl_r in Hsl. unfold rurw_look, owns, RURW_LOCK_MAXTHREADS.
  rewrite (proj2 (Z.ltb_lt _ _)) by lia. rewrite Z.add_simpl_r, Hsl.
  destruct Hown as [->|Ht].
  - right. cbn [thr st_r st_w]. rewrite (proj2 (Z.eqb_neq 0 (self i))) by (unfold self; lia). split.
    { intros sl (_ & ? & Ht). simplify_eq. unfold self in Ht. simpl in Ht. lia. }
    destruct acquire; [done|]. simpl. case_match; [|done].
    destruct (own_slot (lk s) (self i)) as [j|] eqn:Ej; [exfalso|done].
    pose proof (own_slot_index s i j Hwf Ej) as Hj. rewrite Hi in Hj. simplify_eq.
    assert (j = Z.to_nat ix) as -> by lia. apply index_where_lookup in Ej as (x & Hx & Ht).
    rewrite Hsl in Hx. simplify_eq. apply Z.eqb_eq in Ht. unfold self in Ht. cbn [thr] in Ht. lia.
  - left. exists sl. rewrite (proj2 (Z.eqb_eq _ _) Ht). split_and!; (done || lia).
Qed.

(** ** One thread's change of its slot and program counter *)

Section Update.
Context (s : sys) (i j : nat) (x x' : pc) (p' : rurw_lock) (sl' : thr_state).
Context (Hwf : wf s) (Hix : s.(index) !! i = Some (Z.of_nat j + 1)) (Hpc : s.(pcs) !! i = Some x).
Context (Hst : p'.(state) = <[j := sl']> s.(lk).(state)).
Context (Hsl : sl' = mkThr 0 0 0 \/ sl'.(thr) = self i).
Context (Hx' : pc_ok p'.(state) (Z.of_nat j + 1) i x').

Definition upd : sys := mkSys p' s.(last) s.(index) (<[i := x']> s.(pcs)).

Lemma other_slot k ix :
  k <> i -> s.(index) !! k = Some ix -> ix <> 0 ->
  p'.(state) !! Z.to_nat (ix - 1) = s.(lk).(state) !! Z.to_nat (ix - 1).
Proof using Hwf Hix Hst.
  intros Hk Hki Hne. rewrite Hst, list_lookup_insert_ne; [done|]. intros E.
  pose proof (wf_range s Hwf k ix Hki). apply Hk, (wf_inj s Hwf k i ix Hki); [|done].
  rewrite Hix. f_equal. lia.
Qed.

Lemma other_owns k ix sl :
  k <> i -> s.(index) !! k = Some ix ->
  owns p'.(state) ix k sl <-> owns s.(lk).(state) ix k sl.
Proof using Hwf Hix Hst.
  intros Hk Hki. unfold owns. split; intros (H1 & H2 & H3); (split_and!; [done| |done]);
    by rewrite (other_slot k ix) in * by done.
Qed.

Lemma index_default k : (k < length s.(pcs))%nat -> exists ix, s.(index) !! k = Some ix.
Proof using Hwf. intros. apply lookup_lt_is_Some_2. by rewrite (wf_index s Hwf). Qed.

Lemma upd_wf : wf upd.
Proof using Hwf Hix Hpc Hst Hsl Hx'.
  pose proof (lookup_lt_Some _ _ _ Hpc) as Hlt.
  split; simpl; try apply Hwf.
  - rewrite Hst, length_insert. apply Hwf.
  - rewrite length_insert. apply Hwf.
  - rewrite length_insert. apply Hwf.
  - intros k sl Hk. rewrite Hst in Hk. apply lookup_upd in Hk as [[-> ->]|[_ Hk]]; [|by apply (wf_owner s Hwf)].
    destruct Hsl as [->|?]; eauto.
  - intros k y [[-> ->]|[Hk Hy]]%lookup_upd; [by rewrite Hix|].
    pose proof (wf_pcs s Hwf k y Hy) as Hp. destruct (index_default k) as [ix Hk']; [by eapply lookup_lt_Some|].
    rewrite Hk' in *. simpl in *. destruct y; simpl in *.
    + intros sl Ho. apply Hp. by apply (other_owns k).
    + destruct Hp as (? & ? & Hn). split_and!; [done..|]. intros sl Ho. apply (Hn sl). by apply (other_owns k).
    + destruct Hp as [? Ho]. split; [done|]. by apply (other_owns k).
Qed.

Lemma upd_abs : abs upd = <[i := view upd i x']> (abs s).
Proof using Hwf Hix Hpc Hst Hsl Hx'.
  apply list_eq. intros k. rewrite abs_lookup. simpl.
  destruct (decide (i = k)) as [->|Hk].
  - rewrite !list_lookup_insert_eq; [done|..].
    + unfold abs. rewrite length_imap. by eapply lookup_lt_Some.
    + by eapply lookup_lt_Some.
  - rewrite !list_lookup_insert_ne by done. rewrite abs_lookup.
    destruct (pcs s !! k) as [y|] eqn:Hy; [|done]. simpl. f_equal. unfold view. simpl.
    destruct y; try done. destruct (index_default k) as [ix Hk']; [by eapply lookup_lt_Some|]. rewrite Hk'. simpl.
    unfold depths. destruct (ix =? 0) eqn:E; [done|]. zb. by rewrite (other_slot k ix).
Qed.
End Update.

(** ** Signals *)

Definition with_pcs (s : sys) (ts : list pc) : sys := mkSys s.(lk) s.(last) s.(index) ts.

Lemma view_wake s i x : view s i (wake x) = awaken (view s i x).
Proof. destruct x; [|done..]. simpl. by destruct (depths _ _ _). Qed.

Lemma view_wake_cond s i c x :
  view s i (wake_cond c x) = if waits_on c (view s i x) then awaken (view s i x) else view s i x.
Proof. destruct x as [| |[] o j b]; simpl; [destruct (depths _ _ _)|..]; by destruct c. Qed.

Lemma wake_ok st ix i x : pc_ok st ix i x -> pc_ok st ix i (wake x).
Proof. by destruct x. Qed.

Lemma wake_cond_ok st ix i c x : pc_ok st ix i x -> pc_ok st ix i (wake_cond c x).
Proof. destruct x as [| |[] ? ? ?]; by destruct c. Qed.

Lemma signals_refine s sig ts :
  wf s -> signals sig s.(pcs) ts ->
  wf (with_pcs s ts) /\ awakens sig (abs s) (abs (with_pcs s ts)).
Proof.
  intros Hwf Hs. remember s.(pcs) as ps eqn:Eps.
  destruct Hs as [ts|c ts k y Hk Hu|c ts Hn|c ts]; subst ts.
  - destruct s. split; [done|constructor].
  - destruct y as [| |c' o j []]; try done. simpl in Hu. subst c'. split.
    + split; simpl; rewrite ?length_insert; try apply Hwf.
      intros l z [[-> ->]|[_ Hz]]%lookup_upd; [|by apply (wf_pcs s Hwf)].
      apply (wake_ok _ _ _ (Wait c o j false)). by apply (wf_pcs s Hwf).
    + assert (abs (with_pcs s (<[k := wake (Wait c o j false)]> s.(pcs)))
        = <[k := awaken (Waiting c o false)]> (abs s)) as ->.
      { apply list_eq. intros l. rewrite abs_lookup. simpl. destruct (decide (k = l)) as [->|Hkl].
        - rewrite !list_lookup_insert_eq; [done|..]; unfold abs; rewrite ?length_imap; by eapply lookup_lt_Some.
        - rewrite !list_lookup_insert_ne by done. by rewrite abs_lookup. }
      apply (aw_one c _ k (Waiting c o false)); [by rewrite abs_lookup, Hk|by destruct c|done].
  - destruct s as [l0 la ix ps]. split; [done|]. apply aw_nobody. apply existsb_false.
    intros k t Hk. rewrite abs_lookup in Hk. simpl in *. destruct (ps !! k) as [y|] eqn:Ey; simplify_eq/=.
    specialize (Hn k y Ey). destruct y as [| |c' o j []]; simpl; [by destruct (depths _ _ _), c|by destruct c|by destruct c, c'|].
    destruct c, c'; try done; by destruct Hn.
  - split.
    + split; simpl; rewrite ?length_fmap; try apply Hwf.
      intros k y Hy. rewrite list_lookup_fmap in Hy. destruct (pcs s !! k) as [z|] eqn:Ez; simplify_eq/=.
      apply wake_cond_ok. by apply (wf_pcs s Hwf).
    + assert (abs (with_pcs s (wake_cond c <$> pcs s)) = (fun t => if waits_on c t then awaken t else t) <$> abs s) as ->.
      { apply list_eq. intros k. rewrite abs_lookup, list_lookup_fmap, abs_lookup. simpl. rewrite list_lookup_fmap.
        destruct (pcs s !! k) as [z|]; [|done]. simpl. f_equal.
        change (view (with_pcs s (wake_cond c <$> pcs s)) k (wake_cond c z)) with (view s k (wake_cond c z)).
        apply view_wake_cond. }
      constructor.
Qed.

Lemma cnt_fmap {A} (f : A -> bool) g l : (forall x, f (g x) = f x) -> cnt f (g <$> l) = cnt f l.
Proof. intros Hg. induction l as [|x l IH]; [done|]. rewrite fmap_cons, !cnt_cons, Hg. lia. Qed.

Lemma awakens_cnt f sig ts ts' : (forall t, f (awaken t) = f t) -> awakens sig ts ts' -> cnt f ts' = cnt f ts.
Proof.
  intros Hf Ha. destruct Ha as [|c ts k t Hk _ _| |c ts]; try done.
  - rewrite (cnt_upd _ _ _ t) by done. rewrite Hf. lia.
  - apply cnt_fmap. intros t. case_match; [apply Hf|done].
Qed.

Lemma awakens_counts p sig ts ts' : awakens sig ts ts' -> counts p ts -> counts p ts'.
Proof.
  intros Ha (H1 & H2 & H3 & H4 & H5). unfold counts.
  rewrite (awakens_cnt reads sig ts ts'), (awakens_cnt (waits_on wait4r) sig ts ts'),
    (awakens_cnt (waits_on wait4w) sig ts ts'), (awakens_existsb writes sig ts ts'); try done; by intros [| |[] ? ?].
Qed.

(** ** The operations against the abstract lock *)

Lemma existsb_holds ts : existsb holds ts = existsb reads ts || existsb writes ts.
Proof. induction ts as [|t ts IH]; [done|]. simpl. rewrite IH. unfold holds. by destruct (reads t), (writes t), (existsb reads ts). Qed.

Lemma leave_wakeup p ts : counts p ts -> rurw_leave p = wakeup ts.
Proof.
  intros (H1 & H2 & H3 & H4 & H5). unfold rurw_leave, wakeup. rewrite H1, H2, H3, H4, H5, !cnt_zero.
  simpl. rewrite andb_false_r, !negb_involutive. by destruct (existsb writes ts), (existsb reads ts).
Qed.

(** The counters after a change of one thread. *)
Lemma counts_upd p p' ts i t t' :
  counts p ts -> ts !! i = Some t ->
  p'.(rurw_readers) = p.(rurw_readers) - b2z (reads t) + b2z (reads t') ->
  p'.(rurw_writer) = existsb writes (<[i := t']> ts) ->
  p'.(rurw_readers_wait) = p.(rurw_readers_wait) - b2z (waits_on wait4r t) + b2z (waits_on wait4r t') ->
  p'.(rurw_writers_wait) = p.(rurw_writers_wait) - b2z (waits_on wait4w t) + b2z (waits_on wait4w t') ->
  p'.(rurw_upgrades_wait) = 0 -> counts p' (<[i := t']> ts).
Proof.
  intros (H1 & H2 & H3 & H4 & H5) Hi E1 E2 E3 E4 E5. unfold counts.
  rewrite !(cnt_upd _ _ _ t) by done. rewrite E1, E3, E4. split_and!; (done || lia).
Qed.

Definition loop_of (c : call) (p : rurw_lock) (j : nat) : result :=
  match c with
  | RLock => r_loop p j true
  | WLock => w_loop p j true
  | Obtain _ _ => obtain_loop p j true
  | _ => Fails
  end.

(** What the loop of a call does for a thread that has just got a slot. *)
Lemma loop_refines p ts i j c :
  counts p ts -> ts !! i = Some (Entering c) -> acquires c = true -> proper c ->
  p.(state) !! j = Some (mkThr (self i) (saved c).1 (saved c).2) ->
  match attempt ts c with
  | Out r w => exists p', loop_of c p j = Returns p' SigNone /\ counts p' (<[i := Out r w]> ts) /\
      p'.(state) = <[j := mkThr (self i) r w]> p.(state)
  | Waiting on c' _ => c' = c /\ exists p', loop_of c p j = Blocks on p' /\
      counts p' (<[i := Waiting on c false]> ts) /\ p'.(state) = p.(state)
  | _ => False
  end.
Proof.
  intros Hc Hi Ha Hp Hj. pose proof Hc as (H1 & H2 & H3 & H4 & H5).
  assert (negb (p.(rurw_readers) =? 0) || p.(rurw_writer) = existsb holds ts) as Hh.
  { by rewrite H1, H2, cnt_zero, negb_involutive, existsb_holds. }
  assert (forall on, existsb writes (<[i := Waiting on c false]> ts) = p.(rurw_writer)) as Hw.
  { intros on. by rewrite (existsb_upd_same _ _ _ (Entering c)). }
  assert (forall on, on <> wait4u -> counts (add_wait p on 1) (<[i := Waiting on c false]> ts)) as Hb.
  { intros on Hon. apply (counts_upd p _ _ _ (Entering c)); try done; try (by rewrite Hw); destruct on; simpl; (done || lia). }
  destruct c as [| | | | |r w]; try done; unfold attempt, loop_of, r_loop, w_loop, obtain_loop, wait, unlock; rewrite Hj; cbn [saved fst snd st_r st_w thr] in *.
  - rewrite <- H2. destruct (rurw_writer p) eqn:Ew; [split; [done|]; eexists; split; [done|]; split; [by apply Hb|done]|].
    eexists. split; [done|]. split; [|done]. apply (counts_upd p _ _ _ (Entering RLock)); try done; simpl; try lia.
    rewrite (existsb_upd_same _ _ _ (Entering RLock)) by done. congruence.
  - rewrite Hh. destruct (existsb holds ts) eqn:Eh; [split; [done|]; eexists; split; [done|]; split; [by apply Hb|done]|].
    eexists. split; [done|]. split; [|done]. apply (counts_upd p _ _ _ (Entering WLock)); try done; simpl; try lia.
    by rewrite (existsb_upd_true _ _ _ (Entering WLock)).
  - assert (forall a b, (if r >? 0 then a else b) = (if negb (r =? 0) then a else b : Z)) as Hr.
    { intros a b. destruct (r >? 0) eqn:E1, (r =? 0) eqn:E2; zb; simpl; (done || (simpl in Hp; lia)). }
    rewrite Hh. destruct (w =? 0) eqn:Ew; cbn [negb].
    + rewrite <- H2. destruct (rurw_writer p) eqn:Ewr; [split; [done|]; eexists; split; [done|]; split; [by apply Hb|done]|].
      eexists. split; [done|]. split; [|by rewrite list_insert_id].
      apply (counts_upd p _ _ _ (Entering (Obtain r w))); try done; simpl; try lia.
      * simpl in Hp. zb. destruct (r =? 0) eqn:Er; zb; simpl; (tauto || lia).
      * rewrite (existsb_upd_same _ _ _ (Entering (Obtain r w))); [congruence|done|]. simpl. by rewrite Ew.
    + destruct (existsb holds ts) eqn:Eh; [split; [done|]; eexists; split; [done|]; split; [by apply Hb|done]|].
      eexists. split; [done|]. split; [|by rewrite list_insert_id].
      apply (counts_upd p _ _ _ (Entering (Obtain r w))); try done; simpl; try lia.
      * rewrite Hr. by destruct (r =? 0); simpl; lia.
      * rewrite (existsb_upd_true _ _ _ (Entering (Obtain r w))); [done|done|]. simpl. by rewrite Ew.
Qed.

(** The slot that goes with the depths of a thread outside the lock's code. *)
Definition slot_for (i : nat) (t : thread) : thr_state :=
  match t with
  | Out r w => if (r =? 0) && (w =? 0) then mkThr 0 0 0 else mkThr (self i) r w
  | _ => mkThr 0 0 0
  end.

(** Nobody else writes when a thread holds the lock. *)
Lemma others_write ts i t t' :
  exclusive ts -> ts !! i = Some t -> holds t = true -> existsb writes (<[i := t']> ts) = writes t'.
Proof.
  intros He Hi Ht. destruct (writes t') eqn:E; [by apply (existsb_upd_true _ _ _ t)|].
  apply existsb_false. intros k u [[-> ->]|[Hk Hu]]%lookup_upd; [done|].
  destruct (writes u) eqn:Eu; [|done]. destruct Hk. symmetry. by apply (He k i u t).
Qed.

Lemma release_refines p ts i j c r w t :
  counts p ts -> exclusive ts -> ts !! i = Some (Out r w) -> thread_ok (Out r w) ->
  release c r w = Some t -> holds (Out r w) = true ->
  p.(state) !! j = Some (mkThr (self i) r w) ->
  exists p', run p j true c = Returns p' (rurw_leave p') /\ counts p' (<[i := t]> ts) /\
  p'.(state) = <[j := slot_for i t]> p.(state).
Proof.
  intros Hc He Hi [Hr Hw] Hrel Hh Hj. pose proof Hc as (H1 & H2 & H3 & H4 & H5).
  pose proof (others_write ts i (Out r w)) as Hex.
  assert (p.(rurw_writer) = writes (Out r w)) as Hwr.
  { rewrite H2, <- (Hex (Out r w)) by done. by rewrite list_insert_id. }
  assert (r <> 0 -> (p.(rurw_readers) >? 0) = true) as Hrd.
  { intros Hr0. rewrite H1, Z.gtb_ltb. apply Z.ltb_lt. pose proof (cnt_nonneg reads ts).
    assert ((cnt reads ts =? 0) = false); [|zb; lia]. rewrite cnt_zero.
    apply negb_false_iff, existsb_true. exists i, (Out r w). split; [done|]. simpl. by rewrite (proj2 (Z.eqb_neq r 0)). }
  assert (forall p' a b,
    p'.(rurw_readers) = p.(rurw_readers) - b2z (reads (Out r w)) + b2z (reads (Out a b)) ->
    p'.(rurw_writer) = writes (Out a b) -> p'.(rurw_readers_wait) = p.(rurw_readers_wait) ->
    p'.(rurw_writers_wait) = p.(rurw_writers_wait) -> p'.(rurw_upgrades_wait) = 0 ->
    counts p' (<[i := Out a b]> ts)) as Hcu.
  { intros p' a b E1 E2 E3 E4 E5. apply (counts_upd p _ _ _ (Out r w)); try done; simpl in *; try lia.
    by rewrite (Hex (Out a b)). }
  destruct c; simpl in Hrel; try done.
  - destruct (r >? 0) eqn:Er; simplify_eq. zb. unfold run, rurw_r_unlock. rewrite Hj. cbn [st_r st_w thr].
    rewrite (Hrd ltac:(lia)), (proj2 (Z.gtb_lt r 0)) by lia. simpl.
    destruct (r - 1 =? 0) eqn:E1; simpl; eexists; (split; [done|]); split.
    + apply Hcu; try done; simpl; rewrite ?E1, ?(proj2 (Z.eqb_neq r 0)) by lia; simpl; (done || lia).
    + unfold slot_for. rewrite ?E1. zb. rewrite E1. by destruct (w =? 0) eqn:Ew; zb; subst.
    + apply Hcu; try done; simpl; rewrite ?E1, ?(proj2 (Z.eqb_neq r 0)) by lia; simpl; (done || lia).
    + unfold slot_for. by rewrite ?E1.
  - destruct (w >? 0) eqn:Ew; simplify_eq. zb. unfold run, rurw_w_unlock. rewrite Hj. cbn [st_r st_w thr].
    rewrite Hwr. cbn [writes]. rewrite (proj2 (Z.eqb_neq w 0)), (proj2 (Z.gtb_lt w 0)) by lia. simpl.
    destruct (w - 1 =? 0) eqn:E1; simpl; eexists; (split; [done|]); split.
    + apply Hcu; try done; simpl; rewrite ?E1; simpl; (done || lia).
    + unfold slot_for. rewrite ?E1, andb_true_r. zb. rewrite E1. by destruct (r =? 0) eqn:Er; zb; subst.
    + apply Hcu; try done; simpl; rewrite ?E1; simpl; try (done || lia).
      rewrite Hwr. simpl. by rewrite (proj2 (Z.eqb_neq w 0)) by lia.
    + unfold slot_for. by rewrite ?E1, andb_false_r.
  - simplify_eq. unfold run, rurw_retreat. rewrite Hj. cbn [st_r st_w thr]. rewrite Hwr. cbn [writes].
    assert ((r =? 0) && (w =? 0) = false) as ->.
    { unfold holds in Hh. simpl in Hh. by destruct (r =? 0), (w =? 0). }
    destruct (r =? 0) eqn:Er; zb; simpl.
    + destruct (w =? 0) eqn:Ew; simpl; eexists; (split; [done|]); (split; [|done]);
        apply Hcu; try done; simpl; rewrite ?Er; simpl; try lia; rewrite Hwr; simpl; by rewrite Ew.
    + rewrite (Hrd ltac:(lia)). destruct (w =? 0) eqn:Ew; simpl; eexists; (split; [done|]); (split; [|done]);
        apply Hcu; try done; simpl; rewrite ?(proj2 (Z.eqb_neq r 0)) by lia; simpl; try lia; rewrite Hwr; simpl; by rewrite Ew.
Qed.

(** ** Finishing a call *)

Lemma finish_returns_refines s i j x p' sig ts r w :
  wf s -> s.(index) !! i = Some (Z.of_nat j + 1) -> s.(pcs) !! i = Some x ->
  p'.(state) = <[j := slot_for i (Out r w)]> s.(lk).(state) ->
  counts p' (<[i := Out r w]> (abs s)) -> signals sig (<[i := Idle]> s.(pcs)) ts ->
  let s' := mkSys p' s.(last) s.(index) ts in
  wf s' /\ awakens sig (<[i := Out r w]> (abs s)) (abs s') /\ counts p' (abs s').
Proof.
  intros Hwf Hix Hpc Hst Hc Hs s'. pose proof (lookup_lt_Some _ _ _ Hpc) as Hlt.
  assert (j < length s.(lk).(state))%nat as Hj.
  { destruct (own_or_free s i _ Hwf Hix) as (sl & Hsl & _); [lia|]. apply lookup_lt_Some in Hsl. lia. }
  set (sl := slot_for i (Out r w)) in *.
  assert (p'.(state) !! j = Some sl) as Hslot by (rewrite Hst; by apply list_lookup_insert_eq).
  assert (sl = mkThr 0 0 0 \/ sl.(thr) = self i) as Hsl by (unfold sl, slot_for; case_match; auto).
  assert (forall sl0, owns p'.(state) (Z.of_nat j + 1) i sl0 ->
    sl0 = mkThr (self i) r w /\ ~ (r = 0 /\ w = 0)) as Hown.
  { intros sl0 (_ & Hsl0 & Ht). replace (Z.to_nat (Z.of_nat j + 1 - 1)) with j in Hsl0 by lia.
    assert (sl0 = sl) as -> by congruence. unfold sl, slot_for in *.
    destruct ((r =? 0) && (w =? 0)) eqn:E; [simpl in Ht; unfold self in Ht; lia|].
    split; [done|]. intros [-> ->]. done. }
  assert (pc_ok p'.(state) (Z.of_nat j + 1) i Idle) as Hok.
  { intros sl0 Ho. destruct (Hown sl0 Ho) as [-> ?]. done. }
  pose proof (upd_wf s i j x Idle p' sl Hwf Hix Hpc Hst Hsl Hok) as Hw.
  pose proof (upd_abs s i j x Idle p' sl Hwf Hix Hpc Hst Hsl Hok) as Ha.
  assert (view (upd s i Idle p') i Idle = Out r w) as Hv.
  { unfold view. simpl. rewrite Hix. simpl.
    destruct ((r =? 0) && (w =? 0)) eqn:E.
    - rewrite depths_not_owned.
      + apply andb_true_iff in E as [E1 E2]. zb. by subst.
      + intros sl0 Ho. destruct (Hown sl0 Ho) as [_ Hn]. apply Hn. apply andb_true_iff in E as [E1 E2]. by zb.
    - rewrite (depths_owned _ _ _ (mkThr (self i) r w)); [done|]. split_and!; [lia| |done].
      replace (Z.to_nat (Z.of_nat j + 1 - 1)) with j by lia. rewrite Hslot. unfold sl, slot_for. by rewrite E. }
  rewrite Hv in Ha. destruct (signals_refine (upd s i Idle p') sig ts Hw Hs) as [Hw' Ha'].
  rewrite Ha in Ha'. split_and!; [done..|]. by apply (awakens_counts _ _ _ _ Ha').
Qed.

Lemma finish_blocks_refines s i j x p' on c :
  wf s -> s.(index) !! i = Some (Z.of_nat j + 1) -> s.(pcs) !! i = Some x ->
  p'.(state) = <[j := mkThr (self i) (saved c).1 (saved c).2]> s.(lk).(state) ->
  counts p' (<[i := Waiting on c false]> (abs s)) ->
  let s' := upd s i (Wait on c j false) p' in
  wf s' /\ abs s' = <[i := Waiting on c false]> (abs s) /\ counts p' (abs s').
Proof.
  intros Hwf Hix Hpc Hst Hc s'. set (sl := mkThr (self i) (saved c).1 (saved c).2) in *.
  assert (j < length s.(lk).(state))%nat as Hj.
  { destruct (own_or_free s i _ Hwf Hix) as (sl0 & Hsl & _); [lia|]. apply lookup_lt_Some in Hsl. lia. }
  assert (pc_ok p'.(state) (Z.of_nat j + 1) i (Wait on c j false)) as Hok.
  { split; [done|]. split_and!; [lia| |done]. replace (Z.to_nat (Z.of_nat j + 1 - 1)) with j by lia.
    rewrite Hst. by apply list_lookup_insert_eq. }
  pose proof (upd_wf s i j x _ p' sl Hwf Hix Hpc Hst (or_intror eq_refl) Hok) as Hw.
  pose proof (upd_abs s i j x _ p' sl Hwf Hix Hpc Hst (or_intror eq_refl) Hok) as Ha.
  split_and!; [done..|]. unfold s'. rewrite Ha. done.
Qed.
