(* ===== verification/RurwTheorems.v ===== *)
(** * The recursive readers-writer lock: theorems *)

From S2P Require Import Prelude Rurw RurwSpec RurwRefine.

Local Open Scope Z_scope.

Definition good (s : sys) : Prop := wf s /\ counts s.(lk) (abs s) /\ spec_ok (abs s).

(** The call is legal for the thread. *)
Definition legal_at (s : sys) (i : nat) (o : option call) : Prop :=
  match o with
  | None => True
  | Some c => from_option (fun t => legal t c) false (abs s !! i) = true
  end.

Lemma slot_for_holds i r w : holds (Out r w) = true -> slot_for i (Out r w) = mkThr (self i) r w.
Proof. unfold slot_for, holds, reads, writes. by destruct (r =? 0), (w =? 0). Qed.

(** ** A thread that tests the lock *)

Definition tried (s : sys) (i j : nat) (c : call) (res : result) : Prop :=
  match attempt (abs s) c with
  | Out r w => exists p', res = Returns p' SigNone /\ counts p' (<[i := Out r w]> (abs s)) /\
      p'.(state) = <[j := slot_for i (Out r w)]> s.(lk).(state)
  | Waiting on c' _ => c' = c /\ exists p', res = Blocks on p' /\ counts p' (<[i := Waiting on c false]> (abs s)) /\
      p'.(state) = <[j := mkThr (self i) (saved c).1 (saved c).2]> s.(lk).(state)
  | _ => False
  end.

Lemma tried_finishes s i j x c res s2 :
  wf s -> acquires c = true -> proper c ->
  s.(index) !! i = Some (Z.of_nat j + 1) -> s.(pcs) !! i = Some x -> tried s i j c res ->
  res <> Fails /\
  (finish s i j c res s2 -> wf s2 /\ counts s2.(lk) (abs s2) /\ abs s2 = <[i := attempt (abs s) c]> (abs s)).
Proof.
  intros Hwf Hc Hp Hix Hpc Ht. unfold tried in Ht.
  pose proof (attempt_cases (abs s) c Hc Hp) as Hcase.
  destruct (attempt (abs s) c) as [r w| |on c' b]; [|done|].
  - destruct Ht as (p' & -> & Hct & Hst). split; [done|]. intros Hf. inversion Hf as [p0 sig ts Hsig|]; subst.
    destruct (finish_returns_refines s i j x p' SigNone ts r w) as (H1 & H2 & H3); try done.
    inversion H2; subst. by split_and!.
  - destruct Ht as (-> & p' & -> & Hct & Hst). destruct Hcase as [_ ->]. split; [done|]. intros Hf.
    inversion Hf; subst. destruct (finish_blocks_refines s i j x p' on c) as (H1 & H2 & H3); done.
Qed.

(** From the loop of the call to [tried]. *)
Lemma loop_tried s i j c p ts :
  acquires c = true -> proper c -> counts p ts -> ts !! i = Some (Entering c) ->
  (forall t, <[i := t]> ts = <[i := t]> (abs s)) -> attempt ts c = attempt (abs s) c ->
  p.(state) = <[j := mkThr (self i) (saved c).1 (saved c).2]> s.(lk).(state) -> (j < length s.(lk).(state))%nat ->
  tried s i j c (loop_of c p j).
Proof.
  intros Hc Hp Hct Hi Hts Hat Hst Hj. unfold tried. rewrite <- Hat.
  assert (p.(state) !! j = Some (mkThr (self i) (saved c).1 (saved c).2)) as Hsl.
  { rewrite Hst. by apply list_lookup_insert_eq. }
  pose proof (loop_refines p ts i j c Hct Hi Hc Hp Hsl) as Hl.
  pose proof (attempt_cases ts c Hc Hp) as Hcase.
  destruct (attempt ts c) as [r w| |on c' b]; [|done|].
  - destruct Hl as (p' & E & Hc' & Hs'). exists p'. rewrite <- Hts. split_and!; [done..|].
    destruct Hcase as [Hh _]. rewrite Hs', Hst, list_insert_insert_eq, slot_for_holds by done. done.
  - destruct Hl as (-> & p' & E & Hc' & Hs'). split; [done|]. exists p'. rewrite <- Hts, Hs'. done.
Qed.

Lemma attempt_same ts i t c :
  ts !! i = Some t -> holds t = false -> attempt (<[i := Entering c]> ts) c = attempt ts c.
Proof.
  intros Hi Ht. unfold attempt. rewrite !(existsb_upd_same _ _ _ t); try done.
  unfold holds in Ht. by destruct (reads t), (writes t).
Qed.

Lemma index_bound s i j :
  wf s -> s.(index) !! i = Some (Z.of_nat j + 1) -> (j < length s.(lk).(state))%nat.
Proof.
  intros Hwf Hix. destruct (own_or_free s i _ Hwf Hix) as (sl & Hsl & _); [lia|]. apply lookup_lt_Some in Hsl. lia.
Qed.

(** A thread that gets its slot under the mutex. *)
Lemma enter_tried s i c scan :
  good s -> s.(pcs) !! i = Some (Enter c scan) -> acquires c = true /\ proper c /\
  exists j p, rurw_take s.(lk) (self i) (default 0 (s.(index) !! i) - 1) scan = Some (j, p) /\
  s.(index) !! i = Some (Z.of_nat j + 1) /\ tried s i j c (run p j true c).
Proof.
  intros (Hwf & Hct & Hok & _) Hpc.
  assert (abs s !! i = Some (Entering c)) as Hi by (rewrite abs_lookup, Hpc; done).
  rewrite Forall_lookup in Hok. destruct (Hok _ _ Hi) as [Hc Hp]. split_and!; [done..|].
  destruct (wf_pcs s Hwf i _ Hpc) as (-> & Hne & Hno).
  destruct (s.(index) !! i) as [ix|] eqn:Hix; [|done]. simpl in *.
  pose proof (wf_range s Hwf i ix Hix) as Hr.
  destruct (own_or_free s i ix Hwf Hix Hne) as (sl & Hsl & [->|Ht]); [|by destruct (Hno sl)].
  set (j := Z.to_nat (ix - 1)) in *.
  assert (Z.of_nat j + 1 = ix) as Hj by lia.
  unfold rurw_take. fold j. rewrite Hsl. simpl. unfold take_slot. simpl. rewrite Hsl. simpl.
  do 2 eexists. split; [done|]. rewrite Hj. split; [done|].
  set (p1 := with_slot _ j (mkThr (self i) 0 0)).
  assert (j < length s.(lk).(state))%nat as Hlt by (apply (index_bound s i); [done|by rewrite Hj]).
  assert (p1.(state) !! j = Some (mkThr (self i) 0 0)) as Hp1 by (by apply list_lookup_insert_eq).
  assert (<[i := Entering c]> (abs s) = abs s) as Hid by (by apply list_insert_id).
  destruct c as [| | | | |r w]; try done; unfold run, rurw_r_lock, rurw_w_lock, rurw_obtain; rewrite Hp1; simpl.
  - apply (loop_tried s i j RLock p1 (abs s)); done.
  - apply (loop_tried s i j WLock p1 (abs s)); done.
  - apply (loop_tried s i j (Obtain r w) (with_slot p1 j (mkThr (self i) r w)) (abs s)); try done.
    simpl. by rewrite list_insert_insert_eq.
Qed.

(** A thread that tests again after a wait. *)
Lemma resume_tried s i on c j woken :
  good s -> s.(pcs) !! i = Some (Wait on c j woken) -> acquires c = true /\ proper c /\
  s.(index) !! i = Some (Z.of_nat j + 1) /\ tried s i j c (resume s.(lk) on j c).
Proof.
  intros (Hwf & Hct & Hok & _) Hpc.
  assert (abs s !! i = Some (Waiting on c woken)) as Hi by (rewrite abs_lookup, Hpc; done).
  rewrite Forall_lookup in Hok. destruct (Hok _ _ Hi) as (Hc & Hp & Hon).
  destruct (wf_pcs s Hwf i _ Hpc) as (Hix0 & Hne & Hsl & _).
  destruct (s.(index) !! i) as [ix|] eqn:Hix; [|simpl in Hix0; lia]. simpl in *. subst ix.
  replace (Z.to_nat (Z.of_nat j + 1 - 1)) with j in Hsl by lia.
  split_and!; [done..|].
  assert (resume s.(lk) on j c = loop_of c (add_wait s.(lk) on (-1)) j) as -> by (by destruct c).
  apply (loop_tried s i j c _ (<[i := Entering c]> (abs s))); try done.
  - pose proof Hct as (H1 & H2 & H3 & H4 & H5).
    apply (counts_upd s.(lk) _ _ _ (Waiting on c woken)); try done; simpl;
      try (rewrite (existsb_upd_same _ _ _ (Waiting on c woken)) by done);
      destruct c, on; simpl in *; (done || lia).
  - apply list_lookup_insert_eq. by eapply lookup_lt_Some.
  - intros t. by rewrite list_insert_insert_eq.
  - by apply (attempt_same _ _ (Waiting on c woken)).
  - simpl. by rewrite list_insert_id.
  - by eapply lookup_lt_Some.
Qed.

(** ** A thread that has a slot *)

Lemma deepen_refines p ts i j c r w r' w' :
  counts p ts -> ts !! i = Some (Out r w) -> deepen c r w = Some (Out r' w') ->
  p.(state) !! j = Some (mkThr (self i) r w) ->
  exists p', run p j false c = Returns p' SigNone /\ counts p' (<[i := Out r' w']> ts) /\
  p'.(state) = <[j := slot_for i (Out r' w')]> p.(state).
Proof.
  intros Hc Hi Hd Hj. pose proof Hc as (H1 & H2 & H3 & H4 & H5).
  destruct c; simpl in Hd; try done; case_match eqn:E; simplify_eq; zb;
    unfold run, rurw_r_lock, rurw_w_lock; rewrite Hj; cbn [st_r st_w thr].
  - rewrite (proj2 (Z.eqb_neq r 0)), (proj2 (Z.ltb_lt r 65535)) by lia. eexists. split; [done|]. split.
    + apply (counts_upd p _ _ _ (Out r w')); try done; simpl; try lia.
      * rewrite (proj2 (Z.eqb_neq r 0)), (proj2 (Z.eqb_neq (r + 1) 0)) by lia. lia.
      * by rewrite (existsb_upd_same _ _ _ (Out r w')).
    + simpl. by rewrite (proj2 (Z.eqb_neq (r + 1) 0)) by lia.
  - rewrite (proj2 (Z.eqb_neq w 0)), (proj2 (Z.ltb_lt w 65535)) by lia. eexists. split; [done|]. split.
    + apply (counts_upd p _ _ _ (Out r' w)); try done; simpl; try lia.
      rewrite (existsb_upd_same _ _ _ (Out r' w)); [done|done|]. simpl.
      by rewrite (proj2 (Z.eqb_neq w 0)), (proj2 (Z.eqb_neq (w + 1) 0)) by lia.
    + simpl. by rewrite (proj2 (Z.eqb_neq (w + 1) 0)), andb_false_r by lia.
Qed.

(** A legal call of a thread that holds the lock deepens or releases. *)
Lemma legal_cases r w c :
  legal (Out r w) c = true -> holds (Out r w) = true -> empty_call c Broken = false ->
  exists r' w', (if acquires c then deepen c r w else release c r w) = Some (Out r' w').
Proof.
  intros Hl Hh He.
  assert ((r =? 0) && (w =? 0) = false) as Hrw by (unfold holds, reads, writes in Hh; by destruct (r =? 0), (w =? 0)).
  destruct c; simpl in *; rewrite ?Hrw, ?orb_false_r in Hl; rewrite ?Hl; eauto. by rewrite He in Hl.
Qed.

Definition deeper_or_released (c : call) (r w : Z) (t : thread) (p' : rurw_lock) (res : result) : Prop :=
  if acquires c then deepen c r w = Some t /\ res = Returns p' SigNone
  else release c r w = Some t /\ res = Returns p' (rurw_leave p').

Lemma found_refines s i ix c sl :
  good s -> s.(pcs) !! i = Some Idle -> s.(index) !! i = Some (ix + 1) ->
  owns s.(lk).(state) (ix + 1) i sl -> legal_at s i (Some c) -> empty_call c Broken = false ->
  exists r w r' w' p', abs s !! i = Some (Out r w) /\ holds (Out r w) = true /\
  deeper_or_released c r w (Out r' w') p' (run s.(lk) (Z.to_nat ix) (negb (acquires c)) c) /\
  counts p' (<[i := Out r' w']> (abs s)) /\
  p'.(state) = <[Z.to_nat ix := slot_for i (Out r' w')]> s.(lk).(state).
Proof.
  intros (Hwf & Hct & Hok & He & _) Hpc Hix Hown Hleg Hne. destruct sl as [th r w].
  pose proof Hown as (_ & Hsl & Ht). simpl in Ht. subst th. rewrite Z.add_simpl_r in Hsl.
  assert (abs s !! i = Some (Out r w)) as Hi.
  { rewrite abs_lookup, Hpc. simpl. rewrite Hix. simpl. by rewrite (depths_owned _ _ _ _ Hown). }
  pose proof (wf_pcs s Hwf i _ Hpc) as Hp. rewrite Hix in Hp. specialize (Hp _ Hown). simpl in Hp.
  rewrite Forall_lookup in Hok. pose proof (Hok _ _ Hi) as Hrw.
  assert (holds (Out r w) = true) as Hh.
  { unfold holds, reads, writes. destruct (r =? 0) eqn:E1, (w =? 0) eqn:E2; zb; simpl; tauto. }
  unfold legal_at in Hleg. rewrite Hi in Hleg. cbn [from_option] in Hleg.
  destruct (legal_cases r w c Hleg Hh Hne) as (r' & w' & Hnext).
  unfold deeper_or_released. destruct (acquires c); cbn [negb].
  - destruct (deepen_refines s.(lk) (abs s) i (Z.to_nat ix) c r w r' w') as (p' & H1 & H2 & H3); try done.
    exists r, w, r', w', p'. done.
  - destruct (release_refines s.(lk) (abs s) i (Z.to_nat ix) c r w (Out r' w')) as (p' & H1 & H2 & H3); try done.
    exists r, w, r', w', p'. done.
Qed.

(** ** Steps *)

Lemma thread_index_good s i ix s1 :
  good s -> s.(pcs) !! i = Some Idle -> thread_index s i = (ix, s1) ->
  good s1 /\ abs s1 = abs s /\ s1.(lk) = s.(lk) /\ s1.(pcs) = s.(pcs) /\
  s1.(index) !! i = Some (ix + 1) /\ 0 <= ix < 64.
Proof.
  intros (Hwf & Hc & Hs) Hpc Ht.
  destruct (thread_index_wf s i Hwf) as (ix' & s1' & Ht' & Hw & Ha & Hl & Hp & Hi & Hx); [by eapply lookup_lt_Some|].
  rewrite Ht in Ht'. simplify_eq. unfold good. rewrite Ha, Hl. done.
Qed.

(** The unlocked look of a thread outside the lock's code, with a legal call. *)
Lemma look_cases s i c ix s1 :
  good s -> s.(pcs) !! i = Some Idle -> thread_index s i = (ix, s1) ->
  (exists sl, owns s1.(lk).(state) (ix + 1) i sl /\ rurw_look s.(lk) (self i) ix (acquires c) = Found (Z.to_nat ix)) \/
  (abs s !! i = Some (Out 0 0) /\ (forall sl, ~ owns s1.(lk).(state) (ix + 1) i sl) /\
   rurw_look s.(lk) (self i) ix (acquires c) = (if acquires c then Take false else Absent)).
Proof.
  intros Hg Hpc Ht. destruct (thread_index_good s i ix s1 Hg Hpc Ht) as ((Hw & _) & Ha & Hl & Hp & Hi & Hx).
  rewrite <- Hl. destruct (rurw_look_spec s1 i ix (acquires c) Hw Hi Hx) as [?|[Hno Hlk]]; [by left|right].
  split_and!; [|done..]. rewrite <- Ha, abs_lookup, Hp, Hpc. simpl. rewrite Hi. simpl. by rewrite depths_not_owned.
Qed.

Lemma legal_proper c : legal (Out 0 0) c = true -> empty_call c Broken = false -> proper c.
Proof.
  intros Hl He. destruct c as [| | | | |r w]; try done. simpl in *. rewrite He in Hl. simpl in Hl. zb.
  split_and!; try lia.
Qed.

Lemma found_step s i c ix s1 s2 j :
  good s -> legal_at s i (Some c) -> s.(pcs) !! i = Some Idle -> empty_call c Broken = false ->
  thread_index s i = (ix, s1) -> rurw_look s.(lk) (self i) ix (acquires c) = Found j ->
  run s.(lk) j (negb (acquires c)) c <> Fails /\
  (finish s1 i j c (run s.(lk) j (negb (acquires c)) c) s2 ->
   astep (abs s) i (abs s2) /\ wf s2 /\ counts s2.(lk) (abs s2)).
Proof.
  intros Hg Hleg Hpc Hne Ht Hlk.
  destruct (thread_index_good s i ix s1 Hg Hpc Ht) as (Hg1 & Ha & Hl & Hp & Hi & Hx).
  destruct (look_cases s i c ix s1 Hg Hpc Ht) as [(sl & Hown & Hf)|(_ & _ & Hf)]; rewrite Hf in Hlk;
    [|by destruct (acquires c)]. simplify_eq.
  assert (legal_at s1 i (Some c)) as Hleg1 by (unfold legal_at in *; by rewrite Ha).
  destruct (found_refines s1 i ix c sl Hg1) as (r & w & r' & w' & p' & Hi' & Hh & Hres & Hct & Hst); try done.
  { by rewrite Hp. }
  rewrite <- Hl. assert (s1.(index) !! i = Some (Z.of_nat (Z.to_nat ix) + 1)) as Hix by (rewrite Z2Nat.id by lia; done).
  assert (s1.(pcs) !! i = Some Idle) as Hpc1 by (by rewrite Hp).
  unfold deeper_or_released in Hres. rewrite <- Ha.
  destruct (acquires c); destruct Hres as [Hnext ->]; (split; [done|]); intros Hfin;
    inversion Hfin as [p0 sig ts Hsig|]; subst;
    destruct (finish_returns_refines s1 i (Z.to_nat ix) Idle p' _ ts r' w' (proj1 Hg1) Hix Hpc1 Hst Hct Hsig) as (H1 & H2 & H3);
    (split; [|done]).
  - inversion H2 as [ts0 Ets| | |]. simpl. by apply (a_again _ _ r w c).
  - apply (a_release _ _ r w c (Out r' w')); try done. by rewrite <- (leave_wakeup p').
Qed.

Lemma want_step s i c ix s1 scan :
  good s -> legal_at s i (Some c) -> s.(pcs) !! i = Some Idle -> empty_call c Broken = false ->
  thread_index s i = (ix, s1) -> rurw_look s.(lk) (self i) ix (acquires c) = Take scan ->
  let s2 := with_pc s1 i (Enter c scan) in
  astep (abs s) i (abs s2) /\ wf s2 /\ counts s2.(lk) (abs s2).
Proof.
  intros Hg Hleg Hpc Hne Ht Hl. cbv zeta.
  destruct (thread_index_good s i ix s1 Hg Hpc Ht) as (Hg1 & Ha & Hlk & Hp & Hi & Hx).
  destruct (look_cases s i c ix s1 Hg Hpc Ht) as [(sl & _ & Hf)|(Ho & Hno & Hf)]; rewrite Hf in Hl; [done|].
  destruct (acquires c) eqn:Hac; [|done]. simplify_eq.
  unfold legal_at in Hleg. rewrite Ho in Hleg. simpl in Hleg.
  assert (s1.(index) !! i = Some (Z.of_nat (Z.to_nat ix) + 1)) as Hix by (rewrite Z2Nat.id by lia; done).
  destruct (own_or_free s1 i _ (proj1 Hg1) Hi) as (sl & Hsl & Hfree); [lia|]. rewrite Z.add_simpl_r in Hsl.
  assert (s1.(lk).(state) = <[Z.to_nat ix := sl]> s1.(lk).(state)) as Hid by (by rewrite list_insert_id).
  assert (pc_ok s1.(lk).(state) (Z.of_nat (Z.to_nat ix) + 1) i (Enter c false)) as Hok.
  { split_and!; [done|lia|]. rewrite Z2Nat.id by lia. done. }
  rewrite <- Hp in Hpc.
  pose proof (upd_wf s1 i (Z.to_nat ix) Idle (Enter c false) s1.(lk) sl (proj1 Hg1) Hix Hpc Hid Hfree Hok) as Hw.
  pose proof (upd_abs s1 i (Z.to_nat ix) Idle (Enter c false) s1.(lk) sl (proj1 Hg1) Hix Hpc Hid Hfree Hok) as Ha1.
  change (upd s1 i (Enter c false) (lk s1)) with (with_pc s1 i (Enter c false)) in *. rewrite Ha1, Ha.
  split_and!; [|done|].
  - apply a_enter; [done..|]. by apply legal_proper.
  - apply (counts_upd s1.(lk) _ _ _ (Out 0 0)); try done; simpl; try lia.
    + rewrite <- Ha. apply Hg1.
    + rewrite (existsb_upd_same _ _ _ (Out 0 0)) by done. rewrite <- Ha. apply Hg1.
    + apply Hg1.
Qed.

(** Each step of a legal caller is a step of the abstract lock. *)
Lemma step_refines s i o s' :
  good s -> legal_at s i o -> step s i o s' -> astep (abs s) i (abs s') /\ good s'.
Proof.
  intros Hg Hleg Hs.
  assert (astep (abs s) i (abs s') /\ wf s' /\ counts s'.(lk) (abs s')) as (Ha & Hw & Hc).
  2: { split; [done|]. split_and!; [done..|]. apply (astep_preserves (abs s) i); [apply Hg|done]. }
  destruct Hs as [c Hpc Hem|ix s1 Hpc Ht Hl|c ix s1 j s2 Hpc Hne Ht Hl Hfin|c ix s1 scan Hpc Hne Ht Hl
    |c scan j p s2 Hpc Htk Hfin|on c j woken s2 Hpc Hfin].
  - split; [constructor|]. split; apply Hg.
  - destruct (thread_index_good s i ix s1 Hg Hpc Ht) as ((H1 & H2 & _) & -> & _). split; [constructor|]. split; [done|].
    by destruct (thread_index_good s i ix s1 Hg Hpc Ht) as (_ & <- & _).
  - by apply (found_step s i c ix s1 s2 j).
  - by apply (want_step s i c ix s1 scan).
  - destruct (enter_tried s i c scan Hg Hpc) as (Hac & Hp & j' & p' & Htk' & Hix & Htr).
    rewrite Htk in Htk'. simplify_eq.
    destruct (tried_finishes s i j' _ c _ s2 (proj1 Hg) Hac Hp Hix Hpc Htr) as [_ Hf].
    destruct (Hf Hfin) as (H1 & H2 & H3). rewrite H3. split_and!; [|done|by rewrite <- H3].
    apply a_enter_try; [|done]. by rewrite abs_lookup, Hpc.
  - destruct (resume_tried s i on c j woken Hg Hpc) as (Hac & Hp & Hix & Htr).
    destruct (tried_finishes s i j _ c _ s2 (proj1 Hg) Hac Hp Hix Hpc Htr) as [_ Hf].
    destruct (Hf Hfin) as (H1 & H2 & H3). rewrite H3. split_and!; [|done|by rewrite <- H3].
    apply (a_retry _ _ on c woken); [|done]. by rewrite abs_lookup, Hpc.
Qed.

(** The code does not fail for a legal caller. *)
Lemma legal_never_fails s i o : good s -> legal_at s i o -> ~ fails s i o.
Proof.
  intros Hg Hleg Hf.
  destruct Hf as [c ix s1 Hpc Hne Ht Hl|c ix s1 Hpc Hne Ht Hl|c ix s1 j Hpc Hne Ht Hl Hr|c scan Hpc Htk
    |c scan j p Hpc Htk Hr|on c j woken Hpc Hr].
  - destruct (look_cases s i c ix s1 Hg Hpc Ht) as [(sl & _ & Hf)|(Ho & _ & Hf)]; rewrite Hf in Hl; [done|].
    unfold legal_at in Hleg. rewrite Ho in Hleg. simpl in Hleg. by destruct c.
  - destruct (look_cases s i c ix s1 Hg Hpc Ht) as [(sl & _ & Hf)|(Ho & _ & Hf)]; rewrite Hf in Hl; [done|by destruct (acquires c)].
  - by destruct (found_step s i c ix s1 s j Hg Hleg Hpc Hne Ht Hl) as [? _].
  - destruct (enter_tried s i c scan Hg Hpc) as (_ & _ & j & p & Htk' & _). congruence.
  - destruct (enter_tried s i c scan Hg Hpc) as (Hac & Hp & j' & p' & Htk' & Hix & Htr).
    rewrite Htk in Htk'. simplify_eq. by destruct (tried_finishes s i j' _ c _ s (proj1 Hg) Hac Hp Hix Hpc Htr) as [? _].
  - destruct (resume_tried s i on c j woken Hg Hpc) as (Hac & Hp & Hix & Htr).
    by destruct (tried_finishes s i j _ c _ s (proj1 Hg) Hac Hp Hix Hpc Htr) as [? _].
Qed.

(** The states that legal callers can bring a lock with [n] threads into. *)
Inductive reachable (n : nat) : sys -> Prop :=
| reach_init : reachable n (sys_init n)
| reach_step s i o s' : reachable n s -> legal_at s i o -> step s i o s' -> reachable n s'.

Lemma abs_init n : abs (sys_init n) = replicate n (Out 0 0).
Proof.
  apply list_eq. intros i. rewrite abs_lookup. simpl.
  destruct (decide (i < n)%nat) as [Hi|Hi].
  - rewrite !lookup_replicate_2 by done. simpl. by rewrite lookup_replicate_2 by done.
  - rewrite !lookup_ge_None_2; [done|rewrite length_replicate; lia..].
Qed.

Lemma cnt_replicate {A} (f : A -> bool) n x : f x = false -> cnt f (replicate n x) = 0.
Proof. intros Hf. induction n as [|n IH]; [done|]. simpl. rewrite cnt_cons, Hf. done. Qed.

Lemma existsb_replicate {A} (f : A -> bool) n x : f x = false -> existsb f (replicate n x) = false.
Proof. intros Hf. induction n as [|n IH]; [done|]. simpl. by rewrite Hf. Qed.

Lemma good_init n : (n <= 64)%nat -> good (sys_init n).
Proof.
  intros Hn. unfold good. rewrite abs_init. split_and!.
  - split; simpl; rewrite ?length_replicate; try done.
    + by rewrite cnt_replicate.
    + intros i x [-> _]%lookup_replicate. lia.
    + intros i j x [-> _]%lookup_replicate _ ?. done.
    + intros j sl Hj. left. change (replicate (Z.to_nat RURW_LOCK_MAXTHREADS) (mkThr 0 0 0) !! j = Some sl) in Hj.
      by apply lookup_replicate in Hj as [-> _].
    + intros i x [-> Hi]%lookup_replicate. simpl. rewrite lookup_replicate_2 by done. intros sl (? & _). done.
  - unfold counts. rewrite !cnt_replicate, existsb_replicate by done. done.
  - split_and!.
    + apply Forall_replicate. simpl. lia.
    + intros i j t u [-> _]%lookup_replicate ?. done.
    + intros _ Ha. by rewrite existsb_replicate in Ha.
Qed.

Lemma reachable_good n s : (n <= 64)%nat -> reachable n s -> good s.
Proof.
  intros Hn. induction 1 as [|s i o s' _ IH Hleg Hst]; [by apply good_init|].
  by apply (step_refines s i o s').
Qed.

(** ** Schedules that can be run *)

Lemma deliver_signals sig ts : signals sig ts (deliver sig ts).
Proof.
  destruct sig as [|c|c]; simpl; [constructor| |constructor].
  destruct (index_where (unwokenb c) ts) as [k|] eqn:E.
  - apply index_where_lookup in E as (x & Hx & Hu).
    rewrite Hx. apply sig_one; [done|].
    destruct x as [| |[] o j []], c; done.
  - apply sig_nobody. intros i x Hx Hu. revert i Hx. clear -E Hu.
    induction ts as [|y ts IH]; intros [|i] Hx; simplify_eq/=.
    + by destruct x as [| |[] o j []], c.
    + case_match; [done|]. destruct (index_where _ ts); [done|]. by apply (IH eq_refl i).
Qed.

Lemma finished_finish s i j o res s' : finished s i j o res = Some s' -> finish s i j o res s'.
Proof. destruct res as [p sig|c p|]; intros [= <-]; [|constructor]. constructor. apply deliver_signals. Qed.

Lemma exec_step s i o s' : exec s i o = Some s' -> step s i o s'.
Proof.
  unfold exec. destruct (pcs s !! i) as [x|] eqn:Hpc; [|done]. cbn [mbind option_bind].
  destruct x as [|c scan|on c j woken], o as [c'|]; try done.
  - destruct (empty_call c' Broken) eqn:He.
    + intros [= <-]. apply step_empty; [done|]. destruct c'; try done. eauto.
    + destruct (thread_index s i) as [ix s1] eqn:Ht. destruct (rurw_look _ _ _ _) as [j| |scan|] eqn:Hl; try done.
      * intros Hf. by eapply step_found, finished_finish.
      * destruct c'; simpl in *; try done; [|by rewrite He]. intros [= <-]. by eapply step_absent.
      * intros [= <-]. by eapply step_want.
  - intros Hf. destruct (rurw_take _ _ _ _) as [[j p]|] eqn:Ht; [|done]. by eapply step_enter, finished_finish.
  - intros Hf. by eapply step_resume, finished_finish.
Qed.

(** Every call of the schedule is legal where it is made. *)
Fixpoint legal_run (s : sys) (l : list (nat * option call)) : bool :=
  match l with
  | [] => true
  | (i, o) :: l =>
      match o with
      | None => true
      | Some c => from_option (fun t => legal t c) false (abs s !! i)
      end &&
      match exec s i o with Some s' => legal_run s' l | None => false end
  end.

Lemma execs_reachable n s l s' :
  reachable n s -> legal_run s l = true -> execs s l = Some s' -> reachable n s'.
Proof.
  revert s. induction l as [|[i o] l IH]; intros s Hr Hl He; simpl in *; [by simplify_eq|].
  apply andb_true_iff in Hl as [Hc Hl]. destruct (exec s i o) as [s1|] eqn:E; [|done].
  apply (IH s1); try done. apply (reach_step n s i o); [done|by destruct o|by apply exec_step].
Qed.

(** C8: the lock refines its specification and excludes: whatever up to 64
    threads do that nest the calls as they should, no step fails, each step is a
    step of the abstract lock, the counters are those of the abstract lock, and a
    thread that holds the lock for writing is the only one that holds it. *)
Theorem rurw_excludes n s :
  (n <= 64)%nat -> reachable n s ->
  (forall i o, legal_at s i o -> ~ fails s i o) /\
  (forall i o s', legal_at s i o -> step s i o s' -> astep (abs s) i (abs s')) /\
  counts s.(lk) (abs s) /\ exclusive (abs s).
Proof.
  intros Hn Hr. pose proof (reachable_good n s Hn Hr) as Hg. split_and!.
  - intros i o. by apply legal_never_fails.
  - intros i o s' Hl Hs. by apply (step_refines s i o s').
  - apply Hg.
  - apply Hg.
Qed.

Definition sample_schedule : list (nat * option call) :=
  [(0%nat, Some WLock); (0%nat, None); (1%nat, Some RLock); (1%nat, None); (0%nat, Some WLock); (0%nat, Some WUnlock);
   (0%nat, Some WUnlock); (1%nat, None)].

Lemma rurw_excludes_witness :
  exists s, reachable 2 s /\ abs s = [Out 0 0; Out 1 0] /\ exclusive (abs s).
Proof.
  destruct (execs (sys_init 2) sample_schedule) as [s|] eqn:E; [|vm_compute in E; discriminate].
  assert (reachable 2 s) as Hr.
  { apply (execs_reachable 2 (sys_init 2) sample_schedule s); [constructor|vm_compute; reflexivity|exact E]. }
  exists s. split; [exact Hr|]. split; [vm_compute in E; injection E as <-; vm_compute; reflexivity|].
  destruct (rurw_excludes 2 s) as (_ & _ & _ & H); [lia|exact Hr|exact H].
Defined.

(** C17: no wakeup is lost: when nobody holds the lock and a thread sleeps on a
    condition, some thread has been woken, and when a woken thread goes on it
    gets the lock. *)
Theorem rurw_no_lost_wakeup n s :
  (n <= 64)%nat -> reachable n s -> existsb holds (abs s) = false -> existsb asleep (abs s) = true ->
  (exists i on c, abs s !! i = Some (Waiting on c true)) /\
  (forall i on c s', abs s !! i = Some (Waiting on c true) -> step s i None s' ->
     exists t, abs s' !! i = Some t /\ holds t = true).
Proof.
  intros Hn Hr Hfree Hsl. pose proof (reachable_good n s Hn Hr) as Hg. split.
  - destruct Hg as (_ & _ & _ & _ & Hnl). specialize (Hnl Hfree Hsl). apply existsb_true in Hnl as (i & t & Hi & Ht).
    destruct t as [| |on c []]; try done. eauto.
  - intros i on c s' Hi Hst.
    assert (s.(pcs) !! i <> None) as Hpc by (rewrite abs_lookup in Hi; by destruct (pcs s !! i)).
    rewrite abs_lookup in Hi. inversion Hst as [| | | |c' scan j p s2 Hp Htk Hf|on' c' j woken s2 Hp Hf]; subst; rewrite Hp in Hi; simplify_eq/=.
    destruct (resume_tried s i on c j true Hg Hp) as (Hac & Hpr & Hix & Htr).
    destruct (tried_finishes s i j _ c _ s' (proj1 Hg) Hac Hpr Hix Hp Htr) as [_ Hfin].
    destruct (Hfin Hf) as (_ & _ & ->). exists (attempt (abs s) c). split.
    + apply list_lookup_insert_eq. unfold abs. rewrite length_imap. by eapply lookup_lt_Some.
    + pose proof (attempt_cases (abs s) c Hac Hpr) as Hc. destruct (attempt (abs s) c); [by destruct Hc|done|].
      destruct Hc. congruence.
Qed.

Definition wake_schedule : list (nat * option call) :=
  [(0%nat, Some WLock); (0%nat, None); (1%nat, Some WLock); (1%nat, None); (2%nat, Some RLock); (2%nat, None);
   (0%nat, Some WUnlock)].

Lemma rurw_no_lost_wakeup_witness :
  exists s, reachable 3 s /\ abs s = [Out 0 0; Waiting wait4w WLock true; Waiting wait4r RLock false] /\
  exists i on c, abs s !! i = Some (Waiting on c true).
Proof.
  destruct (execs (sys_init 3) wake_schedule) as [s|] eqn:E; [|vm_compute in E; discriminate].
  assert (reachable 3 s) as Hr.
  { apply (execs_reachable 3 (sys_init 3) wake_schedule s); [constructor|vm_compute; reflexivity|exact E]. }
  assert (abs s = [Out 0 0; Waiting wait4w WLock true; Waiting wait4r RLock false]) as Ha
    by (vm_compute in E; injection E as <-; vm_compute; reflexivity).
  exists s. split; [exact Hr|]. split; [exact Ha|].
  destruct (rurw_no_lost_wakeup 3 s) as [H _]; [lia|exact Hr|rewrite Ha; reflexivity|rewrite Ha; reflexivity|exact H].
Defined.

(** The lock cannot be upgraded: a thread that holds it for reading and asks
    for writing finds itself among the readers and waits on [rurw_wait4u] without
    having taken the mutex, which is undefined; the same goes for a writer that
    asks for reading. This holds in every reachable state, although the lock is
    called upgradable and keeps a condition and a counter for upgrades. *)
Theorem rurw_upgrade_fails n s i r w :
  (n <= 64)%nat -> reachable n s -> abs s !! i = Some (Out r w) ->
  (0 < r -> w = 0 -> fails s i (Some WLock)) /\ (0 < w -> r = 0 -> fails s i (Some RLock)).
Proof.
  intros Hn Hr Hi. pose proof (reachable_good n s Hn Hr) as Hg. pose proof Hg as (Hwf & (H1 & H2 & _) & Hok & _).
  assert (s.(pcs) !! i = Some Idle) as Hpc.
  { rewrite abs_lookup in Hi. by destruct (pcs s !! i) as [[]|]. }
  destruct (thread_index s i) as [ix s1] eqn:Ht.
  destruct (thread_index_good s i ix s1 Hg Hpc Ht) as (_ & Ha & Hl & Hp & Hix & Hx).
  assert (forall c, acquires c = true -> (0 < r \/ 0 < w) ->
    rurw_look s.(lk) (self i) ix (acquires c) = Found (Z.to_nat ix) /\
    s.(lk).(state) !! Z.to_nat ix = Some (mkThr (self i) r w)) as Hlook.
  { intros c Hc Hpos. destruct (look_cases s i c ix s1 Hg Hpc Ht) as [([th a b] & Hown & Hf)|(Ho & _)].
    - split; [done|]. pose proof Hown as (_ & Hsl & Hth). simpl in Hth. subst th. rewrite Z.add_simpl_r, Hl in Hsl.
      rewrite Hsl. rewrite <- Ha, abs_lookup, Hp, Hpc in Hi. simpl in Hi. rewrite Hix in Hi. simpl in Hi.
      rewrite (depths_owned _ _ _ _ Hown) in Hi. simpl in Hi. by simplify_eq.
    - rewrite Hi in Ho. simplify_eq. lia. }
  split; intros Hpos Hz; subst.
  - destruct (Hlook WLock eq_refl ltac:(lia)) as [Hf Hsl]. eapply fail_found; [done..|].
    cbn [acquires negb run]. unfold rurw_w_lock, w_loop. rewrite Hsl. cbn [st_r st_w]. simpl.
    assert (existsb reads (abs s) = true) as Hrd.
    { apply existsb_true. exists i, (Out r 0). split; [done|]. simpl. by rewrite (proj2 (Z.eqb_neq r 0)) by lia. }
    rewrite H1, cnt_zero, Hrd. done.
  - destruct (Hlook RLock eq_refl ltac:(lia)) as [Hf Hsl]. eapply fail_found; [done..|].
    cbn [acquires negb run]. unfold rurw_r_lock, r_loop. rewrite Hsl. cbn [st_r st_w]. simpl.
    assert (existsb writes (abs s) = true) as Hwr.
    { apply existsb_true. exists i, (Out 0 w). split; [done|]. simpl. by rewrite (proj2 (Z.eqb_neq w 0)) by lia. }
    rewrite H2, Hwr. done.
Qed.

Lemma rurw_upgrade_fails_witness :
  exists s, reachable 1 s /\ abs s = [Out 1 0] /\ fails s 0 (Some WLock).
Proof.
  destruct (execs (sys_init 1) [(0%nat, Some RLock); (0%nat, None)]) as [s|] eqn:E; [|vm_compute in E; discriminate].
  assert (reachable 1 s) as Hr.
  { apply (execs_reachable 1 (sys_init 1) [(0%nat, Some RLock); (0%nat, None)] s);
      [constructor|vm_compute; reflexivity|exact E]. }
  assert (abs s = [Out 1 0]) as Ha by (vm_compute in E; injection E as <-; vm_compute; reflexivity).
  exists s. split; [exact Hr|]. split; [exact Ha|].
  destruct (rurw_upgrade_fails 1 s 0 1 0) as [H _]; [lia|exact Hr|rewrite Ha; reflexivity|apply H; lia].
Defined.

(** Beyond 64 threads a correctly nested use fails. The thread 64, which has no
    index, takes the first free slot, that of thread 0; thread 0 gets another one
    by the scan; thread 64 releases; thread 0 locks again for reading and now gets
    its own slot too, which clears its bit in the bitmask; it unlocks once, and at
    the second unlock it is not found in any slot. *)
Definition crowd : list (nat * option call) :=
  ((fun i => (i, Some Retreat)) <$> seq 0 64) ++
  [(64%nat, Some RLock); (64%nat, None); (0%nat, Some RLock); (0%nat, None); (64%nat, Some RUnlock);
   (0%nat, Some RLock); (0%nat, None); (0%nat, Some RUnlock)].

Theorem rurw_crowd_fails :
  exists s, execs (sys_init 65) crowd = Some s /\ fails s 0 (Some RUnlock) /\ s.(lk).(rurw_readers) = 1.
Proof.
  destruct (execs (sys_init 65) crowd) as [s|] eqn:E; [|vm_compute in E; discriminate].
  exists s. split; [reflexivity|]. vm_compute in E. injection E as <-. split; [|reflexivity].
  eapply (fail_absent _ _ RUnlock); [vm_compute; reflexivity..|]. vm_compute. reflexivity.
Qed.
