(* ===== verification/SlMalloc.v ===== *)
(** * The slab allocator (servers/slapd/sl_malloc.c)

    The stack allocator that slapd uses ([SLAP_SLAB_STACK] is 1), without the
    instrumentation of [LDAP_MEMORY_DEBUG], ASAN and Valgrind. Memory maps the
    addresses of the process to octets; words are stored in it as the machine
    does, least octet first. [ext] is the block that the C library returns when
    the slab cannot serve a request. [None] is a failed assertion or undefined
    behaviour. *)

From S2P Require Import Prelude.

Local Open Scope Z_scope.

(** ** Memory *)

Definition memory := Z -> Z.

Fixpoint load_le (n : nat) (m : memory) (a : Z) : Z :=
  match n with O => 0 | S n => m a + 256 * load_le n m (a + 1) end.

Definition load (m : memory) (a : Z) : Z := load_le 8 m a.

Definition within (a n x : Z) : bool := (a <=? x) && (x <? a + n).

Definition store (m : memory) (a w : Z) : memory :=
  fun x => if within a 8 x then (w / 2 ^ (8 * (x - a))) mod 256 else m x.

Definition memcpy (m : memory) (dst src n : Z) : memory :=
  fun x => if within dst n x then m (src + (x - dst)) else m x.

Definition memset (m : memory) (a c n : Z) : memory := fun x => if within a n x then c else m x.

(** ** The heap *)

(** [sh_last] is the first address behind the last block. *)
Record slab_heap := mkHeap { sh_base : Z; sh_last : Z; sh_end : Z }.

Definition with_last (sh : slab_heap) (p : Z) : slab_heap := mkHeap sh.(sh_base) p sh.(sh_end).

Definition Align : Z := 8.
Definition SL_FREE_MASK : Z := 2 ^ 63.
Definition SL_MAX_SIZE : Z := SL_FREE_MASK / 2.

Definition sl_align (bytes : Z) : Z := Z.land (u64 (bytes + Align - 1)) (u64 (- Align)).
Definition sl_up2block (gross : Z) : Z := sl_align (u64 (gross + 8)).

(** A block begins with its size; the highest bit says that the block in front of
    it is free. *)
Definition sl_get_free (m : memory) (block : Z) : bool := negb (Z.land (load m block) SL_FREE_MASK =? 0).
Definition sl_set_free (m : memory) (block : Z) : memory := store m block (Z.lor (load m block) SL_FREE_MASK).
Definition sl_get_size (m : memory) (block : Z) : Z := Z.land (load m block) (Z.lnot SL_FREE_MASK).
Definition sl_set_size (m : memory) (block gross : Z) : memory := store m block gross.
Definition sl_update_size (m : memory) (block gross : Z) : memory :=
  store m block (Z.lor (Z.land (load m block) SL_FREE_MASK) gross).

(** A new heap, or the old one made empty: [base] is the block that the C library
    allocates, or to which it moves the old one. *)
Definition slap_sl_mem_create (size : Z) (old : option slab_heap) (new : bool) (base : Z) : slab_heap :=
  let size := sl_align size in
  match old with
  | Some sh =>
      if negb new then sh else
      let base := if size >? u64 (sh.(sh_end) - sh.(sh_base)) then base else sh.(sh_base) in
      mkHeap base base (base + size)
  | None => mkHeap base base (base + size)
  end.

(** ** Allocating *)

(** [__slap_sl_malloc]; [None] is its null pointer. *)
Definition slab_malloc (sh : slab_heap) (m : memory) (gross : Z) : option (Z * slab_heap * memory) :=
  let sl_size := sl_up2block gross in
  if sl_size <? u64 (sh.(sh_end) - sh.(sh_last))
  then Some (sh.(sh_last) + 8, with_last sh (sh.(sh_last) + sl_size), sl_set_size m sh.(sh_last) sl_size)
  else None.

(** The pointer, the context and the memory afterwards. *)
Definition slap_sl_malloc (nett : Z) (ctx : option slab_heap) (m : memory) (ext : Z) : Z * option slab_heap * memory :=
  if nett =? 0 then (0, ctx, m) else
  match ctx with
  | Some sh =>
      if nett <? SL_MAX_SIZE then
        match slab_malloc sh m nett with
        | Some (p, sh, m) => (p, Some sh, m)
        | None => (ext, ctx, m)
        end
      else (ext, ctx, m)
  | None => (ext, ctx, m)
  end.

Definition LIM_SQRT : Z := 2 ^ 32 - 1.

Definition slap_sl_calloc (n s : Z) (ctx : option slab_heap) (m : memory) (ext : Z) : option (Z * option slab_heap * memory) :=
  if Z.lor n s =? 0 then Some (0, ctx, m) else
  bad ← (if Z.lor n s >? LIM_SQRT then if n =? 0 then None else Some ((2 ^ 64 - 1) / n >? s) else Some false);
  if bad : bool then None else
  let nett := u64 (n * s) in
  match ctx with
  | Some sh =>
      if nett <? SL_MAX_SIZE then
        match slab_malloc sh m nett with
        | Some (p, sh, m) => Some (p, Some sh, memset m p 0 nett)
        | None => Some (ext, ctx, m)
        end
      else Some (ext, ctx, m)
  | None => Some (ext, ctx, m)
  end.

(** ** Freeing *)

(** Reclaim freed blocks off the tail: the first block of those that are free. *)
Fixpoint reclaim (fuel : nat) (m : memory) (block : Z) : option Z :=
  match fuel with
  | O => None
  | S fuel => if sl_get_free m block then reclaim fuel m (block - load m (block - 8)) else Some block
  end.

Definition reclaim_fuel (sh : slab_heap) : nat := Z.to_nat (sh.(sh_last) - sh.(sh_base)).

Definition slap_sl_free (ptr : Z) (ctx : option slab_heap) (m : memory) : option (option slab_heap * memory) :=
  match ctx with
  | Some sh =>
      if (ptr =? 0) || (ptr <? sh.(sh_base)) || (ptr >=? sh.(sh_end)) then Some (ctx, m) else
      let block := ptr - 8 in
      let sl_size := sl_get_size m block in
      let next := block + sl_size in
      if negb (sh.(sh_last) =? next) then
        let m := store m (next - 8) sl_size in
        Some (ctx, sl_set_free m next)
      else
        block ← reclaim (reclaim_fuel sh) m block;
        Some (Some (with_last sh block), m)
  | None => Some (ctx, m)
  end.

(** ** Reallocating *)

(** What is not the slab's goes to the C library, whose copying is its own. *)
Definition slap_sl_realloc (ptr new_nett : Z) (ctx : option slab_heap) (m : memory) (ext : Z)
  : option (Z * option slab_heap * memory) :=
  if ptr =? 0 then Some (slap_sl_malloc new_nett ctx m ext) else
  match ctx with
  | None => Some (ext, ctx, m)
  | Some sh =>
      if (ptr <=? sh.(sh_base)) || (ptr >=? sh.(sh_end)) then Some (ext, ctx, m) else
      if new_nett =? 0 then '(ctx, m) ← slap_sl_free ptr ctx m; Some (0, ctx, m) else
      let block := ptr - 8 in
      let old_sl_size := sl_get_size m block in
      if negb (old_sl_size >? 8) then None else
      let old_nett := old_sl_size - 8 in
      let move :=
        let '(p, ctx, m) := slap_sl_malloc new_nett ctx m ext in
        if p =? 0 then Some (p, ctx, m) else
        let m := memcpy m p ptr (if old_nett <? new_nett then old_nett else new_nett) in
        '(ctx, m) ← slap_sl_free ptr ctx m; Some (p, ctx, m) in
      if new_nett <? SL_MAX_SIZE then
        let new_sl_size := sl_up2block new_nett in
        if new_sl_size <=? old_sl_size then Some (ptr, ctx, m) else
        if (block + old_sl_size =? sh.(sh_last)) && (new_sl_size <? u64 (sh.(sh_end) - block))
        then Some (ptr, Some (with_last sh (block + new_sl_size)), sl_update_size m block new_sl_size)
        else move
      else move
  end.

(** ** Marks *)

Definition slap_sl_mark (sh : slab_heap) : Z := sh.(sh_last).

Definition slap_sl_release (ptr : Z) (ctx : option slab_heap) : option slab_heap :=
  sh ← ctx;
  Some (if (ptr >=? sh.(sh_base)) && (ptr <=? sh.(sh_end)) then with_last sh ptr else sh).
