(* ===== verification/SlHeap.v ===== *)
(** * The blocks of the slab

    The slab as a row of blocks, live or free, and what the allocator's steps do to
    it: the words that the allocator keeps in memory describe the row, and the
    octets of the live blocks are the clients'. *)

From stdpp Require Import gmap.
From S2P Require Import Prelude SlMalloc.

Local Open Scope Z_scope.

(** ** Words in memory *)

Lemma within_true a n x : within a n x = true <-> a <= x < a + n.
Proof. unfold within. rewrite andb_true_iff, Z.leb_le, Z.ltb_lt. lia. Qed.

Lemma within_false a n x : within a n x = false <-> x < a \/ a + n <= x.
Proof. rewrite <- not_true_iff_false, within_true. lia. Qed.

Lemma load_le_ext n m m' : forall a, (forall x, a <= x < a + Z.of_nat n -> m x = m' x) -> load_le n m a = load_le n m' a.
Proof.
  induction n as [|n IH]; intros a H; [done|]. cbn [load_le]. rewrite H by lia. rewrite (IH (a + 1)); [done|].
  intros x Hx. apply H. lia.
Qed.

Lemma load_ext m m' a : (forall x, a <= x < a + 8 -> m x = m' x) -> load m a = load m' a.
Proof. intros H. by apply load_le_ext. Qed.

Lemma load_le_digits n m w : forall a,
  (forall k, 0 <= k < Z.of_nat n -> m (a + k) = (w / 2 ^ (8 * k)) mod 256) -> load_le n m a = w mod 2 ^ (8 * Z.of_nat n).
Proof.
  revert w. induction n as [|n IH]; intros w a H; [cbn [load_le]; by rewrite Z.mod_1_r|]. cbn [load_le].
  rewrite (IH (w / 256)).
  - pose proof (H 0 ltac:(lia)) as H0. rewrite Z.add_0_r in H0. change (2 ^ (8 * 0)) with 1 in H0. rewrite Z.div_1_r in H0. rewrite H0.
    replace (8 * Z.of_nat (S n)) with (8 + 8 * Z.of_nat n) by lia. rewrite Z.pow_add_r by lia. change (2 ^ 8) with 256.
    rewrite (Z.rem_mul_r w 256 (2 ^ (8 * Z.of_nat n))); [lia|lia|]. apply Z.pow_pos_nonneg; lia.
  - intros k Hk. replace (a + 1 + k) with (a + (k + 1)) by lia. rewrite H by lia.
    replace (8 * (k + 1)) with (8 + 8 * k) by lia. rewrite Z.pow_add_r by lia. change (2 ^ 8) with 256.
    rewrite Z.div_div; [done|lia|]. apply Z.pow_pos_nonneg; lia.
Qed.

Lemma load_store m a w : 0 <= w < 2 ^ 64 -> load (store m a w) a = w.
Proof.
  intros Hw. unfold load. rewrite (load_le_digits 8 _ w); [by apply Z.mod_small|].
  intros k Hk. unfold store. rewrite (proj2 (within_true a 8 (a + k))) by lia. by replace (a + k - a) with k by lia.
Qed.

Lemma store_other m a w x : x < a \/ a + 8 <= x -> store m a w x = m x.
Proof. intros H. unfold store. by rewrite (proj2 (within_false a 8 x)). Qed.

Lemma load_store_other m a w b : b + 8 <= a \/ a + 8 <= b -> load (store m a w) b = load m b.
Proof. intros H. apply load_ext. intros x Hx. apply store_other. lia. Qed.

(** ** The bits of a head *)

Definition flag (f : bool) : Z := if f then SL_FREE_MASK else 0.

Lemma head_bit n f i : 0 <= n < 2 ^ 63 -> 0 <= i -> Z.testbit (n + flag f) i = if i =? 63 then f else Z.testbit n i.
Proof.
  intros Hn Hi. assert (n + flag f = Z.lor (Z.shiftl (Z.b2z f) 63) n) as ->.
  { rewrite lor_shiftl_low by lia. unfold flag, SL_FREE_MASK. destruct f; cbn [Z.b2z]; lia. }
  rewrite Z.lor_spec, Z.shiftl_spec by lia. destruct (i =? 63) eqn:E; zb.
  - subst i. rewrite <- (Z.mod_small n (2 ^ 63)) by lia. rewrite Z.mod_pow2_bits_high by lia. rewrite orb_false_r. by destruct f.
  - assert (Z.testbit (Z.b2z f) (i - 63) = false) as ->; [|done].
    destruct (Z.lt_ge_cases i 63); [by apply Z.testbit_neg_r; lia|]. destruct f; [|apply Z.bits_0].
    change (Z.b2z true) with (2 ^ 0). apply Z.pow2_bits_false. lia.
Qed.

Lemma mask_bit i : 0 <= i -> Z.testbit SL_FREE_MASK i = (i =? 63).
Proof. intros Hi. pose proof (head_bit 0 true i ltac:(lia) Hi) as H. cbn [flag] in H. rewrite Z.add_0_l in H. rewrite H, Z.bits_0. by destruct (i =? 63). Qed.

Lemma high_bit n : 0 <= n < 2 ^ 63 -> Z.testbit n 63 = false.
Proof. intros Hn. rewrite <- (Z.mod_small n (2 ^ 63)) by lia. apply Z.mod_pow2_bits_high. lia. Qed.

Lemma head_free n f : 0 <= n < 2 ^ 63 -> Z.land (n + flag f) SL_FREE_MASK = flag f.
Proof.
  intros Hn. apply Z.bits_inj'. intros i Hi. rewrite Z.land_spec, head_bit, mask_bit by done.
  pose proof (head_bit 0 f i ltac:(lia) Hi) as H. rewrite Z.add_0_l in H. rewrite H, Z.bits_0.
  destruct (i =? 63); [by rewrite andb_true_r|by rewrite andb_false_r].
Qed.

Lemma head_set_free n f : 0 <= n < 2 ^ 63 -> Z.lor (n + flag f) SL_FREE_MASK = n + flag true.
Proof.
  intros Hn. apply Z.bits_inj'. intros i Hi. rewrite Z.lor_spec, !head_bit, mask_bit by done.
  destruct (i =? 63); [by rewrite orb_true_r|by rewrite orb_false_r].
Qed.

Lemma head_size n f : 0 <= n < 2 ^ 63 -> Z.land (n + flag f) (Z.lnot SL_FREE_MASK) = n.
Proof.
  intros Hn. apply Z.bits_inj'. intros i Hi. rewrite Z.land_spec, Z.lnot_spec, head_bit, mask_bit by done.
  destruct (i =? 63) eqn:E; zb; [|by rewrite andb_true_r]. subst i. rewrite high_bit by done. by destruct f.
Qed.

Lemma head_update n f : 0 <= n < 2 ^ 63 -> Z.lor (flag f) n = n + flag f.
Proof.
  intros Hn. apply Z.bits_inj'. intros i Hi. rewrite Z.lor_spec, head_bit by done.
  pose proof (head_bit 0 f i ltac:(lia) Hi) as H. rewrite Z.add_0_l in H. rewrite H, Z.bits_0.
  destruct (i =? 63) eqn:E; zb; [|done]. subst i. rewrite high_bit by done. apply orb_false_r.
Qed.

Lemma head_range n f : 0 <= n < 2 ^ 63 -> 0 <= n + flag f < 2 ^ 64.
Proof. unfold flag, SL_FREE_MASK. destruct f; lia. Qed.

(** ** Sizes *)

Lemma align_down x : 0 <= x < 2 ^ 64 -> Z.land x (u64 (- Align)) = 8 * (x / 8).
Proof. apply land_align8. Qed.

(** The size of a block for [g] octets. *)
Lemma up2block_spec g : 0 <= g < SL_MAX_SIZE -> sl_up2block g mod 8 = 0 /\ g + 8 <= sl_up2block g < g + 16.
Proof.
  unfold SL_MAX_SIZE, SL_FREE_MASK. intros Hg. change (2 ^ 63 / 2) with (2 ^ 62) in Hg.
  assert (sl_up2block g = 8 * ((g + 8 + 8 - 1) / 8)) as ->.
  { unfold sl_up2block, sl_align. rewrite (uwrap_small 64 (g + 8)) by lia. change (g + 8 + Align - 1) with (g + 8 + 8 - 1).
    rewrite uwrap_small by lia. apply align_down. lia. }
  pose proof (Z.div_mod (g + 8 + 8 - 1) 8 ltac:(lia)). pose proof (Z.mod_pos_bound (g + 8 + 8 - 1) 8 ltac:(lia)).
  split; [|lia]. rewrite Z.mul_comm. apply Z_mod_mult.
Qed.

(** ** The row of blocks *)

(** A block: its size, and how many octets the client asked for when it is live. *)
Abbreviation block := (Z * option Z)%type.

Definition is_free (b : block) : bool := match b.2 with Some _ => false | None => true end.

Definition total (bl : list block) : Z := fold_right (fun b n => b.1 + n) 0 bl.

(** The blocks [bl] fill the memory from [p] to [q]; [f] is that the block in front
    of [p] is free, [g] the same of [q]. *)
Fixpoint segs (m : memory) (p : Z) (f : bool) (bl : list block) (q : Z) (g : bool) : Prop :=
  match bl with
  | [] => p = q /\ f = g
  | (n, k) :: bl =>
      16 <= n < 2 ^ 63 /\ load m p = n + flag f /\
      match k with Some k => 0 < k <= n - 8 | None => load m (p + n - 8) = n end /\
      segs m (p + n) (is_free (n, k)) bl q g
  end.

(** The addresses that are the allocator's: heads and free blocks. *)
Fixpoint owned (p : Z) (bl : list block) (x : Z) : Prop :=
  match bl with
  | [] => False
  | (n, k) :: bl => p <= x < p + 8 \/ (k = None /\ p <= x < p + n) \/ owned (p + n) bl x
  end.

Lemma total_app b1 b2 : total (b1 ++ b2) = total b1 + total b2.
Proof. induction b1 as [|b b1 IH]; [done|]. cbn. fold (total (b1 ++ b2)). fold (total b1). lia. Qed.

Lemma segs_app m b1 b2 : forall p f q g,
  segs m p f (b1 ++ b2) q g <-> exists r h, segs m p f b1 r h /\ segs m r h b2 q g.
Proof.
  induction b1 as [|[n k] b1 IH]; intros p f q g; cbn [app segs].
  - split; [intros H; by exists p, f|]. by intros (r & h & [-> ->] & H).
  - split.
    + intros (H1 & H2 & H3 & H4). apply IH in H4 as (r & h & H4 & H5). by exists r, h.
    + intros (r & h & (H1 & H2 & H3 & H4) & H5). split_and!; [lia|lia|done|done|]. apply IH. by exists r, h.
Qed.

Lemma segs_total m bl : forall p f q g, segs m p f bl q g -> q = p + total bl /\ 16 * Z.of_nat (length bl) <= total bl.
Proof.
  induction bl as [|[n k] bl IH]; intros p f q g; cbn [segs total fold_right length fst].
  - intros [-> _]. cbn. lia.
  - intros (H1 & _ & _ & H). apply IH in H as [-> H]. unfold total in *. lia.
Qed.

Lemma segs_ext m m' bl : forall p f q g,
  segs m p f bl q g -> (forall x, owned p bl x -> m x = m' x) -> segs m' p f bl q g.
Proof.
  induction bl as [|[n k] bl IH]; intros p f q g; [done|]. cbn [segs owned]. intros (H1 & H2 & H3 & H4) H. split_and!; [lia|lia| | |].
  - rewrite <- H2. symmetry. apply load_ext. intros x Hx. apply H. by left.
  - destruct k; [done|]. rewrite <- H3 at 2. symmetry. apply load_ext. intros x Hx. apply H. right. left. split; [done|lia].
  - apply IH; [done|]. intros x Hx. apply H. by do 2 right.
Qed.

Lemma owned_range m bl : forall p f q g x, segs m p f bl q g -> owned p bl x -> p <= x < q.
Proof.
  induction bl as [|[n k] bl IH]; intros p f q g x; cbn [segs owned]; [done|]. intros (H1 & _ & _ & H).
  pose proof (segs_total _ _ _ _ _ _ H) as [? ?]. intros [Hx|[[_ Hx]|Hx]]; [lia|lia|]. pose proof (IH _ _ _ _ _ H Hx). lia.
Qed.

Lemma owned_app b1 b2 x : forall p, owned p (b1 ++ b2) x <-> owned p b1 x \/ owned (p + total b1) b2 x.
Proof.
  induction b1 as [|[n k] b1 IH]; intros p; cbn [app owned total fold_right fst].
  - rewrite Z.add_0_r. tauto.
  - rewrite IH. fold (total b1). replace (p + n + total b1) with (p + (n + total b1)) by lia. tauto.
Qed.

(** ** The buffers of the clients *)

Definition read (m : memory) (a k : Z) : list Z := (fun i => m (a + Z.of_nat i)) <$> seq 0 (Z.to_nat k).

Fixpoint buffers (m : memory) (p : Z) (bl : list block) : gmap Z (list Z) :=
  match bl with
  | [] => ∅
  | (n, Some k) :: bl => <[p + 8 := read m (p + 8) k]> (buffers m (p + n) bl)
  | (n, None) :: bl => buffers m (p + n) bl
  end.

Lemma length_read m a k : 0 <= k -> Z.of_nat (length (read m a k)) = k.
Proof. intros Hk. unfold read. rewrite length_fmap, length_seq. lia. Qed.

Lemma read_lookup m a k i : (i < Z.to_nat k)%nat -> read m a k !! i = Some (m (a + Z.of_nat i)).
Proof. intros Hi. unfold read. rewrite list_lookup_fmap, lookup_seq_lt by done. done. Qed.

Lemma read_ext m m' a k : (forall x, a <= x < a + k -> m x = m' x) -> read m a k = read m' a k.
Proof.
  intros H. unfold read. apply list_fmap_ext. intros i y [-> Hi]%lookup_seq. apply H. lia.
Qed.

Lemma read_take m a k j : 0 <= j <= k -> take (Z.to_nat j) (read m a k) = read m a j.
Proof.
  intros Hj. unfold read. rewrite <- fmap_take. f_equal. replace (seq 0 (Z.to_nat k)) with (seq 0 (Z.to_nat j) ++ seq (Z.to_nat j) (Z.to_nat k - Z.to_nat j)).
  - rewrite take_app_le by (rewrite length_seq; lia). apply take_ge. rewrite length_seq. lia.
  - rewrite <- seq_app. f_equal. lia.
Qed.

(** The buffers in memory that differs only where no client can read. *)
Lemma buffers_ext m m' bl : forall p f q g,
  segs m p f bl q g -> (forall x, p <= x < q -> ~ owned p bl x -> m x = m' x) -> buffers m p bl = buffers m' p bl.
Proof.
  induction bl as [|[n k] bl IH]; intros p f q g; [done|]. cbn [segs]. intros (H1 & H2 & H3 & H4) H.
  pose proof (segs_total _ _ _ _ _ _ H4) as [Hq Hlen].
  assert (buffers m (p + n) bl = buffers m' (p + n) bl) as Hbl.
  { apply (IH _ _ _ _ H4). intros x Hx Ho. apply H; [lia|]. cbn [owned]. intros [Hc|[[_ Hc]|Hc]]; [lia|lia|done]. }
  destruct k as [k|]; cbn [buffers]; [|done]. rewrite Hbl. f_equal. apply read_ext. intros x Hx. apply H; [lia|].
  cbn [owned]. intros [Hc|[[Hc _]|Hc]]; [lia|done|]. pose proof (owned_range _ _ _ _ _ _ _ H4 Hc). lia.
Qed.

(** A buffer lies between the heads. *)
Lemma buffers_range m bl : forall p f q g x buf,
  segs m p f bl q g -> buffers m p bl !! x = Some buf -> p + 8 <= x /\ x + Z.of_nat (length buf) <= q /\ 0 < Z.of_nat (length buf).
Proof.
  induction bl as [|[n k] bl IH]; intros p f q g x buf; [done|]. cbn [segs]. intros (H1 & H2 & H3 & H4).
  pose proof (segs_total _ _ _ _ _ _ H4) as [Hq Hlen].
  destruct k as [k|]; cbn [buffers]; [|intros Hx; pose proof (IH _ _ _ _ _ _ H4 Hx); lia].
  intros [[<- <-]|[_ Hx]]%lookup_insert_Some; [rewrite length_read by lia; lia|].
  pose proof (IH _ _ _ _ _ _ H4 Hx). lia.
Qed.

Lemma buffers_app m b1 b2 : forall p, buffers m p (b1 ++ b2) = buffers m p b1 ∪ buffers m (p + total b1) b2.
Proof.
  induction b1 as [|[n k] b1 IH]; intros p; cbn [app buffers total fold_right fst].
  - by rewrite Z.add_0_r, map_empty_union.
  - rewrite IH. fold (total b1). replace (p + n + total b1) with (p + (n + total b1)) by lia.
    destruct k; [by rewrite insert_union_l|done].
Qed.

(** The block of a buffer. *)
Lemma buffers_split m bl : forall p f q g x buf,
  segs m p f bl q g -> buffers m p bl !! x = Some buf ->
  exists b1 n k b2, bl = b1 ++ (n, Some k) :: b2 /\ x = p + total b1 + 8 /\ buf = read m x k.
Proof.
  induction bl as [|[n k] bl IH]; intros p f q g x buf; [done|]. cbn [segs]. intros (H1 & H2 & H3 & H4) Hx.
  assert ((exists k', k = Some k' /\ x = p + 8 /\ buf = read m x k') \/ buffers m (p + n) bl !! x = Some buf) as [(k' & -> & -> & ->)|Hx'].
  { destruct k as [k|]; cbn [buffers] in Hx; [|by right]. apply lookup_insert_Some in Hx as [[<- <-]|[_ Hx]]; [left|by right].
    by exists k. }
  - exists [], n, k', bl. split_and!; [done|cbn; lia|done].
  - destruct (IH _ _ _ _ _ _ H4 Hx') as (b1 & n' & k' & b2 & -> & -> & ->). exists ((n, k) :: b1), n', k', b2.
    split_and!; [done| |done]. cbn. fold (total b1). lia.
Qed.

Lemma buffers_free m b1 b2 : Forall (fun b => b.2 = None) b2 -> forall p, buffers m p (b1 ++ b2) = buffers m p b1.
Proof.
  intros H p. rewrite buffers_app. assert (forall r, buffers m r b2 = ∅) as ->; [|by rewrite map_union_empty].
  induction H as [|[n k] b2 Hk H IH]; intros r; [done|]. cbn in Hk. subst k. cbn [buffers]. apply IH.
Qed.
