(* ===== verification/SlTheorems.v ===== *)
(** * The slab allocator keeps the clients' data

    A heap refines a finite map from pointers to the octets of the clients. *)

From stdpp Require Import gmap.
From S2P Require Import Prelude SlMalloc SlHeap.

Local Open Scope Z_scope.

(** ** The invariant of a heap *)

Record heap_ok (sh : slab_heap) (m : memory) (bl : list block) : Prop := mkOk {
  ho_base : 0 < sh.(sh_base) /\ sh.(sh_base) mod 8 = 0;
  ho_end : sh.(sh_last) <= sh.(sh_end) < 2 ^ 63;
  ho_segs : segs m sh.(sh_base) false bl sh.(sh_last) false;
  ho_align : Forall (fun b => b.1 mod 8 = 0) bl }.

(** The heap holds the buffers [s]. *)
Definition holds (sh : slab_heap) (m : memory) (s : gmap Z (list Z)) : Prop :=
  exists bl, heap_ok sh m bl /\ s = buffers m sh.(sh_base) bl.

Lemma total_align bl : Forall (fun b => b.1 mod 8 = 0) bl -> total bl mod 8 = 0.
Proof.
  induction 1 as [|[n k] bl Hn H IH]; [done|]. cbn [total fold_right fst] in *. fold (total bl).
  rewrite Zplus_mod, Hn, IH. done.
Qed.

Lemma segs_app_2 m b1 b2 p f r h q g : segs m p f b1 r h -> segs m r h b2 q g -> segs m p f (b1 ++ b2) q g.
Proof. intros H1 H2. apply segs_app. by exists r, h. Qed.

(** The allocator writes behind [r]: the blocks in front of it stay. *)
Lemma segs_front m m' p f bl r h : segs m p f bl r h -> (forall x, x < r -> m' x = m x) -> segs m' p f bl r h.
Proof.
  intros H Hm. apply (segs_ext m); [done|]. intros x Hx. symmetry. apply Hm.
  pose proof (owned_range _ _ _ _ _ _ _ H Hx). lia.
Qed.

Lemma segs_back m m' p f bl q g : segs m p f bl q g -> (forall x, p <= x -> m' x = m x) -> segs m' p f bl q g.
Proof.
  intros H Hm. apply (segs_ext m); [done|]. intros x Hx. symmetry. apply Hm.
  pose proof (owned_range _ _ _ _ _ _ _ H Hx). lia.
Qed.

(** ** Freeing *)

Lemma buffers_delete m b1 n k b2 p f q g :
  segs m p f (b1 ++ (n, Some k) :: b2) q g ->
  delete (p + total b1 + 8) (buffers m p (b1 ++ (n, Some k) :: b2)) = buffers m p (b1 ++ (n, None) :: b2).
Proof.
  intros H. apply segs_app in H as (r & h & H1 & H2). pose proof (segs_total _ _ _ _ _ _ H1) as [-> Hl1]. cbn [segs] in H2.
  destruct H2 as (Hn & _ & _ & H2). rewrite !buffers_app. cbn [buffers]. rewrite delete_union.
  rewrite (delete_id (buffers m p b1)).
  - f_equal. rewrite delete_insert_id; [done|]. destruct (buffers _ _ b2 !! _) as [buf|] eqn:E; [|done].
    pose proof (buffers_range _ _ _ _ _ _ _ _ H2 E). lia.
  - destruct (buffers m p b1 !! _) as [buf|] eqn:E; [|done]. pose proof (buffers_range _ _ _ _ _ _ _ _ H1 E). lia.
Qed.

(** Going back over the freed blocks. *)
Lemma reclaim_spec m base bl : forall p f w fuel,
  segs m base false bl p f -> 0 <= w < 2 ^ 63 -> load m p = w + flag f -> (length bl < fuel)%nat ->
  exists b1 b2 q, bl = b1 ++ b2 /\ Forall (fun b => b.2 = None) b2 /\ reclaim fuel m p = Some q /\ segs m base false b1 q false.
Proof.
  induction bl as [|[n k] bl IH] using rev_ind; intros p f w fuel H Hw Hp Hfuel; (destruct fuel as [|fuel]; [cbn in Hfuel; lia|]);
    cbn [reclaim]; unfold sl_get_free; rewrite Hp, head_free by done.
  - cbn [segs] in H. destruct H as [<- <-]. exists [], [], base. by split_and!.
  - apply segs_app in H as (r & h & H1 & H2). cbn [segs] in H2. destruct H2 as (Hn & Hr & Hk & <- & <-).
    destruct k as [k|]; cbn [is_free snd flag].
    + exists (bl ++ [(n, Some k)]), [], (r + n). rewrite app_nil_r. split_and!; [done..|].
      eapply segs_app_2; [exact H1|]. cbn [segs]. split_and!; done || lia.
    + replace (r + n - load m (r + n - 8)) with r by lia. rewrite length_app in Hfuel. cbn in Hfuel.
      destruct (IH r h n fuel H1 ltac:(lia) Hr ltac:(lia)) as (b1 & b2 & q & -> & Hb2 & Hq & Hs).
      exists b1, (b2 ++ [(n, None)]), q. split_and!; [by rewrite app_assoc| |by unfold SL_FREE_MASK|done].
      apply list.Forall_app. split; [done|]. by constructor.
Qed.

(** Marking a block free: its size goes to its end, the next head tells it. *)
Lemma mark_free m p b1 n k b2 r h q :
  segs m p false b1 r h -> segs m r h ((n, Some k) :: b2) q false -> b2 <> [] ->
  let m' := sl_set_free (store m (r + n - 8) n) (r + n) in
  segs m' p false (b1 ++ (n, None) :: b2) q false /\ buffers m' p (b1 ++ (n, None) :: b2) = buffers m p (b1 ++ (n, None) :: b2) /\
  forall x, x < r \/ q <= x -> m' x = m x.
Proof.
  intros H1 H2 Hne m'. pose proof (segs_total _ _ _ _ _ _ H1) as [Hr Hl1].
  destruct b2 as [|[n2 k2] b2]; [done|]. cbn [segs is_free snd] in H2. destruct H2 as (Hn & Hload & Hk & Hn2 & Hload2 & Hk2 & H2).
  pose proof (segs_total _ _ _ _ _ _ H2) as [Hq Hl2]. cbn [flag] in Hload2. rewrite Z.add_0_r in Hload2.
  set (m1 := store m (r + n - 8) n).
  assert (load m1 (r + n) = n2 + flag false) as Hm1 by (unfold m1; rewrite load_store_other by lia; change (flag false) with 0; lia).
  assert (forall x, x < r + n - 8 \/ r + n + 8 <= x -> m' x = m x) as Hout.
  { intros x Hx. unfold m', sl_set_free. fold m1. rewrite store_other by lia. unfold m1. apply store_other. lia. }
  assert (segs m' p false b1 r h) as H1' by (apply (segs_front m); [done|]; intros x Hx; apply Hout; lia).
  assert (load m' (r + n) = n2 + flag true) as Hhead.
  { unfold m', sl_set_free. fold m1. rewrite Hm1, head_set_free by lia. apply load_store. apply head_range. lia. }
  assert (segs m' p false (b1 ++ (n, None) :: (n2, k2) :: b2) q false) as Hsegs.
  { eapply segs_app_2; [exact H1'|]. cbn [segs is_free snd]. split_and!; [lia|lia| | |lia|lia|exact Hhead| |].
    - rewrite <- Hload. apply load_ext. intros x Hx. apply Hout. lia.
    - unfold m', sl_set_free. rewrite load_store_other by lia. apply load_store. lia.
    - destruct k2 as [k2|]; [done|]. rewrite <- Hk2 at 2. apply load_ext. intros x Hx. apply Hout. lia.
    - apply (segs_back m); [done|]. intros x Hx. apply Hout. lia. }
  split; [done|]. split; [|intros x Hx; apply Hout; lia].
  apply (buffers_ext _ _ _ _ _ _ _ Hsegs). intros x Hx Ho. apply Hout.
  destruct (decide (r + n - 8 <= x < r + n + 8)) as [Hc|Hc]; [|lia]. destruct Ho. apply owned_app. right.
  rewrite <- Hr. cbn [owned]. destruct (decide (x < r + n)); [right; left; split; [done|lia]|right; right; left; lia].
Qed.

Lemma Forall_block b1 n (k k' : option Z) b2 :
  Forall (fun b : block => b.1 mod 8 = 0) (b1 ++ (n, k) :: b2) -> Forall (fun b : block => b.1 mod 8 = 0) (b1 ++ (n, k') :: b2).
Proof. rewrite !list.Forall_app, !list.Forall_cons. tauto. Qed.

(** What freeing a block does. *)
Lemma free_block sh m b1 n k b2 :
  heap_ok sh m (b1 ++ (n, Some k) :: b2) ->
  exists sh' m' bl, slap_sl_free (sh.(sh_base) + total b1 + 8) (Some sh) m = Some (Some sh', m') /\
    heap_ok sh' m' bl /\ sh'.(sh_base) = sh.(sh_base) /\ sh'.(sh_end) = sh.(sh_end) /\
    buffers m' sh.(sh_base) bl = delete (sh.(sh_base) + total b1 + 8) (buffers m sh.(sh_base) (b1 ++ (n, Some k) :: b2)) /\
    forall x, x < sh.(sh_base) \/ sh.(sh_end) <= x -> m' x = m x.
Proof.
  intros Hok. pose proof Hok as [Hbase Hend Hsegs Hal]. rewrite (buffers_delete m b1 n k b2 _ _ _ _ Hsegs).
  apply segs_app in Hsegs as (r & h & H1 & H2). pose proof (segs_total _ _ _ _ _ _ H1) as [Hr Hl1]. pose proof H2 as Hback.
  cbn [segs] in H2. destruct H2 as (Hn & Hload & Hk & H2). pose proof (segs_total _ _ _ _ _ _ H2) as [Hlast Hl2].
  unfold slap_sl_free. rewrite <- Hr. replace (r + 8 - 8) with r by lia.
  rewrite (proj2 (Z.eqb_neq (r + 8) 0)), (proj2 (Z.ltb_ge (r + 8) _)), Z.geb_leb, (proj2 (Z.leb_gt _ _)) by lia. cbn [orb].
  unfold sl_get_size. rewrite Hload, head_size by lia. destruct (decide (b2 = [])) as [->|Hne].
  - cbn [total fold_right] in Hlast. rewrite (proj2 (Z.eqb_eq _ _)) by lia. cbn [negb].
    destruct (reclaim_spec m sh.(sh_base) b1 r h n (reclaim_fuel sh) H1 ltac:(lia) Hload) as (c1 & c2 & q & -> & Hc2 & -> & Hq).
    { unfold reclaim_fuel. lia. }
    pose proof (segs_total _ _ _ _ _ _ Hq) as [Hqt Hlq]. rewrite total_app in *.
    cbn [mbind option_bind]. eexists (with_last sh q), m, c1. split; [done|]. apply list.Forall_app in Hal as [Hal _].
    apply list.Forall_app in Hal as [Hal _].
    assert (0 <= total c2).
    { clear -H1. apply segs_app in H1 as (r' & h' & _ & H1). pose proof (segs_total _ _ _ _ _ _ H1). lia. }
    split; [split; cbn; (done || lia)|]. split_and!; [done|done| |done].
    rewrite <- app_assoc. rewrite (buffers_free m c1 (c2 ++ [(n, None)])); [done|]. apply list.Forall_app. split; [done|by constructor].
  - assert (16 <= total b2) by (destruct b2; [done|cbn [length] in Hl2; lia]).
    rewrite (proj2 (Z.eqb_neq _ _)) by lia. cbn [negb].
    destruct (mark_free m sh.(sh_base) b1 n k b2 r h sh.(sh_last) H1 Hback Hne) as (Hs & Hb & Hout).
    eexists sh, _, (b1 ++ (n, None) :: b2). split; [done|]. split; [split; try done; by eapply Forall_block|].
    split_and!; [done|done|exact Hb|]. intros x Hx. apply Hout. lia.
Qed.

(** ** Allocating *)

(** The buffers of a row in which one block is live. *)
Lemma buffers_insert m p f b1 n k b2 q g :
  segs m p f (b1 ++ (n, Some k) :: b2) q g ->
  buffers m p (b1 ++ (n, Some k) :: b2) =
  <[p + total b1 + 8 := read m (p + total b1 + 8) k]> (buffers m p (b1 ++ (n, None) :: b2)).
Proof.
  intros H. apply segs_app in H as (r & h & H1 & H2). pose proof (segs_total _ _ _ _ _ _ H1) as [-> _].
  rewrite !buffers_app. cbn [buffers]. rewrite insert_union_r; [done|].
  destruct (buffers m p b1 !! _) as [buf|] eqn:E; [|done]. pose proof (buffers_range _ _ _ _ _ _ _ _ H1 E). lia.
Qed.

(** The other buffers lie in front of a block or behind it. *)
Lemma others_apart m p f b1 n k b2 q g x buf :
  segs m p f (b1 ++ (n, k) :: b2) q g -> buffers m p (b1 ++ (n, None) :: b2) !! x = Some buf ->
  x + Z.of_nat (length buf) <= p + total b1 \/ p + total b1 + n <= x.
Proof.
  intros H Hx. apply segs_app in H as (r & h & H1 & H2). pose proof (segs_total _ _ _ _ _ _ H1) as [-> _].
  cbn [segs] in H2. destruct H2 as (_ & _ & _ & H2). rewrite buffers_app in Hx. cbn [buffers] in Hx.
  apply lookup_union_Some_raw in Hx as [Hx|[_ Hx]].
  - pose proof (buffers_range _ _ _ _ _ _ _ _ H1 Hx). lia.
  - pose proof (buffers_range _ _ _ _ _ _ _ _ H2 Hx). lia.
Qed.

(** What the allocation of a block does, when there is room for it. *)
Lemma alloc_block sh m bl nett p sh' m' :
  heap_ok sh m bl -> 0 < nett < SL_MAX_SIZE -> slab_malloc sh m nett = Some (p, sh', m') ->
  exists n, heap_ok sh' m' (bl ++ [(n, Some nett)]) /\ sh'.(sh_base) = sh.(sh_base) /\ sh'.(sh_end) = sh.(sh_end) /\
    p = sh.(sh_last) + 8 /\ p + nett <= sh.(sh_end) /\
    buffers m' sh.(sh_base) (bl ++ [(n, Some nett)]) = <[p := read m' p nett]> (buffers m sh.(sh_base) bl) /\
    forall x, x < sh.(sh_last) \/ p <= x -> m' x = m x.
Proof.
  intros Hok Hnett. pose proof Hok as [Hbase Hend Hsegs Hal]. pose proof (segs_total _ _ _ _ _ _ Hsegs) as [Hlast Hlen].
  unfold slab_malloc. destruct (up2block_spec nett ltac:(lia)) as [Hmod Hsz]. generalize dependent (sl_up2block nett). intros n Hmod Hsz.
  rewrite uwrap_small by lia. destruct (n <? _) eqn:E; [|done]. zb. intros [= <- <- <-].
  unfold SL_MAX_SIZE, SL_FREE_MASK in Hnett. change (2 ^ 63 / 2) with (2 ^ 62) in Hnett.
  assert (16 <= n) by (pose proof (Z.div_mod n 8 ltac:(lia)); lia).
  assert (forall x, x < sh_last sh \/ sh_last sh + 8 <= x -> store m (sh_last sh) n x = m x) as Hout
    by (intros x Hx; apply store_other; lia).
  assert (segs (store m (sh_last sh) n) (sh_base sh) false bl (sh_last sh) false) as Hfront
    by (apply (segs_front m); [done|]; intros x Hx; apply Hout; lia).
  assert (segs (store m (sh_last sh) n) (sh_base sh) false (bl ++ [(n, Some nett)]) (sh_last sh + n) false) as Hnew.
  { eapply segs_app_2; [exact Hfront|]. cbn [segs]. split_and!; [lia|lia| |lia|lia|done|done].
    rewrite load_store by lia. change (flag false) with 0. lia. }
  exists n. unfold sl_set_size. split.
  { split; cbn [with_last sh_base sh_last sh_end]; [lia|lia|done|]. apply list.Forall_app. split; [done|]. by constructor. }
  split_and!; [done|done|done|lia| |done].
  rewrite (buffers_insert _ _ _ _ _ _ _ _ _ Hnew), <- Hlast. f_equal. rewrite buffers_free by (by constructor).
  apply (buffers_ext _ _ _ _ _ _ _ Hfront). intros x Hx _. apply Hout. lia.
Qed.

(** The last block grows in place. *)
Lemma grow_block sh m b1 n k new sz :
  heap_ok sh m (b1 ++ [(n, Some k)]) -> n <= sz < 2 ^ 63 -> sz mod 8 = 0 -> 0 < new <= sz - 8 ->
  sh.(sh_base) + total b1 + sz <= sh.(sh_end) ->
  let r := sh.(sh_base) + total b1 in let m' := sl_update_size m r sz in
  heap_ok (with_last sh (r + sz)) m' (b1 ++ [(sz, Some new)]) /\
  buffers m' sh.(sh_base) (b1 ++ [(sz, Some new)]) =
    <[r + 8 := read m (r + 8) new]> (buffers m sh.(sh_base) (b1 ++ [(n, None)])) /\
  forall x, x < r \/ r + 8 <= x -> m' x = m x.
Proof.
  intros Hok Hsz Hmod Hnew Hroom r m'. pose proof Hok as [Hbase Hend Hsegs Hal].
  apply segs_app in Hsegs as (r' & h & H1 & H2). pose proof (segs_total _ _ _ _ _ _ H1) as [Hr' Hl1]. fold r in Hr'. subst r'.
  cbn [segs] in H2. destruct H2 as (Hn & Hload & Hk & Hlast & _).
  assert (m' = store m r (sz + flag h)) as ->.
  { unfold m', sl_update_size. by rewrite Hload, head_free, head_update by lia. }
  assert (forall x, x < r \/ r + 8 <= x -> store m r (sz + flag h) x = m x) as Hout by (intros x Hx; apply store_other; lia).
  assert (segs (store m r (sz + flag h)) (sh_base sh) false b1 r h) as Hfront
    by (apply (segs_front m); [done|]; intros x Hx; apply Hout; lia).
  assert (segs (store m r (sz + flag h)) (sh_base sh) false (b1 ++ [(sz, Some new)]) (r + sz) false) as Hsegs.
  { eapply segs_app_2; [exact Hfront|]. cbn [segs]. split_and!; [lia|lia| |lia|lia|done|done]. apply load_store, head_range. lia. }
  split_and!; [|rewrite (buffers_insert _ _ _ _ _ _ _ _ _ Hsegs); fold r|done].
  - split; cbn [with_last sh_base sh_last sh_end]; [lia|lia|done|]. apply list.Forall_app in Hal as [Hal _].
    apply list.Forall_app. split; [done|]. by constructor.
  - rewrite !buffers_free by (by constructor). f_equal.
    + apply read_ext. intros x Hx. apply Hout. lia.
    + apply (buffers_ext _ _ _ _ _ _ _ Hfront). intros x Hx _. apply Hout. lia.
Qed.

(** A block serves another size that it has room for. *)
Lemma resize_block sh m b1 n k new b2 :
  heap_ok sh m (b1 ++ (n, Some k) :: b2) -> 0 < new <= n - 8 -> heap_ok sh m (b1 ++ (n, Some new) :: b2).
Proof.
  intros [Hbase Hend Hsegs Hal] Hnew. split; [done|done| |by eapply Forall_block].
  apply segs_app in Hsegs as (r & h & H1 & H2). apply segs_app. exists r, h. split; [done|].
  cbn [segs] in *. destruct H2 as (Hn & Hload & Hk & H2). split_and!; done || lia.
Qed.

(** A client writes into its buffer. *)
Lemma client_block sh m m' b1 n k b2 :
  heap_ok sh m (b1 ++ (n, Some k) :: b2) ->
  let p := sh.(sh_base) + total b1 + 8 in
  (forall x, x < p \/ p + k <= x -> m' x = m x) ->
  heap_ok sh m' (b1 ++ (n, Some k) :: b2) /\
  buffers m' sh.(sh_base) (b1 ++ (n, Some k) :: b2) = <[p := read m' p k]> (buffers m sh.(sh_base) (b1 ++ (n, Some k) :: b2)).
Proof.
  intros Hok p Hout. pose proof Hok as [Hbase Hend Hsegs Hal].
  pose proof Hsegs as Hs. apply segs_app in Hs as (r & h & H1 & H2). pose proof (segs_total _ _ _ _ _ _ H1) as [Hr Hl1].
  cbn [segs] in H2. destruct H2 as (Hn & Hload & Hk & H2).
  assert (forall x, owned (sh_base sh) (b1 ++ (n, Some k) :: b2) x -> x < p \/ p + k <= x) as Hfar.
  { intros x Hx. apply owned_app in Hx as [Hx|Hx]; [pose proof (owned_range _ _ _ _ _ _ _ H1 Hx); lia|].
    cbn [owned] in Hx. destruct Hx as [Hx|[[Hx _]|Hx]]; [lia|done|]. rewrite <- Hr in Hx.
    pose proof (owned_range _ _ _ _ _ _ _ H2 Hx). lia. }
  assert (segs m' (sh_base sh) false (b1 ++ (n, Some k) :: b2) (sh_last sh) false) as Hsegs'.
  { apply (segs_ext m); [done|]. intros x Hx. symmetry. by apply Hout, Hfar. }
  split; [by split|]. rewrite (buffers_insert _ _ _ _ _ _ _ _ _ Hsegs'), (buffers_insert _ _ _ _ _ _ _ _ _ Hsegs). fold p.
  rewrite insert_insert_eq. f_equal. rewrite !buffers_app. cbn [buffers]. f_equal.
  - symmetry. apply (buffers_ext _ _ _ _ _ _ _ H1). intros x Hx _. symmetry. apply Hout. lia.
  - rewrite <- Hr. symmetry. apply (buffers_ext _ _ _ _ _ _ _ H2). intros x Hx _. symmetry. apply Hout. lia.
Qed.

Definition poke (m : memory) (a v : Z) : memory := fun x => if x =? a then v else m x.

Lemma read_poke m p k i v : 0 <= i < k -> read (poke m (p + i) v) p k = <[Z.to_nat i := v]> (read m p k).
Proof.
  intros Hi. apply list_eq. intros j. destruct (decide (j < Z.to_nat k)%nat) as [Hj|Hj].
  - rewrite read_lookup by done. unfold poke. destruct (decide (j = Z.to_nat i)) as [->|Hne].
    + rewrite list_lookup_insert_eq by (pose proof (length_read m p k); lia). by rewrite (proj2 (Z.eqb_eq _ _)) by lia.
    + rewrite list_lookup_insert_ne, read_lookup by lia. by rewrite (proj2 (Z.eqb_neq _ _)) by lia.
  - rewrite !lookup_ge_None_2; [done|rewrite length_insert|]; unfold read; rewrite length_fmap, length_seq; lia.
Qed.

(** Memory outside the slab does not matter. *)
Lemma heap_frame sh m m' bl :
  heap_ok sh m bl -> (forall x, sh.(sh_base) <= x < sh.(sh_end) -> m' x = m x) ->
  heap_ok sh m' bl /\ buffers m' sh.(sh_base) bl = buffers m sh.(sh_base) bl.
Proof.
  intros [Hbase Hend Hsegs Hal] Hm. pose proof (segs_total _ _ _ _ _ _ Hsegs) as [Hlast Hlen]. split; [split; try done|].
  - apply (segs_ext m); [done|]. intros x Hx. symmetry. apply Hm. pose proof (owned_range _ _ _ _ _ _ _ Hsegs Hx). lia.
  - symmetry. apply (buffers_ext _ _ _ _ _ _ _ Hsegs). intros x Hx _. symmetry. apply Hm. lia.
Qed.

(** ** What the clients may rely on *)

Inductive op :=
| Malloc (n : Z)
| Calloc (n s : Z)
| Realloc (p n : Z)
| Free (p : Z)
| Write (p i v : Z).

Definition run (ext : Z) (o : op) (sh : slab_heap) (m : memory) : option (Z * option slab_heap * memory) :=
  match o with
  | Malloc n => Some (slap_sl_malloc n (Some sh) m ext)
  | Calloc n s => slap_sl_calloc n s (Some sh) m ext
  | Realloc p n => slap_sl_realloc p n (Some sh) m ext
  | Free p => '(ctx, m) ← slap_sl_free p (Some sh) m; Some (0, ctx, m)
  | Write p i v => Some (0, Some sh, poke m (p + i) v)
  end.

Inductive reply := Null | Slab (p : Z) | Outside (buf : list Z).

(** A block from outside the slab has the contents that it should have. *)
Definition replied (ext : Z) (r : reply) (p : Z) (m : memory) : Prop :=
  match r with
  | Null => p = 0
  | Slab q => p = q
  | Outside buf => p = ext /\ forall i v, buf !! i = Some v -> m (ext + Z.of_nat i) = v
  end.

Section Spec.
Context (lo hi : Z).

(** A place for [n] octets, aligned and apart from all buffers. *)
Definition apart (s : gmap Z (list Z)) (p n : Z) : Prop :=
  lo < p /\ p + n <= hi /\ p mod 8 = 0 /\
  forall q b, s !! q = Some b -> q + Z.of_nat (length b) <= p \/ p + n <= q.

(** The abstract allocator. *)
Inductive spec (s : gmap Z (list Z)) : op -> reply -> gmap Z (list Z) -> Prop :=
| spec_malloc_zero : spec s (Malloc 0) Null s
| spec_malloc n p buf :
    0 < n -> apart s p n -> Z.of_nat (length buf) = n -> spec s (Malloc n) (Slab p) (<[p := buf]> s)
| spec_malloc_out n : 0 < n -> spec s (Malloc n) (Outside []) s
| spec_calloc n z p :
    apart s p (n * z) -> spec s (Calloc n z) (Slab p) (<[p := replicate (Z.to_nat (n * z)) 0]> s)
| spec_calloc_out n z : spec s (Calloc n z) (Outside []) s
| spec_realloc p n old q new :
    s !! p = Some old -> 0 < n -> apart (delete p s) q n -> Z.of_nat (length new) = n ->
    (forall i v, Z.of_nat i < n -> old !! i = Some v -> new !! i = Some v) ->
    spec s (Realloc p n) (Slab q) (<[q := new]> (delete p s))
| spec_realloc_out p n old :
    s !! p = Some old -> 0 < n -> spec s (Realloc p n) (Outside (take (Z.to_nat n) old)) (delete p s)
| spec_realloc_zero p old : s !! p = Some old -> spec s (Realloc p 0) Null (delete p s)
| spec_free p old : s !! p = Some old -> spec s (Free p) Null (delete p s)
| spec_write p i v old :
    s !! p = Some old -> 0 <= i < Z.of_nat (length old) -> spec s (Write p i v) Null (<[p := <[Z.to_nat i := v]> old]> s).
End Spec.

(** What the clients may ask: buffers that they have; for [slap_sl_calloc] factors that its
    inverted range check lets pass. *)
Definition allowed (s : gmap Z (list Z)) (o : op) : Prop :=
  match o with
  | Malloc n => 0 <= n
  | Calloc n z => 0 < n /\ 0 < z /\ Z.lor n z <= LIM_SQRT /\ n * z < SL_MAX_SIZE
  | Realloc p n => is_Some (s !! p) /\ 0 <= n
  | Free p => is_Some (s !! p)
  | Write p i _ => exists b, s !! p = Some b /\ 0 <= i < Z.of_nat (length b)
  end.

Definition asked (o : op) : Z := match o with Malloc n | Realloc _ n => n | Calloc n z => n * z | _ => 0 end.

(** The C library's block does not overlap the slab. *)
Definition ext_ok (sh : slab_heap) (ext : Z) (o : op) : Prop :=
  ext <> 0 /\ (ext + asked o <= sh.(sh_base) \/ sh.(sh_end) <= ext).

(** ** The simulation, operation by operation *)

Definition simulated (sh : slab_heap) (m : memory) (s : gmap Z (list Z)) (ext : Z) (o : op) : Prop :=
  exists p sh' m' r s', run ext o sh m = Some (p, Some sh', m') /\ replied ext r p m' /\
    spec sh.(sh_base) sh.(sh_end) s o r s' /\ holds sh' m' s' /\
    sh'.(sh_base) = sh.(sh_base) /\ sh'.(sh_end) = sh.(sh_end).

Lemma block_aligned sh b1 : sh.(sh_base) mod 8 = 0 -> Forall (fun b : block => b.1 mod 8 = 0) b1 -> (sh.(sh_base) + total b1 + 8) mod 8 = 0.
Proof.
  intros Hb H%total_align. pose proof (Z.div_mod (sh_base sh) 8 ltac:(lia)). pose proof (Z.div_mod (total b1) 8 ltac:(lia)).
  replace (sh_base sh + total b1 + 8) with ((sh_base sh / 8 + total b1 / 8 + 1) * 8) by lia. apply Z_mod_mult.
Qed.

Lemma heap_last sh m bl : heap_ok sh m bl -> sh.(sh_last) = sh.(sh_base) + total bl.
Proof. intros Hok. by destruct (segs_total _ _ _ _ _ _ (ho_segs _ _ _ Hok)). Qed.

(** A block behind the last one is apart from all buffers. *)
Lemma last_apart sh m bl n :
  heap_ok sh m bl -> sh.(sh_last) + 8 + n <= sh.(sh_end) ->
  apart sh.(sh_base) sh.(sh_end) (buffers m sh.(sh_base) bl) (sh.(sh_last) + 8) n.
Proof.
  intros Hok Hn. pose proof (heap_last _ _ _ Hok) as Hl. pose proof Hok as [[Hb Hmod] Hend Hsegs Hal].
  pose proof (segs_total _ _ _ _ _ _ Hsegs) as [_ Hlen]. split_and!; [lia|lia| |].
  - rewrite Hl. by apply block_aligned.
  - intros q b Hq. pose proof (buffers_range _ _ _ _ _ _ _ _ Hsegs Hq). lia.
Qed.

Lemma malloc_sim sh m s ext n : holds sh m s -> 0 <= n -> simulated sh m s ext (Malloc n).
Proof.
  intros (bl & Hok & ->) Hn. unfold simulated. cbn [run]. unfold slap_sl_malloc.
  destruct (n =? 0) eqn:E0; zb.
  { subst n. eexists _, _, _, Null, _. split; [done|]. split; [done|]. split; [constructor|]. split; [by exists bl|done]. }
  destruct (n <? SL_MAX_SIZE) eqn:E; zb; [destruct (slab_malloc sh m n) as [[[p sh'] m']|] eqn:Em|].
  2,3: (eexists _, _, _, (Outside []), _; split; [done|]; split; [done|]; split; [constructor; lia|]; split; [by exists bl|done]).
  destruct (alloc_block sh m bl n p sh' m' Hok ltac:(lia) Em) as (k & Hok' & Hb & He & -> & Hroom & Hbuf & _).
  eexists _, sh', m', (Slab _), _. split; [done|]. split; [done|]. split; [|split; [|done]].
  - apply spec_malloc; [lia|by apply (last_apart _ m)|apply length_read; lia].
  - exists (bl ++ [(k, Some n)]). split; [done|]. by rewrite Hb, Hbuf.
Qed.

Lemma lor_le_l a b : 0 <= a -> 0 <= b -> a <= Z.lor a b.
Proof.
  intros Ha Hb. assert (Z.lor a (Z.ldiff b a) = Z.lor a b) as <-.
  { apply Z.bits_inj'. intros i Hi. rewrite !Z.lor_spec, Z.ldiff_spec. by destruct (Z.testbit a i), (Z.testbit b i). }
  rewrite <- Z.add_nocarry_lor.
  - assert (0 <= Z.ldiff b a) by (apply Z.ldiff_nonneg; lia). lia.
  - apply Z.bits_inj'. intros i Hi. rewrite Z.land_spec, Z.ldiff_spec, Z.bits_0. by destruct (Z.testbit a i), (Z.testbit b i).
Qed.

Lemma calloc_sim sh m s ext n z :
  holds sh m s -> allowed s (Calloc n z) -> simulated sh m s ext (Calloc n z).
Proof.
  intros (bl & Hok & ->) (Hn & Hz & Hlor & Hmax). unfold simulated. cbn [run]. unfold slap_sl_calloc.
  pose proof (lor_le_l n z ltac:(lia) ltac:(lia)) as Hle.
  rewrite (proj2 (Z.eqb_neq (Z.lor n z) 0)) by lia. rewrite Z.gtb_ltb, (proj2 (Z.ltb_ge LIM_SQRT (Z.lor n z))) by lia. cbn [mbind option_bind].
  assert (0 < n * z) by nia. rewrite uwrap_small by (unfold SL_MAX_SIZE, SL_FREE_MASK in *; change (2 ^ 63 / 2) with (2 ^ 62) in *; lia).
  rewrite (proj2 (Z.ltb_lt _ _)) by lia. destruct (slab_malloc sh m (n * z)) as [[[p sh'] m']|] eqn:Em.
  2: (eexists _, _, _, (Outside []), _; split; [done|]; split; [done|]; split; [constructor|]; split; [by exists bl|done]).
  destruct (alloc_block sh m bl (n * z) p sh' m' Hok ltac:(lia) Em) as (k & Hok' & Hb & He & Hp & Hroom & Hbuf & _).
  pose proof (heap_last _ _ _ Hok) as Hl.
  destruct (client_block sh' m' (memset m' p 0 (n * z)) bl k (n * z) [] Hok') as [Hok2 Hbuf2].
  { rewrite Hb, <- Hl, <- Hp. intros x Hx. unfold memset. by rewrite (proj2 (within_false p (n * z) x)). }
  rewrite Hb, <- Hl, <- Hp, Hbuf, insert_insert_eq in Hbuf2.
  assert (read (memset m' p 0 (n * z)) p (n * z) = replicate (Z.to_nat (n * z)) 0) as Hzero.
  { unfold read. apply list_eq. intros i. rewrite list_lookup_fmap.
    destruct (decide (i < Z.to_nat (n * z))%nat).
    - rewrite lookup_seq_lt, lookup_replicate_2 by done. cbn. f_equal. unfold memset.
      by rewrite (proj2 (within_true p (n * z) _)) by lia.
    - rewrite !lookup_ge_None_2; [done|rewrite length_replicate; lia|rewrite length_seq; lia]. }
  eexists _, sh', _, (Slab p), _. split; [done|]. split; [done|]. split; [|split; [|done]].
  - apply spec_calloc. rewrite Hp. apply (last_apart _ m); [done|lia].
  - eexists. split; [exact Hok2|]. by rewrite Hb, Hbuf2, Hzero.
Qed.

(** The block of a pointer that a client has. *)
Lemma client_ptr sh m bl p buf :
  heap_ok sh m bl -> buffers m sh.(sh_base) bl !! p = Some buf ->
  exists b1 n k b2, bl = b1 ++ (n, Some k) :: b2 /\ p = sh.(sh_base) + total b1 + 8 /\ buf = read m p k /\
    0 < k <= n - 8 /\ n < 2 ^ 63 /\ load m (p - 8) = n + flag (sl_get_free m (p - 8)) /\ n mod 8 = 0 /\
    p + n - 8 <= sh.(sh_last) /\ (p + n - 8 = sh.(sh_last) <-> b2 = []).
Proof.
  intros Hok Hp. destruct (buffers_split _ _ _ _ _ _ _ _ (ho_segs _ _ _ Hok) Hp) as (b1 & n & k & b2 & -> & -> & ->).
  pose proof Hok as [_ _ Hsegs Hal]. apply segs_app in Hsegs as (r & h & H1 & H2). pose proof (segs_total _ _ _ _ _ _ H1) as [Hr _].
  cbn [segs] in H2. destruct H2 as (Hn & Hload & Hk & H2). pose proof (segs_total _ _ _ _ _ _ H2) as [Hlast Hl2].
  exists b1, n, k, b2. replace (sh_base sh + total b1 + 8 - 8) with r by lia.
  apply list.Forall_app in Hal as [_ Hal]. apply list.Forall_cons in Hal as [Hal _].
  assert (sl_get_free m r = h) as ->.
  { unfold sl_get_free. rewrite Hload, head_free by lia. by destruct h. }
  split_and!; (done || lia || idtac). destruct b2 as [|b2 bl]; [cbn in Hlast; split; [done|lia]|].
  cbn [length] in Hl2. split; [lia|done].
Qed.

Lemma free_sim sh m s ext p : holds sh m s -> is_Some (s !! p) -> simulated sh m s ext (Free p).
Proof.
  intros (bl & Hok & ->) [old Hp]. destruct (client_ptr _ _ _ _ _ Hok Hp) as (b1 & n & k & b2 & -> & Heq & Hold & _).
  destruct (free_block sh m b1 n k b2 Hok) as (sh' & m' & bl & Hrun & Hok' & Hb & He & Hbuf & _). rewrite <- Heq in *.
  unfold simulated. cbn [run]. rewrite Hrun. cbn [mbind option_bind].
  eexists _, sh', m', Null, _. split; [done|]. split; [done|]. split; [by eapply spec_free|]. split; [|done].
  exists bl. split; [done|]. by rewrite Hb, Hbuf.
Qed.

Lemma write_sim sh m s ext p i v b : holds sh m s -> s !! p = Some b -> 0 <= i < Z.of_nat (length b) -> simulated sh m s ext (Write p i v).
Proof.
  intros (bl & Hok & ->) Hp Hi. destruct (client_ptr _ _ _ _ _ Hok Hp) as (b1 & n & k & b2 & -> & Heq & -> & Hk & _).
  rewrite length_read in Hi by lia. destruct (client_block sh m (poke m (p + i) v) b1 n k b2 Hok) as [Hok' Hbuf].
  { intros x Hx. unfold poke. by rewrite (proj2 (Z.eqb_neq _ _)) by lia. }
  rewrite <- Heq, read_poke in Hbuf by done. unfold simulated. cbn [run].
  eexists _, sh, _, Null, _. split; [done|]. split; [done|]. split; [eapply spec_write; [done|by rewrite length_read by lia]|].
  split; [|done]. by eexists.
Qed.

(** *** Reallocating *)

(** The buffer of a block after the block or its size has changed. *)
Lemma prefix_kept m m' p q k new len :
  0 <= k -> 0 <= new -> k <= len \/ new <= len -> (forall x, 0 <= x < len -> x < k -> x < new -> m' (q + x) = m (p + x)) ->
  forall i v, Z.of_nat i < new -> read m p k !! i = Some v -> read m' q new !! i = Some v.
Proof.
  intros Hk Hn Hlen Hm i v Hi Hv. assert (i < Z.to_nat k)%nat as Hik.
  { apply lookup_lt_Some in Hv. pose proof (length_read m p k Hk). lia. }
  rewrite read_lookup in Hv by done. rewrite read_lookup by lia. injection Hv as <-. f_equal. apply Hm; lia.
Qed.

(** What [slap_sl_realloc] does once the pointer is known to be the slab's. *)
Definition realloc_move (new : Z) (sh : slab_heap) (m : memory) (ptr ext : Z) (old_nett : Z) : option (Z * option slab_heap * memory) :=
  let '(p, ctx, m) := slap_sl_malloc new (Some sh) m ext in
  if p =? 0 then Some (p, ctx, m) else
  let m := memcpy m p ptr (if old_nett <? new then old_nett else new) in
  '(ctx, m) ← slap_sl_free ptr ctx m; Some (p, ctx, m).

Lemma realloc_unfold sh m p n new ext :
  p <> 0 -> sh.(sh_base) < p < sh.(sh_end) -> new <> 0 -> sl_get_size m (p - 8) = n -> 8 < n ->
  run ext (Realloc p new) sh m =
  if new <? SL_MAX_SIZE then
    if sl_up2block new <=? n then Some (p, Some sh, m) else
    if (p - 8 + n =? sh.(sh_last)) && (sl_up2block new <? u64 (sh.(sh_end) - (p - 8)))
    then Some (p, Some (with_last sh (p - 8 + sl_up2block new)), sl_update_size m (p - 8) (sl_up2block new))
    else realloc_move new sh m p ext (n - 8)
  else realloc_move new sh m p ext (n - 8).
Proof.
  intros Hp Hr Hnew Hsz Hn. cbn [run]. unfold slap_sl_realloc, realloc_move.
  rewrite (proj2 (Z.eqb_neq p 0)) by done. rewrite (proj2 (Z.leb_gt p _)) by lia. rewrite Z.geb_leb, (proj2 (Z.leb_gt _ p)) by lia.
  rewrite (proj2 (Z.eqb_neq new 0)) by done. rewrite Hsz, Z.gtb_ltb, (proj2 (Z.ltb_lt 8 n)) by lia. done.
Qed.

(** Moving to a new block of the slab. *)
Lemma move_slab sh m b1 n k b2 new q sh1 m1 ext :
  let p := sh.(sh_base) + total b1 + 8 in let s := buffers m sh.(sh_base) (b1 ++ (n, Some k) :: b2) in
  heap_ok sh m (b1 ++ (n, Some k) :: b2) -> 0 < k <= n - 8 -> p + n - 8 <= sh.(sh_last) -> 0 < new < SL_MAX_SIZE ->
  slab_malloc sh m new = Some (q, sh1, m1) ->
  exists sh' m' s', realloc_move new sh m p ext (n - 8) = Some (q, Some sh', m') /\
    spec sh.(sh_base) sh.(sh_end) s (Realloc p new) (Slab q) s' /\ holds sh' m' s' /\
    sh'.(sh_base) = sh.(sh_base) /\ sh'.(sh_end) = sh.(sh_end).
Proof.
  intros p s Hok Hk Hin Hnew Hm. pose proof Hok as [[Hbase _] Hend Hsegs _]. pose proof (heap_last _ _ _ Hok) as Hl.
  pose proof (segs_total _ _ _ _ _ _ Hsegs) as [_ Htot].
  destruct (alloc_block _ _ _ _ _ _ _ Hok Hnew Hm) as (n' & Hok1 & Hb & He & Hq & Hroom & Hbuf & Hout).
  set (len := if n - 8 <? new then n - 8 else new). assert (len <= new /\ (k <= len \/ new <= len)) as [Hlen Hlen2].
  { unfold len. destruct (n - 8 <? new) eqn:E; zb; lia. }
  set (m2 := memcpy m1 q p len).
  destruct (client_block sh1 m1 m2 (b1 ++ (n, Some k) :: b2) n' new [] Hok1) as [Hok2 Hbuf2].
  { rewrite Hb, <- Hl, <- Hq. intros x Hx. unfold m2, memcpy. by rewrite (proj2 (within_false q len x)) by lia. }
  rewrite Hb, <- Hl, <- Hq, Hbuf, insert_insert_eq in Hbuf2. fold s in Hbuf2.
  assert (p + 8 <= q) by lia.
  rewrite <- app_assoc in Hok2. cbn [app] in Hok2.
  destruct (free_block sh1 m2 b1 n k (b2 ++ [(n', Some new)]) Hok2) as (sh' & m' & bl & Hfree & Hok' & Hb' & He' & Hbuf' & Hout').
  rewrite Hb in Hfree, Hbuf'. fold p in Hfree, Hbuf'. rewrite <- app_assoc in Hbuf2. cbn [app] in Hbuf2.
  rewrite Hbuf2, delete_insert_ne in Hbuf' by lia.
  eexists sh', m', _. split.
  { unfold realloc_move, slap_sl_malloc. rewrite (proj2 (Z.eqb_neq new 0)), (proj2 (Z.ltb_lt new _)), Hm by lia.
    rewrite (proj2 (Z.eqb_neq q 0)) by lia. fold len m2. by rewrite Hfree. }
  assert (s !! p = Some (read m p k)) as Hsp.
  { unfold s. rewrite (buffers_insert _ _ _ _ _ _ _ _ _ Hsegs). fold p. apply lookup_insert_eq. }
  split; [|split; [|split; congruence]].
  - eapply (spec_realloc _ _ s p new (read m p k) q (read m2 q new)); [exact Hsp|lia| |apply length_read; lia|].
    + destruct (last_apart sh m _ new Hok ltac:(lia)) as (A1 & A2 & A3 & A4). rewrite <- Hq in *. split_and!; [done|done|done|].
      intros r b Hr. apply (A4 r b). fold s. by apply lookup_delete_Some in Hr as [_ Hr].
    + apply (prefix_kept _ _ _ _ _ _ len); [lia|lia|done|]. intros x Hx Hxk Hxn. unfold m2, memcpy.
      rewrite (proj2 (within_true q len (q + x))) by lia. replace (p + (q + x - q)) with (p + x) by lia. apply Hout. lia.
  - exists bl. split; [done|]. by rewrite Hb', Hb, Hbuf'.
Qed.

(** Moving to a block of the C library. *)
Lemma move_outside sh m b1 n k b2 new ext :
  let p := sh.(sh_base) + total b1 + 8 in let s := buffers m sh.(sh_base) (b1 ++ (n, Some k) :: b2) in
  heap_ok sh m (b1 ++ (n, Some k) :: b2) -> 0 < k <= n - 8 -> 0 < new -> ext_ok sh ext (Realloc p new) ->
  p + n - 8 <= sh.(sh_last) ->
  slap_sl_malloc new (Some sh) m ext = (ext, Some sh, m) ->
  exists sh' m' s', realloc_move new sh m p ext (n - 8) = Some (ext, Some sh', m') /\
    replied ext (Outside (take (Z.to_nat new) (read m p k))) ext m' /\
    spec sh.(sh_base) sh.(sh_end) s (Realloc p new) (Outside (take (Z.to_nat new) (read m p k))) s' /\ holds sh' m' s' /\
    sh'.(sh_base) = sh.(sh_base) /\ sh'.(sh_end) = sh.(sh_end).
Proof.
  intros p s Hok Hk Hnew [Hext Hfar] Hin Hm. pose proof Hok as [[Hbase _] Hend Hsegs _]. cbn [asked] in Hfar.
  set (len := if n - 8 <? new then n - 8 else new). assert (len <= new /\ (k <= len \/ new <= len)) as [Hlen Hlen2].
  { unfold len. destruct (n - 8 <? new) eqn:E; zb; lia. }
  set (m2 := memcpy m ext p len).
  destruct (heap_frame sh m m2 _ Hok) as [Hok2 Hbuf2].
  { intros x Hx. unfold m2, memcpy. by rewrite (proj2 (within_false ext len x)) by lia. }
  destruct (free_block sh m2 b1 n k b2 Hok2) as (sh' & m' & bl & Hfree & Hok' & Hb' & He' & Hbuf' & Hout').
  fold p in Hfree, Hbuf'. rewrite Hbuf2 in Hbuf'. fold s in Hbuf'.
  assert (s !! p = Some (read m p k)) as Hsp.
  { unfold s. rewrite (buffers_insert _ _ _ _ _ _ _ _ _ Hsegs). fold p. apply lookup_insert_eq. }
  eexists sh', m', _. split.
  { unfold realloc_move. rewrite Hm, (proj2 (Z.eqb_neq ext 0)) by done. fold len m2. by rewrite Hfree. }
  split; [split; [done|]|split; [by eapply spec_realloc_out|split; [|done]]].
  - intros i v Hv. apply lookup_take_Some in Hv as [Hv Hi]. assert (i < Z.to_nat k)%nat as Hik.
    { apply lookup_lt_Some in Hv. pose proof (length_read m p k ltac:(lia)). lia. }
    rewrite read_lookup in Hv by done. injection Hv as <-. rewrite Hout' by lia. unfold m2, memcpy.
    rewrite (proj2 (within_true ext len _)) by lia. f_equal. lia.
  - exists bl. split; [done|]. by rewrite Hb', Hbuf'.
Qed.

(** Staying in place: the block has room, or is the last one and grows. *)
Lemma realloc_in_place sh m sh' m' b1 n n' k b2 new :
  let p := sh.(sh_base) + total b1 + 8 in let s := buffers m sh.(sh_base) (b1 ++ (n, Some k) :: b2) in
  heap_ok sh m (b1 ++ (n, Some k) :: b2) -> n <= n' -> 0 < new <= n' - 8 -> b2 = [] \/ n' = n ->
  heap_ok sh' m' (b1 ++ (n', Some new) :: b2) -> sh'.(sh_base) = sh.(sh_base) -> sh'.(sh_end) = sh.(sh_end) ->
  buffers m' sh.(sh_base) (b1 ++ (n', Some new) :: b2) = <[p := read m p new]> (buffers m sh.(sh_base) (b1 ++ (n, None) :: b2)) ->
  exists s', spec sh.(sh_base) sh.(sh_end) s (Realloc p new) (Slab p) s' /\ holds sh' m' s'.
Proof.
  intros p s Hok Hn Hnew Hlast Hok' Hb He Hbuf. pose proof Hok as [[Hbase Hbm] Hend Hsegs Hal].
  assert (s !! p = Some (read m p k)) as Hsp.
  { unfold s. rewrite (buffers_insert _ _ _ _ _ _ _ _ _ Hsegs). fold p. apply lookup_insert_eq. }
  pose proof Hsegs as Hs. apply segs_app in Hs as (r & h & H1 & H2). pose proof (segs_total _ _ _ _ _ _ H1) as [Hr Hl1].
  cbn [segs] in H2. destruct H2 as (Hn16 & _ & Hk & H2). pose proof (segs_total _ _ _ _ _ _ H2) as [Hq Hl2].
  pose proof (buffers_delete m b1 n k b2 _ _ _ _ Hsegs) as Hdel. fold p in Hdel. fold s in Hdel. rewrite <- Hdel in Hbuf.
  exists (<[p := read m p new]> (delete p s)). split; [|exists (b1 ++ (n', Some new) :: b2); split; [done|by rewrite Hb, Hbuf]].
  eapply spec_realloc; [exact Hsp|lia| |apply length_read; lia|].
  - assert (p + new <= sh.(sh_end)) as Htop.
    { pose proof (heap_last _ _ _ Hok') as Hl'. rewrite total_app in Hl'. cbn [total fold_right fst] in Hl'. fold (total b2) in Hl'.
      pose proof (ho_end _ _ _ Hok'). lia. }
    split_and!; [lia|done| |].
    + apply list.Forall_app in Hal as [Hal _]. by apply block_aligned.
    + intros x b Hx. rewrite Hdel in Hx. destruct (others_apart m _ _ _ _ _ _ _ _ _ _ Hsegs Hx) as [Hx'|Hx']; [lia|].
      destruct Hlast as [-> | ->]; [|lia]. rewrite buffers_free in Hx by (by constructor).
      pose proof (buffers_range _ _ _ _ _ _ _ _ H1 Hx). lia.
  - apply (prefix_kept m m p p k new (Z.max k new)); [lia|lia|lia|done].
Qed.

Lemma realloc_sim sh m s ext p new :
  holds sh m s -> allowed s (Realloc p new) -> ext_ok sh ext (Realloc p new) -> simulated sh m s ext (Realloc p new).
Proof.
  intros (bl & Hok & ->) [[old Hp] Hnew] Hext.
  destruct (client_ptr _ _ _ _ _ Hok Hp) as (b1 & n & k & b2 & -> & Heq & Hold & Hk & Hn & Hload & Hmod & Hin & Hlast).
  pose proof (buffers_range _ _ _ _ _ _ _ _ (ho_segs _ _ _ Hok) Hp) as (Hp8 & Hpe & Hpl).
  pose proof (ho_base _ _ _ Hok) as [Hbase _]. pose proof (ho_end _ _ _ Hok) as Hend.
  destruct (decide (new = 0)) as [->|Hz].
  { destruct (free_sim sh m _ ext p ltac:(by eexists) ltac:(by eexists)) as (q & sh' & m' & r & s' & Hrun & Hr & Hspec & Hh & Hbe).
    inversion Hspec; subst. exists 0, sh', m', Null, (delete (sh_base sh + total b1 + 8) (buffers m (sh_base sh) (b1 ++ (n, Some k) :: b2))).
    cbn [run] in *. unfold slap_sl_realloc. rewrite (proj2 (Z.eqb_neq _ 0)), (proj2 (Z.leb_gt _ _)), Z.geb_leb, (proj2 (Z.leb_gt _ _)) by lia.
    cbn [orb Z.eqb]. inv_bind Hrun. destruct x as [c m2]. injection Hrun as <- -> ->. rewrite Hb.
    split; [done|]. split; [done|]. split; [by eapply spec_realloc_zero|]. done. }
  assert (sl_get_size m (p - 8) = n) as Hsize by (unfold sl_get_size; rewrite Hload, head_size; lia).
  unfold simulated. rewrite (realloc_unfold sh m p n new ext) by (done || lia).
  assert (slap_sl_malloc new (Some sh) m ext = (ext, Some sh, m) ->
    exists q sh' m' r s', realloc_move new sh m p ext (n - 8) = Some (q, Some sh', m') /\ replied ext r q m' /\
      spec (sh_base sh) (sh_end sh) (buffers m (sh_base sh) (b1 ++ (n, Some k) :: b2)) (Realloc p new) r s' /\ holds sh' m' s' /\
      sh_base sh' = sh_base sh /\ sh_end sh' = sh_end sh) as Houtside.
  { intros Hm. subst p. destruct (move_outside sh m b1 n k b2 new ext Hok Hk ltac:(lia) Hext Hin Hm) as (sh' & m' & s' & H).
    by eexists _, sh', m', _, s'. }
  destruct (new <? SL_MAX_SIZE) eqn:Emax; zb.
  2: { apply Houtside. unfold slap_sl_malloc. by rewrite (proj2 (Z.eqb_neq new 0)), (proj2 (Z.ltb_ge new _)) by lia. }
  destruct (up2block_spec new ltac:(lia)) as [Humod Hup].
  destruct (sl_up2block new <=? n) eqn:E1; zb.
  - subst p. destruct (realloc_in_place sh m sh m b1 n n k b2 new Hok) as (s' & Hspec & Hh); try done; [lia..|by right|by apply (resize_block _ _ _ _ k); [|lia]| |].
    { rewrite (buffers_insert m (sh_base sh) false b1 n new b2 (sh_last sh) false); [done|].
      by apply (ho_segs sh m), (resize_block _ _ _ _ k); [|lia]. }
    by eexists _, sh, m, (Slab _), s'.
  - rewrite (uwrap_small 64 (sh_end sh - (p - 8))) by lia.
    destruct ((p - 8 + n =? sh_last sh) && (sl_up2block new <? sh_end sh - (p - 8))) eqn:E2.
    + zb. assert (b2 = []) as -> by (apply Hlast; lia). subst p.
      replace (sh_base sh + total b1 + 8 - 8) with (sh_base sh + total b1) in * by lia.
      assert (sl_up2block new < 2 ^ 63) by lia.
      destruct (grow_block sh m b1 n k new (sl_up2block new) Hok ltac:(lia) Humod ltac:(lia) ltac:(lia)) as (Hok' & Hbuf & _).
      destruct (realloc_in_place sh m _ _ b1 n (sl_up2block new) k [] new Hok ltac:(lia) ltac:(lia) ltac:(by left) Hok' eq_refl eq_refl Hbuf)
        as (s' & Hspec & Hh).
      by eexists _, _, _, (Slab _), s'.
    + clear E2. destruct (slab_malloc sh m new) as [[[q sh1] m1]|] eqn:Em.
      * subst p. destruct (move_slab sh m b1 n k b2 new q sh1 m1 ext Hok Hk Hin ltac:(lia) Em) as (sh' & m' & s' & H1 & H2).
        by eexists _, sh', m', (Slab _), s'.
      * apply Houtside. unfold slap_sl_malloc. by rewrite (proj2 (Z.eqb_neq new 0)), (proj2 (Z.ltb_lt new _)), Em by lia.
Qed.

(** ** The theorems *)

Lemma slab_sim sh m s ext o : holds sh m s -> allowed s o -> ext_ok sh ext o -> simulated sh m s ext o.
Proof.
  intros Hh Ha He. destruct o as [n|n z|p n|p|p i v].
  - by apply malloc_sim.
  - by apply calloc_sim.
  - by apply realloc_sim.
  - by apply free_sim.
  - destruct Ha as (b & Hb & Hi). by eapply write_sim.
Qed.

(** C9: The slab refines the abstract allocator for the requests that are allowed: any
    size for malloc and realloc, for calloc factors between 1 and 2^32 - 1 with a
    product below [SL_MAX_SIZE] (with larger factors the range check of the code is the
    wrong way round, see [calloc_check_inverted]), and realloc, free and writing inside
    it for buffers that the client has. The code answers each of them, and its answer is
    one of the specification, as long as the blocks of the C library are outside the
    slab. So buffers lie in the slab, aligned and apart, no operation changes a buffer
    that it is not for, reallocation keeps the contents, and a request that does not
    fit goes to the C library. *)
Theorem slab_refines sh m s ext o :
  holds sh m s -> allowed s o -> ext_ok sh ext o ->
  exists p sh' m' r s', run ext o sh m = Some (p, Some sh', m') /\ replied ext r p m' /\
    spec sh.(sh_base) sh.(sh_end) s o r s' /\ holds sh' m' s' /\
    sh'.(sh_base) = sh.(sh_base) /\ sh'.(sh_end) = sh.(sh_end).
Proof. apply slab_sim. Qed.

Definition geometry (sh : slab_heap) : Prop :=
  0 < sh.(sh_base) /\ sh.(sh_base) mod 8 = 0 /\ sh.(sh_last) <= sh.(sh_end) < 2 ^ 63.

Lemma fresh_holds sh m : geometry sh -> sh.(sh_last) = sh.(sh_base) -> holds sh m ∅.
Proof. intros (H1 & H2 & H3) H. exists []. split; [|done]. by split. Qed.

Lemma empty_last sh m : holds sh m ∅ -> sh.(sh_last) = sh.(sh_base).
Proof.
  intros (bl & Hok & Hs). pose proof Hok as [_ _ Hsegs _].
  destruct bl as [|[n k] bl _] using rev_ind; [by destruct Hsegs|]. pose proof Hsegs as Hend.
  apply segs_app in Hend as (r & h & H1 & H2). cbn [segs] in H2. destruct H2 as (_ & _ & _ & _ & Hfree).
  destruct k as [k|]; [|done]. exfalso. rewrite (buffers_insert _ _ _ _ _ _ _ _ _ Hsegs) in Hs.
  symmetry in Hs. by apply insert_non_empty in Hs.
Qed.

(** A new heap, or one made empty, holds nothing. *)
Lemma create_fresh size old base m :
  0 <= size < SL_MAX_SIZE -> 0 < base -> base mod 8 = 0 -> base + size < 2 ^ 62 ->
  match old with Some sh => geometry sh /\ sh.(sh_base) + size < 2 ^ 62 | None => True end ->
  holds (slap_sl_mem_create size old true base) m ∅.
Proof.
  intros Hsize Hb Hmod Hbs Hold.
  assert (0 <= sl_align size < size + 8) as Hal.
  { unfold SL_MAX_SIZE, SL_FREE_MASK in Hsize. change (2 ^ 63 / 2) with (2 ^ 62) in Hsize. unfold sl_align.
    change (size + Align - 1) with (size + 8 - 1). rewrite uwrap_small by lia. rewrite align_down by lia.
    pose proof (Z.div_mod (size + 8 - 1) 8 ltac:(lia)). pose proof (Z.mod_pos_bound (size + 8 - 1) 8 ltac:(lia)). lia. }
  apply fresh_holds; unfold slap_sl_mem_create, geometry; destruct old as [sh|]; cbn [negb]; cbn [sh_base sh_last sh_end]; try done.
  - destruct Hold as ((H1 & H2 & H3) & H4). destruct (sl_align size >? _); split_and!; (done || lia).
  - split_and!; (done || lia).
Qed.

(** The buffers that a client has after an operation: [p] is the pointer that it got. *)
Definition in_slab (sh : slab_heap) (p : Z) : bool := (sh.(sh_base) <? p) && (p <? sh.(sh_end)).

Definition after (sh : slab_heap) (s : gmap Z (list Z)) (o : op) (p : Z) (m : memory) : gmap Z (list Z) :=
  match o with
  | Malloc n => if in_slab sh p then <[p := read m p n]> s else s
  | Calloc n z => if in_slab sh p then <[p := read m p (n * z)]> s else s
  | Realloc q n => if in_slab sh p then <[p := read m p n]> (delete q s) else delete q s
  | Free q => delete q s
  | Write q i v => alter (fun b => <[Z.to_nat i := v]> b) q s
  end.

(** The histories of a heap: what the clients have asked and been answered. *)
Inductive history (size base : Z) : slab_heap -> memory -> gmap Z (list Z) -> Prop :=
| history_new m : history size base (slap_sl_mem_create size None true base) m ∅
| history_op sh m s ext o p sh' m' :
    history size base sh m s -> allowed s o -> ext_ok sh ext o -> 0 < ext ->
    run ext o sh m = Some (p, Some sh', m') -> history size base sh' m' (after sh s o p m').

Lemma apart_in_slab sh s p n : apart sh.(sh_base) sh.(sh_end) s p n -> 0 < n -> in_slab sh p = true.
Proof. intros (H1 & H2 & _) Hn. unfold in_slab. by rewrite (proj2 (Z.ltb_lt _ p)), (proj2 (Z.ltb_lt p _)) by lia. Qed.

Lemma held_read sh m s p buf : holds sh m s -> s !! p = Some buf -> buf = read m p (Z.of_nat (length buf)).
Proof.
  intros (bl & Hok & ->) Hp. destruct (client_ptr _ _ _ _ _ Hok Hp) as (b1 & n & k & b2 & _ & _ & -> & Hk & _).
  by rewrite length_read by lia.
Qed.

(** The client knows its buffers from the answers. *)
Lemma spec_after sh m s ext o p m' r s' sh' :
  holds sh m s -> allowed s o -> ext_ok sh ext o -> 0 < ext -> replied ext r p m' ->
  spec sh.(sh_base) sh.(sh_end) s o r s' -> holds sh' m' s' -> s' = after sh s o p m'.
Proof.
  intros (bl & Hok & _) Ha [_ Hext] Hpos Hr Hspec Hh'. pose proof (ho_base _ _ _ Hok) as [Hb _].
  assert (forall n, asked o = n -> 0 < n -> in_slab sh ext = false) as Hout.
  { intros n <- Hn. unfold in_slab. destruct Hext as [He|He].
    - by rewrite (proj2 (Z.ltb_ge _ ext)) by lia.
    - rewrite (proj2 (Z.ltb_ge ext _)) by lia. apply andb_false_r. }
  assert (in_slab sh 0 = false) as Hnull by (unfold in_slab; by rewrite (proj2 (Z.ltb_ge _ 0)) by lia).
  assert (forall q buf n t, s' = <[q := buf]> t -> Z.of_nat (length buf) = n -> buf = read m' q n) as Hread.
  { intros q buf n t E <-. apply (held_read sh' m' s'); [done|]. rewrite E. apply lookup_insert_eq. }
  destruct Hspec as [|n q buf Hn Hap Hlen|n Hn|n z q Hap|n z|q n old q' new Hq Hn Hap Hlen _|q n old Hq Hn|q old Hq|q old Hq|q i v old Hq Hi];
    cbn [after asked replied allowed] in *.
  - by rewrite Hr, Hnull.
  - subst p. rewrite (apart_in_slab _ _ _ _ Hap) by done. f_equal. by eapply Hread.
  - destruct Hr as [-> _]. by rewrite (Hout n).
  - subst p. assert (0 < n * z) by nia. rewrite (apart_in_slab _ _ _ _ Hap) by done. f_equal. eapply Hread; [done|].
    rewrite length_replicate. lia.
  - destruct Hr as [-> _]. rewrite (Hout (n * z)); [done|done|nia].
  - subst p. rewrite (apart_in_slab _ _ _ _ Hap) by lia. f_equal. by eapply Hread.
  - destruct Hr as [-> _]. by rewrite (Hout n).
  - by rewrite Hr, Hnull.
  - done.
  - symmetry. rewrite <- (insert_id s q old) at 1 by done. by rewrite alter_insert_eq.
Qed.

(** In every history the heap holds what its clients have. *)
Lemma history_holds size base sh m s :
  0 <= size < SL_MAX_SIZE -> 0 < base -> base mod 8 = 0 -> base + size < 2 ^ 62 -> history size base sh m s ->
  holds sh m s /\ sh.(sh_base) = base /\ sh.(sh_end) = sh_end (slap_sl_mem_create size None true base).
Proof.
  intros H1 H2 H3 H4. induction 1 as [m|sh m s ext o p sh' m' Hh IH Ha He Hpos Hrun].
  - split; [by apply create_fresh|done].
  - destruct IH as (Hholds & Hb & Hend).
    destruct (slab_sim sh m s ext o Hholds Ha He) as (p' & sh1 & m1 & r & s' & Hrun' & Hr & Hspec & Hh' & Hb' & He').
    rewrite Hrun in Hrun'. injection Hrun' as <- <- <-.
    rewrite <- (spec_after sh m s ext o p m' r s' sh') by done. split; [done|]. split; congruence.
Qed.

(** C26: No space is lost: when a history of allocations, reallocations, writes and
    frees, in whatever order, leaves no buffers, the heap is as it was created, so
    all of the slab can be used again. *)
Theorem slab_reclaims size base sh m :
  0 <= size < SL_MAX_SIZE -> 0 < base -> base mod 8 = 0 -> base + size < 2 ^ 62 ->
  history size base sh m ∅ -> sh = slap_sl_mem_create size None true base.
Proof.
  intros H1 H2 H3 H4 Hh. destruct (history_holds size base sh m ∅ H1 H2 H3 H4 Hh) as (Hholds & Hb & He).
  apply empty_last in Hholds. destruct sh as [b l e]. cbn in *. by subst.
Qed.

(** ** Concrete heaps *)

Definition demo_heap : slab_heap := slap_sl_mem_create 4000 None true 4096.
Definition demo_mem : memory := fun _ => 0.

Lemma demo_holds m : holds demo_heap m ∅.
Proof. by apply fresh_holds. Qed.

Lemma slab_refines_witness :
  (fun r => r.1.1) <$> run 65536 (Malloc 10) demo_heap demo_mem = Some 4104 /\
  exists p sh' m' r s', run 65536 (Malloc 10) demo_heap demo_mem = Some (p, Some sh', m') /\
    spec 4096 8096 ∅ (Malloc 10) r s' /\ holds sh' m' s'.
Proof.
  split; [vm_compute; reflexivity|].
  destruct (slab_refines demo_heap demo_mem ∅ 65536 (Malloc 10) (demo_holds _)) as (p & sh' & m' & r & s' & H1 & _ & H3 & H4 & _).
  - done.
  - split; [done|by right].
  - by exists p, sh', m', r, s'.
Defined.

(** A block of 10 octets, allocated and freed. *)
Definition one_heap : slab_heap := with_last demo_heap 4120.
Definition one_mem : memory := store demo_mem 4096 24.

Lemma one_history : history 4000 4096 one_heap one_mem {[4104 := read one_mem 4104 10]}.
Proof.
  apply (history_op 4000 4096 demo_heap demo_mem ∅ 65536 (Malloc 10) 4104 one_heap one_mem); [apply history_new|done| |done|reflexivity].
  split; [done|by right].
Qed.

Lemma slab_reclaims_witness :
  history 4000 4096 demo_heap one_mem ∅ /\ demo_heap = slap_sl_mem_create 4000 None true 4096.
Proof.
  assert (history 4000 4096 demo_heap one_mem ∅) as Hh.
  { change ∅ with (after one_heap {[4104 := read one_mem 4104 10]} (Free 4104) 0 one_mem).
    apply (history_op 4000 4096 one_heap one_mem _ 65536 (Free 4104) 0 demo_heap one_mem one_history).
    - eexists. apply lookup_singleton_eq.
    - split; [done|by right].
    - done.
    - reflexivity. }
  split; [exact Hh|]. by apply (slab_reclaims 4000 4096 demo_heap one_mem).
Defined.

(** The range check of [slap_sl_calloc] is the wrong way round: a product in range
    aborts, and one that overflows is allocated with what is left of it. *)
Theorem calloc_check_inverted :
  slap_sl_calloc (2 ^ 32) 1 (Some demo_heap) demo_mem 65536 = None /\
  (fun r => r.1.1) <$> slap_sl_calloc (2 ^ 63) 2 (Some demo_heap) demo_mem 65536 = Some 4104.
Proof. by vm_compute. Qed.
