(* ===== verification/Attr.v ===== *)
(** * Attributes and their values (servers/slapd/attr.c, value.c)

    A value is the text of a [berval]. Matching rules and attribute types are
    records of the schema: the functions they hold are data of the model, as the
    function pointers are in the code. Pointer equality of descriptions is
    equality of [ad_id].

    [None] is a failed assertion or undefined behaviour. *)

From S2P Require Import Prelude Text.
From Stdlib Require Import Ascii String.

Local Open Scope Z_scope.

Abbreviation berval := text.

Definition LDAP_SUCCESS : Z := 0.
Definition LDAP_COMPARE_FALSE : Z := 5.
Definition LDAP_COMPARE_TRUE : Z := 6.
Definition LDAP_NO_SUCH_ATTRIBUTE : Z := 0x10.
Definition LDAP_INAPPROPRIATE_MATCHING : Z := 0x12.
Definition LDAP_TYPE_OR_VALUE_EXISTS : Z := 0x14.
Definition LDAP_INVALID_SYNTAX : Z := 0x15.
Definition LDAP_INSUFFICIENT_ACCESS : Z := 0x32.
Definition LDAP_OTHER : Z := 0x50.

Definition SLAP_MR_EQUALITY : Z := 0x100.
Definition SLAP_MR_ORDERING : Z := 0x200.
Definition SLAP_MR_SUBSTR : Z := 0x400.
Definition SLAP_MR_EXT : Z := 0x800.
Definition SLAP_MR_EQUALITY_APPROX : Z := Z.lor SLAP_MR_EQUALITY 0x10.
Definition SLAP_MR_VALUE_OF_ASSERTION_SYNTAX : Z := 1.
Definition SLAP_MR_VALUE_OF_ATTRIBUTE_SYNTAX : Z := 2.
Definition SLAP_MR_ASSERTED_VALUE_NORMALIZED_MATCH : Z := 4.
Definition SLAP_MR_ATTRIBUTE_VALUE_NORMALIZED_MATCH : Z := 8.

(** What a value is matched against: a value, or a substrings assertion. *)
Inductive asserted :=
| AVal (v : berval)
| ASub (initial : option berval) (any : list berval) (final : option berval).

(** [smr_match] gives an error code, or [LDAP_SUCCESS] with the result of the
    comparison; [smr_normalize] an error code or the normalised value. Both get
    the flags. *)
Record MatchingRule := mkMR {
  mr_id : Z;
  smr_normalize : option (Z -> berval -> Z + berval);
  smr_match : option (Z -> berval -> asserted -> Z + Z) }.

Inductive AttributeType := mkAT {
  sat_equality : option MatchingRule;
  sat_approx : option MatchingRule;
  sat_ordering : option MatchingRule;
  sat_substr : option MatchingRule;
  sat_ordered : bool;      (** [SLAP_AT_ORDERED] *)
  sat_ordered_val : bool;  (** [SLAP_AT_ORDERED_VAL] *)
  sat_sorted : bool;       (** [SLAP_AT_SORTED_VAL] *)
  sat_syntax_oid : option text;
  sat_sup : option AttributeType }.

Record AttributeDescription := mkAD { ad_id : Z; ad_type : AttributeType }.

Definition ad_eq (a b : AttributeDescription) : bool := a.(ad_id) =? b.(ad_id).

(** [a_nvals]: the null pointer, the same array as [a_vals], or one of its own. *)
Inductive nvals := NNull | NSame | NOwn (l : list berval).

Record Attribute := mkAttr {
  a_desc : AttributeDescription;
  a_vals : option (list berval);
  a_nvals : nvals;
  a_sorted : bool }.       (** [SLAP_ATTR_SORTED_VALS] *)

Definition a_vals_list (a : Attribute) : list berval := default [] a.(a_vals).
Definition a_numvals (a : Attribute) : nat := List.length (a_vals_list a).
Definition a_nvals_list (a : Attribute) : list berval :=
  match a.(a_nvals) with NNull => [] | NSame => a_vals_list a | NOwn l => l end.

Definition attr_alloc (ad : AttributeDescription) : Attribute := mkAttr ad None NNull ad.(ad_type).(sat_sorted).

(** ** Matching one value (value.c) *)

Definition value_match (mr : MatchingRule) (flags : Z) (v1 : berval) (v2 : asserted) : Z + Z :=
  match mr.(smr_match) with
  | None => inl LDAP_INAPPROPRIATE_MATCHING
  | Some f => f flags v1 v2
  end.

Definition is_digit (c : ascii) : bool := let n := ascii_code c in (48 <=? n) && (n <=? 57).
Definition SLAP_NUMERIC (c : ascii) : bool := is_digit c || Ascii.eqb c " ".

Definition numericStringValidate (v : berval) : Z :=
  match v with
  | [] => LDAP_INVALID_SYNTAX
  | _ => if forallb SLAP_NUMERIC v then LDAP_SUCCESS else LDAP_INVALID_SYNTAX
  end.

(** By length first, then by contents. *)
Definition octetStringMatch (value asserted : berval) : Z :=
  let d := Z.of_nat (List.length value) - Z.of_nat (List.length asserted) in
  if negb (d =? 0) then (if d <? 0 then -1 else 1) else memcmp value asserted.

Definition octetStringOrderingMatch (flags : Z) (value asserted : berval) : Z :=
  let n := Nat.min (List.length value) (List.length asserted) in
  let m := memcmp (take n value) (take n asserted) in
  let m := if m =? 0 then
             if (List.length value <? List.length asserted)%nat then -1
             else if (List.length asserted <? List.length value)%nat then 1 else 0
           else m in
  if negb (Z.land flags SLAP_MR_EXT =? 0) then (if m >=? 0 then 1 else 0) else m.

Definition ber_bvcmp (v1 v2 : berval) : Z :=
  if (List.length v1 <? List.length v2)%nat then -1
  else if (List.length v2 <? List.length v1)%nat then 1
  else memcmp v1 v2.

(** The text before and after the first [c]. *)
Fixpoint split_at (c : ascii) (s : text) : option (text * text) :=
  match s with
  | [] => None
  | x :: s =>
      if Ascii.eqb x c then Some ([], s) else
      '(u, v) ← split_at c s; Some (x :: u, v)
  end.

(** A leading "{...}" index: the text between the braces, if they are there, and
    the value, without the index when that is numeric. *)
Definition skip_index (v : berval) : option berval * berval :=
  match v with
  | x :: v' =>
      if Ascii.eqb x "{" then
        match split_at "}" v' with
        | Some (ns, rest) => (Some ns, if numericStringValidate ns =? LDAP_SUCCESS then rest else v)
        | None => (None, v)
        end
      else (None, v)
  | [] => (None, v)
  end.

Definition ordered_value_match (ad : AttributeDescription) (mr : option MatchingRule) (flags : Z)
    (v1 v2 : berval) : Z + Z :=
  let plain v1 v2 :=
    match mr with
    | Some mr => match mr.(smr_match) with
                 | Some _ => value_match mr flags v1 (AVal v2)
                 | None => inr (ber_bvcmp v1 v2)
                 end
    | None => inr (ber_bvcmp v1 v2)
    end in
  if ad.(ad_type).(sat_ordered) then
    let '(ns2, v2) := skip_index v2 in
    let '(ns1, v1) := skip_index v1 in
    match ns1, ns2 with
    | Some ns1, Some ns2 =>
        if negb (Z.land flags SLAP_MR_VALUE_OF_ASSERTION_SYNTAX =? 0) then
          let m := octetStringOrderingMatch 0 ns1 ns2 in
          if negb (m =? 0) || match v2 with [] => true | _ => false end then inr m else plain v1 v2
        else plain v1 v2
    | _, _ => plain v1 v2
    end
  else plain v1 v2.

(** [value_find_ex]: a value among others, by the equality rule. *)
Fixpoint value_find_loop (mr : MatchingRule) (flags : Z) (vals : list berval) (val : berval) : Z :=
  match vals with
  | [] => LDAP_NO_SUCH_ATTRIBUTE
  | v :: vals =>
      match value_match mr flags v (AVal val) with
      | inr 0 => LDAP_SUCCESS
      | _ => value_find_loop mr flags vals val
      end
  end.

Definition value_find_ex (ad : AttributeDescription) (flags : Z) (vals : list berval) (val : berval) : option Z :=
  match ad.(ad_type).(sat_equality) with
  | None => Some LDAP_INAPPROPRIATE_MATCHING
  | Some mr =>
      match mr.(smr_match) with
      | None => Some LDAP_INAPPROPRIATE_MATCHING
      | Some _ =>
          if Z.land flags SLAP_MR_ATTRIBUTE_VALUE_NORMALIZED_MATCH =? 0 then None else
          match mr.(smr_normalize) with
          | Some norm =>
              if Z.land flags SLAP_MR_ASSERTED_VALUE_NORMALIZED_MATCH =? 0 then
                match norm (Z.land flags 0xFF3) val with
                | inl _ => Some LDAP_INVALID_SYNTAX
                | inr nval => Some (value_find_loop mr flags vals nval)
                end
              else Some (value_find_loop mr flags vals val)
          | None => Some (value_find_loop mr flags vals val)
          end
      end
  end.

(** ** Finding a value of an attribute (attr.c) *)

(** The variable [match] after a comparison. *)
Definition matched (match_ : Z) (r : Z + Z) : Z := match r with inr m => m | inl _ => match_ end.

(** The binary search: [match] and [i] when the loop is left. *)
Fixpoint valfind_bsearch (fuel : nat) (mr : MatchingRule) (flags : Z) (nv : list berval) (cval : berval)
    (base n match_ : Z) : option (Z * Z) :=
  match fuel with
  | O => None
  | S fuel =>
      let pivot := Z.shiftr n 1 in
      let i := base + pivot in
      v ← nv !! Z.to_nat i;
      let r := value_match mr flags v (AVal cval) in
      let match_ := matched match_ r in
      match r with
      | inr 0 => Some (match_, i)
      | _ =>
          let '(base, n) := if match_ <? 0 then (i + 1, n - (pivot + 1)) else (base, pivot) in
          if n =? 0 then Some (match_, i) else valfind_bsearch fuel mr flags nv cval base n match_
      end
  end.

Fixpoint valfind_linear (ad : AttributeDescription) (mr : option MatchingRule) (flags : Z) (nv : list berval) (cval : berval)
    (i match_ : Z) : Z * Z :=
  match nv with
  | [] => (match_, i)
  | v :: nv =>
      let r := ordered_value_match ad mr flags v cval in
      match r with
      | inr 0 => (0, i)
      | _ => valfind_linear ad mr flags nv cval (i + 1) (matched match_ r)
      end
  end.

(** The return code and the slot, which a failed normalisation does not set.
    The search halves [n], an unsigned of 32 bits. *)
Definition valfind_fuelled (fuel : nat) (a : Attribute) (flags : Z) (val : berval) : option (Z * Z) :=
  let mr := if negb (Z.land flags SLAP_MR_ORDERING =? 0) then a.(a_desc).(ad_type).(sat_ordering)
            else a.(a_desc).(ad_type).(sat_equality) in
  nval ← (if Z.land flags SLAP_MR_ASSERTED_VALUE_NORMALIZED_MATCH =? 0 then
            mr ← mr;
            Some (match mr.(smr_normalize) with Some norm => norm (Z.land flags 0xFF3) val | None => inr val end)
          else Some (inr val));
  match nval with
  | inl _ => Some (LDAP_INVALID_SYNTAX, 0)
  | inr cval =>
      let n := Z.of_nat (a_numvals a) in
      '(match_, i) ←
        (if a.(a_sorted) && negb (n =? 0) then
           mr ← mr;
           '(m, i) ← valfind_bsearch fuel mr flags (a_nvals_list a) cval 0 n (-1);
           Some (m, if m <? 0 then i + 1 else i)
         else Some (valfind_linear a.(a_desc) mr flags (take (a_numvals a) (a_nvals_list a)) cval 0 (-1)));
      Some (if negb (match_ =? 0) then LDAP_NO_SUCH_ATTRIBUTE else LDAP_SUCCESS, i)
  end.

Definition attr_valfind : Attribute -> Z -> berval -> option (Z * Z) := valfind_fuelled 33.

(** ** Adding values *)

Definition insert_at {A} (l : list A) (i : nat) (x : A) : list A := take i l ++ x :: drop i l.

Definition valadd_flags : Z := 0x10D.

(** The insertions into a sorted attribute; with [nvals] both arrays grow. *)
Fixpoint valadd_sorted (a : Attribute) (vals : list berval) (nv : option (list berval)) : option (Z * Attribute) :=
  let insert v n rest nv' :=
    '(rc, slot) ← attr_valfind a valadd_flags (default v n);
    if negb (rc =? LDAP_NO_SUCH_ATTRIBUTE)
    then Some (if rc =? LDAP_SUCCESS then LDAP_TYPE_OR_VALUE_EXISTS else rc, a)
    else
      let k := Z.to_nat slot in
      let l := insert_at (a_vals_list a) k v in
      let a := mkAttr a.(a_desc) (Some l)
                 (match n with Some n => NOwn (insert_at (a_nvals_list a) k n) | None => a.(a_nvals) end) a.(a_sorted) in
      valadd_sorted a rest nv' in
  match vals, nv with
  | [], _ => Some (0, a)
  | v :: vals, None => insert v None vals None
  | v :: vals, Some (n :: nv) => insert v (Some n) vals (Some nv)
  | _ :: _, Some [] => None
  end.

(** [attr_valadd] of the values [vals] with their normalised forms, if any. *)
Definition attr_valadd (a : Attribute) (vals : list berval) (nv : option (list berval)) : option (Z * Attribute) :=
  let l := a_vals_list a in
  nvs ← (match nv, a.(a_nvals) with
         | None, _ => Some NSame
         | Some _, NNull => match l with [] => Some (NOwn []) | _ => None end   (* nothing to go with the old values *)
         | Some _, NOwn n => Some (NOwn n)
         | Some _, NSame => None   (* the array has been reallocated under another name *)
         end);
  let a := mkAttr a.(a_desc) (Some l) nvs a.(a_sorted) in
  if a.(a_sorted) && negb (Nat.eqb (List.length l) 0) then valadd_sorted a vals nv
  else
    nvs ← (match nvs, nv with
           | NOwn n, Some nv =>
               if (List.length nv <? List.length vals)%nat then None else Some (NOwn (n ++ take (List.length vals) nv))
           | x, _ => Some x
           end);
    Some (0, mkAttr a.(a_desc) (Some (l ++ vals)) nvs a.(a_sorted)).

(** ** Lists of attributes *)

(** The attributes up to one of the description, it, and those behind it. *)
Fixpoint find_desc (desc : AttributeDescription) (l : list Attribute)
  : option (list Attribute * Attribute * list Attribute) :=
  match l with
  | [] => None
  | a :: l =>
      if ad_eq a.(a_desc) desc then Some ([], a, l) else
      '(u, x, v) ← find_desc desc l; Some (a :: u, x, v)
  end.

Definition attr_find (l : list Attribute) (desc : AttributeDescription) : option Attribute :=
  '(_, a, _) ← find_desc desc l; Some a.

Definition attr_delete (l : list Attribute) (desc : AttributeDescription) : Z * list Attribute :=
  match find_desc desc l with
  | Some (u, _, v) => (LDAP_SUCCESS, u ++ v)
  | None => (LDAP_NO_SUCH_ATTRIBUTE, l)
  end.

(** Apply to the attribute of the description, which is added when missing. *)
Definition on_attr (l : list Attribute) (desc : AttributeDescription)
    (f : Attribute -> option (Z * Attribute)) : option (Z * list Attribute) :=
  match find_desc desc l with
  | Some (u, a, v) => '(rc, a) ← f a; Some (rc, u ++ a :: v)
  | None => '(rc, a) ← f (attr_alloc desc); Some (rc, l ++ [a])
  end.

Definition attr_merge_one (l : list Attribute) (desc : AttributeDescription) (val : berval) (nval : option berval)
  : option (Z * list Attribute) :=
  on_attr l desc (fun a => attr_valadd a [val] ((fun n => [n]) <$> nval)).

(** [attr_merge]; [righteous] is [reopenldap_mode_righteous()]. *)
Definition attr_merge (righteous : bool) (l : list Attribute) (desc : AttributeDescription)
    (vals : list berval) (nv : option (list berval)) : option (Z * list Attribute) :=
  match find_desc desc l with
  | None => '(rc, a) ← attr_valadd (attr_alloc desc) vals nv; Some (rc, l ++ [a])
  | Some (u, a, v) =>
      let same := match a.(a_nvals), a.(a_vals) with NSame, _ | NNull, None => true | _, _ => false end in
      let nv :=
        match nv, a.(a_vals) with
        | Some n, Some _ => if righteous && same && bool_decide (vals = n) then None else nv
        | _, _ => nv
        end in
      let fresh := match a.(a_vals), a.(a_nvals) with None, NNull => true | _, _ => false end in
      if match nv with None => same | Some _ => fresh || negb same end then
        '(rc, a) ← attr_valadd a vals nv; Some (rc, u ++ a :: v)
      else None
  end.

(** The normaliser of the equality rule. *)
Definition normalizer (desc : AttributeDescription) : option (Z -> berval -> Z + berval) :=
  mr ← desc.(ad_type).(sat_equality); mr.(smr_normalize).

Definition attr_normalize_one (desc : AttributeDescription) (val : berval) : Z + option berval :=
  match normalizer desc with
  | Some norm =>
      match norm SLAP_MR_VALUE_OF_ATTRIBUTE_SYNTAX val with
      | inl rc => inl rc
      | inr nval => inr (Some nval)
      end
  | None => inr None
  end.

Fixpoint normalize_all (norm : Z -> berval -> Z + berval) (vals : list berval) : Z + list berval :=
  match vals with
  | [] => inr []
  | v :: vals =>
      match norm SLAP_MR_VALUE_OF_ATTRIBUTE_SYNTAX v with
      | inl rc => inl rc
      | inr n => match normalize_all norm vals with inl rc => inl rc | inr ns => inr (n :: ns) end
      end
  end.

Definition attr_normalize (desc : AttributeDescription) (vals : list berval) : Z + option (list berval) :=
  match normalizer desc with
  | Some norm => match normalize_all norm vals with inl rc => inl rc | inr ns => inr (Some ns) end
  | None => inr None
  end.

Definition attr_merge_normalize (righteous : bool) (l : list Attribute) (desc : AttributeDescription)
    (vals : list berval) : option (Z * list Attribute) :=
  match attr_normalize desc vals with
  | inl rc => Some (rc, l)
  | inr nv => attr_merge righteous l desc vals nv
  end.

(** The code of the normalisation is overwritten by that of the merge. *)
Definition attr_merge_normalize_one (l : list Attribute) (desc : AttributeDescription) (val : berval)
  : option (Z * list Attribute) :=
  let nvalp := match attr_normalize_one desc val with inr n => n | inl _ => None end in
  attr_merge_one l desc val nvalp.
