(* ===== verification/AttrTheorems.v ===== *)
(** * Attributes: the binary search and the insertion of values *)

From Stdlib Require Import Ascii String.
From S2P Require Import Prelude Text Order Attr.


Local Open Scope Z_scope.
Local Abbreviation length := List.length.

(** The rule compares by [fcmp] and never fails under these flags. *)
Definition compares (mr : MatchingRule) (flags : Z) (fcmp : berval -> berval -> Z) : Prop :=
  forall v x, value_match mr flags v (AVal x) = inr (fcmp v x).

Section Sorted.
Context (mr : MatchingRule) (flags : Z) (fcmp : berval -> berval -> Z) `{!Comparison fcmp}.
Context (Hmr : compares mr flags fcmp).

(** [x] would go before position [k]: smaller values in front, greater behind. *)
Definition place (l : list berval) (x : berval) (k : nat) : Prop :=
  (forall i v, l !! i = Some v -> (i < k)%nat -> fcmp v x < 0) /\
  (forall i v, l !! i = Some v -> (k <= i)%nat -> fcmp v x > 0) /\ (k <= length l)%nat.

Lemma sorted_lookup (l : list berval) i j v w :
  StronglySorted (cmp_lt fcmp) l -> l !! i = Some v -> l !! j = Some w -> (i < j)%nat -> fcmp v w < 0.
Proof.
  intros Hs. revert i j. induction Hs as [|x l Hs IH Hx]; intros i j Hi Hj Hij; [done|].
  destruct j as [|j]; [lia|]. destruct i as [|i]; simplify_eq/=; [|eapply IH; eauto; lia].
  rewrite list.Forall_forall in Hx. apply Hx. by apply list_elem_of_lookup_2 in Hj.
Qed.

(** The invariant of the search: the place lies in the window. *)
Definition window (l : list berval) (x : berval) (base n : Z) : Prop :=
  0 <= base /\ 0 <= n /\ base + n <= Z.of_nat (length l) /\
  (forall i v, l !! i = Some v -> Z.of_nat i < base -> fcmp v x < 0) /\
  (forall i v, l !! i = Some v -> base + n <= Z.of_nat i -> fcmp v x > 0).

Lemma window_place l x base : window l x base 0 -> place l x (Z.to_nat base).
Proof.
  intros (H1 & _ & H3 & H4 & H5). rewrite Z.add_0_r in *.
  split_and!; [intros i v Hi Hk; apply (H4 i); (done || lia)|intros i v Hi Hk; apply (H5 i); (done || lia)|lia].
Qed.

(** The two halves of a window, when the value at the pivot is not equal. *)
Lemma window_right l x base n k v :
  StronglySorted (cmp_lt fcmp) l -> window l x base n -> 0 <= k < n -> l !! Z.to_nat (base + k) = Some v ->
  fcmp v x < 0 -> window l x (base + k + 1) (n - (k + 1)).
Proof using Comparison0.
  intros Hs (H1 & H2 & H3 & H4 & H5) Hk Hv Hlt.
  split_and!; try lia; [|intros i u Hi Hge; apply (H5 i u Hi); lia].
  intros i u Hi Hlti. destruct (decide (i = Z.to_nat (base + k))) as [-> |Hne]; [congruence|].
  apply (cmp_lt_le (fcmp:=fcmp) u v x); [|lia]. apply (sorted_lookup l i (Z.to_nat (base + k))); (done || lia).
Qed.

Lemma window_left l x base n k v :
  StronglySorted (cmp_lt fcmp) l -> window l x base n -> 0 <= k < n -> l !! Z.to_nat (base + k) = Some v ->
  fcmp v x > 0 -> window l x base k.
Proof using Comparison0.
  intros Hs (H1 & H2 & H3 & H4 & H5) Hk Hv Hgt. split_and!; try lia; [done|].
  intros i u Hi Hge. destruct (decide (i = Z.to_nat (base + k))) as [-> |Hne]; [assert (u = v) as -> by congruence; lia|].
  pose proof (sorted_lookup l (Z.to_nat (base + k)) i v u Hs Hv Hi ltac:(lia)).
  pose proof (cmp_swap (fcmp:=fcmp) v x). pose proof (cmp_swap (fcmp:=fcmp) x u).
  pose proof (cmp_lt_le (fcmp:=fcmp) x v u ltac:(lia) ltac:(lia)). lia.
Qed.

(** What the search leaves in [match] and [i]. *)
Definition searched (l : list berval) (x : berval) (m i : Z) : Prop :=
  (m = 0 /\ exists v, l !! Z.to_nat i = Some v /\ fcmp v x = 0) \/
  (m <> 0 /\ 0 <= i /\ place l x (Z.to_nat (if m <? 0 then i + 1 else i))).

Lemma bsearch_spec l x fuel base n m :
  StronglySorted (cmp_lt fcmp) l -> window l x base n -> 0 < n < 2 ^ Z.of_nat fuel ->
  exists m' i, valfind_bsearch fuel mr flags l x base n m = Some (m', i) /\ searched l x m' i.
Proof using Hmr Comparison0.
  intros Hs. revert base n m. induction fuel as [|fuel IH]; intros base n m Hw Hn; [simpl in Hn; lia|].
  cbn [valfind_bsearch]. rewrite Z.shiftr_div_pow2, Z.pow_1_r by lia.
  assert (0 <= n / 2 < n /\ 2 * (n / 2) <= n <= 2 * (n / 2) + 1) as [Hp Hhalf].
  { pose proof (Z.div_mod n 2 ltac:(lia)). pose proof (Z.mod_pos_bound n 2 ltac:(lia)). lia. }
  rewrite Nat2Z.inj_succ, Z.pow_succ_r in Hn by lia. revert Hp Hhalf. generalize (n / 2). intros pivot Hp Hhalf.
  pose proof Hw as (H1 & H2 & H3 & _).
  destruct (lookup_lt_is_Some_2 l (Z.to_nat (base + pivot))) as [v Hv]; [lia|]. rewrite Hv. cbn [mbind option_bind].
  rewrite Hmr. cbn [matched].
  destruct (decide (fcmp v x = 0)) as [E0|E0]; [rewrite E0; do 2 eexists; split; [done|left; eauto]|].
  assert (forall A (y z : A), match fcmp v x with 0 => y | _ => z end = z) as -> by (intros; by destruct (fcmp v x)).
  destruct (fcmp v x <? 0) eqn:El; zb.
  - pose proof (window_right l x base n pivot v Hs Hw Hp Hv El) as Hr.
    destruct (n - (pivot + 1) =? 0) eqn:E; zb; [|apply IH; [done|lia]].
    do 2 eexists. split; [done|]. right. rewrite (proj2 (Z.ltb_lt _ _) El). split_and!; [done|lia|].
    rewrite E in Hr. by apply window_place.
  - pose proof (window_left l x base n pivot v Hs Hw Hp Hv ltac:(lia)) as Hl.
    destruct (pivot =? 0) eqn:E; zb; [|apply IH; [done|lia]].
    do 2 eexists. split; [done|]. right. rewrite (proj2 (Z.ltb_ge _ _) El). split_and!; [done|lia|].
    subst pivot. rewrite Z.add_0_r. by apply window_place.
Qed.

Lemma sorted_insert_at l x k :
  StronglySorted (cmp_lt fcmp) l -> place l x k -> StronglySorted (cmp_lt fcmp) (insert_at l k x).
Proof using Comparison0.
  intros Hs (Hl & Hr & Hk). rewrite <- (take_drop k l) in Hs. apply sorted_app in Hs as (H1 & H2 & H3).
  unfold insert_at. apply sorted_app. split_and!; [done| |].
  - apply sorted_cons. split; [done|]. intros y [i Hy]%list_elem_of_lookup. rewrite lookup_drop in Hy.
    pose proof (Hr _ _ Hy ltac:(lia)). pose proof (cmp_swap (fcmp:=fcmp) x y). unfold cmp_lt. lia.
  - intros u y [i Hu]%list_elem_of_lookup [->|Hy]%elem_of_cons.
    + apply lookup_take_Some in Hu as [Hu Hi]. by apply (Hl i).
    + apply H3; [|done]. by apply list_elem_of_lookup_2 in Hu.
Qed.
End Sorted.

Lemma insert_at_perm {A} (l : list A) k x : insert_at l k x ≡ₚ x :: l.
Proof. unfold insert_at. rewrite <- Permutation_middle. by rewrite take_drop. Qed.

(** ** Searching a sorted attribute *)

(** A sorted attribute under the comparison of its equality rule. *)
Record sorted_attr (a : Attribute) (fcmp : berval -> berval -> Z) : Prop := mkSorted {
  sa_flag : a.(a_sorted) = true;
  sa_vals : length (a_nvals_list a) = a_numvals a;
  sa_size : Z.of_nat (a_numvals a) < 2 ^ 32;
  sa_order : StronglySorted (cmp_lt fcmp) (a_nvals_list a) }.

(** What a search answers: the position of an equal value, or the place of a new
    one. *)
Definition found_or_place (fcmp : berval -> berval -> Z) (l : list berval) (x : berval) (rc slot : Z) : Prop :=
  (rc = LDAP_SUCCESS /\ exists v, l !! Z.to_nat slot = Some v /\ fcmp v x = 0) \/
  (rc = LDAP_NO_SUCH_ATTRIBUTE /\ 0 <= slot /\ place fcmp l x (Z.to_nat slot)).

(** The value asked for is compared as it is. *)
Definition no_normalizing (mr : MatchingRule) (flags : Z) : Prop :=
  Z.land flags SLAP_MR_ASSERTED_VALUE_NORMALIZED_MATCH <> 0 \/ mr.(smr_normalize) = None.

Lemma valfind_nval mr flags x :
  no_normalizing mr flags ->
  (if Z.land flags SLAP_MR_ASSERTED_VALUE_NORMALIZED_MATCH =? 0 then
     mr ← Some mr; Some (match mr.(smr_normalize) with Some norm => norm (Z.land flags 0xFF3) x | None => inr x end)
   else Some (inr x)) = Some (inr x).
Proof. intros [H|H]; [by rewrite (proj2 (Z.eqb_neq _ _) H)|]. cbn [mbind option_bind]. rewrite H. by destruct (_ =? _). Qed.

Lemma valfind_unfold a mr flags x fuel :
  a.(a_sorted) = true -> a.(a_desc).(ad_type).(sat_equality) = Some mr -> (0 < a_numvals a)%nat ->
  Z.land flags SLAP_MR_ORDERING = 0 -> no_normalizing mr flags ->
  valfind_fuelled fuel a flags x =
  '(m, i) ← valfind_bsearch fuel mr flags (a_nvals_list a) x 0 (Z.of_nat (a_numvals a)) (-1);
  Some (if negb (m =? 0) then LDAP_NO_SUCH_ATTRIBUTE else LDAP_SUCCESS, if m <? 0 then i + 1 else i).
Proof.
  intros Hf Heq Hpos Hord Hnorm. unfold valfind_fuelled.
  rewrite Hord, Hf, Heq, (proj2 (Z.eqb_neq (Z.of_nat (a_numvals a)) 0)) by lia.
  cbn [Z.eqb negb]. rewrite valfind_nval by done. cbn [negb andb mbind option_bind].
  generalize (valfind_bsearch fuel mr flags (a_nvals_list a) x 0 (Z.of_nat (a_numvals a)) (-1)). intros [[m i]|]; reflexivity.
Qed.

Lemma valfind_sorted a mr flags fcmp `{!Comparison fcmp} x :
  sorted_attr a fcmp -> a_nvals_list a <> [] -> compares mr flags fcmp ->
  a.(a_desc).(ad_type).(sat_equality) = Some mr ->
  Z.land flags SLAP_MR_ORDERING = 0 -> no_normalizing mr flags ->
  exists rc slot, attr_valfind a flags x = Some (rc, slot) /\ found_or_place fcmp (a_nvals_list a) x rc slot.
Proof.
  intros [Hf Hl Hsz Ho] Hne Hmr Heq Hord Hnorm.
  assert (0 < a_numvals a)%nat as Hpos by (rewrite <- Hl; destruct (a_nvals_list a); [done|simpl; lia]).
  assert (exists fuel, fuel = 33%nat) as [fuel Hfuel] by eauto.
  unfold attr_valfind. rewrite <- Hfuel, (valfind_unfold a mr flags x fuel) by done.
  destruct (bsearch_spec mr flags fcmp Hmr (a_nvals_list a) x fuel 0 (Z.of_nat (a_numvals a)) (-1) Ho)
    as (m & i & -> & Hres).
  - split_and!; try lia. intros i v Hi Hge. apply lookup_lt_Some in Hi. lia.
  - rewrite Hfuel. change (2 ^ Z.of_nat 33) with 8589934592. change (2 ^ 32) with 4294967296 in Hsz. lia.
  - cbn [mbind option_bind]. do 2 eexists. split; [done|]. destruct Hres as [(-> & v & Hv & Hc)|(Hm & Hi & Hp)].
    + left. split; [done|]. eauto.
    + right. rewrite (proj2 (Z.eqb_neq _ _) Hm). split_and!; [done| |done]. destruct (m <? 0); lia.
Qed.

(** The rule of equality for the witnesses: it compares by octets. *)
Definition bytes_mr : MatchingRule :=
  mkMR 1 None (Some (fun _ v x => match x with AVal x => inr (ber_bvcmp v x) | ASub _ _ _ => inl LDAP_OTHER end)).
#[global] Instance ber_bvcmp_comparison : Comparison ber_bvcmp.
Proof.
  split; unfold ber_bvcmp.
  - intros x y. rewrite (memcmp_antisym x y).
    destruct (Nat.ltb_spec (length x) (length y)), (Nat.ltb_spec (length y) (length x)); simpl; lia.
  - intros x y z.
    destruct (Nat.ltb_spec (length x) (length y)), (Nat.ltb_spec (length y) (length x)); try lia;
    destruct (Nat.ltb_spec (length y) (length z)), (Nat.ltb_spec (length z) (length y)); try lia;
    destruct (Nat.ltb_spec (length x) (length z)), (Nat.ltb_spec (length z) (length x)); try lia.
    apply memcmp_trans; lia.
Qed.

Lemma bytes_compares flags : compares bytes_mr flags ber_bvcmp.
Proof. done. Qed.

Definition bytes_at : AttributeType := mkAT (Some bytes_mr) None None None false false true None None.
Definition bytes_attr (l : list String.string) : Attribute :=
  mkAttr (mkAD 1 bytes_at) (Some (kw <$> l)) NSame true.

(** ** Insertions *)

Lemma zip_insert_at {A B} (l : list A) (n : list B) k x y :
  length l = length n -> zip (insert_at l k x) (insert_at n k y) = insert_at (zip l n) k (x, y).
Proof.
  intros Hl. unfold insert_at. rewrite zip_with_app by (rewrite !length_take; lia). cbn [zip_with].
  by rewrite zip_with_take, zip_with_drop.
Qed.

Lemma length_insert_at {A} (l : list A) k x : length (insert_at l k x) = S (length l).
Proof. by rewrite insert_at_perm. Qed.

(** The array of normalised values that [attr_valadd] expects. *)
Definition nvals_fit (a : Attribute) (vals : list berval) (nv : option (list berval)) : Prop :=
  match nv with
  | None => a.(a_nvals) = NSame
  | Some ns => (exists n, a.(a_nvals) = NOwn n) /\ length ns = length vals
  end.

(** The values of an attribute with their normalised forms. *)
Definition a_pairs (a : Attribute) : list (berval * berval) := zip (a_vals_list a) (a_nvals_list a).

Definition same_type (a b : Attribute) : Prop := a_desc a = a_desc b /\ (a_nvals a = NSame <-> a_nvals b = NSame) /\ a_nvals a <> NNull.

Lemma fit_not_null a vals nv : nvals_fit a vals nv -> a_nvals a <> NNull.
Proof. destruct nv; simpl; [intros [[n ->] _]|intros ->]; done. Qed.

(** What inserting the values leaves: those in front of the first duplicate. *)
Definition inserted (fcmp : berval -> berval -> Z) (a : Attribute) (new : list (berval * berval)) (rc : Z) (b : Attribute) : Prop :=
  sorted_attr b fcmp /\ same_type b a /\
  exists front back, new = front ++ back /\ a_pairs b ≡ₚ front ++ a_pairs a /\
  match back with
  | [] => rc = LDAP_SUCCESS
  | (_, x) :: _ => rc = LDAP_TYPE_OR_VALUE_EXISTS /\ exists v, v ∈ a_nvals_list b /\ fcmp v x = 0
  end.

Section Valadd.
Context (mr : MatchingRule) (fcmp : berval -> berval -> Z) `{!Comparison fcmp}.
Context (Hmr : compares mr valadd_flags fcmp).

(** One insertion at the place that the search gives. *)
Lemma insert_one a x v k b n :
  sorted_attr a fcmp -> Z.of_nat (a_numvals a) + 1 < 2 ^ 32 -> place fcmp (a_nvals_list a) x k ->
  b = mkAttr a.(a_desc) (Some (insert_at (a_vals_list a) k v)) n a.(a_sorted) ->
  a_nvals_list b = insert_at (a_nvals_list a) k x ->
  sorted_attr b fcmp /\ a_numvals b = S (a_numvals a) /\ a_pairs b ≡ₚ (v, x) :: a_pairs a.
Proof using Comparison0.
  intros [Hf Hl Hsz Ho] Hroom Hp Hb Hn.
  assert (a_vals_list b = insert_at (a_vals_list a) k v) as Hv by (by subst b).
  assert (a_numvals b = S (a_numvals a)) as Hnum by (unfold a_numvals; by rewrite Hv, length_insert_at).
  split_and!; [split|done|].
  - by subst b.
  - rewrite Hn, length_insert_at, Hnum. by f_equal.
  - lia.
  - rewrite Hn. by apply (sorted_insert_at fcmp).
  - unfold a_pairs. rewrite Hv, Hn, zip_insert_at, insert_at_perm by done. done.
Qed.

(** One turn of the loop: the key that is looked for and what is left to do. *)
Lemma valadd_turn a v vals nv :
  nvals_fit a (v :: vals) nv ->
  exists x nv', default (v :: vals) nv = x :: default vals nv' /\
  forall rc slot, attr_valfind a valadd_flags x = Some (rc, slot) ->
  if negb (rc =? LDAP_NO_SUCH_ATTRIBUTE)
  then valadd_sorted a (v :: vals) nv = Some (if rc =? LDAP_SUCCESS then LDAP_TYPE_OR_VALUE_EXISTS else rc, a)
  else exists b n, b = mkAttr a.(a_desc) (Some (insert_at (a_vals_list a) (Z.to_nat slot) v)) n a.(a_sorted) /\
    a_nvals_list b = insert_at (a_nvals_list a) (Z.to_nat slot) x /\ (a_nvals b = NSame <-> a_nvals a = NSame) /\
    nvals_fit b vals nv' /\ valadd_sorted a (v :: vals) nv = valadd_sorted b vals nv'.
Proof.
  destruct nv as [[|x ns]|]; intros Hfit; simpl in Hfit.
  - by destruct Hfit.
  - destruct Hfit as [[n Hn] Hlen]. exists x, (Some ns). split; [done|]. intros rc slot Hf.
    cbn [valadd_sorted from_option id]. rewrite Hf. cbn [mbind option_bind]. destruct (negb _); [done|].
    eexists _, (NOwn _). split; [done|]. split; [done|]. split; [by rewrite Hn|]. split; [|done]. split; [by eexists|lia].
  - exists v, None. split; [done|]. intros rc slot Hf. cbn [valadd_sorted from_option id].
    rewrite Hf. cbn [mbind option_bind]. destruct (negb _); [done|].
    eexists _, (a_nvals a). split; [done|]. split; [unfold a_nvals_list; by rewrite Hfit|done].
Qed.

Lemma valadd_sorted_spec vals : forall a nv,
  sorted_attr a fcmp -> a_nvals_list a <> [] -> a.(a_desc).(ad_type).(sat_equality) = Some mr ->
  Z.of_nat (a_numvals a) + Z.of_nat (length vals) < 2 ^ 32 -> nvals_fit a vals nv ->
  exists rc b, valadd_sorted a vals nv = Some (rc, b) /\ inserted fcmp a (zip vals (default vals nv)) rc b.
Proof using Hmr Comparison0.
  induction vals as [|v vals IH]; intros a nv Hs Hne Heq Hroom Hfit.
  { exists 0, a. split; [by destruct nv|]. split; [done|]. split; [by pose proof (fit_not_null _ _ _ Hfit)|]. by exists [], []. }
  destruct (valadd_turn a v vals nv Hfit) as (x & nv' & Hd & Hstep).
  destruct (valfind_sorted a mr valadd_flags fcmp x) as (rc & slot & Hf & Hres); [done..|by left|].
  specialize (Hstep _ _ Hf). rewrite Hd. destruct Hres as [(-> & u & Hu & Hc)|(-> & Hslot & Hp)];
    cbn [negb Z.eqb Pos.eqb LDAP_SUCCESS LDAP_NO_SUCH_ATTRIBUTE] in Hstep.
  - do 2 eexists. split; [done|]. split; [done|]. split; [by pose proof (fit_not_null _ _ _ Hfit)|]. exists [], ((v, x) :: zip vals (default vals nv')).
    split_and!; [done..|]. exists u. split; [|done]. by apply list_elem_of_lookup_2 in Hu.
  - destruct Hstep as (b & n & Hb & Hn & Hkind & Hfit' & ->). simpl in Hroom.
    destruct (insert_one a x v (Z.to_nat slot) b n) as (Hsb & Hnum & Hperm); [done|lia|done..|].
    destruct (IH b nv') as (rc & c & -> & Hsc & (Hdesc & Hkc & Hnc) & front & back & Hsplit & Hpc & Hend); [done| | |lia|done|].
    { rewrite Hn. intros E. apply (f_equal length) in E. by rewrite length_insert_at in E. }
    { by subst b. }
    do 2 eexists. split; [done|]. split; [done|]. split; [split; [subst b; done|by rewrite Hkc, Hkind]|]. exists ((v, x) :: front), back.
    split_and!; [simpl; by rewrite Hsplit| |done]. rewrite Hpc, Hperm. by rewrite <- Permutation_middle.
Qed.
End Valadd.

(** Adding values to a sorted attribute keeps it sorted by its equality rule.
    All values are inserted with their normalised forms, or the first one that
    is equal to a value already there stops the insertion with
    [LDAP_TYPE_OR_VALUE_EXISTS], the values in front of it being kept. *)
Lemma attr_valadd_spec a mr fcmp `{!Comparison fcmp} vals nv :
  compares mr valadd_flags fcmp -> sorted_attr a fcmp -> a_nvals_list a <> [] ->
  a.(a_desc).(ad_type).(sat_equality) = Some mr ->
  Z.of_nat (a_numvals a) + Z.of_nat (length vals) < 2 ^ 32 -> nvals_fit a vals nv ->
  exists rc b, attr_valadd a vals nv = Some (rc, b) /\ inserted fcmp a (zip vals (default vals nv)) rc b.
Proof.
  intros Hmr Hs Hne Heq Hroom Hfit. pose proof Hs as [Hf Hl _ _]. unfold attr_valadd.
  assert ((match nv, a.(a_nvals) with
          | None, _ => Some NSame | Some _, NNull => match a_vals_list a with [] => Some (NOwn []) | _ => None end
          | Some _, NOwn n => Some (NOwn n) | Some _, NSame => None end) = Some (a_nvals a)) as ->.
  { destruct nv; simpl in Hfit; [destruct Hfit as [[n ->] _]|rewrite Hfit]; done. }
  cbn [mbind option_bind]. destruct a as [ad avals an srt]. simpl in Hf. subst srt. cbn [a_desc a_nvals a_sorted].
  assert (exists l, avals = Some l /\ l <> []) as (l & -> & Hnil).
  { unfold a_numvals, a_nvals_list, a_vals_list in *. simpl in *. destruct avals as [l|]; simpl in *.
    - exists l. split; [done|]. intros ->. simpl in Hl. by apply nil_length_inv in Hl.
    - by apply nil_length_inv in Hl. }
  destruct l as [|y l]; [done|]. by apply (valadd_sorted_spec mr fcmp Hmr).
Qed.
