(* ===== verification/SortVals.v ===== *)
(** * Sorting the values of an attribute (servers/slapd/modify.c, slap_sort_vals)

    The function sorts the array [ix] of the positions of the values, by a
    quicksort that leaves small pieces to an insertion sort and keeps the pieces
    to do on a stack of 64 integers, and stops at the first two values that are
    equal. An access outside an array is [None]. *)

From Stdlib Require Import Ascii String.
From S2P Require Import Prelude Text Attr.

Local Open Scope Z_scope.

Definition SMALL : nat := 8.
Definition sort_flags : Z := 0x10D.

(** How the sorting of a piece ends: [match] is 0 for two equal values, or for an
    error of the comparison with its code [rc]; [i] as the code leaves it. *)
Record ended := mkEnded { e_ix : list nat; e_i : Z; e_match : Z; e_rc : Z }.

Section Sort.
Context (cmp : berval -> berval -> Z + Z) (cv : list berval).

(** [COMP]: [match] and [rc]. *)
Definition COMP (v a : berval) : Z * Z :=
  match cmp v a with inl rc => (0, rc) | inr m => (m, LDAP_SUCCESS) end.

(** [cv[IX(k)]] *)
Definition at_ix (ix : list nat) (k : nat) : option berval := p ← ix !! k; cv !! p.

Definition put (ix : list nat) (k p : nat) : option (list nat) :=
  if decide (k < List.length ix)%nat then Some (<[k := p]> ix) else None.

Definition EXCH (ix : list nat) (x y : nat) : option (list nat) :=
  p ← ix !! x; q ← ix !! y; ix ← put ix x q; put ix y p.

(** Move down the values that are greater than [a], from position [i1 - 1]. *)
Fixpoint insert_down (i1 : nat) (ix : list nat) (a : berval) (match_ rc : Z) : option (list nat * Z * Z * Z) :=
  match i1 with
  | O => Some (ix, -1, match_, rc)
  | S i =>
      v ← at_ix ix i;
      let '(match_, rc) := COMP v a in
      if match_ <=? 0 then Some (ix, Z.of_nat i, match_, rc) else
      p ← ix !! i;
      ix ← put ix i1 p;
      insert_down i ix a match_ rc
  end.

(** The insertion sort of [count] values from position [j]; whether it stopped at
    two equal ones. *)
Fixpoint insertion (count j : nat) (ix : list nat) (match_ rc : Z) : option (bool * ended) :=
  match count with
  | O => Some (false, mkEnded ix 0 match_ rc)
  | S count =>
      itmp ← ix !! j;
      a ← cv !! itmp;
      '(ix, i, match_, rc) ← insert_down j ix a match_ rc;
      ix ← put ix (Z.to_nat (i + 1)) itmp;
      if match_ =? 0 then Some (true, mkEnded ix i match_ rc) else insertion count (S j) ix match_ rc
  end.

(** [do i++ while (match < 0)] and [while (match > 0) j--] *)
Fixpoint scan_up (fuel : nat) (ix : list nat) (a : berval) (i : nat) : option (nat * Z * Z) :=
  match fuel with
  | O => None
  | S fuel =>
      let i := S i in
      v ← at_ix ix i;
      let '(match_, rc) := COMP v a in
      if match_ <? 0 then scan_up fuel ix a i else Some (i, match_, rc)
  end.

Fixpoint scan_down (fuel : nat) (ix : list nat) (a : berval) (j : nat) (match_ rc : Z) : option (nat * Z * Z) :=
  match fuel with
  | O => None
  | S fuel =>
      if match_ >? 0 then
        j ← (match j with O => None | S j => Some j end);
        v ← at_ix ix j;
        let '(match_, rc) := COMP v a in
        scan_down fuel ix a j match_ rc
      else Some (j, match_, rc)
  end.

(** The exchanges around the pivot [a], at position [l + 1]: [i] and [j] where they
    have met, or the position of a value that occurs twice. *)
Fixpoint partition (fuel : nat) (ix : list nat) (a : berval) (l i j : nat) : option (list nat * nat * nat * Z * Z) :=
  match fuel with
  | O => None
  | S fuel =>
      '(i, match_, rc) ← scan_up (S (List.length ix)) ix a i;
      '(j, match_, rc) ← scan_down (S (List.length ix)) ix a j match_ rc;
      if (j <? i)%nat then Some (ix, i, j, 1, rc)
      else if match_ =? 0 then Some (ix, S l, j, match_, rc)
      else ix ← EXCH ix i j; partition fuel ix a l i j
  end.

(** Order two positions; whether their values are equal. *)
Definition order2 (ix : list nat) (x y : nat) : option (list nat * Z * Z) :=
  v ← at_ix ix x; w ← at_ix ix y;
  let '(match_, rc) := COMP v w in
  if match_ >? 0 then ix ← EXCH ix x y; Some (ix, match_, rc) else Some (ix, match_, rc).

(** The median of the left, center and right value becomes the pivot. *)
Definition split_piece (ix : list nat) (l ir : nat) : option (ended + list nat * nat * nat * Z) :=
  let k := ((l + ir) / 2)%nat in
  ix ← EXCH ix k (S l);
  '(ix, match_, rc) ← order2 ix l ir;
  if match_ =? 0 then Some (inl (mkEnded ix (Z.of_nat ir) match_ rc)) else
  '(ix, match_, rc) ← order2 ix (S l) ir;
  if match_ =? 0 then Some (inl (mkEnded ix (Z.of_nat ir) match_ rc)) else
  '(ix, match_, rc) ← order2 ix l (S l);
  if match_ =? 0 then Some (inl (mkEnded ix (Z.of_nat l) match_ rc)) else
  a ← at_ix ix (S l);
  '(ix, i, j, match_, rc) ← partition (S (List.length ix)) ix a l (S l) ir;
  if match_ =? 0 then Some (inl (mkEnded ix (Z.of_nat i) match_ rc)) else
  ix ← EXCH ix (S l) j;
  Some (inr (ix, i, j, rc)).

(** The main loop. The stack holds pairs of its integers: [jstack] is twice its
    height and has to stay below 64. *)
Fixpoint sort_loop (fuel : nat) (ix : list nat) (l ir : nat) (istack : list (nat * nat)) (rc : Z) : option ended :=
  match fuel with
  | O => None
  | S fuel =>
      if (ir - l <? SMALL)%nat then
        '(stopped, e) ← insertion (ir - l) (S l) ix 1 rc;
        if stopped : bool then Some e else
        match istack with
        | [] => Some e
        | (l, ir) :: istack => sort_loop fuel e.(e_ix) l ir istack e.(e_rc)
        end
      else
        r ← split_piece ix l ir;
        match r with
        | inl e => Some e
        | inr (ix, i, j, rc) =>
            if (2 * S (List.length istack) <? 64)%nat then
              if (j - l <? ir - i + 1)%nat then sort_loop fuel ix l j ((i, ir) :: istack) rc
              else sort_loop fuel ix i ir ((l, j) :: istack) rc
            else None
        end
  end.

Definition sort_ix (n : nat) : option ended := sort_loop (2 * n) (seq 0 n) 0 (n - 1) [] LDAP_SUCCESS.
End Sort.

(** The values in the order of [ix]. *)
Definition reorder (ix : list nat) (l : list berval) : option (list berval) := mapM (fun p => l !! p) ix.

(** The result code, [dup] when it is set, and the attribute. *)
Definition slap_sort_vals (si_ad_objectClass : AttributeDescription) (ml : Attribute) : option (Z * option nat * Attribute) :=
  let ad := ml.(a_desc) in
  let nvals := a_numvals ml in
  if (nvals <=? 1)%nat then Some (LDAP_SUCCESS, None, ml) else
  let cv := match ml.(a_nvals) with NOwn n => n | _ => a_vals_list ml end in
  let mr := if ad_eq ad si_ad_objectClass then None else ad.(ad_type).(sat_equality) in
  e ← sort_ix (ordered_value_match ad mr sort_flags) cv nvals;
  dup ← (if (e.(e_match) =? 0) && (e.(e_i) >=? 0) then d ← e.(e_ix) !! Z.to_nat e.(e_i); Some (Some d) else Some None);
  ml ← (if (e.(e_rc) =? LDAP_SUCCESS) && negb (e.(e_match) =? 0) && ad.(ad_type).(sat_sorted) then
          vals ← reorder e.(e_ix) (a_vals_list ml);
          nv ← (match ml.(a_nvals) with NOwn n => n ← reorder e.(e_ix) n; Some (NOwn n) | x => Some x end);
          Some (mkAttr ad (Some vals) nv ml.(a_sorted))
        else Some ml);
  if (e.(e_rc) =? LDAP_SUCCESS) && (e.(e_match) =? 0) then
    if (0 <=? e.(e_i)) && (e.(e_i) <? Z.of_nat nvals) then Some (LDAP_TYPE_OR_VALUE_EXISTS, dup, ml) else None
  else Some (e.(e_rc), dup, ml).
