(* ===== verification/SortTheorems.v ===== *)
(** * The quicksort of values: its invariant

    The positions of [ix] that are not in one pending piece are in strictly
    ascending order of their values. Each step rearranges one piece. *)

From Stdlib Require Import Ascii String.
From S2P Require Import Prelude Text Order Attr SortVals AttrTheorems.

Local Open Scope nat_scope.
Local Abbreviation length := List.length.

Section Facts.
Context (cmp : berval -> berval -> Z + Z) (cv : list berval) (fcmp : berval -> berval -> Z) `{!Comparison fcmp}.
Context (Hcmp : forall v w, cmp v w = inr (fcmp v w)).
Local Abbreviation n := (length cv).

(** The value at a position of [ix], and how two of them compare. *)
Definition val (ix : list nat) (x : nat) : berval := default [] (cv !! default 0 (ix !! x)).
Definition ord (ix : list nat) (x y : nat) : Prop := (fcmp (val ix x) (val ix y) < 0)%Z.

Definition perm (ix : list nat) : Prop := ix ≡ₚ seq 0 n.

Lemma perm_length ix : perm ix -> length ix = n.
Proof. intros H. apply Permutation_length in H. by rewrite length_seq in H. Qed.

Lemma perm_lookup ix x : perm ix -> x < n -> exists p, ix !! x = Some p /\ p < n /\ cv !! p = Some (val ix x).
Proof.
  intros Hp Hx. destruct (lookup_lt_is_Some_2 ix x) as [p Hl]; [by rewrite perm_length|]. exists p. split; [done|].
  assert (p < n) as Hlt.
  { pose proof (list_elem_of_lookup_2 _ _ _ Hl) as He. unfold perm in Hp. rewrite Hp in He. apply elem_of_seq in He. lia. }
  split; [done|]. unfold val. rewrite Hl. cbn. destruct (lookup_lt_is_Some_2 cv p Hlt) as [v ->]. done.
Qed.

Lemma perm_inj ix x y p : perm ix -> ix !! x = Some p -> ix !! y = Some p -> x = y.
Proof.
  unfold perm. intros Hp. apply NoDup_lookup. rewrite Hp. apply NoDup_seq.
Qed.

Lemma at_ix_val ix x : perm ix -> x < n -> at_ix cv ix x = Some (val ix x).
Proof. intros Hp Hx. destruct (perm_lookup ix x Hp Hx) as (p & Hl & _ & Hv). unfold at_ix. by rewrite Hl. Qed.

Lemma comp_eq v a : COMP cmp v a = (fcmp v a, LDAP_SUCCESS).
Proof using Hcmp. unfold COMP. by rewrite Hcmp. Qed.

Lemma val_ext ix ix' x y : ix' !! x = ix !! y -> val ix' x = val ix y.
Proof. unfold val. by intros ->. Qed.

(** ** Rearrangements of a piece *)

Definition inside (l r x : nat) : Prop := l <= x <= r.

Record rearranged (l r : nat) (ix ix' : list nat) : Prop := mkRearr {
  re_perm : perm ix -> perm ix';
  re_out x : ~ inside l r x -> ix' !! x = ix !! x;
  re_in x : inside l r x -> exists y, inside l r y /\ ix' !! x = ix !! y }.

#[global] Instance rearranged_refl l r : Reflexive (rearranged l r).
Proof. intros ix. split; [done..|]. eauto. Qed.

#[global] Instance rearranged_trans l r : Transitive (rearranged l r).
Proof.
  intros i1 i2 i3 [P1 O1 I1] [P2 O2 I2]. split; [auto| |].
  - intros x Hx. by rewrite O2, O1.
  - intros x Hx. destruct (I2 x Hx) as (y & Hy & ->). apply I1. done.
Qed.

Definition swap (x y z : nat) : nat := if decide (z = x) then y else if decide (z = y) then x else z.

Lemma exch_spec ix x y l r :
  perm ix -> x < n -> y < n -> inside l r x -> inside l r y ->
  exists ix', EXCH ix x y = Some ix' /\ rearranged l r ix ix' /\ perm ix' /\ forall z, val ix' z = val ix (swap x y z).
Proof.
  intros Hp Hx Hy Ix Iy. destruct (perm_lookup ix x Hp Hx) as (p & Hlp & _). destruct (perm_lookup ix y Hp Hy) as (q & Hlq & _).
  assert (EXCH ix x y = Some (<[y := p]> (<[x := q]> ix))) as E.
  { unfold EXCH, put. rewrite Hlp, Hlq. cbn [mbind option_bind]. rewrite decide_True by (by rewrite perm_length).
    cbn [mbind option_bind]. rewrite decide_True by (by rewrite length_insert, perm_length). done. }
  assert (forall z, <[y := p]> (<[x := q]> ix) !! z = ix !! swap x y z) as Hz.
  { intros z. unfold swap. destruct (decide (y = z)) as [<- |].
    - rewrite list_lookup_insert_eq by (by rewrite length_insert, perm_length). case_decide; [by subst|]. by rewrite decide_True.
    - rewrite list_lookup_insert_ne by done. case_decide as E1.
      + subst z. by rewrite list_lookup_insert_eq by (by rewrite perm_length).
      + rewrite decide_False by done. by rewrite list_lookup_insert_ne. }
  assert (rearranged l r ix (<[y := p]> (<[x := q]> ix))) as Hre.
  { split.
    - intros _. unfold perm. etrans; [|exact Hp]. destruct (decide (x = y)) as [<- |].
      + rewrite list_insert_insert_eq. simplify_eq. by rewrite list_insert_id.
      + by apply Permutation_insert_swap.
    - intros z Hzo. rewrite Hz. unfold swap. do 2 (case_decide; [by subst z|]). done.
    - intros z Hzi. exists (swap x y z). split; [|done]. unfold swap. do 2 (case_decide; [done|]). done. }
  eexists. split; [exact E|]. split; [done|]. split; [by apply Hre|]. intros z. apply val_ext, Hz.
Qed.

(** ** Two equal values *)

(** Position [i] holds a value that another position holds too. *)
Definition equal_at (ix : list nat) (i : nat) : Prop :=
  i < n /\ exists j, j < n /\ j <> i /\ fcmp (val ix i) (val ix j) = 0%Z.

(** How a step stops: at two equal values. *)
Definition stopped (e : ended) : Prop :=
  e.(e_match) = 0%Z /\ e.(e_rc) = LDAP_SUCCESS /\ perm e.(e_ix) /\
  exists i, e.(e_i) = Z.of_nat i /\ equal_at e.(e_ix) i.

Lemma order2_spec ix x y l r :
  perm ix -> x < n -> y < n -> inside l r x -> inside l r y ->
  exists ix' m, order2 cmp cv ix x y = Some (ix', m, LDAP_SUCCESS) /\ perm ix' /\ rearranged l r ix ix' /\
    ((m = 0%Z /\ ix' = ix /\ fcmp (val ix x) (val ix y) = 0%Z) \/
     (m <> 0%Z /\ ord ix' x y /\ ((m < 0)%Z /\ ix' = ix \/ (m > 0)%Z /\ forall z, val ix' z = val ix (swap x y z)))).
Proof using Hcmp Comparison0.
  intros Hp Hx Hy Ix Iy. unfold order2. rewrite !at_ix_val by done. cbn [mbind option_bind]. rewrite comp_eq.
  destruct (fcmp (val ix x) (val ix y) >? 0)%Z eqn:E; zb.
  - destruct (exch_spec ix x y l r) as (ix' & -> & Hre & Hp' & Hv); [done..|]. cbn [mbind option_bind].
    do 2 eexists. split; [done|]. split; [done|]. split; [done|]. right. split; [lia|]. split; [|right; split; [lia|done]].
    unfold ord. rewrite !Hv. unfold swap. rewrite decide_True by done.
    pose proof (cmp_swap (fcmp:=fcmp) (val ix x) (val ix y)). pose proof (cmp_swap (fcmp:=fcmp) (val ix y) (val ix x)).
    case_decide; [subst y; lia|]. rewrite decide_True by done. lia.
  - do 2 eexists. split; [done|]. split; [done|]. split; [done|].
    destruct (decide (fcmp (val ix x) (val ix y) = 0%Z)) as [E0|E0]; [left; done|right].
    split; [done|]. unfold ord. split; [lia|]. left. split; [lia|done].
Qed.

(** ** The insertion sort *)

Definition key (p : nat) : berval := default [] (cv !! p).

Lemma insert_down_spec u : forall h w a m,
  Forall (fun p => p < n) u ->
  exists u1 u2 ix' m', u = u1 ++ u2 /\
    insert_down cmp cv (length u) (u ++ h :: w) a m LDAP_SUCCESS = Some (ix', Z.of_nat (length u1) - 1, m', LDAP_SUCCESS)%Z /\
    (forall p, put ix' (length u1) p = Some (u1 ++ p :: u2 ++ w)) /\
    (forall q, q ∈ u2 -> fcmp (key q) a > 0)%Z /\
    ((u1 = [] /\ (u = [] /\ m' = m \/ (m' > 0)%Z)) \/
     (exists u0 q, u1 = u0 ++ [q] /\ m' = fcmp (key q) a /\ (m' <= 0)%Z)).
Proof using Hcmp.
  assert (forall u h w p, put (u ++ h :: w) (length u) p = Some (u ++ p :: w)) as Hput.
  { intros u' h w p. unfold put. rewrite decide_True by (rewrite length_app; simpl; lia).
    rewrite <- (Nat.add_0_r (length u')) at 1. by rewrite insert_app_r. }
  induction u as [|q u IH] using rev_ind; intros h w a m Hu.
  { exists [], []. do 2 eexists. split; [done|]. split; [done|]. split; [intros p; apply (Hput [])|].
    split; [by intros q ?%not_elem_of_nil|]. left. split; [done|]. by left. }
  apply list.Forall_app in Hu as [Hu Hq]. apply Forall_inv in Hq. rewrite length_app, Nat.add_1_r. cbn [insert_down].
  destruct (lookup_lt_is_Some_2 cv q Hq) as [v Hv].
  assert (((u ++ [q]) ++ h :: w) !! length u = Some q) as Hlq by (rewrite <- app_assoc; by apply list_lookup_middle).
  unfold at_ix. rewrite Hlq. cbn [mbind option_bind]. rewrite Hv. cbn [mbind option_bind]. rewrite comp_eq.
  assert (key q = v) as Hk by (unfold key; by rewrite Hv).
  destruct (fcmp v a <=? 0)%Z eqn:E; zb.
  - exists (u ++ [q]), [], ((u ++ [q]) ++ h :: w), (fcmp v a). split; [by rewrite app_nil_r|].
    split; [rewrite length_app; cbn [length]; by replace (Z.of_nat (length u + 1) - 1)%Z with (Z.of_nat (length u)) by lia|].
    split; [intros p; apply Hput|]. split; [by intros ? ?%not_elem_of_nil|]. right. exists u, q. rewrite Hk. split; [done|]. split; [done|lia].
  - replace (S (length u)) with (length (u ++ [q])) by (rewrite length_app; simpl; lia).
    rewrite Hput. cbn [mbind option_bind]. rewrite <- app_assoc. cbn [app].
    destruct (IH q (q :: w) a (fcmp v a) Hu) as (u1 & u2 & ix' & m' & -> & -> & Hp & Hgt & Hl).
    exists u1, (u2 ++ [q]). do 2 eexists. split; [by rewrite app_assoc|]. split; [done|].
    split; [intros p; rewrite Hp; by rewrite <- app_assoc|].
    split; [intros q' [?| ->%list_elem_of_singleton]%elem_of_app; [auto|rewrite Hk; lia]|].
    destruct Hl as [[-> Hm']|?]; [left|by right]. split; [done|]. right. destruct Hm' as [[_ ->]| ]; lia.
Qed.

(** The cells after the insertion of the value of position [j] at position [i]. *)
Definition shifted (ix : list nat) (i j : nat) (ix' : list nat) : Prop :=
  i <= j < n /\ forall z, ix' !! z = ix !! (if decide (z < i \/ j < z) then z else if decide (z = i) then j else z - 1).

Lemma shifted_cells u1 p u2 w ix' :
  ix' = u1 ++ p :: u2 ++ w -> perm (u1 ++ u2 ++ p :: w) ->
  shifted (u1 ++ u2 ++ p :: w) (length u1) (length (u1 ++ u2)) ix' /\ perm ix'.
Proof.
  intros -> Hp. pose proof (perm_length _ Hp) as Hl. rewrite !length_app in Hl. cbn [length] in Hl. rewrite length_app in *. split.
  - split; [lia|]. intros z. destruct (decide (z < length u1)).
    { rewrite decide_True by lia. by rewrite !lookup_app_l by lia. }
    rewrite !(lookup_app_r u1) by lia. destruct (decide (z = length u1)) as [-> | ].
    { rewrite decide_False by lia. rewrite Nat.sub_diag. rewrite lookup_app_r by lia.
      rewrite lookup_app_r by lia. by replace (_ - _ - _) with 0 by lia. }
    destruct (z - length u1) as [|k] eqn:Ek; [lia|]. cbn [lookup list_lookup].
    change ((p :: u2 ++ w) !! S k) with ((u2 ++ w) !! k). destruct (decide (z < length u1 \/ length u1 + length u2 < z)).
    + rewrite !(lookup_app_r u1), !(lookup_app_r u2) by lia.
      by replace (z - length u1 - length u2) with (S (k - length u2)) by lia.
    + rewrite (lookup_app_r u1), !(lookup_app_l u2) by lia. by replace (z - 1 - length u1) with k by lia.
  - unfold perm in *. etrans; [|exact Hp]. apply Permutation_app_head, Permutation_middle.
Qed.

Section Insertion.
Context (l r : nat) (ix0 : list nat) (Hlr : l <= r < n).
Context (Hbelow : forall ix', rearranged l r ix0 ix' -> forall z x, z < l -> inside l r x -> ord ix' z x).

(** The positions from [l] to [j] are in order. *)
Definition inserted_to (j : nat) (ix : list nat) : Prop :=
  perm ix /\ rearranged l r ix0 ix /\ forall x y, l <= x < y -> y < j -> ord ix x y.

Lemma shifted_val ix i j ix' z :
  shifted ix i j ix' -> val ix' z = val ix (if decide (z < i \/ j < z) then z else if decide (z = i) then j else z - 1).
Proof. intros [_ H]. apply val_ext, H. Qed.

Lemma shifted_rearranged ix i j ix' :
  shifted ix i j ix' -> perm ix' -> l <= i -> j <= r -> rearranged l r ix ix'.
Proof.
  intros [Hij H] Hp Hi Hj. unfold inside. split; [done| |]; intros x Hx.
  - rewrite H. by rewrite decide_True by (unfold inside in *; lia).
  - eexists. split; [|apply H]. unfold inside in *. repeat case_decide; lia.
Qed.

Lemma shifted_order ix i j ix' a :
  shifted ix i j ix' -> a = val ix j -> l <= i ->
  (forall x y, l <= x < y -> y < j -> ord ix x y) ->
  i = 0 \/ (fcmp (val ix (i - 1)) a < 0)%Z -> (forall x, i <= x < j -> (fcmp (val ix x) a > 0)%Z) ->
  forall x y, l <= x < y -> y < S j -> ord ix' x y.
Proof using Comparison0 Hlr.
  intros Hs -> Hl Hord Hlow Hup x y Hx Hy. pose proof Hs as [Hij _]. unfold ord. rewrite !(shifted_val ix i j ix') by done.
  destruct (decide (x < i \/ j < x)) as [Hxi|Hxi]; destruct (decide (y < i \/ j < y)) as [Hyi|Hyi]; try lia.
  - apply Hord; lia.
  - destruct (decide (y = i)) as [-> |]; [|apply Hord; lia]. destruct Hlow as [|Hlow]; [lia|].
    destruct (decide (x = i - 1)) as [-> |]; [done|]. apply (cmp_lt_le (fcmp:=fcmp) _ (val ix (i - 1)) _); [apply Hord; lia|lia].
  - rewrite (decide_False (P := y = i)) by lia. destruct (decide (x = i)) as [-> |]; [|apply Hord; lia].
    pose proof (Hup (y - 1) ltac:(lia)). pose proof (cmp_swap (fcmp:=fcmp) (val ix j) (val ix (y - 1))). lia.
Qed.

Lemma insertion_spec count : forall j ix m,
  inserted_to j ix -> l < j -> j + count = S r -> (m <> 0)%Z ->
  exists b e, insertion cmp cv count j ix m LDAP_SUCCESS = Some (b, e) /\
    (b = true /\ stopped e \/ b = false /\ (e.(e_match) <> 0)%Z /\ e.(e_rc) = LDAP_SUCCESS /\ inserted_to (S r) e.(e_ix)).
Proof using All.
  induction count as [|count IH]; intros j ix m (Hp & Hre & Hord) Hj Hc Hm.
  { do 2 eexists. split; [done|]. right. replace (S r) with j by lia. by split_and!. }
  cbn [insertion]. destruct (perm_lookup ix j Hp ltac:(lia)) as (p & Hlp & Hpn & Hv).
  rewrite Hlp. cbn [mbind option_bind]. rewrite Hv. cbn [mbind option_bind].
  pose proof (take_drop_middle ix j p Hlp) as Hix. set (u := take j ix) in *. set (w := drop (S j) ix) in *.
  assert (length u = j) as Hlu by (unfold u; rewrite length_take, perm_length by done; lia).
  assert (Forall (fun p => p < n) u) as Hun.
  { apply list.Forall_forall. intros q Hq. unfold u in Hq. apply list_elem_of_lookup in Hq as [i Hi].
    apply lookup_take_Some in Hi as [Hi _]. apply list_elem_of_lookup_2 in Hi. unfold perm in Hp. rewrite Hp in Hi.
    apply elem_of_seq in Hi. lia. }
  destruct (insert_down_spec u p w (val ix j) m Hun) as (u1 & u2 & ix1 & m' & Hu & Hd & Hput & Hgt & Hend).
  rewrite Hlu, Hix in Hd. rewrite Hd. cbn [mbind option_bind].
  replace (Z.to_nat (Z.of_nat (length u1) - 1 + 1)) with (length u1) by lia. rewrite Hput. cbn [mbind option_bind].
  assert (ix = u1 ++ u2 ++ p :: w) as Hix2 by (by rewrite app_assoc, <- Hu).
  rewrite Hix2 in Hp. destruct (shifted_cells u1 p u2 w _ eq_refl Hp) as [Hsh Hp']. rewrite <- Hu, Hlu, <- Hix2 in Hsh. rewrite <- Hix2 in Hp.
  set (ix' := u1 ++ p :: u2 ++ w) in *.
  assert (length u1 <= j) as Hu1 by (rewrite <- Hlu, Hu, length_app; lia).
  assert (forall x q, u !! x = Some q -> val ix x = key q) as Hkey.
  { intros x q Hx. unfold val, key. rewrite <- Hix. by rewrite (lookup_app_l_Some _ _ _ _ Hx). }
  assert (forall x, length u1 <= x < j -> (fcmp (val ix x) (val ix j) > 0)%Z) as Hup.
  { intros x Hx. destruct (lookup_lt_is_Some_2 u x) as [q Hq]; [lia|]. rewrite (Hkey x q Hq). apply Hgt.
    rewrite Hu, lookup_app_r in Hq by lia. by apply list_elem_of_lookup_2 in Hq. }
  assert (l <= length u1) as Hl1.
  { apply Nat.nlt_ge. intros Hlt. pose proof (Hup (l - 1) ltac:(lia)).
    pose proof (Hbelow ix Hre (l - 1) j ltac:(lia) ltac:(unfold inside; lia)) as Hb. unfold ord in Hb. lia. }
  destruct (m' =? 0)%Z eqn:Em; zb.
  - do 2 eexists. split; [done|]. left. split; [done|]. split; [done|]. split; [done|]. split; [done|].
    destruct Hend as [(-> & [[-> _]|?])|(u0 & q & Hq & Hmq & _)]; [cbn in Hlu; lia|lia|].
    assert (length u1 = S (length u0)) as Hl0 by (rewrite Hq, length_app; simpl; lia).
    exists (length u0). split; [cbn; lia|]. split; [cbn; lia|]. exists (length u1).
    split; [lia|]. split; [lia|]. cbn [e_ix]. rewrite !(shifted_val ix (length u1) j ix') by done.
    rewrite decide_True by lia. rewrite decide_False, decide_True by lia.
    rewrite (Hkey (length u0) q); [lia|]. rewrite Hu, Hq, <- app_assoc. by apply list_lookup_middle.
  - apply IH; [|lia|lia|done]. split; [done|]. split.
    + etrans; [exact Hre|]. by apply (shifted_rearranged ix (length u1) j); [..|lia].
    + apply (shifted_order ix (length u1) j ix' (val ix j)); [done..| |done].
      destruct Hend as [(-> & _)|(u0 & q & Hq & Hmq & ?)]; [by left|right].
      assert (length u1 = S (length u0)) as Hl0 by (rewrite Hq, length_app; simpl; lia).
      replace (length u1 - 1) with (length u0) by lia. rewrite (Hkey (length u0) q); [lia|].
      rewrite Hu, Hq, <- app_assoc. by apply list_lookup_middle.
Qed.
End Insertion.

(** ** The partition *)

Lemma scan_up_spec fuel ix a i j :
  perm ix -> i < j < n -> (fcmp (val ix j) a >= 0)%Z -> j - i <= fuel ->
  exists i' m, scan_up cmp cv fuel ix a i = Some (i', m, LDAP_SUCCESS) /\ i < i' <= j /\
    m = fcmp (val ix i') a /\ (m >= 0)%Z /\ forall z, i < z < i' -> (fcmp (val ix z) a < 0)%Z.
Proof using Hcmp.
  intros Hp. revert i. induction fuel as [|fuel IH]; intros i Hi Hs Hf; [lia|].
  cbn [scan_up]. rewrite at_ix_val by (done || lia). cbn [mbind option_bind]. rewrite comp_eq.
  destruct (fcmp (val ix (S i)) a <? 0)%Z eqn:E; zb.
  - destruct (decide (S i = j)) as [<- |]; [lia|].
    destruct (IH (S i) ltac:(lia) Hs ltac:(lia)) as (i' & m & -> & ? & -> & ? & Hz). do 2 eexists. split; [done|].
    split_and!; try done; try lia. intros z Hzi. destruct (decide (z = S i)) as [-> |]; [done|]. apply Hz. lia.
  - do 2 eexists. split; [done|]. split_and!; try done; lia.
Qed.

Lemma scan_down_spec fuel ix a j b m :
  perm ix -> b < j <= n -> (fcmp (val ix b) a <= 0)%Z -> (m > 0)%Z -> j - b < fuel ->
  exists j' m', scan_down cmp cv fuel ix a j m LDAP_SUCCESS = Some (j', m', LDAP_SUCCESS) /\ b <= j' < j /\
    m' = fcmp (val ix j') a /\ (m' <= 0)%Z /\ forall z, j' < z < j -> (fcmp (val ix z) a > 0)%Z.
Proof using Hcmp.
  intros Hp. revert j m. induction fuel as [|fuel IH]; intros j m Hj Hs Hm Hf; [lia|].
  cbn [scan_down]. destruct (m >? 0)%Z eqn:E; zb; [|lia]. destruct j as [|j]; [lia|]. cbn [mbind option_bind].
  rewrite at_ix_val by (done || lia). cbn [mbind option_bind]. rewrite comp_eq.
  destruct (decide (fcmp (val ix j) a > 0)%Z) as [Hgt|Hle].
  - destruct (decide (j = b)) as [-> |]; [lia|].
    destruct (IH j (fcmp (val ix j) a) ltac:(lia) Hs Hgt ltac:(lia)) as (j' & m' & -> & ? & -> & ? & Hz). do 2 eexists. split; [done|].
    split_and!; try done; try lia. intros z Hzi. destruct (decide (z = j)) as [-> |]; [done|]. apply Hz. lia.
  - do 2 eexists. split.
    { destruct fuel as [|fuel]; [lia|]. cbn [scan_down]. destruct (_ >? 0)%Z eqn:E1; zb; [lia|done]. }
    split_and!; try done; lia.
Qed.

Section Partition.
Context (l ir : nat) (Hl : S l < ir < n).

(** Positions behind the pivot up to [i] are below it, those from [j] above. *)
Definition parted (ix : list nat) (a : berval) (i j : nat) : Prop :=
  perm ix /\ val ix (S l) = a /\ S l <= i /\ i < j <= ir /\
  (forall z, S l < z <= i -> (fcmp (val ix z) a < 0)%Z) /\ (forall z, j <= z <= ir -> (fcmp (val ix z) a > 0)%Z).

(** Where the partition ends: a second value equal to the pivot, or two sides. *)
Definition parted_end (ix : list nat) (a : berval) (i j : nat) (m : Z) : Prop :=
  (m = 0%Z /\ equal_at ix i) \/
  (m = 1%Z /\ i = S j /\ S l <= j < ir /\
   (forall z, S l < z <= j -> (fcmp (val ix z) a < 0)%Z) /\ (forall z, i <= z <= ir -> (fcmp (val ix z) a > 0)%Z)).

Lemma equal_pivot ix z : S l < z < n -> fcmp (val ix z) (val ix (S l)) = 0%Z -> equal_at ix (S l).
Proof using Hl Comparison0.
  intros Hz E. split; [lia|]. exists z. split; [lia|]. split; [lia|].
  pose proof (cmp_swap (fcmp:=fcmp) (val ix z) (val ix (S l))). lia.
Qed.

Lemma partition_spec fuel : forall ix a i j,
  parted ix a i j -> j - i <= fuel ->
  exists ix' i' j' m, partition cmp cv fuel ix a l i j = Some (ix', i', j', m, LDAP_SUCCESS) /\ perm ix' /\
    rearranged l ir ix ix' /\ val ix' (S l) = a /\ val ix' l = val ix l /\ parted_end ix' a i' j' m.
Proof using All.
  induction fuel as [|fuel IH]; intros ix a i j (Hp & Ha & Hi & Hij & Hlow & Hup) Hf; [lia|].
  pose proof (cmp_swap (fcmp:=fcmp) a a) as Hrefl. pose proof (perm_length _ Hp) as Hlen.
  cbn [partition]. destruct (scan_up_spec (S (length ix)) ix a i j Hp) as (i' & m & -> & Hi' & Hm & Hm0 & Hzi);
    [lia|pose proof (Hup j ltac:(lia)); lia|lia|]. cbn [mbind option_bind].
  assert (forall z, S l < z < i' -> (fcmp (val ix z) a < 0)%Z) as Hlow'.
  { intros z Hz. destruct (decide (z <= i)); [apply Hlow; lia|apply Hzi; lia]. }
  destruct (decide (m = 0%Z)) as [Em|Em].
  { cbn [scan_down]. rewrite Em. cbn [Z.gtb Z.compare mbind option_bind]. rewrite (proj2 (Nat.ltb_ge _ _)) by lia. cbn [Z.eqb].
    do 4 eexists. split; [done|]. split; [done|]. split; [done|]. split; [done|]. split; [done|]. left. split; [done|].
    apply (equal_pivot _ i'); [lia|]. rewrite Ha. congruence. }
  destruct (scan_down_spec (S (length ix)) ix a j (S l) m Hp) as (j' & m' & -> & Hj' & Hm' & Hm0' & Hzj);
    [lia|rewrite Ha; lia|lia|lia|]. cbn [mbind option_bind].
  assert (forall z, j' < z <= ir -> (fcmp (val ix z) a > 0)%Z) as Hup'.
  { intros z Hz. destruct (decide (j <= z)); [apply Hup; lia|apply Hzj; lia]. }
  destruct (j' <? i') eqn:Ej; [apply Nat.ltb_lt in Ej|apply Nat.ltb_ge in Ej].
  - assert (i' = S j') as ->.
    { destruct (decide (S j' < i')); [|lia]. pose proof (Hlow' (S j') ltac:(lia)). pose proof (Hup' (S j') ltac:(lia)). lia. }
    do 4 eexists. split; [done|]. split; [done|]. split; [done|]. split; [done|]. split; [done|]. right.
    split; [done|]. split; [done|]. split; [lia|]. split; intros z Hz; [apply Hlow'; lia|apply Hup'; lia].
  - assert (j' <> i') as Hne by (intros ->; lia).
    destruct (m' =? 0)%Z eqn:Em'; zb.
    + do 4 eexists. split; [done|]. split; [done|]. split; [done|]. split; [done|]. split; [done|]. left. split; [done|].
      apply (equal_pivot _ j'); [lia|]. rewrite Ha. congruence.
    + destruct (exch_spec ix i' j' l ir) as (ix1 & -> & Hre & Hp1 & Hv); [done|lia|lia|unfold inside; lia|unfold inside; lia|].
      cbn [mbind option_bind]. unfold swap in Hv.
      destruct (IH ix1 a i' j') as (ix' & i2 & j2 & m2 & -> & ? & ? & ? & Hvl & ?).
      * split; [done|]. rewrite Hv, !decide_False by lia. split; [done|]. split; [lia|]. split; [lia|].
        split; intros z Hz; rewrite Hv.
        -- destruct (decide (z = i')); [lia|]. rewrite decide_False by lia. apply Hlow'. lia.
        -- rewrite decide_False by lia. destruct (decide (z = j')); [lia|]. apply Hup'. lia.
      * lia.
      * do 4 eexists. split; [done|]. split; [done|]. split; [by etrans|]. split; [done|]. split; [|done].
        rewrite Hvl, Hv. by rewrite !decide_False by lia.
Qed.
End Partition.

(** ** Splitting a piece *)

(** The first two or last two of three equal values. *)
Lemma stop_at ix i x :
  perm ix -> i < n -> x < n -> x <> i -> fcmp (val ix i) (val ix x) = 0%Z -> stopped (mkEnded ix (Z.of_nat i) 0 LDAP_SUCCESS).
Proof. intros. split; [done|]. split; [done|]. split; [done|]. exists i. split; [done|]. split; [done|]. by exists x. Qed.

(** The pivot is between the left and the right value. *)
Lemma median_spec ix l ir :
  perm ix -> S l < ir < n ->
  exists ix1, EXCH ix ((l + ir) / 2) (S l) = Some ix1 /\
  exists ix2 m2, order2 cmp cv ix1 l ir = Some (ix2, m2, LDAP_SUCCESS) /\
  (m2 = 0%Z /\ stopped (mkEnded ix2 (Z.of_nat ir) 0 LDAP_SUCCESS) \/ m2 <> 0%Z /\
  exists ix3 m3, order2 cmp cv ix2 (S l) ir = Some (ix3, m3, LDAP_SUCCESS) /\
  (m3 = 0%Z /\ stopped (mkEnded ix3 (Z.of_nat ir) 0 LDAP_SUCCESS) \/ m3 <> 0%Z /\
  exists ix4 m4, order2 cmp cv ix3 l (S l) = Some (ix4, m4, LDAP_SUCCESS) /\
  (m4 = 0%Z /\ stopped (mkEnded ix4 (Z.of_nat l) 0 LDAP_SUCCESS) \/ m4 <> 0%Z /\
  perm ix4 /\ rearranged l ir ix ix4 /\ ord ix4 l (S l) /\ ord ix4 (S l) ir))).
Proof using Hcmp Comparison0.
  intros Hp Hl. assert (l <= (l + ir) / 2 <= ir) as Hk.
  { split; [apply Nat.div_le_lower_bound; lia|apply Nat.Div0.div_le_upper_bound; lia]. }
  assert (inside l ir l /\ inside l ir (S l) /\ inside l ir ir) as (I0 & I1 & I2) by (unfold inside; lia).
  destruct (exch_spec ix ((l + ir) / 2) (S l) l ir) as (ix1 & H1 & Hre1 & Hp1 & _); [done|lia|lia|done|done|].
  exists ix1. split; [done|].
  destruct (order2_spec ix1 l ir l ir) as (ix2 & m2 & H2 & Hp2 & Hre2 & Hc2); [done|lia|lia|done|done|].
  exists ix2, m2. split; [done|]. destruct Hc2 as [(Hm2 & -> & E2)|(Hm2 & Ho2 & _)]; [left|right].
  { split; [done|]. apply (stop_at _ ir l); try done; try lia. pose proof (cmp_swap (fcmp:=fcmp) (val ix1 l) (val ix1 ir)). lia. }
  split; [done|].
  destruct (order2_spec ix2 (S l) ir l ir) as (ix3 & m3 & H3 & Hp3 & Hre3 & Hc3); [done|lia|lia|done|done|].
  exists ix3, m3. split; [done|]. destruct Hc3 as [(Hm3 & -> & E3)|(Hm3 & Ho3 & Hc3)]; [left|right].
  { split; [done|]. apply (stop_at _ ir (S l)); try done; try lia. pose proof (cmp_swap (fcmp:=fcmp) (val ix2 (S l)) (val ix2 ir)). lia. }
  split; [done|].
  assert (ord ix3 l ir) as Ho3'.
  { destruct Hc3 as [(_ & ->)|(_ & Hv)]; [done|]. unfold ord in *. rewrite !Hv in *. unfold swap in *.
    rewrite decide_False, decide_False in * by lia. rewrite decide_True in Ho3 by done. rewrite decide_False, decide_True in * by lia.
    by apply (cmp_lt_le (fcmp:=fcmp) _ (val ix2 ir)); [|lia]. }
  destruct (order2_spec ix3 l (S l) l ir) as (ix4 & m4 & H4 & Hp4 & Hre4 & Hc4); [done|lia|lia|done|done|].
  exists ix4, m4. split; [done|]. destruct Hc4 as [(Hm4 & -> & E4)|(Hm4 & Ho4 & Hc4)]; [left|right].
  { split; [done|]. apply (stop_at _ l (S l)); try done; lia. }
  split; [done|]. split; [done|]. split; [by etrans; [exact Hre1|]; etrans; [exact Hre2|]; etrans; [exact Hre3|]|]. split; [done|].
  destruct Hc4 as [(_ & ->)|(_ & Hv)]; [done|]. unfold ord. rewrite !Hv. unfold swap.
  rewrite decide_False, decide_True by lia. by rewrite !decide_False by lia.
Qed.

(** Two sides, every value of the left one below every value of the right one. *)
Definition two_sides (l ir : nat) (ix ix' : list nat) (i j : nat) : Prop :=
  perm ix' /\ rearranged l ir ix ix' /\ i = S j /\ l < j < ir /\
  forall x y, inside l j x -> inside i ir y -> ord ix' x y.

Lemma split_piece_spec ix l ir :
  perm ix -> S l < ir < n -> exists r, split_piece cmp cv ix l ir = Some r /\
    match r with inl e => stopped e | inr (ix', i, j, rc) => rc = LDAP_SUCCESS /\ two_sides l ir ix ix' i j end.
Proof using Hcmp Comparison0.
  intros Hp Hl. unfold split_piece.
  destruct (median_spec ix l ir Hp Hl) as (ix1 & -> & ix2 & m2 & H2 & Hc2). cbn [mbind option_bind]. rewrite H2. cbn [mbind option_bind].
  destruct Hc2 as [[-> Hs]|(Hm2 & ix3 & m3 & H3 & Hc3)]; [by eexists|]. rewrite (proj2 (Z.eqb_neq _ _) Hm2), H3. cbn [mbind option_bind].
  destruct Hc3 as [[-> Hs]|(Hm3 & ix4 & m4 & H4 & Hc4)]; [by eexists|]. rewrite (proj2 (Z.eqb_neq _ _) Hm3), H4. cbn [mbind option_bind].
  destruct Hc4 as [[-> Hs]|(Hm4 & Hp4 & Hre & Ho1 & Ho2)]; [by eexists|]. rewrite (proj2 (Z.eqb_neq _ _) Hm4).
  rewrite at_ix_val by (done || lia). cbn [mbind option_bind]. pose proof (perm_length _ Hp4).
  destruct (partition_spec l ir Hl (S (length ix4)) ix4 (val ix4 (S l)) (S l) ir) as (ix5 & i & j & m & -> & Hp5 & Hre5 & Ha & Hvl & Hend).
  { split; [done|]. split; [done|]. split; [lia|]. split; [lia|]. split; intros z Hz; [lia|].
    replace z with ir by lia. unfold ord in Ho2. pose proof (cmp_swap (fcmp:=fcmp) (val ix4 (S l)) (val ix4 ir)). lia. }
  { lia. }
  cbn [mbind option_bind]. destruct Hend as [[-> He]|(-> & -> & Hj & Hlow & Hup)].
  { eexists. split; [done|]. split; [done|]. split; [done|]. split; [done|]. by exists i. }
  cbn [Z.eqb]. destruct (exch_spec ix5 (S l) j l ir) as (ix6 & -> & Hre6 & Hp6 & Hv6);
    [done|lia|lia|unfold inside; lia|unfold inside; lia|].
  cbn [mbind option_bind]. eexists. split; [done|]. split; [done|]. split; [done|].
  split; [by etrans; [exact Hre|]; etrans; [exact Hre5|]|]. split; [done|]. split; [lia|].
  intros x y Hx Hy. unfold inside in *. unfold ord. rewrite !Hv6. unfold swap.
  rewrite (decide_False (P := y = S l)), (decide_False (P := y = j)) by lia.
  pose proof (Hup y ltac:(lia)) as Hgt. rewrite <- Ha in Hgt.
  pose proof (cmp_swap (fcmp:=fcmp) (val ix5 (S l)) (val ix5 y)). pose proof (cmp_swap (fcmp:=fcmp) (val ix5 y) (val ix5 (S l))).
  enough (fcmp (val ix5 (if decide (x = S l) then j else if decide (x = j) then S l else x)) (val ix5 (S l)) <= 0)%Z.
  { apply (cmp_le_lt (fcmp:=fcmp) _ (val ix5 (S l))); lia. }
  pose proof (cmp_swap (fcmp:=fcmp) (val ix5 (S l)) (val ix5 (S l))). rewrite <- Ha in Hlow.
  destruct (decide (x = S l)) as [-> |]; [|destruct (decide (x = j)) as [-> |]; [lia|]].
  - destruct (decide (j = S l)) as [-> |]; [lia|]. pose proof (Hlow j ltac:(lia)). lia.
  - destruct (decide (x = l)) as [-> |]; [|pose proof (Hlow x ltac:(lia)); lia].
    rewrite Hvl, Ha. unfold ord in Ho1. lia.
Qed.

(** ** The pieces to do *)

Definition covered (segs : list (nat * nat)) (x y : nat) : Prop :=
  exists l r, (l, r) ∈ segs /\ inside l r x /\ inside l r y.

Definition in_order_but (segs : list (nat * nat)) (ix : list nat) : Prop :=
  forall x y, x < y < n -> ord ix x y \/ covered segs x y.

(** The pieces are apart from each other. *)
Fixpoint apart (segs : list (nat * nat)) : Prop :=
  match segs with
  | [] => True
  | (l, r) :: segs => l <= r < n /\ (forall l' r', (l', r') ∈ segs -> r' < l \/ r < l') /\ apart segs
  end.

(** A piece with [k] others below it on the stack has at most the 2^k-th part of
    the values. *)
Fixpoint halved (segs : list (nat * nat)) : Prop :=
  match segs with
  | [] => True
  | (l, r) :: segs => (r - l + 1) * 2 ^ length segs <= n /\ halved segs
  end.

Fixpoint work (segs : list (nat * nat)) : nat :=
  match segs with [] => 0 | (l, r) :: segs => (2 * (r - l) + 1) + work segs end.

Lemma covered_cons l r segs x y : covered ((l, r) :: segs) x y <-> inside l r x /\ inside l r y \/ covered segs x y.
Proof.
  split.
  - intros (l' & r' & [[= -> ->]|Hin]%elem_of_cons & Hx & Hy); [by left|right]. by exists l', r'.
  - intros [[Hx Hy]|(l' & r' & Hin & Hx & Hy)]; [exists l, r|exists l', r']; (split; [|done]); [left|by right].
Qed.

(** What lies across the border of a piece stays in order when it is rearranged. *)
Lemma across l r segs ix ix' x y :
  in_order_but ((l, r) :: segs) ix -> apart ((l, r) :: segs) -> rearranged l r ix ix' ->
  x < y < n -> ~ (inside l r x /\ inside l r y) -> ord ix' x y \/ covered segs x y.
Proof.
  intros Ho (Hlr & Hap & _) Hre Hxy Hn. unfold ord.
  assert (forall x y, inside l r x -> ~ inside l r y -> ~ covered segs x y /\ ~ covered segs y x) as Hc.
  { intros x' y' Hx Hy. split; intros (l' & r' & Hin & H1 & H2); pose proof (Hap l' r' Hin); unfold inside in *; lia. }
  destruct (decide (l <= x <= r)) as [Hx|Hx]; destruct (decide (l <= y <= r)) as [Hy|Hy]; [by destruct Hn| | |].
  - left. destruct (re_in _ _ _ _ Hre x Hx) as (x' & Hx' & E). rewrite (val_ext _ _ _ _ E), (val_ext _ _ _ _ (re_out _ _ _ _ Hre y Hy)).
    destruct (Ho x' y) as [?|[[_ ?]|Hcov]%covered_cons]; [unfold inside in *; lia|done|done|]. by destruct (Hc x' y Hx' Hy) as [? _].
  - left. destruct (re_in _ _ _ _ Hre y Hy) as (y' & Hy' & E). rewrite (val_ext _ _ _ _ E), (val_ext _ _ _ _ (re_out _ _ _ _ Hre x Hx)).
    destruct (Ho x y') as [?|[[? _]|Hcov]%covered_cons]; [unfold inside in *; lia|done|done|]. by destruct (Hc y' x Hy' Hx) as [_ ?].
  - rewrite (val_ext _ _ _ _ (re_out _ _ _ _ Hre x Hx)), (val_ext _ _ _ _ (re_out _ _ _ _ Hre y Hy)).
    destruct (Ho x y Hxy) as [?|[[? _]|Hcov]%covered_cons]; [by left|done|by right].
Qed.

(** A piece that has been sorted. *)
Lemma piece_done l r segs ix ix' :
  in_order_but ((l, r) :: segs) ix -> apart ((l, r) :: segs) -> inserted_to l r ix (S r) ix' -> in_order_but segs ix'.
Proof.
  intros Ho Ha (_ & Hre & Hin) x y Hxy.
  destruct (decide (l <= x <= r /\ l <= y <= r)) as [[Hx Hy]|Hn]; [left; apply Hin; lia|].
  by apply (across l r segs ix ix').
Qed.

(** A piece that has been split. *)
Lemma piece_split l r segs ix ix' i j a b :
  in_order_but ((l, r) :: segs) ix -> apart ((l, r) :: segs) -> two_sides l r ix ix' i j ->
  (a, b) = ((l, j), (i, r)) \/ (a, b) = ((i, r), (l, j)) ->
  in_order_but (a :: b :: segs) ix' /\ apart (a :: b :: segs).
Proof.
  intros Ho Ha (_ & Hre & -> & Hj & Hs) Hab.
  assert (forall x y, covered (a :: b :: segs) x y <-> covered ((l, j) :: (S j, r) :: segs) x y) as Hcov.
  { intros x y. destruct Hab as [[= -> ->]|[= -> ->]]; [done|]. rewrite !covered_cons. tauto. }
  split.
  - intros x y Hxy. rewrite Hcov, !covered_cons. unfold inside in *.
    destruct (decide (l <= x <= r /\ l <= y <= r)) as [[Hx Hy]|Hn].
    + destruct (decide (y <= j)); [right; lia|]. destruct (decide (S j <= x)); [right; lia|]. left. apply Hs; lia.
    + destruct (across l r segs ix ix' x y) as [?|?]; [done..|by left|tauto].
  - destruct Ha as (Hlr & Hap & Ha). destruct Hab as [[= -> ->]|[= -> ->]]; cbn [apart].
    all: split; [lia|]; split; [|split; [lia|split; [|done]]].
    all: intros l' r'; try (intros Hin; pose proof (Hap l' r' Hin); lia).
    all: intros [[= -> ->]|Hin]%elem_of_cons; [lia|pose proof (Hap l' r' Hin); lia].
Qed.

(** The result of the sort. *)
Definition sorted_end (e : ended) : Prop :=
  (e.(e_match) <> 0)%Z /\ e.(e_rc) = LDAP_SUCCESS /\ perm e.(e_ix) /\ forall x y, x < y < n -> ord e.(e_ix) x y.

(** With less than 2^31 values the stack has room for another piece. *)
Lemma stack_room l r (stack : list (nat * nat)) :
  (Z.of_nat n < 2 ^ 31)%Z -> 8 <= r - l -> (r - l + 1) * 2 ^ length stack <= n -> (2 * S (length stack) <? 64) = true.
Proof.
  intros Hn Hs Hr. apply Nat.ltb_lt. destruct (decide (31 <= length stack)); [|lia]. exfalso.
  pose proof (Nat.pow_le_mono_r 2 31 (length stack) ltac:(lia) ltac:(lia)) as Hpow.
  assert (Z.of_nat (2 ^ 31) = 2 ^ 31)%Z as E by (rewrite Nat2Z.inj_pow; done).
  apply Nat2Z.inj_le in Hpow. rewrite E in Hpow. nia.
Qed.

Lemma sort_loop_spec fuel : forall ix l ir stack,
  (Z.of_nat n < 2 ^ 31)%Z -> perm ix -> let segs := (l, ir) :: stack in
  in_order_but segs ix -> apart segs -> halved segs -> work segs <= fuel ->
  exists e, sort_loop cmp cv fuel ix l ir stack LDAP_SUCCESS = Some e /\ (stopped e \/ sorted_end e).
Proof using All.
  induction fuel as [|fuel IH]; intros ix l ir stack Hn Hp segs Ho Ha Hh Hw; subst segs; [cbn in Hw; lia|].
  pose proof Ha as (Hlr & Hap & Has). cbn [sort_loop]. destruct (ir - l <? SMALL) eqn:E.
  - destruct (insertion_spec l ir ix Hlr) with (count := ir - l) (j := S l) (ix := ix) (m := 1%Z) as (b & e & -> & He).
    { intros ix' Hre z x Hz Hx. destruct (across l ir stack ix ix' z x) as [?|(l' & r' & Hin & H1 & H2)]; try done; unfold inside in *; [lia..|].
      pose proof (Hap l' r' Hin). lia. }
    { split; [done|]. split; [done|]. lia. }
    1-3: lia.
    cbn [mbind option_bind]. destruct He as [[-> Hs]|(-> & Hm & Hrc & Hin)]; [by exists e; auto|].
    pose proof (piece_done l ir stack ix (e_ix e) Ho Ha Hin) as Ho'. pose proof (proj1 Hin) as Hp'.
    destruct stack as [|[l' ir'] stack].
    + exists e. split; [done|]. right. split; [done|]. split; [done|]. split; [done|]. intros x y Hxy.
      destruct (Ho' x y Hxy) as [?|(? & ? & Hc & _)]; [done|]. by apply not_elem_of_nil in Hc.
    + rewrite Hrc. apply IH; try done; [by destruct Hh|]. cbn [work] in *. lia.
  - apply Nat.ltb_ge in E. unfold SMALL in E. destruct Hh as [Hh Hhs].
    destruct (split_piece_spec ix l ir Hp ltac:(lia)) as ([e|[[[ix' i] j] rc]] & -> & Hr); cbn [mbind option_bind]; [by exists e; auto|].
    destruct Hr as [-> Htwo]. pose proof Htwo as (Hp' & _ & Hi & Hj & _). rewrite (stack_room l ir) by done.
    assert (forall k s m, (2 * k <= s -> s * m <= n -> k * (2 * m) <= n)) as Hhalf by nia.
    cbn [work] in Hw. destruct (j - l <? ir - i + 1) eqn:Ec; [apply Nat.ltb_lt in Ec|apply Nat.ltb_ge in Ec].
    + destruct (piece_split l ir stack ix ix' i j (l, j) (i, ir) Ho Ha Htwo) as [Ho' Ha']; [by left|].
      apply IH; [done..| |cbn [work]; lia]. cbn [halved length]. rewrite Nat.pow_succ_r'.
      split; [apply (Hhalf _ (ir - l + 1)); [lia|done]|]. split; [|done].
      etrans; [|exact Hh]. apply Nat.mul_le_mono_r. lia.
    + destruct (piece_split l ir stack ix ix' i j (i, ir) (l, j) Ho Ha Htwo) as [Ho' Ha']; [by right|].
      apply IH; [done..| |cbn [work]; lia]. cbn [halved length]. rewrite Nat.pow_succ_r'.
      split; [apply (Hhalf _ (ir - l + 1)); [lia|done]|]. split; [|done].
      etrans; [|exact Hh]. apply Nat.mul_le_mono_r. lia.
Qed.

(** Either two equal values are found, or [ix] puts the values in order. *)
Lemma sort_ix_spec : 2 <= n -> (Z.of_nat n < 2 ^ 31)%Z -> exists e, sort_ix cmp cv n = Some e /\ (stopped e \/ sorted_end e).
Proof using All.
  intros H2 Hn. unfold sort_ix. apply sort_loop_spec; [done|unfold perm; reflexivity| | | |].
  - intros x y Hxy. right. exists 0, (n - 1). split; [left|]. unfold inside. lia.
  - split; [lia|]. split; [|done]. by intros l' r' ?%not_elem_of_nil.
  - split; [|done]. cbn. lia.
  - cbn. lia.
Qed.
End Facts.

(** * Sorting the values of an attribute: the theorem *)

Local Open Scope Z_scope.

(** The values that are compared: the normalised ones, if there are any. *)
Definition sort_keys (a : Attribute) : list berval := match a.(a_nvals) with NOwn n => n | _ => a_vals_list a end.

Definition sort_rule (oc ad : AttributeDescription) : option MatchingRule :=
  if ad_eq ad oc then None else ad.(ad_type).(sat_equality).

(** No two values are equal. *)
Definition no_equal (fcmp : berval -> berval -> Z) (l : list berval) : Prop :=
  forall i j v w, l !! i = Some v -> l !! j = Some w -> i <> j -> fcmp v w <> 0.

(** [dup] is the position of a value that is there twice. *)
Definition is_dup (fcmp : berval -> berval -> Z) (l : list berval) (dup : option nat) : Prop :=
  exists i j v w, dup = Some i /\ i <> j /\ l !! i = Some v /\ l !! j = Some w /\ fcmp v w = 0.

Lemma sorted_pairs {A} (R : A -> A -> Prop) l :
  (forall x y v w, (x < y)%nat -> l !! x = Some v -> l !! y = Some w -> R v w) -> StronglySorted R l.
Proof.
  induction l as [|a l IH]; intros H; constructor.
  - apply IH. intros x y v w Hxy Hx Hy. apply (H (S x) (S y)); (done || lia).
  - apply list.Forall_forall. intros b [i Hi]%list_elem_of_lookup. apply (H O (S i)); (done || lia).
Qed.

Lemma pick_seq {A} (d : A) (l : list A) : (fun p => default d (l !! p)) <$> seq 0 (length l) = l.
Proof.
  apply list_eq. intros i. rewrite list_lookup_fmap. destruct (decide (i < length l)%nat).
  - rewrite lookup_seq_lt by done. cbn. destruct (lookup_lt_is_Some_2 l i) as [x ->]; done.
  - rewrite lookup_seq_ge by lia. cbn. symmetry. apply lookup_ge_None. lia.
Qed.

(** [reorder] by a permutation of the positions. *)
Lemma reorder_spec ix l :
  ix ≡ₚ seq 0 (length l) -> reorder ix l = Some ((fun p => default [] (l !! p)) <$> ix).
Proof.
  intros Hp. unfold reorder. assert (forall p, p ∈ ix -> (p < length l)%nat) as Hlt.
  { intros p H. rewrite Hp in H. apply elem_of_seq in H. lia. }
  clear Hp. induction ix as [|p ix IH]; [done|]. cbn [mapM fmap list_fmap mbind option_bind].
  destruct (lookup_lt_is_Some_2 l p) as [v ->]; [apply Hlt; left|]. cbn. rewrite IH; [done|]. intros q Hq. apply Hlt. by right.
Qed.

Lemma reorder_zip ix (l k : list berval) :
  ix ≡ₚ seq 0 (length l) -> length l = length k ->
  zip ((fun p => default [] (l !! p)) <$> ix) ((fun p => default [] (k !! p)) <$> ix) ≡ₚ zip l k.
Proof.
  intros Hp Hl.
  assert (forall js, zip ((fun p => default [] (l !! p)) <$> js) ((fun p => default [] (k !! p)) <$> js) =
    (fun p => (default [] (l !! p), default [] (k !! p))) <$> js) as E by (induction js; [done|]; cbn; by f_equal).
  rewrite E, Hp, <- E, pick_seq, Hl, pick_seq. done.
Qed.

Section SortAttr.
Context (oc : AttributeDescription) (a : Attribute) (fcmp : berval -> berval -> Z) `{!Comparison fcmp}.

(** What [slap_sort_vals] makes of the attribute. *)
Definition sorts_to (b : Attribute) : Prop :=
  if a.(a_desc).(ad_type).(sat_sorted)
  then a_desc b = a_desc a /\ a_sorted b = a_sorted a /\ StronglySorted (cmp_lt fcmp) (sort_keys b) /\
    zip (a_vals_list b) (sort_keys b) ≡ₚ zip (a_vals_list a) (sort_keys a) /\
    (a_nvals a <> NNull -> a_sorted a = true -> sorted_attr b fcmp)
  else b = a.

Lemma keys_nvals b : a_nvals b <> NNull -> a_nvals_list b = sort_keys b.
Proof. unfold a_nvals_list, sort_keys. by destruct (a_nvals b). Qed.

(** An attribute that has been put in order. *)
Lemma sorts_to_intro b :
  a_desc b = a_desc a -> a_sorted b = a_sorted a -> (a_nvals b = NNull -> a_nvals a = NNull) ->
  StronglySorted (cmp_lt fcmp) (sort_keys b) -> length (sort_keys b) = a_numvals b -> Z.of_nat (a_numvals b) < 2 ^ 31 ->
  zip (a_vals_list b) (sort_keys b) ≡ₚ zip (a_vals_list a) (sort_keys a) ->
  (a.(a_desc).(ad_type).(sat_sorted) = false -> b = a) -> sorts_to b.
Proof.
  intros Hd Hf Hn Hs Hl Hsz Hz Hb. unfold sorts_to. destruct (sat_sorted _); [|by apply Hb].
  split_and!; [done..|]. intros Hnn Hsrt.
  assert (a_nvals b <> NNull) as Hnb by auto. split; [congruence|by rewrite keys_nvals|lia|by rewrite keys_nvals].
Qed.

Lemma few_sorted : length (sort_keys a) = a_numvals a -> (a_numvals a <= 1)%nat -> no_equal fcmp (sort_keys a) /\ sorts_to a.
Proof.
  intros Hl H1. rewrite <- Hl in H1. split.
  - intros i j v w Hi Hj. apply lookup_lt_Some in Hi, Hj. lia.
  - apply sorts_to_intro; try done; try lia.
    destruct (sort_keys a) as [|x [|y l]]; [constructor|repeat constructor|cbn in H1; lia].
Qed.

(** The keys in the order of [ix]. *)
Lemma sorted_keys_ix ix :
  perm (sort_keys a) ix -> (forall x y, (x < y < length (sort_keys a))%nat -> ord (sort_keys a) fcmp ix x y) ->
  StronglySorted (cmp_lt fcmp) ((fun p => default [] (sort_keys a !! p)) <$> ix) /\ no_equal fcmp (sort_keys a).
Proof using Comparison0.
  intros Hp Ho. pose proof (perm_length _ _ Hp) as Hlen.
  assert (forall x y v w, (x < y)%nat -> ((fun p => default [] (sort_keys a !! p)) <$> ix) !! x = Some v ->
    ((fun p => default [] (sort_keys a !! p)) <$> ix) !! y = Some w -> fcmp v w < 0) as Hlt.
  { intros x y v w Hxy Hx Hy. rewrite list_lookup_fmap in Hx, Hy.
    assert (y < length (sort_keys a))%nat as Hyn.
    { destruct (ix !! y) eqn:E; [|done]. apply lookup_lt_Some in E. lia. }
    pose proof (Ho x y ltac:(lia)) as H. unfold ord, val in H.
    destruct (ix !! x), (ix !! y); [|done..]. cbn in *. simplify_eq. done. }
  split; [by apply sorted_pairs|]. intros i j v w Hi Hj Hij.
  assert (forall k u, sort_keys a !! k = Some u -> exists x, ix !! x = Some k) as Hpos.
  { intros k u Hk. apply list_elem_of_lookup. unfold perm in Hp. rewrite Hp. apply elem_of_seq. apply lookup_lt_Some in Hk. lia. }
  destruct (Hpos i v Hi) as [x Hx]. destruct (Hpos j w Hj) as [y Hy].
  assert (forall x k u, ix !! x = Some k -> sort_keys a !! k = Some u ->
    ((fun p => default [] (sort_keys a !! p)) <$> ix) !! x = Some u) as Hval.
  { intros x' k u H1 H2. rewrite list_lookup_fmap, H1. cbn. by rewrite H2. }
  destruct (Nat.lt_total x y) as [H|[->|H]]; [|congruence|].
  - pose proof (Hlt x y v w H (Hval _ _ _ Hx Hi) (Hval _ _ _ Hy Hj)). lia.
  - pose proof (Hlt y x w v H (Hval _ _ _ Hy Hj) (Hval _ _ _ Hx Hi)). pose proof (cmp_swap (fcmp:=fcmp) w v).
    pose proof (cmp_swap (fcmp:=fcmp) v w). lia.
Qed.

(** The end of the function, when the sort has found all values different. *)
Lemma reordered ix :
  length (sort_keys a) = a_numvals a -> Z.of_nat (a_numvals a) < 2 ^ 31 -> a.(a_desc).(ad_type).(sat_sorted) = true ->
  perm (sort_keys a) ix -> StronglySorted (cmp_lt fcmp) ((fun p => default [] (sort_keys a !! p)) <$> ix) ->
  exists vals nv, reorder ix (a_vals_list a) = Some vals /\
    (match a.(a_nvals) with NOwn n => n ← reorder ix n; Some (NOwn n) | x => Some x end) = Some nv /\
    sorts_to (mkAttr a.(a_desc) (Some vals) nv a.(a_sorted)).
Proof using Comparison0.
  intros Hl Hn Hsrt Hp Hs. pose proof (perm_length _ _ Hp) as Hlen. unfold perm in Hp. pose proof Hp as Hp2. rewrite Hl in Hp2.
  set (vals := (fun p => default [] (a_vals_list a !! p)) <$> ix). set (keys := (fun p => default [] (sort_keys a !! p)) <$> ix) in *.
  assert (exists nv, (match a.(a_nvals) with NOwn n => n ← reorder ix n; Some (NOwn n) | x => Some x end) = Some nv /\
    sort_keys (mkAttr a.(a_desc) (Some vals) nv a.(a_sorted)) = keys /\ (nv = NNull -> a_nvals a = NNull)) as (nv & Hnv & Hk & Hnull).
  { unfold keys, vals, sort_keys in *. destruct (a_nvals a) as [| |l]; [by eexists|by eexists|].
    rewrite reorder_spec by done. by eexists. }
  exists vals, nv. split; [by apply reorder_spec|]. split; [done|].
  apply sorts_to_intro; try done.
  - by rewrite Hk.
  - rewrite Hk. unfold a_numvals, a_vals_list at 1. cbn. unfold keys, vals. by rewrite !length_fmap.
  - unfold a_numvals, a_vals_list. cbn. unfold vals. rewrite length_fmap. lia.
  - rewrite Hk. unfold a_vals_list at 1. cbn. apply reorder_zip; [done|]. by rewrite Hl.
  - congruence.
Qed.

(** C11: [slap_sort_vals] finds out whether a value occurs twice. If one does, the
    answer is [LDAP_TYPE_OR_VALUE_EXISTS] with its position, and the attribute
    is left alone. Otherwise all values differ, and those of a type with sorted
    values are put in the ascending order that the searches of [attr_valfind]
    rely on, each with its normalised form. The sort ends and stays in its
    arrays, its stack of 64 integers included, for any number of values that
    an [int] can count. *)
Theorem slap_sort_vals_correct :
  (forall v w, ordered_value_match a.(a_desc) (sort_rule oc a.(a_desc)) sort_flags v w = inr (fcmp v w)) ->
  length (sort_keys a) = a_numvals a -> Z.of_nat (a_numvals a) < 2 ^ 31 ->
  exists rc dup b, slap_sort_vals oc a = Some (rc, dup, b) /\
    (rc = LDAP_TYPE_OR_VALUE_EXISTS /\ is_dup fcmp (sort_keys a) dup /\ b = a \/
     rc = LDAP_SUCCESS /\ no_equal fcmp (sort_keys a) /\ sorts_to b).
Proof using Comparison0.
  intros Hcmp Hl Hn. unfold slap_sort_vals. fold (sort_keys a). fold (sort_rule oc a.(a_desc)).
  destruct (a_numvals a <=? 1)%nat eqn:E1; [apply Nat.leb_le in E1|apply Nat.leb_gt in E1].
  { do 3 eexists. split; [done|]. right. destruct (few_sorted Hl E1). done. }
  destruct (sort_ix_spec _ (sort_keys a) fcmp Hcmp) as (e & Hsort & He); [lia|lia|]. rewrite Hl in Hsort. rewrite Hsort. cbn [mbind option_bind].
  destruct He as [(Hm & Hrc & Hp & i & Hi & Hin & j & Hj & Hij & Heq)|(Hm & Hrc & Hp & Ho)].
  - rewrite Hm, Hrc, Hi. rewrite Z.geb_leb, (proj2 (Z.leb_le _ _)) by lia. cbn [Z.eqb andb]. rewrite Nat2Z.id.
    destruct (perm_lookup _ _ i Hp Hin) as (p & Hpi & Hpn & Hpv). destruct (perm_lookup _ _ j Hp Hj) as (q & Hqj & Hqn & Hqv).
    rewrite Hpi. cbn [mbind option_bind negb andb]. change (LDAP_SUCCESS =? LDAP_SUCCESS) with true. cbn [andb mbind option_bind].
    rewrite (proj2 (Z.ltb_lt _ _)) by lia. cbn [andb]. do 3 eexists. split; [done|]. left.
    split; [done|]. split; [|done]. exists p, q, (val (sort_keys a) (e_ix e) i), (val (sort_keys a) (e_ix e) j).
    split_and!; try done. intros ->. apply Hij. by apply (perm_inj _ _ _ _ q Hp).
  - rewrite (proj2 (Z.eqb_neq _ _) Hm), Hrc. change (LDAP_SUCCESS =? LDAP_SUCCESS) with true. cbn [andb negb mbind option_bind].
    destruct (sorted_keys_ix _ Hp Ho) as [Hs Hne]. destruct (sat_sorted _) eqn:Es.
    + destruct (reordered (e_ix e) Hl Hn Es Hp Hs) as (vals & nv & -> & Hnv & Hto). cbn [mbind option_bind]. rewrite Hnv.
      cbn [mbind option_bind]. do 3 eexists. split; [done|]. right. done.
    + cbn [mbind option_bind]. do 3 eexists. split; [done|]. right. split; [done|]. split; [done|]. unfold sorts_to. by rewrite Es.
Qed.
End SortAttr.

Lemma slap_sort_vals_correct_witness :
  let l := ["m"; "c"; "q"; "xy"; "a"; "zz"; "d"; "b"; "n"; "k"; "f"; "ab"]%string in
  let a := bytes_attr l in
  let b := bytes_attr ["a"; "b"; "c"; "d"; "f"; "k"; "m"; "n"; "q"; "ab"; "xy"; "zz"]%string in
  slap_sort_vals (mkAD 99 bytes_at) a = Some (LDAP_SUCCESS, None, b) /\
  exists rc dup b, slap_sort_vals (mkAD 99 bytes_at) a = Some (rc, dup, b) /\
    (rc = LDAP_TYPE_OR_VALUE_EXISTS /\ is_dup ber_bvcmp (sort_keys a) dup /\ b = a \/
     rc = LDAP_SUCCESS /\ no_equal ber_bvcmp (sort_keys a) /\ sorts_to a ber_bvcmp b).
Proof. intros l a b. split; [vm_compute; reflexivity|]. apply (slap_sort_vals_correct (mkAD 99 bytes_at) a ber_bvcmp); done. Defined.
