(* ===== verification/Id2Entry.v ===== *)
(** * Entries in the database (servers/slapd/back-mdb/id2entry.c, attr.c)

    An entry is stored as 32-bit words, which count and measure its values, and the
    octets of the values behind them; attributes with many values have them in a table of
    their own. The database is what the calls of libmdbx are given and give: the names of
    the attribute table in the order of their numbers, and the items of one entry and
    attribute in the order of the database. *)

From stdpp Require Import gmap.
From Stdlib Require Import Ascii String.
From S2P Require Import Prelude Text Attr BerEncode SortVals.

Local Open Scope Z_scope.
Local Abbreviation length := List.length.

Definition MDB_MAXADS : Z := 65536.
Definition MDB_AT_SORTED : Z := 2 ^ 31.
Definition MDB_AT_MULTI : Z := 2 ^ 30.
Definition MDB_AT_NVALS : Z := 2 ^ 31.
Definition LDAP_UNDEFINED_TYPE : Z := 0x11.
Definition UINT_MAX : Z := 2 ^ 32 - 1.
Definition LDAP_ADMINLIMIT_EXCEEDED : Z := 0x0b.

(** Of mdbx.h. *)
Definition MDBX_NOOVERWRITE : Z := 0x10.
Definition MDBX_RESERVE : Z := 0x10000.
Definition MDBX_APPEND : Z := 0x20000.
Definition MDBX_KEYEXIST : Z := -30799.
Definition ADD_FLAGS : Z := Z.lor MDBX_NOOVERWRITE MDBX_APPEND.

(** [mi_ads], [mi_adxs]: arrays of MDB_MAXADS cells, null where the maps have nothing. *)
Record mdb_info := mkInfo { mi_ads : gmap Z AttributeDescription; mi_adxs : gmap Z Z; mi_numads : Z; mi_multi_hi : Z }.

(** An attribute of an entry, with [SLAP_ATTR_BIG_MULTI]. *)
Record eattr := mkEA { ea : Attribute; ea_multi : bool }.

Record Entry := mkEntry { e_attrs : list eattr; e_ocflags : Z }.

(** [multi]: the position of the first attribute with many values. *)
Record Ecount := mkEC { ec_len : Z; ec_dlen : Z; ec_nattrs : Z; ec_nvals : Z; ec_offset : Z; ec_multi : option nat }.

Section entries.
(** What else an attribute description holds; finding one by its name, and making one of an
    unknown name; [ai_multi_hi] of what is configured for an attribute; the modes. *)
Variables (ad_index : AttributeDescription -> Z) (ad_cname : AttributeDescription -> text)
  (slap_bv2ad slap_bv2undef_ad : text -> option AttributeDescription)
  (mdb_attr_mask : AttributeDescription -> option Z)
  (reopenldap_mode_righteous : bool) (si_ad_objectClass : AttributeDescription).

(** ** The table of attributes *)

Definition set_ad (mi : mdb_info) (i : Z) (ad : AttributeDescription) : option mdb_info :=
  if (0 <=? i) && (i <? MDB_MAXADS) then Some (mkInfo (<[i := ad]> mi.(mi_ads)) mi.(mi_adxs) mi.(mi_numads) mi.(mi_multi_hi)) else None.
Definition set_adx (mi : mdb_info) (x i : Z) : mdb_info := mkInfo mi.(mi_ads) (<[x := i]> mi.(mi_adxs)) mi.(mi_numads) mi.(mi_multi_hi).
Definition set_numads (mi : mdb_info) (n : Z) : mdb_info := mkInfo mi.(mi_ads) mi.(mi_adxs) n mi.(mi_multi_hi).

(** [names] are the rows from [i] on. *)
Fixpoint ad_read_loop (names : list text) (i : Z) (mi : mdb_info) : option (Z * mdb_info) :=
  match names with
  | [] => Some (0, set_numads mi (i - 1))
  | bdata :: names =>
      match slap_bv2ad bdata with
      | None =>
          match slap_bv2undef_ad bdata with
          | Some ad => mi ← set_ad mi i ad; ad_read_loop names (i + 1) mi
          | None => ad_read_loop names (i + 1) mi
          end
      | Some ad =>
          if ad_index ad >=? MDB_MAXADS then Some (LDAP_OTHER, set_numads mi (i - 1)) else
          mi ← set_ad (set_adx mi (ad_index ad) i) i ad; ad_read_loop names (i + 1) mi
      end
  end.

Definition mdb_ad_read (ad2id : list text) (mi : mdb_info) : option (Z * mdb_info) :=
  ad_read_loop (drop (Z.to_nat mi.(mi_numads)) ad2id) (mi.(mi_numads) + 1) mi.

Definition adx (mi : mdb_info) (ad : AttributeDescription) : Z := default 0 (mi.(mi_adxs) !! ad_index ad).

(** The result and the table, with its new row. *)
Definition mdb_ad_get (ad2id : list text) (mi : mdb_info) (ad : AttributeDescription) : option (Z * mdb_info * list text) :=
  '(rc, mi) ← mdb_ad_read ad2id mi;
  if negb (rc =? 0) then Some (rc, mi, ad2id) else
  if negb (adx mi ad =? 0) then Some (0, mi, ad2id) else
  let i := mi.(mi_numads) + 1 in
  mi ← set_ad (set_adx mi (ad_index ad) i) i ad;
  Some (0, set_numads mi i, ad2id ++ [ad_cname ad]).

(** ** Sizes *)

Definition mdb_attr_multi_thresh (mi : mdb_info) (ad : AttributeDescription) : Z :=
  match mdb_attr_mask ad with Some hi => if hi <? UINT_MAX then hi else mi.(mi_multi_hi) | None => mi.(mi_multi_hi) end.

(** [a_nvals], when it is not [a_vals]. *)
Definition other_nvals (a : Attribute) : option (option (list berval)) :=
  match a.(a_nvals), a.(a_vals) with
  | NOwn l, _ => if (length l =? a_numvals a)%nat then Some (Some l) else None
  | NNull, Some _ => None
  | _, _ => Some None
  end.

(** The normalised values that are stored. *)
Definition stored_nvals (a : Attribute) : option (option (list berval)) :=
  nv ← other_nvals a;
  Some (match nv with
        | Some l => if negb reopenldap_mode_righteous || negb (bool_decide (a_vals_list a = l)) then Some l else None
        | None => None
        end).

Record counts := mkCounts { c_len : Z; c_dlen : Z; c_nat : Z; c_nval : Z; c_nnval : Z; c_doff : Z; c_multi : option nat }.

(** [alen] for each value *)
Definition value_sizes (vals : list berval) : Z :=
  foldr (fun v n => i32 (Z.of_nat (length v) + 1 + 4) + n) 0 vals.

Definition count_attr (hi : Z) (a : eattr) (pos : nat) (c : counts) : option (eattr * counts) :=
  let numvals := Z.of_nat (a_numvals a.(ea)) in
  let multi := a.(ea_multi) || (numvals >? hi) in
  let vlen := value_sizes (a_vals_list a.(ea)) in
  nv ← stored_nvals a.(ea);
  let nlen := match nv with Some l => value_sizes l | None => 0 end in
  let doff := if multi then numvals else 0 in
  Some (mkEA a.(ea) multi,
    mkCounts (c.(c_len) + 8 + vlen + nlen) (c.(c_dlen) + 8 + if multi then 0 else vlen + nlen) (c.(c_nat) + 1)
      (c.(c_nval) + numvals + 1 + match nv with Some _ => numvals + 1 | None => 0 end)
      (c.(c_nnval) + match nv with Some _ => 1 | None => 0 end)
      (c.(c_doff) + doff + match nv with Some _ => doff | None => 0 end)
      (match c.(c_multi) with Some p => Some p | None => if multi && (numvals >? 0) then Some pos else None end)).

(** The return value with the state and the attributes, some of them flagged. *)
Fixpoint partsize_loop (ad2id : list text) (mi : mdb_info) (attrs : list eattr) (c : counts) : option (Z * mdb_info * list text * list eattr * counts) :=
  match attrs with
  | [] => Some (0, mi, ad2id, [], c)
  | a :: rest =>
      let ad := a.(ea).(a_desc) in
      if ad_index ad >=? MDB_MAXADS then Some (LDAP_OTHER, mi, ad2id, attrs, c) else
      '(rc, mi, ad2id) ← (if adx mi ad =? 0 then mdb_ad_get ad2id mi ad else Some (0, mi, ad2id));
      if negb (rc =? 0) then Some (rc, mi, ad2id, attrs, c) else
      '(a, c) ← count_attr (mdb_attr_multi_thresh mi ad) a (Z.to_nat c.(c_nat)) c;
      '(rc, mi, ad2id, rest, c) ← partsize_loop ad2id mi rest c;
      Some (rc, mi, ad2id, a :: rest, c)
  end.

Definition mdb_entry_partsize (ad2id : list text) (mi : mdb_info) (e : Entry) : option (Z * mdb_info * list text * Entry * Ecount) :=
  '(rc, mi, ad2id, attrs, c) ← partsize_loop ad2id mi e.(e_attrs) (mkCounts 16 16 0 0 0 0 None);
  let dlen := if reopenldap_mode_righteous then c.(c_dlen) else Z.land (u64 (c.(c_dlen) + 8 - 1)) (u64 (Z.lnot 7)) in
  Some (rc, mi, ad2id, mkEntry attrs e.(e_ocflags),
    mkEC c.(c_len) dlen (i32 c.(c_nat)) (i32 c.(c_nval)) (i32 (c.(c_nat) + c.(c_nval) - c.(c_nnval) - c.(c_doff))) c.(c_multi)).

(** ** Encoding *)

Definition put_word (mem : list Z) (lp : nat) (w : Z) : option (list Z * nat) :=
  mem ← mem_write mem lp (le32_bytes (u32 w)); Some (mem, (lp + 4)%nat).

(** Lengths at [lp] and values at [ptr]. *)
Fixpoint put_values (vals : list berval) (mem : list Z) (lp ptr : nat) : option (list Z * nat * nat) :=
  match vals with
  | [] => Some (mem, lp, ptr)
  | v :: vals =>
      '(mem, lp) ← put_word mem lp (Z.of_nat (length v));
      mem ← mem_write mem ptr (ascii_code <$> v);
      mem ← mem_write mem (ptr + length v) [0];
      put_values vals mem lp (ptr + length v + 1)
  end.

Fixpoint encode_attrs (mi : mdb_info) (attrs : list eattr) (mem : list Z) (lp ptr : nat) : option (Z * list Z) :=
  match attrs with
  | [] => Some (0, mem)
  | a :: attrs =>
      let ad := a.(ea).(a_desc) in
      if ad_index ad =? 0 then Some (LDAP_UNDEFINED_TYPE, mem) else
      let l := adx mi ad in
      let l := if a.(ea_multi) then Z.lor l MDB_AT_MULTI else l in
      let l := if a.(ea).(a_sorted) then Z.lor l MDB_AT_SORTED else l in
      '(mem, lp) ← put_word mem lp l;
      nv ← stored_nvals a.(ea);
      let l := u32 (Z.of_nat (a_numvals a.(ea))) in
      let l := match nv with Some _ => Z.lor l MDB_AT_NVALS | None => l end in
      '(mem, lp) ← put_word mem lp l;
      if a.(ea_multi) then encode_attrs mi attrs mem lp ptr else
      if negb (l =? 0) && bool_decide (a.(ea).(a_vals) = None) then None else
      '(mem, lp, ptr) ← put_values (a_vals_list a.(ea)) mem lp ptr;
      '(mem, lp, ptr) ← (match nv with Some nv => put_values nv mem lp ptr | None => Some (mem, lp, ptr) end);
      encode_attrs mi attrs mem lp ptr
  end.

(** [mem]: the memory that the database reserves; [e_ocflags] is set. *)
Definition mdb_entry_encode (mi : mdb_info) (e : Entry) (mem : list Z) (ec : Ecount) : option (Z * list Z) :=
  '(mem, lp) ← put_word mem 0 ec.(ec_nattrs);
  '(mem, lp) ← put_word mem lp ec.(ec_nvals);
  '(mem, lp) ← put_word mem lp e.(e_ocflags);
  '(mem, lp) ← put_word mem lp ec.(ec_offset);
  if ec.(ec_offset) <? 0 then None else
  encode_attrs mi e.(e_attrs) mem lp (lp + 4 * Z.to_nat ec.(ec_offset)).

(** ** Values in a table of their own *)

Definition le16_bytes (z : Z) : list Z := [z mod 256; z / 256 mod 256].
Definition le16_val (l : list Z) : Z := match l with [a; b] => a + b * 256 | _ => 0 end.

(** The items that are put, in order. *)
Definition mdb_mval_put (a : Attribute) : option (list (list Z)) :=
  nv ← other_nvals a;
  match nv with
  | Some nvals =>
      Some (zip_with (fun nv v => (ascii_code <$> nv) ++ [0] ++ (ascii_code <$> v) ++ [0] ++ le16_bytes (Z.of_nat (length v) mod 65536)) nvals (a_vals_list a))
  | None => Some ((fun v => (ascii_code <$> v) ++ [0] ++ [0; 0]) <$> a_vals_list a)
  end.

(** The items with the numbers they are put under. *)
Fixpoint mval_puts (mi : mdb_info) (attrs : list eattr) : option (list (Z * list Z)) :=
  match attrs with
  | [] => Some []
  | a :: attrs =>
      if negb a.(ea_multi) then mval_puts mi attrs else
      items ← mdb_mval_put a.(ea);
      puts ← mval_puts mi attrs;
      Some (((fun item => (adx mi a.(ea).(a_desc), item)) <$> items) ++ puts)
  end.

(** [mdbx_put flag len]: the result, the length it leaves and the memory it reserves. The
    values that are put after it are taken to be accepted. The result: the state, the
    entry, its memory and its items. *)
Definition mdb_id2entry_put (mi_maxentrysize nextid : Z) (mdbx_put : Z -> Z -> Z * Z * list Z) (ad2id : list text) (mi : mdb_info) (e_id : Z) (e : Entry) (flag : Z) :
    option (Z * mdb_info * list text * Entry * list Z * list (Z * list Z)) :=
  let adding := negb (flag =? 0) in
  '(rc, mi, ad2id, e, ec) ← mdb_entry_partsize ad2id mi e;
  if negb (rc =? 0) then Some (LDAP_OTHER, mi, ad2id, e, [], []) else
  let flag := Z.lor flag MDBX_RESERVE in
  let flag := if e_id <? nextid then Z.land flag (Z.lnot MDBX_APPEND) else flag in
  if negb (mi_maxentrysize =? 0) && (ec.(ec_len) >? mi_maxentrysize) then Some (LDAP_ADMINLIMIT_EXCEEDED, mi, ad2id, e, [], []) else
  let '(rc, len, mem) := mdbx_put flag ec.(ec_dlen) in
  let '(rc, mem) :=
    if negb (rc =? 0) && negb (Z.land flag MDBX_NOOVERWRITE =? 0) && (len =? 0) then
      let '(rc, _, mem) := mdbx_put (Z.land flag (Z.lnot ADD_FLAGS)) ec.(ec_dlen) in (rc, mem)
    else (rc, mem) in
  if negb (rc =? 0) then Some (if rc =? MDBX_KEYEXIST then rc else LDAP_OTHER, mi, ad2id, e, [], []) else
  '(rc, mem) ← mdb_entry_encode mi e mem ec;
  if negb (rc =? 0) then Some (rc, mi, ad2id, e, mem, []) else
  puts ← (match ec.(ec_multi) with
          | Some p => if adding then mval_puts mi (drop p e.(e_attrs)) else Some []
          | None => Some []
          end);
  Some (0, mi, ad2id, e, mem, puts).

Definition octets_text (l : list Z) : text := (fun b => ascii_of_N (Z.to_N b)) <$> l.

(** The two values of an item. *)
Definition mval_item (have_nvals : bool) (item : list Z) : option (text * text) :=
  if (length item <? 2)%nat then None else
  let ptr := (length item - 2)%nat in
  s ← mem_read item ptr 2;
  let s := Z.to_nat (le16_val s) in
  if have_nvals then
    if (ptr <? s + 2)%nat then None else
    let v := (ptr - s - 1)%nat in
    vl ← mem_read item v s; nv ← mem_read item 0 (v - 1);
    Some (octets_text vl, octets_text nv)
  else
    if negb (s =? 0)%nat || (length item <? 3)%nat then None else
    vl ← mem_read item 0 (length item - 3);
    Some (octets_text vl, octets_text vl).

(** [items] is what the cursor yields. *)
Definition mdb_mval_get (items : list (list Z)) (numvals : nat) (have_nvals : bool) : option (list berval * nvals) :=
  vs ← mapM (mval_item have_nvals) (take numvals items);
  Some (vs.*1, if have_nvals then NOwn (vs.*2) else NSame).

(** ** Decoding *)

Definition get_word (mem : list Z) (lp : nat) : option (Z * nat) :=
  l ← mem_read mem lp 4; Some (le32_val l, (lp + 4)%nat).

Fixpoint get_values (n : nat) (mem : list Z) (lp ptr : nat) : option (list berval * nat * nat) :=
  match n with
  | O => Some ([], lp, ptr)
  | S n =>
      '(len, lp) ← get_word mem lp;
      v ← mem_read mem ptr (Z.to_nat len);
      '(vals, lp, ptr) ← get_values n mem lp (ptr + Z.to_nat len + 1);
      Some (octets_text v :: vals, lp, ptr)
  end.

(** The description of a number; the table is read again when it is new. *)
Definition find_ad (ad2id : list text) (mi : mdb_info) (i : Z) : option (Z * mdb_info) :=
  if i >? mi.(mi_numads) then
    '(rc, mi) ← mdb_ad_read ad2id mi;
    Some (if negb (rc =? 0) then rc else if i >? mi.(mi_numads) then LDAP_OTHER else 0, mi)
  else Some (0, mi).

(** [room]: what is left of the array of values. [id2val]: the items of a number. *)
Fixpoint decode_attrs (nattrs : nat) (ad2id : list text) (id2val : Z -> list (list Z)) (mi : mdb_info) (mem : list Z) (lp ptr : nat) (room : Z) :
    option (Z * mdb_info * list eattr) :=
  match nattrs with
  | O => Some (0, mi, [])
  | S nattrs =>
      '(i, lp) ← get_word mem lp;
      let sorted := negb (Z.land i MDB_AT_SORTED =? 0) in
      let i := if sorted then Z.lxor i MDB_AT_SORTED else i in
      let multi := negb (Z.land i MDB_AT_MULTI =? 0) in
      let i := if multi then Z.lxor i MDB_AT_MULTI else i in
      '(rc, mi) ← find_ad ad2id mi i;
      if negb (rc =? 0) then Some (rc, mi, []) else
      ad ← mi.(mi_ads) !! i;
      '(n, lp) ← get_word mem lp;
      let have_nval := negb (Z.land n MDB_AT_NVALS =? 0) in
      let numvals := Z.to_nat (if have_nval then Z.lxor n MDB_AT_NVALS else n) in
      let room := room - (Z.of_nat numvals + 1) - (if have_nval then Z.of_nat numvals + 1 else 0) in
      if room <? 0 then None else
      '(vals, nv, lp, ptr) ←
        (if multi then '(vals, nv) ← mdb_mval_get (id2val (adx mi ad)) numvals have_nval; Some (vals, nv, lp, ptr)
         else
           '(vals, lp, ptr) ← get_values numvals mem lp ptr;
           if have_nval then '(nvals, lp, ptr) ← get_values numvals mem lp ptr; Some (vals, NOwn nvals, lp, ptr)
           else Some (vals, NSame, lp, ptr));
      let a := mkAttr ad (Some vals) nv sorted in
      '(rc, a) ← (if ad.(ad_type).(sat_sorted) && negb sorted then
                    '(rc, _, a) ← slap_sort_vals si_ad_objectClass a;
                    Some (if rc =? LDAP_TYPE_OR_VALUE_EXISTS then rc else 0,
                          if rc =? LDAP_SUCCESS then mkAttr a.(a_desc) a.(a_vals) a.(a_nvals) true else a)
                  else Some (0, a));
      if negb (rc =? 0) then Some (rc, mi, []) else
      '(rc, mi, attrs) ← decode_attrs nattrs ad2id id2val mi mem lp ptr room;
      Some (rc, mi, mkEA a multi :: attrs)
  end.

Definition mdb_entry_decode (ad2id : list text) (id2val : Z -> list (list Z)) (mi : mdb_info) (mem : list Z) : option (Z * mdb_info * Entry) :=
  '(nattrs, lp) ← get_word mem 0;
  '(nvals, lp) ← get_word mem lp;
  '(ocflags, lp) ← get_word mem lp;
  if nvals =? 0 then Some (0, mi, mkEntry [] ocflags) else
  '(i, lp) ← get_word mem lp;
  if i32 i <? 0 then None else
  '(rc, mi, attrs) ← decode_attrs (Z.to_nat (i32 nattrs)) ad2id id2val mi mem lp (lp + 4 * Z.to_nat i) nvals;
  Some (rc, mi, mkEntry attrs ocflags).
End entries.
