(* ===== verification/Id2EntryTheorems.v ===== *)
(** * Entries are read back from the database

    [good]: the table of attributes and the numbers that the server knows agree. [words]
    and [octets]: what an attribute is stored as. *)

From stdpp Require Import gmap.
From Stdlib Require Import Ascii String.
From S2P Require Import Prelude Text Attr BerEncode BerWriter SortVals Id2Entry.

Local Open Scope Z_scope.
Local Abbreviation length := List.length.

(** ** Words and octets *)

Definition flat (ws : list Z) : list Z := concat (le32_bytes <$> ws).

Lemma flat_app u v : flat (u ++ v) = flat u ++ flat v.
Proof. unfold flat. by rewrite fmap_app, concat_app. Qed.

Lemma length_flat ws : length (flat ws) = (4 * length ws)%nat.
Proof. induction ws as [|w ws IH]; [done|]. change (flat (w :: ws)) with (le32_bytes w ++ flat ws). rewrite length_app, IH. cbn [length le32_bytes]. lia. Qed.

Definition word_ok (w : Z) : Prop := 0 <= w < 2 ^ 32.

Definition lens (vals : list berval) : list Z := (fun v => Z.of_nat (length v)) <$> vals.
Definition octets (vals : list berval) : list Z := concat ((fun v => (ascii_code <$> v) ++ [0]) <$> vals).

Lemma length_lens vals : length (lens vals) = length vals.
Proof. apply length_fmap. Qed.

Lemma octets_cons v vals : octets (v :: vals) = (ascii_code <$> v) ++ 0 :: octets vals.
Proof. unfold octets. cbn [fmap list_fmap concat]. by rewrite <- app_assoc. Qed.

Lemma octets_app u v : octets (u ++ v) = octets u ++ octets v.
Proof. unfold octets. by rewrite fmap_app, concat_app. Qed.

Lemma octets_text_code v : octets_text (ascii_code <$> v) = v.
Proof.
  unfold octets_text. rewrite <- list_fmap_compose. induction v as [|c v IH]; [done|]. cbn [fmap list_fmap]. f_equal; [|done].
  unfold compose, ascii_code. by rewrite N2Z.id, ascii_N_embedding.
Qed.

Lemma put_word_ok w pre x post lp : length x = 4%nat -> lp = length pre -> word_ok w ->
  put_word (pre ++ x ++ post) lp w = Some (pre ++ flat [w] ++ post, (lp + 4)%nat).
Proof. intros Hx -> Hw. unfold put_word. rewrite uwrap_small by done. rewrite mem_write_app by done. done. Qed.

Lemma get_word_ok w pre post lp : lp = length pre -> word_ok w -> get_word (pre ++ flat [w] ++ post) lp = Some (w, (lp + 4)%nat).
Proof. intros -> Hw. unfold get_word. rewrite mem_read_app by done. change (flat [w]) with (le32_bytes w). cbn [mbind option_bind]. by rewrite le32_bytes_val. Qed.

(** An area of a given length is cut off. *)
Lemma split_area {A} (l : list A) n : (n <= length l)%nat -> exists u v, l = u ++ v /\ length u = n /\ length v = (length l - n)%nat.
Proof. intros. exists (take n l), (drop n l). rewrite take_drop, length_take, length_drop. split_and!; (done || lia). Qed.

Definition lens_ok (vals : list berval) : Prop := Forall (fun v => Z.of_nat (length v) < 2 ^ 32) vals.

Lemma put_values_ok vals : forall pre wa mid ba post lp ptr,
  length wa = (4 * length vals)%nat -> length ba = length (octets vals) -> lens_ok vals ->
  lp = length pre -> ptr = (length pre + length wa + length mid)%nat ->
  put_values vals (pre ++ wa ++ mid ++ ba ++ post) lp ptr =
    Some (pre ++ flat (lens vals) ++ mid ++ octets vals ++ post, (lp + length wa)%nat, (ptr + length ba)%nat).
Proof.
  induction vals as [|v vals IH]; intros pre wa mid ba post lp ptr Hw Hb Hl -> ->.
  { cbn in Hw, Hb. destruct wa, ba; try done. cbn. by rewrite !Nat.add_0_r. }
  apply list.Forall_cons in Hl as [Hv Hl]. rewrite octets_cons, length_app, length_fmap in Hb. cbn [length] in Hw, Hb.
  destruct (split_area wa 4 ltac:(lia)) as (w1 & w2 & -> & Hw1 & Hw2).
  destruct (split_area ba (length v) ltac:(lia)) as (b1 & b2 & -> & Hb1 & Hb2). destruct b2 as [|x b2]; [rewrite length_app in Hb; cbn [length] in Hb; lia|].
  rewrite !length_app in *. cbn [length] in *. cbn [put_values].
  rewrite <- (app_assoc w1), put_word_ok by (unfold word_ok; done || lia). cbn [mbind option_bind].
  set (f := flat [Z.of_nat (length v)]). assert (length f = 4%nat) as Hf by done.
  replace (pre ++ f ++ w2 ++ mid ++ (b1 ++ x :: b2) ++ post) with ((pre ++ f ++ w2 ++ mid) ++ b1 ++ (x :: b2 ++ post)) by (rewrite <- !app_assoc; done).
  rewrite mem_write_app by (rewrite ?length_app, ?length_fmap; lia). cbn [mbind option_bind].
  replace ((pre ++ f ++ w2 ++ mid) ++ (ascii_code <$> v) ++ x :: b2 ++ post) with (((pre ++ f ++ w2 ++ mid) ++ (ascii_code <$> v)) ++ [x] ++ (b2 ++ post)) by (rewrite <- !app_assoc; done).
  rewrite mem_write_app by (rewrite ?length_app, ?length_fmap; cbn [length]; lia). cbn [mbind option_bind].
  replace (((pre ++ f ++ w2 ++ mid) ++ (ascii_code <$> v)) ++ [0] ++ b2 ++ post) with ((pre ++ f) ++ w2 ++ (mid ++ (ascii_code <$> v) ++ [0]) ++ b2 ++ post) by (rewrite <- !app_assoc; done).
  rewrite IH by (rewrite ?length_app, ?length_fmap; cbn [length]; done || lia).
  rewrite octets_cons. change (flat (lens (v :: vals))) with (f ++ flat (lens vals)). rewrite <- !app_assoc. do 2 f_equal; [f_equal; lia|cbn [length]; lia].
Qed.

Lemma get_values_ok vals : forall pre mid post lp ptr,
  lens_ok vals -> lp = length pre -> ptr = (length pre + length (flat (lens vals)) + length mid)%nat ->
  get_values (length vals) (pre ++ flat (lens vals) ++ mid ++ octets vals ++ post) lp ptr = Some (vals, (lp + length (flat (lens vals)))%nat, (ptr + length (octets vals))%nat).
Proof.
  induction vals as [|v vals IH]; intros pre mid post lp ptr Hl -> ->; [cbn; by rewrite !Nat.add_0_r|].
  apply list.Forall_cons in Hl as [Hv Hl]. cbn [length get_values]. rewrite octets_cons.
  set (f := flat [Z.of_nat (length v)]). assert (length f = 4%nat) as Hf by done. change (flat (lens (v :: vals))) with (f ++ flat (lens vals)).
  rewrite <- (app_assoc f). rewrite (get_word_ok (Z.of_nat (length v)) pre : forall post lp, lp = length pre -> word_ok (Z.of_nat (length v)) -> get_word (pre ++ f ++ post) lp = _) by (done || unfold word_ok; lia). cbn [mbind option_bind]. rewrite Nat2Z.id.
  replace (pre ++ f ++ flat (lens vals) ++ mid ++ ((ascii_code <$> v) ++ 0 :: octets vals) ++ post) with ((pre ++ f ++ flat (lens vals) ++ mid) ++ (ascii_code <$> v) ++ (0 :: octets vals ++ post)) by (rewrite <- !app_assoc; done).
  rewrite mem_read_app by (rewrite ?length_app, ?length_fmap; lia). cbn [mbind option_bind].
  replace ((pre ++ f ++ flat (lens vals) ++ mid) ++ (ascii_code <$> v) ++ 0 :: octets vals ++ post) with ((pre ++ f) ++ flat (lens vals) ++ (mid ++ (ascii_code <$> v) ++ [0]) ++ octets vals ++ post) by (rewrite <- !app_assoc; done).
  rewrite IH by (rewrite ?length_app, ?length_fmap; cbn [length]; done || lia). cbn [mbind option_bind]. rewrite octets_text_code, !length_app, length_fmap. cbn [length]. do 2 f_equal; [f_equal; lia|lia].
Qed.

(** ** Items of the table of values *)

Lemma le16_ok n : 0 <= n < 65536 -> le16_val (le16_bytes n) = n.
Proof. intros Hn. unfold le16_val, le16_bytes. rewrite (Z.mod_small (n / 256)); [|Z.to_euclidean_division_equations; lia]. pose proof (Z.div_mod n 256). lia. Qed.

Definition item2 (v nv : berval) : list Z := (ascii_code <$> nv) ++ [0] ++ (ascii_code <$> v) ++ [0] ++ le16_bytes (Z.of_nat (length v) mod 65536).
Definition item1 (v : berval) : list Z := (ascii_code <$> v) ++ [0] ++ [0; 0].

Lemma mem_read_front {A} (x v : list A) len : len = length x -> mem_read (x ++ v) 0 len = Some x.
Proof. intros. by apply (mem_read_app []). Qed.

Lemma mval_item2 v nv : Z.of_nat (length v) < 65536 -> mval_item true (item2 v nv) = Some (v, nv).
Proof.
  intros Hv. unfold mval_item. assert (length (item2 v nv) = (length nv + length v + 4)%nat) as Hl by (unfold item2; rewrite !length_app, !length_fmap; cbn; lia).
  destruct (Nat.ltb_spec (length (item2 v nv)) 2) as [|_]; [lia|]. rewrite Hl.
  assert (item2 v nv = ((ascii_code <$> nv) ++ [0] ++ (ascii_code <$> v) ++ [0]) ++ le16_bytes (Z.of_nat (length v)) ++ []) as E
    by (unfold item2; rewrite Z.mod_small, app_nil_r by lia; by rewrite <- !app_assoc).
  rewrite E at 1. rewrite mem_read_app by (rewrite ?length_app, ?length_fmap; cbn [length]; done || lia). cbn [mbind option_bind].
  rewrite le16_ok, Nat2Z.id by lia. destruct (Nat.ltb_spec (length nv + length v + 4 - 2) (length v + 2)) as [|_]; [lia|].
  assert (item2 v nv = ((ascii_code <$> nv) ++ [0]) ++ (ascii_code <$> v) ++ ([0] ++ le16_bytes (Z.of_nat (length v) mod 65536))) as E2 by (unfold item2; by rewrite <- !app_assoc).
  rewrite E2 at 1. rewrite mem_read_app by (rewrite ?length_app, ?length_fmap; cbn [length]; lia). cbn [mbind option_bind].
  unfold item2. rewrite mem_read_front by (rewrite length_fmap; lia). cbn [mbind option_bind]. by rewrite !octets_text_code.
Qed.

Lemma mval_item1 v : mval_item false (item1 v) = Some (v, v).
Proof.
  unfold mval_item. assert (length (item1 v) = (length v + 3)%nat) as Hl by (unfold item1; rewrite !length_app, !length_fmap; cbn; lia).
  destruct (Nat.ltb_spec (length (item1 v)) 2) as [|_]; [lia|]. rewrite Hl.
  assert (item1 v = ((ascii_code <$> v) ++ [0]) ++ [0; 0] ++ []) as E by (unfold item1; by rewrite <- !app_assoc).
  rewrite E at 1. rewrite mem_read_app by (rewrite ?length_app, ?length_fmap; cbn [length]; done || lia). cbn [mbind option_bind le16_val Z.to_nat Nat.eqb negb orb Z.add Z.mul].
  destruct (Nat.ltb_spec (length v + 3) 3) as [|_]; [lia|]. unfold item1. rewrite mem_read_front by (rewrite length_fmap; lia).
  cbn [mbind option_bind]. by rewrite octets_text_code.
Qed.

(** The items in another order give their values in that order. *)
Lemma mapM_perm {A B} (f : A -> option B) l l' : l ≡ₚ l' -> forall k, mapM f l = Some k -> exists k', mapM f l' = Some k' /\ k ≡ₚ k'.
Proof.
  induction 1 as [|x l l' Hl IH|x y l|l1 l2 l3 H1 IH1 H2 IH2]; intros k Hk.
  - by exists k.
  - cbn [mapM] in *. inv_bind Hk. inv_bind Hk. injection (Hk : Some _ = Some k) as <-. rewrite Hb. cbn [mbind option_bind]. destruct (IH _ Hb0) as (k' & -> & Hp). eexists. split; [done|]. by constructor.
  - cbn [mapM] in *. inv_bind Hk. inv_bind Hk. inv_bind Hb0. inv_bind Hb0. injection (Hk : Some _ = Some k) as <-. injection (Hb0 : Some _ = Some x1) as <-. rewrite Hb1. cbn [mbind option_bind]. rewrite Hb. cbn [mbind option_bind]. rewrite Hb2.
    eexists. split; [done|]. constructor.
  - destruct (IH1 _ Hk) as (k1 & Hk1 & P1). destruct (IH2 _ Hk1) as (k2 & Hk2 & P2). exists k2. split; [done|]. by etrans.
Qed.

Lemma mapM_items2 l vals : length l = length vals -> Forall (fun v => Z.of_nat (length v) < 65536) vals ->
  mapM (mval_item true) (zip_with (fun nv v => item2 v nv) l vals) = Some (zip vals l).
Proof.
  revert l. induction vals as [|v vals IH]; intros [|nv l] Hl Hv; try done. apply list.Forall_cons in Hv as [Hv Hvs]. injection Hl as Hl.
  cbn [zip_with mapM]. rewrite mval_item2 by done. cbn [mbind option_bind]. by rewrite IH.
Qed.

Lemma mapM_items1 vals : mapM (mval_item false) (item1 <$> vals) = Some ((fun v => (v, v)) <$> vals).
Proof. induction vals as [|v vals IH]; [done|]. cbn [fmap list_fmap mapM]. rewrite mval_item1. cbn [mbind option_bind]. fold (item1 <$> vals). by rewrite IH. Qed.

Lemma zip_diag {A} (l : list A) : zip l l = (fun x => (x, x)) <$> l.
Proof. induction l as [|x l IH]; [done|]. cbn. by rewrite IH. Qed.

(** ** Flags *)

Lemma land_pow2_low y n : 0 <= n -> 0 <= y < 2 ^ n -> Z.land y (2 ^ n) = 0.
Proof.
  intros Hn Hy. apply Z.bits_inj'. intros i Hi. rewrite Z.land_spec, Z.pow2_bits_eqb, Z.bits_0 by done.
  destruct (Z.eqb_spec n i) as [->|]; [|apply andb_false_r]. rewrite <- (Z.mod_small y (2 ^ i)), Z.mod_pow2_bits_high by lia. done.
Qed.

(** A bit above a number is set, tested and taken off. *)
Lemma flag_ok n y (b : bool) (l := if b then Z.lor y (2 ^ n) else y) : 0 <= n -> 0 <= y < 2 ^ n ->
  negb (Z.land l (2 ^ n) =? 0) = b /\ (if b then Z.lxor l (2 ^ n) else l) = y /\ 0 <= l < 2 ^ (n + 1).
Proof.
  intros Hn Hy. pose proof (land_pow2_low y n Hn Hy) as H0. rewrite Z.pow_add_r by lia. unfold l. destruct b.
  - rewrite Z.land_lor_distr_l, H0, Z.land_diag, Z.lor_0_l. split_and!.
    + apply negb_true_iff, Z.eqb_neq. lia.
    + rewrite <- Z.add_nocarry_lor, Z.add_nocarry_lxor by done. by rewrite Z.lxor_assoc, Z.lxor_nilpotent, Z.lxor_0_r.
    + rewrite <- Z.add_nocarry_lor by done. lia.
    + rewrite <- Z.add_nocarry_lor by done. lia.
  - rewrite H0. split_and!; (done || lia).
Qed.

(** ** What an attribute is stored as *)

Section spec.
Context (ad_index : AttributeDescription -> Z) (ad_cname : AttributeDescription -> text)
  (slap_bv2ad slap_bv2undef_ad : text -> option AttributeDescription) (mdb_attr_mask : AttributeDescription -> option Z)
  (righteous : bool) (si_ad_objectClass : AttributeDescription).

Abbreviation num := (adx ad_index).

Definition nv_of (a : eattr) : option (list berval) := default None (stored_nvals righteous a.(ea)).

Definition has_nv (a : eattr) : bool := match nv_of a with Some _ => true | None => false end.

Definition word1 (mi : mdb_info) (a : eattr) : Z :=
  let l := num mi a.(ea).(a_desc) in
  let l := if a.(ea_multi) then Z.lor l MDB_AT_MULTI else l in
  if a.(ea).(a_sorted) then Z.lor l MDB_AT_SORTED else l.

Definition word2 (a : eattr) : Z :=
  let n := Z.of_nat (a_numvals a.(ea)) in if has_nv a then Z.lor n MDB_AT_NVALS else n.

Definition inline_vals (a : eattr) : list berval := if a.(ea_multi) then [] else a_vals_list a.(ea) ++ default [] (nv_of a).

Definition words (mi : mdb_info) (a : eattr) : list Z := word1 mi a :: word2 a :: lens (inline_vals a).

(** The normalised values are given, and belong to values. *)
Definition nv_ok (a : eattr) : Prop := is_Some (stored_nvals righteous a.(ea)) /\ (nv_of a = None \/ is_Some a.(ea).(a_vals)).

(** What the encoder asks of an attribute. *)
Definition enc_ok (mi : mdb_info) (a : eattr) : Prop :=
  ad_index a.(ea).(a_desc) <> 0 /\ 0 < num mi a.(ea).(a_desc) < 65536 /\ nv_ok a /\
  Z.of_nat (a_numvals a.(ea)) < 2 ^ 31 /\ lens_ok (inline_vals a).

Lemma word1_ok mi a : enc_ok mi a -> word_ok (word1 mi a).
Proof.
  intros (_ & Hn & _). unfold word1, MDB_AT_MULTI, MDB_AT_SORTED.
  destruct (flag_ok 30 (num mi a.(ea).(a_desc)) a.(ea_multi)) as (_ & _ & H1); [lia..|].
  by destruct (flag_ok 31 _ a.(ea).(a_sorted) ltac:(lia) H1) as (_ & _ & H2).
Qed.

Lemma word2_ok mi a : enc_ok mi a -> word_ok (word2 a).
Proof.
  intros (_ & _ & _ & Hn & _). unfold word2, MDB_AT_NVALS. by destruct (flag_ok 31 (Z.of_nat (a_numvals a.(ea))) (has_nv a)) as (_ & _ & H); [lia..|].
Qed.

Lemma vals_given a : nv_ok a -> negb (word2 a =? 0) && bool_decide (a.(ea).(a_vals) = None) = false.
Proof.
  intros [_ [Hn|[vals Hv]]].
  - destruct (a_vals (ea a)) eqn:Ev; [by rewrite bool_decide_false, andb_false_r|]. unfold word2, has_nv, a_numvals, a_vals_list. by rewrite Hn, Ev.
  - rewrite Hv. by rewrite bool_decide_false, andb_false_r.
Qed.

Lemma put_values_app u v : forall mem lp ptr, put_values (u ++ v) mem lp ptr = ('(mem, lp, ptr) ← put_values u mem lp ptr; put_values v mem lp ptr).
Proof.
  induction u as [|x u IH]; intros mem lp ptr; [done|]. cbn [app put_values]. destruct (put_word mem lp _) as [[m1 l1]|]; [|done]. cbn [mbind option_bind].
  destruct (mem_write m1 ptr _) as [m2|]; [|done]. cbn [mbind option_bind]. destruct (mem_write m2 _ _) as [m3|]; [|done]. cbn [mbind option_bind]. apply IH.
Qed.

(** The values of an attribute are put as one list. *)
Lemma inline_puts {A} a nv (f : list Z -> nat -> nat -> option A) mem lp ptr : stored_nvals righteous a.(ea) = Some nv ->
  (if a.(ea_multi) then f mem lp ptr else
   '(mem, lp, ptr) ← put_values (a_vals_list a.(ea)) mem lp ptr;
   '(mem, lp, ptr) ← (match nv with Some nv => put_values nv mem lp ptr | None => Some (mem, lp, ptr) end);
   f mem lp ptr) = ('(mem, lp, ptr) ← put_values (inline_vals a) mem lp ptr; f mem lp ptr).
Proof.
  intros Hnv. unfold inline_vals, nv_of. rewrite Hnv. cbn [from_option id]. destruct a.(ea_multi); [done|]. rewrite put_values_app.
  destruct (put_values (a_vals_list (ea a)) mem lp ptr) as [[[m1 l1] p1]|]; [|done]. cbn [mbind option_bind]. by destruct nv.
Qed.

Lemma encode_attrs_ok mi attrs : Forall (enc_ok mi) attrs -> forall pre wa mid ba post lp ptr,
  length wa = (4 * length (concat (words mi <$> attrs)))%nat -> length ba = length (octets (concat (inline_vals <$> attrs))) ->
  lp = length pre -> ptr = (length pre + length wa + length mid)%nat ->
  encode_attrs ad_index righteous mi attrs (pre ++ wa ++ mid ++ ba ++ post) lp ptr =
    Some (0, pre ++ flat (concat (words mi <$> attrs)) ++ mid ++ octets (concat (inline_vals <$> attrs)) ++ post).
Proof.
  induction 1 as [|a attrs Ha Hs IH]; intros pre wa mid ba post lp ptr Hw Hb -> ->.
  { cbn in Hw, Hb. destruct wa, ba; try done. }
  pose proof Ha as (Hi & Hn & Hok & Hc & Hl). pose proof Hok as [[nv Hnv] _]. cbn [fmap list_fmap concat] in *. fold (words mi <$> attrs) (inline_vals <$> attrs) in *.
  destruct (split_area wa 4) as (x1 & w1 & -> & Hx1 & Hw1); [cbn [words length app] in Hw; lia|].
  destruct (split_area w1 4) as (x2 & w2 & -> & Hx2 & Hw2); [rewrite length_app in Hw; cbn [words length app] in Hw; lia|].
  rewrite length_app in Hw, Hw1. cbn [words length app] in Hw. rewrite !length_app, length_lens in Hw.
  destruct (split_area w2 (4 * length (inline_vals a))) as (w3 & w4 & -> & Hw3 & Hw4); [lia|].
  rewrite octets_app, length_app in Hb. destruct (split_area ba (length (octets (inline_vals a)))) as (b3 & b4 & -> & Hb3 & Hb4); [lia|].
  rewrite !length_app in *. cbn [encode_attrs]. rewrite (proj2 (Z.eqb_neq _ _) Hi). cbv zeta. fold (word1 mi a).
  rewrite <- !app_assoc, put_word_ok by (done || by apply word1_ok). cbn [mbind option_bind].
  rewrite Hnv. cbn [mbind option_bind]. rewrite uwrap_small by lia.
  assert (match nv with Some _ => Z.lor (Z.of_nat (a_numvals (ea a))) MDB_AT_NVALS | None => Z.of_nat (a_numvals (ea a)) end = word2 a) as -> by (unfold word2, has_nv, nv_of; rewrite Hnv; by destruct nv).
  set (f1 := flat [word1 mi a]). assert (length f1 = 4%nat) as Hf1 by done.
  rewrite (app_assoc pre f1), put_word_ok by (done || (rewrite length_app; lia) || by apply (word2_ok mi)). cbn [mbind option_bind].
  rewrite vals_given by done. set (f2 := flat [word2 a]). assert (length f2 = 4%nat) as Hf2 by done.
  assert (flat (words mi a ++ concat (words mi <$> attrs)) = f1 ++ f2 ++ flat (lens (inline_vals a)) ++ flat (concat (words mi <$> attrs))) as Ef.
  { rewrite flat_app. unfold words at 1. change (word1 mi a :: word2 a :: lens (inline_vals a)) with ([word1 mi a] ++ [word2 a] ++ lens (inline_vals a)). rewrite !flat_app. by rewrite <- !app_assoc. }
  change (words mi <$> (a :: attrs)) with (words mi a :: (words mi <$> attrs)). cbn [concat]. rewrite Ef, octets_app. clear Ef.
  rewrite (fun mem lp ptr => inline_puts a nv (fun mem lp ptr => encode_attrs ad_index righteous mi attrs mem lp ptr) mem lp ptr Hnv). 
  replace ((pre ++ f1) ++ f2 ++ w3 ++ w4 ++ mid ++ b3 ++ b4 ++ post) with (((pre ++ f1) ++ f2) ++ w3 ++ (w4 ++ mid) ++ b3 ++ (b4 ++ post)) by (rewrite <- !app_assoc; done).
  rewrite put_values_ok by (rewrite ?length_app; done || lia). cbn [mbind option_bind].
  set (f3 := flat (lens (inline_vals a))). set (o := octets (inline_vals a)) in *.
  assert (length f3 = length w3) as Hf3 by (unfold f3; rewrite length_flat, length_lens; lia).
  replace (((pre ++ f1) ++ f2) ++ f3 ++ (w4 ++ mid) ++ o ++ (b4 ++ post)) with ((((pre ++ f1) ++ f2) ++ f3) ++ w4 ++ (mid ++ o) ++ b4 ++ post) by (rewrite <- !app_assoc; done).
  rewrite IH by (rewrite ?length_app; lia). by rewrite <- !app_assoc.
Qed.

(** ** The table of attributes *)

(** The descriptions of the server: each is found by its name and has a number of its own
    below the limit. *)
Variable schema : list AttributeDescription.
Hypothesis schema_names : forall ad, ad ∈ schema -> slap_bv2ad (ad_cname ad) = Some ad.
Hypothesis schema_index : forall ad, ad ∈ schema -> 0 < ad_index ad < MDB_MAXADS.
Hypothesis schema_inj : forall a b, a ∈ schema -> b ∈ schema -> ad_index a = ad_index b -> a = b.
Hypothesis schema_small : Z.of_nat (length schema) < MDB_MAXADS.

Definition table_ok (ad2id : list text) : Prop := NoDup ad2id /\ Forall (fun n => exists ad, ad ∈ schema /\ n = ad_cname ad) ad2id.

(** The description with the number [i]. *)
Definition row (ad2id : list text) (i : Z) (ad : AttributeDescription) : Prop := 0 < i /\ ad2id !! Z.to_nat (i - 1) = Some (ad_cname ad).

Record good (ad2id : list text) (mi : mdb_info) : Prop := mkGood {
  gd_table : table_ok ad2id;
  gd_num : 0 <= mi.(mi_numads) <= Z.of_nat (length ad2id);
  gd_ads : forall i ad, ad ∈ schema -> row ad2id i ad -> i <= mi.(mi_numads) -> mi.(mi_ads) !! i = Some ad;
  gd_adxs : forall ad, ad ∈ schema -> num mi ad <> 0 -> row ad2id (num mi ad) ad /\ num mi ad <= mi.(mi_numads);
  gd_known : forall i ad, ad ∈ schema -> row ad2id i ad -> i <= mi.(mi_numads) -> num mi ad = i
}.

Lemma table_length ad2id : table_ok ad2id -> Z.of_nat (length ad2id) < MDB_MAXADS.
Proof.
  intros [Hd Hs]. enough (length ad2id <= length schema)%nat by lia. rewrite <- (length_fmap ad_cname schema). apply NoDup_incl_length; [by apply NoDup_ListNoDup|].
  intros n Hn%list_elem_of_In. rewrite list.Forall_forall in Hs. destruct (Hs n Hn) as (ad & Ha & ->). apply list_elem_of_In, list_elem_of_fmap. by exists ad.
Qed.

Lemma row_unique ad2id i j ad : table_ok ad2id -> row ad2id i ad -> row ad2id j ad -> i = j.
Proof. intros [Hd _] [Hi Ei] [Hj Ej]. pose proof (NoDup_lookup _ _ _ _ Hd Ei Ej). lia. Qed.

(** What a table with more rows keeps. *)
Lemma row_app ad2id more i ad : row ad2id i ad -> row (ad2id ++ more) i ad.
Proof. intros [Hi E]. split; [done|]. rewrite lookup_app_l; [done|]. by eapply lookup_lt_Some. Qed.

Lemma name_inj a b : a ∈ schema -> b ∈ schema -> ad_cname a = ad_cname b -> a = b.
Proof. intros Ha Hb E. apply schema_names in Ha. apply schema_names in Hb. congruence. Qed.

(** One more row is known. *)
Definition learn (mi : mdb_info) (i : Z) (ad : AttributeDescription) : mdb_info :=
  mkInfo (<[i := ad]> mi.(mi_ads)) (<[ad_index ad := i]> mi.(mi_adxs)) i mi.(mi_multi_hi).

Lemma adx_learn mi i ad ad' : num (learn mi i ad) ad' = if ad_index ad' =? ad_index ad then i else num mi ad'.
Proof.
  unfold adx, learn. cbn [mi_adxs]. destruct (Z.eqb_spec (ad_index ad') (ad_index ad)) as [->|E]; [by rewrite lookup_insert_eq|].
  by rewrite lookup_insert_ne by congruence.
Qed.

Lemma good_learn ad2id mi ad (i := mi.(mi_numads) + 1) : good ad2id mi -> ad ∈ schema -> row ad2id i ad -> good ad2id (learn mi i ad).
Proof.
  intros [Ht Hn Hads Hadxs Hknown] Ha Hrow. assert (forall ad' j, ad' ∈ schema -> row ad2id j ad' -> j = i -> ad' = ad) as Hsame.
  { intros ad' j Ha' [_ E'] ->. destruct Hrow as [_ E]. apply name_inj; congruence. }
  assert (forall ad', ad' ∈ schema -> (ad_index ad' =? ad_index ad) = true -> ad' = ad) as Hinj by (intros ad' Ha' E%Z.eqb_eq; by apply schema_inj).
  split; cbn [learn mi_numads mi_ads]; [done| | | |].
  - destruct Hrow as [_ E]. apply lookup_lt_Some in E. unfold i in *. lia.
  - intros j ad' Ha' Hr Hj. destruct (decide (j = i)) as [->|]; [rewrite (Hsame ad' i) by done; by rewrite lookup_insert_eq|].
    rewrite lookup_insert_ne by congruence. apply Hads; [done|done|unfold i in *; lia].
  - intros ad' Ha'. rewrite adx_learn. destruct (_ =? _) eqn:E; [intros _; rewrite (Hinj ad') by done; by split|].
    intros Hz. destruct (Hadxs ad' Ha' Hz) as [Hr Hle]. split; [done|unfold i; lia].
  - intros j ad' Ha' Hr Hj. rewrite adx_learn. destruct (_ =? _) eqn:E.
    + rewrite (Hinj ad' Ha' E) in Hr. by eapply row_unique.
    + apply Hknown; [done|done|]. destruct (decide (j = i)) as [->|]; [|unfold i in *; lia]. rewrite (Hsame ad' i) in E by done. by rewrite Z.eqb_refl in E.
Qed.

Lemma ad_read_loop_ok ad2id names : forall i mi, good ad2id (set_numads mi (i - 1)) -> 0 < i -> drop (Z.to_nat (i - 1)) ad2id = names ->
  exists mi', ad_read_loop ad_index slap_bv2ad slap_bv2undef_ad names i mi = Some (0, mi') /\ good ad2id mi' /\ mi'.(mi_numads) = Z.of_nat (length ad2id).
Proof.
  induction names as [|n names IH]; intros i mi Hg Hi Hd; cbn [ad_read_loop].
  - eexists. split; [done|]. split; [done|]. cbn. pose proof (gd_num _ _ Hg) as Hn. cbn in Hn. apply (f_equal length) in Hd. rewrite length_drop in Hd. cbn in Hd. lia.
  - pose proof (gd_table _ _ Hg) as Ht. assert (ad2id !! Z.to_nat (i - 1) = Some n) as E by (rewrite <- (Nat.add_0_r (Z.to_nat _)), <- lookup_drop, Hd; done).
    pose proof Ht as [_ Hs]. rewrite list.Forall_forall in Hs. destruct (Hs n) as (ad & Ha & ->); [by eapply list_elem_of_lookup_2|].
    rewrite schema_names by done. rewrite Z.geb_leb, (proj2 (Z.leb_gt _ _)) by apply schema_index, Ha.
    pose proof (table_length _ Ht). pose proof (lookup_lt_Some _ _ _ E). unfold set_ad.
    replace ((0 <=? i) && (i <? MDB_MAXADS)) with true by (symmetry; apply andb_true_intro; split; [apply Z.leb_le|apply Z.ltb_lt]; lia). cbn [mbind option_bind].
    apply IH; [|lia|].
    + pose proof (good_learn ad2id (set_numads mi (i - 1)) ad Hg Ha) as H'. cbn [set_numads mi_numads] in H'. replace (i - 1 + 1) with i in H' by lia.
      replace (i + 1 - 1) with i by lia. apply H'. split; [lia|done].
    + replace (Z.to_nat (i + 1 - 1)) with (Z.to_nat (i - 1) + 1)%nat by lia. rewrite <- drop_drop, Hd. done.
Qed.

Lemma mdb_ad_read_ok ad2id mi : good ad2id mi ->
  exists mi', mdb_ad_read ad_index slap_bv2ad slap_bv2undef_ad ad2id mi = Some (0, mi') /\ good ad2id mi' /\ mi'.(mi_numads) = Z.of_nat (length ad2id).
Proof.
  intros Hg. pose proof (gd_num _ _ Hg). apply ad_read_loop_ok; [|lia|do 2 f_equal; lia].
  replace (mi_numads mi + 1 - 1) with (mi_numads mi) by lia. by destruct mi.
Qed.

(** A table that others have written to. *)
Lemma good_app ad2id more mi : good ad2id mi -> table_ok (ad2id ++ more) -> good (ad2id ++ more) mi.
Proof.
  intros [Ht Hn Hads Hadxs Hknown] Ht'. assert (forall i ad, row (ad2id ++ more) i ad -> i <= mi_numads mi -> row ad2id i ad) as Hrow.
  { intros i ad [Hi E] Hle. split; [done|]. rewrite lookup_app_l in E; [done|lia]. }
  split; [done|rewrite length_app; lia|eauto| |eauto]. intros ad Ha Hz. destruct (Hadxs ad Ha Hz) as [Hr Hle]. split; [by apply row_app|done].
Qed.

Lemma mdb_ad_get_ok ad2id mi ad : good ad2id mi -> ad ∈ schema ->
  exists mi' more, mdb_ad_get ad_index ad_cname slap_bv2ad slap_bv2undef_ad ad2id mi ad = Some (0, mi', ad2id ++ more) /\
    good (ad2id ++ more) mi' /\ num mi' ad <> 0 /\ mi.(mi_numads) <= mi'.(mi_numads).
Proof.
  intros Hg Ha. unfold mdb_ad_get. destruct (mdb_ad_read_ok ad2id mi Hg) as (mi1 & -> & Hg1 & Hn1). cbn [mbind option_bind]. change (negb (0 =? 0)) with false. cbv iota.
  destruct (Z.eqb_spec (num mi1 ad) 0) as [Hz|Hz]; cbn [negb]; [|exists mi1, []; rewrite app_nil_r; split_and!; try done; pose proof (gd_num _ _ Hg); lia].
  pose proof (gd_table _ _ Hg1) as Ht. pose proof (table_length _ Ht).
  assert (ad_cname ad ∉ ad2id) as Hnew.
  { intros Hin. apply list_elem_of_lookup in Hin as [p Hp]. pose proof (lookup_lt_Some _ _ _ Hp).
    rewrite (gd_known _ _ Hg1 (Z.of_nat p + 1) ad Ha) in Hz; [lia| |lia]. split; [lia|]. by replace (Z.to_nat (Z.of_nat p + 1 - 1)) with p by lia. }
  assert (table_ok (ad2id ++ [ad_cname ad])) as Ht'.
  { destruct Ht as [Hd Hs]. split; [|apply list.Forall_app; split; [done|constructor; [by exists ad|constructor]]]. apply list.NoDup_app. split_and!; [done| |apply NoDup_singleton].
    intros x Hx ->%list_elem_of_singleton. done. }
  pose proof (table_length _ Ht') as Hl'. rewrite length_app in Hl'. cbn [length] in Hl'. unfold set_ad.
  replace ((0 <=? mi_numads mi1 + 1) && (mi_numads mi1 + 1 <? MDB_MAXADS)) with true by (symmetry; apply andb_true_intro; split; [apply Z.leb_le|apply Z.ltb_lt]; lia).
  cbn [mbind option_bind]. exists (learn mi1 (mi_numads mi1 + 1) ad), [ad_cname ad]. split; [done|]. pose proof (gd_num _ _ Hg). split; [|rewrite adx_learn, Z.eqb_refl; cbn [learn mi_numads]; lia].
  apply good_learn; [by apply good_app|done|]. split; [lia|]. rewrite Hn1. replace (Z.to_nat _) with (length ad2id) by lia. by apply list_lookup_middle.
Qed.

(** A number stays. *)
Lemma num_stays ad2id more mi mi' ad : good ad2id mi -> good (ad2id ++ more) mi' -> mi.(mi_numads) <= mi'.(mi_numads) -> ad ∈ schema -> num mi ad <> 0 -> num mi' ad = num mi ad.
Proof. intros Hg Hg' Hle Ha Hz. destruct (gd_adxs _ _ Hg ad Ha Hz) as [Hr Hn]. apply (gd_known _ _ Hg'); [done|by apply row_app|lia]. Qed.

(** ** Sizes *)

Definition vsize (vals : list berval) : Z := 5 * Z.of_nat (length vals) + Z.of_nat (length (concat vals)).

Lemma vsize_nonneg vals : 0 <= vsize vals.
Proof. unfold vsize. lia. Qed.

Lemma length_octets vals : Z.of_nat (length (octets vals)) = vsize vals - 4 * Z.of_nat (length vals).
Proof.
  unfold vsize. induction vals as [|v vals IH]; [done|]. rewrite octets_cons, length_app, length_fmap. cbn [length concat]. rewrite length_app. lia.
Qed.

Lemma value_sizes_small vals : vsize vals < 2 ^ 31 -> value_sizes vals = vsize vals /\ lens_ok vals.
Proof.
  induction vals as [|v vals IH]; intros H; [by split; [|constructor]|]. unfold vsize in H. cbn [length concat] in H. rewrite length_app in H.
  destruct IH as [IH Hl]; [unfold vsize; lia|]. unfold value_sizes in *. cbn [foldr]. rewrite IH, swrap_small by lia. unfold vsize. cbn [length concat]. rewrite length_app.
  split; [lia|]. constructor; [lia|done].
Qed.

Lemma vsize_app u v : vsize (u ++ v) = vsize u + vsize v.
Proof. unfold vsize. rewrite concat_app, !length_app. lia. Qed.

(** What the attribute takes, in the entry and elsewhere. *)
Definition weight (a : eattr) : Z := 8 + vsize (a_vals_list a.(ea) ++ default [] (nv_of a)).

Definition flagged (hi : Z) (a : eattr) : eattr := mkEA a.(ea) (a.(ea_multi) || (Z.of_nat (a_numvals a.(ea)) >? hi)).

Lemma nv_length a nv : stored_nvals righteous a = Some (Some nv) -> length nv = a_numvals a.
Proof.
  unfold stored_nvals, other_nvals. destruct (a_nvals a) as [| |l]; [by destruct (a_vals a)|done|]. case_if; [|done]. cbn [mbind option_bind]. apply Nat.eqb_eq in E. case_if; [|done]. by intros [= <-].
Qed.

Lemma count_attr_ok hi a pos c : is_Some (stored_nvals righteous a.(ea)) -> weight a < 2 ^ 31 ->
  exists c', count_attr righteous hi a pos c = Some (flagged hi a, c') /\
    c'.(c_len) = c.(c_len) + weight a /\ c'.(c_dlen) = c.(c_dlen) + 4 * Z.of_nat (2 + length (inline_vals (flagged hi a))) + Z.of_nat (length (octets (inline_vals (flagged hi a)))) /\
    c'.(c_nat) = c.(c_nat) + 1 /\
    c'.(c_nval) = c.(c_nval) + Z.of_nat (a_numvals a.(ea)) + 1 + (if has_nv a then Z.of_nat (a_numvals a.(ea)) + 1 else 0) /\
    c'.(c_nat) + c'.(c_nval) - c'.(c_nnval) - c'.(c_doff) = c.(c_nat) + c.(c_nval) - c.(c_nnval) - c.(c_doff) + Z.of_nat (2 + length (inline_vals (flagged hi a))).
Proof.
  intros [nv Hnv] Hw. unfold count_attr. rewrite Hnv. cbn [mbind option_bind]. eexists. split; [done|]. cbn [c_len c_dlen c_nat c_nval c_nnval c_doff].
  rewrite length_octets. unfold weight in *. unfold has_nv, inline_vals, nv_of in *. cbn [flagged ea ea_multi]. rewrite Hnv in *. cbn [from_option id] in *. rewrite vsize_app in Hw.
  pose proof (vsize_nonneg (a_vals_list (ea a))). pose proof (vsize_nonneg (default [] nv)).
  destruct (value_sizes_small (a_vals_list (ea a))) as [-> _]; [lia|]. change (a_numvals (ea a)) with (length (a_vals_list (ea a))) in *.
  destruct nv as [l|]; cbn [from_option id] in *.
  - destruct (value_sizes_small l) as [-> _]; [lia|]. pose proof (nv_length _ _ Hnv) as Hl. change (a_numvals (ea a)) with (length (a_vals_list (ea a))) in Hl.
    case_if; rewrite ?length_app, ?vsize_app; cbn [length]; split_and!; (lia || done || (unfold vsize; cbn; lia)).
  - rewrite app_nil_r. case_if; cbn [length]; split_and!; (lia || done || (unfold vsize; cbn; lia)).
Qed.

(** An attribute that can be stored. *)
Definition attr_in (a : eattr) : Prop := a.(ea).(a_desc) ∈ schema /\ nv_ok a.

Definition total (attrs : list eattr) : Z := foldr (fun a n => weight a + n) 0 attrs.

Lemma weight_nonneg a : 0 <= weight a.
Proof. unfold weight. pose proof (vsize_nonneg (a_vals_list (ea a) ++ default [] (nv_of a))). lia. Qed.

Lemma total_nonneg attrs : 0 <= total attrs.
Proof. induction attrs as [|a attrs IH]; [done|]. change (total (a :: attrs)) with (weight a + total attrs). pose proof (weight_nonneg a). lia. Qed.

Definition slots (a : eattr) : Z := Z.of_nat (a_numvals a.(ea)) + 1 + (if has_nv a then Z.of_nat (a_numvals a.(ea)) + 1 else 0).
Definition all_slots (attrs : list eattr) : Z := foldr (fun a n => slots a + n) 0 attrs.

Lemma all_slots_nonneg attrs : 0 <= all_slots attrs.
Proof. induction attrs as [|a attrs IH]; [done|]. change (all_slots (a :: attrs)) with (slots a + all_slots attrs). unfold slots. case_if; lia. Qed.

Lemma enc_ok_flagged mi hi a : attr_in a -> weight a < 2 ^ 31 -> num mi a.(ea).(a_desc) <> 0 -> forall ad2id, good ad2id mi -> enc_ok mi (flagged hi a).
Proof.
  intros [Ha Hs] Hw Hz ad2id Hg. destruct (gd_adxs _ _ Hg _ Ha Hz) as [[Hp E] _]. pose proof (table_length _ (gd_table _ _ Hg)). pose proof (lookup_lt_Some _ _ _ E).
  unfold weight in Hw. rewrite vsize_app in Hw. pose proof (vsize_nonneg (a_vals_list (ea a))). pose proof (vsize_nonneg (default [] (nv_of a))).
  split_and!; cbn [flagged ea]; [pose proof (schema_index _ Ha); lia|lia|unfold MDB_MAXADS in *; lia|done| |].
  - unfold vsize in Hw at 1. change (a_numvals (ea a)) with (length (a_vals_list (ea a))). lia.
  - unfold inline_vals. cbn [flagged ea ea_multi]. change (nv_of (flagged hi a)) with (nv_of a). case_if; [constructor|].
    apply list.Forall_app. split; apply value_sizes_small; lia.
Qed.

Lemma words_stay mi mi' a : num mi' a.(ea).(a_desc) = num mi a.(ea).(a_desc) -> words mi' a = words mi a.
Proof. intros E. unfold words, word1. by rewrite E. Qed.

Lemma partsize_loop_ok attrs : forall ad2id mi c, good ad2id mi -> Forall attr_in attrs -> total attrs < 2 ^ 31 ->
  exists mi' more attrs' c', partsize_loop ad_index ad_cname slap_bv2ad slap_bv2undef_ad mdb_attr_mask righteous ad2id mi attrs c = Some (0, mi', ad2id ++ more, attrs', c') /\
    good (ad2id ++ more) mi' /\ mi.(mi_numads) <= mi'.(mi_numads) /\ ea <$> attrs' = ea <$> attrs /\ Forall (enc_ok mi') attrs' /\
    c'.(c_len) = c.(c_len) + total attrs /\ c'.(c_dlen) = c.(c_dlen) + 4 * Z.of_nat (length (concat (words mi' <$> attrs'))) + Z.of_nat (length (octets (concat (inline_vals <$> attrs')))) /\
    c'.(c_nat) = c.(c_nat) + Z.of_nat (length attrs) /\ c'.(c_nval) = c.(c_nval) + all_slots attrs /\
    c'.(c_nat) + c'.(c_nval) - c'.(c_nnval) - c'.(c_doff) = c.(c_nat) + c.(c_nval) - c.(c_nnval) - c.(c_doff) + Z.of_nat (length (concat (words mi' <$> attrs'))).
Proof.
  induction attrs as [|a attrs IH]; intros ad2id mi c Hg Hin Ht.
  { exists mi, [], [], c. rewrite app_nil_r. cbn. split_and!; (done || lia). }
  apply list.Forall_cons in Hin as [Ha Hin]. change (total (a :: attrs)) with (weight a + total attrs) in Ht. pose proof (total_nonneg attrs) as Hnn.
  pose proof Ha as [Hsch [Hs _]]. cbn [partsize_loop]. rewrite Z.geb_leb, (proj2 (Z.leb_gt _ _)) by apply schema_index, Hsch.
  pose proof (weight_nonneg a) as Hwa.
  assert (exists mi1 m1, (if num mi (a_desc (ea a)) =? 0 then mdb_ad_get ad_index ad_cname slap_bv2ad slap_bv2undef_ad ad2id mi (a_desc (ea a)) else Some (0, mi, ad2id)) = Some (0, mi1, ad2id ++ m1) /\
    good (ad2id ++ m1) mi1 /\ num mi1 (a_desc (ea a)) <> 0 /\ mi_numads mi <= mi_numads mi1) as (mi1 & m1 & -> & Hg1 & Hz1 & Hle1).
  { destruct (Z.eqb_spec (num mi (a_desc (ea a))) 0); [by apply mdb_ad_get_ok|]. exists mi, []. rewrite app_nil_r. split_and!; (done || lia). }
  cbn [mbind option_bind]. change (negb (0 =? 0)) with false. cbv iota.
  destruct (count_attr_ok (mdb_attr_multi_thresh mdb_attr_mask mi1 (a_desc (ea a))) a (Z.to_nat (c_nat c)) c Hs) as (c1 & -> & Hlen1 & Hd1 & Hn1 & Hv1 & Ho1); [lia|].
  cbn [mbind option_bind]. set (a' := flagged _ a) in *.
  destruct (IH (ad2id ++ m1) mi1 c1 Hg1 Hin) as (mi2 & m2 & attrs' & c2 & -> & Hg2 & Hle2 & Hea & Henc & Hlen2 & Hd2 & Hn2 & Hv2 & Ho2); [lia|].
  cbn [mbind option_bind]. rewrite <- app_assoc in *. exists mi2, (m1 ++ m2), (a' :: attrs'), c2.
  assert (num mi2 (a_desc (ea a)) = num mi1 (a_desc (ea a))) as Hst by (eapply num_stays; [exact Hg1|rewrite <- app_assoc; exact Hg2|done..]).
  assert (enc_ok mi2 a') as Hea'. { eapply enc_ok_flagged; [done|lia|rewrite Hst; done|exact Hg2]. }
  cbn [fmap list_fmap concat]. rewrite octets_app, !length_app. unfold words at 1 3, lens. rewrite ?length_app. cbn [length]. rewrite length_fmap.
  split_and!; [done|done|lia|by f_equal|by constructor|change (total (a :: attrs)) with (weight a + total attrs); lia|lia|lia| |lia].
  rewrite Hv2, Hv1. change (all_slots (a :: attrs)) with (slots a + all_slots attrs). unfold slots. lia.
Qed.

(** ** Decoding *)

Lemma find_ad_ok ad2id mi i ad : good ad2id mi -> ad ∈ schema -> row ad2id i ad ->
  exists mi', find_ad ad_index slap_bv2ad slap_bv2undef_ad ad2id mi i = Some (0, mi') /\ good ad2id mi' /\ mi'.(mi_ads) !! i = Some ad /\ num mi' ad = i.
Proof.
  intros Hg Ha Hr. unfold find_ad. assert (i <= Z.of_nat (length ad2id)) as Hi by (destruct Hr as [? E]; apply lookup_lt_Some in E; lia).
  rewrite Z.gtb_ltb. destruct (Z.ltb_spec (mi_numads mi) i) as [Hlt|Hle].
  - destruct (mdb_ad_read_ok ad2id mi Hg) as (mi' & -> & Hg' & Hn). cbn [mbind option_bind]. change (negb (0 =? 0)) with false. cbv iota.
    rewrite Hn, Z.gtb_ltb, (proj2 (Z.ltb_ge _ _)) by done. exists mi'. split_and!; [done|done|apply (gd_ads _ _ Hg'); (done || lia)|apply (gd_known _ _ Hg'); (done || lia)].
  - exists mi. split_and!; [done|done|by apply (gd_ads _ _ Hg)|by apply (gd_known _ _ Hg)].
Qed.

Definition pairs (a : Attribute) : list (berval * berval) := zip (a_vals_list a) (a_nvals_list a).

(** The same attribute; the values of a table of their own may come in another order. *)
Definition same (a b : eattr) : Prop :=
  b.(ea).(a_desc) = a.(ea).(a_desc) /\ b.(ea).(a_sorted) = a.(ea).(a_sorted) /\ b.(ea_multi) = a.(ea_multi) /\
  if a.(ea_multi) then pairs b.(ea) ≡ₚ pairs a.(ea) /\ a_numvals b.(ea) = a_numvals a.(ea) /\ length (a_nvals_list b.(ea)) = length (a_nvals_list a.(ea))
  else a_vals_list b.(ea) = a_vals_list a.(ea) /\ a_nvals_list b.(ea) = a_nvals_list a.(ea).

(** What the table of values holds for an attribute that is in it. *)
Definition in_table (items : list (list Z)) (a : eattr) : Prop :=
  exists puts, mdb_mval_put a.(ea) = Some puts /\ items ≡ₚ puts /\ stored_nvals righteous a.(ea) = other_nvals a.(ea) /\
    (has_nv a = true -> Forall (fun v => Z.of_nat (length v) < 65536) (a_vals_list a.(ea))).

Lemma other_same a : other_nvals a = Some None -> a_nvals_list a = a_vals_list a.
Proof. unfold other_nvals, a_nvals_list, a_vals_list. destruct (a_nvals a); [by destruct (a_vals a)|done|by case_if]. Qed.

Lemma other_own a l : other_nvals a = Some (Some l) -> a_nvals_list a = l /\ length l = a_numvals a.
Proof. unfold other_nvals, a_nvals_list. destruct (a_nvals a); [by destruct (a_vals a)|done|]. case_if; [|done]. intros [= <-]. by apply Nat.eqb_eq in E. Qed.

Lemma mval_get_ok items a : in_table items a -> exists vals nv, mdb_mval_get items (a_numvals a.(ea)) (has_nv a) = Some (vals, nv) /\
  forall b, b.(a_vals) = Some vals -> b.(a_nvals) = nv ->
    pairs b ≡ₚ pairs a.(ea) /\ a_numvals b = a_numvals a.(ea) /\ length (a_nvals_list b) = length (a_nvals_list a.(ea)).
Proof.
  intros (puts & Hp & Hperm & Hst & Hlen). unfold mdb_mval_put in Hp. destruct (other_nvals a.(ea)) as [[l|]|] eqn:Ho; cbn [mbind option_bind] in Hp; [| |done]; injection Hp as Hp.
  - destruct (other_own _ _ Ho) as [En El]. assert (has_nv a = true) as Hh by (unfold has_nv, nv_of; by rewrite Hst). specialize (Hlen Hh). rewrite Hh.
    pose proof (mapM_items2 l (a_vals_list a.(ea)) El Hlen) as Hm. change (zip_with (fun nv v => item2 v nv) l (a_vals_list a.(ea)) = puts) in Hp. rewrite Hp in Hm. destruct (mapM_perm _ _ _ (symmetry Hperm) _ Hm) as (k & Hk & Pk).
    assert (length items = a_numvals a.(ea)) as Hil by (rewrite Hperm, <- Hp; unfold a_numvals in *; rewrite length_zip_with; lia).
    unfold mdb_mval_get. rewrite take_ge by lia. rewrite Hk. cbn [mbind option_bind]. do 2 eexists. split; [done|]. intros b Hv Hn.
    assert (length k = a_numvals a.(ea)) as Hkl by (rewrite <- Pk, length_zip_with; unfold a_numvals in *; lia).
    unfold pairs, a_numvals at 1, a_vals_list at 1 3, a_nvals_list at 1 3. rewrite Hv, Hn. cbn [from_option id]. rewrite !length_fmap, zip_fst_snd, En, El. split_and!; [by rewrite <- Pk|done|done].
  - pose proof (other_same _ Ho) as En. assert (has_nv a = false) as -> by (unfold has_nv, nv_of; by rewrite Hst).
    pose proof (mapM_items1 (a_vals_list a.(ea))) as Hm. change (item1 <$> a_vals_list a.(ea) = puts) in Hp. rewrite Hp in Hm. destruct (mapM_perm _ _ _ (symmetry Hperm) _ Hm) as (k & Hk & Pk).
    assert (length items = a_numvals a.(ea)) as Hil by (by rewrite Hperm, <- Hp, length_fmap).
    unfold mdb_mval_get. rewrite take_ge by lia. rewrite Hk. cbn [mbind option_bind]. do 2 eexists. split; [done|]. intros b Hv Hn.
    assert (k.*1 ≡ₚ a_vals_list a.(ea)) as P1 by (rewrite <- Pk, <- list_fmap_compose; by rewrite list_fmap_id).
    assert (a_vals_list b = k.*1) as Ev by (unfold a_vals_list; by rewrite Hv). assert (a_nvals_list b = k.*1) as Eb by (unfold a_nvals_list; by rewrite Hn).
    unfold pairs, a_numvals. rewrite Eb, Ev, En, !zip_diag, P1. done.
Qed.

(** What the decoder finds an attribute to be. *)
Record stored (ad2id : list text) (id2val : Z -> list (list Z)) (mi : mdb_info) (a : eattr) : Prop := mkStored {
  st_enc : enc_ok mi a;
  st_schema : a.(ea).(a_desc) ∈ schema;
  st_row : row ad2id (num mi a.(ea).(a_desc)) a.(ea).(a_desc);
  st_sorted : a.(ea).(a_desc).(ad_type).(sat_sorted) = true -> a.(ea).(a_sorted) = true;
  st_multi : a.(ea_multi) = true -> in_table (id2val (num mi a.(ea).(a_desc))) a
}.

Lemma word1_read mi a l (sorted := negb (Z.land l MDB_AT_SORTED =? 0)) (l1 := if sorted then Z.lxor l MDB_AT_SORTED else l)
    (multi := negb (Z.land l1 MDB_AT_MULTI =? 0)) : enc_ok mi a -> l = word1 mi a ->
  sorted = a.(ea).(a_sorted) /\ multi = a.(ea_multi) /\ (if multi then Z.lxor l1 MDB_AT_MULTI else l1) = num mi a.(ea).(a_desc).
Proof.
  intros (_ & Hn & _) ->. unfold word1, MDB_AT_MULTI, MDB_AT_SORTED in *.
  destruct (flag_ok 30 (num mi a.(ea).(a_desc)) a.(ea_multi)) as (F1 & F2 & F3); [lia..|].
  destruct (flag_ok 31 _ a.(ea).(a_sorted) ltac:(lia) F3) as (G1 & G2 & _).
  assert (sorted = a.(ea).(a_sorted)) as Es by exact G1. assert (l1 = if a.(ea_multi) then Z.lor (num mi (a_desc (ea a))) (2 ^ 30) else num mi (a_desc (ea a))) as E1 by (unfold l1; rewrite Es; exact G2).
  assert (multi = a.(ea_multi)) as Em by (unfold multi; rewrite E1; exact F1). split_and!; [done|done|]. rewrite Em, E1. exact F2.
Qed.

Lemma word2_read mi a l (have := negb (Z.land l MDB_AT_NVALS =? 0)) : enc_ok mi a -> l = word2 a ->
  have = has_nv a /\ Z.to_nat (if have then Z.lxor l MDB_AT_NVALS else l) = a_numvals a.(ea).
Proof.
  intros (_ & _ & _ & Hn & _) ->. unfold word2, MDB_AT_NVALS in *. destruct (flag_ok 31 (Z.of_nat (a_numvals a.(ea))) (has_nv a)) as (G1 & G2 & _); [lia..|].
  assert (have = has_nv a) as Eh by exact G1. split; [done|]. rewrite Eh, G2. lia.
Qed.

(** The values of an attribute in the entry. *)
Lemma inline_gets {A} mi a pre mid post lp ptr (f : list berval -> nvals -> nat -> nat -> option A) (o := octets (inline_vals a)) (fl := flat (lens (inline_vals a))) :
  enc_ok mi a -> a.(ea_multi) = false -> lp = length pre -> ptr = (length pre + length fl + length mid)%nat ->
  ('(vals, nv, lp, ptr) ←
     ('(vals, lp, ptr) ← get_values (a_numvals a.(ea)) (pre ++ fl ++ mid ++ o ++ post) lp ptr;
      if has_nv a then '(nvals, lp, ptr) ← get_values (a_numvals a.(ea)) (pre ++ fl ++ mid ++ o ++ post) lp ptr; Some (vals, NOwn nvals, lp, ptr)
      else Some (vals, NSame, lp, ptr));
   f vals nv lp ptr) = f (a_vals_list a.(ea)) (match nv_of a with Some l => NOwn l | None => NSame end) (lp + length fl)%nat (ptr + length o)%nat.
Proof.
  intros (_ & _ & [[nv Hnv] _] & _ & Hl) Hm -> ->. unfold has_nv, fl, o, inline_vals, nv_of in *. rewrite Hm, Hnv in *. cbn [from_option id] in *. apply list.Forall_app in Hl as [Hl1 Hl2].
  set (vals := a_vals_list (ea a)) in *. change (a_numvals (ea a)) with (length vals). destruct nv as [l|]; cbn [from_option id] in *.
  - pose proof (nv_length _ _ Hnv) as Hnl. change (a_numvals (ea a)) with (length vals) in Hnl.
    assert (flat (lens (vals ++ l)) = flat (lens vals) ++ flat (lens l)) as -> by (unfold lens; by rewrite fmap_app, flat_app). rewrite octets_app.
    replace (pre ++ (flat (lens vals) ++ flat (lens l)) ++ mid ++ (octets vals ++ octets l) ++ post) with (pre ++ flat (lens vals) ++ (flat (lens l) ++ mid) ++ octets vals ++ (octets l ++ post)) by (rewrite <- !app_assoc; done).
    rewrite get_values_ok by (rewrite ?length_app; done || lia). cbn [mbind option_bind]. rewrite <- Hnl.
    replace (pre ++ flat (lens vals) ++ (flat (lens l) ++ mid) ++ octets vals ++ (octets l ++ post)) with ((pre ++ flat (lens vals)) ++ flat (lens l) ++ (mid ++ octets vals) ++ octets l ++ post) by (rewrite <- !app_assoc; done).
    rewrite get_values_ok by (rewrite ?length_app; done || lia). cbn [mbind option_bind]. rewrite !length_app. f_equal; lia.
  - rewrite app_nil_r. rewrite get_values_ok by (done || lia). done.
Qed.

Lemma nvals_read a b : is_Some (stored_nvals righteous a.(ea)) -> b.(a_vals) = Some (a_vals_list a.(ea)) -> b.(a_nvals) = (match nv_of a with Some l => NOwn l | None => NSame end) ->
  a_nvals_list b = a_nvals_list a.(ea).
Proof.
  intros [nv Hnv] Hv Hn. unfold a_nvals_list at 1, a_vals_list. rewrite Hv, Hn. unfold nv_of. rewrite Hnv. cbn [from_option id]. unfold stored_nvals in Hnv.
  destruct (other_nvals (ea a)) as [[l|]|] eqn:Ho; cbn [mbind option_bind] in Hnv; [| |done].
  - destruct (other_own _ _ Ho) as [-> _]. destruct (bool_decide_reflect (a_vals_list (ea a) = l)) as [E|E]; destruct righteous; cbn in Hnv; injection Hnv as <-; (done || by rewrite E).
  - injection Hnv as <-. symmetry. by apply other_same.
Qed.

Lemma decode_attrs_ok ad2id id2val mi0 attrs : Forall (stored ad2id id2val mi0) attrs -> forall mi pre mid post lp ptr room,
  good ad2id mi -> lp = length pre -> ptr = (length pre + length (flat (concat (words mi0 <$> attrs))) + length mid)%nat -> all_slots attrs <= room ->
  exists mi' attrs', decode_attrs ad_index slap_bv2ad slap_bv2undef_ad si_ad_objectClass (length attrs) ad2id id2val mi
      (pre ++ flat (concat (words mi0 <$> attrs)) ++ mid ++ octets (concat (inline_vals <$> attrs)) ++ post) lp ptr room = Some (0, mi', attrs') /\
    good ad2id mi' /\ Forall2 same attrs attrs'.
Proof.
  induction 1 as [|a attrs Ha Hs IH]; intros mi pre mid post lp ptr room Hg -> -> Hroom; [by exists mi, []|].
  destruct Ha as [Henc Hsch Hrow Hsort Hmulti]. change (words mi0 <$> (a :: attrs)) with (words mi0 a :: (words mi0 <$> attrs)). change (inline_vals <$> (a :: attrs)) with (inline_vals a :: (inline_vals <$> attrs)).
  cbn [concat]. set (f1 := flat [word1 mi0 a]). set (f2 := flat [word2 a]). set (f3 := flat (lens (inline_vals a))). set (F := flat (concat (words mi0 <$> attrs))) in *.
  set (o := octets (inline_vals a)). set (O := octets (concat (inline_vals <$> attrs))) in *. assert (length f1 = 4%nat /\ length f2 = 4%nat) as [Hf1 Hf2] by done.
  assert (flat (words mi0 a ++ concat (words mi0 <$> attrs)) = f1 ++ f2 ++ f3 ++ F) as ->.
  { unfold words at 1. change (word1 mi0 a :: word2 a :: lens (inline_vals a)) with ([word1 mi0 a] ++ [word2 a] ++ lens (inline_vals a)). rewrite !flat_app. by rewrite <- !app_assoc. }
  rewrite octets_app. fold o O. change (all_slots (a :: attrs)) with (slots a + all_slots attrs) in Hroom. unfold slots in Hroom.
  set (mem := pre ++ (f1 ++ f2 ++ f3 ++ F) ++ mid ++ (o ++ O) ++ post).
  assert (get_word mem (length pre) = Some (word1 mi0 a, (length pre + 4)%nat)) as G1.
  { replace mem with (pre ++ f1 ++ (f2 ++ f3 ++ F ++ mid ++ o ++ O ++ post)) by (unfold mem; rewrite <- !app_assoc; done). apply get_word_ok; [done|by apply word1_ok]. }
  assert (get_word mem (length pre + 4) = Some (word2 a, (length pre + 4 + 4)%nat)) as G2.
  { replace mem with ((pre ++ f1) ++ f2 ++ (f3 ++ F ++ mid ++ o ++ O ++ post)) by (unfold mem; rewrite <- !app_assoc; done). apply get_word_ok; [rewrite length_app; lia|by apply (word2_ok mi0)]. }
  destruct (word1_read mi0 a _ Henc eq_refl) as (E1 & E2 & E3). destruct (word2_read mi0 a _ Henc eq_refl) as (E4 & E5).
  cbn [length decode_attrs]. rewrite G1. cbn [mbind option_bind]. cbv zeta. rewrite E1 in *. rewrite E2 in *. rewrite E3.
  destruct (find_ad_ok ad2id mi _ _ Hg Hsch Hrow) as (mi1 & -> & Hg1 & Had & Hnum). cbn [mbind option_bind]. change (negb (0 =? 0)) with false. cbv iota. rewrite Had. cbn [mbind option_bind].
  rewrite G2. cbn [mbind option_bind]. rewrite E4 in *. rewrite E5. rewrite Hnum.
  pose proof (all_slots_nonneg attrs).
  match goal with |- context [if ?r <? 0 then None else _] => destruct (Z.ltb_spec r 0) as [|Hroom']; [destruct (has_nv a); lia|] end.
  assert ((sat_sorted (ad_type (a_desc (ea a))) && negb (a_sorted (ea a))) = false) as Hns by (destruct (sat_sorted _) eqn:Es; [by rewrite Hsort|done]). rewrite Hns.
  cbn [mbind option_bind]. change (negb (0 =? 0)) with false. cbv iota.
  set (room' := room - (Z.of_nat (a_numvals (ea a)) + 1) - (if has_nv a then Z.of_nat (a_numvals (ea a)) + 1 else 0)) in *.
  destruct (IH mi1 (((pre ++ f1) ++ f2) ++ f3) (mid ++ o) post (length pre + 4 + 4 + length f3)%nat (length pre + length (f1 ++ f2 ++ f3 ++ F) + length mid + length o)%nat room') as (mi' & attrs' & Hd & Hg' & Hsame);
    [done|rewrite !length_app; lia|rewrite !length_app; lia|unfold room'; lia|].
  assert (mem = (((pre ++ f1) ++ f2) ++ f3) ++ F ++ (mid ++ o) ++ O ++ post) as Em by (unfold mem; rewrite <- !app_assoc; done). rewrite <- Em in Hd.
  destruct (ea_multi a) eqn:Emu.
  - destruct (mval_get_ok _ _ (Hmulti eq_refl)) as (vals & nv & -> & Hb). cbn [mbind option_bind].
    assert (f3 = [] /\ o = []) as [Ef Eo] by (unfold f3, o, inline_vals; by rewrite Emu). rewrite Ef, Eo in Hd. cbn [length] in Hd. rewrite !Nat.add_0_r in Hd. rewrite Ef, Hd. cbn [mbind option_bind].
    do 2 eexists. split; [done|]. split; [done|]. constructor; [|done]. unfold same. cbn [ea ea_multi a_desc a_sorted]. rewrite Emu.
    pose proof (Hb (mkAttr (a_desc (ea a)) (Some vals) nv (a_sorted (ea a))) eq_refl eq_refl) as (P1 & P2 & P3). by split_and!.
  - rewrite Em. replace ((((pre ++ f1) ++ f2) ++ f3) ++ F ++ (mid ++ o) ++ O ++ post) with (((pre ++ f1) ++ f2) ++ f3 ++ (F ++ mid) ++ o ++ (O ++ post)) by (rewrite <- !app_assoc; done).
    pose proof (fun A f => inline_gets (A := A) mi0 a ((pre ++ f1) ++ f2) (F ++ mid) (O ++ post) (length pre + 4 + 4)%nat (length pre + length (f1 ++ f2 ++ f3 ++ F) + length mid)%nat f Henc Emu) as Hi.
    cbv zeta in Hi. fold f3 o in Hi. rewrite Hi by (rewrite !length_app; lia). clear Hi.
    replace (((pre ++ f1) ++ f2) ++ f3 ++ (F ++ mid) ++ o ++ (O ++ post)) with mem by (rewrite Em, <- !app_assoc; done). rewrite Hd. cbn [mbind option_bind].
    do 2 eexists. split; [done|]. split; [done|]. constructor; [|done]. unfold same. cbn [ea ea_multi a_desc a_sorted]. rewrite Emu. split_and!; try done. by apply (nvals_read a); [apply Henc|..].
Qed.
(** ** Putting *)

(** The attributes that put nothing into the table of values. *)
Definition quiet (a : eattr) : Prop := a.(ea_multi) = false \/ a_numvals a.(ea) = O.

Abbreviation partsize_loop' := (partsize_loop ad_index ad_cname slap_bv2ad slap_bv2undef_ad mdb_attr_mask righteous).

Lemma count_attr_multi hi a pos c a' c' : count_attr righteous hi a pos c = Some (a', c') ->
  c'.(c_nat) = c.(c_nat) + 1 /\ a_numvals a'.(ea) = a_numvals a.(ea) /\
  c'.(c_multi) = match c.(c_multi) with Some p => Some p | None => if a'.(ea_multi) && (Z.of_nat (a_numvals a.(ea)) >? 0) then Some pos else None end.
Proof. unfold count_attr. intros H. inv_bind H. by injection H as <- <-. Qed.

Lemma partsize_multi attrs : forall ad2id mi c mi' ad2id' attrs' c',
  partsize_loop' ad2id mi attrs c = Some (0, mi', ad2id', attrs', c') -> 0 <= c.(c_nat) ->
  match c.(c_multi), c'.(c_multi) with
  | Some p, q => q = Some p
  | None, Some p => exists k, p = (Z.to_nat c.(c_nat) + k)%nat /\ Forall quiet (take k attrs')
  | None, None => Forall quiet attrs'
  end.
Proof.
  induction attrs as [|a attrs IH]; intros ad2id mi c mi' ad2id' attrs' c' H Hc; cbn [partsize_loop] in H.
  { injection H as <- <- <- <-. destruct (c_multi c); [done|constructor]. }
  destruct (_ >=? _); [done|]. inv_bind H. destruct x as [[rc mi1] ad1]. destruct (Z.eqb_spec rc 0) as [->|Hr]; cbn [negb] in H; [|congruence].
  inv_bind H. destruct x as [a1 c1]. inv_bind H. destruct x as [[[[rc2 mi2] ad2] rest] c2]. injection H as -> <- <- <- <-.
  destruct (count_attr_multi _ _ _ _ _ _ Hb0) as (Hn & Hv & Hm). pose proof (IH _ _ _ _ _ _ _ Hb1 ltac:(lia)) as Hi. rewrite Hm in Hi.
  destruct (c_multi c) as [p|]; [done|]. destruct (ea_multi a1 && _) eqn:Eq.
  - rewrite Hi. exists O. split; [lia|constructor].
  - assert (quiet a1) as Hq. { apply andb_false_iff in Eq as [E|E]; [by left|right]. rewrite Hv. rewrite Z.gtb_ltb in E. apply Z.ltb_ge in E. lia. }
    destruct (c_multi c2) as [p|]; [|by constructor]. destruct Hi as (k & -> & Hk). exists (S k). split; [lia|by constructor].
Qed.

Lemma quiet_put a : quiet a -> is_Some (other_nvals a.(ea)) -> a.(ea_multi) = true -> mdb_mval_put a.(ea) = Some [].
Proof.
  intros [E|E] [nv Hnv] Hm; [congruence|]. unfold mdb_mval_put. rewrite Hnv. cbn [mbind option_bind]. unfold a_numvals in E.
  destruct (a_vals_list (ea a)); [|done]. destruct nv as [[|]|]; done.
Qed.

Lemma mval_puts_quiet mi u v : Forall quiet u -> Forall (fun a => is_Some (other_nvals a.(ea))) u -> mval_puts ad_index mi (u ++ v) = mval_puts ad_index mi v.
Proof.
  induction 1 as [|a u Ha _ IH]; intros Hs; [done|]. apply list.Forall_cons in Hs as [Hs Hss]. cbn [app mval_puts]. rewrite IH by done.
  destruct (ea_multi a) eqn:Em; [|done]. cbn [negb]. rewrite quiet_put by done. cbn [mbind option_bind]. by destruct (mval_puts _ mi v).
Qed.

(** The items of the attributes with many values, whichever attribute is the first. *)
Lemma puts_ok mi attrs (multi : option nat) : Forall (fun a => is_Some (other_nvals a.(ea))) attrs ->
  match multi with Some p => Forall quiet (take p attrs) | None => Forall quiet attrs end ->
  match multi with Some p => mval_puts ad_index mi (drop p attrs) | None => Some [] end = mval_puts ad_index mi attrs.
Proof.
  intros Hs Hq. destruct multi as [p|].
  - rewrite <- (take_drop p attrs) at 2. rewrite mval_puts_quiet; [done|done|by apply list.Forall_take].
  - rewrite <- (app_nil_r attrs). by rewrite mval_puts_quiet.
Qed.

Definition items_of (puts : list (Z * list Z)) (n : Z) : list (list Z) := (filter (fun p => p.1 = n) puts).*2.

Lemma items_of_app u v n : items_of (u ++ v) n = items_of u n ++ items_of v n.
Proof. unfold items_of. by rewrite list.filter_app, fmap_app. Qed.

Lemma items_of_one m (items : list (list Z)) n : items_of ((fun item => (m, item)) <$> items) n = if m =? n then items else [].
Proof.
  unfold items_of. induction items as [|x items IH]; [by case_if|]. cbn [fmap list_fmap]. rewrite list.filter_cons. cbn [fst].
  destruct (Z.eqb_spec m n) as [E|E]; case_decide; try done. cbn [fmap list_fmap snd]. f_equal. exact IH.
Qed.

Lemma mval_put_some a : is_Some (other_nvals a) -> is_Some (mdb_mval_put a).
Proof. intros [nv E]. unfold mdb_mval_put. rewrite E. by destruct nv. Qed.

(** Every number has the items of its attribute. *)
Lemma mval_puts_ok mi attrs : Forall (fun a => is_Some (other_nvals a.(ea))) attrs -> NoDup ((fun a => num mi a.(ea).(a_desc)) <$> attrs) ->
  exists puts, mval_puts ad_index mi attrs = Some puts /\
    (forall n, n ∉ ((fun a => num mi a.(ea).(a_desc)) <$> attrs) -> items_of puts n = []) /\
    Forall (fun a => a.(ea_multi) = true -> mdb_mval_put a.(ea) = Some (items_of puts (num mi a.(ea).(a_desc)))) attrs.
Proof.
  induction 1 as [|a attrs Ha Hs IH]; [by exists []|]. cbn [fmap list_fmap]. intros [Hn Hd]%list.NoDup_cons. destruct (IH Hd) as (puts & Hp & Hnone & Hall).
  destruct (mval_put_some _ Ha) as [items Hi]. set (m := num mi (a_desc (ea a))) in *.
  exists (if ea_multi a then ((fun item => (m, item)) <$> items) ++ puts else puts).
  assert (forall n, m <> n -> items_of (if ea_multi a then ((fun item => (m, item)) <$> items) ++ puts else puts) n = items_of puts n) as Hother.
  { intros n Hmn. destruct (ea_multi a); [|done]. rewrite items_of_app, items_of_one. by rewrite (proj2 (Z.eqb_neq _ _) Hmn). }
  split_and!.
  - cbn [mval_puts]. rewrite Hp, Hi. by destruct (ea_multi a).
  - intros n Hnn. rewrite not_elem_of_cons in Hnn. destruct Hnn as [H1 H2]. rewrite Hother by congruence. by apply Hnone.
  - constructor.
    + intros Hm. rewrite Hm. fold m. rewrite items_of_app, items_of_one, Z.eqb_refl, Hi, Hnone by done. by rewrite app_nil_r.
    + rewrite list.Forall_forall in *. intros b Hb Hm. rewrite Hother; [by apply Hall|]. intros E. apply Hn. rewrite E. apply list_elem_of_fmap. by exists b.
Qed.

(** ** The whole entry *)

Lemma put_word_u32 z pre x post lp : length x = 4%nat -> lp = length pre -> put_word (pre ++ x ++ post) lp z = Some (pre ++ flat [u32 z] ++ post, (lp + 4)%nat).
Proof. intros Hx ->. unfold put_word. by rewrite mem_write_app by done. Qed.

(** What an entry is stored as; [post] is the padding. *)
Definition image (mi : mdb_info) (ocflags : Z) (attrs : list eattr) (post : list Z) : list Z :=
  let W := concat (words mi <$> attrs) in
  flat [Z.of_nat (length attrs); all_slots attrs; u32 ocflags; Z.of_nat (length W)] ++ flat W ++ octets (concat (inline_vals <$> attrs)) ++ post.

Lemma entry_encode_ok mi e mem ec (W := concat (words mi <$> e.(e_attrs))) (O := octets (concat (inline_vals <$> e.(e_attrs)))) :
  Forall (enc_ok mi) e.(e_attrs) -> (16 + 4 * length W + length O <= length mem)%nat ->
  ec.(ec_nattrs) = Z.of_nat (length e.(e_attrs)) -> ec.(ec_nvals) = all_slots e.(e_attrs) -> ec.(ec_offset) = Z.of_nat (length W) ->
  word_ok ec.(ec_nattrs) -> word_ok ec.(ec_nvals) -> word_ok ec.(ec_offset) ->
  exists post, mdb_entry_encode ad_index righteous mi e mem ec = Some (0, image mi e.(e_ocflags) e.(e_attrs) post) /\ length (image mi e.(e_ocflags) e.(e_attrs) post) = length mem.
Proof.
  intros He Hl Ea Ev Eo Wa Wv Wo. destruct (split_area mem 4) as (x1 & m1 & -> & H1 & _); [lia|]. rewrite length_app in Hl.
  destruct (split_area m1 4) as (x2 & m2 & -> & H2 & _); [lia|]. rewrite length_app in Hl. destruct (split_area m2 4) as (x3 & m3 & -> & H3 & _); [lia|]. rewrite length_app in Hl.
  destruct (split_area m3 4) as (x4 & m4 & -> & H4 & _); [lia|]. rewrite length_app in Hl. destruct (split_area m4 (4 * length W)) as (wa & m5 & -> & H5 & _); [lia|]. rewrite length_app in Hl.
  destruct (split_area m5 (length O)) as (ba & post & -> & H6 & _); [lia|]. exists post. unfold mdb_entry_encode.
  set (f1 := flat [u32 (ec_nattrs ec)]). set (f2 := flat [u32 (ec_nvals ec)]). set (f3 := flat [u32 (e_ocflags e)]). set (f4 := flat [u32 (ec_offset ec)]).
  assert (length f1 = 4%nat /\ length f2 = 4%nat /\ length f3 = 4%nat /\ length f4 = 4%nat) as (F1 & F2 & F3 & F4) by done.
  pose proof (put_word_u32 (ec_nattrs ec) [] x1) as P1. cbn [app] in P1. rewrite P1 by done. cbn [mbind option_bind]. fold f1.
  rewrite put_word_u32 by done. cbn [mbind option_bind]. fold f2.
  rewrite (app_assoc f1 f2), put_word_u32 by (rewrite ?length_app; done || lia). cbn [mbind option_bind]. fold f3.
  rewrite (app_assoc (f1 ++ f2) f3), put_word_u32 by (rewrite ?length_app; done || lia). cbn [mbind option_bind]. fold f4.
  rewrite (app_assoc ((f1 ++ f2) ++ f3) f4), (proj2 (Z.ltb_ge _ _)) by (unfold word_ok in *; lia). rewrite Eo, Nat2Z.id.
  pose proof (encode_attrs_ok mi (e_attrs e) He (((f1 ++ f2) ++ f3) ++ f4) wa [] ba post (0 + 4 + 4 + 4 + 4)%nat (0 + 4 + 4 + 4 + 4 + 4 * length W)%nat H5 H6) as En.
  cbn [app] in En. rewrite En by (rewrite !length_app; cbn [length]; lia). unfold image. fold W O.
  change (flat [Z.of_nat (length (e_attrs e)); all_slots (e_attrs e); u32 (e_ocflags e); Z.of_nat (length W)])
    with (flat ([Z.of_nat (length (e_attrs e))] ++ [all_slots (e_attrs e)] ++ [u32 (e_ocflags e)] ++ [Z.of_nat (length W)])).
  rewrite !flat_app, <- Ea, <- Ev, <- Eo. rewrite <- (uwrap_small 32 (ec_nattrs ec)) by done. rewrite <- (uwrap_small 32 (ec_nvals ec)) by done. rewrite <- (uwrap_small 32 (ec_offset ec)) by done.
  fold f1 f2 f3 f4. rewrite <- !app_assoc. split; [done|]. rewrite !length_app, length_flat. fold O. lia.
Qed.

Ltac header_word mem lp G :=
  rewrite <- ?app_assoc in G; match type of G with _ = ?r => change (get_word mem lp = r) in G end; rewrite G; clear G; cbn [mbind option_bind].

Lemma entry_decode_ok ad2id id2val mi0 mi ocflags attrs post : Forall (stored ad2id id2val mi0) attrs -> good ad2id mi ->
  Z.of_nat (length attrs) < 2 ^ 31 -> word_ok (all_slots attrs) -> Z.of_nat (length (concat (words mi0 <$> attrs))) < 2 ^ 31 ->
  exists mi' e, mdb_entry_decode ad_index slap_bv2ad slap_bv2undef_ad si_ad_objectClass ad2id id2val mi (image mi0 ocflags attrs post) = Some (0, mi', e) /\
    good ad2id mi' /\ e.(e_ocflags) = u32 ocflags /\ Forall2 same attrs e.(e_attrs).
Proof.
  intros Hs Hg Hn Hv Ho. unfold mdb_entry_decode, image. set (W := concat (words mi0 <$> attrs)) in *. set (O := octets _). set (rest := flat W ++ O ++ post).
  assert (word_ok (u32 ocflags)) as Hoc by (apply Z.mod_pos_bound; lia).
  change (flat [Z.of_nat (length attrs); all_slots attrs; u32 ocflags; Z.of_nat (length W)]) with (flat [Z.of_nat (length attrs)] ++ flat [all_slots attrs] ++ flat [u32 ocflags] ++ flat [Z.of_nat (length W)]).
  set (f1 := flat [Z.of_nat (length attrs)]). set (f2 := flat [all_slots attrs]). set (f3 := flat [u32 ocflags]). set (f4 := flat [Z.of_nat (length W)]).
  assert (length f1 = 4%nat /\ length f2 = 4%nat /\ length f3 = 4%nat /\ length f4 = 4%nat) as (F1 & F2 & F3 & F4) by done.
  rewrite <- !app_assoc. set (mem := f1 ++ f2 ++ f3 ++ f4 ++ rest).
  pose proof (get_word_ok (Z.of_nat (length attrs)) [] (f2 ++ f3 ++ f4 ++ rest) 0%nat eq_refl ltac:(unfold word_ok; lia)) as G. header_word mem 0%nat G.
  pose proof (get_word_ok _ f1 (f3 ++ f4 ++ rest) (0 + 4)%nat eq_refl Hv) as G. header_word mem (0 + 4)%nat G.
  pose proof (get_word_ok _ (f1 ++ f2) (f4 ++ rest) (0 + 4 + 4)%nat eq_refl Hoc) as G. header_word mem (0 + 4 + 4)%nat G.
  destruct (Z.eqb_spec (all_slots attrs) 0) as [Hz|Hz].
  { destruct attrs as [|a attrs]; [exists mi, (mkEntry [] (u32 ocflags)); by split_and!|]. change (slots a + all_slots attrs = 0) in Hz. pose proof (all_slots_nonneg attrs). unfold slots in Hz. destruct (has_nv a); lia. }
  pose proof (get_word_ok (Z.of_nat (length W)) (f1 ++ f2 ++ f3) rest (0 + 4 + 4 + 4)%nat eq_refl ltac:(unfold word_ok; lia)) as G. header_word mem (0 + 4 + 4 + 4)%nat G.
  rewrite !swrap_small, !Nat2Z.id by lia. rewrite (proj2 (Z.ltb_ge _ _)) by lia.
  destruct (decode_attrs_ok ad2id id2val mi0 attrs Hs mi (f1 ++ f2 ++ f3 ++ f4) [] post (0 + 4 + 4 + 4 + 4)%nat (0 + 4 + 4 + 4 + 4 + 4 * length W)%nat (all_slots attrs) Hg) as (mi' & attrs' & Hd & Hg' & Hsame);
    [done|rewrite length_flat, !length_app; cbn [length]; fold W; lia|lia|]. cbn [app] in Hd. rewrite <- !app_assoc in Hd. fold W O in Hd. change (flat W ++ O ++ post) with rest in Hd. fold mem in Hd. rewrite Hd.
  cbn [mbind option_bind]. by exists mi', (mkEntry attrs' (u32 ocflags)).
Qed.

Lemma total_flags u : forall v, ea <$> u = ea <$> v -> total u = total v /\ all_slots u = all_slots v.
Proof.
  induction u as [|a u IH]; intros [|b v] E; try done. injection E as E1 E2. destruct (IH v E2) as [H1 H2].
  change (total (a :: u)) with (weight a + total u). change (total (b :: v)) with (weight b + total v). change (all_slots (a :: u)) with (slots a + all_slots u). change (all_slots (b :: v)) with (slots b + all_slots v).
  unfold weight, slots, has_nv, nv_of. by rewrite E1, H1, H2.
Qed.

(** The entry takes what it weighs, or less. *)
Lemma image_small mi attrs : Forall (enc_ok mi) attrs ->
  4 * Z.of_nat (length (concat (words mi <$> attrs))) + Z.of_nat (length (octets (concat (inline_vals <$> attrs)))) <= total attrs /\ 4 * Z.of_nat (length attrs) <= total attrs /\ all_slots attrs <= total attrs.
Proof.
  induction 1 as [|a attrs Ha _ IH]; [done|]. destruct Ha as (_ & _ & [[nv Hnv] _] & _). change (words mi <$> (a :: attrs)) with (words mi a :: (words mi <$> attrs)).
  change (inline_vals <$> (a :: attrs)) with (inline_vals a :: (inline_vals <$> attrs)). change (total (a :: attrs)) with (weight a + total attrs). change (all_slots (a :: attrs)) with (slots a + all_slots attrs).
  cbn [concat]. rewrite octets_app, !length_app. pose proof (length_octets (inline_vals a)) as Ho. unfold words at 1. cbn [length]. rewrite length_lens.
  assert (vsize (inline_vals a) <= vsize (a_vals_list (ea a) ++ default [] (nv_of a))) by (unfold inline_vals; destruct (ea_multi a); [apply vsize_nonneg|done]).
  assert (slots a <= weight a).
  { unfold slots, weight, has_nv, nv_of. rewrite Hnv. cbn [from_option id]. unfold vsize. rewrite !length_app. change (a_numvals (ea a)) with (length (a_vals_list (ea a))). destruct nv as [l|]; cbn [from_option id length]; [|lia].
    pose proof (nv_length _ _ Hnv) as Hl. change (a_numvals (ea a)) with (length (a_vals_list (ea a))) in Hl. lia. }
  unfold weight in *. lia.
Qed.

Lemma padded_spec (d : Z) : 0 <= d < 2 ^ 32 -> d <= (if righteous then d else Z.land (u64 (d + 8 - 1)) (u64 (Z.lnot 7))) < d + 8.
Proof.
  intros Hd. destruct righteous; [lia|]. change (u64 (Z.lnot 7)) with (u64 (- 8)). rewrite land_align8 by (apply Z.mod_pos_bound; lia).
  rewrite uwrap_small by lia. pose proof (Z.div_mod (d + 8 - 1) 8). pose proof (Z.mod_pos_bound (d + 8 - 1) 8). lia.
Qed.

Definition descs (attrs : list eattr) : list AttributeDescription := (fun a => a.(ea).(a_desc)) <$> attrs.

Lemma descs_flags u v : ea <$> u = ea <$> v -> descs u = descs v.
Proof. intros E. unfold descs. change (fun a : eattr => a_desc (ea a)) with (a_desc ∘ ea). by rewrite !list_fmap_compose, E. Qed.

Lemma nums_distinct ad2id mi attrs : good ad2id mi -> Forall (fun a => a.(ea).(a_desc) ∈ schema) attrs -> Forall (enc_ok mi) attrs -> NoDup (descs attrs) ->
  NoDup ((fun a => num mi a.(ea).(a_desc)) <$> attrs).
Proof.
  intros Hg. unfold descs. induction attrs as [|a attrs IH]; intros Hs He Hd; [constructor|]. cbn [fmap list_fmap] in *.
  apply list.Forall_cons in Hs as [Hs Hss]. apply list.Forall_cons in He as [He Hes]. apply list.NoDup_cons in Hd as [Hd Hds]. apply list.NoDup_cons. split; [|by apply IH].
  intros Hin. apply list_elem_of_fmap in Hin as (b & Eb & Hb). apply Hd, list_elem_of_fmap. exists b. split; [|done].
  rewrite list.Forall_forall in Hss, Hes. destruct He as (_ & Ha & _). destruct (Hes b Hb) as (_ & Hnb & _).
  destruct (gd_adxs _ _ Hg _ Hs ltac:(lia)) as [[_ R1] _]. destruct (gd_adxs _ _ Hg _ (Hss b Hb) ltac:(lia)) as [[_ R2] _].
  apply name_inj; [done|by apply Hss|]. rewrite Eb in R1. congruence.
Qed.

(** An attribute that the table of values keeps as it is. *)
Definition keeps (a : eattr) : Prop :=
  stored_nvals righteous a.(ea) = other_nvals a.(ea) /\ (has_nv a = true -> Forall (fun v => Z.of_nat (length v) < 65536) (a_vals_list a.(ea))).

Definition sorted_vals (a : eattr) : Prop := a.(ea).(a_desc).(ad_type).(sat_sorted) = true -> a.(ea).(a_sorted) = true.

Lemma other_some a : is_Some (stored_nvals righteous a) -> is_Some (other_nvals a).
Proof. intros [nv H]. unfold stored_nvals in H. inv_bind H. by exists x. Qed.

Abbreviation partsize := (mdb_entry_partsize ad_index ad_cname slap_bv2ad slap_bv2undef_ad mdb_attr_mask righteous).
Abbreviation put := (mdb_id2entry_put ad_index ad_cname slap_bv2ad slap_bv2undef_ad mdb_attr_mask righteous).
Abbreviation decode := (mdb_entry_decode ad_index slap_bv2ad slap_bv2undef_ad si_ad_objectClass).

Lemma partsize_ok ad2id mi e : good ad2id mi -> Forall attr_in e.(e_attrs) -> total e.(e_attrs) + 32 < 2 ^ 31 ->
  exists mi' more e' ec, partsize ad2id mi e = Some (0, mi', ad2id ++ more, e', ec) /\
    good (ad2id ++ more) mi' /\ ea <$> e'.(e_attrs) = ea <$> e.(e_attrs) /\ e'.(e_ocflags) = e.(e_ocflags) /\ Forall (enc_ok mi') e'.(e_attrs) /\
    ec.(ec_len) = 16 + total e.(e_attrs) /\
    0 <= 16 + 4 * Z.of_nat (length (concat (words mi' <$> e'.(e_attrs)))) + Z.of_nat (length (octets (concat (inline_vals <$> e'.(e_attrs))))) <= ec.(ec_dlen) /\
    ec.(ec_nattrs) = Z.of_nat (length e'.(e_attrs)) /\ ec.(ec_nvals) = all_slots e'.(e_attrs) /\ ec.(ec_offset) = Z.of_nat (length (concat (words mi' <$> e'.(e_attrs)))) /\
    match ec.(ec_multi) with Some p => Forall quiet (take p e'.(e_attrs)) | None => Forall quiet e'.(e_attrs) end.
Proof.
  intros Hg Hin Ht. pose proof (total_nonneg (e_attrs e)). unfold partsize.
  destruct (partsize_loop_ok (e_attrs e) ad2id mi (mkCounts 16 16 0 0 0 0 None) Hg Hin) as (mi' & more & attrs' & c & Hp & Hg' & _ & Hea & Henc & Hlen & Hd & Hn & Hv & Ho); [lia|].
  rewrite Hp. cbn [mbind option_bind c_len c_dlen c_nat c_nval c_nnval c_doff] in *. destruct (image_small _ _ Henc) as (I1 & I2 & I3).
  destruct (total_flags _ _ Hea) as [T1 T2]. pose proof (all_slots_nonneg attrs'). pose proof (f_equal length Hea) as Hl. rewrite !length_fmap in Hl.
  pose proof (partsize_multi _ _ _ _ _ _ _ _ Hp ltac:(cbn; lia)) as Hm. cbn [c_multi c_nat] in Hm.
  destruct (padded_spec (c_dlen c)) as [D1 _]; [lia|].
  do 4 eexists. split; [reflexivity|]. cbn [e_attrs e_ocflags ec_len ec_dlen ec_nattrs ec_nvals ec_offset ec_multi].
  rewrite (swrap_small 32 (c_nat c)), (swrap_small 32 (c_nval c)) by lia. rewrite swrap_small by lia.
  split_and!; try (done || lia). destruct (c_multi c) as [p|]; [|done]. by destruct Hm as (k & -> & Hk).
Qed.

(** A library that takes what is put. *)
Definition accepts (mdbx_put : Z -> Z -> Z * Z * list Z) : Prop :=
  forall flag len, 0 <= len -> exists l mem, mdbx_put flag len = (0, l, mem) /\ Z.of_nat (length mem) = len.

(** C6: An entry that is added is read back, by a server that knows fewer attributes or more,
    when others have added attributes since: the attributes in their order with their
    flags, the values in their order, or in that of the database where they are many.
    The schema has fewer than MDB_MAXADS descriptions, found by their names, and the
    tables of both servers agree with the rows of the database. The attributes are of
    the schema, each once, with the flag of sorted values where the schema asks for
    it, and with a normalised value for each value if they have any; the entry takes
    less than 2^31 - 16 octets and no more than the largest size configured. The
    library takes what is put and gives back the items that were put. An attribute
    whose values are put apart, being many, has values of less than 65536 octets if it
    has normalised ones of its own, and in righteous mode these differ from them. *)
Theorem mdb_entry_roundtrip mi_maxentrysize nextid mdbx_put ad2id mi e_id e :
  good ad2id mi -> Forall attr_in e.(e_attrs) -> NoDup (descs e.(e_attrs)) -> Forall sorted_vals e.(e_attrs) ->
  total e.(e_attrs) + 32 < 2 ^ 31 -> (mi_maxentrysize = 0 \/ 16 + total e.(e_attrs) <= mi_maxentrysize) -> accepts mdbx_put ->
  exists mi' more e' data puts, put mi_maxentrysize nextid mdbx_put ad2id mi e_id e ADD_FLAGS = Some (0, mi', ad2id ++ more, e', data, puts) /\
    good (ad2id ++ more) mi' /\ ea <$> e'.(e_attrs) = ea <$> e.(e_attrs) /\
    forall later mi2 id2val, good ((ad2id ++ more) ++ later) mi2 -> (forall n, id2val n ≡ₚ items_of puts n) ->
      Forall (fun a => a.(ea_multi) = true -> keeps a) e'.(e_attrs) ->
      exists mi3 e2, decode ((ad2id ++ more) ++ later) id2val mi2 data = Some (0, mi3, e2) /\
        good ((ad2id ++ more) ++ later) mi3 /\ e2.(e_ocflags) = u32 e.(e_ocflags) /\ Forall2 same e'.(e_attrs) e2.(e_attrs).
Proof.
  intros Hg Hin Hd Hsort Ht Hmx Hput. destruct (partsize_ok ad2id mi e Hg Hin Ht) as (mi' & more & e' & ec & Hp & Hg' & Hea & Hoc & Henc & Hlen & Hdl & Ena & Env & Eoff & Hq).
  destruct (image_small _ _ Henc) as (I1 & I2 & I3). destruct (total_flags _ _ Hea) as [T1 T2]. pose proof (all_slots_nonneg (e_attrs e')).
  assert (Forall (fun a => a.(ea).(a_desc) ∈ schema /\ is_Some (other_nvals a.(ea))) e'.(e_attrs)) as Hin'.
  { apply (list.Forall_fmap ea (fun a => a_desc a ∈ schema /\ is_Some (other_nvals a))). rewrite Hea. apply list.Forall_fmap. eapply list.Forall_impl; [exact Hin|]. intros a [H1 [H2 _]]. split; [done|by apply other_some]. }
  apply list.Forall_and in Hin' as [Hsch Hnv]. assert (Forall sorted_vals e'.(e_attrs)) as Hsort'.
  { apply (list.Forall_fmap ea (fun a => sat_sorted (ad_type (a_desc a)) = true -> a_sorted a = true)). rewrite Hea. by apply list.Forall_fmap. }
  rewrite <- (descs_flags _ _ Hea) in Hd. destruct (mval_puts_ok mi' _ Hnv (nums_distinct _ _ _ Hg' Hsch Henc Hd)) as (puts & Hputs & _ & Hitems).
  unfold put. rewrite Hp. cbn [mbind option_bind]. change (negb (0 =? 0)) with false. cbv iota zeta. set (flag := if e_id <? nextid then _ else _).
  replace (negb (mi_maxentrysize =? 0) && (ec_len ec >? mi_maxentrysize)) with false by (symmetry; rewrite Z.gtb_ltb; destruct Hmx as [->|]; [done|]; rewrite (proj2 (Z.ltb_ge _ _)) by lia; apply andb_false_r).
  destruct (Hput flag (ec_dlen ec) ltac:(lia)) as (l & mem & -> & Hmem). change (negb (0 =? 0)) with false. cbn [andb].
  destruct (entry_encode_ok mi' e' mem ec Henc) as (post & -> & _); [lia|done..|unfold word_ok; lia|unfold word_ok; lia|unfold word_ok; lia|].
  cbn [mbind option_bind]. change (negb (ADD_FLAGS =? 0)) with true. change (negb (0 =? 0)) with false. cbv iota.
  rewrite (puts_ok mi' _ (ec_multi ec) Hnv Hq), Hputs. cbn [mbind option_bind]. do 5 eexists. split; [reflexivity|]. split_and!; [done|done|].
  intros later mi2 id2val Hg2 Hv Hk. rewrite <- Hoc. apply entry_decode_ok; [|done|lia|unfold word_ok; lia|lia].
  rewrite list.Forall_forall in *. intros a Ha. pose proof (Henc a Ha) as He. split; [done|by apply Hsch| |by apply Hsort'|].
  - apply row_app. apply (gd_adxs _ _ Hg' _ (Hsch a Ha)). destruct He as (_ & Hz & _). lia.
  - intros Hm. destruct (Hk a Ha Hm) as [K1 K2]. eexists. split; [by apply Hitems|]. split_and!; [apply Hv|done|done].
Qed.
End spec.

(** ** A server with two attributes; the second has more than one value rarely *)

Definition text_type : AttributeType := mkAT None None None None false false false None None.
Definition ad_cn : AttributeDescription := mkAD 1 text_type.
Definition ad_member : AttributeDescription := mkAD 2 text_type.

Definition sample_cname (ad : AttributeDescription) : text := if ad.(ad_id) =? 1 then list_ascii_of_string "cn" else list_ascii_of_string "member".
Definition sample_bv2ad (n : text) : option AttributeDescription :=
  if bool_decide (n = list_ascii_of_string "cn") then Some ad_cn else if bool_decide (n = list_ascii_of_string "member") then Some ad_member else None.
Definition sample_mask (ad : AttributeDescription) : option Z := if ad.(ad_id) =? 2 then Some 1 else None.

Definition sample_mi : mdb_info := mkInfo ∅ ∅ 0 UINT_MAX.

Definition sample_entry : Entry :=
  let t := list_ascii_of_string in
  mkEntry [mkEA (mkAttr ad_cn (Some [t "A"%string; t "Bc"%string]) (NOwn [t "a"%string; t "bc"%string]) false) false;
           mkEA (mkAttr ad_member (Some [t "x"%string; t ""%string]) NSame false) false] 5.

Definition sample_put (flag len : Z) : Z * Z * list Z := (0, len, repeat 0 (Z.to_nat len)).

Lemma sample_good : good ad_id sample_cname [ad_cn; ad_member] [] sample_mi.
Proof.
  split; [split; constructor|done|..].
  - intros i ad _ [_ E]. by destruct (Z.to_nat (i - 1)).
  - by intros ad _ [].
  - intros i ad _ [_ E]. by destruct (Z.to_nat (i - 1)).
Qed.

Lemma sample_names ad : ad ∈ [ad_cn; ad_member] -> sample_bv2ad (sample_cname ad) = Some ad.
Proof. intros [->|[->|[]%not_elem_of_nil]%elem_of_cons]%elem_of_cons; done. Qed.

Lemma sample_index ad : ad ∈ [ad_cn; ad_member] -> 0 < ad_id ad < MDB_MAXADS.
Proof. intros [->|[->|[]%not_elem_of_nil]%elem_of_cons]%elem_of_cons; done. Qed.

Lemma sample_inj a b : a ∈ [ad_cn; ad_member] -> b ∈ [ad_cn; ad_member] -> ad_id a = ad_id b -> a = b.
Proof. intros [->|[->|[]%not_elem_of_nil]%elem_of_cons]%elem_of_cons [->|[->|[]%not_elem_of_nil]%elem_of_cons]%elem_of_cons; done. Qed.

Lemma sample_accepts : accepts sample_put.
Proof. intros flag len Hl. do 2 eexists. split; [done|]. rewrite repeat_length. lia. Qed.

Lemma sample_keeps attrs : ea <$> attrs = ea <$> sample_entry.(e_attrs) -> Forall (fun a => a.(ea_multi) = true -> keeps false a) attrs.
Proof. intros H. destruct attrs as [|[a m] [|[b n] [|]]]; try done. injection H as -> ->. repeat (constructor; [intros _; split; [done|repeat constructor]|]). constructor. Qed.

Lemma mdb_entry_roundtrip_witness :
  exists mi' more e' data puts, mdb_id2entry_put ad_id sample_cname sample_bv2ad (fun _ => None) sample_mask false 0 9 sample_put [] sample_mi 7 sample_entry ADD_FLAGS =
      Some (0, mi', [] ++ more, e', data, puts) /\
    exists mi3 e2, mdb_entry_decode ad_id sample_bv2ad (fun _ => None) ad_cn (([] ++ more) ++ []) (items_of puts) mi' data = Some (0, mi3, e2) /\ Forall2 same e'.(e_attrs) e2.(e_attrs).
Proof.
  destruct (mdb_entry_roundtrip ad_id sample_cname sample_bv2ad (fun _ => None) sample_mask false ad_cn [ad_cn; ad_member]
    sample_names sample_index sample_inj ltac:(done) 0 9 sample_put [] sample_mi 7 sample_entry sample_good) as (mi' & more & e' & data & puts & Hp & Hg & Hea & Hd).
  - repeat constructor; cbn; (apply list_elem_of_here || apply list_elem_of_further, list_elem_of_here || (by eexists) || right; by eexists).
  - apply list.NoDup_cons. split; [by intros ?%list_elem_of_singleton|apply NoDup_singleton].
  - repeat (constructor; [by intros|]). constructor.
  - done.
  - by left.
  - exact sample_accepts.
  - exists mi', more, e', data, puts. split; [exact Hp|]. destruct (Hd [] mi' (items_of puts)) as (mi3 & e2 & H1 & _ & _ & H2).
    + rewrite app_nil_r. exact Hg.
    + done.
    + by apply sample_keeps.
    + exists mi3, e2. by split.
Defined.

(** ** What goes wrong *)

(** The entry is added and read again. *)
Definition sample_cycle (righteous : bool) (e : Entry) : option (Z * Entry) :=
  '(rc, mi, ad2id, e, data, puts) ← mdb_id2entry_put ad_id sample_cname sample_bv2ad (fun _ => None) sample_mask righteous 0 9 sample_put [] sample_mi 7 e ADD_FLAGS;
  '(rc, _, e) ← mdb_entry_decode ad_id sample_bv2ad (fun _ => None) ad_cn ad2id (items_of puts) mi data;
  Some (rc, e).

Definition sample_members (vals nvals : list string) : Entry :=
  mkEntry [mkEA (mkAttr ad_member (Some (list_ascii_of_string <$> vals)) (NOwn (list_ascii_of_string <$> nvals)) false) false] 0.

(** The normalised values of an attribute with many values are not the values: it is read
    back; they are the same: the item has two values and the decoder asserts that it has
    one. *)
Lemma righteous_items_assert :
  let x := ["A"%string; "B"%string] in let y := ["a"%string; "b"%string] in
  is_Some (sample_cycle true (sample_members x y)) /\ is_Some (sample_cycle false (sample_members y y)) /\ sample_cycle true (sample_members y y) = None.
Proof. split_and!; vm_compute; [by eexists|by eexists|done]. Qed.

(** A value of 65536 octets is read back as the empty value, and its normalised value as the
    rest. *)
Lemma item_length_wraps v c nv : Z.of_nat (length v) = 65535 ->
  mval_item true (item2 (v ++ [c]) nv) = Some ([], nv ++ "000"%char :: v).
Proof.
  intros Hv. unfold mval_item. assert (length (item2 (v ++ [c]) nv) = (length nv + length v + 5)%nat) as Hl by (unfold item2; rewrite !length_app, !length_fmap, length_app; cbn [length le16_bytes]; lia).
  destruct (Nat.ltb_spec (length (item2 (v ++ [c]) nv)) 2) as [|_]; [lia|]. rewrite Hl. unfold item2. rewrite length_app. cbn [length].
  replace (Z.of_nat (length v + 1)) with 65536 by lia. change (le16_bytes (65536 mod 65536)) with [0; 0].
  set (code := ascii_code) in *. set (w := (code <$> nv) ++ 0 :: (code <$> v)).
  assert (length w = (length nv + length v + 1)%nat) as Hw by (unfold w; rewrite length_app; cbn [length]; rewrite !length_fmap; lia).
  assert ((code <$> nv) ++ [0] ++ (code <$> (v ++ [c])) ++ [0] ++ [0; 0] = (w ++ [code c; 0]) ++ [0; 0] ++ []) as E by (unfold w; rewrite fmap_app, <- !app_assoc; done).
  rewrite E at 1. rewrite mem_read_app by (rewrite ?length_app; cbn [length]; done || lia). cbn [mbind option_bind].
  change (Z.to_nat (le16_val [0; 0])) with 0%nat. destruct (Nat.ltb_spec (length nv + length v + 5 - 2) (0 + 2)) as [|_]; [lia|].
  rewrite E, <- app_assoc.
  change ([code c; 0] ++ [0; 0] ++ []) with ([code c] ++ [] ++ [0; 0; 0]).
  rewrite (app_assoc w [code c]). assert (mem_read ((w ++ [code c]) ++ [] ++ [0; 0; 0]) (length nv + length v + 5 - 2 - 0 - 1) 0 = Some []) as ->
    by (apply mem_read_app; [rewrite length_app; cbn [length]; lia|done]). cbn [mbind option_bind].
  rewrite <- app_assoc, mem_read_front by lia. cbn [mbind option_bind]. do 2 f_equal. unfold w, octets_text. rewrite fmap_app. fold (octets_text (code <$> nv)). rewrite octets_text_code.
  cbn [fmap list_fmap]. fold (octets_text (code <$> v)). by rewrite octets_text_code.
Qed.

(** An operation that numbers [ad_cn] is undone: the count of numbers and the table of the
    database are as they were. [ad_member] then gets the same number. *)
Lemma undone_number_is_given_again :
  let get := mdb_ad_get ad_id sample_cname sample_bv2ad (fun _ => None) in
  ('(_, mi1, _) ← get [] sample_mi ad_cn;
   let mi2 := set_numads mi1 (mi_numads sample_mi) in
   '(_, mi3, ad2id) ← get [] mi2 ad_member;
   Some (adx ad_id mi3 ad_cn, adx ad_id mi3 ad_member, ad2id)) = Some (1, 1, [sample_cname ad_member]).
Proof. vm_compute. reflexivity. Qed.
