(* ===== verification/Ordered.v ===== *)
(** * Ordered values of an attribute (servers/slapd/value.c)

    The values of an X-ORDERED attribute have their indexes in braces in front.
    The functions that renumber them, sort them by index, insert new ones where
    their indexes say, and those that keep an index away from the functions of the
    syntax. [None] is a failed assertion or undefined behaviour. *)

From Stdlib Require Import Ascii String.
From S2P Require Import Prelude Text Attr.

Local Open Scope Z_scope.

(** ** Ordered values: a value with its index in braces in front *)

(** A value without a leading index; an index that is not closed fails the
    assertion. *)
Definition strip_index (v : berval) : option berval :=
  match v with
  | x :: v' => if Ascii.eqb x "{" then '(_, rest) ← split_at "}" v'; Some rest else Some v
  | [] => Some v
  end.

(** "{%u}" *)
Definition index_text (i : nat) : text := "{"%char :: digits_of 10 10 (Z.of_nat i) [] ++ ["}"%char].

Fixpoint renumber (i : nat) (l : list berval) : option (list berval) :=
  match l with
  | [] => Some []
  | v :: l => v ← strip_index v; l ← renumber (S i) l; Some ((index_text i ++ v) :: l)
  end.

Definition ordered_value_renumber (a : Attribute) : option Attribute :=
  vals ← renumber 0 (a_vals_list a);
  nv ← (match a.(a_nvals) with NOwn n => n ← renumber 0 n; Some (NOwn n) | x => Some x end);
  Some (mkAttr a.(a_desc) (Some vals) nv a.(a_sorted)).

(** The base that the prefix of a number tells. *)
Definition prefix_base (u : text) : Z :=
  match u with
  | z :: u =>
      if Ascii.eqb z "0" then
        match u with
        | x :: d :: _ =>
            if ((ascii_code x =? 120) || (ascii_code x =? 88)) && bool_decide (is_Some (digit_in 16 d)) then 16 else 8
        | _ => 8
        end
      else 10
  | [] => 10
  end.

(** [strtol] in base 0. Without a number the value is 0 and the rest is the whole
    text. *)
Definition strtol0 (s : text) : Z * text :=
  let u := match skip_space s with
           | c :: u => if Ascii.eqb c "-" || Ascii.eqb c "+" then u else c :: u
           | [] => []
           end in
  default (0, s) (strtol s (prefix_base u)).

(** All values have an index, or none: whether they have; [None] is the error. *)
Fixpoint index_kind (vals : list berval) (index noindex : bool) : option bool :=
  match vals with
  | [] => Some index
  | v :: vals =>
      if match v with x :: _ => Ascii.eqb x "{" | [] => false end then
        match split_at "}" v with
        | None => None
        | Some _ => if noindex then None else index_kind vals true noindex
        end
      else if index then None else index_kind vals index true
  end.

(** The indexes; [None] is the error. *)
Definition read_index (v : berval) : option Z :=
  let '(n, rest) := strtol0 (tail v) in
  match rest with c :: _ => if Ascii.eqb c "}" then Some (swrap 32 n) else None | [] => None end.

(** The insertion sort, on the values with their indexes, of the values from [i]. *)
Fixpoint insert_index {A} (x : Z * A) (rev_sorted : list (Z * A)) : list (Z * A) :=
  match rev_sorted with
  | y :: l => if y.1 >? x.1 then y :: insert_index x l else x :: y :: l
  | [] => [x]
  end.

Definition index_sort {A} (l : list (Z * A)) : list (Z * A) := rev (fold_left (fun acc x => insert_index x acc) l []).

Definition ordered_value_sort (a : Attribute) (do_renumber : bool) : option (Z * Attribute) :=
  let vals := a_vals_list a in
  let finish renum a := if do_renumber && renum then a ← ordered_value_renumber a; Some (0, a) else Some (0, a) in
  match index_kind vals false false with
  | None => Some (LDAP_INVALID_SYNTAX, a)
  | Some false => finish true a
  | Some true =>
      match mapM read_index vals with
      | None => Some (LDAP_INVALID_SYNTAX, a)
      | Some indexes =>
          nv ← (match a.(a_nvals) with
                | NOwn n => if decide (List.length n = List.length vals) then Some n else None
                | _ => Some vals
                end);
          let l := index_sort (zip indexes (zip vals nv)) in
          let a := mkAttr a.(a_desc) (Some (l.*2.*1)) (match a.(a_nvals) with NOwn _ => NOwn (l.*2.*2) | x => x end) a.(a_sorted) in
          let first := default 0 (head l.*1) in
          let last := List.last l.*1 0 in
          finish (negb (first =? 0) || negb (last =? Z.of_nat (List.length vals) - 1)) a
      end
  end.

(** The position that a new value asks for; -1 for the end, [None] for the error. *)
Definition wanted_index (anum : nat) (v : berval) : option Z :=
  match v with
  | x :: v' =>
      if Ascii.eqb x "{" then
        let '(k, next) := strtol0 v' in
        let k := swrap 32 k in
        if Nat.eqb (List.length next) (List.length v') || negb (match next with c :: _ => Ascii.eqb c "}" | [] => false end)
        then None else Some (if k >? Z.of_nat anum then -1 else k)
      else Some (-1)
  | [] => Some (-1)
  end.

(** The insertions of the values with their normalised forms: [inl] is the
    error. *)
Fixpoint insert_wanted (l : list (berval * berval)) (new : list (berval * berval)) : Z + list (berval * berval) :=
  match new with
  | [] => inr l
  | x :: new =>
      match wanted_index (List.length l) x.1 with
      | None => inl (-1)
      | Some k => insert_wanted (if k <? 0 then l ++ [x] else insert_at l (Z.to_nat k) x) new
      end
  end.

Definition ordered_value_add (found : bool) (a : Attribute) (vals : list berval) (nvals : option (list berval))
  : option (Z * Attribute) :=
  '(_, a) ← (if found then ordered_value_sort a false else Some (0, a));
  if match nvals, a.(a_nvals) with Some _, NSame | None, NOwn _ => true | _, _ => false end then None else
  let old := a_vals_list a in
  onv ← (match a.(a_nvals) with
         | NOwn n => if decide (List.length n = List.length old) then Some n else None
         | NNull => match nvals, old with Some _, _ :: _ => None | _, _ => Some old end
         | NSame => Some old
         end);
  nnv ← (match nvals with
         | Some n => if decide (List.length n = List.length vals) then Some n else None
         | None => Some vals
         end);
  match insert_wanted (zip old onv) (zip vals nnv) with
  | inl rc => Some (rc, a)
  | inr l =>
      a ← ordered_value_renumber (mkAttr a.(a_desc) (Some l.*1) (match nvals with Some _ => NOwn l.*2 | None => NSame end) a.(a_sorted));
      Some (0, a)
  end.

(** ** Validating, printing and normalising a value without its index *)

(** The numeric index of a value, with its braces, and the rest. *)
Definition take_index (ad : AttributeDescription) (v : berval) : option berval * berval :=
  if ad.(ad_type).(sat_ordered) then
    match v with
    | x :: v' =>
        if Ascii.eqb x "{" then
          match split_at "}" v' with
          | Some (ns, rest) => if numericStringValidate ns =? LDAP_SUCCESS then (Some (x :: ns ++ ["}"%char]), rest) else (None, v)
          | None => (None, v)
          end
        else (None, v)
    | [] => (None, v)
    end
  else (None, v).

(** [ssyn_validate], [ssyn_pretty] and [smr_normalize] are those of the schema;
    [deleting] is that the modification is [LDAP_MOD_DELETE]. *)
Definition ordered_value_validate (ssyn_validate : berval -> Z) (ad : AttributeDescription) (v : berval) (deleting : bool) : Z :=
  match take_index ad v with
  | (Some _, []) => if deleting then LDAP_SUCCESS else ssyn_validate []
  | (_, v) => ssyn_validate v
  end.

Definition with_index (idx : option berval) (r : Z + berval) : Z + berval :=
  match r with inl rc => inl rc | inr out => inr (default [] idx ++ out) end.

Definition ordered_value_pretty (ssyn_pretty : berval -> Z + berval) (ad : AttributeDescription) (v : berval) : Z + berval :=
  let '(idx, v) := take_index ad v in with_index idx (ssyn_pretty v).

Definition ordered_value_normalize (smr_normalize : berval -> Z + berval) (ad : AttributeDescription) (v : berval) : Z + berval :=
  match take_index ad v with
  | (Some idx, []) => inr idx
  | (idx, v) => with_index idx (smr_normalize v)
  end.
