(* ===== verification/OrderedTheorems.v ===== *)
(** * Ordered values: their indexes stay the positions *)

From Stdlib Require Import Ascii String.
From S2P Require Import Prelude Text Digits Order Attr AttrTheorems Ordered.

Local Open Scope Z_scope.
Local Abbreviation length := List.length.

(** ** The text of an index *)

(** The digits of an index: no others, no leading zero. *)
Definition index_digits (i : Z) (ds : text) : Prop :=
  all_digits 10 ds = true /\ digits_value 10 0 ds = i /\
  exists c ds', ds = c :: ds' /\ (if Ascii.eqb c "0" then i = 0 /\ ds' = [] else True).

Lemma digits_of_index i : 0 <= i < 10 ^ 10 -> index_digits i (digits_of 10 10 i []).
Proof.
  intros Hi. destruct (decide (i = 0)) as [->|Hne]; [split; [done|]; split; [done|]; by exists "0"%char, []|].
  destruct (size_of_number i ltac:(lia)) as (k & Hk & Hlow & Hup).
  destruct (digits_of_spec 10 10 i [] k ltac:(lia) ltac:(lia) ltac:(lia)) as (ds & -> & H1 & H2 & H3).
  rewrite app_nil_r. split; [done|]. split; [done|]. destruct ds as [|c ds]; [cbn in H2; lia|]. exists c, ds. split; [done|].
  destruct (Ascii.eqb_spec c "0"); [|done]. exfalso. subst c.
  pose proof (zeros_value 10 1 ds ltac:(lia)) as Hz. cbn [replicate app] in Hz. rewrite Hz in H2.
  pose proof (digits_value_bound 10 ds ltac:(lia)) as Hb.
  assert (10 ^ Z.of_nat (length ds) <= 10 ^ (Z.of_nat k - 1)) by (apply Z.pow_le_mono_r; cbn in H3; lia). lia.
Qed.

Lemma strtol0_index i ds b : index_digits i ds -> i < 2 ^ 63 -> strtol0 (ds ++ "}"%char :: b) = (i, "}"%char :: b).
Proof.
  intros (Hd & Hv & c & ds' & -> & Hc) Hi. cbn [app].
  assert (is_Some (digit_in 10 c)) as Hten.
  { cbn [all_digits forallb] in Hd. apply andb_true_iff in Hd as [Hd _]. by apply bool_decide_eq_true in Hd. }
  pose proof (digit_not c (fun c => negb (isspace c || Ascii.eqb c "-" || Ascii.eqb c "+")) eq_refl Hten) as Hn.
  apply negb_true_iff, orb_false_iff in Hn as [[Hs Hm]%orb_false_iff Hp].
  unfold strtol0. cbn [skip_space]. rewrite Hs, Hm, Hp. cbn [orb].
  destruct (Ascii.eqb_spec c "0") as [->|Hne].
  - destruct Hc as [-> ->]. cbn [app]. assert (prefix_base ("0"%char :: "}"%char :: b) = 8) as -> by (by destruct b).
    pose proof (strtol_digits 8 "0" [] ("}"%char :: b) ltac:(auto) eq_refl eq_refl eq_refl) as E. cbn [app] in E. by rewrite E.
  - cbn [prefix_base]. rewrite (proj2 (Ascii.eqb_neq c "0") Hne).
    rewrite (strtol_digits 10 c ds' ("}"%char :: b)) by (try done; auto; by rewrite Hv). by rewrite Hv.
Qed.

Lemma split_at_digits ds b : all_digits 10 ds = true -> split_at "}" (ds ++ "}"%char :: b) = Some (ds, b).
Proof.
  induction ds as [|c ds IH]; [done|]. cbn [all_digits forallb app split_at]. intros [Hc Hd]%andb_true_iff.
  apply bool_decide_eq_true in Hc. pose proof (digit_not c (fun c => negb (Ascii.eqb c "}")) eq_refl Hc) as Hn.
  apply negb_true_iff in Hn. rewrite Hn, IH by done. done.
Qed.

(** What the functions read of a value with an index in front. *)
Lemma index_text_reads i b :
  Z.of_nat i < 2 ^ 31 ->
  strip_index (index_text i ++ b) = Some b /\ read_index (index_text i ++ b) = Some (Z.of_nat i) /\
  is_Some (split_at "}" (index_text i ++ b)) /\
  forall anum, wanted_index anum (index_text i ++ b) = Some (if Z.of_nat i >? Z.of_nat anum then -1 else Z.of_nat i).
Proof.
  intros Hi. pose proof (digits_of_index (Z.of_nat i) ltac:(lia)) as Hd. unfold index_text. cbn [app].
  rewrite <- app_assoc. cbn [app]. revert Hd. generalize (digits_of 10 10 (Z.of_nat i) []). intros ds Hd.
  pose proof Hd as (Hall & _). pose proof (strtol0_index (Z.of_nat i) ds b Hd ltac:(lia)) as Hs.
  assert (swrap 32 (Z.of_nat i) = Z.of_nat i) as Hw by (unfold swrap; rewrite Z.mod_small; lia).
  split_and!.
  - cbn [strip_index]. change (Ascii.eqb "{" "{") with true. cbn iota. by rewrite split_at_digits.
  - unfold read_index. cbn [tail]. rewrite Hs. change (Ascii.eqb "}" "}") with true. cbn iota. by rewrite Hw.
  - cbn [split_at]. change (Ascii.eqb "{" "}") with false. cbn iota. rewrite split_at_digits by done. by eexists.
  - intros anum. unfold wanted_index. change (Ascii.eqb "{" "{") with true. cbn iota. rewrite Hs.
    change (Ascii.eqb "}" "}") with true. cbn [negb]. rewrite orb_false_r.
    assert (Nat.eqb (length ("}"%char :: b)) (length (ds ++ "}"%char :: b)) = false) as ->.
    { apply Nat.eqb_neq. rewrite length_app. destruct Hd as (_ & _ & c & ds' & -> & _). cbn. lia. }
    by rewrite Hw.
Qed.

(** ** Values with their positions in front *)

Definition numbered (bodies : list berval) : list berval := imap (fun i b => index_text i ++ b) bodies.

Lemma renumber_spec l bodies : forall i,
  Forall2 (fun v b => strip_index v = Some b) l bodies ->
  renumber i l = Some (imap (fun j b => index_text (i + j) ++ b) bodies).
Proof.
  revert bodies. induction l as [|v l IH]; intros bodies i H; inversion H as [|? b ? bs Hb Hl]; subst; [done|].
  cbn [renumber]. rewrite Hb. cbn [mbind option_bind]. rewrite (IH bs (S i) Hl). cbn [mbind option_bind].
  rewrite imap_cons, Nat.add_0_r. do 2 f_equal. apply imap_ext. intros j x _. cbn. by rewrite Nat.add_succ_r.
Qed.

Lemma numbered_lookup bodies i v :
  numbered bodies !! i = Some v -> exists b, bodies !! i = Some b /\ v = index_text i ++ b.
Proof. unfold numbered. rewrite list_lookup_imap. destruct (bodies !! i) as [b|]; [|done]. intros [= <-]. by exists b. Qed.

Lemma length_numbered bodies : length (numbered bodies) = length bodies.
Proof. apply length_imap. Qed.

Lemma numbered_strips bodies :
  Z.of_nat (length bodies) <= 2 ^ 31 -> Forall2 (fun v b => strip_index v = Some b) (numbered bodies) bodies.
Proof.
  intros Hl. apply Forall2_same_length_lookup. split; [apply length_numbered|].
  intros i v b Hv Hb. apply numbered_lookup in Hv as (b' & Hb' & ->). assert (b' = b) as -> by congruence.
  apply lookup_lt_Some in Hb. by apply index_text_reads; lia.
Qed.

Lemma index_kind_all l : Forall (fun v => exists x v', v = x :: v' /\ Ascii.eqb x "{" = true /\ is_Some (split_at "}" v)) l ->
  forall index, index_kind l index false = Some (index || negb (bool_decide (l = []))).
Proof.
  induction 1 as [|v l (x & v' & -> & Hx & [p Hp]) Hl IH]; intros index; [by destruct index|].
  cbn [index_kind]. rewrite Hx, Hp, IH. by rewrite orb_true_r.
Qed.

(** ** Sorting by index *)

Definition index_le {A} (x y : Z * A) : Prop := x.1 <= y.1.

Lemma insert_index_spec {A} (x : Z * A) l :
  StronglySorted (flip index_le) l ->
  StronglySorted (flip index_le) (insert_index x l) /\ insert_index x l ≡ₚ x :: l /\
  (forall k, List.filter (fun y => y.1 =? k) (insert_index x l) = List.filter (fun y => y.1 =? k) (x :: l)) /\
  ((forall y, y ∈ l -> y.1 <= x.1) -> insert_index x l = x :: l).
Proof.
  induction l as [|y l IH]; intros Hs; [split_and!; [by repeat constructor|done..]|].
  apply StronglySorted_inv in Hs as [Hs Hy]. cbn [insert_index]. destruct (y.1 >? x.1) eqn:E; zb.
  - destruct (IH Hs) as (H1 & H2 & H3 & H4). split_and!.
    + constructor; [done|]. rewrite H2. constructor; [unfold flip, index_le; lia|done].
    + rewrite H2. constructor.
    + intros k. specialize (H3 k). cbn [List.filter] in *. rewrite H3. destruct (y.1 =? k) eqn:Ey, (x.1 =? k) eqn:Ex; zb; try done. lia.
    + intros Hle. specialize (Hle y ltac:(left)). lia.
  - split_and!; [|done..]. constructor; [by constructor|]. constructor; [unfold flip, index_le; lia|].
    eapply list.Forall_impl; [exact Hy|]. unfold flip, index_le. intros z Hz. lia.
Qed.

Lemma sorted_snoc {A} (R : A -> A -> Prop) l x : StronglySorted R l -> Forall (fun y => R y x) l -> StronglySorted R (l ++ [x]).
Proof.
  induction 1 as [|y l Hl IH Hy]; intros Hx; [by repeat constructor|]. apply list.Forall_cons in Hx as [Hyx Hx].
  cbn [app]. constructor; [by apply IH|]. apply list.Forall_app. split; [done|by constructor].
Qed.

Lemma sorted_rev {A} (R : A -> A -> Prop) l : StronglySorted (flip R) l -> StronglySorted R (rev l).
Proof.
  induction 1 as [|x l Hl IH Hx]; [constructor|]. cbn [rev]. apply sorted_snoc; [done|].
  apply list.Forall_forall. intros y Hy. apply list_elem_of_In, in_rev, list_elem_of_In in Hy.
  rewrite list.Forall_forall in Hx. by apply (Hx y).
Qed.

(** The insertion sort is stable, and leaves a list that is in order as it is. *)
Lemma index_sort_spec {A} (l : list (Z * A)) :
  StronglySorted index_le (index_sort l) /\ index_sort l ≡ₚ l /\
  (forall k, List.filter (fun x => x.1 =? k) (index_sort l) = List.filter (fun x => x.1 =? k) l) /\
  (StronglySorted index_le l -> index_sort l = l).
Proof.
  unfold index_sort. assert (exists acc, fold_left (fun acc x => insert_index x acc) l [] = acc /\
    StronglySorted (flip index_le) acc /\ acc ≡ₚ l /\
    (forall k, List.filter (fun x => x.1 =? k) acc = rev (List.filter (fun x => x.1 =? k) l)) /\
    (StronglySorted index_le l -> acc = rev l)) as (acc & -> & H1 & H2 & H3 & H4).
  { induction l as [|x l IH] using rev_ind; [exists []; split_and!; (done || constructor)|].
    destruct IH as (acc & Hacc & H1 & H2 & H3 & H4). rewrite fold_left_app, Hacc. cbn [fold_left].
    destruct (insert_index_spec x acc H1) as (G1 & G2 & G3 & G4). eexists. split; [done|]. split_and!; [done| | |].
    - rewrite G2, H2. apply Permutation_cons_append.
    - intros k. rewrite G3, filter_app, rev_app_distr. cbn [List.filter]. rewrite H3. by destruct (x.1 =? k).
    - intros Hs. rewrite rev_app_distr. cbn [rev app].
      assert (StronglySorted index_le l /\ forall y, y ∈ l -> y.1 <= x.1) as [Hl Hx].
      { clear -Hs. induction l as [|z l IH]; [split; [constructor|by intros y ?%not_elem_of_nil]|].
        cbn [app] in Hs. apply StronglySorted_inv in Hs as [Hs Hz]. destruct (IH Hs) as [Hl Hx]. apply list.Forall_app in Hz as [Hz Hzx].
        split; [by constructor|]. intros y [->|Hy]%elem_of_cons; [by inversion Hzx|by apply Hx]. }
      rewrite G4; [by rewrite (H4 Hl)|]. intros y Hy. apply Hx. by rewrite <- H2. }
  split_and!.
  - by apply sorted_rev.
  - rewrite <- H2. symmetry. apply Permutation_rev.
  - intros k. rewrite filter_rev, H3. apply rev_involutive.
  - intros Hs. rewrite (H4 Hs). apply rev_involutive.
Qed.

(** ** Sorting the values of an attribute *)

(** Values with the indexes [idx]. *)
Definition indexed (vals : list berval) (idx : list nat) : Prop :=
  Forall2 (fun v i => Z.of_nat i < 2 ^ 31 /\ exists b, v = index_text i ++ b) vals idx.

Lemma indexed_kind vals idx : indexed vals idx -> vals <> [] -> index_kind vals false false = Some true.
Proof.
  intros H Hne. rewrite index_kind_all.
  - by rewrite bool_decide_eq_false_2.
  - clear Hne. induction H as [|v i vals idx (Hi & b & ->) H IH]; constructor; [|done].
    destruct (index_text_reads i b Hi) as (_ & _ & Hs & _). unfold index_text in *. cbn [app] in *. by do 2 eexists.
Qed.

Lemma indexed_read vals idx : indexed vals idx -> mapM read_index vals = Some (Z.of_nat <$> idx).
Proof.
  induction 1 as [|v i vals idx (Hi & b & ->) H IH]; [done|]. destruct (index_text_reads i b Hi) as (_ & Hr & _).
  revert Hr. generalize (index_text i ++ b). intros v Hr. cbn. rewrite Hr. cbn. by rewrite IH.
Qed.

Lemma indexed_length vals idx : indexed vals idx -> length idx = length vals.
Proof. intros H. symmetry. by apply Forall2_length in H. Qed.

(** The values and their normalised forms by the order of the indexes. *)
Definition by_index (idx : list nat) (pairs : list (berval * berval)) : list (Z * (berval * berval)) :=
  index_sort (zip (Z.of_nat <$> idx) pairs).

(** The two components are the same where the arrays are. *)
Lemma pairs_same a : a.(a_nvals) = NSame -> Forall (fun x => x.1 = x.2) (a_pairs a).
Proof. intros E. unfold a_pairs, a_nvals_list. rewrite E. induction (a_vals_list a); by constructor. Qed.

Lemma zip_fst_fst (l : list (berval * berval)) : Forall (fun x => x.1 = x.2) l -> zip l.*1 l.*1 = l.
Proof. induction 1 as [|[x y] l E Hl IH]; [done|]. cbn in *. by rewrite IH, E. Qed.

(** The pairs of an attribute whose arrays have been rebuilt. *)
Lemma rebuilt_pairs a (l : list (berval * berval)) :
  a.(a_nvals) <> NNull -> (a.(a_nvals) = NSame -> Forall (fun x => x.1 = x.2) l) ->
  a_pairs (mkAttr a.(a_desc) (Some l.*1) (match a.(a_nvals) with NOwn _ => NOwn l.*2 | x => x end) a.(a_sorted)) = l.
Proof.
  intros Hnn Hs. unfold a_pairs, a_vals_list, a_nvals_list. cbn [a_vals a_nvals from_option id].
  destruct (a_nvals a); [done|by apply zip_fst_fst, Hs|apply zip_fst_snd].
Qed.

(** Sorting values that all have an index puts them, with their normalised
    forms, in the order of their indexes; values with the same index keep their
    order. *)
Theorem ordered_value_sort_correct a idx :
  indexed (a_vals_list a) idx -> is_Some a.(a_vals) -> a_vals_list a <> [] -> a.(a_nvals) <> NNull ->
  length (a_nvals_list a) = length (a_vals_list a) ->
  exists b, ordered_value_sort a false = Some (0, b) /\
    b.(a_desc) = a.(a_desc) /\ (b.(a_nvals) = NSame <-> a.(a_nvals) = NSame) /\
    a_pairs b = (by_index idx (a_pairs a)).*2 /\ by_index idx (a_pairs a) ≡ₚ zip (Z.of_nat <$> idx) (a_pairs a) /\
    StronglySorted index_le (by_index idx (a_pairs a)) /\
    (forall k, List.filter (fun x => x.1 =? k) (by_index idx (a_pairs a)) =
               List.filter (fun x => x.1 =? k) (zip (Z.of_nat <$> idx) (a_pairs a))).
Proof.
  intros Hidx [vals Hv] Hne Hnn Hlen. unfold by_index.
  destruct (index_sort_spec (zip (Z.of_nat <$> idx) (a_pairs a))) as (H1 & H2 & H3 & _).
  assert (exists nv, (match a.(a_nvals) with
      | NOwn n => if decide (length n = length (a_vals_list a)) then Some n else None | _ => Some (a_vals_list a) end) = Some nv /\
    zip (a_vals_list a) nv = a_pairs a) as (nv & Hnv & Hz).
  { unfold a_pairs, a_nvals_list in *. destruct (a_nvals a); [done|by eexists|]. rewrite decide_True by done. by eexists. }
  unfold ordered_value_sort. cbv zeta. rewrite (indexed_kind _ idx), (indexed_read _ idx), Hnv by done. cbn [mbind option_bind andb].
  rewrite Hz. eexists. split; [done|]. split; [done|]. split; [by cbn; destruct (a_nvals a)|]. split; [|done].
  apply rebuilt_pairs; [done|]. intros E. apply pairs_same in E. rewrite list.Forall_forall in *. intros x Hx. apply E.
  rewrite H2 in Hx. apply list_elem_of_fmap in Hx as ([z y] & -> & Hy).
  apply list_elem_of_lookup in Hy as [j Hj]. apply lookup_zip_Some in Hj as [_ Hj]. by apply list_elem_of_lookup_2 in Hj.
Qed.

(** ** Adding ordered values *)

(** The values of an attribute: the bodies, with their normalised forms, each
    with its position in front. *)
Definition ordered_attr (l : list (berval * berval)) (a : Attribute) : Prop :=
  a.(a_vals) = Some (numbered l.*1) /\
  match a.(a_nvals) with NSame => Forall (fun x => x.1 = x.2) l | NOwn n => n = numbered l.*2 | NNull => False end.

(** A new value: the position it asks for, and its body. *)
Definition new_text (k : option nat) (b : berval) : berval := match k with Some k => index_text k ++ b | None => b end.

Definition new_ok (x : option nat * (berval * berval)) : Prop :=
  match x.1 with
  | Some k => Z.of_nat k < 2 ^ 31
  | None => strip_index x.2.1 = Some x.2.1 /\ strip_index x.2.2 = Some x.2.2
  end.

(** Each new value goes to the position it asks for, or to the end. *)
Fixpoint placed (l : list (berval * berval)) (new : list (option nat * (berval * berval))) : list (berval * berval) :=
  match new with
  | [] => l
  | (k, x) :: new => placed (insert_at l (match k with Some k => Nat.min k (length l) | None => length l end) x) new
  end.

Definition strips (t b : berval * berval) : Prop := strip_index t.1 = Some b.1 /\ strip_index t.2 = Some b.2.

Lemma insert_at_end {A} (l : list A) x : insert_at l (length l) x = l ++ [x].
Proof. unfold insert_at. by rewrite take_ge, drop_ge. Qed.

Lemma strips_insert l m k x y : Forall2 strips l m -> strips x y -> Forall2 strips (insert_at l k x) (insert_at m k y).
Proof. intros H Hx. unfold insert_at. apply Forall2_app; [by apply Forall2_take|]. constructor; [done|by apply Forall2_drop]. Qed.

Lemma plain_wanted anum v : strip_index v = Some v -> wanted_index anum v = Some (-1).
Proof.
  destruct v as [|x v]; [done|]. unfold wanted_index, strip_index. destruct (Ascii.eqb x "{") eqn:E; [|done].
  destruct (split_at "}" v) as [[u w]|] eqn:Es; [|done]. cbn. intros [= ->]. exfalso.
  assert (forall c s u w, split_at c s = Some (u, w) -> (length w < length s)%nat) as H.
  { clear. intros c s. induction s as [|y s IH]; intros u w; [done|]. cbn [split_at]. destruct (Ascii.eqb y c).
    - intros [= <- <-]. cbn. lia.
    - destruct (split_at c s) as [[u' w']|] eqn:E; [|done]. cbn. intros [= <- <-]. specialize (IH _ _ eq_refl). lia. }
  apply H in Es. cbn in Es. lia.
Qed.

Lemma insert_wanted_spec new : forall l m,
  Forall2 strips l m -> Forall new_ok new ->
  exists l', insert_wanted l ((fun x => (new_text x.1 x.2.1, new_text x.1 x.2.2)) <$> new) = inr l' /\ Forall2 strips l' (placed m new).
Proof.
  induction new as [|[k [b n]] new IH]; intros l m Hl Hok; [by exists l|].
  apply list.Forall_cons in Hok as [Hx Hok]. cbn [fmap list_fmap insert_wanted placed fst snd new_text]. pose proof (list.Forall2_length _ _ _ Hl) as Hlen.
  destruct k as [k|]; cbn [new_ok fst snd] in Hx.
  - destruct (index_text_reads k b Hx) as (Hb & _ & _ & ->). destruct (index_text_reads k n Hx) as (Hn & _).
    cbn beta iota. cbn [new_text]. assert ((if (if Z.of_nat k >? Z.of_nat (length l) then -1 else Z.of_nat k) <? 0
       then l ++ [(index_text k ++ b, index_text k ++ n)]
       else insert_at l (Z.to_nat (if Z.of_nat k >? Z.of_nat (length l) then -1 else Z.of_nat k)) (index_text k ++ b, index_text k ++ n))
      = insert_at l (Nat.min k (length m)) (index_text k ++ b, index_text k ++ n)) as ->.
    { rewrite <- Hlen. destruct (Z.of_nat k >? Z.of_nat (length l)) eqn:E; zb.
      - rewrite Nat.min_r by lia. by rewrite insert_at_end.
      - rewrite (proj2 (Z.ltb_ge _ _)) by lia. rewrite Nat.min_l by lia. by rewrite Nat2Z.id. }
    apply IH; [|done]. by apply strips_insert.
  - destruct Hx as [Hb Hn]. rewrite plain_wanted by done. cbn [Z.ltb Z.compare]. rewrite <- insert_at_end, Hlen.
    apply IH; [|done]. by apply strips_insert.
Qed.

Lemma length_placed new : forall l, length (placed l new) = (length l + length new)%nat.
Proof. induction new as [|[k x] new IH]; intros l; cbn [placed length]; [lia|]. rewrite IH, length_insert_at. lia. Qed.

Lemma numbered_indexed bodies : Z.of_nat (length bodies) <= 2 ^ 31 -> indexed (numbered bodies) (seq 0 (length bodies)).
Proof.
  intros Hl. apply Forall2_same_length_lookup. split; [by rewrite length_numbered, length_seq|].
  intros i v j Hv Hj. apply lookup_seq in Hj as [-> Hj]. apply numbered_lookup in Hv as (b & Hb & ->).
  split; [lia|]. by exists b.
Qed.

Lemma seq_sorted {A} (l : list A) : forall i, StronglySorted index_le (zip (Z.of_nat <$> seq i (length l)) l).
Proof.
  induction l as [|x l IH]; intros i; [constructor|]. cbn [length seq fmap list_fmap zip_with]. constructor; [apply IH|].
  apply list.Forall_forall. intros [z y] [j Hj]%list_elem_of_lookup. apply lookup_zip_Some in Hj as [Hj _].
  apply list_lookup_fmap_Some in Hj as (k & -> & Hk). apply lookup_seq in Hk as [-> _]. unfold index_le. cbn. lia.
Qed.

Lemma ordered_length l a : ordered_attr l a -> length (a_nvals_list a) = length (a_vals_list a).
Proof.
  intros [Hv Hn]. unfold a_nvals_list, a_vals_list. rewrite Hv. destruct (a_nvals a); [done|done|].
  subst. cbn. by rewrite !length_numbered, !length_fmap.
Qed.

Lemma last_seq_index {A} (l : list A) n : length l = S n -> List.last (zip (Z.of_nat <$> seq 0 (S n)) l).*1 0 = Z.of_nat n.
Proof.
  intros Hl. rewrite fst_zip by (rewrite length_fmap, length_seq; lia). rewrite seq_S, fmap_app. apply List.last_last.
Qed.

(** Values that have their positions in front are in order. *)
Lemma ordered_sorts l a renum :
  ordered_attr l a -> Z.of_nat (length l) <= 2 ^ 31 -> ordered_value_sort a renum = Some (0, a).
Proof.
  intros Hord Hl. pose proof (ordered_length l a Hord) as Hlen. destruct Hord as [Hv Hn].
  destruct a as [ad vals nv srt]. cbn [a_vals a_nvals] in *. subst vals.
  destruct (decide (l = [])) as [->|Hne].
  { destruct nv; cbn in Hn; [done|by destruct renum|subst; by destruct renum]. }
  assert (exists n, length l = S n) as [n Hsn] by (destruct l; [done|by eexists]).
  pose proof (numbered_indexed l.*1 ltac:(by rewrite length_fmap)) as Hidx. rewrite length_fmap, Hsn in Hidx.
  assert (length (numbered l.*1) = S n) as Hlv by (by rewrite length_numbered, length_fmap).
  assert (exists m, (match nv with NOwn n => if decide (length n = length (numbered l.*1)) then Some n else None
     | _ => Some (numbered l.*1) end) = Some m /\ length m = S n /\ match nv with NOwn n => n = m | _ => True end) as (m & Hm & Hlm & Heq).
  { destruct nv; [done|by eexists|]. unfold a_nvals_list, a_vals_list in Hlen. cbn in Hlen.
    rewrite decide_True by done. eexists. split; [done|]. split; [congruence|done]. }
  unfold ordered_value_sort. cbv zeta. change (a_vals_list _) with (numbered l.*1). cbn [a_nvals a_sorted a_desc].
  rewrite (indexed_kind _ _ Hidx), (indexed_read _ _ Hidx), Hm by (intros E; by rewrite E in Hlv). cbn [mbind option_bind].
  assert (length (zip (numbered l.*1) m) = S n) as Hlz by (rewrite length_zip_with; lia).
  assert (index_sort (zip (Z.of_nat <$> seq 0 (S n)) (zip (numbered l.*1) m)) = zip (Z.of_nat <$> seq 0 (S n)) (zip (numbered l.*1) m)) as ->.
  { apply index_sort_spec. rewrite <- Hlz. apply seq_sorted. }
  rewrite last_seq_index by done. rewrite snd_zip by (rewrite length_fmap, length_seq; lia).
  rewrite (fst_zip (numbered l.*1) m), (snd_zip (numbered l.*1) m) by lia. rewrite Hlv.
  assert (default 0 (head (zip (Z.of_nat <$> seq 0 (S n)) (zip (numbered l.*1) m)).*1) = 0) as ->.
  { rewrite fst_zip by (rewrite length_fmap, length_seq; lia). done. }
  replace (Z.of_nat n =? Z.of_nat (S n) - 1) with true by (symmetry; apply Z.eqb_eq; lia).
  cbn [Z.eqb negb orb]. rewrite andb_false_r. destruct nv; [done|done|by subst].
Qed.

(** What an attribute must be for the insertion: it has values with their
    positions, or it is new. *)
Definition ready (found : bool) (l : list (berval * berval)) (a : Attribute) : Prop :=
  if found then ordered_attr l a else l = [] /\ exists ad, a = attr_alloc ad.

(** The new values, with normalised forms exactly if the attribute has some. *)
Definition new_fit (found : bool) (a : Attribute) (new : list (option nat * (berval * berval))) (nvals : option (list berval)) : Prop :=
  match nvals with
  | Some n => n = (fun x => new_text x.1 x.2.2) <$> new /\ (found = true -> a.(a_nvals) <> NSame)
  | None => Forall (fun x => x.2.1 = x.2.2) new /\ (found = true -> a.(a_nvals) = NSame)
  end.

Lemma renumber_numbered (l m : list (berval * berval)) :
  Forall2 strips l m -> renumber 0 l.*1 = Some (numbered m.*1) /\ renumber 0 l.*2 = Some (numbered m.*2).
Proof.
  intros H. split; [rewrite (renumber_spec _ m.*1)|rewrite (renumber_spec _ m.*2)]; try done;
    apply Forall2_fmap; (eapply list.Forall2_impl; [exact H|]); by intros ? ? [].
Qed.

Lemma numbered_pair_strips (l : list (berval * berval)) :
  Z.of_nat (length l) <= 2 ^ 31 -> Forall2 strips (zip (numbered l.*1) (numbered l.*2)) l.
Proof.
  intros Hl. pose proof (numbered_strips l.*1 ltac:(by rewrite length_fmap)) as H1.
  pose proof (numbered_strips l.*2 ltac:(by rewrite length_fmap)) as H2.
  apply Forall2_same_length_lookup. split; [rewrite length_zip_with, !length_numbered, !length_fmap; lia|].
  intros i [u v] [b n] Huv Hb. apply lookup_zip_Some in Huv as [Hu Hv].
  split; [apply (Forall2_lookup_lr _ _ _ i _ _ H1)|apply (Forall2_lookup_lr _ _ _ i _ _ H2)]; try done; cbn;
    by rewrite list_lookup_fmap, Hb.
Qed.

Lemma placed_same new : forall l,
  Forall (fun x => x.2.1 = x.2.2) new -> Forall (fun x : berval * berval => x.1 = x.2) l -> Forall (fun x => x.1 = x.2) (placed l new).
Proof.
  induction new as [|[k x] new IH]; intros l Hn Hl; [done|]. apply list.Forall_cons in Hn as [Hx Hn]. cbn [placed].
  apply IH; [done|]. unfold insert_at. apply list.Forall_app. split; [by apply Forall_take|].
  constructor; [done|by apply Forall_drop].
Qed.

(** What the insertion starts from. *)
Lemma ready_pairs found l a new nvals :
  ready found l a -> new_fit found a new nvals -> Z.of_nat (length l) <= 2 ^ 31 ->
  exists L, Forall2 strips L l /\
    (if found then ordered_value_sort a false else Some (0, a)) = Some (0, a) /\
    L.*1 = a_vals_list a /\
    (nvals = None -> Forall (fun x => x.1 = x.2) l) /\
    match nvals, a.(a_nvals) with Some _, NSame | None, NOwn _ => true | _, _ => false end = false /\
    (match a.(a_nvals) with
     | NOwn n => if decide (length n = length (a_vals_list a)) then Some n else None
     | NNull => match nvals, a_vals_list a with Some _, _ :: _ => None | _, _ => Some (a_vals_list a) end
     | NSame => Some (a_vals_list a) end) = Some L.*2.
Proof.
  intros Hready Hfit Hl.
  destruct found; cbn [ready] in Hready.
  - exists (zip (numbered l.*1) (numbered l.*2)). pose proof (ordered_sorts l a false Hready ltac:(lia)) as Hs.
    pose proof (ordered_length l a Hready) as Hlen. destruct Hready as [Hv Hn].
    assert (a_vals_list a = numbered l.*1) as Hvl by (unfold a_vals_list; by rewrite Hv).
    assert (length (numbered l.*1) = length (numbered l.*2)) as Hll by (by rewrite !length_numbered, !length_fmap).
    rewrite fst_zip, snd_zip, Hvl by lia. split_and!; [apply numbered_pair_strips; lia|done|done| | |].
    + intros ->. destruct Hfit as [_ Hk]. by rewrite (Hk eq_refl) in Hn.
    + destruct nvals; cbn [new_fit] in Hfit; destruct Hfit as [_ Hk]; specialize (Hk eq_refl); by destruct (a_nvals a).
    + destruct (a_nvals a); [done| |by subst; rewrite decide_True by done]. do 2 f_equal.
      clear -Hn. induction Hn as [|x l Hx Hl IH]; [done|]. cbn. congruence.
  - destruct Hready as [-> [ad ->]]. exists []. split_and!; try done. by destruct nvals. by destruct nvals.
Qed.

(** C37: adding values to an attribute with ordered values. Each new value goes to
    the position that its index asks for, or to the end when it has no index or
    one beyond the end; afterwards every value has its position in front, and so
    has its normalised form. *)
Theorem ordered_value_add_correct found l a new nvals :
  ready found l a -> Forall new_ok new -> new_fit found a new nvals ->
  Z.of_nat (length l) + Z.of_nat (length new) <= 2 ^ 31 ->
  exists b, ordered_value_add found a ((fun x => new_text x.1 x.2.1) <$> new) nvals = Some (0, b) /\
    b.(a_desc) = a.(a_desc) /\ b.(a_sorted) = a.(a_sorted) /\ ordered_attr (placed l new) b.
Proof.
  intros Hready Hnew Hfit Hroom.
  destruct (ready_pairs found l a new nvals) as (L & HL & Hsort & HL1 & Hsame & Hkind & HL2); [done|done|lia|].
  assert (exists nn, (match nvals with Some n => if decide (length n = length ((fun x => new_text x.1 x.2.1) <$> new)) then Some n else None
      | None => Some ((fun x => new_text x.1 x.2.1) <$> new) end) = Some nn /\ nn = (fun x => new_text x.1 x.2.2) <$> new) as (nn & Hnn & ->).
  { destruct nvals as [n|]; cbn [new_fit] in Hfit; destruct Hfit as [Hf _].
    - subst n. rewrite decide_True by (by rewrite !length_fmap). by eexists.
    - eexists. split; [done|]. clear -Hf. induction Hf as [|x new Hx Hn IH]; [done|]. cbn. rewrite IH. by rewrite Hx. }
  destruct (insert_wanted_spec new L l HL Hnew) as (L' & Hins & HL').
  destruct (renumber_numbered _ _ HL') as [HR1 HR2].
  assert (zip ((fun x => new_text x.1 x.2.1) <$> new) ((fun x => new_text x.1 x.2.2) <$> new)
    = (fun x => (new_text x.1 x.2.1, new_text x.1 x.2.2)) <$> new) as Hz.
  { clear. induction new as [|x new IH]; [done|]. cbn. by rewrite IH. }
  unfold ordered_value_add. rewrite Hsort. cbn [mbind option_bind]. rewrite Hkind, HL2. cbn [mbind option_bind]. rewrite Hnn.
  cbn [mbind option_bind]. rewrite Hz, <- HL1, zip_fst_snd, Hins. unfold ordered_value_renumber, a_vals_list.
  cbn [a_vals a_nvals a_desc a_sorted from_option id]. rewrite HR1. cbn [mbind option_bind].
  destruct nvals as [n|]; [rewrite HR2|]; cbn [mbind option_bind]; (eexists; split; [done|]); (split; [done|]); (split; [done|]); (split; [done|]).
  - done.
  - cbn. apply placed_same; [apply Hfit|by apply Hsame].
Qed.

(** An ordered attribute without a normaliser, of these bodies. *)
Definition steps_at : AttributeType := mkAT (Some bytes_mr) None None None true true false None None.
Definition steps_attr (l : list String.string) : Attribute := mkAttr (mkAD 3 steps_at) (Some (numbered (kw <$> l))) NSame false.
Definition steps (l : list (option nat * String.string)) : list (option nat * (berval * berval)) :=
  (fun x => (x.1, (kw x.2, kw x.2))) <$> l.

Lemma ordered_value_add_correct_witness :
  let new := steps [(Some 1%nat, "x"); (None, "y"); (Some 0%nat, "z")]%string in
  let a := steps_attr ["a"; "b"; "c"]%string in
  ordered_value_add true a (kw <$> ["{1}x"; "y"; "{0}z"]%string) None = Some (0, steps_attr ["z"; "a"; "x"; "b"; "c"; "y"]%string) /\
  exists b, ordered_value_add true a ((fun x => new_text x.1 x.2.1) <$> new) None = Some (0, b).
Proof.
  intros new a. split; [vm_compute; reflexivity|].
  destruct (ordered_value_add_correct true ((fun s => (kw s, kw s)) <$> ["a"; "b"; "c"]%string) a new None) as (b & Hb & _).
  - split; [reflexivity|repeat constructor].
  - repeat constructor; vm_compute; reflexivity.
  - split; [repeat constructor|done].
  - done.
  - by exists b.
Defined.

(** ** The functions of the syntax do not see the index *)

Lemma take_index_text ad i b :
  ad.(ad_type).(sat_ordered) = true -> Z.of_nat i < 10 ^ 10 -> take_index ad (index_text i ++ b) = (Some (index_text i), b).
Proof.
  intros Ho Hi. pose proof (digits_of_index (Z.of_nat i) ltac:(lia)) as Hd. unfold take_index, index_text. rewrite Ho. cbn [app].
  change (Ascii.eqb "{" "{") with true. cbn iota. rewrite <- app_assoc. cbn [app].
  revert Hd. generalize (digits_of 10 10 (Z.of_nat i) []). intros ds (Hall & _ & c & ds' & -> & _).
  rewrite split_at_digits by done. assert (numericStringValidate (c :: ds') = LDAP_SUCCESS) as ->; [|done].
  unfold numericStringValidate. assert (forallb SLAP_NUMERIC (c :: ds') = true) as ->; [|done].
  apply forallb_forall. intros x Hx. unfold all_digits in Hall. rewrite forallb_forall in Hall.
  apply (digit_not x SLAP_NUMERIC); [by vm_compute|]. specialize (Hall x Hx). by apply bool_decide_eq_true in Hall.
Qed.

(** Validating, printing and normalising a value with an index in front is that of
    the value without it, with the index in front of the result; to delete, the
    index alone is enough. *)
Theorem ordered_value_transparent validate pretty normalize ad i b del :
  ad.(ad_type).(sat_ordered) = true -> Z.of_nat i < 10 ^ 10 ->
  ordered_value_validate validate ad (index_text i ++ b) del =
    (if del && bool_decide (b = []) then LDAP_SUCCESS else validate b) /\
  ordered_value_pretty pretty ad (index_text i ++ b) =
    match pretty b with inl rc => inl rc | inr out => inr (index_text i ++ out) end /\
  (b <> [] -> ordered_value_normalize normalize ad (index_text i ++ b) =
    match normalize b with inl rc => inl rc | inr out => inr (index_text i ++ out) end).
Proof.
  intros Ho Hi. unfold ordered_value_validate, ordered_value_pretty, ordered_value_normalize.
  rewrite take_index_text by done. split_and!; [|done|by destruct b]. destruct b; [by destruct del|].
  rewrite bool_decide_eq_false_2 by done. by rewrite andb_false_r.
Qed.

(** Ordered values whose indexes start with 0 and end with the last position are
    not renumbered, even when they are not contiguous. *)
Theorem ordered_value_sort_gap :
  let a := mkAttr (mkAD 1 bytes_at) (Some (kw <$> ["{2}c"; "{0}a"; "{0}b"]%string)) NSame false in
  prod_map id a_vals_list <$> ordered_value_sort a true = Some (0, kw <$> ["{0}a"; "{0}b"; "{2}c"]%string).
Proof. by vm_compute. Qed.
