(* ===== verification/Mods.v ===== *)
(** * Modifications of an entry (servers/slapd/mods.c)

    A modification names an attribute and holds values, with their normalised
    forms if the equality rule has a normaliser. The entry is the list of its
    attributes. [None] is a failed assertion or undefined behaviour. *)

From Stdlib Require Import Ascii String.
From S2P Require Import Prelude Text Attr Ordered.

Local Open Scope Z_scope.

(** ** Modifications *)

Record Modification := mkMod {
  sm_desc : AttributeDescription;
  sm_values : option (list berval);
  sm_nvalues : option (list berval) }.

Definition mod_values (m : Modification) : list berval := default [] m.(sm_values).
Definition mod_keys (m : Modification) : list berval := default (mod_values m) m.(sm_nvalues).

(** *** Numbers *)

Definition LDAP_CONSTRAINT_VIOLATION : Z := 0x13.
Definition SLAPD_INTEGER_SYNTAX : text := kw "1.3.6.1.4.1.1466.115.121.1.27".

(** The syntax of a type or of the nearest supertype that has one. *)
Fixpoint at_syntax (ty : AttributeType) : option text :=
  match ty with
  | mkAT _ _ _ _ _ _ _ oid sup =>
      match oid with
      | Some o => Some o
      | None => match sup with Some s => at_syntax s | None => None end
      end
  end.

(** [lutil_atol] (liblutil/utils.c); [None] is the error. *)
Definition lutil_atol (s : text) : option Z :=
  if match s with c :: _ => isspace c | [] => false end then None else
  '(v, rest) ← strtol_exact s 10;
  if match rest with c :: _ => negb (Ascii.eqb c "000") | [] => false end then None
  else if swrap 64 v =? v then Some v else None.

(** The values from one on with [incr] added: the first one that is no number
    stops it. A sum that is no [long] is undefined. *)
Fixpoint increment_all (incr : Z) (l : list berval) : option (Z * list berval) :=
  match l with
  | [] => Some (LDAP_SUCCESS, [])
  | v :: l' =>
      match lutil_atol v with
      | None => Some (LDAP_INVALID_SYNTAX, l)
      | Some value =>
          if swrap 64 (value + incr) =? value + incr then
            '(rc, l') ← increment_all incr l'; Some (rc, fmt_d (value + incr) :: l')
          else None
      end
  end.

Section Mods.
Context (righteous : bool) (si_ad_objectClass : AttributeDescription).

(** The flags for the search of values. *)
Definition mod_flags (a : Attribute) (m : Modification) : Z :=
  let flags := Z.lor SLAP_MR_EQUALITY
    (if ad_eq a.(a_desc) si_ad_objectClass then SLAP_MR_VALUE_OF_ATTRIBUTE_SYNTAX else SLAP_MR_VALUE_OF_ASSERTION_SYNTAX) in
  match m.(sm_nvalues) with
  | Some _ => Z.lor flags (Z.lor SLAP_MR_ASSERTED_VALUE_NORMALIZED_MATCH SLAP_MR_ATTRIBUTE_VALUE_NORMALIZED_MATCH)
  | None => flags
  end.

(** There is an equality rule with a match function. *)
Definition has_equality (ad : AttributeDescription) : bool :=
  match ad.(ad_type).(sat_equality) with Some mr => match mr.(smr_match) with Some _ => true | None => false end | None => false end.

(** Which of the values are new: [inl] is the return code. *)
Fixpoint new_values (a : Attribute) (flags : Z) (permissive : bool) (vals : list (berval * berval))
  : option (Z + list (berval * berval)) :=
  match vals with
  | [] => Some (inr [])
  | x :: vals =>
      '(rc, _) ← attr_valfind a flags x.2;
      if rc =? LDAP_SUCCESS then
        if permissive then new_values a flags permissive vals else Some (inl LDAP_TYPE_OR_VALUE_EXISTS)
      else if negb (rc =? LDAP_NO_SUCH_ATTRIBUTE) then Some (inl rc)
      else
        r ← new_values a flags permissive vals;
        Some (match r with inl rc => inl rc | inr l => inr (x :: l) end)
  end.

(** [modify_add_values]; its result code and the attributes. *)
Definition modify_add_values (e_attrs : list Attribute) (m : Modification) (permissive : bool) : option (Z * list Attribute) :=
  vals ← m.(sm_values);
  let add vals nvals :=
    '(rc, l) ← (if m.(sm_desc).(ad_type).(sat_ordered_val)
                then on_attr e_attrs m.(sm_desc) (fun a =>
                       ordered_value_add (match attr_find e_attrs m.(sm_desc) with Some _ => true | None => false end) a vals nvals)
                else attr_merge righteous e_attrs m.(sm_desc) vals nvals);
    Some (if negb (rc =? 0) then LDAP_OTHER else LDAP_SUCCESS, l) in
  match attr_find e_attrs m.(sm_desc) with
  | None => add vals m.(sm_nvalues)
  | Some a =>
      if negb (has_equality m.(sm_desc)) then Some (LDAP_INAPPROPRIATE_MATCHING, e_attrs) else
      if decide (List.length (mod_keys m) = List.length vals) then
        r ← new_values a (mod_flags a m) permissive (zip vals (mod_keys m));
        match r with
        | inl rc => Some (rc, e_attrs)
        | inr new =>
            if permissive then
              match new with
              | [] => Some (LDAP_SUCCESS, e_attrs)
              | _ => add new.*1 ((fun _ => new.*2) <$> m.(sm_nvalues))
              end
            else add vals m.(sm_nvalues)
        end
      else None
  end.

(** The places of the values to delete, nothing for one that is not there: [inl]
    is the return code; with the places comes the code of the last search. *)
Fixpoint locate (a : Attribute) (flags : Z) (permissive : bool) (vals : list berval) (rc : Z)
  : option (Z + Z * list (option nat)) :=
  match vals with
  | [] => Some (inr (rc, []))
  | v :: vals =>
      '(rc, sort) ← attr_valfind a flags v;
      let next place :=
        r ← locate a flags permissive vals rc;
        Some (match r with inl rc => inl rc | inr (rc, idx) => inr (rc, place :: idx) end) in
      if rc =? LDAP_SUCCESS then next (Some (Z.to_nat sort))
      else if rc =? LDAP_NO_SUCH_ATTRIBUTE then if permissive then next None else Some (inl rc)
      else Some (inl rc)
  end.

(** Compact the array: the values that are not marked. *)
Definition compact (marks : list (option nat)) (l : list berval) : list berval :=
  omap (fun x => if decide (Some x.1 ∈ marks) then None else Some x.2) (imap pair l).

Definition modify_delete_values (e_attrs : list Attribute) (m : Modification) (permissive : bool) : option (Z * list Attribute) :=
  match m.(sm_values) with
  | None =>
      let '(rc, l) := attr_delete e_attrs m.(sm_desc) in
      Some (if permissive then LDAP_SUCCESS else if negb (rc =? LDAP_SUCCESS) then LDAP_NO_SUCH_ATTRIBUTE else rc, l)
  | Some vals =>
      if negb (has_equality m.(sm_desc)) then Some (LDAP_INAPPROPRIATE_MATCHING, e_attrs) else
      match find_desc m.(sm_desc) e_attrs with
      | None => Some (if permissive then LDAP_SUCCESS else LDAP_NO_SUCH_ATTRIBUTE, e_attrs)
      | Some (u, a, w) =>
          if decide (List.length (mod_keys m) = List.length vals) then
            r ← locate a (mod_flags a m) permissive (mod_keys m) 0;
            match r with
            | inl rc => Some (rc, e_attrs)
            | inr (rc, idx) =>
                let l := compact idx (a_vals_list a) in
                nv ← (match a.(a_nvals) with NOwn n => Some (NOwn (compact idx n)) | NSame => Some NSame | NNull => None end);
                let a := mkAttr a.(a_desc) (Some l) nv a.(a_sorted) in
                match l with
                | [] => Some (rc, u ++ w)
                | _ =>
                    '(_, a) ← (if a.(a_desc).(ad_type).(sat_ordered_val) then ordered_value_sort a true else Some (0, a));
                    Some (rc, u ++ a :: w)
                end
            end
          else None
      end
  end.

Definition modify_replace_values (e_attrs : list Attribute) (m : Modification) (permissive : bool) : option (Z * list Attribute) :=
  let '(_, l) := attr_delete e_attrs m.(sm_desc) in
  match m.(sm_values) with
  | Some _ => modify_add_values l m permissive
  | None => Some (LDAP_SUCCESS, l)
  end.

(** *** Incrementing *)

Definition modify_increment_values (e_attrs : list Attribute) (m : Modification) (permissive : bool) : option (Z * list Attribute) :=
  match find_desc m.(sm_desc) e_attrs with
  | None => if permissive then modify_add_values e_attrs m permissive else Some (LDAP_NO_SUCH_ATTRIBUTE, e_attrs)
  | Some (u, a, w) =>
      oid ← at_syntax a.(a_desc).(ad_type);
      if decide (oid = SLAPD_INTEGER_SYNTAX) then
        v ← head (mod_values m);
        match lutil_atol v with
        | None => Some (LDAP_INVALID_SYNTAX, e_attrs)
        | Some incr =>
            if incr =? 0 then Some (LDAP_SUCCESS, e_attrs) else
            match a.(a_nvals) with
            | NNull => None
            | NSame => '(rc, l) ← increment_all incr (a_vals_list a);
                       Some (rc, u ++ mkAttr a.(a_desc) (Some l) NSame a.(a_sorted) :: w)
            | NOwn n => '(rc, n) ← increment_all incr n; Some (rc, u ++ mkAttr a.(a_desc) a.(a_vals) (NOwn n) a.(a_sorted) :: w)
            end
        end
      else Some (LDAP_CONSTRAINT_VIOLATION, e_attrs)
  end.
End Mods.
