(* ===== verification/ModsTheorems.v ===== *)
(** * Modifications of an entry as operations on sets of values *)

From Stdlib Require Import Ascii String.
From S2P Require Import Prelude Text Digits Order Attr AttrTheorems SortVals SortTheorems Ordered Mods.

Local Open Scope Z_scope.
Local Abbreviation length := List.length.

(** ** Well-formed attributes *)

(** An attribute of an entry: its equality rule is a comparison, no two values
    are equal, sorted values are in order, and the values have normalised forms
    of their own exactly if the rule has a normaliser. *)
Record attr_wf (fcmp : berval -> berval -> Z) (a : Attribute) : Prop := mkWf {
  wf_rule : exists mr, a.(a_desc).(ad_type).(sat_equality) = Some mr /\ (forall flags, compares mr flags fcmp) /\
    (a.(a_nvals) = NSame -> mr.(smr_normalize) = None);
  wf_plain : a.(a_desc).(ad_type).(sat_ordered) = false;
  wf_vals : exists v l, a.(a_vals) = Some (v :: l);
  wf_nvals : a.(a_nvals) <> NNull;
  wf_length : length (a_nvals_list a) = a_numvals a;
  wf_size : Z.of_nat (a_numvals a) < 2 ^ 31;
  wf_unique : no_equal fcmp (a_nvals_list a);
  wf_order : a.(a_sorted) = true -> StronglySorted (cmp_lt fcmp) (a_nvals_list a) }.

(** No value of the attribute is equal to [x]. *)
Definition absent (fcmp : berval -> berval -> Z) (a : Attribute) (x : berval) : bool :=
  forallb (fun v => negb (fcmp v x =? 0)) (a_nvals_list a).

Section Mods.
Context (fcmp : berval -> berval -> Z) `{!Comparison fcmp}.

Lemma absent_true a x : absent fcmp a x = true <-> forall v, v ∈ a_nvals_list a -> fcmp v x <> 0.
Proof.
  unfold absent. rewrite forallb_forall. split.
  - intros H v Hv%list_elem_of_In. specialize (H v Hv). by zb.
  - intros H v Hv%list_elem_of_In. by rewrite (proj2 (Z.eqb_neq _ _) (H v Hv)).
Qed.

Lemma absent_false a x : absent fcmp a x = false <-> exists v, v ∈ a_nvals_list a /\ fcmp v x = 0.
Proof.
  split.
  - unfold absent. induction (a_nvals_list a) as [|v l IH]; [done|]. cbn [forallb].
    destruct (fcmp v x =? 0) eqn:E; zb; [intros _; exists v; split; [left|done]|]. intros H. destruct (IH H) as (w & Hw & Hz).
    exists w. split; [by right|done].
  - intros (v & Hv & Hz). destruct (absent fcmp a x) eqn:E; [|done]. by destruct (proj1 (absent_true a x) E v Hv).
Qed.

(** ** Searching any attribute *)

Lemma linear_spec ad mr flags l x i m :
  ad.(ad_type).(sat_ordered) = false -> compares mr flags fcmp -> m <> 0 ->
  exists m' j, valfind_linear ad (Some mr) flags l x i m = (m', j) /\
    ((m' = 0 /\ exists k v, j = i + Z.of_nat k /\ l !! k = Some v /\ fcmp v x = 0) \/
     (m' <> 0 /\ forall v, v ∈ l -> fcmp v x <> 0)).
Proof.
  intros Hp Hmr. revert i m. induction l as [|v l IH]; intros i m Hm.
  { do 2 eexists. split; [done|]. right. split; [done|]. by intros v ?%not_elem_of_nil. }
  cbn [valfind_linear]. assert (ordered_value_match ad (Some mr) flags v x = inr (fcmp v x)) as ->.
  { unfold ordered_value_match. rewrite Hp. pose proof (Hmr v x) as H. unfold value_match in H.
    destruct (smr_match mr) eqn:E; [|done]. unfold value_match. by rewrite E. }
  destruct (decide (fcmp v x = 0)) as [E|E].
  - rewrite E. do 2 eexists. split; [done|]. left. split; [done|]. exists O, v. split; [lia|done].
  - assert (forall A (y z : A), match fcmp v x with 0 => y | _ => z end = z) as -> by (intros; by destruct (fcmp v x)).
    cbn [matched]. destruct (IH (i + 1) (fcmp v x) E) as (m' & j & -> & H). do 2 eexists. split; [done|].
    destruct H as [(-> & k & w & -> & Hk & Hz)|(Hm' & Hall)]; [left|right].
    + split; [done|]. exists (S k), w. split; [lia|done].
    + split; [done|]. intros w [->|Hw]%elem_of_cons; [done|by apply Hall].
Qed.

Lemma wf_sorted a : attr_wf fcmp a -> a.(a_sorted) = true -> sorted_attr a fcmp.
Proof. intros [H1 H2 H3 H4 H5 H6 H7 H8] Hs. split; [done|done|lia|auto]. Qed.

Lemma wf_nonempty a : attr_wf fcmp a -> a_nvals_list a <> [].
Proof.
  intros [H1 H2 (v & l & Hv) H4 H5 H6 H7 H8] E. rewrite E in H5. unfold a_numvals, a_vals_list in H5. by rewrite Hv in H5.
Qed.

(** A search finds an equal value, or there is none. *)
Lemma valfind_decides a mr flags x :
  attr_wf fcmp a -> a.(a_desc).(ad_type).(sat_equality) = Some mr -> Z.land flags SLAP_MR_ORDERING = 0 -> no_normalizing mr flags ->
  exists rc slot, attr_valfind a flags x = Some (rc, slot) /\
    ((rc = LDAP_SUCCESS /\ absent fcmp a x = false /\ exists v, a_nvals_list a !! Z.to_nat slot = Some v /\ fcmp v x = 0) \/
     (rc = LDAP_NO_SUCH_ATTRIBUTE /\ absent fcmp a x = true)).
Proof using Comparison0.
  intros Hwf Heq Hord Hnorm. pose proof (wf_nonempty a Hwf) as Hne. destruct (wf_rule _ _ Hwf) as (mr' & Heq' & Hmr & _).
  assert (mr' = mr) as -> by congruence.
  assert (forall i v, a_nvals_list a !! i = Some v -> fcmp v x = 0 -> absent fcmp a x = false) as Hfound.
  { intros i v Hv Hz. apply absent_false. exists v. split; [by apply list_elem_of_lookup_2 in Hv|done]. }
  destruct (a_sorted a) eqn:Hs.
  - destruct (valfind_sorted a mr flags fcmp x) as (rc & slot & -> & Hres); try done; [by apply wf_sorted|].
    do 2 eexists. split; [done|]. destruct Hres as [(-> & v & Hv & Hz)|(-> & _ & Hlt & Hgt & _)]; [left|right].
    + split; [done|]. split; [by apply (Hfound _ _ Hv)|]. by exists v.
    + split; [done|]. apply absent_true. intros v [i Hi]%list_elem_of_lookup.
      destruct (decide (i < Z.to_nat slot)%nat); [pose proof (Hlt i v Hi)|pose proof (Hgt i v Hi)]; lia.
  - unfold attr_valfind, valfind_fuelled. rewrite Hord, Heq, Hs. cbn [Z.eqb negb]. rewrite valfind_nval by done.
    cbn [andb mbind option_bind]. rewrite take_ge by (rewrite (wf_length _ _ Hwf); done).
    destruct (linear_spec a.(a_desc) mr flags (a_nvals_list a) x 0 (-1) (wf_plain _ _ Hwf) (Hmr flags) ltac:(done))
      as (m & j & -> & H). do 2 eexists. split; [done|].
    destruct H as [(-> & k & v & -> & Hk & Hz)|(Hm & Hall)]; [left|right].
    + split; [done|]. rewrite Z.add_0_l, Nat2Z.id. split; [by apply (Hfound _ _ Hk)|]. by exists v.
    + rewrite (proj2 (Z.eqb_neq _ _) Hm). split; [done|]. by apply absent_true.
Qed.

(** ** Adding values *)

Lemma sorted_no_equal l : StronglySorted (cmp_lt fcmp) l -> no_equal fcmp l.
Proof using Comparison0.
  intros Hs i j v w Hi Hj Hij. destruct (Nat.lt_total i j) as [H|[H|H]]; [|done|].
  - pose proof (sorted_lookup fcmp l i j v w Hs Hi Hj H). lia.
  - pose proof (sorted_lookup fcmp l j i w v Hs Hj Hi H). pose proof (cmp_swap (fcmp:=fcmp) w v). lia.
Qed.

Lemma no_equal_app l k :
  no_equal fcmp l -> no_equal fcmp k -> (forall v x, v ∈ l -> x ∈ k -> fcmp v x <> 0) -> no_equal fcmp (l ++ k).
Proof using Comparison0.
  intros Hl Hk Hlk i j v w Hi Hj Hij.
  apply lookup_app_Some in Hi as [Hi|[Hli Hi]]; apply lookup_app_Some in Hj as [Hj|[Hlj Hj]].
  - by apply (Hl i j).
  - apply Hlk; by eapply list_elem_of_lookup_2.
  - pose proof (Hlk w v ltac:(by eapply list_elem_of_lookup_2) ltac:(by eapply list_elem_of_lookup_2)).
    pose proof (cmp_swap (fcmp:=fcmp) w v). lia.
  - apply (Hk (i - length l)%nat (j - length l)%nat); (done || lia).
Qed.

(** What the entry has of the attribute after values have been added. *)
Definition grown (a : Attribute) (new : list (berval * berval)) (b : Attribute) : Prop :=
  attr_wf fcmp b /\ a_desc b = a_desc a /\ a_sorted b = a_sorted a /\ a_pairs b ≡ₚ a_pairs a ++ new /\
  (a_sorted a = false -> a_pairs b = a_pairs a ++ new).

(** New values: none is there already, and no two of them are equal. *)
Definition all_new (a : Attribute) (keys : list berval) : Prop :=
  (forall x, x ∈ keys -> absent fcmp a x = true) /\ no_equal fcmp keys.

Lemma fit_keys_length a vals nv : nvals_fit a vals nv -> length (default vals nv) = length vals.
Proof. destruct nv; [by intros [_ ?]|done]. Qed.

Lemma valadd_grown_unsorted a vals nv :
  attr_wf fcmp a -> a.(a_sorted) = false -> nvals_fit a vals nv -> all_new a (default vals nv) ->
  Z.of_nat (a_numvals a) + Z.of_nat (length vals) < 2 ^ 31 ->
  exists b, attr_valadd a vals nv = Some (0, b) /\ grown a (zip vals (default vals nv)) b.
Proof using Comparison0.
  intros Hwf Hs Hfit [Hnew Huniq] Hroom. pose proof Hwf as [H1 H2 (v & l & Hv) H4 H5 H6 H7 H8].
  pose proof (fit_keys_length _ _ _ Hfit) as Hlk.
  assert (exists b, attr_valadd a vals nv = Some (0, b) /\ a_desc b = a_desc a /\ a_sorted b = false /\
    a_vals b = Some (v :: l ++ vals) /\ (a_nvals b = NSame -> a_nvals a = NSame) /\ a_nvals b <> NNull /\
    a_nvals_list b = a_nvals_list a ++ default vals nv) as (b & Hadd & Hbd & Hbs & Hbv & Hbn & Hbnn & Hbl).
  { unfold attr_valadd, a_vals_list, a_nvals_list in *. rewrite Hv, Hs. unfold a_vals_list. rewrite Hv.
    destruct nv as [n|]; cbn [nvals_fit] in Hfit; cbn [from_option id] in *.
    - destruct Hfit as [[m Hm] Hlen]. rewrite Hm. cbn [mbind option_bind andb].
      rewrite Hlen, Nat.ltb_irrefl. cbn [mbind option_bind]. eexists. split; [done|]. cbn. split_and!; try done.
      by rewrite take_ge by lia.
    - rewrite Hfit. cbn [mbind option_bind andb]. eexists. by split_and!. }
  exists b. split; [done|].
  assert (a_vals_list b = a_vals_list a ++ vals) as Hbvl by (unfold a_vals_list; by rewrite Hbv, Hv).
  assert (a_numvals b = a_numvals a + length vals)%nat as Hbnum by (unfold a_numvals; by rewrite Hbvl, length_app).
  assert (a_pairs b = a_pairs a ++ zip vals (default vals nv)) as Hbp.
  { unfold a_pairs. rewrite Hbvl, Hbl. by rewrite zip_with_app by (rewrite H5; done). }
  split; [|by rewrite Hbs, Hs, Hbp]. split; try done.
  - rewrite Hbd. destruct H1 as (mr & ? & ? & ?). exists mr. split_and!; auto.
  - by rewrite Hbd.
  - by eexists _, _.
  - rewrite Hbl, length_app, H5, Hlk. lia.
  - lia.
  - rewrite Hbl. apply no_equal_app; [done..|]. intros u x Hu Hx. by apply (absent_true a x); [apply Hnew|].
  - by rewrite Hbs.
Qed.

Lemma valadd_grown_sorted a vals nv :
  attr_wf fcmp a -> a.(a_sorted) = true -> nvals_fit a vals nv -> all_new a (default vals nv) ->
  Z.of_nat (a_numvals a) + Z.of_nat (length vals) < 2 ^ 31 ->
  exists b, attr_valadd a vals nv = Some (0, b) /\ grown a (zip vals (default vals nv)) b.
Proof using Comparison0.
  intros Hwf Hs Hfit [Hnew Huniq] Hroom. pose proof Hwf as [H1 H2 (v & l & Hv) H4 H5 H6 H7 H8].
  destruct H1 as (mr & Hmr & Hcmp & Hnn).
  destruct (attr_valadd_spec a mr fcmp vals nv) as (rc & b & Hadd & Hsb & (Hdesc & Hkind & Hnull) & front & back & Hsplit & Hperm & Hend);
    [done|by apply wf_sorted|by apply wf_nonempty|done|lia|done|].
  assert (back = []) as ->.
  { destruct back as [|[w x] back]; [done|]. exfalso. destruct Hend as (_ & u & Hu & Hz).
    assert (a_nvals_list b ≡ₚ front.*2 ++ a_nvals_list a) as Hpn.
    { pose proof (fmap_Permutation snd _ _ Hperm) as Hp2. rewrite fmap_app in Hp2. unfold a_pairs in Hp2.
      rewrite !snd_zip in Hp2 by (rewrite ?(sa_vals _ _ Hsb), ?H5; done). done. }
    assert (default vals nv = front.*2 ++ x :: back.*2) as Hd.
    { apply (f_equal (fmap snd)) in Hsplit. rewrite snd_zip in Hsplit by (by rewrite (fit_keys_length a)).
      by rewrite fmap_app in Hsplit. }
    rewrite Hpn in Hu. apply elem_of_app in Hu as [[i Hi]%list_elem_of_lookup|Hu].
    - apply (Huniq i (length front.*2) u x); [| |apply lookup_lt_Some in Hi; lia|done]; rewrite Hd.
      + by apply lookup_app_l_Some.
      + by apply list_lookup_middle.
    - apply (proj1 (absent_true a x) (Hnew x ltac:(rewrite Hd; apply elem_of_app; right; left)) u); done. }
  rewrite app_nil_r in Hsplit. subst rc. exists b. split; [exact Hadd|].
  assert (a_pairs b ≡ₚ a_pairs a ++ zip vals (default vals nv)) as Hpp by (rewrite Hsplit, Hperm; apply Permutation_app_comm).
  assert (a_numvals b = a_numvals a + length vals)%nat as Hnum.
  { apply Permutation_length in Hpp. unfold a_pairs in Hpp. rewrite length_app, !length_zip_with in Hpp.
    rewrite (sa_vals _ _ Hsb), H5, (fit_keys_length a) in Hpp by done. unfold a_numvals in *. lia. }
  assert (a_sorted b = true) as Hsrt by apply Hsb.
  split; [|split; [done|]; split; [congruence|]; split; [done|congruence]]. split; try done.
  - rewrite Hdesc. exists mr. split_and!; [done..|]. intros HN. by apply Hnn, Hkind.
  - by rewrite Hdesc.
  - unfold a_numvals, a_vals_list in *. rewrite Hv in *. destruct (a_vals b) as [[|w lb]|]; cbn in *; [lia|by eexists _, _|lia].
  - apply Hsb.
  - lia.
  - by apply sorted_no_equal, Hsb.
  - intros _. apply Hsb.
Qed.

Lemma valadd_grown a vals nv :
  attr_wf fcmp a -> nvals_fit a vals nv -> all_new a (default vals nv) ->
  Z.of_nat (a_numvals a) + Z.of_nat (length vals) < 2 ^ 31 ->
  exists b, attr_valadd a vals nv = Some (0, b) /\ grown a (zip vals (default vals nv)) b.
Proof using Comparison0. intros Hwf. destruct (a_sorted a) eqn:E; [by apply valadd_grown_sorted|by apply valadd_grown_unsorted]. Qed.

Lemma grown_refl a : attr_wf fcmp a -> grown a [] a.
Proof. intros Hwf. split; [done|]. by rewrite app_nil_r. Qed.

(** ** What a modification needs *)

(** The modification is for the attribute [a] of the entry, between [u] and [w]. *)
Record mod_fits (e : list Attribute) (m : Modification) (u : list Attribute) (a : Attribute) (w : list Attribute)
    (vals : list berval) : Prop := mkFits {
  mf_find : find_desc m.(sm_desc) e = Some (u, a, w);
  mf_desc : a.(a_desc) = m.(sm_desc);
  mf_wf : attr_wf fcmp a;
  mf_values : m.(sm_values) = Some vals;
  mf_nvalues : nvals_fit a vals m.(sm_nvalues);
  mf_ordered : m.(sm_desc).(ad_type).(sat_ordered_val) = false }.

Lemma find_desc_split ad l u a w : find_desc ad l = Some (u, a, w) -> l = u ++ a :: w.
Proof.
  revert u. induction l as [|b l IH]; intros u; [done|]. cbn [find_desc]. destruct (ad_eq _ _); [by intros [= <- <- <-]|].
  destruct (find_desc ad l) as [[[u' b'] w']|]; [|done]. intros [= <- <- <-]. cbn. by rewrite <- (IH u').
Qed.

Lemma mod_flags_ok oc a m mr vals :
  nvals_fit a vals m.(sm_nvalues) -> (a.(a_nvals) = NSame -> mr.(smr_normalize) = None) ->
  Z.land (mod_flags oc a m) SLAP_MR_ORDERING = 0 /\ no_normalizing mr (mod_flags oc a m).
Proof.
  unfold mod_flags, no_normalizing. destruct (sm_nvalues m); cbn [nvals_fit]; intros Hfit Hn.
  - split; [by destruct (ad_eq _ _)|left; by destruct (ad_eq _ _)].
  - split; [by destruct (ad_eq _ _)|right; by apply Hn].
Qed.

(** The search that a modification makes decides whether a value is there. *)
Lemma fits_valfind oc e m u a w vals x :
  mod_fits e m u a w vals ->
  exists rc slot, attr_valfind a (mod_flags oc a m) x = Some (rc, slot) /\
    ((rc = LDAP_SUCCESS /\ absent fcmp a x = false /\ exists v, a_nvals_list a !! Z.to_nat slot = Some v /\ fcmp v x = 0) \/
     (rc = LDAP_NO_SUCH_ATTRIBUTE /\ absent fcmp a x = true)).
Proof using Comparison0.
  intros [Hf Hd Hwf Hv Hn Ho]. destruct (wf_rule _ _ Hwf) as (mr & Hmr & _ & Hnn).
  destruct (mod_flags_ok oc a m mr vals Hn Hnn) as [Hord Hnorm]. by apply (valfind_decides a mr).
Qed.

Lemma fits_equality e m u a w vals : mod_fits e m u a w vals -> has_equality m.(sm_desc) = true.
Proof.
  intros [Hf Hd Hwf Hv Hn Ho]. destruct (wf_rule _ _ Hwf) as (mr & Hmr & Hc & _). unfold has_equality. rewrite <- Hd, Hmr.
  specialize (Hc 0 [] []). unfold value_match in Hc. by destruct (smr_match mr).
Qed.

Lemma fits_keys e m u a w vals : mod_fits e m u a w vals -> mod_keys m = default vals m.(sm_nvalues).
Proof. intros [Hf Hd Hwf Hv Hn Ho]. unfold mod_keys, mod_values. by rewrite Hv. Qed.

(** ** Adding *)

Lemma new_values_spec oc e m u a w vals permissive l :
  mod_fits e m u a w vals ->
  new_values a (mod_flags oc a m) permissive l = Some
    (if permissive then inr (List.filter (fun x => absent fcmp a x.2) l)
     else if forallb (absent fcmp a) l.*2 then inr l else inl LDAP_TYPE_OR_VALUE_EXISTS).
Proof using Comparison0.
  intros Hfits. induction l as [|x l IH]; [by destruct permissive|]. cbn [new_values List.filter fmap list_fmap forallb].
  destruct (fits_valfind oc e m u a w vals x.2 Hfits) as (rc & slot & -> & [(-> & -> & _)|(-> & ->)]); cbn.
  - by destruct permissive.
  - rewrite IH. destruct permissive; [done|]. cbn. by destruct (forallb _ _).
Qed.

Lemma attr_merge_grown righteous e m u a w vals new nv :
  mod_fits e m u a w vals -> nvals_fit a new nv -> all_new a (default new nv) ->
  Z.of_nat (a_numvals a) + Z.of_nat (length new) < 2 ^ 31 ->
  exists b, attr_merge righteous e m.(sm_desc) new nv = Some (0, u ++ b :: w) /\ grown a (zip new (default new nv)) b.
Proof using Comparison0.
  intros [Hf Hd Hwf Hv Hn Ho] Hfit Hnew Hroom. destruct (valadd_grown a new nv) as (b & Hb & Hg); [done..|].
  exists b. split; [|done]. unfold attr_merge. rewrite Hf. destruct (wf_vals _ _ Hwf) as (v & l & ->).
  destruct nv as [n|]; cbn [nvals_fit] in Hfit.
  - destruct Hfit as [[k Hk] Hlen]. rewrite Hk. cbn -[attr_valadd]. rewrite andb_false_r. cbn -[attr_valadd]. by rewrite Hb.
  - rewrite Hfit. cbn -[attr_valadd]. by rewrite Hb.
Qed.

Lemma no_equal_filter (f : berval * berval -> bool) l : no_equal fcmp l.*2 -> no_equal fcmp (List.filter f l).*2.
Proof.
  induction l as [|x l IH]; intros Hu; [by intros [|i] j v w Hi|].
  assert (no_equal fcmp l.*2) as Hl by (intros i j v w Hi Hj Hij; apply (Hu (S i) (S j)); [done..|lia]).
  cbn [List.filter]. destruct (f x); [|by apply IH]. cbn [fmap list_fmap].
  assert (forall i v, (List.filter f l).*2 !! i = Some v -> exists j, l.*2 !! j = Some v) as Hin.
  { intros i v (y & -> & Hy)%list_lookup_fmap_Some. apply list_elem_of_lookup_2, list_elem_of_In, filter_In in Hy as [Hy _].
    apply list_elem_of_In, list_elem_of_lookup in Hy as [j Hj]. exists j. by rewrite list_lookup_fmap, Hj. }
  intros [|i] [|j] v w Hi Hj Hij; cbn in Hi, Hj; [done| | |].
  - destruct (Hin _ _ Hj) as [j' Hj']. by apply (Hu O (S j')).
  - destruct (Hin _ _ Hi) as [i' Hi']. by apply (Hu (S i') O).
  - apply (IH Hl i j); [done..|lia].
Qed.

Lemma all_new_filter a l :
  no_equal fcmp l.*2 -> all_new a (List.filter (fun x : berval * berval => absent fcmp a x.2) l).*2.
Proof.
  intros Hu. split; [|by apply no_equal_filter].
  intros x (y & -> & Hy)%list_elem_of_fmap. apply list_elem_of_In, filter_In in Hy. tauto.
Qed.

(** Adding values that are new, in an entry that has the attribute. *)
Lemma add_new righteous e m u a w vals new :
  mod_fits e m u a w vals -> all_new a new.*2 -> (m.(sm_nvalues) = None -> new.*1 = new.*2) ->
  Z.of_nat (a_numvals a) + Z.of_nat (length new) < 2 ^ 31 ->
  exists b, attr_merge righteous e m.(sm_desc) new.*1 ((fun _ => new.*2) <$> m.(sm_nvalues)) = Some (0, u ++ b :: w) /\ grown a new b.
Proof using Comparison0.
  intros Hfits Hnew Hsame Hroom. pose proof (mf_nvalues _ _ _ _ _ _ Hfits) as Hn.
  assert (default new.*1 ((fun _ => new.*2) <$> m.(sm_nvalues)) = new.*2) as Hkeys
    by (destruct (sm_nvalues m); [done|by apply Hsame]).
  destruct (attr_merge_grown righteous e m u a w vals new.*1 ((fun _ => new.*2) <$> m.(sm_nvalues)) Hfits) as (b & -> & Hg).
  - destruct (sm_nvalues m); cbn in *; [|done]. split; [by destruct Hn|by rewrite !length_fmap].
  - by rewrite Hkeys.
  - by rewrite length_fmap.
  - exists b. split; [done|]. rewrite Hkeys, zip_fst_snd in Hg. exact Hg.
Qed.

Lemma filter_same l (f : berval * berval -> bool) : Forall (fun x => x.1 = x.2) l -> (List.filter f l).*1 = (List.filter f l).*2.
Proof. induction 1 as [|x l Hx Hl IH]; [done|]. cbn. destruct (f x); [cbn; congruence|done]. Qed.

Lemma zip_same (l : list berval) : Forall (fun x => x.1 = x.2) (zip l l).
Proof. induction l; constructor; done. Qed.

Lemma filter_all {A} (f : A -> bool) l : forallb f l = true -> List.filter f l = l.
Proof. induction l as [|x l IH]; [done|]. cbn. intros [-> H]%andb_true_iff. by rewrite IH. Qed.

(** C19: adding values to an attribute. Unless permissive, a value that is
    already there makes it fail with [LDAP_TYPE_OR_VALUE_EXISTS] and leaves the
    entry as it was; permissive, such values are passed over. All other values
    are added with their normalised forms, behind the old ones or, in a sorted
    attribute, at their places; the attribute stays well formed, and the other
    attributes are not touched. *)
Theorem modify_add_correct righteous oc e m permissive u a w vals :
  mod_fits e m u a w vals -> no_equal fcmp (mod_keys m) ->
  Z.of_nat (a_numvals a) + Z.of_nat (length vals) < 2 ^ 31 ->
  exists rc e', modify_add_values righteous oc e m permissive = Some (rc, e') /\
  if permissive || forallb (absent fcmp a) (mod_keys m) then
    rc = LDAP_SUCCESS /\ exists b, e' = u ++ b :: w /\
      grown a (List.filter (fun x => absent fcmp a x.2) (zip vals (mod_keys m))) b
  else rc = LDAP_TYPE_OR_VALUE_EXISTS /\ e' = e.
Proof using Comparison0.
  intros Hfits Huniq Hroom. pose proof Hfits as [Hf Hd Hwf Hv Hn Ho]. pose proof (fits_keys _ _ _ _ _ _ Hfits) as Hkeys.
  pose proof (fit_keys_length _ _ _ Hn) as Hlen. rewrite <- Hkeys in Hlen.
  assert ((zip vals (mod_keys m)).*2 = mod_keys m) as Hz2 by (apply snd_zip; lia).
  assert ((zip vals (mod_keys m)).*1 = vals) as Hz1 by (apply fst_zip; lia).
  assert (attr_find e m.(sm_desc) = Some a) as Hfind by (unfold attr_find; by rewrite Hf).
  unfold modify_add_values. rewrite Hv. cbn [mbind option_bind]. rewrite !Hfind, Ho.
  rewrite (fits_equality _ _ _ _ _ _ Hfits), decide_True, (new_values_spec oc e m u a w vals) by done.
  cbn [negb mbind option_bind]. rewrite Hz2.
  pose proof (add_new righteous e m u a w vals (List.filter (fun x => absent fcmp a x.2) (zip vals (mod_keys m))) Hfits) as Hadd.
  destruct Hadd as (b & Hb & Hg); [by apply all_new_filter; rewrite Hz2| | |].
  { intros HN. apply filter_same. rewrite Hkeys, HN. apply zip_same. }
  { pose proof (List.filter_length_le (fun x => absent fcmp a x.2) (zip vals (mod_keys m))) as Hle.
    rewrite length_zip_with in Hle. lia. }
  destruct permissive; cbn [orb].
  - destruct (List.filter _ _) as [|x new] eqn:E.
    + do 2 eexists. split; [done|]. split; [done|]. exists a. split; [by apply find_desc_split in Hf|by apply grown_refl].
    + rewrite Hb. do 2 eexists. split; [done|]. split; [done|]. by exists b.
  - destruct (forallb _ _) eqn:E; [|by do 2 eexists].
    assert (List.filter (fun x => absent fcmp a x.2) (zip vals (mod_keys m)) = zip vals (mod_keys m)) as Hall.
    { apply filter_all. rewrite <- Hz2 in E. revert E. clear. induction (zip vals (mod_keys m)) as [|x l IH]; [done|].
      cbn. intros [-> H]%andb_true_iff. by apply IH. }
    rewrite Hall in *. rewrite Hz1 in Hb. assert ((fun _ => (zip vals (mod_keys m)).*2) <$> sm_nvalues m = sm_nvalues m) as HN.
    { rewrite Hz2, Hkeys. by destruct (sm_nvalues m). }
    rewrite HN in Hb. rewrite Hb. do 2 eexists. split; [done|]. split; [done|]. by exists b.
Qed.

(** ** Deleting *)

(** [compact] with the position as a parameter, for lists of any kind. *)
Fixpoint keep {A} (marks : list (option nat)) (i : nat) (l : list A) : list A :=
  match l with
  | [] => []
  | x :: l => if decide (Some i ∈ marks) then keep marks (S i) l else x :: keep marks (S i) l
  end.

Lemma compact_keep marks l : compact marks l = keep marks 0 l.
Proof.
  unfold compact. assert (forall i, omap (fun x => if decide (Some x.1 ∈ marks) then None else Some x.2) (imap (fun j x => ((i + j)%nat, x)) l)
    = keep marks i l) as H; [|exact (H O)].
  induction l as [|x l IH]; intros i; [done|]. rewrite imap_cons. cbn [keep]. rewrite <- IH. cbn.
  rewrite Nat.add_0_r. assert (imap ((fun j (y : berval) => ((i + j)%nat, y)) ∘ S) l = imap (fun j y => ((S i + j)%nat, y)) l) as ->.
  { apply imap_ext. intros j y _. cbn. f_equal. lia. }
  by destruct (decide _).
Qed.

Lemma keep_fmap {A B} (f : A -> B) marks l : forall i, keep marks i (f <$> l) = f <$> keep marks i l.
Proof. induction l as [|x l IH]; intros i; [done|]. cbn [keep fmap list_fmap]. rewrite !IH. by destruct (decide _). Qed.

Lemma keep_filter {A} (f : A -> bool) marks (l : list A) : forall i,
  (forall j x, l !! j = Some x -> (Some (i + j)%nat ∈ marks <-> f x = false)) -> keep marks i l = List.filter f l.
Proof.
  induction l as [|x l IH]; intros i H; [done|]. cbn [keep List.filter].
  rewrite (IH (S i)) by (intros j y Hj; specialize (H (S j) y Hj); by rewrite Nat.add_succ_r in H).
  specialize (H O x eq_refl). rewrite Nat.add_0_r in H. destruct (decide _) as [E|E].
  - by rewrite (proj1 H E).
  - destruct (f x) eqn:Ef; [done|]. exfalso. apply E. by apply H.
Qed.

(** What [locate] found for each value: the place of an equal one, or nothing. *)
Definition located (a : Attribute) (k : berval) (place : option nat) : Prop :=
  match place with
  | Some i => exists v, a_nvals_list a !! i = Some v /\ fcmp v k = 0
  | None => absent fcmp a k = true
  end.

(** The code of the last search. *)
Definition last_code (a : Attribute) (keys : list berval) (rc : Z) : Z :=
  match list.last keys with
  | Some k => if absent fcmp a k then LDAP_NO_SUCH_ATTRIBUTE else LDAP_SUCCESS
  | None => rc
  end.

Lemma locate_spec oc e m u a w vals permissive keys : forall rc0,
  mod_fits e m u a w vals ->
  if permissive || forallb (fun k => negb (absent fcmp a k)) keys then
    exists idx, Forall2 (located a) keys idx /\
      locate a (mod_flags oc a m) permissive keys rc0 = Some (inr (last_code a keys rc0, idx))
  else locate a (mod_flags oc a m) permissive keys rc0 = Some (inl LDAP_NO_SUCH_ATTRIBUTE).
Proof using Comparison0.
  induction keys as [|k keys IH]; intros rc0 Hfits.
  { cbn [forallb]. rewrite orb_true_r. exists []. by split; [constructor|]. }
  cbn [locate forallb]. destruct (fits_valfind oc e m u a w vals k Hfits) as (rc & slot & -> & H).
  cbn [mbind option_bind].
  assert (last_code a (k :: keys) rc0 = last_code a keys rc) as Hlast.
  { unfold last_code. rewrite last_cons. destruct (list.last keys); [done|]. by destruct H as [(-> & -> & _)|(-> & ->)]. }
  rewrite Hlast. specialize (IH rc Hfits).
  destruct H as [(-> & Ha & v & Hv & Hz)|(-> & Ha)]; rewrite Ha; cbn [negb andb].
  - destruct (permissive || _) eqn:E.
    + destruct IH as (idx & Hidx & ->). eexists (_ :: idx). split; [|done]. constructor; [by exists v|done].
    + by rewrite IH.
  - destruct permissive; cbn [orb] in *; [|done].
    destruct IH as (idx & Hidx & ->). eexists (_ :: idx). split; [|done]. by constructor.
Qed.

(** A value that one of the keys names. *)
Definition named (keys : list berval) (x : berval * berval) : bool := existsb (fun k => fcmp x.2 k =? 0) keys.

Lemma named_located a keys idx j x :
  attr_wf fcmp a -> Forall2 (located a) keys idx -> a_pairs a !! j = Some x -> Some j ∈ idx <-> named keys x = true.
Proof using Comparison0.
  intros Hwf Hidx Hj.
  assert (a_nvals_list a !! j = Some x.2) as Hn.
  { unfold a_pairs in Hj. apply (f_equal (fmap snd)) in Hj. rewrite <- list_lookup_fmap, snd_zip in Hj; [done|].
    rewrite (wf_length _ _ Hwf). done. }
  unfold named. rewrite existsb_exists. split.
  - intros (i & Hi)%list_elem_of_lookup. destruct (Forall2_lookup_r _ _ _ _ _ Hidx Hi) as (k & Hk & v & Hv & Hz).
    exists k. split; [by apply list_elem_of_lookup_2, list_elem_of_In in Hk|]. assert (x.2 = v) as -> by congruence. lia.
  - intros (k & Hk & Hz). apply list_elem_of_In, list_elem_of_lookup in Hk as [i Hk]. zb.
    destruct (Forall2_lookup_l _ _ _ _ _ Hidx Hk) as (p & Hp & Hloc). destruct p as [q|]; cbn [located] in Hloc.
    + destruct Hloc as (v & Hv & Hvk). destruct (decide (q = j)) as [->|Hne]; [by apply list_elem_of_lookup_2 in Hp|].
      exfalso. apply (wf_unique _ _ Hwf q j v x.2); [done..|].
      pose proof (cmp_swap (fcmp:=fcmp) x.2 k). pose proof (cmp_swap (fcmp:=fcmp) v x.2).
      pose proof (cmp_le_trans (fcmp:=fcmp) v k x.2 ltac:(lia) ltac:(lia)).
      pose proof (cmp_swap (fcmp:=fcmp) v k). pose proof (cmp_le_trans (fcmp:=fcmp) x.2 k v ltac:(lia) ltac:(lia)). lia.
    + exfalso. apply (proj1 (absent_true a k) Hloc x.2); [by apply list_elem_of_lookup_2 in Hn|done].
Qed.

Lemma filter_sorted l f : StronglySorted (cmp_lt fcmp) l.*2 -> StronglySorted (cmp_lt fcmp) (List.filter f l : list (berval * berval)).*2.
Proof.
  induction l as [|x l IH]; [done|]. cbn [fmap list_fmap List.filter]. intros [Hs Hf]%StronglySorted_inv.
  destruct (f x); [|by apply IH]. cbn [fmap list_fmap]. constructor; [by apply IH|].
  apply list.Forall_forall. intros y (z & -> & Hz)%list_elem_of_fmap. apply list_elem_of_In, filter_In in Hz as [Hz _].
  rewrite list.Forall_forall in Hf. apply Hf, list_elem_of_fmap. exists z. split; [done|]. by apply list_elem_of_In.
Qed.

(** The attribute with some of its values. *)
Lemma fewer_wf a b (f : berval * berval -> bool) :
  attr_wf fcmp a -> a_desc b = a_desc a -> a_sorted b = a_sorted a -> (a_nvals b = NSame <-> a_nvals a = NSame) ->
  a_nvals b <> NNull -> is_Some (a_vals b) -> a_vals_list b = (List.filter f (a_pairs a)).*1 ->
  a_nvals_list b = (List.filter f (a_pairs a)).*2 -> List.filter f (a_pairs a) <> [] -> attr_wf fcmp b.
Proof.
  intros Hwf Hd Hs Hk Hnn [l Hl] Hv Hn Hne. pose proof Hwf as [H1 H2 H3 H4 H5 H6 H7 H8].
  assert ((a_pairs a).*2 = a_nvals_list a) as Hp by (apply snd_zip; rewrite H5; done).
  assert (length (a_pairs a) = a_numvals a) as Hlen by (rewrite <- H5, <- Hp; by rewrite length_fmap).
  assert (a_numvals b = length (List.filter f (a_pairs a))) as Hnum by (unfold a_numvals; by rewrite Hv, length_fmap).
  split; try done.
  - rewrite Hd. destruct H1 as (mr & ? & ? & Hnm). exists mr. split_and!; [done..|]. intros HN. by apply Hnm, Hk.
  - by rewrite Hd.
  - unfold a_vals_list in Hv. rewrite Hl in *. cbn in Hv. subst l. destruct (List.filter f (a_pairs a)); [done|]. by eexists _, _.
  - by rewrite Hn, length_fmap.
  - pose proof (List.filter_length_le f (a_pairs a)). lia.
  - rewrite Hn. apply no_equal_filter. by rewrite Hp.
  - intros E. rewrite Hn. apply filter_sorted. rewrite Hp. apply H8. congruence.
Qed.

(** What is left of the attribute [a]: the attribute with the other values, or
    nothing when there are none. *)
Definition reduced (a : Attribute) (left_ : list (berval * berval)) (l : list Attribute) : Prop :=
  match left_ with
  | [] => l = []
  | _ => exists b, l = [b] /\ attr_wf fcmp b /\ a_desc b = a_desc a /\ a_sorted b = a_sorted a /\ a_pairs b = left_
  end.

(** The attribute after its arrays have been compacted. *)
Lemma compacted a idx (f : berval * berval -> bool) :
  attr_wf fcmp a -> keep idx 0 (a_pairs a) = List.filter f (a_pairs a) ->
  exists nv, (match a.(a_nvals) with NOwn n => Some (NOwn (compact idx n)) | NSame => Some NSame | NNull => None end) = Some nv /\
  compact idx (a_vals_list a) = (List.filter f (a_pairs a)).*1 /\
  (List.filter f (a_pairs a) <> [] ->
   let b := mkAttr a.(a_desc) (Some (compact idx (a_vals_list a))) nv a.(a_sorted) in
   attr_wf fcmp b /\ a_pairs b = List.filter f (a_pairs a)).
Proof.
  intros Hwf Hkeep. pose proof (wf_length _ _ Hwf) as Hl.
  assert ((a_pairs a).*2 = a_nvals_list a /\ (a_pairs a).*1 = a_vals_list a) as [Hp2 Hp1]
    by (unfold a_pairs; split; [apply snd_zip|apply fst_zip]; rewrite Hl; done).
  assert (compact idx (a_vals_list a) = (List.filter f (a_pairs a)).*1) as Hv by (rewrite compact_keep, <- Hp1, keep_fmap; by rewrite Hkeep).
  assert (exists nv, (match a.(a_nvals) with NOwn n => Some (NOwn (compact idx n)) | NSame => Some NSame | NNull => None end) = Some nv /\
    (nv = NSame <-> a_nvals a = NSame) /\ nv <> NNull /\
    a_nvals_list (mkAttr a.(a_desc) (Some (compact idx (a_vals_list a))) nv a.(a_sorted)) = (List.filter f (a_pairs a)).*2)
    as (nv & Hnv & Hk & Hnn & Hn).
  { destruct (a_nvals a) as [| |n] eqn:E; [by destruct (wf_nvals _ _ Hwf)|exists NSame|exists (NOwn (compact idx n))]; split_and!; try done.
    - change (compact idx (a_vals_list a) = (List.filter f (a_pairs a)).*2). rewrite Hv. apply filter_same.
      unfold a_pairs, a_nvals_list. rewrite E. apply zip_same.
    - change (compact idx n = (List.filter f (a_pairs a)).*2). assert (a_nvals_list a = n) as <- by (unfold a_nvals_list; by rewrite E).
      rewrite compact_keep, <- Hp2, keep_fmap. by rewrite Hkeep. }
  exists nv. split; [done|]. split; [done|]. intros Hne b. split.
  - by apply (fewer_wf a b f).
  - subst b. unfold a_pairs at 1. rewrite Hn. unfold a_vals_list at 1. cbn [a_vals default from_option id]. rewrite Hv. apply zip_fst_snd.
Qed.

(** C20: deleting values of an attribute. Unless permissive, a value that is not
    there makes it fail with [LDAP_NO_SUCH_ATTRIBUTE] and leaves the entry as it
    was. Otherwise exactly the values equal to one of those given are removed,
    with their normalised forms; the others keep their order, the attribute stays
    well formed or goes with its last value, and the other attributes are not
    touched. The code is that of the search for the last value. *)
Theorem modify_delete_correct oc e m permissive u a w vals :
  mod_fits e m u a w vals ->
  exists rc e', modify_delete_values oc e m permissive = Some (rc, e') /\
  if permissive || forallb (fun k => negb (absent fcmp a k)) (mod_keys m) then
    rc = last_code a (mod_keys m) LDAP_SUCCESS /\
    exists l, e' = u ++ l ++ w /\ reduced a (List.filter (fun x => negb (named (mod_keys m) x)) (a_pairs a)) l
  else rc = LDAP_NO_SUCH_ATTRIBUTE /\ e' = e.
Proof using Comparison0.
  intros Hfits. pose proof Hfits as [Hf Hd Hwf Hv Hn Ho]. pose proof (fits_keys _ _ _ _ _ _ Hfits) as Hkeys.
  pose proof (fit_keys_length _ _ _ Hn) as Hlen. rewrite <- Hkeys in Hlen. pose proof (wf_length _ _ Hwf) as Hl.
  unfold modify_delete_values. rewrite Hv, (fits_equality _ _ _ _ _ _ Hfits), Hf, decide_True by done. cbn [negb].
  pose proof (locate_spec oc e m u a w vals permissive (mod_keys m) 0 Hfits) as Hloc.
  destruct (permissive || _); [|rewrite Hloc; by do 2 eexists].
  destruct Hloc as (idx & Hidx & ->). cbn [mbind option_bind].
  assert (keep idx 0 (a_pairs a) = List.filter (fun x => negb (named (mod_keys m) x)) (a_pairs a)) as Hkeep.
  { apply keep_filter. intros j x Hj. rewrite (named_located a (mod_keys m) idx j x) by done. by destruct (named _ _). }
  destruct (compacted a idx _ Hwf Hkeep) as (nv & -> & Hc & Hb). cbn [mbind option_bind].
  destruct (List.filter _ _) as [|x rest].
  - rewrite Hc. cbn [fmap list_fmap]. do 2 eexists. split; [done|]. split; [done|]. by exists [].
  - specialize (Hb ltac:(done)). destruct (compact idx (a_vals_list a)) as [|y l] eqn:E; [done|]. cbn [a_desc].
    assert (sat_ordered_val (ad_type (a_desc a)) = false) as -> by (by rewrite Hd).
    do 2 eexists. split; [done|]. split; [done|]. eexists [_]. split; [done|]. eexists. split; [done|]. split_and!; try apply Hb; done.
Qed.

End Mods.

(** ** Incrementing *)

Definition is_long (z : Z) : Prop := - 2 ^ 63 <= z < 2 ^ 63.

Lemma digits_of_number n : 0 <= n < 10 ^ 20 ->
  exists c ds, digits_of 20 10 n [] = c :: ds /\ all_digits 10 (c :: ds) = true /\ digits_value 10 0 (c :: ds) = n.
Proof.
  intros Hn. destruct (digits_of_spec 20 10 n [] 20 ltac:(lia) Hn ltac:(lia)) as (ds & E & H1 & H2 & _). rewrite app_nil_r in E.
  destruct ds as [|c ds]; [|by exists c, ds]. cbn in H2. by subst n.
Qed.

(** A number is read back as it was printed. *)
Lemma atol_fmt_d z : is_long z -> lutil_atol (fmt_d z) = Some z.
Proof.
  intros Hz. unfold fmt_d. destruct (z <? 0) eqn:E; zb;
    [destruct (digits_of_number (- z)) as (c & ds & -> & Hd & Hv)|destruct (digits_of_number z) as (c & ds & -> & Hd & Hv)];
    try (unfold is_long in Hz; lia).
  - pose proof (strtol_exact_digits 10 c ds [] ltac:(auto) Hd ltac:(done)) as Hs. rewrite app_nil_r, Hv in Hs.
    unfold lutil_atol. change (isspace "-") with false. cbn iota.
    assert (strtol_exact ("-"%char :: c :: ds) 10 = Some (z, [])) as ->.
    { revert Hs. pose proof Hd as Hc. cbn [all_digits forallb] in Hc. apply andb_true_iff in Hc as [Hc _]. apply bool_decide_eq_true in Hc.
      pose proof (digit_not c (fun c => negb (isspace c || Ascii.eqb c "-" || Ascii.eqb c "+")) eq_refl Hc) as Hn.
      apply negb_true_iff, orb_false_iff in Hn as [[Hsp Hm]%orb_false_iff Hp].
      unfold strtol_exact. cbn [skip_space]. change (isspace "-") with false. cbn iota. rewrite Hsp, Hm, Hp.
      change (Ascii.eqb "-" "-") with true. cbn iota. change (10 =? 16) with false. cbn [andb].
      destruct ds as [|? [|? ?]]; cbn iota; (destruct (digit_in 10 c); [|done]); destruct (read_digits _ _ _) as [v rest];
        intros [= Hv' ->]; by rewrite Hv', Z.opp_involutive. }
    cbn [mbind option_bind]. rewrite swrap_small by (done || lia). by rewrite Z.eqb_refl.
  - pose proof (strtol_exact_digits 10 c ds [] ltac:(auto) Hd ltac:(done)) as Hs. rewrite app_nil_r, Hv in Hs.
    unfold lutil_atol. rewrite Hs. pose proof Hd as Hc. cbn [all_digits forallb] in Hc. apply andb_true_iff in Hc as [Hc _].
    apply bool_decide_eq_true in Hc. pose proof (digit_not c (fun c => negb (isspace c)) eq_refl Hc) as Hn. apply negb_true_iff in Hn.
    rewrite Hn. cbn [mbind option_bind]. rewrite swrap_small by (done || lia). by rewrite Z.eqb_refl.
Qed.

Lemma increment_all_spec incr l zs :
  Forall2 (fun v z => lutil_atol v = Some z /\ is_long (z + incr)) l zs ->
  exists l', increment_all incr l = Some (LDAP_SUCCESS, l') /\ Forall2 (fun v z => lutil_atol v = Some (z + incr)) l' zs.
Proof.
  induction 1 as [|v z l zs [Hv Hz] H IH]; [by exists []|]. destruct IH as (l' & E & Hl'). cbn [increment_all].
  rewrite Hv, swrap_small by (done || (unfold is_long in Hz; lia)). rewrite Z.eqb_refl, E. eexists. split; [done|].
  constructor; [by apply atol_fmt_d|done].
Qed.

(** Incrementing an integer attribute: every value is read afterwards as its number
    with the increment added; when a sum is no [long] the code overflows. *)
Theorem modify_increment_correct righteous oc e m permissive u a w incr v vs zs :
  find_desc m.(sm_desc) e = Some (u, a, w) -> at_syntax a.(a_desc).(ad_type) = Some SLAPD_INTEGER_SYNTAX ->
  m.(sm_values) = Some (v :: vs) -> lutil_atol v = Some incr -> a.(a_nvals) <> NNull ->
  Forall2 (fun x z => lutil_atol x = Some z /\ is_long (z + incr)) (a_nvals_list a) zs ->
  exists b, modify_increment_values righteous oc e m permissive = Some (LDAP_SUCCESS, u ++ b :: w) /\
    a_desc b = a_desc a /\ Forall2 (fun x z => lutil_atol x = Some (z + incr)) (a_nvals_list b) zs.
Proof.
  intros Hf Hoid Hv Hincr Hnn Hz. unfold modify_increment_values. rewrite Hf, Hoid. cbn [mbind option_bind].
  rewrite decide_True by done. unfold mod_values. rewrite Hv. cbn [default from_option id head mbind option_bind]. rewrite Hincr.
  destruct (incr =? 0) eqn:E; zb.
  - subst incr. exists a. split; [by rewrite (find_desc_split _ _ _ _ _ Hf)|]. split; [done|].
    eapply list.Forall2_impl; [exact Hz|]. intros x z [Hx _]. by rewrite Z.add_0_r.
  - destruct (increment_all_spec incr _ zs Hz) as (l' & Hl & Hl'). unfold a_nvals_list in Hl.
    destruct (a_nvals a); [done|rewrite Hl; by eexists|rewrite Hl; by eexists].
Qed.

(** ** Concrete entries *)

Lemma bytes_wf l :
  StronglySorted (cmp_lt ber_bvcmp) (kw <$> l) -> l <> [] -> Z.of_nat (length l) < 2 ^ 31 -> attr_wf ber_bvcmp (bytes_attr l).
Proof.
  intros Hs Hne Hl. split; try done.
  - exists bytes_mr. by split_and!.
  - destruct l as [|x l]; [done|]. by exists (kw x), (kw <$> l).
  - unfold a_numvals, a_vals_list. cbn. by rewrite length_fmap.
  - by apply sorted_no_equal; [apply ber_bvcmp_comparison|].
Qed.

Definition other_attr : Attribute := mkAttr (mkAD 2 bytes_at) (Some [kw "z"]) NSame true.
Definition bytes_entry (l : list String.string) : list Attribute := [other_attr; bytes_attr l].
Definition bytes_mod (l : list String.string) : Modification := mkMod (mkAD 1 bytes_at) (Some (kw <$> l)) None.

Lemma bytes_fits l new :
  StronglySorted (cmp_lt ber_bvcmp) (kw <$> l) -> l <> [] -> Z.of_nat (length l) < 2 ^ 31 ->
  mod_fits ber_bvcmp (bytes_entry l) (bytes_mod new) [other_attr] (bytes_attr l) [] (kw <$> new).
Proof. intros. split; try done. by apply bytes_wf. Qed.

Lemma modify_add_correct_witness :
  let e := bytes_entry ["b"; "aa"; "ccc"]%string in
  let m := bytes_mod ["ab"; "aa"; "d"]%string in
  let oc := mkAD 9 bytes_at in
  modify_add_values true oc e m true = Some (LDAP_SUCCESS, bytes_entry ["b"; "d"; "aa"; "ab"; "ccc"]%string) /\
  modify_add_values true oc e m false = Some (LDAP_TYPE_OR_VALUE_EXISTS, e) /\
  exists rc e', modify_add_values true oc e m true = Some (rc, e') /\ rc = LDAP_SUCCESS.
Proof.
  intros e m oc. split; [vm_compute; reflexivity|]. split; [vm_compute; reflexivity|].
  destruct (modify_add_correct ber_bvcmp true oc e m true [other_attr] (bytes_attr ["b"; "aa"; "ccc"]%string) []
    (kw <$> ["ab"; "aa"; "d"]%string)) as (rc & e' & He & Hrc & _).
  - apply bytes_fits; [repeat constructor|done|done].
  - intros [|[|[|i]]] [|[|[|j]]] v w [= <-] [= <-] Hij; (done || (intros E; vm_compute in E; discriminate E)).
  - done.
  - exists rc, e'. split; [exact He|exact Hrc].
Defined.

Lemma modify_delete_correct_witness :
  let e := bytes_entry ["b"; "aa"; "ccc"]%string in
  let m := bytes_mod ["aa"; "b"; "aa"]%string in
  let oc := mkAD 9 bytes_at in
  modify_delete_values oc e m false = Some (LDAP_SUCCESS, bytes_entry ["ccc"]%string) /\
  exists rc e', modify_delete_values oc e m false = Some (rc, e') /\ rc = LDAP_SUCCESS.
Proof.
  intros e m oc. split; [vm_compute; reflexivity|].
  destruct (modify_delete_correct ber_bvcmp oc e m false [other_attr] (bytes_attr ["b"; "aa"; "ccc"]%string) []
    (kw <$> ["aa"; "b"; "aa"]%string)) as (rc & e' & He & Hrc & _).
  - apply bytes_fits; [repeat constructor|done|done].
  - exists rc, e'. split; [exact He|exact Hrc].
Defined.

(** Permissive, a missing value is no error, unless it is the last one: then the
    others are deleted all the same, and the code is [LDAP_NO_SUCH_ATTRIBUTE]. *)
Theorem permissive_delete_last_missing :
  let e := bytes_entry ["b"; "aa"]%string in
  let oc := mkAD 9 bytes_at in
  modify_delete_values oc e (bytes_mod ["x"; "b"]%string) true = Some (LDAP_SUCCESS, bytes_entry ["aa"]%string) /\
  modify_delete_values oc e (bytes_mod ["b"; "x"]%string) true = Some (LDAP_NO_SUCH_ATTRIBUTE, bytes_entry ["aa"]%string).
Proof. by vm_compute. Qed.
