(* ===== verification/FilterEntry.v ===== *)
(** * Testing a filter against an entry (servers/slapd/filterentry.c)

    The parts of the server that the tests ask are the interface [Server]: access
    control, the hierarchy of attribute descriptions, the backend's
    [be_has_subordinates], and for extensible matches the validation of asserted
    values and the parsing of DNs. Component matching ([LDAP_COMP_MATCH]) is not
    compiled in. *)

From S2P Require Import Prelude Text Attr.
From Stdlib Require Import Ascii String.

Local Open Scope Z_scope.

Definition SLAPD_COMPARE_UNDEFINED : Z := -1.
Definition LDAP_PROTOCOL_ERROR : Z := 2.
Definition LDAP_FILTER_EQUALITY : Z := 0xa3.
Definition LDAP_FILTER_GE : Z := 0xa5.
Definition LDAP_FILTER_LE : Z := 0xa6.
Definition LDAP_FILTER_APPROX : Z := 0xa8.

Record Entry := mkEntry { e_name : text; e_nname : text; e_attrs : list Attribute }.

Record AttributeAssertion := mkAva { aa_desc : AttributeDescription; aa_value : berval }.

Record MatchingRuleAssertion := mkMra {
  ma_rule : MatchingRule;
  ma_desc : option AttributeDescription;
  ma_dnattrs : bool;
  ma_value : berval }.

(** [bool]: [SLAPD_FILTER_UNDEFINED] in [f_choice]. *)
Inductive Filter :=
| mkFilter (undefined : bool) (c : fchoice)
with fchoice :=
| Computed (f_result : Z)
| Equality (ava : AttributeAssertion)
| Substrings (desc : AttributeDescription) (sub : asserted)
| Ge (ava : AttributeAssertion)
| Le (ava : AttributeAssertion)
| Present (desc : AttributeDescription)
| Approx (ava : AttributeAssertion)
| And (flist : list Filter)
| Or (flist : list Filter)
| Not (f : Filter)
| Ext (mra : MatchingRuleAssertion)
| Unknown (choice : Z).

Class Server := {
  access_allowed : Entry -> AttributeDescription -> option berval -> bool;
  is_ad_subtype : AttributeDescription -> AttributeDescription -> bool;
  si_ad_hasSubordinates : AttributeDescription;
  si_ad_entryDN : AttributeDescription;
  si_ad_subschemaSubentry : AttributeDescription;
  (** no function, or an error, or whether there are subordinates *)
  be_has_subordinates : option (Entry -> option Z);
  mr_usable_with_at : MatchingRule -> AttributeType -> bool;
  asserted_value_validate_normalize : AttributeDescription -> MatchingRule -> Z -> berval -> Z + berval;
  (** the attribute descriptions and values of the AVAs of a DN *)
  dnPrettyDN : text -> option (list (AttributeDescription * berval));
}.

Section Test.
Context `{Server}.

(** The attributes that [attrs_find] stops at, one after the other. *)
Definition attrs_of (e : Entry) (desc : AttributeDescription) : list Attribute :=
  filter (fun a => is_ad_subtype a.(a_desc) desc = true) e.(e_attrs).

(** The attribute may be looked at: it is the one asked for, which has been
    checked, or access to it is allowed. *)
Definition may_search (e : Entry) (desc : AttributeDescription) (a : Attribute) (v : option berval) : bool :=
  ad_eq desc a.(a_desc) || access_allowed e a.(a_desc) v.

(** ** Presence *)

Fixpoint presence_loop (e : Entry) (desc : AttributeDescription) (l : list Attribute) (rc : Z) : Z :=
  match l with
  | [] => rc
  | a :: l => if may_search e desc a None then LDAP_COMPARE_TRUE
              else presence_loop e desc l LDAP_INSUFFICIENT_ACCESS
  end.

Definition test_presence_filter (e : Entry) (desc : AttributeDescription) : Z :=
  if negb (access_allowed e desc None) then LDAP_INSUFFICIENT_ACCESS else
  if ad_eq desc si_ad_hasSubordinates then
    match be_has_subordinates with Some _ => LDAP_COMPARE_TRUE | None => LDAP_COMPARE_FALSE end
  else if ad_eq desc si_ad_entryDN || ad_eq desc si_ad_subschemaSubentry then LDAP_COMPARE_TRUE
  else presence_loop e desc (attrs_of e desc) LDAP_COMPARE_FALSE.

(** ** Substrings *)

(** The values of one attribute: a match, or the code at the end. *)
Fixpoint substrings_values (mr : MatchingRule) (sub : asserted) (vals : list berval) (rc : Z) : bool * Z :=
  match vals with
  | [] => (false, rc)
  | v :: vals =>
      match value_match mr SLAP_MR_SUBSTR v sub with
      | inl ret => (false, ret)
      | inr m => if m =? 0 then (true, rc) else substrings_values mr sub vals rc
      end
  end.

Fixpoint substrings_loop (e : Entry) (desc : AttributeDescription) (sub : asserted) (l : list Attribute) (rc : Z) : Z :=
  match l with
  | [] => rc
  | a :: l =>
      if negb (may_search e desc a None) then substrings_loop e desc sub l LDAP_INSUFFICIENT_ACCESS else
      match a.(a_desc).(ad_type).(sat_substr) with
      | None => substrings_loop e desc sub l LDAP_INAPPROPRIATE_MATCHING
      | Some mr =>
          let '(found, rc) := substrings_values mr sub (a_nvals_list a) rc in
          if found : bool then LDAP_COMPARE_TRUE else substrings_loop e desc sub l rc
      end
  end.

Definition test_substrings_filter (e : Entry) (desc : AttributeDescription) (sub : asserted) : Z :=
  if negb (access_allowed e desc None) then LDAP_INSUFFICIENT_ACCESS else
  substrings_loop e desc sub (attrs_of e desc) LDAP_COMPARE_FALSE.

(** ** Attribute value assertions *)

Definition slap_true_bv : berval := kw "TRUE".
Definition slap_false_bv : berval := kw "FALSE".

(** The rule to use, and for what. *)
Definition ava_rule (a : Attribute) (type : Z) : Z * option MatchingRule :=
  let at_ := a.(a_desc).(ad_type) in
  if type =? LDAP_FILTER_APPROX then
    (SLAP_MR_EQUALITY_APPROX, match at_.(sat_approx) with Some mr => Some mr | None => at_.(sat_equality) end)
  else if type =? LDAP_FILTER_EQUALITY then (SLAP_MR_EQUALITY, at_.(sat_equality))
  else if (type =? LDAP_FILTER_GE) || (type =? LDAP_FILTER_LE) then (SLAP_MR_ORDERING, at_.(sat_ordering))
  else (SLAP_MR_EQUALITY, None).

(** Whether the result of a comparison satisfies the assertion. *)
Definition ava_satisfied (type m : Z) : bool :=
  if (type =? LDAP_FILTER_EQUALITY) || (type =? LDAP_FILTER_APPROX) then m =? 0
  else if type =? LDAP_FILTER_GE then m >=? 0
  else if type =? LDAP_FILTER_LE then m <=? 0
  else false.

(** All values, in the order of the attribute: a match, or the code at the end. *)
Fixpoint ava_values (ad : AttributeDescription) (mr : MatchingRule) (use type : Z) (value : berval)
    (vals : list berval) (rc : Z) : bool * Z :=
  match vals with
  | [] => (false, rc)
  | v :: vals =>
      match ordered_value_match ad (Some mr) use v value with
      | inl ret => (false, ret)
      | inr m => if ava_satisfied type m then (true, rc) else ava_values ad mr use type value vals rc
      end
  end.

(** A sorted attribute: [inl] is a return, [inr] the code to go on with. *)
Definition ava_sorted (a : Attribute) (mr : MatchingRule) (use type : Z) (value : berval) (rc : Z)
  : option (Z + Z) :=
  if use =? SLAP_MR_ORDERING then
    let which := if type =? LDAP_FILTER_LE then 0 else Z.of_nat (a_numvals a) - 1 in
    v ← (if which <? 0 then None else a_nvals_list a !! Z.to_nat which);
    match value_match mr use v (AVal value) with
    | inl ret => Some (inl ret)
    | inr m =>
        if ((type =? LDAP_FILTER_LE) && (m <=? 0)) || ((type =? LDAP_FILTER_GE) && (m >=? 0))
        then Some (inl LDAP_COMPARE_TRUE) else Some (inr rc)
    end
  else
    '(ret, _) ← attr_valfind a
       (Z.lor use (Z.lor SLAP_MR_ASSERTED_VALUE_NORMALIZED_MATCH SLAP_MR_ATTRIBUTE_VALUE_NORMALIZED_MATCH)) value;
    if ret =? LDAP_SUCCESS then Some (inl LDAP_COMPARE_TRUE)
    else if negb (ret =? LDAP_NO_SUCH_ATTRIBUTE) then Some (inl ret)
    else Some (inr rc).

(** One attribute: [inl] is a return, [inr] the code to go on with. *)
Definition ava_attr (e : Entry) (ava : AttributeAssertion) (type : Z) (a : Attribute) (rc : Z) : option (Z + Z) :=
  if negb (may_search e ava.(aa_desc) a (Some ava.(aa_value))) then Some (inr LDAP_INSUFFICIENT_ACCESS) else
  let '(use, mr) := ava_rule a type in
  match mr with
  | None => Some (inr LDAP_INAPPROPRIATE_MATCHING)
  | Some mr =>
      if a.(a_sorted) && negb (type =? LDAP_FILTER_APPROX) then ava_sorted a mr use type ava.(aa_value) rc
      else
        let '(found, rc) := ava_values a.(a_desc) mr use type ava.(aa_value) (a_nvals_list a) rc in
        Some (if found : bool then inl LDAP_COMPARE_TRUE else inr rc)
  end.

Fixpoint ava_loop (e : Entry) (ava : AttributeAssertion) (type : Z) (l : list Attribute) (rc : Z) : option Z :=
  match l with
  | [] => Some rc
  | a :: l =>
      r ← ava_attr e ava type a rc;
      match r with inl ret => Some ret | inr rc => ava_loop e ava type l rc end
  end.

Definition test_ava_filter (e : Entry) (ava : AttributeAssertion) (type : Z) : option Z :=
  if negb (access_allowed e ava.(aa_desc) (Some ava.(aa_value))) then Some LDAP_INSUFFICIENT_ACCESS else
  let equality := (type =? LDAP_FILTER_EQUALITY) || (type =? LDAP_FILTER_APPROX) in
  match (if ad_eq ava.(aa_desc) si_ad_hasSubordinates then be_has_subordinates else None) with
  | Some f =>
      if negb equality then Some LDAP_INAPPROPRIATE_MATCHING else
      match f e with
      | None => Some LDAP_OTHER
      | Some hs =>
          if hs =? LDAP_COMPARE_TRUE then
            Some (if bool_decide (ava.(aa_value) = slap_true_bv) then LDAP_COMPARE_TRUE else LDAP_COMPARE_FALSE)
          else if hs =? LDAP_COMPARE_FALSE then
            Some (if bool_decide (ava.(aa_value) = slap_false_bv) then LDAP_COMPARE_TRUE else LDAP_COMPARE_FALSE)
          else Some LDAP_OTHER
      end
  | None =>
      if ad_eq ava.(aa_desc) si_ad_entryDN then
        if negb equality then Some LDAP_INAPPROPRIATE_MATCHING else
        mr ← si_ad_entryDN.(ad_type).(sat_equality);
        match value_match mr SLAP_MR_EXT e.(e_nname) (AVal ava.(aa_value)) with
        | inl rc => Some rc
        | inr m => Some (if m =? 0 then LDAP_COMPARE_TRUE else LDAP_COMPARE_FALSE)
        end
      else ava_loop e ava type (attrs_of e ava.(aa_desc)) LDAP_COMPARE_FALSE
  end.

(** ** Extensible matches *)

Definition mr_eq (a : MatchingRule) (b : option MatchingRule) : bool :=
  match b with Some b => a.(mr_id) =? b.(mr_id) | None => false end.

(** The values of one attribute: nothing when none matches, or the code. *)
Fixpoint mra_values (rule : MatchingRule) (normalize : bool) (value : berval) (vals : list berval) : option Z :=
  match vals with
  | [] => None
  | v :: vals =>
      let nbv := match (if normalize then rule.(smr_normalize) else None) with
                 | Some norm => norm SLAP_MR_VALUE_OF_ATTRIBUTE_SYNTAX v
                 | None => inr v
                 end in
      match nbv with
      | inl _ => mra_values rule normalize value vals
      | inr nbv =>
          match value_match rule SLAP_MR_EXT nbv (AVal value) with
          | inl rc => Some rc
          | inr m => if m =? 0 then Some LDAP_COMPARE_TRUE else mra_values rule normalize value vals
          end
      end
  end.

(** The normalised values serve only the attribute's own equality rule. *)
Definition mra_attr (rule : MatchingRule) (a : Attribute) (value : berval) : option Z :=
  if mr_eq rule a.(a_desc).(ad_type).(sat_equality) then mra_values rule false value (a_nvals_list a)
  else mra_values rule true value (a_vals_list a).

(** With a description: no access check for the attributes of subtypes. *)
Fixpoint mra_loop (rule : MatchingRule) (value : berval) (l : list Attribute) : option Z :=
  match l with
  | [] => None
  | a :: l => match mra_attr rule a value with Some rc => Some rc | None => mra_loop rule value l end
  end.

Definition mra_flags : Z := Z.lor SLAP_MR_EXT SLAP_MR_VALUE_OF_ASSERTION_SYNTAX.

(** The asserted value for a description of the entry, when it can be used. *)
Definition mra_usable (e : Entry) (mra : MatchingRuleAssertion) (ad : AttributeDescription) : option berval :=
  if negb (mr_usable_with_at mra.(ma_rule) ad.(ad_type)) then None else
  match asserted_value_validate_normalize ad mra.(ma_rule) mra_flags mra.(ma_value) with
  | inl _ => None
  | inr value => if access_allowed e ad (Some value) then Some value else None
  end.

Fixpoint mra_all (e : Entry) (mra : MatchingRuleAssertion) (l : list Attribute) : option Z :=
  match l with
  | [] => None
  | a :: l =>
      match mra_usable e mra a.(a_desc) with
      | None => mra_all e mra l
      | Some value =>
          match mra_attr mra.(ma_rule) a value with Some rc => Some rc | None => mra_all e mra l end
      end
  end.

Fixpoint mra_dn (e : Entry) (mra : MatchingRuleAssertion) (avas : list (AttributeDescription * berval)) : option Z :=
  match avas with
  | [] => None
  | (ad, bv) :: avas =>
      let value :=
        match mra.(ma_desc) with
        | Some desc => if is_ad_subtype ad desc then Some mra.(ma_value) else None
        | None => mra_usable e mra ad
        end in
      match value with
      | None => mra_dn e mra avas
      | Some value =>
          match mra_values mra.(ma_rule) true value [bv] with Some rc => Some rc | None => mra_dn e mra avas end
      end
  end.

Definition test_mra_filter (e : Entry) (mra : MatchingRuleAssertion) : Z :=
  let dnattrs :=
    if mra.(ma_dnattrs) && match e.(e_nname) with [] => false | _ => true end then
      match dnPrettyDN e.(e_name) with
      | None => LDAP_INVALID_SYNTAX
      | Some avas => match mra_dn e mra avas with Some rc => rc | None => LDAP_COMPARE_FALSE end
      end
    else LDAP_COMPARE_FALSE in
  match mra.(ma_desc) with
  | Some desc =>
      if negb (access_allowed e desc (Some mra.(ma_value))) then LDAP_INSUFFICIENT_ACCESS else
      if ad_eq desc si_ad_entryDN then
        match value_match mra.(ma_rule) SLAP_MR_EXT e.(e_nname) (AVal mra.(ma_value)) with
        | inl rc => rc
        | inr m => if m =? 0 then LDAP_COMPARE_TRUE else LDAP_COMPARE_FALSE
        end
      else match mra_loop mra.(ma_rule) mra.(ma_value) (attrs_of e desc) with Some rc => rc | None => dnattrs end
  | None => match mra_all e mra e.(e_attrs) with Some rc => rc | None => dnattrs end
  end.

(** ** Filters *)

Definition test_filter_and (test_filter : Filter -> option Z) : list Filter -> Z -> option Z :=
  fix go (flist : list Filter) (rtn : Z) : option Z :=
    match flist with
    | [] => Some rtn
    | f :: flist =>
        rc ← test_filter f;
        if rc =? LDAP_COMPARE_FALSE then Some rc
        else go flist (if negb (rc =? LDAP_COMPARE_TRUE) then rc else rtn)
    end.

Definition test_filter_or (test_filter : Filter -> option Z) : list Filter -> Z -> option Z :=
  fix go (flist : list Filter) (rtn : Z) : option Z :=
    match flist with
    | [] => Some rtn
    | f :: flist =>
        rc ← test_filter f;
        if rc =? LDAP_COMPARE_TRUE then Some rc
        else go flist (if negb (rc =? LDAP_COMPARE_FALSE) then rc else rtn)
    end.

Fixpoint test_filter (e : Entry) (f : Filter) : option Z :=
  let 'mkFilter undefined c := f in
  if undefined then Some SLAPD_COMPARE_UNDEFINED else
  match c with
  | Computed rc => Some rc
  | Equality ava => test_ava_filter e ava LDAP_FILTER_EQUALITY
  | Substrings desc sub => Some (test_substrings_filter e desc sub)
  | Ge ava => test_ava_filter e ava LDAP_FILTER_GE
  | Le ava => test_ava_filter e ava LDAP_FILTER_LE
  | Present desc => Some (test_presence_filter e desc)
  | Approx ava => test_ava_filter e ava LDAP_FILTER_APPROX
  | And flist => test_filter_and (test_filter e) flist LDAP_COMPARE_TRUE
  | Or flist => test_filter_or (test_filter e) flist LDAP_COMPARE_FALSE
  | Not f =>
      rc ← test_filter e f;
      Some (if rc =? LDAP_COMPARE_TRUE then LDAP_COMPARE_FALSE
            else if rc =? LDAP_COMPARE_FALSE then LDAP_COMPARE_TRUE else rc)
  | Ext mra => Some (test_mra_filter e mra)
  | Unknown _ => Some LDAP_PROTOCOL_ERROR
  end.
End Test.
