(* ===== verification/FilterTheorems.v ===== *)
(** * Filters: three-valued logic, access control, sorted attributes *)

From Stdlib Require Import Ascii String.
From S2P Require Import Prelude Text Order Attr AttrTheorems FilterEntry.

Local Open Scope Z_scope.
Local Abbreviation length := List.length.

(** ** Induction on filters *)

Definition is_leaf (c : fchoice) : bool := match c with And _ | Or _ | Not _ => false | _ => true end.

Section Induction.
Context (P : Filter -> Prop).
Context (Hleaf : forall u c, is_leaf c = true -> P (mkFilter u c)).
Context (Hand : forall u l, Forall P l -> P (mkFilter u (And l))).
Context (Hor : forall u l, Forall P l -> P (mkFilter u (Or l))).
Context (Hnot : forall u f, P f -> P (mkFilter u (Not f))).

Fixpoint filter_induction (f : Filter) : P f :=
  let fix all (l : list Filter) : Forall P l :=
    match l with
    | [] => Forall_nil P
    | f :: l => Forall_cons P f l (filter_induction f) (all l)
    end in
  match f with
  | mkFilter u c =>
      match c as c return P (mkFilter u c) with
      | And l => Hand u l (all l)
      | Or l => Hor u l (all l)
      | Not f => Hnot u f (filter_induction f)
      | Computed r => Hleaf u (Computed r) eq_refl
      | Equality v => Hleaf u (Equality v) eq_refl
      | Substrings d b => Hleaf u (Substrings d b) eq_refl
      | Ge v => Hleaf u (Ge v) eq_refl
      | Le v => Hleaf u (Le v) eq_refl
      | Present d => Hleaf u (Present d) eq_refl
      | Approx v => Hleaf u (Approx v) eq_refl
      | Ext m => Hleaf u (Ext m) eq_refl
      | Unknown n => Hleaf u (Unknown n) eq_refl
      end
  end.
End Induction.

(** The assertions that a filter is made of. *)
Fixpoint filter_leaves (f : Filter) : list fchoice :=
  let 'mkFilter undefined c := f in
  if undefined then [] else
  match c with
  | And l | Or l => flat_map filter_leaves l
  | Not f => filter_leaves f
  | c => [c]
  end.

Lemma leaves_in (l : list Filter) (f : Filter) (P : fchoice -> Prop) :
  (forall c, c ∈ flat_map filter_leaves l -> P c) -> f ∈ l -> forall c, c ∈ filter_leaves f -> P c.
Proof.
  intros HP Hf c Hc. apply HP. apply list_elem_of_In, in_flat_map. exists f. by rewrite <- !list_elem_of_In.
Qed.

(** ** Kleene's logic *)

Inductive truth := True_ | False_ | Undefined.

Definition truth_and (a b : truth) : truth :=
  match a, b with False_, _ | _, False_ => False_ | True_, True_ => True_ | _, _ => Undefined end.
Definition truth_or (a b : truth) : truth :=
  match a, b with True_, _ | _, True_ => True_ | False_, False_ => False_ | _, _ => Undefined end.
Definition truth_not (a : truth) : truth :=
  match a with True_ => False_ | False_ => True_ | Undefined => Undefined end.

Definition truth_of (rc : Z) : truth :=
  if rc =? LDAP_COMPARE_TRUE then True_ else if rc =? LDAP_COMPARE_FALSE then False_ else Undefined.

(** The value of a filter, given those of its assertions (RFC 4511, 4.5.1.7). *)
Fixpoint filter_truth (leaf : fchoice -> truth) (f : Filter) : truth :=
  let 'mkFilter undefined c := f in
  if undefined then Undefined else
  match c with
  | And l => fold_right truth_and True_ (map (filter_truth leaf) l)
  | Or l => fold_right truth_or False_ (map (filter_truth leaf) l)
  | Not f => truth_not (filter_truth leaf f)
  | c => leaf c
  end.

Lemma truth_true rc : (rc =? LDAP_COMPARE_TRUE) = match truth_of rc with True_ => true | _ => false end.
Proof. unfold truth_of. by destruct (rc =? LDAP_COMPARE_TRUE), (rc =? LDAP_COMPARE_FALSE). Qed.

Lemma truth_false rc : (rc =? LDAP_COMPARE_FALSE) = match truth_of rc with False_ => true | _ => false end.
Proof.
  unfold truth_of. destruct (rc =? LDAP_COMPARE_TRUE) eqn:E; zb; [by subst rc|]. by destruct (rc =? LDAP_COMPARE_FALSE).
Qed.

(** The loops over the elements of a conjunction and of a disjunction, for a test
    and the value it stands for. *)
Section Loops.
Context (test : Filter -> option Z) (ev : Filter -> truth).

Lemma and_loop l rtn :
  (forall f, f ∈ l -> exists rc, test f = Some rc /\ truth_of rc = ev f) -> truth_of rtn <> False_ ->
  exists rc, test_filter_and test l rtn = Some rc /\
    truth_of rc = truth_and (truth_of rtn) (fold_right truth_and True_ (map ev l)).
Proof.
  revert rtn. induction l as [|f l IH]; intros rtn Hl Hr; simpl.
  { exists rtn. split; [done|]. by destruct (truth_of rtn). }
  destruct (Hl f) as (rc & -> & <-); [left|]. cbn [mbind option_bind]. rewrite truth_false, truth_true.
  destruct (truth_of rc) eqn:E; cbn [negb].
  2: { exists rc. split; [done|]. rewrite E. by destruct (truth_of rtn). }
  all: edestruct IH as (rc' & -> & Hrc); [by intros; apply Hl; right|by rewrite ?E|]; exists rc'; split; [done|].
  all: rewrite Hrc, ?E; by destruct (truth_of rtn), (fold_right _ _ _).
Qed.

Lemma or_loop l rtn :
  (forall f, f ∈ l -> exists rc, test f = Some rc /\ truth_of rc = ev f) -> truth_of rtn <> True_ ->
  exists rc, test_filter_or test l rtn = Some rc /\
    truth_of rc = truth_or (truth_of rtn) (fold_right truth_or False_ (map ev l)).
Proof.
  revert rtn. induction l as [|f l IH]; intros rtn Hl Hr; simpl.
  { exists rtn. split; [done|]. by destruct (truth_of rtn). }
  destruct (Hl f) as (rc & -> & <-); [left|]. cbn [mbind option_bind]. rewrite truth_true, truth_false.
  destruct (truth_of rc) eqn:E; cbn [negb].
  1: { exists rc. split; [done|]. rewrite E. by destruct (truth_of rtn). }
  all: edestruct IH as (rc' & -> & Hrc); [by intros; apply Hl; right|by rewrite ?E|]; exists rc'; split; [done|].
  all: rewrite Hrc, ?E; by destruct (truth_of rtn), (fold_right _ _ _).
Qed.
End Loops.

Section Filters.
Context `{Server}.

(** The value of one assertion. *)
Definition leaf_truth (e : Entry) (c : fchoice) : truth :=
  from_option truth_of Undefined (test_filter e (mkFilter false c)).

(** C10: [test_filter] computes Kleene's three-valued logic over the values of the
    assertions, as RFC 4511 asks, whatever codes stand for an undefined value:
    a conjunction is false when any element is, whether or not others are
    undefined, and the negation of undefined is undefined. *)
Theorem test_filter_kleene e f :
  (forall c, c ∈ filter_leaves f -> is_Some (test_filter e (mkFilter false c))) ->
  exists rc, test_filter e f = Some rc /\ truth_of rc = filter_truth (leaf_truth e) f.
Proof.
  induction f as [u c Hc|u l IH|u l IH|u f IH] using filter_induction; intros Hleaf; destruct u; try (by eexists).
  - destruct (Hleaf c) as [rc Hrc]; [destruct c; try done; left|]. exists rc. split; [done|].
    assert (filter_truth (leaf_truth e) (mkFilter false c) = leaf_truth e c) as -> by (by destruct c).
    unfold leaf_truth. by rewrite Hrc.
  - rewrite list.Forall_forall in IH. edestruct (and_loop (test_filter e) (filter_truth (leaf_truth e)) l LDAP_COMPARE_TRUE)
      as (rc & Hrc & Ht); [|done|].
    { intros f Hf. apply IH; [done|]. by apply (leaves_in l). }
    exists rc. split; [exact Hrc|]. rewrite Ht. cbn. by destruct (fold_right _ _ _).
  - rewrite list.Forall_forall in IH. edestruct (or_loop (test_filter e) (filter_truth (leaf_truth e)) l LDAP_COMPARE_FALSE)
      as (rc & Hrc & Ht); [|done|].
    { intros f Hf. apply IH; [done|]. by apply (leaves_in l). }
    exists rc. split; [exact Hrc|]. rewrite Ht. cbn. by destruct (fold_right _ _ _).
  - destruct IH as (rc & Hrc & Ht); [done|]. eexists. split; [cbn; by rewrite Hrc|]. cbn. rewrite <- Ht, truth_true, truth_false.
    by destruct (truth_of rc) eqn:E; cbn; rewrite ?E.
Qed.

(** ** Entries that give the same results *)

Lemma and_cong (t1 t2 : Filter -> option Z) l rtn :
  (forall f, f ∈ l -> t1 f = t2 f) -> test_filter_and t1 l rtn = test_filter_and t2 l rtn.
Proof.
  revert rtn. induction l as [|f l IH]; intros rtn Hl; [done|]. simpl. rewrite (Hl f) by left.
  destruct (t2 f); [|done]. cbn [mbind option_bind]. case_match; [done|]. apply IH. intros; apply Hl; by right.
Qed.

Lemma or_cong (t1 t2 : Filter -> option Z) l rtn :
  (forall f, f ∈ l -> t1 f = t2 f) -> test_filter_or t1 l rtn = test_filter_or t2 l rtn.
Proof.
  revert rtn. induction l as [|f l IH]; intros rtn Hl; [done|]. simpl. rewrite (Hl f) by left.
  destruct (t2 f); [|done]. cbn [mbind option_bind]. case_match; [done|]. apply IH. intros; apply Hl; by right.
Qed.

Lemma test_filter_cong e1 e2 f :
  (forall c, c ∈ filter_leaves f -> test_filter e1 (mkFilter false c) = test_filter e2 (mkFilter false c)) ->
  test_filter e1 f = test_filter e2 f.
Proof.
  induction f as [u c Hc|u l IH|u l IH|u f IH] using filter_induction; intros Hleaf; destruct u; try done.
  - apply Hleaf. destruct c; try done; left.
  - rewrite list.Forall_forall in IH. apply and_cong. intros f Hf. apply IH; [done|]. by apply (leaves_in l).
  - rewrite list.Forall_forall in IH. apply or_cong. intros f Hf. apply IH; [done|]. by apply (leaves_in l).
  - cbn. by rewrite IH.
Qed.

(** The rest of the server answers alike for both entries. *)
Record alike (e1 e2 : Entry) : Prop := mkAlike {
  al_name : e_name e1 = e_name e2;
  al_nname : e_nname e1 = e_nname e2;
  al_access ad v : access_allowed e1 ad v = access_allowed e2 ad v;
  al_subs f : be_has_subordinates = Some f -> f e1 = f e2 }.

(** The attributes correspond: what a test may look at is the same in both; with
    [ext], also what an extensible match with a description looks at, which does
    not ask for access. *)
Record matches (ext : bool) (e1 e2 : Entry) (a b : Attribute) : Prop := mkMatches {
  ma_same : a_desc a = a_desc b;
  ma_subs desc v w : access_allowed e1 desc v = true -> may_search e1 desc a w = true -> a_nvals_list a = a_nvals_list b;
  ma_ava ava type rc : type ∈ [LDAP_FILTER_EQUALITY; LDAP_FILTER_GE; LDAP_FILTER_LE; LDAP_FILTER_APPROX] ->
    access_allowed e1 ava.(aa_desc) (Some ava.(aa_value)) = true -> ava_attr e1 ava type a rc = ava_attr e2 ava type b rc;
  ma_mra mra value : mra_usable e1 mra (a_desc a) = Some value -> mra_attr mra.(ma_rule) a value = mra_attr mra.(ma_rule) b value;
  ma_typed rule value : ext = true -> mra_attr rule a value = mra_attr rule b value }.

Definition typed_ext (c : fchoice) : bool :=
  match c with Ext mra => match mra.(ma_desc) with Some _ => true | None => false end | _ => false end.

Section Cong.
Context (ext : bool) (e1 e2 : Entry) (Halike : alike e1 e2) (Hattrs : Forall2 (matches ext e1 e2) (e_attrs e1) (e_attrs e2)).

Lemma attrs_match desc : Forall2 (matches ext e1 e2) (attrs_of e1 desc) (attrs_of e2 desc).
Proof using Hattrs.
  unfold attrs_of. induction Hattrs as [|a b l1 l2 Hab Hl IH]; [constructor|].
  rewrite !filter_cons, <- (ma_same _ _ _ _ _ Hab). case_match; [constructor; auto|auto].
Qed.

Lemma search_alike desc a b v : matches ext e1 e2 a b -> may_search e2 desc b v = may_search e1 desc a v.
Proof using Halike. intros Hab. unfold may_search. by rewrite (ma_same _ _ _ _ _ Hab), (al_access _ _ Halike). Qed.

Lemma presence_cong desc : test_presence_filter e1 desc = test_presence_filter e2 desc.
Proof using All.
  unfold test_presence_filter. rewrite (al_access _ _ Halike).
  destruct (negb _); [done|]. destruct (ad_eq _ _); [done|]. destruct (_ || _); [done|].
  generalize LDAP_COMPARE_FALSE. induction (attrs_match desc) as [|a b l1 l2 Hab _ IH]; intros rc; [done|].
  simpl. rewrite (search_alike desc a b) by done. case_match; [done|]. apply IH.
Qed.

Lemma substrings_cong desc sub : test_substrings_filter e1 desc sub = test_substrings_filter e2 desc sub.
Proof using All.
  unfold test_substrings_filter. rewrite <- (al_access _ _ Halike). destruct (access_allowed e1 desc None) eqn:Ha; [simpl|done].
  generalize LDAP_COMPARE_FALSE. induction (attrs_match desc) as [|a b l1 l2 Hab _ IH]; intros rc; [done|].
  simpl. rewrite (search_alike desc a b) by done. destruct (may_search e1 desc a None) eqn:Hm; simpl; [|apply IH].
  rewrite <- (ma_same _ _ _ _ _ Hab), <- (ma_subs _ _ _ _ _ Hab desc None None) by done.
  destruct (sat_substr _); [|apply IH]. destruct (substrings_values _ _ _ _) as [[] ?]; [done|apply IH].
Qed.

Lemma ava_cong ava type :
  type ∈ [LDAP_FILTER_EQUALITY; LDAP_FILTER_GE; LDAP_FILTER_LE; LDAP_FILTER_APPROX] ->
  test_ava_filter e1 ava type = test_ava_filter e2 ava type.
Proof using All.
  intros Ht. unfold test_ava_filter. rewrite <- (al_access _ _ Halike), <- (al_nname _ _ Halike).
  destruct (access_allowed e1 _ _) eqn:Ha; [simpl|done].
  destruct (if ad_eq _ si_ad_hasSubordinates then be_has_subordinates else None) as [f|] eqn:Hf.
  { rewrite (al_subs _ _ Halike f); [done|]. by destruct (ad_eq _ _). }
  destruct (ad_eq _ si_ad_entryDN); [done|]. generalize LDAP_COMPARE_FALSE.
  induction (attrs_match (aa_desc ava)) as [|a b l1 l2 Hab _ IH]; intros rc; [done|].
  simpl. rewrite (ma_ava _ _ _ _ _ Hab) by done. destruct (ava_attr _ _ _ _ _) as [[?|?]|]; [done|apply IH|done].
Qed.

Lemma usable_alike mra ad : mra_usable e1 mra ad = mra_usable e2 mra ad.
Proof using Halike.
  unfold mra_usable. destruct (negb _); [done|].
  destruct (asserted_value_validate_normalize _ _ _ _); [done|]. by rewrite (al_access _ _ Halike).
Qed.

Lemma mra_dn_cong mra avas : mra_dn e1 mra avas = mra_dn e2 mra avas.
Proof using Halike. induction avas as [|[ad bv] avas IH]; [done|]. simpl. by rewrite usable_alike, IH. Qed.

Lemma mra_cong mra :
  (is_Some mra.(ma_desc) -> ext = true) ->
  test_mra_filter e1 mra = test_mra_filter e2 mra.
Proof using All.
  intros Htyped. unfold test_mra_filter. rewrite <- (al_nname _ _ Halike), <- (al_name _ _ Halike).
  destruct (ma_desc mra) as [desc|] eqn:Hd.
  - rewrite <- (al_access _ _ Halike). destruct (negb _); [done|]. destruct (ad_eq _ _); [done|].
    enough (mra_loop (ma_rule mra) (ma_value mra) (attrs_of e1 desc) = mra_loop (ma_rule mra) (ma_value mra) (attrs_of e2 desc)) as ->.
    { by destruct (dnPrettyDN _) as [avas|]; [rewrite mra_dn_cong|]. }
    induction (attrs_match desc) as [|a b l1 l2 Hab _ IH]; [done|]. simpl. rewrite (ma_typed _ _ _ _ _ Hab) by eauto. by rewrite IH.
  - enough (mra_all e1 mra (e_attrs e1) = mra_all e2 mra (e_attrs e2)) as ->.
    { by destruct (dnPrettyDN _) as [avas|]; [rewrite mra_dn_cong|]. }
    induction Hattrs as [|a b l1 l2 Hab Hl IH]; [done|]. specialize (IH Hl). simpl. rewrite <- usable_alike, <- (ma_same _ _ _ _ _ Hab).
    destruct (mra_usable e1 mra (a_desc a)) as [value|] eqn:Hu; [|done].
    rewrite (ma_mra _ _ _ _ _ Hab mra value) by done. by rewrite IH.
Qed.

Lemma leaf_cong c :
  (typed_ext c = true -> ext = true) ->
  is_leaf c = true -> test_filter e1 (mkFilter false c) = test_filter e2 (mkFilter false c).
Proof using All.
  intros Hext Hc. destruct c; try done; cbn [test_filter].
  all: try (apply ava_cong; repeat (left || right)).
  - by rewrite substrings_cong.
  - by rewrite presence_cong.
  - rewrite mra_cong; [done|]. intros [d Hd]. apply Hext. cbn. by rewrite Hd.
Qed.
End Cong.

Lemma leaves_are_leaves f c : c ∈ filter_leaves f -> is_leaf c = true.
Proof.
  revert c. induction f as [u d Hd|u l IH|u l IH|u f IH] using filter_induction; intros c; destruct u; cbn;
    try (by intros ?%not_elem_of_nil).
  - destruct d; try done; by intros ->%list_elem_of_singleton.
  - rewrite list.Forall_forall in IH. intros (f & Hf & Hc)%list_elem_of_In%in_flat_map.
    apply (IH f); by apply list_elem_of_In.
  - rewrite list.Forall_forall in IH. intros (f & Hf & Hc)%list_elem_of_In%in_flat_map.
    apply (IH f); by apply list_elem_of_In.
  - apply IH.
Qed.

Lemma filter_cong ext e1 e2 f :
  alike e1 e2 -> Forall2 (matches ext e1 e2) (e_attrs e1) (e_attrs e2) ->
  (forall c, c ∈ filter_leaves f -> typed_ext c = true -> ext = true) -> test_filter e1 f = test_filter e2 f.
Proof.
  intros Ha Hm Hext. apply test_filter_cong. intros c Hc. apply (leaf_cong ext); [done..|by apply Hext|by apply (leaves_are_leaves f)].
Qed.

(** ** Access control *)

(** No search access to the description, for any value. *)
Definition hidden (e : Entry) (ad : AttributeDescription) : Prop :=
  forall ad' v, ad_eq ad' ad = true -> access_allowed e ad' v = false.

Lemma hidden_unsearchable e a desc v w :
  hidden e (a_desc a) -> access_allowed e desc v = true -> may_search e desc a w = false.
Proof.
  intros Hh Ha. unfold may_search. rewrite (Hh (a_desc a) w) by apply Z.eqb_refl.
  destruct (ad_eq desc (a_desc a)) eqn:E; [|done]. by rewrite Hh in Ha.
Qed.

(** The same attribute, or one that is hidden. *)
Definition same_visible (e : Entry) (a b : Attribute) : Prop :=
  a = b \/ (a_desc a = a_desc b /\ hidden e (a_desc a)).

Lemma visible_matches e1 e2 a b : alike e1 e2 -> same_visible e1 a b -> matches false e1 e2 a b.
Proof.
  intros Ha [<- |[Hd Hh]].
  - split; try done. intros ava type rc _ _. unfold ava_attr, may_search. by rewrite (al_access _ _ Ha).
  - split; try done.
    + intros desc v w H1 H2. by rewrite (hidden_unsearchable e1 a desc v w) in H2.
    + intros ava type rc _ Hacc. unfold ava_attr. rewrite (hidden_unsearchable e1 a _ _ _ Hh Hacc).
      assert (hidden e2 (a_desc b)) as Hh2 by (rewrite <- Hd; intros ad' v E; rewrite <- (al_access _ _ Ha); by apply Hh).
      rewrite (al_access _ _ Ha) in Hacc. by rewrite (hidden_unsearchable e2 b _ _ _ Hh2 Hacc).
    + intros mra value Hu. unfold mra_usable in Hu. destruct (negb _); [done|].
      destruct (asserted_value_validate_normalize _ _ _ _); [done|]. by rewrite Hh in Hu by apply Z.eqb_refl.
Qed.

(** C12: the values of an attribute that the client may not search have no
    influence on what a filter gives, so that nobody can find them out by
    asking; filters with an extensible match that names an attribute
    description are excepted. *)
Theorem hidden_values_secret e1 e2 f :
  alike e1 e2 -> Forall2 (same_visible e1) (e_attrs e1) (e_attrs e2) ->
  (forall c, c ∈ filter_leaves f -> typed_ext c = false) -> test_filter e1 f = test_filter e2 f.
Proof.
  intros Ha Hv Hext. apply (filter_cong false); [done| |].
  - eapply list.Forall2_impl; [exact Hv|]. intros a b Hab. by apply visible_matches.
  - intros c Hc. by rewrite Hext.
Qed.

(** ** Sorted attributes *)

Definition unsorted (a : Attribute) : Attribute := mkAttr a.(a_desc) a.(a_vals) a.(a_nvals) false.
Definition unsorted_entry (e : Entry) : Entry := mkEntry e.(e_name) e.(e_nname) (unsorted <$> e.(e_attrs)).

(** What the search of a sorted attribute relies on: its values are in the order
    of its equality rule, and its ordering rule, if it has one, agrees. *)
Record sortable (a : Attribute) (fcmp : berval -> berval -> Z) : Prop := mkSortable {
  so_sorted : sorted_attr a fcmp;
  so_some : a_nvals_list a <> [];
  so_plain : a.(a_desc).(ad_type).(sat_ordered) = false;
  so_equality : exists mr, a.(a_desc).(ad_type).(sat_equality) = Some mr /\ forall flags, compares mr flags fcmp;
  so_ordering mr : a.(a_desc).(ad_type).(sat_ordering) = Some mr ->
    exists ocmp, compares mr SLAP_MR_ORDERING ocmp /\ forall x y, Z.sgn (ocmp x y) = Z.sgn (fcmp x y) }.

Lemma plain_match ad mr use cmp v x :
  ad.(ad_type).(sat_ordered) = false -> compares mr use cmp -> ordered_value_match ad (Some mr) use v x = inr (cmp v x).
Proof.
  intros Hp Hmr. unfold ordered_value_match. rewrite Hp. destruct (smr_match mr) eqn:E; [apply Hmr|].
  pose proof (Hmr v x) as Hv. unfold value_match in Hv. by rewrite E in Hv.
Qed.

Lemma ava_values_spec ad mr use type cmp x l rc :
  ad.(ad_type).(sat_ordered) = false -> compares mr use cmp ->
  ava_values ad mr use type x l rc = (existsb (fun v => ava_satisfied type (cmp v x)) l, rc).
Proof.
  intros Hp Hmr. induction l as [|v l IH]; [done|]. simpl. rewrite (plain_match _ _ _ cmp) by done.
  destruct (ava_satisfied type (cmp v x)); [done|]. by rewrite IH.
Qed.

Lemma satisfied_sgn type m m' : Z.sgn m = Z.sgn m' -> ava_satisfied type m = ava_satisfied type m'.
Proof.
  intros Hs. unfold ava_satisfied.
  assert ((m =? 0) = (m' =? 0)) as -> by (apply Bool.eq_iff_eq_true; rewrite !Z.eqb_eq; lia).
  assert ((m >=? 0) = (m' >=? 0)) as -> by (apply Bool.eq_iff_eq_true; rewrite !Z.geb_le; lia).
  assert ((m <=? 0) = (m' <=? 0)) as -> by (apply Bool.eq_iff_eq_true; rewrite !Z.leb_le; lia).
  done.
Qed.

(** One element decides whether any satisfies. *)
Lemma existsb_decides {A} (p : A -> bool) l v :
  v ∈ l -> (forall u, u ∈ l -> p u = true -> p v = true) -> existsb p l = p v.
Proof.
  intros Hv Hall. apply Bool.eq_iff_eq_true. rewrite existsb_exists. split.
  - intros (u & Hu & Hp). apply (Hall u); [by apply list_elem_of_In|done].
  - intros Hp. exists v. split; [by apply list_elem_of_In|done].
Qed.

Section Sorted.
Context (fcmp : berval -> berval -> Z) `{!Comparison fcmp} (l : list berval) (x : berval).
Context (Hl : StronglySorted (cmp_lt fcmp) l).

Lemma first_least v : l !! 0%nat = Some v -> existsb (fun u => fcmp u x <=? 0) l = (fcmp v x <=? 0).
Proof using All.
  intros Hv. apply (existsb_decides (fun u => fcmp u x <=? 0)); [by eapply list_elem_of_lookup_2|].
  intros u [[|i] Hu]%list_elem_of_lookup Hp; [by simplify_eq|]. zb.
  pose proof (sorted_lookup fcmp l 0 (S i) v u Hl Hv Hu ltac:(lia)). apply Z.leb_le, (cmp_le_trans (fcmp:=fcmp) v u x); lia.
Qed.

Lemma last_greatest v : l !! (length l - 1)%nat = Some v -> existsb (fun u => fcmp u x >=? 0) l = (fcmp v x >=? 0).
Proof using All.
  intros Hv. apply (existsb_decides (fun u => fcmp u x >=? 0)); [by eapply list_elem_of_lookup_2|].
  intros u [i Hu]%list_elem_of_lookup Hp. rewrite Z.geb_leb in *. zb. pose proof (lookup_lt_Some _ _ _ Hu).
  destruct (decide (i = (length l - 1)%nat)) as [-> |]; [simplify_eq; by apply Z.leb_le|].
  pose proof (sorted_lookup fcmp l i (length l - 1) u v Hl Hu Hv ltac:(lia)). apply Z.leb_le.
  pose proof (cmp_swap (fcmp:=fcmp) x u). pose proof (cmp_swap (fcmp:=fcmp) x v). pose proof (cmp_swap (fcmp:=fcmp) u x).
  pose proof (cmp_swap (fcmp:=fcmp) v x). pose proof (cmp_le_trans (fcmp:=fcmp) x u v ltac:(lia) ltac:(lia)). lia.
Qed.

Lemma found_equal rc slot :
  found_or_place fcmp l x rc slot -> existsb (fun u => fcmp u x =? 0) l = (rc =? LDAP_SUCCESS).
Proof.
  intros [(-> & v & Hv & Hc)|(-> & _ & Hlt & Hgt & _)]; apply Bool.eq_iff_eq_true; rewrite existsb_exists.
  - split; [done|]. intros _. exists v. split; [|by apply Z.eqb_eq]. apply list_elem_of_In. by eapply list_elem_of_lookup_2.
  - split; [|done]. intros (u & Hu & Hz). zb. apply list_elem_of_In, list_elem_of_lookup in Hu as [i Hi].
    destruct (decide (i < Z.to_nat slot)%nat); [pose proof (Hlt i u Hi)|pose proof (Hgt i u Hi)]; lia.
Qed.
End Sorted.

Lemma existsb_ext_sgn type (f g : berval -> berval -> Z) x l :
  (forall v, Z.sgn (f v x) = Z.sgn (g v x)) ->
  existsb (fun v => ava_satisfied type (f v x)) l = existsb (fun v => ava_satisfied type (g v x)) l.
Proof. intros Hs. induction l as [|v l IH]; [done|]. simpl. by rewrite (satisfied_sgn _ _ _ (Hs v)), IH. Qed.

(** The search of a sorted attribute gives what a scan of its values gives. *)
Lemma sorted_scan a fcmp `{!Comparison fcmp} mr use type x rc :
  sortable a fcmp -> ava_rule a type = (use, Some mr) ->
  type ∈ [LDAP_FILTER_EQUALITY; LDAP_FILTER_GE; LDAP_FILTER_LE] ->
  ava_sorted a mr use type x rc =
  let '(found, rc) := ava_values a.(a_desc) mr use type x (a_nvals_list a) rc in
  Some (if found : bool then inl LDAP_COMPARE_TRUE else inr rc).
Proof.
  intros [Hs Hne Hp (eq & Heq & Hcmp) Hord] Hrule Ht. pose proof Hs as [_ Hlen _ Ho].
  assert (0 < length (a_nvals_list a))%nat as Hpos by (destruct (a_nvals_list a); [done|simpl; lia]).
  repeat (apply elem_of_cons in Ht as [-> |Ht]); [..|by apply not_elem_of_nil in Ht]; injection Hrule as <- Hmr.
  - assert (mr = eq) as -> by congruence. rewrite (ava_values_spec _ _ _ _ fcmp) by done. unfold ava_sorted. cbn [Z.eqb Pos.eqb SLAP_MR_EQUALITY SLAP_MR_ORDERING].
    edestruct (valfind_sorted a eq) as (ret & slot & -> & Hf); [done..|by left|]. cbn [mbind option_bind].
    change (fun v => ava_satisfied LDAP_FILTER_EQUALITY (fcmp v x)) with (fun v => fcmp v x =? 0).
    rewrite (found_equal fcmp _ _ _ _ Hf). by destruct Hf as [(-> & _)|(-> & _)].
  - destruct (Hord mr Hmr) as (ocmp & Hocmp & Hsgn). rewrite (ava_values_spec _ _ _ _ ocmp) by done.
    rewrite (existsb_ext_sgn _ ocmp fcmp) by done.
    change (fun v => ava_satisfied LDAP_FILTER_GE (fcmp v x)) with (fun v => fcmp v x >=? 0).
    destruct (lookup_lt_is_Some_2 (a_nvals_list a) (length (a_nvals_list a) - 1)) as [v Hv]; [lia|].
    rewrite (last_greatest fcmp _ x Ho v Hv). unfold ava_sorted.
    change (SLAP_MR_ORDERING =? SLAP_MR_ORDERING) with true. change (LDAP_FILTER_GE =? LDAP_FILTER_LE) with false.
    change (LDAP_FILTER_GE =? LDAP_FILTER_GE) with true. cbn [andb orb].
    rewrite (proj2 (Z.ltb_ge _ _)) by lia. replace (Z.to_nat _) with (length (a_nvals_list a) - 1)%nat by lia.
    rewrite Hv. cbn [mbind option_bind]. rewrite Hocmp. pose proof (Hsgn v x).
    destruct (ocmp v x >=? 0) eqn:E1, (fcmp v x >=? 0) eqn:E2; rewrite Z.geb_leb in *; zb; (done || lia).
  - destruct (Hord mr Hmr) as (ocmp & Hocmp & Hsgn). rewrite (ava_values_spec _ _ _ _ ocmp) by done.
    rewrite (existsb_ext_sgn _ ocmp fcmp) by done.
    change (fun v => ava_satisfied LDAP_FILTER_LE (fcmp v x)) with (fun v => fcmp v x <=? 0).
    destruct (lookup_lt_is_Some_2 (a_nvals_list a) 0) as [v Hv]; [lia|].
    rewrite (first_least fcmp _ x Ho v Hv). unfold ava_sorted.
    change (SLAP_MR_ORDERING =? SLAP_MR_ORDERING) with true. change (LDAP_FILTER_LE =? LDAP_FILTER_LE) with true.
    change (LDAP_FILTER_LE =? LDAP_FILTER_GE) with false. cbn [andb orb Z.ltb Z.compare]. change (Z.to_nat 0) with 0%nat.
    rewrite Hv. cbn [mbind option_bind]. rewrite Hocmp. pose proof (Hsgn v x).
    destruct (ocmp v x <=? 0) eqn:E1, (fcmp v x <=? 0) eqn:E2; zb; (done || lia).
Qed.

(** What the sorted attributes of an entry have to be. *)
Definition well_sorted (e : Entry) : Prop :=
  forall a, a ∈ e_attrs e -> a_sorted a = true -> exists fcmp, Comparison fcmp /\ sortable a fcmp.

Lemma unsorted_matches e a :
  alike e (unsorted_entry e) -> (a_sorted a = true -> exists fcmp, Comparison fcmp /\ sortable a fcmp) ->
  matches true e (unsorted_entry e) a (unsorted a).
Proof.
  intros Ha Hs. split; try done. intros ava type rc Ht _. unfold ava_attr, may_search.
  rewrite <- (al_access _ _ Ha). cbn [a_desc a_sorted unsorted]. destruct (negb _); [done|].
  change (ava_rule (unsorted a) type) with (ava_rule a type).
  destruct (ava_rule a type) as [use [mr|]] eqn:Hr; [|done]. cbn [andb].
  destruct (a_sorted a) eqn:Hsrt; [|done]. destruct (type =? LDAP_FILTER_APPROX) eqn:Hap; [done|]. cbn [negb andb].
  destruct (Hs eq_refl) as (fcmp & Hc & Hso). apply (sorted_scan a fcmp); [done..|]. zb.
  rewrite !elem_of_cons in *. tauto.
Qed.

(** C18: searching sorted attributes, by halving for equality and by one comparison
    with the first or the last value for an ordering, gives every filter the
    same result as looking at all their values; the ordering rule has to agree
    with the order of the equality rule, in which the values are kept. *)
Theorem sorted_filters_agree e f :
  alike e (unsorted_entry e) -> well_sorted e -> test_filter e f = test_filter (unsorted_entry e) f.
Proof.
  intros Ha Hs. apply (filter_cong true); [done| |done]. cbn [e_attrs unsorted_entry]. unfold well_sorted in Hs.
  induction (e_attrs e) as [|a l IH]; [constructor|]. rewrite fmap_cons. constructor.
  - apply unsorted_matches; [done|]. apply Hs. left.
  - apply IH. intros b Hb. apply Hs. by right.
Qed.
End Filters.

(** ** Instances *)

(** A server that keeps description 2, a subtype of description 1, to itself. *)
Definition demo_type : AttributeType :=
  mkAT (Some (mkMR 1 None (Some (fun _ v x => match x with AVal x => inr (octetStringMatch v x) | _ => inl LDAP_OTHER end))))
    None
    (Some (mkMR 2 None (Some (fun fl v x => match x with AVal x => inr (octetStringOrderingMatch fl v x) | _ => inl LDAP_OTHER end))))
    None false false true None None.
Definition demo_ad (n : Z) : AttributeDescription := mkAD n demo_type.

Definition demo_server : Server := {|
  access_allowed _ ad _ := negb (ad_id ad =? 2);
  is_ad_subtype a b := ad_eq a b || ((ad_id a =? 2) && (ad_id b =? 1));
  si_ad_hasSubordinates := demo_ad 100;
  si_ad_entryDN := demo_ad 101;
  si_ad_subschemaSubentry := demo_ad 102;
  be_has_subordinates := None;
  mr_usable_with_at _ _ := true;
  asserted_value_validate_normalize _ _ _ v := inr v;
  dnPrettyDN _ := None |}.

Definition demo_attr (n : Z) (l : list string) (sorted : bool) : Attribute := mkAttr (demo_ad n) (Some (kw <$> l)) NSame sorted.
Definition demo_entry (l : list Attribute) : Entry := mkEntry (kw "cn=x") (kw "cn=x") l.
Definition demo_filter (c : fchoice) : Filter := mkFilter false c.

(** The ordering of values by length first is not that of the ordering rule: the
    sorted values "b", "aa" have nothing below "aa" for the search, and "aa"
    for a scan. *)
Theorem length_order_diverges :
  let f := demo_filter (Le (mkAva (demo_ad 1) (kw "aa"))) in
  let e := demo_entry [demo_attr 1 ["b"; "aa"]%string true] in
  sorted_attr (demo_attr 1 ["b"; "aa"]%string true) octetStringMatch /\
  test_filter (H:=demo_server) e f = Some LDAP_COMPARE_FALSE /\
  test_filter (H:=demo_server) (unsorted_entry e) f = Some LDAP_COMPARE_TRUE.
Proof.
  split; [|by vm_compute]. split; [done..|]. repeat constructor.
Qed.

(** An extensible match with a description tells the values of a hidden subtype. *)
Theorem typed_ext_reveals :
  let f := demo_filter (Ext (mkMra (mkMR 3 None (smr_match bytes_mr)) (Some (demo_ad 1)) false (kw "secret"))) in
  let e s := demo_entry [demo_attr 2 [s] false] in
  hidden (H:=demo_server) (e "secret"%string) (demo_ad 2) /\
  test_filter (H:=demo_server) (e "secret"%string) f = Some LDAP_COMPARE_TRUE /\
  test_filter (H:=demo_server) (e "other"%string) f = Some LDAP_COMPARE_FALSE.
Proof.
  split; [|by vm_compute]. intros ad v E. unfold ad_eq in E. zb. cbn in *. by rewrite E.
Qed.

Lemma test_filter_kleene_witness :
  let e := demo_entry [demo_attr 1 ["b"; "aa"]%string false] in
  let t := demo_filter (Equality (mkAva (demo_ad 1) (kw "b"))) in
  let u := demo_filter (Equality (mkAva (demo_ad 2) (kw "b"))) in
  let f := demo_filter (Or [demo_filter (And [t; u]); demo_filter (Not u); t]) in
  exists rc, test_filter (H:=demo_server) e f = Some rc /\
    truth_of rc = filter_truth (leaf_truth (H:=demo_server) e) f /\ truth_of rc = True_.
Proof.
  intros e t u f. destruct (test_filter_kleene (H:=demo_server) e f) as (rc & H1 & H2).
  - intros c Hc. cbn in Hc. repeat (apply elem_of_cons in Hc as [-> |Hc]; [vm_compute; eauto|]). by apply not_elem_of_nil in Hc.
  - exists rc. split; [exact H1|]. split; [exact H2|]. vm_compute in H1. by injection H1 as <-.
Defined.

Lemma hidden_values_secret_witness :
  let f := demo_filter (Or [demo_filter (Equality (mkAva (demo_ad 1) (kw "x")));
                            demo_filter (Equality (mkAva (demo_ad 1) (kw "y")))]) in
  let e s := demo_entry [demo_attr 2 [s] false; demo_attr 1 ["y"%string] false] in
  test_filter (H:=demo_server) (e "x"%string) f = test_filter (H:=demo_server) (e "z"%string) f.
Proof.
  intros f e. apply (hidden_values_secret (H:=demo_server)).
  - by split.
  - constructor; [right|constructor; [by left|constructor]]. split; [done|].
    intros ad v E. unfold ad_eq in E. zb. cbn in *. by rewrite E.
  - intros c Hc. cbn in Hc. repeat (apply elem_of_cons in Hc as [-> |Hc]; [done|]). by apply not_elem_of_nil in Hc.
Defined.

(** Equality rule and ordering rule are the same. *)
Definition same_type_ad : AttributeDescription :=
  mkAD 1 (mkAT (Some bytes_mr) None (Some bytes_mr) None false false true None None).

Lemma sorted_filters_agree_witness :
  let a := mkAttr same_type_ad (Some (kw <$> ["b"; "aa"; "ccc"]%string)) NSame true in
  let f := demo_filter (And [demo_filter (Le (mkAva same_type_ad (kw "aa"))); demo_filter (Equality (mkAva same_type_ad (kw "ccc")))]) in
  test_filter (H:=demo_server) (demo_entry [a]) f = Some LDAP_COMPARE_TRUE /\
  test_filter (H:=demo_server) (demo_entry [a]) f = test_filter (H:=demo_server) (unsorted_entry (demo_entry [a])) f.
Proof.
  intros a f. split; [by vm_compute|]. apply (sorted_filters_agree (H:=demo_server)).
  - by split.
  - intros b Hb _. cbn in Hb. apply list_elem_of_singleton in Hb as ->. exists ber_bvcmp. split; [apply _|].
    split; try done.
    + split; [done..|]. repeat constructor.
    + exists bytes_mr. split; [done|]. apply bytes_compares.
    + intros mr E. injection E as <-. exists ber_bvcmp. split; [apply bytes_compares|done].
Defined.
