(* ===== verification/Base64.v ===== *)
(** * Base64 (liblutil/base64.c)

    A target is the list of its octets; storing outside it gives [None]. The size
    that the caller states is an argument of its own. *)

From Stdlib Require Import Ascii String.
From S2P Require Import Prelude Text.

Local Open Scope Z_scope.
Local Abbreviation length := List.length.

Definition Base64 : text := kw "ABCDEFGHIJKLMNOPQRSTUVWXYZabcdefghijklmnopqrstuvwxyz0123456789+/".
Definition Pad64 : ascii := "="%char.

(** ** Encoding *)

(** The assertion and the character of a number of six bits. *)
Definition base64_char (output : Z) : option ascii :=
  if output <? 64 then arr_get Base64 output else None.

Definition put_char (target : list Z) (datalength : Z) (c : ascii) : option (list Z * Z) :=
  target ← arr_set target datalength (ascii_code c); Some (target, u64 (datalength + 1)).

(** The end: the terminator and the result. *)
Definition ntop_end (target : list Z) (targsize datalength : Z) : option (Z * list Z) :=
  if datalength >=? targsize then Some (-1, target) else
  target ← arr_set target datalength 0; Some (i32 datalength, target).

Fixpoint ntop_loop (src target : list Z) (targsize datalength : Z) : option (Z * list Z) :=
  match src with
  | input0 :: input1 :: input2 :: src =>
      o0 ← base64_char (Z.shiftr input0 2);
      o1 ← base64_char (u8 (Z.shiftl (Z.land input0 0x03) 4 + Z.shiftr input1 4));
      o2 ← base64_char (u8 (Z.shiftl (Z.land input1 0x0f) 2 + Z.shiftr input2 6));
      o3 ← base64_char (Z.land input2 0x3f);
      if u64 (datalength + 4) >? targsize then Some (-1, target) else
      '(target, datalength) ← put_char target datalength o0;
      '(target, datalength) ← put_char target datalength o1;
      '(target, datalength) ← put_char target datalength o2;
      '(target, datalength) ← put_char target datalength o3;
      ntop_loop src target targsize datalength
  | input0 :: rest =>
      let input1 := match rest with [] => 0 | b :: _ => b end in
      o0 ← base64_char (Z.shiftr input0 2);
      o1 ← base64_char (u8 (Z.shiftl (Z.land input0 0x03) 4 + Z.shiftr input1 4));
      o2 ← base64_char (u8 (Z.shiftl (Z.land input1 0x0f) 2 + Z.shiftr 0 6));
      if u64 (datalength + 4) >? targsize then Some (-1, target) else
      '(target, datalength) ← put_char target datalength o0;
      '(target, datalength) ← put_char target datalength o1;
      '(target, datalength) ← put_char target datalength (match rest with [] => Pad64 | _ => o2 end);
      '(target, datalength) ← put_char target datalength Pad64;
      ntop_end target targsize datalength
  | [] => ntop_end target targsize datalength
  end.

Definition lutil_b64_ntop (src target : list Z) (targsize : Z) : option (Z * list Z) := ntop_loop src target targsize 0.

(** ** Decoding *)

(** [strchr] in the alphabet: the position of a character. *)
Fixpoint strchr (s : text) (ch : ascii) : option Z :=
  match s with [] => None | c :: s => if Ascii.eqb c ch then Some 0 else pos ← strchr s ch; Some (pos + 1) end.

(** The result of a stage: an error or what it leaves, in both cases with the
    target, which may be missing. *)
Abbreviation dest := (option (list Z)).

(** Incrementing an [int]. *)
Definition incr (i : Z) : option Z := if i <? 2 ^ 31 - 1 then Some (i + 1) else None.

(** [target[tarindex] = v] or, for [keep], [target[tarindex] |= v] *)
Definition store (keep : bool) (target : list Z) (i v : Z) : option (list Z) :=
  if keep then o ← arr_get target i; arr_set target i (u8 (Z.lor o v)) else arr_set target i (u8 v).

(** One character of the alphabet; [more] holds the bits for the next octet. *)
Definition digit_bits (state pos : Z) : Z * option Z :=
  if state =? 0 then (Z.shiftl pos 2, None)
  else if state =? 1 then (Z.shiftr pos 4, Some (Z.shiftl (Z.land pos 0x0f) 4))
  else if state =? 2 then (Z.shiftr pos 2, Some (Z.shiftl (Z.land pos 0x03) 6))
  else (pos, None).

Definition pton_digit (target : dest) (targsize tarindex state pos : Z) : option ((Z * Z + Z) * dest) :=
  let '(bits, more) := digit_bits state pos in
  let go target :=
    tarindex ← (if state =? 0 then Some tarindex else incr tarindex);
    Some (inl (tarindex, (state + 1) mod 4), target) in
  match target with
  | None => go None
  | Some t =>
      if (match more with Some _ => tarindex + 1 | None => tarindex end) >=? targsize then Some (inr (-1), target) else
      t ← store (negb (state =? 0)) t tarindex bits;
      t ← match more with Some m => store false t (tarindex + 1) m | None => Some t end;
      go (Some t)
  end.

(** Behind the first pad. *)
Definition pton_pad (src : text) (target : dest) (tarindex state : Z) : option (Z * dest) :=
  let last src :=
    match skip_space src with
    | [] =>
        match target with
        | Some t => o ← arr_get t tarindex; Some (if negb (o =? 0) then -1 else tarindex, target)
        | None => Some (tarindex, target)
        end
    | _ => Some (-1, target)
    end in
  if (state =? 0) || (state =? 1) then Some (-1, target)
  else if state =? 2 then
    match skip_space src with
    | ch :: src => if negb (Ascii.eqb ch Pad64) then Some (-1, target) else last src
    | [] => Some (-1, target)
    end
  else last src.

Fixpoint pton_loop (src : text) (target : dest) (targsize tarindex state : Z) : option (Z * dest) :=
  match src with
  | [] => Some (if negb (state =? 0) then -1 else tarindex, target)
  | ch :: src =>
      if isspace ch then pton_loop src target targsize tarindex state
      else if Ascii.eqb ch Pad64 then pton_pad src target tarindex state
      else
        match strchr Base64 ch with
        | None => Some (-1, target)
        | Some pos =>
            '(r, target) ← pton_digit target targsize tarindex state pos;
            match r with
            | inr rc => Some (rc, target)
            | inl (tarindex, state) => pton_loop src target targsize tarindex state
            end
        end
  end.

Definition lutil_b64_pton (src : text) (target : dest) (targsize : Z) : option (Z * dest) := pton_loop src target targsize 0 0.

(** * Base64 is RFC 4648's

    [base64]: the encoding as a function on the octets, three at a time as a number
    of 24 bits. [codes] relates texts and octets digit by digit. *)

Local Ltac Zify.zify_post_hook ::= Z.to_euclidean_division_equations.

(** ** The encoding *)

Definition char64 (p : Z) : ascii := default Pad64 (arr_get Base64 p).
Definition sextet (p : Z) : Prop := 0 <= p < 64.

Definition digits64 (n : Z) : text := [char64 (n / 262144); char64 (n / 4096 mod 64); char64 (n / 64 mod 64); char64 (n mod 64)].

Fixpoint base64 (data : list Z) : text :=
  match data with
  | a :: b :: c :: data => digits64 (be_val [a; b; c]) ++ base64 data
  | [a; b] => take 3 (digits64 (be_val [a; b; 0])) ++ [Pad64]
  | [a] => take 2 (digits64 (be_val [a; 0; 0])) ++ [Pad64; Pad64]
  | [] => []
  end.

(** White space does not count. *)
Definition strip (s : text) : text := List.filter (fun c => negb (isspace c)) s.

(** Room that the decoder asks for: an octet more for the bits that are left. *)
Definition room (data : list Z) : nat := (length data + if (length data mod 3 =? 0)%nat then 0 else 1)%nat.

Inductive codes : text -> list Z -> Prop :=
  | codes_nil : codes [] []
  | codes_one p0 p1 : sextet p0 -> sextet p1 -> p1 mod 16 = 0 ->
      codes [char64 p0; char64 p1; Pad64; Pad64] [p0 * 4 + p1 / 16]
  | codes_two p0 p1 p2 : sextet p0 -> sextet p1 -> sextet p2 -> p2 mod 4 = 0 ->
      codes [char64 p0; char64 p1; char64 p2; Pad64] [p0 * 4 + p1 / 16; p1 mod 16 * 16 + p2 / 4]
  | codes_three p0 p1 p2 p3 s data : sextet p0 -> sextet p1 -> sextet p2 -> sextet p3 -> codes s data ->
      codes (char64 p0 :: char64 p1 :: char64 p2 :: char64 p3 :: s)
        (p0 * 4 + p1 / 16 :: p1 mod 16 * 16 + p2 / 4 :: p2 mod 4 * 64 + p3 :: data).

Lemma triples_ind {A} (P : list A -> Prop) :
  P [] -> (forall a, P [a]) -> (forall a b, P [a; b]) -> (forall a b c l, P l -> P (a :: b :: c :: l)) -> forall l, P l.
Proof.
  intros H0 H1 H2 H3 l. assert (forall n l, (length l <= n)%nat -> P l) as H; [|by apply (H (length l))].
  induction n as [|n IH]; intros [|a [|b [|c r]]] Hl; cbn in Hl; try done; [lia|]. apply H3, IH. lia.
Qed.

Lemma codes_bytes s data : codes s data -> bytes_ok data.
Proof. induction 1; unfold sextet in *; solve_bytes. Qed.

Lemma be_val_3 a b c : be_val [a; b; c] = a * 65536 + b * 256 + c.
Proof. unfold be_val. cbn. lia. Qed.

Lemma base64_codes data : bytes_ok data -> codes (base64 data) data.
Proof.
  induction data as [|a|a b|a b c data IH] using triples_ind; intros Hd; cbn [base64 digits64 take app];
    repeat (apply bytes_ok_cons in Hd as [? Hd]); rewrite ?be_val_3; unfold byte_ok in *; [constructor| | |].
  - set (n := a * 65536 + 0 * 256 + 0). replace [a] with [n / 262144 * 4 + n / 4096 mod 64 / 16] by (unfold n; f_equal; lia).
    constructor; unfold sextet, n; lia.
  - set (n := a * 65536 + b * 256 + 0). replace [a; b] with [n / 262144 * 4 + n / 4096 mod 64 / 16; n / 4096 mod 64 mod 16 * 16 + n / 64 mod 64 / 4] by (unfold n; repeat f_equal; lia).
    constructor; unfold sextet, n; lia.
  - set (n := a * 65536 + b * 256 + c).
    replace (a :: b :: c :: data) with (n / 262144 * 4 + n / 4096 mod 64 / 16 :: n / 4096 mod 64 mod 16 * 16 + n / 64 mod 64 / 4 :: n / 64 mod 64 mod 4 * 64 + n mod 64 :: data)
      by (unfold n; repeat f_equal; lia).
    constructor; [unfold sextet, n; lia..|]. by apply IH.
Qed.

Lemma codes_base64 s data : codes s data -> s = base64 data.
Proof.
  induction 1 as [|p0 p1|p0 p1 p2|p0 p1 p2 p3 s data ? ? ? ? ? IH]; cbn [base64 digits64 take app]; rewrite ?be_val_3; [done| | |rewrite <- IH]; unfold sextet in *; repeat f_equal; lia.
Qed.

(** ** The alphabet *)

Lemma strchr_char64 p : sextet p -> strchr Base64 (char64 p) = Some p.
Proof.
  intros Hp. assert (forallb (fun p => bool_decide (strchr Base64 (char64 p) = Some p)) (Z.of_nat <$> seq 0 64) = true) as H by by vm_compute.
  rewrite forallb_forall in H. eapply bool_decide_eq_true, H, list_elem_of_In, list_elem_of_fmap. exists (Z.to_nat p). unfold sextet in Hp. split; [lia|]. apply elem_of_seq. lia.
Qed.

Lemma strchr_Some c p : strchr Base64 c = Some p -> c = char64 p /\ sextet p.
Proof.
  pose proof (ascii_table (fun c => match strchr Base64 c with Some p => bool_decide (c = char64 p /\ 0 <= p < 64) | None => true end) ltac:(by vm_compute) c) as H.
  cbn beta in H. intros E. rewrite E in H. by apply bool_decide_eq_true in H.
Qed.

Lemma char64_plain p : sextet p -> isspace (char64 p) = false /\ Ascii.eqb (char64 p) Pad64 = false /\ 0 < ascii_code (char64 p) < 128.
Proof.
  intros Hp. assert (forallb (fun p => bool_decide (isspace (char64 p) = false /\ Ascii.eqb (char64 p) Pad64 = false /\ 0 < ascii_code (char64 p) < 128)) (Z.of_nat <$> seq 0 64) = true) as H by by vm_compute.
  rewrite forallb_forall in H. eapply bool_decide_eq_true, H, list_elem_of_In, list_elem_of_fmap. exists (Z.to_nat p). unfold sextet in Hp. split; [lia|]. apply elem_of_seq. lia.
Qed.

(** ** Encoding *)

Definition octets_of (s : text) : list Z := ascii_code <$> s.

Lemma length_base64 data : length (base64 data) = (4 * ((length data + 2) / 3))%nat.
Proof.
  induction data as [|a|a b|a b c data IH] using triples_ind; try done. cbn [base64 digits64 app length].
  rewrite IH. replace (S (S (S (length data))) + 2)%nat with (length data + 2 + 1 * 3)%nat by lia. rewrite Nat.div_add by lia. lia.
Qed.

Lemma base64_char_sextet p : sextet p -> base64_char p = Some (char64 p).
Proof.
  intros Hp. unfold base64_char, char64. rewrite (proj2 (Z.ltb_lt _ _)) by apply Hp.
  destruct (arr_get_is_Some Base64 p) as [c ->]; [|done]. exact Hp.
Qed.

(** The digits that the shifts cut out are those of the number. *)
Lemma cut_digits a b c (n := be_val [a; b; c]) : byte_ok a -> byte_ok b -> byte_ok c ->
  base64_char (Z.shiftr a 2) = Some (char64 (n / 262144)) /\
  base64_char (u8 (Z.shiftl (Z.land a 0x03) 4 + Z.shiftr b 4)) = Some (char64 (n / 4096 mod 64)) /\
  base64_char (u8 (Z.shiftl (Z.land b 0x0f) 2 + Z.shiftr c 6)) = Some (char64 (n / 64 mod 64)) /\
  base64_char (Z.land c 0x3f) = Some (char64 (n mod 64)).
Proof.
  unfold byte_ok, n. intros Ha Hb Hc. rewrite be_val_3.
  change 0x03 with (2 ^ 2 - 1). change 0x0f with (2 ^ 4 - 1). change 0x3f with (2 ^ 6 - 1). rewrite !land_ones_mod, !Z.shiftr_div_pow2, !Z.shiftl_mul_pow2 by lia.
  change (2 ^ 2) with 4. change (2 ^ 4) with 16. change (2 ^ 6) with 64. unfold uwrap. change (2 ^ 8) with 256.
  assert (forall x y, sextet y -> x = y -> base64_char x = Some (char64 y)) as H by (intros x y Hy ->; by apply base64_char_sextet).
  split_and!; apply H; unfold sextet; lia.
Qed.

Lemma put_char_mid u x v c i : i = Z.of_nat (length u) -> i < 2 ^ 63 -> put_char (u ++ x :: v) i c = Some ((u ++ [ascii_code c]) ++ v, Z.of_nat (length (u ++ [ascii_code c]))).
Proof.
  intros -> Hi. unfold put_char. rewrite arr_set_mid by done. cbn [mbind option_bind]. rewrite <- app_assoc, length_app.
  rewrite uwrap_small by lia. repeat f_equal. cbn [length]. lia.
Qed.

(** Four characters at the end of what has been written. *)
Lemma put_four {A} u v c0 c1 c2 c3 (f : list Z -> Z -> option A) : (4 <= length v)%nat -> Z.of_nat (length (u ++ v)) < 2 ^ 63 ->
  ('(t, i) ← put_char (u ++ v) (Z.of_nat (length u)) c0; '(t, i) ← put_char t i c1; '(t, i) ← put_char t i c2; '(t, i) ← put_char t i c3; f t i) =
  f ((u ++ octets_of [c0; c1; c2; c3]) ++ drop 4 v) (Z.of_nat (length (u ++ octets_of [c0; c1; c2; c3]))).
Proof.
  intros Hv Hl. destruct v as [|x0 [|x1 [|x2 [|x3 v]]]]; cbn in Hv; try lia. rewrite length_app in Hl. cbn [length] in Hl.
  do 4 (rewrite put_char_mid by (rewrite ?length_app; cbn [length]; lia); cbn [mbind option_bind]).
  cbn [drop octets_of fmap list_fmap]. by rewrite <- !app_assoc.
Qed.

Lemma ntop_end_spec u v targsize : targsize <= Z.of_nat (length (u ++ v)) ->
  ntop_end (u ++ v) targsize (Z.of_nat (length u)) =
    if Z.of_nat (length u) <? targsize then Some (i32 (Z.of_nat (length u)), u ++ 0 :: drop 1 v) else Some (-1, u ++ v).
Proof.
  intros Hs. unfold ntop_end. rewrite Z.geb_leb. destruct (Z.ltb_spec (Z.of_nat (length u)) targsize), (Z.leb_spec targsize (Z.of_nat (length u))); try lia; [|done].
  rewrite length_app in Hs. destruct v as [|x v]; [cbn in Hs; lia|]. by rewrite arr_set_mid.
Qed.

(** What the loop leaves behind the octets [u] of the target for the text [s]. *)
Definition ntop_writes (s : text) (u v : list Z) (targsize : Z) (r : option (Z * list Z)) : Prop :=
  let k := (length u + length s)%nat in
  if Z.of_nat k <? targsize then r = Some (i32 (Z.of_nat k), u ++ octets_of s ++ 0 :: drop (S (length s)) v)
  else exists t, r = Some (-1, t) /\ length t = length (u ++ v).

Lemma ntop_group s c0 c1 c2 c3 u v targsize (f : list Z -> Z -> option (Z * list Z)) :
  0 <= targsize <= Z.of_nat (length (u ++ v)) -> Z.of_nat (length (u ++ v)) < 2 ^ 63 ->
  (forall u v, 0 <= targsize <= Z.of_nat (length (u ++ v)) -> Z.of_nat (length (u ++ v)) < 2 ^ 63 ->
    ntop_writes s u v targsize (f (u ++ v) (Z.of_nat (length u)))) ->
  ntop_writes (c0 :: c1 :: c2 :: c3 :: s) u v targsize
    (if u64 (Z.of_nat (length u) + 4) >? targsize then Some (-1, u ++ v) else
     '(t, i) ← put_char (u ++ v) (Z.of_nat (length u)) c0; '(t, i) ← put_char t i c1; '(t, i) ← put_char t i c2; '(t, i) ← put_char t i c3; f t i).
Proof.
  intros Hs Hl Hf. rewrite length_app in Hs, Hl. rewrite uwrap_small by lia. unfold ntop_writes at 1. cbv zeta. cbn [length].
  rewrite Z.gtb_ltb. destruct (Z.ltb_spec targsize (Z.of_nat (length u) + 4)).
  - rewrite (proj2 (Z.ltb_ge _ _)) by lia. by eexists.
  - assert (4 <= length v)%nat as Hv by lia. rewrite put_four by (rewrite ?length_app; lia).
    assert (length (drop 4 v) = (length v - 4)%nat) as Hd by apply length_drop.
    specialize (Hf (u ++ octets_of [c0; c1; c2; c3]) (drop 4 v)). set (r := f _ _) in *. clearbody r. unfold ntop_writes in Hf. rewrite !length_app, Hd in Hf. cbn [length octets_of fmap list_fmap] in Hf.
    specialize (Hf ltac:(lia) ltac:(lia)). replace (length u + 4 + length s)%nat with (length u + S (S (S (S (length s)))))%nat in Hf by lia.
    case_if; [|destruct Hf as (t & -> & Ht); eexists; split; [done|rewrite Ht, length_app; lia]].
    rewrite Hf. rewrite drop_drop. cbn [octets_of fmap list_fmap]. by rewrite <- !app_assoc.
Qed.

Lemma ntop_loop_spec src : forall u v targsize, bytes_ok src -> 0 <= targsize <= Z.of_nat (length (u ++ v)) -> Z.of_nat (length (u ++ v)) < 2 ^ 63 ->
  ntop_writes (base64 src) u v targsize (ntop_loop src (u ++ v) targsize (Z.of_nat (length u))).
Proof.
  assert (forall u v targsize, 0 <= targsize <= Z.of_nat (length (u ++ v)) ->
    ntop_writes [] u v targsize (ntop_end (u ++ v) targsize (Z.of_nat (length u)))) as Hend.
  { intros u v targsize Hs. rewrite ntop_end_spec by lia. unfold ntop_writes. cbn [length]. rewrite Nat.add_0_r. case_if; [done|by eexists]. }
  assert (byte_ok 0) as H0 by (unfold byte_ok; lia).
  induction src as [|a|a b|a b c src IH] using triples_ind; intros u v targsize Hsrc Hs Hl; repeat (apply bytes_ok_cons in Hsrc as [? Hsrc]).
  - by apply Hend.
  - destruct (cut_digits a 0 0) as (E0 & E1 & E2 & _); try done. cbn [ntop_loop]. change (Z.shiftr 0 4) with 0 in *. rewrite E0, E1. cbn [mbind option_bind].
    rewrite E2. cbn [mbind option_bind]. apply (ntop_group []); [done..|]. intros. by apply Hend.
  - destruct (cut_digits a b 0) as (E0 & E1 & E2 & _); try done. cbn [ntop_loop]. rewrite E0, E1. cbn [mbind option_bind].
    rewrite E2. cbn [mbind option_bind]. apply (ntop_group []); [done..|]. intros. by apply Hend.
  - destruct (cut_digits a b c) as (E0 & E1 & E2 & E3); try done. cbn [ntop_loop]. rewrite E0, E1, E2, E3. cbn [mbind option_bind].
    apply (ntop_group (base64 src)); [done..|]. intros. by apply IH.
Qed.

(** ** Decoding *)

Lemma skip_strip s : strip s = match skip_space s with [] => [] | c :: r => c :: strip r end.
Proof. induction s as [|c s IH]; [done|]. cbn. by destruct (isspace c). Qed.

Lemma skip_stripped s : skip_space (strip s) = strip s.
Proof. induction s as [|c s IH]; [done|]. cbn. destruct (isspace c) eqn:E; [done|]. cbn. by rewrite E. Qed.

Lemma skip_strip_cases s : (skip_space s = [] /\ strip s = []) \/ exists c r, skip_space s = c :: r /\ strip s = c :: strip r.
Proof. rewrite skip_strip. destruct (skip_space s) as [|c r]; [by left|right]. by exists c, r. Qed.

Lemma pton_pad_strip s target k state : pton_pad s target k state = pton_pad (strip s) target k state.
Proof.
  unfold pton_pad. rewrite !skip_stripped. case_if; [done|]. destruct (skip_strip_cases s) as [[-> ->]|(c & r & -> & ->)]; [done|].
  rewrite !skip_stripped. by destruct (skip_strip_cases r) as [[-> ->]|(c' & r' & -> & ->)].
Qed.

Lemma pton_loop_strip s targsize : forall target k state, pton_loop s target targsize k state = pton_loop (strip s) target targsize k state.
Proof.
  induction s as [|c s IH]; intros target k state; [done|]. cbn [pton_loop strip List.filter]. destruct (isspace c) eqn:Ec; cbn [negb].
  - apply IH.
  - cbn [pton_loop]. rewrite Ec. case_if; [by rewrite pton_pad_strip|]. destruct (strchr Base64 c) as [p|]; [|done].
    destruct (pton_digit _ _ _ _ _) as [[[[k' st]|rc] t]|]; try done. apply IH.
Qed.

(** What the first characters of a text tell about the octets that it means. *)
Lemma codes_inv s data : codes s data ->
  match s with
  | [] => data = []
  | c0 :: s =>
      exists p0, strchr Base64 c0 = Some p0 /\
      match s with
      | [] => False
      | c1 :: s =>
          exists p1, strchr Base64 c1 = Some p1 /\
          match s with
          | [] => False
          | c2 :: s =>
              match strchr Base64 c2 with
              | None => c2 = Pad64 /\ s = [Pad64] /\ p1 mod 16 = 0 /\ data = [p0 * 4 + p1 / 16]
              | Some p2 =>
                  match s with
                  | [] => False
                  | c3 :: s =>
                      match strchr Base64 c3 with
                      | None => c3 = Pad64 /\ s = [] /\ p2 mod 4 = 0 /\ data = [p0 * 4 + p1 / 16; p1 mod 16 * 16 + p2 / 4]
                      | Some p3 => exists rest, codes s rest /\ data = p0 * 4 + p1 / 16 :: p1 mod 16 * 16 + p2 / 4 :: p2 mod 4 * 64 + p3 :: rest
                      end
                  end
              end
          end
      end
  end.
Proof.
  destruct 1 as [|p0 p1|p0 p1 p2|p0 p1 p2 p3 s data]; [done|..]; exists p0; (split; [by apply strchr_char64|]); exists p1; (split; [by apply strchr_char64|]).
  - by change (strchr Base64 Pad64) with (@None Z).
  - rewrite strchr_char64 by done. by change (strchr Base64 Pad64) with (@None Z).
  - rewrite !strchr_char64 by done. by exists data.
Qed.

Lemma lor_bits h l n : 0 <= n -> 0 <= l < 2 ^ n -> 0 <= h * 2 ^ n + l < 256 -> u8 (Z.lor (h * 2 ^ n) l) = h * 2 ^ n + l.
Proof. intros Hn Hl Hr. rewrite <- (Z.shiftl_mul_pow2 h n) at 1 by lia. rewrite lor_shiftl_low by lia. apply uwrap_small. lia. Qed.

Lemma store_set u x v i w : i = Z.of_nat (length u) -> 0 <= w < 256 -> store false (u ++ x :: v) i w = Some (u ++ w :: v).
Proof. intros -> Hw. unfold store. rewrite uwrap_small by lia. by rewrite arr_set_mid. Qed.

Lemma store_or u h v i l n : i = Z.of_nat (length u) -> 0 <= n -> 0 <= l < 2 ^ n -> 0 <= h * 2 ^ n + l < 256 -> store true (u ++ h * 2 ^ n :: v) i l = Some (u ++ h * 2 ^ n + l :: v).
Proof. intros -> Hn Hl Hr. unfold store. rewrite arr_get_mid by done. cbn [mbind option_bind]. rewrite lor_bits by lia. by rewrite arr_set_mid. Qed.

Section room.
  Context (targsize : Z) (Hts : targsize < 2 ^ 31).
  Abbreviation at_ u := (Z.of_nat (length u)).

Lemma digit0 u x v p : sextet p -> pton_digit (Some (u ++ x :: v)) targsize (at_ u) 0 p =
  if targsize <=? at_ u then Some (inr (-1), Some (u ++ x :: v)) else Some (inl (at_ u, 1), Some (u ++ p * 4 :: v)).
Proof using.
  unfold sextet. intros Hp. unfold pton_digit, digit_bits. cbn [Z.eqb negb]. rewrite Z.geb_leb. case_if; [done|].
  rewrite Z.shiftl_mul_pow2 by lia. by rewrite store_set by lia.
Qed.

Lemma digit1 u p0 y v p : sextet p0 -> sextet p -> pton_digit (Some (u ++ p0 * 4 :: y :: v)) targsize (at_ u) 1 p =
  if targsize <=? at_ u + 1 then Some (inr (-1), Some (u ++ p0 * 4 :: y :: v)) else Some (inl (at_ u + 1, 2), Some ((u ++ [p0 * 4 + p / 16]) ++ p mod 16 * 16 :: v)).
Proof using Hts.
  unfold sextet. intros Hp0 Hp. unfold pton_digit, digit_bits. cbn [Z.eqb Pos.eqb negb]. rewrite Z.geb_leb. case_if; [done|]. zb.
  rewrite Z.shiftr_div_pow2, Z.shiftl_mul_pow2 by lia. change 0x0f with (2 ^ 4 - 1). rewrite land_ones_mod by lia.
  change (p0 * 4) with (p0 * 2 ^ 2). rewrite store_or by lia. cbn [mbind option_bind]. change (2 ^ 2) with 4. change (2 ^ 4) with 16. rewrite cons_middle, app_assoc.
  rewrite store_set by (rewrite ?length_app; cbn [length]; lia). cbn [mbind option_bind]. unfold incr. by rewrite (proj2 (Z.ltb_lt _ _)) by lia.
Qed.

Lemma digit2 u h y v p : 0 <= h < 16 -> sextet p -> pton_digit (Some (u ++ h * 16 :: y :: v)) targsize (at_ u) 2 p =
  if targsize <=? at_ u + 1 then Some (inr (-1), Some (u ++ h * 16 :: y :: v)) else Some (inl (at_ u + 1, 3), Some ((u ++ [h * 16 + p / 4]) ++ p mod 4 * 64 :: v)).
Proof using Hts.
  unfold sextet. intros Hh Hp. unfold pton_digit, digit_bits. cbn [Z.eqb Pos.eqb negb]. rewrite Z.geb_leb. case_if; [done|]. zb.
  rewrite Z.shiftr_div_pow2, Z.shiftl_mul_pow2 by lia. change 0x03 with (2 ^ 2 - 1). rewrite land_ones_mod by lia.
  change (h * 16) with (h * 2 ^ 4). rewrite store_or by lia. cbn [mbind option_bind]. change (2 ^ 2) with 4. change (2 ^ 4) with 16. change (2 ^ 6) with 64. rewrite cons_middle, app_assoc.
  rewrite store_set by (rewrite ?length_app; cbn [length]; lia). cbn [mbind option_bind]. unfold incr. by rewrite (proj2 (Z.ltb_lt _ _)) by lia.
Qed.

Lemma digit3 u h v p : 0 <= h < 4 -> sextet p -> pton_digit (Some (u ++ h * 64 :: v)) targsize (at_ u) 3 p =
  if targsize <=? at_ u then Some (inr (-1), Some (u ++ h * 64 :: v)) else Some (inl (at_ u + 1, 0), Some ((u ++ [h * 64 + p]) ++ v)).
Proof using Hts.
  unfold sextet. intros Hh Hp. unfold pton_digit, digit_bits. cbn [Z.eqb Pos.eqb negb]. rewrite Z.geb_leb. case_if; [done|]. zb.
  change (h * 64) with (h * 2 ^ 6). rewrite store_or by lia. cbn [mbind option_bind]. unfold incr. rewrite (proj2 (Z.ltb_lt _ _)) by lia. by rewrite <- app_assoc.
Qed.

End room.

Definition spaceless (s : text) : Prop := Forall (fun c => isspace c = false) s.

Lemma strip_spaceless s : spaceless (strip s).
Proof. induction s as [|c s IH]; [constructor|]. cbn. destruct (isspace c) eqn:E; cbn; [done|]. by constructor. Qed.

Lemma spaceless_skip s : spaceless s -> skip_space s = s.
Proof. destruct 1 as [|c s Hc Hs]; [done|]. cbn. by rewrite Hc. Qed.

Lemma spaceless_cons c s : spaceless (c :: s) <-> isspace c = false /\ spaceless s.
Proof. unfold spaceless. by rewrite list.Forall_cons. Qed.

(** What the decoder does to a target that begins with the octets [u]. *)
Definition decodes (s : text) (u v : list Z) (targsize : Z) (r : option (Z * dest)) : Prop :=
  exists rc v', r = Some (rc, Some (u ++ v')) /\ length v' = length v /\
    ((exists data, codes s data /\ Z.of_nat (length u + room data) <= targsize /\ rc = Z.of_nat (length u + length data) /\ take (length data) v' = data) \/
     (rc = -1 /\ forall data, codes s data -> targsize < Z.of_nat (length u + room data))).

Section decode.
  Context (targsize : Z) (Hts : targsize < 2 ^ 31).

Lemma refused s u v v' : length v' = length v -> (forall data, codes s data -> targsize < Z.of_nat (length u + room data)) ->
  decodes s u v targsize (Some (-1, Some (u ++ v'))).
Proof using. intros Hl Hb. exists (-1), v'. split; [done|]. split; [done|]. by right. Qed.

Lemma nonempty_room c s data : codes (c :: s) data -> (2 <= room data)%nat.
Proof using.
  intros Hc. destruct data as [|a [|b [|d data]]]; [inversion Hc|cbn; lia..|]. unfold room. cbn [length]. lia.
Qed.

(** Reading one character where it is no pad and no space. *)
Lemma loop_digit c p s u v k state : spaceless (c :: s) -> strchr Base64 c = Some p ->
  pton_loop (c :: s) (Some (u ++ v)) targsize k state =
    ('(r, target) ← pton_digit (Some (u ++ v)) targsize k state p;
     match r with inr rc => Some (rc, target) | inl (k, state) => pton_loop s target targsize k state end).
Proof using.
  intros [Hc _]%spaceless_cons Hp. cbn [pton_loop]. rewrite Hc, Hp. apply strchr_Some in Hp as [-> Hp]. by rewrite (proj1 (proj2 (char64_plain p Hp))).
Qed.

Lemma loop_other c s t k state : spaceless (c :: s) -> strchr Base64 c = None ->
  pton_loop (c :: s) t targsize k state = if Ascii.eqb c Pad64 then pton_pad s t k state else Some (-1, t).
Proof using. intros [Hc _]%spaceless_cons Hp. cbn [pton_loop]. rewrite Hc, Hp. done. Qed.

Lemma pads_two s t k : spaceless s -> pton_pad s (Some t) k 2 =
  if decide (s = [Pad64]) then o ← arr_get t k; Some (if negb (o =? 0) then -1 else k, Some t) else Some (-1, Some t).
Proof using.
  intros Hs. unfold pton_pad. cbn [Z.eqb Pos.eqb orb]. rewrite spaceless_skip by done. destruct s as [|c s]; [done|].
  apply spaceless_cons in Hs as [_ Hs]. rewrite spaceless_skip by done.
  destruct (Ascii.eqb_spec c Pad64) as [->|Hc]; cbn [negb]; [|rewrite decide_False by (by intros [= -> _]); done].
  destruct s; [by rewrite decide_True|by rewrite decide_False].
Qed.

Lemma pads_one s t k : spaceless s -> pton_pad s (Some t) k 3 =
  match s with [] => o ← arr_get t k; Some (if negb (o =? 0) then -1 else k, Some t) | _ => Some (-1, Some t) end.
Proof using. intros Hs. unfold pton_pad. cbn [Z.eqb Pos.eqb orb]. by rewrite spaceless_skip. Qed.

(** The octets that four digits denote. *)
Abbreviation octet0 p0 p1 := (p0 * 4 + p1 / 16).
Abbreviation octet1 p1 p2 := (p1 mod 16 * 16 + p2 / 4).
Abbreviation octet2 p2 p3 := (p2 mod 4 * 64 + p3).

Lemma decodes_more p0 p1 p2 p3 s u v x y z r : sextet p0 -> sextet p1 -> sextet p2 -> sextet p3 ->
  decodes s (u ++ [octet0 p0 p1; octet1 p1 p2; octet2 p2 p3]) v targsize r ->
  decodes (char64 p0 :: char64 p1 :: char64 p2 :: char64 p3 :: s) u (x :: y :: z :: v) targsize r.
Proof using.
  intros H0 H1 H2 H3 (rc & v' & -> & Hl & Hd). exists rc, (octet0 p0 p1 :: octet1 p1 p2 :: octet2 p2 p3 :: v'). rewrite <- app_assoc.
  split; [done|]. split; [cbn; lia|]. rewrite !length_app in Hd. cbn [length] in Hd.
  assert (forall data, room (octet0 p0 p1 :: octet1 p1 p2 :: octet2 p2 p3 :: data) = (3 + room data)%nat) as Hr.
  { intros data. unfold room. cbn [length]. replace (S (S (S (length data)))) with (length data + 1 * 3)%nat by lia. rewrite Nat.Div0.mod_add. lia. }
  destruct Hd as [(data & Hc & Hr' & -> & Ht)|[-> Hb]]; [left|right].
  - exists (octet0 p0 p1 :: octet1 p1 p2 :: octet2 p2 p3 :: data). split; [by constructor|]. rewrite Hr. cbn [length take]. split; [lia|]. split; [lia|]. by rewrite Ht.
  - split; [done|]. intros data (q0 & E0 & q1 & E1 & Hc)%codes_inv. rewrite !strchr_char64 in Hc, E0, E1 by done. injection E0 as <-. injection E1 as <-.
    rewrite strchr_char64 in Hc by done. destruct Hc as (rest & Hc & ->). rewrite Hr. specialize (Hb rest Hc). lia.
Qed.

Context (Htl : 0 <= targsize).

(** Three digits have been read. *)
Lemma decode_3 p0 p1 p2 s u v x y z : sextet p0 -> sextet p1 -> sextet p2 -> spaceless s ->
  (forall c s', s = c :: s' -> forall u v, Z.of_nat (length u) <= targsize <= Z.of_nat (length (u ++ v)) -> decodes s' u v targsize (pton_loop s' (Some (u ++ v)) targsize (Z.of_nat (length u)) 0)) ->
  Z.of_nat (length u + 2) < targsize -> targsize <= Z.of_nat (length (u ++ x :: y :: z :: v)) ->
  decodes (char64 p0 :: char64 p1 :: char64 p2 :: s) u (x :: y :: z :: v) targsize
    (pton_loop s (Some ((u ++ [octet0 p0 p1; octet1 p1 p2]) ++ p2 mod 4 * 64 :: v)) targsize (Z.of_nat (length u + 2)) 3).
Proof using Hts.
  intros H0 H1 H2 Hs IH Hk Hl. rewrite length_app in Hl. cbn [length] in Hl.
  assert (forall data, codes (char64 p0 :: char64 p1 :: char64 p2 :: s) data -> exists c s', s = c :: s' /\
    match strchr Base64 c with None => c = Pad64 /\ s' = [] /\ p2 mod 4 = 0 | Some p3 => True end) as Hinv.
  { intros data (q0 & E0 & q1 & E1 & Hc)%codes_inv. rewrite !strchr_char64 in Hc, E0, E1 by done. destruct s as [|c s]; [done|]. exists c, s. split; [done|].
    destruct (strchr Base64 c); [done|]. naive_solver. }
  assert (forall P : Prop, ~ P -> (forall data, codes (char64 p0 :: char64 p1 :: char64 p2 :: s) data -> P) ->
    decodes (char64 p0 :: char64 p1 :: char64 p2 :: s) u (x :: y :: z :: v) targsize (Some (-1, Some ((u ++ [octet0 p0 p1; octet1 p1 p2]) ++ p2 mod 4 * 64 :: v)))) as Hno.
  { intros P HP Hc. rewrite <- app_assoc. apply refused; [done|]. intros data Hd. destruct (HP (Hc data Hd)). }
  destruct s as [|c s]; [apply (Hno False); [tauto|]; intros data Hd; destruct (Hinv data Hd) as (? & ? & ? & ?); done|].
  destruct (strchr Base64 c) as [p3|] eqn:Ec.
  - apply strchr_Some in Ec as Hp. destruct Hp as [-> H3]. rewrite (loop_digit _ p3) by (try done; by apply strchr_char64).
    replace (Z.of_nat (length u + 2)) with (Z.of_nat (length (u ++ [octet0 p0 p1; octet1 p1 p2]))) by (rewrite length_app; cbn; lia).
    unfold sextet in *. rewrite digit3 by (done || unfold sextet; lia). rewrite (proj2 (Z.leb_gt _ _)) by (rewrite length_app; cbn; lia). cbn [mbind option_bind].
    apply decodes_more; [done..|]. rewrite <- (app_assoc u). cbn [app].
    replace (Z.of_nat (length (u ++ [octet0 p0 p1; octet1 p1 p2])) + 1) with (Z.of_nat (length (u ++ [octet0 p0 p1; octet1 p1 p2; octet2 p2 p3]))) by (rewrite !length_app; cbn; lia).
    eapply IH; [done|]. rewrite !length_app. cbn [length]. lia.
  - rewrite loop_other by done. destruct (Ascii.eqb_spec c Pad64) as [->|Hc]; [|apply (Hno (c = Pad64)); [done|]; intros data Hd; destruct (Hinv data Hd) as (? & ? & [= <- <-] & Hx); rewrite Ec in Hx; tauto].
    apply spaceless_cons in Hs as [_ Hs]. rewrite pads_one by done.
    destruct s as [|c' s]; [|apply (Hno False); [tauto|]; intros data Hd; destruct (Hinv data Hd) as (? & ? & [= <- <-] & Hx); rewrite Ec in Hx; naive_solver].
    rewrite arr_get_mid by (rewrite length_app; cbn; lia). cbn [mbind option_bind].
    destruct (Z.eqb_spec (p2 mod 4 * 64) 0) as [Hz|Hz]; cbn [negb].
    + eexists _, _. rewrite <- app_assoc. split; [done|]. split; [done|]. left. exists [octet0 p0 p1; octet1 p1 p2]. cbn [length]. split; [constructor; (done || lia)|]. unfold room. cbn [length]. split; [change (2 mod 3 =? 0)%nat with false; cbv iota; lia|]. split; [done|]. done.
    + apply (Hno (p2 mod 4 = 0)); [lia|]. intros data Hd. destruct (Hinv data Hd) as (? & ? & [= <- <-] & Hx). rewrite Ec in Hx. tauto.
Qed.

(** Two digits have been read. *)
Lemma decode_2 p0 p1 s u v x y : sextet p0 -> sextet p1 -> spaceless s ->
  (forall c0 c1 s', s = c0 :: c1 :: s' -> forall u v, Z.of_nat (length u) <= targsize <= Z.of_nat (length (u ++ v)) -> decodes s' u v targsize (pton_loop s' (Some (u ++ v)) targsize (Z.of_nat (length u)) 0)) ->
  Z.of_nat (length u + 1) < targsize -> targsize <= Z.of_nat (length (u ++ x :: y :: v)) ->
  decodes (char64 p0 :: char64 p1 :: s) u (x :: y :: v) targsize
    (pton_loop s (Some ((u ++ [octet0 p0 p1]) ++ p1 mod 16 * 16 :: v)) targsize (Z.of_nat (length u + 1)) 2).
Proof using Hts.
  intros H0 H1 Hs IH Hk Hl. rewrite length_app in Hl. cbn [length] in Hl.
  assert (forall data, codes (char64 p0 :: char64 p1 :: s) data -> exists c s', s = c :: s' /\
    match strchr Base64 c with None => c = Pad64 /\ s' = [Pad64] /\ p1 mod 16 = 0 | Some p2 => (3 <= room data)%nat end) as Hinv.
  { intros data (q0 & E0 & q1 & E1 & Hc)%codes_inv. rewrite !strchr_char64 in E0, E1 by done. injection E0 as <-. injection E1 as <-.
    destruct s as [|c s]; [done|]. exists c, s. split; [done|]. destruct (strchr Base64 c); [|tauto].
    destruct s as [|c' s]; [done|]. destruct (strchr Base64 c'); [destruct Hc as (? & _ & ->)|destruct Hc as (_ & _ & _ & ->)]; unfold room; cbn [length]; [lia|done]. }
  assert (forall P : Prop, ~ P -> (forall data, codes (char64 p0 :: char64 p1 :: s) data -> targsize < Z.of_nat (length u + room data) \/ P) ->
    decodes (char64 p0 :: char64 p1 :: s) u (x :: y :: v) targsize (Some (-1, Some ((u ++ [octet0 p0 p1]) ++ p1 mod 16 * 16 :: v)))) as Hno.
  { intros P HP Hc. rewrite <- app_assoc. apply refused; [done|]. intros data Hd. by destruct (Hc data Hd). }
  destruct s as [|c s]; [apply (Hno False); [tauto|]; intros data Hd; destruct (Hinv data Hd) as (? & ? & ? & ?); done|].
  destruct (strchr Base64 c) as [p2|] eqn:Ec.
  - apply strchr_Some in Ec as Hp. destruct Hp as [-> H2]. rewrite (loop_digit _ p2) by (try done; by apply strchr_char64).
    replace (Z.of_nat (length u + 1)) with (Z.of_nat (length (u ++ [octet0 p0 p1]))) by (rewrite length_app; cbn; lia).
    destruct (Z.leb_spec targsize (Z.of_nat (length u + 2))) as [Hfull|Hroom].
    { assert (pton_digit (Some ((u ++ [octet0 p0 p1]) ++ p1 mod 16 * 16 :: v)) targsize (Z.of_nat (length (u ++ [octet0 p0 p1]))) 2 p2 =
        Some (inr (-1), Some ((u ++ [octet0 p0 p1]) ++ p1 mod 16 * 16 :: v))) as ->.
      { unfold pton_digit, digit_bits. cbn [Z.eqb Pos.eqb negb]. rewrite Z.geb_leb, (proj2 (Z.leb_le _ _)); [done|]. rewrite length_app. cbn. lia. }
      apply (Hno False); [tauto|]. intros data Hd. left. destruct (Hinv data Hd) as (? & ? & [= <- <-] & Hx). rewrite strchr_char64 in Hx by done. lia. }
    destruct v as [|z v]; [cbn in Hl; lia|]. unfold sextet in *. rewrite digit2 by (done || unfold sextet; lia).
    rewrite (proj2 (Z.leb_gt _ _)) by (rewrite length_app; cbn; lia). cbn [mbind option_bind]. rewrite <- (app_assoc u). cbn [app].
    replace (Z.of_nat (length (u ++ [octet0 p0 p1])) + 1) with (Z.of_nat (length u + 2)) by (rewrite !length_app; cbn; lia).
    apply decode_3; unfold sextet; try lia; [by apply spaceless_cons in Hs as [_ Hs]|by intros c s' ->; eapply IH|rewrite length_app; cbn [length] in *; lia].
  - rewrite loop_other by done. destruct (Ascii.eqb_spec c Pad64) as [->|Hc]; [|apply (Hno (c = Pad64)); [done|]; intros data Hd; right; destruct (Hinv data Hd) as (? & ? & [= <- <-] & Hx); rewrite Ec in Hx; tauto].
    apply spaceless_cons in Hs as [_ Hs]. rewrite pads_two by done.
    destruct (decide (s = [Pad64])) as [->|Hne]; [|apply (Hno (s = [Pad64])); [done|]; intros data Hd; right; destruct (Hinv data Hd) as (? & ? & [= <- <-] & Hx); rewrite Ec in Hx; tauto].
    rewrite arr_get_mid by (rewrite length_app; cbn; lia). cbn [mbind option_bind].
    destruct (Z.eqb_spec (p1 mod 16 * 16) 0) as [Hz|Hz]; cbn [negb].
    + eexists _, _. rewrite <- app_assoc. split; [done|]. split; [done|]. left. exists [octet0 p0 p1]. cbn [length]. split; [constructor; (done || lia)|].
      unfold room. cbn [length]. split; [change (1 mod 3 =? 0)%nat with false; cbv iota; lia|]. split; done.
    + apply (Hno (p1 mod 16 = 0)); [lia|]. intros data Hd. right. destruct (Hinv data Hd) as (? & ? & [= <- <-] & Hx). rewrite Ec in Hx. tauto.
Qed.

Lemma decode_all : forall s u v, spaceless s -> Z.of_nat (length u) <= targsize <= Z.of_nat (length (u ++ v)) ->
  decodes s u v targsize (pton_loop s (Some (u ++ v)) targsize (Z.of_nat (length u)) 0).
Proof using Hts.
  intros s. induction s as [s IHs] using (well_founded_induction (well_founded_ltof _ (@length ascii))). unfold ltof in IHs. intros u v Hs [Hk Hl].
  assert (forall data, codes s data -> s = [] \/ (2 <= room data)%nat /\ exists c0 p0 c1 p1 s', s = c0 :: c1 :: s' /\ strchr Base64 c0 = Some p0 /\ strchr Base64 c1 = Some p1) as Hinv.
  { intros data Hd. destruct s as [|c0 s]; [by left|right]. split; [by eapply nonempty_room|]. apply codes_inv in Hd as (p0 & E0 & Hd).
    destruct s as [|c1 s]; [done|]. destruct Hd as (p1 & E1 & _). by exists c0, p0, c1, p1, s. }
  assert (s <> [] -> forall v', length v' = length v -> (targsize <= Z.of_nat (length u) + 1 \/ forall c0 p0 c1 p1 s', s = c0 :: c1 :: s' -> strchr Base64 c0 = Some p0 -> strchr Base64 c1 = Some p1 -> False) ->
    decodes s u v targsize (Some (-1, Some (u ++ v')))) as Hno.
  { intros Hne v' Hv Hc. apply refused; [done|]. intros data Hd. destruct (Hinv data Hd) as [|(Hr & c0 & p0 & c1 & p1 & s' & E & E0 & E1)]; [done|].
    destruct Hc as [Hc|Hc]; [lia|]. by destruct (Hc _ _ _ _ _ E E0 E1). }
  destruct s as [|c0 s].
  { eexists _, v. split; [done|]. split; [done|]. left. exists []. split; [constructor|]. cbn. split; [lia|]. split; [lia|done]. }
  destruct (strchr Base64 c0) as [p0|] eqn:E0; [|rewrite loop_other by done; destruct (Ascii.eqb c0 Pad64); (apply Hno; [done..|]; right; intros * [= <- ->]; congruence)].
  apply strchr_Some in E0 as Hp. destruct Hp as [-> H0]. rewrite (loop_digit _ p0) by done.
  destruct (Z.leb_spec targsize (Z.of_nat (length u))) as [Hfull|Hroom].
  { assert (pton_digit (Some (u ++ v)) targsize (Z.of_nat (length u)) 0 p0 = Some (inr (-1), Some (u ++ v))) as ->; [|apply Hno; [done..|]; left; lia].
    unfold pton_digit, digit_bits. cbn [Z.eqb]. by rewrite Z.geb_leb, (proj2 (Z.leb_le _ _)). }
  rewrite length_app in Hl. destruct v as [|x v]; [cbn in Hl; lia|]. rewrite digit0 by done. rewrite (proj2 (Z.leb_gt _ _)) by done. cbn [mbind option_bind].
  apply spaceless_cons in Hs as [_ Hs]. destruct s as [|c1 s]; [apply Hno; [done..|]; right; by intros * [=]|].
  destruct (strchr Base64 c1) as [p1|] eqn:E1; [|rewrite loop_other by done; destruct (Ascii.eqb c1 Pad64); (apply Hno; [done..|]; right; intros * [= <- <- <-]; congruence)].
  apply strchr_Some in E1 as Hp. destruct Hp as [-> H1]. rewrite (loop_digit _ p1) by done.
  destruct (Z.leb_spec targsize (Z.of_nat (length u) + 1)) as [Hfull|Hroom1].
  { assert (pton_digit (Some (u ++ p0 * 4 :: v)) targsize (Z.of_nat (length u)) 1 p1 = Some (inr (-1), Some (u ++ p0 * 4 :: v))) as ->; [|apply Hno; [done..|]; by left].
    unfold pton_digit, digit_bits. cbn [Z.eqb Pos.eqb negb]. by rewrite Z.geb_leb, (proj2 (Z.leb_le _ _)). }
  cbn [length] in Hl. destruct v as [|y v]; [cbn in Hl; lia|]. rewrite digit1 by done. rewrite (proj2 (Z.leb_gt _ _)) by done. cbn [mbind option_bind].
  replace (Z.of_nat (length u) + 1) with (Z.of_nat (length u + 1)) by lia. apply spaceless_cons in Hs as [_ Hs].
  cbn [length] in Hl.
  apply decode_2; try done; [|lia|rewrite length_app; cbn [length]; lia].
  intros c2 c3 s' -> u' v' Hr. apply IHs; [cbn; lia| |done]. by apply spaceless_cons in Hs as [_ [_ Hs]%spaceless_cons].
Qed.

End decode.

(** ** The theorems *)

(** What [lutil_b64_ntop] stores is the base64 text of the octets with its
    terminator, if that fits into the target, and otherwise the result is -1;
    nothing is stored outside the target. *)
Theorem ntop_correct src target targsize : bytes_ok src -> 0 <= targsize <= Z.of_nat (length target) -> Z.of_nat (length target) < 2 ^ 31 ->
  exists rc target', lutil_b64_ntop src target targsize = Some (rc, target') /\ length target' = length target /\
    if Z.of_nat (length (base64 src)) <? targsize
    then rc = Z.of_nat (length (base64 src)) /\ take (S (length (base64 src))) target' = octets_of (base64 src) ++ [0] /\
         drop (S (length (base64 src))) target' = drop (S (length (base64 src))) target
    else rc = -1.
Proof.
  intros Hs Ht Hl. pose proof (ntop_loop_spec src [] target targsize Hs Ht ltac:(cbn [app]; lia)) as H. unfold ntop_writes in H. cbn [app length Nat.add] in H.
  unfold lutil_b64_ntop. change (Z.of_nat 0) with 0 in H. set (k := length (base64 src)) in *. assert (length (octets_of (base64 src)) = k) as Hk by apply length_fmap.
  destruct (Z.ltb_spec (Z.of_nat k) targsize) as [Hlt|Hge]; [|destruct H as (t & -> & E); by exists (-1), t].
  rewrite H. eexists _, _. split; [done|]. rewrite cons_middle, app_assoc. set (w := octets_of (base64 src) ++ [0]).
  assert (length w = S k) as Hw by (unfold w; rewrite length_app, Hk; cbn; lia). rewrite swrap_small by lia.
  rewrite length_app, length_drop, Hw. split; [lia|]. split; [done|]. rewrite <- Hw. by rewrite take_app_length, drop_app_length.
Qed.

Lemma ntop_correct_witness : lutil_b64_ntop [0; 255; 16; 131] (replicate 10 7) 10 = Some (8, octets_of (kw "AP8Qgw==") ++ [0; 7]) /\
  exists rc target', lutil_b64_ntop [0; 255; 16; 131] (replicate 10 7) 10 = Some (rc, target') /\ length target' = 10%nat /\
    if Z.of_nat (length (base64 [0; 255; 16; 131])) <? 10
    then rc = Z.of_nat (length (base64 [0; 255; 16; 131])) /\ take (S (length (base64 [0; 255; 16; 131]))) target' = octets_of (base64 [0; 255; 16; 131]) ++ [0] /\
         drop (S (length (base64 [0; 255; 16; 131]))) target' = drop (S (length (base64 [0; 255; 16; 131]))) (replicate 10 7)
    else rc = -1.
Proof. split; [by vm_compute|]. apply (ntop_correct [0; 255; 16; 131] (replicate 10 7) 10); [solve_bytes|cbn; lia|cbn; lia]. Defined.

(** C36: [lutil_b64_pton] succeeds exactly on the texts that are the base64 text of some
    octets, with white space in any place, if the target has room for them and for
    an octet more when there is padding; then it stores the octets and returns their
    number. In every other case it returns -1, and it never stores outside the
    target. *)
Theorem pton_correct src target targsize : 0 <= targsize <= Z.of_nat (length target) -> targsize < 2 ^ 31 ->
  exists rc target', lutil_b64_pton src (Some target) targsize = Some (rc, Some target') /\ length target' = length target /\
    ((exists data, bytes_ok data /\ strip src = base64 data /\ Z.of_nat (room data) <= targsize /\ rc = Z.of_nat (length data) /\ take (length data) target' = data) \/
     (rc = -1 /\ forall data, bytes_ok data -> strip src = base64 data -> targsize < Z.of_nat (room data))).
Proof.
  intros Ht Hs. unfold lutil_b64_pton. rewrite pton_loop_strip.
  destruct (decode_all targsize Hs (strip src) [] target (strip_spaceless src) Ht) as (rc & t & E & Hl & Hd). exists rc, t. split; [exact E|]. split; [done|].
  destruct Hd as [(data & Hc & Hr & -> & Hv)|[-> Hno]]; [left; exists data|right].
  - split; [by eapply codes_bytes|]. by split; [apply codes_base64|].
  - split; [done|]. intros data Hd E'. specialize (Hno data). rewrite E' in Hno. by apply Hno, base64_codes.
Qed.

Lemma pton_correct_witness : lutil_b64_pton (kw " AP8Q gw = =") (Some (replicate 6 9)) 6 = Some (4, Some [0; 255; 16; 131; 0; 9]) /\
  exists rc target', lutil_b64_pton (kw " AP8Q gw = =") (Some (replicate 6 9)) 6 = Some (rc, Some target') /\ length target' = 6%nat /\
    ((exists data, bytes_ok data /\ strip (kw " AP8Q gw = =") = base64 data /\ Z.of_nat (room data) <= 6 /\ rc = Z.of_nat (length data) /\ take (length data) target' = data) \/
     (rc = -1 /\ forall data, bytes_ok data -> strip (kw " AP8Q gw = =") = base64 data -> 6 < Z.of_nat (room data))).
Proof. split; [by vm_compute|]. apply (pton_correct (kw " AP8Q gw = =") (replicate 6 9) 6); [cbn; lia|lia]. Defined.

(** The bits behind the last octet are only tested in the target: without one the
    length of a text that the decoder refuses is reported. *)
Lemma pton_length_only : lutil_b64_pton (kw "AB==") None 0 = Some (1, None) /\ exists t, lutil_b64_pton (kw "AB==") (Some [0; 0]) 2 = Some (-1, t).
Proof. split; [by vm_compute|]. eexists. by vm_compute. Qed.
