(* ===== verification/Ldif.v ===== *)
(** * LDIF (libraries/libreldap/ldif.c, lbase64.c)

    Writing a line of an attribute with its value, folded to a width, and reading lines
    and values back. A buffer is the list of its characters; storing outside it gives
    [None], and so does a failed assertion. A C string is the list of its characters
    without the NUL at its end. *)

From Stdlib Require Import Ascii String.
From S2P Require Import Prelude Text.

Local Open Scope Z_scope.
Local Abbreviation length := List.length.

Definition NUL : ascii := "000"%char.
Definition NL : ascii := "010"%char.
Definition CR : ascii := "013"%char.
Definition CONTINUED_LINE_MARKER : ascii := CR.
Definition LDIF_LINE_WIDTH : Z := 76.
Definition LDIF_LINE_WIDTH_MAX : Z := 2 ^ 64 - 1.
Definition LDIF_KLUDGE : Z := 2.

Definition LDIF_PUT_NOVALUE : Z := 0x0000.
Definition LDIF_PUT_VALUE : Z := 0x0001.
Definition LDIF_PUT_TEXT : Z := 0x0002.
Definition LDIF_PUT_BINARY : Z := 0x0004.
Definition LDIF_PUT_B64 : Z := 0x0008.
Definition LDIF_PUT_COMMENT : Z := 0x0010.
Definition LDIF_PUT_URL : Z := 0x0020.
Definition LDIF_PUT_SEP : Z := 0x0040.

(** ** Attributes that are always encoded *)

(** Names and OIDs: what [must_b64_encode] lists. *)
Definition default_must_b64_encode : list (text * text) := [(kw "userPassword", kw "2.5.4.35")].

Definition ldif_must_b64_encode_register (must : list (text * text)) (name oid : text) : Z * list (text * text) :=
  if existsb (fun m => (length m.1 =? length name)%nat && strcasecmp_eq name m.1) must then (1, must) else (0, must ++ [(name, oid)]).

Definition ldif_must_b64_encode_release (must : list (text * text)) : list (text * text) := default_must_b64_encode.

Definition ldif_must_b64_encode (must : list (text * text)) (s : text) : bool :=
  existsb (fun m => ((length m.1 =? length s)%nat && strcasecmp_eq m.1 s) || bool_decide (m.2 = s)) must.

(** ** Writing *)

(** The buffer and the place [*out]. *)
Record writer := mkOut { w_mem : text; w_out : nat }.

Definition put (w : writer) (c : ascii) : option writer :=
  mem ← mem_write w.(w_mem) w.(w_out) [c]; Some (mkOut mem (S w.(w_out))).

Fixpoint puts (w : writer) (s : text) : option writer :=
  match s with [] => Some w | c :: s => w ← put w c; puts w s end.

(** A new line, where there is no room for another character. *)
Definition fold_line (full : bool) (w : writer) (len : Z) : option (writer * Z) :=
  if full then w ← put w NL; w ← put w " "; Some (w, 1) else Some (w, len).

(** Characters as they are: the loop for text, URLs, encoded values and comments. *)
Fixpoint put_text (wrap : Z) (val : text) (w : writer) (len : Z) : option (writer * Z) :=
  match val with
  | [] => Some (w, len)
  | c :: val => '(w, len) ← fold_line (len >? wrap) w len; w ← put w c; put_text wrap val w (len + 1)
  end.

Definition isascii (c : ascii) : bool := ascii_code c <? 128.
Definition isprint (c : ascii) : bool := (32 <=? ascii_code c) && (ascii_code c <? 127).
Definition isgraph (c : ascii) : bool := (32 <? ascii_code c) && (ascii_code c <? 127).

(** A value, up to a character that has to be encoded; whether there is one. *)
Fixpoint put_value (wrap : Z) (val : text) (w : writer) (len : Z) : option (writer * bool) :=
  match val with
  | [] => Some (w, false)
  | c :: val =>
      if negb (isascii c) || negb (isprint c) then Some (w, true) else
      '(w, len) ← fold_line (len >=? wrap) w len;
      w ← put w c; put_value wrap val w (len + 1)
  end.

Definition nib2b64 : text := kw "ABCDEFGHIJKLMNOPQRSTUVWXYZabcdefghijklmnopqrstuvwxyz0123456789+/".

(** The digits of 24 bits from digit [i] on; the last [pad] are pads. *)
Fixpoint put_digits (n i pad : nat) (wrap bits : Z) (w : writer) (len : Z) : option (writer * Z) :=
  match n with
  | O => Some (w, len)
  | S n =>
      '(w, len) ← fold_line (len >=? wrap) w len;
      c ← (if (i + pad <? 4)%nat then arr_get nib2b64 (Z.shiftr (Z.land bits 0xfc0000) 18) else Some "="%char);
      w ← put w c;
      put_digits n (S i) pad wrap (u64 (Z.shiftl bits 6)) w (len + 1)
  end.

(** Three octets as 24 bits. *)
Definition bits24 (b0 b1 b2 : ascii) : Z :=
  Z.lor (Z.lor (Z.shiftl (Z.land (ascii_code b0) 0xff) 16) (Z.shiftl (Z.land (ascii_code b1) 0xff) 8)) (Z.land (ascii_code b2) 0xff).

Fixpoint put_base64 (wrap : Z) (val : text) (w : writer) (len : Z) : option (writer * Z) :=
  match val with
  | b0 :: b1 :: b2 :: val => '(w, len) ← put_digits 4 0 0 wrap (bits24 b0 b1 b2) w len; put_base64 wrap val w len
  | [b0; b1] => put_digits 4 0 1 wrap (bits24 b0 b1 NUL) w len
  | [b0] => put_digits 4 0 2 wrap (bits24 b0 NUL NUL) w len
  | [] => Some (w, len)
  end.

(** [strstr]: whether the text occurs. *)
Fixpoint occurs (s t : text) : bool :=
  bool_decide (take (length s) t = s) || match t with [] => false | _ :: t => occurs s t end.

(** Whether a value may stand as it is, as far as its ends and the attribute decide. *)
Definition plain_value (must : list (text * text)) (type : Z) (name val : text) : bool :=
  match val with
  | [] => false
  | c :: _ =>
      (type =? LDIF_PUT_VALUE) && isgraph c && negb (Ascii.eqb c ":") && negb (Ascii.eqb c "<") && isgraph (List.last val NUL) &&
      negb (occurs (kw ";binary") name) && negb (ldif_must_b64_encode must name)
  end.

(** [val] are the [vlen] characters of the value; [name] is a null pointer for a
    comment without one. *)
Definition ldif_sput_wrap (must : list (text * text)) (w : writer) (type : Z) (name : option text) (val : text) (wrap : Z) : option writer :=
  let wrap := if wrap =? 0 then LDIF_LINE_WIDTH + LDIF_KLUDGE else wrap in
  let vlen := length val in
  if type =? LDIF_PUT_SEP then put w NL else
  '(w, len) ← (if type =? LDIF_PUT_COMMENT then
                 w ← put w "#"; if (vlen =? 0)%nat then Some (w, 1) else w ← put w " "; Some (w, 2)
               else Some (w, 0));
  '(w, len) ← match name with
              | Some name =>
                  w ← puts w name;
                  let len := len + Z.of_nat (length name) in
                  if negb (type =? LDIF_PUT_COMMENT) then w ← put w ":"; Some (w, len + 1) else Some (w, len)
              | None => if type =? LDIF_PUT_COMMENT then Some (w, len) else None
              end;
  if (vlen =? 0)%nat || (type =? LDIF_PUT_NOVALUE) then put w NL else
  '(w, len) ← (if type =? LDIF_PUT_URL then w ← put w "<"; Some (w, len + 1)
               else if type =? LDIF_PUT_B64 then w ← put w ":"; Some (w, len + 1)
               else Some (w, len));
  if (type =? LDIF_PUT_TEXT) || (type =? LDIF_PUT_URL) || (type =? LDIF_PUT_B64) then
    w ← put w " "; '(w, len) ← put_text wrap val w (len + 1); put w NL
  else if type =? LDIF_PUT_COMMENT then
    '(w, len) ← put_text wrap val w len; put w NL
  else
    name ← name;
    let save := w.(w_out) in
    let savelen := len in
    w ← put w " ";
    '(w, b64) ← (if plain_value must type name val then put_value wrap val w (len + 1) else Some (w, true));
    if negb b64 then put w NL else
    w ← put (mkOut w.(w_mem) save) ":";
    w ← put w " ";
    '(w, len) ← put_base64 wrap val w (savelen + 2);
    put w NL.

Definition ldif_sput (must : list (text * text)) (w : writer) (type : Z) (name : option text) (val : text) : option writer :=
  ldif_sput_wrap must w type name val (LDIF_LINE_WIDTH + LDIF_KLUDGE).

(** The size that a line may need; [None] for a division by zero. *)
Definition LDIF_BASE64_LEN (len : Z) : Z := u64 (u64 (len * 4) / 3 + 3).
Definition LDIF_SIZE_NEEDED_WRAP (nlen vlen wrap : Z) : option Z :=
  let n := u64 (LDIF_BASE64_LEN vlen + nlen + 3) in
  folds ← (if wrap =? 0 then Some (n / (LDIF_LINE_WIDTH - 1) * 2)
           else if wrap =? LDIF_LINE_WIDTH_MAX then Some 0
           else if wrap - 1 =? 0 then None else Some (n / (wrap - 1) * 2));
  Some (u64 (nlen + 4 + LDIF_BASE64_LEN vlen + folds)).

(** [junk] is what the new buffer holds; the result is the buffer and where its NUL
    is. *)
Definition ldif_put_wrap (must : list (text * text)) (junk : nat -> text) (type : Z) (name : option text) (val : text) (wrap : Z) : option (text * nat) :=
  let nlen := match name with Some name => Z.of_nat (length name) | None => 0 end in
  size ← LDIF_SIZE_NEEDED_WRAP nlen (Z.of_nat (length val)) wrap;
  w ← ldif_sput_wrap must (mkOut (junk (Z.to_nat (u64 (size + 1)))) 0) type name val wrap;
  mem ← mem_write w.(w_mem) w.(w_out) [NUL];
  Some (mem, w.(w_out)).

Definition ldif_put (must : list (text * text)) (junk : nat -> text) (type : Z) (name : option text) (val : text) : option (text * nat) :=
  ldif_put_wrap must junk type name val LDIF_LINE_WIDTH.

(** The loop stops at the NUL behind the string. *)
Definition ldif_is_not_printable (val : text) (vlen : nat) : Z :=
  if (vlen =? 0)%nat then -1
  else if isgraph (char_at val 0) && negb (Ascii.eqb (char_at val 0) ":") && negb (Ascii.eqb (char_at val 0) "<") && isgraph (char_at val (vlen - 1)) then
    if existsb (fun c => negb (isascii c) || negb (isprint c)) val then 1 else 0
  else 1.

(** ** Lines *)

(** [strchr] for a new line: what is before it, and what is behind it when there is one. *)
Fixpoint split_at (ch : ascii) (s : text) : option (text * text) :=
  match s with
  | [] => None
  | c :: s => if Ascii.eqb c ch then Some ([], s) else '(u, v) ← split_at ch s; Some (c :: u, v)
  end.

(** From the place of [*next] up to the end of the line: the line, with markers where
    it was folded, and the next place; [None] is a null pointer. *)
Fixpoint read_line (s : text) : text * option text :=
  match s with
  | [] => ([], None)
  | c :: r =>
      if Ascii.eqb c NL then
        match r with
        | c1 :: r1 =>
            if Ascii.eqb c1 " " then let '(line, next) := read_line r1 in (CONTINUED_LINE_MARKER :: CONTINUED_LINE_MARKER :: line, next)
            else if Ascii.eqb c1 CR && Ascii.eqb (char_at r1 0) NL then ([], Some r1)
            else ([], Some r)
        | [] => ([], Some r)
        end
      else let '(line, next) := read_line r in (c :: line, next)
  end.

(** Each turn skips a comment; [None] when the fuel is used up. *)
Fixpoint getline_loop (fuel : nat) (next : option text) : option (option text * option text) :=
  match fuel with
  | O => None
  | S fuel =>
      match next with
      | None => Some (None, None)
      | Some s =>
          if Ascii.eqb (char_at s 0) NL || Ascii.eqb (char_at s 0) NUL then Some (None, next) else
          let '(line, next) := read_line s in
          if Ascii.eqb (char_at line 0) "#" then getline_loop fuel next else Some (Some line, next)
      end
  end.

(** The line, or a null pointer, and [*next]. *)
Definition ldif_getline (next : option text) : option (option text * option text) :=
  getline_loop (S (length (default [] next))) next.

Fixpoint ldif_countlines (buf : text) : Z :=
  match buf with
  | [] => 0
  | c :: buf => (if Ascii.eqb c NL && negb (Ascii.eqb (char_at buf 0) " ") then 1 else 0) + ldif_countlines buf
  end.

(** ** Decoding in place *)

Definition b642nib : list Z :=
  replicate 43 0xff ++ [0x3e; 0xff; 0xff; 0xff; 0x3f] ++ ((fun i => 0x34 + Z.of_nat i) <$> seq 0 10) ++ replicate 7 0xff ++
  ((fun i => Z.of_nat i) <$> seq 0 26) ++ replicate 6 0xff ++ ((fun i => 0x1a + Z.of_nat i) <$> seq 0 26) ++ replicate 5 0xff.

(** Whether [n] characters at [p] are digits or pads. *)
Fixpoint b64_valid (n : nat) (mem : list Z) (p : Z) : option bool :=
  match n with
  | O => Some true
  | S n =>
      c ← arr_get mem p; d ← arr_get b642nib (Z.land c 0x7f);
      if negb (c =? 0x3d) && (negb (Z.land c 0x80 =? 0) || (d >? 0x3f)) then Some false else b64_valid n mem (p + 1)
  end.

(** [nib], a [char] *)
Definition b64_nib (mem : list Z) (p : Z) : option Z :=
  c ← arr_get mem p; d ← arr_get b642nib (Z.land c 0x7f); Some (swrap 8 d).

Definition or_byte (mem : list Z) (i v : Z) : option (list Z) :=
  b ← arr_get mem i; arr_set mem i (u8 (Z.lor b v)).

(** The buffer, [p], [byte] and [bv_len]; a result is the return value with the buffer
    and the length. *)
Definition b64_step (end_ : Z) (s : list Z * Z * Z * Z) : option (list Z * Z * Z * Z + Z * list Z * Z) :=
  let '(mem, p, byte, len) := s in
  let finish mem len := mem ← arr_set mem len 0; Some (inr (0, mem, len)) in
  if p >=? end_ then finish mem len else
  ok ← b64_valid 4 mem p;
  if negb ok then Some (inr (-1, mem, len)) else
  nib ← b64_nib mem p;
  mem ← arr_set mem byte (u8 (Z.shiftl nib 2));
  nib ← b64_nib mem (p + 1);
  mem ← or_byte mem byte (Z.shiftr nib 4);
  mem ← arr_set mem (byte + 1) (u8 (Z.shiftl (Z.land nib 0x0f) 4));
  c ← arr_get mem (p + 2);
  if c =? 0x3d then finish mem (len + 1) else
  nib ← b64_nib mem (p + 2);
  mem ← or_byte mem (byte + 1) (Z.shiftr nib 2);
  mem ← arr_set mem (byte + 2) (u8 (Z.shiftl (Z.land nib 0x03) 6));
  c ← arr_get mem (p + 3);
  if c =? 0x3d then finish mem (len + 2) else
  nib ← b64_nib mem (p + 3);
  mem ← or_byte mem (byte + 2) nib;
  Some (inl (mem, p + 4, byte + 3, len + 3)).

Definition ldap_int_decode_b64_inplace (mem : list Z) (len : Z) : option (Z * list Z * Z) :=
  run (b64_step len) 63 (mem, 0, 0, 0).

(** ** Values *)

(** White space before the colon becomes NULs; the first character stays. *)
Fixpoint trim_spaces (s : text) : text :=
  match s with
  | [] => []
  | c :: s => let s := trim_spaces s in (if isspace c && forallb (fun c => Ascii.eqb c NUL) s then NUL else c) :: s
  end.
Definition trim_type (s : text) : text := match s with [] => [] | c :: s => c :: trim_spaces s end.

(** The [bv_len] octets of the type, those of the value and whether the value is new
    memory; inside, [None] stands for the result -1. [fetch] is [ldif_fetch_url]. *)
Definition ldif_parse_line2 (fetch : text -> option (list Z)) (line : text) : option (option (text * list Z * bool)) :=
  let line := skip_space line in
  match split_at ":" line with
  | None => Some None
  | Some (type, s) =>
      let type := trim_type type in
      let '(s, url, b64) := (if Ascii.eqb (char_at s 0) "<" then (tl s, true, false)
                             else if Ascii.eqb (char_at s 0) ":" then (tl s, false, true) else (s, false, false)) in
      let s := List.filter (fun c => negb (Ascii.eqb c CONTINUED_LINE_MARKER)) (skip_space s) in
      let octets := ascii_code <$> s in
      if b64 then
        match s with
        | [] => Some None
        | _ =>
            '(rc, mem, len) ← ldap_int_decode_b64_inplace (octets ++ [0]) (Z.of_nat (length s));
            Some (if negb (rc =? 0) then None else Some (type, take (Z.to_nat len) mem, false))
        end
      else if url then
        match s with
        | [] => Some None
        | _ => Some (value ← fetch s; Some (type, value, true))
        end
      else Some (Some (type, octets, false))
  end.

(** The type as a C string. *)
Definition ldif_parse_line (fetch : text -> option (list Z)) (line : text) : option (option (text * list Z)) :=
  r ← ldif_parse_line2 fetch line;
  Some ('(type, value, _) ← r; Some (match split_at NUL type with Some (type, _) => type | None => type end, value)).

(** ** Records *)

Definition LDIF_MAXLINE : nat := 4096.

Record FILE := mkFILE { f_rest : text; f_eof : bool }.

(** At most [n] characters, up to a new line or the end of the file. *)
Fixpoint fgets_loop (n : nat) (s : text) : text * FILE :=
  match n with
  | O => ([], mkFILE s false)
  | S n =>
      match s with
      | [] => ([], mkFILE [] true)
      | c :: s => if Ascii.eqb c NL then ([c], mkFILE s false) else let '(line, f) := fgets_loop n s in (c :: line, f)
      end
  end.

Definition fgets (size : nat) (f : FILE) : option text * FILE :=
  let '(line, f) := fgets_loop (size - 1) f.(f_rest) in
  (match line with [] => None | _ => Some line end, f).

(** The characters before the first NUL: what [strlen] and [strcpy] see. *)
Definition c_string (s : text) : text := match split_at NUL s with Some (u, _) => u | None => s end.

(** [LDIFFP]: the file, and those it was included from. *)
Record LDIFFP := mkLdif { lf_fp : FILE; lf_prev : list FILE }.

(** Back to the file that includes a file at its end. *)
Fixpoint pop_files (fp : FILE) (prev : list FILE) : LDIFFP * bool :=
  if fp.(f_eof) then match prev with [] => (mkLdif fp [], true) | f :: prev => pop_files f prev end
  else (mkLdif fp prev, false).

(** The variables of [ldif_read_record]: the file, the line number, the buffer, and
    [buflen] when it is not the buffer's size. *)
Record reader := mkReader {
  r_lfp : LDIFFP; r_lno : Z; r_buf : text; r_buflen : Z;
  r_lcur : Z; r_last_ch : ascii; r_found : bool; r_top_comment : bool }.

Section records.
(** [ldif_open_url]; [realloc] (what it leaves behind the old octets). *)
Variables (open_url : text -> option FILE) (junk : nat -> text).

Definition realloc (buf : text) (n : Z) : text := take (Z.to_nat n) (buf ++ junk (Z.to_nat n - length buf)).

(** [last:] the line [str] goes behind what the buffer has. [len] need not be its length. *)
Definition append_line (r : reader) (str : text) (len : Z) : option reader :=
  let '(buf, buflen) :=
    if u64 (r.(r_buflen) - r.(r_lcur)) <=? len then let n := i32 (r.(r_buflen) + len + Z.of_nat LDIF_MAXLINE) in (realloc r.(r_buf) n, n)
    else (r.(r_buf), r.(r_buflen)) in
  buf ← mem_write buf (Z.to_nat r.(r_lcur)) (str ++ [NUL]);
  Some (mkReader r.(r_lfp) r.(r_lno) buf buflen (r.(r_lcur) + len) r.(r_last_ch) r.(r_found) r.(r_top_comment)).

(** [last_ch = line[len - 1]] *)
Definition set_last (r : reader) (str : text) (len : Z) : option reader :=
  c ← arr_get str (len - 1);
  Some (mkReader r.(r_lfp) r.(r_lno) r.(r_buf) r.(r_buflen) r.(r_lcur) c r.(r_found) r.(r_top_comment)).

Definition squash (str : text) : text * Z :=
  let len := Z.of_nat (length str) in
  if (len >? 1) && Ascii.eqb (char_at str (length str - 2)) CR then (<[(length str - 2)%nat := NL]> str, len - 1) else (str, len).

(** [include:]: the rest of the file waits until the included one is read. *)
Definition include (r : reader) (str : text) (len : Z) : option (reader + Z * reader) :=
  let name := if Ascii.eqb (char_at str (Z.to_nat (len - 1))) NL then take (Z.to_nat (len - 1)) str else str in
  match open_url (skip_space (drop 8 name)) with
  | None => Some (inr (-1, mkReader r.(r_lfp) r.(r_lno) r.(r_buf) r.(r_buflen) r.(r_lcur) r.(r_last_ch) false r.(r_top_comment)))
  | Some fp2 =>
      Some (inl (mkReader (mkLdif fp2 (r.(r_lfp).(lf_fp) :: r.(r_lfp).(lf_prev))) r.(r_lno) r.(r_buf) r.(r_buflen) r.(r_lcur) NL false r.(r_top_comment)))
  end.

Definition finish_record (r : reader) : option (reader + Z * reader) := Some (inr (if r.(r_found) then 1 else 0, r)).

Definition next_line (r : reader) (str : text) (len : Z) : option (reader + Z * reader) := r ← set_last r str len; Some (inl r).

Definition last_line (r : reader) (str : text) (len : Z) : option (reader + Z * reader) := r ← append_line r str len; next_line r str len.

(** A line that starts where one ended. *)
Definition start_line (r : reader) (str : text) (len : Z) : option (reader + Z * reader) :=
  let r := mkReader r.(r_lfp) (u64 (r.(r_lno) + 1)) r.(r_buf) r.(r_buflen) r.(r_lcur) r.(r_last_ch) r.(r_found) r.(r_top_comment) in
  let c := char_at str 0 in
  if Ascii.eqb c NL then
    if negb r.(r_found) then
      next_line (mkReader r.(r_lfp) r.(r_lno) r.(r_buf) r.(r_buflen) 0 r.(r_last_ch) false false) str len
    else finish_record r
  else if r.(r_found) then last_line r str len
  else if Ascii.eqb c "#" then
    last_line (mkReader r.(r_lfp) r.(r_lno) r.(r_buf) r.(r_buflen) r.(r_lcur) r.(r_last_ch) false true) str len
  else if r.(r_top_comment) && Ascii.eqb c " " then last_line r str len
  else
    let r := mkReader r.(r_lfp) r.(r_lno) r.(r_buf) r.(r_buflen) r.(r_lcur) r.(r_last_ch) true r.(r_top_comment) in
    if (48 <=? ascii_code c) && (ascii_code c <=? 57) then next_line r str len
    else if strcasecmp_eq (take 8 str) (kw "include:") then include r str len
    else last_line r str len.

Definition read_step (r : reader) : option (reader + Z * reader) :=
  let '(lfp, stop) := pop_files r.(r_lfp).(lf_fp) r.(r_lfp).(lf_prev) in
  let '(line, fp) := if stop then (None, lfp.(lf_fp)) else fgets LDIF_MAXLINE lfp.(lf_fp) in
  let r := mkReader (mkLdif fp lfp.(lf_prev)) r.(r_lno) r.(r_buf) r.(r_buflen) r.(r_lcur) r.(r_last_ch) r.(r_found) r.(r_top_comment) in
  match line with
  | None => if negb (Ascii.eqb r.(r_last_ch) NL) then r ← append_line r [NL] 1; r ← set_last r [NL] 1; finish_record r else finish_record r
  | Some line =>
      let '(str, len) := squash (c_string line) in
      if Ascii.eqb r.(r_last_ch) NL then start_line r str len else last_line r str len
  end.

(** [fuel]: at most [2 ^ fuel] lines. The result: the return value, and the variables. *)
Definition ldif_read_record (fuel : nat) (lfp : LDIFFP) (lno : Z) (buf : text) (buflen : Z) : option (Z * reader) :=
  run read_step fuel (mkReader lfp lno buf buflen 0 NL false false).
End records.
