(* ===== verification/LdifWrite.v ===== *)
(** * LDIF lines fit their buffers

    [folded]: the characters of a value with a line break wherever there is no room for
    another; [ldif_line]: the line that [ldif_sput_wrap] writes, as a text. *)

From Stdlib Require Import Ascii String.
From S2P Require Import Prelude Text Base64 Ldif.

Local Open Scope Z_scope.
Local Abbreviation length := List.length.

Fixpoint folded (room : Z) (s : text) (len : Z) : text :=
  match s with
  | [] => []
  | c :: s => if len >=? room then NL :: " "%char :: c :: folded room s 2 else c :: folded room s (len + 1)
  end.

(** The length of the last line. *)
Fixpoint fold_len (room : Z) (s : text) (len : Z) : Z :=
  match s with [] => len | _ :: s => fold_len room s (if len >=? room then 2 else len + 1) end.

Lemma folded_app room s t : forall len, folded room (s ++ t) len = folded room s len ++ folded room t (fold_len room s len).
Proof. induction s as [|c s IH]; intros len; [done|]. cbn. case_if; rewrite IH; done. Qed.

Lemma fold_len_app room s t : forall len, fold_len room (s ++ t) len = fold_len room t (fold_len room s len).
Proof. induction s as [|c s IH]; intros len; [done|]. apply IH. Qed.

(** A break for every [room - 1] characters at most. *)
Lemma length_folded room s : 2 <= room -> forall len, 1 <= len ->
  Z.of_nat (length (folded room s len)) <= Z.of_nat (length s) + (len + Z.of_nat (length s) - 1) / (room - 1) * 2.
Proof.
  intros Hr. induction s as [|c s IH]; intros len Hlen; [cbn; pose proof (Z.div_pos (len + 0 - 1) (room - 1) ltac:(lia) ltac:(lia)); lia|].
  cbn [folded]. case_if; zb; cbn [length]; rewrite ?Nat2Z.inj_succ.
  - specialize (IH 2 ltac:(lia)).
    assert ((2 + Z.of_nat (length s) - 1) / (room - 1) + 1 <= (len + Z.succ (Z.of_nat (length s)) - 1) / (room - 1)).
    { rewrite <- Z.div_add by lia. apply Z.div_le_mono; lia. }
    lia.
  - specialize (IH (len + 1) ltac:(lia)). replace (len + 1 + Z.of_nat (length s) - 1) with (len + Z.succ (Z.of_nat (length s)) - 1) in IH by lia. lia.
Qed.

Lemma folded_wide room s : forall len, len + Z.of_nat (length s) <= room -> folded room s len = s.
Proof.
  induction s as [|c s IH]; intros len Hl; [done|]. cbn [folded]. cbn [length] in Hl. case_if; zb; [lia|]. f_equal. apply IH. lia.
Qed.

(** ** The writer *)

(** What it is after writing [t]. *)
Definition adv (w : writer) (t : text) : writer :=
  mkOut (take w.(w_out) w.(w_mem) ++ t ++ drop (w.(w_out) + length t) w.(w_mem)) (w.(w_out) + length t).

Definition fits (w : writer) (t : text) : Prop := (w.(w_out) + length t <= length w.(w_mem))%nat.

Lemma fits_app w s t : fits w (s ++ t) -> fits w s.
Proof. unfold fits. rewrite length_app. lia. Qed.

Lemma adv_nil w : fits w [] -> adv w [] = w.
Proof. destruct w as [mem out]. unfold adv, fits. cbn. intros. rewrite Nat.add_0_r, take_drop. done. Qed.

Lemma length_adv w t : fits w t -> length (adv w t).(w_mem) = length w.(w_mem).
Proof. unfold fits, adv. cbn. intros. rewrite !length_app, length_take, length_drop. lia. Qed.

Lemma take_adv w t : fits w t -> take (adv w t).(w_out) (adv w t).(w_mem) = take w.(w_out) w.(w_mem) ++ t.
Proof.
  unfold fits, adv. cbn. intros. rewrite app_assoc. apply take_app_length'. rewrite length_app, length_take. lia.
Qed.

Lemma put_adv w t c : fits w (t ++ [c]) -> put (adv w t) c = Some (adv w (t ++ [c])).
Proof.
  unfold fits, put, adv. cbn. rewrite length_app. cbn [length]. intros H.
  destruct (lookup_lt_is_Some_2 (w_mem w) (w_out w + length t)) as [x Hx]; [lia|].
  rewrite (drop_S _ _ _ Hx), app_assoc. change (x :: ?l) with ([x] ++ l).
  rewrite mem_write_app; [|rewrite length_app, length_take; lia|done].
  cbn [mbind option_bind]. rewrite <- !app_assoc. repeat f_equal; lia.
Qed.

Lemma puts_adv w s : forall t, fits w (t ++ s) -> puts (adv w t) s = Some (adv w (t ++ s)).
Proof.
  induction s as [|c s IH]; intros t Hf; [by rewrite app_nil_r|]. replace (t ++ c :: s) with ((t ++ [c]) ++ s) in * by by rewrite <- app_assoc.
  cbn [puts]. rewrite put_adv by by eapply fits_app. apply IH. done.
Qed.

(** A character, with the break before it. *)
Lemma fold_put {A} w t c full len (f : writer * Z -> option A) : fits w (t ++ (if full : bool then [NL; " "%char; c] else [c])) ->
  ('(w, len) ← fold_line full (adv w t) len; w ← put w c; f (w, len + 1)) = f (adv w (t ++ if full then [NL; " "%char; c] else [c]), if full then 2 else len + 1).
Proof.
  intros Hf. unfold fold_line. destruct full; [|cbn [mbind option_bind]; by rewrite put_adv].
  change [NL; " "%char; c] with ([NL] ++ [" "%char] ++ [c]) in *. rewrite !app_assoc in *.
  rewrite put_adv by eauto using fits_app. cbn [mbind option_bind]. rewrite put_adv by eauto using fits_app. cbn [mbind option_bind]. by rewrite put_adv.
Qed.

Lemma put_text_adv w wrap val : forall t len, fits w (t ++ folded (wrap + 1) val len) ->
  put_text wrap val (adv w t) len = Some (adv w (t ++ folded (wrap + 1) val len), fold_len (wrap + 1) val len).
Proof.
  induction val as [|c val IH]; intros t len Hf; [by rewrite app_nil_r|].
  assert ((len >? wrap) = (len >=? wrap + 1)) as E by (rewrite Z.gtb_ltb, Z.geb_leb; destruct (Z.ltb_spec wrap len), (Z.leb_spec (wrap + 1) len); lia).
  cbn [put_text folded fold_len] in *. rewrite (fold_put w t c _ len (fun '(w, len) => put_text wrap val w len)); rewrite E; case_if;
    try (rewrite IH; [by rewrite <- app_assoc|]); try (by rewrite <- app_assoc); [apply (fits_app _ _ (folded (wrap + 1) val 2))|apply (fits_app _ _ (folded (wrap + 1) val (len + 1)))]; by rewrite <- app_assoc.
Qed.

Definition plain_char (c : ascii) : bool := isascii c && isprint c.

Lemma put_value_adv w wrap val : forall t len, fits w (t ++ folded wrap val len) ->
  exists u b, put_value wrap val (adv w t) len = Some (adv w (t ++ u), b) /\ fits w (t ++ u) /\ b = negb (forallb plain_char val) /\ (b = false -> u = folded wrap val len).
Proof.
  induction val as [|c val IH]; intros t len Hf; [exists [], false; rewrite app_nil_r in *; auto|].
  cbn [put_value folded forallb] in *. rewrite <- negb_andb. unfold plain_char at 1. destruct (isascii c && isprint c).
  2: { exists [], true. rewrite app_nil_r. split_and!; try done. by eapply fits_app. }
  cbn [negb andb]. set (u0 := if len >=? wrap then [NL; " "%char; c] else [c]). set (len0 := if len >=? wrap then 2 else len + 1).
  assert ((if len >=? wrap then NL :: " "%char :: c :: folded wrap val 2 else c :: folded wrap val (len + 1)) = u0 ++ folded wrap val len0) as E
    by (unfold u0, len0; by case_if).
  rewrite E in *. rewrite app_assoc in Hf.
  rewrite (fold_put w t c _ len (fun '(w, len) => put_value wrap val w len)) by by apply fits_app in Hf.
  destruct (IH (t ++ u0) len0 Hf) as (u & b & Hu & Hfu & Hb & He). fold u0 len0. rewrite Hu.
  exists (u0 ++ u), b. rewrite app_assoc. split_and!; try done. intros H. by rewrite He.
Qed.

(** ** Encoded values *)

Lemma sextet_at bits i : 0 <= i -> arr_get nib2b64 (Z.shiftr (Z.land (u64 (bits * 64 ^ i)) 0xfc0000) 18) = Some (char64 (bits * 64 ^ i / 2 ^ 18 mod 64)).
Proof.
  intros Hi. set (x := bits * 64 ^ i).
  assert (Z.shiftr (Z.land (u64 x) 0xfc0000) 18 = x / 2 ^ 18 mod 64) as ->.
  { rewrite Z.shiftr_land. change (Z.shiftr 0xfc0000 18) with (2 ^ 6 - 1). rewrite land_ones_mod, Z.shiftr_div_pow2 by lia.
    unfold uwrap. change (2 ^ 64) with (2 ^ 18 * (2 ^ 6 * 2 ^ 40)). rewrite Z.rem_mul_r by lia.
    rewrite Z.mul_comm, Z.div_add, Z.rem_mul_r by lia. change 64 with (2 ^ 6).
    rewrite Z.div_small by (apply Z.mod_pos_bound; lia). rewrite Z.add_0_l, Z.mul_comm, Z.mod_add by lia. apply Z.mod_mod. lia. }
  change nib2b64 with Base64. unfold char64. destruct (arr_get_is_Some Base64 (x / 2 ^ 18 mod 64)) as [c ->]; [|done].
  change (Z.of_nat (length Base64)) with 64. apply Z.mod_pos_bound. lia.
Qed.

Definition digits24 (bits : Z) (pad : nat) : text := take (4 - pad) (digits64 bits) ++ replicate pad Pad64.

(** One digit. *)
Lemma put_digit w wrap bits i pad d n t len (c := if (i + pad <? 4)%nat then char64 (bits * 64 ^ Z.of_nat i / 2 ^ 18 mod 64) else Pad64) :
  d = u64 (bits * 64 ^ Z.of_nat i) -> fits w (t ++ folded wrap [c] len) ->
  put_digits (S n) i pad wrap d (adv w t) len =
  put_digits n (S i) pad wrap (u64 (bits * 64 ^ Z.of_nat (S i))) (adv w (t ++ folded wrap [c] len)) (fold_len wrap [c] len).
Proof.
  intros -> Hf. cbn [put_digits].
  assert ((if (i + pad <? 4)%nat then arr_get nib2b64 (Z.shiftr (Z.land (u64 (bits * 64 ^ Z.of_nat i)) 0xfc0000) 18) else Some "="%char) = Some c) as Hc
    by (unfold c; case_if; [apply sextet_at; lia|done]).
  rewrite Hc. assert (u64 (Z.shiftl (u64 (bits * 64 ^ Z.of_nat i)) 6) = u64 (bits * 64 ^ Z.of_nat (S i))) as ->.
  { rewrite Z.shiftl_mul_pow2 by lia. unfold uwrap. rewrite Z.mul_mod_idemp_l by lia. rewrite Nat2Z.inj_succ, Z.pow_succ_r by lia. f_equal. lia. }
  cbn [mbind option_bind]. rewrite (fold_put w t c _ len (fun '(w, len) => put_digits n (S i) pad wrap _ w len)); cbn [folded fold_len] in *; by case_if.
Qed.

Lemma put_digits_adv w wrap bits pad t len : 0 <= bits < 2 ^ 24 -> (pad <= 2)%nat -> fits w (t ++ folded wrap (digits24 bits pad) len) ->
  put_digits 4 0 pad wrap bits (adv w t) len = Some (adv w (t ++ folded wrap (digits24 bits pad) len), fold_len wrap (digits24 bits pad) len).
Proof.
  intros Hb Hp Hf.
  set (c i := if (i + pad <? 4)%nat then char64 (bits * 64 ^ Z.of_nat i / 2 ^ 18 mod 64) else Pad64).
  assert (digits24 bits pad = [c 0%nat] ++ [c 1%nat] ++ [c 2%nat] ++ [c 3%nat]) as E.
  { unfold c, digits24, digits64. change (Z.of_nat 0) with 0. change (Z.of_nat 1) with 1. change (Z.of_nat 2) with 2. change (Z.of_nat 3) with 3.
    replace (bits * 64 ^ 0 / 2 ^ 18 mod 64) with (bits / 262144) by (change (64 ^ 0) with 1; rewrite Z.mul_1_r, Z.mod_small; [done|]; split; [apply Z.div_pos; lia|apply Z.div_lt_upper_bound; lia]).
    replace (bits * 64 ^ 1 / 2 ^ 18) with (bits / 4096) by (change (64 ^ 1) with 64; change (2 ^ 18) with (4096 * 64); by rewrite Z.div_mul_cancel_r by lia).
    replace (bits * 64 ^ 2 / 2 ^ 18) with (bits / 64) by (change (64 ^ 2) with 4096; change (2 ^ 18) with (64 * 4096); by rewrite Z.div_mul_cancel_r by lia).
    replace (bits * 64 ^ 3 / 2 ^ 18) with bits by (change (64 ^ 3) with (2 ^ 18); by rewrite Z.div_mul by lia).
    by destruct pad as [|[|[|]]]; [..|lia]. }
  rewrite E in *. rewrite !folded_app, !fold_len_app in *. rewrite !app_assoc in *.
  rewrite (put_digit w wrap bits) by (eauto 8 using fits_app; rewrite uwrap_small; lia). fold (c 0%nat).
  do 3 (rewrite (put_digit w wrap bits) by eauto 8 using fits_app). done.
Qed.

Lemma bits24_val a b c : bits24 a b c = be_val [ascii_code a; ascii_code b; ascii_code c].
Proof.
  pose proof (ascii_code_range a). pose proof (ascii_code_range b). pose proof (ascii_code_range c).
  unfold bits24. rewrite !land_255, !Z.mod_small by lia. rewrite be_val_3.
  replace (Z.shiftl (ascii_code a) 16) with (Z.shiftl (Z.shiftl (ascii_code a) 8) 8) by by rewrite Z.shiftl_shiftl.
  rewrite <- Z.shiftl_lor, !lor_shiftl_low by lia. lia.
Qed.

Lemma bits24_range a b c : 0 <= bits24 a b c < 2 ^ 24.
Proof.
  pose proof (ascii_code_range a). pose proof (ascii_code_range b). pose proof (ascii_code_range c). rewrite bits24_val, be_val_3. lia.
Qed.

Lemma digits24_3 a b c : digits24 (bits24 a b c) 0 = digits64 (be_val [ascii_code a; ascii_code b; ascii_code c]).
Proof. rewrite <- bits24_val. done. Qed.

Lemma put_base64_adv w wrap val : forall t len, fits w (t ++ folded wrap (base64 (octets_of val)) len) ->
  put_base64 wrap val (adv w t) len = Some (adv w (t ++ folded wrap (base64 (octets_of val)) len), fold_len wrap (base64 (octets_of val)) len).
Proof.
  induction val as [|a|a b|a b c val IH] using triples_ind; intros t len Hf; [by rewrite app_nil_r|..].
  - assert (base64 (octets_of [a]) = digits24 (bits24 a NUL NUL) 2) as E by by rewrite bits24_val. rewrite E in *.
    apply put_digits_adv; [apply bits24_range|lia|done].
  - assert (base64 (octets_of [a; b]) = digits24 (bits24 a b NUL) 1) as E by by rewrite bits24_val. rewrite E in *.
    apply put_digits_adv; [apply bits24_range|lia|done].
  - assert (base64 (octets_of (a :: b :: c :: val)) = digits24 (bits24 a b c) 0 ++ base64 (octets_of val)) as E by by rewrite digits24_3. rewrite E in *.
    rewrite folded_app, fold_len_app, app_assoc in *. cbn [put_base64]. rewrite put_digits_adv by (eauto using fits_app, bits24_range with lia). cbn [mbind option_bind].
    by rewrite IH.
Qed.

(** ** The line *)

Definition ldif_head (type : Z) (name : option text) (val : text) : text :=
  if type =? LDIF_PUT_COMMENT then "#"%char :: match val with [] => [] | _ => [" "%char] end ++ default [] name
  else default [] name ++ [":"%char].

(** A value that stands as it is. *)
Definition is_plain (must : list (text * text)) (type : Z) (name val : text) : bool :=
  plain_value must type name val && forallb plain_char val.

Definition from_head (head mark : text) (room : Z) (s : text) : text :=
  let head := head ++ mark in head ++ folded room s (Z.of_nat (length head)).

Definition ldif_line (must : list (text * text)) (type : Z) (name : option text) (val : text) (wrap : Z) : text :=
  let wrap := if wrap =? 0 then LDIF_LINE_WIDTH + LDIF_KLUDGE else wrap in
  let head := ldif_head type name val in
  if type =? LDIF_PUT_SEP then [NL] else
  (if (length val =? 0)%nat || (type =? LDIF_PUT_NOVALUE) then head
   else if type =? LDIF_PUT_TEXT then from_head head (kw " ") (wrap + 1) val
   else if type =? LDIF_PUT_URL then from_head head (kw "< ") (wrap + 1) val
   else if type =? LDIF_PUT_B64 then from_head head (kw ": ") (wrap + 1) val
   else if type =? LDIF_PUT_COMMENT then from_head head [] (wrap + 1) val
   else if is_plain must type (default [] name) val then from_head head (kw " ") wrap val
   else from_head head (kw ": ") wrap (base64 (octets_of val))) ++ [NL].

Lemma length_base64_le (l : list Z) : Z.of_nat (length (base64 l)) <= Z.of_nat (length l) * 4 / 3 + 3.
Proof. rewrite length_base64, Nat2Z.inj_mul, Nat2Z.inj_div, Nat2Z.inj_add. change (Z.of_nat 4) with 4. change (Z.of_nat 3) with 3. change (Z.of_nat 2) with 2. Z.to_euclidean_division_equations. lia. Qed.

(** The size that the macro states, when nothing wraps around: the line, and folds. *)
Definition ldif_size (nlen vlen wrap : Z) : Z :=
  let n := nlen + 3 + (vlen * 4 / 3 + 3) in
  n + 1 + (if wrap =? 0 then n / (LDIF_LINE_WIDTH - 1) else if wrap =? LDIF_LINE_WIDTH_MAX then 0 else n / (wrap - 1)) * 2.

Lemma LDIF_SIZE_NEEDED_WRAP_Some nlen vlen wrap : 0 <= nlen -> 0 <= vlen -> nlen + vlen < 2 ^ 60 -> 0 <= wrap < 2 ^ 64 -> wrap <> 1 ->
  LDIF_SIZE_NEEDED_WRAP nlen vlen wrap = Some (ldif_size nlen vlen wrap) /\ 0 <= ldif_size nlen vlen wrap < 2 ^ 64 - 1.
Proof.
  intros Hn Hv Hs Hw H1. unfold LDIF_SIZE_NEEDED_WRAP, LDIF_BASE64_LEN, ldif_size, LDIF_LINE_WIDTH_MAX.
  assert (0 <= vlen * 4 / 3 <= 2 * vlen) as Hb by (Z.to_euclidean_division_equations; lia).
  rewrite !(uwrap_small 64 (vlen * 4)), !(uwrap_small 64 (vlen * 4 / 3 + 3)), (uwrap_small 64 (_ + nlen + 3)) by lia.
  replace (vlen * 4 / 3 + 3 + nlen + 3) with (nlen + 3 + (vlen * 4 / 3 + 3)) by lia. set (n := nlen + 3 + (vlen * 4 / 3 + 3)).
  assert (forall d, 1 <= d -> 0 <= n / d <= n) as Hd.
  { intros d Hd. split; [apply Z.div_pos; lia|]. apply Z.div_le_upper_bound; [lia|]. nia. }
  pose proof (Hd (LDIF_LINE_WIDTH - 1) ltac:(unfold LDIF_LINE_WIDTH; lia)) as H75.
  case_if; zb; [|case_if; zb; [|destruct (Z.eqb_spec (wrap - 1) 0); [lia|]; pose proof (Hd (wrap - 1) ltac:(lia))]];
    cbn [mbind option_bind]; rewrite uwrap_small by lia; split; (lia || f_equal; lia).
Qed.

Definition real_wrap (wrap : Z) : Z := if wrap =? 0 then LDIF_LINE_WIDTH + LDIF_KLUDGE else wrap.

(** Folded characters have room in it. *)
Lemma folded_size head s nlen vlen wrap room :
  0 <= nlen -> 0 <= vlen -> nlen + vlen < 2 ^ 60 -> 0 <= wrap < 2 ^ 64 -> wrap <> 1 -> (1 <= length head)%nat ->
  Z.of_nat (length head) + Z.of_nat (length s) <= nlen + 3 + (vlen * 4 / 3 + 3) -> real_wrap wrap <= room ->
  Z.of_nat (length (head ++ folded room s (Z.of_nat (length head)))) < ldif_size nlen vlen wrap.
Proof.
  intros Hn Hv Hs Hw H1 Hh Hl Hr. unfold ldif_size, real_wrap, LDIF_LINE_WIDTH, LDIF_KLUDGE in *. set (n := nlen + 3 + (vlen * 4 / 3 + 3)) in *.
  rewrite length_app, Nat2Z.inj_add.
  assert (n < 2 ^ 63) by (unfold n; Z.to_euclidean_division_equations; lia).
  destruct (Z.eqb_spec wrap LDIF_LINE_WIDTH_MAX) as [->|Hm].
  { unfold LDIF_LINE_WIDTH_MAX in *. change (2 ^ 64 - 1 =? 0) with false in *. cbv iota in *. rewrite folded_wide by lia. lia. }
  assert (2 <= room) as H2 by (case_if_in Hr; zb; lia).
  pose proof (length_folded room s H2 (Z.of_nat (length head)) ltac:(lia)) as Hf.
  assert (forall d, 1 <= d <= room - 1 -> (Z.of_nat (length head) + Z.of_nat (length s) - 1) / (room - 1) <= n / d) as Hd.
  { intros d Hd. transitivity (n / (room - 1)); [apply Z.div_le_mono; lia|]. apply Z.div_le_compat_l; lia. }
  case_if; zb; [specialize (Hd (76 - 1) ltac:(lia)); lia|specialize (Hd (wrap - 1) ltac:(lia)); lia].
Qed.

(** ** Writing it *)

Section writing.
Context (must : list (text * text)) (w : writer) (type : Z) (name : option text) (val : text) (wrap : Z).

Let nlen : Z := Z.of_nat (length (default [] name)).
Let vlen : Z := Z.of_nat (length val).

Hypothesis named : name <> None \/ type = LDIF_PUT_COMMENT \/ type = LDIF_PUT_SEP.
Hypothesis sizes : nlen + vlen < 2 ^ 60.
Hypothesis wrap_ok : 0 <= wrap < 2 ^ 64 /\ wrap <> 1.
Hypothesis enough : Z.of_nat (w_out w) + ldif_size nlen vlen wrap <= Z.of_nat (length (w_mem w)).

Lemma fits_small t : Z.of_nat (length t) < ldif_size nlen vlen wrap -> fits w (t ++ [NL]).
Proof. unfold fits. rewrite length_app. cbn. lia. Qed.

Lemma ldif_size_min : nlen + 3 < ldif_size nlen vlen wrap.
Proof.
  pose proof (folded_size (replicate (Z.to_nat (nlen + 3)) NL) [] nlen vlen wrap (real_wrap wrap)) as H.
  rewrite length_app, length_replicate in H. cbn in H. rewrite Nat.add_0_r, Z2Nat.id in H by lia. apply H; try lia.
  pose proof (Z.div_pos (vlen * 4) 3). lia.
Qed.

Lemma length_head : (1 <= length (ldif_head type name val))%nat /\
  Z.of_nat (length (ldif_head type name val)) <= nlen + 1 + (if (type =? LDIF_PUT_COMMENT) && negb (length val =? 0)%nat then 1 else 0).
Proof. unfold ldif_head, nlen. case_if; [destruct val|]; cbn; rewrite ?length_app; cbn; lia. Qed.

Lemma from_head_fits mark room s : real_wrap wrap <= room ->
  Z.of_nat (length mark) + Z.of_nat (length s) + (if (type =? LDIF_PUT_COMMENT) && negb (length val =? 0)%nat then 1 else 0) <= 2 + (vlen * 4 / 3 + 3) ->
  fits w (from_head (ldif_head type name val) mark room s ++ [NL]).
Proof.
  intros Hr Hl. apply fits_small. unfold from_head. pose proof length_head as [H1 H2]. set (k := if (type =? LDIF_PUT_COMMENT) && negb (length val =? 0)%nat then 1 else 0) in *. clearbody k.
  apply folded_size; rewrite ?length_app; (done || lia).
Qed.

(** The head is there. *)
Lemma put_head_adv {A} (f : writer * Z -> option A) : type <> LDIF_PUT_SEP ->
  ('(w, len) ← (if type =? LDIF_PUT_COMMENT then
                 w ← put w "#"; if (length val =? 0)%nat then Some (w, 1) else w ← put w " "; Some (w, 2)
               else Some (w, 0));
   r ← match name with
       | Some name =>
           w ← puts w name;
           if negb (type =? LDIF_PUT_COMMENT) then w ← put w ":"; Some (w, len + Z.of_nat (length name) + 1) else Some (w, len + Z.of_nat (length name))
       | None => if type =? LDIF_PUT_COMMENT then Some (w, len) else None
       end; f r) = f (adv w (ldif_head type name val), Z.of_nat (length (ldif_head type name val))).
Proof.
  intros Hsep. pose proof length_head as [_ Hh]. pose proof ldif_size_min as Hmin.
  assert (fits w (ldif_head type name val)) as Hf by (eapply fits_app, fits_small; case_if_in Hh; lia). clear Hh Hmin.
  set (res := adv w (ldif_head type name val)). rewrite <- (adv_nil w) by (unfold fits in *; cbn; lia). subst res. unfold ldif_head in *. destruct (Z.eqb_spec type LDIF_PUT_COMMENT) as [Ht|Ht]; cbn [negb].
  - rewrite put_adv by (eapply (fits_app w ([] ++ ["#"%char])); exact Hf). cbn [mbind option_bind app].
    destruct val as [|c val']; cbn [length Nat.eqb].
    + cbn [mbind option_bind app]. destruct name as [nm|]; cbn [from_option app] in *; [|done]. rewrite (puts_adv w nm ["#"%char]) by exact Hf. cbn [mbind option_bind]. do 2 f_equal. cbn. lia.
    + rewrite (put_adv w ["#"%char]) by (eapply fits_app; exact Hf). cbn [mbind option_bind app].
      destruct name as [nm|]; cbn [from_option app] in *; [|done]. rewrite (puts_adv w nm ["#"; " "]%char) by exact Hf. cbn [mbind option_bind]. do 2 f_equal. cbn. lia.
  - destruct name as [nm|]; [|by destruct named as [|[|]]]. cbn [mbind option_bind from_option] in *. rewrite (puts_adv w nm []) by (eapply fits_app; exact Hf).
    cbn [mbind option_bind app]. rewrite put_adv by done. cbn [mbind option_bind]. do 2 f_equal. rewrite length_app. cbn. lia.
Qed.

(** A line has been written behind what was there. *)
Definition wrote (t : text) (w' : writer) : Prop :=
  length (w_mem w') = length (w_mem w) /\ w_out w' = (w_out w + length t)%nat /\ take (w_out w') (w_mem w') = take (w_out w) (w_mem w) ++ t.

Lemma wrote_adv t : fits w t -> wrote t (adv w t).
Proof. intros Hf. split_and!; [by apply length_adv|done|by apply take_adv]. Qed.

Lemma put_NL t : fits w (t ++ [NL]) -> exists w', put (adv w t) NL = Some w' /\ wrote (t ++ [NL]) w'.
Proof. intros Hf. rewrite put_adv by done. eexists. split; [done|]. by apply wrote_adv. Qed.

(** The text cases. *)
Lemma put_marked room mark len (h := ldif_head type name val) : len = Z.of_nat (length (h ++ mark)) ->
  fits w (from_head h mark (room + 1) val ++ [NL]) ->
  exists w', ('(w, _) ← put_text room val (adv w (h ++ mark)) len; put w NL) = Some w' /\ wrote (from_head h mark (room + 1) val ++ [NL]) w'.
Proof. intros -> Hf. rewrite put_text_adv by by eapply fits_app. cbn [mbind option_bind]. by apply put_NL. Qed.

(** The head and the marks of a value fit. *)
Lemma fits_mark h mark room s u : fits w (from_head h (mark ++ u) room s ++ [NL]) -> fits w (h ++ mark).
Proof. unfold from_head. intros Hf. eapply fits_app. rewrite <- app_assoc. do 2 eapply fits_app. exact Hf. Qed.

(** The attempt to put a value as it is. *)
Lemma attempt nm room (h := ldif_head type name val) : fits w (from_head h (kw " ") room val ++ [NL]) ->
  exists u b, (if plain_value must type nm val then put_value room val (adv w (h ++ [" "%char])) (Z.of_nat (length h) + 1) else Some (adv w (h ++ [" "%char]), true)) =
                Some (adv w ((h ++ [" "%char]) ++ u), b) /\
    fits w ((h ++ [" "%char]) ++ u) /\ b = negb (is_plain must type nm val) /\ (b = false -> u = folded room val (Z.of_nat (length h) + 1)).
Proof.
  intros Hf%fits_app. unfold is_plain. destruct (plain_value must type nm val); cbn [andb negb].
  - unfold from_head in Hf. rewrite length_app, Nat2Z.inj_add in Hf. by apply put_value_adv.
  - exists [], true. rewrite app_nil_r. split_and!; try done. by eapply fits_app.
Qed.

(** An encoded value, in place of what an attempt left behind the head. *)
Lemma put_encoded w1 room (h := ldif_head type name val) (s := base64 (octets_of val)) :
  length (w_mem w1) = length (w_mem w) -> take (w_out w + length h) (w_mem w1) = take (w_out w) (w_mem w) ++ h ->
  fits w (from_head h (kw ": ") room s ++ [NL]) ->
  exists w', (w ← put (mkOut (w_mem w1) (w_out w + length h)) ":"; w ← put w " ";
              '(w, _) ← put_base64 room val w (Z.of_nat (length h) + 2); put w NL) = Some w' /\ wrote (from_head h (kw ": ") room s ++ [NL]) w'.
Proof.
  intros Hm Ht Hf. set (w2 := mkOut (w_mem w1) (w_out w + length h)).
  assert (from_head h (kw ": ") room s = h ++ kw ": " ++ folded room s (Z.of_nat (length h) + 2)) as E
    by (unfold from_head; rewrite <- app_assoc, length_app; repeat f_equal; cbn; lia).
  rewrite E, <- app_assoc in *. set (f := folded room s (Z.of_nat (length h) + 2)) in *.
  assert (fits w2 ((kw ": " ++ f) ++ [NL])) as Hf2 by (unfold fits in *; cbn [w2 w_mem w_out]; rewrite Hm; rewrite !length_app in *; lia).
  rewrite <- (adv_nil w2) by (unfold fits in *; rewrite !length_app in *; cbn in *; lia).
  change (kw ": ") with [":"%char; " "%char] in *. rewrite (put_adv w2 []) by (eapply (fits_app w2 [":"%char]); exact Hf2). cbn [mbind option_bind app].
  rewrite (put_adv w2 [":"%char]) by (eapply (fits_app w2 [":"%char; " "%char]); exact Hf2). cbn [mbind option_bind app].
  rewrite (put_base64_adv w2 room val [":"%char; " "%char]) by by eapply fits_app. cbn [mbind option_bind]. rewrite put_adv by done.
  eexists. split; [done|]. split_and!.
  - rewrite length_adv by done. done.
  - unfold adv, w2. cbn [w_out]. subst f s. rewrite !length_app. cbn [length]. rewrite ?length_app. cbn [length]. lia.
  - rewrite take_adv by done. unfold w2. cbn [w_out w_mem]. by rewrite Ht, <- !app_assoc.
Qed.

Lemma length_base64_val : Z.of_nat (length (base64 (octets_of val))) <= vlen * 4 / 3 + 3.
Proof. pose proof (length_base64_le (octets_of val)) as H. unfold octets_of in *. rewrite length_fmap in H. done. Qed.

Lemma ldif_sput_wrap_writes : exists w', ldif_sput_wrap must w type name val wrap = Some w' /\ wrote (ldif_line must type name val wrap) w'.
Proof.
  unfold ldif_sput_wrap, ldif_line. fold (real_wrap wrap). set (room := real_wrap wrap). cbv zeta.
  pose proof length_head as [Hh1 Hh2]. pose proof ldif_size_min as Hmin. pose proof length_base64_val as H64.
  destruct (Z.eqb_spec type LDIF_PUT_SEP) as [Hs|Hs].
  { pose proof (fits_small [] ltac:(cbn; lia)) as Hf. replace (put w NL) with (put (adv w []) NL) by (rewrite adv_nil; [done|by eapply fits_app]). by apply (put_NL []). }
  rewrite put_head_adv by done. cbn [mbind option_bind]. set (h := ldif_head type name val) in *.
  assert (fits w (h ++ [NL])) as Hfh by (apply fits_small; case_if_in Hh2; lia).
  destruct ((length val =? 0)%nat || (type =? LDIF_PUT_NOVALUE)) eqn:Hv; [by apply put_NL|]. apply orb_false_elim in Hv as [Hv0 Hnv].
  assert (forall mark s, type <> LDIF_PUT_COMMENT -> Z.of_nat (length mark) <= 2 -> Z.of_nat (length s) <= vlen * 4 / 3 + 3 -> fits w (from_head h mark room s ++ [NL])) as Hfit.
  { intros mark s Ht Hm Hl. apply from_head_fits; [unfold room; lia|]. rewrite (proj2 (Z.eqb_neq _ _) Ht). cbn [andb]. lia. }
  assert (Z.of_nat (length val) <= vlen * 4 / 3 + 3) as Hvl by (subst vlen; clear; Z.to_euclidean_division_equations; lia).
  assert (forall mark c, type <> LDIF_PUT_COMMENT -> mark = [c; " "%char] ->
    exists w', ('(w, len) ← (w ← put (adv w h) c; Some (w, Z.of_nat (length h) + 1)); w ← put w " "; '(w, _) ← put_text room val w (len + 1); put w NL) = Some w' /\ wrote (from_head h mark (room + 1) val ++ [NL]) w') as Hput.
  { intros mark c Ht ->. assert (fits w (from_head h [c; " "%char] (room + 1) val ++ [NL])) as Hf by (apply from_head_fits; [unfold room; lia|]; rewrite (proj2 (Z.eqb_neq _ _) Ht); cbn [andb length]; lia).
    rewrite put_adv by exact (fits_mark h [c] (room + 1) val [" "%char] Hf). cbn [mbind option_bind].
    rewrite put_adv by (rewrite <- app_assoc; exact (fits_mark h [c; " "%char] (room + 1) val [] Hf)). cbn [mbind option_bind]. rewrite <- app_assoc. apply put_marked; [|done].
    rewrite length_app. fold h. cbn. lia. }
  destruct (Z.eqb_spec type LDIF_PUT_URL) as [E|Hu].
  { rewrite E in *. change (LDIF_PUT_URL =? LDIF_PUT_TEXT) with false. cbv iota. cbn [orb]. exact (Hput (kw "< ") "<"%char ltac:(done) eq_refl). }
  destruct (Z.eqb_spec type LDIF_PUT_B64) as [E|Hb].
  { rewrite E in *. change (LDIF_PUT_B64 =? LDIF_PUT_TEXT) with false. cbv iota. cbn [orb]. exact (Hput (kw ": ") ":"%char ltac:(done) eq_refl). }
  cbn [mbind option_bind]. destruct (Z.eqb_spec type LDIF_PUT_TEXT) as [E|Ht]; cbn [orb].
  { rewrite E in *. change (LDIF_PUT_TEXT =? LDIF_PUT_TEXT) with true. cbv iota. specialize (Hfit (kw " ")). 
    assert (fits w (from_head h (kw " ") (room + 1) val ++ [NL])) as Hf by (apply from_head_fits; [unfold room; lia|]; rewrite E; cbn; lia).
    rewrite put_adv by exact (fits_mark h [" "%char] (room + 1) val [] Hf). cbn [mbind option_bind]. apply put_marked; [|done].
    rewrite length_app. fold h. cbn. lia. }
  destruct (Z.eqb_spec type LDIF_PUT_COMMENT) as [E|Hc].
  { assert (fits w (from_head h [] (room + 1) val ++ [NL])) as Hf by (apply from_head_fits; [unfold room; lia|]; rewrite E; cbn; case_if; lia).
    pose proof (put_marked room [] (Z.of_nat (length h))) as H. cbv zeta in H. fold h in H. rewrite app_nil_r in H. by apply H. }
  assert (exists nm, name = Some nm) as [nm En] by (destruct name as [nm|]; [by exists nm|by destruct named as [|[|]]]).
  assert (default [] name = nm) as -> by by rewrite En. rewrite En. cbn [mbind option_bind].
  pose proof (Hfit (kw " ") val Hc ltac:(done) Hvl) as Hf1. pose proof (Hfit (kw ": ") (base64 (octets_of val)) Hc ltac:(done) H64) as Hf2.
  rewrite put_adv by exact (fits_mark h [" "%char] room val [] Hf1). cbn [mbind option_bind].
  destruct (attempt nm room) as (u & b & Ha & Hfu & Hbp & Hup); [exact Hf1|]. fold h in Ha, Hfu, Hup. rewrite Ha. cbn [mbind option_bind]. rewrite Hbp, negb_involutive.
  destruct (is_plain must type nm val).
  - rewrite (Hup Hbp). pose proof (put_NL (from_head h (kw " ") room val) Hf1) as H. unfold from_head in H |- *. rewrite length_app in H |- *. rewrite Nat2Z.inj_add in H |- *. exact H.
  - apply (put_encoded (adv w ((h ++ [" "%char]) ++ u)) room); [by apply length_adv| |exact Hf2].
    unfold fits, adv in *. cbn. rewrite <- !app_assoc, (app_assoc (take _ _)). apply take_app_length'. rewrite !length_app, length_take in *. fold h. lia.
Qed.
End writing.

(** Written to memory of just that size. *)
Lemma length_ldif_line must type name val wrap (nlen := Z.of_nat (length (default [] name))) (vlen := Z.of_nat (length val)) :
  name <> None \/ type = LDIF_PUT_COMMENT \/ type = LDIF_PUT_SEP -> nlen + vlen < 2 ^ 60 -> 0 <= wrap < 2 ^ 64 /\ wrap <> 1 ->
  Z.of_nat (length (ldif_line must type name val wrap)) <= ldif_size nlen vlen wrap.
Proof.
  intros Hn Hs [Hw H1]. assert (0 <= nlen /\ 0 <= vlen) as [] by (unfold nlen, vlen; lia). destruct (LDIF_SIZE_NEEDED_WRAP_Some nlen vlen wrap) as [_ Hb]; [lia..|].
  destruct (ldif_sput_wrap_writes must (mkOut (replicate (Z.to_nat (ldif_size nlen vlen wrap)) NUL) 0) type name val wrap) as (w' & _ & Hm & Ho & Ht); [done..| |].
  { cbn [w_out w_mem]. rewrite length_replicate. fold nlen vlen. lia. }
  cbn [w_out w_mem take app] in *. rewrite length_replicate in Hm. apply (f_equal length) in Ht. rewrite length_take, length_app in Ht. cbn [take length] in Ht. lia.
Qed.

(** The buffer is large enough, and holds the line. *)
Lemma ldif_put_wrap_spec (must : list (text * text)) (junk : nat -> text) (type : Z) (name : option text) (val : text) (wrap : Z) :
  (forall n, length (junk n) = n) ->
  name <> None \/ type = LDIF_PUT_COMMENT \/ type = LDIF_PUT_SEP ->
  Z.of_nat (length (default [] name)) + Z.of_nat (length val) < 2 ^ 60 -> 0 <= wrap < 2 ^ 64 -> wrap <> 1 ->
  exists mem n, ldif_put_wrap must junk type name val wrap = Some (mem, n) /\ take (S n) mem = ldif_line must type name val wrap ++ [NUL].
Proof.
  intros Hj Hn Hs Hw H1. unfold ldif_put_wrap.
  assert (match name with Some name => Z.of_nat (length name) | None => 0 end = Z.of_nat (length (default [] name))) as -> by by destruct name.
  destruct (LDIF_SIZE_NEEDED_WRAP_Some (Z.of_nat (length (default [] name))) (Z.of_nat (length val)) wrap) as [-> Hb]; [lia..|].
  cbn [mbind option_bind]. rewrite uwrap_small by lia. set (size := ldif_size _ _ wrap) in *.
  set (w := mkOut _ 0). assert (Z.of_nat (length (w_mem w)) = size + 1) as Hl by (cbn; rewrite Hj; lia).
  destruct (ldif_sput_wrap_writes must w type name val wrap) as (w' & -> & Hm & Ho & Ht); [done|done|done|cbn; fold size; cbn in Hl; lia|].
  pose proof (length_ldif_line must type name val wrap Hn Hs (conj Hw H1)) as Hll. fold size in Hll.
  destruct (mem_write_is_Some (w_mem w') (w_out w') [NUL]) as [mem E]; [cbn [w w_out length] in *; lia|].
  cbn [mbind option_bind]. rewrite E. cbn [mbind option_bind]. do 2 eexists. split; [done|].
  apply mem_write_take in E. cbn [length] in E. rewrite Nat.add_1_r in E. rewrite E, Ht. done.
Qed.

(** C35: Claim: [ldif_put_wrap] never writes past the memory that it asks for
    (LDIF_SIZE_NEEDED_WRAP is enough for every kind of line, folded at every width but
    1), and the string it returns is the line, with a break wherever there is no room
    for another character. *)
Theorem ldif_put_wrap_line (must : list (text * text)) (junk : nat -> text) (type : Z) (name : option text) (val : text) (wrap : Z) :
  (forall n, length (junk n) = n) ->
  name <> None \/ type = LDIF_PUT_COMMENT \/ type = LDIF_PUT_SEP ->
  Z.of_nat (length (default [] name)) + Z.of_nat (length val) < 2 ^ 60 -> 0 <= wrap < 2 ^ 64 -> wrap <> 1 ->
  exists mem n, ldif_put_wrap must junk type name val wrap = Some (mem, n) /\ take (S n) mem = ldif_line must type name val wrap ++ [NUL].
Proof. apply ldif_put_wrap_spec. Qed.

(** Encoded, at a width of 12. *)
Lemma ldif_put_wrap_line_witness : (12 <> 1) /\
  exists mem n, ldif_put_wrap default_must_b64_encode (fun n => replicate n NUL) LDIF_PUT_VALUE (Some (kw "userPassword")) (kw "secret") 12 = Some (mem, n) /\
    take (S n) mem = ldif_line default_must_b64_encode LDIF_PUT_VALUE (Some (kw "userPassword")) (kw "secret") 12 ++ [NUL].
Proof.
  split; [lia|]. apply (ldif_put_wrap_line default_must_b64_encode (fun n => replicate n NUL) LDIF_PUT_VALUE (Some (kw "userPassword")) (kw "secret") 12).
  - intros n. apply length_replicate.
  - by left.
  - vm_compute. reflexivity.
  - lia.
  - lia.
Defined.

(** A width of one character divides by zero in LDIF_SIZE_NEEDED_WRAP. *)
Lemma ldif_put_wrap_1 must junk type name val : ldif_put_wrap must junk type name val 1 = None.
Proof. done. Qed.
