(* ===== verification/LdifRead.v ===== *)
(** * Reading LDIF gives back what was written *)

From Stdlib Require Import Ascii String.
From S2P Require Import Prelude Text Base64 Ldif LdifWrite.

Local Open Scope Z_scope.
Local Abbreviation length := List.length.

(** ** Decoding in place *)

(** What the table says of a digit. *)
Definition code64 (p : Z) : Z := ascii_code (char64 p).

Lemma b64_table p : sextet p ->
  arr_get b642nib (Z.land (code64 p) 0x7f) = Some p /\ Z.land (code64 p) 0x80 = 0 /\ code64 p <> 0x3d /\ 0 <= code64 p < 256.
Proof.
  intros Hp.
  assert (forallb (fun p => bool_decide (arr_get b642nib (Z.land (code64 p) 0x7f) = Some p /\ Z.land (code64 p) 0x80 = 0 /\ code64 p <> 0x3d /\ 0 <= code64 p < 256)) (Z.of_nat <$> seq 0 64) = true) as H by by vm_compute.
  rewrite forallb_forall in H. eapply bool_decide_eq_true, H, list_elem_of_In, list_elem_of_fmap. exists (Z.to_nat p). unfold sextet in Hp. split; [lia|]. apply elem_of_seq. lia.
Qed.

(** The octets [cs] at [p] are digits or pads. *)
Lemma b64_valid_ok cs : forall u v, Forall (fun c => c = 0x3d \/ exists p, sextet p /\ c = code64 p) cs ->
  b64_valid (length cs) (u ++ cs ++ v) (Z.of_nat (length u)) = Some true.
Proof.
  induction cs as [|c cs IH]; intros u v Hc; [done|]. apply list.Forall_cons in Hc as [Hc Hcs]. cbn [length b64_valid].
  cbn [app]. rewrite arr_get_mid by done. cbn [mbind option_bind].
  specialize (IH (u ++ [c]) v Hcs). rewrite <- app_assoc, length_app, Nat2Z.inj_add in IH. cbn [app length] in IH. change (Z.of_nat 1) with 1 in IH.
  destruct Hc as [->|(p & Hp & ->)].
  - change (arr_get b642nib (Z.land 0x3d 0x7f)) with (Some 0xff). cbn [mbind option_bind]. exact IH.
  - destruct (b64_table p Hp) as (-> & -> & Hne & _). cbn [mbind option_bind]. 
    assert ((p >? 0x3f) = false) as -> by (rewrite Z.gtb_ltb; apply Z.ltb_ge; unfold sextet in Hp; lia).
    rewrite Z.eqb_refl. rewrite andb_false_r. exact IH.
Qed.

Lemma b64_nib_mid u p v i : sextet p -> i = Z.of_nat (length u) -> b64_nib (u ++ code64 p :: v) i = Some p.
Proof.
  intros Hp ->. unfold b64_nib. rewrite arr_get_mid by done. cbn [mbind option_bind]. destruct (b64_table p Hp) as (-> & _). cbn [mbind option_bind].
  by rewrite swrap_small by (unfold sextet in Hp; lia).
Qed.

Lemma or_byte_mid u b v i x : i = Z.of_nat (length u) -> or_byte (u ++ b :: v) i x = Some (u ++ u8 (Z.lor b x) :: v).
Proof. intros ->. unfold or_byte. rewrite arr_get_mid by done. cbn [mbind option_bind]. by rewrite arr_set_mid. Qed.

(** The next octet goes over one that has been read. *)
Lemma arr_set_over (u junk : list Z) c v i x : i = Z.of_nat (length u) ->
  exists junk', length junk' = length junk /\ arr_set (u ++ junk ++ c :: v) i x = Some (u ++ x :: junk' ++ v).
Proof.
  intros ->. destruct junk as [|y junk]; cbn [app].
  - exists []. by rewrite arr_set_mid.
  - exists (junk ++ [c]). rewrite arr_set_mid by done. rewrite length_app, <- app_assoc. cbn. split; [lia|done].
Qed.

Lemma octet_0 p0 p1 : sextet p0 -> sextet p1 -> u8 (Z.lor (u8 (Z.shiftl p0 2)) (Z.shiftr p1 4)) = p0 * 4 + p1 / 16.
Proof.
  unfold sextet. intros. rewrite (uwrap_small 8 (Z.shiftl _ _)) by (rewrite Z.shiftl_mul_pow2; lia). rewrite Z.shiftr_div_pow2 by lia. change (2 ^ 4) with 16.
  assert (0 <= p1 / 16 < 4) by (Z.to_euclidean_division_equations; lia). rewrite lor_shiftl_low by lia. rewrite uwrap_small; lia.
Qed.

Lemma octet_1 p1 p2 : sextet p1 -> sextet p2 -> u8 (Z.lor (u8 (Z.shiftl (Z.land p1 0x0f) 4)) (Z.shiftr p2 2)) = p1 mod 16 * 16 + p2 / 4.
Proof.
  unfold sextet. intros. change 0x0f with (2 ^ 4 - 1). rewrite land_ones_mod by lia. change (2 ^ 4) with 16. pose proof (Z.mod_pos_bound p1 16).
  rewrite (uwrap_small 8 (Z.shiftl _ _)) by (rewrite Z.shiftl_mul_pow2; lia). rewrite Z.shiftr_div_pow2 by lia. change (2 ^ 2) with 4.
  assert (0 <= p2 / 4 < 16) by (Z.to_euclidean_division_equations; lia). rewrite lor_shiftl_low by lia. rewrite uwrap_small; lia.
Qed.

Lemma octet_2 p2 p3 : sextet p2 -> sextet p3 -> u8 (Z.lor (u8 (Z.shiftl (Z.land p2 0x03) 6)) p3) = p2 mod 4 * 64 + p3.
Proof.
  unfold sextet. intros. change 0x03 with (2 ^ 2 - 1). rewrite land_ones_mod by lia. change (2 ^ 2) with 4. pose proof (Z.mod_pos_bound p2 4).
  rewrite (uwrap_small 8 (Z.shiftl _ _)) by (rewrite Z.shiftl_mul_pow2; lia). rewrite lor_shiftl_low by lia. rewrite uwrap_small; lia.
Qed.

(** The state before a group: what is decoded, what has been read over, what is left. *)
Definition b64_at (outs junk rest : list Z) : list Z * Z * Z * Z :=
  (outs ++ junk ++ rest, Z.of_nat (length outs) + Z.of_nat (length junk), Z.of_nat (length outs), Z.of_nat (length outs)).

(** The first octet of a group and the high bits of the second. *)
Lemma b64_two outs junk p0 p1 v (mem := outs ++ junk ++ code64 p0 :: code64 p1 :: v) (P := Z.of_nat (length outs) + Z.of_nat (length junk)) (B := Z.of_nat (length outs)) :
  sextet p0 -> sextet p1 -> exists junk', length junk' = length junk /\
  forall A (f : list Z -> option A),
  (nib ← b64_nib mem P; mem ← arr_set mem B (u8 (Z.shiftl nib 2)); nib ← b64_nib mem (P + 1);
   mem ← or_byte mem B (Z.shiftr nib 4); mem ← arr_set mem (B + 1) (u8 (Z.shiftl (Z.land nib 0x0f) 4)); f mem) =
  f (outs ++ p0 * 4 + p1 / 16 :: u8 (Z.shiftl (Z.land p1 0x0f) 4) :: junk' ++ v).
Proof.
  intros H0 H1. unfold mem, P, B.
  destruct (arr_set_over outs junk (code64 p0) (code64 p1 :: v) _ (u8 (Z.shiftl p0 2)) eq_refl) as (j1 & Hj1 & E1).
  destruct (arr_set_over (outs ++ [p0 * 4 + p1 / 16]) j1 (code64 p1) v _ (u8 (Z.shiftl (Z.land p1 0x0f) 4)) eq_refl) as (j2 & Hj2 & E2).
  exists j2. split; [lia|]. intros A f.
  rewrite (app_assoc outs), b64_nib_mid by (done || rewrite length_app; lia). rewrite <- app_assoc. cbn [mbind option_bind]. rewrite E1. cbn [mbind option_bind].
  replace (outs ++ u8 (Z.shiftl p0 2) :: j1 ++ code64 p1 :: v) with ((outs ++ u8 (Z.shiftl p0 2) :: j1) ++ code64 p1 :: v) by (rewrite <- app_assoc; done).
  rewrite b64_nib_mid by (done || rewrite length_app; cbn [length]; lia). cbn [mbind option_bind]. rewrite <- app_assoc. cbn [app].
  rewrite or_byte_mid by done. cbn [mbind option_bind]. rewrite octet_0 by done.
  rewrite length_app, Nat2Z.inj_add, <- app_assoc in E2. cbn [app length] in E2. change (Z.of_nat 1) with 1 in E2. rewrite E2. cbn [mbind option_bind]. by rewrite <- app_assoc.
Qed.

(** The rest of the second octet and the high bits of the third. *)
Lemma b64_third outs junk x p1 p2 v (mem := outs ++ x :: u8 (Z.shiftl (Z.land p1 0x0f) 4) :: junk ++ code64 p2 :: v)
  (P := Z.of_nat (length outs) + Z.of_nat (length junk)) (B := Z.of_nat (length outs)) :
  sextet p1 -> sextet p2 -> exists junk', length junk' = length junk /\
  forall A (f : list Z -> option A),
  (nib ← b64_nib mem (P + 2); mem ← or_byte mem (B + 1) (Z.shiftr nib 2); mem ← arr_set mem (B + 2) (u8 (Z.shiftl (Z.land nib 0x03) 6)); f mem) =
  f (outs ++ x :: p1 mod 16 * 16 + p2 / 4 :: u8 (Z.shiftl (Z.land p2 0x03) 6) :: junk' ++ v).
Proof.
  intros H1 H2. unfold mem, P, B. set (y := u8 (Z.shiftl (Z.land p1 0x0f) 4)).
  destruct (arr_set_over (outs ++ [x; p1 mod 16 * 16 + p2 / 4]) junk (code64 p2) v _ (u8 (Z.shiftl (Z.land p2 0x03) 6)) eq_refl) as (j & Hj & E).
  exists j. split; [done|]. intros A f.
  replace (outs ++ x :: y :: junk ++ code64 p2 :: v) with ((outs ++ x :: y :: junk) ++ code64 p2 :: v) by (rewrite <- app_assoc; done).
  rewrite b64_nib_mid by (done || rewrite length_app; cbn [length]; lia). cbn [mbind option_bind].
  replace ((outs ++ x :: y :: junk) ++ code64 p2 :: v) with ((outs ++ [x]) ++ y :: junk ++ code64 p2 :: v) by (rewrite <- !app_assoc; done).
  rewrite or_byte_mid by (rewrite length_app; cbn [length]; lia). cbn [mbind option_bind]. unfold y. rewrite octet_1 by done.
  rewrite length_app, Nat2Z.inj_add, <- app_assoc in E. cbn [app length] in E. change (Z.of_nat 2) with 2 in E. rewrite <- app_assoc. cbn [app]. rewrite E. cbn [mbind option_bind]. by rewrite <- app_assoc.
Qed.

(** A group begins with two digits, and two digits or pads follow. *)
Lemma group_ok u p0 p1 c2 c3 v P : sextet p0 -> sextet p1 -> P = Z.of_nat (length u) ->
  c2 = 0x3d \/ (exists p, sextet p /\ c2 = code64 p) -> c3 = 0x3d \/ (exists p, sextet p /\ c3 = code64 p) ->
  b64_valid 4 (u ++ code64 p0 :: code64 p1 :: c2 :: c3 :: v) P = Some true.
Proof.
  intros H0 H1 -> H2 H3. apply (b64_valid_ok [_; _; _; _]). repeat (apply list.Forall_cons; split); eauto.
Qed.

Lemma arr_get_behind (u j v : list Z) c i : i = Z.of_nat (length u) + Z.of_nat (length j) -> arr_get (u ++ j ++ c :: v) i = Some c.
Proof. intros ->. rewrite app_assoc. apply arr_get_mid. rewrite length_app. lia. Qed.
Lemma arr_get_2 (u : list Z) x y j v c i : i = Z.of_nat (length u) + Z.of_nat (length j) + 2 -> arr_get (u ++ x :: y :: j ++ c :: v) i = Some c.
Proof. intros ->. apply (arr_get_behind u (x :: y :: j)). cbn [length]. lia. Qed.
Lemma arr_get_3 (u : list Z) x y z j v c i : i = Z.of_nat (length u) + Z.of_nat (length j) + 3 -> arr_get (u ++ x :: y :: z :: j ++ c :: v) i = Some c.
Proof. intros ->. apply (arr_get_behind u (x :: y :: z :: j)). cbn [length]. lia. Qed.

Lemma b64_nib_3 (u : list Z) x y z j v p i : sextet p -> i = Z.of_nat (length u) + Z.of_nat (length j) + 3 -> b64_nib (u ++ x :: y :: z :: j ++ code64 p :: v) i = Some p.
Proof.
  intros Hp ->. replace (u ++ x :: y :: z :: j ++ code64 p :: v) with ((u ++ x :: y :: z :: j) ++ code64 p :: v) by (rewrite <- app_assoc; done).
  apply b64_nib_mid; [done|]. rewrite length_app. cbn [length]. lia.
Qed.

Lemma code64_not_pad p : sextet p -> (code64 p =? 0x3d) = false.
Proof. intros Hp. apply Z.eqb_neq, (b64_table p Hp). Qed.

Section decoding.
Context (data : list Z) (end_ : Z).

Definition decoded (r : Z * list Z * Z) : Prop :=
  exists mem, r = (0, mem, Z.of_nat (length data)) /\ take (length data) mem = data.

Lemma b64_finish P (u : list Z) x v i : i = Z.of_nat (length u) -> u = data ->
  exists r : list Z * Z * Z * Z + Z * list Z * Z, (mem ← arr_set (u ++ x :: v) i 0; Some (inr (0, mem, i))) = Some r /\ match r with inl st => P st | inr r => decoded r end.
Proof. intros -> ->. rewrite arr_set_mid by done. eexists. split; [done|]. eexists. split; [done|]. by apply take_app_length'. Qed.

Definition b64_inv (st : list Z * Z * Z * Z) : Prop :=
  exists outs junk s d, st = b64_at outs junk (octets_of s ++ [0]) /\ codes s d /\ outs ++ d = data /\ Z.of_nat (length outs) + Z.of_nat (length junk) + Z.of_nat (length s) = end_.

Definition b64_left (st : list Z * Z * Z * Z) : Z := let '(_, p, _, _) := st in end_ - p.

Lemma b64_step_ok st : b64_inv st -> 0 <= b64_left st /\ exists r, b64_step end_ st = Some r /\
  match r with inl st' => b64_inv st' /\ b64_left st' < b64_left st | inr r => decoded r end.
Proof.
  intros (outs & junk & s & d & -> & Hs & Hd & He). unfold b64_at, b64_left, b64_step. split; [lia|].
  assert (s <> [] -> (Z.of_nat (length outs) + Z.of_nat (length junk) >=? end_) = false) as Hlt.
  { intros. destruct s; [done|]. cbn in He. rewrite Z.geb_leb. apply Z.leb_gt. lia. }
  destruct Hs as [|p0 p1 H0 H1 Hm|p0 p1 p2 H0 H1 H2 Hm|p0 p1 p2 p3 s d H0 H1 H2 H3 Hs].
  - cbn in He. rewrite Z.geb_leb, (proj2 (Z.leb_le _ _)) by lia. cbn [octets_of fmap list_fmap app]. rewrite app_nil_r in Hd.
    destruct junk as [|x junk]; by apply b64_finish.
  - rewrite Hlt by done. cbn [octets_of fmap list_fmap app]. fold (code64 p0) (code64 p1). rewrite (app_assoc outs), group_ok by (eauto || rewrite length_app; lia). cbn [mbind option_bind negb].
    rewrite <- app_assoc. destruct (b64_two outs junk p0 p1 [61; 61; 0] H0 H1) as (j & Hj & ->).
    rewrite (arr_get_2 outs) by lia. cbn [mbind option_bind]. rewrite Z.eqb_refl, (cons_middle _ outs), app_assoc.
    apply b64_finish; [rewrite length_app; cbn [length]; lia|done].
  - rewrite Hlt by done. cbn [octets_of fmap list_fmap app]. fold (code64 p0) (code64 p1) (code64 p2). rewrite (app_assoc outs), group_ok by (eauto || rewrite length_app; lia). cbn [mbind option_bind negb].
    rewrite <- app_assoc. destruct (b64_two outs junk p0 p1 [code64 p2; 61; 0] H0 H1) as (j & Hj & ->).
    rewrite (arr_get_2 outs) by lia. cbn [mbind option_bind]. rewrite code64_not_pad by done. rewrite <- Hj.
    destruct (b64_third outs j (p0 * 4 + p1 / 16) p1 p2 [61; 0] H1 H2) as (j' & Hj' & ->).
    rewrite (arr_get_3 outs) by lia. cbn [mbind option_bind]. rewrite Z.eqb_refl, (cons_middle _ outs), app_assoc, (cons_middle _ (outs ++ _)), app_assoc.
    apply b64_finish; [rewrite !length_app; cbn [length]; lia|by rewrite <- app_assoc].
  - rewrite Hlt by done. cbn [octets_of fmap list_fmap app]. fold (octets_of s). fold (code64 p0) (code64 p1) (code64 p2) (code64 p3).
    rewrite (app_assoc outs), group_ok by (eauto || rewrite length_app; lia). cbn [mbind option_bind negb].
    rewrite <- app_assoc. destruct (b64_two outs junk p0 p1 (code64 p2 :: code64 p3 :: octets_of s ++ [0]) H0 H1) as (j & Hj & ->).
    rewrite (arr_get_2 outs) by lia. cbn [mbind option_bind]. rewrite code64_not_pad by done. rewrite <- Hj.
    destruct (b64_third outs j (p0 * 4 + p1 / 16) p1 p2 (code64 p3 :: octets_of s ++ [0]) H1 H2) as (j' & Hj' & ->).
    rewrite (arr_get_3 outs) by lia. cbn [mbind option_bind]. rewrite code64_not_pad by done.
    rewrite (b64_nib_3 outs) by (done || lia). cbn [mbind option_bind]. rewrite (cons_middle _ outs), app_assoc, (cons_middle _ (outs ++ _)), app_assoc.
    rewrite or_byte_mid by (rewrite !length_app; cbn [length]; lia). cbn [mbind option_bind]. rewrite octet_2 by done. eexists. split; [done|]. cbn [length] in He. split; [|lia].
    exists (outs ++ [p0 * 4 + p1 / 16; p1 mod 16 * 16 + p2 / 4; p2 mod 4 * 64 + p3]), (j' ++ [code64 p3]), s, d. unfold b64_at.
    rewrite <- Hd, !length_app, <- !app_assoc. cbn [length app]. split_and!; [|done|done|lia]. do 3 f_equal; lia.
Qed.
End decoding.

(** Encoded octets are decoded where they are. *)
Lemma ldap_int_decode_b64_inplace_correct data : bytes_ok data -> Z.of_nat (length (base64 data)) < 2 ^ 62 ->
  exists mem, ldap_int_decode_b64_inplace (octets_of (base64 data) ++ [0]) (Z.of_nat (length (base64 data))) = Some (0, mem, Z.of_nat (length data)) /\ take (length data) mem = data.
Proof.
  intros Hd Hl. destruct (run_ok (b64_step (Z.of_nat (length (base64 data)))) (b64_inv data (Z.of_nat (length (base64 data)))) (b64_left (Z.of_nat (length (base64 data)))) (decoded data)
    (b64_step_ok data _) 63 (octets_of (base64 data) ++ [0], 0, 0, 0)) as (r & Hr & mem & -> & Ht).
  - exists [], [], (base64 data), data. split_and!; try done. by apply base64_codes.
  - cbn. lia.
  - by exists mem.
Qed.

(** ** Lines *)

(** A folded value as [ldif_getline] leaves it. *)
Fixpoint marked (room : Z) (s : text) (len : Z) : text :=
  match s with
  | [] => []
  | c :: s => if len >=? room then CONTINUED_LINE_MARKER :: CONTINUED_LINE_MARKER :: c :: marked room s 2 else c :: marked room s (len + 1)
  end.

Definition printing (s : text) : Prop := Forall (fun c => isprint c = true) s.

(** What printing characters are not. *)
Lemma isprint_not c : isprint c = true -> Ascii.eqb c NL = false /\ Ascii.eqb c CR = false /\ Ascii.eqb c NUL = false.
Proof.
  intros Hc. pose proof (ascii_table (fun c => negb (isprint c) || (negb (Ascii.eqb c NL) && negb (Ascii.eqb c CR) && negb (Ascii.eqb c NUL))) ltac:(by vm_compute) c) as H.
  cbn beta in H. rewrite Hc in H. cbn [negb orb] in H. apply andb_prop in H as [H ?%negb_true_iff]. apply andb_prop in H as [?%negb_true_iff ?%negb_true_iff]. done.
Qed.

Lemma isgraph_print c : isgraph c = true -> isprint c = true /\ isspace c = false.
Proof.
  intros Hc. pose proof (ascii_table (fun c => negb (isgraph c) || (isprint c && negb (isspace c))) ltac:(by vm_compute) c) as H.
  cbn beta in H. rewrite Hc in H. cbn [negb orb] in H. apply andb_prop in H as [? ?%negb_true_iff]. done.
Qed.

Lemma read_line_app s t : printing s -> read_line (s ++ t) = (s ++ (read_line t).1, (read_line t).2).
Proof.
  induction 1 as [|c s Hc Hs IH]; cbn [app read_line]; [by destruct (read_line t)|]. destruct (isprint_not c Hc) as (-> & _). by rewrite IH.
Qed.

Lemma read_line_folded room s : printing s -> forall len t, read_line (folded room s len ++ t) = (marked room s len ++ (read_line t).1, (read_line t).2).
Proof.
  induction 1 as [|c s Hc Hs IH]; intros len t; cbn [folded marked app]; [by destruct (read_line t)|]. destruct (isprint_not c Hc) as (En & _).
  case_if; cbn [app read_line]; change (Ascii.eqb NL NL) with true; change (Ascii.eqb " " NL) with false; change (Ascii.eqb " " " ") with true; cbv iota; cbn [read_line]; by rewrite En, IH.
Qed.

(** What may follow a line. *)
Definition line_follows (rest : text) : bool := negb (Ascii.eqb (char_at rest 0) " ") && negb (Ascii.eqb (char_at rest 0) CR && Ascii.eqb (char_at rest 1) NL).

Lemma read_line_end rest : line_follows rest = true -> read_line (NL :: rest) = ([], Some rest).
Proof.
  unfold line_follows. intros [H1%negb_true_iff H2%negb_true_iff]%andb_prop. cbn [read_line]. change (Ascii.eqb NL NL) with true. cbv iota.
  destruct rest as [|c rest]; [done|]. change (char_at (c :: rest) 0) with c in *. change (char_at (c :: rest) 1) with (char_at rest 0) in *. by rewrite H1, H2.
Qed.

Definition unmark (s : text) : text := List.filter (fun c => negb (Ascii.eqb c CONTINUED_LINE_MARKER)) s.

Lemma unmark_marked room s : printing s -> forall len, unmark (marked room s len) = s.
Proof.
  induction 1 as [|c s Hc Hs IH]; intros len; [done|]. destruct (isprint_not c Hc) as (_ & Er & _). unfold unmark in *.
  cbn [marked]. case_if; cbn [List.filter]; change (Ascii.eqb CONTINUED_LINE_MARKER CONTINUED_LINE_MARKER) with true; cbn [negb List.filter];
    change CONTINUED_LINE_MARKER with CR; rewrite Er; cbn [negb]; f_equal; apply IH.
Qed.

Definition starts_graph (s : text) : bool := match s with [] => true | c :: _ => isgraph c end.

(** The value behind a space. *)
Lemma unmark_value room s len : printing s -> starts_graph s = true -> unmark (skip_space (" "%char :: marked room s len)) = s.
Proof.
  intros Hp Hg. rewrite <- (unmark_marked room s Hp len) at 2. destruct s as [|c s]; [done|]. cbn [starts_graph] in Hg. apply isgraph_print in Hg as [_ Hs].
  cbn [marked]. case_if; cbn; by rewrite Hs.
Qed.

Definition graph (s : text) : Prop := Forall (fun c => isgraph c = true) s.

Lemma graph_text s : graph s -> printing s /\ starts_graph s = true.
Proof.
  intros Hg. split; [|by destruct Hg]. eapply List.Forall_impl; [|exact Hg]. intros c Hc. apply (isgraph_print c Hc).
Qed.

Lemma octets_ok s : bytes_ok (octets_of s).
Proof. unfold octets_of. induction s as [|c s IH]; [constructor|]. constructor; [|done]. apply ascii_code_range. Qed.

Lemma char64_graph p : sextet p -> isgraph (char64 p) = true.
Proof.
  intros Hp. assert (forallb (fun p => isgraph (char64 p)) (Z.of_nat <$> seq 0 64) = true) as H by by vm_compute.
  rewrite forallb_forall in H. apply H, list_elem_of_In, list_elem_of_fmap. exists (Z.to_nat p). unfold sextet in Hp. split; [lia|]. apply elem_of_seq. lia.
Qed.

Lemma base64_graph data : bytes_ok data -> graph (base64 data).
Proof.
  intros Hd%base64_codes. induction Hd; repeat (apply list.Forall_cons; split); auto using char64_graph; constructor.
Qed.

(** ** Names *)

Definition name_ok (name : text) : bool :=
  match name with
  | [] => false
  | c :: _ => negb (Ascii.eqb c "#") && forallb (fun c => isgraph c && negb (Ascii.eqb c ":")) name
  end.

Lemma split_at_name name s : forallb (fun c => isgraph c && negb (Ascii.eqb c ":")) name = true -> split_at ":" (name ++ ":"%char :: s) = Some (name, s).
Proof.
  induction name as [|c name IH]; [done|]. cbn [forallb app split_at]. intros [[_ H%negb_true_iff]%andb_prop Hn]%andb_prop. rewrite H, IH by done. done.
Qed.

Lemma trim_spaces_graph s : forallb (fun c => isgraph c && negb (Ascii.eqb c ":")) s = true -> trim_spaces s = s.
Proof.
  induction s as [|c s IH]; [done|]. cbn [forallb trim_spaces]. intros [[H _]%andb_prop Hn]%andb_prop. apply isgraph_print in H as [_ ->]. by rewrite IH.
Qed.

Lemma printing_name name : name_ok name = true -> printing name.
Proof.
  destruct name as [|c name]; [done|]. intros [_ H]%andb_prop. rewrite forallb_forall in H. apply List.Forall_forall. intros x Hx. apply H in Hx.
  apply andb_prop in Hx as [Hx _]. apply (isgraph_print x Hx).
Qed.

(** ** A line and its parts *)

Lemma plain_printing must type name val : is_plain must type name val = true -> printing val.
Proof. intros [_ Hp]%andb_prop. apply List.Forall_forall. rewrite forallb_forall in Hp. intros x Hx. by apply Hp, andb_prop in Hx as [_ ?]. Qed.

Section line.
Context (fetch : text -> option (list Z)) (name : text).
Hypothesis Hname : name_ok name = true.

Lemma name_split : exists c r, name = c :: r /\ isgraph c = true /\ Ascii.eqb c "#" = false /\ forallb (fun c => isgraph c && negb (Ascii.eqb c ":")) name = true.
Proof.
  destruct name as [|c r]; [done|]. exists c, r. unfold name_ok in Hname. apply andb_prop in Hname as [H%negb_true_iff Ha]. split_and!; try done.
  cbn [forallb] in Ha. apply andb_prop in Ha as [[? _]%andb_prop _]. done.
Qed.

(** The next line, up to a folded value. *)
Lemma getline_head mark room s rest : printing mark -> printing s -> line_follows rest = true ->
  ldif_getline (Some ((name ++ ":"%char :: mark) ++ folded room s (Z.of_nat (length (name ++ ":"%char :: mark))) ++ NL :: rest)) =
    Some (Some (name ++ ":"%char :: mark ++ marked room s (Z.of_nat (length (name ++ ":"%char :: mark)))), Some rest).
Proof.
  intros Hm Hs Hr. destruct name_split as (c & r & E & Hg & H35 & _). set (u := name ++ ":"%char :: mark).
  assert (forall t, char_at (u ++ t) 0 = c) as Hc by (intros t; unfold u; by rewrite E).
  assert (printing u) as Hu by (apply list.Forall_app; split; [by apply printing_name|by apply list.Forall_cons]).
  apply isgraph_print in Hg as [Hp _]. destruct (isprint_not c Hp) as (En & _ & Ez). unfold ldif_getline. cbn [getline_loop]. rewrite Hc, En, Ez. cbn [orb].
  rewrite read_line_app, read_line_folded, read_line_end by done. cbn [fst snd]. rewrite Hc, H35, app_nil_r. unfold u. by rewrite <- app_assoc.
Qed.

Lemma from_head_eq mark room s rest :
  (from_head (name ++ [":"%char]) mark room s ++ [NL]) ++ rest = (name ++ ":"%char :: mark) ++ folded room s (Z.of_nat (length (name ++ ":"%char :: mark))) ++ NL :: rest.
Proof. unfold from_head. replace ((name ++ [":"%char]) ++ mark) with (name ++ ":"%char :: mark) by (rewrite <- app_assoc; done). by rewrite <- !app_assoc. Qed.

Lemma skip_space_name t : skip_space (name ++ t) = name ++ t.
Proof. destruct name_split as (c & r & -> & Hg & _). apply isgraph_print in Hg as [_ Hs]. cbn [app skip_space]. by rewrite Hs. Qed.

Lemma name_chars : forallb (fun c => isgraph c && negb (Ascii.eqb c ":")) name = true.
Proof. by destruct name_split as (c & r & _ & _ & _ & Ha). Qed.

Lemma trim_type_name : trim_type name = name.
Proof.
  destruct name_split as (c & r & E & _ & _ & Ha). rewrite E in *. cbn [trim_type]. f_equal. apply trim_spaces_graph. cbn [forallb] in Ha. by apply andb_prop in Ha as [_ Ha].
Qed.

(** Parsing what stands behind the colon. *)
Lemma parse_plain room s len : printing s -> starts_graph s = true ->
  ldif_parse_line2 fetch (name ++ ":"%char :: " "%char :: marked room s len) = Some (Some (name, octets_of s, false)).
Proof.
  intros Hp Hg. unfold ldif_parse_line2. rewrite skip_space_name, split_at_name, trim_type_name by apply name_chars.
  cbv beta iota zeta. fold (unmark (skip_space (" "%char :: marked room s len))).
  match goal with |- context [char_at (" "%char :: ?t) 0] => change (char_at (" "%char :: t) 0) with " "%char end.
  change (Ascii.eqb " " "<") with false. change (Ascii.eqb " " ":") with false. cbv iota. fold (unmark (skip_space (" "%char :: marked room s len))). by rewrite unmark_value.
Qed.

Lemma parse_empty : ldif_parse_line2 fetch (name ++ [":"%char]) = Some (Some (name, [], false)).
Proof. unfold ldif_parse_line2. rewrite skip_space_name. pose proof (split_at_name name [] name_chars) as ->. by rewrite trim_type_name. Qed.

Lemma parse_encoded room data len : bytes_ok data -> data <> [] -> Z.of_nat (length (base64 data)) < 2 ^ 62 ->
  ldif_parse_line2 fetch (name ++ ":"%char :: ":"%char :: " "%char :: marked room (base64 data) len) = Some (Some (name, data, false)).
Proof.
  intros Hd Hn Hl. unfold ldif_parse_line2. rewrite skip_space_name, split_at_name, trim_type_name by apply name_chars.
  cbv beta iota zeta.
  match goal with |- context [char_at (":"%char :: ?t) 0] => change (char_at (":"%char :: t) 0) with ":"%char end.
  change (Ascii.eqb ":" "<") with false. change (Ascii.eqb ":" ":") with true. cbv iota. cbn [tl]. fold (unmark (skip_space (" "%char :: marked room (base64 data) len))).
  pose proof (base64_graph data Hd) as Hg. rewrite unmark_value by (apply graph_text, Hg).
  destruct (ldap_int_decode_b64_inplace_correct data Hd Hl) as (mem & E & Ht). unfold octets_of in E. rewrite E. cbn [mbind option_bind]. change (negb (0 =? 0)) with false. rewrite Nat2Z.id, Ht.
  destruct (base64 data) eqn:E64; [|done]. apply (f_equal length) in E64. rewrite length_base64 in E64. destruct data as [|b data]; [done|]. cbn [length] in E64.
  pose proof (Nat.div_le_lower_bound (S (length data) + 2) 3 1 ltac:(lia) ltac:(lia)). lia.
Qed.

(** One line of a record. *)
Lemma ldif_line_read must val wrap rest : Z.of_nat (length val) < 2 ^ 60 -> line_follows rest = true ->
  exists l, ldif_getline (Some (ldif_line must LDIF_PUT_VALUE (Some name) val wrap ++ rest)) = Some (Some l, Some rest) /\
    ldif_parse_line2 fetch l = Some (Some (name, octets_of val, false)).
Proof.
  intros Hl Hr. unfold ldif_line. fold (real_wrap wrap). unfold ldif_head. cbv zeta. change (LDIF_PUT_VALUE =? LDIF_PUT_SEP) with false. change (LDIF_PUT_VALUE =? LDIF_PUT_NOVALUE) with false.
  change (LDIF_PUT_VALUE =? LDIF_PUT_COMMENT) with false. change (LDIF_PUT_VALUE =? LDIF_PUT_TEXT) with false. change (LDIF_PUT_VALUE =? LDIF_PUT_URL) with false. change (LDIF_PUT_VALUE =? LDIF_PUT_B64) with false.
  cbv iota. rewrite orb_false_r. cbn [from_option id].
  destruct val as [|c val']; [|set (val := c :: val') in *; change (length val =? 0)%nat with false; cbv iota; destruct (is_plain must LDIF_PUT_VALUE name val) eqn:Hp].
  - pose proof (getline_head [] 0 [] rest) as H. cbn [length Nat.eqb folded marked app] in H |- *. exists (name ++ [":"%char]). rewrite <- !app_assoc in *. split; [apply H; done || constructor|by apply parse_empty].
  - pose proof (plain_printing _ _ _ _ Hp) as Hpr. apply andb_prop in Hp as [Hv Hp].
    assert (starts_graph val = true) as Hg by (unfold plain_value in Hv; do 5 apply andb_prop in Hv as [Hv _]; by apply andb_prop in Hv as [_ Hv]).
    eexists. split; [rewrite from_head_eq; by apply getline_head, Hr; [repeat constructor|]|by apply parse_plain].
  - assert (bytes_ok (octets_of val)) as Hb by apply octets_ok.
    pose proof (base64_graph _ Hb) as Hg. pose proof (graph_text _ Hg) as [Hpr _].
    eexists. split; [rewrite from_head_eq; by apply getline_head, Hr; [repeat constructor|]|]. apply parse_encoded; [done|done|].
    pose proof (length_base64_le (octets_of val)) as H64. unfold octets_of in H64 |- *. rewrite length_fmap in H64. Z.to_euclidean_division_equations. lia.
Qed.
End line.
