(* ===== verification/LdifRecords.v ===== *)
(** * Records of LDIF: a record that was written is read back from a file *)

From Stdlib Require Import Ascii String.
From S2P Require Import Prelude Text Base64 Ldif LdifWrite LdifRead.

Local Open Scope Z_scope.
Local Abbreviation length := List.length.

(** ** Text in lines *)

Definition is_NL (c : ascii) : bool := Ascii.eqb c NL.

(** Whether a line starts behind [s]; one starts before it when [b]. *)
Fixpoint ends (b : bool) (s : text) : bool := match s with [] => b | c :: s => ends (is_NL c) s end.

(** No line is empty. *)
Fixpoint no_blank (b : bool) (s : text) : bool :=
  match s with [] => true | c :: s => negb (b && is_NL c) && no_blank (is_NL c) s end.

Lemma ends_app b s t : ends b (s ++ t) = ends (ends b s) t.
Proof. revert b. induction s as [|c s IH]; intros b; [done|]. apply IH. Qed.

Lemma no_blank_app b s t : no_blank b (s ++ t) = no_blank b s && no_blank (ends b s) t.
Proof. revert b. induction s as [|c s IH]; intros b; [done|]. cbn [app no_blank ends]. by rewrite IH, andb_assoc. Qed.

Definition line_char (c : ascii) : bool := isprint c || is_NL c.

(** Lines of printing characters, each with its end. *)
Record lines (t : text) : Prop := mkLines {
  lines_chars : Forall (fun c => line_char c = true) t;
  lines_end : ends true t = true;
  lines_blank : no_blank true t = true
}.

Lemma lines_app s t : lines s -> lines t -> lines (s ++ t).
Proof.
  intros [Hs Es Bs] [Ht Et Bt]. split; [by apply list.Forall_app|by rewrite ends_app, Es|by rewrite no_blank_app, Es, Bs].
Qed.

Lemma line_char_not c : line_char c = true -> Ascii.eqb c CR = false /\ Ascii.eqb c NUL = false.
Proof.
  unfold line_char, is_NL. intros [H|H]%orb_prop; [by destruct (isprint_not c H) as (_ & ? & ?)|]. apply Ascii.eqb_eq in H as ->. done.
Qed.

(** ** Reading from a file *)

Lemma fgets_loop_lines n : forall t more b, (0 < n)%nat -> t <> [] -> ends b t = true ->
  exists line rest, fgets_loop n (t ++ more) = (line, mkFILE (rest ++ more) false) /\ t = line ++ rest /\ line <> [] /\ ends true rest = true /\ (length line <= n)%nat.
Proof.
  induction n as [|n IH]; intros t more b Hn Ht He; [lia|]. destruct t as [|c t]; [done|]. cbn [app fgets_loop].
  cbn [ends] in He. fold (is_NL c). destruct (is_NL c) eqn:Ec; [exists [c], t; cbn [length]; split_and!; (done || lia)|].
  destruct t as [|c' t]; [done|]. destruct n as [|n].
  - exists [c], (c' :: t). split_and!; done.
  - destruct (IH (c' :: t) more false ltac:(lia) ltac:(done) He) as (line & rest & -> & Hlr & Hl & Hr & Hle). exists (c :: line), rest. rewrite Hlr. cbn [length]. split_and!; (done || lia).
Qed.

Lemma c_string_lines s : Forall (fun c => line_char c = true) s -> forall t, c_string (s ++ NUL :: t) = s /\ c_string s = s.
Proof.
  intros Hs t. assert (forall t, split_at NUL (s ++ NUL :: t) = Some (s, t) /\ split_at NUL s = None) as H; [|unfold c_string; by destruct (H t) as [-> ->]].
  induction Hs as [|c s Hc Hs IH]; intros v; [done|]. cbn [app split_at]. destruct (line_char_not c Hc) as [_ ->]. by destruct (IH v) as [-> ->].
Qed.

Lemma squash_lines s : Forall (fun c => line_char c = true) s -> squash s = (s, Z.of_nat (length s)).
Proof.
  intros Hs. unfold squash. assert (Ascii.eqb (char_at s (length s - 2)) CR = false) as ->; [|by rewrite andb_false_r].
  unfold char_at. destruct (s !! (length s - 2)%nat) as [c|] eqn:E; [|done]. cbn. rewrite list.Forall_lookup in Hs. by destruct (line_char_not c (Hs _ _ E)).
Qed.

(** ** What is written is in lines *)

(** Text within a line. *)
Definition inside (s : text) : Prop := Forall (fun c => line_char c = true) s /\ ends false s = false /\ no_blank false s = true.

Lemma inside_app s t : inside s -> inside t -> inside (s ++ t).
Proof. intros (Hs & Es & Bs) (Ht & Et & Bt). split_and!; [by apply list.Forall_app|by rewrite ends_app, Es|by rewrite no_blank_app, Es, Bs]. Qed.

Lemma isprint_line c : isprint c = true -> line_char c = true /\ is_NL c = false.
Proof. intros Hc. unfold line_char. rewrite Hc. split; [done|apply (isprint_not c Hc)]. Qed.

Lemma inside_cons c s : isprint c = true -> inside s -> inside (c :: s).
Proof.
  intros [Hc En]%isprint_line (Hs & Es & Bs). unfold inside. cbn [ends no_blank]. rewrite En. by split_and!; [constructor|..].
Qed.

Lemma inside_printing s : printing s -> inside s.
Proof. induction 1; [by repeat split; constructor|by apply inside_cons]. Qed.

Lemma inside_folded room s : printing s -> forall len, inside (folded room s len).
Proof.
  induction 1 as [|c s Hc Hs IH]; intros len; [by apply (inside_printing []); constructor|]. cbn [folded]. case_if; [|by apply inside_cons].
  specialize (IH 2). apply (inside_cons c) in IH; [|done]. apply (inside_cons " ") in IH; [|done]. destruct IH as (H1 & H2 & H3).
  split_and!; [by constructor|done|done].
Qed.

Lemma lines_inside c s : isprint c = true -> inside s -> lines (c :: s ++ [NL]).
Proof.
  intros [Hc En]%isprint_line (Hs & Es & Bs). split; cbn [ends no_blank]; rewrite ?En.
  - constructor; [done|]. apply list.Forall_app. split; [done|by constructor].
  - by rewrite ends_app.
  - by rewrite no_blank_app, Es, Bs.
Qed.

Lemma lines_ldif_line must name val wrap : name_ok name = true -> lines (ldif_line must LDIF_PUT_VALUE (Some name) val wrap).
Proof.
  intros Hn.
  assert (forall mark room s, printing mark -> printing s -> lines (from_head (name ++ [":"%char]) mark room s ++ [NL])) as Hf.
  { intros mark room s Hm Hs. unfold from_head. pose proof (printing_name name Hn) as Hp. destruct name as [|c r]; [done|]. inversion Hp; subst.
    set (f := folded _ _ _). assert (inside f) as Hi by by apply inside_folded. clearbody f.
    replace (((((c :: r) ++ [":"%char]) ++ mark) ++ f) ++ [NL]) with (c :: (r ++ ":"%char :: mark ++ f) ++ [NL]) by (cbn; rewrite <- !app_assoc; cbn; by rewrite <- app_assoc).
    apply lines_inside; [done|]. apply inside_app; [by apply inside_printing|]. apply (inside_cons ":"); [done|]. apply inside_app; [by apply inside_printing|done]. }
  unfold ldif_line. fold (real_wrap wrap). cbn zeta. change (LDIF_PUT_VALUE =? LDIF_PUT_SEP) with false. cbv iota.
  destruct (_ || _); [pose proof (Hf [] 0 []) as H; unfold from_head in H; cbn [folded] in H; rewrite !app_nil_r in H; apply H; constructor|].
  change (LDIF_PUT_VALUE =? LDIF_PUT_TEXT) with false. change (LDIF_PUT_VALUE =? LDIF_PUT_URL) with false. change (LDIF_PUT_VALUE =? LDIF_PUT_B64) with false. change (LDIF_PUT_VALUE =? LDIF_PUT_COMMENT) with false. cbv iota.
  destruct (is_plain must LDIF_PUT_VALUE (default [] (Some name)) val) eqn:Hp; apply Hf; try (repeat constructor; fail).
  - by eapply plain_printing.
  - apply graph_text, base64_graph, octets_ok.
Qed.

Lemma arr_get_last (s : text) : s <> [] -> exists c, arr_get s (Z.of_nat (length s) - 1) = Some c /\ forall b, ends b s = is_NL c.
Proof.
  intros Hs. destruct (exists_last Hs) as (u & c & ->). exists c. rewrite length_app. cbn [length]. split; [apply arr_get_mid; lia|]. intros b. by rewrite ends_app.
Qed.

(** ** Reading a record *)

Section record.
Context (open_url : text -> option FILE) (junk : nat -> text) (t more : text) (prev : list FILE).
Hypothesis junk_ok : forall n, length (junk n) = n.

(** What the reader takes for a record of its own. *)
Definition starts_record (t : text) : bool :=
  let c := char_at t 0 in
  negb (Ascii.eqb c "#") && negb ((48 <=? ascii_code c) && (ascii_code c <=? 57)) && negb (strcasecmp_eq (take 8 t) (kw "include:")).

Hypothesis t_lines : lines t.
Hypothesis t_start : starts_record t = true.
Hypothesis t_some : t <> [].
Hypothesis t_small : Z.of_nat (length t) < 2 ^ 31 - 2 ^ 14.

(** [read] has been read, and [left] is to be. *)
Record reading (read left : text) (r : reader) : Prop := mkReading {
  rd_text : read ++ left = t;
  rd_lfp : r.(r_lfp) = mkLdif (mkFILE (left ++ NL :: more) false) prev;
  rd_last : is_NL r.(r_last_ch) = ends true read;
  rd_left : ends true left = true;
  rd_lcur : r.(r_lcur) = Z.of_nat (length read);
  rd_buflen : r.(r_buflen) = Z.of_nat (length r.(r_buf)) /\ Z.of_nat (length r.(r_buf)) < 2 ^ 31;
  rd_room : r.(r_lcur) <= r.(r_buflen);
  rd_buf : exists rest, r.(r_buf) = read ++ rest /\ (read <> [] -> exists rest', rest = NUL :: rest');
  rd_found : r.(r_found) = negb (bool_decide (read = []));
  rd_top : r.(r_top_comment) = false
}.

Definition same_buffer (r r0 : reader) : Prop := r0.(r_buf) = r.(r_buf) /\ r0.(r_buflen) = r.(r_buflen) /\ r0.(r_lcur) = r.(r_lcur).

Lemma append_line_ok read left r r0 str (len := Z.of_nat (length str)) :
  reading read left r -> same_buffer r r0 -> len <= 4095 -> Z.of_nat (length read) + len <= Z.of_nat (length t) ->
  exists buf rest, append_line junk r0 str len = Some (mkReader r0.(r_lfp) r0.(r_lno) buf (Z.of_nat (length buf)) (r.(r_lcur) + len) r0.(r_last_ch) r0.(r_found) r0.(r_top_comment)) /\
    buf = (read ++ str) ++ NUL :: rest /\ Z.of_nat (length buf) < 2 ^ 31.
Proof.
  intros [_ _ _ _ Hc [Hb Hbl] Hroom (rest & Hbuf & _) _ _] (E1 & E2 & E3) Hl Ht. unfold append_line. rewrite E1, E2, E3. clear E1 E2 E3.
  rewrite uwrap_small by lia. rewrite Hc, Nat2Z.id in *.
  assert (forall buf, (exists rest, buf = read ++ rest) -> Z.of_nat (length buf) < 2 ^ 31 -> (length read + length str < length buf)%nat ->
    exists rest, mem_write buf (length read) (str ++ [NUL]) = Some ((read ++ str) ++ NUL :: rest) /\ length ((read ++ str) ++ NUL :: rest) = length buf) as Hw.
  { intros buf (rest' & ->) Hs Hfit. rewrite length_app in Hfit. rewrite <- (take_drop (S (length str)) rest'). exists (drop (S (length str)) rest').
    rewrite mem_write_app; [|done|rewrite length_take, length_app; cbn [length]; lia]. rewrite <- !app_assoc. split; [done|].
    rewrite !length_app. cbn [length]. rewrite length_take, length_drop. lia. }
  destruct (Z.leb_spec (r_buflen r - Z.of_nat (length read)) len) as [Hle|Hgt].
  - rewrite swrap_small by (unfold LDIF_MAXLINE; lia). set (n := r_buflen r + len + Z.of_nat LDIF_MAXLINE).
    assert (length (realloc junk (r_buf r) n) = Z.to_nat n) as Hn.
    { unfold realloc. rewrite length_take, length_app, junk_ok. lia. }
    destruct (Hw (realloc junk (r_buf r) n)) as (rest' & Hm & Hml); [|unfold LDIF_MAXLINE in *; lia..|].
    { unfold realloc. rewrite Hbuf, <- app_assoc. rewrite take_app_ge by (unfold n, LDIF_MAXLINE; lia). by eexists. }
    rewrite Hm. cbn [mbind option_bind]. exists ((read ++ str) ++ NUL :: rest'), rest'. rewrite Hml, Hn. unfold n, LDIF_MAXLINE in *. split_and!; [|done|lia].
    by rewrite Z2Nat.id by lia.
  - destruct (Hw (r_buf r)) as (rest' & Hm & Hml); [by eexists|lia..|].
    rewrite Hm. cbn [mbind option_bind]. exists ((read ++ str) ++ NUL :: rest'), rest'. rewrite Hml, <- Hb. split_and!; [done|done|lia].
Qed.
(** The line goes behind the others. *)
Lemma last_line_ok read line left r r0 :
  reading read (line ++ left) r -> line <> [] -> (length line <= 4095)%nat -> ends true left = true ->
  same_buffer r r0 -> r0.(r_lfp) = mkLdif (mkFILE (left ++ NL :: more) false) prev -> r0.(r_found) = true -> r0.(r_top_comment) = false ->
  exists r', last_line junk r0 line (Z.of_nat (length line)) = Some (inl r') /\ reading (read ++ line) left r'.
Proof.
  intros Hr Hl Hle Hleft Hsame Hlfp Hfound Htop. unfold last_line, next_line, set_last.
  pose proof (f_equal length (rd_text _ _ _ Hr)) as Ht. rewrite !length_app in Ht.
  destruct (append_line_ok read (line ++ left) r r0 line Hr Hsame) as (buf & rest & -> & Hb & Hbl); [lia..|].
  cbn [mbind option_bind r_lfp r_lno r_buf r_buflen r_lcur r_last_ch r_found r_top_comment].
  destruct (arr_get_last line Hl) as (c & -> & Hc). cbn [mbind option_bind]. eexists. split; [done|].
  destruct Hr as [Hrt Hf Hlast Hre Hlc _ _ _ _ _]. split; cbn [r_lfp r_lno r_buf r_buflen r_lcur r_last_ch r_found r_top_comment].
  - by rewrite <- app_assoc.
  - done.
  - by rewrite ends_app, Hc.
  - done.
  - rewrite Hlc, length_app. lia.
  - done.
  - rewrite Hlc. subst buf. rewrite !length_app. cbn [length]. lia.
  - exists (NUL :: rest). split; [done|]. intros _. by exists rest.
  - rewrite bool_decide_false; [done|]. clear Hrt. destruct read; [|done]. by destruct line.
  - done.
Qed.

Lemma start_record_line line left : t = line ++ left -> line <> [] ->
  Ascii.eqb (char_at line 0) "#" = false /\ (48 <=? ascii_code (char_at line 0)) && (ascii_code (char_at line 0) <=? 57) = false /\
  strcasecmp_eq (take 8 line) (kw "include:") = false.
Proof.
  intros E Hl. unfold starts_record in t_start. apply andb_prop in t_start as [H Hi]. apply andb_prop in H as [Hh Hd]. apply negb_true_iff in Hh, Hd, Hi.
  assert (char_at line 0 = char_at t 0) as -> by (rewrite E; by destruct line). split_and!; [done|done|].
  destruct (le_lt_dec 8 (length line)) as [H8|H8]; [by rewrite E, take_app_le in Hi|].
  apply bool_decide_eq_false. intros H. apply (f_equal length) in H. rewrite !length_fmap, length_take in H. change (length (kw "include:")) with 8%nat in H. lia.
Qed.

Lemma start_line_ok read line left r r0 :
  reading read (line ++ left) r -> line <> [] -> (length line <= 4095)%nat -> ends true left = true -> ends true read = true ->
  same_buffer r r0 -> r0.(r_lfp) = mkLdif (mkFILE (left ++ NL :: more) false) prev -> r0.(r_found) = r.(r_found) -> r0.(r_top_comment) = false ->
  exists r', start_line open_url junk r0 line (Z.of_nat (length line)) = Some (inl r') /\ reading (read ++ line) left r'.
Proof.
  intros Hr Hl Hle Hleft Hread Hsame Hlfp Hfound Htop. pose proof Hr as [Hrt _ _ _ _ _ _ _ Hf _]. unfold start_line.
  cbn [r_lfp r_lno r_buf r_buflen r_lcur r_last_ch r_found r_top_comment].
  assert (Ascii.eqb (char_at line 0) NL = false) as ->.
  { destruct t_lines as [_ _ Hb]. rewrite <- Hrt, no_blank_app, Hread in Hb. apply andb_prop in Hb as [_ Hb]. destruct line as [|c line]; [done|].
    cbn [app no_blank andb] in Hb. apply andb_prop in Hb as [Hb%negb_true_iff _]. exact Hb. }
  rewrite Hfound, Hf, Htop. destruct (decide (read = [])) as [E|E].
  - rewrite bool_decide_true by done. cbn [negb]. rewrite E in Hrt. destruct (start_record_line line left (eq_sym Hrt) Hl) as (-> & -> & ->). cbn [andb].
    by apply (last_line_ok read line left r).
  - rewrite bool_decide_false by done. cbn [negb]. by apply (last_line_ok read line left r).
Qed.

(** One line of the record. *)
Lemma read_step_line read left r : reading read left r -> left <> [] ->
  exists line left' r', left = line ++ left' /\ line <> [] /\ read_step open_url junk r = Some (inl r') /\ reading (read ++ line) left' r'.
Proof.
  intros Hr Hl. unfold read_step. pose proof Hr as [Hrt Hf Hlast Hre Hlc _ _ _ Hfound Htop]. rewrite Hf. cbn [lf_fp lf_prev].
  assert (pop_files (mkFILE (left ++ NL :: more) false) prev = (mkLdif (mkFILE (left ++ NL :: more) false) prev, false)) as -> by by destruct prev.
  unfold fgets. cbn [lf_fp f_rest lf_prev].
  destruct (fgets_loop_lines (LDIF_MAXLINE - 1) left (NL :: more) true) as (line & left' & Hfg & Hsplit & Hln & Hle & Hmax); [unfold LDIF_MAXLINE; lia|done|done|].
  rewrite Hfg. cbv beta iota zeta. destruct line as [|c line']; [done|]. set (line := c :: line') in *.
  assert (Forall (fun c => line_char c = true) line) as Hlc'.
  { destruct t_lines as [Hch _ _]. rewrite <- Hrt, Hsplit in Hch. apply list.Forall_app in Hch as [_ Hch]. by apply list.Forall_app in Hch as [Hch _]. }
  destruct (c_string_lines line Hlc' []) as [_ ->]. rewrite squash_lines by done. exists line, left'. cbn [r_last_ch]. fold (is_NL (r_last_ch r)). rewrite Hlast, Hsplit in *.
  destruct (ends true read) eqn:He.
  - destruct (start_line_ok read line left' r (mkReader (mkLdif (mkFILE (left' ++ NL :: more) false) prev) (r_lno r) (r_buf r) (r_buflen r) (r_lcur r) (r_last_ch r) (r_found r) (r_top_comment r))) as (r' & E & Hr'); try done.
    by exists r'.
  - destruct (last_line_ok read line left' r (mkReader (mkLdif (mkFILE (left' ++ NL :: more) false) prev) (r_lno r) (r_buf r) (r_buflen r) (r_lcur r) (r_last_ch r) (r_found r) (r_top_comment r))) as (r' & E & Hr'); try done.
    { cbn. rewrite Hfound. rewrite bool_decide_false; [done|]. by intros ->. }
    by exists r'.
Qed.

(** The blank line behind it. *)
Lemma read_step_end r : reading t [] r -> exists r', read_step open_url junk r = Some (inr (1, r')) /\
  r'.(r_lfp) = mkLdif (mkFILE more false) prev /\ c_string r'.(r_buf) = t /\ r'.(r_lcur) = Z.of_nat (length t).
Proof.
  intros [_ Hf Hlast _ Hlc _ _ (rest & Hb & Hz) Hfound Htop]. unfold read_step. rewrite Hf. cbn [lf_fp lf_prev app].
  assert (pop_files (mkFILE (NL :: more) false) prev = (mkLdif (mkFILE (NL :: more) false) prev, false)) as -> by by destruct prev.
  change (fgets LDIF_MAXLINE (lf_fp (mkLdif (mkFILE (NL :: more) false) prev))) with (Some [NL], mkFILE more false). cbv beta iota zeta.
  change (squash (c_string [NL])) with ([NL], 1). cbn [r_last_ch]. fold (is_NL (r_last_ch r)). rewrite Hlast, (lines_end _ t_lines).
  unfold start_line. change (char_at [NL] 0) with NL. change (Ascii.eqb NL NL) with true. cbn [r_found]. rewrite Hfound, bool_decide_false by done. cbn [negb].
  unfold finish_record. cbn [r_found r_lfp r_lno r_buf r_buflen r_lcur r_last_ch r_top_comment lf_prev].
  eexists. split; [done|]. cbn [r_lfp r_buf r_lcur]. split_and!; [done| |done]. rewrite Hb. destruct (Hz t_some) as [rest' ->]. by apply c_string_lines, t_lines.
Qed.

Lemma ldif_read_record_lines lno buf buflen : buflen = Z.of_nat (length buf) -> buflen < 2 ^ 31 ->
  exists r, ldif_read_record open_url junk 31 (mkLdif (mkFILE (t ++ NL :: more) false) prev) lno buf buflen = Some (1, r) /\
    r.(r_lfp) = mkLdif (mkFILE more false) prev /\ c_string r.(r_buf) = t /\ r.(r_lcur) = Z.of_nat (length t).
Proof.
  intros Hb Hbl. unfold ldif_read_record.
  destruct (run_ok (read_step open_url junk) (fun r => exists read left, reading read left r)
    (fun r => Z.of_nat (length r.(r_lfp).(lf_fp).(f_rest)) - Z.of_nat (length more))
    (fun '(rc, r) => rc = 1 /\ r.(r_lfp) = mkLdif (mkFILE more false) prev /\ c_string r.(r_buf) = t /\ r.(r_lcur) = Z.of_nat (length t))) with (k := 31%nat)
    (s := mkReader (mkLdif (mkFILE (t ++ NL :: more) false) prev) lno buf buflen 0 NL false false) as ([rc r] & Hr & H).
  - intros r (read & left & Hr). rewrite (rd_lfp _ _ _ Hr). cbn [lf_fp f_rest]. rewrite length_app. cbn [length]. split; [lia|].
    destruct left as [|c left].
    + pose proof (rd_text _ _ _ Hr) as Ht. rewrite app_nil_r in Ht. subst read. destruct (read_step_end r Hr) as (r' & -> & H). by eexists.
    + destruct (read_step_line read (c :: left) r Hr ltac:(done)) as (line & left' & r' & E & Hl & -> & Hr'). eexists. split; [done|]. split; [by do 2 eexists|].
      rewrite (rd_lfp _ _ _ Hr'), E. cbn [lf_fp f_rest]. rewrite !length_app. cbn [length]. destruct line; [done|]. cbn [length]. lia.
  - exists [], t. split; cbn [r_lfp r_lno r_buf r_buflen r_lcur r_last_ch r_found r_top_comment]; try done; [by apply t_lines|lia|lia|by exists buf].
  - cbn [r_lfp lf_fp f_rest]. rewrite length_app. cbn [length]. lia.
  - exists r. destruct H as (-> & H). done.
Qed.
End record.

(** ** Records *)

(** The lines of a text, read and taken apart one after the other. *)
Inductive reads (fetch : text -> option (list Z)) : option text -> list (text * list Z) -> Prop :=
  | reads_end next next' : ldif_getline next = Some (None, next') -> reads fetch next []
  | reads_line next line next' name value freeval attrs :
      ldif_getline next = Some (Some line, next') -> ldif_parse_line2 fetch line = Some (Some (name, value, freeval)) ->
      reads fetch next' attrs -> reads fetch next ((name, value) :: attrs).

(** The lines of a record, as [ldif_put_wrap] returns them. *)
Inductive puts_record (must : list (text * text)) (junk : nat -> text) (wrap : Z) : list (text * text) -> text -> Prop :=
  | puts_none : puts_record must junk wrap [] []
  | puts_line name val attrs mem n rest :
      ldif_put_wrap must junk LDIF_PUT_VALUE (Some name) val wrap = Some (mem, n) -> puts_record must junk wrap attrs rest ->
      puts_record must junk wrap ((name, val) :: attrs) (c_string mem ++ rest).

Definition attr_ok (a : text * text) : bool := name_ok a.1 && (Z.of_nat (length a.1) + Z.of_nat (length a.2) <? 2 ^ 60).

(** A first name that does not make the line something else. *)
Definition first_ok (attrs : list (text * text)) : bool :=
  match attrs with
  | [] => false
  | (name, _) :: _ => negb ((48 <=? ascii_code (char_at name 0)) && (ascii_code (char_at name 0) <=? 57)) && negb (strcasecmp_eq name (kw "include"))
  end.

Definition lower (s : text) : text := tolower <$> s.

Lemma split_at_lower s : split_at ":" (lower s) = ('(u, v) ← split_at ":" s; Some (lower u, lower v)).
Proof.
  induction s as [|c s IH]; [done|]. change (lower (c :: s)) with (tolower c :: lower s). cbn [split_at]. rewrite IH.
  pose proof (ascii_table (fun c => Bool.eqb (Ascii.eqb (tolower c) ":") (Ascii.eqb c ":")) ltac:(by vm_compute) c) as H%Bool.eqb_prop. cbn beta in H. rewrite H.
  destruct (Ascii.eqb c ":"); [done|]. by destruct (split_at ":" s) as [[u v]|].
Qed.

Lemma split_at_none s : forallb (fun c => isgraph c && negb (Ascii.eqb c ":")) s = true -> split_at ":" s = None.
Proof. induction s as [|c s IH]; [done|]. cbn [forallb split_at]. intros [[_ ->%negb_true_iff]%andb_prop Hs]%andb_prop. by rewrite IH. Qed.

(** Only the name include makes the line an inclusion. *)
Lemma not_include name x : name_ok name = true -> strcasecmp_eq name (kw "include") = false -> strcasecmp_eq (take 8 (name ++ ":"%char :: x)) (kw "include:") = false.
Proof.
  intros Hn Hi. apply bool_decide_eq_false. intros H%(f_equal (split_at ":")). rewrite (split_at_lower (take 8 _)) in H.
  change (split_at ":" (tolower <$> kw "include:")) with (Some (kw "include", @nil ascii)) in H. apply bool_decide_eq_false in Hi. destruct (le_lt_dec 8 (length name)) as [H8|H8].
  - rewrite take_app_le, split_at_none in H; [done| |done]. pose proof (name_chars name Hn) as Hc. rewrite <- (take_drop 8 name), forallb_app in Hc. by apply andb_prop in Hc as [Hc _].
  - rewrite take_app_ge in H by lia. destruct (8 - length name)%nat as [|k] eqn:Ek; [lia|]. cbn [take] in H. rewrite split_at_name in H by by apply name_chars. cbn in H. injection H as H. by apply Hi.
Qed.

Section roundtrip.
Context (must : list (text * text)) (junk : nat -> text) (wrap : Z) (fetch : text -> option (list Z)).
Hypothesis junk_ok : forall n, length (junk n) = n.
Hypothesis wrap_ok : 0 <= wrap < 2 ^ 64 /\ wrap <> 1.

(** What one call returns. *)
Lemma ldif_put_wrap_string name val mem n : attr_ok (name, val) = true -> ldif_put_wrap must junk LDIF_PUT_VALUE (Some name) val wrap = Some (mem, n) ->
  c_string mem = ldif_line must LDIF_PUT_VALUE (Some name) val wrap.
Proof.
  intros [Hn Hl]%andb_prop Hp. zb. cbn [fst snd] in *.
  destruct (ldif_put_wrap_spec must junk LDIF_PUT_VALUE (Some name) val wrap) as (mem' & n' & E & Ht); try (done || lia); [by left|].
  rewrite E in Hp. injection Hp as -> ->. rewrite <- (take_drop (S n) mem), Ht, <- app_assoc. cbn [app]. by apply c_string_lines, lines_ldif_line.
Qed.

(** The text of the lines. *)
Definition record_text (attrs : list (text * text)) : text :=
  concat ((fun a => ldif_line must LDIF_PUT_VALUE (Some a.1) a.2 wrap) <$> attrs).

Lemma puts_record_text attrs t : puts_record must junk wrap attrs t -> forallb attr_ok attrs = true -> t = record_text attrs.
Proof.
  induction 1 as [|name val attrs mem n rest Hp Hr IH]; [done|]. cbn [forallb]. intros [Ha Hs]%andb_prop. rewrite IH by done.
  by rewrite (ldif_put_wrap_string name val mem n).
Qed.

Lemma record_lines attrs : forallb attr_ok attrs = true -> lines (record_text attrs).
Proof.
  induction attrs as [|[name val] attrs IH]; [by repeat split; constructor|]. cbn [forallb]. intros [Ha Hs]%andb_prop.
  apply lines_app; [|by apply IH]. apply andb_prop in Ha as [Hn _]. by apply lines_ldif_line.
Qed.

(** A line starts with its name and a colon. *)
Lemma ldif_line_name name val : exists s, ldif_line must LDIF_PUT_VALUE (Some name) val wrap = name ++ ":"%char :: s.
Proof.
  unfold ldif_line, ldif_head, from_head. cbn zeta. change (LDIF_PUT_VALUE =? LDIF_PUT_SEP) with false. change (LDIF_PUT_VALUE =? LDIF_PUT_TEXT) with false. change (LDIF_PUT_VALUE =? LDIF_PUT_URL) with false.
  change (LDIF_PUT_VALUE =? LDIF_PUT_B64) with false. change (LDIF_PUT_VALUE =? LDIF_PUT_COMMENT) with false. cbv iota. cbn [from_option id]. repeat case_if; rewrite <- !app_assoc; by eexists.
Qed.

Lemma record_follows attrs : forallb attr_ok attrs = true -> line_follows (record_text attrs) = true.
Proof.
  destruct attrs as [|[name val] attrs]; [done|]. cbn [forallb]. intros [[Hn _]%andb_prop _]%andb_prop. unfold record_text. cbn [fmap list_fmap concat].
  destruct (ldif_line_name name val) as [s E]. cbn [fst snd] in *. rewrite E. destruct (name_split name Hn) as (c & r & -> & Hg & _). unfold line_follows. cbn [app].
  match goal with |- context [char_at (c :: ?t) 0] => change (char_at (c :: t) 0) with c end.
  destruct (isprint_not c (proj1 (isgraph_print c Hg))) as (_ & -> & _). destruct (Ascii.eqb c " ") eqn:E32; [|done]. apply Ascii.eqb_eq in E32 as ->. done.
Qed.

Lemma record_reads attrs : forallb attr_ok attrs = true -> reads fetch (Some (record_text attrs)) ((fun a => (a.1, octets_of a.2)) <$> attrs).
Proof.
  induction attrs as [|[name val] attrs IH]; [intros; by eapply reads_end|]. cbn [forallb]. intros [Ha Hs]%andb_prop. specialize (IH Hs).
  apply andb_prop in Ha as [Hn Hl]. zb. cbn [fst snd] in *.
  destruct (ldif_line_read fetch name Hn must val wrap (record_text attrs)) as (l & Hget & Hparse); [lia|by apply record_follows|].
  by eapply reads_line.
Qed.

Lemma record_starts attrs : forallb attr_ok attrs = true -> first_ok attrs = true -> starts_record (record_text attrs) = true /\ record_text attrs <> [].
Proof.
  destruct attrs as [|[name val] attrs]; [done|]. cbn [forallb first_ok]. intros [[Hn _]%andb_prop _]%andb_prop [Hd Hi]%andb_prop. unfold record_text. cbn [fmap list_fmap concat fst snd].
  destruct (ldif_line_name name val) as [s E]. rewrite E. cbn [fst snd] in Hn. destruct (name_split name Hn) as (c & r & En & _ & H35 & Hc). unfold starts_record.
  set (u := concat _). clearbody u. assert (char_at ((name ++ ":"%char :: s) ++ u) 0 = c) as -> by by rewrite En.
  assert (char_at name 0 = c) as E0 by by rewrite En. rewrite E0 in Hd. rewrite H35, Hd. cbn [negb andb]. split; [|by rewrite En].
  rewrite <- app_assoc. cbn [app]. apply negb_true_iff in Hi. by rewrite not_include.
Qed.
End roundtrip.

(** C5: Claim: a record that is written to a file as LDIF lines ([ldif_put_wrap] for each
    attribute, at any width of lines, whatever octets the values have) and a blank line is
    read back: [ldif_read_record] returns it whole and leaves the file behind it, and
    [ldif_getline] with [ldif_parse_line2] gives each name with the octets of its value,
    in order. *)
Theorem ldif_record_roundtrip (must : list (text * text)) (open_url : text -> option FILE) (junk : nat -> text) (fetch : text -> option (list Z))
    (wrap : Z) (attrs : list (text * text)) (t more : text) (prev : list FILE) (lno : Z) :
  (forall n, length (junk n) = n) -> 0 <= wrap < 2 ^ 64 -> wrap <> 1 ->
  forallb attr_ok attrs = true -> first_ok attrs = true -> puts_record must junk wrap attrs t -> Z.of_nat (length t) < 2 ^ 31 - 2 ^ 14 ->
  exists r, ldif_read_record open_url junk 31 (mkLdif (mkFILE (t ++ NL :: more) false) prev) lno [] 0 = Some (1, r) /\
    r.(r_lfp) = mkLdif (mkFILE more false) prev /\
    reads fetch (Some (c_string r.(r_buf))) ((fun a => (a.1, octets_of a.2)) <$> attrs).
Proof.
  intros Hj Hw H1 Ha Hf Ht Hs. rewrite (puts_record_text must junk wrap Hj (conj Hw H1) attrs t Ht Ha) in *.
  destruct (record_starts must wrap attrs Ha Hf) as [Hst Hne].
  destruct (ldif_read_record_lines open_url junk (record_text must wrap attrs) more prev Hj (record_lines must wrap attrs Ha) Hst Hne Hs lno [] 0) as (r & Hr & Hl & Hb & _); [done|lia|].
  exists r. rewrite Hb. split_and!; [done|done|]. by apply record_reads.
Qed.

(** A password, which is encoded in any case, a text and an octet that does not print, at
    a width of 12. *)
Definition example_attrs : list (text * text) := [(kw "dn", kw "cn=a,dc=b c"); (kw "userPassword", kw "secret"); (kw "x", [NUL])].

Definition example_text : text :=
  c_string (default [] (fst <$> ldif_put_wrap default_must_b64_encode (fun n => replicate n "#"%char) LDIF_PUT_VALUE (Some (kw "dn")) (kw "cn=a,dc=b c") 12)) ++
  c_string (default [] (fst <$> ldif_put_wrap default_must_b64_encode (fun n => replicate n "#"%char) LDIF_PUT_VALUE (Some (kw "userPassword")) (kw "secret") 12)) ++
  c_string (default [] (fst <$> ldif_put_wrap default_must_b64_encode (fun n => replicate n "#"%char) LDIF_PUT_VALUE (Some (kw "x")) [NUL] 12)) ++ [].

Lemma example_text_is : example_text = kw "dn: cn=a,dc=" ++ [NL] ++ kw " b c" ++ [NL] ++ kw "userPassword:: " ++ [NL] ++ kw " c2VjcmV0" ++ [NL] ++ kw "x:: AA==" ++ [NL].
Proof. vm_compute. reflexivity. Qed.

Lemma ldif_record_roundtrip_witness : forallb attr_ok example_attrs = true /\
  exists r, ldif_read_record (fun _ => None) (fun n => replicate n "#"%char) 31 (mkLdif (mkFILE (example_text ++ NL :: kw "dn: next") false) []) 0 [] 0 = Some (1, r) /\
    r.(r_lfp) = mkLdif (mkFILE (kw "dn: next") false) [] /\
    reads (fun _ => None) (Some (c_string r.(r_buf))) ((fun a => (a.1, octets_of a.2)) <$> example_attrs).
Proof.
  split; [vm_compute; reflexivity|].
  apply (ldif_record_roundtrip default_must_b64_encode (fun _ => None) (fun n => replicate n "#"%char) (fun _ => None) 12 example_attrs example_text (kw "dn: next") [] 0).
  - intros n. apply length_replicate.
  - lia.
  - lia.
  - vm_compute. reflexivity.
  - vm_compute. reflexivity.
  - eapply puts_line; [vm_compute; reflexivity|]. eapply puts_line; [vm_compute; reflexivity|]. eapply puts_line; [vm_compute; reflexivity|]. apply puts_none.
  - vm_compute. reflexivity.
Defined.

(** ** What goes wrong *)

Definition chars (n : nat) : text := replicate n "a"%char.

(** The end of a line that CR LF ends stays in the array behind the line, and is copied
    with it: one octet more than the buffer was made for. *)
Example crlf_overflow : ldif_read_record (fun _ => None) (fun n => replicate n NUL) 31
  (mkLdif (mkFILE (kw "dn: x" ++ [NL] ++ chars 3999 ++ [NL] ++ chars 94 ++ [CR; NL] ++ [NL]) false) []) 0 [] 0 = None.
Proof. vm_compute. reflexivity. Qed.

(** With LF alone it is read. *)
Example lf_read : (fst <$> ldif_read_record (fun _ => None) (fun n => replicate n NUL) 31
  (mkLdif (mkFILE (kw "dn: x" ++ [NL] ++ chars 3999 ++ [NL] ++ chars 94 ++ [NL] ++ [NL]) false) []) 0 [] 0) = Some 1.
Proof. vm_compute. reflexivity. Qed.

(** A line that begins with NUL: [line[len - 1]] is outside the array. *)
Example nul_line : ldif_read_record (fun _ => None) (fun n => replicate n NUL) 31 (mkLdif (mkFILE ([NUL] ++ [NL]) false) []) 0 [] 0 = None.
Proof. vm_compute. reflexivity. Qed.

(** An included file with a blank line at its end: the call behind its last record
    reports the end, while the file that includes it has another record. *)
Definition one_inclusion : text -> option FILE := fun _ => Some (mkFILE (kw "dn: y" ++ [NL; NL]) false).

Example include_end :
  match ldif_read_record one_inclusion (fun n => replicate n NUL) 31 (mkLdif (mkFILE (kw "include: f" ++ [NL; NL] ++ kw "dn: x" ++ [NL; NL]) false) []) 0 [] 0 with
  | Some (rc, r) =>
      (rc, match ldif_read_record one_inclusion (fun n => replicate n NUL) 31 r.(r_lfp) r.(r_lno) r.(r_buf) r.(r_buflen) with
           | Some (rc', r') => Some (rc', f_rest <$> r'.(r_lfp).(lf_prev))
           | None => None
           end)
  | None => (-2, None)
  end = (1, Some (0, [NL :: kw "dn: x" ++ [NL; NL]])).
Proof. vm_compute. reflexivity. Qed.

(** The length of a type counts the white space that is cut off. *)
Example type_length fetch : ldif_parse_line2 fetch (kw "cn  : x") = Some (Some (kw "cn" ++ [NUL; NUL], octets_of (kw "x"), false)).
Proof. vm_compute. reflexivity. Qed.

(** Pads alone are decoded, to an octet. *)
Example pads_decoded : ldif_parse_line2 (fun _ => None) (kw "x:: ====") = Some (Some (kw "x", [255], false)).
Proof. vm_compute. reflexivity. Qed.
