(* ===== verification/StrBin.v ===== *)
(** * Numbers of any length in binary (liblutil/utils.c)

    [lutil_str2bin] converts the text of a number, decimal or hexadecimal, to
    octets in two's complement. A buffer is the list of its octets; accesses outside
    it give [None]. *)

From Stdlib Require Import Ascii String.
From S2P Require Import Prelude Text.

Local Open Scope Z_scope.
Local Abbreviation length := List.length.

(** ** Decimal numbers *)

Record lutil_int_decnum := mkDec {
  buf : list Z;
  beg : Z;
  len : Z }.

Definition bufsiz (num : lutil_int_decnum) : Z := Z.of_nat (length num.(buf)).

Definition FACTOR1 : Z := Z.land 100000000 0xffff.
Definition FACTOR2 : Z := Z.shiftr 100000000 16.

(** Adding [part] at a position and carrying into the ones in front of it. *)
Fixpoint carry (fuel : nat) (tmp : list Z) (j part : Z) : option (list Z * Z) :=
  if part =? 0 then Some (tmp, j) else
  match fuel with
  | O => None
  | S fuel =>
      o ← arr_get tmp j;
      let part := u32 (part + o) in
      tmp ← arr_set tmp j (Z.land part 0xff);
      carry fuel tmp (j - 1) (Z.shiftr part 8)
  end.

(** The loop over the octets of the number, the last first; [out] is the position
    of its first one. [j] is where the last carry ended, relative to [out]. *)
Fixpoint products (i : nat) (inb tmp : list Z) (out j : Z) : option (list Z * Z) :=
  match i with
  | O => Some (tmp, j)
  | S i =>
      b ← arr_get inb (Z.of_nat i);
      '(tmp, _) ← carry (S (length tmp)) tmp (out + Z.of_nat i) (u32 (b * FACTOR1));
      '(tmp, j) ← carry (S (length tmp)) tmp (out + Z.of_nat i - 2) (u32 (b * FACTOR2));
      products i inb tmp out (j - out)
  end.

(** Adding [new] at the end. *)
Fixpoint add_new (fuel : nat) (tmp : list Z) (i new : Z) : option (list Z * Z) :=
  match fuel with
  | O => None
  | S fuel =>
      let i := i - 1 in
      let p := Z.of_nat (length tmp) + i in
      o ← arr_get tmp p;
      let new := new + o in
      tmp ← arr_set tmp p (Z.land new 0xff);
      let new := Z.shiftr new 8 in
      if new =? 0 then Some (tmp, i) else add_new fuel tmp i new
  end.

Definition copy_from (dst src : list Z) (beg len : Z) : option (list Z) :=
  if beg <? 0 then None else
  d ← mem_read src (Z.to_nat beg) (Z.to_nat len); mem_write dst (Z.to_nat beg) d.

(** Multiply by 100000000 and add [new]. *)
Definition scale (new : Z) (prev : lutil_int_decnum) : option lutil_int_decnum :=
  let tmp := replicate (length prev.(buf)) 0 in
  let out := bufsiz prev - prev.(len) in
  '(tmp, beg, len) ←
    (if prev.(len) =? 0 then Some (tmp, prev.(beg), prev.(len))
     else
       inb ← (if prev.(beg) <? 0 then None else mem_read prev.(buf) (Z.to_nat prev.(beg)) (Z.to_nat prev.(len)));
       '(tmp, j) ← products (Z.to_nat prev.(len)) inb tmp out (-1);
       let j := j + 1 in
       Some (tmp, prev.(beg) + j, prev.(len) - j));
  '(tmp, i) ← add_new (S (length tmp)) tmp 0 new;
  let i := - i in
  let '(beg, len) := if len <? i then (bufsiz prev - i, i) else (beg, len) in
  b ← copy_from prev.(buf) tmp beg len;
  Some (mkDec b beg len).

(** The value of a chunk of digits; [None] if [strtol] sets [errno]. *)
Definition chunk_value (tbuf : text) : option Z :=
  match strtol_exact tbuf 10 with
  | Some (v, _) => if decide (- 2 ^ 63 <= v < 2 ^ 63) then Some v else None
  | None => Some 0
  end.

Definition DECMAX : nat := 8.

(** The chunks; the inner [None] is an error. *)
Fixpoint dec_loop (fuel : nat) (pin : text) (chunk : nat) (num : lutil_int_decnum) : option (option lutil_int_decnum) :=
  match pin with
  | [] => Some (Some num)
  | _ =>
      match fuel with
      | O => None
      | S fuel =>
          match chunk_value (take chunk pin) with
          | None => Some None
          | Some l => num ← scale (i32 l) num; dec_loop fuel (drop chunk pin) DECMAX num
          end
      end
  end.

(** Adding one to the octets, the last first. *)
Fixpoint increment (l : list Z) : list Z :=
  match l with
  | [] => []
  | b :: l => let b := Z.land (b + 1) 0xff in if b =? 0 then b :: increment l else b :: l
  end.

Definition negate (seg : list Z) : list Z := rev (increment (rev (map (fun b => Z.lxor b 0xff) seg))).

(** The result code, the buffer and its new length. *)
Definition dec2bin (inv : text) (out : list Z) : option (Z * list Z * Z) :=
  let '(neg, pin) := match inv with c :: r => if Ascii.eqb c "-" then (0xff, r) else (0, inv) | [] => (0, inv) end in
  let chunk := (length pin mod DECMAX)%nat in
  let chunk := if (chunk =? 0)%nat then DECMAX else chunk in
  r ← dec_loop (length pin) pin chunk (mkDec out (Z.of_nat (length out) - 1) 0);
  match r with
  | None => Some (-1, out, Z.of_nat (length out))
  | Some num =>
      seg ← (if num.(beg) <? 0 then None else mem_read num.(buf) (Z.to_nat num.(beg)) (Z.to_nat num.(len)));
      buf ← (if neg =? 0 then Some num.(buf) else mem_write num.(buf) (Z.to_nat num.(beg)) (negate seg));
      first ← arr_get buf num.(beg);
      '(buf, beg, len) ←
        (if negb (Z.land (Z.lxor first neg) 0x80 =? 0) then
           buf ← arr_set buf (num.(beg) - 1) neg; Some (buf, num.(beg) - 1, num.(len) + 1)
         else Some (buf, num.(beg), num.(len)));
      d ← mem_read buf (Z.to_nat beg) (Z.to_nat len);
      buf ← mem_write buf 0 d;
      Some (0, buf, len)
  end.

(** ** Hexadecimal numbers *)

Definition HEXMAX : nat := 16.

(** The low [n] octets of a number, the highest first. *)
Fixpoint low_octets (n : nat) (l : Z) : list Z :=
  match n with O => [] | S n => low_octets n (Z.shiftr l 8) ++ [Z.land l 0xff] end.

Definition hex_chunk (tbuf : text) : option Z :=
  match strtol_exact tbuf 16 with
  | Some (v, _) => if decide (Z.abs v < 2 ^ 64) then Some (u64 v) else None
  | None => Some 0
  end.

Fixpoint hex_loop (fuel : nat) (pin : text) (chunk : nat) (out : list Z) (pout : nat) : option (Z * list Z * Z) :=
  match pin with
  | [] => Some (0, out, Z.of_nat pout)
  | _ =>
      match fuel with
      | O => None
      | S fuel =>
          match hex_chunk (take chunk pin) with
          | None => Some (-1, out, Z.of_nat (length out))
          | Some l =>
              let ochunk := ((chunk + 1) / 2)%nat in
              out ← mem_write out pout (low_octets ochunk l);
              hex_loop fuel (drop chunk pin) HEXMAX out (pout + ochunk)
          end
      end
  end.

Definition hex2bin (pin : text) (out : list Z) : option (Z * list Z * Z) :=
  let chunk := (length pin mod HEXMAX)%nat in
  hex_loop (length pin) pin (if (chunk =? 0)%nat then HEXMAX else chunk) out 0.

(** ** [lutil_str2bin]

    Lengths are [int]s. *)
Definition lutil_str2bin (inv : text) (out : list Z) : option (Z * list Z * Z) :=
  let n := length inv in
  let at_ i := char_at inv i in
  if (length out <? n)%nat then Some (-1, out, Z.of_nat (length out)) else
  if 2 ^ 31 <=? Z.of_nat n then None else
  if (2 <? n)%nat && Ascii.eqb (at_ 0%nat) "0" && (Ascii.eqb (at_ 1%nat) "x" || Ascii.eqb (at_ 1%nat) "X") then hex2bin (drop 2 inv) out
  else if (3 <? n)%nat && Ascii.eqb (at_ 0%nat) "'" && Ascii.eqb (at_ (n - 2)%nat) "'" && Ascii.eqb (at_ (n - 1)%nat) "H"
  then hex2bin (take (n - 3) (drop 1 inv)) out
  else dec2bin inv out.
