(* ===== verification/StrBinFacts.v ===== *)
(** * The conversion of decimal numbers

    Each carry adds to the number that the octets denote, so that [scale]
    multiplies and adds; the position at which the last carry ends is where the
    number begins. *)

From Stdlib Require Import Ascii String.
From S2P Require Import Prelude Text Digits StrBin.

Local Open Scope Z_scope.
Local Abbreviation length := List.length.

(** ** Octets at positions *)

Lemma be_val_zeros n : be_val (replicate n 0) = 0.
Proof. induction n as [|n IH]; [done|]. cbn [replicate]. rewrite be_val_cons, IH. lia. Qed.

(** The weight of a position. *)
Lemma be_val_insert l i o b : l !! i = Some o ->
  be_val (<[i := b]> l) = be_val l + (b - o) * 256 ^ (Z.of_nat (length l) - 1 - Z.of_nat i).
Proof.
  intros Hi. pose proof (lookup_lt_Some _ _ _ Hi). rewrite <- (take_drop_middle l i o Hi) at 1 2.
  rewrite insert_app_r_alt by (rewrite length_take; lia). rewrite length_take, Nat.min_l, Nat.sub_diag by lia.
  cbn [insert list_insert]. rewrite !be_val_app, !be_val_cons. cbn [length]. rewrite length_drop.
  replace (Z.of_nat (length l) - 1 - Z.of_nat i) with (Z.of_nat (length l - S i)) by lia. lia.
Qed.

Lemma be_val_split l i : be_val l = be_val (take i l) * 256 ^ Z.of_nat (length l - i) + be_val (drop i l).
Proof. rewrite <- (take_drop i l) at 1. by rewrite be_val_app, length_drop. Qed.

Lemma be_val_prefix l i : bytes_ok l -> (be_val l < 256 ^ Z.of_nat (length l - i) <-> be_val (take i l) = 0).
Proof.
  intros Hl. rewrite (be_val_split l i). pose proof (be_val_bound _ (bytes_ok_drop i l Hl)) as Hd. rewrite length_drop in Hd.
  pose proof (be_val_bound _ (bytes_ok_take i l Hl)) as Ht.
  destruct (decide (be_val (take i l) = 0)) as [E|E]; [rewrite E; split; [done|lia]|]. split; [|lia]. intros. nia.
Qed.

Lemma be_val_lookup l i b : bytes_ok l -> l !! i = Some b -> b * 256 ^ (Z.of_nat (length l) - 1 - Z.of_nat i) <= be_val l.
Proof.
  intros Hl Hi. pose proof (lookup_lt_Some _ _ _ Hi). rewrite <- (take_drop_middle l i b Hi) at 2.
  rewrite be_val_app, be_val_cons, length_drop. cbn [length]. rewrite length_drop.
  pose proof (be_val_bound _ (bytes_ok_take i l Hl)). pose proof (be_val_bound _ (bytes_ok_drop (S i) l Hl)).
  replace (Z.of_nat (length l) - 1 - Z.of_nat i) with (Z.of_nat (length l - S i)) by lia.
  assert (0 < 256 ^ Z.of_nat (S (length l - S i))) by (apply Z.pow_pos_nonneg; lia). nia.
Qed.

Lemma bytes_ok_insert l i b : bytes_ok l -> byte_ok b -> bytes_ok (<[i := b]> l).
Proof. intros Hl Hb. by apply Forall_insert. Qed.

(** ** Carrying *)

Definition wt (tmp : list Z) (j : Z) : Z := 256 ^ (Z.of_nat (length tmp) - 1 - j).

Lemma wt_pos tmp j : j < Z.of_nat (length tmp) -> 0 < wt tmp j.
Proof. intros Hj. apply Z.pow_pos_nonneg; lia. Qed.

Lemma wt_up tmp j : j < Z.of_nat (length tmp) -> wt tmp (j - 1) = 256 * wt tmp j.
Proof. intros Hj. unfold wt. rewrite <- Z.pow_succ_r by lia. f_equal. lia. Qed.

Lemma wt_le tmp j k : k <= j -> j < Z.of_nat (length tmp) -> wt tmp j <= wt tmp k.
Proof. intros H Hj. apply Z.pow_le_mono_r; lia. Qed.

(** What adding at a position does: the result is the sum, the octets up to [j'] are
    as they were, and the one behind them is not zero. *)
Record added (tmp tmp' : list Z) (v j' : Z) : Prop := {
  ad_length : length tmp' = length tmp;
  ad_bytes : bytes_ok tmp';
  ad_val : be_val tmp' = be_val tmp + v;
  ad_front : take (Z.to_nat (j' + 1)) tmp' = take (Z.to_nat (j' + 1)) tmp;
  ad_top : 0 < v -> wt tmp (j' + 1) <= be_val tmp' }.

(** One octet: [part] is added, its low octet stays. *)
Lemma octet_added tmp j part o :
  bytes_ok tmp -> 0 <= part -> arr_get tmp j = Some o ->
  exists tmp1, arr_set tmp j (Z.land (part + o) 0xff) = Some tmp1 /\ length tmp1 = length tmp /\ bytes_ok tmp1 /\
    be_val tmp1 + Z.shiftr (part + o) 8 * wt tmp (j - 1) = be_val tmp + part * wt tmp j /\
    take (Z.to_nat j) tmp1 = take (Z.to_nat j) tmp /\ (part + o) mod 256 * wt tmp j <= be_val tmp1.
Proof.
  intros Ht Hp Ho. apply arr_get_Some in Ho as [Hj Ho]. pose proof (lookup_lt_Some _ _ _ Ho).
  exists (<[Z.to_nat j := Z.land (part + o) 0xff]> tmp). split; [apply arr_set_Some; lia|].
  change 0xff with 255. rewrite land_255. assert (bytes_ok (<[Z.to_nat j := (part + o) mod 256]> tmp)) as Hok
    by (apply bytes_ok_insert; [done|apply byte_ok_mod]).
  rewrite length_insert. split_and!; [done|done| |by apply take_insert_ge; lia|].
  - rewrite (be_val_insert tmp _ o) by done. rewrite Z2Nat.id by lia. fold (wt tmp j). rewrite wt_up by lia.
    rewrite Z.shiftr_div_pow2 by lia. change (2 ^ 8) with 256. pose proof (Z.div_mod (part + o) 256 ltac:(lia)). nia.
  - pose proof (be_val_lookup _ (Z.to_nat j) ((part + o) mod 256) Hok) as Hl. rewrite length_insert, Z2Nat.id in Hl by lia.
    apply Hl. by apply list_lookup_insert_eq; lia.
Qed.

Lemma take_take_le {A} (l l' : list A) n m : (n <= m)%nat -> take m l = take m l' -> take n l = take n l'.
Proof.
  intros Hn H. replace (take n l) with (take n (take m l)) by (rewrite take_take; f_equal; lia).
  rewrite H, take_take. f_equal. lia.
Qed.

Lemma carry_added fuel : forall tmp j part,
  bytes_ok tmp -> 0 <= part < 2 ^ 31 -> (part = 0 \/ j < Z.of_nat (length tmp)) -> (Z.to_nat (j + 1) < fuel)%nat ->
  be_val tmp + part * wt tmp j < 256 ^ Z.of_nat (length tmp) ->
  exists tmp' j', carry fuel tmp j part = Some (tmp', j') /\ added tmp tmp' (part * wt tmp j) j' /\ j' <= j /\
    (part = 0 -> j' = j) /\ (0 < part -> -1 <= j' < j) /\ (256 <= part -> j' < j - 1).
Proof.
  induction fuel as [|fuel IH]; intros tmp j part Ht Hp Hj Hf Hb; [lia|]. cbn [carry]. destruct (part =? 0) eqn:E0; zb.
  { subst part. exists tmp, j. split_and!; try lia; [done|]. split; (done || lia). }
  destruct Hj as [?|Hj]; [lia|]. pose proof (wt_pos tmp j Hj) as Hw. pose proof (be_val_bound tmp Ht) as Hv.
  assert (0 <= j) as Hj0.
  { destruct (decide (0 <= j)); [done|]. pose proof (wt_le tmp (-1) j ltac:(lia) ltac:(lia)) as Hle.
    assert (wt tmp (-1) = 256 ^ Z.of_nat (length tmp)) as E1 by (unfold wt; f_equal; lia). nia. }
  destruct (arr_get_is_Some tmp j ltac:(lia)) as [o Ho]. rewrite Ho. cbn [mbind option_bind].
  assert (byte_ok o) as Hob by (apply arr_get_Some in Ho as [_ Ho]; by eapply bytes_ok_lookup). unfold byte_ok in Hob.
  rewrite uwrap_small by lia. destruct (octet_added tmp j part o Ht ltac:(lia) Ho) as (tmp1 & -> & L1 & O1 & V1 & F1 & D1).
  cbn [mbind option_bind]. rewrite Z.shiftr_div_pow2 in * by lia. change (2 ^ 8) with 256 in *.
  assert (0 <= (part + o) / 256 < 2 ^ 31) as Hq by (split; [apply Z.div_pos; lia|apply Z.div_lt_upper_bound; lia]).
  assert (wt tmp1 (j - 1) = wt tmp (j - 1)) as Hwt by (unfold wt; by rewrite L1).
  destruct (IH tmp1 (j - 1) ((part + o) / 256) O1 Hq) as (tmp' & j' & -> & [A1 A2 A3 A4 A5] & B1 & B0 & B2 & B3).
  - rewrite L1. lia.
  - lia.
  - rewrite L1, Hwt, V1. done.
  - exists tmp', j'. rewrite Hwt in *. assert (256 <= part -> 0 < (part + o) / 256) as Hbig by (intros; apply Z.div_str_pos; lia).
    split_and!; [done| |lia|lia| |intros Hbg; specialize (B2 (Hbig Hbg)); lia].
    + split; [congruence|done|lia| |].
      * rewrite A4. apply (take_take_le _ _ _ (Z.to_nat j)); [lia|done].
      * intros _. destruct (decide (0 < (part + o) / 256)) as [Hpos|Hz].
        -- pose proof (wt_pos tmp (j - 1) ltac:(lia)); specialize (A5 ltac:(nia)). unfold wt in *. rewrite L1 in A5. done.
        -- assert ((part + o) / 256 = 0) as Hz' by lia. rewrite Hz' in *.
           specialize (B0 eq_refl). subst j'.
           replace (j - 1 + 1) with j by lia. pose proof (Z.div_mod (part + o) 256 ltac:(lia)). nia.
    + intros _. destruct (decide (0 < (part + o) / 256)) as [Hpos|]; [specialize (B2 Hpos); lia|lia].
Qed.

(** ** One multiplication *)

Lemma be_val_drop_S l i b : l !! i = Some b -> be_val (drop i l) = b * 256 ^ Z.of_nat (length l - S i) + be_val (drop (S i) l).
Proof. intros Hi. rewrite (drop_S l b i Hi), be_val_cons, length_drop. done. Qed.

Lemma be_val_drop_le l i : bytes_ok l -> be_val (drop i l) <= be_val l.
Proof. intros Hl. rewrite (be_val_split l i). pose proof (be_val_bound _ (bytes_ok_take i l Hl)). assert (0 < 256 ^ Z.of_nat (length l - i)) by (apply Z.pow_pos_nonneg; lia). nia. Qed.

(** The octets in front of a position are zero if the number is below its weight. *)
Lemma front_zero l j : bytes_ok l -> -1 <= j < Z.of_nat (length l) -> (be_val l < wt l j <-> be_val (take (Z.to_nat (j + 1)) l) = 0).
Proof.
  intros Hl Hj. rewrite <- be_val_prefix by done. unfold wt. by replace (Z.of_nat (length l - Z.to_nat (j + 1))) with (Z.of_nat (length l) - 1 - j) by lia.
Qed.

Lemma added_below_le tmp tmp' v j' j : bytes_ok tmp -> -1 <= j <= j' /\ j' < Z.of_nat (length tmp) -> added tmp tmp' v j' ->
  be_val tmp < wt tmp j -> be_val tmp' < wt tmp j.
Proof.
  intros Ht Hj [A1 A2 A3 A4 A5] H. replace (wt tmp j) with (wt tmp' j) by (unfold wt; by rewrite A1).
  apply front_zero; [done|lia|]. rewrite (take_take_le tmp' tmp _ (Z.to_nat (j' + 1))) by (done || lia). by apply front_zero; [|lia|].
Qed.

Lemma factors b : 0 <= b < 256 ->
  u32 (b * FACTOR1) = b * 57600 /\ u32 (b * FACTOR2) = b * 1525 /\ b * 57600 + b * 1525 * 65536 = b * 10 ^ 8.
Proof. intros Hb. unfold FACTOR1, FACTOR2. change (Z.land 100000000 0xffff) with 57600. change (Z.shiftr 100000000 16) with 1525. rewrite !uwrap_small; lia. Qed.

Lemma product_step i inb tmp out b :
  bytes_ok inb -> bytes_ok tmp -> 0 <= out -> out + Z.of_nat (length inb) = Z.of_nat (length tmp) -> inb !! i = Some b ->
  be_val tmp = be_val (drop (S i) inb) * 10 ^ 8 -> be_val inb * 10 ^ 8 < 256 ^ Z.of_nat (length tmp) ->
  exists tmp1 j1 tmp2 j2,
    carry (S (length tmp)) tmp (out + Z.of_nat i) (u32 (b * FACTOR1)) = Some (tmp1, j1) /\ length tmp1 = length tmp /\
    carry (S (length tmp1)) tmp1 (out + Z.of_nat i - 2) (u32 (b * FACTOR2)) = Some (tmp2, j2) /\
    length tmp2 = length tmp /\ bytes_ok tmp2 /\ be_val tmp2 = be_val (drop i inb) * 10 ^ 8 /\
    (0 < b -> -1 <= j2 < out + Z.of_nat i /\ wt tmp (j2 + 1) <= be_val tmp2 < wt tmp j2).
Proof.
  intros Hin Ht Ho Hlen Hi Hv Hmax. pose proof (lookup_lt_Some _ _ _ Hi) as Hlt.
  pose proof (bytes_ok_lookup _ _ _ Hin Hi) as Hb. unfold byte_ok in Hb. destruct (factors b Hb) as (-> & -> & Hf).
  pose proof (be_val_drop_S inb i b Hi) as Hd. pose proof (be_val_drop_le inb i Hin) as Hle.
  set (w := wt tmp (out + Z.of_nat i)).
  assert (256 ^ Z.of_nat (length inb - S i) = w) as Hw by (unfold w, wt; f_equal; lia). rewrite Hw in Hd.
  assert (0 < w) as Hwp by (apply wt_pos; lia).
  assert (wt tmp (out + Z.of_nat i - 2) = 65536 * w) as Hw2.
  { replace (out + Z.of_nat i - 2) with (out + Z.of_nat i - 1 - 1) by lia. rewrite !wt_up by lia. fold w. lia. }
  assert (0 <= be_val (drop (S i) inb) < w) as Hr.
  { rewrite <- Hw, <- length_drop. by apply be_val_bound, bytes_ok_drop. }
  assert (be_val tmp + b * 57600 * w + b * 1525 * (65536 * w) = be_val (drop i inb) * 10 ^ 8) as Hsum by (rewrite Hv, Hd; nia).
  destruct (carry_added (S (length tmp)) tmp (out + Z.of_nat i) (b * 57600) Ht ltac:(lia)) as (tmp1 & j1 & C1 & A1 & _ & _ & _); [lia|lia|fold w; nia|].
  destruct A1 as [L1 O1 V1 _ _]. fold w in V1.
  assert (forall j, wt tmp1 j = wt tmp j) as Hwt1 by (intros; unfold wt; by rewrite L1).
  destruct (carry_added (S (length tmp1)) tmp1 (out + Z.of_nat i - 2) (b * 1525) O1 ltac:(lia)) as (tmp2 & j2 & C2 & A2 & _ & _ & B2 & B3);
    [lia|lia|rewrite Hwt1, L1, Hw2; nia|].
  exists tmp1, j1, tmp2, j2. pose proof A2 as [L2 O2 V2 _ T2]. rewrite Hwt1, Hw2 in V2.
  split_and!; try done; [congruence|nia|]. intros Hpos. specialize (B2 ltac:(lia)). specialize (B3 ltac:(lia)).
  split; [lia|]. rewrite !Hwt1, Hw2 in T2. split; [apply T2; nia|].
  assert (be_val tmp1 < wt tmp1 j2) as Hlow; [|apply (added_below_le tmp1 _ _ _ j2) in A2; [by rewrite Hwt1 in A2|done|lia|done]].
  rewrite Hwt1. pose proof (wt_le tmp (out + Z.of_nat i - 4) j2 ltac:(lia) ltac:(lia)) as Hup.
  replace (out + Z.of_nat i - 4) with (out + Z.of_nat i - 2 - 1 - 1) in Hup by lia. rewrite !wt_up, Hw2 in Hup by lia. nia.
Qed.

Lemma products_spec inb out : forall i tmp j0 b,
  bytes_ok inb -> bytes_ok tmp -> 0 <= out -> out + Z.of_nat (length inb) = Z.of_nat (length tmp) -> inb !! 0%nat = Some b -> 0 < b ->
  (0 < i <= length inb)%nat -> be_val tmp = be_val (drop i inb) * 10 ^ 8 -> be_val inb * 10 ^ 8 < 256 ^ Z.of_nat (length tmp) ->
  exists tmp' j, products i inb tmp out j0 = Some (tmp', j) /\ length tmp' = length tmp /\ bytes_ok tmp' /\
    be_val tmp' = be_val inb * 10 ^ 8 /\ -1 <= out + j < out /\ wt tmp (out + j + 1) <= be_val tmp' < wt tmp (out + j).
Proof.
  induction i as [|i IH]; intros tmp j0 b Hin Ht Ho Hlen Hb Hpos Hi Hv Hmax; [lia|].
  destruct (lookup_lt_is_Some_2 inb i ltac:(lia)) as [c Hc].
  destruct (product_step i inb tmp out c Hin Ht Ho Hlen Hc Hv Hmax) as (tmp1 & j1 & tmp2 & j2 & C1 & L1 & C2 & L2 & O2 & V2 & B).
  cbn [products]. rewrite arr_get_nat, Hc. cbn [mbind option_bind]. rewrite C1. cbn [mbind option_bind]. rewrite C2. cbn [mbind option_bind].
  destruct i as [|i].
  - assert (c = b) as -> by congruence. exists tmp2, (j2 - out). cbn [products]. destruct (B Hpos) as (B1 & B2).
    replace (out + (j2 - out)) with j2 by lia. split_and!; (done || lia).
  - destruct (IH tmp2 (j2 - out) b) as (tmp' & j & -> & L & O & V & J & W); try done; try lia; try (by rewrite L2).
    exists tmp', j. unfold wt in *. rewrite L2 in *. split_and!; (done || lia).
Qed.

(** ** Adding at the end *)

Lemma add_new_added fuel : forall tmp i new,
  bytes_ok tmp -> 0 <= new < 2 ^ 31 -> i <= 0 -> 0 < Z.of_nat (length tmp) + i -> (Z.to_nat (Z.of_nat (length tmp) + i) < fuel)%nat ->
  be_val tmp + new * 256 ^ (- i) < 256 ^ Z.of_nat (length tmp) ->
  exists tmp' i', add_new fuel tmp i new = Some (tmp', i') /\ added tmp tmp' (new * 256 ^ (- i)) (Z.of_nat (length tmp) + i' - 1) /\
    - Z.of_nat (length tmp) <= i' < i /\ (new = 0 -> i' = i - 1).
Proof.
  induction fuel as [|fuel IH]; intros tmp i new Ht Hn Hi Hsz Hf Hb; [lia|]. cbn [add_new]. set (p := Z.of_nat (length tmp) + (i - 1)).
  destruct (arr_get_is_Some tmp p ltac:(lia)) as [o Ho]. rewrite Ho. cbn [mbind option_bind].
  assert (byte_ok o) as Hob by (apply arr_get_Some in Ho as [_ Ho]; by eapply bytes_ok_lookup). unfold byte_ok in Hob.
  destruct (octet_added tmp p new o Ht ltac:(lia) Ho) as (tmp1 & -> & L1 & O1 & V1 & F1 & D1). cbn [mbind option_bind].
  assert (wt tmp p = 256 ^ (- i)) as Hw by (unfold wt; f_equal; lia).
  assert (wt tmp (p - 1) = 256 ^ (- (i - 1))) as Hw1 by (unfold wt; f_equal; lia). rewrite Hw, Hw1 in *.
  rewrite Z.shiftr_div_pow2 in * by lia. change (2 ^ 8) with 256 in *.
  assert (0 < 256 ^ (- i)) as Hwp by (apply Z.pow_pos_nonneg; lia).
  assert (0 < 256 ^ (- (i - 1))) as Hwp1 by (apply Z.pow_pos_nonneg; lia).
  pose proof (Z.div_mod (new + o) 256 ltac:(lia)) as Hdm. pose proof (Z.mod_pos_bound (new + o) 256 ltac:(lia)).
  assert (0 <= (new + o) / 256 < 2 ^ 31) as Hq by (split; [apply Z.div_pos; lia|apply Z.div_lt_upper_bound; lia]).
  destruct (_ =? 0) eqn:E0; zb.
  - exists tmp1, (i - 1). rewrite E0 in *. split_and!; try done; try lia.
    split; [done|done|lia| |]; fold p; replace (p - 1 + 1) with p by lia; [done|].
    intros Hp. rewrite Hw. assert (0 < new) by nia. assert (1 <= (new + o) mod 256) by lia. nia.
  - pose proof (be_val_bound tmp1 O1) as Hv1.
    assert (0 < Z.of_nat (length tmp1) + (i - 1)) as Hroom.
    { apply Z.nle_gt. intros Hle. assert (256 ^ Z.of_nat (length tmp) <= 256 ^ (- (i - 1))) by (apply Z.pow_le_mono_r; lia). nia. }
    destruct (IH tmp1 (i - 1) ((new + o) / 256) O1 Hq) as (tmp' & i' & -> & [A1 A2 A3 A4 A5] & B1 & B2); [lia..|rewrite L1, V1; done|].
    exists tmp', i'. split_and!; [done| |lia|lia|lia]. rewrite L1 in *. split; [congruence|done|lia| |].
    + rewrite A4. apply (take_take_le _ _ _ (Z.to_nat p)); [lia|done].
    + intros _. unfold wt in *. rewrite L1 in A5. apply A5. nia.
Qed.

(** ** [scale] *)

(** The octets from [beg] on are the number, the first one is not zero. *)
Record number (num : lutil_int_decnum) (v : Z) : Prop := {
  nm_bytes : bytes_ok num.(buf);
  nm_len : 0 < num.(len) <= bufsiz num;
  nm_beg : num.(beg) = bufsiz num - num.(len);
  nm_val : be_val (drop (Z.to_nat num.(beg)) num.(buf)) = v;
  nm_low : v = 0 /\ num.(len) = 1 \/ 256 ^ (num.(len) - 1) <= v;
  nm_high : v < 256 ^ num.(len) }.

Lemma copy_from_ok dst src b l :
  length src = length dst -> 0 <= b -> 0 <= l -> b + l = Z.of_nat (length dst) ->
  copy_from dst src b l = Some (take (Z.to_nat b) dst ++ drop (Z.to_nat b) src).
Proof.
  intros Hs Hb Hl H. unfold copy_from. rewrite (proj2 (Z.ltb_ge b 0)) by done.
  rewrite <- (take_drop (Z.to_nat b) src) at 1. pose proof (mem_read_app (take (Z.to_nat b) src) (drop (Z.to_nat b) src) [] (Z.to_nat b) (Z.to_nat l)) as E.
  rewrite app_nil_r in E. rewrite E by (rewrite ?length_take, ?length_drop; lia). cbn [mbind option_bind].
  rewrite <- (take_drop (Z.to_nat b) dst) at 1. pose proof (mem_write_app (take (Z.to_nat b) dst) (drop (Z.to_nat b) dst) [] (drop (Z.to_nat b) src) (Z.to_nat b)) as E2.
  rewrite !app_nil_r in E2. apply E2; rewrite ?length_take, ?length_drop; lia.
Qed.

(** The product, without the new digits: zero if there was no number. *)
Lemma product_spec num v (P := v * 10 ^ 8) :
  (num.(len) = 0 /\ v = 0 /\ bytes_ok num.(buf) /\ 0 < bufsiz num \/ number num v /\ 0 < v) -> P < 256 ^ bufsiz num ->
  exists tmp beg' len',
    (let tmp := replicate (length num.(buf)) 0 in
     let out := bufsiz num - num.(len) in
     if num.(len) =? 0 then Some (tmp, num.(beg), num.(len))
     else
       inb ← (if num.(beg) <? 0 then None else mem_read num.(buf) (Z.to_nat num.(beg)) (Z.to_nat num.(len)));
       '(tmp, j) ← products (Z.to_nat num.(len)) inb tmp out (-1);
       let j := j + 1 in
       Some (tmp, num.(beg) + j, num.(len) - j)) = Some (tmp, beg', len') /\
    length tmp = length num.(buf) /\ bytes_ok tmp /\ be_val tmp = P /\
    (len' = 0 /\ P = 0 \/ 0 < len' <= bufsiz num /\ beg' = bufsiz num - len' /\ 256 ^ (len' - 1) <= P < 256 ^ len').
Proof.
  intros Hn HP. cbv zeta. destruct Hn as [(E & -> & Hb & Hs)|[[N1 N2 N3 N4 N5 N6] Hpos]].
  - rewrite E, Z.eqb_refl. eexists _, _, _. split; [done|]. rewrite length_replicate, be_val_zeros.
    split_and!; try done; [|left; done]. apply Forall_replicate. unfold byte_ok. lia.
  - rewrite (proj2 (Z.eqb_neq num.(len) 0)), (proj2 (Z.ltb_ge num.(beg) 0)) by lia. unfold bufsiz in *.
    set (n := Z.to_nat num.(beg)) in *. set (inb := drop n num.(buf)) in *.
    assert (mem_read num.(buf) n (Z.to_nat num.(len)) = Some inb) as ->.
    { rewrite <- (take_drop n num.(buf)) at 1. pose proof (mem_read_app (take n num.(buf)) inb [] n (Z.to_nat num.(len))) as E.
      rewrite app_nil_r in E. apply E; unfold inb; rewrite ?length_take, ?length_drop; lia. }
    cbn [mbind option_bind]. assert (length inb = Z.to_nat num.(len)) as Hl by (unfold inb; rewrite length_drop; lia).
    assert (bytes_ok inb) as Hin by (by apply bytes_ok_drop).
    destruct inb as [|b inb'] eqn:Einb; [cbn in Hl; lia|]. rewrite <- Einb in *. assert (inb !! 0%nat = Some b) as H0 by (by rewrite Einb).
    assert (0 < b) as Hb.
    { apply Z.nle_gt. intros Hle. pose proof (bytes_ok_lookup _ _ _ Hin H0) as Hbo. unfold byte_ok in Hbo.
      assert (b = 0) as -> by lia. rewrite Einb, be_val_cons in N4. rewrite Einb in Hin. apply bytes_ok_cons in Hin as [_ Hin].
      pose proof (be_val_bound inb' Hin) as Hbd. rewrite Einb in Hl. cbn [length] in Hl.
      replace (num.(len) - 1) with (Z.of_nat (length inb')) in N5 by lia. lia. }
    destruct (products_spec inb (Z.of_nat (length num.(buf)) - num.(len)) (Z.to_nat num.(len)) (replicate (length num.(buf)) 0) (-1) b)
      as (tmp & j & -> & L & O & V & J & W); rewrite ?length_replicate; try done; try lia.
    + apply Forall_replicate. unfold byte_ok. lia.
    + rewrite be_val_zeros, drop_ge by lia. done.
    + cbn [mbind option_bind]. eexists _, _, _. split; [done|]. rewrite length_replicate in L. rewrite V, N4.
      split_and!; try done. right. unfold wt in W. rewrite length_replicate, V, N4 in W.
      split_and!; try lia; [etrans; [|apply W]|eapply Z.lt_le_trans; [apply W|]]; apply Z.pow_le_mono_r; lia.
Qed.

Lemma scale_spec num v new :
  (num.(len) = 0 /\ v = 0 /\ bytes_ok num.(buf) /\ 0 < bufsiz num \/ number num v /\ 0 < v) -> 0 <= new < 2 ^ 31 ->
  v * 10 ^ 8 + new < 256 ^ bufsiz num ->
  exists num', scale new num = Some num' /\ number num' (v * 10 ^ 8 + new) /\ bufsiz num' = bufsiz num.
Proof.
  intros Hn Hnew Hmax. destruct (product_spec num v Hn ltac:(lia)) as (tmp & b0 & l0 & E & L & O & V & Hl0). cbv zeta in E.
  assert (0 < bufsiz num) as Hsz by (destruct Hn as [(_ & _ & _ & ?)|[[_ ? _ _ _ _] _]]; lia).
  assert (bytes_ok num.(buf)) as Hbuf by (destruct Hn as [(_ & _ & ? & _)|[[? _ _ _ _ _] _]]; done).
  assert (0 <= v) as Hv by (destruct Hn as [(_ & -> & _ & _)|[_ ?]]; lia).
  unfold scale. rewrite E. cbn [mbind option_bind]. clear E Hn. set (P := v * 10 ^ 8) in *. unfold bufsiz in *.
  destruct (add_new_added (S (length tmp)) tmp 0 new O Hnew) as (tmp' & i & -> & A & B1 & B2); [lia..|rewrite V, L; cbn; lia|].
  cbn [mbind option_bind]. pose proof A as [A1 A2 A3 _ A5]. rewrite Z.mul_1_r, V in A3. change (- 0) with 0 in *.
  set (size := Z.of_nat (length num.(buf))) in *. assert (Z.of_nat (length tmp) = size) as Lz by (unfold size; by rewrite L).
  assert (forall j, -1 <= j - 1 -> j <= size -> wt tmp (j - 1) = 256 ^ (size - j)) as Hwt by (intros; unfold wt; f_equal; lia).
  assert (forall c, - i <= c <= size -> P < 256 ^ c -> P + new < 256 ^ c) as Hup.
  { intros c Hc Hp. pose proof (added_below_le tmp tmp' _ (Z.of_nat (length tmp) + i - 1) (size - c - 1) O ltac:(lia) A) as Hb.
    rewrite Hwt, V, A3 in Hb by lia. replace (size - (size - c)) with c in Hb by lia. apply Hb; lia. }
  assert (0 < new -> 256 ^ (- i - 1) <= P + new) as Htop.
  { intros Hp. rewrite A3 in A5. replace (256 ^ (- i - 1)) with (wt tmp (Z.of_nat (length tmp) + i - 1 + 1)) by (unfold wt; f_equal; lia).
    apply A5. lia. }
  set (len' := if l0 <? - i then - i else l0). set (beg' := if l0 <? - i then size - - i else b0).
  replace (if l0 <? - i then (size - - i, - i) else (b0, l0)) with (beg', len') by (unfold beg', len'; by destruct (l0 <? - i)).
  assert (0 < len' <= size /\ beg' = size - len' /\ (P + new = 0 /\ len' = 1 \/ 256 ^ (len' - 1) <= P + new) /\ P + new < 256 ^ len') as (H1 & H2 & H3 & H4).
  { unfold len', beg'. destruct (l0 <? - i) eqn:El; zb.
    - split_and!; try lia.
      apply Hup; [lia|]. destruct Hl0 as [[-> ->]|(? & _ & _ & ?)]; [apply Z.pow_pos_nonneg; lia|].
        eapply Z.lt_le_trans; [done|]. apply Z.pow_le_mono_r; lia.
    - destruct Hl0 as [?|(? & ? & ? & ?)]; [lia|]. split_and!; try lia. apply Hup; lia. }
  rewrite copy_from_ok by lia. cbn [mbind option_bind]. eexists. split; [done|].
  assert (length (take (Z.to_nat beg') num.(buf) ++ drop (Z.to_nat beg') tmp') = length num.(buf)) as Hlen
    by (rewrite length_app, length_take, length_drop; lia).
  split; [|unfold bufsiz; cbn [buf]; by rewrite Hlen]. split; unfold bufsiz; cbn [buf beg len]; rewrite ?Hlen; fold size; try done.
  - apply bytes_ok_app. split; [by apply bytes_ok_take|by apply bytes_ok_drop].
  - rewrite drop_app_ge by (rewrite length_take; lia). rewrite length_take, Nat.min_l, Nat.sub_diag, drop_0 by lia.
    rewrite <- A3. rewrite (be_val_split tmp' (Z.to_nat beg')). rewrite (proj1 (be_val_prefix tmp' (Z.to_nat beg') A2)); [lia|].
    rewrite A3. by replace (Z.of_nat (length tmp' - Z.to_nat beg')) with len' by lia.
Qed.

(** ** The chunks *)

Lemma chunk_value_digits ds : ds <> [] -> (length ds <= 8)%nat -> all_digits 10 ds = true ->
  chunk_value ds = Some (digits_value 10 0 ds) /\ 0 <= digits_value 10 0 ds < 10 ^ 8.
Proof.
  intros Hne Hl Hd. pose proof (digits_value_bound 10 ds ltac:(lia)) as Hb.
  assert (10 ^ Z.of_nat (length ds) <= 10 ^ 8) by (apply Z.pow_le_mono_r; lia). split; [|lia].
  destruct ds as [|c ds]; [done|]. unfold chunk_value. rewrite <- (app_nil_r ds) at 1.
  rewrite strtol_exact_digits by (auto || done). rewrite decide_True by lia. done.
Qed.

Lemma dec_loop_step fuel pin chunk num v :
  (0 < chunk <= 8)%nat -> (chunk <= length pin)%nat -> all_digits 10 pin = true ->
  (num.(len) = 0 /\ v = 0 /\ bytes_ok num.(buf) /\ 0 < bufsiz num \/ number num v /\ 0 < v) ->
  v * 10 ^ 8 + digits_value 10 0 (take chunk pin) < 256 ^ bufsiz num ->
  exists num', dec_loop (S fuel) pin chunk num = dec_loop fuel (drop chunk pin) DECMAX num' /\
    number num' (v * 10 ^ 8 + digits_value 10 0 (take chunk pin)) /\ bufsiz num' = bufsiz num.
Proof.
  intros Hc Hl Hd Hn Hmax. rewrite <- (take_drop chunk pin), all_digits_app in Hd. apply andb_true_iff in Hd as [Hd _].
  assert (length (take chunk pin) = chunk) as Ht by (rewrite length_take; lia).
  destruct (chunk_value_digits (take chunk pin)) as [E Hb]; [by destruct (take chunk pin); [cbn in Ht; lia|]|lia|done|].
  destruct (scale_spec num v _ Hn ltac:(instantiate (1 := digits_value 10 0 (take chunk pin)); lia) Hmax) as (num' & Es & N & B).
  exists num'. split; [|done]. destruct pin as [|c pin]; [cbn in Hl; lia|]. cbn [dec_loop]. rewrite E.
  rewrite swrap_small by (change (2 ^ (32 - 1)) with (2 ^ 31); lia). by rewrite Es.
Qed.

Lemma dec_loop_spec k : forall fuel pin num v,
  length pin = (8 * k)%nat -> (k <= fuel)%nat -> all_digits 10 pin = true -> number num v -> 0 < v ->
  v * 10 ^ Z.of_nat (length pin) + digits_value 10 0 pin < 256 ^ bufsiz num ->
  exists num', dec_loop fuel pin DECMAX num = Some (Some num') /\
    number num' (v * 10 ^ Z.of_nat (length pin) + digits_value 10 0 pin) /\ bufsiz num' = bufsiz num.
Proof.
  induction k as [|k IH]; intros fuel pin num v Hk Hf Hd Hn Hv Hmax.
  { destruct pin; [|done]. exists num. replace (v * _ + _) with v by (cbn; lia). by destruct fuel. }
  destruct fuel as [|fuel]; [lia|]. pose proof Hd as Hd'. rewrite <- (take_drop 8 pin), all_digits_app in Hd'. apply andb_true_iff in Hd' as [_ Hd'].
  assert (length (drop 8 pin) = 8 * k)%nat as Hl by (rewrite length_drop; lia).
  assert (v * 10 ^ Z.of_nat (length pin) + digits_value 10 0 pin =
    (v * 10 ^ 8 + digits_value 10 0 (take 8 pin)) * 10 ^ Z.of_nat (length (drop 8 pin)) + digits_value 10 0 (drop 8 pin)) as E.
  { rewrite <- (take_drop 8 pin) at 1 2. rewrite digits_value_app, (digits_value_shift 10 (digits_value 10 0 (take 8 pin))).
    rewrite length_app, length_take, Nat.min_l, Nat2Z.inj_add, Z.pow_add_r by lia. change (10 ^ Z.of_nat 8) with (10 ^ 8). ring. }
  assert (1 <= 10 ^ Z.of_nat (length (drop 8 pin))) by (apply (Z.pow_le_mono_r 10 0); lia).
  pose proof (digits_value_bound 10 (drop 8 pin) ltac:(lia)). pose proof (digits_value_bound 10 (take 8 pin) ltac:(lia)).
  destruct (dec_loop_step fuel pin 8 num v) as (num1 & E1 & N1 & B1); [lia|lia|done|by right|rewrite E in Hmax; nia|].
  change (dec_loop (S fuel) pin DECMAX num) with (dec_loop (S fuel) pin 8%nat num). rewrite E1. rewrite E in *. rewrite <- B1 in Hmax |- *. apply IH; (done || lia || nia).
Qed.

(** The number of a text of digits that does not begin with a zero, in a buffer with
    room for an octet per digit. *)
Definition leading_digit (ds : text) : Prop := match ds with [] => False | c :: r => c = "0"%char -> r = [] end.

Lemma leading_digit_low c ds : all_digits 10 (c :: ds) = true -> leading_digit (c :: ds) -> ds <> [] \/ c <> "0"%char ->
  10 ^ Z.of_nat (length ds) <= digits_value 10 0 (c :: ds).
Proof.
  intros Hd Hl Hz. rewrite digits_value_cons. pose proof (digits_value_bound 10 ds ltac:(lia)).
  assert (1 <= default 0 (digit_in 10 c)); [|nia].
  assert (c <> "0"%char) as Hc by (destruct Hz as [Hz|]; [intros ->; by specialize (Hl eq_refl)|done]).
  cbn [all_digits forallb] in Hd. apply andb_true_iff in Hd as [[d Hc']%bool_decide_eq_true _]. rewrite Hc'. cbn.
  pose proof (digit_in_range 10 c d Hc') as Hr. destruct (decide (d = 0)) as [->|]; [|lia]. exfalso. apply Hc.
  unfold digit_in, digit_val in Hc'. repeat case_if_in Hc'; cbn in Hc'; repeat case_if_in Hc'; simplify_eq; zb; try lia.
  apply ascii_code_inj. change (ascii_code "0") with 48. lia.
Qed.

Lemma take_cons_length {A} n (l : list A) : (0 < n)%nat -> l <> [] -> exists x r, take n l = x :: r /\ (length r = Nat.min n (length l) - 1)%nat.
Proof. intros Hn Hl. destruct n as [|n], l as [|x l]; try done; [lia|]. exists x, (take n l). split; [done|]. rewrite length_take. cbn. lia. Qed.

Lemma dec_digits_spec out pin (chunk := (length pin mod 8)%nat) :
  bytes_ok out -> all_digits 10 pin = true -> leading_digit pin -> (length pin <= length out)%nat ->
  exists num, dec_loop (length pin) pin (if (chunk =? 0)%nat then DECMAX else chunk) (mkDec out (Z.of_nat (length out) - 1) 0) = Some (Some num) /\
    number num (digits_value 10 0 pin) /\ bufsiz num = Z.of_nat (length out).
Proof.
  intros Ho Hd Hl Hlen. set (c0 := if (chunk =? 0)%nat then DECMAX else chunk).
  assert (pin <> []) as Hne by (by destruct pin). assert (0 < length pin)%nat as Hpos by (destruct pin; [done|cbn; lia]).
  assert (exists k, length pin = c0 + 8 * k /\ 0 < c0 <= 8)%nat as (k & Hk & Hc).
  { unfold c0, DECMAX. pose proof (Nat.div_mod (length pin) 8 ltac:(lia)). pose proof (Nat.mod_upper_bound (length pin) 8 ltac:(lia)). fold chunk in H, H0.
    destruct (chunk =? 0)%nat eqn:E; [apply Nat.eqb_eq in E; exists (length pin / 8 - 1)%nat; lia|apply Nat.eqb_neq in E; exists (length pin / 8)%nat; lia]. }
  pose proof (digits_value_bound 10 pin ltac:(lia)) as Hb.
  assert (10 ^ Z.of_nat (length pin) <= 256 ^ Z.of_nat (length out)) as Hmax.
  { etrans; [apply (Z.pow_le_mono_l 10 256); lia|]. apply Z.pow_le_mono_r; lia. }
  pose proof Hd as Hd'. rewrite <- (take_drop c0 pin), all_digits_app in Hd'. apply andb_true_iff in Hd' as [Hd1 Hd2].
  assert (digits_value 10 0 pin = digits_value 10 0 (take c0 pin) * 10 ^ Z.of_nat (length (drop c0 pin)) + digits_value 10 0 (drop c0 pin)) as E.
  { rewrite <- (take_drop c0 pin) at 1. rewrite digits_value_app. apply digits_value_shift. }
  assert (1 <= 10 ^ Z.of_nat (length (drop c0 pin))) by (apply (Z.pow_le_mono_r 10 0); lia).
  pose proof (digits_value_bound 10 (drop c0 pin) ltac:(lia)). pose proof (digits_value_bound 10 (take c0 pin) ltac:(lia)).
  assert (exists fuel, length pin = S fuel) as [fuel El] by (exists (length pin - 1)%nat; lia).
  destruct (dec_loop_step fuel pin c0 (mkDec out (Z.of_nat (length out) - 1) 0) 0) as (num1 & E1 & N1 & B1);
    [lia|lia|done|left; unfold bufsiz; cbn; split_and!; (done || lia)|unfold bufsiz; cbn [buf]; nia|].
  replace (dec_loop (length pin)) with (dec_loop (S fuel)) by (by rewrite El). rewrite E1. clear E1. rewrite Z.mul_0_l, Z.add_0_l in N1. unfold bufsiz at 2 in B1. cbn [buf] in B1.
  assert (length (drop c0 pin) = 8 * k)%nat as Hl2 by (rewrite length_drop; lia).
  destruct k as [|k].
  - destruct (drop c0 pin) eqn:Edr; [|done]. exists num1. cbn in E. rewrite E, Z.add_0_r, Z.mul_1_r. by destruct fuel.
  - assert (0 < digits_value 10 0 (take c0 pin)) as Hv.
    { destruct (take_cons_length c0 pin ltac:(lia) Hne) as (c & r & Et & Hr). rewrite Et in Hd1 |- *.
      assert (c <> "0"%char) as Hc0.
      { destruct pin as [|c' pin']; [done|]. destruct c0; [lia|]. cbn in Et. injection Et as -> _. intros ->. specialize (Hl eq_refl). subst. cbn in Hk. lia. }
      pose proof (leading_digit_low c r Hd1 ltac:(intros ?; done) ltac:(by right)). assert (0 < 10 ^ Z.of_nat (length r)) by (apply Z.pow_pos_nonneg; lia). lia. }
    destruct (dec_loop_spec (S k) fuel (drop c0 pin) num1 _ Hl2 ltac:(lia) Hd2 N1 Hv) as (num2 & E2 & N2 & B2); [rewrite B1, <- E; lia|].
    exists num2. rewrite E, E2. split_and!; [done..|congruence].
Qed.

(** ** The sign *)

Definition flip (neg : Z) (l : list Z) : list Z := map (fun b => Z.lxor b neg) l.

Lemma byte_lxor b : byte_ok b -> Z.lxor b 0xff = 255 - b.
Proof.
  intros Hb. apply Z.eqb_eq. revert b Hb. apply (byte_check (fun b => Z.lxor b 0xff =? 255 - b)). by vm_compute.
Qed.

Lemma flip_ok l : bytes_ok l -> bytes_ok (flip 0xff l) /\ be_val (flip 0xff l) = 256 ^ Z.of_nat (length l) - 1 - be_val l.
Proof.
  induction l as [|b l IH]; intros Hl; [split; [constructor|done]|]. apply bytes_ok_cons in Hl as [Hb Hl].
  destruct (IH Hl) as [IH1 IH2]. cbn [flip map]. fold (flip 0xff l). rewrite !be_val_cons, IH2, byte_lxor by done.
  unfold flip at 2. rewrite length_map. cbn [length]. rewrite pow256_S. split; [|lia].
  apply bytes_ok_cons. split; [unfold byte_ok in *; lia|done].
Qed.

Lemma flip_flip l : bytes_ok l -> flip 0xff (flip 0xff l) = l.
Proof.
  induction l as [|b l IH]; intros Hl; [done|]. apply bytes_ok_cons in Hl as [Hb Hl]. cbn [flip map]. fold (flip 0xff l). fold (flip 0xff (flip 0xff l)).
  rewrite IH by done. rewrite (byte_lxor b) by done. rewrite byte_lxor by (unfold byte_ok in *; lia). f_equal; lia.
Qed.

Lemma increment_spec l : bytes_ok l -> be_val l + 1 < 256 ^ Z.of_nat (length l) ->
  let l' := rev (increment (rev l)) in bytes_ok l' /\ length l' = length l /\ be_val l' = be_val l + 1.
Proof.
  induction l as [|x l IH] using rev_ind; intros Hl Hb; [cbn in Hb; lia|]. cbv zeta. apply bytes_ok_app in Hl as [Hl Hx].
  apply bytes_ok_cons in Hx as [Hx _]. rewrite rev_app_distr. cbn [rev app increment]. unfold byte_ok in Hx.
  rewrite be_val_snoc, length_app in *. change (length [x]) with 1%nat in *. rewrite Nat.add_1_r, pow256_S in *.
  change 0xff with 255. rewrite land_255. destruct (_ =? 0) eqn:E; zb.
  - assert (x = 255) as -> by (destruct (decide (x = 255)); [done|rewrite Z.mod_small in E; lia]).
    destruct (IH Hl ltac:(lia)) as (I1 & I2 & I3). cbn [rev]. rewrite be_val_snoc, length_app, I3, I2. cbn [length].
    split_and!; [|lia|lia]. apply bytes_ok_app. split; [done|]. apply bytes_ok_cons. split; [apply byte_ok_mod|constructor].
  - assert (x <> 255) by (intros ->; done). rewrite Z.mod_small by lia. cbn [rev]. rewrite rev_involutive, be_val_snoc, length_app. cbn [length].
    split_and!; [|lia|lia]. apply bytes_ok_app. split; [done|]. apply bytes_ok_cons. split; [unfold byte_ok; lia|constructor].
Qed.

Lemma negate_spec l : bytes_ok l -> 0 < be_val l ->
  bytes_ok (negate l) /\ length (negate l) = length l /\ be_val (flip 0xff (negate l)) = be_val l - 1.
Proof.
  intros Hl Hv. unfold negate. fold (flip 0xff l). destruct (flip_ok l Hl) as [F1 F2].
  assert (length (flip 0xff l) = length l) as FL by apply length_map.
  destruct (increment_spec (flip 0xff l) F1) as (I1 & I2 & I3); [rewrite FL; lia|]. cbv zeta in *.
  rewrite (proj2 (flip_ok _ I1)), I2, I3, FL, F2. split_and!; [done|congruence|lia].
Qed.

Lemma move_front pre r : exists buf', (d ← mem_read (pre ++ r) (length pre) (length r); mem_write (pre ++ r) 0 d) = Some buf' /\
  length buf' = length (pre ++ r) /\ take (length r) buf' = r /\ (bytes_ok (pre ++ r) -> bytes_ok buf').
Proof.
  pose proof (mem_read_app pre r [] (length pre) (length r) eq_refl eq_refl) as E. rewrite app_nil_r in E. rewrite E. cbn [mbind option_bind].
  set (b := pre ++ r). exists (r ++ drop (length r) b). assert (length r <= length b)%nat by (unfold b; rewrite length_app; lia).
  pose proof (mem_write_app [] (take (length r) b) (drop (length r) b) r 0) as Ew. cbn [app] in Ew. rewrite take_drop in Ew.
  rewrite Ew by (try done; rewrite length_take; lia).
  split_and!; [done|rewrite length_app, length_drop; lia|apply take_app_length|]. intros Hb. apply bytes_ok_app.
  split; [by apply bytes_ok_app in Hb as [_ ?]|by apply bytes_ok_drop].
Qed.

(** The octets of a number in two's complement, as those of [u] (its value, or the
    complement of a negative one) with the sign in the highest bit, as few as
    possible. *)
Definition signed_octets (neg u : Z) (r : list Z) : Prop :=
  bytes_ok r /\ r <> [] /\ be_val (flip neg r) = u /\ u < 128 * 256 ^ (Z.of_nat (length r) - 1) /\
  (length r = 1%nat \/ 128 * 256 ^ (Z.of_nat (length r) - 2) <= u).

Lemma flip_0 l : flip 0 l = l.
Proof. unfold flip. rewrite <- (map_id l) at 2. apply map_ext. intros b. apply Z.lxor_0_r. Qed.

Lemma flip_sign neg l : neg = 0 \/ neg = 0xff -> bytes_ok l -> bytes_ok (flip neg l).
Proof. intros [-> | ->] Hl; [by rewrite flip_0|]. by apply flip_ok. Qed.

Lemma head_high_bit b l : bytes_ok (b :: l) ->
  (Z.land b 0x80 =? 0) = (be_val (b :: l) <? 128 * 256 ^ Z.of_nat (length l)).
Proof.
  intros Hl. apply bytes_ok_cons in Hl as [Hb Hl]. rewrite land_high_bit, Z.mod_small, be_val_cons by done.
  pose proof (be_val_bound l Hl) as Hr. unfold byte_ok in Hb.
  destruct (b <? 128) eqn:E; zb; symmetry; [apply Z.ltb_lt|apply Z.ltb_ge]; nia.
Qed.

(** The sign octet is added if the highest bit is the wrong one. *)
Lemma sign_added neg u pre s (len := Z.of_nat (length s)) :
  neg = 0 \/ neg = 0xff -> bytes_ok (pre ++ s) -> s <> [] -> be_val (flip neg s) = u ->
  length s = 1%nat \/ 256 ^ (len - 1) <= u + 1 -> (128 * 256 ^ (len - 1) <= u -> pre <> []) ->
  exists buf' m,
    (first ← arr_get (pre ++ s) (Z.of_nat (length pre));
     '(buf, beg, len) ←
       (if negb (Z.land (Z.lxor first neg) 0x80 =? 0) then
          buf ← arr_set (pre ++ s) (Z.of_nat (length pre) - 1) neg; Some (buf, Z.of_nat (length pre) - 1, len + 1)
        else Some (pre ++ s, Z.of_nat (length pre), len));
     d ← mem_read buf (Z.to_nat beg) (Z.to_nat len);
     buf ← mem_write buf 0 d;
     Some (0, buf, len)) = Some (0, buf', Z.of_nat m) /\
    length buf' = length (pre ++ s) /\ (m <= length (pre ++ s))%nat /\ bytes_ok buf' /\ signed_octets neg u (take m buf').
Proof.
  intros Hneg Hok Hs Hu Hlow Hpre. destruct s as [|b s]; [done|]. apply bytes_ok_app in Hok as [Hp Hok].
  rewrite arr_get_mid by done. cbn [mbind option_bind]. pose proof (flip_sign neg _ Hneg Hok) as Hf.
  pose proof (head_high_bit (Z.lxor b neg) (flip neg s) Hf) as Hbit. change (Z.lxor b neg :: flip neg s) with (flip neg (b :: s)) in Hbit.
  rewrite Hu in Hbit. unfold flip in Hbit at 1. rewrite length_map in Hbit. rewrite Hbit.
  assert (len - 1 = Z.of_nat (length s)) as El by (unfold len; cbn; lia). rewrite El in *.
  pose proof (be_val_bound _ Hf) as Hmax. rewrite Hu in Hmax. unfold flip in Hmax. rewrite length_map in Hmax. cbn [length] in Hmax.
  destruct (u <? _) eqn:E; zb; cbn [negb mbind option_bind].
  - destruct (move_front pre (b :: s)) as (buf' & Em & L1 & L2 & L3). exists buf', (length (b :: s)).
    rewrite Nat2Z.id. replace (Z.to_nat len) with (length (b :: s)) by (unfold len; lia).
    destruct (mem_read _ _ _) as [d|]; [|done]. cbn [mbind option_bind] in *. rewrite Em. cbn [mbind option_bind]. rewrite L2.
    split_and!; [done|done|rewrite length_app; lia|apply L3; by apply bytes_ok_app|].
    split_and!; [done..| |]; cbn [length]; rewrite Nat2Z.inj_succ; replace (Z.succ (Z.of_nat (length s)) - 1) with (Z.of_nat (length s)) by lia; [done|].
    destruct (decide (length s = 0%nat)) as [E0|]; [left; lia|right]. destruct Hlow as [Hlow|Hlow]; [cbn in Hlow; lia|].
    replace (Z.of_nat (length s)) with (Z.succ (Z.succ (Z.of_nat (length s)) - 2)) in Hlow by lia. rewrite Z.pow_succ_r in Hlow by lia.
    assert (0 < 256 ^ (Z.succ (Z.of_nat (length s)) - 2)) by (apply Z.pow_pos_nonneg; lia). lia.
  - destruct pre as [|x pre _] using rev_ind; [by specialize (Hpre E)|]. rewrite length_app in *. cbn [length] in *.
    rewrite <- app_assoc. cbn [app]. rewrite arr_set_mid by lia. cbn [mbind option_bind app].
    destruct (move_front pre (neg :: b :: s)) as (buf' & Em & L1 & L2 & L3). exists buf', (length (neg :: b :: s)).
    replace (Z.to_nat (Z.of_nat (length pre + 1) - 1)) with (length pre) by lia.
    replace (Z.to_nat (len + 1)) with (length (neg :: b :: s)) by (unfold len; cbn; lia).
    destruct (mem_read _ _ _) as [d|]; [|done]. cbn [mbind option_bind] in *. rewrite Em. cbn [mbind option_bind]. rewrite L2.
    apply bytes_ok_app in Hp as [Hp _]. assert (bytes_ok (neg :: b :: s)) as Hnb by (apply bytes_ok_cons; split; [unfold byte_ok; lia|done]).
    rewrite length_app in L1. cbn [length] in L1.
    split_and!; [f_equal; f_equal; unfold len; cbn; lia|rewrite length_app; cbn; lia|rewrite !length_app; cbn; lia|apply L3; by apply bytes_ok_app|].
    assert (Z.lxor neg neg = 0) as Hnn by apply Z.lxor_nilpotent.
    split_and!; [done|done| |cbn [length]|right; cbn [length]].
    + change (flip neg (neg :: b :: s)) with (Z.lxor neg neg :: flip neg (b :: s)). rewrite Hnn, be_val_cons, Hu. lia.
    + replace (Z.of_nat (S (S (length s))) - 1) with (Z.of_nat (S (length s))) by lia. lia.
    + replace (Z.of_nat (S (S (length s))) - 2) with (Z.of_nat (length s)) by lia. done.
Qed.

(** ** [lutil_str2bin] on decimal numbers *)

Definition sign_text (neg : bool) : text := if neg then ["-"%char] else [].
Definition sign_octet (neg : bool) : Z := if neg then 0xff else 0.

(** What is stored of a number: the number, or the complement of a negative one. *)
Definition magnitude (neg : bool) (v : Z) : Z := if neg then v - 1 else v.

Definition decimal (pin : text) : Prop := all_digits 10 pin = true /\ leading_digit pin.

Lemma digit_first c pin : all_digits 10 (c :: pin) = true -> Ascii.eqb c "-" = false /\ Ascii.eqb c "'" = false /\ Ascii.eqb c "x" = false /\ Ascii.eqb c "X" = false.
Proof.
  intros Hd. cbn [all_digits forallb] in Hd. apply andb_true_iff in Hd as [Hd%bool_decide_eq_true _].
  pose proof (digit_not c (fun c => negb (Ascii.eqb c "-" || Ascii.eqb c "'" || Ascii.eqb c "x" || Ascii.eqb c "X")) eq_refl Hd) as H.
  apply negb_true_iff in H. by repeat apply orb_false_iff in H as [H ?].
Qed.

Lemma dec2bin_spec neg pin out (v := digits_value 10 0 pin) :
  bytes_ok out -> decimal pin -> (neg = true -> 0 < v) -> (length (sign_text neg ++ pin) <= length out)%nat ->
  exists buf' m, dec2bin (sign_text neg ++ pin) out = Some (0, buf', Z.of_nat m) /\ length buf' = length out /\ (m <= length out)%nat /\
    bytes_ok buf' /\ signed_octets (sign_octet neg) (magnitude neg v) (take m buf').
Proof.
  intros Ho [Hd Hl] Hneg Hlen. rewrite length_app in Hlen.
  destruct (dec_digits_spec out pin Ho Hd Hl ltac:(lia)) as (num & E & [N1 N2 N3 N4 N5 N6] & B). fold v in N4, N5, N6.
  unfold dec2bin. assert (match sign_text neg ++ pin with c :: r => if Ascii.eqb c "-" then (0xff, r) else (0, sign_text neg ++ pin)
    | [] => (0, sign_text neg ++ pin) end = (sign_octet neg, pin)) as ->.
  { destruct neg; [done|]. cbn. destruct pin as [|c pin]; [done|]. by rewrite (proj1 (digit_first c pin Hd)). }
  cbv zeta. change (length pin mod DECMAX)%nat with (length pin mod 8)%nat. rewrite E. cbn [mbind option_bind]. rewrite (proj2 (Z.ltb_ge num.(beg) 0)) by lia. unfold bufsiz in *.
  set (pre := take (Z.to_nat num.(beg)) num.(buf)). set (s := drop (Z.to_nat num.(beg)) num.(buf)) in *.
  assert (num.(buf) = pre ++ s) as Eb by (unfold pre, s; by rewrite take_drop).
  assert (length pre = Z.to_nat num.(beg)) as Lp by (unfold pre; rewrite length_take; lia).
  assert (length s = Z.to_nat num.(len)) as Ls by (unfold s; rewrite length_drop; lia).
  assert (length (pre ++ s) = length out) as Lb by (rewrite <- Eb; lia).
  rewrite Eb in *. apply bytes_ok_app in N1 as [Np Ns]. rewrite <- Lp, <- Ls.
  pose proof (mem_read_app pre s [] (length pre) (length s) eq_refl eq_refl) as Er. rewrite app_nil_r in Er. rewrite Er. cbn [mbind option_bind].
  set (s' := if neg then negate s else s).
  assert (bytes_ok s' /\ length s' = length s /\ be_val (flip (sign_octet neg) s') = magnitude neg v) as (S1 & S2 & S3).
  { unfold s', magnitude. destruct neg; cbn [sign_octet]; [|by rewrite flip_0]. rewrite <- N4. apply negate_spec; [done|rewrite N4; auto]. }
  assert ((if sign_octet neg =? 0 then Some (pre ++ s) else mem_write (pre ++ s) (length pre) (negate s)) = Some (pre ++ s')) as ->.
  { unfold s'. destruct neg; [|done]. cbn -[mem_write]. pose proof (mem_write_app pre s [] (negate s) (length pre) eq_refl) as Ew.
    rewrite !app_nil_r in Ew. apply Ew. symmetry. apply S2. }
  cbn [mbind option_bind]. replace (num.(beg)) with (Z.of_nat (length pre)) by lia. replace (num.(len)) with (Z.of_nat (length s')) by lia.
  destruct (sign_added (sign_octet neg) (magnitude neg v) pre s') as (buf' & m & Em & L1 & L2 & L3 & L4).
  - destruct neg; auto.
  - by apply bytes_ok_app.
  - intros H. rewrite H in S2. cbn in S2. lia.
  - done.
  - rewrite S2, Ls, Z2Nat.id by lia. destruct N5 as [[_ ?]|N5]; [left; lia|right]. unfold magnitude. destruct neg; lia.
  - intros H Hp. rewrite Hp in *. cbn [length app] in *. pose proof (digits_value_bound 10 pin ltac:(lia)) as Hv. fold v in Hv.
    assert (10 ^ Z.of_nat (length pin) <= 10 ^ Z.of_nat (length s')) by (apply Z.pow_le_mono_r; lia).
    assert (0 < Z.of_nat (length s')) by lia.
    assert (10 ^ Z.of_nat (length s') = 10 * 10 ^ (Z.of_nat (length s') - 1)) as E10 by (rewrite <- Z.pow_succ_r by lia; f_equal; lia).
    assert (10 ^ (Z.of_nat (length s') - 1) <= 256 ^ (Z.of_nat (length s') - 1)) by (apply Z.pow_le_mono_l; lia).
    assert (0 < 256 ^ (Z.of_nat (length s') - 1)) by (apply Z.pow_pos_nonneg; lia). unfold magnitude in H. destruct neg; lia.
  - exists buf', m. rewrite Em. rewrite !length_app, S2 in *. split_and!; (done || lia).
Qed.

Lemma str2bin_decimal neg pin out (v := digits_value 10 0 pin) :
  bytes_ok out -> decimal pin -> (neg = true -> 0 < v) -> (length (sign_text neg ++ pin) <= length out)%nat -> Z.of_nat (length out) < 2 ^ 31 ->
  exists buf' m, lutil_str2bin (sign_text neg ++ pin) out = Some (0, buf', Z.of_nat m) /\ length buf' = length out /\ (m <= length out)%nat /\
    bytes_ok buf' /\ signed_octets (sign_octet neg) (magnitude neg v) (take m buf').
Proof.
  intros Ho Hp Hneg Hlen Hsz. destruct (dec2bin_spec neg pin out Ho Hp Hneg Hlen) as (buf' & m & E & H). exists buf', m. split; [|exact H].
  unfold lutil_str2bin. rewrite (proj2 (Nat.ltb_ge _ _)), (proj2 (Z.leb_gt _ _)) by lia. rewrite E. clear E H. destruct Hp as [Hd Hl].
  set (t := sign_text neg ++ pin) in *.
  assert (Ascii.eqb (char_at t 1) "x" = false /\ Ascii.eqb (char_at t 1) "X" = false \/ Ascii.eqb (char_at t 0) "0" = false) as Hx.
  { unfold t. destruct neg; [by right|]. left. destruct pin as [|c [|d pin]]; [done|done|]. cbn [all_digits forallb] in Hd. cbn.
    apply andb_true_iff in Hd as [_ Hd]. pose proof (digit_first d pin Hd). tauto. }
  assert (Ascii.eqb (char_at t 0) "'" = false) as Hq.
  { unfold t. destruct neg; [done|]. destruct pin as [|c pin]; [done|]. cbn. apply (digit_first c pin Hd). }
  rewrite Hq, andb_false_r, !andb_false_l. destruct Hx as [[-> ->] | ->]; cbn [orb]; by rewrite ?andb_false_r, ?andb_false_l.
Qed.

(** The value of octets in two's complement. *)
Definition twos (l : list Z) : Z :=
  be_val l - (if match l with b :: _ => b <? 128 | [] => true end then 0 else 256 ^ Z.of_nat (length l)).

Lemma signed_twos neg v r : signed_octets (sign_octet neg) (magnitude neg v) r -> (neg = true -> 0 < v) -> 0 <= v ->
  twos r = if neg then - v else v.
Proof.
  intros (Hr & Hne & Hv & Hhigh & _) Hneg Hv0. destruct r as [|b r]; [done|]. unfold twos. clear Hne.
  pose proof (head_high_bit b r Hr) as Hb. rewrite land_high_bit in Hb. apply bytes_ok_cons in Hr as Hbr. destruct Hbr as [Hb0 _].
  rewrite Z.mod_small in Hb by done. rewrite Hb.
  replace (Z.of_nat (length (b :: r)) - 1) with (Z.of_nat (length r)) in Hhigh by (cbn [length]; lia).
  pose proof (be_val_bound _ Hr) as Hbd. cbn [length] in *. rewrite pow256_S in *.
  destruct neg; cbn [sign_octet magnitude] in *.
  - rewrite (proj2 (flip_ok _ Hr)) in Hv. cbn [length] in Hv. rewrite pow256_S in Hv.
    revert Hv Hhigh Hbd. generalize (256 ^ Z.of_nat (length r)) (be_val (b :: r)). intros W V. clear. destruct (V <? 128 * W) eqn:E; zb; lia.
  - rewrite flip_0 in Hv. revert Hv Hhigh. generalize (256 ^ Z.of_nat (length r)) (be_val (b :: r)). intros W V. clear. destruct (V <? 128 * W) eqn:E; zb; lia.
Qed.
