(* ===== verification/Integers.v ===== *)
(** * The integer syntax (schema_init.c)

    Validation and matching of integers, which are decimal numbers of any length,
    and the keys of their index, whose order as octets is to be that of the
    numbers. *)

From Stdlib Require Import Ascii String.
From S2P Require Import Prelude Text Attr StrBin.

Local Open Scope Z_scope.
Local Abbreviation length := List.length.

Definition integerValidate (v : berval) : Z :=
  let digits v := if forallb is_digit v then LDAP_SUCCESS else LDAP_INVALID_SYNTAX in
  match v with
  | [] => LDAP_INVALID_SYNTAX
  | c :: r =>
      if Ascii.eqb c "-" then
        match r with
        | [] => LDAP_INVALID_SYNTAX
        | d :: _ => if Ascii.eqb d "0" then LDAP_INVALID_SYNTAX else digits r
        end
      else if Ascii.eqb c "0" then match r with [] => LDAP_SUCCESS | _ => LDAP_INVALID_SYNTAX end
      else digits v
  end.

(** [usage] is that of the matching rule. *)
Definition integerMatch (flags usage : Z) (value asserted : berval) : Z :=
  let split s := if Ascii.eqb (char_at s 0) "-" then (-1, tl s) else (1, s) in
  let '(vsign, v) := split value in
  let vsign := match v with [] => 0 | _ => vsign end in
  let '(asign, a) := split asserted in
  let vsign := match a with [] => 0 | _ => vsign end in
  let match_ := vsign - asign in
  let match_ :=
    if match_ =? 0 then
      let m := if negb (length v =? length a)%nat then (if (length v <? length a)%nat then -1 else 1) else memcmp v a in
      if vsign <? 0 then - m else m
    else match_ in
  if negb (Z.land flags SLAP_MR_EXT =? 0) && negb (Z.land usage SLAP_MR_ORDERING =? 0) then (if match_ >=? 0 then 1 else 0) else match_.

(** [strtoll]; [None] is [ERANGE]. *)
Definition strtoll (s : text) : option Z :=
  match strtol_exact s 10 with
  | Some (v, _) => if decide (- 2 ^ 63 <= v < 2 ^ 63) then Some v else None
  | None => Some 0
  end.

Definition LDAP_CONSTRAINT_VIOLATION : Z := 0x13.

Definition integerBitAndMatch (value asserted : berval) : Z + Z :=
  match strtoll value, strtoll asserted with
  | Some lValue, Some lAssertedValue => inr (if Z.land lValue lAssertedValue =? lAssertedValue then 0 else 1)
  | _, _ => inl LDAP_CONSTRAINT_VIOLATION
  end.

Definition integerBitOrMatch (value asserted : berval) : Z + Z :=
  match strtoll value, strtoll asserted with
  | Some lValue, Some lAssertedValue => inr (if negb (Z.land lValue lAssertedValue =? 0) then 0 else -1)
  | _, _ => inl LDAP_CONSTRAINT_VIOLATION
  end.

(** ** Index keys *)

Definition INDEX_INTLEN_CHOP : Z := 7.
Definition INDEX_INTLEN_CHOPBYTES : Z := 3.

Definition SLAP_INDEX_INTLEN_STRLEN (intlen : Z) : Z := (8 * intlen - 1) * 146 / 485 + 3.

(** What the [index_intlen] directive sets. *)
Definition SLAP_INDEX_INTLEN_DEFAULT : Z := 4.
Definition config_index_intlen (value_int : Z) : Z :=
  if value_int <? SLAP_INDEX_INTLEN_DEFAULT then SLAP_INDEX_INTLEN_DEFAULT else if value_int >? 255 then 255 else value_int.

(** The octets of the exponent: [lenp] is what has been stored at the end of
    [lenbuf], which has room for 10. *)
Fixpoint exponent_octets (room : nat) (lenp : list Z) (chop signmask neg : Z) : option (list Z * Z) :=
  match room with
  | O => None
  | S room =>
      let o := Z.lxor (Z.land chop 0xff) neg in
      let signmask := Z.shiftr signmask 1 in
      let chop := Z.shiftr chop 8 in
      if negb (chop =? 0) || negb (Z.land (Z.shiftr signmask 1) (Z.lxor o neg) =? 0)
      then exponent_octets room (o :: lenp) chop signmask neg
      else Some (o :: lenp, signmask)
  end.

Definition sign_mask : Z := u32 (Z.lnot 0x7f).

Section keys.
  Context (index_intlen : Z).

Definition index_intlen_strlen : Z := SLAP_INDEX_INTLEN_STRLEN index_intlen.

(** Storing the octets of the converted number, [chop] octets longer than it is:
    extended with the sign, as they are, or behind an exponent. *)
Definition place_octets (neg chop : Z) (itmp key : list Z) (len : Z) : option (list Z) :=
  let k := index_intlen - (len + chop) in
  '(key, k, len, signmask) ←
    (if k >? 0 then
       if negb (chop =? 0) then None else
       key ← mem_write key 0 (replicate (Z.to_nat k) neg); Some (key, k, len, sign_mask)
     else
       exponent ← (if negb (k =? 0) then Some true
                   else b ← arr_get itmp 0; Some (negb (Z.land (Z.lxor b neg) 0xc0 =? 0)));
       if exponent : bool then
         '(lenp, signmask) ← exponent_octets 10 [] (u64 (- k)) sign_mask neg;
         let k := Z.of_nat (length lenp) in
         let k := if k >? index_intlen then index_intlen else k in
         key ← mem_write key 0 (take (Z.to_nat k) lenp);
         Some (key, k, index_intlen - k, signmask)
       else Some (key, k, len, sign_mask));
  d ← mem_read itmp 0 (Z.to_nat len);
  key ← mem_write key (Z.to_nat k) d;
  b ← arr_get key 0;
  arr_set key 0 (Z.lxor b (Z.land signmask 0xff)).

(** The result code, the key and the temporary buffer. The first octet is compared as a
    signed [char] with [neg], an [unsigned char]: the octet 0xff is not 0xff. *)
Definition integerVal2Key (inv : berval) (key tmp : list Z) : option (Z * list Z * list Z) :=
  let k := index_intlen_strlen in
  let n := Z.of_nat (length inv) in
  let '(neg, k) := if negb (Ascii.eqb (char_at inv 0) "-") then (0, k - 1) else (0xff, k) in
  let chop := if n >? k then (n - k + 2) / INDEX_INTLEN_CHOP else 0 in
  let val := take (Z.to_nat (n - chop * INDEX_INTLEN_CHOP)) inv in
  let chop := chop * INDEX_INTLEN_CHOPBYTES in
  '(rc, buf, len) ← lutil_str2bin val tmp;
  if negb (rc =? 0) then Some (LDAP_INVALID_SYNTAX, key, buf) else
  first ← arr_get buf 0;
  let '(itmp, len) := if swrap 8 first =? neg then (drop 1 buf, len - 1) else (buf, len) in
  key ← place_octets neg chop itmp key len;
  Some (LDAP_SUCCESS, key, buf).

(** The contents of fresh memory. *)
Context (fresh : nat -> list Z).

Definition sizeof_ibuf : nat := 64.
Definition maxstrlen : nat := Z.to_nat (index_intlen_strlen + INDEX_INTLEN_CHOP - 1).

(** The keys of the values one after the other; [itmp] is the memory of the
    temporary buffer, [malloced] unless it is [ibuf]. *)
Fixpoint index_keys (malloced : bool) (itmp : list Z) (values : list berval) : option (Z + list (list Z)) :=
  match values with
  | [] => Some (inr [])
  | v :: values =>
      let bv_len := if malloced then
                      (if (length v <=? sizeof_ibuf)%nat then sizeof_ibuf
                       else if (maxstrlen <? length v)%nat then maxstrlen else length v)
                    else sizeof_ibuf in
      if (length itmp <? bv_len)%nat then None else
      '(rc, key, buf) ← integerVal2Key v (fresh (Z.to_nat index_intlen)) (take bv_len itmp);
      if negb (rc =? 0) then Some (inl rc) else
      r ← index_keys malloced (buf ++ drop bv_len itmp) values;
      Some (match r with inl rc => inl rc | inr keys => inr (key :: keys) end)
  end.

Definition integerIndexer (values : list berval) : option (Z + list (list Z)) :=
  let vlen := foldr (fun v l => Nat.max (length v) l) O values in
  let vlen := if (maxstrlen <? vlen)%nat then maxstrlen else vlen in
  match values with
  | [] => None
  | _ => if (sizeof_ibuf <? vlen)%nat then index_keys true (fresh vlen) values else index_keys false (fresh sizeof_ibuf) values
  end.

Definition integerFilter (value : berval) : option (Z + list Z) :=
  let bv_len := if (length value <? maxstrlen)%nat then length value else maxstrlen in
  let iv := if (sizeof_ibuf <? bv_len)%nat then fresh bv_len else fresh sizeof_ibuf in
  '(rc, key, _) ← integerVal2Key value (fresh (Z.to_nat index_intlen)) iv;
  Some (if rc =? 0 then inr key else inl rc).

End keys.
