(* ===== verification/IntegersFacts.v ===== *)
(** * The order of index keys

    What a key denotes as a number: for small integers their value behind the
    inverted sign bit, for the others an exponent (the number of octets beyond the
    length of a key) behind ones that count its octets, and the highest octets. This
    grows with the integer. *)

From Stdlib Require Import Ascii String.
From S2P Require Import Prelude Text Digits Attr StrBin StrBinFacts Integers.

Local Open Scope Z_scope.
Local Abbreviation length := List.length.

(** ** The numbers of keys *)

(** How many magnitudes have [b] octets; those of negative numbers keep the sign bit, and
    have one octet at least. *)
Definition base (neg : bool) : Z := if neg then 1 else 0.
Definition cap (neg : bool) (b : Z) : Z := if neg then 128 * 256 ^ (b - 1) else 256 ^ b.

(** Octets of a number: [b] of them, and no fewer would do. *)
Definition shape (neg : bool) (u b : Z) : Prop := base neg <= b /\ (b = base neg \/ base neg < b /\ cap neg (b - 1) <= u) /\ 0 <= u < cap neg b.

(** The octets of an exponent, and the ones in front of it. *)
Definition exp_len (e : Z) : Z := if e <? 2 ^ 5 then 1 else if e <? 2 ^ 12 then 2 else if e <? 2 ^ 19 then 3 else 4.
Definition exp_mask (m : Z) : Z := 256 - 2 ^ (7 - m).

(** The number of the key of [u], whose [b] octets stand for [b + c]. *)
Definition key_number (n u b c : Z) : Z :=
  if u * 256 ^ c <? 2 ^ (8 * n - 2) then 2 ^ (8 * n - 1) + u
  else let e := b + c - n in let m := exp_len e in
       exp_mask m * 256 ^ (n - 1) + e * 256 ^ (n - m) + u / 256 ^ (b + m - n).

Lemma exp_len_range e : 1 <= exp_len e <= 4.
Proof. unfold exp_len. repeat case_if; lia. Qed.

Lemma exp_len_mono e f : e <= f -> exp_len e <= exp_len f.
Proof. intros H. unfold exp_len. repeat case_if; zb; lia. Qed.

Lemma exp_len_bound e : 0 <= e < 2 ^ 26 -> e < 2 ^ (7 * exp_len e - 2).
Proof. intros H. unfold exp_len. repeat case_if; zb; [change (7 * 1 - 2) with 5|change (7 * 2 - 2) with 12|change (7 * 3 - 2) with 19|change (7 * 4 - 2) with 26]; lia. Qed.

Lemma cap_mono neg b b' : base neg <= b <= b' -> cap neg b <= cap neg b'.
Proof. intros H. unfold cap, base in *. destruct neg; [apply Z.mul_le_mono_nonneg_l; [lia|]|]; apply Z.pow_le_mono_r; lia. Qed.

Lemma cap_shift neg b c : base neg <= b -> 0 <= c -> cap neg b * 256 ^ c = cap neg (b + c).
Proof. intros H Hc. unfold cap, base in *. destruct neg; [rewrite <- Z.mul_assoc; f_equal|]; rewrite <- Z.pow_add_r by lia; f_equal; lia. Qed.

Lemma cap_octets neg b : base neg <= b -> cap neg b <= 256 ^ b.
Proof.
  intros H. unfold cap, base in *. destruct neg; [|done]. replace (256 ^ b) with (256 * 256 ^ (b - 1)) by (rewrite <- Z.pow_succ_r by lia; f_equal; lia).
  assert (0 < 256 ^ (b - 1)) by (apply Z.pow_pos_nonneg; lia). lia.
Qed.

Lemma shape_below neg u b : shape neg u b -> 0 <= b /\ 0 <= u < 256 ^ b.
Proof. intros (H0 & _ & H2). pose proof (cap_octets neg b H0). unfold base in *. destruct neg; lia. Qed.

Lemma shape_unique neg u b b' : shape neg u b -> shape neg u b' -> b = b'.
Proof.
  intros (H0 & H1 & H2) (G0 & G1 & G2).
  assert (forall x y, base neg < x -> cap neg (x - 1) <= u -> base neg <= y -> u < cap neg y -> x <= y) as Hle.
  { intros x y Hx Hl Hy Hu. apply Z.nlt_ge. intros Hxy. pose proof (cap_mono neg y (x - 1) ltac:(lia)). lia. }
  destruct H1 as [H1|[H1 H3]], G1 as [G1|[G1 G3]].
  - lia.
  - pose proof (Hle b' b G1 G3 H0 ltac:(lia)). lia.
  - pose proof (Hle b b' H1 H3 G0 ltac:(lia)). lia.
  - pose proof (Hle b b' H1 H3 G0 ltac:(lia)). pose proof (Hle b' b G1 G3 H0 ltac:(lia)). lia.
Qed.

(** The order of shifted numbers is that of their lengths first. *)
Lemma shape_mono neg u1 b1 c1 u2 b2 c2 :
  shape neg u1 b1 -> shape neg u2 b2 -> 0 <= c1 -> 0 <= c2 -> base neg < b1 -> u1 * 256 ^ c1 <= u2 * 256 ^ c2 -> b1 + c1 <= b2 + c2.
Proof.
  intros (H0 & [?|[H1 H1']] & H2) (G0 & G1 & G2) Hc1 Hc2 Hb Hle; [lia|]. apply Z.nlt_ge. intros Hlt.
  assert (cap neg (b1 - 1) * 256 ^ c1 <= u1 * 256 ^ c1) as L1 by (apply Z.mul_le_mono_nonneg_r; [apply Z.pow_nonneg; lia|done]).
  assert (u2 * 256 ^ c2 < cap neg b2 * 256 ^ c2) as L2 by (apply Z.mul_lt_mono_pos_r; [apply Z.pow_pos_nonneg; lia|lia]).
  rewrite cap_shift in L1, L2 by lia. pose proof (cap_mono neg (b2 + c2) (b1 - 1 + c1) ltac:(lia)). lia.
Qed.

Lemma pow2_256 n : 0 <= n -> 256 ^ n = 2 ^ (8 * n).
Proof. intros Hn. rewrite Z.pow_mul_r by lia. done. Qed.

Section keys.
  Context (n : Z) (Hn : 4 <= n).

(** A number that does not fit has as many octets as a key. *)
Definition keyed (neg : bool) (u b c : Z) : Prop :=
  shape neg u b /\ 0 <= c /\ b + c - n < 2 ^ 26 /\ (u * 256 ^ c < 2 ^ (8 * n - 2) -> c = 0) /\ (2 ^ (8 * n - 2) <= u * 256 ^ c -> n <= b).

Lemma top_octets neg u b m : shape neg u b -> n <= b -> 1 <= m <= n -> 0 <= u / 256 ^ (b + m - n) < 256 ^ (n - m).
Proof using Hn.
  intros Hs Hb Hm. destruct (shape_below _ _ _ Hs) as [H0 H3]. assert (0 < 256 ^ (b + m - n)) by (apply Z.pow_pos_nonneg; lia).
  split; [apply Z.div_pos; lia|]. apply Z.div_lt_upper_bound; [done|]. rewrite <- Z.pow_add_r by lia. replace (b + m - n + (n - m)) with b by lia. lia.
Qed.

Definition big_number (u b c : Z) : Z :=
  let e := b + c - n in let m := exp_len e in exp_mask m * 256 ^ (n - 1) + e * 256 ^ (n - m) + u / 256 ^ (b + m - n).

(** The exponent and the octets behind it are below the next mask. *)
Lemma big_bounds neg u b c (m := exp_len (b + c - n)) : keyed neg u b c -> 2 ^ (8 * n - 2) <= u * 256 ^ c ->
  exp_mask m * 256 ^ (n - 1) <= big_number u b c < exp_mask (m + 1) * 256 ^ (n - 1).
Proof using Hn.
  intros (Hs & Hc & He & _ & Hb) Hbig. specialize (Hb Hbig). pose proof (exp_len_range (b + c - n)) as Hm. fold m in Hm.
  pose proof (top_octets neg u b m Hs Hb ltac:(lia)) as Ht. pose proof (exp_len_bound (b + c - n) ltac:(lia)) as Hx. fold m in Hx.
  unfold big_number. cbv zeta. fold m. set (e := b + c - n) in *. set (T := u / 256 ^ (b + m - n)) in *.
  assert (0 < 256 ^ (n - m)) by (apply Z.pow_pos_nonneg; lia). split; [nia|].
  assert (e * 256 ^ (n - m) + T < 2 ^ (7 * m - 2) * 256 ^ (n - m)) by nia.
  assert (2 ^ (7 * m - 2) * 256 ^ (n - m) = 2 ^ (6 - m) * 256 ^ (n - 1)) as E.
  { rewrite !pow2_256 by lia. rewrite <- !Z.pow_add_r by lia. f_equal. lia. }
  unfold exp_mask. replace (7 - (m + 1)) with (6 - m) by lia. replace (2 ^ (7 - m)) with (2 * 2 ^ (6 - m)) by (rewrite <- Z.pow_succ_r by lia; f_equal; lia). nia.
Qed.

Lemma big_mono neg u1 b1 c1 u2 b2 c2 :
  keyed neg u1 b1 c1 -> keyed neg u2 b2 c2 -> 2 ^ (8 * n - 2) <= u1 * 256 ^ c1 -> u1 * 256 ^ c1 <= u2 * 256 ^ c2 ->
  big_number u1 b1 c1 <= big_number u2 b2 c2.
Proof using Hn.
  intros K1 K2 Hbig Hle. pose proof (big_bounds neg u1 b1 c1 K1 Hbig) as B1. pose proof (big_bounds neg u2 b2 c2 K2 ltac:(lia)) as B2.
  destruct K1 as (S1 & C1 & E1 & _ & N1). destruct K2 as (S2 & C2 & E2 & _ & N2). specialize (N1 Hbig). specialize (N2 ltac:(lia)).
  pose proof (shape_mono _ _ _ _ _ _ _ S1 S2 C1 C2 ltac:(unfold base; destruct neg; lia) Hle) as Hlen.
  pose proof (exp_len_mono (b1 + c1 - n) (b2 + c2 - n) ltac:(lia)) as Hm. pose proof (exp_len_range (b2 + c2 - n)) as Hr2. pose proof (exp_len_range (b1 + c1 - n)) as Hr1.
  destruct (decide (exp_len (b1 + c1 - n) < exp_len (b2 + c2 - n))) as [Hlt|].
  - assert (exp_mask (exp_len (b1 + c1 - n) + 1) <= exp_mask (exp_len (b2 + c2 - n))).
    { unfold exp_mask. assert (2 ^ (7 - exp_len (b2 + c2 - n)) <= 2 ^ (7 - (exp_len (b1 + c1 - n) + 1))) by (apply Z.pow_le_mono_r; lia). lia. }
    assert (0 < 256 ^ (n - 1)) by (apply Z.pow_pos_nonneg; lia). nia.
  - assert (exp_len (b1 + c1 - n) = exp_len (b2 + c2 - n)) as Em by lia. unfold big_number. cbv zeta. rewrite <- Em in *. set (m := exp_len (b1 + c1 - n)) in *.
    pose proof (top_octets neg u1 b1 m S1 N1 ltac:(lia)) as T1. pose proof (top_octets neg u2 b2 m S2 N2 ltac:(lia)) as T2.
    destruct (decide (b1 + c1 < b2 + c2)); [nia|]. assert (b1 + c1 = b2 + c2) as Eb by lia. rewrite Eb.
    assert (forall u b c, 0 <= c -> n <= b -> u / 256 ^ (b + m - n) = u * 256 ^ c / 256 ^ (b + c + m - n)) as Hd.
    { intros u b c Hc Hb. replace (b + c + m - n) with (b + m - n + c) by lia. rewrite Z.pow_add_r by lia.
      rewrite Z.div_mul_cancel_r; [done| |]; apply Z.pow_nonzero; lia. }
    rewrite (Hd u1 b1 c1), (Hd u2 b2 c2), Eb by lia.
    assert (u1 * 256 ^ c1 / 256 ^ (b2 + c2 + m - n) <= u2 * 256 ^ c2 / 256 ^ (b2 + c2 + m - n)); [|lia].
    apply Z.div_le_mono; [apply Z.pow_pos_nonneg; lia|done].
Qed.

Lemma key_number_bounds neg u b c : keyed neg u b c -> 0 <= u -> 2 ^ (8 * n - 1) <= key_number n u b c < 256 ^ n.
Proof using Hn.
  intros K Hu. unfold key_number. fold (big_number u b c). destruct (_ <? _) eqn:E; zb.
  - assert (c = 0) as -> by (by destruct K as (_ & _ & _ & ? & _); auto). rewrite Z.mul_1_r in E.
    rewrite (pow2_256 n) by lia. replace (8 * n) with (Z.succ (Z.succ (8 * n - 2))) by lia. replace (Z.succ (Z.succ (8 * n - 2)) - 1) with (Z.succ (8 * n - 2)) by lia.
    rewrite !Z.pow_succ_r by lia. lia.
  - pose proof (big_bounds neg u b c K E) as [B1 B2]. pose proof (exp_len_range (b + c - n)) as Hm.
    assert (256 ^ n = 256 * 256 ^ (n - 1)) as E1 by (rewrite <- Z.pow_succ_r by lia; f_equal; lia).
    assert (2 ^ (8 * n - 1) = 128 * 256 ^ (n - 1)) as E2 by (rewrite (pow2_256 (n - 1)) by lia; change 128 with (2 ^ 7); rewrite <- Z.pow_add_r by lia; f_equal; lia).
    assert (0 < 256 ^ (n - 1)) by (apply Z.pow_pos_nonneg; lia). unfold exp_mask in *.
    assert (0 < 2 ^ (7 - (exp_len (b + c - n) + 1))) by (apply Z.pow_pos_nonneg; lia).
    assert (2 ^ (7 - exp_len (b + c - n)) <= 2 ^ 6) by (apply Z.pow_le_mono_r; lia). nia.
Qed.

Lemma key_number_mono neg u1 b1 c1 u2 b2 c2 :
  keyed neg u1 b1 c1 -> keyed neg u2 b2 c2 -> 0 <= u1 -> u1 * 256 ^ c1 <= u2 * 256 ^ c2 -> key_number n u1 b1 c1 <= key_number n u2 b2 c2.
Proof using Hn.
  intros K1 K2 Hu Hle. unfold key_number. fold (big_number u1 b1 c1). fold (big_number u2 b2 c2).
  destruct (u1 * _ <? _) eqn:E1, (u2 * _ <? _) eqn:E2; zb.
  - assert (c1 = 0) as -> by (by destruct K1 as (_ & _ & _ & ? & _); auto). assert (c2 = 0) as -> by (by destruct K2 as (_ & _ & _ & ? & _); auto). lia.
  - assert (c1 = 0) as -> by (by destruct K1 as (_ & _ & _ & ? & _); auto). rewrite Z.mul_1_r in *.
    pose proof (big_bounds neg u2 b2 c2 K2 E2) as [B _]. pose proof (exp_len_range (b2 + c2 - n)) as Hm. etrans; [|apply B]. unfold exp_mask.
    assert (2 ^ (7 - exp_len (b2 + c2 - n)) <= 2 ^ 6) by (apply Z.pow_le_mono_r; lia).
    assert (2 ^ (8 * n - 1) = 128 * 256 ^ (n - 1)) as E4 by (rewrite (pow2_256 (n - 1)) by lia; change 128 with (2 ^ 7); rewrite <- Z.pow_add_r by lia; f_equal; lia).
    assert (2 ^ (8 * n - 2) = 64 * 256 ^ (n - 1)) as E5 by (rewrite (pow2_256 (n - 1)) by lia; change 64 with (2 ^ 6); rewrite <- Z.pow_add_r by lia; f_equal; lia).
    assert (0 < 256 ^ (n - 1)) by (apply Z.pow_pos_nonneg; lia). nia.
  - lia.
  - by apply (big_mono neg).
Qed.

End keys.

(** ** Chopping digits *)

(** Groups of seven digits that are left out of a number of [d] digits. *)
Definition chops (n d : Z) : Z := let k := SLAP_INDEX_INTLEN_STRLEN n - 1 in if d >? k then (d - k + 2) / 7 else 0.

Definition digits (v d : Z) : Prop := v = 0 /\ d = 1 \/ 0 < d /\ 10 ^ (d - 1) <= v < 10 ^ d.

(** The lengths that the directive admits: what is kept of a chopped number fills a
    key. *)
Lemma strlen_checked : forallb (fun i => let n := Z.of_nat i in let s := SLAP_INDEX_INTLEN_STRLEN n in
  (256 ^ (n - 1) <? 10 ^ (s - 4)) && (12 <=? s) && (s <=? 620)) (seq 4 252) = true.
Proof. by vm_compute. Qed.

Section chops.
  Context (n : Z) (Hn : 4 <= n <= 255).

Abbreviation strlen := (SLAP_INDEX_INTLEN_STRLEN n).

Lemma strlen_spec : 256 ^ (n - 1) < 10 ^ (strlen - 4) /\ 12 <= strlen <= 620.
Proof using Hn.
  pose proof strlen_checked as H. rewrite forallb_forall in H. specialize (H (Z.to_nat n)). rewrite Z2Nat.id in H by lia.
  assert (In (Z.to_nat n) (seq 4 252)) as Hin by (apply in_seq; lia). specialize (H Hin). cbv zeta in H.
  apply andb_true_iff in H as [[H1 H2]%andb_true_iff H3]. zb. lia.
Qed.

Lemma chops_spec d : 0 < d ->
  0 <= chops n d /\ 7 * chops n d < d /\ d - 7 * chops n d <= strlen + 3 /\ (0 < chops n d -> strlen - 3 <= d - 7 * chops n d).
Proof using Hn.
  intros Hd. pose proof strlen_spec as [_ Hs]. unfold chops. cbv zeta. destruct (d >? _) eqn:E; zb; [|lia].
  pose proof (Z.div_mod (d - (strlen - 1) + 2) 7 ltac:(lia)). pose proof (Z.mod_pos_bound (d - (strlen - 1) + 2) 7 ltac:(lia)). lia.
Qed.

Lemma chops_mono d e : d <= e -> chops n d <= chops n e.
Proof using Hn.
  intros H. unfold chops. cbv zeta. destruct (d >? _) eqn:E1, (e >? _) eqn:E2; zb; try lia.
  - apply Z.div_le_mono; lia.
  - apply Z.div_pos; lia.
Qed.

Lemma digits_nonneg v d : digits v d -> 0 <= v /\ 0 < d.
Proof. intros [[-> ->]|[? ?]]; [lia|]. assert (0 < 10 ^ (d - 1)) by (apply Z.pow_pos_nonneg; lia). lia. Qed.

(** What is kept of a number. *)
Lemma kept_bounds v d (c := chops n d) : digits v d ->
  0 <= v / 10 ^ (7 * c) < 10 ^ (strlen + 3) /\ (0 < v -> 10 ^ (d - 7 * c - 1) <= v / 10 ^ (7 * c)) /\
  (0 < c -> 10 ^ (strlen - 4) <= v / 10 ^ (7 * c)).
Proof using Hn.
  intros Hd. pose proof (digits_nonneg v d Hd) as [Hv Hd0]. destruct (chops_spec d Hd0) as (H1 & H2 & H3 & H4). fold c in H1, H2, H3, H4.
  assert (0 < 10 ^ (7 * c)) as Hp by (apply Z.pow_pos_nonneg; lia).
  assert (0 < v -> 10 ^ (d - 7 * c - 1) <= v / 10 ^ (7 * c)) as Hlow.
  { intros Hpos. destruct Hd as [[-> _]|[_ [Hl _]]]; [lia|]. apply Z.div_le_lower_bound; [done|]. rewrite <- Z.pow_add_r by lia.
    by replace (7 * c + (d - 7 * c - 1)) with (d - 1) by lia. }
  split_and!.
  - by apply Z.div_pos.
  - apply Z.div_lt_upper_bound; [done|]. rewrite <- Z.pow_add_r by (pose proof strlen_spec; lia).
    assert (v < 10 ^ d) by (destruct Hd as [[E1 E2]|[_ [_ ?]]]; [rewrite E1, E2; lia|done]).
    assert (10 ^ d <= 10 ^ (7 * c + (strlen + 3))) by (apply Z.pow_le_mono_r; lia). lia.
  - done.
  - intros Hc. pose proof strlen_spec as [_ Hs]. specialize (H4 Hc). etrans; [|apply Hlow].
    + apply Z.pow_le_mono_r; lia.
    + destruct Hd as [[-> ->]|[_ [Hl _]]]; [lia|]. assert (0 < 10 ^ (d - 1)) by (apply Z.pow_pos_nonneg; lia). lia.
Qed.

Lemma magnitude_nonneg neg v d : digits v d -> (neg = true -> 0 < v) -> 0 <= magnitude neg (v / 10 ^ (7 * chops n d)).
Proof using Hn.
  intros Hd Hneg. destruct (kept_bounds v d Hd) as ([H1 _] & H2 & _). unfold magnitude. destruct neg; [|done].
  specialize (H2 (Hneg eq_refl)). destruct (chops_spec d) as (? & ? & _); [apply (digits_nonneg v d Hd)|].
  assert (0 < 10 ^ (d - 7 * chops n d - 1)) by (apply Z.pow_pos_nonneg; lia). lia.
Qed.

Lemma chop_keyed neg v d b (c := chops n d) (u := magnitude neg (v / 10 ^ (7 * c))) :
  digits v d -> d < 2 ^ 27 -> (neg = true -> 0 < v) -> shape neg u b -> keyed n neg u b (3 * c).
Proof using Hn.
  intros Hd Hbig Hneg Hs. pose proof (digits_nonneg v d Hd) as [Hv Hd0]. destruct (chops_spec d Hd0) as (H1 & H2 & H3 & _). fold c in H1, H2, H3.
  destruct (kept_bounds v d Hd) as (Q1 & _ & Q3). fold c in Q1, Q3. pose proof (magnitude_nonneg neg v d Hd Hneg) as Hu. fold c in Hu. fold u in Hu.
  pose proof strlen_spec as [Hs1 Hs2].
  assert (u <= v / 10 ^ (7 * c)) as Huq by (unfold u, magnitude; destruct neg; lia).
  assert (0 < c -> 256 ^ (n - 1) <= u) as Hfull by (intros Hc; specialize (Q3 Hc); unfold u, magnitude; destruct neg; lia).
  assert (b <= strlen + 3) as Hb.
  { destruct Hs as (B0 & [->|[B1 B2]] & B3); [unfold base; destruct neg; lia|]. apply Z.nlt_ge. intros Hlt.
    assert (10 ^ (strlen + 3) <= cap neg (strlen + 3)).
    { unfold cap. destruct neg; [|apply Z.pow_le_mono_l; lia]. replace (strlen + 3) with (Z.succ (strlen + 3 - 1)) at 1 by lia. rewrite Z.pow_succ_r by lia.
      assert (10 ^ (strlen + 3 - 1) <= 256 ^ (strlen + 3 - 1)) by (apply Z.pow_le_mono_l; lia). lia. }
    pose proof (cap_mono neg (strlen + 3) (b - 1) ltac:(unfold base in *; destruct neg; lia)). lia. }
  assert (n - 1 < b \/ u < 256 ^ (n - 1)) as Hlen.
  { destruct (decide (n - 1 < b)); [by left|right]. destruct (shape_below _ _ _ Hs) as (B0 & _ & B3). eapply Z.lt_le_trans; [done|]. apply Z.pow_le_mono_r; lia. }
  assert (2 ^ (8 * n - 2) = 64 * 256 ^ (n - 1)) as E5 by (rewrite (pow2_256 (n - 1)) by lia; change 64 with (2 ^ 6); rewrite <- Z.pow_add_r by lia; f_equal; lia).
  assert (0 < 256 ^ (n - 1)) by (apply Z.pow_pos_nonneg; lia).
  split_and!; [done|lia|lia| |].
  - intros Hsmall. destruct (decide (c = 0)) as [->|]; [done|]. specialize (Hfull ltac:(lia)).
    assert (256 ^ 3 <= 256 ^ (3 * c)) by (apply Z.pow_le_mono_r; lia). nia.
  - intros Hlarge. destruct Hlen as [?|Hlt]; [lia|]. destruct (decide (c = 0)) as [E|]; [|specialize (Hfull ltac:(lia)); lia].
    rewrite E, Z.mul_1_r in Hlarge. lia.
Qed.

(** The shifted magnitudes grow with the numbers. *)
Lemma chop_mono neg v d w e (u1 := magnitude neg (v / 10 ^ (7 * chops n d))) (u2 := magnitude neg (w / 10 ^ (7 * chops n e))) :
  digits v d -> digits w e -> d <= e -> v <= w -> (neg = true -> 0 < v) ->
  u1 * 256 ^ (3 * chops n d) <= u2 * 256 ^ (3 * chops n e).
Proof using Hn.
  intros Hd He Hde Hvw Hneg. pose proof (chops_mono d e Hde) as Hc. destruct (kept_bounds v d Hd) as (Q1 & _ & _). destruct (kept_bounds w e He) as (_ & _ & Q3).
  pose proof (digits_nonneg v d Hd) as [Hv Hd0]. destruct (chops_spec d Hd0) as (H1 & _ & _ & _). pose proof strlen_spec as [_ Hs2].
  assert (0 < 256 ^ (3 * chops n d)) by (apply Z.pow_pos_nonneg; lia).
  destruct (decide (chops n d = chops n e)) as [E|Hne].
  - unfold u1, u2. rewrite <- E. assert (v / 10 ^ (7 * chops n d) <= w / 10 ^ (7 * chops n d)) by (apply Z.div_le_mono; [apply Z.pow_pos_nonneg; lia|done]).
    apply Z.mul_le_mono_nonneg_r; [lia|]. unfold magnitude. destruct neg; lia.
  - specialize (Q3 ltac:(lia)). replace (3 * chops n e) with (3 * (chops n e - chops n d) + 3 * chops n d) by lia. rewrite Z.pow_add_r, Z.mul_assoc by lia.
    apply Z.mul_le_mono_nonneg_r; [lia|]. assert (256 ^ 3 <= 256 ^ (3 * (chops n e - chops n d))) as Hp by (apply Z.pow_le_mono_r; lia).
    assert (10 ^ (strlen + 3) = 10 ^ 7 * 10 ^ (strlen - 4)) as E7 by (rewrite <- Z.pow_add_r by lia; f_equal; lia).
    assert (10 ^ 8 <= 10 ^ (strlen - 4)) by (apply Z.pow_le_mono_r; lia).
    assert (u1 <= v / 10 ^ (7 * chops n d) /\ w / 10 ^ (7 * chops n e) - 1 <= u2) as [U1 U2] by (unfold u1, u2, magnitude; destruct neg; lia).
    assert (u1 <= u2 * 256 ^ 3) by lia. nia.
Qed.

End chops.

(** * The key that is computed *)

(** ** Without the sign octet of a positive number *)

Lemma sign_octet_cases neg : sign_octet neg = 0 \/ sign_octet neg = 0xff.
Proof. destruct neg; auto. Qed.

Lemma flip_involutive neg l : bytes_ok l -> flip (sign_octet neg) (flip (sign_octet neg) l) = l.
Proof. intros Hl. destruct neg; [by apply flip_flip|by rewrite !flip_0]. Qed.

Lemma length_flip neg l : length (flip neg l) = length l.
Proof. apply length_map. Qed.

Lemma flip_bytes neg l : bytes_ok l -> bytes_ok (flip (sign_octet neg) l).
Proof. intros Hl. apply flip_sign; [apply sign_octet_cases|done]. Qed.

Lemma lxor_octet neg b : byte_ok b -> byte_ok (Z.lxor b (sign_octet neg)) /\ Z.lxor (Z.lxor b (sign_octet neg)) (sign_octet neg) = b.
Proof.
  intros Hb. split; [|by rewrite Z.lxor_assoc, Z.lxor_nilpotent, Z.lxor_0_r]. destruct neg; cbn [sign_octet]; [|by rewrite Z.lxor_0_r].
  rewrite byte_lxor by done. unfold byte_ok in *. lia.
Qed.

Lemma strip_spec neg u f r (s := if swrap 8 f =? sign_octet neg then r else f :: r) :
  signed_octets (sign_octet neg) u (f :: r) -> be_val (flip (sign_octet neg) s) = u /\ shape neg u (Z.of_nat (length s)).
Proof.
  intros (Hok & _ & Hv & Hup & Hlow). pose proof (flip_bytes neg _ Hok) as Hf. pose proof Hok as Hbr. apply bytes_ok_cons in Hbr as [Hb Hr].
  pose proof (be_val_bound _ Hf) as Hbd. rewrite Hv, length_flip in Hbd. unfold s, shape.
  assert ((swrap 8 f =? sign_octet neg) = negb neg && (f =? 0)) as ->.
  { unfold swrap, byte_ok in *. destruct neg; cbn [sign_octet negb andb]; [apply Z.eqb_neq; pose proof (Z.mod_pos_bound (f + 2 ^ (8 - 1)) (2 ^ 8)); lia|].
    destruct (Z.ltb_spec f 128); [rewrite Z.mod_small by lia; f_equal; lia|].
    replace (f + 2 ^ (8 - 1)) with (f - 128 + 1 * 2 ^ 8) by lia. rewrite Z.mod_add, Z.mod_small by lia. rewrite !(proj2 (Z.eqb_neq _ _)) by lia. done. }
  destruct neg; cbn [negb andb sign_octet base cap] in *.
  - cbn [length] in *. split; [done|]. split_and!; [lia| |lia|].
    + destruct Hlow as [Hl|Hl]; [left; lia|]. destruct r as [|g r]; [by left|right]. split; [cbn; lia|].
      replace (Z.of_nat (S (length (g :: r))) - 1 - 1) with (Z.of_nat (S (length (g :: r))) - 2) by lia. done.
    + done.
  - rewrite flip_0 in *. rewrite be_val_cons in Hv. pose proof (be_val_bound _ Hr) as Hrb. assert (0 < 256 ^ Z.of_nat (length r)) as Hp by (apply Z.pow_pos_nonneg; lia).
    destruct (f =? 0) eqn:E; zb.
    + subst f. split; [lia|]. split_and!; [lia| |lia|lia]. cbn [length] in Hlow.
      destruct r as [|g r]; [by left|right]. destruct Hlow as [Hl|Hl]; [cbn in Hl; lia|]. split; [cbn; lia|].
      replace (Z.of_nat (S (length (g :: r))) - 2) with (Z.of_nat (length (g :: r)) - 1) in Hl by lia.
      assert (0 < 256 ^ (Z.of_nat (length (g :: r)) - 1)) by (apply Z.pow_pos_nonneg; cbn; lia). lia.
    + rewrite be_val_cons. split; [done|]. cbn [length] in *. split_and!; [lia| |lia|lia]. right. split; [lia|].
      replace (Z.of_nat (S (length r)) - 1) with (Z.of_nat (length r)) by lia. unfold byte_ok in Hb. nia.
Qed.

(** ** The exponent *)

Lemma mask_test j o : 1 <= j <= 4 -> byte_ok o -> (Z.land (Z.shiftr sign_mask (j + 1)) o =? 0) = (o <? 2 ^ (6 - j)).
Proof.
  intros Hj Ho. apply Bool.eqb_prop. assert (j = 1 \/ j = 2 \/ j = 3 \/ j = 4) as Hc by lia.
  destruct Hc as [-> | [-> | [-> | ->]]];
    match goal with |- Bool.eqb (Z.land ?m o =? 0) (o <? ?k) = true =>
      revert o Ho; apply (byte_check (fun o => Bool.eqb (Z.land m o =? 0) (o <? k))); by vm_compute end.
Qed.

Lemma exponent_step room lenp ch j neg :
  1 <= j <= 4 -> 0 <= ch ->
  exponent_octets (S room) lenp ch (Z.shiftr sign_mask (j - 1)) (sign_octet neg) =
  let o := Z.lxor (ch mod 256) (sign_octet neg) in
  if ch <? 2 ^ (6 - j) then Some (o :: lenp, Z.shiftr sign_mask j)
  else exponent_octets room (o :: lenp) (ch / 256) (Z.shiftr sign_mask j) (sign_octet neg).
Proof.
  intros Hj Hch. cbn [exponent_octets]. cbv zeta. change 0xff with 255. rewrite land_255, !Z.shiftr_shiftr by lia.
  replace (j - 1 + (1 + 1)) with (j + 1) by lia. replace (j - 1 + 1) with j by lia. rewrite (Z.shiftr_div_pow2 ch) by lia. change (2 ^ 8) with 256.
  rewrite Z.lxor_assoc, Z.lxor_nilpotent, Z.lxor_0_r. rewrite mask_test by (try lia; apply byte_ok_mod).
  assert (2 ^ (6 - j) <= 2 ^ 5) by (apply Z.pow_le_mono_r; lia). pose proof (Z.div_mod ch 256 ltac:(lia)). pose proof (Z.mod_pos_bound ch 256 ltac:(lia)).
  destruct (ch <? 2 ^ (6 - j)) eqn:E; zb.
  - rewrite Z.div_small, Z.mod_small, (proj2 (Z.ltb_lt ch _)) by lia. done.
  - destruct (ch / 256 =? 0) eqn:E0; [|done]. zb. rewrite E0 in *. rewrite (proj2 (Z.ltb_ge (ch mod 256) _)) by lia. done.
Qed.

Lemma exponent_spec neg e : 0 <= e < 2 ^ 26 ->
  exists lenp m, exponent_octets 10 [] e sign_mask (sign_octet neg) = Some (lenp, m) /\ Z.of_nat (length lenp) = exp_len e /\
    bytes_ok lenp /\ be_val (flip (sign_octet neg) lenp) = e /\ Z.land m 0xff = exp_mask (exp_len e).
Proof.
  intros He. unfold exp_len. change sign_mask with (Z.shiftr sign_mask (1 - 1)) at 1. rewrite exponent_step by lia. cbv zeta. change (2 ^ (6 - 1)) with (2 ^ 5).
  assert (forall x, byte_ok (Z.lxor (x mod 256) (sign_octet neg))) as Hok by (intros; apply lxor_octet, byte_ok_mod).
  assert (forall x, Z.lxor (Z.lxor (x mod 256) (sign_octet neg)) (sign_octet neg) = x mod 256) as Hx by (intros; apply lxor_octet, byte_ok_mod).
  pose proof (Z.div_mod e 256 ltac:(lia)). pose proof (Z.mod_pos_bound e 256 ltac:(lia)). assert (0 <= e / 256) by (apply Z.div_pos; lia).
  destruct (e <? 2 ^ 5) eqn:E1; zb.
  { eexists _, _. split; [done|]. split; [done|]. split; [repeat (apply bytes_ok_cons; split; [by apply Hok|]); constructor|]. split; [|by vm_compute].
    cbn [flip map]. rewrite Hx, be_val_one. apply Z.mod_small. lia. }
  change (Z.shiftr sign_mask 1) with (Z.shiftr sign_mask (2 - 1)). rewrite exponent_step by lia. cbv zeta. change (2 ^ (6 - 2)) with 16.
  pose proof (Z.div_mod (e / 256) 256 ltac:(lia)). pose proof (Z.mod_pos_bound (e / 256) 256 ltac:(lia)). assert (0 <= e / 256 / 256) by (apply Z.div_pos; lia).
  assert ((e / 256 <? 16) = (e <? 2 ^ 12)) as -> by (destruct (e <? 2 ^ 12) eqn:E; zb; [apply Z.ltb_lt|apply Z.ltb_ge]; lia).
  destruct (e <? 2 ^ 12) eqn:E2; zb.
  { eexists _, _. split; [done|]. split; [done|]. split; [repeat (apply bytes_ok_cons; split; [by apply Hok|]); constructor|]. split; [|by vm_compute].
    cbn [flip map]. rewrite !Hx, be_val_cons, be_val_one. cbn [length]. lia. }
  change (Z.shiftr sign_mask 2) with (Z.shiftr sign_mask (3 - 1)). rewrite exponent_step by lia. cbv zeta. change (2 ^ (6 - 3)) with 8.
  pose proof (Z.div_mod (e / 256 / 256) 256 ltac:(lia)). pose proof (Z.mod_pos_bound (e / 256 / 256) 256 ltac:(lia)). assert (0 <= e / 256 / 256 / 256) by (apply Z.div_pos; lia).
  assert ((e / 256 / 256 <? 8) = (e <? 2 ^ 19)) as -> by (destruct (e <? 2 ^ 19) eqn:E; zb; [apply Z.ltb_lt|apply Z.ltb_ge]; lia).
  destruct (e <? 2 ^ 19) eqn:E3; zb.
  { eexists _, _. split; [done|]. split; [done|]. split; [repeat (apply bytes_ok_cons; split; [by apply Hok|]); constructor|]. split; [|by vm_compute].
    cbn [flip map]. rewrite !Hx, be_val_cons, be_val_cons, be_val_one. cbn [length]. lia. }
  change (Z.shiftr sign_mask 3) with (Z.shiftr sign_mask (4 - 1)). rewrite exponent_step by lia. cbv zeta. change (2 ^ (6 - 4)) with 4.
  rewrite (proj2 (Z.ltb_lt (e / 256 / 256 / 256) 4)) by lia.
  eexists _, _. split; [done|]. split; [done|]. split; [repeat (apply bytes_ok_cons; split; [by apply Hok|]); constructor|]. split; [|by vm_compute].
  cbn [flip map]. rewrite !Hx, be_val_cons, be_val_cons, be_val_cons, be_val_one. cbn [length]. rewrite (Z.mod_small (e / 256 / 256 / 256)) by lia. lia.
Qed.

(** ** Putting the key together *)

Lemma two_writes (key a d : list Z) : length key = (length a + length d)%nat ->
  exists key1, mem_write key 0 a = Some key1 /\ mem_write key1 (length a) d = Some (a ++ d).
Proof.
  intros Hl. exists (a ++ drop (length a) key). split.
  - pose proof (mem_write_app [] (take (length a) key) (drop (length a) key) a 0 eq_refl) as E. cbn [app] in E. rewrite take_drop in E.
    apply E. rewrite length_take. lia.
  - pose proof (mem_write_app a (drop (length a) key) [] d (length a) eq_refl) as E. rewrite !app_nil_r in E. apply E. rewrite length_drop. lia.
Qed.

Lemma read_front (s rest : list Z) j : (j <= length s)%nat -> mem_read (s ++ rest) 0 j = Some (take j s).
Proof.
  intros Hj. pose proof (mem_read_app [] (take j s) (drop j s ++ rest) 0 j eq_refl) as E. cbn [app] in E. rewrite app_assoc, take_drop in E.
  apply E. rewrite length_take. lia.
Qed.

Lemma be_val_take l j : bytes_ok l -> (j <= length l)%nat -> be_val (take j l) = be_val l / 256 ^ Z.of_nat (length l - j).
Proof.
  intros Hl Hj. rewrite (be_val_split l j). pose proof (be_val_bound _ (bytes_ok_drop j l Hl)) as Hd. rewrite length_drop in Hd.
  assert (0 < 256 ^ Z.of_nat (length l - j)) by (apply Z.pow_pos_nonneg; lia).
  rewrite Z.div_add_l, Z.div_small by lia. lia.
Qed.

Lemma mask_added j h : 0 <= j <= 4 -> 0 <= h < 2 ^ (6 - j) -> Z.lxor h (exp_mask j) = h + exp_mask j.
Proof.
  intros Hj Hh. assert (2 ^ (6 - j) <= 2 ^ 6) by (apply Z.pow_le_mono_r; lia).
  assert (byte_ok h) as Hb by (unfold byte_ok; lia).
  assert (implb (h <? 2 ^ (6 - j)) (Z.lxor h (exp_mask j) =? h + exp_mask j) = true) as Hc.
  { assert (j = 0 \/ j = 1 \/ j = 2 \/ j = 3 \/ j = 4) as Hc by lia. clear Hh H.
    destruct Hc as [-> | [-> | [-> | [-> | ->]]]];
      match goal with |- implb (h <? ?k) (Z.lxor h ?m =? h + ?m) = true =>
        revert h Hb; apply (byte_check (fun h => implb (h <? k) (Z.lxor h m =? h + m))); by vm_compute end. }
  rewrite (proj2 (Z.ltb_lt h _)) in Hc by lia. by apply Z.eqb_eq in Hc.
Qed.

Lemma mask_byte j : 0 <= j <= 4 -> byte_ok (exp_mask j).
Proof.
  intros Hj. unfold exp_mask, byte_ok. assert (2 ^ (7 - j) <= 2 ^ 7) by (apply Z.pow_le_mono_r; lia).
  assert (0 < 2 ^ (7 - j)) by (apply Z.pow_pos_nonneg; lia). lia.
Qed.

Lemma head_inverted neg K j : 0 <= j <= 4 -> bytes_ok K -> K <> [] ->
  be_val (flip (sign_octet neg) K) < 2 ^ (6 - j) * 256 ^ Z.of_nat (length K - 1) ->
  exists b key', arr_get K 0 = Some b /\ arr_set K 0 (Z.lxor b (exp_mask j)) = Some key' /\ length key' = length K /\ bytes_ok key' /\
    be_val (flip (sign_octet neg) key') = exp_mask j * 256 ^ Z.of_nat (length K - 1) + be_val (flip (sign_octet neg) K).
Proof.
  intros Hj HK Hne Hlt. destruct K as [|b r]; [done|]. apply bytes_ok_cons in HK as [Hb Hr]. exists b, (Z.lxor b (exp_mask j) :: r).
  split; [done|]. split; [apply arr_set_0|]. split; [done|]. cbn [length] in *. rewrite Nat.sub_succ, Nat.sub_0_r in *.
  cbn [flip map] in *. fold (flip (sign_octet neg) r) in *. rewrite !be_val_cons, !length_flip in *.
  destruct (lxor_octet neg b Hb) as [Ho Hi]. pose proof (be_val_bound _ (flip_bytes neg r Hr)) as Hrb. unfold byte_ok in Ho.
  assert (0 < 256 ^ Z.of_nat (length r)) by (apply Z.pow_pos_nonneg; lia).
  assert (Z.lxor b (sign_octet neg) < 2 ^ (6 - j)) as Hh by nia.
  assert (Z.lxor (Z.lxor b (exp_mask j)) (sign_octet neg) = Z.lxor b (sign_octet neg) + exp_mask j) as E.
  { rewrite <- mask_added by lia. rewrite !Z.lxor_assoc. f_equal. apply Z.lxor_comm. }
  rewrite E. split; [|lia]. apply bytes_ok_cons. split; [|done].
  assert (Z.lxor b (exp_mask j) = Z.lxor (Z.lxor b (sign_octet neg) + exp_mask j) (sign_octet neg)) as ->
    by (rewrite <- E, !Z.lxor_assoc, Z.lxor_nilpotent, Z.lxor_0_r; done).
  apply lxor_octet. pose proof (mask_byte j Hj) as Hm. unfold byte_ok, exp_mask in *.
  assert (2 ^ (7 - j) = 2 * 2 ^ (6 - j)) by (rewrite <- Z.pow_succ_r by lia; f_equal; lia). lia.
Qed.

(** ** Which text is converted *)

Lemma decimal_digits pin : decimal pin -> digits (digits_value 10 0 pin) (Z.of_nat (length pin)).
Proof.
  intros [Hd Hl]. destruct pin as [|c pin]; [done|]. destruct (ascii_dec c "0") as [->|Hc].
  - left. rewrite (Hl eq_refl). done.
  - right. split; [cbn; lia|]. pose proof (digits_value_bound 10 (c :: pin) ltac:(lia)).
    pose proof (leading_digit_low c pin Hd Hl ltac:(by right)). replace (Z.of_nat (length (c :: pin)) - 1) with (Z.of_nat (length pin)) by (cbn [length]; lia). lia.
Qed.

Section key.
  Context (n : Z) (Hn : 4 <= n <= 255).

Lemma first_char neg pin : decimal pin -> Ascii.eqb (char_at (sign_text neg ++ pin) 0) "-" = neg.
Proof.
  intros [Hd Hl]. destruct neg; [done|]. destruct pin as [|c pin]; [done|]. cbn. apply (digit_first c pin Hd).
Qed.

Lemma chop_code neg pin (d := Z.of_nat (length pin)) : decimal pin ->
  (let m := Z.of_nat (length (sign_text neg ++ pin)) in
   let '(_, k) := if negb (Ascii.eqb (char_at (sign_text neg ++ pin) 0) "-") then (0, index_intlen_strlen n - 1) else (0xff, index_intlen_strlen n) in
   if m >? k then (m - k + 2) / INDEX_INTLEN_CHOP else 0) = chops n d.
Proof using Type.
  intros Hp. cbv zeta. rewrite first_char by done. unfold chops, index_intlen_strlen, INDEX_INTLEN_CHOP. cbv zeta. fold d.
  rewrite length_app. destruct neg; cbn [negb sign_text length]; rewrite Nat2Z.inj_add; fold d.
  - set (s := SLAP_INDEX_INTLEN_STRLEN n). assert ((Z.of_nat 1 + d >? s) = (d >? s - 1)) as -> by (rewrite !Z.gtb_ltb; apply Bool.eq_iff_eq_true; rewrite !Z.ltb_lt; lia).
    destruct (d >? s - 1); [|done]. f_equal. lia.
  - rewrite Z.add_0_l. done.
Qed.

Lemma kept_text neg pin (d := Z.of_nat (length pin)) (c := chops n d) : decimal pin ->
  let kept := take (Z.to_nat (d - 7 * c)) pin in
  take (Z.to_nat (Z.of_nat (length (sign_text neg ++ pin)) - c * INDEX_INTLEN_CHOP)) (sign_text neg ++ pin) = sign_text neg ++ kept /\
  decimal kept /\ digits_value 10 0 kept = digits_value 10 0 pin / 10 ^ (7 * c).
Proof using Hn.
  intros [Hd Hl] kept. assert (0 < d) as Hd0 by (unfold d; destruct pin; [done|cbn; lia]).
  destruct (chops_spec n Hn d Hd0) as (H1 & H2 & H3 & H4). fold c in H1, H2, H3, H4.
  assert (length kept = Z.to_nat (d - 7 * c)) as Lk by (unfold kept; rewrite length_take; lia).
  split_and!.
  - rewrite length_app, Nat2Z.inj_add. fold d. unfold INDEX_INTLEN_CHOP.
    replace (Z.to_nat (Z.of_nat (length (sign_text neg)) + d - c * 7)) with (length (sign_text neg) + Z.to_nat (d - 7 * c))%nat by lia.
    apply take_app_add.
  - split.
    + rewrite <- (take_drop (Z.to_nat (d - 7 * c)) pin), all_digits_app in Hd. by apply andb_true_iff in Hd as [? _].
    + unfold kept in *. destruct pin as [|x pin]; [done|]. destruct (Z.to_nat (d - 7 * c)) as [|j] eqn:Ej; [lia|]. cbn [take leading_digit] in *.
      intros Hx. specialize (Hl Hx). subst pin. by destruct j.
  - rewrite <- (take_drop (Z.to_nat (d - 7 * c)) pin) at 1. fold kept. rewrite digits_value_app, (digits_value_shift 10 (digits_value 10 0 kept)), length_drop.
    replace (Z.of_nat (length pin - Z.to_nat (d - 7 * c))) with (7 * c) by lia.
    pose proof (digits_value_bound 10 (drop (Z.to_nat (d - 7 * c)) pin) ltac:(lia)) as Hb. rewrite length_drop in Hb.
    replace (Z.of_nat (length pin - Z.to_nat (d - 7 * c))) with (7 * c) in Hb by lia.
    rewrite Z.div_add_l, Z.div_small by lia. lia.
Qed.

(** The number of a key of a negative number is the complement. *)
Lemma flipped_value neg l v : bytes_ok l -> be_val (flip (sign_octet neg) l) = v ->
  be_val l = if neg then 256 ^ Z.of_nat (length l) - 1 - v else v.
Proof using Type.
  intros Hl Hv. destruct neg; cbn [sign_octet] in Hv; [|by rewrite flip_0 in Hv]. rewrite (proj2 (flip_ok _ Hl)) in Hv. lia.
Qed.

(** The end of it: the key is written in two pieces and its head inverted. *)
Lemma pieces_inverted neg (a d key : list Z) j :
  length key = (length a + length d)%nat -> Z.of_nat (length key) = n -> 0 <= j <= 4 -> bytes_ok (a ++ d) ->
  be_val (flip (sign_octet neg) (a ++ d)) < 2 ^ (6 - j) * 256 ^ (n - 1) ->
  exists key1 key', mem_write key 0 a = Some key1 /\
    (key2 ← mem_write key1 (length a) d; b ← arr_get key2 0; arr_set key2 0 (Z.lxor b (exp_mask j))) = Some key' /\
    length key' = length key /\ bytes_ok key' /\
    be_val (flip (sign_octet neg) key') = exp_mask j * 256 ^ (n - 1) + be_val (flip (sign_octet neg) (a ++ d)).
Proof using Hn.
  intros Hl Hk Hj Hok Hlt. destruct (two_writes key a d Hl) as (key1 & E1 & E2). exists key1.
  assert (length (a ++ d) = length key) as Lad by (rewrite length_app; lia).
  assert (Z.of_nat (length (a ++ d) - 1) = n - 1) as En by lia.
  destruct (head_inverted neg (a ++ d) j Hj Hok) as (b & key' & H1 & H2 & H3 & H4 & H5).
  - intros H. rewrite H in Lad. cbn in Lad. lia.
  - by rewrite En.
  - exists key'. rewrite En in H5. split_and!; try done; [|congruence]. rewrite E2. cbn [mbind option_bind]. rewrite H1. cbn [mbind option_bind]. done.
Qed.

(** The test of the two highest bits. *)
Lemma head_small neg f s u : bytes_ok (f :: s) -> be_val (flip (sign_octet neg) (f :: s)) = u ->
  (Z.land (Z.lxor f (sign_octet neg)) 0xc0 =? 0) = (u <? 64 * 256 ^ (Z.of_nat (length (f :: s)) - 1)).
Proof using Type.
  intros Hs Hu. apply bytes_ok_cons in Hs as [Hf Hs]. destruct (lxor_octet neg f Hf) as [Hh _].
  change (flip (sign_octet neg) (f :: s)) with (Z.lxor f (sign_octet neg) :: flip (sign_octet neg) s) in Hu. rewrite be_val_cons, length_flip in Hu.
  pose proof (be_val_bound _ (flip_bytes neg s Hs)) as Hr. rewrite length_flip in Hr.
  assert ((Z.land (Z.lxor f (sign_octet neg)) 0xc0 =? 0) = (Z.lxor f (sign_octet neg) <? 64)) as ->.
  { apply Bool.eqb_prop. apply (byte_check (fun h => Bool.eqb (Z.land h 0xc0 =? 0) (h <? 64))); [by vm_compute|done]. }
  replace (Z.of_nat (length (f :: s)) - 1) with (Z.of_nat (length s)) by (cbn [length]; lia). unfold byte_ok in Hh.
  destruct (_ <? 64) eqn:E; zb; symmetry; [apply Z.ltb_lt|apply Z.ltb_ge]; nia.
Qed.

(** The exponent and the highest octets. *)
Lemma big_key neg c s rest key u (b := Z.of_nat (length s)) :
  bytes_ok s -> be_val (flip (sign_octet neg) s) = u -> keyed n neg u b c -> Z.of_nat (length key) = n -> 2 ^ (8 * n - 2) <= u * 256 ^ c -> n <= b + c ->
  exists key',
    ('(key, k, len, signmask) ←
       ('(lenp, signmask) ← exponent_octets 10 [] (u64 (- (n - (b + c)))) sign_mask (sign_octet neg);
        let k := Z.of_nat (length lenp) in
        let k := if k >? n then n else k in
        key ← mem_write key 0 (take (Z.to_nat k) lenp);
        Some (key, k, n - k, signmask));
     d ← mem_read (s ++ rest) 0 (Z.to_nat len);
     key ← mem_write key (Z.to_nat k) d;
     b ← arr_get key 0;
     arr_set key 0 (Z.lxor b (Z.land signmask 0xff))) = Some key' /\ length key' = length key /\ bytes_ok key' /\
    be_val (flip (sign_octet neg) key') = big_number n u b c.
Proof using Hn.
  intros Hs Hu Hk Hkey Hbig Hge. pose proof Hk as (Hsh & Hc & He & _ & Hlarge). specialize (Hlarge Hbig).
  pose proof (big_bounds n ltac:(lia) neg u b c Hk Hbig) as [_ Hup]. unfold big_number in *. cbv zeta in *.
  replace (u64 (- (n - (b + c)))) with (b + c - n) by (rewrite uwrap_small; lia). set (e := b + c - n) in *.
  destruct (exponent_spec neg e ltac:(lia)) as (lenp & m & -> & Lm & Ol & Vl & Hm). cbn [mbind option_bind].
  pose proof (exp_len_range e) as Hr. rewrite Lm. assert ((exp_len e >? n) = false) as -> by (rewrite Z.gtb_ltb; apply Z.ltb_ge; lia).
  rewrite (firstn_all2 lenp) by lia. set (d := take (Z.to_nat (n - exp_len e)) s).
  assert (length d = Z.to_nat (n - exp_len e)) as Ld by (unfold d; rewrite length_take; lia).
  assert (be_val (flip (sign_octet neg) (lenp ++ d)) = e * 256 ^ (n - exp_len e) + u / 256 ^ (b + exp_len e - n)) as Vk.
  { unfold flip at 1. rewrite map_app. change (be_val (flip (sign_octet neg) lenp ++ flip (sign_octet neg) d) = e * 256 ^ (n - exp_len e) + u / 256 ^ (b + exp_len e - n)).
    rewrite be_val_app, Vl, length_flip, Ld, Z2Nat.id by lia. f_equal. unfold d, flip. rewrite <- firstn_map.
    change (map (fun b => Z.lxor b (sign_octet neg)) s) with (flip (sign_octet neg) s).
    rewrite be_val_take, Hu, length_flip by (rewrite ?length_flip; by apply flip_bytes || lia). do 2 f_equal. lia. }
  assert (exp_mask (exp_len e + 1) = exp_mask (exp_len e) + 2 ^ (6 - exp_len e)) as Hnext.
  { unfold exp_mask. replace (7 - (exp_len e + 1)) with (6 - exp_len e) by lia. replace (7 - exp_len e) with (Z.succ (6 - exp_len e)) by lia. rewrite Z.pow_succ_r by lia. lia. }
  destruct (pieces_inverted neg lenp d key (exp_len e)) as (key1 & key' & E1 & E2 & L & O & V); [lia|done|lia|apply bytes_ok_app; split; [done|by apply bytes_ok_take]|rewrite Vk; lia|].
  exists key'. rewrite E1. cbn [mbind option_bind]. rewrite read_front by lia. cbn [mbind option_bind]. fold d. rewrite Hm.
  replace (Z.to_nat (exp_len e)) with (length lenp) by lia. split_and!; [exact E2|done|done|]. rewrite V, Vk. lia.
Qed.

Lemma place_octets_spec neg c s rest key u :
  bytes_ok s -> be_val (flip (sign_octet neg) s) = u -> keyed n neg u (Z.of_nat (length s)) c -> Z.of_nat (length key) = n ->
  exists key', place_octets n (sign_octet neg) c (s ++ rest) key (Z.of_nat (length s)) = Some key' /\ length key' = length key /\ bytes_ok key' /\
    be_val (flip (sign_octet neg) key') = key_number n u (Z.of_nat (length s)) c.
Proof using Hn.
  intros Hs Hu Hkeyed Hkey. pose proof Hkeyed as (Hsh & Hc & He & Hsmall & Hlarge). set (b := Z.of_nat (length s)) in *.
  assert (Hu0 : 0 <= u < 256 ^ b) by (pose proof (be_val_bound _ (flip_bytes neg s Hs)) as Hb; rewrite Hu, length_flip in Hb; done).
  assert (Hp1 : 0 < 256 ^ (n - 1)) by (apply Z.pow_pos_nonneg; lia).
  assert (E6 : 2 ^ (8 * n - 2) = 64 * 256 ^ (n - 1)) by (rewrite (pow2_256 (n - 1)) by lia; change 64 with (2 ^ 6); rewrite <- Z.pow_add_r by lia; f_equal; lia).
  assert (E7 : 2 ^ (8 * n - 1) = exp_mask 0 * 256 ^ (n - 1)) by (change (exp_mask 0) with (2 ^ 7); rewrite (pow2_256 (n - 1)) by lia; rewrite <- Z.pow_add_r by lia; f_equal; lia).
  assert (Hmask : Z.land sign_mask 0xff = exp_mask 0) by (by vm_compute).
  unfold place_octets, key_number. cbv zeta.
  destruct (n - (b + c) >? 0) eqn:Ek; zb.
  - assert (u * 256 ^ c < 2 ^ (8 * n - 2)) as Hlt.
    { assert (u * 256 ^ c < 256 ^ b * 256 ^ c) as Hx by (apply Z.mul_lt_mono_pos_r; [apply Z.pow_pos_nonneg; lia|lia]). rewrite <- Z.pow_add_r in Hx by (unfold b; lia).
      assert (256 ^ (b + c) <= 256 ^ (n - 1)) by (apply Z.pow_le_mono_r; lia). lia. }
    pose proof (Hsmall Hlt) as E0. subst c. cbn [negb Z.eqb]. rewrite (proj2 (Z.ltb_lt _ (2 ^ (8 * n - 2)))) by done. rewrite Z.mul_1_r in Hlt.
    set (k := n - (b + 0)) in *. assert (flip (sign_octet neg) (replicate (Z.to_nat k) (sign_octet neg) ++ s) = replicate (Z.to_nat k) 0 ++ flip (sign_octet neg) s) as Ef.
    { unfold flip. rewrite map_app. f_equal. rewrite (fmap_replicate (fun b => Z.lxor b (sign_octet neg))). by rewrite Z.lxor_nilpotent. }
    destruct (pieces_inverted neg (replicate (Z.to_nat k) (sign_octet neg)) s key 0) as (key1 & key' & E1 & E2 & L & O & V).
    + rewrite length_replicate. lia.
    + done.
    + lia.
    + apply bytes_ok_app. split; [|done]. apply Forall_replicate. destruct neg; unfold byte_ok; cbn; lia.
    + rewrite Ef, be_val_app, be_val_zeros, Hu. change (2 ^ (6 - 0)) with 64. lia.
    + exists key'. rewrite E1. cbn [mbind option_bind]. rewrite read_front, firstn_all2 by (unfold b; lia). cbn [mbind option_bind].
      rewrite length_replicate in E2. rewrite Hmask, E2. split_and!; [done|done|done|]. rewrite V, Ef, be_val_app, be_val_zeros, Hu. lia.
  - destruct (n - (b + c) =? 0) eqn:E0; zb; cbn [negb].
    + assert (c = 0) as -> by (destruct (decide (u * 256 ^ c < 2 ^ (8 * n - 2))); [auto|specialize (Hlarge ltac:(lia)); lia]).
      assert (exists f s', s = f :: s') as (f & s' & Es) by (destruct s; [unfold b in *; cbn in *; lia|eauto]).
      replace (arr_get (s ++ rest) 0) with (Some f) by (by rewrite Es). cbn [mbind option_bind].
      rewrite Z.mul_1_r. rewrite (head_small neg f s' u) by (by rewrite <- Es). rewrite <- Es. fold b. replace (b - 1) with (n - 1) by lia. rewrite <- E6.
      destruct (u <? _) eqn:Eu; zb; cbn [negb].
      * destruct (pieces_inverted neg [] s key 0) as (key1 & key' & E1 & E2 & L & O & V); cbn [app]; [cbn [length]; lia|done|lia|done|rewrite Hu; change (2 ^ (6 - 0)) with 64; lia|].
        assert (key1 = key) as -> by (unfold mem_write in E1; rewrite decide_True in E1 by (cbn; lia); injection E1 as <-; by rewrite ?drop_0).
        exists key'. cbn [mbind option_bind]. rewrite read_front, firstn_all2 by (unfold b; lia). cbn [mbind option_bind]. rewrite E0, Hmask.
        split_and!; [done|done|done|]. cbn [app] in V. rewrite V, Hu. lia.
      * destruct (big_key neg 0 s rest key u) as (key' & E1 & L & O & V); [done|done|done|done|rewrite Z.mul_1_r; done|fold b; lia|].
        exists key'. fold b in E1, V. cbv zeta in E1. cbn [mbind option_bind]. split; [exact E1|done].
    + assert (2 ^ (8 * n - 2) <= u * 256 ^ c) as Hbig.
      { apply Z.nlt_ge. intros Hlt. specialize (Hsmall Hlt). subst c. destruct Hsh as (_ & [B1|[B1 B2]] & _); [unfold base in B1; destruct neg; lia|].
        pose proof (cap_mono neg n (b - 1) ltac:(unfold base; destruct neg; lia)) as Hcm. unfold cap at 1 in Hcm. assert (256 ^ n = 256 * 256 ^ (n - 1)) by (rewrite <- Z.pow_succ_r by lia; f_equal; lia). destruct neg; lia. }
      rewrite (proj2 (Z.ltb_ge _ _)) by done. cbn [mbind option_bind].
      destruct (big_key neg c s rest key u) as (key' & E1 & L & O & V); [done|done|done|done|done|fold b; lia|].
      exists key'. fold b in E1, V. cbv zeta in E1. cbn [mbind option_bind]. split; [exact E1|done].
Qed.

(** The whole of it. *)
Lemma val2key_spec neg pin key tmp (v := digits_value 10 0 pin) (d := Z.of_nat (length pin)) (c := chops n d)
  (u := magnitude neg (v / 10 ^ (7 * c))) :
  decimal pin -> (neg = true -> 0 < v) -> d < 2 ^ 27 -> Z.of_nat (length key) = n -> bytes_ok tmp ->
  (length (sign_text neg ++ take (Z.to_nat (d - 7 * c)) pin) <= length tmp)%nat -> Z.of_nat (length tmp) < 2 ^ 31 ->
  exists key' tmp' b, integerVal2Key n (sign_text neg ++ pin) key tmp = Some (LDAP_SUCCESS, key', tmp') /\ shape neg u b /\
    length key' = length key /\ bytes_ok key' /\ length tmp' = length tmp /\ bytes_ok tmp' /\
    be_val key' = (if neg then 256 ^ n - 1 - key_number n u b (3 * c) else key_number n u b (3 * c)).
Proof using Hn.
  intros Hp Hneg Hbig Hkey Htmp Hfit Htl. destruct (kept_text neg pin Hp) as (Et & Hk & Hv). fold d c in Et, Hk, Hv. fold v in Hv.
  set (kept := take (Z.to_nat (d - 7 * c)) pin) in *.
  assert (digits v d) as Hdig by (by apply decimal_digits).
  assert (neg = true -> 0 < digits_value 10 0 kept) as Hneg'.
  { intros E. rewrite Hv. destruct (kept_bounds n Hn v d Hdig) as (_ & Hl & _). specialize (Hl (Hneg E)).
    destruct (chops_spec n Hn d) as (? & ? & _); [apply (digits_nonneg v d Hdig)|].
    assert (0 < 10 ^ (d - 7 * chops n d - 1)) by (apply Z.pow_pos_nonneg; lia). unfold c. lia. }
  destruct (str2bin_decimal neg kept tmp Htmp Hk Hneg' Hfit Htl) as (buf' & m & Es & L & Lm & O & Hso). rewrite Hv in Hso. fold u in Hso.
  unfold integerVal2Key. rewrite first_char by done. pose proof (chop_code neg pin Hp) as Hc. cbv zeta in Hc. rewrite first_char in Hc by done. fold d c in Hc.
  set (k0 := if neg then index_intlen_strlen n else index_intlen_strlen n - 1).
  replace (if negb neg then (0, index_intlen_strlen n - 1) else (255, index_intlen_strlen n)) with (sign_octet neg, k0) by (unfold k0; by destruct neg).
  replace (if negb neg then (0, index_intlen_strlen n - 1) else (255, index_intlen_strlen n)) with (sign_octet neg, k0) in Hc by (unfold k0; by destruct neg).
  rewrite Hc, Et, Es. cbn [mbind option_bind negb Z.eqb].
  destruct (take m buf') as [|f r] eqn:Er; [by destruct Hso as (_ & ? & _)|].
  assert (buf' = (f :: r) ++ drop m buf') as Eb by (by rewrite <- Er, take_drop).
  assert (length (f :: r) = m) as Lr by (rewrite <- Er, length_take; lia).
  destruct (strip_spec neg u f r Hso) as [Su Sh]. set (s := if swrap 8 f =? sign_octet neg then r else f :: r) in *.
  assert (arr_get buf' 0 = Some f) as -> by (by rewrite Eb). cbn [mbind option_bind].
  assert ((if swrap 8 f =? sign_octet neg then (drop 1 buf', Z.of_nat m - 1) else (buf', Z.of_nat m)) = (s ++ drop m buf', Z.of_nat (length s))) as ->.
  { unfold s. destruct (swrap 8 f =? _); rewrite Eb at 1; cbn [app drop]; f_equal; cbn [length] in Lr; cbn [length]; lia. }
  assert (bytes_ok s) as Hs.
  { destruct Hso as (Hok & _). unfold s. destruct (swrap 8 f =? _); [by apply bytes_ok_cons in Hok as [_ ?]|done]. }
  pose proof (chop_keyed n Hn neg v d _ Hdig Hbig Hneg Sh) as Hkd.
  destruct (place_octets_spec neg (3 * c) s (drop m buf') key u Hs Su Hkd Hkey) as (key' & Ep & Lk & Ok & Vk).
  replace (c * INDEX_INTLEN_CHOPBYTES) with (3 * c) by (unfold INDEX_INTLEN_CHOPBYTES; lia). rewrite Ep. cbn [mbind option_bind].
  exists key', buf', (Z.of_nat (length s)). split_and!; try done. rewrite (flipped_value neg key' _ Ok Vk), Lk, Hkey. done.
Qed.

End key.
