(* ===== verification/IntegersTheorems.v ===== *)
(** * Integers

    The syntax admits the decimal numbers without needless zeros, matching compares
    the numbers, and the keys of the index are in the order of the numbers. *)

From Stdlib Require Import Ascii String.
From S2P Require Import Prelude Text Digits Attr StrBin StrBinFacts Integers IntegersFacts.

Local Open Scope Z_scope.
Local Abbreviation length := List.length.

(** ** Validation *)

Definition int_value (t : text) : Z :=
  match t with
  | c :: r => if Ascii.eqb c "-" then - digits_value 10 0 r else digits_value 10 0 t
  | [] => 0
  end.

(** A number in the form of the syntax. *)
Definition integer_text (neg : bool) (pin : text) : Prop := decimal pin /\ (neg = true -> 0 < digits_value 10 0 pin).

Lemma is_digit_in c : is_digit c = bool_decide (is_Some (digit_in 10 c)).
Proof.
  apply Bool.eqb_prop. revert c. apply (ascii_table (fun c => Bool.eqb (is_digit c) (bool_decide (is_Some (digit_in 10 c))))). by vm_compute.
Qed.

Lemma forallb_digits t : forallb is_digit t = all_digits 10 t.
Proof. induction t as [|c t IH]; [done|]. cbn. by rewrite IH, is_digit_in. Qed.

Lemma decimal_positive c r : all_digits 10 (c :: r) = true -> leading_digit (c :: r) -> (0 < digits_value 10 0 (c :: r) <-> c <> "0"%char).
Proof.
  intros Hd Hl. split.
  - intros Hv ->. rewrite (Hl eq_refl) in Hv. done.
  - intros Hc. pose proof (leading_digit_low c r Hd Hl ltac:(by right)). assert (0 < 10 ^ Z.of_nat (length r)) by (apply Z.pow_pos_nonneg; lia). lia.
Qed.

Lemma int_value_text neg pin : decimal pin -> int_value (sign_text neg ++ pin) = if neg then - digits_value 10 0 pin else digits_value 10 0 pin.
Proof. intros [Hd Hl]. destruct neg; [done|]. destruct pin as [|c pin]; [done|]. cbn. by rewrite (proj1 (digit_first c pin Hd)). Qed.

Lemma validate_spec t : integerValidate t = LDAP_SUCCESS <-> exists neg pin, t = sign_text neg ++ pin /\ integer_text neg pin.
Proof.
  split.
  - intros H. unfold integerValidate in H. destruct t as [|c r]; [done|]. destruct (Ascii.eqb_spec c "-") as [->|Hm].
    + destruct r as [|d r]; [done|]. destruct (Ascii.eqb_spec d "0") as [->|Hz]; [done|]. rewrite forallb_digits in H.
      destruct (all_digits 10 (d :: r)) eqn:E; [|done]. assert (leading_digit (d :: r)) as Hl by (intros ?; done).
      exists true, (d :: r). split; [done|]. split; [done|]. intros _. by apply decimal_positive.
    + destruct (Ascii.eqb_spec c "0") as [->|Hz].
      * destruct r; [|done]. exists false, ["0"%char]. split; [done|]. split; [|done]. split; [done|]. by intros _.
      * rewrite forallb_digits in H. destruct (all_digits 10 (c :: r)) eqn:E; [|done]. exists false, (c :: r). split; [done|].
        split; [|done]. split; [done|]. intros ?. done.
  - intros (neg & pin & -> & [Hd Hl] & Hneg). destruct pin as [|c pin]; [done|]. unfold integerValidate. destruct neg; cbn [sign_text app].
    + change (Ascii.eqb "-" "-") with true. cbn [andb]. destruct (Ascii.eqb_spec c "0") as [->|]; [|by rewrite forallb_digits, Hd].
      by apply (decimal_positive _ _ Hd Hl) in Hneg.
    + rewrite (proj1 (digit_first c pin Hd)). destruct (Ascii.eqb_spec c "0") as [->|]; [by rewrite (Hl eq_refl)|by rewrite forallb_digits, Hd].
Qed.

(** ** Matching *)

Lemma longer_greater x y : decimal x -> decimal y -> (length x < length y)%nat -> digits_value 10 0 x < digits_value 10 0 y.
Proof.
  intros Hx Hy Hl. pose proof (decimal_digits x Hx) as Dx. pose proof (decimal_digits y Hy) as [[_ ?]|[_ [Dy _]]].
  { destruct x; [by destruct Hx|]. cbn in Hl. lia. }
  pose proof (digits_value_bound 10 x ltac:(lia)). assert (10 ^ Z.of_nat (length x) <= 10 ^ (Z.of_nat (length y) - 1)) by (apply Z.pow_le_mono_r; lia). lia.
Qed.

Lemma decimal_compare x y : decimal x -> decimal y ->
  (if negb (length x =? length y)%nat then (if (length x <? length y)%nat then -1 else 1) else memcmp x y) =
  Z.sgn (digits_value 10 0 x - digits_value 10 0 y).
Proof.
  intros Hx Hy. destruct (Nat.eqb_spec (length x) (length y)) as [E|E]; cbn [negb].
  - destruct Hx, Hy. by apply memcmp_digits.
  - destruct (Nat.ltb_spec (length x) (length y)) as [Hl|Hl]; symmetry; [apply Z.sgn_neg|apply Z.sgn_pos].
    + pose proof (longer_greater x y Hx Hy Hl). lia.
    + pose proof (longer_greater y x Hy Hx ltac:(lia)). lia.
Qed.

(** C34: Matching two integers compares their values, whatever their lengths; under an
    ordering rule in an extensible filter it tells whether the first is at least the
    second. *)
Theorem integerMatch_compares flags usage a b :
  integerValidate a = LDAP_SUCCESS -> integerValidate b = LDAP_SUCCESS ->
  let ext := negb (Z.land flags SLAP_MR_EXT =? 0) && negb (Z.land usage SLAP_MR_ORDERING =? 0) in
  (ext = false -> Z.sgn (integerMatch flags usage a b) = Z.sgn (int_value a - int_value b)) /\
  (ext = true -> integerMatch flags usage a b = if int_value b <=? int_value a then 1 else 0).
Proof.
  intros (na & x & -> & Hx & Nx)%validate_spec (nb & y & -> & Hy & Ny)%validate_spec ext. rewrite !int_value_text by done.
  assert (forall neg z, decimal z -> (if Ascii.eqb (char_at (sign_text neg ++ z) 0) "-" then (-1, tl (sign_text neg ++ z)) else (1, sign_text neg ++ z)) =
    (if neg then -1 else 1, z)) as Hsplit by (intros neg z Hz; rewrite first_char by done; by destruct neg).
  assert (forall z (k : Z), decimal z -> match z with [] => 0 | _ => k end = k) as Hne by (intros [|] k [_ Hl]; [by destruct Hl|done]).
  unfold integerMatch. cbv zeta. rewrite !Hsplit, !Hne, decimal_compare by done. fold ext.
  pose proof (digits_value_bound 10 x ltac:(lia)) as Bx. pose proof (digits_value_bound 10 y ltac:(lia)) as By.
  set (vx := digits_value 10 0 x) in *. set (vy := digits_value 10 0 y) in *.
  set (m := if (if na then -1 else 1) - (if nb then -1 else 1) =? 0 then if (if na then -1 else 1) <? 0 then - Z.sgn (vx - vy) else Z.sgn (vx - vy)
            else (if na then -1 else 1) - (if nb then -1 else 1)).
  assert (Z.sgn m = Z.sgn ((if na then - vx else vx) - (if nb then - vy else vy))) as Hm.
  { unfold m. fold vx in Nx. fold vy in Ny. destruct na, nb.
    - change (-1 - -1 =? 0) with true. change (-1 <? 0) with true. cbv iota. rewrite Z.sgn_opp, Z.sgn_sgn, <- Z.sgn_opp. f_equal. lia.
    - specialize (Nx eq_refl). change (-1 - 1 =? 0) with false. symmetry. apply Z.sgn_neg. lia.
    - specialize (Ny eq_refl). change (1 - -1 =? 0) with false. symmetry. apply Z.sgn_pos. lia.
    - change (1 - 1 =? 0) with true. change (1 <? 0) with false. cbv iota. apply Z.sgn_sgn. }
  split; intros ->; [done|]. destruct (m >=? 0) eqn:E, (_ <=? _) eqn:E2; zb; lia.
Qed.

Lemma integerMatch_compares_witness :
  integerMatch 0 SLAP_MR_EQUALITY (kw "-12") (kw "-9") = -1 /\
  Z.sgn (integerMatch 0 SLAP_MR_EQUALITY (kw "-12") (kw "-9")) = Z.sgn (int_value (kw "-12") - int_value (kw "-9")).
Proof.
  split; [by vm_compute|].
  exact (proj1 (integerMatch_compares 0 SLAP_MR_EQUALITY (kw "-12") (kw "-9") ltac:(reflexivity) ltac:(reflexivity)) ltac:(reflexivity)).
Defined.

(** ** Index keys *)

Section index.
  Context (n : Z) (Hn : 4 <= n <= 255) (fresh : nat -> list Z) (Hfresh : forall k, length (fresh k) = k /\ bytes_ok (fresh k)).

(** The number of the key of a text, with the octets that its magnitude has. *)
Definition key_val (neg : bool) (pin : text) (v : Z) : Prop :=
  let c := chops n (Z.of_nat (length pin)) in let u := magnitude neg (digits_value 10 0 pin / 10 ^ (7 * c)) in
  exists b, shape neg u b /\ v = if neg then 256 ^ n - 1 - key_number n u b (3 * c) else key_number n u b (3 * c).

Lemma key_val_unique neg pin v w : key_val neg pin v -> key_val neg pin w -> v = w.
Proof using Type. intros (b & Hb & ->) (b' & Hb' & ->). by rewrite (shape_unique _ _ _ _ Hb Hb'). Qed.

Lemma kept_fits neg pin (d := Z.of_nat (length pin)) : decimal pin ->
  let t := sign_text neg ++ take (Z.to_nat (d - 7 * chops n d)) pin in
  (length t <= length (sign_text neg ++ pin) /\ length t <= maxstrlen n)%nat.
Proof using Hn.
  intros [_ Hl]. assert (0 < d) as Hd by (unfold d; destruct pin; [done|cbn; lia]). destruct (chops_spec n Hn d Hd) as (H1 & H2 & H3 & _).
  cbv zeta. rewrite !length_app, length_take. unfold maxstrlen, index_intlen_strlen, INDEX_INTLEN_CHOP. destruct neg; cbn [sign_text length]; lia.
Qed.

(** One key, into any buffer with room for the digits that are kept. *)
Lemma val2key_val neg pin key tmp : integer_text neg pin -> Z.of_nat (length (sign_text neg ++ pin)) < 2 ^ 27 ->
  Z.of_nat (length key) = n -> bytes_ok tmp -> Z.of_nat (length tmp) < 2 ^ 31 ->
  (Nat.min (length (sign_text neg ++ pin)) (maxstrlen n) <= length tmp)%nat ->
  exists key' tmp', integerVal2Key n (sign_text neg ++ pin) key tmp = Some (LDAP_SUCCESS, key', tmp') /\
    length key' = length key /\ bytes_ok key' /\ length tmp' = length tmp /\ bytes_ok tmp' /\ key_val neg pin (be_val key').
Proof using Hn.
  intros [Hp Hneg] Hlen Hkey Ht Hts Hfit. pose proof (kept_fits neg pin Hp) as [F1 F2].
  destruct (val2key_spec n Hn neg pin key tmp Hp Hneg) as (key' & tmp' & b & E & Hs & L & O & L' & O' & V);
    [rewrite length_app in Hlen; lia|done|done|lia|done|].
  exists key', tmp'. split_and!; try done. by exists b.
Qed.

Lemma maxstrlen_range : (18 <= maxstrlen n <= 626)%nat.
Proof using Hn. pose proof (strlen_spec n Hn) as [_ H]. unfold maxstrlen, index_intlen_strlen, INDEX_INTLEN_CHOP. lia. Qed.

Lemma filter_spec neg pin : integer_text neg pin -> Z.of_nat (length (sign_text neg ++ pin)) < 2 ^ 27 ->
  exists key, integerFilter n fresh (sign_text neg ++ pin) = Some (inr key) /\ Z.of_nat (length key) = n /\ bytes_ok key /\ key_val neg pin (be_val key).
Proof using Hn Hfresh.
  intros Hp Hlen. unfold integerFilter. cbv zeta. set (t := sign_text neg ++ pin) in *. pose proof maxstrlen_range as Hm.
  set (l := if (length t <? maxstrlen n)%nat then length t else maxstrlen n).
  assert (l = Nat.min (length t) (maxstrlen n)) as El by (unfold l; destruct (Nat.ltb_spec (length t) (maxstrlen n)); lia). clearbody l.
  destruct (val2key_val neg pin (fresh (Z.to_nat n)) (if (sizeof_ibuf <? l)%nat then fresh l else fresh sizeof_ibuf) Hp Hlen) as (key & tmp & E & L & O & _ & _ & V).
  - rewrite (proj1 (Hfresh _)). lia.
  - destruct (_ <? _)%nat; apply Hfresh.
  - destruct (_ <? _)%nat; rewrite (proj1 (Hfresh _)); unfold sizeof_ibuf; lia.
  - fold t. destruct (Nat.ltb_spec sizeof_ibuf l); rewrite (proj1 (Hfresh _)); lia.
  - fold t in E. rewrite E. cbn [mbind option_bind]. exists key. rewrite L, (proj1 (Hfresh _)). split_and!; (done || lia).
Qed.

(** Keys are in the order of the numbers. *)
Lemma key_order na x nb y v w :
  integer_text na x -> integer_text nb y -> Z.of_nat (length x) < 2 ^ 27 -> Z.of_nat (length y) < 2 ^ 27 ->
  key_val na x v -> key_val nb y w ->
  (if na then - digits_value 10 0 x else digits_value 10 0 x) <= (if nb then - digits_value 10 0 y else digits_value 10 0 y) -> v <= w.
Proof using Hn.
  intros [Hx Nx] [Hy Ny] Lx Ly (b1 & S1 & ->) (b2 & S2 & ->) Hle.
  pose proof (decimal_digits x Hx) as Dx. pose proof (decimal_digits y Hy) as Dy.
  pose proof (chop_keyed n Hn na _ _ b1 Dx Lx Nx S1) as K1. pose proof (chop_keyed n Hn nb _ _ b2 Dy Ly Ny S2) as K2.
  pose proof (magnitude_nonneg n Hn na _ _ Dx Nx) as M1. pose proof (magnitude_nonneg n Hn nb _ _ Dy Ny) as M2.
  pose proof (key_number_bounds n ltac:(lia) _ _ _ _ K1 M1) as B1. pose proof (key_number_bounds n ltac:(lia) _ _ _ _ K2 M2) as B2.
  assert (256 ^ n = 2 * 2 ^ (8 * n - 1)) as E256 by (rewrite (pow2_256 n), <- Z.pow_succ_r by lia; f_equal; lia).
  pose proof (digits_value_bound 10 x ltac:(lia)) as Vx. pose proof (digits_value_bound 10 y ltac:(lia)) as Vy.
  assert (forall p q, decimal p -> decimal q -> digits_value 10 0 p <= digits_value 10 0 q -> Z.of_nat (length p) <= Z.of_nat (length q)) as Hlen.
  { intros p q Hp Hq Hv. apply Z.nlt_ge. intros Hlt. pose proof (longer_greater q p Hq Hp ltac:(lia)). lia. }
  destruct na, nb.
  - specialize (Nx eq_refl). specialize (Ny eq_refl).
    pose proof (chop_mono n Hn true _ _ _ _ Dy Dx (Hlen y x Hy Hx ltac:(lia)) ltac:(lia) ltac:(done)) as Hc.
    pose proof (key_number_mono n ltac:(lia) _ _ _ _ _ _ _ K2 K1 M2 Hc). lia.
  - lia.
  - specialize (Ny eq_refl). lia.
  - pose proof (chop_mono n Hn false _ _ _ _ Dx Dy (Hlen x y Hx Hy ltac:(lia)) ltac:(lia) ltac:(done)) as Hc.
    exact (key_number_mono n ltac:(lia) _ _ _ _ _ _ _ K1 K2 M1 Hc).
Qed.

(** Numbers with two bits to spare are stored as they are. *)
Lemma key_exact (neg : bool) (pin : text) (v : Z) (z := if neg then - digits_value 10 0 pin else digits_value 10 0 pin) :
  integer_text neg pin -> key_val neg pin v -> - 2 ^ (8 * n - 2) <= z < 2 ^ (8 * n - 2) -> v = 2 ^ (8 * n - 1) + z.
Proof using Hn.
  intros [Hp Hneg] (b & Hs & ->) Hz. pose proof (decimal_digits pin Hp) as Hd. pose proof (digits_nonneg _ _ Hd) as [Hv Hd0].
  assert (chops n (Z.of_nat (length pin)) = 0) as Hc.
  { destruct (decide (chops n (Z.of_nat (length pin)) = 0)) as [|Hne]; [done|]. exfalso.
    destruct (chops_spec n Hn _ Hd0) as (C1 & _ & _ & C2). specialize (C2 ltac:(lia)). pose proof (strlen_spec n Hn) as [S1 S2].
    assert (10 ^ (SLAP_INDEX_INTLEN_STRLEN n + 3) <= digits_value 10 0 pin).
    { destruct Hd as [[_ E]|[_ [Hl _]]]; [rewrite E in *; lia|]. etrans; [|exact Hl]. apply Z.pow_le_mono_r; lia. }
    assert (10 ^ (SLAP_INDEX_INTLEN_STRLEN n + 3) = 10 ^ 7 * 10 ^ (SLAP_INDEX_INTLEN_STRLEN n - 4)) as E7 by (rewrite <- Z.pow_add_r by lia; f_equal; lia).
    assert (2 ^ (8 * n - 2) = 64 * 256 ^ (n - 1)) as E6 by (rewrite (pow2_256 (n - 1)) by lia; change 64 with (2 ^ 6); rewrite <- Z.pow_add_r by lia; f_equal; lia).
    assert (0 < 256 ^ (n - 1)) by (apply Z.pow_pos_nonneg; lia). unfold z in Hz. destruct neg; lia. }
  rewrite Hc in *. change (7 * 0) with 0 in *. change (3 * 0) with 0. rewrite Z.pow_0_r, Z.div_1_r in *.
  unfold key_number. rewrite Z.mul_1_r. assert (256 ^ n = 2 * 2 ^ (8 * n - 1)) as E256 by (rewrite (pow2_256 n), <- Z.pow_succ_r by lia; f_equal; lia).
  unfold z, magnitude in *. destruct neg; rewrite (proj2 (Z.ltb_lt _ _)) by lia; lia.
Qed.

(** The keys of several values. *)
Lemma index_keys_spec (malloced : bool) (values : list berval) : forall itmp,
  Forall (fun v => integerValidate v = LDAP_SUCCESS /\ Z.of_nat (length v) < 2 ^ 27) values -> bytes_ok itmp -> Z.of_nat (length itmp) < 2 ^ 31 ->
  (if malloced then sizeof_ibuf < length itmp /\ Forall (fun v => Nat.min (length v) (maxstrlen n) <= length itmp) values
   else length itmp = sizeof_ibuf /\ Forall (fun v => Nat.min (length v) (maxstrlen n) <= sizeof_ibuf) values)%nat ->
  exists keys, index_keys n fresh malloced itmp values = Some (inr keys) /\ Forall2 (fun v k => integerFilter n fresh v = Some (inr k)) values keys.
Proof using Hn Hfresh.
  induction values as [|v values IH]; intros itmp Hv Ht Hts Hroom; [exists []; by split|].
  apply list.Forall_cons in Hv as [[Hval Hlen] Hv]. apply validate_spec in Hval as (neg & pin & -> & Hp). cbn [index_keys]. cbv zeta.
  set (t := sign_text neg ++ pin) in *.
  set (l := if malloced then (if (length t <=? sizeof_ibuf)%nat then sizeof_ibuf else if (maxstrlen n <? length t)%nat then maxstrlen n else length t) else sizeof_ibuf).
  assert (Nat.min (length t) (maxstrlen n) <= l <= length itmp)%nat as Hl.
  { unfold l. destruct malloced; destruct Hroom as [R1 R2]; apply list.Forall_cons in R2 as [R2 _]; [|lia].
    destruct (Nat.leb_spec (length t) sizeof_ibuf); [lia|]. destruct (Nat.ltb_spec (maxstrlen n) (length t)); lia. }
  rewrite (proj2 (Nat.ltb_ge _ _)) by lia.
  destruct (val2key_val neg pin (fresh (Z.to_nat n)) (take l itmp) Hp Hlen) as (key & tmp & E & L & O & L' & O' & V);
    [rewrite (proj1 (Hfresh _)); lia|by apply bytes_ok_take|rewrite length_take; lia|rewrite length_take; fold t; lia|].
  fold t in E. rewrite E. cbn [mbind option_bind negb Z.eqb]. change (LDAP_SUCCESS =? 0) with true. cbn [negb].
  assert (length (tmp ++ drop l itmp) = length itmp) as Lt by (rewrite length_app, L', length_take, length_drop; lia).
  destruct (IH (tmp ++ drop l itmp) Hv) as (keys & -> & HF).
  - apply bytes_ok_app. split; [done|by apply bytes_ok_drop].
  - by rewrite Lt.
  - rewrite Lt. destruct malloced; destruct Hroom as [R1 R2]; by apply list.Forall_cons in R2 as [_ R2].
  - exists (key :: keys). split; [done|]. constructor; [|done]. destruct (filter_spec neg pin Hp Hlen) as (key' & E' & L2 & O2 & V2). fold t in E'. rewrite E'.
    do 2 f_equal. pose proof (key_val_unique _ _ _ _ V2 V) as Hv12. rewrite (proj1 (Hfresh _)) in L. by apply be_val_inj; [| |lia|].
Qed.

End index.

(** ** The theorems *)

(** C33: [lutil_str2bin] converts a value of the integer syntax ([integerValidate]: no zeros
    in front and no [-0]) of any length to its two's complement form, with as few octets
    as possible, within a buffer of at least one octet per character and less than
    2^31 octets. *)
Theorem str2bin_correct t out :
  integerValidate t = LDAP_SUCCESS -> bytes_ok out -> (length t <= length out)%nat -> Z.of_nat (length out) < 2 ^ 31 ->
  exists buf m, lutil_str2bin t out = Some (0, buf, Z.of_nat m) /\ length buf = length out /\ (0 < m <= length out)%nat /\
    twos (take m buf) = int_value t /\
    (m = 1%nat \/ ~ - 2 ^ (8 * (Z.of_nat m - 1) - 1) <= int_value t < 2 ^ (8 * (Z.of_nat m - 1) - 1)).
Proof.
  intros (neg & pin & -> & Hp & Hneg)%validate_spec Ho Hl Hs. rewrite int_value_text by done.
  destruct (str2bin_decimal neg pin out Ho Hp Hneg Hl Hs) as (buf & m & E & L & Lm & _ & Hso).
  exists buf, m. pose proof (digits_value_bound 10 pin ltac:(lia)) as Hv.
  assert (length (take m buf) = m) as Ltm by (rewrite length_take; lia).
  pose proof (signed_twos neg _ _ Hso Hneg ltac:(lia)) as Ht. destruct Hso as (_ & Hne & _ & _ & Hmin). rewrite Ltm in Hmin.
  assert (0 < m)%nat as Hm by (destruct m; [done|lia]).
  split_and!; try done. destruct Hmin as [?|Hmin]; [by left|]. destruct (decide (m = 1%nat)) as [|Hm1]; [by left|right].
  replace (2 ^ (8 * (Z.of_nat m - 1) - 1)) with (128 * 256 ^ (Z.of_nat m - 2)); [unfold magnitude in Hmin; destruct neg; lia|].
  rewrite pow2_256 by lia. change 128 with (2 ^ 7). rewrite <- Z.pow_add_r by lia. f_equal. lia.
Qed.

Lemma str2bin_correct_witness :
  option_map (fun r => take 9 r.1.2) (lutil_str2bin (kw "-123456789012345678901") (replicate 22 7)) = Some [249; 78; 177; 96; 126; 208; 201; 147; 203] /\
  exists buf m, lutil_str2bin (kw "-123456789012345678901") (replicate 22 7) = Some (0, buf, Z.of_nat m) /\ length buf = 22%nat /\ (0 < m <= 22)%nat /\
    twos (take m buf) = -123456789012345678901 /\
    (m = 1%nat \/ ~ - 2 ^ (8 * (Z.of_nat m - 1) - 1) <= -123456789012345678901 < 2 ^ (8 * (Z.of_nat m - 1) - 1)).
Proof.
  split; [by vm_compute|]. apply (str2bin_correct (kw "-123456789012345678901") (replicate 22 7)); [reflexivity|repeat constructor; lia|cbn; lia|cbn; lia].
Defined.

(** C25: Index keys: for every length of keys that the configuration admits and for all
    integers (of less than 2^27 characters), the key that a search uses has that
    length; the keys of two integers are in the order of the integers, so that an
    ordered scan of the index misses none; and an integer with two bits to spare is
    stored exactly, so that different ones have different keys. No buffer is
    overrun. *)
Theorem integer_keys_ordered value_int fresh a b (n := config_index_intlen value_int) :
  (forall k, length (fresh k) = k /\ bytes_ok (fresh k)) ->
  integerValidate a = LDAP_SUCCESS -> integerValidate b = LDAP_SUCCESS ->
  Z.of_nat (length a) < 2 ^ 27 -> Z.of_nat (length b) < 2 ^ 27 ->
  exists ka kb, integerFilter n fresh a = Some (inr ka) /\ integerFilter n fresh b = Some (inr kb) /\
    Z.of_nat (length ka) = n /\ Z.of_nat (length kb) = n /\
    (int_value a <= int_value b -> cmp_octets ka kb <= 0) /\
    (- 2 ^ (8 * n - 2) <= int_value a < 2 ^ (8 * n - 2) -> be_val ka = 2 ^ (8 * n - 1) + int_value a).
Proof.
  intros Hf (na & x & -> & Hx)%validate_spec (nb & y & -> & Hy)%validate_spec La Lb.
  assert (4 <= n <= 255) as Hn by (unfold n, config_index_intlen, SLAP_INDEX_INTLEN_DEFAULT; repeat case_if; zb; lia).
  destruct (filter_spec n Hn fresh Hf na x Hx La) as (ka & Ea & L1 & O1 & V1).
  destruct (filter_spec n Hn fresh Hf nb y Hy Lb) as (kb & Eb & L2 & O2 & V2).
  exists ka, kb. rewrite !int_value_text by (apply Hx || apply Hy). split_and!; try done.
  - intros Hle. rewrite cmp_octets_val by (done || lia). rewrite length_app in La, Lb.
    pose proof (key_order n Hn na x nb y _ _ Hx Hy ltac:(lia) ltac:(lia) V1 V2 Hle). lia.
  - intros Hz. exact (key_exact n Hn na x _ Hx V1 Hz).
Qed.

Lemma integer_keys_ordered_witness :
  integerFilter 4 (fun k => replicate k 0) (kw "-99999999999999999999") = Some (inr [58; 246; 231; 177]) /\
  exists ka kb, integerFilter 4 (fun k => replicate k 0) (kw "-99999999999999999999") = Some (inr ka) /\
    integerFilter 4 (fun k => replicate k 0) (kw "70000") = Some (inr kb) /\
    Z.of_nat (length ka) = 4 /\ Z.of_nat (length kb) = 4 /\
    (int_value (kw "-99999999999999999999") <= int_value (kw "70000") -> cmp_octets ka kb <= 0) /\
    (- 2 ^ 30 <= int_value (kw "-99999999999999999999") < 2 ^ 30 -> be_val ka = 2 ^ 31 + int_value (kw "-99999999999999999999")).
Proof.
  split; [by vm_compute|]. apply (integer_keys_ordered 4 (fun k => replicate k 0)); [|reflexivity|reflexivity|cbn; lia|cbn; lia].
  intros k. split; [apply length_replicate|]. apply Forall_replicate. unfold byte_ok. lia.
Defined.

(** The index of an attribute holds for each of its values the key that a search for
    that value looks up. *)
Theorem integer_indexer_keys value_int fresh values (n := config_index_intlen value_int) :
  (forall k, length (fresh k) = k /\ bytes_ok (fresh k)) -> values <> [] ->
  Forall (fun v => integerValidate v = LDAP_SUCCESS /\ Z.of_nat (length v) < 2 ^ 27) values ->
  exists keys, integerIndexer n fresh values = Some (inr keys) /\ Forall2 (fun v k => integerFilter n fresh v = Some (inr k)) values keys.
Proof.
  intros Hf Hne Hv. assert (4 <= n <= 255) as Hn by (unfold n, config_index_intlen, SLAP_INDEX_INTLEN_DEFAULT; repeat case_if; zb; lia).
  unfold integerIndexer. cbv zeta. pose proof (maxstrlen_range n Hn) as Hm. set (vmax := foldr (fun v l => Nat.max (length v) l) O values).
  assert (Forall (fun v => length v <= vmax)%nat values) as Hmax.
  { unfold vmax. clear. induction values as [|v vs IH]; [constructor|]. constructor; [cbn; lia|]. eapply list.Forall_impl; [exact IH|]. cbn. intros; lia. }
  set (l := if (maxstrlen n <? vmax)%nat then maxstrlen n else vmax).
  assert (l = Nat.min vmax (maxstrlen n)) as El by (unfold l; destruct (Nat.ltb_spec (maxstrlen n) vmax); lia). clearbody l.
  assert (forall A (x y : A), (match values with [] => x | _ :: _ => y end) = y) as Hmatch by (by destruct values).
  rewrite Hmatch.
  destruct (Nat.ltb_spec sizeof_ibuf l); apply (index_keys_spec n Hn fresh Hf _ values); try done; try apply Hf; rewrite (proj1 (Hf _)); unfold sizeof_ibuf in *; try lia;
    (split; [lia|]; eapply list.Forall_impl; [exact Hmax|]; cbn; intros; lia).
Qed.

Lemma integer_indexer_keys_witness :
  integerIndexer 4 (fun k => replicate k 0) [kw "7"; kw "-99999999999999999999"] = Some (inr [[128; 0; 0; 7]; [58; 246; 231; 177]]) /\
  exists keys, integerIndexer 4 (fun k => replicate k 0) [kw "7"; kw "-99999999999999999999"] = Some (inr keys) /\
    Forall2 (fun v k => integerFilter 4 (fun k => replicate k 0) v = Some (inr k)) [kw "7"; kw "-99999999999999999999"] keys.
Proof.
  split; [by vm_compute|]. apply (integer_indexer_keys 4 (fun k => replicate k 0)); [|done|repeat constructor].
  intros k. split; [apply length_replicate|]. apply Forall_replicate. unfold byte_ok. lia.
Defined.

(** [lutil_str2bin] loses octets of numbers that begin with more than eight zeros:
    this is 100000000, converted to the octets of 16113920. *)
Lemma str2bin_zeros_wrong :
  exists buf, lutil_str2bin (kw "000000000000000100000000") (replicate 24 0) = Some (0, buf, 4) /\
    twos (take 4 buf) = 16113920 /\ digits_value 10 0 (kw "000000000000000100000000") = 100000000.
Proof. eexists. split; [by vm_compute|]. split; by vm_compute. Qed.

(** The sign octet of a negative number is not left out, since it is compared as a signed
    [char]: the key has an exponent for one octet more and an octet less of the number. *)
Lemma sign_octet_kept :
  integerFilter 4 (fun k => replicate k 0) (kw "-2147483649") = Some (inr [0x3e; 0xff; 0x7f; 0xff]) /\
  integerFilter 4 (fun k => replicate k 0) (kw "2147483648") = Some (inr [0xc0; 0x80; 0; 0]).
Proof. split; by vm_compute. Qed.

(** [integerMatch] clears the wrong sign for an empty assertion, which then does not
    match itself. *)
Lemma integerMatch_empty : integerMatch 0 SLAP_MR_EQUALITY [] [] = -1.
Proof. done. Qed.
