(* ===== verification/GenTime.v ===== *)
(** * Generalized time (schema_init.c)

    Validation and normalisation of the times of day and year that attributes such
    as createTimestamp hold, and their ordering. A value ends with a NUL, which
    [char_at] gives behind its last character. *)

From Stdlib Require Import Ascii String.
From S2P Require Import Prelude Text Attr.

Local Open Scope Z_scope.
Local Abbreviation length := List.length.

(** An operation of this file gives [None] where an access leaves an array, and
    [inl] of a result code that is an error. *)
Abbreviation outcome A := (option (Z + A)).
Definition invalid {A} : outcome A := Some (inl LDAP_INVALID_SYNTAX).

(** [parts]: century, year, month and day from 0, hour, minute, second, and hour
    and minute of the offset. *)
Definition ceiling : list Z := [100; 100; 12; 31; 24; 60; 60; 24; 60].
Definition mdays : list (list Z) :=
  [[31; 28; 31; 30; 31; 30; 31; 31; 30; 31; 30; 31]; [31; 29; 31; 30; 31; 30; 31; 31; 30; 31; 30; 31]].

Definition month_days (leapyear month : Z) : option Z := l ← arr_get mdays leapyear; arr_get l month.

(** Two digits at [p]: [c1 * 10 + c - '0' * 11] *)
Definition two_digits (val : text) (p : nat) : Z := schar (char_at val (S p)) + schar (char_at val p) * 10 - 48 * 11.

(** The date and the time: the loop from [part] on; the number of parts read and
    the place behind them. *)
Fixpoint read_parts (n part : nat) (val : text) (p : nat) (parts : list Z) : outcome (nat * nat * list Z) :=
  match n with
  | O => Some (inr (part, p, parts))
  | S n =>
      if (length val <=? p)%nat then Some (inr (part, p, parts)) else
      if negb (is_digit (char_at val p)) then Some (inr (part, p, parts)) else
      if (S p =? length val)%nat then invalid else
      if negb (is_digit (char_at val (S p))) then invalid else
      let c := two_digits val p in
      let month_or_day := (Nat.lor part 1 =? 3)%nat in
      let c := if month_or_day then c - 1 else c in
      if month_or_day && (c <? 0) then invalid else
      limit ← ceiling !! part;
      if (c >=? limit) && negb ((c =? 60) && (part =? 6)%nat) then invalid else
      parts ← arr_set parts (Z.of_nat part) c;
      read_parts n (S part) val (S (S p)) parts
  end.

(** [for (; part < 9; part++) parts[part] = 0] *)
Definition zero_parts (part : nat) (parts : list Z) : list Z := take part parts ++ replicate (9 - part) 0.

(** ** The fraction: from [fraction], which is the place of the separator *)

Fixpoint count_digits (s : text) : nat :=
  match s with c :: s => if is_digit c then S (count_digits s) else O | [] => O end.

(** The end without the zeros at the end. *)
Fixpoint end_num (e : nat) (val : text) (fraction : nat) : nat :=
  match e with
  | S prev =>
      if negb (Ascii.eqb (char_at val prev) "0") then e
      else if Ascii.eqb (char_at val e) "Z" && Ascii.eqb (char_at val (S e)) "000" && (length val =? 22)%nat && (e - fraction =? 7)%nat then e
      else end_num prev val fraction
  | O => O
  end.

(** The place behind the fraction and the fraction, with its separator. *)
Definition read_fraction (val : text) (p : nat) : outcome (nat * text) :=
  if (p <? length val)%nat && (Ascii.eqb (char_at val p) "." || Ascii.eqb (char_at val p) ",") then
    let q := (S p + count_digits (drop (S p) val))%nat in
    if (q - p =? 1)%nat then invalid else
    let c := (end_num q val p - p)%nat in
    Some (inr (q, if negb (c =? 1)%nat then sub val p c else []))
  else Some (inr (p, [])).

(** ** The offset *)

Fixpoint read_zone (n part : nat) (val : text) (p : nat) (parts : list Z) : outcome (nat * nat * list Z) :=
  match n with
  | O => Some (inr (part, p, parts))
  | S n =>
      if (length val <=? p)%nat then Some (inr (part, p, parts)) else
      if negb (is_digit (char_at val p)) then Some (inr (part, p, parts)) else
      if (S p =? length val)%nat then invalid else
      if negb (is_digit (char_at val (S p))) then invalid else
      let c := two_digits val p in
      parts ← arr_set parts (Z.of_nat part) c;
      limit ← ceiling !! part;
      if c >=? limit then invalid else read_zone n (S part) val (S (S p)) parts
  end.

Definition add_part (parts : list Z) (i d : Z) : option (list Z) := v ← arr_get parts i; arr_set parts i (v + d).

(** A negative offset: carrying from the minutes to the century; [part] is one more
    than the part to look at. *)
Fixpoint carry_up (part : nat) (leapyear : Z) (parts : list Z) : outcome (list Z) :=
  match part with
  | O => Some (inr parts)
  | S part =>
      let i := Z.of_nat part in
      c ← (if negb (part =? 3)%nat then ceiling !! part else month ← arr_get parts 2; month_days leapyear month);
      v ← arr_get parts i;
      if v >=? c then
        if (part =? 0)%nat then invalid else
        parts ← arr_set parts i (v - c);
        parts ← add_part parts (i - 1) 1;
        carry_up part leapyear parts
      else if negb (part =? 5)%nat then Some (inr parts)
      else carry_up part leapyear parts
  end.

(** A positive offset: borrowing. *)
Fixpoint borrow (part : nat) (leapyear : Z) (parts : list Z) : outcome (list Z) :=
  match part with
  | O => Some (inr parts)
  | S part =>
      let i := Z.of_nat part in
      v ← arr_get parts i;
      if v <? 0 then
        if (part =? 0)%nat then invalid else
        c ← (if negb (part =? 3)%nat then ceiling !! part
             else month ← arr_get parts 2; month_days leapyear (Z.rem (month - 1 + 12) 12));
        parts ← arr_set parts i (v + c);
        parts ← add_part parts (i - 1) (-1);
        borrow part leapyear parts
      else if negb (part =? 5)%nat then Some (inr parts)
      else borrow part leapyear parts
  end.

Definition apply_zone (west : bool) (leapyear : Z) (parts : list Z) : outcome (list Z) :=
  h ← arr_get parts 7;
  m ← arr_get parts 8;
  let sign := if west then 1 else -1 in
  parts ← add_part parts 4 (sign * h);
  parts ← add_part parts 5 (sign * m);
  if west then carry_up 6 leapyear parts else borrow 6 leapyear parts.

(** ** The whole *)

(** The parts, in UTC, and the fraction. *)
Definition check_time_syntax (val : text) (parts : list Z) : outcome (list Z * text) :=
  r ← read_parts 7 0 val 0 parts;
  match r with
  | inl rc => Some (inl rc)
  | inr (part, p, parts) =>
      if (part <? 5)%nat then invalid else
      let parts := zero_parts part parts in
      century ← arr_get parts 0;
      year ← arr_get parts 1;
      let leapyear := if Z.rem (if year =? 0 then century else year) 4 =? 0 then 1 else 0 in
      month ← arr_get parts 2;
      day ← arr_get parts 3;
      limit ← month_days leapyear month;
      if day >=? limit then invalid else
      r ← read_fraction val p;
      match r with
      | inl rc => Some (inl rc)
      | inr (p, fraction) =>
          if (p =? length val)%nat then invalid else
          let tzoffset := char_at val p in
          let p := S p in
          if Ascii.eqb tzoffset "Z" then
            if negb (p =? length val)%nat then invalid else Some (inr (parts, fraction))
          else if Ascii.eqb tzoffset "+" || Ascii.eqb tzoffset "-" then
            r ← read_zone 2 7 val p parts;
            match r with
            | inl rc => Some (inl rc)
            | inr (part, p, parts) =>
                if (part <? 8)%nat then invalid else
                r ← apply_zone (Ascii.eqb tzoffset "-") leapyear parts;
                match r with
                | inl rc => Some (inl rc)
                | inr parts => if negb (p =? length val)%nat then invalid else Some (inr (parts, fraction))
                end
            end
          else invalid
      end
  end.

(** [parts] is not initialised; [junk] is what it holds. *)
Definition generalizedTimeValidate (junk : list Z) (inv : text) : option Z :=
  r ← check_time_syntax inv junk; Some (match r with inl rc => rc | inr _ => LDAP_SUCCESS end).

(** "%02d" of a number that is not negative *)
Definition fmt_02d (parts : list Z) (i d : Z) : option text := v ← arr_get parts i; Some (fmt_pad 10 2 (v + d)).

Definition generalizedTimeNormalize (junk : list Z) (val : text) : outcome text :=
  r ← check_time_syntax val junk;
  match r with
  | inl rc => Some (inl rc)
  | inr (parts, fraction) =>
      s0 ← fmt_02d parts 0 0; s1 ← fmt_02d parts 1 0; s2 ← fmt_02d parts 2 1; s3 ← fmt_02d parts 3 1;
      s4 ← fmt_02d parts 4 0; s5 ← fmt_02d parts 5 0; s6 ← fmt_02d parts 6 0;
      let fraction := match fraction with [] => [] | _ :: digits => "."%char :: digits end in
      Some (inr (s0 ++ s1 ++ s2 ++ s3 ++ s4 ++ s5 ++ s6 ++ fraction ++ ["Z"%char]))
  end.

(** Both values without their last character; [None] if one has none. *)
Definition generalizedTimeOrderingMatch (flags : Z) (value asserted : text) : option Z :=
  let v_len := Z.of_nat (length value) in
  let av_len := Z.of_nat (length asserted) in
  let n := (if v_len <? av_len then v_len else av_len) - 1 in
  if n <? 0 then None else
  let match_ := memcmp (sub value 0 (Z.to_nat n)) (sub asserted 0 (Z.to_nat n)) in
  let match_ := if match_ =? 0 then i32 (v_len - av_len) else match_ in
  Some (if negb (Z.land flags SLAP_MR_EXT =? 0) then (if match_ >=? 0 then 1 else 0) else match_).
