(* ===== verification/GenTimeFacts.v ===== *)
(** * The calendar and the form of generalized times

    [minute_number] counts the minutes from the year zero on, in the Gregorian
    calendar. [gtime] is the abstract syntax of the values and [print] their text. *)

From Stdlib Require Import Ascii String.
From S2P Require Import Prelude Text Digits Attr GenTime.

Local Open Scope Z_scope.
Local Abbreviation length := List.length.

(** ** The calendar *)

Definition leap (y : Z) : bool := (y mod 4 =? 0) && (negb (y mod 100 =? 0) || (y mod 400 =? 0)).

Definition month_len (y m : Z) : Z := if m =? 2 then (if leap y then 29 else 28) else if (m =? 4) || (m =? 6) || (m =? 9) || (m =? 11) then 30 else 31.

Record stamp := mkStamp {
  st_year : Z;
  st_month : Z;
  st_day : Z;
  st_hour : Z;
  st_min : Z;
  st_sec : Z }.

Definition stamp_ok (t : stamp) : Prop :=
  0 <= t.(st_year) <= 9999 /\ 1 <= t.(st_month) <= 12 /\ 1 <= t.(st_day) <= month_len t.(st_year) t.(st_month) /\
  0 <= t.(st_hour) < 24 /\ 0 <= t.(st_min) < 60 /\ 0 <= t.(st_sec) <= 60.

(** Days from the first of January of the year zero. *)
Definition days_to_year (y : Z) : Z := 365 * y + (y + 3) / 4 - (y + 99) / 100 + (y + 399) / 400.
Fixpoint days_to_month (y : Z) (n : nat) : Z :=
  match n with O => 0 | S n => days_to_month y n + month_len y (Z.of_nat (S n)) end.
Definition day_number (y m d : Z) : Z := days_to_year y + days_to_month y (Z.to_nat (m - 1)) + (d - 1).

Definition minute_number (t : stamp) : Z := (day_number t.(st_year) t.(st_month) t.(st_day) * 24 + t.(st_hour)) * 60 + t.(st_min).

Lemma quotient_step y k : 0 < k -> (y + 1 + (k - 1)) / k = (y + (k - 1)) / k + (if y mod k =? 0 then 1 else 0).
Proof.
  intros Hk. pose proof (Z.div_mod y k ltac:(lia)) as E. pose proof (Z.mod_pos_bound y k Hk) as Hr. set (q := y / k) in *. set (r := y mod k) in *.
  replace (y + 1 + (k - 1)) with (r + (q + 1) * k) by lia. rewrite Z.div_add, Z.div_small by lia.
  destruct (Z.eqb_spec r 0).
  - replace (y + (k - 1)) with (k - 1 + q * k) by lia. rewrite Z.div_add, Z.div_small by lia. lia.
  - replace (y + (k - 1)) with (r - 1 + (q + 1) * k) by lia. rewrite Z.div_add, Z.div_small by lia. lia.
Qed.

Lemma leap_step y : days_to_year (y + 1) = days_to_year y + 365 + (if leap y then 1 else 0).
Proof.
  unfold days_to_year. pose proof (quotient_step y 4) as H4. pose proof (quotient_step y 100) as H100. pose proof (quotient_step y 400) as H400.
  change (4 - 1) with 3 in H4. change (100 - 1) with 99 in H100. change (400 - 1) with 399 in H400. rewrite H4, H100, H400 by lia. clear H4 H100 H400. unfold leap.
  assert (y mod 100 = 0 -> y mod 4 = 0) by (Z.div_mod_to_equations; lia). assert (y mod 400 = 0 -> y mod 100 = 0) by (Z.div_mod_to_equations; lia).
  destruct (Z.eqb_spec (y mod 4) 0), (Z.eqb_spec (y mod 100) 0), (Z.eqb_spec (y mod 400) 0); cbn [negb andb orb]; lia.
Qed.

Lemma days_to_month_13 y : days_to_month y 12 = 365 + (if leap y then 1 else 0).
Proof. unfold days_to_month, month_len. generalize (leap y). intros []; reflexivity. Qed.

Lemma month_len_range y m : 28 <= month_len y m <= 31.
Proof. unfold month_len. repeat case_if; lia. Qed.

(** The day after the last of a month, and the day before the first. *)
Lemma next_month y m : 1 <= m < 12 -> day_number y (m + 1) 1 = day_number y m (month_len y m) + 1.
Proof.
  intros Hm. unfold day_number. replace (Z.to_nat (m + 1 - 1)) with (S (Z.to_nat (m - 1))) by lia. cbn [days_to_month].
  replace (Z.of_nat (S (Z.to_nat (m - 1)))) with m by lia. lia.
Qed.

Lemma next_year y : day_number (y + 1) 1 1 = day_number y 12 31 + 1.
Proof.
  unfold day_number. change (Z.to_nat (1 - 1)) with O. change (Z.to_nat (12 - 1)) with 11%nat. rewrite leap_step.
  pose proof (days_to_month_13 y) as H. cbn [days_to_month] in H |- *. change (month_len y (Z.of_nat 12)) with 31 in H. lia.
Qed.

(** The first and the last minute that can be written. *)
Definition minutes_end : Z := days_to_year 10000 * 1440.

Lemma days_to_month_bound y m : 1 <= m <= 12 -> 0 <= days_to_month y (Z.to_nat (m - 1)) /\
  days_to_month y (Z.to_nat (m - 1)) + month_len y m <= 365 + (if leap y then 1 else 0).
Proof.
  intros Hm. assert (m ∈ [1; 2; 3; 4; 5; 6; 7; 8; 9; 10; 11; 12]) as Hin by (rewrite !elem_of_cons; lia).
  repeat (apply elem_of_cons in Hin as [->|Hin]; [match goal with |- context [Z.to_nat ?e] => let v := eval vm_compute in (Z.to_nat e) in change (Z.to_nat e) with v end;
    cbn [days_to_month]; unfold month_len; generalize (leap y); intros []; vm_compute; split; congruence|]). by apply elem_of_nil in Hin.
Qed.

Lemma days_to_year_mono y z : y <= z -> days_to_year y + 365 * (z - y) <= days_to_year z.
Proof. intros H. unfold days_to_year. Z.div_mod_to_equations. lia. Qed.

Lemma stamp_range t : stamp_ok t -> 0 <= minute_number t < minutes_end.
Proof.
  intros (Hy & Hm & Hd & Hh & Hmi & _). unfold minute_number, minutes_end, day_number.
  destruct (days_to_month_bound (st_year t) (st_month t) Hm) as [B1 B2].
  pose proof (days_to_year_mono 0 (st_year t) ltac:(lia)) as M1. pose proof (days_to_year_mono (st_year t + 1) 10000 ltac:(lia)) as M2.
  rewrite leap_step in M2. change (days_to_year 0) with 0 in M1. lia.
Qed.

(** ** Carrying and borrowing *)

(** Evaluate accesses to an explicit list at an explicit place. *)
Ltac access :=
  repeat match goal with
  | |- context [arr_get ?l ?i] =>
      let i' := eval vm_compute in i in
      let r := eval cbv [arr_get Z.ltb Z.compare Pos.compare Pos.compare_cont Z.to_nat Pos.to_nat Pos.iter_op Nat.add lookup list_lookup] in (arr_get l i') in
      change (arr_get l i) with r
  | |- context [arr_set ?l ?i ?v] =>
      let i' := eval vm_compute in i in
      let r := eval cbv [arr_set Z.ltb Z.leb andb Z.compare Pos.compare Pos.compare_cont Z.to_nat Pos.to_nat Pos.iter_op Nat.add insert list_insert
        List.length Z.of_nat Pos.of_succ_nat Pos.succ] in (arr_set l i' v) in
      change (arr_set l i v) with r
  end.
Ltac part_step := repeat progress (cbn [carry_up borrow Nat.eqb negb mbind option_bind ceiling lookup list_lookup]; try unfold add_part; access).

(** The stamp that the first seven parts stand for. *)
Definition stamp_of (parts : list Z) : option stamp :=
  match parts with
  | ce :: yy :: mo :: da :: h :: mi :: s :: _ => Some (mkStamp (ce * 100 + yy) (mo + 1) (da + 1) h mi s)
  | _ => None
  end.

Definition century_ok (ce yy : Z) : Prop := 0 <= ce < 100 /\ 0 <= yy < 100.

Lemma leapyear_spec ce yy : century_ok ce yy -> (if Z.rem (if yy =? 0 then ce else yy) 4 =? 0 then 1 else 0) = if leap (ce * 100 + yy) then 1 else 0.
Proof.
  intros [Hc Hy]. unfold leap. rewrite Z.rem_mod_nonneg by (repeat case_if; lia).
  assert ((ce * 100 + yy) mod 100 = yy) as -> by (Z.div_mod_to_equations; lia).
  assert ((ce * 100 + yy) mod 4 = yy mod 4) as -> by (Z.div_mod_to_equations; lia).
  destruct (Z.eqb_spec yy 0) as [->|Hy0]; cbn [negb orb andb]; [|].
  - change (0 mod 4 =? 0) with true. cbn [andb]. rewrite Z.add_0_r.
    assert ((ce * 100) mod 400 = ce mod 4 * 100) as -> by (Z.div_mod_to_equations; lia).
    destruct (Z.eqb_spec (ce mod 4) 0), (Z.eqb_spec (ce mod 4 * 100) 0); lia.
  - rewrite andb_true_r. done.
Qed.

Lemma month_days_spec y m : 0 <= m < 12 -> month_days (if leap y then 1 else 0) m = Some (month_len y (m + 1)).
Proof.
  intros Hm. assert (m ∈ [0; 1; 2; 3; 4; 5; 6; 7; 8; 9; 10; 11]) as Hin by (rewrite !elem_of_cons; lia). unfold month_len. generalize (leap y). intros b.
  repeat (apply elem_of_cons in Hin as [->|Hin]; [by destruct b|]). by apply elem_of_nil in Hin.
Qed.

(** The parts of a stamp whose minute number is [n]. *)
Definition reached (n : Z) (tail : list Z) (parts : list Z) : Prop :=
  exists ce yy mo da h mi, parts = ce :: yy :: mo :: da :: h :: mi :: tail /\ century_ok ce yy /\ 0 <= mo < 12 /\
    0 <= da < month_len (ce * 100 + yy) (mo + 1) /\ 0 <= h < 24 /\ 0 <= mi < 60 /\
    (day_number (ce * 100 + yy) (mo + 1) (da + 1) * 24 + h) * 60 + mi = n.

Lemma reached_range n tail parts : reached n tail parts -> 0 <= n < minutes_end.
Proof.
  intros (ce & yy & mo & da & h & mi & _ & [Hc Hy] & Hmo & Hda & Hh & Hmi & <-).
  apply (stamp_range (mkStamp (ce * 100 + yy) (mo + 1) (da + 1) h mi 0)). unfold stamp_ok. cbn [st_year st_month st_day st_hour st_min st_sec]. lia.
Qed.

Lemma reached_intro n tail ce yy mo da h mi : century_ok ce yy -> 0 <= mo < 12 -> 0 <= da < month_len (ce * 100 + yy) (mo + 1) -> 0 <= h < 24 -> 0 <= mi < 60 ->
  (day_number (ce * 100 + yy) (mo + 1) (da + 1) * 24 + h) * 60 + mi = n -> reached n tail (ce :: yy :: mo :: da :: h :: mi :: tail).
Proof. intros. exists ce, yy, mo, da, h, mi. split_and!; (done || lia). Qed.

(** A carry arrives at [n], or beyond the year 9999. *)
Definition carried (n : Z) (tail : list Z) (r : outcome (list Z)) : Prop :=
  (exists parts, r = Some (inr parts) /\ reached n tail parts) \/ (minutes_end <= n /\ r = invalid).

Lemma carried_done n tail parts : reached n tail parts -> carried n tail (Some (inr parts)).
Proof. left. by exists parts. Qed.

Section carry.
  Context (s oh om lf : Z).
  Abbreviation tail := [s; oh; om].

(** The year, the month, the day and so on may be one too many. *)
Lemma carry_year ce yy h mi n : 0 <= ce < 100 -> 0 <= yy <= 100 -> 0 <= h < 24 -> 0 <= mi < 60 ->
  n = (day_number (ce * 100 + yy) 1 1 * 24 + h) * 60 + mi -> carried n tail (carry_up 2 lf (ce :: yy :: 0 :: 0 :: h :: mi :: tail)).
Proof using.
  intros Hc Hy Hh Hm Hn. part_step. pose proof (fun y => month_len_range y (0 + 1)) as Hl.
  rewrite Z.geb_leb. destruct (Z.leb_spec 100 yy); [part_step; rewrite Z.geb_leb; destruct (Z.leb_spec 100 (ce + 1))|].
  - right. replace yy with 100 in * by lia. replace ce with 99 in * by lia. split; [|done]. assert (day_number (99 * 100 + 100) 1 1 = days_to_year 10000) by by vm_compute. unfold minutes_end. lia.
  - replace yy with 100 in * by lia. apply carried_done, reached_intro; rewrite ?Hn; try lia; [split; lia|specialize (Hl ((ce + 1) * 100 + (100 - 100))); lia|].
    by replace ((ce + 1) * 100 + (100 - 100)) with (ce * 100 + 100) by lia.
  - apply carried_done, reached_intro; rewrite ?Hn; try lia; [split; lia|specialize (Hl (ce * 100 + yy)); lia|done].
Qed.

Lemma carry_month ce yy mo h mi n : century_ok ce yy -> 0 <= mo <= 12 -> 0 <= h < 24 -> 0 <= mi < 60 ->
  n = ((if mo =? 12 then day_number (ce * 100 + yy + 1) 1 1 else day_number (ce * 100 + yy) (mo + 1) 1) * 24 + h) * 60 + mi ->
  carried n tail (carry_up 3 lf (ce :: yy :: mo :: 0 :: h :: mi :: tail)).
Proof using.
  intros [Hc Hy] Hmo Hh Hm Hn. change (carry_up 3 lf ?l) with (v ← arr_get l 2; if v >=? 12 then parts ← arr_set l 2 (v - 12); parts ← add_part parts 1 1; carry_up 2 lf parts else Some (inr l)).
  part_step. rewrite Z.geb_leb. destruct (Z.leb_spec 12 mo).
  - part_step. replace mo with 12 in * by lia. apply (carry_year ce (yy + 1)); try lia. rewrite Hn. by replace (ce * 100 + (yy + 1)) with (ce * 100 + yy + 1) by lia.
  - destruct (Z.eqb_spec mo 12) as [|_]; [lia|]. pose proof (month_len_range (ce * 100 + yy) (mo + 1)). apply carried_done, reached_intro; rewrite ?Hn; try lia; [split; lia|done].
Qed.

Context (y0 : Z) (Hlf : lf = if leap y0 then 1 else 0).

Lemma carry_day ce yy mo da h mi n : century_ok ce yy -> ce * 100 + yy = y0 -> 0 <= mo < 12 -> 0 <= da <= month_len y0 (mo + 1) -> 0 <= h < 24 -> 0 <= mi < 60 ->
  n = (day_number y0 (mo + 1) (da + 1) * 24 + h) * 60 + mi -> carried n tail (carry_up 4 lf (ce :: yy :: mo :: da :: h :: mi :: tail)).
Proof using Hlf.
  intros Hc Hy0 Hmo Hda Hh Hm Hn. change (carry_up 4 lf ?l) with (month ← arr_get l 2; c ← month_days lf month; v ← arr_get l 3;
    if v >=? c then parts ← arr_set l 3 (v - c); parts ← add_part parts 2 1; carry_up 3 lf parts else Some (inr l)).
  part_step. rewrite Hlf at 1. rewrite month_days_spec by done. cbn [mbind option_bind]. part_step. rewrite Z.geb_leb. destruct (Z.leb_spec (month_len y0 (mo + 1)) da).
  - part_step. replace (da - month_len y0 (mo + 1)) with 0 by lia. apply (carry_month ce yy (mo + 1)); try done; [lia|]. rewrite Hy0, Hn.
    replace (da + 1) with (month_len y0 (mo + 1) + 1) by lia. destruct (Z.eqb_spec (mo + 1) 12) as [E|E].
    + rewrite next_year. rewrite E. change (month_len y0 12) with 31. unfold day_number. lia.
    + rewrite next_month by lia. unfold day_number. lia.
  - apply carried_done, reached_intro; rewrite ?Hy0, ?Hn; (done || lia).
Qed.

Lemma carry_hour ce yy mo da h mi n : century_ok ce yy -> ce * 100 + yy = y0 -> 0 <= mo < 12 -> 0 <= da < month_len y0 (mo + 1) -> 0 <= h < 48 -> 0 <= mi < 60 ->
  n = (day_number y0 (mo + 1) (da + 1) * 24 + h) * 60 + mi -> carried n tail (carry_up 5 lf (ce :: yy :: mo :: da :: h :: mi :: tail)).
Proof using Hlf.
  intros Hc Hy0 Hmo Hda Hh Hm Hn. change (carry_up 5 lf ?l) with (v ← arr_get l 4;
    if v >=? 24 then parts ← arr_set l 4 (v - 24); parts ← add_part parts 3 1; carry_up 4 lf parts else Some (inr l)).
  part_step. rewrite Z.geb_leb. destruct (Z.leb_spec 24 h).
  - part_step. apply carry_day; try done; try lia. rewrite Hn. unfold day_number. lia.
  - apply carried_done, reached_intro; rewrite ?Hy0, ?Hn; (done || lia).
Qed.

Lemma carry_min ce yy mo da h mi n : century_ok ce yy -> ce * 100 + yy = y0 -> 0 <= mo < 12 -> 0 <= da < month_len y0 (mo + 1) -> 0 <= h < 47 -> 0 <= mi < 120 ->
  n = (day_number y0 (mo + 1) (da + 1) * 24 + h) * 60 + mi -> carried n tail (carry_up 6 lf (ce :: yy :: mo :: da :: h :: mi :: tail)).
Proof using Hlf.
  intros Hc Hy0 Hmo Hda Hh Hm Hn. change (carry_up 6 lf ?l) with (v ← arr_get l 5;
    if v >=? 60 then parts ← arr_set l 5 (v - 60); parts ← add_part parts 4 1; carry_up 5 lf parts else carry_up 5 lf l).
  part_step. rewrite Z.geb_leb. destruct (Z.leb_spec 60 mi); part_step; apply carry_hour; try done; lia.
Qed.

(** A borrow arrives at [n], or before the year zero. *)
Definition borrowed (n : Z) (r : outcome (list Z)) : Prop :=
  (exists parts, r = Some (inr parts) /\ reached n tail parts) \/ (n < 0 /\ r = invalid).

Lemma borrowed_done n parts : reached n tail parts -> borrowed n (Some (inr parts)).
Proof using. left. by exists parts. Qed.

Lemma borrow_year ce yy h mi n : 0 <= ce < 100 -> -1 <= yy < 100 -> 0 <= h < 24 -> 0 <= mi < 60 ->
  n = (day_number (ce * 100 + yy) 12 31 * 24 + h) * 60 + mi -> borrowed n (borrow 2 lf (ce :: yy :: 11 :: 30 :: h :: mi :: tail)).
Proof using.
  intros Hc Hy Hh Hm Hn. part_step. assert (forall y, month_len y (11 + 1) = 31) as Hl by done.
  destruct (Z.ltb_spec yy 0); [part_step; destruct (Z.ltb_spec (ce + -1) 0)|].
  - right. replace yy with (-1) in * by lia. replace ce with 0 in * by lia. split; [|done]. assert (day_number (0 * 100 + -1) 12 31 = -1) by by vm_compute. lia.
  - apply borrowed_done, reached_intro; rewrite ?Hn, ?Hl; try lia; [split; lia|]. by replace ((ce + -1) * 100 + (yy + 100)) with (ce * 100 + yy) by lia.
  - apply borrowed_done, reached_intro; rewrite ?Hn, ?Hl; try lia; [split; lia|done].
Qed.

Lemma borrow_day ce yy mo da h mi n : century_ok ce yy -> ce * 100 + yy = y0 -> 0 <= mo < 12 -> -1 <= da < month_len y0 (mo + 1) -> 0 <= h < 24 -> 0 <= mi < 60 ->
  n = (day_number y0 (mo + 1) (da + 1) * 24 + h) * 60 + mi -> borrowed n (borrow 4 lf (ce :: yy :: mo :: da :: h :: mi :: tail)).
Proof using Hlf.
  intros [Hc Hy] Hy0 Hmo Hda Hh Hm Hn. change (borrow 4 lf ?l) with (v ← arr_get l 3;
    if v <? 0 then c ← (month ← arr_get l 2; month_days lf (Z.rem (month - 1 + 12) 12)); parts ← arr_set l 3 (v + c); parts ← add_part parts 2 (-1); borrow 3 lf parts else Some (inr l)).
  part_step. destruct (Z.ltb_spec da 0); [|apply borrowed_done, reached_intro; rewrite ?Hy0, ?Hn; (done || lia || split; lia)].
  rewrite Hlf at 1. part_step. replace da with (-1) in * by lia. change (-1 + 1) with 0 in *.
  change (borrow 3 lf ?l) with (v ← arr_get l 2; if v <? 0 then parts ← arr_set l 2 (v + 12); parts ← add_part parts 1 (-1); borrow 2 lf parts else Some (inr l)).
  destruct (Z.eq_dec mo 0) as [->|Hm0].
  - change (Z.rem (0 - 1 + 12) 12) with 11. rewrite month_days_spec by lia. cbn [mbind option_bind]. change (month_len y0 (11 + 1)) with 31. part_step. apply (borrow_year ce (yy - 1)); try lia.
    rewrite Hn. replace (ce * 100 + (yy - 1)) with (y0 - 1) by lia. pose proof (next_year (y0 - 1)) as E. replace (y0 - 1 + 1) with y0 in E by lia.
    unfold day_number in *. change (0 + 1) with 1. lia.
  - rewrite Z.rem_mod_nonneg by lia. replace (mo - 1 + 12) with (mo - 1 + 1 * 12) by lia. rewrite Z.mod_add, Z.mod_small, month_days_spec by lia.
    cbn [mbind option_bind]. part_step. rewrite (proj2 (Z.ltb_ge (mo + -1) 0)) by lia. replace (mo - 1 + 1) with mo by lia. pose proof (month_len_range y0 mo).
    apply borrowed_done, reached_intro; try lia; [split; lia|by (rewrite Hy0; replace (mo + -1 + 1) with mo by lia; lia)|].
    rewrite Hy0, Hn. replace (mo + -1 + 1) with mo by lia. pose proof (next_month y0 mo ltac:(lia)) as E. unfold day_number in *. lia.
Qed.

Lemma borrow_min ce yy mo da h mi n : century_ok ce yy -> ce * 100 + yy = y0 -> 0 <= mo < 12 -> 0 <= da < month_len y0 (mo + 1) -> -23 <= h < 24 -> -60 <= mi < 60 ->
  n = (day_number y0 (mo + 1) (da + 1) * 24 + h) * 60 + mi -> borrowed n (borrow 6 lf (ce :: yy :: mo :: da :: h :: mi :: tail)).
Proof using Hlf.
  intros Hc Hy0 Hmo Hda Hh Hm Hn.
  assert (forall h mi, -24 <= h < 24 -> 0 <= mi < 60 -> n = (day_number y0 (mo + 1) (da + 1) * 24 + h) * 60 + mi -> borrowed n (borrow 5 lf (ce :: yy :: mo :: da :: h :: mi :: tail))) as H5.
  { clear h mi Hh Hm Hn. intros h mi Hh Hm Hn. change (borrow 5 lf ?l) with (v ← arr_get l 4;
      if v <? 0 then parts ← arr_set l 4 (v + 24); parts ← add_part parts 3 (-1); borrow 4 lf parts else Some (inr l)).
    part_step. destruct (Z.ltb_spec h 0); [|apply borrowed_done, reached_intro; rewrite ?Hy0, ?Hn; (done || lia)].
    part_step. apply borrow_day; try done; try lia. rewrite Hn. unfold day_number. lia. }
  change (borrow 6 lf ?l) with (v ← arr_get l 5;
    if v <? 0 then parts ← arr_set l 5 (v + 60); parts ← add_part parts 4 (-1); borrow 5 lf parts else borrow 5 lf l).
  part_step. destruct (Z.ltb_spec mi 0); part_step; apply H5; lia.
Qed.

End carry.

(** The offset of [oh] hours and [om] minutes, west or east of Greenwich. *)
Lemma apply_zone_spec (west : bool) ce yy mo da h mi s oh om (y := ce * 100 + yy) :
  century_ok ce yy -> 0 <= mo < 12 -> 0 <= da < month_len y (mo + 1) -> 0 <= h < 24 -> 0 <= mi < 60 -> 0 <= oh < 24 -> 0 <= om < 60 ->
  let n := (day_number y (mo + 1) (da + 1) * 24 + h) * 60 + mi + (if west then 1 else -1) * (oh * 60 + om) in
  let r := apply_zone west (if leap y then 1 else 0) [ce; yy; mo; da; h; mi; s; oh; om] in
  (exists parts, r = Some (inr parts) /\ reached n [s; oh; om] parts) \/ (~ 0 <= n < minutes_end /\ r = invalid).
Proof.
  intros Hc Hmo Hda Hh Hmi Hoh Hom n. cbv zeta. unfold apply_zone. repeat progress (cbn [mbind option_bind]; try unfold add_part; access).
  destruct west; cbv iota.
  - destruct (carry_min s oh om _ y eq_refl ce yy mo da (h + 1 * oh) (mi + 1 * om) n) as [?|[? ->]]; try done; try lia; [by left|right]. split; [lia|done].
  - destruct (borrow_min s oh om _ y eq_refl ce yy mo da (h + -1 * oh) (mi + -1 * om) n) as [?|[? ->]]; try done; try lia; [by left|right]. split; [lia|done].
Qed.
