(* ===== verification/GenTimeForm.v ===== *)
(** * Reading generalized times

    [gtime] is the abstract syntax of the values and [print] their text; what the
    functions that read the parts, the fraction and the offset find in a text. *)

From Stdlib Require Import Ascii String.
From S2P Require Import Prelude Text Digits Attr GenTime GenTimeFacts.

Local Open Scope Z_scope.
Local Abbreviation length := List.length.

(** ** Pairs of digits *)

Definition two (c : Z) : text := [digit_char (c / 10); digit_char (c mod 10)].
Definition pairs (l : list Z) : text := l ≫= two.
Definition pair_ok (c : Z) : Prop := 0 <= c < 100.
Definition no_digit (s : text) : Prop := match s with [] => True | c :: _ => is_digit c = false end.

Lemma pair_check (P : Z -> bool) : forallb P (Z.of_nat <$> seq 0 100) = true -> forall c, pair_ok c -> P c = true.
Proof.
  intros H c [H0 H1]. rewrite forallb_forall in H. apply H, list_elem_of_In, list_elem_of_fmap. exists (Z.to_nat c). split; [lia|]. apply elem_of_seq. lia.
Qed.

Lemma two_fmt c : pair_ok c -> two c = fmt_pad 10 2 c.
Proof. intros Hc. apply (bool_decide_eq_true_1 (two c = fmt_pad 10 2 c)). revert c Hc. by apply (pair_check (fun c => bool_decide (two c = fmt_pad 10 2 c))). Qed.

Lemma two_digit c : pair_ok c -> is_digit (digit_char (c / 10)) = true /\ is_digit (digit_char (c mod 10)) = true /\
  schar (digit_char (c mod 10)) + schar (digit_char (c / 10)) * 10 - 48 * 11 = c.
Proof.
  intros Hc. pose proof (pair_check (fun c => bool_decide (is_digit (digit_char (c / 10)) = true /\ is_digit (digit_char (c mod 10)) = true /\
    schar (digit_char (c mod 10)) + schar (digit_char (c / 10)) * 10 - 48 * 11 = c)) ltac:(by vm_compute) c Hc) as H. by apply bool_decide_eq_true in H.
Qed.

Lemma digit_shape c : is_digit c = true -> exists d, 0 <= d < 10 /\ c = digit_char d.
Proof.
  intros E. exists (ascii_code c - 48). unfold is_digit in E. apply andb_true_iff in E as [E1%Z.leb_le E2%Z.leb_le]. split; [lia|].
  unfold digit_char. rewrite (proj2 (Z.ltb_lt _ _)) by lia. unfold ascii_code. replace (48 + (_ - 48)) with (Z.of_N (N_of_ascii c)) by lia.
  by rewrite N2Z.id, ascii_N_embedding.
Qed.

Lemma two_of a b : is_digit a = true -> is_digit b = true -> exists c, pair_ok c /\ [a; b] = two c.
Proof.
  intros (x & Hx & ->)%digit_shape (y & Hy & ->)%digit_shape. exists (x * 10 + y). split; [unfold pair_ok; lia|]. unfold two.
  replace ((x * 10 + y) / 10) with x by (Z.div_mod_to_equations; lia). by replace ((x * 10 + y) mod 10) with y by (Z.div_mod_to_equations; lia).
Qed.

Lemma length_pairs l : length (pairs l) = (2 * length l)%nat.
Proof. unfold pairs. induction l as [|c l IH]; [done|]. cbn in *. lia. Qed.

(** ** The parts *)

Definition month_or_day (part : nat) : bool := (Nat.lor part 1 =? 3)%nat.

(** What is stored for a pair, and whether it is accepted. *)
Definition stored (part : nat) (c : Z) : Z := if month_or_day part then c - 1 else c.
Definition part_ok (part : nat) (v : Z) : bool :=
  negb (month_or_day part && (v <? 0)) && ((v <? default 0 (ceiling !! part)) || ((v =? 60) && (part =? 6)%nat)).

Fixpoint stored_all (part : nat) (l : list Z) : list Z :=
  match l with [] => [] | c :: l => stored part c :: stored_all (S part) l end.
Fixpoint parts_ok (part : nat) (l : list Z) : bool :=
  match l with [] => true | v :: l => part_ok part v && parts_ok (S part) l end.

Lemma length_stored part l : length (stored_all part l) = length l.
Proof. revert part. induction l as [|c l IH]; intros part; [done|]. cbn. by rewrite IH. Qed.

Lemma drop_char_at (val : text) p c r : drop p val = c :: r -> char_at val p = c /\ drop (S p) val = r /\ (p < length val)%nat.
Proof.
  intros E. assert (val !! p = Some c) as Hl by (rewrite <- (Nat.add_0_r p), <- lookup_drop, E; done).
  unfold char_at. rewrite Hl. split; [done|]. split; [|by eapply lookup_lt_Some].
  replace (S p) with (p + 1)%nat by lia. by rewrite <- drop_drop, E.
Qed.

(** One turn at a pair of digits. *)
Lemma read_parts_pair n part val p c r u x v : drop p val = two c ++ r -> pair_ok c -> length u = part -> (part < 9)%nat ->
  read_parts (S n) part val p (u ++ x :: v) =
    if part_ok part (stored part c) then read_parts n (S part) val (S (S p)) ((u ++ [stored part c]) ++ v) else invalid.
Proof.
  intros E Hc Hu Hp. destruct (two_digit c Hc) as (D1 & D2 & V). unfold two in E. apply drop_char_at in E as (C1 & E & L1). apply drop_char_at in E as (C2 & E & L2).
  cbn [read_parts]. rewrite (proj2 (Nat.leb_gt _ _)), C1, D1, C2, D2 by done. cbn [negb]. rewrite (proj2 (Nat.eqb_neq _ _)) by lia.
  unfold two_digits. rewrite C1, C2, V. fold (month_or_day part). fold (stored part c). unfold part_ok.
  destruct (month_or_day part && (stored part c <? 0)); [done|]. cbn [negb andb].
  destruct (lookup_lt_is_Some_2 ceiling part Hp) as [limit Hlim]. rewrite Hlim. cbn [mbind option_bind default from_option id].
  rewrite Z.geb_leb. destruct (Z.leb_spec limit (stored part c)), (Z.ltb_spec (stored part c) limit); try lia; cbn [orb andb].
  - destruct ((stored part c =? 60) && (part =? 6)%nat); cbn [negb]; [|done]. rewrite arr_set_mid by lia. cbn [mbind option_bind]. by rewrite <- app_assoc.
  - rewrite arr_set_mid by lia. cbn [mbind option_bind]. by rewrite <- app_assoc.
Qed.

Lemma read_parts_stop n part val p parts : no_digit (drop p val) -> read_parts n part val p parts = Some (inr (part, p, parts)).
Proof.
  destruct n; [done|]. intros H. cbn [read_parts]. destruct (Nat.leb_spec (length val) p); [done|].
  destruct (drop p val) as [|c r] eqn:E; [apply (f_equal length) in E; rewrite length_drop in E; cbn in E; lia|].
  apply drop_char_at in E as (-> & _). unfold no_digit in H. by rewrite H.
Qed.

(** A text after pairs of digits. *)
Lemma read_parts_pairs cs : forall n part val p rest u v, drop p val = pairs cs ++ rest -> Forall pair_ok cs -> (length cs <= n)%nat ->
  length u = part -> length v = (9 - part)%nat -> (part + length cs < 9)%nat -> (length cs = n \/ no_digit rest) ->
  read_parts n part val p (u ++ v) =
    if parts_ok part (stored_all part cs) then Some (inr ((part + length cs)%nat, (p + 2 * length cs)%nat, u ++ stored_all part cs ++ drop (length cs) v)) else invalid.
Proof.
  induction cs as [|c cs IH]; intros n part val p rest u v E Hcs Hn Hu Hv Hp Hend.
  - cbn [parts_ok stored_all length drop app] in *. rewrite Nat.mul_0_r, !Nat.add_0_r. destruct Hend as [<-|Hend]; [done|]. apply read_parts_stop. by rewrite E.
  - apply list.Forall_cons in Hcs as [Hc Hcs]. destruct n as [|n]; [cbn in Hn; lia|]. destruct v as [|x v]; [cbn in *; lia|].
    cbn [length] in *. rewrite (read_parts_pair n part val p c (pairs cs ++ rest)) by (done || lia || (rewrite E; cbn; done)).
    cbn [parts_ok stored_all]. destruct (part_ok part (stored part c)); cbn [andb]; [|done].
    apply drop_char_at in E as (_ & E & _). apply drop_char_at in E as (_ & E & _).
    rewrite (IH n (S part) val (S (S p)) rest) by (done || lia || (rewrite length_app; cbn; lia) || (destruct Hend; [left|right]; (done || lia))).
    rewrite <- app_assoc. case_if; [|done]. replace (S part + length cs)%nat with (part + S (length cs))%nat by lia.
    by replace (S (S p) + 2 * length cs)%nat with (p + 2 * S (length cs))%nat by lia.
Qed.

(** Every text begins with pairs of digits; one digit may follow. *)
Lemma split_pairs n : forall s, exists cs rest, s = pairs cs ++ rest /\ Forall pair_ok cs /\ (length cs <= n)%nat /\
  (length cs = n \/ no_digit rest \/ exists d r, rest = d :: r /\ is_digit d = true /\ no_digit r).
Proof.
  induction n as [|n IH]; intros s; [exists [], s; split_and!; (done || by left)|].
  destruct s as [|a s]; [exists [], []; split_and!; [done|constructor|cbn; lia|right; by left]|].
  destruct (is_digit a) eqn:Ea; [|exists [], (a :: s); split_and!; [done|constructor|cbn; lia|right; by left]].
  destruct s as [|b s]; [exists [], [a]; split_and!; [done|constructor|cbn; lia|right; right; by exists a, []]|].
  destruct (is_digit b) eqn:Eb; [|exists [], (a :: b :: s); split_and!; [done|constructor|cbn; lia|right; right; by exists a, (b :: s)]].
  destruct (two_of a b Ea Eb) as (c & Hc & E). destruct (IH s) as (cs & rest & -> & Hcs & Hl & Hend). exists (c :: cs), rest.
  split_and!; [|by constructor|cbn; lia|].
  - change (a :: b :: pairs cs ++ rest) with ([a; b] ++ pairs cs ++ rest). by rewrite E, app_assoc.
  - destruct Hend as [<-|Hend]; [by left|by right].
Qed.

(** A single digit is refused. *)
Lemma read_parts_single n part val p d r parts : (0 < n)%nat -> drop p val = d :: r -> is_digit d = true -> no_digit r -> read_parts n part val p parts = invalid.
Proof.
  intros Hn E Hd Hr. destruct n as [|n]; [lia|]. apply drop_char_at in E as (C & E & L). cbn [read_parts].
  rewrite (proj2 (Nat.leb_gt _ _)), C, Hd by done. cbn [negb]. destruct (Nat.eqb_spec (S p) (length val)); [done|].
  destruct r as [|c r]; [apply (f_equal length) in E; rewrite length_drop in E; cbn in E; lia|]. apply drop_char_at in E as (-> & _). unfold no_digit in Hr. by rewrite Hr.
Qed.

Lemma read_parts_odd cs : forall n part val p d r u v, drop p val = pairs cs ++ d :: r -> Forall pair_ok cs -> (length cs < n)%nat ->
  length u = part -> length v = (9 - part)%nat -> (part + length cs < 9)%nat -> is_digit d = true -> no_digit r ->
  read_parts n part val p (u ++ v) = invalid.
Proof.
  induction cs as [|c cs IH]; intros n part val p d r u v E Hcs Hn Hu Hv Hp Hd Hr; [apply (read_parts_single n part val p d r); (done || (cbn in Hn; lia))|].
  apply list.Forall_cons in Hcs as [Hc Hcs]. destruct n as [|n]; [cbn in Hn; lia|]. cbn [length] in *. destruct v as [|x v]; [cbn in *; lia|].
  rewrite (read_parts_pair n part val p c (pairs cs ++ d :: r)) by (done || lia || (rewrite E; cbn; done)). case_if; [|done].
  apply drop_char_at in E as (_ & E & _). apply drop_char_at in E as (_ & E & _).
  eapply (IH n (S part)); try done; rewrite ?length_app; cbn in *; lia.
Qed.

(** ** The fraction *)

Definition all_digits_ok (ds : text) : Prop := Forall (fun c => is_digit c = true) ds.

Definition trim_zeros (ds : text) : text := fold_right (fun c r => match r with [] => if Ascii.eqb c "0" then [] else [c] | _ => c :: r end) [] ds.

Lemma trim_app ds es : trim_zeros es <> [] -> trim_zeros (ds ++ es) = ds ++ trim_zeros es.
Proof. intros H. induction ds as [|d ds IH]; [done|]. cbn [app trim_zeros fold_right]. fold (trim_zeros (ds ++ es)). rewrite IH. destruct ds; cbn; [by destruct (trim_zeros es)|done]. Qed.

Lemma trim_app_nil ds es : trim_zeros es = [] -> trim_zeros (ds ++ es) = trim_zeros ds.
Proof. intros H. induction ds as [|d ds IH]; [done|]. cbn [app trim_zeros fold_right]. fold (trim_zeros (ds ++ es)). by rewrite IH. Qed.

Lemma trim_snoc ds c : trim_zeros (ds ++ [c]) = if Ascii.eqb c "0" then trim_zeros ds else ds ++ [c].
Proof.
  destruct (Ascii.eqb c "0") eqn:E.
  - apply trim_app_nil. cbn. by rewrite E.
  - rewrite trim_app; cbn; by rewrite E.
Qed.

Lemma trim_prefix ds : exists k, trim_zeros ds = take k ds.
Proof.
  induction ds as [|c ds IH] using rev_ind; [by exists O|]. rewrite trim_snoc. destruct IH as [k Hk]. destruct (Ascii.eqb c "0").
  - exists (k `min` length ds)%nat. rewrite take_app_le by lia. rewrite Hk. destruct (decide (k <= length ds)%nat); [by rewrite Nat.min_l|]. rewrite Nat.min_r, !take_ge by lia. done.
  - exists (length (ds ++ [c])). by rewrite take_ge.
Qed.

Lemma digit_not_Z c : is_digit c = true -> Ascii.eqb c "Z" = false.
Proof. intros (d & Hd & ->)%digit_shape. apply (bool_decide_eq_true_1 _). pose proof (pair_check (fun d => implb (d <? 10) (bool_decide (Ascii.eqb (digit_char d) "Z" = false))) ltac:(by vm_compute) d ltac:(unfold pair_ok; lia)) as H. cbn beta in H. by rewrite (proj2 (Z.ltb_lt d 10)) in H by lia. Qed.

Lemma char_at_app u c v i : i = length u -> char_at (u ++ c :: v) i = c.
Proof. intros ->. unfold char_at. by rewrite list_lookup_middle. Qed.

(** Zeros in front of a digit are all taken off. *)
Lemma end_num_inner u sep ds c v : sep <> "0"%char -> is_digit c = true ->
  end_num (S (length u) + length ds) (u ++ sep :: ds ++ c :: v) (length u) = (S (length u) + length (trim_zeros ds))%nat.
Proof.
  intros Hsep. revert c v. induction ds as [|d ds IH] using rev_ind; intros c v Hc.
  - cbn [app length trim_zeros fold_right]. rewrite !Nat.add_0_r. cbn [end_num]. rewrite char_at_app by done.
    destruct (Ascii.eqb_spec sep "0"); [done|]. cbn [negb]. lia.
  - rewrite length_app. cbn [length]. replace (S (length u) + (length ds + 1))%nat with (S (S (length u) + length ds)) by lia. cbn [end_num].
    rewrite <- app_assoc. cbn [app]. rewrite trim_snoc.
    assert (char_at (u ++ sep :: ds ++ d :: c :: v) (S (length u) + length ds) = d) as ->.
    { replace (u ++ sep :: ds ++ d :: c :: v) with ((u ++ sep :: ds) ++ d :: c :: v) by (by rewrite <- app_assoc). apply char_at_app. rewrite length_app. cbn. rewrite ?length_app. cbn. lia. }
    destruct (Ascii.eqb d "0") eqn:Ed; cbn [negb]; [|rewrite length_app; cbn; lia].
    assert (char_at (u ++ sep :: ds ++ d :: c :: v) (S (S (length u) + length ds)) = c) as ->.
    { replace (u ++ sep :: ds ++ d :: c :: v) with ((u ++ sep :: ds ++ [d]) ++ c :: v) by (rewrite <- app_assoc; cbn; by rewrite <- app_assoc). apply char_at_app. rewrite length_app. cbn. rewrite ?length_app. cbn. lia. }
    rewrite digit_not_Z by done. cbn [andb]. apply (IH d (c :: v)). apply Ascii.eqb_eq in Ed as ->. done.
Qed.

(** What is kept of the digits of a fraction: all of them if the value is one of 22
    characters whose six digits are followed by a Z. *)
Definition kept_digits (ds rest : text) (len : nat) : text :=
  if (len =? 22)%nat && (length ds =? 6)%nat && bool_decide (rest = ["Z"%char]) then ds else trim_zeros ds.

Lemma end_num_spec u sep ds rest : sep <> "0"%char -> ds <> [] -> all_digits_ok ds -> (rest = ["Z"%char] \/ char_at rest 0 <> "Z"%char) ->
  end_num (S (length u) + length ds) (u ++ sep :: ds ++ rest) (length u) =
    (S (length u) + length (kept_digits ds rest (length (u ++ sep :: ds ++ rest))))%nat.
Proof.
  intros Hsep Hne Hds Hr. unfold all_digits_ok in Hds. destruct (exists_last Hne) as (es & d & ->). apply list.Forall_app in Hds as [_ Hd]. apply list.Forall_cons in Hd as [Hd _].
  assert (forall i, (length (es ++ [d]) = i)%nat -> char_at (u ++ sep :: (es ++ [d]) ++ rest) (S (length u) + i) = char_at rest 0) as Hrest.
  { intros i <-. unfold char_at. replace (u ++ sep :: (es ++ [d]) ++ rest) with ((u ++ sep :: es ++ [d]) ++ rest) by (by rewrite <- app_assoc).
    assert (length (u ++ sep :: es ++ [d]) = S (length u) + length (es ++ [d]))%nat as E by (rewrite length_app; cbn; lia).
    rewrite lookup_app_r by lia. by rewrite E, Nat.sub_diag. }
  unfold kept_digits. rewrite trim_snoc. assert (forall c : ascii, length (es ++ [c]) = length es + 1)%nat as Hl by (intros c; apply length_app). rewrite !Hl.
  replace (S (length u) + (length es + 1))%nat with (S (S (length u) + length es)) by lia. cbn [end_num].
  assert (char_at (u ++ sep :: (es ++ [d]) ++ rest) (S (length u) + length es) = d) as ->.
  { replace (u ++ sep :: (es ++ [d]) ++ rest) with ((u ++ sep :: es) ++ d :: rest) by (rewrite <- !app_assoc; done). apply char_at_app. rewrite length_app. cbn. lia. }
  destruct (Ascii.eqb d "0") eqn:Ed; cbn [negb]; [|case_if; rewrite Hl; lia].
  apply Ascii.eqb_eq in Ed as ->. replace (S (S (length u) + length es)) with (S (length u) + (length es + 1))%nat by lia. rewrite Hrest by done.
  destruct Hr as [->|Hr].
  - change (char_at ["Z"%char] 0) with "Z"%char. change (Ascii.eqb "Z" "Z") with true. cbn [andb]. rewrite bool_decide_eq_true_2 by done. rewrite andb_true_r.
    assert (char_at (u ++ sep :: (es ++ ["0"%char]) ++ ["Z"%char]) (S (S (length u) + (length es + 1))) = "000"%char) as ->.
    { unfold char_at. rewrite lookup_ge_None_2; [done|]. rewrite length_app. cbn. rewrite !length_app. cbn. lia. }
    change (Ascii.eqb "000" "000") with true. cbn [andb].
    replace (S (length u) + (length es + 1) - length u =? 7)%nat with (length es + 1 =? 6)%nat by (destruct (Nat.eqb_spec (length es + 1) 6), (Nat.eqb_spec (S (length u) + (length es + 1) - length u) 7); (done || lia)).
    case_if; [rewrite Hl; lia|]. rewrite <- app_assoc. apply end_num_inner; [done|done].
  - destruct (Ascii.eqb_spec (char_at rest 0) "Z"); [done|]. cbn [andb].
    rewrite bool_decide_eq_false_2 by (intros ->; by apply Hr). rewrite andb_false_r, <- app_assoc. by apply end_num_inner.
Qed.

Definition separator (c : ascii) : Prop := c = "."%char \/ c = ","%char.
Definition frac_text (f : option (ascii * text)) : text := match f with Some (sep, ds) => sep :: ds | None => [] end.
Definition frac_ok (f : option (ascii * text)) : Prop := match f with Some (sep, ds) => separator sep /\ ds <> [] /\ all_digits_ok ds | None => True end.

(** What the reader returns of a fraction. *)
Definition kept_fraction (f : option (ascii * text)) (rest : text) (len : nat) : text :=
  match f with Some (sep, ds) => match kept_digits ds rest len with [] => [] | k => sep :: k end | None => [] end.

Lemma count_digits_app ds rest : all_digits_ok ds -> no_digit rest -> count_digits (ds ++ rest) = length ds.
Proof.
  unfold all_digits_ok. intros Hd Hr. induction Hd as [|d ds Hd Hds IH]; [|cbn; by rewrite Hd, IH].
  destruct rest as [|c r]; [done|]. cbn in *. by rewrite Hr.
Qed.

Lemma digit_prefix s : exists ds rest, s = ds ++ rest /\ all_digits_ok ds /\ no_digit rest.
Proof.
  unfold all_digits_ok. induction s as [|c s (ds & rest & -> & Hd & Hr)]; [by exists [], []|]. destruct (is_digit c) eqn:E.
  - exists (c :: ds), rest. split; [done|]. split; [by constructor|done].
  - by exists [], (c :: ds ++ rest).
Qed.

Lemma kept_prefix ds rest len : exists k, kept_digits ds rest len = take k ds.
Proof. unfold kept_digits. case_if; [by exists (length ds); rewrite take_ge|apply trim_prefix]. Qed.

Lemma read_fraction_spec u f rest : frac_ok f -> no_digit rest -> (rest = ["Z"%char] \/ char_at rest 0 <> "Z"%char) ->
  ~ separator (char_at rest 0) -> (u ++ frac_text f ++ rest <> u) ->
  read_fraction (u ++ frac_text f ++ rest) (length u) =
    Some (inr ((length u + length (frac_text f))%nat, kept_fraction f rest (length (u ++ frac_text f ++ rest)))).
Proof.
  intros Hf Hd Hr Hs Hne. unfold read_fraction. destruct f as [[sep ds]|]; cbn [frac_text] in *.
  - destruct Hf as (Hsep & Hds & Had). cbn [app]. rewrite char_at_app by done. rewrite (proj2 (Nat.ltb_lt _ _)) by (rewrite length_app; cbn; lia).
    assert (Ascii.eqb sep "." || Ascii.eqb sep "," = true) as -> by (by destruct Hsep as [->| ->]). cbn [andb].
    assert (drop (S (length u)) (u ++ sep :: ds ++ rest) = ds ++ rest) as ->.
    { replace (S (length u)) with (length u + 1)%nat by lia. by rewrite <- drop_drop, drop_app_length. }
    rewrite count_digits_app by done. destruct ds as [|d ds]; [done|]. set (dl := d :: ds) in *. assert (0 < length dl)%nat as Hp by (cbn; lia).
    destruct (Nat.eqb_spec (S (length u) + length dl - length u) 1); [lia|]. assert (sep <> "0"%char) as Hs0 by (by destruct Hsep as [->| ->]).
    pose proof (end_num_spec u sep dl rest Hs0 Hds Had Hr) as E. rewrite E. clear E. cbn [kept_fraction].
    destruct (kept_prefix dl rest (length (u ++ sep :: dl ++ rest))) as [k Hk]. set (kd := kept_digits _ _ _) in *.
    replace (S (length u) + length kd - length u)%nat with (S (length kd)) by lia.
    replace (length u + length (sep :: dl))%nat with (S (length u) + length dl)%nat by (cbn; lia). do 3 f_equal.
    assert (sub (u ++ sep :: dl ++ rest) (length u) (S (length kd)) = sep :: kd) as ->.
    { unfold sub. rewrite drop_app_length. cbn [take]. f_equal. rewrite Hk, length_take, take_app_le by lia.
      destruct (decide (k <= length dl)%nat); [by rewrite Nat.min_l|]. by rewrite Nat.min_r, !take_ge by lia. }
    by destruct kd.
  - cbn [app] in *. assert (char_at (u ++ rest) (length u) = char_at rest 0) as -> by (unfold char_at; by rewrite lookup_app_r, Nat.sub_diag by lia).
    destruct (Ascii.eqb_spec (char_at rest 0) "."), (Ascii.eqb_spec (char_at rest 0) ","); try (destruct Hs; (by left) || (by right)).
    cbn [orb]. rewrite andb_false_r. cbn [length kept_fraction]. by rewrite Nat.add_0_r.
Qed.

(** ** The offset *)

Definition zone_part_ok (part : nat) (v : Z) : bool := v <? default 0 (ceiling !! part).
Fixpoint zone_parts_ok (part : nat) (l : list Z) : bool :=
  match l with [] => true | v :: l => zone_part_ok part v && zone_parts_ok (S part) l end.

Lemma read_zone_pair n part val p c r u x v : drop p val = two c ++ r -> pair_ok c -> length u = part -> (part < 9)%nat ->
  read_zone (S n) part val p (u ++ x :: v) = if zone_part_ok part c then read_zone n (S part) val (S (S p)) ((u ++ [c]) ++ v) else invalid.
Proof.
  intros E Hc Hu Hp. destruct (two_digit c Hc) as (D1 & D2 & V). unfold two in E. apply drop_char_at in E as (C1 & E & L1). apply drop_char_at in E as (C2 & E & L2).
  cbn [read_zone]. rewrite (proj2 (Nat.leb_gt _ _)), C1, D1, C2, D2 by done. cbn [negb]. rewrite (proj2 (Nat.eqb_neq _ _)) by lia.
  unfold two_digits. rewrite C1, C2, V, arr_set_mid by lia. cbn [mbind option_bind]. unfold zone_part_ok.
  destruct (lookup_lt_is_Some_2 ceiling part Hp) as [limit Hlim]. rewrite Hlim. cbn [mbind option_bind default from_option id].
  rewrite Z.geb_leb, <- app_assoc. by destruct (Z.leb_spec limit c), (Z.ltb_spec c limit); try lia.
Qed.

Lemma read_zone_stop n part val p parts : no_digit (drop p val) -> read_zone n part val p parts = Some (inr (part, p, parts)).
Proof.
  destruct n; [done|]. intros H. cbn [read_zone]. destruct (Nat.leb_spec (length val) p); [done|].
  destruct (drop p val) as [|c r] eqn:E; [apply (f_equal length) in E; rewrite length_drop in E; cbn in E; lia|].
  apply drop_char_at in E as (-> & _). unfold no_digit in H. by rewrite H.
Qed.

Lemma read_zone_pairs cs : forall n part val p rest u v, drop p val = pairs cs ++ rest -> Forall pair_ok cs -> (length cs <= n)%nat ->
  length u = part -> length v = (9 - part)%nat -> (part + length cs <= 9)%nat -> (length cs = n \/ no_digit rest) ->
  read_zone n part val p (u ++ v) =
    if zone_parts_ok part cs then Some (inr ((part + length cs)%nat, (p + 2 * length cs)%nat, u ++ cs ++ drop (length cs) v)) else invalid.
Proof.
  induction cs as [|c cs IH]; intros n part val p rest u v E Hcs Hn Hu Hv Hp Hend.
  - cbn [zone_parts_ok length drop app] in *. rewrite Nat.mul_0_r, !Nat.add_0_r. destruct Hend as [<-|Hend]; [done|]. apply read_zone_stop. by rewrite E.
  - apply list.Forall_cons in Hcs as [Hc Hcs]. destruct n as [|n]; [cbn in Hn; lia|]. cbn [length] in *. destruct v as [|x v]; [cbn in *; lia|].
    cbn [length] in *. rewrite (read_zone_pair n part val p c (pairs cs ++ rest)) by (done || lia || (rewrite E; cbn; done)).
    cbn [zone_parts_ok]. destruct (zone_part_ok part c); cbn [andb]; [|done].
    apply drop_char_at in E as (_ & E & _). apply drop_char_at in E as (_ & E & _).
    rewrite (IH n (S part) val (S (S p)) rest) by (done || lia || (rewrite length_app; cbn; lia) || (destruct Hend; [left|right]; (done || lia))).
    rewrite <- app_assoc. case_if; [|done]. replace (S part + length cs)%nat with (part + S (length cs))%nat by lia.
    by replace (S (S p) + 2 * length cs)%nat with (p + 2 * S (length cs))%nat by lia.
Qed.

Lemma read_zone_odd cs : forall n part val p d r u v, drop p val = pairs cs ++ d :: r -> Forall pair_ok cs -> (length cs < n)%nat ->
  length u = part -> length v = (9 - part)%nat -> (part + length cs < 9)%nat -> is_digit d = true -> no_digit r ->
  read_zone n part val p (u ++ v) = invalid.
Proof.
  induction cs as [|c cs IH]; intros n part val p d r u v E Hcs Hn Hu Hv Hp Hd Hr.
  - destruct n as [|n]; [cbn in Hn; lia|]. apply drop_char_at in E as (C & E & L). cbn [read_zone]. fold (pairs []) in *. cbn [pairs mbind list_bind app] in *.
    rewrite (proj2 (Nat.leb_gt _ _)), C, Hd by done. cbn [negb]. destruct (Nat.eqb_spec (S p) (length val)); [done|].
    destruct r as [|c r]; [apply (f_equal length) in E; rewrite length_drop in E; cbn in E; lia|]. apply drop_char_at in E as (-> & _). unfold no_digit in Hr. by rewrite Hr.
  - apply list.Forall_cons in Hcs as [Hc Hcs]. destruct n as [|n]; [cbn in Hn; lia|]. cbn [length] in *. destruct v as [|x v]; [cbn in *; lia|].
    rewrite (read_zone_pair n part val p c (pairs cs ++ d :: r)) by (done || lia || (rewrite E; cbn; done)). case_if; [|done].
    apply drop_char_at in E as (_ & E & _). apply drop_char_at in E as (_ & E & _).
    eapply (IH n (S part)); try done; rewrite ?length_app; cbn in *; lia.
Qed.

(** ** Generalized times *)

Record gtime := mkGtime {
  g_parts : list Z;                        (* YY YY mm dd HH [MM [SS]] *)
  g_frac : option (ascii * text);          (* separator and digits *)
  g_zone : option (bool * list Z) }.       (* west of Greenwich, HH [MM]; none is Z *)

Definition zone_text (z : option (bool * list Z)) : text :=
  match z with Some (west, l) => (if west : bool then "-"%char else "+"%char) :: pairs l | None => ["Z"%char] end.
Definition print (g : gtime) : text := pairs g.(g_parts) ++ frac_text g.(g_frac) ++ zone_text g.(g_zone).

Definition zone_form_ok (z : option (bool * list Z)) : Prop :=
  match z with Some (_, l) => Forall pair_ok l /\ (1 <= length l <= 2)%nat | None => True end.
Definition form_ok (g : gtime) : Prop :=
  Forall pair_ok g.(g_parts) /\ (5 <= length g.(g_parts) <= 7)%nat /\ frac_ok g.(g_frac) /\ zone_form_ok g.(g_zone).

Definition part_at (l : list Z) (i : nat) : Z := default 0 (l !! i).

(** The stamp as it is written, in local time, and the offset to UTC in minutes. *)
Definition g_stamp (g : gtime) : stamp :=
  let at_ := part_at g.(g_parts) in mkStamp (at_ 0%nat * 100 + at_ 1%nat) (at_ 2%nat) (at_ 3%nat) (at_ 4%nat) (at_ 5%nat) (at_ 6%nat).
Definition g_offset (g : gtime) : Z :=
  match g.(g_zone) with Some (west, l) => (if west : bool then -1 else 1) * (part_at l 0 * 60 + part_at l 1) | None => 0 end.
Definition zone_ok (g : gtime) : Prop :=
  match g.(g_zone) with Some (_, l) => part_at l 0 < 24 /\ part_at l 1 < 60 | None => True end.
Definition utc_minutes (g : gtime) : Z := minute_number (g_stamp g) - g_offset g.
