(* ===== verification/GenTimeTheorems.v ===== *)
(** * Generalized times denote instants

    Validation accepts exactly the texts of the syntax that name an existing minute of
    the years 0 to 9999; normalisation gives the text of the same instant in UTC; the
    ordering rule compares the instants. *)

From Stdlib Require Import Ascii String.
From S2P Require Import Prelude Text Digits Attr GenTime GenTimeFacts GenTimeForm.

Local Open Scope Z_scope.
Local Abbreviation length := List.length.

Lemma parts_shape cs junk : Forall pair_ok cs -> (5 <= length cs <= 7)%nat -> length junk = 9%nat ->
  zero_parts (length cs) (stored_all 0 cs ++ drop (length cs) junk) =
    [part_at cs 0; part_at cs 1; part_at cs 2 - 1; part_at cs 3 - 1; part_at cs 4; part_at cs 5; part_at cs 6; 0; 0] /\
  (Forall pair_ok [part_at cs 0; part_at cs 1; part_at cs 2; part_at cs 3; part_at cs 4; part_at cs 5; part_at cs 6]) /\
  (parts_ok 0 (stored_all 0 cs) = true <->
    0 <= part_at cs 2 - 1 < 12 /\ 0 <= part_at cs 3 - 1 < 31 /\ 0 <= part_at cs 4 < 24 /\ 0 <= part_at cs 5 < 60 /\ 0 <= part_at cs 6 <= 60).
Proof.
  intros Hcs Hl Hj. split.
  { unfold zero_parts. rewrite take_app_le, take_ge by (rewrite length_stored; lia).
    destruct cs as [|c0 [|c1 [|c2 [|c3 [|c4 [|c5 [|c6 [|]]]]]]]]; cbn in Hl; try lia; done. }
  assert (pair_ok 0) by (unfold pair_ok; lia).
  destruct cs as [|c0 [|c1 [|c2 [|c3 [|c4 [|c5 [|c6 [|]]]]]]]]; cbn [length] in Hl; try lia; unfold part_at; cbn [lookup list_lookup default from_option id];
    repeat (apply list.Forall_cons in Hcs as [? Hcs]); (split; [repeat (constructor; [done|]); constructor|]);
    cbn [stored_all parts_ok]; unfold stored, part_ok; change (month_or_day 0) with false; change (month_or_day 1) with false;
    change (month_or_day 2) with true; change (month_or_day 3) with true; change (month_or_day 4) with false;
    try change (month_or_day 5) with false; try change (month_or_day 6) with false;
    cbn [andb negb ceiling lookup list_lookup default from_option id Nat.eqb]; unfold pair_ok in *;
    rewrite ?andb_true_iff, ?orb_true_iff, ?andb_true_iff, ?negb_true_iff, ?Z.ltb_lt, ?Z.ltb_ge, ?Z.eqb_eq; intuition (try lia; try discriminate).
Qed.

Lemma first_of_zone z : zone_form_ok z -> no_digit (zone_text z) /\ (zone_text z = ["Z"%char] \/ char_at (zone_text z) 0 <> "Z"%char) /\ ~ separator (char_at (zone_text z) 0).
Proof. destruct z as [[[] l]|]; intros _; (split; [done|]); (split; [first [by left|by right]|]); unfold separator; cbn; intros [E|E]; discriminate. Qed.

(** What the second half of the check does: the offset, for parts in range. *)
Definition shifted (g : gtime) (fraction : text) (r : outcome (list Z * text)) : Prop :=
  (zone_ok g /\ exists parts oh om, r = Some (inr (parts, fraction)) /\ reached (utc_minutes g) [st_sec (g_stamp g); oh; om] parts) \/
  (r = invalid /\ ~ (zone_ok g /\ 0 <= utc_minutes g < minutes_end)).

Definition zone_step (val : text) (p : nat) (leapyear : Z) (parts : list Z) (fraction : text) : outcome (list Z * text) :=
  if (p =? length val)%nat then invalid else
  let tzoffset := char_at val p in
  let p := S p in
  if Ascii.eqb tzoffset "Z" then
    if negb (p =? length val)%nat then invalid else Some (inr (parts, fraction))
  else if Ascii.eqb tzoffset "+" || Ascii.eqb tzoffset "-" then
    r ← read_zone 2 7 val p parts;
    match r with
    | inl rc => Some (inl rc)
    | inr (part, p, parts) =>
        if (part <? 8)%nat then invalid else
        r ← apply_zone (Ascii.eqb tzoffset "-") leapyear parts;
        match r with
        | inl rc => Some (inl rc)
        | inr parts => if negb (p =? length val)%nat then invalid else Some (inr (parts, fraction))
        end
    end
  else invalid.

Lemma zone_step_exact g u c0 c1 c2 c3 c4 c5 c6 fraction : form_ok g ->
  g_stamp g = mkStamp (c0 * 100 + c1) c2 c3 c4 c5 c6 -> stamp_ok (g_stamp g) -> century_ok c0 c1 ->
  shifted g fraction (zone_step (u ++ zone_text g.(g_zone)) (length u) (if leap (c0 * 100 + c1) then 1 else 0)
    [c0; c1; c2 - 1; c3 - 1; c4; c5; c6; 0; 0] fraction).
Proof.
  intros (_ & _ & _ & Hz) Hst Hok Hcen. pose proof Hok as (_ & Hmo & Hda & Hh & Hmi & _). rewrite Hst in Hmo, Hda, Hh, Hmi. cbn [st_year st_month st_day st_hour st_min] in *.
  assert (utc_minutes g = (day_number (c0 * 100 + c1) (c2 - 1 + 1) (c3 - 1 + 1) * 24 + c4) * 60 + c5 - g_offset g) as Hu.
  { unfold utc_minutes. rewrite Hst. unfold minute_number. cbn [st_year st_month st_day st_hour st_min]. by rewrite !Z.sub_add. }
  assert (st_sec (g_stamp g) = c6) as Hsec by by rewrite Hst. unfold zone_step.
  assert (length (u ++ zone_text (g_zone g)) = (length u + length (zone_text (g_zone g)))%nat) as Hlen by apply length_app. rewrite Hlen.
  destruct (g_zone g) as [[west l]|] eqn:Ez; cbn [zone_text zone_form_ok] in *.
  - destruct Hz as [Hl Hl2]. cbn [length] in *. destruct (Nat.eqb_spec (length u) (length u + S (length (pairs l)))); [lia|].
    rewrite char_at_app by done. assert (drop (S (length u)) (u ++ (if west then "-"%char else "+"%char) :: pairs l) = pairs l ++ []) as Hd.
    { rewrite app_nil_r. replace (S (length u)) with (length u + 1)%nat by lia. by rewrite <- drop_drop, drop_app_length. }
    assert (Ascii.eqb (if west then "-"%char else "+"%char) "Z" = false /\ (Ascii.eqb (if west then "-"%char else "+"%char) "+" || Ascii.eqb (if west then "-"%char else "+"%char) "-") = true /\
      Ascii.eqb (if west then "-"%char else "+"%char) "-" = west) as (-> & -> & ->) by by destruct west.
    change [c0; c1; c2 - 1; c3 - 1; c4; c5; c6; 0; 0] with ([c0; c1; c2 - 1; c3 - 1; c4; c5; c6] ++ [0; 0]).
    rewrite (read_zone_pairs l 2 7 _ _ [] [c0; c1; c2 - 1; c3 - 1; c4; c5; c6] [0; 0] Hd) by (done || lia || by right).
    rewrite length_pairs.
    assert ((S (length u) + 2 * length l =? length u + S (2 * length l))%nat = true) as Hend by (apply Nat.eqb_eq; lia).
    assert (zone_parts_ok 7 l = true <-> zone_ok g) as Hzo.
    { unfold zone_ok. rewrite Ez. destruct l as [|oh [|om [|]]]; cbn in Hl2; try lia; unfold part_at; cbn [zone_parts_ok lookup list_lookup default from_option id];
        unfold zone_part_ok; cbn [ceiling lookup list_lookup default from_option id]; rewrite ?andb_true_iff, ?Z.ltb_lt; lia || tauto. }
    destruct (zone_parts_ok 7 l) eqn:Ezo; [|right; split; [done|]; intros [Hzk _]; by apply Hzo in Hzk]. cbn [mbind option_bind].
    rewrite (proj2 (Nat.ltb_ge _ _)) by lia.
    assert ([c0; c1; c2 - 1; c3 - 1; c4; c5; c6] ++ l ++ drop (length l) [0; 0] = [c0; c1; c2 - 1; c3 - 1; c4; c5; c6; part_at l 0; part_at l 1]) as ->.
    { destruct l as [|oh [|om [|]]]; cbn in Hl2; (lia || done). }
    destruct (Hzo) as [Hzk _]. specialize (Hzk eq_refl). unfold zone_ok in Hzk. rewrite Ez in Hzk.
    assert (0 <= part_at l 0 /\ 0 <= part_at l 1) as [P0 P1].
    { unfold part_at. destruct l as [|oh [|om [|]]]; cbn in Hl2; try lia; repeat (apply list.Forall_cons in Hl as [? Hl]); unfold pair_ok in *; cbn; lia. }
    pose proof (apply_zone_spec west c0 c1 (c2 - 1) (c3 - 1) c4 c5 c6 (part_at l 0) (part_at l 1) Hcen ltac:(lia) ltac:(rewrite Z.sub_add; lia) ltac:(lia) ltac:(lia) ltac:(lia) ltac:(lia)) as Hap.
    cbv zeta in Hap. assert (utc_minutes g = (day_number (c0 * 100 + c1) (c2 - 1 + 1) (c3 - 1 + 1) * 24 + c4) * 60 + c5 + (if west then 1 else -1) * (part_at l 0 * 60 + part_at l 1)) as Hu'.
    { rewrite Hu. unfold g_offset. rewrite Ez. destruct west; lia. }
    rewrite <- Hu' in Hap. destruct Hap as [(parts & -> & Hr)|[Hno ->]]; cbn [mbind option_bind]; rewrite ?Hend; cbn [negb].
    + left. split; [by apply Hzo|]. exists parts, (part_at l 0), (part_at l 1). split; [done|]. rewrite Hsec. exact Hr.
    + right. split; [done|tauto].
  - cbn [length]. destruct (Nat.eqb_spec (length u) (length u + 1)); [lia|]. rewrite char_at_app by done. change (Ascii.eqb "Z" "Z") with true. cbv iota.
    rewrite (proj2 (Nat.eqb_eq _ _)) by lia. left. split; [unfold zone_ok; by rewrite Ez|]. exists [c0; c1; c2 - 1; c3 - 1; c4; c5; c6; 0; 0], 0, 0. split; [done|]. rewrite Hsec.
    apply reached_intro; try done; [lia|rewrite Z.sub_add; lia|]. rewrite Hu. unfold g_offset. rewrite Ez. lia.
Qed.

(** The check on the text of an abstract value. *)
Lemma check_exact g junk (fraction := kept_fraction g.(g_frac) (zone_text g.(g_zone)) (length (print g))) : form_ok g -> length junk = 9%nat ->
  (stamp_ok (g_stamp g) /\ shifted g fraction (check_time_syntax (print g) junk)) \/
  (check_time_syntax (print g) junk = invalid /\ ~ stamp_ok (g_stamp g)).
Proof.
  intros Hf Hj. pose proof Hf as (Hp & Hpl & Hfr & Hz). destruct (first_of_zone _ Hz) as (Z1 & Z2 & Z3). destruct (parts_shape _ junk Hp Hpl Hj) as (Hparts & Hps & Hpok).
  unfold check_time_syntax. change (read_parts 7 0 (print g) 0 junk) with (read_parts 7 0 (print g) 0 ([] ++ junk)).
  assert (no_digit (frac_text (g_frac g) ++ zone_text (g_zone g))) as Hnd.
  { destruct (g_frac g) as [[sep ds]|]; [|exact Z1]. destruct Hfr as [[->| ->] _]; done. }
  rewrite (read_parts_pairs (g_parts g) 7 0 (print g) 0 (frac_text (g_frac g) ++ zone_text (g_zone g)) [] junk) by (done || lia || by right).
  set (at_ := part_at (g_parts g)) in *.
  assert (g_stamp g = mkStamp (at_ 0%nat * 100 + at_ 1%nat) (at_ 2%nat) (at_ 3%nat) (at_ 4%nat) (at_ 5%nat) (at_ 6%nat)) as Hst by done.
  repeat (apply list.Forall_cons in Hps as [? Hps]). unfold pair_ok in *.
  assert (century_ok (at_ 0%nat) (at_ 1%nat)) as Hcen by (split; lia).
  destruct (parts_ok 0 (stored_all 0 (g_parts g))) eqn:Eok.
  2: { right. split; [done|]. intros (Hy & Hmo & Hda & Hh & Hmi & Hs). rewrite Hst in *. cbn [st_year st_month st_day st_hour st_min st_sec] in *.
    pose proof (month_len_range (at_ 0%nat * 100 + at_ 1%nat) (at_ 2%nat)). assert (false = true) by (apply Hpok; lia). done. }
  destruct Hpok as [Hpok _]. specialize (Hpok eq_refl). cbn [mbind option_bind Nat.add app]. rewrite (proj2 (Nat.ltb_ge _ _)) by lia. rewrite Hparts. access. cbn [mbind option_bind].
  rewrite (leapyear_spec _ _ Hcen), month_days_spec by lia. cbn [mbind option_bind]. rewrite Z.geb_leb, Z.sub_add.
  destruct (Z.leb_spec (month_len (at_ 0%nat * 100 + at_ 1%nat) (at_ 2%nat)) (at_ 3%nat - 1)).
  { right. split; [done|]. intros (_ & _ & Hda & _). rewrite Hst in Hda. cbn [st_year st_month st_day] in Hda. lia. }
  assert (stamp_ok (g_stamp g)) as Hok.
  { rewrite Hst. unfold stamp_ok. cbn [st_year st_month st_day st_hour st_min st_sec]. lia. }
  left. split; [done|]. replace (2 * length (g_parts g))%nat with (length (pairs (g_parts g))) by apply length_pairs.
  unfold print in *. rewrite read_fraction_spec; try done.
  2: { intros E. apply (f_equal length) in E. rewrite !length_app in E. destruct (g_zone g) as [[]|]; cbn in E; lia. }
  cbn [mbind option_bind]. fold fraction.
  rewrite (app_assoc (pairs (g_parts g))), <- (length_app (pairs (g_parts g)) (frac_text (g_frac g))).
  exact (zone_step_exact g _ _ _ _ _ _ _ _ fraction Hf Hst Hok Hcen).
Qed.

(** ** Texts of another form *)

Lemma fraction_form val p : (p <= length val)%nat -> read_fraction val p = invalid \/
  exists f rest out, frac_ok f /\ drop p val = frac_text f ++ rest /\ read_fraction val p = Some (inr ((p + length (frac_text f))%nat, out)).
Proof.
  intros Hp. unfold read_fraction. destruct (drop p val) as [|c r] eqn:E.
  - assert (length val <= p)%nat by (apply (f_equal length) in E; rewrite length_drop in E; cbn in E; lia). rewrite (proj2 (Nat.ltb_ge _ _)) by done.
    right. exists None, [], []. cbn. by rewrite Nat.add_0_r.
  - pose proof (drop_char_at val p c r E) as (-> & Er & Hl). rewrite (proj2 (Nat.ltb_lt _ _)) by done. cbn [andb]. rewrite Er.
    destruct (digit_prefix r) as (ds & rest & -> & Hds & Hnd). rewrite count_digits_app by done.
    assert (Ascii.eqb c "." || Ascii.eqb c "," = true -> separator c) as Hsep by (unfold separator; destruct (Ascii.eqb_spec c "."), (Ascii.eqb_spec c ","); cbn; tauto || done).
    destruct (Ascii.eqb c "." || Ascii.eqb c ","); [|right; exists None, (c :: ds ++ rest), []; cbn; by rewrite Nat.add_0_r].
    destruct (Nat.eqb_spec (S p + length ds - p) 1); [by left|right]. exists (Some (c, ds)), rest.
    eexists. split; [split; [by apply Hsep|split; [destruct ds; [cbn in *; lia|done]|done]]|]. split; [done|]. cbn [frac_text length].
    by replace (p + S (length ds))%nat with (S p + length ds)%nat by lia.
Qed.

Lemma apply_zone_total west c0 c1 c2 c3 c4 c5 c6 oh om : century_ok c0 c1 -> 0 <= c2 < 12 -> 0 <= c3 < month_len (c0 * 100 + c1) (c2 + 1) -> 0 <= c4 < 24 -> 0 <= c5 < 60 ->
  0 <= oh < 24 -> 0 <= om < 60 ->
  apply_zone west (if leap (c0 * 100 + c1) then 1 else 0) [c0; c1; c2; c3; c4; c5; c6; oh; om] = invalid \/
  exists parts, apply_zone west (if leap (c0 * 100 + c1) then 1 else 0) [c0; c1; c2; c3; c4; c5; c6; oh; om] = Some (inr parts).
Proof. intros. destruct (apply_zone_spec west c0 c1 c2 c3 c4 c5 c6 oh om) as [(parts & -> & _)|[_ ->]]; try done; [right; by exists parts|by left]. Qed.

Lemma zone_step_form val p c0 c1 c2 c3 c4 c5 c6 fraction : (p <= length val)%nat ->
  century_ok c0 c1 -> 0 <= c2 < 12 -> 0 <= c3 < month_len (c0 * 100 + c1) (c2 + 1) -> 0 <= c4 < 24 -> 0 <= c5 < 60 ->
  (exists z, zone_form_ok z /\ drop p val = zone_text z) \/
  zone_step val p (if leap (c0 * 100 + c1) then 1 else 0) [c0; c1; c2; c3; c4; c5; c6; 0; 0] fraction = invalid.
Proof.
  intros Hp Hcen H2 H3 H4 H5. unfold zone_step. destruct (drop p val) as [|c r] eqn:E.
  { right. apply (f_equal length) in E. rewrite length_drop in E. cbn in E. by rewrite (proj2 (Nat.eqb_eq p (length val))) by lia. }
  pose proof (drop_char_at val p c r E) as (-> & Er & Hl). destruct (Nat.eqb_spec p (length val)); [lia|].
  assert (length r = length val - S p)%nat as Hr by by rewrite <- Er, length_drop.
  destruct (Ascii.eqb_spec c "Z") as [->|_].
  { destruct r as [|c' r]; [left; by exists None|right]. destruct (Nat.eqb_spec (S p) (length val)); [cbn in Hr; lia|done]. }
  destruct (Ascii.eqb c "+" || Ascii.eqb c "-") eqn:Ec; [|by right].
  destruct (split_pairs 2 r) as (cs & rest & -> & Hcs & Hl2 & Hend).
  change [c0; c1; c2; c3; c4; c5; c6; 0; 0] with ([c0; c1; c2; c3; c4; c5; c6] ++ [0; 0]).
  assert ((length cs = 2%nat \/ no_digit rest) \/ (length cs < 2)%nat /\ exists d r, rest = d :: r /\ is_digit d = true /\ no_digit r) as [Hend'|(Hl1 & d & r & -> & Hd & Hnd)].
  { destruct (decide (length cs = 2)%nat); [by left; left|]. destruct Hend as [|[?|?]]; [done|by left; right|right]. split; [lia|done]. }
  2: { right. by rewrite (read_zone_odd cs 2 7 val (S p) d r) by (done || lia). }
  rewrite (read_zone_pairs cs 2 7 val (S p) rest) by (done || lia). destruct (zone_parts_ok 7 cs) eqn:Ez; [|by right]. cbn [mbind option_bind].
  destruct (Nat.ltb_spec (7 + length cs) 8); [by right|].
  assert (exists oh om, [c0; c1; c2; c3; c4; c5; c6] ++ cs ++ drop (length cs) [0; 0] = [c0; c1; c2; c3; c4; c5; c6; oh; om] /\ 0 <= oh < 24 /\ 0 <= om < 60) as (oh & om & -> & Ho & Hm).
  { destruct cs as [|oh [|om [|]]]; cbn in Hl2; try lia; [cbn in *; lia| |]; repeat (apply list.Forall_cons in Hcs as [? Hcs]); cbn [zone_parts_ok] in Ez; unfold zone_part_ok in Ez;
      cbn [ceiling lookup list_lookup default from_option id] in Ez; rewrite ?andb_true_iff, ?Z.ltb_lt in Ez; unfold pair_ok in *; [exists oh, 0|exists oh, om]; (split; [done|lia]). }
  destruct (apply_zone_total (Ascii.eqb c "-") c0 c1 c2 c3 c4 c5 c6 oh om) as [->|[parts ->]]; try done; [by right|]. cbn [mbind option_bind].
  destruct (Nat.eqb_spec (S p + 2 * length cs) (length val)) as [Hfull|]; [|by right]. left.
  assert (rest = []) as ->. { rewrite length_app, length_pairs in Hr. destruct rest; [done|cbn in Hr; lia]. }
  exists (Some (Ascii.eqb c "-", cs)). split; [split; [done|lia]|]. cbn [zone_text]. rewrite app_nil_r. f_equal.
  destruct (Ascii.eqb_spec c "-") as [->|]; [done|]. destruct (Ascii.eqb_spec c "+") as [->|]; done.
Qed.

(** Every text that is not the text of an abstract value is refused. *)
Lemma check_form val junk : length junk = 9%nat -> (exists g, form_ok g /\ val = print g) \/ check_time_syntax val junk = invalid.
Proof.
  intros Hj. destruct (split_pairs 7 val) as (cs & rest & E & Hcs & Hl & Hend). unfold check_time_syntax.
  change (read_parts 7 0 val 0 junk) with (read_parts 7 0 val 0 ([] ++ junk)).
  assert ((length cs = 7%nat \/ no_digit rest) \/ (length cs < 7)%nat /\ exists d r, rest = d :: r /\ is_digit d = true /\ no_digit r) as [Hend'|(Hl1 & d & r & -> & Hd & Hnd)].
  { destruct (decide (length cs = 7)%nat); [by left; left|]. destruct Hend as [|[?|?]]; [done|by left; right|right]. split; [lia|done]. }
  2: { right. by rewrite (read_parts_odd cs 7 0 val 0 d r) by (done || lia). }
  rewrite (read_parts_pairs cs 7 0 val 0 rest [] junk) by (done || lia). destruct (parts_ok 0 (stored_all 0 cs)) eqn:Eok; [|by right]. cbn [mbind option_bind Nat.add app].
  destruct (Nat.ltb_spec (length cs) 5); [by right|]. destruct (parts_shape cs junk Hcs ltac:(lia) Hj) as (-> & Hps & [Hok _]). specialize (Hok Eok).
  set (at_ := part_at cs) in *. repeat (apply list.Forall_cons in Hps as [? Hps]). unfold pair_ok in *. assert (century_ok (at_ 0%nat) (at_ 1%nat)) as Hcen by (split; lia).
  access. cbn [mbind option_bind]. rewrite (leapyear_spec _ _ Hcen), month_days_spec by lia. cbn [mbind option_bind]. rewrite Z.geb_leb.
  destruct (Z.leb_spec (month_len (at_ 0%nat * 100 + at_ 1%nat) (at_ 2%nat - 1 + 1)) (at_ 3%nat - 1)); [by right|].
  assert (drop (2 * length cs) val = rest) as Ed by (rewrite E, <- length_pairs; apply drop_app_length).
  assert (length val = 2 * length cs + length rest)%nat as Hlen by (rewrite E, length_app, length_pairs; done).
  destruct (fraction_form val (2 * length cs)) as [->|(f & rest' & out & Hf & E' & ->)]; [lia|by right|]. cbn [mbind option_bind].
  assert (drop (2 * length cs + length (frac_text f)) val = rest') as Ed' by (rewrite <- drop_drop, E'; apply drop_app_length).
  rewrite Ed in E'. destruct (zone_step_form val (2 * length cs + length (frac_text f)) (at_ 0%nat) (at_ 1%nat) (at_ 2%nat - 1) (at_ 3%nat - 1) (at_ 4%nat) (at_ 5%nat) (at_ 6%nat) out) as [(z & Hz & Ez)|Hinv]; try done; try lia.
  - rewrite Hlen, E', length_app. lia.
  - left. exists (mkGtime cs f z). split; [split_and!; cbn; (done || lia)|]. unfold print. cbn [g_parts g_frac g_zone]. by rewrite <- Ez, Ed', <- E'.
  - right. exact Hinv.
Qed.

(** ** The theorems *)

(** "YYYYmmddHHMMSS" *)
Definition stamp_text (t : stamp) : text :=
  pairs [t.(st_year) / 100; t.(st_year) mod 100; t.(st_month); t.(st_day); t.(st_hour); t.(st_min); t.(st_sec)].

(** The digits of the fraction that normalisation keeps. *)
Definition kept (g : gtime) : text :=
  match g.(g_frac) with Some (_, ds) => kept_digits ds (zone_text g.(g_zone)) (length (print g)) | None => [] end.

Definition normal_text (t : stamp) (digits : text) : text :=
  stamp_text t ++ match digits with [] => [] | _ => "."%char :: digits end ++ ["Z"%char].

Lemma normalize_reached n s oh om parts : reached n [s; oh; om] parts -> 0 <= s <= 60 ->
  exists t, stamp_ok t /\ minute_number t = n /\ st_sec t = s /\
    exists s0 s1 s2 s3 s4 s5 s6, fmt_02d parts 0 0 = Some s0 /\ fmt_02d parts 1 0 = Some s1 /\ fmt_02d parts 2 1 = Some s2 /\ fmt_02d parts 3 1 = Some s3 /\
      fmt_02d parts 4 0 = Some s4 /\ fmt_02d parts 5 0 = Some s5 /\ fmt_02d parts 6 0 = Some s6 /\ s0 ++ s1 ++ s2 ++ s3 ++ s4 ++ s5 ++ s6 = stamp_text t.
Proof.
  intros (ce & yy & mo & da & h & mi & -> & [Hc Hy] & Hmo & Hda & Hh & Hmi & <-) Hs.
  exists (mkStamp (ce * 100 + yy) (mo + 1) (da + 1) h mi s). split; [unfold stamp_ok; cbn [st_year st_month st_day st_hour st_min st_sec]; lia|]. split; [done|]. split; [done|].
  unfold fmt_02d. access. cbn [mbind option_bind]. do 7 eexists. repeat (split; [done|]). unfold stamp_text, pairs. cbn [st_year st_month st_day st_hour st_min st_sec mbind list_bind].
  pose proof (month_len_range (ce * 100 + yy) (mo + 1)).
  replace ((ce * 100 + yy) / 100) with ce by (Z.div_mod_to_equations; lia). replace ((ce * 100 + yy) mod 100) with yy by (Z.div_mod_to_equations; lia).
  rewrite !Z.add_0_r, <- !two_fmt by (unfold pair_ok; lia). by rewrite app_nil_r.
Qed.

(** C22: Generalized times denote instants. A text is accepted exactly if it has the form
    of the syntax, names an existing time of an existing day and an offset, and the
    minute that this is in UTC lies in the years from 0 to 9999; it is then
    normalised to the text of this minute in UTC, with its seconds, and its fraction
    without the zeros at its end (unless it is one of six digits in a value of 22
    characters). Arrays are not overrun. *)
Theorem generalizedTime_correct junk val : length junk = 9%nat ->
  (exists g t, form_ok g /\ val = print g /\ stamp_ok (g_stamp g) /\ zone_ok g /\
     stamp_ok t /\ minute_number t = utc_minutes g /\ st_sec t = st_sec (g_stamp g) /\
     generalizedTimeValidate junk val = Some LDAP_SUCCESS /\ generalizedTimeNormalize junk val = Some (inr (normal_text t (kept g)))) \/
  (generalizedTimeValidate junk val = Some LDAP_INVALID_SYNTAX /\ generalizedTimeNormalize junk val = Some (inl LDAP_INVALID_SYNTAX) /\
   forall g, form_ok g -> val = print g -> stamp_ok (g_stamp g) -> zone_ok g -> ~ 0 <= utc_minutes g < days_to_year 10000 * 1440).
Proof.
  intros Hj. unfold generalizedTimeValidate, generalizedTimeNormalize.
  assert (forall g, form_ok g -> val = print g -> check_time_syntax val junk = invalid -> stamp_ok (g_stamp g) -> zone_ok g -> ~ 0 <= utc_minutes g < minutes_end) as Hno.
  { intros g Hf -> Hi Hs Hz Hr. destruct (check_exact g junk Hf Hj) as [[_ [(_ & ? & ? & ? & E & _)|[_ Hn]]]|[_ Hn]]; [by rewrite E in Hi|by apply Hn|done]. }
  destruct (check_form val junk Hj) as [(g & Hf & E)|Hi].
  - destruct (check_exact g junk Hf Hj) as [[Hs [(Hzk & parts & oh & om & Hc & Hr)|[Hi _]]]|[Hi _]]; rewrite <- E in *; [|right; rewrite Hi; cbn [mbind option_bind]; split_and!; try done; intros; by eapply Hno..].
    left. pose proof Hs as (_ & _ & _ & _ & _ & Hsec). destruct (normalize_reached _ _ _ _ _ Hr Hsec) as (t & Ht & Hm & Hts & s0 & s1 & s2 & s3 & s4 & s5 & s6 & E0 & E1 & E2 & E3 & E4 & E5 & E6 & Et).
    rewrite Hc. cbn [mbind option_bind]. rewrite E0, E1, E2, E3, E4, E5, E6. cbn [mbind option_bind].
    exists g, t. split; [done|]. split; [done|]. split; [done|]. split; [done|]. split; [done|]. split; [done|]. split; [done|]. split; [done|]. do 2 f_equal. unfold normal_text, kept, kept_fraction. rewrite <- Et, <- !app_assoc. do 7 f_equal.
    rewrite E. destruct (g_frac g) as [[sep ds]|]; [|done]. by destruct (kept_digits _ _ _).
  - right. rewrite Hi. cbn [mbind option_bind]. split_and!; try done. intros. by eapply Hno.
Qed.

Lemma generalizedTime_correct_witness :
  generalizedTimeNormalize (replicate 9 77) (kw "20240301003000.50+0100") = Some (inr (kw "20240229233000.5Z")) /\
  ((exists g t, form_ok g /\ kw "20240301003000.50+0100" = print g /\ stamp_ok (g_stamp g) /\ zone_ok g /\
     stamp_ok t /\ minute_number t = utc_minutes g /\ st_sec t = st_sec (g_stamp g) /\
     generalizedTimeValidate (replicate 9 77) (kw "20240301003000.50+0100") = Some LDAP_SUCCESS /\
     generalizedTimeNormalize (replicate 9 77) (kw "20240301003000.50+0100") = Some (inr (normal_text t (kept g)))) \/
  (generalizedTimeValidate (replicate 9 77) (kw "20240301003000.50+0100") = Some LDAP_INVALID_SYNTAX /\
   generalizedTimeNormalize (replicate 9 77) (kw "20240301003000.50+0100") = Some (inl LDAP_INVALID_SYNTAX) /\
   forall g, form_ok g -> kw "20240301003000.50+0100" = print g -> stamp_ok (g_stamp g) -> zone_ok g -> ~ 0 <= utc_minutes g < days_to_year 10000 * 1440)).
Proof. split; [by vm_compute|]. apply (generalizedTime_correct (replicate 9 77) (kw "20240301003000.50+0100")). reflexivity. Defined.

(** Half an hour past ten is not half a second past ten: the fraction of an hour
    becomes one of a second. *)
Lemma hour_fraction_wrong : generalizedTimeNormalize (replicate 9 0) (kw "2024010110.5Z") = Some (inr (kw "20240101100000.5Z")).
Proof. by vm_compute. Qed.

(** Zeros at the end of six digits stay, so that the same instant has two normal
    forms. *)
Lemma six_digits_kept :
  generalizedTimeNormalize (replicate 9 0) (kw "20240101100000.500000Z") = Some (inr (kw "20240101100000.500000Z")) /\
  generalizedTimeNormalize (replicate 9 0) (kw "20240101100000.50000Z") = Some (inr (kw "20240101100000.5Z")).
Proof. by vm_compute. Qed.
