(* ===== verification/GenTimeOrder.v ===== *)
(** * The order of instants

    The order of the texts of stamps as characters, of their fields, of the minutes
    they denote, and of the numbers that the index makes of them. *)

From Stdlib Require Import Ascii String.
From S2P Require Import Prelude Text Digits Attr IntegersTheorems GenTime GenTimeFacts GenTimeForm GenTimeTheorems.

Local Open Scope Z_scope.
Local Abbreviation length := List.length.

(** ** Stamps *)

(** Year, month, day, hour and minute as one number, in lexicographic order. *)
Definition date_code (t : stamp) : Z := (((t.(st_year) * 12 + t.(st_month)) * 31 + t.(st_day)) * 24 + t.(st_hour)) * 60 + t.(st_min).

(** The instant, where a minute has room for its leap second. *)
Definition instant (t : stamp) : Z := minute_number t * 61 + t.(st_sec).

Lemma months_mono y m n : (m < n)%nat -> days_to_month y m + month_len y (Z.of_nat (S m)) <= days_to_month y n.
Proof.
  intros H. induction n as [|n IH]; [lia|]. cbn [days_to_month]. pose proof (month_len_range y (Z.of_nat (S n))).
  destruct (decide (m = n)) as [->|]; [lia|]. specialize (IH ltac:(lia)). lia.
Qed.

Lemma day_mono y m d y' m' d' : 1 <= m <= 12 -> 1 <= m' <= 12 -> 1 <= d <= month_len y m -> 1 <= d' <= month_len y' m' ->
  (y * 12 + m) * 31 + d < (y' * 12 + m') * 31 + d' -> day_number y m d < day_number y' m' d'.
Proof.
  intros Hm Hm' Hd Hd' Hlt. unfold day_number. pose proof (month_len_range y m). pose proof (month_len_range y' m').
  destruct (days_to_month_bound y m Hm), (days_to_month_bound y' m' Hm').
  destruct (Z.lt_trichotomy y y') as [Hy|[->|Hy]]; [|destruct (Z.lt_trichotomy m m') as [Hl|[->|Hl]]|]; try lia.
  - pose proof (days_to_year_mono (y + 1) y' ltac:(lia)) as M. rewrite leap_step in M. lia.
  - pose proof (months_mono y' (Z.to_nat (m - 1)) (Z.to_nat (m' - 1)) ltac:(lia)) as M.
    replace (Z.of_nat (S (Z.to_nat (m - 1)))) with m in M by lia. lia.
Qed.

Lemma minute_mono t u : stamp_ok t -> stamp_ok u -> date_code t < date_code u -> minute_number t < minute_number u.
Proof.
  intros (Hy & Hm & Hd & Hh & Hmi & _) (Hy' & Hm' & Hd' & Hh' & Hmi' & _). unfold date_code, minute_number. intros Hlt.
  destruct (Z.lt_trichotomy ((t.(st_year) * 12 + t.(st_month)) * 31 + t.(st_day)) ((u.(st_year) * 12 + u.(st_month)) * 31 + u.(st_day))) as [H|[H|H]].
  - pose proof (day_mono _ _ _ _ _ _ Hm Hm' Hd Hd' H). lia.
  - pose proof (month_len_range (st_year t) (st_month t)). pose proof (month_len_range (st_year u) (st_month u)).
    assert (st_day t = st_day u) as -> by lia. assert (st_month t = st_month u) as -> by lia. assert (st_year t = st_year u) as -> by lia. lia.
  - lia.
Qed.

Lemma date_code_fields t u : stamp_ok t -> stamp_ok u -> date_code t = date_code u ->
  st_year t = st_year u /\ st_month t = st_month u /\ st_day t = st_day u /\ st_hour t = st_hour u /\ st_min t = st_min u.
Proof.
  intros (Hy & Hm & Hd & Hh & Hmi & _) (Hy' & Hm' & Hd' & Hh' & Hmi' & _). unfold date_code. intros He.
  pose proof (month_len_range (st_year t) (st_month t)). pose proof (month_len_range (st_year u) (st_month u)). lia.
Qed.

(** Any number that agrees with the date and the seconds in their order agrees with
    the instants. *)
Lemma instant_order (f : stamp -> Z) t u : stamp_ok t -> stamp_ok u ->
  (forall t u, stamp_ok t -> stamp_ok u -> date_code t < date_code u -> f t < f u) ->
  (date_code t = date_code u -> Z.sgn (f t - f u) = Z.sgn (st_sec t - st_sec u)) ->
  Z.sgn (f t - f u) = Z.sgn (instant t - instant u).
Proof.
  intros Ht Hu Hf Heq. pose proof Ht as (_ & _ & _ & _ & _ & Hs). pose proof Hu as (_ & _ & _ & _ & _ & Hs'). unfold instant.
  destruct (Z.lt_trichotomy (date_code t) (date_code u)) as [H|[H|H]].
  - pose proof (Hf _ _ Ht Hu H). pose proof (minute_mono _ _ Ht Hu H). rewrite !Z.sgn_neg by lia. done.
  - rewrite Heq by done. f_equal.
    destruct (date_code_fields t u Ht Hu H) as (E1 & E2 & E3 & E4 & E5). unfold minute_number. rewrite E1, E2, E3, E4, E5. lia.
  - pose proof (Hf _ _ Hu Ht H). pose proof (minute_mono _ _ Hu Ht H). rewrite !Z.sgn_pos by lia. done.
Qed.

(** ** The texts of stamps *)

Definition decimal_code (t : stamp) : Z :=
  ((((t.(st_year) * 100 + t.(st_month)) * 100 + t.(st_day)) * 100 + t.(st_hour)) * 100 + t.(st_min)) * 100 + t.(st_sec).

Lemma two_value c rest : pair_ok c -> all_digits 10 (two c) = true /\ digits_value 10 0 (two c ++ rest) = c * 10 ^ Z.of_nat (length rest) + digits_value 10 0 rest.
Proof.
  intros Hc. rewrite digits_value_app, digits_value_shift.
  pose proof (pair_check (fun c => bool_decide (all_digits 10 (two c) = true /\ digits_value 10 0 (two c) = c)) ltac:(by vm_compute) c Hc) as H.
  apply bool_decide_eq_true in H as [-> ->]. done.
Qed.

Lemma pairs_value l : Forall pair_ok l -> all_digits 10 (pairs l) = true /\ digits_value 10 0 (pairs l) = foldl (fun a c => a * 100 + c) 0 l.
Proof.
  induction l as [|c l IH] using rev_ind; [done|]. intros [Hl Hc]%list.Forall_app. apply list.Forall_cons in Hc as [Hc _]. destruct (IH Hl) as [I1 I2].
  assert (pairs (l ++ [c]) = pairs l ++ two c) as -> by (unfold pairs; by rewrite bind_app, bind_cons, app_nil_r).
  destruct (two_value c [] Hc) as [T1 T2]. rewrite app_nil_r in T2. rewrite all_digits_app, I1, T1. split; [done|].
  rewrite digits_value_app, digits_value_shift, T2, foldl_app, I2. change (digits_value 10 0 []) with 0. change (10 ^ Z.of_nat (length (two c))) with 100. change (10 ^ Z.of_nat (length [])) with 1. cbn [foldl]. lia.
Qed.

Lemma stamp_text_value t : stamp_ok t -> all_digits 10 (stamp_text t) = true /\ length (stamp_text t) = 14%nat /\ digits_value 10 0 (stamp_text t) = decimal_code t.
Proof.
  intros (Hy & Hm & Hd & Hh & Hmi & Hs). pose proof (month_len_range (st_year t) (st_month t)). unfold stamp_text.
  destruct (pairs_value [st_year t / 100; st_year t mod 100; st_month t; st_day t; st_hour t; st_min t; st_sec t]) as [P1 P2].
  { repeat constructor; unfold pair_ok; Z.div_mod_to_equations; lia. }
  rewrite P1, P2, length_pairs. split; [done|]. split; [done|]. cbn [foldl]. unfold decimal_code. Z.div_mod_to_equations; lia.
Qed.

Lemma stamp_text_order t u : stamp_ok t -> stamp_ok u -> memcmp (stamp_text t) (stamp_text u) = Z.sgn (instant t - instant u).
Proof.
  intros Ht Hu. destruct (stamp_text_value t Ht) as (T1 & T2 & T3), (stamp_text_value u Hu) as (U1 & U2 & U3).
  rewrite memcmp_digits by (done || congruence). rewrite T3, U3. apply (instant_order decimal_code); try done.
  - clear. intros t u (Hy & Hm & Hd & Hh & Hmi & Hs) (Hy' & Hm' & Hd' & Hh' & Hmi' & Hs'). unfold date_code, decimal_code.
    pose proof (month_len_range (st_year t) (st_month t)). pose proof (month_len_range (st_year u) (st_month u)). intros H1.
    destruct (Z.lt_trichotomy (st_year t) (st_year u)) as [?|[E|?]]; [lia| |lia].
    destruct (Z.lt_trichotomy (st_month t) (st_month u)) as [?|[E1|?]]; [lia| |lia].
    destruct (Z.lt_trichotomy (st_day t) (st_day u)) as [?|[E2|?]]; [lia| |lia].
    destruct (Z.lt_trichotomy (st_hour t) (st_hour u)) as [?|[E3|?]]; lia.
  - intros H. destruct (date_code_fields t u Ht Hu H) as (E1 & E2 & E3 & E4 & E5). unfold decimal_code. rewrite E1, E2, E3, E4, E5. f_equal. lia.
Qed.

(** * Comparing times

    The ordering rule of generalized times, on values that are in normal form, and the
    order of the instants and fractions they denote. *)

(** ** Fractions *)

(** The digits of a fraction as normalisation leaves them. *)
Definition trimmed (ds : text) : Prop := all_digits 10 ds = true /\ trim_zeros ds = ds.

(** The order of decimal fractions. *)
Definition fraction_cmp (ds es : text) : Z :=
  Z.sgn (digits_value 10 0 ds * 10 ^ Z.of_nat (length es) - digits_value 10 0 es * 10 ^ Z.of_nat (length ds)).

Lemma trimmed_positive ds e es : trimmed (ds ++ e :: es) -> 0 < digits_value 10 0 (e :: es).
Proof.
  intros [Hd Ht]. rewrite all_digits_app in Hd. apply andb_true_iff in Hd as [_ Hd].
  destruct (exists_last (l := e :: es) ltac:(done)) as (l & x & E). rewrite E in *. rewrite app_assoc, trim_snoc in Ht.
  rewrite all_digits_app in Hd. apply andb_true_iff in Hd as [_ Hd]. destruct (digit_code x Hd) as (d & Ed & Ec).
  rewrite digits_value_app, digits_value_shift, digits_value_cons, Ed. cbn [default from_option id length].
  pose proof (digits_value_ge 10 l 0 ltac:(lia) ltac:(lia)). pose proof (digit_in_range _ _ _ Ed).
  assert (d <> 0).
  { intros ->. assert (x = "0"%char) as -> by (apply ascii_code_inj; rewrite Ec; done). change (Ascii.eqb "0" "0") with true in Ht.
    destruct (trim_prefix (ds ++ l)) as [k Hk]. cbv iota in Ht. rewrite Hk in Ht. apply (f_equal length) in Ht. rewrite length_take, !length_app in Ht. cbn [length] in Ht. lia. }
  change (digits_value 10 0 []) with 0. change (10 ^ Z.of_nat 1) with 10. change (10 ^ Z.of_nat 0) with 1. lia.
Qed.

(** Comparing as many digits as both have, and then the lengths. *)
Lemma fraction_order ds es (k := Nat.min (length ds) (length es)) : trimmed ds -> trimmed es ->
  (if memcmp (take k ds) (take k es) =? 0 then Z.sgn (Z.of_nat (length ds) - Z.of_nat (length es)) else memcmp (take k ds) (take k es)) = fraction_cmp ds es.
Proof.
  assert (forall ds es, (length ds <= length es)%nat -> trimmed ds -> trimmed es ->
    (if memcmp ds (take (length ds) es) =? 0 then Z.sgn (Z.of_nat (length ds) - Z.of_nat (length es)) else memcmp ds (take (length ds) es)) = fraction_cmp ds es) as H.
  { clear. intros ds es Hl [Hd _] Hte. pose proof Hte as [He _].
    assert (exists e1 e2, es = e1 ++ e2 /\ length e1 = length ds) as (e1 & e2 & -> & L1).
    { exists (take (length ds) es), (drop (length ds) es). rewrite take_drop, length_take. split; [done|lia]. }
    assert (take (length ds) (e1 ++ e2) = e1) as -> by (rewrite <- L1; apply take_app_length).
    assert (length (e1 ++ e2) = length ds + length e2)%nat as L by (rewrite length_app; lia).
    assert (all_digits 10 e1 = true) as He1 by (rewrite all_digits_app in He; by apply andb_true_iff in He as [? _]).
    rewrite memcmp_digits by done. unfold fraction_cmp. rewrite L, digits_value_app, (digits_value_shift 10 (digits_value 10 0 e1) e2).
    rewrite Nat2Z.inj_add, Z.pow_add_r by lia. set (a := digits_value 10 0 ds). set (b := digits_value 10 0 e1). set (c := digits_value 10 0 e2).
    set (p := 10 ^ Z.of_nat (length ds)). set (q := 10 ^ Z.of_nat (length e2)). assert (0 < p) by (apply Z.pow_pos_nonneg; lia). assert (0 < q) by (apply Z.pow_pos_nonneg; lia).
    pose proof (digits_value_bound 10 e2 ltac:(lia)) as Hc. fold c q in Hc.
    replace (a * (p * q) - (b * q + c) * p) with (p * ((a - b) * q - c)) by ring. rewrite Z.sgn_mul, (Z.sgn_pos p), Z.mul_1_l by done.
    destruct (Z.lt_trichotomy a b) as [Hab|[Hab|Hab]].
    - rewrite (Z.sgn_neg (a - b)), (Z.sgn_neg ((a - b) * q - c)) by nia. done.
    - rewrite Hab, Z.sub_diag, Z.mul_0_l. cbn [Z.sgn Z.eqb]. destruct e2 as [|x r]; [cbn [length] in *; unfold c; change (digits_value 10 0 []) with 0; f_equal; lia|].
      assert (0 < c) by (by apply (trimmed_positive e1)).
      cbn [length] in L. rewrite !Z.sgn_neg by (cbn [length]; lia). done.
    - rewrite (Z.sgn_pos (a - b)), (Z.sgn_pos ((a - b) * q - c)) by nia. done. }
  intros Hd He. destruct (Nat.le_ge_cases (length ds) (length es)) as [Hle|Hle].
  - unfold k. rewrite Nat.min_l, (take_ge ds) by done. by apply H.
  - unfold k. rewrite Nat.min_r, (take_ge es) by done. specialize (H es ds Hle He Hd). rewrite memcmp_antisym.
    replace (fraction_cmp ds es) with (- fraction_cmp es ds) by (unfold fraction_cmp; rewrite <- Z.sgn_opp; f_equal; lia). rewrite <- H.
    destruct (Z.eqb_spec (memcmp es (take (length es) ds)) 0) as [->|Hn]; [cbn [Z.opp Z.eqb]; rewrite <- Z.sgn_opp; f_equal; lia|].
    destruct (Z.eqb_spec (- memcmp es (take (length es) ds)) 0); [lia|done].
Qed.

(** The fraction as it stands in the normal form of a time. *)
Definition fraction_text (ds : text) : text := match ds with [] => [] | _ => "."%char :: ds end.

Lemma fraction_text_order ds es (k := Nat.min (length (fraction_text ds)) (length (fraction_text es))) (m := memcmp (take k (fraction_text ds)) (take k (fraction_text es))) :
  trimmed ds -> trimmed es -> (if m =? 0 then Z.sgn (Z.of_nat (length (fraction_text ds)) - Z.of_nat (length (fraction_text es))) else m) = fraction_cmp ds es.
Proof.
  intros Hd He. unfold m, k. clear m k. pose proof (fraction_order ds es Hd He) as H.
  destruct ds as [|d ds], es as [|e es]; cbn [fraction_text length Nat.min take memcmp].
  - done.
  - rewrite <- H. cbn [length Nat.min take memcmp Z.eqb]. by rewrite !Z.sgn_neg by lia.
  - rewrite <- H. cbn [length Nat.min take memcmp Z.eqb]. by rewrite !Z.sgn_pos by lia.
  - rewrite !Z.ltb_irrefl, <- H. cbn [length Nat.min take].
    replace (Z.of_nat (S (S (length ds))) - Z.of_nat (S (S (length es)))) with (Z.of_nat (S (length ds)) - Z.of_nat (S (length es))) by lia. done.
Qed.

(** The order of times with fractions. *)
Definition time_cmp (t : stamp) (ds : text) (u : stamp) (es : text) : Z :=
  if instant t =? instant u then fraction_cmp ds es else Z.sgn (instant t - instant u).

Lemma normal_split t ds : stamp_ok t -> normal_text t ds = stamp_text t ++ fraction_text ds ++ ["Z"%char] /\
  length (stamp_text t) = 14%nat /\ length (normal_text t ds) = (15 + length (fraction_text ds))%nat.
Proof.
  intros Ht. destruct (stamp_text_value t Ht) as (_ & L & _). split; [by destruct ds|]. split; [done|].
  assert (normal_text t ds = stamp_text t ++ fraction_text ds ++ ["Z"%char]) as -> by (by destruct ds). rewrite !length_app, L. cbn [length]. lia.
Qed.

Lemma take_normal t ds k : stamp_ok t -> (k <= length (fraction_text ds))%nat ->
  sub (normal_text t ds) 0 (14 + k) = stamp_text t ++ take k (fraction_text ds).
Proof.
  intros Ht Hk. destruct (normal_split t ds Ht) as (-> & L & _). unfold sub. rewrite drop_0, take_app, L, (take_ge (stamp_text t)) by lia.
  replace (14 + k - 14)%nat with k by lia. by rewrite take_app_le.
Qed.

(** C24: The ordering rule of generalized times compares times in the normal form, with no
    fraction or one without zeros at its end (and less than 2^30 digits), as instants:
    by their minutes, by their seconds (a leap second comes after the second 59), and by
    their fractions. For the test of a filter it gives whether the value is not before
    the asserted one. (Normalisation leaves zeros at the end of six digits, see
    [six_digits_kept]; such fractions are not covered.) *)
Theorem generalizedTimeOrdering_correct flags t ds u es : stamp_ok t -> stamp_ok u -> trimmed ds -> trimmed es ->
  Z.of_nat (length ds) < 2 ^ 30 -> Z.of_nat (length es) < 2 ^ 30 ->
  exists r, generalizedTimeOrderingMatch flags (normal_text t ds) (normal_text u es) = Some r /\
    if Z.land flags SLAP_MR_EXT =? 0 then Z.sgn r = time_cmp t ds u es else r = if time_cmp t ds u es >=? 0 then 1 else 0.
Proof.
  intros Ht Hu Hd He Ld Le. destruct (normal_split t ds Ht) as (_ & Lt & L1), (normal_split u es Hu) as (_ & Lu & L2).
  set (k := Nat.min (length (fraction_text ds)) (length (fraction_text es))).
  unfold generalizedTimeOrderingMatch. rewrite L1, L2.
  replace ((if Z.of_nat (15 + length (fraction_text ds)) <? Z.of_nat (15 + length (fraction_text es)) then Z.of_nat (15 + length (fraction_text ds))
    else Z.of_nat (15 + length (fraction_text es))) - 1) with (Z.of_nat (14 + k)) by (destruct (Z.ltb_spec (Z.of_nat (15 + length (fraction_text ds))) (Z.of_nat (15 + length (fraction_text es)))); lia).
  destruct (Z.ltb_spec (Z.of_nat (14 + k)) 0) as [?|_]; [lia|]. rewrite Nat2Z.id, !take_normal by (done || lia).
  rewrite memcmp_app, stamp_text_order by (done || congruence).
  pose proof (fraction_text_order ds es Hd He) as Hf. fold k in Hf. set (m := memcmp (take k (fraction_text ds)) (take k (fraction_text es))) in *.
  assert (Z.of_nat (length (fraction_text ds)) <= 2 ^ 30 /\ Z.of_nat (length (fraction_text es)) <= 2 ^ 30) as [B1 B2] by (destruct ds, es; cbn [fraction_text length] in *; lia).
  rewrite (swrap_small 32) by lia.
  assert (forall x y, Z.sgn x = y -> exists r, Some (if negb (Z.land flags SLAP_MR_EXT =? 0) then (if x >=? 0 then 1 else 0) else x) = Some r /\
    if Z.land flags SLAP_MR_EXT =? 0 then Z.sgn r = y else r = if y >=? 0 then 1 else 0) as Hsgn.
  { intros x y <-. eexists. split; [done|]. destruct (Z.land flags SLAP_MR_EXT =? 0); cbn [negb]; [done|]. rewrite !Z.geb_leb. destruct (Z.sgn_spec x) as [[? ->]|[[? ->]|[? ->]]]; destruct (Z.leb_spec 0 x); done || lia. }
  apply Hsgn. unfold time_cmp.
  destruct (Z.eqb_spec (instant t) (instant u)) as [E|Hn].
  - rewrite E, Z.sub_diag. cbn [Z.sgn Z.eqb]. rewrite <- Hf. destruct (Z.eqb_spec m 0); [f_equal; lia|].
    unfold m. destruct (memcmp_range (take k (fraction_text ds)) (take k (fraction_text es))) as [->|[->| ->]]; done.
  - destruct (Z.eqb_spec (Z.sgn (instant t - instant u)) 0) as [Hz|Hz]; [apply Z.sgn_null_iff in Hz; lia|].
    destruct (Z.eqb_spec (Z.sgn (instant t - instant u)) 0); [done|]. by destruct (Z.sgn_spec (instant t - instant u)) as [[? ->]|[[? ->]|[? ->]]].
Qed.

Lemma generalizedTimeOrdering_correct_witness :
  let t := mkStamp 2016 12 31 23 59 60 in let u := mkStamp 2017 1 1 0 0 0 in
  generalizedTimeOrderingMatch 0 (kw "20161231235960.5Z") (kw "20161231235960.25Z") = Some 1 /\
  exists r, generalizedTimeOrderingMatch 0 (normal_text t (kw "5")) (normal_text u (kw "25")) = Some r /\
    if Z.land 0 SLAP_MR_EXT =? 0 then Z.sgn r = time_cmp t (kw "5") u (kw "25") else r = if time_cmp t (kw "5") u (kw "25") >=? 0 then 1 else 0.
Proof. intros t u. split; [by vm_compute|]. apply (generalizedTimeOrdering_correct 0 t (kw "5") u (kw "25")); by vm_compute. Defined.
