(* ===== verification/TimeIndex.v ===== *)
(** * Time stamps and the index of times (liblutil/utils.c, schema_init.c)

    Parsing of normalised times, their conversion to seconds, and the keys of the
    index of times, which also serves CSNs. *)

From Stdlib Require Import Ascii String.
From S2P Require Import Prelude Text Attr GenTime Digits IntegersTheorems GenTimeFacts GenTimeForm GenTimeTheorems GenTimeOrder.

Local Open Scope Z_scope.
Local Abbreviation length := List.length.

(** ** Time stamps (liblutil/utils.c) *)

Record lutil_tm := mkTm {
  tm_sec : Z;
  tm_min : Z;
  tm_hour : Z;
  tm_mday : Z;
  tm_mon : Z;
  tm_year : Z;     (* from 1900 on *)
  tm_usec : Z }.

Record lutil_timet := mkTimet {
  tt_sec : Z;
  tt_gsec : Z;
  tt_usec : Z }.

(** A number of [n] digits at [p]. *)
Fixpoint digits_at (n : nat) (atm : text) (p : nat) (acc : Z) : Z :=
  match n with O => acc | S n => digits_at n atm (S p) (acc * 10 + (schar (char_at atm p) - 48)) end.

(** The digits of the fraction: their number as an [unsigned], how many there are,
    and the place behind them. *)
Fixpoint usec_digits (s : text) (i fracs : Z) : Z * Z * text :=
  match s with
  | c :: r => if is_digit c then usec_digits r (u32 (u32 (i * 10) + (schar c - 48))) (fracs + 1) else (i, fracs, s)
  | [] => (i, fracs, [])
  end.

(** [None] is the result -1; [usec0] is what [tm_usec] holds before. *)
Definition lutil_parsetime (atm : text) (usec0 : Z) : option lutil_tm :=
  if (count_digits atm <? 14)%nat then None else
  let year := digits_at 4 atm 0 0 - 1900 in
  let mon := digits_at 2 atm 4 0 in
  if (mon <? 1) || (mon >? 12) then None else
  let mon := mon - 1 in
  let mday := digits_at 2 atm 6 0 in
  if (mday <? 1) || (mday >? 31) then None else
  let hour := digits_at 2 atm 8 0 in
  if (hour <? 0) || (hour >? 23) then None else
  let min := digits_at 2 atm 10 0 in
  if (min <? 0) || (min >? 59) then None else
  let sec := digits_at 2 atm 12 0 in
  if (sec <? 0) || (sec >? 61) then None else
  let ptr := drop 14 atm in
  let '(usec, ptr) :=
    match ptr with
    | c :: r =>
        if Ascii.eqb c "." then
          let '(i, fracs, ptr) := usec_digits r 0 0 in
          (if i =? 0 then i32 i else i32 i * 10 ^ Z.max 0 (6 - fracs), ptr)
        else (usec0, ptr)
    | [] => (usec0, ptr)
    end in
  if negb (Ascii.eqb (char_at ptr 0) "Z") then None else Some (mkTm sec min hour mday mon year usec).

Definition moffset : list Z := [0; 31; 59; 90; 120; 151; 181; 212; 243; 273; 304; 334].

Definition lutil_tm2time (tm : lutil_tm) : option lutil_timet :=
  let usec := u32 tm.(tm_usec) in
  if (tm.(tm_year) =? -1900) && (tm.(tm_mon) =? 0) && (tm.(tm_mday) =? 1) && (tm.(tm_hour) =? 0) && (tm.(tm_min) =? 0) && (tm.(tm_sec) =? 0)
  then Some (mkTimet 0 0 usec)
  else
    let sec := u32 (tm.(tm_year) - 70) in
    let sec := u32 (sec * 365) in
    let sec := u32 (sec + u32 (Z.shiftr (tm.(tm_year) - 69) 2)) in
    offset ← arr_get moffset tm.(tm_mon);
    let sec := u32 (sec + offset) in
    let sec := if (Z.land tm.(tm_year) 3 =? 0) && (tm.(tm_mon) >? 1) then u32 (sec + 1) else sec in
    let sec := u32 (sec + u32 (tm.(tm_mday) - 1)) in
    let sec := u32 (sec * 675) in
    let gsec := i32 (Z.shiftr sec 25) in
    let sec := u32 (sec - u32 (Z.shiftl gsec 25)) in
    let day_sec := i32 (tm.(tm_hour) * 60) in
    let day_sec := day_sec + tm.(tm_min) in
    let day_sec := i32 (day_sec * 60) in
    let day_sec := day_sec + tm.(tm_sec) in
    let sec := u32 (Z.shiftl sec 7) in
    Some (mkTimet (u32 (sec + day_sec)) gsec usec).

(** ** The index (schema_init.c) *)

(** The 40 bits of a key. *)
Definition time_key (tt : lutil_timet) : list Z :=
  let s := tt.(tt_sec) in
  [Z.land tt.(tt_gsec) 0xff; Z.land (Z.shiftr (Z.shiftr (Z.shiftr s 8) 8) 8) 0xff; Z.land (Z.shiftr (Z.shiftr s 8) 8) 0xff; Z.land (Z.shiftr s 8) 0xff; Z.land s 0xff].

(** [usec0] stands for the uninitialised [tm_usec]. *)
Section index.
  Context (usec0 : Z).

Fixpoint time_keys (values : list text) : option (list (list Z)) :=
  match values with
  | [] => Some []
  | v :: values =>
      if (length v <? 10)%nat then None else
      match lutil_parsetime v usec0 with
      | Some tm => tt ← lutil_tm2time tm; keys ← time_keys values; Some (time_key tt :: keys)
      | None => time_keys values
      end
  end.

Definition generalizedTimeIndexer (values : list text) : option (list (list Z)) :=
  match values with [] => None | _ => time_keys values end.

(** The keys, if there are any. *)
Definition generalizedTimeFilter (value : text) : option (option (list (list Z))) :=
  if (length value <? 10)%nat then Some None else
  match lutil_parsetime value usec0 with
  | Some tm => tt ← lutil_tm2time tm; Some (Some [time_key tt])
  | None => Some None
  end.

End index.

(** * Times in their index

    Normalised times are parsed to their fields, converted to seconds, and these are
    the keys; their order is that of the instants. *)

(** ** Parsing *)

Lemma digits_at_two n val p c r acc : drop p val = two c ++ r -> pair_ok c -> digits_at (S (S n)) val p acc = digits_at n val (S (S p)) (acc * 100 + c).
Proof.
  intros E Hc. destruct (two_digit c Hc) as (_ & _ & V). unfold two in E. apply drop_char_at in E as (C1 & E & _). apply drop_char_at in E as (C2 & _ & _).
  cbn [digits_at]. rewrite C1, C2. f_equal. lia.
Qed.

Lemma drop_two (val : text) p c r : drop p val = two c ++ r -> drop (S (S p)) val = r.
Proof. unfold two. intros E. apply drop_char_at in E as (_ & E & _). by apply drop_char_at in E as (_ & E & _). Qed.

Lemma all_digits_are ds : all_digits 10 ds = true -> all_digits_ok ds.
Proof.
  induction ds as [|d ds IH]; [constructor|]. intros H. change (d :: ds) with ([d] ++ ds) in H. rewrite all_digits_app in H. apply andb_true_iff in H as [Hd Hds].
  constructor; [|by apply IH]. apply digit_not; [done|]. destruct (digit_code d Hd) as (x & -> & _). done.
Qed.

Lemma usec_digits_end ds rest : forall i fracs, all_digits_ok ds -> no_digit rest -> exists j f, usec_digits (ds ++ rest) i fracs = (j, f, rest).
Proof.
  induction ds as [|d ds IH]; intros i fracs Hd Hr; cbn [app usec_digits].
  - destruct rest as [|c r]; [by do 2 eexists|]. cbn [usec_digits]. cbn in Hr. rewrite Hr. by do 2 eexists.
  - apply list.Forall_cons in Hd as [-> Hd]. by apply IH.
Qed.

(** The fields of a stamp, in the way of C. *)
Definition fields (t : stamp) (usec : Z) : lutil_tm :=
  mkTm t.(st_sec) t.(st_min) t.(st_hour) t.(st_day) (t.(st_month) - 1) (t.(st_year) - 1900) usec.

Lemma parsetime_normal t ds usec0 : stamp_ok t -> all_digits 10 ds = true -> exists usec, lutil_parsetime (normal_text t ds) usec0 = Some (fields t usec).
Proof.
  intros Ht Hd. pose proof Ht as (Hy & Hm & Hda & Hh & Hmi & Hs). pose proof (month_len_range (st_year t) (st_month t)).
  destruct (stamp_text_value t Ht) as (Hall & L & _). set (rest := match ds with [] => [] | _ => "."%char :: ds end ++ ["Z"%char]).
  assert (normal_text t ds = stamp_text t ++ rest) as E by done. unfold lutil_parsetime.
  assert (count_digits (normal_text t ds) = 14%nat) as Hc.
  { rewrite E, count_digits_app; [done|by apply all_digits_are|by destruct ds]. }
  rewrite Hc. change (14 <? 14)%nat with false. cbv iota.
  assert (drop 0 (normal_text t ds) = two (st_year t / 100) ++ two (st_year t mod 100) ++ two (st_month t) ++ two (st_day t) ++ two (st_hour t) ++ two (st_min t) ++ two (st_sec t) ++ rest) as E0.
  { rewrite drop_0, E. unfold stamp_text, pairs. cbn [mbind list_bind]. by rewrite <- !app_assoc. }
  pose proof (drop_two _ _ _ _ E0) as E2. pose proof (drop_two _ _ _ _ E2) as E4. pose proof (drop_two _ _ _ _ E4) as E6. pose proof (drop_two _ _ _ _ E6) as E8.
  pose proof (drop_two _ _ _ _ E8) as E10. pose proof (drop_two _ _ _ _ E10) as E12. pose proof (drop_two _ _ _ _ E12) as E14.
  assert (forall c, 0 <= c < 100 -> pair_ok c) as Hp by done.
  rewrite (digits_at_two _ _ _ _ _ _ E0), (digits_at_two _ _ _ _ _ _ E2), (digits_at_two _ _ _ _ _ _ E4), (digits_at_two _ _ _ _ _ _ E6),
    (digits_at_two _ _ _ _ _ _ E8), (digits_at_two _ _ _ _ _ _ E10), (digits_at_two _ _ _ _ _ _ E12) by (apply Hp; Z.div_mod_to_equations; lia).
  cbn [digits_at]. rewrite !Z.mul_0_l, !Z.add_0_l. replace (st_year t / 100 * 100 + st_year t mod 100) with (st_year t) by (Z.div_mod_to_equations; lia).
  rewrite !(proj2 (Z.ltb_ge _ _)), !Z.gtb_ltb, !(proj2 (Z.ltb_ge _ _)) by lia. cbn [orb]. rewrite E14. unfold rest.
  destruct ds as [|d ds]; [by eexists|]. cbn [app]. change (Ascii.eqb "." ".") with true. cbv iota.
  change (d :: ds ++ ["Z"%char]) with ((d :: ds) ++ ["Z"%char]).
  destruct (usec_digits_end (d :: ds) ["Z"%char] 0 0 (all_digits_are _ Hd) eq_refl) as (j & f & ->). by eexists.
Qed.

(** ** Seconds *)

(** Days from the first of January 1970, where each fourth year is a leap year. *)
Definition four_year (y : Z) : Z := if y mod 4 =? 0 then 4 else 1.
Definition julian_day (t : stamp) : Z :=
  365 * (t.(st_year) - 1970) + (t.(st_year) - 1969) / 4 + days_to_month (four_year t.(st_year)) (Z.to_nat (t.(st_month) - 1)) + (t.(st_day) - 1).

Definition day_seconds (t : stamp) : Z := (t.(st_hour) * 60 + t.(st_min)) * 60 + t.(st_sec).
Definition julian_seconds (t : stamp) : Z := 86400 * julian_day t + day_seconds t.

(** A month's days before it, as the program has them in a table. *)
Lemma moffset_days y m : 1 <= m <= 12 ->
  exists o, arr_get moffset (m - 1) = Some o /\ 0 <= o <= 334 /\ o + (if (y mod 4 =? 0) && (m - 1 >? 1) then 1 else 0) = days_to_month (four_year y) (Z.to_nat (m - 1)).
Proof.
  intros Hm. unfold four_year. assert (m ∈ [1; 2; 3; 4; 5; 6; 7; 8; 9; 10; 11; 12]) as Hin by (rewrite !elem_of_cons; lia).
  destruct (y mod 4 =? 0);
    repeat (apply elem_of_cons in Hin as [->|Hin]; [eexists; split; [vm_compute; reflexivity|]; split; [lia|]; by vm_compute|]); by apply elem_of_nil in Hin.
Qed.

Lemma month_len_four y m : month_len y m <= month_len (four_year y) m.
Proof.
  unfold four_year, month_len. destruct (m =? 2); [|lia]. unfold leap. destruct (y mod 4 =? 0); cbn [andb].
  - change ((4 mod 4 =? 0) && (negb (4 mod 100 =? 0) || (4 mod 400 =? 0))) with true. case_match; lia.
  - change ((1 mod 4 =? 0) && (negb (1 mod 100 =? 0) || (1 mod 400 =? 0))) with false. lia.
Qed.

Lemma julian_day_bound t : stamp_ok t -> 1970 <= st_year t -> 0 <= julian_day t <= 2934000.
Proof.
  intros (Hy & Hm & Hda & _) H. unfold julian_day. pose proof (month_len_four (st_year t) (st_month t)).
  destruct (days_to_month_bound (four_year (st_year t)) (st_month t) Hm). destruct (leap (four_year (st_year t))); Z.div_mod_to_equations; lia.
Qed.

(** No second of its day gets a number that does not fit the low word. *)
Definition key_fits (t : stamp) : Prop := (86400 * julian_day t) mod 2 ^ 32 + day_seconds t < 2 ^ 32.

Lemma tm2time_fields t usec : stamp_ok t -> 1970 <= st_year t -> key_fits t ->
  exists tt, lutil_tm2time (fields t usec) = Some tt /\ 0 <= tt_gsec tt < 256 /\ 0 <= tt_sec tt < 2 ^ 32 /\ tt_gsec tt * 2 ^ 32 + tt_sec tt = julian_seconds t.
Proof.
  intros Ht Hy1 Hfit. pose proof (julian_day_bound t Ht Hy1) as HJ. destruct Ht as (Hy & Hm & Hda & Hh & Hmi & Hs).
  pose proof (month_len_range (st_year t) (st_month t)). destruct (moffset_days (st_year t) (st_month t) Hm) as (o & Ho & Hor & Hod).
  unfold lutil_tm2time, fields. cbn [tm_usec tm_year tm_mon tm_mday tm_hour tm_min tm_sec].
  destruct (Z.eqb_spec (st_year t - 1900) (-1900)) as [?|_]; [lia|]. cbn [andb]. rewrite Ho. cbn [mbind option_bind].
  rewrite Z.shiftr_div_pow2 by lia. change (2 ^ 2) with 4.
  assert (Z.land (st_year t - 1900) 3 = st_year t mod 4) as ->.
  { change 3 with (Z.ones 2). rewrite Z.land_ones by lia. change (2 ^ 2) with 4. Z.div_mod_to_equations; lia. }
  replace (st_year t - 1900 - 70) with (st_year t - 1970) by lia. replace (st_year t - 1900 - 69) with (st_year t - 1969) by lia.
  set (y0 := st_year t - 1970) in *. set (q := (st_year t - 1969) / 4) in *. set (m1 := st_day t - 1).
  assert (0 <= y0 <= 8029 /\ 0 <= q <= 2008 /\ 0 <= m1 <= 30) as (B1 & B2 & B3) by (unfold y0, q, m1; Z.div_mod_to_equations; lia).
  rewrite (uwrap_small 32 y0), (uwrap_small 32 (y0 * 365)), (uwrap_small 32 q), (uwrap_small 32 (y0 * 365 + q)), (uwrap_small 32 (y0 * 365 + q + o)), (uwrap_small 32 m1), (uwrap_small 32 (y0 * 365 + q + o + 1)) by lia.
  set (leap4 := (st_year t mod 4 =? 0) && (st_month t - 1 >? 1)) in *.
  assert ((if leap4 then y0 * 365 + q + o + 1 else y0 * 365 + q + o) = y0 * 365 + q + (o + (if leap4 then 1 else 0))) as -> by (destruct leap4; lia).
  rewrite Hod. fold m1. assert (y0 * 365 + q + days_to_month (four_year (st_year t)) (Z.to_nat (st_month t - 1)) + m1 = julian_day t) as -> by (unfold julian_day; fold y0 q m1; lia).
  rewrite (uwrap_small 32 (julian_day t)), (uwrap_small 32 (julian_day t * 675)) by lia.
  set (n := julian_day t * 675) in *. rewrite Z.shiftr_div_pow2, Z.shiftl_mul_pow2, Z.shiftl_mul_pow2 by lia. change (2 ^ 25) with 33554432.
  assert (0 <= n / 33554432 < 60) as Hq by (unfold n; Z.div_mod_to_equations; lia). assert (0 <= n mod 33554432 < 33554432) as Hr by (apply Z.mod_pos_bound; lia).
  pose proof (Z.div_mod n 33554432 ltac:(lia)) as En.
  rewrite (swrap_small 32 (n / 33554432)), (uwrap_small 32 (n / 33554432 * 33554432)) by lia.
  replace (n - n / 33554432 * 33554432) with (n mod 33554432) by lia. rewrite (uwrap_small 32 (n mod 33554432)) by lia. change (2 ^ 7) with 128. rewrite (uwrap_small 32 (n mod 33554432 * 128)) by lia.
  rewrite (swrap_small 32 (st_hour t * 60)), (swrap_small 32 ((st_hour t * 60 + st_min t) * 60)) by lia. fold (day_seconds t).
  assert ((86400 * julian_day t) mod 2 ^ 32 = n mod 33554432 * 128) as Em.
  { change (2 ^ 32) with (33554432 * 128). rewrite <- Z.mul_mod_distr_r by lia. f_equal. unfold n. lia. }
  unfold key_fits in Hfit. rewrite Em in Hfit. assert (0 <= day_seconds t) by (unfold day_seconds; lia). rewrite (uwrap_small 32) by lia.
  eexists. split; [done|]. cbn [tt_gsec tt_sec]. split; [lia|]. split; [lia|]. unfold julian_seconds. lia.
Qed.

(** ** Keys *)

Lemma time_key_value tt : 0 <= tt_gsec tt < 256 -> 0 <= tt_sec tt < 2 ^ 32 ->
  bytes_ok (time_key tt) /\ length (time_key tt) = 5%nat /\ be_val (time_key tt) = tt_gsec tt * 2 ^ 32 + tt_sec tt.
Proof.
  intros Hg Hs. unfold time_key. rewrite !Z.shiftr_shiftr by lia. change (8 + 8) with 16. change (16 + 8) with 24. change 255 with (Z.ones 8). rewrite !Z.land_ones, !Z.shiftr_div_pow2 by lia.
  change (2 ^ 8) with 256. change (2 ^ 16) with 65536. change (2 ^ 24) with 16777216. split; [|split; [done|]].
  - repeat constructor; apply Z.mod_pos_bound; lia.
  - rewrite !be_val_cons. cbn [length]. change (be_val []) with 0. change (256 ^ Z.of_nat 4) with 4294967296. change (256 ^ Z.of_nat 3) with 16777216.
    change (256 ^ Z.of_nat 2) with 65536. change (256 ^ Z.of_nat 1) with 256. change (256 ^ Z.of_nat 0) with 1. change (2 ^ 32) with 4294967296 in *. Z.div_mod_to_equations; lia.
Qed.

(** ** Their order *)

Definition julian_minutes (t : stamp) : Z := (julian_day t * 24 + t.(st_hour)) * 60 + t.(st_min).

Lemma julian_day_mono t u : stamp_ok t -> stamp_ok u ->
  (st_year t * 12 + st_month t) * 31 + st_day t < (st_year u * 12 + st_month u) * 31 + st_day u -> julian_day t < julian_day u.
Proof.
  intros (Hy & Hm & Hd & _) (Hy' & Hm' & Hd' & _) Hlt. unfold julian_day.
  destruct (days_to_month_bound (four_year (st_year t)) (st_month t) Hm) as [_ Hb], (days_to_month_bound (four_year (st_year u)) (st_month u) Hm') as [Hb' _].
  pose proof (month_len_range (st_year t) (st_month t)). pose proof (month_len_range (st_year u) (st_month u)). pose proof (month_len_four (st_year t) (st_month t)).
  destruct (Z.lt_trichotomy (st_year t) (st_year u)) as [Hl|[Hl|Hl]]; [|rewrite Hl in *; destruct (Z.lt_trichotomy (st_month t) (st_month u)) as [Hn|[Hn|Hn]]|]; try lia.
  - assert (365 * (st_year t - 1970) + (st_year t - 1969) / 4 + 365 + (if leap (four_year (st_year t)) then 1 else 0) <= 365 * (st_year u - 1970) + (st_year u - 1969) / 4); [|lia].
    unfold four_year. destruct (Z.eqb_spec (st_year t mod 4) 0); [change (leap 4) with true|change (leap 1) with false]; cbv iota; Z.div_mod_to_equations; lia.
  - pose proof (months_mono (four_year (st_year u)) (Z.to_nat (st_month t - 1)) (Z.to_nat (st_month u - 1)) ltac:(lia)) as M.
    replace (Z.of_nat (S (Z.to_nat (st_month t - 1)))) with (st_month t) in M by lia. lia.
  - rewrite Hn. lia.
Qed.

Lemma julian_minutes_mono t u : stamp_ok t -> stamp_ok u -> date_code t < date_code u -> julian_minutes t < julian_minutes u.
Proof.
  intros Ht Hu. pose proof Ht as (Hy & Hm & Hd & Hh & Hmi & _). pose proof Hu as (Hy' & Hm' & Hd' & Hh' & Hmi' & _). unfold date_code, julian_minutes. intros Hlt.
  destruct (Z.lt_trichotomy ((t.(st_year) * 12 + t.(st_month)) * 31 + t.(st_day)) ((u.(st_year) * 12 + u.(st_month)) * 31 + u.(st_day))) as [H|[H|H]]; [|..].
  - pose proof (julian_day_mono _ _ Ht Hu H). lia.
  - pose proof (month_len_range (st_year t) (st_month t)). pose proof (month_len_range (st_year u) (st_month u)).
    assert (st_day t = st_day u /\ st_month t = st_month u /\ st_year t = st_year u) as (E1 & E2 & E3) by lia. unfold julian_day. rewrite E1, E2, E3. lia.
  - lia.
Qed.

Lemma julian_order t u : stamp_ok t -> stamp_ok u ->
  (instant t <= instant u -> julian_seconds t <= julian_seconds u) /\
  (julian_seconds t = julian_seconds u -> st_sec t < 60 -> st_sec u < 60 -> instant t = instant u).
Proof.
  intros Ht Hu. assert (Z.sgn (julian_minutes t * 61 + st_sec t - (julian_minutes u * 61 + st_sec u)) = Z.sgn (instant t - instant u)) as Hs.
  { apply (instant_order (fun t => julian_minutes t * 61 + st_sec t)); try done.
    - clear. intros t u Ht Hu H. pose proof (julian_minutes_mono t u Ht Hu H). destruct Ht as (_ & _ & _ & _ & _ & ?), Hu as (_ & _ & _ & _ & _ & ?). lia.
    - intros H. destruct (date_code_fields t u Ht Hu H) as (E1 & E2 & E3 & E4 & E5). unfold julian_minutes, julian_day. rewrite E1, E2, E3, E4, E5. f_equal. lia. }
  assert (forall t, julian_seconds t = julian_minutes t * 60 + st_sec t) as E by (intros; unfold julian_seconds, julian_minutes, day_seconds; lia). rewrite !E.
  destruct Ht as (_ & _ & _ & _ & _ & ?), Hu as (_ & _ & _ & _ & _ & ?). split; intros.
  - destruct (Z.eq_dec (instant t) (instant u)) as [Ei|]; [rewrite Ei, Z.sub_diag in Hs; apply Z.sgn_null_iff in Hs; lia|]. rewrite (Z.sgn_neg (instant t - instant u)) in Hs by lia. apply Z.sgn_neg_iff in Hs. lia.
  - replace (julian_minutes t * 61 + st_sec t - (julian_minutes u * 61 + st_sec u)) with 0 in Hs by lia. symmetry in Hs. apply Z.sgn_null_iff in Hs. lia.
Qed.

(** Until the year 2099, each fourth year is a leap year. *)
Lemma julian_epoch t : stamp_ok t -> 1970 <= st_year t <= 2099 -> julian_day t = day_number (st_year t) (st_month t) (st_day t) - days_to_year 1970.
Proof.
  intros (_ & Hm & _) Hy. unfold day_number.
  assert (forallb (fun y => forallb (fun m => 365 * (y - 1970) + (y - 1969) / 4 + days_to_month (four_year y) (Z.to_nat (m - 1)) =? days_to_year y + days_to_month y (Z.to_nat (m - 1)) - days_to_year 1970)
    (Z.of_nat <$> seq 1 12)) (Z.of_nat <$> seq 1970 130) = true) as H by (by vm_compute).
  rewrite forallb_forall in H. specialize (H (st_year t)). assert (forall a b n, Z.of_nat a <= n < Z.of_nat (a + b) -> In n (Z.of_nat <$> seq a b)) as Hin.
  { intros a b n Hn. apply list_elem_of_In, list_elem_of_fmap. exists (Z.to_nat n). split; [lia|]. apply elem_of_seq. lia. }
  specialize (H (Hin 1970%nat 130%nat (st_year t) ltac:(lia))). rewrite forallb_forall in H. specialize (H (st_month t) (Hin 1%nat 12%nat (st_month t) ltac:(lia))). apply Z.eqb_eq in H.
  unfold julian_day. lia.
Qed.

(** Until the year 2105, all is in the low word of the key. *)
Lemma key_fits_2105 t : stamp_ok t -> 1970 <= st_year t <= 2105 -> key_fits t.
Proof.
  intros Ht Hy. pose proof (julian_day_bound t Ht ltac:(lia)) as HJ. destruct Ht as (_ & Hm & Hd & Hh & Hmi & Hs).
  unfold key_fits. assert (julian_day t <= 49673).
  { pose proof (month_len_four (st_year t) (st_month t)). destruct (days_to_month_bound (four_year (st_year t)) (st_month t) Hm) as [_ Hb]. unfold julian_day, four_year in *.
    destruct (Z.eqb_spec (st_year t mod 4) 0); [change (leap 4) with true in Hb|change (leap 1) with false in Hb]; cbv iota in Hb; Z.div_mod_to_equations; lia. }
  rewrite Z.mod_small by lia. unfold day_seconds. lia.
Qed.

Lemma filter_key usec0 t ds : stamp_ok t -> 1970 <= st_year t -> key_fits t -> all_digits 10 ds = true ->
  exists k, (forall values keys, time_keys usec0 values = Some keys -> time_keys usec0 (normal_text t ds :: values) = Some (k :: keys)) /\
    generalizedTimeFilter usec0 (normal_text t ds) = Some (Some [k]) /\ bytes_ok k /\ length k = 5%nat /\ be_val k = julian_seconds t.
Proof.
  intros Ht Hy Hf Hd. destruct (parsetime_normal t ds usec0 Ht Hd) as [usec Ep]. destruct (tm2time_fields t usec Ht Hy Hf) as (tt & Et & Hg & Hs & Hv).
  destruct (time_key_value tt Hg Hs) as (K1 & K2 & K3). exists (time_key tt).
  assert ((length (normal_text t ds) <? 10)%nat = false) as Hl.
  { apply Nat.ltb_ge. destruct (stamp_text_value t Ht) as (_ & L & _). unfold normal_text. rewrite length_app, L. lia. }
  unfold generalizedTimeFilter. cbn [time_keys]. rewrite Hl, Ep. cbn [mbind option_bind]. rewrite Et. cbn [mbind option_bind].
  split; [by intros values keys ->|]. split; [done|]. split; [done|]. split; [done|]. congruence.
Qed.

(** C23: The index of times has for each time of the years 1970 to 2105, as it is normalised,
    with any fraction, a key of five octets, the same when it is entered as when it is
    looked for. The keys are in the order of the times, whichever digits their fractions
    have, and different times, but for fractions and leap seconds, have different keys;
    up to 2099 the difference of two keys, as numbers, is that of the times in seconds.
    (Before 1970 and in 2106 it is not so: [index_before_1970], [index_carry_lost].) *)
Theorem time_index_correct usec0 t ds u es : stamp_ok t -> stamp_ok u -> 1970 <= st_year t <= 2105 -> 1970 <= st_year u <= 2105 ->
  all_digits 10 ds = true -> all_digits 10 es = true ->
  exists k l, generalizedTimeIndexer usec0 [normal_text t ds; normal_text u es] = Some [k; l] /\
    generalizedTimeFilter usec0 (normal_text t ds) = Some (Some [k]) /\ generalizedTimeFilter usec0 (normal_text u es) = Some (Some [l]) /\
    length k = 5%nat /\ length l = 5%nat /\
    (instant t <= instant u -> cmp_octets k l <= 0) /\
    (k = l -> st_sec t < 60 -> st_sec u < 60 -> instant t = instant u) /\
    (st_year t <= 2099 -> st_year u <= 2099 -> be_val k - be_val l = (minute_number t - minute_number u) * 60 + (st_sec t - st_sec u)).
Proof.
  intros Ht Hu Hy Hy' Hd Hd'. pose proof (key_fits_2105 t Ht Hy) as Hf. pose proof (key_fits_2105 u Hu Hy') as Hf'.
  destruct (filter_key usec0 t ds Ht ltac:(lia) Hf Hd) as (k & Ki & Kf & Kb & Kl & Kv), (filter_key usec0 u es Hu ltac:(lia) Hf' Hd') as (l & Li & Lf & Lb & Ll & Lv).
  destruct (julian_order t u Ht Hu) as [O1 O2]. exists k, l. split; [by apply Ki, Li|]. do 4 (split; [done|]). split_and!.
  - intros H%O1. rewrite cmp_octets_val, Kv, Lv by (done || congruence). destruct (Z.sgn_spec (julian_seconds t - julian_seconds u)) as [[? ->]|[[? ->]|[? ->]]]; lia.
  - intros ->. apply O2. congruence.
  - intros H H'. rewrite Kv, Lv. unfold julian_seconds. rewrite !julian_epoch by (done || lia). unfold minute_number, day_seconds. lia.
Qed.

Lemma time_index_correct_witness :
  let t := mkStamp 1999 12 31 23 59 59 in let u := mkStamp 2000 1 1 0 0 0 in
  generalizedTimeIndexer 0 [kw "19991231235959.75Z"; kw "20000101000000Z"] = Some [[0; 56; 109; 67; 127]; [0; 56; 109; 67; 128]] /\
  exists k l, generalizedTimeIndexer 0 [normal_text t (kw "75"); normal_text u []] = Some [k; l] /\
    generalizedTimeFilter 0 (normal_text t (kw "75")) = Some (Some [k]) /\ generalizedTimeFilter 0 (normal_text u []) = Some (Some [l]) /\
    length k = 5%nat /\ length l = 5%nat /\
    (instant t <= instant u -> cmp_octets k l <= 0) /\
    (k = l -> st_sec t < 60 -> st_sec u < 60 -> instant t = instant u) /\
    (st_year t <= 2099 -> st_year u <= 2099 -> be_val k - be_val l = (minute_number t - minute_number u) * 60 + (st_sec t - st_sec u)).
Proof. intros t u. split; [by vm_compute|]. apply (time_index_correct 0 t (kw "75") u []); by vm_compute. Defined.

(** The exemptions are needed: the time before 1970 has a key after that of 1970, and
    on a day of 2106 a time has the key of the start of 1970. *)
Lemma index_before_1970 : exists k l, generalizedTimeFilter 0 (kw "19691231235959Z") = Some (Some [k]) /\ generalizedTimeFilter 0 (kw "19700101000000Z") = Some (Some [l]) /\ cmp_octets k l = 1.
Proof. by do 2 eexists; vm_compute. Qed.

Lemma index_carry_lost : generalizedTimeFilter 0 (kw "21060206062816Z") = generalizedTimeFilter 0 (kw "19700101000000Z").
Proof. by vm_compute. Qed.
