(* ===== verification/Utf8.v ===== *)
(** * UTF-8 (libreldap/utf-8.c, utf-8-conv.c)

    A C string is the list of its octets before the terminating NUL; a pointer into
    it that moves forward is the rest of the string. Reading behind the NUL gives
    [None]. Buffers that are written to are the lists of the octets written. *)

From Stdlib Require Import Ascii String.
From S2P Require Import Prelude Attr.

Local Open Scope Z_scope.
Local Abbreviation length := List.length.

(** The octet at a position of a string, its NUL included. *)
Definition at_ (s : list Z) (i : nat) : option Z := (s ++ [0]) !! i.

(** ** Lengths *)

Definition LDAP_UTF8_ISASCII (c : Z) : bool := Z.land c 0x80 =? 0.

Definition ldap_utf8_lentab : list Z :=
  replicate 66 0 ++ replicate 30 2 ++ replicate 16 3 ++ replicate 8 4 ++ replicate 4 5 ++ [6; 6; 0; 0].

Definition ldap_utf8_mintab : list Z :=
  [0x20; 0x80; 0x80; 0x80; 0x80; 0x80; 0x80; 0x80; 0x80; 0x80; 0x80; 0x80; 0x80; 0x80; 0x80; 0x80;
   0x30; 0x80; 0x80; 0x80; 0x80; 0x80; 0x80; 0x80; 0x38; 0x80; 0x80; 0x80; 0x3c; 0x80; 0x00; 0x00].

Definition ldap_utf8_charlen (c : Z) : option Z :=
  if LDAP_UTF8_ISASCII c then Some 1 else ldap_utf8_lentab !! Z.to_nat (Z.lxor c 0x80).

(** The length if the shortest possible encoding is used, 0 if not. *)
Definition ldap_utf8_charlen2 (p : list Z) : option Z :=
  c ← at_ p 0;
  i ← ldap_utf8_charlen c;
  if i >? 2 then
    m ← ldap_utf8_mintab !! Z.to_nat (Z.land c 0x1f);
    d ← at_ p 1;
    Some (if Z.land m d =? 0 then 0 else i)
  else Some i.

(** ** Characters *)

Definition LDAP_UCS4_INVALID : Z := swrap 32 0x80000000.

Definition mask : list Z := [0; 0x7f; 0x1f; 0x0f; 0x07; 0x03; 0x01].

(** The octets from the position [i] on, each with six more bits; the inner [None]
    is an octet that does not continue the character. *)
Fixpoint continue (n : nat) (p : list Z) (i : nat) (ch : Z) : option (option Z) :=
  match n with
  | O => Some (Some ch)
  | S n =>
      c ← at_ p i;
      if negb (Z.land c 0xc0 =? 0x80) then Some None
      else continue n p (S i) (Z.lor (swrap 32 (Z.shiftl ch 6)) (Z.land c 0x3f))
  end.

(** A character and its length in octets. *)
Definition utf8_decode (p : list Z) : option (option (Z * Z)) :=
  len ← ldap_utf8_charlen2 p;
  if len =? 0 then Some None else
  c ← at_ p 0;
  m ← mask !! Z.to_nat len;
  r ← continue (Z.to_nat len - 1) p 1 (Z.land c m);
  Some (ch ← r; Some (ch, len)).

Definition ldap_x_utf8_to_ucs4 (p : list Z) : option Z :=
  r ← utf8_decode p; Some (match r with Some (ch, _) => ch | None => LDAP_UCS4_INVALID end).

(** The octets of a character. *)
Definition ldap_x_ucs4_to_utf8 (c : Z) : list Z :=
  let low n := Z.lor 0x80 (Z.land (Z.shiftr c n) 0x3f) in
  if c <? 0 then []
  else if c <? 0x80 then [c]
  else if c <? 0x800 then [Z.lor 0xc0 (Z.shiftr c 6); low 0]
  else if c <? 0x10000 then [Z.lor 0xe0 (Z.shiftr c 12); low 6; low 0]
  else if c <? 0x200000 then [Z.lor 0xf0 (Z.shiftr c 18); low 12; low 6; low 0]
  else if c <? 0x4000000 then [Z.lor 0xf8 (Z.shiftr c 24); low 18; low 12; low 6; low 0]
  else [Z.lor 0xfc (Z.shiftr c 30); low 24; low 18; low 12; low 6; low 0].

(** Their number, without a buffer. *)
Definition LDAP_UCS_UTF8LEN (c : Z) : Z :=
  if c <? 0 then 0 else if c <? 0x80 then 1 else if c <? 0x800 then 2 else if c <? 0x10000 then 3
  else if c <? 0x200000 then 4 else if c <? 0x4000000 then 5 else 6.

(** ** Strings of characters of 1, 2 or 4 octets *)

(** A character from [csize] octets, the highest first. *)
Fixpoint ucs_char (csize : nat) (s : list Z) (u : Z) : option (Z * list Z) :=
  match csize with
  | O => Some (u, s)
  | S n => match s with c :: s => ucs_char n s (Z.lor (swrap 32 (Z.shiftl u 8)) c) | [] => None end
  end.

(** The loops over the characters up to the end: [fuel] is the number of octets. *)
Fixpoint ucs_length (fuel : nat) (csize : nat) (s : list Z) (l : Z) : option (option Z) :=
  match s with
  | [] => Some (Some l)
  | _ =>
      match fuel with
      | O => None
      | S fuel =>
          '(u, s) ← ucs_char csize s 0;
          let i := LDAP_UCS_UTF8LEN u in
          if i =? 0 then Some None else if l + i <? 2 ^ 31 then ucs_length fuel csize s (l + i) else None
      end
  end.

Fixpoint ucs_write (fuel : nat) (csize : nat) (s : list Z) : option (list Z) :=
  match s with
  | [] => Some []
  | _ =>
      match fuel with
      | O => None
      | S fuel => '(u, s) ← ucs_char csize s 0; out ← ucs_write fuel csize s; Some (ldap_x_ucs4_to_utf8 u ++ out)
      end
  end.

(** The return code, and the length with the octets written, which must fit into
    the block of [l + 1] octets with the NUL; an [int] that overflows gives [None]. *)
Definition ldap_ucs_to_utf8s (ucs : list Z) (csize : nat) : option (Z * option (Z * list Z)) :=
  let s := take (Z.to_nat (Z.land (Z.of_nat (length ucs)) (Z.lnot (Z.of_nat csize - 1)))) ucs in
  r ← ucs_length (length s) csize s 0;
  match r with
  | None => Some (LDAP_INVALID_SYNTAX, None)
  | Some l =>
      out ← ucs_write (length s) csize s;
      if decide (Z.of_nat (length out) <= l /\ l + 1 < 2 ^ 31) then Some (LDAP_SUCCESS, Some (l, out)) else None
  end.

(** ** Moving and copying *)

(** Octets to skip while they continue a character, from [i] on, up to 6. *)
Fixpoint skip_continued (n : nat) (p : list Z) (i : nat) : option nat :=
  match n with
  | O => Some i
  | S n => c ← at_ p i; if negb (Z.land c 0xc0 =? 0x80) then Some i else skip_continued n p (S i)
  end.

Definition ldap_utf8_next (p : list Z) : option nat :=
  c ← at_ p 0; if LDAP_UTF8_ISASCII c then Some 1%nat else skip_continued 5 p 1.

Definition ldap_utf8_offset (p : list Z) : option Z := n ← ldap_utf8_next p; Some (Z.of_nat n).

(** The octets in front of a pointer, the nearest first; how far it goes back. *)
Fixpoint prev_loop (n : nat) (before : list Z) (i : nat) : option nat :=
  match n with
  | O => Some i
  | S n => match before with
           | c :: before => if negb (Z.land c 0xc0 =? 0x80) then Some i else prev_loop n before (S i)
           | [] => None
           end
  end.

Definition ldap_utf8_prev (before : list Z) : option nat := prev_loop 5 before 1.

(** [ldap_utf8_copy]: the octets copied. *)
Definition ldap_utf8_copy (src : list Z) : option (list Z) := n ← ldap_utf8_next src; Some (take n src).

Definition ldap_utf8_bytes (p : list Z) : Z := Z.of_nat (length p).

Fixpoint chars_loop (fuel : nat) (p : list Z) (chars : Z) : option Z :=
  match p with
  | [] => Some chars
  | _ => match fuel with O => None | S fuel => n ← ldap_utf8_next p; chars_loop fuel (drop n p) (chars + 1) end
  end.

Definition ldap_utf8_chars (p : list Z) : option Z := chars_loop (length p) p 0.

(** ** Searching *)

(** Whether a character of [set] is that of [str]. *)
Fixpoint in_set (fuel : nat) (str set : list Z) : option bool :=
  match set with
  | [] => Some false
  | _ =>
      match fuel with
      | O => None
      | S fuel =>
          a ← ldap_x_utf8_to_ucs4 str; b ← ldap_x_utf8_to_ucs4 set;
          if a =? b then Some true else n ← ldap_utf8_next set; in_set fuel str (drop n set)
      end
  end.

(** The octets in front of the first character of [str] that is in [set], or that
    is not. *)
Fixpoint span (want : bool) (fuel : nat) (str set : list Z) (off : nat) : option nat :=
  match str with
  | [] => Some off
  | _ =>
      match fuel with
      | O => None
      | S fuel =>
          b ← in_set (length set) str set;
          if Bool.eqb b want then Some off
          else n ← ldap_utf8_next str; span want fuel (drop n str) set (off + n)
      end
  end.

Definition ldap_utf8_strcspn (str set : list Z) : option nat := span true (length str) str set 0.
Definition ldap_utf8_strspn (str set : list Z) : option nat := span false (length str) str set 0.

(** The rest from the first character that is in [set]. *)
Fixpoint strpbrk_loop (fuel : nat) (str set : list Z) : option (option (list Z)) :=
  match str with
  | [] => Some None
  | _ =>
      match fuel with
      | O => None
      | S fuel =>
          b ← in_set (length set) str set;
          if b : bool then Some (Some str) else n ← ldap_utf8_next str; strpbrk_loop fuel (drop n str) set
      end
  end.

Definition ldap_utf8_strpbrk (str set : list Z) : option (option (list Z)) := strpbrk_loop (length str) str set.

Fixpoint strchr_loop (fuel : nat) (str chr : list Z) : option (option (list Z)) :=
  match str with
  | [] => Some None
  | _ =>
      match fuel with
      | O => None
      | S fuel =>
          a ← ldap_x_utf8_to_ucs4 str; b ← ldap_x_utf8_to_ucs4 chr;
          if a =? b then Some (Some str) else n ← ldap_utf8_next str; strchr_loop fuel (drop n str) chr
      end
  end.

Definition ldap_utf8_strchr (str chr : list Z) : option (option (list Z)) := strchr_loop (length str) str chr.

(** [ldap_utf8_strtok]: the token and what [*last] is set to. *)
Definition ldap_utf8_strtok (str sep : list Z) : option (option (list Z * list Z)) :=
  n ← ldap_utf8_strspn str sep;
  let begin := drop n str in
  match begin with
  | [] => Some None
  | _ =>
      n ← ldap_utf8_strcspn begin sep;
      let end_ := drop n begin in
      match end_ with
      | [] => Some (Some (take n begin, []))
      | _ => k ← ldap_utf8_next end_; Some (Some (take n begin, drop k end_))
      end
  end.

(** ** Wide characters *)

Definition LDAP_MAX_UTF8_LEN : Z := 6.

(** A wide character and its length; the inner [None] is the code's [-1]. *)
Definition ldap_x_utf8_to_wc (p : list Z) : option (option (Z * Z)) :=
  utflen ← ldap_utf8_charlen2 p;
  if (utflen =? 0) || (utflen >? LDAP_MAX_UTF8_LEN) then Some None else
  c ← at_ p 0;
  m ← mask !! Z.to_nat utflen;
  r ← continue (Z.to_nat utflen - 1) p 1 (Z.land c m);
  Some (ch ← r; Some (ch, utflen)).

(** The loop of [ldap_x_utf8s_to_wcs]: [room] is what is left of the count, or
    [None] without a buffer. Whether the string could be converted, and the
    characters up to there. *)
Fixpoint utf8s_loop (fuel : nat) (room : option nat) (p : list Z) (out : list Z) : option (bool * list Z) :=
  match p, room with
  | [], _ | _, Some O => Some (true, out)
  | _, _ =>
      match fuel with
      | O => None
      | S fuel =>
          r ← ldap_x_utf8_to_wc p;
          match r with
          | None => Some (false, out)
          | Some (ch, utflen) => utf8s_loop fuel (pred <$> room) (drop (Z.to_nat utflen) p) (out ++ [ch])
          end
      end
  end.

(** The result, and what is written to the buffer of [count] characters, if there
    is one. *)
Definition ldap_x_utf8s_to_wcs (utf8str : list Z) (count : option nat) : option (Z * list Z) :=
  let written l := match count with Some _ => l | None => [] end in
  match utf8str with
  | [] => Some (0, written [0])
  | _ =>
      '(ok, out) ← utf8s_loop (length utf8str) count utf8str [];
      let full := match count with Some n => (n <=? length out)%nat | None => true end in
      Some (if ok : bool then (swrap 32 (Z.of_nat (length out)), written (out ++ if full then [] else [0])) else (-1, written out))
  end.

(** The result and the octets written into room for [count], or without a buffer. *)
Definition ldap_x_wc_to_utf8 (wchar : Z) (count : option Z) : Z * list Z :=
  let low n := Z.lor 0x80 (Z.land (Z.shiftr wchar n) 0x3f) in
  let write out := match count with
                   | None => (Z.of_nat (length out), [])
                   | Some count => if count >=? Z.of_nat (length out) then (Z.of_nat (length out), out) else (0, [])
                   end in
  if wchar <? 0 then (-1, [])
  else if wchar <? 0x80 then write [wchar]
  else if wchar <? 0x800 then write [Z.lor 0xc0 (Z.shiftr wchar 6); low 0]
  else if wchar <? 0x10000 then write [Z.lor 0xe0 (Z.shiftr wchar 12); low 6; low 0]
  else if wchar <? 0x200000 then write [Z.lor 0xf0 (Z.shiftr wchar 18); low 12; low 6; low 0]
  else if wchar <? 0x4000000 then write [Z.lor 0xf8 (Z.shiftr wchar 24); low 18; low 12; low 6; low 0]
  else write [Z.lor 0xfc (Z.shiftr wchar 30); low 24; low 18; low 12; low 6; low 0].

(** The size of the output, and the loop of the conversion: the last result of
    [ldap_x_wc_to_utf8], the octets written and the room left. *)
Fixpoint wcs_size (wcstr : list Z) (len : Z) : Z :=
  match wcstr with
  | [] => len
  | wc :: wcstr => let n := fst (ldap_x_wc_to_utf8 wc None) in if n =? -1 then -1 else wcs_size wcstr (swrap 32 (len + n))
  end.

Fixpoint wcs_loop (wcstr : list Z) (n : Z) (out : list Z) (count : Z) : Z * list Z * Z :=
  match wcstr with
  | [] => (n, out, count)
  | wc :: wcstr =>
      let '(n, o) := ldap_x_wc_to_utf8 wc (Some count) in
      if n <=? 0 then (n, out, count) else wcs_loop wcstr n (out ++ o) (count - n)
  end.

Definition ldap_x_wcs_to_utf8s (wcstr : list Z) (count : option Z) : Z * list Z :=
  match count with
  | None => (wcs_size wcstr 0, [])
  | Some count =>
      let '(n, out, space) := wcs_loop wcstr 1 [] count in
      if n =? 0 then (swrap 32 (Z.of_nat (length out) + space), out ++ replicate (Z.to_nat space) 0)
      else
        let buf := out ++ if space =? 0 then [] else [0] in
        (if n =? -1 then -1 else swrap 32 (Z.of_nat (length out)), buf)
  end.
