(* ===== verification/Utf8Facts.v ===== *)
(** * Characters and their octets *)

From Stdlib Require Import Ascii String.
From S2P Require Import Prelude Attr Utf8.

Local Open Scope Z_scope.
Local Abbreviation length := List.length.

(** ** Reading within a string *)

Lemma at_0 p : at_ p 0 = Some (hd 0 p).
Proof. by destruct p. Qed.

Lemma at_app pre s i : at_ (pre ++ s) (length pre + i) = at_ s i.
Proof. unfold at_. rewrite <- app_assoc, lookup_app_r by lia. f_equal. lia. Qed.

(** The octets that continue a character, as a function of the rest. *)
Fixpoint cont (n : nat) (s : list Z) (ch : Z) : option Z :=
  match n with
  | O => Some ch
  | S n => match s with
           | c :: s => if negb (Z.land c 0xc0 =? 0x80) then None
                       else cont n s (Z.lor (swrap 32 (Z.shiftl ch 6)) (Z.land c 0x3f))
           | [] => None
           end
  end.

Lemma continue_cont n : forall pre s ch, continue n (pre ++ s) (length pre) ch = Some (cont n s ch).
Proof.
  induction n as [|n IH]; intros pre s ch; [done|]. cbn [continue cont].
  pose proof (at_app pre s 0) as E. rewrite Nat.add_0_r in E. rewrite E, at_0. cbn [mbind option_bind].
  destruct s as [|c s]; [done|]. cbn [hd]. destruct (negb _); [done|].
  specialize (IH (pre ++ [c]) s). rewrite <- app_assoc, length_app in IH. cbn [app length] in IH.
  rewrite Nat.add_1_r in IH. apply IH.
Qed.

Fixpoint skipped (n : nat) (s : list Z) : nat :=
  match n with
  | O => O
  | S n => match s with c :: s => if negb (Z.land c 0xc0 =? 0x80) then O else S (skipped n s) | [] => O end
  end.

Lemma skip_continued_skipped n : forall pre s, skip_continued n (pre ++ s) (length pre) = Some (length pre + skipped n s)%nat.
Proof.
  induction n as [|n IH]; intros pre s; cbn [skip_continued skipped]; [f_equal; lia|].
  pose proof (at_app pre s 0) as E. rewrite Nat.add_0_r in E. rewrite E, at_0. cbn [mbind option_bind].
  destruct s as [|c s]; [cbn; f_equal; lia|]. cbn [hd]. destruct (negb _); [f_equal; lia|].
  specialize (IH (pre ++ [c]) s). rewrite <- app_assoc, length_app in IH. cbn [app length] in IH.
  rewrite Nat.add_1_r in IH. rewrite IH. f_equal. lia.
Qed.

(** Advancing stays within the string. *)
Lemma next_spec b s : ldap_utf8_next (b :: s) = Some (S (if LDAP_UTF8_ISASCII b then 0 else skipped 5 s)).
Proof.
  unfold ldap_utf8_next. rewrite at_0. cbn [mbind option_bind hd]. destruct (LDAP_UTF8_ISASCII b); [done|].
  apply (skip_continued_skipped 5 [b] s).
Qed.

Lemma skipped_length n : forall s, (skipped n s <= length s)%nat.
Proof. induction n as [|n IH]; intros s; [cbn; lia|]. destruct s as [|c s]; [done|]. cbn. destruct (negb _); [lia|]. specialize (IH s). lia. Qed.

(** ** The length that two octets tell *)

Definition len2 (b d : Z) : option Z :=
  i ← ldap_utf8_charlen b;
  if i >? 2 then m ← ldap_utf8_mintab !! Z.to_nat (Z.land b 0x1f); Some (if Z.land m d =? 0 then 0 else i) else Some i.

Lemma charlen2_len2 b s : ldap_utf8_charlen2 (b :: s) = len2 b (hd 0 s).
Proof. unfold ldap_utf8_charlen2, len2. rewrite at_0. cbn [mbind option_bind hd]. by destruct s. Qed.

(** First octets, and how many continuing ones they announce. *)
Definition lead (n : nat) : Z := nth n [0; 0xc0; 0xe0; 0xf0; 0xf8; 0xfc] 0.
Definition width (n : nat) : Z := nth n [0x80; 32; 16; 8; 4; 2] 0.

(** The least value of the first two octets that needs them all. *)
Definition least (n : nat) : Z := nth n [0; 0x80; 32; 16; 8; 4] 0.

Definition check_lens : bool :=
  forallb (fun b =>
    if b <? 0x80 then bool_decide (len2 b 0 = Some 1)
    else if (b <? 0xc0) || (0xfe <=? b) then bool_decide (ldap_utf8_charlen b = Some 0)
    else forallb (fun n =>
      if (lead n <=? b) && (b <? lead n + width n) then
        forallb (fun d => bool_decide (len2 b (0x80 + d) =
          Some (if (if Nat.eqb n 1 then (b - lead n) * 64 <? 0x80 else (b - lead n) * 64 + d <? least n) then 0 else Z.of_nat n + 1)))
          (take 64 all_bytes)
      else true) [1; 2; 3; 4; 5]%nat) all_bytes.

Lemma lens_checked : check_lens = true.
Proof. by vm_compute. Qed.

Lemma byte_in b : byte_ok b -> In b all_bytes.
Proof.
  intros Hb. apply list_elem_of_In, list_elem_of_fmap. exists (Z.to_nat b). unfold byte_ok in Hb. split; [lia|]. apply elem_of_seq. lia.
Qed.

Lemma digit_byte d : 0 <= d < 64 -> In d (take 64 all_bytes).
Proof.
  intros Hd. apply list_elem_of_In, list_elem_of_lookup. exists (Z.to_nat d). rewrite lookup_take_lt by lia.
  unfold all_bytes. rewrite list_lookup_fmap, lookup_seq_lt by lia. cbn. f_equal. lia.
Qed.

Lemma len2_ascii b d : 0 <= b < 0x80 -> len2 b d = Some 1.
Proof.
  intros Hb. assert (len2 b 0 = Some 1) as H.
  { pose proof lens_checked as H. unfold check_lens in H. rewrite forallb_forall in H. specialize (H b (byte_in b ltac:(unfold byte_ok; lia))).
    cbv beta in H. rewrite (proj2 (Z.ltb_lt b 0x80)) in H by lia. by apply bool_decide_eq_true in H. }
  unfold len2 in *. destruct (ldap_utf8_charlen b) as [i|]; [|done]. cbn [mbind option_bind] in *. destruct (i >? 2); [|done].
  destruct (_ !! _) as [m|]; [|done]. cbn [mbind option_bind] in H. rewrite Z.land_0_r in H. done.
Qed.

Lemma len2_invalid b d : byte_ok b -> 0x80 <= b < 0xc0 \/ 0xfe <= b -> len2 b d = Some 0.
Proof.
  intros Hb Hr. pose proof lens_checked as H. unfold check_lens in H. rewrite forallb_forall in H. specialize (H b (byte_in b Hb)).
  cbv beta in H. rewrite (proj2 (Z.ltb_ge b 0x80)) in H by lia.
  assert ((b <? 0xc0) || (0xfe <=? b) = true) as E by (destruct Hr; [rewrite (proj2 (Z.ltb_lt _ _)) by lia; done|rewrite (proj2 (Z.leb_le _ _)) by lia; apply orb_true_r]).
  rewrite E in H. apply bool_decide_eq_true in H. unfold len2. by rewrite H.
Qed.

Lemma len2_multi n b d :
  (1 <= n <= 5)%nat -> lead n <= b < lead n + width n -> 0 <= d < 64 ->
  len2 b (0x80 + d) = Some (if (if Nat.eqb n 1 then (b - lead n) * 64 <? 0x80 else (b - lead n) * 64 + d <? least n) then 0 else Z.of_nat n + 1).
Proof.
  intros Hn Hb Hd. assert (0xc0 <= b < 0xfe) as Hr by (destruct n as [|[|[|[|[|[|n]]]]]]; cbn in Hb; lia).
  pose proof lens_checked as H. unfold check_lens in H. rewrite forallb_forall in H.
  specialize (H b (byte_in b ltac:(unfold byte_ok; lia))). cbv beta in H.
  rewrite (proj2 (Z.ltb_ge b 0x80)), (proj2 (Z.ltb_ge b 0xc0)), (proj2 (Z.leb_gt 0xfe b)) in H by lia. cbn [orb] in H.
  rewrite forallb_forall in H. specialize (H n). rewrite (proj2 (Z.leb_le (lead n) b)), (proj2 (Z.ltb_lt b _)) in H by lia. cbn [andb] in H.
  assert (In n [1; 2; 3; 4; 5]%nat) as Hin by (destruct n as [|[|[|[|[|[|n]]]]]]; cbn; lia).
  specialize (H Hin). rewrite forallb_forall in H. specialize (H d (digit_byte d Hd)). by apply bool_decide_eq_true in H.
Qed.

Lemma byte_class b : byte_ok b ->
  b < 0x80 \/ (0x80 <= b < 0xc0 \/ 0xfe <= b) \/ exists n, (1 <= n <= 5)%nat /\ lead n <= b < lead n + width n.
Proof.
  intros [H1 H2]. destruct (decide (b < 0x80)); [by left|]. destruct (decide (b < 0xc0)); [right; left; lia|].
  destruct (decide (0xfe <= b)); [right; left; lia|]. do 2 right.
  destruct (decide (b < 0xe0)); [exists 1%nat; cbn; lia|]. destruct (decide (b < 0xf0)); [exists 2%nat; cbn; lia|].
  destruct (decide (b < 0xf8)); [exists 3%nat; cbn; lia|]. destruct (decide (b < 0xfc)); [exists 4%nat; cbn; lia|].
  exists 5%nat. cbn. lia.
Qed.

(** ** Six bits at a time *)

Definition is_cont (b : Z) : bool := Z.land b 0xc0 =? 0x80.

Lemma is_cont_range b : byte_ok b -> is_cont b = (0x80 <=? b) && (b <? 0xc0).
Proof.
  intros Hb. apply Bool.eqb_prop. revert b Hb.
  apply (byte_check (fun b => Bool.eqb (is_cont b) ((0x80 <=? b) && (b <? 0xc0)))). by vm_compute.
Qed.

Lemma cont_bits d : 0 <= d < 64 -> Z.lor 0x80 d = 0x80 + d /\ Z.land (0x80 + d) 0x3f = d.
Proof.
  intros Hd. split; [apply (lor_shiftl_low 2 d 6); lia|].
  change 0x3f with (2 ^ 6 - 1). rewrite (land_ones_mod (0x80 + d) 6) by lia. change (2 ^ 6) with 64. replace (0x80 + d) with (d + 2 * 64) by lia.
  rewrite Z_mod_plus_full. apply Z.mod_small. lia.
Qed.

Lemma six_more ch d : 0 <= ch < 2 ^ 25 -> 0 <= d < 64 -> Z.lor (swrap 32 (Z.shiftl ch 6)) d = ch * 64 + d.
Proof.
  intros Hch Hd. rewrite Z.shiftl_mul_pow2 by lia. rewrite swrap_small by (change (2 ^ 6) with 64; lia).
  rewrite <- Z.shiftl_mul_pow2 by lia. rewrite lor_shiftl_low by (change (2 ^ 6) with 64; lia). done.
Qed.

(** The continuing octets of a number: its last [n] digits to the base 64. *)
Fixpoint conts (n : nat) (c : Z) : list Z :=
  match n with O => [] | S n => (0x80 + (c / 64 ^ Z.of_nat n) mod 64) :: conts n c end.

Lemma length_conts n c : length (conts n c) = n.
Proof. induction n; cbn; auto. Qed.

Lemma pow64_S n : 64 ^ Z.of_nat (S n) = 64 * 64 ^ Z.of_nat n.
Proof. rewrite Nat2Z.inj_succ, Z.pow_succ_r; lia. Qed.

Lemma pow64_pos n : 0 < 64 ^ Z.of_nat n.
Proof. apply Z.pow_pos_nonneg; lia. Qed.

Lemma digit_64 c n : c / 64 ^ Z.of_nat n = c / 64 ^ Z.of_nat (S n) * 64 + (c / 64 ^ Z.of_nat n) mod 64.
Proof.
  rewrite pow64_S, (Z.mul_comm 64), <- Z.div_div by (pose proof (pow64_pos n); lia).
  pose proof (Z.div_mod (c / 64 ^ Z.of_nat n) 64 ltac:(lia)). lia.
Qed.

(** Reading the digits back. *)
Lemma cont_conts n c rest : 0 <= c < 2 ^ 31 -> cont n (conts n c ++ rest) (c / 64 ^ Z.of_nat n) = Some c.
Proof.
  intros Hc. induction n as [|n IH]; [cbn; f_equal; apply Z.div_1_r|]. cbn [cont conts app].
  pose proof (Z.mod_pos_bound (c / 64 ^ Z.of_nat n) 64 ltac:(lia)) as Hd. pose proof (digit_64 c n) as Hdig.
  revert Hdig Hd. generalize ((c / 64 ^ Z.of_nat n) mod 64). intros d Hdig Hd.
  fold (is_cont (0x80 + d)). rewrite is_cont_range by (unfold byte_ok; lia).
  rewrite (proj2 (Z.leb_le _ _)), (proj2 (Z.ltb_lt _ _)) by lia. cbn [andb negb].
  destruct (cont_bits d Hd) as [_ ->].
  assert (0 <= c / 64 ^ Z.of_nat (S n) < 2 ^ 25) as Hr.
  { pose proof (pow64_pos (S n)). split; [apply Z.div_pos; lia|]. apply Z.div_lt_upper_bound; [lia|].
    rewrite pow64_S. pose proof (pow64_pos n). nia. }
  rewrite six_more by done. by rewrite <- Hdig.
Qed.

(** What is read are the digits of the result. *)
Lemma cont_inv n : forall s ch c,
  bytes_ok s -> 0 <= ch -> ch * 64 ^ Z.of_nat n < 2 ^ 31 - 64 ^ Z.of_nat n + 1 -> cont n s ch = Some c ->
  (n <= length s)%nat /\ take n s = conts n c /\ c / 64 ^ Z.of_nat n = ch /\ 0 <= c < 2 ^ 31.
Proof.
  induction n as [|n IH]; intros s ch c Hs Hch Hlt Hc.
  { cbn in *. injection Hc as <-. rewrite Z.div_1_r. split_and!; (done || lia). }
  destruct s as [|b s]; [done|]. apply bytes_ok_cons in Hs as [Hb Hs]. cbn [cont] in Hc.
  fold (is_cont b) in Hc. destruct (is_cont b) eqn:E; [|done]. cbn [negb] in Hc. rewrite is_cont_range in E by done. zb.
  assert (exists d, b = 0x80 + d /\ 0 <= d < 64) as (d & -> & Hd) by (exists (b - 0x80); lia).
  destruct (cont_bits d Hd) as [_ Hbits]. rewrite Hbits in Hc. rewrite pow64_S in Hlt. pose proof (pow64_pos n).
  rewrite six_more in Hc by (try lia; nia).
  destruct (IH s (ch * 64 + d) c Hs ltac:(lia) ltac:(nia) Hc) as (G1 & G2 & G3 & G4). cbn [length take conts].
  split; [lia|]. split; [|split; [|done]].
  - rewrite G2, G3. f_equal. replace (ch * 64 + d) with (d + ch * 64) by lia. rewrite Z_mod_plus_full, Z.mod_small by lia. done.
  - rewrite pow64_S, Z.mul_comm, <- Z.div_div by lia. rewrite G3. replace (ch * 64 + d) with (d + ch * 64) by lia.
    rewrite Z_div_plus_full by lia. rewrite Z.div_small; lia.
Qed.

(** ** The encoding *)

(** The bounds of the characters with [n] continuing octets. *)
Definition bound (n : nat) : Z := nth n [0x80; 0x800; 0x10000; 0x200000; 0x4000000; 0x80000000] 0.

Lemma low_octet c k : 0 <= c -> Z.lor 0x80 (Z.land (Z.shiftr c (6 * Z.of_nat k)) 0x3f) = 0x80 + (c / 64 ^ Z.of_nat k) mod 64.
Proof.
  intros Hc. rewrite Z.shiftr_div_pow2 by lia. rewrite Z.pow_mul_r by lia. change (2 ^ 6) with 64.
  change 0x3f with (2 ^ 6 - 1). rewrite (land_ones_mod _ 6) by lia. change (2 ^ 6) with 64. apply cont_bits, Z.mod_pos_bound. lia.
Qed.

Lemma lead_octet n x : (1 <= n <= 5)%nat -> 0 <= x < width n -> Z.lor (lead n) x = lead n + x.
Proof.
  intros Hn Hx. destruct n as [|[|[|[|[|[|n]]]]]]; try lia; cbn [lead width nth] in *.
  - apply (lor_shiftl_low 6 x 5); lia.
  - apply (lor_shiftl_low 14 x 4); lia.
  - apply (lor_shiftl_low 30 x 3); lia.
  - apply (lor_shiftl_low 62 x 2); lia.
  - apply (lor_shiftl_low 126 x 1); lia.
Qed.

Lemma width_bound n c : (1 <= n <= 5)%nat -> 0 <= c < bound n -> 0 <= c / 64 ^ Z.of_nat n < width n.
Proof.
  intros Hn Hc. pose proof (pow64_pos n). split; [apply Z.div_pos; lia|]. apply Z.div_lt_upper_bound; [lia|].
  destruct n as [|[|[|[|[|[|n]]]]]]; try lia; cbn [bound width nth] in *; lia.
Qed.

(** An ASCII character is one octet; the others have a first octet that tells how
    many follow, and the digits to the base 64. *)
Lemma encode_shape c : 0 <= c < 2 ^ 31 ->
  (c < 0x80 /\ ldap_x_ucs4_to_utf8 c = [c]) \/
  exists n, (1 <= n <= 5)%nat /\ bound (n - 1) <= c < bound n /\ ldap_x_ucs4_to_utf8 c = (lead n + c / 64 ^ Z.of_nat n) :: conts n c.
Proof.
  intros Hc. unfold ldap_x_ucs4_to_utf8. cbv zeta. rewrite (proj2 (Z.ltb_ge c 0)) by lia.
  assert (forall n, (1 <= n <= 5)%nat -> c < bound n -> Z.lor (lead n) (Z.shiftr c (6 * Z.of_nat n)) = lead n + c / 64 ^ Z.of_nat n) as Hlead.
  { intros n Hn Hb. rewrite Z.shiftr_div_pow2, Z.pow_mul_r by lia. change (2 ^ 6) with 64. apply lead_octet; [done|]. apply width_bound; [done|lia]. }
  pose proof (low_octet c 0 ltac:(lia)) as L0. pose proof (low_octet c 1 ltac:(lia)) as L1. pose proof (low_octet c 2 ltac:(lia)) as L2.
  pose proof (low_octet c 3 ltac:(lia)) as L3. pose proof (low_octet c 4 ltac:(lia)) as L4.
  change (6 * Z.of_nat 0) with 0 in L0. change (6 * Z.of_nat 1) with 6 in L1. change (6 * Z.of_nat 2) with 12 in L2.
  change (6 * Z.of_nat 3) with 18 in L3. change (6 * Z.of_nat 4) with 24 in L4.
  destruct (c <? 0x80) eqn:E1; zb; [by left|right].
  destruct (c <? 0x800) eqn:E2; zb; [exists 1%nat|destruct (c <? 0x10000) eqn:E3; zb; [exists 2%nat|
    destruct (c <? 0x200000) eqn:E4; zb; [exists 3%nat|destruct (c <? 0x4000000) eqn:E5; zb; [exists 4%nat|exists 5%nat]]]];
    (split; [lia|]; split; [cbn; lia|]; cbn [conts]; rewrite ?L0, ?L1, ?L2, ?L3, ?L4; f_equal;
     match goal with |- _ = lead ?n + _ => apply (Hlead n) end; [lia|cbn; lia]).
Qed.

Lemma encode_ascii c : 0 <= c < 0x80 -> ldap_x_ucs4_to_utf8 c = [c].
Proof. intros Hc. destruct (encode_shape c ltac:(lia)) as [[_ ?]|(n & Hn & Hb & _)]; [done|]. destruct n as [|[|[|[|[|[|n]]]]]]; cbn in Hb; lia. Qed.

Lemma bounds_disjoint n m c :
  (1 <= n <= 5)%nat -> (1 <= m <= 5)%nat -> bound (n - 1) <= c < bound n -> bound (m - 1) <= c < bound m -> n = m.
Proof.
  intros Hn Hm Hc Hd.
  destruct n as [|[|[|[|[|[|n]]]]]]; try lia; destruct m as [|[|[|[|[|[|m]]]]]]; cbn in Hc, Hd; lia.
Qed.

Lemma bound_below n : (1 <= n <= 5)%nat -> bound n = width n * 64 ^ Z.of_nat n /\ bound n <= 2 ^ 31 /\ 0x80 <= bound (n - 1).
Proof. intros Hn. destruct n as [|[|[|[|[|[|n]]]]]]; try lia; cbn; lia. Qed.

Lemma encode_multi n c : (1 <= n <= 5)%nat -> bound (n - 1) <= c < bound n ->
  ldap_x_ucs4_to_utf8 c = (lead n + c / 64 ^ Z.of_nat n) :: conts n c.
Proof.
  intros Hn Hc. pose proof (bound_below n Hn). destruct (encode_shape c ltac:(lia)) as [[? _]|(m & Hm & Hb & E)]; [lia|].
  by rewrite (bounds_disjoint n m c Hn Hm Hc Hb).
Qed.

Lemma length_encode_pos c : 0 <= c < 2 ^ 31 -> (1 <= length (ldap_x_ucs4_to_utf8 c) <= 6)%nat.
Proof.
  intros Hc. destruct (encode_shape c Hc) as [[_ ->]|(n & Hn & _ & ->)]; cbn [length]; [lia|]. rewrite length_conts. lia.
Qed.

Lemma conts_ok n c : 0 <= c -> bytes_ok (conts n c).
Proof.
  intros Hc. induction n as [|n IH]; [constructor|]. cbn. apply bytes_ok_cons. split; [|done]. unfold byte_ok.
  pose proof (Z.mod_pos_bound (c / 64 ^ Z.of_nat n) 64 ltac:(lia)). lia.
Qed.

Lemma lead_range n x : (1 <= n <= 5)%nat -> 0 <= x < width n -> 0xc0 <= lead n + x < 0xfe.
Proof. intros Hn Hx. destruct n as [|[|[|[|[|[|n]]]]]]; try lia; cbn in *; lia. Qed.

Lemma encode_ok c : 0 <= c < 2 ^ 31 -> bytes_ok (ldap_x_ucs4_to_utf8 c).
Proof.
  intros Hc. destruct (encode_shape c Hc) as [[H ->]|(n & Hn & Hb & ->)]; apply bytes_ok_cons; unfold byte_ok; (split; [|]).
  - lia.
  - constructor.
  - pose proof (lead_range n _ Hn (width_bound n c Hn ltac:(pose proof (bound_below n Hn); lia))). lia.
  - apply conts_ok. lia.
Qed.

(** ** Decoding *)

Lemma masked n b : (1 <= n <= 5)%nat -> lead n <= b < lead n + width n -> mask !! S n = Some (width n - 1) /\ Z.land b (width n - 1) = b - lead n.
Proof.
  intros Hn Hb. assert (forall q k, lead n = q * 2 ^ k -> width n = 2 ^ k -> 0 <= k -> Z.land b (width n - 1) = b - lead n) as H.
  { intros q k Hl Hw Hk. rewrite Hw, land_ones_mod by lia. replace b with ((b - lead n) + q * 2 ^ k) at 1 by lia.
    rewrite Z_mod_plus_full. apply Z.mod_small. lia. }
  destruct n as [|[|[|[|[|[|n]]]]]]; try lia; (split; [done|]).
  - by apply (H 6 5).
  - by apply (H 14 4).
  - by apply (H 30 3).
  - by apply (H 62 2).
  - by apply (H 126 1).
Qed.

Lemma charlen_multi n b : (1 <= n <= 5)%nat -> lead n <= b < lead n + width n ->
  ldap_utf8_charlen b = Some (if Nat.eqb n 1 && (b <? 0xc2) then 0 else Z.of_nat n + 1).
Proof.
  intros Hn Hb. pose (P := fun b => if (lead n <=? b) && (b <? lead n + width n)
    then bool_decide (ldap_utf8_charlen b = Some (if Nat.eqb n 1 && (b <? 0xc2) then 0 else Z.of_nat n + 1)) else true).
  assert (P b = true) as H.
  { apply byte_check; [|unfold byte_ok; destruct n as [|[|[|[|[|[|n]]]]]]; cbn in Hb; lia].
    destruct n as [|[|[|[|[|[|n]]]]]]; try lia; by vm_compute. }
  unfold P in H. rewrite (proj2 (Z.leb_le (lead n) b)), (proj2 (Z.ltb_lt b _)) in H by lia. by apply bool_decide_eq_true in H.
Qed.

Lemma len2_any n b d : byte_ok d -> (1 <= n <= 5)%nat -> lead n <= b < lead n + width n ->
  len2 b d = Some 0 \/ len2 b d = Some (Z.of_nat n + 1).
Proof.
  intros Hd Hn Hb. unfold len2. rewrite (charlen_multi n b Hn Hb). cbn [mbind option_bind].
  destruct (Nat.eqb n 1 && (b <? 0xc2)); [by left|]. destruct (_ >? 2) eqn:E; [|by right].
  assert (is_Some (ldap_utf8_mintab !! Z.to_nat (Z.land b 0x1f))) as [m ->].
  { apply lookup_lt_is_Some. change 0x1f with (2 ^ 5 - 1). rewrite land_ones_mod by lia. change (2 ^ 5) with 32.
    pose proof (Z.mod_pos_bound b 32 ltac:(lia)). change (length ldap_utf8_mintab) with 32%nat. lia. }
  cbn [mbind option_bind]. destruct (_ =? 0); [by left|by right].
Qed.

Lemma decode_len len b s : ldap_utf8_charlen2 (b :: s) = Some len -> 0 <= len <= 6 ->
  utf8_decode (b :: s) = Some (if len =? 0 then None else
    ch ← cont (Z.to_nat len - 1) s (Z.land b (nth (Z.to_nat len) mask 0)); Some (ch, len)) /\ ldap_x_utf8_to_wc (b :: s) = utf8_decode (b :: s).
Proof.
  intros E Hl. unfold utf8_decode, ldap_x_utf8_to_wc. rewrite E. cbn [mbind option_bind].
  assert ((len >? LDAP_MAX_UTF8_LEN) = false) as -> by (unfold LDAP_MAX_UTF8_LEN; lia). rewrite orb_false_r.
  destruct (len =? 0) eqn:E0; [done|]. rewrite at_0. cbn [mbind option_bind hd].
  assert (mask !! Z.to_nat len = Some (nth (Z.to_nat len) mask 0)) as ->.
  { assert (len = 1 \/ len = 2 \/ len = 3 \/ len = 4 \/ len = 5 \/ len = 6) as Hc by lia. by decompose [or] Hc; subst len. }
  cbn [mbind option_bind]. rewrite (continue_cont _ [b] s). done.
Qed.

Lemma hd_ok s : bytes_ok s -> byte_ok (hd 0 s).
Proof. intros Hs. destruct s; [unfold byte_ok; cbn; lia|]. by apply bytes_ok_cons in Hs as [? _]. Qed.

Lemma decode_ascii b s : 0 <= b < 0x80 -> utf8_decode (b :: s) = Some (Some (b, 1)) /\ ldap_x_utf8_to_wc (b :: s) = utf8_decode (b :: s).
Proof.
  intros Hb. destruct (decode_len 1 b s) as [E ?]; [by rewrite charlen2_len2, len2_ascii|lia|]. split; [|done]. rewrite E.
  change (nth (Z.to_nat 1) mask 0) with (2 ^ 7 - 1). rewrite land_ones_mod, Z.mod_small by lia. done.
Qed.

Lemma decode_invalid b s : byte_ok b -> 0x80 <= b < 0xc0 \/ 0xfe <= b ->
  utf8_decode (b :: s) = Some None /\ ldap_x_utf8_to_wc (b :: s) = utf8_decode (b :: s).
Proof. intros Hb Hr. destruct (decode_len 0 b s) as [E ?]; [by rewrite charlen2_len2, len2_invalid|lia|]. split; [by rewrite E|done]. Qed.

Lemma decode_multi n b s : bytes_ok s -> (1 <= n <= 5)%nat -> lead n <= b < lead n + width n ->
  utf8_decode (b :: s) = Some (if bool_decide (len2 b (hd 0 s) = Some 0) then None
                               else ch ← cont n s (b - lead n); Some (ch, Z.of_nat n + 1)) /\
  ldap_x_utf8_to_wc (b :: s) = utf8_decode (b :: s).
Proof.
  intros Hs Hn Hb. destruct (len2_any n b (hd 0 s) (hd_ok s Hs) Hn Hb) as [E|E].
  - destruct (decode_len 0 b s) as [E' ?]; [by rewrite charlen2_len2|lia|]. split; [|done]. by rewrite E', bool_decide_eq_true_2.
  - destruct (decode_len (Z.of_nat n + 1) b s) as [E' ?]; [by rewrite charlen2_len2|lia|].
    split; [|done]. rewrite E', bool_decide_eq_false_2 by (rewrite E; intros [=]; lia). f_equal.
    rewrite (proj2 (Z.eqb_neq (Z.of_nat n + 1) 0)) by lia. replace (Z.to_nat (Z.of_nat n + 1)) with (S n) by lia.
    destruct (masked n b Hn Hb) as [Hm Hl]. rewrite (nth_lookup_Some _ _ _ _ Hm), Hl. by rewrite Nat.sub_succ, Nat.sub_0_r.
Qed.

(** Every string is decoded or refused. *)
Lemma decode_total p : bytes_ok p -> exists r, utf8_decode p = Some r /\ ldap_x_utf8_to_wc p = Some r.
Proof.
  intros Hp. destruct p as [|b s]; [by exists (Some (0, 1))|]. apply bytes_ok_cons in Hp as [Hb Hs].
  destruct (byte_class b Hb) as [H|[H|(n & Hn & H)]].
  - destruct (decode_ascii b s ltac:(unfold byte_ok in Hb; lia)) as [E ->]. rewrite E. eauto.
  - destruct (decode_invalid b s Hb H) as [E ->]. rewrite E. eauto.
  - destruct (decode_multi n b s Hs Hn H) as [E ->]. rewrite E. eauto.
Qed.

Lemma least_bound n : (2 <= n <= 5)%nat -> bound (n - 1) = 64 ^ Z.of_nat (n - 1) * least n.
Proof. intros Hn. destruct n as [|[|[|[|[|[|n]]]]]]; try lia; done. Qed.

(** The first two octets are too little just where fewer would have done. *)
Lemma overlong n c : (1 <= n <= 5)%nat -> 0 <= c ->
  (if Nat.eqb n 1 then c / 64 ^ Z.of_nat n * 64 <? 0x80 else c / 64 ^ Z.of_nat (n - 1) <? least n) = (c <? bound (n - 1)).
Proof.
  intros Hn Hc. destruct (Nat.eqb n 1) eqn:E1.
  - apply Nat.eqb_eq in E1 as ->. change (64 ^ Z.of_nat 1) with 64. change (bound (1 - 1)) with 0x80.
    pose proof (Z.div_mod c 64 ltac:(lia)). pose proof (Z.mod_pos_bound c 64 ltac:(lia)).
    destruct (c <? 0x80) eqn:E; zb; [apply Z.ltb_lt|apply Z.ltb_ge]; lia.
  - apply Nat.eqb_neq in E1. rewrite least_bound by lia. pose proof (pow64_pos (n - 1)).
    destruct (c <? _) eqn:E; zb; [apply Z.ltb_lt, Z.div_lt_upper_bound; lia|apply Z.ltb_ge, Z.div_le_lower_bound; lia].
Qed.

(** A character is decoded from its octets, *)
Lemma decode_encode c rest : 0 <= c < 2 ^ 31 -> bytes_ok rest ->
  utf8_decode (ldap_x_ucs4_to_utf8 c ++ rest) = Some (Some (c, Z.of_nat (length (ldap_x_ucs4_to_utf8 c)))).
Proof.
  intros Hc Hr. destruct (encode_shape c Hc) as [[Ha ->]|(n & Hn & Hb & ->)]; [apply decode_ascii; lia|].
  pose proof (bound_below n Hn) as Hbb. pose proof (width_bound n c Hn ltac:(lia)) as Hw. pose proof (pow64_pos n).
  cbn [app]. destruct (decode_multi n (lead n + c / 64 ^ Z.of_nat n) (conts n c ++ rest)) as [-> _];
    [apply bytes_ok_app; split; [apply conts_ok; lia|done]|done|lia|].
  replace (lead n + c / 64 ^ Z.of_nat n - lead n) with (c / 64 ^ Z.of_nat n) by lia.
  rewrite cont_conts by done. cbn [length mbind option_bind]. rewrite length_conts, bool_decide_eq_false_2; [do 3 f_equal; lia|].
  destruct n as [|m]; [lia|]. cbn [conts app hd].
  rewrite (len2_multi (S m)) by (done || lia || (apply Z.mod_pos_bound; lia)).
  replace (lead (S m) + c / 64 ^ Z.of_nat (S m) - lead (S m)) with (c / 64 ^ Z.of_nat (S m)) by lia.
  rewrite <- digit_64. pose proof (overlong (S m) c Hn ltac:(lia)) as Ho. rewrite (Nat.sub_succ m 0), Nat.sub_0_r in Ho, Hb.
  rewrite Ho, (proj2 (Z.ltb_ge c _)) by lia. intros [=].
Qed.

(** and only where they stand. *)
Lemma decode_sound p ch len : bytes_ok p -> p <> [] -> utf8_decode p = Some (Some (ch, len)) ->
  0 <= ch < 2 ^ 31 /\ len = Z.of_nat (length (ldap_x_ucs4_to_utf8 ch)) /\ exists rest, p = ldap_x_ucs4_to_utf8 ch ++ rest.
Proof.
  intros Hp Hne Hd. destruct p as [|b s]; [done|]. clear Hne. apply bytes_ok_cons in Hp as [Hb Hs].
  destruct (byte_class b Hb) as [H|[H|(n & Hn & H)]].
  - unfold byte_ok in Hb. rewrite (proj1 (decode_ascii b s ltac:(lia))) in Hd. injection Hd as <- <-.
    rewrite encode_ascii by lia. split_and!; [lia..|done|]. by exists s.
  - by rewrite (proj1 (decode_invalid b s Hb H)) in Hd.
  - rewrite (proj1 (decode_multi n b s Hs Hn H)) in Hd. injection Hd as Hd.
    destruct (bool_decide _) eqn:E0; [done|]. apply bool_decide_eq_false in E0.
    destruct (cont n s (b - lead n)) as [c|] eqn:Ec; [|done]. injection Hd as <- <-.
    pose proof (bound_below n Hn) as (Hb1 & Hb2 & Hb3). pose proof (pow64_pos n).
    destruct (cont_inv n s (b - lead n) c Hs ltac:(lia) ltac:(nia) Ec) as (G1 & G2 & G3 & G4).
    assert (c < bound n) as Hup.
    { rewrite Hb1, Z.mul_comm. apply Z.nle_gt. intros Hle. apply (Z.div_le_lower_bound _ _ (width n)) in Hle; lia. }
    assert (bound (n - 1) <= c) as Hlow.
    { apply Z.nlt_ge. intros Hlt. apply E0. destruct n as [|m]; [lia|]. cbn [conts] in G2.
      destruct s as [|d s]; [done|]. cbn [take] in G2. injection G2 as -> _. cbn [hd].
      rewrite (len2_multi (S m)) by (done || (apply Z.mod_pos_bound; lia)). rewrite <- G3, <- digit_64.
      pose proof (overlong (S m) c Hn ltac:(lia)) as Ho. rewrite (Nat.sub_succ m 0), Nat.sub_0_r in Ho, Hlt.
      by rewrite Ho, (proj2 (Z.ltb_lt c _)). }
    rewrite (encode_multi n c Hn (conj Hlow Hup)), G3. cbn [length app]. rewrite length_conts. split_and!; [lia..|].
    exists (drop n s). rewrite <- G2, take_drop. f_equal. lia.
Qed.
