(* ===== verification/Utf8Strings.v ===== *)
(** * Strings of characters

    What the functions of utf-8.c do to a string that encodes characters, in terms
    of the characters. *)

From Stdlib Require Import Ascii String.
From stdpp Require Import sets.
From S2P Require Import Prelude Attr Utf8 Utf8Facts.

Local Open Scope Z_scope.
Local Abbreviation length := List.length.

(** The octets of a sequence of characters, none of them NUL. *)
Definition code (cs : list Z) : list Z := concat (map ldap_x_ucs4_to_utf8 cs).

Definition char_ok (c : Z) : Prop := 0 < c < 2 ^ 31.

Lemma code_ok cs : Forall char_ok cs -> bytes_ok (code cs).
Proof.
  induction 1 as [|c cs [H1 H2] Hcs IH]; [constructor|]. cbn. apply bytes_ok_app. split; [apply encode_ok; lia|done].
Qed.

Lemma length_code_cons c cs : length (code (c :: cs)) = (length (ldap_x_ucs4_to_utf8 c) + length (code cs))%nat.
Proof. cbn. by rewrite length_app. Qed.

Lemma length_code_le cs : Z.of_nat (length (code cs)) <= 6 * Z.of_nat (length cs).
Proof.
  induction cs as [|c cs IH]; [done|]. rewrite length_code_cons. cbn [length].
  assert (length (ldap_x_ucs4_to_utf8 c) <= 6)%nat; [|lia]. unfold ldap_x_ucs4_to_utf8. cbv zeta. repeat case_match; cbn; lia.
Qed.

Lemma code_app cs ds : code (cs ++ ds) = code cs ++ code ds.
Proof. unfold code. by rewrite map_app, concat_app. Qed.

Lemma code_cons_not_nil c cs : char_ok c -> exists b s, code (c :: cs) = b :: s.
Proof.
  intros [H1 H2]. pose proof (length_encode_pos c ltac:(lia)). cbn. destruct (ldap_x_ucs4_to_utf8 c); cbn in *; [lia|eauto].
Qed.

(** ** Advancing *)

Definition starts_char (s : list Z) : Prop := match s with [] => True | b :: _ => is_cont b = false end.

Lemma code_starts cs : Forall char_ok cs -> starts_char (code cs).
Proof.
  intros H. destruct H as [|c cs [H1 H2] Hcs]; [done|]. unfold code. cbn [map concat].
  destruct (encode_shape c ltac:(lia)) as [[Ha ->]|(n & Hn & Hb & ->)]; cbn [app starts_char].
  - rewrite is_cont_range by (unfold byte_ok; lia). rewrite (proj2 (Z.leb_gt 0x80 c)) by lia. done.
  - pose proof (lead_range n _ Hn (width_bound n c Hn ltac:(pose proof (bound_below n Hn); lia))).
    rewrite is_cont_range by (unfold byte_ok; lia). rewrite (proj2 (Z.ltb_ge _ 0xc0)) by lia. apply andb_false_r.
Qed.

Lemma skipped_conts n c : forall m s, 0 <= c -> (n <= m)%nat -> starts_char s -> skipped m (conts n c ++ s) = n.
Proof.
  induction n as [|n IH]; intros m s Hc Hm Hs.
  - destruct m, s as [|b s]; try done. cbn in *. unfold is_cont in Hs. by rewrite Hs.
  - destruct m as [|m]; [lia|]. cbn [conts app skipped]. pose proof (Z.mod_pos_bound (c / 64 ^ Z.of_nat n) 64 ltac:(lia)).
    assert (is_cont (0x80 + (c / 64 ^ Z.of_nat n) mod 64) = true) as E.
    { rewrite is_cont_range by (unfold byte_ok; lia). apply andb_true_iff. split; [apply Z.leb_le|apply Z.ltb_lt]; lia. }
    unfold is_cont in E. rewrite E. cbn [negb]. f_equal. apply IH; [done|lia|done].
Qed.

Lemma ascii_high b : byte_ok b -> LDAP_UTF8_ISASCII b = (b <? 0x80).
Proof.
  intros Hb. apply Bool.eqb_prop. revert b Hb. apply (byte_check (fun b => Bool.eqb (LDAP_UTF8_ISASCII b) (b <? 0x80))). by vm_compute.
Qed.

Lemma next_char c s : char_ok c -> starts_char s ->
  ldap_utf8_next (ldap_x_ucs4_to_utf8 c ++ s) = Some (length (ldap_x_ucs4_to_utf8 c)).
Proof.
  intros [H1 H2] Hs. destruct (encode_shape c ltac:(lia)) as [[Ha ->]|(n & Hn & Hb & ->)]; cbn [app]; rewrite next_spec.
  - rewrite ascii_high by (unfold byte_ok; lia). by rewrite (proj2 (Z.ltb_lt c 0x80)).
  - pose proof (lead_range n _ Hn (width_bound n c Hn ltac:(pose proof (bound_below n Hn); lia))).
    rewrite ascii_high by (unfold byte_ok; lia). rewrite (proj2 (Z.ltb_ge _ 0x80)) by lia.
    rewrite skipped_conts by (done || lia). cbn [length]. by rewrite length_conts.
Qed.

Lemma next_code c cs : char_ok c -> Forall char_ok cs -> ldap_utf8_next (code (c :: cs)) = Some (length (ldap_x_ucs4_to_utf8 c)).
Proof. intros Hc Hcs. apply next_char; [done|]. by apply code_starts. Qed.

Lemma drop_code c cs : drop (length (ldap_x_ucs4_to_utf8 c)) (code (c :: cs)) = code cs.
Proof. apply drop_app_length. Qed.

Lemma ucs4_code c cs : char_ok c -> Forall char_ok cs -> ldap_x_utf8_to_ucs4 (code (c :: cs)) = Some c.
Proof.
  intros [H1 H2] Hcs. unfold ldap_x_utf8_to_ucs4, code. cbn [map concat]. rewrite decode_encode by (try lia; by apply code_ok). done.
Qed.

Lemma length_le_code cs : Forall char_ok cs -> (length cs <= length (code cs))%nat.
Proof.
  induction 1 as [|c cs [H1 H2] Hcs IH]; [done|]. rewrite length_code_cons. pose proof (length_encode_pos c ltac:(lia)). cbn [length]. lia.
Qed.

Lemma chars_loop_code cs : Forall char_ok cs -> forall fuel n, (length cs <= fuel)%nat ->
  chars_loop fuel (code cs) n = Some (n + Z.of_nat (length cs)).
Proof.
  induction 1 as [|c cs Hc Hcs IH]; intros fuel n Hf; [destruct fuel; cbn; f_equal; lia|]. destruct fuel as [|fuel]; [cbn in Hf; lia|].
  destruct (code_cons_not_nil c cs Hc) as (b & s & E). cbn [chars_loop]. rewrite E. rewrite <- E, next_code by done.
  cbn [mbind option_bind]. rewrite drop_code, IH by (cbn in Hf; lia). cbn [length]. f_equal. lia.
Qed.

(** ** Searching *)

(** The characters in front of the first one with a property, and the rest. *)
Fixpoint before (f : Z -> bool) (cs : list Z) : list Z :=
  match cs with [] => [] | c :: cs => if f c then [] else c :: before f cs end.

Fixpoint from (f : Z -> bool) (cs : list Z) : list Z :=
  match cs with [] => [] | c :: rest => if f c then cs else from f rest end.

Lemma before_from f cs : before f cs ++ from f cs = cs.
Proof. induction cs as [|c cs IH]; [done|]. cbn. destruct (f c); [done|]. cbn. by rewrite IH. Qed.

Lemma Forall_from (P : Z -> Prop) f cs : Forall P cs -> Forall P (from f cs).
Proof. intros H. rewrite <- (before_from f cs) in H. by apply Forall_app in H as [_ ?]. Qed.

Lemma before_ext f g cs : (forall c, f c = g c) -> before f cs = before g cs.
Proof. intros H. induction cs as [|c cs IH]; [done|]. cbn. by rewrite H, IH. Qed.

Definition member (set : list Z) (c : Z) : bool := bool_decide (c ∈ set).

Lemma in_set_code c cs set : char_ok c -> Forall char_ok cs -> Forall char_ok set ->
  forall fuel, (length set <= fuel)%nat -> in_set fuel (code (c :: cs)) (code set) = Some (member set c).
Proof.
  intros Hc Hcs. unfold member. induction 1 as [|d set Hd Hset IH]; intros fuel Hf.
  { rewrite bool_decide_eq_false_2 by set_solver. by destruct fuel. }
  destruct fuel as [|fuel]; [cbn in Hf; lia|]. destruct (code_cons_not_nil d set Hd) as (b & s & E).
  cbn [in_set]. rewrite E. rewrite <- E, !ucs4_code by done. cbn [mbind option_bind]. destruct (c =? d) eqn:Ecd; zb.
  - subst d. rewrite bool_decide_eq_true_2 by set_solver. done.
  - rewrite next_code by done. cbn [mbind option_bind]. rewrite drop_code, IH by (cbn in Hf; lia). f_equal.
    apply bool_decide_ext. set_solver.
Qed.

Lemma in_set_length c cs set : char_ok c -> Forall char_ok cs -> Forall char_ok set ->
  in_set (length (code set)) (code (c :: cs)) (code set) = Some (member set c).
Proof. intros Hc Hcs Hset. apply in_set_code; try done. by apply length_le_code. Qed.

Lemma span_code want set cs : Forall char_ok set -> Forall char_ok cs -> forall fuel off, (length cs <= fuel)%nat ->
  span want fuel (code cs) (code set) off = Some (off + length (code (before (fun c => Bool.eqb (member set c) want) cs)))%nat.
Proof.
  intros Hset. induction 1 as [|c cs Hc Hcs IH]; intros fuel off Hf; [destruct fuel; cbn; f_equal; lia|].
  destruct fuel as [|fuel]; [cbn in Hf; lia|]. destruct (code_cons_not_nil c cs Hc) as (b & s & E).
  cbn [span]. rewrite E. rewrite <- E, in_set_length by done. cbn [mbind option_bind before].
  destruct (Bool.eqb _ _); [cbn; f_equal; lia|]. rewrite next_code by done. cbn [mbind option_bind].
  rewrite drop_code, IH by (cbn in Hf; lia). rewrite length_code_cons. f_equal. lia.
Qed.

Lemma strcspn_code set cs : Forall char_ok set -> Forall char_ok cs ->
  ldap_utf8_strcspn (code cs) (code set) = Some (length (code (before (member set) cs))).
Proof.
  intros Hset Hcs. unfold ldap_utf8_strcspn. rewrite span_code by (done || by apply length_le_code). cbn [Nat.add]. do 3 f_equal.
  apply before_ext. intros c. by destruct (member set c).
Qed.

Lemma strspn_code set cs : Forall char_ok set -> Forall char_ok cs ->
  ldap_utf8_strspn (code cs) (code set) = Some (length (code (before (fun c => negb (member set c)) cs))).
Proof.
  intros Hset Hcs. unfold ldap_utf8_strspn. rewrite span_code by (done || by apply length_le_code). cbn [Nat.add]. done.
Qed.

Lemma drop_before f cs : drop (length (code (before f cs))) (code cs) = code (from f cs).
Proof. rewrite <- (before_from f cs) at 2. rewrite code_app. apply drop_app_length. Qed.

Lemma take_before f cs : take (length (code (before f cs))) (code cs) = code (before f cs).
Proof. rewrite <- (before_from f cs) at 2. rewrite code_app. apply take_app_length. Qed.

Lemma strpbrk_code set cs : Forall char_ok set -> Forall char_ok cs -> forall fuel, (length cs <= fuel)%nat ->
  strpbrk_loop fuel (code cs) (code set) = Some (match from (member set) cs with [] => None | r => Some (code r) end).
Proof.
  intros Hset. induction 1 as [|c cs Hc Hcs IH]; intros fuel Hf; [by destruct fuel|].
  destruct fuel as [|fuel]; [cbn in Hf; lia|]. destruct (code_cons_not_nil c cs Hc) as (b & s & E).
  cbn [strpbrk_loop]. rewrite E. rewrite <- E, in_set_length by done. cbn [mbind option_bind from].
  destruct (member set c); [done|]. rewrite next_code by done. cbn [mbind option_bind].
  rewrite drop_code. apply IH. cbn in Hf. lia.
Qed.

(** The words between separators: the next one, and what is left behind the
    separator that ends it. *)
Definition next_word (sep cs : list Z) : option (list Z * list Z) :=
  match from (fun c => negb (member sep c)) cs with
  | [] => None
  | w => Some (before (member sep) w, tl (from (member sep) w))
  end.

Lemma strtok_code sep cs : Forall char_ok sep -> Forall char_ok cs ->
  ldap_utf8_strtok (code cs) (code sep) = Some ('(w, rest) ← next_word sep cs; Some (code w, code rest)).
Proof.
  intros Hsep Hcs. unfold ldap_utf8_strtok, next_word. rewrite strspn_code by done. cbn [mbind option_bind].
  rewrite drop_before. pose proof (Forall_from char_ok (fun c => negb (member sep c)) cs Hcs) as Hw.
  revert Hw. generalize (from (fun c => negb (member sep c)) cs). intros w Hw.
  destruct Hw as [|c w Hc Hw]; [done|]. destruct (code_cons_not_nil c w Hc) as (b & s & E). rewrite E. rewrite <- E.
  rewrite strcspn_code by (done || by constructor). cbn [mbind option_bind]. rewrite drop_before, take_before.
  pose proof (Forall_from char_ok (member sep) (c :: w) ltac:(by constructor)) as Hr. revert Hr.
  generalize (from (member sep) (c :: w)). intros r Hr. destruct Hr as [|d r Hd Hr]; [done|].
  destruct (code_cons_not_nil d r Hd) as (b' & s' & E'). rewrite E'. rewrite <- E', next_code by done.
  cbn [mbind option_bind tl]. by rewrite drop_code.
Qed.

(** * Wide characters and characters of a fixed width *)

Local Abbreviation encode := ldap_x_ucs4_to_utf8.

(** ** Wide characters *)

Lemma wc_to_utf8_spec wc count : 0 <= wc ->
  ldap_x_wc_to_utf8 wc count =
  match count with
  | None => (Z.of_nat (length (encode wc)), [])
  | Some k => if k >=? Z.of_nat (length (encode wc)) then (Z.of_nat (length (encode wc)), encode wc) else (0, [])
  end.
Proof.
  intros Hwc. unfold ldap_x_wc_to_utf8, ldap_x_ucs4_to_utf8. cbv zeta. rewrite (proj2 (Z.ltb_ge wc 0)) by done.
  by repeat case_match.
Qed.

Lemma wc_negative wc count : wc < 0 -> ldap_x_wc_to_utf8 wc count = (-1, []).
Proof. intros H. unfold ldap_x_wc_to_utf8. by rewrite (proj2 (Z.ltb_lt wc 0)). Qed.

Lemma wcs_size_code cs : Forall char_ok cs -> forall len, 0 <= len -> len + Z.of_nat (length (code cs)) < 2 ^ 31 ->
  wcs_size cs len = len + Z.of_nat (length (code cs)).
Proof.
  induction 1 as [|c cs [H1 H2] Hcs IH]; intros len Hl Hs; [cbn; lia|]. rewrite length_code_cons in *. cbn [wcs_size].
  rewrite wc_to_utf8_spec by lia. cbn [fst]. rewrite (proj2 (Z.eqb_neq _ (-1))) by lia.
  rewrite swrap_small by (change (2 ^ (32 - 1)) with (2 ^ 31); lia). rewrite IH by lia. lia.
Qed.

(** The conversion writes the characters that fit. *)
Lemma wcs_loop_code cs : Forall char_ok cs -> forall n out count, 0 < n -> 0 <= count ->
  exists p q n', cs = p ++ q /\ wcs_loop cs n out count = (n', out ++ code p, count - Z.of_nat (length (code p))) /\
    Z.of_nat (length (code p)) <= count /\
    match q with [] => 0 < n' | c :: _ => n' = 0 /\ count < Z.of_nat (length (code p) + length (encode c)) end.
Proof.
  induction 1 as [|c cs [H1 H2] Hcs IH]; intros n out count Hn Hc.
  { exists [], [], n. cbn. rewrite app_nil_r, Z.sub_0_r. done. }
  cbn [wcs_loop]. rewrite wc_to_utf8_spec by lia. pose proof (length_encode_pos c ltac:(lia)) as Hl.
  destruct (count >=? _) eqn:E; zb.
  - rewrite (proj2 (Z.leb_gt _ 0)) by lia.
    destruct (IH (Z.of_nat (length (encode c))) (out ++ encode c) (count - Z.of_nat (length (encode c))) ltac:(lia) ltac:(lia))
      as (p & q & n' & -> & -> & Hp & Hq).
    exists (c :: p), q, n'. rewrite length_code_cons. split_and!; [done| |lia|].
    + rewrite <- app_assoc. change (encode c ++ code p) with (code (c :: p)). f_equal. lia.
    + destruct q; [done|]. split; [tauto|lia].
  - exists [], (c :: cs), 0. cbn. rewrite app_nil_r, Z.sub_0_r. split_and!; (done || lia).
Qed.

(** Reading back. *)
Lemma utf8s_loop_code cs : Forall char_ok cs -> forall fuel room out, (length cs <= fuel)%nat ->
  utf8s_loop fuel room (code cs) out = Some (true, out ++ match room with None => cs | Some k => take k cs end).
Proof.
  induction 1 as [|c cs [H1 H2] Hcs IH]; intros fuel room out Hf.
  { destruct fuel, room; cbn; by rewrite ?take_nil, app_nil_r. }
  destruct fuel as [|fuel]; [cbn in Hf; lia|]. destruct (code_cons_not_nil c cs (conj H1 H2)) as (b & s & E).
  cbn [utf8s_loop]. rewrite E. rewrite <- E. destruct (decode_total (code (c :: cs))) as (r & Hr1 & Hr2); [apply code_ok; by constructor|].
  assert (r = Some (c, Z.of_nat (length (encode c)))) as ->.
  { pose proof (decode_encode c (code cs) ltac:(lia) (code_ok cs Hcs)) as Hd. unfold code in Hr1. cbn [map concat] in Hr1.
    fold (code cs) in Hr1. congruence. }
  rewrite Hr2. cbn [mbind option_bind]. rewrite Nat2Z.id, drop_code.
  destruct room as [[|k]|]; [by rewrite take_0, app_nil_r|..]; cbn [fmap option_fmap option_map pred]; rewrite IH by (cbn in Hf; lia);
    by rewrite <- app_assoc.
Qed.

(** What is converted are the octets of characters. *)
Definition enough (room : option nat) (s : list Z) : Prop := match room with Some k => (length s <= k)%nat | None => True end.

Lemma utf8s_loop_step fuel room s r out : s <> [] -> enough room s -> ldap_x_utf8_to_wc s = Some r ->
  utf8s_loop (S fuel) room s out =
  match r with
  | None => Some (false, out)
  | Some (ch, len) => utf8s_loop fuel (pred <$> room) (drop (Z.to_nat len) s) (out ++ [ch])
  end.
Proof.
  intros Hne Hroom Hr. destruct s as [|b s]; [done|]. cbn [utf8s_loop]. rewrite Hr. cbn [mbind option_bind].
  destruct room as [[|k]|]; [cbn in Hroom; lia|by destruct r as [[]|]..].
Qed.

Lemma utf8s_loop_sound fuel : forall room s out, (length s <= fuel)%nat -> enough room s -> bytes_ok s -> 0 ∉ s ->
  exists ok out', utf8s_loop fuel room s out = Some (ok, out') /\
    (ok = true -> exists cs, Forall char_ok cs /\ s = code cs /\ out' = out ++ cs).
Proof.
  induction fuel as [|fuel IH]; intros room s out Hf Hroom Hs H0.
  { destruct s; [|cbn in Hf; lia]. exists true, out. split; [by destruct room|]. intros _. exists []. by rewrite app_nil_r. }
  destruct (decide (s = [])) as [->|Hne].
  { exists true, out. split; [by destruct room|]. intros _. exists []. by rewrite app_nil_r. }
  destruct (decode_total s Hs) as (r & Hr1 & Hr2). rewrite (utf8s_loop_step fuel room s r out Hne Hroom Hr2).
  destruct r as [[ch len]|]; [|by exists false, out].
  destruct (decode_sound s ch len Hs Hne Hr1) as (Hch & -> & rest & ->). rewrite Nat2Z.id, drop_app_length.
  pose proof (length_encode_pos ch Hch). rewrite length_app in Hf. apply bytes_ok_app in Hs as [_ Hs].
  assert (enough (pred <$> room) rest) as Hroom' by (destruct room; cbn in *; [rewrite length_app in Hroom; lia|done]).
  destruct (IH (pred <$> room) rest (out ++ [ch]) ltac:(lia) Hroom' Hs ltac:(set_solver)) as (ok & out' & E & Hok).
  exists ok, out'. split; [done|]. intros Ht. destruct (Hok Ht) as (cs & Hcs & -> & ->). exists (ch :: cs).
  rewrite <- app_assoc. split_and!; [|done..]. constructor; [|done]. split; [|lia].
  apply Z.le_neq. split; [lia|]. intros <-. apply H0. rewrite encode_ascii by lia. set_solver.
Qed.

Lemma utf8s_to_wcs_code cs k : Forall char_ok cs -> (length cs < k)%nat -> Z.of_nat (length cs) < 2 ^ 31 ->
  ldap_x_utf8s_to_wcs (code cs) (Some k) = Some (Z.of_nat (length cs), cs ++ [0]).
Proof.
  intros Hcs Hk Hs. unfold ldap_x_utf8s_to_wcs. destruct Hcs as [|c cs Hc Hcs]; [done|].
  destruct (code_cons_not_nil c cs Hc) as (b & s & E). rewrite E. rewrite <- E.
  rewrite utf8s_loop_code by (try apply length_le_code; by constructor). cbn [mbind option_bind app].
  rewrite firstn_all2 by lia. rewrite (proj2 (Nat.leb_gt _ _)) by done.
  by rewrite swrap_small by (change (2 ^ (32 - 1)) with (2 ^ 31); lia).
Qed.

(** ** Characters of a fixed width *)

(** The octets of a character, the highest first. *)
Fixpoint be (csize : nat) (u : Z) : list Z :=
  match csize with O => [] | S n => (u / 256 ^ Z.of_nat n) mod 256 :: be n u end.

Lemma length_be n u : length (be n u) = n.
Proof. induction n; cbn; auto. Qed.

Lemma octet_more x c : 0 <= x < 2 ^ 24 -> byte_ok c -> Z.lor (swrap 32 (Z.shiftl x 8)) c = swrap 32 (x * 256 + c).
Proof.
  unfold byte_ok. intros Hx Hc. rewrite Z.shiftl_mul_pow2 by lia. change (2 ^ 8) with 256.
  destruct (decide (x < 2 ^ 23)).
  - rewrite !swrap_small by lia. pose proof (lor_shiftl_low x c 8 ltac:(lia) ltac:(lia)) as H.
    by rewrite Z.shiftl_mul_pow2 in H by lia.
  - assert (forall z, 2 ^ 31 <= z < 2 ^ 32 -> swrap 32 z = z - 2 ^ 32) as Hw.
    { intros z Hz. unfold swrap. change (2 ^ (32 - 1)) with (2 ^ 31). rewrite <- (Z_mod_plus_full _ (-1)), Z.mod_small; lia. }
    rewrite !Hw by lia. replace (x * 256 - 2 ^ 32) with (Z.shiftl (x - 2 ^ 24) 8) by (rewrite Z.shiftl_mul_pow2 by lia; lia).
    rewrite lor_shiftl_low by lia. lia.
Qed.

Lemma ucs_char_be n u s : 0 <= u < 2 ^ 32 -> ucs_char n (be n u ++ s) (u / 256 ^ Z.of_nat n) = Some (swrap 32 u, s) \/ n = 0%nat.
Proof.
  intros Hu. induction n as [|n IH]; [by right|left]. cbn [ucs_char be app].
  assert (0 < 256 ^ Z.of_nat n) as Hp by (apply Z.pow_pos_nonneg; lia).
  rewrite octet_more; [|split; [apply Z.div_pos|apply Z.div_lt_upper_bound]; rewrite ?pow256_S; nia|apply byte_ok_mod].
  assert (u / 256 ^ Z.of_nat (S n) * 256 + (u / 256 ^ Z.of_nat n) mod 256 = u / 256 ^ Z.of_nat n) as ->.
  { rewrite pow256_S, (Z.mul_comm 256), <- Z.div_div by lia. pose proof (Z.div_mod (u / 256 ^ Z.of_nat n) 256 ltac:(lia)). lia. }
  destruct IH as [IH | ->]; [|cbn; by rewrite Z.div_1_r].
  destruct n as [|n]; [cbn; by rewrite Z.div_1_r|].
  rewrite swrap_small; [done|lia|]. split; [transitivity 0; [lia|apply Z.div_pos; lia]|].
  apply Z.div_lt_upper_bound; [lia|]. rewrite pow256_S. change (2 ^ (32 - 1)) with (2 ^ 31). nia.
Qed.

Definition ucs_ok (csize : nat) (u : Z) : Prop := 0 <= u < 256 ^ Z.of_nat csize.

Lemma ucs_char_ok csize u s : (1 <= csize <= 4)%nat -> ucs_ok csize u -> ucs_char csize (be csize u ++ s) 0 = Some (swrap 32 u, s).
Proof.
  intros Hn Hu. unfold ucs_ok in Hu. assert (256 ^ Z.of_nat csize <= 256 ^ 4) by (apply Z.pow_le_mono_r; lia).
  destruct (ucs_char_be csize u s ltac:(change (2 ^ 32) with (256 ^ 4); lia)) as [H1|]; [|lia]. by rewrite Z.div_small in H1.
Qed.

Lemma utf8len_encode c : LDAP_UCS_UTF8LEN c = Z.of_nat (length (encode c)).
Proof. unfold LDAP_UCS_UTF8LEN, ldap_x_ucs4_to_utf8. cbv zeta. by repeat case_match. Qed.

Lemma swrap32_range u : - 2 ^ 31 <= swrap 32 u < 2 ^ 31.
Proof. unfold swrap. pose proof (Z.mod_pos_bound (u + 2 ^ (32 - 1)) (2 ^ 32) ltac:(lia)). change (2 ^ (32 - 1)) with (2 ^ 31) in *. lia. Qed.

Section ucs.
  Context (csize : nat) (Hcs : (1 <= csize <= 4)%nat).

Definition ucs_octets (us : list Z) : list Z := concat (map (be csize) us).

Lemma length_ucs_octets us : length (ucs_octets us) = (length us * csize)%nat.
Proof using Type. clear Hcs. induction us as [|u us IH]; [done|]. unfold ucs_octets in *. cbn. rewrite length_app, length_be. lia. Qed.

Lemma ucs_octets_cons u us : exists b s, ucs_octets (u :: us) = b :: s.
Proof using Hcs. unfold ucs_octets. cbn. destruct csize as [|n]; [lia|]. cbn. eauto. Qed.

Lemma ucs_length_ok us : Forall (ucs_ok csize) us -> forall fuel l, (length us <= fuel)%nat -> 0 <= l -> l + 6 * Z.of_nat (length us) < 2 ^ 31 ->
  ucs_length fuel csize (ucs_octets us) l =
  Some (if forallb (fun u => 0 <=? swrap 32 u) us then Some (l + Z.of_nat (length (code (map (swrap 32) us)))) else None).
Proof using Hcs.
  induction 1 as [|u us Hu Hus IH]; intros fuel l Hf Hl Hs; [destruct fuel; cbn; by rewrite Z.add_0_r|].
  destruct fuel as [|fuel]; [cbn in Hf; lia|]. destruct (ucs_octets_cons u us) as (b & s & E). cbn [ucs_length]. rewrite E. rewrite <- E.
  change (ucs_octets (u :: us)) with (be csize u ++ ucs_octets us). rewrite ucs_char_ok by done. cbn [mbind option_bind forallb map].
  rewrite utf8len_encode, length_code_cons. destruct (0 <=? swrap 32 u) eqn:E0; zb.
  - pose proof (length_encode_pos (swrap 32 u) ltac:(pose proof (swrap32_range u); lia)).
    cbn [length] in Hf, Hs. rewrite (proj2 (Z.eqb_neq _ 0)), (proj2 (Z.ltb_lt _ (2 ^ 31))) by lia. rewrite IH by lia. cbn [andb]. destruct (forallb _ us); [|done]. do 2 f_equal. lia.
  - assert (encode (swrap 32 u) = []) as -> by (unfold ldap_x_ucs4_to_utf8; by rewrite (proj2 (Z.ltb_lt _ 0)) by lia). done.
Qed.

Lemma ucs_write_ok us : Forall (ucs_ok csize) us -> forall fuel, (length us <= fuel)%nat ->
  ucs_write fuel csize (ucs_octets us) = Some (code (map (swrap 32) us)).
Proof using Hcs.
  induction 1 as [|u us Hu Hus IH]; intros fuel Hf; [by destruct fuel|].
  destruct fuel as [|fuel]; [cbn in Hf; lia|]. destruct (ucs_octets_cons u us) as (b & s & E). cbn [ucs_write]. rewrite E. rewrite <- E.
  change (ucs_octets (u :: us)) with (be csize u ++ ucs_octets us). rewrite ucs_char_ok by done. cbn [mbind option_bind map].
  rewrite IH by (cbn in Hf; lia). done.
Qed.

End ucs.

(** The octets behind the last whole character are left out. *)
Lemma whole_characters k us tail : (2 ^ k <= 4)%nat -> (length tail < 2 ^ k)%nat ->
  take (Z.to_nat (Z.land (Z.of_nat (length (ucs_octets (2 ^ k) us ++ tail))) (Z.lnot (Z.of_nat (2 ^ k) - 1)))) (ucs_octets (2 ^ k) us ++ tail) =
  ucs_octets (2 ^ k) us.
Proof.
  intros Hk Ht. rewrite <- (take_app_length (ucs_octets (2 ^ k) us) tail) at 3. f_equal. rewrite length_app, length_ucs_octets.
  assert (Z.of_nat (2 ^ k) = 2 ^ Z.of_nat k) as E by (rewrite Nat2Z.inj_pow; done).
  rewrite <- Z.ldiff_land, E, Z.sub_1_r, <- Z.ones_equiv. rewrite Z.ldiff_ones_r by lia.
  rewrite Z.shiftl_mul_pow2, Z.shiftr_div_pow2 by lia. rewrite Nat2Z.inj_add, Nat2Z.inj_mul, E.
  rewrite Z.add_comm, Z.div_add by lia. rewrite Z.div_small by lia.
  apply Nat2Z.inj. rewrite Z2Nat.id by lia. rewrite Nat2Z.inj_mul, E. lia.
Qed.

(** A negative character is one of 2^31 or more. *)
Lemma swrap32_sign u : 0 <= u < 2 ^ 32 -> (0 <=? swrap 32 u) = (u <? 2 ^ 31).
Proof.
  intros Hu. unfold swrap. change (2 ^ (32 - 1)) with (2 ^ 31). destruct (u <? 2 ^ 31) eqn:E; zb.
  - rewrite Z.mod_small by lia. apply Z.leb_le. lia.
  - rewrite <- (Z_mod_plus_full _ (-1)), Z.mod_small by lia. apply Z.leb_gt. lia.
Qed.

Lemma ucs_ok_32 csize u : (csize <= 4)%nat -> ucs_ok csize u -> 0 <= u < 2 ^ 32.
Proof. unfold ucs_ok. intros Hn Hu. assert (256 ^ Z.of_nat csize <= 256 ^ 4) by (apply Z.pow_le_mono_r; lia). lia. Qed.

Lemma ucs_signs csize us : (csize <= 4)%nat -> Forall (ucs_ok csize) us ->
  forallb (fun u => 0 <=? swrap 32 u) us = forallb (fun u => u <? 2 ^ 31) us.
Proof.
  intros Hn. induction 1 as [|u us Hu Hus IH]; [done|]. cbn [forallb]. by rewrite IH, swrap32_sign by (by eapply ucs_ok_32).
Qed.

Lemma ucs_positive csize us : (csize <= 4)%nat -> Forall (ucs_ok csize) us -> forallb (fun u => u <? 2 ^ 31) us = true ->
  map (swrap 32) us = us.
Proof.
  intros Hn. induction 1 as [|u us Hu Hus IH]; [done|]. cbn [forallb map]. intros [H1 H2]%andb_true_iff. apply Z.ltb_lt in H1.
  pose proof (ucs_ok_32 csize u Hn Hu). rewrite IH by done. f_equal. apply swrap_small; [lia|]. change (2 ^ (32 - 1)) with (2 ^ 31). lia.
Qed.
