(* ===== verification/Utf8Theorems.v ===== *)
(** * UTF-8 is decoded as it is encoded

    The shortest encodings are converted and what is no UTF-8 is refused, the searches
    are the searches among the characters, and the conversions from characters of other
    widths can be read back. *)

From Stdlib Require Import Ascii String.
From S2P Require Import Prelude Attr Utf8 Utf8Facts Utf8Strings.

Local Open Scope Z_scope.
Local Abbreviation length := List.length.

(** The strings that are converted are the concatenations of the shortest encodings
    of characters below 2^31. *)
Lemma utf8s_decoded_shortest s :
  bytes_ok s -> 0 ∉ s -> Z.of_nat (length s) < 2 ^ 31 ->
  exists r, ldap_x_utf8s_to_wcs s (Some (S (length s))) = Some r /\
    ((r.1 = -1 /\ forall cs, Forall char_ok cs -> s <> code cs) \/
     (exists cs, Forall char_ok cs /\ s = code cs /\ r = (Z.of_nat (length cs), cs ++ [0]))).
Proof.
  intros Hs H0 Hlen. destruct (utf8s_loop_sound (length s) (Some (S (length s))) s [] ltac:(lia) ltac:(cbn; lia) Hs H0) as (ok & out & E & Hok).
  destruct ok.
  - destruct (Hok eq_refl) as (cs & Hcs & -> & ->). exists (Z.of_nat (length cs), cs ++ [0]). split; [|right; eauto].
    pose proof (length_le_code cs Hcs). apply utf8s_to_wcs_code; [done|lia..].
  - exists (-1, out). split; [unfold ldap_x_utf8s_to_wcs; rewrite E; by destruct s|]. left. split; [done|]. intros cs Hcs ->.
    rewrite utf8s_loop_code in E by (done || by apply length_le_code). done.
Qed.

(** A sequence of the form of UTF-8, of the least length or not: an ASCII octet, or a
    first octet that announces [n] more and so many that continue it. *)
Definition utf8_sequence (q : list Z) : Prop :=
  (exists b, q = [b] /\ 0 <= b < 0x80) \/
  (exists n b rest, q = b :: rest /\ (1 <= n <= 5)%nat /\ lead n <= b < lead n + width n /\
     length rest = n /\ Forall (fun c => 0x80 <= c < 0xc0) rest).

Lemma conts_continue n c : Forall (fun d => 0x80 <= d < 0xc0) (conts n c).
Proof.
  induction n as [|n IH]; [constructor|]. cbn [conts]. constructor; [|done].
  pose proof (Z.mod_pos_bound (c / 64 ^ Z.of_nat n) 64 ltac:(lia)). lia.
Qed.

Lemma encode_sequence c : char_ok c -> utf8_sequence (ldap_x_ucs4_to_utf8 c).
Proof.
  intros Hc. unfold char_ok in Hc. destruct (encode_shape c ltac:(lia)) as [[Ha ->]|(n & Hn & Hb & ->)]; [left; exists c; split; [done|lia]|].
  right. pose proof (bound_below n Hn). pose proof (width_bound n c Hn ltac:(lia)).
  do 3 eexists. split; [done|]. split; [done|]. split; [lia|]. split; [apply length_conts|apply conts_continue].
Qed.

Lemma code_sequences cs : Forall char_ok cs -> exists qs, Forall utf8_sequence qs /\ code cs = concat qs.
Proof.
  intros Hcs. exists (ldap_x_ucs4_to_utf8 <$> cs). split; [|done].
  apply list.Forall_fmap. eapply list.Forall_impl; [exact Hcs|apply encode_sequence].
Qed.

(** C30: The octets of any characters from 1 to 2^31 - 1, each encoded in the least
    number of octets, are converted to these characters with a NUL behind them, and
    a C string that is not made of sequences of the form of UTF-8 gives [-1]: one
    with an octet that starts no character or does not continue it, or that ends
    within one. Of sequences longer than necessary nothing is stated. The string has
    less than 2^31 octets and the array of wide characters has one for each of them
    and the NUL; no octet behind the end of the string is read. *)
Theorem utf8s_to_wcs_correct s :
  bytes_ok s -> 0 ∉ s -> Z.of_nat (length s) < 2 ^ 31 ->
  exists r, ldap_x_utf8s_to_wcs s (Some (S (length s))) = Some r /\
    (forall cs, Forall char_ok cs -> s = code cs -> r = (Z.of_nat (length cs), cs ++ [0])) /\
    ((forall qs, Forall utf8_sequence qs -> s <> concat qs) -> r.1 = -1).
Proof.
  intros Hs H0 Hlen. destruct (utf8s_decoded_shortest s Hs H0 Hlen) as (r & E & Hr). exists r. split; [done|]. split.
  - intros cs Hcs ->. pose proof (length_le_code cs Hcs). rewrite utf8s_to_wcs_code in E by (done || lia). by injection E.
  - intros Hno. destruct Hr as [[Hr _]|(cs & Hcs & -> & _)]; [done|]. destruct (code_sequences cs Hcs) as (qs & Hqs & Eq). by destruct (Hno qs Hqs).
Qed.

Lemma utf8s_to_wcs_correct_witness :
  ldap_x_utf8s_to_wcs [0xc3; 0xa9; 0x6c; 0xf0; 0x9f; 0x98; 0x80] (Some 8%nat) = Some (3, [0xe9; 0x6c; 0x1f600; 0]) /\
  ldap_x_utf8s_to_wcs [0x61; 0xc3; 0x62] (Some 4%nat) = Some (-1, [0x61]) /\
  exists r, ldap_x_utf8s_to_wcs [0xc3; 0xa9; 0x6c] (Some 4%nat) = Some r /\
    (forall cs, Forall char_ok cs -> [0xc3; 0xa9; 0x6c] = code cs -> r = (Z.of_nat (length cs), cs ++ [0])) /\
    ((forall qs, Forall utf8_sequence qs -> [0xc3; 0xa9; 0x6c] <> concat qs) -> r.1 = -1).
Proof.
  split; [by vm_compute|]. split; [by vm_compute|]. apply (utf8s_to_wcs_correct [0xc3; 0xa9; 0x6c]); [repeat constructor; lia| |cbn; lia].
  by apply (bool_decide_unpack (0 ∉ _)); vm_compute.
Defined.

(** C31: Searching by characters is searching among the characters: [strcspn] and
    [strspn] return the octets of the characters in front of the first one that is,
    or is not, in the set, [strpbrk] the rest from it, and [strtok] the word up to
    the next separator with the rest behind that separator. [chars] counts them. *)
Theorem utf8_searches_characters cs set :
  Forall char_ok cs -> Forall char_ok set ->
  ldap_utf8_chars (code cs) = Some (Z.of_nat (length cs)) /\
  ldap_utf8_strcspn (code cs) (code set) = Some (length (code (before (member set) cs))) /\
  ldap_utf8_strspn (code cs) (code set) = Some (length (code (before (fun c => negb (member set c)) cs))) /\
  ldap_utf8_strpbrk (code cs) (code set) = Some (match from (member set) cs with [] => None | r => Some (code r) end) /\
  ldap_utf8_strtok (code cs) (code set) = Some ('(w, rest) ← next_word set cs; Some (code w, code rest)).
Proof.
  intros Hcs Hset. split_and!.
  - apply (chars_loop_code cs Hcs). by apply length_le_code.
  - by apply strcspn_code.
  - by apply strspn_code.
  - apply strpbrk_code; [done..|]. by apply length_le_code.
  - by apply strtok_code.
Qed.

Lemma utf8_searches_characters_witness :
  ldap_utf8_strtok [0x2c; 0xc3; 0xa9; 0x61; 0xe2; 0x82; 0xac; 0x62] [0xe2; 0x82; 0xac; 0x2c] = Some (Some ([0xc3; 0xa9; 0x61], [0x62])) /\
  ldap_utf8_strtok (code [0x2c; 0xe9; 0x61; 0x20ac; 0x62]) (code [0x20ac; 0x2c]) = Some (Some (code [0xe9; 0x61], code [0x62])).
Proof.
  split; [by vm_compute|].
  destruct (utf8_searches_characters [0x2c; 0xe9; 0x61; 0x20ac; 0x62] [0x20ac; 0x2c]) as (_ & _ & _ & _ & H).
  - repeat constructor; lia.
  - repeat constructor; lia.
  - exact H.
Defined.

(** C32: Fewer than (2^31 - 1) / 6 characters of 1, 2 or 4 octets each are converted to
    the encodings of the characters; what is left behind the last whole character is
    dropped, and if a character is 2^31 or more the result is a syntax error. The
    buffer holds what is written. If no character is NUL, the encodings read back, as
    a C string, as these characters. *)
Theorem ucs_to_utf8s_roundtrip k us tail :
  (2 ^ k <= 4)%nat -> Forall (ucs_ok (2 ^ k)) us -> (length tail < 2 ^ k)%nat -> 6 * Z.of_nat (length us) < 2 ^ 31 - 1 ->
  let out := code us in
  ldap_ucs_to_utf8s (ucs_octets (2 ^ k) us ++ tail) (2 ^ k) =
    (if forallb (fun u => u <? 2 ^ 31) us then Some (LDAP_SUCCESS, Some (Z.of_nat (length out), out))
     else Some (LDAP_INVALID_SYNTAX, None)) /\
  (Forall char_ok us -> ldap_x_utf8s_to_wcs out (Some (S (length us))) = Some (Z.of_nat (length us), us ++ [0])).
Proof.
  intros Hk Hus Ht Hlen out. split; [|intros Hcs; apply utf8s_to_wcs_code; [done|lia..]].
  assert (2 ^ k <> 0)%nat by (apply Nat.pow_nonzero; lia).
  unfold ldap_ucs_to_utf8s. rewrite whole_characters by done.
  assert (length us <= length (ucs_octets (2 ^ k) us))%nat as Hf by (rewrite length_ucs_octets; nia).
  rewrite ucs_length_ok, ucs_write_ok by (done || lia). cbn [mbind option_bind].
  rewrite (ucs_signs (2 ^ k) us) by (done || lia). destruct (forallb _ us) eqn:E; [|done].
  rewrite (ucs_positive (2 ^ k) us) by (done || lia). by rewrite decide_True by (pose proof (length_code_le us); lia).
Qed.

Lemma ucs_to_utf8s_roundtrip_witness :
  ldap_ucs_to_utf8s [0x20; 0xac; 0; 0x61; 7] 2 = Some (LDAP_SUCCESS, Some (4, [0xe2; 0x82; 0xac; 0x61])) /\
  ldap_ucs_to_utf8s [0x80; 0; 0; 0] 4 = Some (LDAP_INVALID_SYNTAX, None) /\
  ldap_x_utf8s_to_wcs (code [0x20ac; 0x61]) (Some 3%nat) = Some (2, [0x20ac; 0x61; 0]).
Proof.
  split_and!; [by vm_compute|by vm_compute|].
  apply (ucs_to_utf8s_roundtrip 1 [0x20ac; 0x61] [7]); repeat constructor; try lia; unfold ucs_ok; cbn; lia.
Defined.

(** Wide characters are converted as far as they fit: the buffer of [count] octets
    receives the encodings of the first characters, as many as fit; if these are
    all, the result is the size computed without a buffer, and a NUL follows if
    there is room; if not, the rest is filled with NULs and the result is [count].
    Either way the string in the buffer reads back as the characters written. *)
Theorem wcs_to_utf8s_fits cs count :
  Forall char_ok cs -> 0 <= count < 2 ^ 31 -> Z.of_nat (length (code cs)) < 2 ^ 31 ->
  exists p q pad, cs = p ++ q /\ Z.of_nat (length (code p ++ replicate pad 0)) <= count /\
    ldap_x_wcs_to_utf8s cs (Some count) =
      (if bool_decide (q = []) then fst (ldap_x_wcs_to_utf8s cs None) else count, code p ++ replicate pad 0) /\
    (q = [] -> pad = if Z.of_nat (length (code p)) =? count then 0%nat else 1%nat) /\
    (forall c q', q = c :: q' -> count < Z.of_nat (length (code (p ++ [c]))) /\
                                 Z.of_nat (length (code p ++ replicate pad 0)) = count) /\
    ldap_x_utf8s_to_wcs (code p) (Some (S (length cs))) = Some (Z.of_nat (length p), p ++ [0]).
Proof.
  intros Hcs Hc Hlen. unfold ldap_x_wcs_to_utf8s. cbn [fst]. rewrite wcs_size_code by (done || lia).
  destruct (wcs_loop_code cs Hcs 1 [] count ltac:(lia) ltac:(lia)) as (p & q & n & -> & -> & Hp & Hq). cbn [app].
  assert (ldap_x_utf8s_to_wcs (code p) (Some (S (length (p ++ q)))) = Some (Z.of_nat (length p), p ++ [0])) as Hback.
  { apply Forall_app in Hcs as [Hcp _]. pose proof (length_le_code p Hcp). apply utf8s_to_wcs_code; [done|rewrite length_app; lia|lia]. }
  rewrite !swrap_small by (change (2 ^ (32 - 1)) with (2 ^ 31); lia).
  destruct q as [|c q].
  - exists p, [], (if Z.of_nat (length (code p)) =? count then 0%nat else 1%nat). rewrite bool_decide_eq_true_2 by done.
    rewrite (proj2 (Z.eqb_neq n 0)), (proj2 (Z.eqb_neq n (-1))) by lia.
    assert ((count - Z.of_nat (length (code p)) =? 0) = (Z.of_nat (length (code p)) =? count)) as -> by (apply Bool.eq_iff_eq_true; rewrite !Z.eqb_eq; lia).
    split_and!; try done; destruct (_ =? count) eqn:E; zb; rewrite ?length_app, ?app_nil_r; cbn; try done; lia.
  - destruct Hq as [-> Hq]. exists p, (c :: q), (Z.to_nat (count - Z.of_nat (length (code p)))).
    rewrite bool_decide_eq_false_2 by done. rewrite length_app, length_replicate. split_and!; try done; try lia.
    + f_equal. cbn. lia.
    + intros c' q' [= <- <-]. rewrite code_app, length_app. cbn. rewrite app_nil_r. lia.
Qed.

Lemma wcs_to_utf8s_fits_witness :
  ldap_x_wcs_to_utf8s [0x61; 0x20ac; 0x62] (Some 3) = (3, [0x61; 0; 0]) /\
  exists p q pad, [0x61; 0x20ac; 0x62] = p ++ q /\ Z.of_nat (length (code p ++ replicate pad 0)) <= 3 /\
    ldap_x_wcs_to_utf8s [0x61; 0x20ac; 0x62] (Some 3) =
      (if bool_decide (q = []) then fst (ldap_x_wcs_to_utf8s [0x61; 0x20ac; 0x62] None) else 3, code p ++ replicate pad 0) /\
    (q = [] -> pad = if Z.of_nat (length (code p)) =? 3 then 0%nat else 1%nat) /\
    (forall c q', q = c :: q' -> 3 < Z.of_nat (length (code (p ++ [c]))) /\
                                 Z.of_nat (length (code p ++ replicate pad 0)) = 3) /\
    ldap_x_utf8s_to_wcs (code p) (Some 4%nat) = Some (Z.of_nat (length p), p ++ [0]).
Proof. split; [by vm_compute|]. apply wcs_to_utf8s_fits; [repeat constructor; lia|lia|vm_compute; done]. Defined.

(** The note in utf-8-conv.c that sequences longer than necessary are decoded does
    not hold, for no sequence. *)
Lemma no_overlong_decoded p ch len : bytes_ok p -> p <> [] -> ldap_x_utf8_to_wc p = Some (Some (ch, len)) ->
  len = LDAP_UCS_UTF8LEN ch.
Proof.
  intros Hp Hne H. destruct (decode_total p Hp) as (r & H1 & H2). rewrite H2 in H. injection H as ->.
  destruct (decode_sound p ch len Hp Hne H1) as (_ & -> & _). by rewrite utf8len_encode.
Qed.

(** An empty string is terminated in a buffer of no characters. *)
Lemma empty_string_overruns : ldap_x_utf8s_to_wcs [] (Some 0%nat) = Some (0, [0]).
Proof. done. Qed.

(** Characters that cannot be decoded are all the same one to the searches: an
    octet that starts no character is found as another one in the set. *)
Lemma invalid_characters_match : ldap_utf8_strcspn [0x61; 0x80] [0xff] = Some 1%nat.
Proof. by vm_compute. Qed.
